(* ===== verification/_CoqProject ===== *)
-Q . S2P
Prelude.v
Wire.v
PacketHeader.v
AckRanges.v
Reader.v
Frames.v
Keyed.v
FlowControl.v
Congestion.v
Bitmap.v
SendBuffer.v
Records.v
Methods.v
Actions.v
PathState.v
Endpoint.v
Credit.v
Ledger.v
Transmit.v
Retransmit.v
Datagram.v
OutputBounds.v
Publication.v
Flight.v
Conservation.v
LedgerSteps.v
StreamSend.v
Receive.v
ReceiveLoop.v
ReceiveSteps.v
ReceiveEffects.v
PathCount.v
Delivery.v
DatagramSpec.v
Bootstrap.v
StatelessReset.v
PacketPool.v
PeerTable.v
UartCodec.v
SortedKeys.v
Registry.v
RegistrySpec.v
RegistryLeases.v
SetupCodec.v
SetupCodecSpec.v
SetupMessages.v
SetupTable.v
SetupTableSpec.v
SetupRetries.v
Router.v
Callback.v
CallbackSpec.v
CallbackOrder.v
Mux.v
MuxSpec.v
MuxExamples.v
Association.v
AssociationSpec.v
Listener.v
Probe.v
ProbeSpec.v
Node.v
RouterEndpoints.v
NodePaths.v
NodeTimer.v
NodeRoutes.v
NodeQuiet.v
NodeCircuits.v
NodeDeadline.v
NodeSpec.v
NodeExamples.v
Mailbox.v
MailboxSpec.v
Bearer.v
BearerSpec.v
HeapPool.v
HeapPoolSpec.v
