(* ===== verification/Prelude.v ===== *)
(** * Verification of the DMesh transport

    DMesh is a mesh network for phones, Linux hosts and ESP32 devices.  Its core
    is [quic-lite], a QUIC-like transport that runs the same protocol code over
    UDP, Wi-Fi NAN, BLE and UART bearers, on hosts and on microcontrollers
    without an allocator.  This library models the protocol core of
    [src/crates/quic-lite] and the UART framing of [src/crates/uart-codec], and
    proves that the code keeps the promises its callers and peers rely on.

    ** The program and how its parts interact

    A bearer hands received bytes to the transport in slots of a device-wide
    packet pool ([packet_pool.rs]; over UART the slot is filled byte by byte by
    the pooled decoder of [uart-codec]), with an opaque peer handle from
    [peer_table.rs].  A node looks the destination up in its registry
    ([relay.rs]): a packet for a forwarding rule has its identifier rewritten in
    place and leaves again, a setup packet goes to the table of setup
    transactions, and a packet of its own goes to the association.  The endpoint
    ([lib.rs]) parses the header, recovers the truncated packet number, decodes
    the frames and applies them: ACK frames to the ledger of transmissions, the
    congestion controllers and the RTT estimators of its paths; MAX frames to the
    send credit; STREAM frames to the receive credit, and then through the
    multiplexer ([mux.rs]) and the ordered delivery ([callback.rs]) to the
    application, whose consumption becomes credit to publish again.  In the other
    direction stream bytes are retained until acknowledged, sent, repaired and
    duplicated under fresh packet numbers, at the times the bearer timer gives.
    Associations ([connection.rs]) start with an OPEN / OPEN_ACK exchange that
    carries each side's receive limits and may pass through relays; a device that
    lost one answers its packets with stateless resets.

    ** Files

    Foundations:
    - [Prelude.v]: outcomes of Rust code ([Ok], [Err] and the panic of an
      out-of-range slice as values), machine integers, slices, big-endian bytes,
      writers into a bounded buffer, and the tactics and rewrite database ([zlen])
      the other files share.
    - [Records.v], [Methods.v]: updates of large records; the monad of methods that
      may change [self] and fail, with its weakest precondition.
    - [Reader.v], [Keyed.v], [Bitmap.v], [SortedKeys.v]: cursor readers, lists
      searched by a key, words of bits, sorted vectors as finite maps.

    Wire formats and the parts of an endpoint ([lib.rs]):
    - [Wire.v], [PacketHeader.v], [Frames.v]: integers, identifiers and the
      transport [Error]; headers, packet numbers and rewriting; every frame.
    - [AckRanges.v], [FlowControl.v], [Congestion.v], [SendBuffer.v]: received
      numbers, credit in both directions, RTT, window and pacer, retained bytes.
    - [PathState.v]: one circuit of an association and its PATH_STATUS exchange.
    - [Bootstrap.v], [StatelessReset.v]: the profile packets and the reset tokens.

    The endpoint ([EndpointState] of [lib.rs], [datagram.rs]):
    - [Endpoint.v] its state, construction and configuration; [Credit.v]
      acknowledgement scheduling and credit publication; [Ledger.v] bearer
      results, losses and the ACK handler; [Transmit.v], [Retransmit.v] and
      [Datagram.v] everything that puts a packet on the wire, and the timer;
      [Receive.v] the receive path.
    - theorems: [OutputBounds.v], [Publication.v] (credit), [Flight.v],
      [Conservation.v] and [LedgerSteps.v] (the ledger), [StreamSend.v] (a packet
      sent or refused), [ReceiveLoop.v], [ReceiveSteps.v] and [ReceiveEffects.v]
      (the receive path), [Delivery.v] and [DatagramSpec.v] (two endpoints).

    Above the endpoint:
    - [Callback.v] with [CallbackSpec.v] and [CallbackOrder.v]: ordered delivery.
    - [Mux.v] with [MuxSpec.v] and [MuxExamples.v]: the multiplexer.
    - [Association.v] with [AssociationSpec.v] and [Listener.v]: both ends of a
      connection, their handshake, and what a listener takes a packet for.
    - [Probe.v] with [ProbeSpec.v]: the diagnostic workload of [probe.rs].

    The relay ([relay.rs]):
    - [Registry.v] with [RegistrySpec.v] and [RegistryLeases.v]: forwarding rules.
    - [SetupCodec.v] with [SetupCodecSpec.v] and [SetupMessages.v]: setup packets.
    - [SetupTable.v] with [SetupTableSpec.v] and [SetupRetries.v]: transactions.
    - [Router.v]: dispatch of received packets.

    Storage and bearers:
    - [PacketPool.v]: [PacketPool], leases, writers, [PacketLeaseQueue], and the
      class [PacketPoolIface] that states what the pool promises to bearers;
      [PeerTable.v]; [UartCodec.v], whose pooled decoder is proved against
      [PacketPoolIface].

    The node ([node.rs]), above the associations and the router:
    - [Node.v]: the association table.  [QuicNode] is the struct, [AssociationSlot]
      its slots, [Module Node] its methods, in the monad of [Actions.v] (methods
      with the node's own error types).
    - [NodePaths.v]: direct circuits, bearers that go away and path control from
      the peer; [NodeTimer.v]: [timer_expired] and [next_deadline].
    - [PathCount.v], [RouterEndpoints.v]: what every endpoint method does to the
      number of paths, and every router method to the endpoint routes.
    - [NodeRoutes.v], [NodeQuiet.v], [NodeCircuits.v]: the invariant of the table
      and its preservation, method by method; [NodeDeadline.v], [NodeSpec.v]: the
      theorems; [NodeExamples.v]: two nodes at work, and the findings.

    Bearers ([bearer.rs]), below the node:
    - [Mailbox.v]: the mailbox through which drivers return packets and report
      readiness, as whole calls and as agents that make one atomic access per step
      ([CallbackSlots], [CompletionQueue], [Readiness]);
      [MailboxSpec.v]: its theorems and findings.
    - [Bearer.v]: what the node keeps of a bearer and the table of them, with the
      registration of a bearer ([register_bearer_ingress] of [node.rs]); the driver
      is a parameter.  [BearerSpec.v]: the registry, its queue and the drivers as
      one transition system.
    - [HeapPool.v] ([heap_packet_pool.rs]): the pool that grows and shrinks in use,
      its owner's calls as functions and every call as an agent that makes one
      atomic access per step.  [HeapPoolSpec.v]: the invariant of the interleavings,
      the memory budget, and that the two descriptions agree.

    Each Rust function is a definition of the same name where Rocq allows it
    ([Send.reserve] for [SendFlowControl::reserve], and so on); a method that
    mutates [self] returns the new state, a method that fails returns it too when
    the code has already changed something, and loops that are not structural run
    on fuel.  A field [f] of a large struct has a prefix ([e_f] of
    [EndpointState], [sp_f] of [SentPacket]).

    ** What the theorems show

    - Wire formats: each encoder is inverted by its decoder, with any bytes
      following (a DATAGRAM without length ends its packet), and the decoders return an error instead of panicking on every
      byte string ([frame_roundtrip], [bootstrap_open_roundtrip],
      [setup_reply_roundtrip], [uart_stream_roundtrip], ...).  Truncated packet
      numbers are recovered in the documented window; rewriting a destination, in
      place or not, leaves the rest of the packet byte for byte.
    - Acknowledgement state: the range set with its eviction is the set of the
      most recent numbers it stands for; the word bitmap of a retained range is a
      per-byte set; a batch of ACKs releases exactly the data the peer has.
    - The ledger ([flight_conserved] and its group): over every sequence of
      transmissions, copies, datagrams, bearer results, losses, acknowledgements,
      timers and path changes the bytes in flight of a path are those of its
      outstanding records, and packet numbers are not reused.  Two rules of
      [ledger_step] have a guard the code does not test: a late [WouldBlock] is
      for a record that is not lost, and a path is resumed while all its records
      are lost, as its suspension leaves them; [blocked_after_loss_desync] and
      [resume_with_probe_desync] show what happens without them.
    - Credit ([credit_never_lost], [receive_credit_respected],
      [send_credit_respected]): neither side exceeds what was granted, and a
      raised limit stays queued until an acknowledged packet carried it.  The
      rule for [set_receive_growth_limits] asks that no publication is in flight,
      or a stale one, and grants are to streams the receiver knows;
      [growth_limits_lost] and [unknown_grant_unqueued] show why.
    - Receiving: the handler's effect on any bytes is a sequence of ledger and of
      credit steps ([receive_refines_steps]); a repeated packet delivers nothing;
      a malformed one changes nothing but an over-limit close; an eliciting one
      leaves an acknowledgement promised with the timer armed, unless it is below
      the receive floor or its caller defers ([acknowledgement_promised]).
    - Delivery: stream bytes cross two endpoints unchanged
      ([stream_bytes_delivered]); the ordered delivery gives the application the
      sender's bytes in order ([delivered_in_order]) and, of one stream of fixed
      segments that fits the budget, all of them ([segments_all_arrive]); a packet
      is acknowledged only when its stream bytes are safe ([acknowledged_when_safe]); datagrams arrive whole or are refused
      for nothing ([datagram_delivered], [datagram_refused]).
    - Connections: the handshake leaves both ends agreed ([handshake_agrees]); a
      listener takes each packet for what its decoder says
      ([listener_classifies]); resets match the token of their identifier only
      ([reset_recognised]).
    - Relaying: the registry is a finite map with leases that live together and
      quotas that bind; a setup request follows its route and is set up once; a
      relayed packet changes only its identifier.
    - Congestion and pacing: the bytes the pacer admits over any interval are
      bounded by the burst plus the configured rate.
    - Storage: under every interleaving of the pool's atomic accesses no slot is
      shared while written, leaked, or handed out twice; peer handles are never
      recycled.
    - Diagnostics: the probe payload is the same bytes under any chunking.

    - The node: in every state a sequence of its methods leaves (no circuit's
      closing having ended in [Blocked]), the routes of the
      router are exactly the identifiers the slots list, one per path
      ([routes_are_listed], [one_identifier_per_path]); removal retires all of
      them ([removal_retires_routes]) and kills the handle for good
      ([removed_handle_is_dead]); the search for an identifier ends
      ([fresh_identifier_found]); no lifecycle event is lost silently
      ([events_accounted]); the deadline a node announces and the work its timer
      finds agree ([timer_sleeps_until_deadline], [passed_deadline_is_work]).
    - Bearers: however the atomic accesses of callbacks and owners interleave, a
      mailbox as large as the pool refuses nothing ([push_never_refused]), keeps
      every value in one place and its storage in one pair of hands
      ([one_place_per_value]), and no call waits for another ([calls_never_wait]);
      a reported bearer is handed out before a later round ends, and not more often
      than it reported ([readiness_reported_once]).  Every
      submitted packet is accounted for and counted in flight exactly
      ([packets_accounted]), a refused one stays with its bearer
      ([refused_packet_stays]), identifiers are never reused
      ([bearer_ids_never_reused]), and no assertion fails ([node_calls_total]) but
      that of a readiness report ([two_bearers_overflow]).
    - The growing pool: whatever interleaves, a slot in use has storage that is not
      freed and its count is exact ([storage_outlives_users]), no buffer is lost or
      freed twice ([heap_buffers_conserved]), callbacks never spin
      ([callbacks_never_spin]), nothing panics but the 255th reference
      ([clone_panics_exactly]), maintenance keeps to its budget
      ([maintenance_within_budget]), and the step-by-step resize is the sequential
      one ([resize_alone]).

    ** Bounds, fuel and assumptions

    [usize] has 64 bits, as on the host, Android and Linux targets.  Arithmetic is
    that of a release build: wrapping where the code casts, saturating or checked
    where it says so; where plain [+] is used the hypotheses of the theorems keep
    the operands within the ranges the callers establish, or the model panics
    where a debug build does.  Fuel is the length of the remaining input plus one
    for loops over bytes, the number of records, ranges or entries for loops over
    a collection, twice the room of a buffer plus one for the UART encoder, or two
    for the search of an identifier other than a given one; the theorems about a
    loop state what it computes at that fuel.  The [packet-protection] feature is the class
    [Features], which changes the header flags only: no keys are installed, and
    the theorems about headers hold for both of its values.  The fallible
    allocator is the class [Allocator], an arbitrary answer to each
    [try_reserve]; the const generic of the packet size is [PacketSize]; the
    application and the stream consumer are arbitrary functions of a state
    ([Application], [CopyingStreamEvents]); the keyed hash is [Hmac].  Slices
    written to are represented by their capacity and the bytes written.

    ** Not modelled

    - The rest of the node ([node.rs]): the dispatch of received packets, setup
      transactions and the opening of relayed circuits, the choice of path and the
      scheduling of streams, and proactive copies; [nostd.rs]; the
      choice of path and the callbacks of [node_datagram.rs].  In the invariant of
      the node the transport of an association is one step that may change its
      endpoint in any way that keeps the number of its paths.  The states it
      reaches are those without a [close_circuit] that ended in [Blocked]
      ([blocked_close_strands_identifier] in [NodeExamples.v] shows one).
    - Packet protection ([crypto.rs], AEAD of external crates); the keyed hash of
      the reset tokens is a parameter.
    - The drivers of bearers and the runtimes ([tokio.rs], [bearer_udp.rs], [bearer_framed.rs],
      [host.rs] of [uart-codec]), simulators and capture analysis: sockets, tasks
      and test harnesses around the modelled code.
    - [dmesh-server], [dmesh-discovery], [dmesh-store], [rawnan], [tun], the
      [lmesh] Wi-Fi, BLE and WPA services, and the Android and terminal front
      ends: operating-system I/O, platform bindings and user interface.
    - Inside the modelled files: receive variants kept for tests, getters that
      only read a field, telemetry, and the recycling of released allocations.
    - The memory orderings of the atomics: accesses to pools and mailboxes happen
      one after another, in any interleaving.  In [HeapPool.v], the contents of the
      slots and the reservation of the list of new slots.  What a caught panic
      leaves behind: a theorem that admits one says nothing of what runs after it. *)

From stdpp Require Export base sets list list_numbers numbers strings gmap.
From Stdlib Require Export ZArith Lia.

#[global] Open Scope Z_scope.

(** ** Outcomes of Rust code

    A Rust function that returns [Result<A, E>] and whose body indexes slices
    has three outcomes: the [Ok] value, the [Err] value, and a panic (an
    out-of-range slice).  Keeping the panic as a value lets the decoders be
    proved panic-free on every input. *)
Inductive outcome (E A : Type) : Type :=
  | Ok (a : A)
  | Err (e : E)
  | Panic.
Arguments Ok {E A} a.
Arguments Err {E A} e.
Arguments Panic {E A}.

#[global] Instance outcome_ret E : MRet (outcome E) := fun A a => Ok a.
#[global] Instance outcome_bind E : MBind (outcome E) := fun A B f m =>
  match m with
  | Ok a => f a
  | Err e => Err e
  | Panic => Panic
  end.
#[global] Instance outcome_fmap E : FMap (outcome E) := fun A B f m =>
  match m with
  | Ok a => Ok (f a)
  | Err e => Err e
  | Panic => Panic
  end.

#[global] Instance outcome_eq_dec {E A} `{EqDecision E, EqDecision A} :
  EqDecision (outcome E A).
Proof. solve_decision. Defined.

(** [if cond { return Err(e) }] *)
Definition guard_err {E} (b : bool) (e : E) : outcome E unit :=
  if b then Err e else Ok tt.

(** [opt.ok_or(e)?] *)
Definition ok_or {E A} (o : option A) (e : E) : outcome E A :=
  match o with Some a => Ok a | None => Err e end.

(** [result.map_err(f)] *)
Definition map_err {E F A} (f : E -> F) (m : outcome E A) : outcome F A :=
  match m with Ok a => Ok a | Err e => Err (f e) | Panic => Panic end.

Definition is_ok {E A} (m : outcome E A) : bool :=
  match m with Ok _ => true | _ => false end.

Section outcome_lemmas.
Context {E : Type}.

Lemma bind_Ok {A B} (m : outcome E A) (k : A -> outcome E B) v :
  m ≫= k = Ok v <-> exists a, m = Ok a /\ k a = Ok v.
Proof.
  destruct m; simpl; (split; [intros ? | intros (? & [=] & ?)]); subst; eauto;
    congruence.
Qed.

Lemma Ok_inj {A} (a b : A) : Ok (E:=E) a = Ok b -> a = b.
Proof. by intros [=]. Qed.

Lemma bind_Panic {A B} (m : outcome E A) (k : A -> outcome E B) :
  m ≫= k = Panic <-> m = Panic \/ exists a, m = Ok a /\ k a = Panic.
Proof.
  destruct m; simpl;
    (split; [intros ? | intros [[=] | (? & [=] & ?)]]); subst; eauto; congruence.
Qed.

Lemma bind_not_Panic {A B} (m : outcome E A) (k : A -> outcome E B) :
  m <> Panic -> (forall a, m = Ok a -> k a <> Panic) -> m ≫= k <> Panic.
Proof. rewrite bind_Panic. intros Hm Hk [?|(a & ? & ?)]; [done | by eapply Hk]. Qed.

Lemma bind_not_Err {A B} (m : outcome E A) (k : A -> outcome E B) e :
  m <> Err e -> (forall a, k a <> Err e) -> m ≫= k <> Err e.
Proof. destruct m; simpl; naive_solver. Qed.

Lemma guard_err_Ok (b : bool) (e : E) u : guard_err b e = Ok u <-> b = false.
Proof. destruct b, u; simpl; naive_solver. Qed.

Lemma guard_err_not_Panic (b : bool) (e : E) : guard_err b e <> Panic.
Proof. by destruct b. Qed.

Lemma ok_or_Ok {A} (o : option A) (e : E) a : ok_or o e = Ok a <-> o = Some a.
Proof. destruct o; simpl; naive_solver. Qed.

Lemma ok_or_not_Panic {A} (o : option A) (e : E) : ok_or o e <> Panic.
Proof. by destruct o. Qed.
End outcome_lemmas.

(** ** Machine integers

    A [uN] is a [Z] in [0 .. 2^N - 1].  [usize] is the 64-bit one of the host,
    Android and Linux targets. *)
Definition U8_MAX : Z := 2 ^ 8 - 1.
Definition U16_MAX : Z := 2 ^ 16 - 1.
Definition U32_MAX : Z := 2 ^ 32 - 1.
Definition U64_MAX : Z := 2 ^ 64 - 1.
Definition U128_MAX : Z := 2 ^ 128 - 1.

Abbreviation is_u8 z := (0 <= z <= U8_MAX).
Abbreviation is_u16 z := (0 <= z <= U16_MAX).
Abbreviation is_u32 z := (0 <= z <= U32_MAX).
Abbreviation is_u64 z := (0 <= z <= U64_MAX).

(** [as u8] and friends: truncation. *)
Definition as_u8 (z : Z) : Z := z mod 2 ^ 8.
Definition as_u16 (z : Z) : Z := z mod 2 ^ 16.
Definition as_u32 (z : Z) : Z := z mod 2 ^ 32.
Definition as_u64 (z : Z) : Z := z mod 2 ^ 64.

(** Saturating and checked [u64] arithmetic. *)
Definition sat_add (a b : Z) : Z := Z.min (a + b) U64_MAX.
Definition sat_sub (a b : Z) : Z := Z.max (a - b) 0.
Definition sat_mul (a b : Z) : Z := Z.min (a * b) U64_MAX.
Definition checked_add (a b : Z) : option Z :=
  if a + b <=? U64_MAX then Some (a + b) else None.
Definition checked_sub (a b : Z) : option Z :=
  if b <=? a then Some (a - b) else None.
Definition checked_mul (a b : Z) : option Z :=
  if a * b <=? U64_MAX then Some (a * b) else None.

(** [usize::try_from(v)] for a [u64] value on a 64-bit target. *)
Definition usize_try_from (v : Z) : option Z :=
  if v <=? U64_MAX then Some v else None.

(** ** Byte slices *)
Abbreviation bytes := (list Z).
Definition zlen {A} (l : list A) : Z := Z.of_nat (length l).
Definition bytes_ok (l : bytes) : Prop := Forall (fun b => is_u8 b) l.

(** [&s[p..]]: panics past the end. *)
Definition slice_from {E A} (s : list A) (p : Z) : outcome E (list A) :=
  if (0 <=? p) && (p <=? zlen s) then Ok (drop (Z.to_nat p) s) else Panic.

(** [s.get(p..)] *)
Definition get_from {A} (s : list A) (p : Z) : option (list A) :=
  if (0 <=? p) && (p <=? zlen s) then Some (drop (Z.to_nat p) s) else None.

(** [&s[a..b]]: panics when [a > b] or [b] is past the end. *)
Definition slice {E A} (s : list A) (a b : Z) : outcome E (list A) :=
  if (0 <=? a) && (a <=? b) && (b <=? zlen s)
  then Ok (take (Z.to_nat (b - a)) (drop (Z.to_nat a) s)) else Panic.

(** [s.get(a..b)] *)
Definition get_range {A} (s : list A) (a b : Z) : option (list A) :=
  if (0 <=? a) && (a <=? b) && (b <=? zlen s)
  then Some (take (Z.to_nat (b - a)) (drop (Z.to_nat a) s)) else None.

(** [s.get(i)] *)
Definition get_ix {A} (s : list A) (i : Z) : option A :=
  if 0 <=? i then s !! Z.to_nat i else None.

(** [s[i]]: panics out of range. *)
Definition index {E A} (s : list A) (i : Z) : outcome E A :=
  match get_ix s i with Some a => Ok a | None => Panic end.

(** ** Big-endian integers

    [for i in 0..n { out[i] = (v >> (8 * (n - i - 1))) as u8 }] and
    [for &b in s { v = (v << 8) | b }] on a [u64] accumulator. *)
Fixpoint be_bytes (n : nat) (v : Z) : bytes :=
  match n with
  | O => []
  | S n' => as_u8 (Z.shiftr v (8 * Z.of_nat n')) :: be_bytes n' v
  end.

Definition be_fold (v : Z) (s : bytes) : Z :=
  fold_left (fun acc b => as_u64 (Z.lor (Z.shiftl acc 8) b)) s v.

(** The value of a big-endian byte string. *)
Fixpoint be_val (s : bytes) : Z :=
  match s with
  | [] => 0
  | b :: s' => b * 256 ^ zlen s' + be_val s'
  end.

(** ** Lemmas on lengths and slices *)
Lemma zlen_nil {A} : zlen (@nil A) = 0.
Proof. done. Qed.

Lemma zlen_cons {A} (a : A) l : zlen (a :: l) = zlen l + 1.
Proof. unfold zlen. simpl. lia. Qed.

Lemma zlen_app {A} (l k : list A) : zlen (l ++ k) = zlen l + zlen k.
Proof. unfold zlen. rewrite length_app. lia. Qed.

Lemma zlen_nonneg {A} (l : list A) : 0 <= zlen l.
Proof. unfold zlen. lia. Qed.

Lemma zlen_drop {A} (l : list A) p :
  0 <= p <= zlen l -> zlen (drop (Z.to_nat p) l) = zlen l - p.
Proof. unfold zlen. rewrite length_drop. lia. Qed.

Lemma zlen_take {A} (l : list A) p :
  0 <= p <= zlen l -> zlen (take (Z.to_nat p) l) = p.
Proof. unfold zlen. rewrite length_take. lia. Qed.

Lemma drop_1_cons {A} (a : A) l : drop (Z.to_nat 1) (a :: l) = l.
Proof. done. Qed.

Lemma zlen_0_nil {A} (l : list A) : zlen l = 0 -> l = [].
Proof. unfold zlen. destruct l; simpl; [done | lia]. Qed.

Lemma to_nat_zlen {A} (l : list A) : Z.to_nat (zlen l) = length l.
Proof. unfold zlen. lia. Qed.

Create Rewrite HintDb zlen.
#[export] Hint Rewrite @zlen_nil @zlen_cons @zlen_app : zlen.

(** Normalises lengths and adds their signs before [lia]. *)
Ltac zlen_pose :=
  repeat match goal with
  | |- context [zlen ?l] =>
      lazymatch goal with H : 0 <= zlen l |- _ => fail | _ => pose proof (zlen_nonneg l) end
  | _ : context [zlen ?l] |- _ =>
      lazymatch goal with H : 0 <= zlen l |- _ => fail | _ => pose proof (zlen_nonneg l) end
  end.
Ltac zlia := autorewrite with zlen in *; zlen_pose; lia.

Lemma slice_from_Ok {E A} (s : list A) p r :
  slice_from (E:=E) s p = Ok r <-> 0 <= p <= zlen s /\ r = drop (Z.to_nat p) s.
Proof.
  unfold slice_from. destruct (_ && _) eqn:Hc; split; intros H.
  - apply andb_true_iff in Hc as [?%Z.leb_le ?%Z.leb_le]. by injection H as <-.
  - by destruct H as [_ ->].
  - done.
  - apply andb_false_iff in Hc as [?%Z.leb_gt|?%Z.leb_gt]; lia.
Qed.

Lemma slice_from_not_Panic {E A} (s : list A) p :
  0 <= p <= zlen s -> slice_from (E:=E) s p <> Panic.
Proof.
  intros H. unfold slice_from. rewrite (proj2 (Z.leb_le 0 p)), (proj2 (Z.leb_le p _)) by lia.
  done.
Qed.

Lemma slice_from_app {E A} (s t : list A) : slice_from (E:=E) (s ++ t) (zlen s) = Ok t.
Proof.
  apply slice_from_Ok. split; [zlia|]. by rewrite to_nat_zlen, drop_app_length.
Qed.

Lemma get_from_Some {A} (s : list A) p r :
  get_from s p = Some r <-> 0 <= p <= zlen s /\ r = drop (Z.to_nat p) s.
Proof.
  unfold get_from. destruct (_ && _) eqn:Hc; split; intros H.
  - apply andb_true_iff in Hc as [?%Z.leb_le ?%Z.leb_le]. by injection H as <-.
  - by destruct H as [_ ->].
  - done.
  - apply andb_false_iff in Hc as [?%Z.leb_gt|?%Z.leb_gt]; lia.
Qed.

Lemma slice_Ok {E A} (s : list A) a b r :
  slice (E:=E) s a b = Ok r <->
  0 <= a <= b /\ b <= zlen s /\ r = take (Z.to_nat (b - a)) (drop (Z.to_nat a) s).
Proof.
  unfold slice. destruct (_ && _) eqn:Hc; split; intros H.
  - apply andb_true_iff in Hc as [[?%Z.leb_le ?%Z.leb_le]%andb_true_iff ?%Z.leb_le].
    by injection H as <-.
  - by destruct H as (_ & _ & ->).
  - done.
  - apply andb_false_iff in Hc as [[?%Z.leb_gt|?%Z.leb_gt]%andb_false_iff|?%Z.leb_gt]; lia.
Qed.

Lemma slice_not_Panic {E A} (s : list A) a b :
  0 <= a <= b -> b <= zlen s -> slice (E:=E) s a b <> Panic.
Proof.
  intros ? ?. unfold slice.
  rewrite (proj2 (Z.leb_le 0 a)), (proj2 (Z.leb_le a b)), (proj2 (Z.leb_le b _)) by lia.
  done.
Qed.

Lemma slice_len {E A} (s : list A) a b d : slice (E:=E) s a b = Ok d -> zlen d = b - a.
Proof. intros (? & ? & ->)%slice_Ok. rewrite zlen_take by (rewrite ?zlen_drop; lia). done. Qed.

(** A slice of a slice. *)
Lemma slice_slice {E F A} (s : list A) a b d p q :
  slice (E:=E) s a b = Ok d -> 0 <= p <= q -> q <= zlen d ->
  exists e, slice (E:=F) d p q = Ok e /\ slice (E:=F) s (a + p) (a + q) = Ok e.
Proof.
  intros Hd Hp Hq. pose proof (slice_len _ _ _ _ Hd). apply slice_Ok in Hd as (? & ? & ->).
  exists (take (Z.to_nat (q - p)) (drop (Z.to_nat p) (take (Z.to_nat (b - a)) (drop (Z.to_nat a) s)))).
  split; apply slice_Ok; (split; [lia|split; [lia|]]); [done|].
  rewrite skipn_firstn_comm, take_take, drop_drop. f_equal; [lia|]. f_equal. lia.
Qed.

Lemma slice_all {E A} (s : list A) : slice (E:=E) s 0 (zlen s) = Ok s.
Proof.
  apply slice_Ok. split; [zlia|]. split; [lia|]. rewrite Z.sub_0_r, to_nat_zlen. by rewrite drop_0, firstn_all.
Qed.

Lemma get_range_slice {E A} (s : list A) a b r :
  get_range s a b = Some r <-> slice (E:=E) s a b = Ok r.
Proof. unfold get_range, slice. destruct (_ && _); naive_solver. Qed.

Lemma get_range_Some {A} (s : list A) a b r :
  get_range s a b = Some r <->
  0 <= a <= b /\ b <= zlen s /\ r = take (Z.to_nat (b - a)) (drop (Z.to_nat a) s).
Proof. rewrite (get_range_slice (E:=unit)). apply slice_Ok. Qed.

Lemma get_ix_Some {A} (s : list A) i a :
  get_ix s i = Some a -> 0 <= i < zlen s.
Proof.
  unfold get_ix. destruct (Z.leb_spec 0 i); [|done].
  intros ?%lookup_lt_Some. unfold zlen. lia.
Qed.

Lemma index_not_Panic {E A} (s : list A) i : 0 <= i < zlen s -> index (E:=E) s i <> Panic.
Proof.
  intros [? ?]. unfold index, get_ix. rewrite (proj2 (Z.leb_le 0 i)) by done.
  destruct (lookup_lt_is_Some_2 s (Z.to_nat i)) as [x ->]; [unfold zlen in *; lia | done].
Qed.

Lemma bytes_ok_app s t : bytes_ok (s ++ t) <-> bytes_ok s /\ bytes_ok t.
Proof. apply Forall_app. Qed.

Lemma bytes_ok_drop n s : bytes_ok s -> bytes_ok (drop n s).
Proof. apply Forall_drop. Qed.

Lemma bytes_ok_take n s : bytes_ok s -> bytes_ok (take n s).
Proof. apply Forall_take. Qed.

(** Decides [bytes_ok] of a concrete string. *)
Lemma bytes_ok_bool l : forallb (fun b => (0 <=? b) && (b <=? U8_MAX)) l = true -> bytes_ok l.
Proof.
  intros Hl. apply Forall_forall. intros b Hb%list_elem_of_In. rewrite forallb_forall in Hl.
  specialize (Hl b Hb). lia.
Qed.

(** ** Bit-level lemmas *)
Lemma shiftl_land_low a b k :
  0 <= k -> 0 <= b < 2 ^ k -> Z.land (Z.shiftl a k) b = 0.
Proof.
  intros Hk Hb. apply Z.bits_inj'. intros i Hi. rewrite Z.land_spec, Z.bits_0.
  destruct (Z.lt_ge_cases i k).
  - by rewrite Z.shiftl_spec_low.
  - rewrite (Z.bounded_iff_bits_nonneg' k b) in Hb by lia.
    rewrite Hb by lia. apply andb_false_r.
Qed.

Lemma lor_shiftl_add a b k :
  0 <= k -> 0 <= b < 2 ^ k -> Z.lor (Z.shiftl a k) b = a * 2 ^ k + b.
Proof.
  intros Hk Hb. rewrite <- Z.add_nocarry_lor by (by apply shiftl_land_low).
  by rewrite Z.shiftl_mul_pow2.
Qed.

Lemma as_u8_range z : is_u8 (as_u8 z).
Proof. unfold as_u8, U8_MAX. pose proof (Z.mod_pos_bound z (2 ^ 8)). lia. Qed.

Lemma as_u64_small z : is_u64 z -> as_u64 z = z.
Proof. intros H. apply Z.mod_small. unfold U64_MAX in H. lia. Qed.

Lemma as_u32_small z : is_u32 z -> as_u32 z = z.
Proof. intros H. apply Z.mod_small. unfold U32_MAX in H. lia. Qed.

Lemma as_u16_small z : is_u16 z -> as_u16 z = z.
Proof. intros H. apply Z.mod_small. unfold U16_MAX in H. lia. Qed.

Lemma as_u8_small z : is_u8 z -> as_u8 z = z.
Proof. intros H. apply Z.mod_small. unfold U8_MAX in H. lia. Qed.

(** A decidable property of bytes, checked on all 256 of them. *)
Lemma byte_forall (P : Z -> bool) :
  forallb P (seqZ 0 256) = true -> forall b, is_u8 b -> P b = true.
Proof.
  intros H b Hb. rewrite forallb_forall in H. apply H.
  apply list_elem_of_In, elem_of_seqZ. unfold U8_MAX in Hb. lia.
Qed.

(** [byte_case b H]: decides a closed boolean goal on the byte [b] by
    enumeration. *)
Ltac byte_case b :=
  lazymatch goal with
  | |- ?e = true =>
      let e' := eval pattern b in e in
      lazymatch e' with
      | ?P _ => apply (byte_forall P); [vm_compute; reflexivity | assumption]
      end
  end.

(** ** Big-endian lemmas *)
Lemma length_be_bytes n v : length (be_bytes n v) = n.
Proof. induction n; simpl; congruence. Qed.

Lemma zlen_be_bytes n v : zlen (be_bytes n v) = Z.of_nat n.
Proof. unfold zlen. by rewrite length_be_bytes. Qed.
#[export] Hint Rewrite zlen_be_bytes : zlen.

Lemma be_bytes_ok n v : bytes_ok (be_bytes n v).
Proof. induction n; constructor; [apply as_u8_range | done]. Qed.

Lemma pow256_pos n : 0 <= n -> 0 < 256 ^ n.
Proof. intros. apply Z.pow_pos_nonneg; lia. Qed.

Lemma pow256_succ n : 256 ^ (Z.of_nat (S n)) = 256 * 256 ^ (Z.of_nat n).
Proof. rewrite Nat2Z.inj_succ, Z.pow_succ_r; lia. Qed.

Lemma be_val_range s : bytes_ok s -> 0 <= be_val s < 256 ^ zlen s.
Proof.
  induction 1 as [|b s Hb _ IH]; simpl; [done|].
  unfold zlen in *. simpl length. rewrite pow256_succ. unfold U8_MAX in Hb. nia.
Qed.

Lemma be_val_be_bytes n v : be_val (be_bytes n v) = v mod 256 ^ Z.of_nat n.
Proof.
  induction n as [|n IH]; simpl be_val; [by rewrite Z.mod_1_r|].
  rewrite zlen_be_bytes, IH, pow256_succ, (Z.mul_comm 256).
  pose proof (pow256_pos (Z.of_nat n)).
  rewrite Z.rem_mul_r by lia. unfold as_u8.
  rewrite Z.shiftr_div_pow2, Z.pow_mul_r by lia. change (2 ^ 8) with 256. lia.
Qed.

Lemma be_bytes_add n a v : be_bytes n (a * 256 ^ Z.of_nat n + v) = be_bytes n v.
Proof.
  revert a. induction n as [|n IH]; intros a; [done|].
  cbn [be_bytes]. f_equal.
  - unfold as_u8. rewrite !Z.shiftr_div_pow2, !Z.pow_mul_r, pow256_succ by lia.
    change (2 ^ 8) with 256. pose proof (pow256_pos (Z.of_nat n)).
    replace (a * (256 * 256 ^ Z.of_nat n) + v)
      with (v + (a * 256) * 256 ^ Z.of_nat n) by lia.
    rewrite Z.div_add, Z.mod_add; lia.
  - rewrite pow256_succ.
    replace (a * (256 * 256 ^ Z.of_nat n)) with ((a * 256) * 256 ^ Z.of_nat n) by lia.
    apply IH.
Qed.

Lemma be_bytes_be_val s : bytes_ok s -> be_bytes (length s) (be_val s) = s.
Proof.
  induction 1 as [|b s Hb Hs IH]; [done|]. pose proof (be_val_range s Hs) as Hr.
  cbn [length be_bytes be_val]. f_equal.
  - unfold as_u8. rewrite Z.shiftr_div_pow2, Z.pow_mul_r by lia. change (2 ^ 8) with 256.
    unfold zlen in *. rewrite Z.div_add_l by lia.
    rewrite (Z.div_small (be_val s)), Z.add_0_r by lia. unfold U8_MAX in Hb.
    apply Z.mod_small; lia.
  - unfold zlen. by rewrite be_bytes_add.
Qed.

Lemma be_fold_step acc b :
  0 <= acc -> is_u8 b -> acc * 256 + b < 2 ^ 64 ->
  as_u64 (Z.lor (Z.shiftl acc 8) b) = acc * 256 + b.
Proof.
  unfold U8_MAX. intros. rewrite lor_shiftl_add by lia.
  change (2 ^ 8) with 256. apply as_u64_small. unfold U64_MAX. lia.
Qed.

(** The decoding loops compute [be_val] as long as nothing is shifted out. *)
Lemma be_fold_val acc s :
  0 <= acc -> bytes_ok s -> (acc + 1) * 256 ^ zlen s <= 2 ^ 64 ->
  be_fold acc s = acc * 256 ^ zlen s + be_val s.
Proof.
  intros Hacc Hs. revert acc Hacc.
  induction Hs as [|b s Hb Hs IH]; intros acc Hacc Hbound; unfold be_fold; simpl;
    [rewrite zlen_nil, Z.pow_0_r; lia|].
  rewrite zlen_cons, Z.pow_add_r, Z.pow_1_r in * by zlia.
  pose proof (pow256_pos (zlen s) (zlen_nonneg s)). unfold U8_MAX in Hb.
  rewrite be_fold_step; [|unfold U8_MAX; nia..].
  fold (be_fold (acc * 256 + b) s). rewrite IH by nia. lia.
Qed.

(** ** Sequencing of writers

    An output slice [out: &mut \[u8\]] is represented by its length [cap]:
    [Ok bs] stands for [Ok(bs.len())] with [out\[..bs.len()\] = bs] and the
    rest of the slice untouched. [w1 ;;; w2] is the idiom
    [p += w1(&mut out\[p..\])?; p += w2(&mut out\[p..\])?]. *)
Definition writer (E : Type) : Type := Z -> outcome E bytes.

Definition wseq {E} (w1 w2 : writer E) : writer E := fun cap =>
  b1 ← w1 cap; b2 ← w2 (cap - zlen b1); Ok (b1 ++ b2).
Infix ";;;" := wseq (at level 60, right associativity).

Definition wnil {E} : writer E := fun _ => Ok [].

Lemma wseq_Ok {E} (w1 w2 : writer E) cap bs :
  (w1 ;;; w2) cap = Ok bs <->
  exists b1 b2, w1 cap = Ok b1 /\ w2 (cap - zlen b1) = Ok b2 /\ bs = b1 ++ b2.
Proof.
  unfold wseq. rewrite bind_Ok. split.
  - intros (b1 & H1 & (b2 & H2 & [= <-])%bind_Ok). eauto.
  - intros (b1 & b2 & H1 & H2 & ->). exists b1. split; [done|]. rewrite H2. done.
Qed.

(** ** Proof automation *)

(** Decomposes a successful run of monadic code. *)
Ltac ok_step :=
  match goal with
  | H : Ok _ = Ok _ |- _ => apply Ok_inj in H; subst
  | H : Err _ = Ok _ |- _ => discriminate H
  | H : Panic = Ok _ |- _ => discriminate H
  | H : _ ≫= _ = Ok _ |- _ => apply bind_Ok in H as (? & ? & H)
  | H : guard_err _ _ = Ok _ |- _ => apply guard_err_Ok in H
  | H : ok_or _ _ = Ok _ |- _ => apply ok_or_Ok in H
  | H : slice_from _ _ = Ok _ |- _ => apply slice_from_Ok in H as [? ?]
  | H : slice _ _ _ = Ok _ |- _ => apply slice_Ok in H as (? & ? & ?)
  | H : (_ ;;; _) _ = Ok _ |- _ => apply wseq_Ok in H as (? & ? & ? & H & ?)
  | p : (_ * _)%type |- _ => destruct p
  | H : (_, _) = (_, _) |- _ => apply pair_equal_spec in H as [? H]; subst
  end.
Ltac ok_inv := repeat (ok_step; simpl in *).

(** Evaluates the powers and quotients with closed arguments in the goal. *)
Ltac zpow :=
  repeat match goal with
  | |- context [?x ^ ?y] =>
      let v := eval vm_compute in (x ^ y) in
      lazymatch v with
      | Z.pos ?p => lazymatch isPcst p with true => change (x ^ y) with v end
      end
  | |- context [Z.pos ?x / Z.pos ?y] =>
      let v := eval vm_compute in (Z.pos x / Z.pos y) in change (Z.pos x / Z.pos y) with v
  end.

(** Turns boolean guards into propositions. *)
Ltac bools :=
  repeat match goal with
  | H : (_ || _) = false |- _ => apply orb_false_iff in H as [? ?]
  | H : (_ && _) = true |- _ => apply andb_true_iff in H as [? ?]
  | H : negb _ = true |- _ => apply negb_true_iff in H
  | H : negb _ = false |- _ => apply negb_false_iff in H
  | H : (_ <=? _) = true |- _ => apply Z.leb_le in H
  | H : (_ <=? _) = false |- _ => apply Z.leb_gt in H
  | H : (_ <? _) = true |- _ => apply Z.ltb_lt in H
  | H : (_ <? _) = false |- _ => apply Z.ltb_ge in H
  | H : (_ =? _) = true |- _ => apply Z.eqb_eq in H
  | H : (_ =? _) = false |- _ => apply Z.eqb_neq in H
  | H : (_ >? _) = true |- _ => rewrite Z.gtb_ltb in H
  | H : (_ >? _) = false |- _ => rewrite Z.gtb_ltb in H
  | H : (_ >=? _) = true |- _ => rewrite Z.geb_leb in H
  | H : (_ >=? _) = false |- _ => rewrite Z.geb_leb in H
  end.
