(* ===== verification/Wire.v ===== *)
(** * Wire primitives of quic-lite

    The variable-length integers and connection identifiers of
    [src/crates/quic-lite/src/lib.rs], the role field, and the errors every
    transport component returns.  The theorems show that both codecs round-trip,
    that connection identifiers have exactly one encoding, and that the decoders
    never index out of range. *)

From S2P Require Import Prelude.

Module Error.
Inductive t : Type :=
  | BufferTooSmall
  | Truncated
  | Invalid
  | Blocked
  | InvalidVarint
  | FlowControl
  | StreamLimit
  | PacketNumberExhausted
  | WrongConnectionId
  | PeerRestarted
  | BootstrapInvalid
  | HistoryFull
  | PathLimit
  | RetransmissionTooLarge
  | DatagramUnsupported
  | DatagramTooLarge
  | OutOfMemory.

#[export] Instance t_eq_dec : EqDecision t.
Proof. solve_decision. Defined.
End Error.

Abbreviation res := (outcome Error.t).

(** [out\[0\] = f(out\[0\])] on the bytes just written. *)
Definition map_first (f : Z -> Z) (s : bytes) : bytes :=
  match s with
  | [] => []
  | b :: s' => f b :: s'
  end.

(** ** Connection identifiers: [struct ConnectionId(u64)] *)
Module ConnectionId.

Definition MAX_VALUE : Z := Z.shiftl 1 61 - 1.

Definition new (value : Z) : option Z :=
  if value <=? MAX_VALUE then Some value else None.

Definition encoded_len (c : Z) : Z :=
  if c <=? 0x7f then 1
  else if c <=? 0x1fff then 2
  else if c <=? 0x1fffffff then 4
  else 8.

Definition encode (c : Z) (cap : Z) : res bytes :=
  let n := encoded_len c in
  if cap <? n then Err Error.BufferTooSmall else
  let tag := Z.shiftl (if n =? 1 then 0 else if n =? 2 then 0x4
                       else if n =? 4 then 0x5 else 0x6) 5 in
  Ok (map_first
        (fun b0 => Z.lor (Z.land b0 (if n =? 1 then 0x7f else 0x1f)) tag)
        (be_bytes (Z.to_nat n) c)).

(** The [let (n, value_mask) = ...] of [decode]. *)
Definition length_class (b0 : Z) : res (Z * Z) :=
  if Z.land b0 0x80 =? 0 then Ok (1, 0x7f)
  else let class := Z.land (Z.shiftr b0 5) 0x03 in
       if class =? 0 then Ok (2, 0x1f)
       else if class =? 1 then Ok (4, 0x1f)
       else if class =? 2 then Ok (8, 0x1f)
       else Err Error.Invalid.

Definition decode (input : bytes) : res (Z * Z) :=
  match input with
  | [] => Err Error.Truncated
  | b0 :: _ =>
      '(n, value_mask) ← length_class b0;
      if zlen input <? n then Err Error.Truncated else
      tail ← slice input 1 n;
      let value := be_fold (Z.land b0 value_mask) tail in
      if negb (encoded_len value =? n) then Err Error.Invalid else
      Ok (value, n)
  end.

End ConnectionId.

Abbreviation is_cid c := (0 <= c <= ConnectionId.MAX_VALUE).

(** ** Variable-length integers *)
Definition put_varint (value : Z) (cap : Z) : res bytes :=
  n ← (if value <? Z.shiftl 1 6 then Ok 1
       else if value <? Z.shiftl 1 14 then Ok 2
       else if value <? Z.shiftl 1 30 then Ok 4
       else if value <? Z.shiftl 1 62 then Ok 8
       else Err Error.InvalidVarint);
  if cap <? n then Err Error.BufferTooSmall else
  let tag := Z.shiftl (if n =? 1 then 0 else if n =? 2 then 1
                       else if n =? 4 then 2 else 3) 6 in
  Ok (map_first (fun b0 => Z.lor (Z.land b0 0x3f) tag) (be_bytes (Z.to_nat n) value)).

Definition get_varint (input : bytes) : res (Z * Z) :=
  match input with
  | [] => Err Error.Truncated
  | b0 :: _ =>
      let n := Z.shiftl 1 (Z.shiftr b0 6) in
      if zlen input <? n then Err Error.Truncated else
      tail ← slice input 1 n;
      Ok (be_fold (Z.land b0 0x3f) tail, n)
  end.

(** [let (v, n) = get_varint(&input\[p..\])?; p += n;] *)
Definition get_varint_at (input : bytes) (p : Z) : res (Z * Z) :=
  s ← slice_from input p;
  '(v, n) ← get_varint s;
  Ok (v, p + n).

(** ** Compact connection identifiers and roles *)
Definition encode_compact_cid (cid : Z) (cap : Z) : res bytes :=
  if cid =? 0 then Err Error.Invalid else ConnectionId.encode cid cap.

Definition decode_compact_cid (input : bytes) : res (Z * Z) :=
  '(cid, used) ← ConnectionId.decode input;
  if cid =? 0 then Err Error.Invalid else Ok (cid, used).

(** [let (cid, n) = decode_compact_cid(&input\[p..\])?; p += n;] *)
Definition decode_compact_cid_at (input : bytes) (p : Z) : res (Z * Z) :=
  s ← slice_from input p;
  '(v, n) ← decode_compact_cid s;
  Ok (v, p + n).

Inductive Role : Type := Client | Server.
#[export] Instance Role_eq_dec : EqDecision Role.
Proof. solve_decision. Defined.

Definition put_role (role : Role) (cap : Z) : res bytes :=
  put_varint (match role with Client => 0 | Server => 1 end) cap.

Definition decode_role (value : Z) : res Role :=
  if value =? 0 then Ok Client
  else if value =? 1 then Ok Server
  else Err Error.Invalid.

#[global] Arguments ConnectionId.encode : simpl never.
#[global] Arguments ConnectionId.decode : simpl never.
#[global] Arguments put_varint : simpl never.
#[global] Arguments get_varint : simpl never.
#[global] Arguments get_varint_at : simpl never.
#[global] Arguments decode_compact_cid : simpl never.

(** ** Shared facts on tagged big-endian fields *)

(** The bytes of [v] when the first one has [w] free low bits. *)
Lemma be_bytes_top m w v :
  0 <= w <= 8 -> 0 <= v < 2 ^ w * 256 ^ Z.of_nat m ->
  exists h, be_bytes (S m) v = h :: be_bytes m v /\ 0 <= h < 2 ^ w /\
            v = h * 256 ^ Z.of_nat m + be_val (be_bytes m v).
Proof.
  intros Hw Hv. pose proof (pow256_pos (Z.of_nat m)) as Hp.
  exists (v / 256 ^ Z.of_nat m).
  assert (Hh : 0 <= v / 256 ^ Z.of_nat m < 2 ^ w).
  { split; [apply Z.div_pos; lia|]. apply Z.div_lt_upper_bound; lia. }
  split; [|split; [done|]].
  - cbn [be_bytes]. f_equal. rewrite Z.shiftr_div_pow2, Z.pow_mul_r by lia.
    change (2 ^ 8) with 256. apply as_u8_small.
    assert (2 ^ w <= 2 ^ 8) by (apply Z.pow_le_mono_r; lia). unfold U8_MAX. lia.
  - rewrite be_val_be_bytes. pose proof (Z.div_mod v (256 ^ Z.of_nat m)). lia.
Qed.

Lemma slice_tail {E} (b : Z) (s rest : bytes) n :
  n = zlen s + 1 -> slice (E:=E) (b :: s ++ rest) 1 n = Ok s.
Proof.
  intros ->. apply slice_Ok. split; [zlia|]. split; [zlia|].
  replace (zlen s + 1 - 1) with (zlen s) by lia. change (Z.to_nat 1) with 1%nat.
  simpl. by rewrite to_nat_zlen, drop_0, take_app_length.
Qed.

Lemma slice_1_Ok {E} (b : Z) (s : bytes) n r :
  slice (E:=E) (b :: s) 1 n = Ok r <->
  1 <= n <= zlen s + 1 /\ r = take (Z.to_nat (n - 1)) s.
Proof.
  rewrite slice_Ok, zlen_cons. change (Z.to_nat 1) with 1%nat. simpl. rewrite drop_0.
  split; [intros (? & ? & ->) | intros (? & ->)]; repeat split; lia.
Qed.

(** The decoding loop on the tail of a tagged field. *)
Lemma be_fold_tagged h m v :
  0 <= h -> 0 <= v -> (h + 1) * 256 ^ Z.of_nat m <= 2 ^ 64 ->
  v = h * 256 ^ Z.of_nat m + be_val (be_bytes m v) ->
  be_fold h (be_bytes m v) = v.
Proof.
  intros Hh Hv Hb Heq. rewrite be_fold_val; rewrite ?zlen_be_bytes; [lia|done| |done].
  apply be_bytes_ok.
Qed.

(** What the encoder leaves in the first byte. *)
Lemma lor_tag h w t :
  0 <= w -> 0 <= h < 2 ^ w -> Z.lor (Z.land h (2 ^ w - 1)) (Z.shiftl t w) = t * 2 ^ w + h.
Proof.
  intros Hw Hh. replace (2 ^ w - 1) with (Z.ones w) by (rewrite Z.ones_equiv; lia).
  rewrite Z.land_ones, Z.mod_small by lia. rewrite Z.lor_comm. by apply lor_shiftl_add.
Qed.

Lemma varint_class b : is_u8 b -> Z.shiftr b 6 = b / 64 /\ Z.land b 0x3f = b mod 64.
Proof.
  intros Hu.
  cut ((Z.shiftr b 6 =? b / 64) && (Z.land b 0x3f =? b mod 64) = true).
  { intros ?. bools. done. }
  byte_case b.
Qed.

(** ** Connection identifiers *)
Definition cid_width (n : Z) : Z := if n =? 1 then 7 else 5.
Definition cid_tag (n : Z) : Z :=
  if n =? 1 then 0 else if n =? 2 then 4 else if n =? 4 then 5 else 6.

(** The classes of an identifier's first byte, and back. *)
Lemma length_class_tag n h :
  n = 1 \/ n = 2 \/ n = 4 \/ n = 8 -> 0 <= h < 2 ^ cid_width n ->
  ConnectionId.length_class (cid_tag n * 2 ^ cid_width n + h) = Ok (n, 2 ^ cid_width n - 1) /\
  Z.land (cid_tag n * 2 ^ cid_width n + h) (2 ^ cid_width n - 1) = h.
Proof.
  intros Hn Hh.
  assert (Hu : is_u8 h) by (unfold U8_MAX; destruct Hn as [-> |[-> |[-> | ->]]]; cbn in Hh; lia).
  cut (negb (h <? 2 ^ cid_width n) ||
       (match ConnectionId.length_class (cid_tag n * 2 ^ cid_width n + h) with
        | Ok (a, b) => (a =? n) && (b =? 2 ^ cid_width n - 1)
        | _ => false
        end && (Z.land (cid_tag n * 2 ^ cid_width n + h) (2 ^ cid_width n - 1) =? h)) = true).
  { rewrite (proj2 (Z.ltb_lt h _)) by lia. simpl. intros [H1 H2%Z.eqb_eq]%andb_true_iff.
    destruct (ConnectionId.length_class _) as [[a b]| |]; [|done..]. bools. by subst. }
  destruct Hn as [-> |[-> |[-> | ->]]]; byte_case h.
Qed.

Lemma length_class_Ok b n m :
  is_u8 b -> ConnectionId.length_class b = Ok (n, m) ->
  (n = 1 \/ n = 2 \/ n = 4 \/ n = 8) /\ m = 2 ^ cid_width n - 1 /\
  b = cid_tag n * 2 ^ cid_width n + Z.land b m /\ 0 <= Z.land b m < 2 ^ cid_width n.
Proof.
  intros Hu.
  cut (match ConnectionId.length_class b with
       | Ok (n, m) => ((n =? 1) || (n =? 2) || (n =? 4) || (n =? 8)) &&
           (m =? 2 ^ cid_width n - 1) && (b =? cid_tag n * 2 ^ cid_width n + Z.land b m) &&
           (0 <=? Z.land b m) && (Z.land b m <? 2 ^ cid_width n)
       | _ => true
       end = true).
  { intros H He. rewrite He in H. bools. lia. }
  byte_case b.
Qed.

Lemma length_class_not_Panic b : ConnectionId.length_class b <> Panic.
Proof. unfold ConnectionId.length_class. by repeat case_match. Qed.

Lemma encoded_len_cases c :
  is_cid c ->
  (ConnectionId.encoded_len c = 1 /\ 0 <= c < 2 ^ 7 * 256 ^ Z.of_nat 0) \/
  (ConnectionId.encoded_len c = 2 /\ 2 ^ 7 <= c < 2 ^ 5 * 256 ^ Z.of_nat 1) \/
  (ConnectionId.encoded_len c = 4 /\ 2 ^ 13 <= c < 2 ^ 5 * 256 ^ Z.of_nat 3) \/
  (ConnectionId.encoded_len c = 8 /\ 2 ^ 29 <= c < 2 ^ 5 * 256 ^ Z.of_nat 7).
Proof.
  unfold ConnectionId.encoded_len, ConnectionId.MAX_VALUE. rewrite Z.shiftl_mul_pow2 by lia.
  intros Hc. repeat match goal with |- context [if ?x <=? ?y then _ else _] =>
    destruct (Z.leb_spec x y) end; simpl in *; lia.
Qed.

(** The encoding of an identifier is its tagged big-endian bytes. *)
Lemma cid_encode_shape c cap :
  is_cid c -> ConnectionId.encoded_len c <= cap ->
  exists m h, ConnectionId.encoded_len c = Z.of_nat (S m) /\
    ConnectionId.encode c cap =
      Ok (cid_tag (Z.of_nat (S m)) * 2 ^ cid_width (Z.of_nat (S m)) + h :: be_bytes m c) /\
    0 <= h < 2 ^ cid_width (Z.of_nat (S m)) /\
    c = h * 256 ^ Z.of_nat m + be_val (be_bytes m c) /\
    (m = 0 \/ m = 1 \/ m = 3 \/ m = 7)%nat.
Proof.
  intros Hc Hcap. unfold ConnectionId.encode.
  rewrite (proj2 (Z.ltb_ge cap _)) by done.
  destruct (encoded_len_cases c Hc) as [[Hn Hr]|[[Hn Hr]|[[Hn Hr]|[Hn Hr]]]]; rewrite Hn;
    [destruct (be_bytes_top 0 7 c) as (h & Hb & Hh & He)
    |destruct (be_bytes_top 1 5 c) as (h & Hb & Hh & He)
    |destruct (be_bytes_top 3 5 c) as (h & Hb & Hh & He)
    |destruct (be_bytes_top 7 5 c) as (h & Hb & Hh & He)]; try lia;
    [exists 0%nat | exists 1%nat | exists 3%nat | exists 7%nat]; exists h;
    (split; [done|]; split; [|split; [done|]; split; [done|lia]]);
    match goal with |- context [Z.to_nat ?k] =>
      let k' := eval vm_compute in (Z.to_nat k) in change (Z.to_nat k) with k' end;
    rewrite Hb; simpl map_first; do 2 f_equal.
  all: first [exact (lor_tag h 7 0 ltac:(lia) Hh) | exact (lor_tag h 5 4 ltac:(lia) Hh)
             | exact (lor_tag h 5 5 ltac:(lia) Hh) | exact (lor_tag h 5 6 ltac:(lia) Hh)].
Qed.

Lemma cid_encode_len c cap bs :
  is_cid c -> ConnectionId.encode c cap = Ok bs ->
  zlen bs = ConnectionId.encoded_len c /\ bytes_ok bs /\ zlen bs <= cap.
Proof.
  intros Hc He.
  assert (Hcap : ConnectionId.encoded_len c <= cap).
  { revert He. unfold ConnectionId.encode. destruct (Z.ltb_spec cap (ConnectionId.encoded_len c));
      [discriminate | done]. }
  destruct (cid_encode_shape c cap Hc Hcap) as (m & h & Hn & Hs & Hh & Hv & Hm).
  rewrite Hs in He. injection He as <-. rewrite Hn in *.
  split; [zlia|]. split; [|zlia]. constructor; [|apply be_bytes_ok].
  unfold U8_MAX. destruct Hm as [-> |[-> |[-> | ->]]]; unfold cid_tag, cid_width in *;
    simpl in *; lia.
Qed.

Lemma cid_decode_encode c cap bs rest :
  is_cid c -> ConnectionId.encode c cap = Ok bs ->
  ConnectionId.decode (bs ++ rest) = Ok (c, zlen bs).
Proof.
  intros Hc He. pose proof (cid_encode_len c cap bs Hc He) as (Hlen & _ & Hcap).
  destruct (cid_encode_shape c cap Hc) as (m & h & Hn & Hs & Hh & Hv & Hm); [lia|].
  rewrite Hs in He. injection He as <-.
  destruct (length_class_tag (Z.of_nat (S m)) h) as [Hcls Hmask]; [lia|done|].
  cbn [app]. unfold ConnectionId.decode. rewrite Hcls. cbn [mbind outcome_bind].
  rewrite (proj2 (Z.ltb_ge _ _)) by zlia. rewrite slice_tail by zlia. cbn [mbind outcome_bind].
  rewrite Hmask, be_fold_tagged; [|lia|lia| |done].
  - rewrite Hn, Z.eqb_refl. simpl. do 2 f_equal. zlia.
  - destruct Hm as [-> |[-> |[-> | ->]]]; unfold cid_width in Hh; simpl in Hh |- *; lia.
Qed.

Lemma cid_decode_not_Panic input : bytes_ok input -> ConnectionId.decode input <> Panic.
Proof.
  intros Hok. destruct input as [|b0 input]; [done|]. unfold ConnectionId.decode.
  apply bind_not_Panic; [apply length_class_not_Panic|]. intros [n m] Hcls.
  apply length_class_Ok in Hcls as (Hn & _); [|by inversion Hok].
  destruct (Z.ltb_spec (zlen (b0 :: input)) n); [done|].
  apply bind_not_Panic; [apply slice_not_Panic; lia|]. intros. by case_match.
Qed.

(** Decoding accepts only the canonical encoding. *)
Lemma cid_encode_decode input c n :
  bytes_ok input -> ConnectionId.decode input = Ok (c, n) ->
  is_cid c /\ 1 <= n <= zlen input /\
  forall cap, n <= cap -> ConnectionId.encode c cap = Ok (take (Z.to_nat n) input).
Proof.
  intros Hok. destruct input as [|b0 input]; [done|]. inversion Hok as [|? ? Hb0 Hin]; subst.
  unfold ConnectionId.decode. intros ([z m] & Hcls & H)%bind_Ok.
  apply length_class_Ok in Hcls as (Hn & -> & Hb & Hh); [|done].
  set (h := Z.land b0 _) in *.
  destruct (Z.ltb_spec (zlen (b0 :: input)) z); [done|].
  apply bind_Ok in H as (tl & [Hz ->]%slice_1_Ok & H).
  set (tail := take _ input) in *.
  assert (Htok : bytes_ok tail) by (by apply bytes_ok_take).
  assert (Htl : zlen tail = z - 1) by (apply zlen_take; zlia).
  destruct (negb _) eqn:Hcanon; [done|]. injection H as Hc Hzn. subst n. bools.
  pose proof (be_val_range tail Htok) as Hr.
  assert (Hval : be_fold h tail = h * 256 ^ zlen tail + be_val tail).
  { apply be_fold_val; [lia|done|]. rewrite Htl.
    destruct Hn as [-> |[-> |[-> | ->]]]; unfold cid_width in Hh; simpl in Hh |- *; lia. }
  rewrite Hval in *. clear Hval. rewrite Hc in *.
  assert (Hcid : is_cid c).
  { rewrite <- Hc. unfold ConnectionId.MAX_VALUE. rewrite Z.shiftl_mul_pow2 by lia.
    rewrite Htl in *. clearbody h tail. clear Hc Hcanon Hb.
    destruct Hn as [-> |[-> |[-> | ->]]]; unfold cid_width in Hh; cbn in *; lia. }
  split; [done|]. split; [lia|]. intros cap Hcap.
  destruct (cid_encode_shape c cap Hcid) as (m & h' & Hn' & -> & Hh' & Hv & Hm); [lia|].
  assert (Hzm : z = Z.of_nat (S m)) by lia. rewrite <- Hzm in *.
  assert (Hbe : be_bytes m c = tail).
  { rewrite <- Hc. replace m with (length tail) by (unfold zlen in Htl; lia). unfold zlen.
    rewrite be_bytes_add. by apply be_bytes_be_val. }
  assert (h' = h) as ->.
  { rewrite Hbe, <- Hc in Hv. replace (Z.of_nat m) with (zlen tail) in Hv by lia.
    pose proof (pow256_pos (zlen tail) (zlen_nonneg tail)). nia. }
  rewrite Hbe. replace (Z.to_nat z) with (S (Z.to_nat (z - 1))) by lia. simpl. f_equal.
  rewrite <- Hb. f_equal.
Qed.

(** ** Variable-length integers *)
Abbreviation is_varint v := (0 <= v < 2 ^ 62).

Definition varint_len (v : Z) : Z :=
  if v <? 2 ^ 6 then 1 else if v <? 2 ^ 14 then 2 else if v <? 2 ^ 30 then 4 else 8.

Lemma put_varint_shape v cap :
  is_varint v -> varint_len v <= cap ->
  exists m t h, varint_len v = Z.of_nat (S m) /\
    put_varint v cap = Ok (t * 64 + h :: be_bytes m v) /\
    0 <= h < 64 /\ v = h * 256 ^ Z.of_nat m + be_val (be_bytes m v) /\
    ((m = 0%nat /\ t = 0) \/ (m = 1%nat /\ t = 1) \/ (m = 3%nat /\ t = 2) \/ (m = 7%nat /\ t = 3)).
Proof.
  intros Hv Hcap.
  assert (Hc : (varint_len v = 1 /\ 0 <= v < 2 ^ 6 * 256 ^ Z.of_nat 0) \/
    (varint_len v = 2 /\ 2 ^ 6 <= v < 2 ^ 6 * 256 ^ Z.of_nat 1) \/
    (varint_len v = 4 /\ 2 ^ 14 <= v < 2 ^ 6 * 256 ^ Z.of_nat 3) \/
    (varint_len v = 8 /\ 2 ^ 30 <= v < 2 ^ 6 * 256 ^ Z.of_nat 7)).
  { unfold varint_len. repeat match goal with |- context [if ?x <? ?y then _ else _] =>
      destruct (Z.ltb_spec x y) end; simpl in *; lia. }
  unfold put_varint. rewrite !Z.shiftl_mul_pow2, !Z.mul_1_l by lia.
  destruct Hc as [[Hn Hr]|[[Hn Hr]|[[Hn Hr]|[Hn Hr]]]]; rewrite Hn in *;
    [destruct (be_bytes_top 0 6 v) as (h & Hb & Hh & He)
    |destruct (be_bytes_top 1 6 v) as (h & Hb & Hh & He)
    |destruct (be_bytes_top 3 6 v) as (h & Hb & Hh & He)
    |destruct (be_bytes_top 7 6 v) as (h & Hb & Hh & He)]; try lia;
    [exists 0%nat, 0 | exists 1%nat, 1 | exists 3%nat, 2 | exists 7%nat, 3]; exists h;
    (split; [done|]; split; [|split; [lia|]; split; [done|lia]]);
    repeat match goal with |- context [if v <? ?y then _ else _] =>
      first [rewrite (proj2 (Z.ltb_lt v y)) by lia | rewrite (proj2 (Z.ltb_ge v y)) by lia] end;
    cbn [mbind outcome_bind]; rewrite (proj2 (Z.ltb_ge cap _)) by lia;
    try match goal with |- context [Z.to_nat ?k] =>
      let k' := eval vm_compute in (Z.to_nat k) in change (Z.to_nat k) with k' end;
    rewrite Hb; simpl map_first; do 2 f_equal.
  all: first [exact (lor_tag h 6 0 ltac:(lia) Hh) | exact (lor_tag h 6 1 ltac:(lia) Hh)
             | exact (lor_tag h 6 2 ltac:(lia) Hh) | exact (lor_tag h 6 3 ltac:(lia) Hh)].
Qed.

Lemma put_varint_Ok v cap bs :
  0 <= v -> put_varint v cap = Ok bs -> is_varint v /\ varint_len v <= cap.
Proof.
  unfold put_varint, varint_len. rewrite !Z.shiftl_mul_pow2, !Z.mul_1_l by lia. intros Hv.
  repeat match goal with |- context [if v <? ?y then _ else _] =>
    destruct (Z.ltb_spec v y) end; simpl mbind; [..|done];
    match goal with |- context [if cap <? ?y then _ else _] =>
      destruct (Z.ltb_spec cap y) end; try done; intros; lia.
Qed.

Lemma put_varint_len v cap bs :
  0 <= v -> put_varint v cap = Ok bs ->
  zlen bs = varint_len v /\ bytes_ok bs /\ zlen bs <= cap.
Proof.
  intros Hv He. destruct (put_varint_Ok v cap bs Hv He) as [Hr Hcap].
  destruct (put_varint_shape v cap Hr Hcap) as (m & t & h & Hn & Hs & Hh & _ & Hm).
  rewrite Hs in He. injection He as <-. rewrite Hn in *.
  split; [zlia|]. split; [|zlia]. constructor; [|apply be_bytes_ok].
  unfold U8_MAX. destruct Hm as [[-> ->]|[[-> ->]|[[-> ->]|[-> ->]]]]; lia.
Qed.

Lemma get_put_varint v cap bs rest :
  0 <= v -> put_varint v cap = Ok bs -> get_varint (bs ++ rest) = Ok (v, zlen bs).
Proof.
  intros Hv He. destruct (put_varint_Ok v cap bs Hv He) as [Hr Hcap].
  destruct (put_varint_shape v cap Hr Hcap) as (m & t & h & Hn & Hs & Hh & Hval & Hm).
  rewrite Hs in He. injection He as <-. simpl app. unfold get_varint.
  destruct (varint_class (t * 64 + h)) as [-> ->].
  { unfold U8_MAX. destruct Hm as [[-> ->]|[[-> ->]|[[-> ->]|[-> ->]]]]; lia. }
  rewrite Z.div_add_l, Z.div_small, Z.add_0_r by lia.
  replace ((t * 64 + h) mod 64) with h
    by (rewrite Z.add_comm, Z.mod_add, Z.mod_small; lia).
  assert (Hlen : Z.shiftl 1 t = Z.of_nat (S m)).
  { destruct Hm as [[-> ->]|[[-> ->]|[[-> ->]|[-> ->]]]]; done. }
  rewrite Hlen, (proj2 (Z.ltb_ge _ _)) by zlia. rewrite slice_tail by zlia. simpl mbind.
  rewrite be_fold_tagged; [|lia|lia| |done].
  - do 2 f_equal. zlia.
  - destruct Hm as [[-> ->]|[[-> ->]|[[-> ->]|[-> ->]]]]; simpl; lia.
Qed.

Lemma varint_n_cases b :
  is_u8 b ->
  Z.shiftl 1 (Z.shiftr b 6) = 1 \/ Z.shiftl 1 (Z.shiftr b 6) = 2 \/
  Z.shiftl 1 (Z.shiftr b 6) = 4 \/ Z.shiftl 1 (Z.shiftr b 6) = 8.
Proof.
  intros Hu. rewrite <- !Z.eqb_eq, <- !orb_true_iff. byte_case b.
Qed.

Lemma get_varint_not_Panic input : bytes_ok input -> get_varint input <> Panic.
Proof.
  intros Hok. destruct input as [|b input]; [done|]. inversion Hok; subst. unfold get_varint.
  pose proof (varint_n_cases b ltac:(done)) as Hn.
  destruct (Z.ltb_spec (zlen (b :: input)) (Z.shiftl 1 (Z.shiftr b 6))); [done|].
  apply bind_not_Panic; [apply slice_not_Panic; lia | done].
Qed.

Lemma get_varint_Ok input v n :
  bytes_ok input -> get_varint input = Ok (v, n) ->
  is_varint v /\ 1 <= n <= zlen input /\ n <= 8.
Proof.
  intros Hok. destruct input as [|b input]; [done|]. inversion Hok as [|? ? Hb Hin]; subst.
  unfold get_varint. pose proof (varint_n_cases b Hb) as Hn.
  set (k := Z.shiftl 1 (Z.shiftr b 6)) in *. destruct (varint_class b Hb) as [_ ->].
  destruct (Z.ltb_spec (zlen (b :: input)) k); [done|].
  intros (tl & [Hk ->]%slice_1_Ok & [= <- <-])%bind_Ok.
  split; [|split; [lia|lia]]. clearbody k.
  assert (Hl : zlen (take (Z.to_nat (k - 1)) input) = k - 1) by (apply zlen_take; zlia).
  pose proof (be_val_range (take (Z.to_nat (k - 1)) input) ltac:(by apply bytes_ok_take)) as Hr.
  pose proof (Z.mod_pos_bound b 64).
  rewrite be_fold_val; rewrite ?Hl in *; [|lia|by apply bytes_ok_take|].
  - destruct Hn as [-> |[-> |[-> | ->]]]; cbn in *; lia.
  - destruct Hn as [-> |[-> |[-> | ->]]]; cbn in *; lia.
Qed.

(** ** Reading at a cursor *)

(** [rest] is what is left of [input] at position [p]. *)
Definition at_cursor (input : bytes) (p : Z) (rest : bytes) : Prop :=
  0 <= p <= zlen input /\ drop (Z.to_nat p) input = rest.

Lemma at_cursor_start input : at_cursor input 0 input.
Proof. split; [zlia | apply drop_0]. Qed.

Lemma at_cursor_app input p b rest :
  at_cursor input p (b ++ rest) -> at_cursor input (p + zlen b) rest.
Proof.
  intros [Hp Hd]. pose proof (zlen_drop input p Hp) as Hl. rewrite Hd in Hl. split; [zlia|].
  replace (Z.to_nat (p + zlen b)) with (Z.to_nat p + length b)%nat by (unfold zlen; lia).
  rewrite <- drop_drop, Hd. apply drop_app_length.
Qed.

Lemma at_cursor_slice {E} input p rest :
  at_cursor input p rest -> slice_from (E:=E) input p = Ok rest.
Proof. intros [Hp Hd]. apply slice_from_Ok. by rewrite Hd. Qed.

Lemma at_cursor_slice_range {E} input p b rest :
  at_cursor input p (b ++ rest) -> slice (E:=E) input p (p + zlen b) = Ok b.
Proof.
  intros Hc. pose proof (at_cursor_app _ _ _ _ Hc) as [Hp' _]. destruct Hc as [Hp Hd].
  apply slice_Ok. split; [zlia|]. split; [lia|].
  replace (p + zlen b - p) with (zlen b) by lia. by rewrite Hd, to_nat_zlen, take_app_length.
Qed.

Lemma at_cursor_get_ix input p b rest :
  at_cursor input p (b :: rest) -> get_ix input p = Some b.
Proof.
  intros [Hp Hd]. unfold get_ix. rewrite (proj2 (Z.leb_le 0 p)) by lia.
  pose proof (lookup_drop input (Z.to_nat p) 0) as Hl. rewrite Hd, Nat.add_0_r in Hl. done.
Qed.

Lemma at_cursor_cons input p b rest :
  at_cursor input p (b :: rest) -> at_cursor input (p + 1) rest.
Proof. intros H. apply (at_cursor_app input p [b] rest) in H. done. Qed.

Lemma at_cursor_len input p rest : at_cursor input p rest -> zlen input = p + zlen rest.
Proof. intros [Hp Hd]. pose proof (zlen_drop input p Hp) as Hl. rewrite Hd in Hl. lia. Qed.

Lemma get_varint_at_put input p rest v cap b :
  0 <= v -> put_varint v cap = Ok b -> at_cursor input p (b ++ rest) ->
  get_varint_at input p = Ok (v, p + zlen b).
Proof.
  intros Hv Hput Hc. unfold get_varint_at. rewrite (at_cursor_slice _ _ _ Hc). simpl.
  by rewrite (get_put_varint _ _ _ _ Hv Hput).
Qed.

Lemma decode_compact_cid_at_encode input p rest c cap b :
  is_cid c -> encode_compact_cid c cap = Ok b -> at_cursor input p (b ++ rest) ->
  decode_compact_cid_at input p = Ok (c, p + zlen b).
Proof.
  unfold encode_compact_cid, decode_compact_cid_at, decode_compact_cid.
  intros Hv Hput Hc. destruct (Z.eqb_spec c 0); [done|].
  rewrite (at_cursor_slice _ _ _ Hc). simpl.
  rewrite (cid_decode_encode _ _ _ _ Hv Hput). simpl. by destruct (Z.eqb_spec c 0).
Qed.

Lemma get_varint_at_Ok input p v p' :
  bytes_ok input -> get_varint_at input p = Ok (v, p') ->
  is_varint v /\ 0 <= p < p' /\ p' <= zlen input.
Proof.
  intros Hok H. unfold get_varint_at in H.
  apply bind_Ok in H as (s & [Hp ->]%slice_from_Ok & ([w n] & Hg & [= <- <-])%bind_Ok).
  apply get_varint_Ok in Hg as (? & ? & ?); [|by apply bytes_ok_drop].
  rewrite zlen_drop in * by lia. lia.
Qed.

Lemma get_varint_at_not_Panic input p :
  bytes_ok input -> 0 <= p <= zlen input -> get_varint_at input p <> Panic.
Proof.
  intros Hok Hp. apply bind_not_Panic; [by apply slice_from_not_Panic|].
  intros s [_ ->]%slice_from_Ok. apply bind_not_Panic; [|by intros []].
  by apply get_varint_not_Panic, bytes_ok_drop.
Qed.

Lemma decode_compact_cid_Ok s c n :
  bytes_ok s -> decode_compact_cid s = Ok (c, n) ->
  is_cid c /\ c <> 0 /\ 1 <= n <= zlen s.
Proof.
  intros Hok ([c' n'] & Hd & H)%bind_Ok.
  apply cid_encode_decode in Hd as (? & ? & _); [|done].
  destruct (Z.eqb_spec c' 0); [done|]. by injection H as <- <-.
Qed.

Lemma decode_compact_cid_at_Ok input p c p' :
  bytes_ok input -> decode_compact_cid_at input p = Ok (c, p') ->
  is_cid c /\ c <> 0 /\ 0 <= p < p' /\ p' <= zlen input.
Proof.
  intros Hok H. unfold decode_compact_cid_at in H.
  apply bind_Ok in H as (s & [Hp ->]%slice_from_Ok & ([w n] & Hg & [= <- <-])%bind_Ok).
  apply decode_compact_cid_Ok in Hg as (? & ? & ?); [|by apply bytes_ok_drop].
  rewrite zlen_drop in * by lia. lia.
Qed.

Lemma decode_compact_cid_at_not_Panic input p :
  bytes_ok input -> 0 <= p <= zlen input -> decode_compact_cid_at input p <> Panic.
Proof.
  intros Hok Hp. apply bind_not_Panic; [by apply slice_from_not_Panic|].
  intros s [_ ->]%slice_from_Ok. apply bind_not_Panic; [|by intros []].
  apply bind_not_Panic; [by apply cid_decode_not_Panic, bytes_ok_drop|].
  intros [] ?. by case_match.
Qed.

Lemma decode_role_put role cap b rest :
  put_role role cap = Ok b ->
  exists v, get_varint (b ++ rest) = Ok (v, zlen b) /\ decode_role v = Ok role.
Proof.
  unfold put_role. intros H. exists (match role with Client => 0 | Server => 1 end).
  split; [|by destruct role]. eapply get_put_varint; [by destruct role | exact H].
Qed.

Lemma decode_role_not_Panic v : decode_role v <> Panic.
Proof. unfold decode_role. by repeat case_match. Qed.

(** ** Properties *)

(** A variable-length integer that fits the output slice is written in at
    most that many bytes, and reading it back from the front of any packet
    yields the value and exactly the bytes written, for every value below
    [2^62]. *)
Theorem varint_roundtrip v cap rest :
  0 <= v < 2 ^ 62 -> varint_len v <= cap ->
  exists bs, put_varint v cap = Ok bs /\ zlen bs <= cap /\
             get_varint (bs ++ rest) = Ok (v, zlen bs).
Proof.
  intros Hv Hcap. destruct (put_varint_shape v cap Hv Hcap) as (m & t & h & _ & Hs & _).
  eexists. split; [exact Hs|]. split; [eapply put_varint_len; eauto; lia|].
  eapply get_put_varint; eauto; lia.
Qed.

Lemma varint_roundtrip_witness :
  exists bs, put_varint 494878333 4 = Ok bs /\ zlen bs <= 4 /\
             get_varint (bs ++ [1; 2]) = Ok (494878333, zlen bs).
Proof. apply (varint_roundtrip 494878333 4 [1; 2]); [lia | vm_compute; discriminate]. Defined.

(** The connection-identifier codec is a bijection between the identifiers
    up to [2^61 - 1] and their wire forms: decoding an encoding returns the
    identifier, and any bytes the decoder accepts are the encoder's own output,
    so a relay that decodes and re-encodes an identifier never changes it. *)
Theorem cid_codec_canonical input c n :
  bytes_ok input ->
  (is_cid c /\ n = ConnectionId.encoded_len c /\
   exists rest, ConnectionId.encode c n = Ok (take (Z.to_nat n) input) /\
                input = take (Z.to_nat n) input ++ rest)
  <-> ConnectionId.decode input = Ok (c, n).
Proof.
  intros Hok. split.
  - intros (Hc & -> & rest & He & Hin).
    pose proof (cid_decode_encode c _ _ rest Hc He) as Hd. rewrite <- Hin in Hd. rewrite Hd.
    pose proof (cid_encode_len c _ _ Hc He) as (-> & _). done.
  - intros Hd. destruct (cid_encode_decode input c n Hok Hd) as (Hc & Hn & He).
    pose proof (He n ltac:(lia)) as Hen.
    pose proof (cid_encode_len c _ _ Hc Hen) as (Hl & _).
    rewrite zlen_take in Hl by lia. split; [done|]. split; [done|].
    exists (drop (Z.to_nat n) input). split; [done|]. by rewrite take_drop.
Qed.

Lemma cid_codec_canonical_witness :
  bytes_ok [0x92; 0x34; 7] /\ ConnectionId.decode [0x92; 0x34; 7] = Ok (0x1234, 2).
Proof.
  assert (H : bytes_ok [0x92; 0x34; 7]) by (repeat constructor; vm_compute; discriminate).
  split; [exact H|]. apply (cid_codec_canonical [0x92; 0x34; 7] 0x1234 2 H).
  split; [vm_compute; split; discriminate|]. split; [reflexivity|].
  exists [7]. split; reflexivity.
Defined.
