(* ===== verification/PacketHeader.v ===== *)
(** * Packet headers and DCID rewriting

    Short and long headers of [src/crates/quic-lite/src/lib.rs], packet-number
    truncation and reconstruction, and the destination rewrite a relay applies.
    The theorems show that headers round-trip, that reconstruction recovers the
    sender's packet number inside the negotiated window, that a rewrite changes
    only the destination, that the in-place rewrite equals the copying one, and
    that no received packet makes the parsers panic. *)

From S2P Require Import Prelude Wire.

(** The [packet-protection] cargo feature changes which header bits are legal. *)
Class Features : Type := { packet_protection : bool }.

Definition FLAG_FIXED : Z := 0x40.
Definition FLAG_RESERVED : Z := 0x18.
Definition FLAG_KEY_PHASE : Z := 0x04.

(** [!x] on a [u8]. *)
Definition not_u8 (x : Z) : Z := 255 - x.

Record ShortHeader : Type := mkShortHeader {
  flags : Z;
  dcid : Z;
  packet_number : Z;
  packet_number_len : Z;
}.

Record ShortHeaderPrefix : Type := mkShortHeaderPrefix {
  p_flags : Z;
  p_dcid : Z;
  truncated_packet_number : Z;
  p_packet_number_len : Z;
  header_len : Z;
}.

(** [for &b in s { pn = (pn << 8) | b as u32 }] *)
Definition be_fold32 (v : Z) (s : bytes) : Z :=
  fold_left (fun acc b => as_u32 (Z.lor (Z.shiftl acc 8) b)) s v.

Definition clamp (v lo hi : Z) : Z := if v <? lo then lo else if hi <? v then hi else v.

Section short_header.
Context {F : Features}.

(** [ShortHeader::encode] *)
Definition short_encode (h : ShortHeader) (cap : Z) : res bytes :=
  let pn_len := clamp (packet_number_len h) 1 4 in
  let cid_len := ConnectionId.encoded_len (dcid h) in
  if cap <? 1 + cid_len + pn_len then Err Error.BufferTooSmall else
  let fl := if packet_protection then Z.land (flags h) (not_u8 FLAG_RESERVED)
            else Z.land (flags h) (not_u8 (Z.lor FLAG_RESERVED FLAG_KEY_PHASE)) in
  let b0 := Z.lor (Z.lor fl FLAG_FIXED) (Z.land (pn_len - 1) 3) in
  cid ← ConnectionId.encode (dcid h) (cap - 1);
  Ok (b0 :: cid ++ be_bytes (Z.to_nat pn_len) (packet_number h)).

(** The flag bits [decode_prefix] refuses. *)
Definition illegal_flags (b0 : Z) : bool :=
  (Z.land b0 FLAG_FIXED =? 0) || negb (Z.land b0 FLAG_RESERVED =? 0)
  || (negb packet_protection && negb (Z.land b0 FLAG_KEY_PHASE =? 0)).

(** [ShortHeader::decode_prefix] *)
Definition decode_prefix (input : bytes) : res ShortHeaderPrefix :=
  match input with
  | [] => Err Error.Truncated
  | b0 :: _ =>
      if illegal_flags b0
      then Err Error.Invalid else
      let pn_len := Z.land b0 3 + 1 in
      rest ← slice_from input 1;
      '(cid, cid_len) ← ConnectionId.decode rest;
      if zlen input <? 1 + cid_len + pn_len then Err Error.Truncated else
      pnb ← slice input (1 + cid_len) (1 + cid_len + pn_len);
      Ok (mkShortHeaderPrefix b0 cid (be_fold32 0 pnb) pn_len (1 + cid_len + pn_len))
  end.

(** [ShortHeaderPrefix::reconstruct]; the arithmetic is on [u64]. *)
Definition reconstruct (p : ShortHeaderPrefix) (expected : Z) : res ShortHeader :=
  let window := Z.shiftl 1 (p_packet_number_len p * 8) in
  let half_window := window / 2 in
  let truncated := truncated_packet_number p in
  let epoch := Z.land expected (Z.lnot (window - 1)) in
  let candidate := Z.lor epoch truncated in
  candidate ←
    (if (candidate + half_window <=? expected) && (candidate + window <=? U32_MAX)
     then Ok (candidate + window)
     else if expected + half_window <? candidate
          then if candidate <? window then Err Error.PacketNumberExhausted
               else Ok (candidate - window)
          else Ok candidate);
  if U32_MAX <? candidate then Err Error.PacketNumberExhausted else
  Ok (mkShortHeader (p_flags p) (p_dcid p) (as_u32 candidate) (p_packet_number_len p)).

(** [ShortHeader::decode_with_expected] *)
Definition decode_with_expected (input : bytes) (expected : Z) : res (ShortHeader * Z) :=
  p ← decode_prefix input;
  h ← reconstruct p expected;
  Ok (h, header_len p).

(** [ShortHeader::decode] *)
Definition short_decode (input : bytes) : res (ShortHeader * Z) :=
  p ← decode_prefix input;
  Ok (mkShortHeader (p_flags p) (p_dcid p) (truncated_packet_number p) (p_packet_number_len p),
      header_len p).

(** [packet_number_len] *)
Definition packet_number_len_for (next : Z) (largest_acked : option Z) : Z :=
  let baseline := default 0 largest_acked in
  let distance := sat_sub next baseline in
  let needed := Z.max (sat_mul distance 2) 1 in
  if needed <? Z.shiftl 1 8 then 1
  else if needed <? Z.shiftl 1 16 then 2
  else if needed <? Z.shiftl 1 24 then 3
  else 4.

End short_header.

(** ** Long headers *)
Definition DMESH_LONG_HEADER_VERSION : Z := 0x444d0001.
Definition LONG_PACKET_INITIAL : Z := 0.
Definition LONG_PACKET_PATH_OPEN : Z := 1.
Definition LONG_PACKET_PATH_OPEN_ACK : Z := 2.

Record LongHeader : Type := mkLongHeader {
  l_packet_type : Z;
  l_version : Z;
  l_dcid : option Z;
  l_scid : option Z;
  l_packet_number : Z;
  l_packet_number_len : Z;
}.

Definition opt_cid_len (c : option Z) : Z :=
  match c with Some c => ConnectionId.encoded_len c | None => 0 end.

(** One turn of the [for cid in \[dcid, scid\]] loop. *)
Definition encode_long_cid (c : option Z) : res bytes :=
  match c with
  | Some c => b ← ConnectionId.encode c (ConnectionId.encoded_len c);
              Ok (as_u8 (ConnectionId.encoded_len c) :: b)
  | None => Ok [0]
  end.

Definition encode_long_packet (packet_type : Z) (dcid scid : option Z)
    (packet_number packet_number_len : Z) (payload : bytes) (cap : Z) : res bytes :=
  if (3 <? packet_type) || negb ((1 <=? packet_number_len) && (packet_number_len <=? 4))
     || bool_decide (payload = []) then Err Error.Invalid else
  let initial := packet_type =? LONG_PACKET_INITIAL in
  let need := 1 + 4 + 1 + opt_cid_len dcid + 1 + opt_cid_len scid
              + (if initial then 1 else 0) + 8 + packet_number_len + zlen payload in
  if cap <? need then Err Error.BufferTooSmall else
  let b0 := Z.lor (Z.lor 0xc0 (Z.shiftl packet_type 4)) (packet_number_len - 1) in
  dc ← encode_long_cid dcid;
  sc ← encode_long_cid scid;
  let head := (b0 :: be_bytes 4 DMESH_LONG_HEADER_VERSION) ++ dc ++ sc
              ++ (if initial then [0] else []) in
  ln ← put_varint (packet_number_len + zlen payload) (cap - zlen head);
  Ok (head ++ ln ++ drop (Z.to_nat (4 - packet_number_len)) (be_bytes 4 packet_number)
      ++ payload).

(** One turn of the [for slot in &mut cids] loop. *)
Definition decode_long_cid (input : bytes) (at_ : Z) : res (option Z * Z) :=
  len ← ok_or (get_ix input at_) Error.Truncated;
  let at_ := at_ + 1 in
  if len =? 0 then Ok (None, at_) else
  if negb ((len =? 1) || (len =? 2) || (len =? 4) || (len =? 8)) || (zlen input <? at_ + len)
  then Err Error.Invalid else
  s ← slice input at_ (at_ + len);
  '(cid, used) ← ConnectionId.decode s;
  if negb (used =? len) then Err Error.Invalid else Ok (Some cid, at_ + len).

(** The Initial token: its length is read and its bytes are skipped. *)
Definition skip_token (input : bytes) (packet_type at_ : Z) : res Z :=
  if packet_type =? LONG_PACKET_INITIAL then
    s ← ok_or (get_from input at_) Error.Truncated;
    '(token_len, used) ← get_varint s;
    let at_ := at_ + used in
    token_len ← ok_or (usize_try_from token_len) Error.Invalid;
    at_ ← ok_or (checked_add at_ token_len) Error.Invalid;
    if zlen input <? at_ then Err Error.Truncated else Ok at_
  else Ok at_.

Definition decode_long_packet (input : bytes) : res (LongHeader * Z * Z) :=
  match input with
  | b0 :: _ =>
      if (zlen input <? 9) || negb (Z.land b0 0xc0 =? 0xc0) then Err Error.Invalid else
      vb ← slice input 1 5;
      let version := be_val vb in
      if negb (version =? DMESH_LONG_HEADER_VERSION) then Err Error.Invalid else
      let packet_type := Z.land (Z.shiftr b0 4) 0x03 in
      let pn_len := Z.land b0 0x03 + 1 in
      '(dc, at_) ← decode_long_cid input 5;
      '(sc, at_) ← decode_long_cid input at_;
      at_ ← skip_token input packet_type at_;
      '(body_len, at_) ← get_varint_at input at_;
      body_len ← ok_or (usize_try_from body_len) Error.Invalid;
      if (body_len <? pn_len) || negb (zlen input =? at_ + body_len) then Err Error.Invalid else
      pn ← slice input at_ (at_ + pn_len);
      Ok (mkLongHeader packet_type version dc sc (be_val pn) pn_len,
          at_ + pn_len, body_len - pn_len)
  | [] => Err Error.Invalid
  end.

(** ** Routing and rewriting *)
Definition is_long (input : bytes) : bool :=
  match input with b0 :: _ => negb (Z.land b0 0x80 =? 0) | [] => false end.

Section rewriting.
Context {F : Features}.

Definition decode_routing_prefix (input : bytes) : res ShortHeaderPrefix :=
  if is_long input then
    '(header, header_len, _) ← decode_long_packet input;
    b0 ← index input 0;
    zero ← ok_or (ConnectionId.new 0) Error.Invalid;
    Ok (mkShortHeaderPrefix b0 (default zero (l_dcid header)) (l_packet_number header)
          (l_packet_number_len header) header_len)
  else decode_prefix input.

Definition rewrite_destination (input : bytes) (outbound_dcid : option Z) (cap : Z)
    : res bytes :=
  if is_long input then
    '(header, payload_at, payload_len) ← decode_long_packet input;
    payload ← slice input payload_at (payload_at + payload_len);
    encode_long_packet (l_packet_type header) outbound_dcid (l_scid header)
      (l_packet_number header) (l_packet_number_len header) payload cap
  else
    outbound ← ok_or outbound_dcid Error.Invalid;
    prefix ← decode_prefix input;
    let inbound_len := ConnectionId.encoded_len (p_dcid prefix) in
    let outbound_len := ConnectionId.encoded_len outbound in
    used ← ok_or (len ← checked_sub (zlen input) inbound_len;
                  checked_add len outbound_len) Error.Invalid;
    if cap <? used then Err Error.BufferTooSmall else
    b0 ← index input 0;
    cid ← ConnectionId.encode outbound (cap - 1);
    tail ← slice_from input (1 + inbound_len);
    Ok (b0 :: cid ++ tail).

Definition rewrite_dcid (input : bytes) (outbound_dcid : Z) (cap : Z) : res bytes :=
  if outbound_dcid =? 0 then Err Error.Invalid
  else rewrite_destination input (Some outbound_dcid) cap.

Definition rewrite_bootstrap_destination (input : bytes) (cap : Z) : res bytes :=
  rewrite_destination input None cap.

(** [OwnedPacket]: a pool lease and the packet's range in it. [unique] is what
    [as_mut_unique] answers for the lease. *)
Record OwnedPacket : Type := mkOwnedPacket {
  buffer : bytes;
  unique : bool;
  range_start : Z;
  range_end : Z;
}.

Definition OwnedPacket_new (buffer : bytes) (unique : bool) (start end_ : Z)
    : option OwnedPacket :=
  if (start <=? end_) && (end_ <=? zlen buffer)
  then Some (mkOwnedPacket buffer unique start end_) else None.

Definition packet_bytes (p : OwnedPacket) : bytes :=
  take (Z.to_nat (range_end p - range_start p)) (drop (Z.to_nat (range_start p)) (buffer p)).

Definition dcid_rewrite_layout (packet : OwnedPacket) (destination prefix_required max_packet : Z)
    : res (Z * Z * bytes) :=
  if (destination =? 0) || is_long (packet_bytes packet) then Err Error.Invalid else
  prefix ← decode_prefix (packet_bytes packet);
  let tail := range_start packet + 1 + ConnectionId.encoded_len (p_dcid prefix) in
  let header_len := 1 + ConnectionId.encoded_len destination in
  start ← ok_or (checked_sub tail header_len) Error.BufferTooSmall;
  if (start <? prefix_required) || (max_packet <? range_end packet - start)
  then Err Error.BufferTooSmall else
  b0 ← index (packet_bytes packet) 0;
  cid ← ConnectionId.encode destination (header_len - 1);
  Ok (start, range_end packet, b0 :: cid).

(** [storage\[start..start + bs.len()\].copy_from_slice(bs)] *)
Definition overwrite {E} (storage : bytes) (start : Z) (bs : bytes) : outcome E bytes :=
  if (0 <=? start) && (start + zlen bs <=? zlen storage)
  then Ok (take (Z.to_nat start) storage ++ bs ++ drop (Z.to_nat (start + zlen bs)) storage)
  else Panic.

(** Refusal returns the error with the unchanged packet. *)
Definition rewrite_dcid_in_place (packet : OwnedPacket)
    (destination prefix_required max_packet : Z) : outcome (Error.t * OwnedPacket) OwnedPacket :=
  match dcid_rewrite_layout packet destination prefix_required max_packet with
  | Err e => Err (e, packet)
  | Panic => Panic
  | Ok (start, end_, header) =>
      if unique packet then
        storage ← overwrite (buffer packet) start header;
        match OwnedPacket_new storage (unique packet) start end_ with
        | Some p => Ok p
        | None => Panic
        end
      else
        match OwnedPacket_new (buffer packet) (unique packet)
                (range_start packet) (range_end packet) with
        | Some p => Err (Error.Blocked, p)
        | None => Panic
        end
  end.

End rewriting.

#[global] Arguments short_encode : simpl never.
#[global] Arguments decode_prefix : simpl never.
#[global] Arguments decode_long_packet : simpl never.
#[global] Arguments encode_long_packet : simpl never.
#[global] Arguments rewrite_destination : simpl never.

(** ** Packet numbers *)
Lemma be_fold32_val s : bytes_ok s -> zlen s <= 4 -> be_fold32 0 s = be_val s.
Proof.
  intros Hs Hl.
  cut (forall acc, 0 <= acc -> (acc + 1) * 256 ^ zlen s <= 2 ^ 32 ->
        be_fold32 acc s = acc * 256 ^ zlen s + be_val s).
  { intros H. rewrite H; [lia|lia|]. rewrite Z.mul_1_l.
    apply (Z.pow_le_mono_r 256 _ 4); lia. }
  clear Hl. induction Hs as [|b s Hb Hs IH]; intros acc Hacc Hbound; unfold be_fold32; simpl;
    [rewrite zlen_nil, Z.pow_0_r; lia|].
  rewrite zlen_cons, Z.pow_add_r, Z.pow_1_r in * by zlia.
  pose proof (pow256_pos (zlen s) (zlen_nonneg s)). unfold U8_MAX in Hb.
  rewrite lor_shiftl_add by lia. change (2 ^ 8) with 256.
  rewrite as_u32_small by (unfold U32_MAX; nia).
  fold (be_fold32 (acc * 256 + b) s). rewrite IH by nia. lia.
Qed.

Lemma land_lnot_window e k t :
  0 <= e -> 0 <= k -> 0 <= t < 2 ^ k ->
  Z.lor (Z.land e (Z.lnot (2 ^ k - 1))) t = e / 2 ^ k * 2 ^ k + t.
Proof.
  intros He Hk Ht. replace (2 ^ k - 1) with (Z.ones k) by (rewrite Z.ones_equiv; lia).
  rewrite <- Z.ldiff_land, Z.ldiff_ones_r, Z.shiftr_div_pow2 by lia. by apply lor_shiftl_add.
Qed.

(** Where the first candidate lies relative to the true packet number. *)
Lemma window_candidate w pn e :
  0 < w -> 2 * (w / 2) = w -> 0 <= pn -> 0 <= e -> e - w / 2 < pn <= e + w / 2 ->
  let c := e / w * w + pn mod w in
  c = pn /\ e < c + w / 2 /\ c <= e + w / 2 \/
  c = pn - w /\ c + w / 2 <= e \/
  c = pn + w /\ e < c + w / 2 /\ e + w / 2 < c /\ w <= c.
Proof.
  intros Hpos Hhalf Hpn He Hw c.
  pose proof (Z.div_mod pn w). pose proof (Z.div_mod e w).
  pose proof (Z.mod_pos_bound pn w). pose proof (Z.mod_pos_bound e w).
  assert (Hq : e / w = pn / w \/ e / w = pn / w - 1 \/ e / w = pn / w + 1) by nia.
  subst c. destruct Hq as [Hq|[Hq|Hq]]; rewrite Hq in *; nia.
Qed.

(** Reconstruction picks the unique packet number in the half-open window
    around the expected one. *)
Lemma reconstruct_window p expected pn :
  1 <= p_packet_number_len p <= 4 -> is_u32 pn -> is_u32 expected ->
  truncated_packet_number p = pn mod 2 ^ (8 * p_packet_number_len p) ->
  expected - 2 ^ (8 * p_packet_number_len p) / 2 < pn
    <= expected + 2 ^ (8 * p_packet_number_len p) / 2 ->
  reconstruct p expected =
    Ok (mkShortHeader (p_flags p) (p_dcid p) pn (p_packet_number_len p)).
Proof.
  intros Hk Hpn He Ht Hw. unfold reconstruct.
  rewrite (Z.mul_comm _ 8), Z.shiftl_mul_pow2, Z.mul_1_l by lia. rewrite Ht.
  rewrite land_lnot_window by (try apply Z.mod_pos_bound; lia).
  set (k := p_packet_number_len p) in *. clearbody k.
  assert (Hhalf : 2 * (2 ^ (8 * k) / 2) = 2 ^ (8 * k)).
  { assert (Hc : k = 1 \/ k = 2 \/ k = 3 \/ k = 4) by lia.
    destruct Hc as [-> |[-> |[-> | ->]]]; reflexivity. }
  pose proof (window_candidate (2 ^ (8 * k)) pn expected) as Hcand. cbv zeta in Hcand.
  set (c := expected / 2 ^ (8 * k) * 2 ^ (8 * k) + _) in *.
  assert (Hpos : 0 < 2 ^ (8 * k)) by lia.
  specialize (Hcand Hpos Hhalf ltac:(lia) ltac:(lia) Hw).
  set (w := 2 ^ (8 * k)) in *. clearbody c w.
  assert (Hfin : forall v, v = pn ->
    (if U32_MAX <? v then Err Error.PacketNumberExhausted
     else Ok (mkShortHeader (p_flags p) (p_dcid p) (as_u32 v) k))
    = Ok (E:=Error.t) (mkShortHeader (p_flags p) (p_dcid p) pn k)).
  { intros v ->. rewrite (proj2 (Z.ltb_ge _ _)) by lia. by rewrite as_u32_small. }
  destruct (Z.leb_spec (c + w / 2) expected) as [H1|H1]; simpl.
  - rewrite (proj2 (Z.leb_le (c + w) _)) by lia. simpl. apply Hfin. lia.
  - destruct (Z.ltb_spec (expected + w / 2) c) as [H2|H2].
    + rewrite (proj2 (Z.ltb_ge c w)) by lia. simpl. apply Hfin. lia.
    + simpl. apply Hfin. lia.
Qed.

(** The length the sender picks leaves the receiver's window around it. *)
Lemma packet_number_len_for_window next la :
  is_u32 next -> is_u32 (default 0 la) -> default 0 la <= next <= default 0 la + 2 ^ 31 ->
  let k := packet_number_len_for next la in
  1 <= k <= 4 /\ 128 <= 2 ^ (8 * k) / 2 /\ next - default 0 la <= 2 ^ (8 * k) / 2.
Proof.
  intros Hn Hla Hd. unfold packet_number_len_for, sat_sub, sat_mul.
  rewrite !Z.shiftl_mul_pow2, !Z.mul_1_l by lia. unfold U32_MAX, U64_MAX in *.
  set (b := default 0 la) in *. clearbody b.
  repeat match goal with |- context [if ?x <? ?y then _ else _] =>
    destruct (Z.ltb_spec x y) end; cbv zeta; zpow; lia.
Qed.

(** ** Short headers *)
Section short_lemmas.
Context {F : Features}.

(** What the first byte of an encoded header says. *)
Lemma short_flags_byte fl k :
  is_u8 fl -> 1 <= k <= 4 -> Z.lor (Z.land fl 3) (k - 1) = k - 1 ->
  let b0 := Z.lor (Z.lor (if packet_protection then Z.land fl (not_u8 FLAG_RESERVED)
              else Z.land fl (not_u8 (Z.lor FLAG_RESERVED FLAG_KEY_PHASE))) FLAG_FIXED)
              (Z.land (k - 1) 3) in
  illegal_flags b0 = false /\
  Z.land b0 3 + 1 = k /\ is_u8 b0 /\ (Z.land fl 0x80 = 0 -> Z.land b0 0x80 = 0).
Proof.
  intros Hu Hk Hlow b0.
  cut (negb (Z.lor (Z.land fl 3) (k - 1) =? k - 1) ||
       (negb (illegal_flags b0)
        && (Z.land b0 3 + 1 =? k) && (0 <=? b0) && (b0 <=? U8_MAX)
        && (negb (Z.land fl 0x80 =? 0) || (Z.land b0 0x80 =? 0))) = true).
  { rewrite (proj2 (Z.eqb_eq _ _) Hlow). cbn [negb orb]. rewrite !andb_true_iff, !Z.leb_le, Z.eqb_eq.
    intros ((((H1%negb_true_iff & H2) & H3) & H4) & H5). repeat split; try done.
    intros H7. apply Z.eqb_eq in H7. rewrite H7 in H5. by apply Z.eqb_eq. }
  subst b0. clear Hlow.
  assert (Hc : k = 1 \/ k = 2 \/ k = 3 \/ k = 4) by lia.
  unfold illegal_flags. destruct F as [[]]; cbn [packet_protection];
    destruct Hc as [-> |[-> |[-> | ->]]]; byte_case fl.
Qed.

(** The structure of the packets [decode_prefix] accepts: flag byte,
    destination, packet number, body. *)
Lemma decode_prefix_app b0 cid c pnb body :
  illegal_flags b0 = false ->
  ConnectionId.decode (cid ++ pnb ++ body) = Ok (c, zlen cid) ->
  zlen pnb = Z.land b0 3 + 1 ->
  decode_prefix (b0 :: cid ++ pnb ++ body) =
    Ok (mkShortHeaderPrefix b0 c (be_fold32 0 pnb) (zlen pnb) (1 + zlen cid + zlen pnb)).
Proof.
  intros Hfl Hcid Hpn. unfold decode_prefix. rewrite Hfl, <- Hpn.
  assert (Hs : forall E, slice_from (E:=E) (b0 :: cid ++ pnb ++ body) 1 = Ok (cid ++ pnb ++ body)).
  { intros E. apply slice_from_Ok. split; [zlia|]. by rewrite drop_1_cons. }
  rewrite Hs. simpl mbind. rewrite Hcid. simpl mbind.
  rewrite (proj2 (Z.ltb_ge _ _)) by zlia.
  assert (Hp : slice (E:=Error.t) (b0 :: cid ++ pnb ++ body) (1 + zlen cid)
                 (1 + zlen cid + zlen pnb) = Ok pnb).
  { apply slice_Ok. split; [zlia|]. split; [zlia|].
    replace (1 + zlen cid + zlen pnb - (1 + zlen cid)) with (zlen pnb) by lia.
    replace (Z.to_nat (1 + zlen cid)) with (S (length cid)) by (unfold zlen; lia).
    by rewrite skipn_cons, drop_app_length, to_nat_zlen, take_app_length. }
  by rewrite Hp.
Qed.

Lemma decode_prefix_Ok input p :
  bytes_ok input -> decode_prefix input = Ok p ->
  exists b0 cid pnb body, input = b0 :: cid ++ pnb ++ body /\
    illegal_flags b0 = false /\
    ConnectionId.encode (p_dcid p) (zlen cid) = Ok cid /\ is_cid (p_dcid p) /\
    zlen cid = ConnectionId.encoded_len (p_dcid p) /\ zlen pnb = Z.land b0 3 + 1 /\
    p = mkShortHeaderPrefix b0 (p_dcid p) (be_fold32 0 pnb) (zlen pnb)
          (1 + zlen cid + zlen pnb).
Proof.
  intros Hok. destruct input as [|b0 input]; [done|]. unfold decode_prefix.
  destruct (illegal_flags b0) eqn:Hfl; [done|]. inversion Hok as [|? ? Hb0 Hin]; subst.
  intros (rest & [_ ->]%slice_from_Ok & ([c n] & Hcid & H)%bind_Ok)%bind_Ok.
  rewrite drop_1_cons in Hcid.
  destruct (Z.ltb_spec (zlen (b0 :: input)) (1 + n + (Z.land b0 3 + 1))); [done|].
  apply bind_Ok in H as (pnb & (Hr & Hle & ->)%slice_Ok & [= <-]).
  apply cid_encode_decode in Hcid as (Hc & Hn & He); [|done]. simpl.
  specialize (He n ltac:(lia)). pose proof (cid_encode_len _ _ _ Hc He) as (Hl & _).
  set (k := Z.land b0 3 + 1) in *. rewrite zlen_cons in *.
  replace (Z.to_nat (1 + n)) with (S (Z.to_nat n)) by lia. rewrite skipn_cons.
  replace (1 + n + k - (1 + n)) with k by lia.
  set (cid := take (Z.to_nat n) input) in *. set (tl := drop (Z.to_nat n) input).
  exists b0, cid, (take (Z.to_nat k) tl), (drop (Z.to_nat k) tl).
  assert (Hcl : zlen cid = n) by (apply zlen_take; lia).
  assert (Hpl : zlen (take (Z.to_nat k) tl) = k).
  { apply zlen_take. subst tl. rewrite zlen_drop; lia. }
  rewrite take_drop. subst tl. split; [by unfold cid; rewrite take_drop|].
  rewrite Hcl, Hpl. repeat split; try done; lia.
Qed.

Lemma decode_prefix_not_Panic input : bytes_ok input -> decode_prefix input <> Panic.
Proof.
  intros Hok. destruct input as [|b0 input]; [done|]. unfold decode_prefix.
  inversion Hok as [|? ? Hb0 Hin]; subst. destruct (illegal_flags b0); [done|].
  apply bind_not_Panic; [apply slice_from_not_Panic; zlia|].
  intros s [_ ->]%slice_from_Ok. rewrite drop_1_cons.
  apply bind_not_Panic; [by apply cid_decode_not_Panic|].
  intros [c n] (Hc & Hn & _)%cid_encode_decode; [|done].
  assert (0 <= Z.land b0 3) by (apply Z.land_nonneg; lia).
  destruct (Z.ltb_spec (zlen (b0 :: input)) (1 + n + (Z.land b0 3 + 1))); [done|].
  apply bind_not_Panic; [apply slice_not_Panic; lia | done].
Qed.

(** Reading back an encoded header yields its fields, with the packet number
    truncated. *)
Lemma decode_prefix_encode h cap bs body :
  is_u8 (flags h) -> is_cid (dcid h) -> is_u32 (packet_number h) ->
  1 <= packet_number_len h <= 4 ->
  Z.lor (Z.land (flags h) 3) (packet_number_len h - 1) = packet_number_len h - 1 ->
  short_encode h cap = Ok bs ->
  exists b0, hd_error bs = Some b0 /\ zlen bs <= cap /\
    decode_prefix (bs ++ body) =
      Ok (mkShortHeaderPrefix b0 (dcid h)
            (packet_number h mod 2 ^ (8 * packet_number_len h)) (packet_number_len h) (zlen bs)).
Proof.
  intros Hf Hc Hpn Hk Hlow. unfold short_encode, clamp.
  rewrite (proj2 (Z.ltb_ge _ 1)), (proj2 (Z.ltb_ge 4 _)) by lia.
  destruct (Z.ltb_spec cap (1 + ConnectionId.encoded_len (dcid h) + packet_number_len h)); [done|].
  intros (cid & Hcid & [= <-])%bind_Ok.
  pose proof (short_flags_byte _ _ Hf Hk Hlow) as (Hfl & Hlen & _). cbv zeta in *.
  clear Hlow. set (b0 := Z.lor _ _) in *.
  set (pnb := be_bytes (Z.to_nat (packet_number_len h)) (packet_number h)).
  pose proof (cid_encode_len _ _ _ Hc Hcid) as (Hcl & _ & _).
  assert (Hpl : zlen pnb = packet_number_len h) by (unfold pnb; rewrite zlen_be_bytes; lia).
  exists b0. split; [done|]. split; [zlia|].
  rewrite <- app_comm_cons, <- app_assoc.
  rewrite (decode_prefix_app _ _ (dcid h)); [|done|by eapply cid_decode_encode|lia].
  rewrite be_fold32_val by (try apply be_bytes_ok; lia).
  subst pnb. rewrite be_val_be_bytes, Hpl, Z2Nat.id by lia.
  replace (2 ^ (8 * packet_number_len h)) with (256 ^ packet_number_len h)
    by (rewrite Z.pow_mul_r by lia; done).
  do 2 f_equal. zlia.
Qed.
End short_lemmas.

(** ** Rewriting short packets *)
Section rewrite_lemmas.
Context {F : Features}.

(** The prefix with another destination. *)
Definition with_dcid (p : ShortHeaderPrefix) (d : Z) : ShortHeaderPrefix :=
  mkShortHeaderPrefix (p_flags p) d (truncated_packet_number p) (p_packet_number_len p)
    (header_len p - ConnectionId.encoded_len (p_dcid p) + ConnectionId.encoded_len d).

(** A rewrite on the pieces of the packet. *)
Lemma rewrite_short_pieces b0 cid c pnb body d cid' cap :
  let input := b0 :: cid ++ pnb ++ body in
  illegal_flags b0 = false ->
  Z.land b0 0x80 = 0 -> zlen pnb = Z.land b0 3 + 1 -> zlen input + 8 <= U64_MAX ->
  is_cid c -> ConnectionId.encode c (zlen cid) = Ok cid ->
  is_cid d -> d <> 0 -> ConnectionId.encode d (zlen cid') = Ok cid' ->
  zlen (b0 :: cid' ++ pnb ++ body) <= cap ->
  rewrite_dcid input d cap = Ok (b0 :: cid' ++ pnb ++ body).
Proof.
  intros input Hfl Hlong Hpn Hsz Hc Hcid Hd Hd0 Hcid' Hcap.
  pose proof (cid_encode_len _ _ _ Hc Hcid) as (Hcl & _ & _).
  pose proof (cid_encode_len _ _ _ Hd Hcid') as (Hcl' & _ & _).
  assert (Hp : decode_prefix input = Ok _)
    by (apply (decode_prefix_app b0 cid c pnb body); [done|by eapply cid_decode_encode|lia]).
  unfold rewrite_dcid, rewrite_destination. rewrite (proj2 (Z.eqb_neq d 0)) by done.
  unfold is_long. simpl. rewrite Hlong. simpl. unfold input in *. rewrite Hp. simpl.
  assert (Hel : ConnectionId.encoded_len d <= 8).
  { destruct (encoded_len_cases d Hd) as [[-> _]|[[-> _]|[[-> _]|[-> _]]]]; lia. }
  unfold checked_sub, checked_add.
  rewrite (proj2 (Z.leb_le (ConnectionId.encoded_len c) _)) by (rewrite <- Hcl; zlia).
  simpl. rewrite (proj2 (Z.leb_le _ U64_MAX)) by (rewrite <- Hcl in *; zlia). simpl.
  rewrite (proj2 (Z.ltb_ge cap _)) by zlia. simpl.
  destruct (cid_encode_shape d (cap - 1) Hd) as (m & h & Hm & He & _); [zlia|].
  destruct (cid_encode_shape d (zlen cid') Hd) as (m' & h' & Hm' & He' & Hh' & Hv' & _); [lia|].
  assert (Hsame : ConnectionId.encode d (cap - 1) = Ok cid').
  { rewrite <- Hcid'. unfold ConnectionId.encode.
    rewrite !(proj2 (Z.ltb_ge _ (ConnectionId.encoded_len d))) by zlia. done. }
  rewrite Hsame. simpl.
  assert (Ht : slice_from (E:=Error.t) (b0 :: cid ++ pnb ++ body) (1 + ConnectionId.encoded_len c)
               = Ok (pnb ++ body)).
  { apply slice_from_Ok. rewrite <- Hcl. split; [zlia|].
    replace (Z.to_nat (1 + zlen cid)) with (S (length cid)) by (unfold zlen; lia).
    by rewrite skipn_cons, drop_app_length. }
  by rewrite Ht.
Qed.

(** Conversely, a successful rewrite has that shape. *)
Lemma rewrite_short_Ok input d cap out :
  bytes_ok input -> is_long input = false -> is_cid d ->
  rewrite_dcid input d cap = Ok out ->
  exists b0 cid c pnb body cid', input = b0 :: cid ++ pnb ++ body /\
    out = b0 :: cid' ++ pnb ++ body /\ d <> 0 /\ zlen out <= cap /\
    illegal_flags b0 = false /\
    is_cid c /\ ConnectionId.encode c (zlen cid) = Ok cid /\
    ConnectionId.encode d (zlen cid') = Ok cid' /\ zlen pnb = Z.land b0 3 + 1 /\
    decode_prefix input = Ok (mkShortHeaderPrefix b0 c (be_fold32 0 pnb) (zlen pnb)
                                (1 + zlen cid + zlen pnb)).
Proof.
  intros Hok Hlong Hd. unfold rewrite_dcid, rewrite_destination. rewrite Hlong.
  destruct (Z.eqb_spec d 0); [done|]. simpl.
  intros (p & Hp & (used & Hu & H)%bind_Ok)%bind_Ok.
  destruct (decode_prefix_Ok input p Hok Hp)
    as (b0 & cid & pnb & body & -> & Hfl & Hcid & Hc & Hcl & Hpn & Hpe).
  rewrite ok_or_Ok in Hu. unfold checked_sub in Hu.
  destruct (Z.leb_spec (ConnectionId.encoded_len (p_dcid p)) (zlen (b0 :: cid ++ pnb ++ body)));
    simpl in Hu; [|done]. unfold checked_add in Hu.
  destruct (_ <=? U64_MAX); [|done]. injection Hu as <-.
  destruct (Z.ltb_spec cap (zlen (b0 :: cid ++ pnb ++ body)
    - ConnectionId.encoded_len (p_dcid p) + ConnectionId.encoded_len d)); [done|].
  simpl in H. apply bind_Ok in H as (cid' & Hcid' & (tl & [_ ->]%slice_from_Ok & [= <-])%bind_Ok).
  pose proof (cid_encode_len _ _ _ Hd Hcid') as (Hcl' & _ & _). rewrite <- Hcl in *.
  replace (Z.to_nat (1 + zlen cid)) with (S (length cid)) by (unfold zlen; lia).
  rewrite skipn_cons, drop_app_length.
  exists b0, cid, (p_dcid p), pnb, body, cid'. repeat split; try done; try lia; try zlia.
  - rewrite <- Hcid'. unfold ConnectionId.encode.
    by rewrite !(proj2 (Z.ltb_ge _ (ConnectionId.encoded_len d))) by zlia.
  - rewrite Hp. by rewrite Hpe at 1.
Qed.
End rewrite_lemmas.

(** ** In-place rewriting *)
Definition owned_ok (p : OwnedPacket) : Prop :=
  0 <= range_start p <= range_end p /\ range_end p <= zlen (buffer p) /\
  bytes_ok (buffer p) /\ zlen (buffer p) + 8 <= U64_MAX.

Lemma packet_bytes_len p : owned_ok p -> zlen (packet_bytes p) = range_end p - range_start p.
Proof.
  intros (Hr & He & _). unfold packet_bytes. rewrite zlen_take; [lia|]. rewrite zlen_drop; lia.
Qed.

Lemma packet_bytes_ok p : owned_ok p -> bytes_ok (packet_bytes p).
Proof. intros (_ & _ & H & _). by apply bytes_ok_take, bytes_ok_drop. Qed.

(** The tail of a packet, read from its storage. *)
Lemma packet_bytes_drop p k :
  owned_ok p -> 0 <= k <= range_end p - range_start p ->
  drop (Z.to_nat k) (packet_bytes p) =
  take (Z.to_nat (range_end p - range_start p - k))
    (drop (Z.to_nat (range_start p + k)) (buffer p)).
Proof.
  intros (Hr & He & _) Hk. unfold packet_bytes.
  rewrite skipn_firstn_comm, drop_drop. f_equal; [lia|]. f_equal. lia.
Qed.

(** The packet after overwriting its header. *)
Lemma overwrite_packet_bytes buf u start end_ header :
  0 <= start -> start + zlen header <= end_ <= zlen buf ->
  exists buf', overwrite (E:=Error.t * OwnedPacket) buf start header = Ok buf' /\
    zlen buf' = zlen buf /\
    packet_bytes (mkOwnedPacket buf' u start end_) =
      header ++ take (Z.to_nat (end_ - (start + zlen header)))
                  (drop (Z.to_nat (start + zlen header)) buf).
Proof.
  intros Hs He. unfold overwrite.
  rewrite (proj2 (Z.leb_le 0 start)), (proj2 (Z.leb_le (start + zlen header) _)) by lia.
  pose proof (zlen_nonneg header). simpl. eexists. split; [done|]. split.
  - rewrite !zlen_app, zlen_take, zlen_drop by lia. lia.
  - unfold packet_bytes. cbn [range_end range_start buffer].
    rewrite drop_app_ge by (rewrite length_take; lia).
    rewrite length_take. replace (_ - _)%nat with 0%nat by (unfold zlen in *; lia).
    rewrite drop_0, firstn_app, take_ge by (unfold zlen in *; lia). f_equal. f_equal.
    unfold zlen in *. lia.
Qed.

Section in_place_lemmas.
Context {F : Features}.

(** What the preflight computes when it accepts. *)
Lemma dcid_rewrite_layout_Ok pk d pre maxp r :
  owned_ok pk -> is_cid d -> dcid_rewrite_layout pk d pre maxp = Ok r ->
  exists b0 cid pnb body cid',
    packet_bytes pk = b0 :: cid ++ pnb ++ body /\
    r = (range_start pk + zlen cid - zlen cid', range_end pk, b0 :: cid') /\
    0 <= range_start pk + zlen cid - zlen cid' /\
    pre <= range_start pk + zlen cid - zlen cid' /\
    range_end pk - (range_start pk + zlen cid - zlen cid') <= maxp /\
    forall cap, zlen (b0 :: cid' ++ pnb ++ body) <= cap ->
      rewrite_dcid (b0 :: cid ++ pnb ++ body) d cap = Ok (b0 :: cid' ++ pnb ++ body).
Proof.
  intros Hok Hd. unfold dcid_rewrite_layout.
  destruct (Z.eqb_spec d 0); [done|]. simpl. destruct (is_long _) eqn:Hlong; [done|].
  intros (p & Hp & (start & Hst%ok_or_Ok & H)%bind_Ok)%bind_Ok.
  pose proof (packet_bytes_len pk Hok) as Hlen.
  destruct (decode_prefix_Ok _ p (packet_bytes_ok pk Hok) Hp)
    as (b0 & cid & pnb & body & Hin & Hfl & Hcid & Hc & Hcl & Hpn & _).
  unfold checked_sub in Hst. destruct (Z.leb_spec (1 + ConnectionId.encoded_len d)
    (range_start pk + 1 + ConnectionId.encoded_len (p_dcid p))); [|done].
  injection Hst as <-. destruct (_ || _) eqn:Hb; [done|]. bools.
  rewrite Hin in H. simpl in H. apply bind_Ok in H as (cid' & Hcid' & [= <-]).
  pose proof (cid_encode_len _ _ _ Hd Hcid') as (Hcl' & _ & _). rewrite <- Hcl, <- Hcl' in *.
  exists b0, cid, pnb, body, cid'. rewrite Hin in Hlen.
  split; [done|]. split; [apply (f_equal (fun z => (z, range_end pk, b0 :: cid'))); lia|].
  split; [lia|]. split; [lia|].
  split; [lia|]. intros cap Hcap. rewrite Hin in Hlong. simpl in Hlong.
  apply negb_false_iff, Z.eqb_eq in Hlong.
  eapply (rewrite_short_pieces b0 cid (p_dcid p)); try done.
  - destruct Hok as (? & ? & ? & ?). unfold U64_MAX in *. lia.
  - by replace (zlen cid') with (1 + zlen cid' - 1) by lia.
Qed.

Lemma dcid_rewrite_layout_not_Panic pk d pre maxp :
  owned_ok pk -> dcid_rewrite_layout pk d pre maxp <> Panic.
Proof.
  intros Hok. unfold dcid_rewrite_layout. destruct (_ || _); [done|].
  apply bind_not_Panic; [by apply decode_prefix_not_Panic, packet_bytes_ok|]. intros p Hp.
  apply bind_not_Panic; [apply ok_or_not_Panic|]. intros start _.
  destruct (_ || _); [done|].
  destruct (decode_prefix_Ok _ p (packet_bytes_ok pk Hok) Hp) as (b0 & ? & ? & ? & -> & _).
  simpl. apply bind_not_Panic; [|done]. unfold ConnectionId.encode. by case_match.
Qed.

(** The preflight's own refusals are not the shared-buffer one. *)
Lemma cid_decode_not_Blocked s : ConnectionId.decode s <> Err Error.Blocked.
Proof.
  destruct s as [|b0 s]; [done|]. unfold ConnectionId.decode.
  apply bind_not_Err; [unfold ConnectionId.length_class; by repeat case_match|]. intros [n m].
  destruct (_ <? n); [done|]. apply bind_not_Err; [unfold slice; by case_match|].
  intros. by case_match.
Qed.

Lemma decode_prefix_not_Blocked input : decode_prefix input <> Err Error.Blocked.
Proof.
  destruct input as [|b0 input]; [done|]. unfold decode_prefix. destruct (illegal_flags b0); [done|].
  apply bind_not_Err; [unfold slice_from; by case_match|]. intros s.
  apply bind_not_Err; [apply cid_decode_not_Blocked|]. intros [c n].
  destruct (_ <? _); [done|]. apply bind_not_Err; [unfold slice; by case_match | done].
Qed.

Lemma dcid_rewrite_layout_not_Blocked pk d pre maxp :
  dcid_rewrite_layout pk d pre maxp <> Err Error.Blocked.
Proof.
  unfold dcid_rewrite_layout. destruct (_ || _); [done|].
  apply bind_not_Err; [apply decode_prefix_not_Blocked|]. intros p.
  apply bind_not_Err; [unfold checked_sub; by case_match|]. intros start.
  destruct (_ || _); [done|]. apply bind_not_Err; [unfold index; by case_match|]. intros b0.
  apply bind_not_Err; [unfold ConnectionId.encode; by case_match | done].
Qed.
End in_place_lemmas.

(** ** Long packets *)
Definition opt_cid_ok (c : option Z) : Prop :=
  match c with Some c => is_cid c | None => True end.

Lemma opt_cid_len_nonneg c : 0 <= opt_cid_len c.
Proof. destruct c; simpl; [|lia]. unfold ConnectionId.encoded_len. repeat case_match; lia. Qed.

Lemma encode_long_cid_Ok c b :
  opt_cid_ok c -> encode_long_cid c = Ok b -> zlen b = 1 + opt_cid_len c /\ bytes_ok b.
Proof.
  destruct c as [c|]; simpl.
  - intros Hc (b' & Hb & [= <-])%bind_Ok. pose proof (cid_encode_len _ _ _ Hc Hb) as (? & ? & _).
    split; [zlia|]. constructor; [apply as_u8_range | done].
  - intros _ [= <-]. split; [done|]. repeat constructor; unfold U8_MAX; lia.
Qed.

Lemma decode_long_cid_encode input p c b rest :
  opt_cid_ok c -> encode_long_cid c = Ok b -> at_cursor input p (b ++ rest) ->
  decode_long_cid input p = Ok (c, p + zlen b).
Proof.
  intros Hc Hb Hcur. unfold decode_long_cid. destruct c as [c|]; simpl in *.
  - apply bind_Ok in Hb as (b' & Hb & [= <-]). rewrite <- app_comm_cons in Hcur.
    pose proof (cid_encode_len _ _ _ Hc Hb) as (Hl & _ & _).
    rewrite (at_cursor_get_ix _ _ _ _ Hcur). simpl. apply at_cursor_cons in Hcur.
    assert (Hn : as_u8 (ConnectionId.encoded_len c) = ConnectionId.encoded_len c).
    { apply as_u8_small. unfold U8_MAX.
      destruct (encoded_len_cases c Hc) as [[-> _]|[[-> _]|[[-> _]|[-> _]]]]; lia. }
    assert (Hm : negb ((ConnectionId.encoded_len c =? 1) || (ConnectionId.encoded_len c =? 2) ||
       (ConnectionId.encoded_len c =? 4) || (ConnectionId.encoded_len c =? 8)) = false /\
       (ConnectionId.encoded_len c =? 0) = false).
    { destruct (encoded_len_cases c Hc) as [[-> _]|[[-> _]|[[-> _]|[-> _]]]]; done. }
    destruct Hm as [Hm H0]. rewrite Hn, Hm, H0. simpl.
    pose proof (at_cursor_len _ _ _ Hcur). rewrite <- Hl at 1.
    rewrite (proj2 (Z.ltb_ge _ _)) by zlia. rewrite <- Hl at 1.
    rewrite (at_cursor_slice_range _ _ _ _ Hcur). simpl.
    pose proof (cid_decode_encode c _ b' [] Hc Hb) as Hd. rewrite app_nil_r in Hd.
    rewrite Hd. simpl. rewrite Hl, Z.eqb_refl. simpl. do 2 f_equal. zlia.
  - injection Hb as <-. by rewrite (at_cursor_get_ix _ _ _ _ Hcur).
Qed.

Lemma long_b0_fields ty k :
  0 <= ty <= 3 -> 1 <= k <= 4 ->
  let b0 := Z.lor (Z.lor 0xc0 (Z.shiftl ty 4)) (k - 1) in
  Z.land b0 0xc0 = 0xc0 /\ Z.land (Z.shiftr b0 4) 0x03 = ty /\ Z.land b0 0x03 + 1 = k /\
  is_u8 b0 /\ Z.land b0 0x80 <> 0.
Proof.
  intros Ht Hk.
  assert (Hc : k = 1 \/ k = 2 \/ k = 3 \/ k = 4) by lia.
  assert (Hc' : ty = 0 \/ ty = 1 \/ ty = 2 \/ ty = 3) by lia.
  destruct Hc as [-> |[-> |[-> | ->]]]; destruct Hc' as [-> |[-> |[-> | ->]]];
    vm_compute; repeat split; discriminate.
Qed.

Lemma be_bytes_drop m k v : be_bytes k v = drop m (be_bytes (m + k) v).
Proof. induction m; simpl; [by rewrite drop_0 | done]. Qed.

Lemma be_val_truncated k v :
  1 <= k <= 4 -> be_val (drop (Z.to_nat (4 - k)) (be_bytes 4 v)) = v mod 256 ^ k /\
  zlen (drop (Z.to_nat (4 - k)) (be_bytes 4 v)) = k.
Proof.
  intros Hk. replace 4%nat with (Z.to_nat (4 - k) + Z.to_nat k)%nat by lia.
  rewrite <- be_bytes_drop, be_val_be_bytes, zlen_be_bytes, Z2Nat.id by lia. done.
Qed.

(** The pieces of an encoded long packet. *)
Lemma encode_long_packet_Ok ty dc sc pn k payload cap bs :
  0 <= ty -> opt_cid_ok dc -> opt_cid_ok sc ->
  encode_long_packet ty dc sc pn k payload cap = Ok bs ->
  exists dcb scb ln, 0 <= ty <= 3 /\ 1 <= k <= 4 /\ payload <> [] /\
    encode_long_cid dc = Ok dcb /\ encode_long_cid sc = Ok scb /\
    (exists cap', put_varint (k + zlen payload) cap' = Ok ln) /\
    zlen bs <= cap /\
    bs = (Z.lor (Z.lor 0xc0 (Z.shiftl ty 4)) (k - 1) :: be_bytes 4 DMESH_LONG_HEADER_VERSION)
         ++ dcb ++ scb ++ (if ty =? LONG_PACKET_INITIAL then [0] else []) ++ ln
         ++ drop (Z.to_nat (4 - k)) (be_bytes 4 pn) ++ payload.
Proof.
  intros Hty Hdc Hsc. unfold encode_long_packet. destruct (_ || _) eqn:Hg; [done|]. bools.
  case_bool_decide; [done|]. destruct (Z.ltb_spec cap
    (1 + 4 + 1 + opt_cid_len dc + 1 + opt_cid_len sc
     + (if ty =? LONG_PACKET_INITIAL then 1 else 0) + 8 + k + zlen payload)); [done|].
  intros (dcb & Hd & (scb & Hs & (ln & Hln & <-%Ok_inj)%bind_Ok)%bind_Ok)%bind_Ok.
  destruct (encode_long_cid_Ok _ _ Hdc Hd) as [Hdl _].
  destruct (encode_long_cid_Ok _ _ Hsc Hs) as [Hsl _].
  assert (Hk : 1 <= k <= 4) by lia. destruct (be_val_truncated k pn Hk) as [_ Hpl].
  exists dcb, scb, ln. split; [lia|]. split; [done|]. split; [done|]. split; [done|].
  split; [done|]. split; [by eexists|]. split; [|by rewrite !app_assoc].
  assert (0 <= k + zlen payload) as Hkp by zlia.
  pose proof (put_varint_len _ _ _ Hkp Hln) as (Hll & _ & _).
  assert (Hv : varint_len (k + zlen payload) <= 8) by (unfold varint_len; repeat case_match; lia).
  rewrite !zlen_app, Hpl. destruct (_ =? LONG_PACKET_INITIAL); zlia.
Qed.

Lemma skip_token_initial input ty p rest :
  at_cursor input p ((if ty =? LONG_PACKET_INITIAL then [0] else []) ++ rest) ->
  zlen input <= U64_MAX ->
  exists p', skip_token input ty p = Ok p' /\ at_cursor input p' rest.
Proof.
  intros Hcur Hmax. unfold skip_token. destruct (ty =? LONG_PACKET_INITIAL); [|by exists p].
  pose proof (at_cursor_app _ _ _ _ Hcur) as Hcur'.
  pose proof (at_cursor_len _ _ _ Hcur'). destruct Hcur as [Hp Hd].
  exists (p + 1). split; [|done].
  assert (Hg : get_from input p = Some ([0] ++ rest)) by (by apply get_from_Some).
  rewrite Hg. simpl.
  assert (Hv : get_varint (0 :: rest) = Ok (0, 1)) by (by apply (get_put_varint 0 1 [0] rest)).
  rewrite Hv. simpl. unfold checked_add. change (zlen [0]) with 1 in *.
  rewrite (proj2 (Z.leb_le _ _)) by zlia. simpl.
  rewrite (proj2 (Z.ltb_ge _ _)) by zlia. f_equal. lia.
Qed.

Lemma decode_long_encode ty dc sc pn k payload cap bs :
  0 <= ty -> opt_cid_ok dc -> opt_cid_ok sc -> cap <= U64_MAX ->
  encode_long_packet ty dc sc pn k payload cap = Ok bs ->
  exists at_, decode_long_packet bs =
    Ok (mkLongHeader ty DMESH_LONG_HEADER_VERSION dc sc (pn mod 256 ^ k) k, at_, zlen payload) /\
    at_cursor bs at_ payload.
Proof.
  intros Hty Hdc Hsc Hcap He.
  destruct (encode_long_packet_Ok _ _ _ _ _ _ _ _ Hty Hdc Hsc He)
    as (dcb & scb & ln & Ht & Hk & Hne & Hd & Hs & [cap' Hln] & Hlen & Hbs). clear He.
  destruct (long_b0_fields ty k Ht Hk) as (H1 & H2 & H3 & _ & _). cbv zeta in *.
  set (b0 := Z.lor _ _) in *.
  destruct (encode_long_cid_Ok _ _ Hdc Hd) as [Hdl _].
  destruct (encode_long_cid_Ok _ _ Hsc Hs) as [Hsl _].
  destruct (be_val_truncated k pn Hk) as [Hpv Hpl]. set (pnb := drop _ (be_bytes 4 pn)) in *.
  assert (0 <= k + zlen payload) as Hkp by zlia.
  pose proof (put_varint_len _ _ _ Hkp Hln) as (Hll & _ & _).
  assert (Hl1 : 1 <= varint_len (k + zlen payload)) by (unfold varint_len; repeat case_match; lia).
  assert (Hpay : 1 <= zlen payload) by (destruct payload; [done|zlia]).
  pose proof (opt_cid_len_nonneg dc). pose proof (opt_cid_len_nonneg sc).
  assert (Hc5 : at_cursor bs 5 (dcb ++ scb ++ (if ty =? LONG_PACKET_INITIAL then [0] else [])
                  ++ ln ++ pnb ++ payload)).
  { rewrite Hbs. apply (at_cursor_app _ 0 (b0 :: be_bytes 4 DMESH_LONG_HEADER_VERSION)).
    apply at_cursor_start. }
  pose proof (decode_long_cid_encode _ _ _ _ _ Hdc Hd Hc5) as Hd1. apply at_cursor_app in Hc5.
  pose proof (decode_long_cid_encode _ _ _ _ _ Hsc Hs Hc5) as Hd2. apply at_cursor_app in Hc5.
  destruct (skip_token_initial _ _ _ _ Hc5 ltac:(lia)) as (p & Hd3 & Hc6). clear Hc5.
  pose proof (get_varint_at_put _ _ _ _ _ _ Hkp Hln Hc6) as Hd4. apply at_cursor_app in Hc6.
  pose proof (at_cursor_len _ _ _ Hc6) as Hz6. pose proof (proj1 Hc6) as Hp6.
  pose proof (at_cursor_slice_range (E:=Error.t) _ _ _ _ Hc6) as Hd5. apply at_cursor_app in Hc6.
  exists (p + zlen ln + zlen pnb). split; [|done]. unfold decode_long_packet.
  rewrite Hbs at 1. cbn [app]. rewrite (proj2 (Z.ltb_ge _ 9)), H1, Z.eqb_refl by
    (rewrite (at_cursor_len bs 0 bs (at_cursor_start bs)), Hbs, !zlen_app; zlia).
  assert (Hv : slice (E:=Error.t) bs 1 5 = Ok (be_bytes 4 DMESH_LONG_HEADER_VERSION)).
  { rewrite Hbs. cbn [app]. by apply slice_tail. }
  cbn [negb orb]. rewrite Hv. cbn [mbind outcome_bind]. rewrite be_val_be_bytes.
  change (DMESH_LONG_HEADER_VERSION mod 256 ^ Z.of_nat 4) with DMESH_LONG_HEADER_VERSION.
  rewrite Z.eqb_refl, H2, H3, Hd1. cbn [negb mbind outcome_bind]. rewrite Hd2.
  cbn [mbind outcome_bind]. rewrite Hd3. cbn [mbind outcome_bind]. rewrite Hd4.
  cbn [mbind outcome_bind]. unfold usize_try_from. rewrite (proj2 (Z.leb_le _ _)) by zlia.
  cbn [ok_or mbind outcome_bind]. rewrite (proj2 (Z.ltb_ge _ k)), (proj2 (Z.eqb_eq _ _)) by zlia.
  cbn [negb orb]. rewrite <- Hpl, Hd5, Hpl. cbn [mbind outcome_bind]. rewrite Hpv.
  repeat f_equal; lia.
Qed.

(** ** Long-header parsing on arbitrary input *)
Lemma decode_long_cid_Ok input p c p' :
  bytes_ok input -> 0 <= p -> decode_long_cid input p = Ok (c, p') ->
  p < p' <= zlen input /\ opt_cid_ok c.
Proof.
  intros Hok Hp (len & Hlen%ok_or_Ok & H)%bind_Ok. apply get_ix_Some in Hlen as Hix.
  destruct (Z.eqb_spec len 0); [injection H as <- <-; simpl; lia|].
  cbv zeta in H.
  destruct (negb (_ || _) || _) eqn:Hg; [done|]. apply orb_false_iff in Hg as [_ Hg].
  apply bind_Ok in H as (s & (Hr & Hle & ->)%slice_Ok & ([cid used] & Hd & H)%bind_Ok).
  destruct (negb _); [done|]. injection H as <- <-.
  apply cid_encode_decode in Hd as (Hc & _); [simpl; lia | by apply bytes_ok_take, bytes_ok_drop].
Qed.

Lemma decode_long_cid_not_Panic input p :
  bytes_ok input -> 0 <= p -> decode_long_cid input p <> Panic.
Proof.
  intros Hok Hp. apply bind_not_Panic; [apply ok_or_not_Panic|].
  intros len Hlen%ok_or_Ok. apply get_ix_Some in Hlen as Hix.
  destruct (Z.eqb_spec len 0); [done|]. cbv zeta.
  destruct (negb (_ || _) || _) eqn:Hg; [done|].
  assert (Hl : 0 < len /\ p + 1 + len <= zlen input).
  { apply orb_false_iff in Hg as [Hg1 Hg2]. bools.
    apply orb_true_iff in Hg1 as [Hg1|Hg1]; [|bools; lia].
    apply orb_true_iff in Hg1 as [Hg1|Hg1]; [|bools; lia].
    apply orb_true_iff in Hg1 as [Hg1|Hg1]; bools; lia. }
  apply bind_not_Panic; [apply slice_not_Panic; lia|].
  intros s (_ & _ & ->)%slice_Ok. apply bind_not_Panic; [|intros [] ?; by case_match].
  by apply cid_decode_not_Panic, bytes_ok_take, bytes_ok_drop.
Qed.

Lemma skip_token_Ok input ty p p' :
  bytes_ok input -> 0 <= p <= zlen input -> skip_token input ty p = Ok p' ->
  p <= p' <= zlen input.
Proof.
  intros Hok Hp. unfold skip_token. destruct (_ =? _); [|intros [= <-]; lia].
  intros (s & [_ ->]%ok_or_Ok%get_from_Some & ([v n] & Hv & H)%bind_Ok)%bind_Ok.
  apply get_varint_Ok in Hv as (Hv & Hn & _); [|by apply bytes_ok_drop].
  apply bind_Ok in H as (tl & Ht%ok_or_Ok & (q & Hq%ok_or_Ok & H)%bind_Ok).
  unfold usize_try_from in Ht. destruct (_ <=? _); [|done]. injection Ht as <-.
  unfold checked_add in Hq. destruct (_ <=? _); [|done]. injection Hq as <-.
  destruct (Z.ltb_spec (zlen input) (p + n + v)); [done|]. injection H as <-. lia.
Qed.

Lemma skip_token_not_Panic input ty p : bytes_ok input -> skip_token input ty p <> Panic.
Proof.
  intros Hok. unfold skip_token. destruct (_ =? _); [|done].
  apply bind_not_Panic; [apply ok_or_not_Panic|].
  intros s [_ ->]%ok_or_Ok%get_from_Some.
  apply bind_not_Panic; [by apply get_varint_not_Panic, bytes_ok_drop|]. intros [v n] _.
  apply bind_not_Panic; [apply ok_or_not_Panic|]. intros tl _.
  apply bind_not_Panic; [apply ok_or_not_Panic|]. intros q _. by case_match.
Qed.

Lemma land_3_range b : 0 <= Z.land b 3 <= 3.
Proof.
  change (Z.land b 3) with (Z.land b (Z.ones 2)). rewrite Z.land_ones by lia.
  pose proof (Z.mod_pos_bound b (2 ^ 2) ltac:(lia)). lia.
Qed.

(** Everything a successful parse guarantees about its result. *)
Lemma decode_long_packet_Ok input h at_ n :
  bytes_ok input -> decode_long_packet input = Ok (h, at_, n) ->
  0 <= l_packet_type h <= 3 /\ 1 <= l_packet_number_len h <= 4 /\
  opt_cid_ok (l_dcid h) /\ opt_cid_ok (l_scid h) /\
  0 <= at_ /\ 0 <= n /\ zlen input = at_ + n /\
  l_version h = DMESH_LONG_HEADER_VERSION.
Proof.
  intros Hok. destruct input as [|b0 input]; [done|]. unfold decode_long_packet.
  destruct (_ || _); [done|]. intros (vb & _ & H)%bind_Ok.
  destruct (Z.eqb_spec (be_val vb) DMESH_LONG_HEADER_VERSION) as [Hver|]; [|done]. cbn [negb] in H.
  apply bind_Ok in H as ([dc p1] & Hdc & ([sc p2] & Hsc & H)%bind_Ok).
  apply decode_long_cid_Ok in Hdc as [? ?]; [|done|lia].
  apply decode_long_cid_Ok in Hsc as [? ?]; [|done|lia].
  apply bind_Ok in H as (p3 & Hp3 & ([bl p4] & Hbl & H)%bind_Ok).
  apply skip_token_Ok in Hp3; [|done|lia].
  apply get_varint_at_Ok in Hbl as (? & ? & ?); [|done].
  apply bind_Ok in H as (bl' & Hb%ok_or_Ok & H).
  unfold usize_try_from in Hb. destruct (_ <=? _); [|done]. injection Hb as <-.
  destruct (_ || _) eqn:Hg; [done|]. apply orb_false_iff in Hg as [Hg1 Hg2]. bools.
  apply bind_Ok in H as (pn & _ & [= <- <- <-]). simpl.
  pose proof (land_3_range b0). pose proof (land_3_range (Z.shiftr b0 4)).
  repeat split; try done; lia.
Qed.

Lemma decode_long_packet_not_Panic input : bytes_ok input -> decode_long_packet input <> Panic.
Proof.
  intros Hok. destruct input as [|b0 input]; [done|]. unfold decode_long_packet.
  destruct (_ || _) eqn:Hg; [done|]. apply orb_false_iff in Hg as [Hg1 _]. bools.
  pose proof (land_3_range b0).
  apply bind_not_Panic; [apply slice_not_Panic; lia|]. intros vb _. destruct (negb _); [done|].
  apply bind_not_Panic; [by apply decode_long_cid_not_Panic|]. intros [dc p1] Hdc.
  apply decode_long_cid_Ok in Hdc as [? _]; [|done|lia].
  apply bind_not_Panic; [apply decode_long_cid_not_Panic; [done|lia]|]. intros [sc p2] Hsc.
  apply decode_long_cid_Ok in Hsc as [? _]; [|done|lia].
  apply bind_not_Panic; [by apply skip_token_not_Panic|]. intros p3 Hp3.
  apply skip_token_Ok in Hp3; [|done|lia].
  apply bind_not_Panic; [apply get_varint_at_not_Panic; [done|lia]|]. intros [bl p4] Hbl.
  apply get_varint_at_Ok in Hbl as (? & ? & ?); [|done].
  apply bind_not_Panic; [apply ok_or_not_Panic|]. intros bl' Hb%ok_or_Ok.
  unfold usize_try_from in Hb. destruct (_ <=? _); [|done]. injection Hb as <-.
  destruct (_ || _) eqn:Hg; [done|]. apply orb_false_iff in Hg as [Hg2 Hg3]. bools.
  apply bind_not_Panic; [apply slice_not_Panic; lia | done].
Qed.

Lemma cid_encode_not_Panic c cap : ConnectionId.encode c cap <> Panic.
Proof. unfold ConnectionId.encode. by case_match. Qed.

Lemma put_varint_not_Panic v cap : put_varint v cap <> Panic.
Proof.
  apply bind_not_Panic; [by repeat case_match|]. intros n _. by destruct (cap <? n).
Qed.

Lemma encode_long_packet_not_Panic ty dc sc pn k payload cap :
  encode_long_packet ty dc sc pn k payload cap <> Panic.
Proof.
  unfold encode_long_packet. destruct (_ || _); [done|]. destruct (_ <? _); [done|].
  assert (Hc : forall c, encode_long_cid c <> Panic).
  { intros [c|]; [|done]. apply bind_not_Panic; [apply cid_encode_not_Panic | done]. }
  apply bind_not_Panic; [apply Hc|]. intros dcb _. apply bind_not_Panic; [apply Hc|].
  intros scb _. apply bind_not_Panic; [apply put_varint_not_Panic | done].
Qed.

Lemma encode_long_packet_is_long ty dc sc pn k payload cap bs :
  0 <= ty -> opt_cid_ok dc -> opt_cid_ok sc ->
  encode_long_packet ty dc sc pn k payload cap = Ok bs -> is_long bs = true /\ 1 <= k <= 4.
Proof.
  intros Ht Hdc Hsc Henc.
  destruct (encode_long_packet_Ok _ _ _ _ _ _ _ _ Ht Hdc Hsc Henc)
    as (dcb & scb & ln & Hty & Hk & _ & _ & _ & _ & _ & ->).
  destruct (long_b0_fields ty k Hty Hk) as (_ & _ & _ & _ & H80). split; [|done].
  cbn [app is_long]. by apply negb_true_iff, Z.eqb_neq.
Qed.

Lemma decode_long_packet_pos input h at_ n :
  bytes_ok input -> decode_long_packet input = Ok (h, at_, n) -> 0 < at_.
Proof.
  intros Hok. destruct input as [|b0 input]; [done|]. unfold decode_long_packet.
  destruct (_ || _); [done|]. intros (vb & _ & H)%bind_Ok. destruct (negb _); [done|].
  apply bind_Ok in H as ([dc p1] & _ & ([sc p2] & _ & H)%bind_Ok).
  apply bind_Ok in H as (p3 & _ & ([bl p4] & Hbl & H)%bind_Ok).
  apply get_varint_at_Ok in Hbl as (_ & ? & _); [|done].
  apply bind_Ok in H as (bl' & _ & H). destruct (_ || _); [done|].
  apply bind_Ok in H as (pn & _ & [= _ <- _]). pose proof (land_3_range b0). lia.
Qed.

Lemma reconstruct_not_Panic p e : reconstruct p e <> Panic.
Proof.
  unfold reconstruct. cbv zeta. apply bind_not_Panic; [by repeat case_match|].
  intros c _. by destruct (_ <? _).
Qed.

Section rewrite_panic.
Context {F : Features}.

Lemma rewrite_destination_not_Panic input d cap :
  bytes_ok input -> rewrite_destination input d cap <> Panic.
Proof.
  intros Hok. unfold rewrite_destination. destruct (is_long input).
  - apply bind_not_Panic; [by apply decode_long_packet_not_Panic|]. intros [[h at_] n] Hd.
    apply decode_long_packet_Ok in Hd as (_ & _ & _ & _ & ? & ? & ? & _); [|done].
    apply bind_not_Panic; [apply slice_not_Panic; lia|]. intros. apply encode_long_packet_not_Panic.
  - apply bind_not_Panic; [apply ok_or_not_Panic|]. intros o _.
    apply bind_not_Panic; [by apply decode_prefix_not_Panic|]. intros p Hp.
    destruct (decode_prefix_Ok _ _ Hok Hp) as (b0 & cid & pnb & body & -> & _ & _ & _ & Hcl & _).
    apply bind_not_Panic; [apply ok_or_not_Panic|]. intros used _.
    destruct (_ <? _); [done|]. apply bind_not_Panic; [apply index_not_Panic; zlia|]. intros ? _.
    apply bind_not_Panic; [apply cid_encode_not_Panic|]. intros ? _.
    apply bind_not_Panic; [apply slice_from_not_Panic; zlia | done].
Qed.

Lemma decode_routing_prefix_not_Panic input :
  bytes_ok input -> decode_routing_prefix input <> Panic.
Proof.
  intros Hok. unfold decode_routing_prefix. destruct (is_long input) eqn:Hl;
    [|by apply decode_prefix_not_Panic].
  apply bind_not_Panic; [by apply decode_long_packet_not_Panic|]. intros [[h at_] n] _.
  apply bind_not_Panic; [|done]. destruct input; [done|]. apply index_not_Panic. zlia.
Qed.
End rewrite_panic.

(** ** Properties *)
Section properties.
Context {F : Features}.

(** The header of a packet whose number is inside the receiver's window. *)
Lemma short_header_recovered next la c cap bs body expected :
  is_u32 next -> is_u32 (default 0 la) -> is_cid c -> is_u32 expected ->
  default 0 la <= next <= default 0 la + 2 ^ 31 - 1 ->
  default 0 la <= expected < next + 128 ->
  short_encode (mkShortHeader FLAG_FIXED c next (packet_number_len_for next la)) cap = Ok bs ->
  exists fl, decode_with_expected (bs ++ body) expected =
    Ok (mkShortHeader fl c next (packet_number_len_for next la), zlen bs).
Proof.
  intros Hn Hla Hc He Hd Hexp Henc.
  pose proof (packet_number_len_for_window next la Hn Hla ltac:(lia)) as (Hk & Hw & Hdist).
  set (k := packet_number_len_for next la) in *.
  clearbody k.
  destruct (decode_prefix_encode (mkShortHeader FLAG_FIXED c next k) cap bs body)
    as (b0 & _ & _ & Hp); [vm_compute; split; discriminate|exact Hc|exact Hn|exact Hk| |exact Henc|].
  { by change (Z.land (flags _) 3) with 0. }
  cbn [dcid packet_number packet_number_len] in Hp. exists b0. unfold decode_with_expected. rewrite Hp. cbn [mbind outcome_bind].
  rewrite (reconstruct_window (mkShortHeaderPrefix b0 c _ k _) expected next Hk Hn He eq_refl);
    cbn [p_packet_number_len]; [done | lia].
Qed.

(** End to end, a receiver recovers exactly the packet number the sender
    meant.  The sender truncates packet number [next] to
    [packet_number_len(next, largest_acked)] bytes; the receiver, which has seen
    at least everything the sender knows to be acknowledged and at most 127
    packets beyond [next], reconstructs the full header from the wire. *)
Theorem packet_number_recovered next la c cap bs body expected :
  is_u32 next -> is_u32 (default 0 la) -> is_cid c -> is_u32 expected ->
  default 0 la <= next <= default 0 la + 2 ^ 31 - 1 ->
  default 0 la <= expected < next + 128 ->
  short_encode (mkShortHeader FLAG_FIXED c next (packet_number_len_for next la)) cap = Ok bs ->
  exists fl, decode_with_expected (bs ++ body) expected =
    Ok (mkShortHeader fl c next (packet_number_len_for next la), zlen bs).
Proof. apply short_header_recovered. Qed.

(** A relay's [rewrite_dcid] of a short packet is opaque and reversible:
    the result fits the output slice, parses to the same flags, packet number
    and length with the new destination, carries the same body, and rewriting
    it back to the original destination restores the packet bit for bit. *)
Theorem rewrite_dcid_opaque input d cap out :
  bytes_ok input -> is_long input = false -> zlen input + 16 <= U64_MAX -> is_cid d ->
  rewrite_dcid input d cap = Ok out ->
  zlen out <= cap /\
  exists p, decode_prefix input = Ok p /\ decode_prefix out = Ok (with_dcid p d) /\
    drop (Z.to_nat (header_len (with_dcid p d))) out = drop (Z.to_nat (header_len p)) input /\
    (p_dcid p <> 0 -> rewrite_dcid out (p_dcid p) (zlen input) = Ok input).
Proof.
  intros Hok Hlong Hsz Hd Hrw.
  destruct (rewrite_short_Ok _ _ _ _ Hok Hlong Hd Hrw)
    as (b0 & cid & c & pnb & body & cid' & -> & -> & Hd0 & Hcap & Hfl & Hc & Hcid & Hcid' & Hpn & Hp).
  split; [done|]. eexists. split; [exact Hp|].
  pose proof (cid_encode_len _ _ _ Hc Hcid) as (Hcl & _ & _).
  pose proof (cid_encode_len _ _ _ Hd Hcid') as (Hcl' & _ & _).
  unfold with_dcid. cbn [p_flags truncated_packet_number p_packet_number_len header_len p_dcid].
  rewrite <- Hcl, <- Hcl'.
  assert (Hdrop : forall x, drop (Z.to_nat (1 + zlen x + zlen pnb)) (b0 :: x ++ pnb ++ body) = body).
  { intros x. replace (Z.to_nat (1 + zlen x + zlen pnb)) with (S (length (x ++ pnb)))
      by (rewrite length_app; unfold zlen; lia).
    by rewrite skipn_cons, app_assoc, drop_app_length. }
  split; [|split].
  - rewrite (decode_prefix_app b0 cid' d pnb body); [|done|by eapply cid_decode_encode|done].
    do 2 f_equal. lia.
  - rewrite Hdrop. replace (_ - _ + _) with (1 + zlen cid' + zlen pnb) by lia. apply Hdrop.
  - intros Hc0. simpl in Hlong. apply negb_false_iff, Z.eqb_eq in Hlong.
    assert (ConnectionId.encoded_len d <= 8)
      by (destruct (encoded_len_cases d Hd) as [[-> _]|[[-> _]|[[-> _]|[-> _]]]]; lia).
    apply (rewrite_short_pieces b0 cid' d); try done. rewrite <- Hcl' in *. zlia.
Qed.

(** The zero-copy rewrite agrees with the copying one.  On a well-formed
    packet it never panics; when it succeeds the packet's bytes are what
    [rewrite_dcid] would have written, inside the reserved prefix and the MTU,
    in the same storage; when it refuses, the caller gets its packet back
    unchanged, and a shared buffer is never written. *)
Theorem rewrite_dcid_in_place_equiv pk d pre maxp :
  owned_ok pk -> is_cid d ->
  match rewrite_dcid_in_place pk d pre maxp with
  | Ok pk' =>
      unique pk = true /\ zlen (buffer pk') = zlen (buffer pk) /\
      pre <= range_start pk' /\ range_end pk' = range_end pk /\
      zlen (packet_bytes pk') <= maxp /\
      rewrite_dcid (packet_bytes pk) d maxp = Ok (packet_bytes pk')
  | Err (e, pk') => pk' = pk /\ (unique pk = false \/ e <> Error.Blocked)
  | Panic => False
  end.
Proof.
  intros Hok Hd. unfold rewrite_dcid_in_place.
  pose proof (dcid_rewrite_layout_not_Panic pk d pre maxp Hok) as Hnp.
  destruct (dcid_rewrite_layout pk d pre maxp) as [[[start end_] header]|e|] eqn:Hl; [| |done].
  - destruct (dcid_rewrite_layout_Ok _ _ _ _ _ Hok Hd Hl)
      as (b0 & cid & pnb & body & cid' & Hin & [= -> -> ->] & Hs & Hpre & Hmax & Hrw).
    pose proof (packet_bytes_len pk Hok) as Hlen. rewrite Hin in Hlen.
    pose proof Hok as (Hr & Hre & Hb & _).
    destruct (unique pk) eqn:Hu.
    + destruct (overwrite_packet_bytes (buffer pk) true (range_start pk + zlen cid - zlen cid')
        (range_end pk) (b0 :: cid') ltac:(lia) ltac:(zlia)) as (buf' & -> & Hbl & Hpb).
      cbn [mbind outcome_bind]. unfold OwnedPacket_new.
      rewrite (proj2 (Z.leb_le _ (range_end pk))), (proj2 (Z.leb_le (range_end pk) _)) by zlia.
      cbn [andb]. pose proof (packet_bytes_drop pk (1 + zlen cid) Hok ltac:(zlia)) as Hdr.
      rewrite Hin in Hdr. replace (Z.to_nat (1 + zlen cid)) with (S (length cid)) in Hdr
        by (unfold zlen; lia). rewrite skipn_cons, drop_app_length in Hdr.
      rewrite zlen_cons in Hpb.
      assert (Hout : packet_bytes (mkOwnedPacket buf' true (range_start pk + zlen cid - zlen cid')
                       (range_end pk)) = b0 :: cid' ++ pnb ++ body).
      { rewrite Hpb, <- app_comm_cons. do 2 f_equal. rewrite Hdr.
        f_equal; [|f_equal]; lia. }
      rewrite Hout. cbn [buffer range_start range_end]. repeat split; try done; try zlia.
      rewrite Hin. apply Hrw. zlia.
    + unfold OwnedPacket_new. rewrite (proj2 (Z.leb_le _ (range_end pk))),
        (proj2 (Z.leb_le (range_end pk) _)) by lia. cbn [andb].
      split; [|by left]. rewrite <- Hu. by destruct pk.
  - split; [done|]. right. intros ->. revert Hl. apply dcid_rewrite_layout_not_Blocked.
Qed.

(** A long (bootstrap) packet survives encoding and any number of relays
    that rewrite only its destination: the receiver parses the sender's packet
    type, source identifier, packet number (truncated to its encoded length)
    and payload, with the destination the last relay wrote. *)
Theorem long_packet_relayed ty dc sc pn k payload cap bs dc' cap' out :
  0 <= ty -> opt_cid_ok dc -> opt_cid_ok sc -> opt_cid_ok dc' ->
  cap <= U64_MAX -> cap' <= U64_MAX ->
  encode_long_packet ty dc sc pn k payload cap = Ok bs ->
  rewrite_destination bs dc' cap' = Ok out ->
  exists at_ at_', decode_long_packet bs =
    Ok (mkLongHeader ty DMESH_LONG_HEADER_VERSION dc sc (pn mod 256 ^ k) k, at_, zlen payload) /\
    drop (Z.to_nat at_) bs = payload /\
    decode_long_packet out =
    Ok (mkLongHeader ty DMESH_LONG_HEADER_VERSION dc' sc (pn mod 256 ^ k) k, at_', zlen payload) /\
    drop (Z.to_nat at_') out = payload.
Proof.
  intros Ht Hdc Hsc Hdc' Hcap Hcap' Henc Hrw.
  destruct (decode_long_encode _ _ _ _ _ _ _ _ Ht Hdc Hsc Hcap Henc) as (at_ & Hd & Hc).
  pose proof (encode_long_packet_is_long _ _ _ _ _ _ _ _ Ht Hdc Hsc Henc) as [Hl Hk].
  unfold rewrite_destination in Hrw. rewrite Hl, Hd in Hrw. cbn [mbind outcome_bind] in Hrw.
  rewrite <- (app_nil_r payload) in Hc.
  rewrite (at_cursor_slice_range _ _ _ _ Hc), app_nil_r in *. cbn in Hrw.
  destruct (decode_long_encode _ _ _ _ _ _ _ _ Ht Hdc' Hsc Hcap' Hrw) as (at_' & Hd' & Hc').
  rewrite Z.mod_mod in Hd' by (apply Z.pow_nonzero; lia).
  exists at_, at_'. split; [done|]. split; [apply Hc|]. split; [done|apply Hc'].
Qed.

(** No received bytes make the header parsers or the relay's rewriting
    paths panic, short or long, and a parsed header lies inside the packet. *)
Theorem header_parsers_total input d cap :
  bytes_ok input ->
  rewrite_destination input d cap <> Panic /\
  decode_routing_prefix input <> Panic /\
  (forall e, decode_with_expected input e <> Panic) /\
  (forall p, decode_routing_prefix input = Ok p -> 0 < header_len p <= zlen input).
Proof.
  intros Hok. split; [by apply rewrite_destination_not_Panic|].
  split; [by apply decode_routing_prefix_not_Panic|]. split.
  - intros e. apply bind_not_Panic; [by apply decode_prefix_not_Panic|]. intros p _.
    apply bind_not_Panic; [apply reconstruct_not_Panic | done].
  - intros p. unfold decode_routing_prefix. destruct (is_long input).
    + intros ([[h at_] n] & Hd & (b0 & _ & (z & _ & [= <-])%bind_Ok)%bind_Ok)%bind_Ok. simpl.
      pose proof (decode_long_packet_pos _ _ _ _ Hok Hd).
      apply decode_long_packet_Ok in Hd as (? & ? & ? & ? & ? & ? & ? & ?); [lia|done].
    + intros Hp. destruct (decode_prefix_Ok _ _ Hok Hp)
        as (b0 & cid & pnb & body & -> & _ & _ & _ & _ & _ & ->). simpl. zlia.
Qed.

End properties.

(** ** Witnesses *)
#[local] Instance no_protection : Features := {| packet_protection := false |}.

Lemma packet_number_recovered_witness :
  exists fl, decode_with_expected ([0x41; 0x07; 0x9f; 0x2a] ++ [9; 9]) 0xa82f9f20 =
    Ok (mkShortHeader fl 7 0xa82f9f2a (packet_number_len_for 0xa82f9f2a (Some 0xa82f9e00)), 4).
Proof.
  apply (packet_number_recovered 0xa82f9f2a (Some 0xa82f9e00) 7 16
           [0x41; 0x07; 0x9f; 0x2a] [9; 9] 0xa82f9f20);
    vm_compute; first [reflexivity | split; first [reflexivity | discriminate]].
Defined.

Lemma rewrite_dcid_opaque_witness :
  zlen [0x40; 0x92; 0x34; 5; 1; 2] <= 64 /\
  exists p, decode_prefix [0x40; 7; 5; 1; 2] = Ok p /\
    decode_prefix [0x40; 0x92; 0x34; 5; 1; 2] = Ok (with_dcid p 0x1234) /\
    drop (Z.to_nat (header_len (with_dcid p 0x1234))) [0x40; 0x92; 0x34; 5; 1; 2]
      = drop (Z.to_nat (header_len p)) [0x40; 7; 5; 1; 2] /\
    (p_dcid p <> 0 -> rewrite_dcid [0x40; 0x92; 0x34; 5; 1; 2] (p_dcid p)
       (zlen [0x40; 7; 5; 1; 2]) = Ok [0x40; 7; 5; 1; 2]).
Proof.
  apply (rewrite_dcid_opaque [0x40; 7; 5; 1; 2] 0x1234 64);
    [repeat constructor; vm_compute; discriminate|reflexivity|vm_compute; discriminate
    |vm_compute; split; discriminate|reflexivity].
Defined.

Lemma rewrite_dcid_in_place_equiv_witness :
  match rewrite_dcid_in_place (mkOwnedPacket [0; 0; 0; 0x40; 7; 5; 1; 2] true 3 8) 0x1234 1 64 with
  | Ok pk' => rewrite_dcid [0x40; 7; 5; 1; 2] 0x1234 64 = Ok (packet_bytes pk')
  | _ => False
  end.
Proof.
  pose proof (rewrite_dcid_in_place_equiv
    (mkOwnedPacket [0; 0; 0; 0x40; 7; 5; 1; 2] true 3 8) 0x1234 1 64) as H.
  vm_compute rewrite_dcid_in_place in *. apply H; [|vm_compute; split; discriminate].
  repeat split; try (vm_compute; discriminate). repeat constructor; vm_compute; discriminate.
Defined.

Lemma long_packet_relayed_witness :
  exists bs out, encode_long_packet 1 None (Some 9) 300 2 [1; 2; 3] 64 = Ok bs /\
    rewrite_destination bs (Some 0x1234) 64 = Ok out /\
    exists at_ at_', decode_long_packet bs =
      Ok (mkLongHeader 1 DMESH_LONG_HEADER_VERSION None (Some 9) (300 mod 256 ^ 2) 2, at_, 3) /\
      drop (Z.to_nat at_) bs = [1; 2; 3] /\
      decode_long_packet out =
      Ok (mkLongHeader 1 DMESH_LONG_HEADER_VERSION (Some 0x1234) (Some 9) (300 mod 256 ^ 2) 2,
          at_', 3) /\
      drop (Z.to_nat at_') out = [1; 2; 3].
Proof.
  eexists _, _. split; [vm_compute; reflexivity|]. split; [vm_compute; reflexivity|].
  apply (long_packet_relayed 1 None (Some 9) 300 2 [1; 2; 3] 64 _ (Some 0x1234) 64);
    try (vm_compute; done).
Defined.

Lemma header_parsers_total_witness :
  rewrite_destination [0x40; 7; 5; 1; 2] (Some 9) 64 <> Panic /\
  decode_routing_prefix [0x40; 7; 5; 1; 2] <> Panic /\
  (forall e, decode_with_expected [0x40; 7; 5; 1; 2] e <> Panic) /\
  (forall p, decode_routing_prefix [0x40; 7; 5; 1; 2] = Ok p ->
     0 < header_len p <= zlen [0x40; 7; 5; 1; 2]).
Proof.
  apply (header_parsers_total [0x40; 7; 5; 1; 2] (Some 9) 64).
  repeat constructor; vm_compute; discriminate.
Defined.
