(* ===== verification/AckRanges.v ===== *)
(** * Received packet-number ranges

    [AckRanges<N>] of [src/crates/quic-lite/src/lib.rs]: the bounded,
    newest-first set of packet-number ranges a receiver reports in its
    acknowledgements.  The fixed array and its [len] are modelled by the live
    prefix; the array positions from [len] on are never read.  The theorems give the
    exact content after every insertion (including the fast path and the
    eviction at capacity), the correctness of the binary search, and the effect
    of discarding old ranges. *)

From Stdlib Require Import Sorting.Sorted.
From S2P Require Import Prelude.

Record AckRange : Type := mkAckRange { r_start : Z; r_end : Z }.

#[export] Instance AckRange_eq_dec : EqDecision AckRange.
Proof. solve_decision. Defined.

Definition ACK_RANGE_CAPACITY : Z := 32.

Abbreviation AckRanges := (list AckRange).

Module Ranges.

Definition new : AckRanges := [].

Definition len (l : AckRanges) : Z := zlen l.

(** Ranges are kept while they reach [floor]; the last one is clamped. *)
Fixpoint discard_below (l : AckRanges) (floor : Z) : AckRanges :=
  match l with
  | r :: l' =>
      if r_end r >=? floor
      then mkAckRange (Z.max (r_start r) floor) (r_end r) :: discard_below l' floor
      else []
  | [] => []
  end.

Definition get (l : AckRanges) (i : Z) : option AckRange :=
  if i <? len l then l !! Z.to_nat i else None.

(** [while at > 0 && ranges\[at - 1\].end < new.end { shift; at -= 1 }], on the
    ranges from the last one to the first. *)
Fixpoint place (rev_ranges : AckRanges) (new : AckRange) : AckRanges :=
  match rev_ranges with
  | r :: rs => if r_end r <? r_end new then r :: place rs new else new :: rev_ranges
  | [] => [new]
  end.

(** The [while i < self.len] loop: [pre] are the ranges before [i], [rest]
    those from [i] on; the result pairs the ranges with [dropped]. *)
Fixpoint insert_loop (N : Z) (pre rest : AckRanges) (new : AckRange) : AckRanges * bool :=
  match rest with
  | current :: rest' =>
      if r_start new >? r_end current + 1 then
        if len (pre ++ rest) <? N then (pre ++ new :: rest, false)
        else if zlen pre <? N then (take (Z.to_nat N) (pre ++ new :: rest), true)
        else (pre ++ rest, false)
      else if r_end new + 1 <? r_start current then insert_loop N (pre ++ [current]) rest' new
      else insert_loop N pre rest'
             (mkAckRange (Z.min (r_start new) (r_start current))
                         (Z.max (r_end new) (r_end current)))
  | [] =>
      if len pre <? N then (rev (place (rev pre) new), false) else (pre, true)
  end.

(** The test of the in-order fast path on the two newest ranges. *)
Definition extends_newest (l : AckRanges) (new : AckRange) : option (AckRange * AckRanges) :=
  match l with
  | newest :: tl =>
      if (r_start new <=? r_end newest + 1) && (r_end new + 1 >=? r_start newest)
         && match tl with
            | [] => true
            | second :: _ => r_start new >? r_end second + 1
            end
      then Some (newest, tl) else None
  | [] => None
  end.

Definition insert_range (N : Z) (l : AckRanges) (new : AckRange) : AckRanges * bool :=
  if r_start new >? r_end new then (l, false) else
  match extends_newest l new with
  | Some (newest, tl) =>
      (mkAckRange (Z.min (r_start new) (r_start newest)) (Z.max (r_end new) (r_end newest)) :: tl,
       false)
  | None => insert_loop N [] l new
  end.

Definition insert (N : Z) (l : AckRanges) (pn : Z) : AckRanges * bool :=
  insert_range N l (mkAckRange pn pn).

(** The [while low < high] loop of [contains]. *)
Fixpoint bsearch (fuel : nat) (l : AckRanges) (pn : Z) (low high : nat) : bool :=
  match fuel with
  | O => false
  | S fuel' =>
      if (low <? high)%nat then
        let middle := (low + (high - low) / 2)%nat in
        match l !! middle with
        | Some range =>
            if pn >? r_end range then bsearch fuel' l pn low middle
            else if pn <? r_start range then bsearch fuel' l pn (middle + 1) high
            else true
        | None => false
        end
      else false
  end.

Definition contains (l : AckRanges) (pn : Z) : bool :=
  match l with
  | [] => false
  | newest :: _ =>
      if pn >? r_end newest then false
      else if pn >=? r_start newest then true
      else bsearch (length l) l pn 1 (length l)
  end.

End Ranges.

(** ** The set a list of ranges stands for *)
Definition in_range (pn : Z) (r : AckRange) : bool := (r_start r <=? pn) && (pn <=? r_end r).
Definition member (l : AckRanges) (pn : Z) : Prop := Exists (fun r => in_range pn r = true) l.

Definition valid_range (r : AckRange) : Prop :=
  0 <= r_start r <= r_end r /\ r_end r <= U32_MAX.

(** Newest first, disjoint and not even adjacent. *)
Definition above (a b : AckRange) : Prop := r_end b + 1 < r_start a.

Definition wf (l : AckRanges) : Prop := Forall valid_range l /\ StronglySorted above l.

Lemma in_range_iff pn r : in_range pn r = true <-> r_start r <= pn <= r_end r.
Proof. unfold in_range. rewrite andb_true_iff, !Z.leb_le. done. Qed.

Lemma member_cons r l pn : member (r :: l) pn <-> r_start r <= pn <= r_end r \/ member l pn.
Proof. unfold member. by rewrite Exists_cons, in_range_iff. Qed.

Lemma member_app l k pn : member (l ++ k) pn <-> member l pn \/ member k pn.
Proof. apply Exists_app. Qed.

Lemma member_nil pn : ~ member [] pn.
Proof. by inversion 1. Qed.

Lemma wf_cons r l : wf (r :: l) <-> valid_range r /\ Forall (above r) l /\ wf l.
Proof.
  unfold wf. rewrite Forall_cons. split.
  - intros [[? ?] [? ?]%StronglySorted_inv]. done.
  - intros (? & ? & ? & ?). split; [done|]. by constructor.
Qed.

Lemma wf_app l k :
  wf (l ++ k) <-> wf l /\ wf k /\ forall a b, a ∈ l -> b ∈ k -> above a b.
Proof.
  induction l as [|r l IH]; simpl.
  - split; [intros; repeat split; try apply H; [constructor..|by intros ? ? ?%not_elem_of_nil]|].
    by intros (_ & ? & _).
  - rewrite !wf_cons, IH, Forall_app. setoid_rewrite elem_of_cons. rewrite !Forall_forall.
    split.
    + intros (Hr & [Hl Hk] & Hwl & Hwk & Hc). split; [done|]. split; [done|].
      intros a b [->|Ha] Hb; [by apply Hk | by apply Hc].
    + intros ((Hr & Hl & Hwl) & Hwk & Hab). split; [done|]. split; [|eauto].
      split; [done|]. intros b Hb. apply Hab; auto.
Qed.

Lemma wf_nil : wf [].
Proof. repeat constructor. Qed.
#[export] Hint Resolve wf_nil : core.

(** ** Insertion *)
Lemma place_snoc pre new :
  Forall (fun r => above r new) pre -> valid_range new -> Forall valid_range pre ->
  rev (Ranges.place (rev pre) new) = pre ++ [new].
Proof.
  intros Ha Hn Hv. destruct pre as [|r pre _] using rev_ind; [done|].
  rewrite rev_app_distr. simpl. rewrite Forall_app, Forall_cons in Ha, Hv.
  unfold above, valid_range in *. rewrite (proj2 (Z.ltb_ge _ _)) by lia.
  simpl. by rewrite rev_involutive.
Qed.

(** What the loop leaves: the newest [N] ranges of the complete union. *)
Definition newest_of_union (N : Z) (l : AckRanges) (new : AckRange) (res : AckRanges * bool)
    : Prop :=
  exists full, wf full /\
    (forall pn, member full pn <-> member l pn \/ r_start new <= pn <= r_end new) /\
    res = (take (Z.to_nat N) full, N <? zlen full).

Lemma above_all pre x : (forall a, a ∈ pre -> above a x) -> Forall (fun r => above r x) pre.
Proof. intros H. by apply Forall_forall. Qed.

Lemma insert_loop_union N pre rest new :
  0 <= N -> wf (pre ++ rest) -> zlen (pre ++ rest) <= N -> valid_range new ->
  (forall a, a ∈ pre -> above a new) ->
  newest_of_union N (pre ++ rest) new (Ranges.insert_loop N pre rest new).
Proof.
  intros HN. revert pre new.
  induction rest as [|cur rest IH]; intros pre new Hwf Hlen Hnew Hpre; simpl.
  - rewrite app_nil_r in *. exists (pre ++ [new]). split; [|split].
    + apply wf_app. split; [done|]. split; [by apply wf_cons; repeat constructor; apply Hnew|].
      intros a b Ha ->%list_elem_of_singleton. by apply Hpre.
    + intros pn. rewrite member_app, member_cons. pose proof (member_nil pn). tauto.
    + unfold Ranges.len. rewrite zlen_app, zlen_cons, zlen_nil. destruct (Z.ltb_spec (zlen pre) N).
      * rewrite place_snoc by (try apply above_all; try done; apply Hwf).
        rewrite (proj2 (Z.ltb_ge N _)) by lia. f_equal. rewrite take_ge; [done|].
        rewrite length_app. simpl. unfold zlen in *. lia.
      * rewrite (proj2 (Z.ltb_lt N _)) by lia. f_equal.
        rewrite take_app_le, take_ge by (unfold zlen in *; lia). done.
  - pose proof Hwf as (Hp & (Hcur & Hab & Hrest)%wf_cons & Hcross)%wf_app.
    assert (Hpc : forall a, a ∈ pre -> above a cur) by (intros; apply Hcross; set_solver).
    rewrite Z.gtb_ltb. destruct (Z.ltb_spec (r_end cur + 1) (r_start new)).
    + assert (Hfull : wf (pre ++ new :: cur :: rest)).
      { apply wf_app. split; [done|]. split.
        - apply wf_cons. split; [done|]. split; [|by apply wf_cons].
          constructor; [done|]. eapply Forall_impl; [exact Hab|].
          unfold above, valid_range in *. intros; simpl in *. lia.
        - intros a b Ha [->|Hb]%elem_of_cons; [by apply Hpre|by apply Hcross]. }
      exists (pre ++ new :: cur :: rest). split; [done|]. split.
      { intros pn. rewrite !member_app, !member_cons. tauto. }
      unfold Ranges.len in *. rewrite !zlen_app, !zlen_cons in *.
      destruct (Z.ltb_spec (zlen pre + (zlen rest + 1)) N).
      * rewrite (proj2 (Z.ltb_ge N _)) by lia. f_equal. rewrite take_ge; [done|].
        rewrite length_app. simpl. unfold zlen in *. lia.
      * rewrite (proj2 (Z.ltb_lt (zlen pre) N)), (proj2 (Z.ltb_lt N _)) by zlia. done.
    + destruct (Z.ltb_spec (r_end new + 1) (r_start cur)).
      * rewrite cons_middle, app_assoc in *. apply IH; [done..|].
        intros a [Ha| ->%list_elem_of_singleton]%elem_of_app; [by apply Hpre|done].
      * set (m := mkAckRange _ _).
        destruct (IH pre m) as (full & Hf & Hm & Heq).
        -- apply wf_app. split; [done|]. split; [done|]. intros; apply Hcross; set_solver.
        -- zlia.
        -- unfold m, valid_range in *. simpl. lia.
        -- intros a Ha. pose proof (Hpc a Ha). pose proof (Hpre a Ha).
           unfold above, m in *. simpl. lia.
        -- exists full. split; [done|]. split; [|done]. intros pn. rewrite Hm.
           rewrite !member_app, !member_cons. unfold m, valid_range in *. simpl.
           assert (Z.min (r_start new) (r_start cur) <= pn <= Z.max (r_end new) (r_end cur) <->
             r_start cur <= pn <= r_end cur \/ r_start new <= pn <= r_end new) as -> by lia.
           tauto.
Qed.

Lemma extends_newest_union N l new newest tl :
  wf l -> zlen l <= N -> valid_range new -> Ranges.extends_newest l new = Some (newest, tl) ->
  newest_of_union N l new
    (mkAckRange (Z.min (r_start new) (r_start newest)) (Z.max (r_end new) (r_end newest)) :: tl,
     false).
Proof.
  destruct l as [|r l]; [done|]. unfold Ranges.extends_newest. intros Hwf Hlen Hnew.
  destruct (_ && _ && _) eqn:Hc; [|done]. intros [= -> ->].
  apply andb_true_iff in Hc as [[H1%Z.leb_le H2%Z.geb_le]%andb_true_iff H3].
  apply wf_cons in Hwf as (Hv & Hab & Hwf).
  exists (mkAckRange (Z.min (r_start new) (r_start newest)) (Z.max (r_end new) (r_end newest)) :: tl).
  split; [|split].
  2:{ intros pn. rewrite !member_cons. simpl. unfold valid_range in *.
      assert (Z.min (r_start new) (r_start newest) <= pn <= Z.max (r_end new) (r_end newest) <->
        r_start newest <= pn <= r_end newest \/ r_start new <= pn <= r_end new) as -> by lia.
      tauto. }
  2:{ rewrite take_ge by (unfold zlen in *; simpl in *; lia).
      rewrite (proj2 (Z.ltb_ge N _)) by zlia. done. }
  apply wf_cons. split; [unfold valid_range in *; simpl; lia|]. split; [|done].
  destruct tl as [|second tl]; [done|]. rewrite Z.gtb_ltb in H3. apply Z.ltb_lt in H3.
  apply wf_cons in Hwf as (Hvs & Habs & _). apply Forall_cons in Hab as [Ha1 Ha2].
  constructor; [unfold above in *; simpl; lia|]. rewrite Forall_forall in *. intros b Hb.
  specialize (Ha2 b Hb). specialize (Habs b Hb). unfold above, valid_range in *. simpl. lia.
Qed.

Lemma insert_range_union N l new :
  0 <= N -> wf l -> zlen l <= N -> valid_range new ->
  newest_of_union N l new (Ranges.insert_range N l new).
Proof.
  intros HN Hwf Hlen Hnew. unfold Ranges.insert_range. rewrite Z.gtb_ltb.
  rewrite (proj2 (Z.ltb_ge _ _)) by (unfold valid_range in Hnew; lia).
  destruct (Ranges.extends_newest l new) as [[newest tl]|] eqn:He.
  - by apply extends_newest_union.
  - apply (insert_loop_union N [] l new); try done. by intros ? ?%not_elem_of_nil.
Qed.

(** Appending an older range is the last step of both loops. *)
Lemma insert_loop_append N pre rest new :
  wf (pre ++ rest) -> valid_range new -> (forall a, a ∈ pre ++ rest -> above a new) ->
  zlen (pre ++ rest) < N -> Ranges.insert_loop N pre rest new = (pre ++ rest ++ [new], false).
Proof.
  revert pre. induction rest as [|cur rest IH]; intros pre Hwf Hnew Hab Hlen; simpl.
  - rewrite app_nil_r in *. unfold Ranges.len. rewrite (proj2 (Z.ltb_lt _ _)) by done.
    rewrite place_snoc; [done|by apply above_all|done|apply Hwf].
  - assert (Hc : above cur new) by (apply Hab; set_solver).
    assert (valid_range cur) by (apply wf_app in Hwf as (_ & (? & _)%wf_cons & _); done).
    unfold above, valid_range in *. rewrite Z.gtb_ltb, (proj2 (Z.ltb_ge _ _)) by lia.
    rewrite (proj2 (Z.ltb_lt _ _)) by lia.
    rewrite (cons_middle cur pre rest), app_assoc in Hwf, Hab, Hlen.
    rewrite (IH (pre ++ [cur])); [by rewrite <- app_assoc|done..].
Qed.

Lemma insert_range_append N l new :
  wf (l ++ [new]) -> zlen l < N -> Ranges.insert_range N l new = (l ++ [new], false).
Proof.
  intros (Hl & (Hnew & _)%wf_cons & Hab)%wf_app Hlen. unfold Ranges.insert_range.
  rewrite Z.gtb_ltb, (proj2 (Z.ltb_ge _ _)) by (unfold valid_range in Hnew; lia).
  assert (Hab' : forall a, a ∈ l -> above a new) by (intros; apply Hab; set_solver).
  replace (Ranges.extends_newest l new) with (@None (AckRange * AckRanges)).
  - by apply (insert_loop_append N [] l new).
  - destruct l as [|a l]; [done|]. unfold Ranges.extends_newest. symmetry.
    assert (above a new) by (apply Hab'; set_solver). unfold above in *.
    rewrite Z.geb_leb, (proj2 (Z.leb_gt _ (r_end new + 1))), andb_false_r by lia. done.
Qed.

(** ** Binary search *)
Lemma wf_lookup_above l i j a b :
  wf l -> l !! i = Some a -> l !! j = Some b -> (i < j)%nat -> above a b.
Proof.
  revert i j. induction l as [|r l IH]; intros i j Hwf Ha Hb Hij; [done|].
  apply wf_cons in Hwf as (_ & Hab & Hwf).
  destruct j as [|j]; [lia|]. destruct i as [|i]; simpl in *.
  - injection Ha as ->. rewrite Forall_forall in Hab. by eapply Hab, list_elem_of_lookup_2.
  - eapply IH; eauto; lia.
Qed.

Lemma member_lookup l pn :
  member l pn <-> exists i r, l !! i = Some r /\ r_start r <= pn <= r_end r.
Proof.
  unfold member. rewrite Exists_exists. setoid_rewrite in_range_iff. split.
  - intros (r & [i Hi]%list_elem_of_lookup_1 & Hr). eauto.
  - intros (i & r & Hi%list_elem_of_lookup_2 & Hr). eauto.
Qed.

(** The search decides membership among the positions [low .. high - 1]. *)
Lemma bsearch_spec l pn fuel low high :
  wf l -> (high <= length l)%nat -> (high - low <= fuel)%nat ->
  Ranges.bsearch fuel l pn low high = true <->
  exists i r, (low <= i < high)%nat /\ l !! i = Some r /\ r_start r <= pn <= r_end r.
Proof.
  intros Hwf. revert low high. induction fuel as [|fuel IH]; intros low high Hhi Hfuel;
    cbn [Ranges.bsearch].
  - split; [done|]. intros (i & r & ? & _). lia.
  - destruct (Nat.ltb_spec low high) as [Hlt|]; [|split; [done|intros (i & r & ? & _); lia]].
    set (mid := (low + (high - low) / 2)%nat). cbv zeta.
    assert (Hmid : (low <= mid < high)%nat).
    { pose proof (Nat.div_lt (high - low) 2 ltac:(lia) ltac:(lia)). lia. }
    destruct (lookup_lt_is_Some_2 l mid ltac:(lia)) as [m Hm]. rewrite Hm, Z.gtb_ltb.
    assert (Hvm : valid_range m) by (eapply Forall_lookup_1; [apply Hwf|exact Hm]).
    destruct (Z.ltb_spec (r_end m) pn) as [Hg|Hg]; [|destruct (Z.ltb_spec pn (r_start m)) as [Hs|Hs]].
    + rewrite IH by lia. split; intros (i & r & Hi & Hr & Hpn); exists i, r; (split; [|done]); [lia|].
      destruct (decide (i < mid)%nat) as [|Hge]; [lia|]. exfalso.
      destruct (decide (i = mid)) as [->|]; [simplify_eq; lia|].
      pose proof (wf_lookup_above l mid i m r Hwf Hm Hr ltac:(lia)).
      unfold above, valid_range in *. lia.
    + rewrite IH by lia. split; intros (i & r & Hi & Hr & Hpn); exists i, r; (split; [|done]); [lia|].
      destruct (decide (mid < i)%nat) as [|Hge]; [lia|]. exfalso.
      destruct (decide (i = mid)) as [->|]; [simplify_eq; lia|].
      pose proof (wf_lookup_above l i mid r m Hwf Hr Hm ltac:(lia)).
      unfold above, valid_range in *. lia.
    + split; [|done]. intros _. exists mid, m. split; [done|]. split; [done|lia].
Qed.

Lemma contains_member l pn : wf l -> Ranges.contains l pn = true <-> member l pn.
Proof.
  intros Hwf. destruct l as [|newest tl]; [split; [done|by intros ?%member_nil]|].
  unfold Ranges.contains. rewrite Z.gtb_ltb, Z.geb_leb.
  pose proof Hwf as (Hv & Hab & _)%wf_cons. rewrite member_cons.
  destruct (Z.ltb_spec (r_end newest) pn) as [Hg|Hg].
  - split; [done|]. intros [?|H]; [lia|]. exfalso.
    apply member_lookup in H as (i & r & Hi%list_elem_of_lookup_2 & Hr).
    rewrite Forall_forall in Hab. specialize (Hab r Hi). unfold above, valid_range in *. lia.
  - destruct (Z.leb_spec (r_start newest) pn) as [Hs|Hs]; [split; [auto with lia|done]|].
    rewrite bsearch_spec by (try done; simpl; lia). rewrite member_lookup. split.
    + intros (i & r & Hi & Hr & Hpn). right. destruct i as [|i]; [lia|]. eauto.
    + intros [?|(i & r & Hr & Hpn)]; [lia|]. exists (S i), r.
      split; [|done]. apply lookup_lt_Some in Hr as ?. simpl. lia.
Qed.

(** ** Discarding *)
Lemma discard_below_spec l floor :
  0 <= floor -> wf l ->
  wf (Ranges.discard_below l floor) /\
  (length (Ranges.discard_below l floor) <= length l)%nat /\
  (forall pn, member (Ranges.discard_below l floor) pn <-> member l pn /\ floor <= pn).
Proof.
  intros Hf. induction l as [|r l IH]; intros Hwf.
  - split; [done|]. split; [done|]. intros pn. pose proof (member_nil pn). simpl. tauto.
  - apply wf_cons in Hwf as (Hv & Hab & Hwf). destruct (IH Hwf) as (IH1 & IH2 & IH3). simpl.
    rewrite Z.geb_leb. destruct (Z.leb_spec floor (r_end r)).
    + split; [|split].
      * apply wf_cons. unfold valid_range in *. simpl. split; [lia|]. split; [|done].
        apply Forall_forall. intros b Hb. unfold above. simpl.
        assert (Hm : member (Ranges.discard_below l floor) (r_end b)).
        { destruct IH1 as [Hvb _]. rewrite Forall_forall in Hvb. specialize (Hvb b Hb).
          unfold valid_range in Hvb.
          apply Exists_exists. exists b. rewrite in_range_iff. split; [done|lia]. }
        rewrite IH3, member_lookup in Hm. destruct Hm as [(i & r' & Hi & Hr') _].
        apply list_elem_of_lookup_2 in Hi. rewrite Forall_forall in Hab.
        specialize (Hab r' Hi). unfold above in Hab. lia.
      * simpl. lia.
      * intros pn. rewrite !member_cons, IH3. simpl.
        assert (Z.max (r_start r) floor <= pn <= r_end r <->
                r_start r <= pn <= r_end r /\ floor <= pn) as -> by lia.
        tauto.
    + split; [done|]. split; [simpl; lia|]. intros pn. split; [by intros ?%member_nil|].
      rewrite member_cons. intros [[?|Hm] ?]; [lia|]. exfalso.
      apply member_lookup in Hm as (i & r' & Hi%list_elem_of_lookup_2 & Hr').
      rewrite Forall_forall in Hab. specialize (Hab r' Hi). unfold above, valid_range in *. lia.
Qed.

(** ** Properties *)

(** C37: inserting a range, by the fast path or by the merging loop, leaves
    exactly the newest [N] ranges of the union of the old set and the new range,
    merged and sorted, and reports a drop exactly when the union does not fit;
    hence the set stays well formed and a packet number it forgets is older
    than everything it keeps.  An empty interval changes nothing. *)
Theorem insert_range_correct N l new :
  0 <= N -> wf l -> zlen l <= N -> 0 <= r_start new -> r_end new <= U32_MAX ->
  (r_end new < r_start new -> Ranges.insert_range N l new = (l, false)) /\
  (r_start new <= r_end new ->
   exists full, wf full /\
     (forall pn, member full pn <-> member l pn \/ r_start new <= pn <= r_end new) /\
     Ranges.insert_range N l new = (take (Z.to_nat N) full, N <? zlen full) /\
     wf (take (Z.to_nat N) full) /\
     (forall kept lost, member (take (Z.to_nat N) full) kept ->
        member (drop (Z.to_nat N) full) lost -> lost < kept)).
Proof.
  intros HN Hwf Hlen H0 Hmax. split; intros Hr.
  - unfold Ranges.insert_range. by rewrite Z.gtb_ltb, (proj2 (Z.ltb_lt _ _)) by lia.
  - pose proof (insert_range_union N l new HN Hwf Hlen ltac:(unfold valid_range; lia))
      as (full & Hf & Hm & Heq).
    exists full. split; [done|]. split; [done|]. split; [done|].
    rewrite <- (take_drop (Z.to_nat N) full) in Hf. apply wf_app in Hf as (Hft & Hfd & Hcross).
    split; [done|]. intros q pn Hq Hpn.
    apply member_lookup in Hq as (i & a & Ha%list_elem_of_lookup_2 & Hqa).
    apply member_lookup in Hpn as (j & b & Hb%list_elem_of_lookup_2 & Hpb).
    specialize (Hcross a b Ha Hb). unfold above in Hcross. lia.
Qed.

Lemma insert_range_correct_witness :
  wf [mkAckRange 20 22; mkAckRange 9 9] /\
  exists full, wf full /\
    Ranges.insert_range 2 [mkAckRange 20 22; mkAckRange 9 9] (mkAckRange 12 14)
    = (take (Z.to_nat 2) full, 2 <? zlen full).
Proof.
  assert (H : wf [mkAckRange 20 22; mkAckRange 9 9]).
  { repeat (apply wf_cons; split; [vm_compute; repeat split; discriminate|
      split; [repeat constructor|]]); done. }
  split; [exact H|].
  destruct (insert_range_correct 2 [mkAckRange 20 22; mkAckRange 9 9] (mkAckRange 12 14)
    ltac:(lia) H ltac:(vm_compute; discriminate) ltac:(simpl; lia) ltac:(vm_compute; discriminate))
    as [_ Hok]. destruct Hok as (full & Hf & _ & Heq & _); [simpl; lia|].
  exists full. split; [exact Hf | exact Heq].
Defined.

(** The binary search of [contains] agrees with the linear scan of the
    ranges on every well-formed set and every packet number (the fuel, the
    number of ranges, always suffices). *)
Theorem contains_linear l pn :
  wf l -> Ranges.contains l pn = existsb (in_range pn) l.
Proof.
  intros Hwf. apply eq_true_iff_eq. rewrite (contains_member l pn Hwf), existsb_exists.
  unfold member. rewrite Exists_exists. setoid_rewrite list_elem_of_In. done.
Qed.

Lemma contains_linear_witness :
  Ranges.contains [mkAckRange 30 31; mkAckRange 20 22; mkAckRange 9 9] 21
    = existsb (in_range 21) [mkAckRange 30 31; mkAckRange 20 22; mkAckRange 9 9].
Proof.
  apply (contains_linear [mkAckRange 30 31; mkAckRange 20 22; mkAckRange 9 9] 21).
  repeat (apply wf_cons; split; [vm_compute; repeat split; discriminate|
      split; [repeat constructor|]]); done.
Defined.

(** Discarding below a floor keeps the set well formed and removes exactly
    the packet numbers below the floor; the floor itself stays acknowledged. *)
Theorem discard_below_exact l floor :
  0 <= floor -> wf l ->
  wf (Ranges.discard_below l floor) /\
  (forall pn, Ranges.contains (Ranges.discard_below l floor) pn
              = Ranges.contains l pn && (floor <=? pn)).
Proof.
  intros Hf Hwf. destruct (discard_below_spec l floor Hf Hwf) as (Hw & _ & Hm).
  split; [done|]. intros pn. apply eq_true_iff_eq.
  rewrite andb_true_iff, Z.leb_le, !contains_member by done. apply Hm.
Qed.

Lemma discard_below_exact_witness :
  wf (Ranges.discard_below [mkAckRange 30 31; mkAckRange 20 22; mkAckRange 9 9] 21) /\
  (forall pn, Ranges.contains
     (Ranges.discard_below [mkAckRange 30 31; mkAckRange 20 22; mkAckRange 9 9] 21) pn
     = Ranges.contains [mkAckRange 30 31; mkAckRange 20 22; mkAckRange 9 9] pn && (21 <=? pn)).
Proof.
  apply (discard_below_exact [mkAckRange 30 31; mkAckRange 20 22; mkAckRange 9 9] 21); [lia|].
  repeat (apply wf_cons; split; [vm_compute; repeat split; discriminate|
      split; [repeat constructor|]]); done.
Defined.
