(* ===== verification/Reader.v ===== *)
(** * Cursor readers

    The decoders of quic-lite thread a cursor [p] through calls of the form
    [let (v, n) = get_varint(&input\[p..\])?; p += n;].  [reader A] is that
    idiom: it takes the packet and the cursor and returns a value with the
    advanced cursor.  Two relations are proved once for the primitives and the
    sequencing, and carry the component theorems:
    [reads r w a], the reader [r] inverts the writer [w] with value [a], and
    [safe r P], the reader never panics, never moves back or past the end, and
    returns values satisfying [P]. *)

From S2P Require Import Prelude Wire.

Definition reader (A : Type) : Type := bytes -> Z -> res (A * Z).

#[export] Instance reader_ret : MRet reader := fun A a _ p => Ok (a, p).
#[export] Instance reader_bind : MBind reader := fun A B f m input p =>
  match m input p with
  | Ok (a, p') => f a input p'
  | Err e => Err e
  | Panic => Panic
  end.

(** A computation that does not move the cursor, [e?]. *)
Definition lift {A} (o : res A) : reader A := fun _ p =>
  match o with Ok a => Ok (a, p) | Err e => Err e | Panic => Panic end.

(** [if b { return Err(e) }] *)
Definition refuse (b : bool) (e : Error.t) : reader unit := lift (guard_err b e).

Definition rd_varint : reader Z := get_varint_at.
Definition rd_cid : reader Z := decode_compact_cid_at.
Definition rd_role : reader Role := v ← rd_varint; lift (decode_role v).

(** [input.len() - p] *)
Definition rd_remaining : reader Z := fun input p => Ok (zlen input - p, p).

(** [let end = p.checked_add(len).ok_or(Invalid)?;
    let data = input.get(p..end).ok_or(e)?; p = end;] *)
Definition rd_bytes (len : Z) (e : Error.t) : reader bytes := fun input p =>
  end_ ← ok_or (checked_add p len) Error.Invalid;
  data ← ok_or (get_range input p end_) e;
  Ok (data, end_).

(** Runs a reader from the front of a packet. *)
Definition run_reader {A} (r : reader A) (input : bytes) : res (A * Z) := r input 0.

(** A writer whose result does not depend on the space left, beyond failing. *)
Definition put_bytes (s : bytes) : writer Error.t := fun cap =>
  if cap <? zlen s then Err Error.BufferTooSmall else Ok s.

#[global] Arguments rd_varint : simpl never.
#[global] Arguments rd_cid : simpl never.
#[global] Arguments rd_bytes : simpl never.

(** ** Inversion of a writer *)
Definition reads {A} (r : reader A) (w : writer Error.t) (a : A) : Prop :=
  forall cap b input p rest,
    w cap = Ok b -> zlen input <= U64_MAX -> at_cursor input p (b ++ rest) ->
    r input p = Ok (a, p + zlen b).

(** The same when nothing follows the written bytes. *)
Definition reads_last {A} (r : reader A) (w : writer Error.t) (a : A) : Prop :=
  forall cap b input p,
    w cap = Ok b -> zlen input <= U64_MAX -> at_cursor input p b ->
    r input p = Ok (a, p + zlen b).

Section reads_lemmas.

Lemma reads_bind {A B} (r : reader A) (k : A -> reader B) w1 w2 a b :
  reads r w1 a -> reads (k a) w2 b -> reads (r ≫= k) (w1 ;;; w2) b.
Proof.
  intros H1 H2 cap bs input p rest (b1 & b2 & Hw1 & Hw2 & ->)%wseq_Ok Hsz Hc.
  rewrite <- app_assoc in Hc. unfold mbind, reader_bind.
  rewrite (H1 _ _ _ _ _ Hw1 Hsz Hc), (H2 _ _ _ _ _ Hw2 Hsz (at_cursor_app _ _ _ _ Hc)).
  rewrite zlen_app. do 2 f_equal. lia.
Qed.

Lemma reads_bind_last {A B} (r : reader A) (k : A -> reader B) w1 w2 a b :
  reads r w1 a -> reads_last (k a) w2 b -> reads_last (r ≫= k) (w1 ;;; w2) b.
Proof.
  intros H1 H2 cap bs input p (b1 & b2 & Hw1 & Hw2 & ->)%wseq_Ok Hsz Hc.
  unfold mbind, reader_bind.
  rewrite (H1 _ _ _ _ _ Hw1 Hsz Hc), (H2 _ _ _ _ Hw2 Hsz (at_cursor_app _ _ _ _ Hc)).
  rewrite zlen_app. do 2 f_equal. lia.
Qed.

Lemma reads_reads_last {A} (r : reader A) w a : reads r w a -> reads_last r w a.
Proof. intros H cap b input p Hw Hsz Hc. eapply H; eauto. by rewrite app_nil_r. Qed.

(** A reader that ends with a pure computation. *)
Lemma reads_pure {A B} (r : reader A) (k : A -> reader B) w a b :
  reads r w a -> (forall input p, k a input p = Ok (b, p)) -> reads (r ≫= k) w b.
Proof.
  intros H1 Hk cap bs input p rest Hw Hsz Hc. unfold mbind, reader_bind.
  by rewrite (H1 _ _ _ _ _ Hw Hsz Hc), Hk.
Qed.

(** Pure steps in front of a reader. *)
Lemma reads_lift {A B} (o : res A) (k : A -> reader B) w a b :
  o = Ok a -> reads (k a) w b -> reads (lift o ≫= k) w b.
Proof. intros -> H. exact H. Qed.

Lemma reads_refuse {B} (g : bool) e (k : unit -> reader B) w b :
  g = false -> reads (k tt) w b -> reads (refuse g e ≫= k) w b.
Proof. intros -> H. exact H. Qed.

Lemma reads_ret {A} (a : A) : reads (mret a) wnil a.
Proof. intros cap b input p rest [= <-] _ _. rewrite zlen_nil, Z.add_0_r. done. Qed.

Lemma reads_varint v : 0 <= v -> reads rd_varint (put_varint v) v.
Proof. intros Hv cap b input p rest Hw _ Hc. by eapply get_varint_at_put. Qed.

Lemma reads_cid c : is_cid c -> reads rd_cid (encode_compact_cid c) c.
Proof. intros Hc cap b input p rest Hw _ Hcur. by eapply decode_compact_cid_at_encode. Qed.

Lemma reads_role r : reads rd_role (put_role r) r.
Proof.
  unfold rd_role, put_role. eapply reads_pure; [apply reads_varint; by destruct r|].
  intros input p. by destruct r.
Qed.

Lemma reads_bytes s e : reads (rd_bytes (zlen s) e) (put_bytes s) s.
Proof.
  intros cap b input p rest Hw Hsz Hc. unfold put_bytes in Hw.
  destruct (cap <? zlen s); [done|]. injection Hw as <-.
  pose proof (at_cursor_len _ _ _ Hc) as Hl. unfold rd_bytes, checked_add.
  rewrite (proj2 (Z.leb_le _ U64_MAX)) by zlia. simpl.
  pose proof (at_cursor_slice_range (E:=unit) _ _ _ _ Hc) as Hs.
  apply get_range_slice in Hs. by rewrite Hs.
Qed.

(** A field whose length is what is left of the packet. *)
Lemma reads_remaining {B} (k : Z -> reader B) w b :
  (forall cap s, w cap = Ok s -> reads_last (k (zlen s)) w b) ->
  reads_last (rd_remaining ≫= k) w b.
Proof.
  intros H cap s input p Hw Hsz Hc. unfold mbind, reader_bind, rd_remaining.
  pose proof (at_cursor_len _ _ _ Hc) as Hl. replace (zlen input - p) with (zlen s) by lia.
  by eapply H.
Qed.
End reads_lemmas.

(** ** Safety of a reader *)
Definition safe {A} (r : reader A) (P : A -> Prop) : Prop :=
  forall input p, bytes_ok input -> 0 <= p <= zlen input ->
    match r input p with
    | Ok (a, p') => p <= p' <= zlen input /\ P a
    | Err _ => True
    | Panic => False
    end.

Section safe_lemmas.

Lemma safe_bind {A B} (r : reader A) (k : A -> reader B) P Q :
  safe r P -> (forall a, P a -> safe (k a) Q) -> safe (r ≫= k) Q.
Proof.
  intros Hr Hk input p Hok Hp. unfold mbind, reader_bind. specialize (Hr input p Hok Hp).
  destruct (r input p) as [[a p']| |]; [|done..]. destruct Hr as [Hp' Ha].
  specialize (Hk a Ha input p' Hok ltac:(lia)).
  destruct (k a input p') as [[b p'']| |]; [|done..]. destruct Hk. split; [lia|done].
Qed.

Lemma safe_ret {A} (a : A) (P : A -> Prop) : P a -> safe (mret a) P.
Proof. intros H input p _ Hp. split; [lia|done]. Qed.

Lemma safe_lift {A} (o : res A) (P : A -> Prop) :
  o <> Panic -> (forall a, o = Ok a -> P a) -> safe (lift o) P.
Proof. intros Hn H input p _ Hp. unfold lift. destruct o; [split; [lia|auto]|done..]. Qed.

Lemma safe_refuse (g : bool) e : safe (refuse g e) (fun _ => g = false).
Proof. apply safe_lift; [apply guard_err_not_Panic|]. intros []. apply guard_err_Ok. Qed.

Lemma safe_varint : safe rd_varint (fun v => is_varint v).
Proof.
  intros input p Hok Hp. pose proof (get_varint_at_not_Panic input p Hok Hp) as Hn.
  unfold rd_varint. destruct (get_varint_at input p) as [[v p']| |] eqn:He; [|done..].
  apply get_varint_at_Ok in He as (? & ? & ?); [|done]. split; [lia|done].
Qed.

Lemma safe_cid : safe rd_cid (fun c => is_cid c /\ c <> 0).
Proof.
  intros input p Hok Hp. pose proof (decode_compact_cid_at_not_Panic input p Hok Hp) as Hn.
  unfold rd_cid. destruct (decode_compact_cid_at input p) as [[v p']| |] eqn:He; [|done..].
  apply decode_compact_cid_at_Ok in He as (? & ? & ? & ?); [|done]. split; [lia|done].
Qed.

Lemma safe_role : safe rd_role (fun _ => True).
Proof.
  apply (safe_bind _ _ _ _ safe_varint). intros v _.
  by apply safe_lift; [apply decode_role_not_Panic|].
Qed.

Lemma safe_remaining : safe rd_remaining (fun n => 0 <= n).
Proof. intros input p _ Hp. simpl. lia. Qed.

Lemma safe_bytes n e : 0 <= n -> safe (rd_bytes n e) (fun s => zlen s = n /\ bytes_ok s).
Proof.
  intros Hn input p Hok Hp. unfold rd_bytes. destruct (checked_add p n) as [q|] eqn:Hq; simpl; [|done].
  unfold checked_add in Hq. destruct (_ <=? _); [|done]. injection Hq as <-.
  destruct (get_range input p (p + n)) as [s|] eqn:Hs; simpl; [|done].
  apply get_range_Some in Hs as (? & ? & ->). split; [lia|]. split.
  - replace (p + n - p) with n by lia. apply zlen_take. rewrite zlen_drop; lia.
  - by apply bytes_ok_take, bytes_ok_drop.
Qed.

Lemma safe_weaken {A} (r : reader A) (P Q : A -> Prop) :
  safe r P -> (forall a, P a -> Q a) -> safe r Q.
Proof.
  intros H HPQ input p Hok Hp. specialize (H input p Hok Hp).
  destruct (r input p) as [[a p']| |]; [|done..]. destruct H. auto.
Qed.

Lemma safe_if {A} (b : bool) (r1 r2 : reader A) P :
  (b = true -> safe r1 P) -> (b = false -> safe r2 P) -> safe (if b then r1 else r2) P.
Proof. destruct b; auto. Qed.

Lemma safe_true {A} (r : reader A) P : safe r P -> safe r (fun _ => True).
Proof. intros H. by eapply safe_weaken. Qed.
End safe_lemmas.

(** The two decomposition tactics. *)
Create HintDb reads.
#[export] Hint Resolve reads_varint reads_cid reads_role reads_bytes : reads.
Create HintDb safe.
#[export] Hint Resolve safe_varint safe_cid safe_role safe_remaining safe_refuse : safe.

Ltac reads_step :=
  match goal with
  | |- reads (refuse _ _ ≫= _) _ _ => apply reads_refuse
  | |- reads (lift _ ≫= _) _ _ => eapply reads_lift
  | |- reads (_ ≫= _) (_ ;;; _) _ => eapply reads_bind
  | |- reads_last (_ ≫= _) (_ ;;; _) _ => eapply reads_bind_last
  | |- reads (_ ≫= _) _ _ => eapply reads_pure
  | |- reads (mret _) wnil _ => apply reads_ret
  end.
Ltac safe_step :=
  match goal with
  | |- safe (_ ≫= _) _ => eapply safe_bind; [solve [eauto with safe]|intros ? ?]
  | |- safe (if _ then _ else _) _ => apply safe_if; intros ?
  | |- safe (mret _) _ => apply safe_ret
  | |- safe (lift (Err _)) _ => apply safe_lift; done
  end.

Lemma wseq_assoc (w1 w2 w3 : writer Error.t) cap bs :
  ((w1 ;;; w2) ;;; w3) cap = Ok bs -> (w1 ;;; w2 ;;; w3) cap = Ok bs.
Proof.
  rewrite !wseq_Ok. intros (b12 & b3 & (b1 & b2 & H1 & H2 & ->)%wseq_Ok & H3 & ->).
  exists b1, (b2 ++ b3). split; [done|]. split; [|by rewrite app_assoc].
  apply wseq_Ok. exists b2, b3. split; [done|]. split; [|done]. rewrite <- H3. f_equal. zlia.
Qed.

Lemma wseq_mono (w1 w2 w2' : writer Error.t) cap bs :
  (forall c b, w2 c = Ok b -> w2' c = Ok b) -> (w1 ;;; w2) cap = Ok bs -> (w1 ;;; w2') cap = Ok bs.
Proof.
  intros Hm (b1 & b2 & H1 & H2 & ->)%wseq_Ok. apply wseq_Ok. exists b1, b2. auto.
Qed.

Lemma wseq_assoc4 (w1 w2 w3 w4 w5 : writer Error.t) cap bs :
  ((w1 ;;; w2 ;;; w3 ;;; w4) ;;; w5) cap = Ok bs -> (w1 ;;; w2 ;;; w3 ;;; w4 ;;; w5) cap = Ok bs.
Proof.
  intros H%wseq_assoc. revert H. apply wseq_mono. intros c b H%wseq_assoc. revert H.
  apply wseq_mono. intros c' b'. apply wseq_assoc.
Qed.

Lemma reads_ext {A} (r : reader A) (w w' : writer Error.t) a :
  (forall cap b, w' cap = Ok b -> w cap = Ok b) -> reads r w a -> reads r w' a.
Proof. intros Hw H cap b input p rest Hb. by apply (H cap), Hw. Qed.
