(* ===== verification/Frames.v ===== *)
(** * Transport frames

    [Frame::encode] and [decode_frame] of [src/crates/quic-lite/src/lib.rs], with
    the two classifiers that walk the frames of a packet
    ([decode_path_control_packet], [is_control_only_packet]).  The theorems show
    the round trip of every frame the transport can send, that any input is
    either refused or decoded to a well-formed frame with progress inside the
    packet, and what the classifiers accept.

    [usize] is 64 bits.  [first.end - first.start] on [u32] is the release-profile
    (wrapping) subtraction; on the ranges the transport keeps it never wraps. *)

From S2P Require Import Prelude Wire AckRanges PacketHeader Reader.

Definition FRAME_PADDING : Z := 0x00.
Definition FRAME_PING : Z := 0x01.
Definition FRAME_ACK : Z := 0x02.
Definition FRAME_STREAM_BASE : Z := 0x08.
Definition FRAME_MAX_DATA : Z := 0x10.
Definition FRAME_MAX_STREAM_DATA : Z := 0x11.
Definition FRAME_MAX_STREAMS_BIDI : Z := 0x12.
Definition FRAME_MAX_STREAMS_UNI : Z := 0x13.
Definition FRAME_CONNECTION_CLOSE : Z := 0x1c.
Definition FRAME_PATH_JOIN : Z := 0x40.
Definition FRAME_PATH_JOIN_ACK : Z := 0x41.
Definition FRAME_PATH_CHALLENGE : Z := 0x42.
Definition FRAME_PATH_RESPONSE : Z := 0x43.
Definition FRAME_PATH_STATUS : Z := 0x44.
Definition FRAME_ACK_FREQUENCY : Z := 0xaf.

Record StreamFrame : Type := mkStreamFrame {
  s_id : Z;
  s_offset : Z;
  s_fin : bool;
  s_data : bytes;
}.

Record CircuitKey : Type := mkCircuitKey { opener_role : Role; key_sequence : Z }.

Inductive PathStatusKind : Type := Available | Standby | Abandon.

Inductive Frame : Type :=
  | Padding
  | Ping
  | Ack (largest delay : Z)
  | AckRangesF (largest delay : Z) (ranges : AckRanges)
  | AckFrequency (sequence packet_threshold max_ack_delay_us reordering_threshold : Z)
  | Stream (s : StreamFrame)
  | Datagram (data : bytes) (length : bool)
  | MaxData (v : Z)
  | MaxStreamData (id max : Z)
  | MaxStreamsBidi (v : Z)
  | MaxStreamsUni (v : Z)
  | PathJoin (join_cid : Z) (key : CircuitKey) (transaction_id receive_cid : Z)
  | PathJoinAck (key : CircuitKey) (transaction_id receive_cid : Z)
  | PathChallenge (token : Z)
  | PathResponse (token : Z)
  | PathStatus (key : CircuitKey) (sequence : Z) (status : PathStatusKind)
  | Close (code : Z).

#[export] Instance StreamFrame_eq_dec : EqDecision StreamFrame.
Proof. solve_decision. Defined.
#[export] Instance CircuitKey_eq_dec : EqDecision CircuitKey.
Proof. solve_decision. Defined.
#[export] Instance PathStatusKind_eq_dec : EqDecision PathStatusKind.
Proof. solve_decision. Defined.
#[export] Instance Frame_eq_dec : EqDecision Frame.
Proof. solve_decision. Defined.

(** ** Encoding *)

(** The [for i in 1..ranges.len()] loop, with [previous] the range before. *)
Fixpoint put_gaps (previous : AckRange) (l : AckRanges) : writer Error.t :=
  match l with
  | [] => wnil
  | current :: l' => fun cap =>
      gap ← ok_or (checked_sub (r_start previous) (r_end current + 2)) Error.Invalid;
      (put_varint gap ;;; put_varint (as_u32 (r_end current - r_start current))
       ;;; put_gaps current l') cap
  end.

Definition put_ack_ranges (largest delay : Z) (ranges : AckRanges) : writer Error.t := fun cap =>
  match ranges with
  | [] => Err Error.Invalid
  | first :: rest =>
      if negb (r_end first =? largest) then Err Error.Invalid else
      (put_varint FRAME_ACK ;;; put_varint largest ;;; put_varint delay
       ;;; put_varint (Ranges.len ranges - 1)
       ;;; put_varint (as_u32 (r_end first - r_start first))
       ;;; put_gaps first rest) cap
  end.

Definition encode_stream_prefix (s : StreamFrame) : writer Error.t :=
  put_varint (Z.lor (Z.lor (Z.lor FRAME_STREAM_BASE 0x04) 0x02) (Z.b2z (s_fin s)))
  ;;; put_varint (s_id s) ;;; put_varint (s_offset s) ;;; put_varint (zlen (s_data s)).

Definition status_code (s : PathStatusKind) : Z :=
  match s with Available => 0 | Standby => 1 | Abandon => 2 end.

(** [Frame::encode]; [out\[p..\]] copies of payloads are [put_bytes]. *)
Definition encode (f : Frame) : writer Error.t :=
  match f with
  | Padding => fun cap => if cap <? 1 then Err Error.BufferTooSmall else Ok [FRAME_PADDING]
  | Ping => fun cap => if cap <? 1 then Err Error.BufferTooSmall else Ok [FRAME_PING]
  | Ack largest delay =>
      put_varint FRAME_ACK ;;; put_varint largest ;;; put_varint delay
      ;;; put_varint 0 ;;; put_varint 0
  | AckRangesF largest delay ranges => put_ack_ranges largest delay ranges
  | AckFrequency sequence packet_threshold max_ack_delay_us reordering_threshold =>
      put_varint FRAME_ACK_FREQUENCY ;;; put_varint sequence ;;; put_varint packet_threshold
      ;;; put_varint max_ack_delay_us ;;; put_varint reordering_threshold
  | Stream s => encode_stream_prefix s ;;; put_bytes (s_data s)
  | MaxData v => put_varint FRAME_MAX_DATA ;;; put_varint v
  | Datagram data length =>
      put_varint (if length then 0x31 else 0x30)
      ;;; (if length then put_varint (zlen data) else wnil) ;;; put_bytes data
  | MaxStreamData id max => put_varint FRAME_MAX_STREAM_DATA ;;; put_varint id ;;; put_varint max
  | MaxStreamsBidi v => put_varint FRAME_MAX_STREAMS_BIDI ;;; put_varint v
  | MaxStreamsUni v => put_varint FRAME_MAX_STREAMS_UNI ;;; put_varint v
  | PathJoin join_cid key transaction_id receive_cid =>
      put_varint FRAME_PATH_JOIN ;;; put_role (opener_role key) ;;; put_varint (key_sequence key)
      ;;; put_varint transaction_id ;;; encode_compact_cid join_cid
      ;;; encode_compact_cid receive_cid
  | PathJoinAck key transaction_id receive_cid =>
      put_varint FRAME_PATH_JOIN_ACK ;;; put_role (opener_role key)
      ;;; put_varint (key_sequence key) ;;; put_varint transaction_id
      ;;; encode_compact_cid receive_cid
  | PathChallenge token => put_varint FRAME_PATH_CHALLENGE ;;; put_varint token
  | PathResponse token => put_varint FRAME_PATH_RESPONSE ;;; put_varint token
  | PathStatus key sequence status =>
      put_varint FRAME_PATH_STATUS ;;; put_role (opener_role key)
      ;;; put_varint (key_sequence key) ;;; put_varint sequence
      ;;; put_varint (status_code status)
  | Close code => put_varint FRAME_CONNECTION_CLOSE ;;; put_varint code ;;; put_varint 0
  end.

(** ** Decoding *)

(** The [for _ in 0..range_count] loop. *)
Fixpoint dec_gaps (n : nat) (previous_start : Z) (ranges : AckRanges) : reader AckRanges :=
  match n with
  | O => mret ranges
  | S n' =>
      gap ← rd_varint;
      range ← rd_varint;
      current_end ← lift (ok_or (checked_sub previous_start (gap + 2)) Error.Invalid);
      current_start ← lift (ok_or (checked_sub current_end range) Error.Invalid);
      refuse ((current_end >? U32_MAX) || (current_start >? U32_MAX)) Error.Invalid ;;
      dec_gaps n' current_start
        (Ranges.insert_range ACK_RANGE_CAPACITY ranges
           (mkAckRange (as_u32 current_start) (as_u32 current_end))).1
  end.

Definition dec_ack : reader Frame :=
  largest ← rd_varint;
  delay ← rd_varint;
  range_count ← rd_varint;
  first_range ← rd_varint;
  refuse ((largest >? U32_MAX) || (first_range >? largest)) Error.Invalid ;;
  if (range_count =? 0) && (first_range =? 0) then mret (Ack (as_u32 largest) delay) else
  refuse (range_count >=? ACK_RANGE_CAPACITY) Error.Invalid ;;
  let ranges := (Ranges.insert_range ACK_RANGE_CAPACITY Ranges.new
                   (mkAckRange (as_u32 (largest - first_range)) (as_u32 largest))).1 in
  ranges ← dec_gaps (Z.to_nat range_count) (largest - first_range) ranges;
  mret (AckRangesF (as_u32 largest) delay ranges).

Definition dec_ack_frequency : reader Frame :=
  sequence ← rd_varint;
  packet_threshold ← rd_varint;
  max_ack_delay_us ← rd_varint;
  reordering_threshold ← rd_varint;
  mret (AckFrequency sequence packet_threshold max_ack_delay_us reordering_threshold).

Definition dec_datagram (length : bool) : reader Frame :=
  len ← (if length then len ← rd_varint; lift (ok_or (usize_try_from len) Error.Invalid)
         else rd_remaining);
  data ← rd_bytes len Error.Truncated;
  mret (Datagram data length).

Definition dec_path_join : reader Frame :=
  opener_role ← rd_role;
  sequence ← rd_varint;
  transaction_id ← rd_varint;
  join_cid ← rd_cid;
  receive_cid ← rd_cid;
  refuse ((sequence =? 0) || (transaction_id =? 0) || (join_cid =? 0) || (receive_cid =? 0))
    Error.Invalid ;;
  mret (PathJoin join_cid (mkCircuitKey opener_role sequence) transaction_id receive_cid).

Definition dec_path_join_ack : reader Frame :=
  opener_role ← rd_role;
  sequence ← rd_varint;
  transaction_id ← rd_varint;
  receive_cid ← rd_cid;
  refuse ((sequence =? 0) || (transaction_id =? 0) || (receive_cid =? 0)) Error.Invalid ;;
  mret (PathJoinAck (mkCircuitKey opener_role sequence) transaction_id receive_cid).

Definition dec_path_token (challenge : bool) : reader Frame :=
  token ← rd_varint;
  refuse (token =? 0) Error.Invalid ;;
  mret (if challenge then PathChallenge token else PathResponse token).

Definition decode_status (v : Z) : res PathStatusKind :=
  if v =? 0 then Ok Available else if v =? 1 then Ok Standby
  else if v =? 2 then Ok Abandon else Err Error.Invalid.

Definition dec_path_status : reader Frame :=
  opener_role ← rd_role;
  key_sequence ← rd_varint;
  sequence ← rd_varint;
  status ← rd_varint;
  refuse (sequence =? 0) Error.Invalid ;;
  status ← lift (decode_status status);
  mret (PathStatus (mkCircuitKey opener_role key_sequence) sequence status).

(** The close reason is skipped. *)
Definition dec_close : reader Frame :=
  code ← rd_varint;
  len ← rd_varint;
  len ← lift (ok_or (usize_try_from len) Error.Invalid);
  rd_bytes len Error.Truncated ;;
  mret (Close code).

Definition dec_stream (t : Z) : reader Frame :=
  id ← rd_varint;
  offset ← (if negb (Z.land t 4 =? 0) then rd_varint else mret 0);
  len ← (if negb (Z.land t 2 =? 0)
         then v ← rd_varint; lift (ok_or (usize_try_from v) Error.Invalid)
         else rd_remaining);
  data ← rd_bytes len Error.Truncated;
  mret (Stream (mkStreamFrame id offset (negb (Z.land t 1 =? 0)) data)).

Definition dec_body (typ : Z) : reader Frame :=
  if typ =? FRAME_PADDING then mret Padding
  else if typ =? FRAME_PING then mret Ping
  else if typ =? FRAME_ACK then dec_ack
  else if typ =? FRAME_ACK_FREQUENCY then dec_ack_frequency
  else if typ =? FRAME_MAX_DATA then max ← rd_varint; mret (MaxData max)
  else if (typ =? 0x30) || (typ =? 0x31) then dec_datagram (typ =? 0x31)
  else if typ =? FRAME_MAX_STREAM_DATA then
    id ← rd_varint; max ← rd_varint; mret (MaxStreamData id max)
  else if typ =? FRAME_MAX_STREAMS_BIDI then v ← rd_varint; mret (MaxStreamsBidi v)
  else if typ =? FRAME_MAX_STREAMS_UNI then v ← rd_varint; mret (MaxStreamsUni v)
  else if typ =? FRAME_PATH_JOIN then dec_path_join
  else if typ =? FRAME_PATH_JOIN_ACK then dec_path_join_ack
  else if (typ =? FRAME_PATH_CHALLENGE) || (typ =? FRAME_PATH_RESPONSE) then
    dec_path_token (typ =? FRAME_PATH_CHALLENGE)
  else if typ =? FRAME_PATH_STATUS then dec_path_status
  else if typ =? FRAME_CONNECTION_CLOSE then dec_close
  else if (FRAME_STREAM_BASE <=? typ) && (typ <=? FRAME_STREAM_BASE + 7) then dec_stream typ
  else lift (Err Error.Invalid).

Definition decode_frame (input : bytes) : res (Frame * Z) :=
  run_reader (typ ← rd_varint; dec_body typ) input.

(** ** Packet classifiers *)
Definition is_path_control (f : Frame) : bool :=
  match f with
  | PathJoin _ _ _ _ | PathJoinAck _ _ _ | PathChallenge _ | PathResponse _
  | PathStatus _ _ _ => true
  | _ => false
  end.

Definition is_padding (f : Frame) : bool := match f with Padding => true | _ => false end.

(** The [while offset < input.len()] loop of [decode_path_control_packet]. *)
Fixpoint path_control_loop (fuel : nat) (input : bytes) (offset : Z)
    (path_control : option Frame) (other_frame : bool) : res (option Frame) :=
  match fuel with
  | O => Ok None
  | S fuel' =>
      if zlen input <=? offset then Ok path_control else
      rest ← slice_from input offset;
      match decode_frame rest with
      | Err _ => Ok None
      | Panic => Panic
      | Ok (frame, used) =>
          if used =? 0 then Ok None
          else if is_path_control frame then
            if bool_decide (path_control <> None) || other_frame then Err Error.Invalid
            else path_control_loop fuel' input (offset + used) (Some frame) other_frame
          else match path_control with
               | Some _ =>
                   if negb (is_padding frame) then Err Error.Invalid
                   else path_control_loop fuel' input (offset + used) path_control other_frame
               | None => path_control_loop fuel' input (offset + used) path_control true
               end
      end
  end.

Definition priority_class (f : Frame) : option bool :=
  match f with
  | Padding | Ping => Some false
  | Stream _ | Datagram _ _ => None
  | _ => Some true
  end.

(** The loop of [is_control_only_packet]. *)
Fixpoint control_only_loop (fuel : nat) (input : bytes) (offset : Z) (has_priority_control : bool)
    : bool :=
  match fuel with
  | O => false
  | S fuel' =>
      if zlen input <=? offset then has_priority_control else
      match slice_from (E:=Error.t) input offset with
      | Ok rest =>
          match decode_frame rest with
          | Ok (frame, used) =>
              if used =? 0 then false else
              match priority_class frame with
              | None => false
              | Some c => control_only_loop fuel' input (offset + used) (has_priority_control || c)
              end
          | _ => false
          end
      | _ => false
      end
  end.

Section classifiers.
Context {F : Features}.

Definition decode_path_control_packet (input : bytes) : res (option Frame) :=
  if is_long input then Ok None else
  '(_, header_len) ← short_decode input;
  path_control_loop (S (length input)) input header_len None false.

Definition is_control_only_packet (input : bytes) : bool :=
  match short_decode input with
  | Ok (_, header_len) =>
      if header_len =? zlen input then false
      else control_only_loop (S (length input)) input header_len false
  | _ => false
  end.
End classifiers.

#[global] Arguments encode : simpl never.
#[global] Arguments decode_frame : simpl never.

(** ** What the transport sends and receives *)
Definition frame_ok (f : Frame) : Prop :=
  match f with
  | Padding | Ping => True
  | Ack largest delay => is_u32 largest /\ 0 <= delay
  | AckRangesF largest delay ranges =>
      wf ranges /\ zlen ranges <= ACK_RANGE_CAPACITY /\ 0 <= delay /\
      (exists r rest, ranges = r :: rest /\ r_end r = largest)
  | AckFrequency a b c d => 0 <= a /\ 0 <= b /\ 0 <= c /\ 0 <= d
  | Stream s => 0 <= s_id s /\ 0 <= s_offset s
  | Datagram _ _ => True
  | MaxData v | MaxStreamsBidi v | MaxStreamsUni v => 0 <= v
  | MaxStreamData id max => 0 <= id /\ 0 <= max
  | PathJoin j k t r =>
      is_cid j /\ is_cid r /\ 0 < key_sequence k /\ 0 < t
  | PathJoinAck k t r => is_cid r /\ 0 < key_sequence k /\ 0 < t
  | PathChallenge t | PathResponse t => 0 < t
  | PathStatus k s _ => 0 <= key_sequence k /\ 0 < s
  | Close code => 0 <= code
  end.

(** The bytes a frame carries. *)
Definition payload_ok (f : Frame) : Prop :=
  match f with
  | Stream s => bytes_ok (s_data s)
  | Datagram data _ => bytes_ok data
  | _ => True
  end.

(** A one-packet range set is sent in the form of a plain ACK. *)
Definition normalize (f : Frame) : Frame :=
  match f with
  | AckRangesF largest delay [r] => if r_start r =? r_end r then Ack largest delay else f
  | _ => f
  end.

(** A DATAGRAM without length runs to the end of the packet. *)
Definition self_delimiting (f : Frame) : bool :=
  match f with Datagram _ false => false | _ => true end.

(** ** Acknowledgement ranges on the wire *)
Lemma checked_sub_Some a b : b <= a -> checked_sub a b = Some (a - b).
Proof. intros. unfold checked_sub. by rewrite (proj2 (Z.leb_le _ _)). Qed.

Lemma dec_gaps_reads acc prev l :
  wf (acc ++ prev :: l) -> zlen (acc ++ prev :: l) <= ACK_RANGE_CAPACITY ->
  reads (dec_gaps (length l) (r_start prev) (acc ++ [prev])) (put_gaps prev l) (acc ++ prev :: l).
Proof.
  revert acc prev. induction l as [|cur l IH]; intros acc prev Hwf Hlen;
    cbn [dec_gaps put_gaps length]; [apply reads_ret|].
  pose proof Hwf as (_ & (Hp & [Hab _]%Forall_cons & (Hc & _ & _)%wf_cons)%wf_cons & _)%wf_app.
  unfold above, valid_range in Hp, Hc, Hab.
  apply (reads_ext _ (put_varint (r_start prev - (r_end cur + 2))
    ;;; put_varint (as_u32 (r_end cur - r_start cur)) ;;; put_gaps cur l)).
  { intros cap b. rewrite checked_sub_Some by lia. done. }
  reads_step; [apply reads_varint; lia|].
  rewrite as_u32_small by lia. reads_step; [apply reads_varint; lia|].
  reads_step; [rewrite checked_sub_Some by lia; simpl; reflexivity|].
  reads_step; [rewrite checked_sub_Some by lia; simpl; reflexivity|].
  replace (r_start prev - (r_start prev - (r_end cur + 2) + 2)) with (r_end cur) by lia.
  replace (r_end cur - (r_end cur - r_start cur)) with (r_start cur) by lia.
  apply reads_refuse; [rewrite !Z.gtb_ltb; apply orb_false_iff; rewrite !Z.ltb_ge; lia|].
  rewrite !as_u32_small by lia.
  rewrite (cons_middle prev acc (cur :: l)), app_assoc in Hwf, Hlen |- *.
  replace (mkAckRange (r_start cur) (r_end cur)) with cur by (by destruct cur).
  rewrite insert_range_append; [by apply (IH (acc ++ [prev]) cur)| |zlia].
  rewrite (cons_middle cur _ l), app_assoc in Hwf. by apply wf_app in Hwf as [? _].
Qed.

Lemma dec_gaps_safe n ps acc prev :
  wf (acc ++ [prev]) -> r_start prev = ps ->
  zlen (acc ++ [prev]) + Z.of_nat n <= ACK_RANGE_CAPACITY ->
  safe (dec_gaps n ps (acc ++ [prev])) (fun ranges =>
    wf ranges /\ zlen ranges <= ACK_RANGE_CAPACITY /\ exists l, ranges = acc ++ prev :: l /\ length l = n).
Proof.
  revert ps acc prev. induction n as [|n IH]; intros ps acc prev Hwf <- Hlen; cbn [dec_gaps].
  - apply safe_ret. split; [done|]. split; [lia|]. by exists [].
  - safe_step. safe_step. eapply safe_bind; [apply safe_lift; [apply ok_or_not_Panic|]|].
    { intros ce Hce. exact (proj1 (ok_or_Ok _ _ _) Hce). }
    intros ce Hce. eapply safe_bind; [apply safe_lift; [apply ok_or_not_Panic|]|].
    { intros cs Hcs. exact (proj1 (ok_or_Ok _ _ _) Hcs). }
    intros cs Hcs. safe_step. unfold checked_sub in *. cbv beta in *.
    destruct (Z.leb_spec (a + 2) (r_start prev)); [|done]. injection Hce as <-.
    destruct (Z.leb_spec a0 (r_start prev - (a + 2))); [|done]. injection Hcs as <-.
    rewrite !Z.gtb_ltb in *. bools. rewrite !as_u32_small by lia.
    assert (Hnew : wf ((acc ++ [prev]) ++
        [mkAckRange (r_start prev - (a + 2) - a0) (r_start prev - (a + 2))])).
    { rewrite <- app_assoc. apply wf_app in Hwf as (Hacc & (Hp & _)%wf_cons & Hcr).
      assert (Hb : above prev (mkAckRange (r_start prev - (a + 2) - a0) (r_start prev - (a + 2))))
        by (unfold above; simpl; lia).
      assert (Hv : valid_range (mkAckRange (r_start prev - (a + 2) - a0) (r_start prev - (a + 2))))
        by (unfold valid_range; simpl; lia).
      apply wf_app. split; [done|]. split.
      - apply wf_cons. split; [done|]. split; [by repeat constructor|].
        apply wf_cons. split; [done|]. split; [constructor|done].
      - intros x y Hx [-> | ->%list_elem_of_singleton]%elem_of_cons;
          [by apply Hcr; [|left]|].
        specialize (Hcr x prev Hx ltac:(left)). unfold above, valid_range in *. simpl in *. lia. }
    rewrite insert_range_append; [|done|zlia]. cbn [fst].
    eapply safe_weaken; [apply IH; [done|done|zlia]|].
    intros ranges (Hw & Hl & l & -> & Hn). split; [done|]. split; [done|].
    eexists. rewrite <- app_assoc. simpl. split; [reflexivity|]. simpl. by rewrite Hn.
Qed.

Lemma insert_first r :
  valid_range r -> (Ranges.insert_range ACK_RANGE_CAPACITY Ranges.new r).1 = [r].
Proof.
  intros Hr. unfold Ranges.new. rewrite insert_range_append; [done| |done].
  apply wf_cons. repeat split; try constructor; apply Hr.
Qed.

(** ** Round trip of each frame *)
Lemma dec_ack_reads_single largest delay :
  is_u32 largest -> 0 <= delay ->
  reads dec_ack (put_varint largest ;;; put_varint delay ;;; put_varint 0 ;;; put_varint 0)
    (Ack largest delay).
Proof.
  intros Hl Hd. unfold dec_ack. do 3 (reads_step; [apply reads_varint; lia|]).
  eapply reads_pure; [apply reads_varint; lia|]. intros input p.
  unfold mbind, reader_bind, refuse. rewrite !Z.gtb_ltb, (proj2 (Z.ltb_ge _ _)),
    (proj2 (Z.ltb_ge largest 0)) by lia. simpl. by rewrite as_u32_small.
Qed.

Lemma dec_ack_reads_ranges delay r rest :
  wf (r :: rest) -> zlen (r :: rest) <= ACK_RANGE_CAPACITY -> 0 <= delay ->
  reads dec_ack (put_varint (r_end r) ;;; put_varint delay ;;; put_varint (zlen (r :: rest) - 1)
    ;;; put_varint (as_u32 (r_end r - r_start r)) ;;; put_gaps r rest)
    (normalize (AckRangesF (r_end r) delay (r :: rest))).
Proof.
  intros Hwf Hlen Hd. pose proof Hwf as (Hr & _)%wf_cons. unfold valid_range in Hr.
  unfold dec_ack. rewrite as_u32_small by lia.
  do 4 (reads_step; [apply reads_varint; zlia|]).
  apply reads_refuse; [rewrite !Z.gtb_ltb; apply orb_false_iff; rewrite !Z.ltb_ge; lia|].
  rewrite as_u32_small by lia. destruct (_ && _) eqn:Hs.
  - bools. assert (rest = []) as -> by (apply zlen_0_nil; zlia). simpl.
    rewrite (proj2 (Z.eqb_eq _ _)) by lia. apply reads_ret.
  - apply reads_refuse; [rewrite Z.geb_leb; apply Z.leb_gt; zlia|]. cbv zeta.
    replace (r_end r - (r_end r - r_start r)) with (r_start r) by lia.
    rewrite as_u32_small by lia. replace (mkAckRange (r_start r) (r_end r)) with r by (by destruct r).
    rewrite insert_first by done.
    replace (Z.to_nat (zlen (r :: rest) - 1)) with (length rest) by (unfold zlen; simpl; lia).
    eapply reads_pure; [by apply (dec_gaps_reads [] r rest)|]. intros input p.
    unfold mret, reader_ret. do 2 f_equal. destruct rest; [|done]. simpl.
    destruct (Z.eqb_spec (r_start r) (r_end r)) as [He|]; [|done]. exfalso.
    by rewrite He, !Z.sub_diag in Hs.
Qed.

Lemma usize_small v : v <= U64_MAX -> usize_try_from v = Some v.
Proof. intros H. unfold usize_try_from. by rewrite (proj2 (Z.leb_le _ _)). Qed.

(** A length-prefixed field. *)
Lemma reads_sized {B} (s : bytes) (k : Z -> reader B) b :
  zlen s <= U64_MAX -> reads (k (zlen s)) (put_bytes s) b ->
  reads ((v ← rd_varint; lift (ok_or (usize_try_from v) Error.Invalid)) ≫= k)
    (put_varint (zlen s) ;;; put_bytes s) b.
Proof.
  intros Hs H. eapply reads_bind; [|exact H].
  eapply reads_pure; [apply reads_varint; zlia|]. intros input p. by rewrite usize_small.
Qed.

Lemma dec_stream_reads t s :
  0 <= s_id s -> 0 <= s_offset s -> zlen (s_data s) <= U64_MAX ->
  Z.land t 4 <> 0 -> Z.land t 2 <> 0 -> negb (Z.land t 1 =? 0) = s_fin s ->
  reads (dec_stream t) (put_varint (s_id s) ;;; put_varint (s_offset s)
    ;;; put_varint (zlen (s_data s)) ;;; put_bytes (s_data s)) (Stream s).
Proof.
  intros Hi Ho Hd H4%Z.eqb_neq H2%Z.eqb_neq H1. unfold dec_stream. rewrite H4, H2, H1.
  cbn [negb]. do 2 (reads_step; [by apply reads_varint|]). apply reads_sized; [done|].
  eapply reads_pure; [apply reads_bytes|]. intros input p. by destruct s.
Qed.

Lemma dec_datagram_reads data :
  zlen data <= U64_MAX ->
  reads (dec_datagram true) (put_varint (zlen data) ;;; put_bytes data) (Datagram data true).
Proof.
  intros Hd. unfold dec_datagram. apply reads_sized; [done|].
  by eapply reads_pure; [apply reads_bytes|].
Qed.

Lemma dec_datagram_reads_last data :
  reads_last (dec_datagram false) (wnil ;;; put_bytes data) (Datagram data false).
Proof.
  intros cap b input p (b1 & b2 & [= <-] & Hw & ->)%wseq_Ok Hsz Hc. revert Hsz Hc.
  unfold put_bytes in Hw. destruct (_ <? _) eqn:Hcap; [done|]. injection Hw as <-. simpl app.
  intros Hsz Hc. unfold dec_datagram.
  apply (reads_remaining (fun len => data ← rd_bytes len Error.Truncated;
    mret (Datagram data false)) (put_bytes data) _ ) with (cap := zlen data); [|unfold put_bytes|done..].
  - intros cap' s. unfold put_bytes at 1. destruct (cap' <? _); [done|]. intros <-%Ok_inj.
    by apply reads_reads_last; eapply reads_pure; [apply reads_bytes|].
  - by rewrite Z.ltb_irrefl.
Qed.

Ltac read_fields := repeat (reads_step; [eauto with reads; apply reads_varint; lia|]).

Lemma dec_path_join_reads j k t r :
  frame_ok (PathJoin j k t r) -> j <> 0 -> r <> 0 ->
  reads dec_path_join (put_role (opener_role k) ;;; put_varint (key_sequence k) ;;; put_varint t
    ;;; encode_compact_cid j ;;; encode_compact_cid r) (PathJoin j k t r).
Proof.
  intros (Hj & Hr & Hk & Ht) Hj0 Hr0. unfold dec_path_join.
  reads_step; [apply reads_role|]. do 2 (reads_step; [apply reads_varint; lia|]).
  reads_step; [by apply reads_cid|]. eapply reads_pure; [by apply reads_cid|]. intros input p.
  unfold refuse, mbind, reader_bind. rewrite !(proj2 (Z.eqb_neq _ 0)) by lia. by destruct k.
Qed.

Lemma dec_path_join_ack_reads k t r :
  frame_ok (PathJoinAck k t r) -> r <> 0 ->
  reads dec_path_join_ack (put_role (opener_role k) ;;; put_varint (key_sequence k)
    ;;; put_varint t ;;; encode_compact_cid r) (PathJoinAck k t r).
Proof.
  intros (Hr & Hk & Ht) Hr0. unfold dec_path_join_ack.
  reads_step; [apply reads_role|]. do 2 (reads_step; [apply reads_varint; lia|]).
  eapply reads_pure; [by apply reads_cid|]. intros input p.
  unfold refuse, mbind, reader_bind. rewrite !(proj2 (Z.eqb_neq _ 0)) by lia. by destruct k.
Qed.

Lemma dec_path_status_reads k s st :
  frame_ok (PathStatus k s st) ->
  reads dec_path_status (put_role (opener_role k) ;;; put_varint (key_sequence k)
    ;;; put_varint s ;;; put_varint (status_code st)) (PathStatus k s st).
Proof.
  intros (Hk & Hs). unfold dec_path_status.
  reads_step; [apply reads_role|]. do 2 (reads_step; [apply reads_varint; lia|]).
  eapply reads_pure; [apply reads_varint; by destruct st|]. intros input p.
  unfold refuse, mbind, reader_bind. rewrite !(proj2 (Z.eqb_neq _ 0)) by lia.
  by destruct k, st.
Qed.

Lemma dec_path_token_reads (b : bool) t :
  0 < t -> reads (dec_path_token b) (put_varint t) (if b then PathChallenge t else PathResponse t).
Proof.
  intros Ht. unfold dec_path_token. eapply reads_pure; [apply reads_varint; lia|]. intros input p.
  unfold refuse, mbind, reader_bind. rewrite (proj2 (Z.eqb_neq _ 0)) by lia. by destruct b.
Qed.

Lemma put_varint_nil v cap b :
  0 <= v -> put_varint v cap = Ok b -> (put_varint v ;;; put_bytes []) cap = Ok b.
Proof.
  intros Hv Hb. apply wseq_Ok. exists b, []. split; [done|].
  pose proof (put_varint_len _ _ _ Hv Hb). unfold put_bytes.
  rewrite (proj2 (Z.ltb_ge _ _)) by zlia. by rewrite app_nil_r.
Qed.

Lemma dec_close_reads code :
  0 <= code -> reads dec_close (put_varint code ;;; put_varint 0) (Close code).
Proof.
  intros Hc. unfold dec_close. reads_step; [by apply reads_varint|].
  apply (reads_ext _ (put_varint 0 ;;; put_bytes [])); [intros ? ? ?; by apply put_varint_nil|].
  reads_step; [by apply reads_varint|]. eapply reads_lift; [done|].
  eapply reads_pure; [apply (reads_bytes [])|]. done.
Qed.

(** The decoder of a frame type the encoder wrote. *)
Lemma decode_typed typ (w : writer Error.t) f :
  0 <= typ -> reads (dec_body typ) w f ->
  reads (typ ← rd_varint; dec_body typ) (put_varint typ ;;; w) f.
Proof. intros Ht H. eapply reads_bind; [by apply reads_varint | done]. Qed.

Lemma put_bytes_bound {A} (r : reader A) (w : writer Error.t) (s : bytes) a :
  (forall cap b, w cap = Ok b -> zlen s <= zlen b) ->
  (zlen s <= U64_MAX -> reads r w a) -> reads r w a.
Proof.
  intros Hb H cap b input p rest Hw Hsz Hc. pose proof (Hb _ _ Hw).
  pose proof (at_cursor_len _ _ _ Hc). destruct Hc as [Hp Hd].
  assert (zlen s <= U64_MAX) by zlia. by eapply H.
Qed.

Lemma wseq_bytes_len (w : writer Error.t) s cap b :
  (w ;;; put_bytes s) cap = Ok b -> zlen s <= zlen b.
Proof.
  intros (b1 & b2 & _ & H & ->)%wseq_Ok. unfold put_bytes in H.
  destruct (_ <? _); [done|]. injection H as <-. zlia.
Qed.

Lemma encode_cid_nonzero (w : writer Error.t) (c : Z) {A} (r : reader A) a :
  (forall cap b, w cap = Ok b -> c <> 0) -> (c <> 0 -> reads r w a) -> reads r w a.
Proof. intros Hc H cap b input p rest Hw. by apply (H (Hc _ _ Hw) cap). Qed.

Lemma compact_cid_nonzero c cap b : encode_compact_cid c cap = Ok b -> c <> 0.
Proof. unfold encode_compact_cid. by destruct (Z.eqb_spec c 0). Qed.

Lemma encode_reads f :
  frame_ok f -> self_delimiting f = true ->
  reads (typ ← rd_varint; dec_body typ) (encode f) (normalize f).
Proof.
  destruct f; intros Hok Hself; unfold encode.
  - apply (reads_ext _ (put_varint 0)); [done|]. by eapply reads_pure; [apply reads_varint|].
  - apply (reads_ext _ (put_varint 1)); [done|]. by eapply reads_pure; [apply reads_varint|].
  - apply decode_typed; [done|]. destruct Hok. by apply dec_ack_reads_single.
  - destruct Hok as (Hwf & Hlen & Hd & r & rest & -> & <-).
    eapply (reads_ext _ (put_varint FRAME_ACK ;;; _)); [|by apply decode_typed, dec_ack_reads_ranges].
    intros cap b. unfold put_ack_ranges. by rewrite Z.eqb_refl.
  - apply decode_typed; [done|]. destruct Hok as (? & ? & ? & ?).
    change (dec_body FRAME_ACK_FREQUENCY) with dec_ack_frequency. unfold dec_ack_frequency.
    do 3 (reads_step; [by apply reads_varint|]). by eapply reads_pure; [apply reads_varint|].
  - destruct Hok as [? ?]. unfold encode_stream_prefix.
    apply (put_bytes_bound _ _ (s_data s)); [intros ? ?; apply wseq_bytes_len|]. intros Hd.
    eapply reads_ext; [intros ? ?; apply wseq_assoc4|]. apply decode_typed; [by destruct (s_fin s)|].
    destruct (s_fin s) eqn:Hf; by apply (dec_stream_reads _ s).
  - destruct length; [|done]. apply decode_typed; [done|].
    apply (put_bytes_bound _ _ data); [intros ? ?; apply wseq_bytes_len|]. apply dec_datagram_reads.
  - apply decode_typed; [done|]. by eapply reads_pure; [apply reads_varint|].
  - apply decode_typed; [done|]. destruct Hok. eapply reads_bind; [by apply reads_varint|].
    by eapply reads_pure; [apply reads_varint|].
  - apply decode_typed; [done|]. by eapply reads_pure; [apply reads_varint|].
  - apply decode_typed; [done|]. by eapply reads_pure; [apply reads_varint|].
  - apply decode_typed; [done|].
    apply (encode_cid_nonzero _ join_cid).
    { intros cap b (? & ? & _ & (? & ? & _ & (? & ? & _ & (? & ? & Hz%compact_cid_nonzero & _)%wseq_Ok
        & _)%wseq_Ok & _)%wseq_Ok & _)%wseq_Ok. done. }
    intros Hj. apply (encode_cid_nonzero _ receive_cid).
    { intros cap b (? & ? & _ & (? & ? & _ & (? & ? & _ & (? & ? & _ & Hz%compact_cid_nonzero
        & _)%wseq_Ok & _)%wseq_Ok & _)%wseq_Ok & _)%wseq_Ok. done. }
    intros Hr. by apply dec_path_join_reads.
  - apply decode_typed; [done|]. apply (encode_cid_nonzero _ receive_cid).
    { intros cap b (? & ? & _ & (? & ? & _ & (? & ? & _ & Hz%compact_cid_nonzero
        & _)%wseq_Ok & _)%wseq_Ok & _)%wseq_Ok. done. }
    intros Hr. by apply dec_path_join_ack_reads.
  - apply decode_typed; [done|]. by apply (dec_path_token_reads true).
  - apply decode_typed; [done|]. by apply (dec_path_token_reads false).
  - apply decode_typed; [done|]. by apply dec_path_status_reads.
  - apply decode_typed; [done|]. by apply dec_close_reads.
Qed.

Lemma encode_reads_last f :
  frame_ok f -> reads_last (typ ← rd_varint; dec_body typ) (encode f) (normalize f).
Proof.
  intros Hok. destruct (self_delimiting f) eqn:Hs; [by apply reads_reads_last, encode_reads|].
  destruct f as [| | | | | |data []| | | | | | | | | |]; try done. unfold encode.
  eapply reads_bind_last; [by apply reads_varint|]. apply dec_datagram_reads_last.
Qed.

(** ** Decoding arbitrary input *)
Lemma safe_usize v : 0 <= v -> safe (lift (ok_or (usize_try_from v) Error.Invalid)) (fun n => 0 <= n).
Proof.
  intros Hv. apply safe_lift; [apply ok_or_not_Panic|]. intros n Hn%ok_or_Ok.
  unfold usize_try_from in Hn. destruct (_ <=? _); [|done]. by injection Hn as <-.
Qed.

Lemma safe_sized (c : bool) :
  safe (if c then v ← rd_varint; lift (ok_or (usize_try_from v) Error.Invalid) else rd_remaining)
    (fun n => 0 <= n).
Proof.
  apply safe_if; intros _; [|apply safe_remaining]. eapply safe_bind; [apply safe_varint|].
  intros v [? ?]. by apply safe_usize.
Qed.

Lemma dec_ack_safe : safe dec_ack (fun f => frame_ok f /\ normalize f = f /\ payload_ok f).
Proof.
  unfold dec_ack. eapply safe_bind; [apply safe_varint|cbv beta; intros largest Hlargest].
  eapply safe_bind; [apply safe_varint|cbv beta; intros delay Hdelay].
  eapply safe_bind; [apply safe_varint|cbv beta; intros count Hcount].
  eapply safe_bind; [apply safe_varint|cbv beta; intros first Hfirst].
  eapply safe_bind; [apply safe_refuse|cbv beta; intros [] Hg]. rewrite !Z.gtb_ltb in Hg. bools.
  apply safe_if; intros Hsingle.
  - apply safe_ret. rewrite as_u32_small by lia. split; [simpl; lia|done].
  - eapply safe_bind; [apply safe_refuse|cbv beta; intros [] Hc]. rewrite Z.geb_leb in Hc. bools.
    rewrite !as_u32_small by lia.
    assert (Hv : valid_range (mkAckRange (largest - first) largest)) by (unfold valid_range; simpl; lia).
    cbv zeta. rewrite insert_first by done. eapply safe_bind.
    { apply (dec_gaps_safe _ _ []); [|done|unfold ACK_RANGE_CAPACITY in *; zlia].
      apply wf_cons. repeat split; try constructor; apply Hv. }
    intros ranges (Hw & Hl & l & -> & Hn). apply safe_ret. split.
    + simpl. split; [done|]. split; [done|]. split; [lia|]. by eexists _, _.
    + simpl. destruct l; [|done]. destruct (Z.eqb_spec (largest - first) largest); [|done].
      exfalso. simpl in Hn. replace count with 0 in Hsingle by lia.
      replace first with 0 in Hsingle by lia. done.
Qed.

Lemma dec_stream_safe t : safe (dec_stream t) (fun f => frame_ok f /\ normalize f = f /\ payload_ok f).
Proof.
  unfold dec_stream. eapply safe_bind; [apply safe_varint|cbv beta; intros id Hid].
  apply (safe_bind _ _ (fun v => 0 <= v)).
  { apply safe_if; intros _; [|by apply safe_ret].
    eapply safe_weaken; [apply safe_varint|]. cbv beta; intros; lia. }
  intros off Hoff. eapply safe_bind; [apply safe_sized|cbv beta; intros n Hn].
  eapply safe_bind; [by apply safe_bytes|cbv beta; intros s [_ Hs]]. apply safe_ret.
  split; [simpl; lia|done].
Qed.

Lemma dec_datagram_safe c : safe (dec_datagram c) (fun f => frame_ok f /\ normalize f = f /\ payload_ok f).
Proof.
  unfold dec_datagram. eapply safe_bind; [apply safe_sized|cbv beta; intros n Hn].
  eapply safe_bind; [by apply safe_bytes|cbv beta; intros s [_ Hs]]. by apply safe_ret.
Qed.

(** The fields of the remaining frames. *)
Ltac safe_fields :=
  repeat match goal with
  | |- safe (rd_varint ≫= _) _ => eapply safe_bind; [apply safe_varint|cbv beta; intros ? ?]
  | |- safe (rd_cid ≫= _) _ => eapply safe_bind; [apply safe_cid|cbv beta; intros ? [? ?]]
  | |- safe (rd_role ≫= _) _ => eapply safe_bind; [apply safe_role|cbv beta; intros ? _]
  | |- safe (refuse _ _ ≫= _) _ => eapply safe_bind; [apply safe_refuse|cbv beta; intros [] ?]; cbv beta in *; bools
  | |- safe (mret _) _ => apply safe_ret; split; [simpl; lia | done]
  end.

Lemma dec_path_status_safe : safe dec_path_status (fun f => frame_ok f /\ normalize f = f /\ payload_ok f).
Proof.
  unfold dec_path_status. safe_fields.
  eapply (safe_bind _ _ (fun _ => True)); [|intros ? _; safe_fields].
  apply safe_lift; [|done]. unfold decode_status. by repeat case_match.
Qed.

Lemma dec_close_safe : safe dec_close (fun f => frame_ok f /\ normalize f = f /\ payload_ok f).
Proof.
  unfold dec_close. safe_fields. eapply safe_bind; [apply safe_usize; lia|cbv beta; intros n Hn].
  eapply safe_bind; [by apply safe_bytes|cbv beta; intros ? _]. safe_fields.
Qed.

Lemma dec_body_safe typ : safe (dec_body typ) (fun f => frame_ok f /\ normalize f = f /\ payload_ok f).
Proof.
  unfold dec_body.
  repeat (apply safe_if; intros _); auto using dec_ack_safe, dec_datagram_safe, dec_stream_safe,
    dec_path_status_safe, dec_close_safe;
    unfold dec_ack_frequency, dec_path_join, dec_path_join_ack, dec_path_token; safe_fields;
    try by apply safe_ret.
  - by destruct (typ =? FRAME_PATH_CHALLENGE); apply safe_ret; split; simpl; try lia.
  - by apply safe_lift.
Qed.

Lemma decode_frame_safe input :
  bytes_ok input ->
  match decode_frame input with
  | Ok (f, used) => 0 < used <= zlen input /\ frame_ok f /\ normalize f = f /\ payload_ok f
  | Err _ => True
  | Panic => False
  end.
Proof.
  intros Hok. unfold decode_frame, run_reader, mbind, reader_bind, rd_varint.
  pose proof (get_varint_at_not_Panic input 0 Hok ltac:(zlia)).
  destruct (get_varint_at input 0) as [[typ p]| |] eqn:He; [|done..].
  apply get_varint_at_Ok in He as (_ & Hp & Hle); [|done].
  pose proof (dec_body_safe typ input p Hok ltac:(lia)) as Hb.
  destruct (dec_body typ input p) as [[f used]| |]; [|done..].
  destruct Hb as (? & ? & ?). split; [lia|done].
Qed.

(** ** Walking the frames of a packet *)

(** The payload [s] is exactly the frames [l], one after the other. *)
Inductive frames_of : bytes -> list Frame -> Prop :=
  | frames_of_nil : frames_of [] []
  | frames_of_cons s f used l :
      decode_frame s = Ok (f, used) -> frames_of (drop (Z.to_nat used) s) l ->
      frames_of s (f :: l).

Lemma frames_of_nil_inv l : frames_of [] l -> l = [].
Proof. by inversion 1. Qed.

Lemma frames_of_step s f used l :
  decode_frame s = Ok (f, used) -> frames_of s l <->
  exists l', l = f :: l' /\ frames_of (drop (Z.to_nat used) s) l'.
Proof.
  intros Hd. split.
  - inversion 1 as [|? ? ? ? Hd' ?]; subst; [done|]. rewrite Hd in Hd'. simplify_eq. eauto.
  - intros (l' & -> & H). by econstructor.
Qed.

Lemma frames_of_err s l : is_ok (decode_frame s) = false -> s <> [] -> ~ frames_of s l.
Proof. intros He Hs. inversion 1 as [|? ? ? ? Hd]; [done|]. by rewrite Hd in He. Qed.

(** One iteration of either loop: the rest of the packet is empty, undecodable,
    or starts with a frame that makes progress. *)
Lemma packet_step input off :
  bytes_ok input -> 0 <= off <= zlen input ->
  ((zlen input <=? off) = true /\ drop (Z.to_nat off) input = []) \/
  ((zlen input <=? off) = false /\
   slice_from (E:=Error.t) input off = Ok (drop (Z.to_nat off) input) /\
   drop (Z.to_nat off) input <> [] /\
   ((exists e, decode_frame (drop (Z.to_nat off) input) = Err e) \/
    exists f used, decode_frame (drop (Z.to_nat off) input) = Ok (f, used) /\
      0 < used /\ off + used <= zlen input /\
      drop (Z.to_nat used) (drop (Z.to_nat off) input) = drop (Z.to_nat (off + used)) input)).
Proof.
  intros Hok Hoff. destruct (Z.leb_spec (zlen input) off) as [Hle|Hlt].
  - left. split; [done|]. apply drop_ge. unfold zlen in *. lia.
  - right. split; [done|]. split; [apply slice_from_Ok; split; [lia|done]|]. split.
    { intros H%(f_equal zlen). rewrite zlen_drop, zlen_nil in H by lia. lia. }
    pose proof (decode_frame_safe _ (bytes_ok_drop (Z.to_nat off) _ Hok)) as Hs.
    destruct (decode_frame _) as [[f used]|e|]; [right|left; eauto|done].
    destruct Hs as (Hu & _). rewrite zlen_drop in Hu by lia. exists f, used.
    split; [done|]. split; [lia|]. split; [lia|]. rewrite drop_drop. f_equal. lia.
Qed.

Lemma path_control_loop_other fuel input off r :
  bytes_ok input -> 0 <= off <= zlen input ->
  path_control_loop fuel input off None true = Ok r -> r = None.
Proof.
  intros Hok. revert off. induction fuel as [|fuel IH]; intros off Hoff; simpl; [by intros [= <-]|].
  destruct (packet_step input off Hok Hoff)
    as [[-> _]|(-> & -> & _ & [[e He]|(f & used & Hd & Hu & Hle & _)])]; simpl;
    [by intros [= <-]|rewrite He; by intros [= <-]|].
  rewrite Hd, (proj2 (Z.eqb_neq used 0)) by lia.
  destruct (is_path_control f); [done|]. apply IH. lia.
Qed.

Lemma path_control_loop_some fuel input off g f :
  bytes_ok input -> 0 <= off <= zlen input -> zlen input - off < Z.of_nat fuel ->
  path_control_loop fuel input off (Some g) false = Ok (Some f) <->
  g = f /\ exists l, frames_of (drop (Z.to_nat off) input) l /\ Forall (fun x => x = Padding) l.
Proof.
  intros Hok. revert off. induction fuel as [|fuel IH]; intros off Hoff Hfuel; simpl; [lia|].
  destruct (packet_step input off Hok Hoff)
    as [[-> Hnil]|(-> & -> & Hne & [[e He]|(h & used & Hd & Hu & Hle & Hdr)])]; simpl.
  - rewrite Hnil. split; [intros [= ->]; eauto using frames_of_nil|by intros [-> _]].
  - rewrite He. split; [done|]. intros (_ & l & Hl & _).
    by apply frames_of_err in Hl; [|rewrite He|].
  - rewrite Hd, (proj2 (Z.eqb_neq used 0)) by lia.
    setoid_rewrite (frames_of_step _ _ _ _ Hd). rewrite Hdr.
    destruct (is_path_control h) eqn:Hpc.
    + simpl. split; [done|]. intros (_ & l & (l' & -> & _) & [-> _]%Forall_cons). done.
    + destruct (is_padding h) eqn:Hpad; simpl.
      * rewrite IH by lia. destruct h; try done. split.
        -- intros (-> & l & Hl & Hf). split; [done|]. exists (Padding :: l). split; eauto.
        -- intros (-> & l & (l' & -> & Hl) & [_ Hf]%Forall_cons). eauto.
      * split; [done|]. intros (_ & l & (l' & -> & _) & [-> _]%Forall_cons). done.
Qed.

Lemma path_control_loop_none fuel input off f :
  bytes_ok input -> 0 <= off <= zlen input -> zlen input - off < Z.of_nat fuel ->
  path_control_loop fuel input off None false = Ok (Some f) <->
  is_path_control f = true /\
  exists l, frames_of (drop (Z.to_nat off) input) (f :: l) /\ Forall (fun x => x = Padding) l.
Proof.
  intros Hok Hoff Hfuel. destruct fuel as [|fuel]; [lia|]. simpl.
  destruct (packet_step input off Hok Hoff)
    as [[-> Hnil]|(-> & -> & Hne & [[e He]|(h & used & Hd & Hu & Hle & Hdr)])]; simpl.
  - rewrite Hnil. split; [done|]. by intros (_ & l & ?%frames_of_nil_inv & _).
  - rewrite He. split; [done|]. intros (_ & l & Hl & _).
    by apply frames_of_err in Hl; [|rewrite He|].
  - rewrite Hd, (proj2 (Z.eqb_neq used 0)) by lia.
    setoid_rewrite (frames_of_step _ _ _ _ Hd). rewrite Hdr.
    destruct (is_path_control h) eqn:Hpc; simpl.
    + rewrite path_control_loop_some by (done || lia). split.
      * intros (-> & l & Hl & Hf). split; [done|]. eauto.
      * intros (_ & l & (l' & [= -> ->] & Hl) & Hf). eauto.
    + split; [intros H%path_control_loop_other; [done..|lia]|].
      intros (Hf & l & (l' & [= -> ->] & _) & _). congruence.
Qed.

Lemma path_control_loop_not_Panic fuel input off pc other :
  bytes_ok input -> 0 <= off <= zlen input ->
  path_control_loop fuel input off pc other <> Panic.
Proof.
  intros Hok. revert off pc other.
  induction fuel as [|fuel IH]; intros off pc other Hoff; simpl; [done|].
  destruct (packet_step input off Hok Hoff)
    as [[-> Hnil]|(-> & -> & Hne & [[e He]|(h & used & Hd & Hu & Hle & Hdr)])]; simpl.
  - done.
  - by rewrite He.
  - rewrite Hd, (proj2 (Z.eqb_neq used 0)) by lia.
    repeat case_match; try done; apply IH; lia.
Qed.

Lemma control_only_loop_spec fuel input off b :
  bytes_ok input -> 0 <= off <= zlen input -> zlen input - off < Z.of_nat fuel ->
  control_only_loop fuel input off b = true <->
  exists l, frames_of (drop (Z.to_nat off) input) l /\
    Forall (fun x => priority_class x <> None) l /\
    (b = true \/ Exists (fun x => priority_class x = Some true) l).
Proof.
  intros Hok. revert off b. induction fuel as [|fuel IH]; intros off b Hoff Hfuel; simpl; [lia|].
  destruct (packet_step input off Hok Hoff)
    as [[-> Hnil]|(-> & -> & Hne & [[e He]|(h & used & Hd & Hu & Hle & Hdr)])]; simpl.
  - rewrite Hnil. split; [intros ->; exists []; repeat constructor|].
    intros (l & ->%frames_of_nil_inv & _ & [?|?%Exists_nil]); done.
  - rewrite He. split; [done|]. intros (l & Hl & _).
    by apply frames_of_err in Hl; [|rewrite He|].
  - rewrite Hd, (proj2 (Z.eqb_neq used 0)) by lia.
    setoid_rewrite (frames_of_step _ _ _ _ Hd). rewrite Hdr.
    destruct (priority_class h) as [c|] eqn:Hc.
    + rewrite IH by lia. setoid_rewrite orb_true_iff. split.
      * intros (l & Hl & Hf & Hb). exists (h :: l). split; [eauto|].
        rewrite Forall_cons, Exists_cons, Hc. split; [done|]. destruct Hb as [[?| ->]|?]; auto.
      * intros (l & (l' & -> & Hl) & [_ Hf]%Forall_cons & Hb). exists l'. split; [done|].
        split; [done|]. rewrite Exists_cons, Hc in Hb. destruct Hb as [?|[[= ->]|?]]; auto.
    + split; [done|]. intros (l & (l' & -> & _) & [Hx _]%Forall_cons & _). done.
Qed.

(** ** Properties *)

(** C38: every well-formed frame survives the wire: decoding its encoding returns
    the frame, or for a range set of a single number the plain ACK of that number,
    and consumes exactly the encoding; whatever bytes follow, except for a DATAGRAM
    without length, which must be the last frame of its packet. *)
Theorem frame_roundtrip f cap bs rest :
  frame_ok f -> self_delimiting f || bool_decide (rest = []) = true ->
  zlen (bs ++ rest) <= U64_MAX -> encode f cap = Ok bs ->
  decode_frame (bs ++ rest) = Ok (normalize f, zlen bs).
Proof.
  intros Hok Hd Hsz He. unfold decode_frame, run_reader.
  apply orb_true_iff in Hd as [Hd| ->%bool_decide_eq_true].
  - exact (encode_reads f Hok Hd _ _ _ 0 rest He Hsz (at_cursor_start _)).
  - rewrite app_nil_r in *. exact (encode_reads_last f Hok _ _ _ 0 He Hsz (at_cursor_start _)).
Qed.

Lemma frame_roundtrip_witness :
  exists bs, encode (AckRangesF 31 7 [mkAckRange 30 31; mkAckRange 20 22]) 64 = Ok bs /\
    decode_frame (bs ++ [1]) =
      Ok (AckRangesF 31 7 [mkAckRange 30 31; mkAckRange 20 22], zlen bs).
Proof.
  eexists. split; [vm_compute; reflexivity|].
  apply (frame_roundtrip (AckRangesF 31 7 [mkAckRange 30 31; mkAckRange 20 22]) 64 _ [1]);
    [|reflexivity|vm_compute; discriminate|vm_compute; reflexivity].
  split; [|split; [vm_compute; discriminate|split; [lia|by eexists _, _]]].
  repeat (apply wf_cons; split; [vm_compute; repeat split; discriminate|
      split; [repeat constructor|]]); done.
Defined.

(** Whatever bytes arrive, the frame decoder does not panic; when it
    accepts, it consumed at least one byte and at most the packet (so every
    packet loop terminates), and the frame is well formed: an ACK's ranges are
    sorted, disjoint, at most 32 and led by the largest number, path
    transactions and tokens are non-zero, identifiers are in range. *)
Theorem decode_frame_total input :
  bytes_ok input ->
  decode_frame input <> Panic /\
  (forall f used, decode_frame input = Ok (f, used) ->
     0 < used <= zlen input /\ frame_ok f /\ normalize f = f /\ payload_ok f).
Proof.
  intros Hok. pose proof (decode_frame_safe input Hok) as H.
  destruct (decode_frame input) as [[f used]| |]; [|done..].
  split; [done|]. by intros ? ? [= <- <-].
Qed.

Lemma decode_frame_total_witness :
  bytes_ok [2; 31; 7; 0; 1] /\
  (forall f used, decode_frame [2; 31; 7; 0; 1] = Ok (f, used) ->
     0 < used <= 5 /\ frame_ok f /\ normalize f = f /\ payload_ok f).
Proof.
  assert (H : bytes_ok [2; 31; 7; 0; 1]) by (repeat constructor; vm_compute; discriminate).
  split; [exact H|]. apply (decode_frame_total [2; 31; 7; 0; 1] H).
Defined.

Section classifier_properties.
Context {F : Features}.

Lemma short_decode_Ok input h n :
  bytes_ok input -> short_decode input = Ok (h, n) -> 0 <= n <= zlen input.
Proof.
  intros Hok (p & Hp & [= _ <-])%bind_Ok.
  destruct (decode_prefix_Ok _ _ Hok Hp) as (b0 & cid & pnb & body & -> & _ & _ & _ & _ & _ & ->).
  simpl. zlia.
Qed.

(** A packet is taken as path control exactly when its frames are one
    path-control frame followed only by padding; anything mixed is refused or
    left to the ordinary receive path, and no input panics. *)
Theorem path_control_exact input h n f :
  bytes_ok input -> is_long input = false -> short_decode input = Ok (h, n) ->
  decode_path_control_packet input <> Panic /\
  (decode_path_control_packet input = Ok (Some f) <->
   is_path_control f = true /\
   exists l, frames_of (drop (Z.to_nat n) input) (f :: l) /\ Forall (fun x => x = Padding) l).
Proof.
  intros Hok Hl Hd. pose proof (short_decode_Ok _ _ _ Hok Hd).
  unfold decode_path_control_packet. rewrite Hl, Hd. cbn [mbind outcome_bind]. split.
  - by apply path_control_loop_not_Panic.
  - apply path_control_loop_none; [done..|unfold zlen in *; lia].
Qed.

(** The pacing exemption is exact: a packet counts as control-only when
    all its frames are control, padding or ping and at least one is control;
    any STREAM or DATAGRAM frame, or an undecodable byte, disqualifies it. *)
Theorem control_only_exact input h n :
  bytes_ok input -> short_decode input = Ok (h, n) ->
  is_control_only_packet input = true <->
  exists l, frames_of (drop (Z.to_nat n) input) l /\
    Forall (fun x => priority_class x <> None) l /\
    Exists (fun x => priority_class x = Some true) l.
Proof.
  intros Hok Hd. pose proof (short_decode_Ok _ _ _ Hok Hd).
  unfold is_control_only_packet. rewrite Hd. destruct (Z.eqb_spec n (zlen input)) as [->|Hn].
  - rewrite drop_ge by (unfold zlen; lia). split; [done|].
    by intros (l & ->%frames_of_nil_inv & _ & ?%Exists_nil).
  - rewrite control_only_loop_spec by (done || (unfold zlen in *; lia)). split.
    + intros (l & ? & ? & [?|?]); [done|eauto].
    + intros (l & ? & ? & ?). eauto.
Qed.
End classifier_properties.

#[local] Instance no_protection : Features := {| packet_protection := false |}.

Lemma path_control_exact_witness :
  decode_path_control_packet [0x40; 7; 5; 0x40; 0x42; 9; 0; 0] <> Panic /\
  (decode_path_control_packet [0x40; 7; 5; 0x40; 0x42; 9; 0; 0] = Ok (Some (PathChallenge 9)) <->
   is_path_control (PathChallenge 9) = true /\
   exists l, frames_of [0x40; 0x42; 9; 0; 0] (PathChallenge 9 :: l)
     /\ Forall (fun x => x = Padding) l).
Proof.
  apply (path_control_exact [0x40; 7; 5; 0x40; 0x42; 9; 0; 0] (mkShortHeader 0x40 7 5 1) 3
           (PathChallenge 9));
    [repeat constructor; vm_compute; discriminate|reflexivity|reflexivity].
Defined.

Lemma control_only_exact_witness :
  is_control_only_packet [0x40; 7; 5; 0x10; 9; 0] = true <->
  exists l, frames_of [0x10; 9; 0] l /\
    Forall (fun x => priority_class x <> None) l /\
    Exists (fun x => priority_class x = Some true) l.
Proof.
  apply (control_only_exact [0x40; 7; 5; 0x10; 9; 0] (mkShortHeader 0x40 7 5 1) 3);
    [repeat constructor; vm_compute; discriminate|reflexivity].
Defined.
