(* ===== verification/Keyed.v ===== *)
(** * Vectors of keyed records

    Several components keep a [Vec] of records found by an identifier:
    [iter().position(|x| x.id == id)], an update of the found element,
    [remove(index)] and [push].  This file gives the search, the sum of a field
    over such a vector, and how the updates act on both. *)

From S2P Require Import Prelude.

Section keyed.
Context {A : Type} (key : A -> Z).

(** [v.iter().position(|x| x.id == id)] *)
Fixpoint position (id : Z) (l : list A) : option nat :=
  match l with
  | [] => None
  | x :: l' => if key x =? id then Some O else S <$> position id l'
  end.

(** [v.iter().find(|x| x.id == id)] *)
Definition find_key (id : Z) (l : list A) : option A :=
  match position id l with Some i => l !! i | None => None end.

Lemma position_Some id l i :
  position id l = Some i ->
  exists x, l !! i = Some x /\ key x = id /\ find_key id l = Some x.
Proof.
  unfold find_key. revert i. induction l as [|x l IH]; intros i; simpl; [done|].
  destruct (Z.eqb_spec (key x) id) as [<-|Hne]; [intros [= <-]; eauto|].
  destruct (position id l) as [j|]; [|done]. intros [= <-]. simpl.
  destruct (IH j eq_refl) as (y & ? & ? & ?). eauto.
Qed.

Lemma position_None id l : position id l = None <-> forall x, x ∈ l -> key x <> id.
Proof.
  induction l as [|x l IH]; simpl; [split; [by intros _ ? ?%not_elem_of_nil|done]|].
  destruct (Z.eqb_spec (key x) id) as [He|Hne].
  - split; [done|]. intros H. by destruct (H x ltac:(left)).
  - rewrite fmap_None, IH. setoid_rewrite elem_of_cons. split.
    + intros H y [->|Hy]; auto.
    + auto.
Qed.

Lemma find_key_Some id l x : find_key id l = Some x -> x ∈ l /\ key x = id.
Proof.
  unfold find_key. destruct (position id l) as [i|] eqn:Hp; [|done]. intros Hi.
  apply position_Some in Hp as (y & Hy & Hk & _). rewrite Hy in Hi. injection Hi as ->.
  split; [by eapply list_elem_of_lookup_2|done].
Qed.

Lemma find_key_None id l : find_key id l = None <-> position id l = None.
Proof.
  unfold find_key. split; [|by intros ->]. destruct (position id l) as [i|] eqn:Hp; [|done].
  apply position_Some in Hp as (y & Hy & _). congruence.
Qed.

(** Distinct identifiers make the search exact. *)
Definition keys_distinct (l : list A) : Prop := NoDup (key <$> l).

Lemma find_key_elem l x : keys_distinct l -> x ∈ l -> find_key (key x) l = Some x.
Proof.
  unfold keys_distinct, find_key. induction l as [|y l IH]; intros Hnd Hx; [by apply not_elem_of_nil in Hx|].
  apply NoDup_cons in Hnd as [Hy Hnd]. simpl. destruct (Z.eqb_spec (key y) (key x)) as [He|Hne].
  - apply elem_of_cons in Hx as [->|Hx]; [done|]. exfalso. apply Hy. rewrite He.
    by apply list_elem_of_fmap_2.
  - apply elem_of_cons in Hx as [->|Hx]; [done|]. specialize (IH Hnd Hx).
    by destruct (position (key x) l).
Qed.

Lemma keys_distinct_alter f i l :
  (forall x, key (f x) = key x) -> keys_distinct l -> keys_distinct (alter f i l).
Proof.
  intros Hf. unfold keys_distinct.
  cut (key <$> alter f i l = key <$> l); [by intros ->|].
  revert i. induction l as [|x l IH]; intros [|i]; csimpl; by rewrite ?Hf, ?IH.
Qed.

Lemma keys_distinct_delete i l : keys_distinct l -> keys_distinct (delete i l).
Proof.
  unfold keys_distinct. rewrite list_fmap_delete. intros H.
  eapply sublist_NoDup; [exact H|apply sublist_delete].
Qed.

Lemma keys_distinct_snoc l x :
  keys_distinct l -> position (key x) l = None -> keys_distinct (l ++ [x]).
Proof.
  unfold keys_distinct. intros H Hp. rewrite fmap_app. apply NoDup_app. split; [done|].
  split; [|by apply NoDup_singleton]. intros k (y & -> & Hy)%list_elem_of_fmap_1 Hk.
  apply list_elem_of_singleton in Hk. rewrite position_None in Hp. by apply (Hp y).
Qed.

Lemma position_snoc l x :
  position (key x) l = None -> position (key x) (l ++ [x]) = Some (length l).
Proof.
  induction l as [|y l IH]; simpl; [by rewrite Z.eqb_refl|].
  destruct (Z.eqb_spec (key y) (key x)); [done|]. intros H%fmap_None. by rewrite IH.
Qed.

Lemma keys_distinct_insert i l x y :
  l !! i = Some x -> key y = key x -> keys_distinct l -> keys_distinct (<[i := y]> l).
Proof.
  intros Hi Hk Hd. unfold keys_distinct. rewrite list_fmap_insert, Hk.
  by rewrite list_insert_id by (by rewrite list_lookup_fmap, Hi).
Qed.

Lemma find_key_insert_other i l x y id :
  l !! i = Some x -> key y = key x -> key x <> id ->
  find_key id (<[i := y]> l) = find_key id l.
Proof.
  unfold find_key. revert i. induction l as [|z l IH]; intros [|i] Hi Hk Hne; simplify_eq/=.
  - rewrite Hk, (proj2 (Z.eqb_neq _ _)) by done. by destruct (position id l).
  - destruct (key z =? id); [done|]. specialize (IH i Hi Hk Hne).
    destruct (position id (<[i:=y]> l)), (position id l); simpl in *; done.
Qed.

Lemma find_key_insert_eq i l x y :
  keys_distinct l -> l !! i = Some x -> key y = key x -> find_key (key x) (<[i := y]> l) = Some y.
Proof.
  intros Hd Hi Hk. rewrite <- Hk. apply find_key_elem; [by eapply keys_distinct_insert|].
  apply list_elem_of_lookup_2 with i. apply list_lookup_insert_eq. by eapply lookup_lt_Some.
Qed.

Lemma find_key_snoc_other l y id : key y <> id -> find_key id (l ++ [y]) = find_key id l.
Proof.
  intros Hne. unfold find_key. induction l as [|z l IH]; simpl.
  - by rewrite (proj2 (Z.eqb_neq _ _)).
  - destruct (key z =? id); [done|]. destruct (position id (l ++ [y])), (position id l); done.
Qed.

Lemma find_key_delete_other i l x id :
  l !! i = Some x -> key x <> id -> find_key id (delete i l) = find_key id l.
Proof.
  unfold find_key. revert i. induction l as [|z l IH]; intros [|i] Hi Hne; simplify_eq/=.
  - rewrite (proj2 (Z.eqb_neq _ _)) by done. by destruct (position id l).
  - destruct (key z =? id); [done|]. specialize (IH i Hi Hne).
    destruct (position id (delete i l)), (position id l); simpl in *; done.
Qed.

Lemma keys_distinct_delete_key i l x y :
  keys_distinct l -> l !! i = Some x -> y ∈ delete i l -> key y <> key x.
Proof.
  intros Hd Hi Hy Hk. unfold keys_distinct in Hd.
  rewrite (delete_Permutation l i x Hi) in Hd. apply NoDup_cons in Hd as [Hn _].
  apply Hn. rewrite <- Hk. by apply list_elem_of_fmap_2.
Qed.

(** ** Sums of a field *)
Context (w : A -> Z).

Fixpoint zsum (l : list A) : Z :=
  match l with
  | [] => 0
  | x :: l' => w x + zsum l'
  end.

Lemma zsum_app l k : zsum (l ++ k) = zsum l + zsum k.
Proof. induction l; simpl; lia. Qed.
Lemma zsum_mid l x k : zsum (l ++ x :: k) = zsum l + w x + zsum k.
Proof. rewrite zsum_app. cbn. lia. Qed.

Lemma zsum_alter f i l x : l !! i = Some x -> zsum (alter f i l) = zsum l - w x + w (f x).
Proof.
  revert i. induction l as [|y l IH]; intros [|i]; intros H; simplify_eq/=; [lia|].
  rewrite (IH i H). lia.
Qed.

Lemma zsum_insert i l x y : l !! i = Some x -> zsum (<[i := y]> l) = zsum l - w x + w y.
Proof. intros H. by rewrite list_insert_alter, (zsum_alter _ _ _ _ H). Qed.

Lemma zsum_delete i l x : l !! i = Some x -> zsum (delete i l) = zsum l - w x.
Proof.
  revert i. induction l as [|y l IH]; intros [|i]; intros H; simplify_eq/=; [lia|].
  rewrite (IH i H). lia.
Qed.

Lemma zsum_nonneg l : Forall (fun x => 0 <= w x) l -> 0 <= zsum l.
Proof. induction 1; simpl; lia. Qed.

Lemma zsum_lookup_le i l x : Forall (fun x => 0 <= w x) l -> l !! i = Some x -> w x <= zsum l.
Proof.
  intros Hall. revert i. induction Hall as [|y l Hy Hl IH]; intros [|i] H; simplify_eq/=.
  - pose proof (zsum_nonneg l Hl). lia.
  - specialize (IH i H). lia.
Qed.
End keyed.

Lemma lookup_alter_other {A} (f : A -> A) i j (l : list A) x :
  alter f i l !! j = Some x -> (i = j /\ exists y, l !! j = Some y /\ x = f y) \/
                               (i <> j /\ l !! j = Some x).
Proof.
  destruct (decide (i = j)) as [->|Hne].
  - rewrite list_lookup_alter_eq. intros (y & ? & ?)%fmap_Some. left. eauto.
  - rewrite list_lookup_alter_ne by done. auto.
Qed.

(** What an update of one element does to a selection of a list. *)
Lemma omap_insert {A B} (f : A -> option B) l i x :
  l !! i = Some x -> exists R,
  omap f l ≡ₚ option_list (f x) ++ R /\ forall y, omap f (<[i:=y]> l) ≡ₚ option_list (f y) ++ R.
Proof.
  intros Hx. exists (omap f (take i l) ++ omap f (drop (S i) l)).
  assert (forall y l k, omap f (l ++ y :: k) ≡ₚ option_list (f y) ++ omap f l ++ omap f k) as Hmid.
  { intros y l1 k. rewrite omap_app, (app_assoc (option_list _)), (Permutation_app_comm (option_list _)), <- app_assoc.
    f_equiv. cbn. by destruct (f y). }
  split; [rewrite <- (take_drop_middle l i x Hx) at 1; apply Hmid|intros y].
  rewrite insert_take_drop by (by eapply lookup_lt_Some). apply Hmid.
Qed.
