(* ===== verification/FlowControl.v ===== *)
(** * Flow control

    Receive credit ([FlowControl], [StreamState], [ConnectionState],
    [ConnectionLimits]) and send credit ([SendFlowControl]) of
    [src/crates/quic-lite/src/lib.rs].  Operations that can fail after changing
    state return the result together with the state they leave behind.  The
    theorems are invariants over every sequence of operations, failures included
    (no sender exceeds the credit its peer granted, no receiver accepts more than
    it granted), the exact effect of accepting data, and the exactness of the
    compacted set of retired streams. *)

From S2P Require Import Prelude Wire Keyed.

(** [Vec::try_reserve(1)] on a vector of the given length: whether the
    allocator can grow it. *)
Class Allocator : Type := { try_reserve : nat -> bool }.

(** ** Connection-wide receive credit *)
Record FlowControl : Type := mkFlowControl { fc_max_data : Z; fc_consumed : Z }.

Module Flow.
Definition new (max_data : Z) : FlowControl := mkFlowControl max_data 0.
Definition can_receive (f : FlowControl) (end_ : Z) : bool := end_ <=? fc_max_data f.
Definition consume (f : FlowControl) (n : Z) : FlowControl :=
  mkFlowControl (fc_max_data f) (sat_add (fc_consumed f) n).
Definition extend (f : FlowControl) (credit : Z) : FlowControl :=
  mkFlowControl (Z.max (fc_max_data f) (sat_add (fc_consumed f) credit)) (fc_consumed f).
End Flow.

(** ** Send credit *)
Record SendStreamCredit : Type := mkSendStreamCredit {
  sc_id : Z;
  sc_max_data : Z;
  sc_sent : Z;
  sc_finished : bool;
}.

Record SendFlowControl : Type := mkSendFlowControl {
  s_max_data : Z;
  initial_stream_max_data : Z;
  sent_data : Z;
  s_streams : list SendStreamCredit;
}.

Module Send.
Section send.
Context {A : Allocator}.

Definition new (max_data max_stream_data : Z) : SendFlowControl :=
  mkSendFlowControl max_data max_stream_data 0 [].

Definition with_streams (s : SendFlowControl) (l : list SendStreamCredit) : SendFlowControl :=
  mkSendFlowControl (s_max_data s) (initial_stream_max_data s) (sent_data s) l.

Definition open_stream (s : SendFlowControl) (id max_data : Z) : res SendFlowControl :=
  match position sc_id id (s_streams s) with
  | Some _ => Ok s
  | None =>
      if negb (try_reserve (length (s_streams s))) then Err Error.StreamLimit else
      Ok (with_streams s (s_streams s ++
            [mkSendStreamCredit id (Z.min max_data (initial_stream_max_data s)) 0 false]))
  end.

Definition set_initial_limits (s : SendFlowControl) (max_data max_stream_data : Z)
    : res SendFlowControl :=
  if (max_data =? 0) || (max_stream_data =? 0) || negb (sent_data s =? 0)
     || negb (bool_decide (s_streams s = []))
  then Err Error.FlowControl
  else Ok (mkSendFlowControl max_data max_stream_data (sent_data s) (s_streams s)).

Definition stream (s : SendFlowControl) (id : Z) : option SendStreamCredit :=
  find_key sc_id id (s_streams s).

Definition can_send (s : SendFlowControl) (id offset len : Z) : bool :=
  match stream s id with
  | None => false
  | Some st =>
      let end_ := sat_add offset len in
      let new_bytes := sat_sub end_ (sc_sent st) in
      (end_ <=? sc_max_data st) && (sat_add (sent_data s) new_bytes <=? s_max_data s)
  end.

(** The in-place update of the found stream. *)
Definition reserve_stream (end_ : Z) (st : SendStreamCredit) : SendStreamCredit :=
  mkSendStreamCredit (sc_id st) (sc_max_data st) (Z.max (sc_sent st) end_)
    (if negb (sat_sub end_ (sc_sent st) =? 0) then false else sc_finished st).

Definition reserve (s : SendFlowControl) (id offset len : Z) : res SendFlowControl :=
  if negb (can_send s id offset len) then Err Error.FlowControl else
  match position sc_id id (s_streams s) with
  | None => Err Error.Invalid
  | Some i =>
      st ← ok_or (s_streams s !! i) Error.Invalid;
      let end_ := sat_add offset len in
      let new_bytes := sat_sub end_ (sc_sent st) in
      Ok (mkSendFlowControl (s_max_data s) (initial_stream_max_data s)
            (sat_add (sent_data s) new_bytes) (alter (reserve_stream end_) i (s_streams s)))
  end.

Definition extend_connection (s : SendFlowControl) (max_data : Z) : SendFlowControl :=
  mkSendFlowControl (Z.max (s_max_data s) max_data) (initial_stream_max_data s)
    (sent_data s) (s_streams s).

Definition update_stream (s : SendFlowControl) (id : Z) (f : SendStreamCredit -> SendStreamCredit)
    : res SendFlowControl :=
  i ← ok_or (position sc_id id (s_streams s)) Error.Invalid;
  Ok (with_streams s (alter f i (s_streams s))).

Definition extend_stream (s : SendFlowControl) (id max_data : Z) : res SendFlowControl :=
  update_stream s id (fun st =>
    mkSendStreamCredit (sc_id st) (Z.max (sc_max_data st) max_data) (sc_sent st) (sc_finished st)).

Definition finish_stream (s : SendFlowControl) (id : Z) : res SendFlowControl :=
  update_stream s id (fun st => mkSendStreamCredit (sc_id st) (sc_max_data st) (sc_sent st) true).

Definition is_finished (s : SendFlowControl) (id : Z) : bool :=
  match stream s id with Some st => sc_finished st | None => false end.

Definition remove_stream (s : SendFlowControl) (id : Z) : SendFlowControl * bool :=
  match position sc_id id (s_streams s) with
  | None => (s, false)
  | Some i => (with_streams s (delete i (s_streams s)), true)
  end.

Definition available (s : SendFlowControl) (id offset : Z) : option Z :=
  st ← stream s id;
  let connection_end := sat_add (sc_sent st) (sat_sub (s_max_data s) (sent_data s)) in
  Some (sat_sub (Z.min (sc_max_data st) connection_end) offset).
End send.
End Send.

(** ** Receive streams *)
Record StreamState : Type := mkStreamState {
  st_id : Z;
  st_max_data : Z;
  st_received : Z;
  st_consumed : Z;
  st_finished : bool;
}.

Module RecvStream.
Definition new (id max_data : Z) : StreamState := mkStreamState id max_data 0 0 false.

Definition accept (s : StreamState) (offset len : Z) (fin : bool) : res StreamState :=
  end_ ← ok_or (checked_add offset len) Error.FlowControl;
  if end_ >? st_max_data s then Err Error.FlowControl else
  Ok (mkStreamState (st_id s) (st_max_data s) (Z.max (st_received s) end_) (st_consumed s)
        (st_finished s || fin)).

Definition consume (s : StreamState) (n : Z) : StreamState :=
  mkStreamState (st_id s) (st_max_data s) (st_received s)
    (Z.min (st_received s) (sat_add (st_consumed s) n)) (st_finished s).

Definition extend (s : StreamState) (credit : Z) : StreamState :=
  mkStreamState (st_id s) (Z.max (st_max_data s) (sat_add (st_consumed s) credit))
    (st_received s) (st_consumed s) (st_finished s).
End RecvStream.

(** ** Limits *)
Record ConnectionLimits : Type := mkConnectionLimits {
  max_datagram_frame_size : Z;
  l_max_data : Z;
  l_max_stream_data : Z;
  l_max_streams_bidi : Z;
  l_max_streams_uni : Z;
}.

Record ReceiveWindowRequest : Type := mkReceiveWindowRequest {
  rw_max_data : Z;
  rw_max_stream_data : Z;
}.

Definition FIRST_CLIENT_BIDI_STREAM_ID : Z := 4.
Definition DEFAULT_MAX_PACKET_SIZE : Z := 1100.
Definition DEFAULT_MAX_DATAGRAM_FRAME_SIZE : Z := DEFAULT_MAX_PACKET_SIZE - (1 + 8 + 4) - 16.
Definition DEFAULT_MAX_BIDI_STREAMS : Z := 16.
Definition INITIAL_MAX_DATA : Z := 256 * 1024.
Definition INITIAL_MAX_STREAM_DATA : Z := INITIAL_MAX_DATA / 4.

Module Limits.
Definition clamped_to_request (l : ConnectionLimits) (request : option ReceiveWindowRequest)
    : ConnectionLimits :=
  match request with
  | Some r =>
      mkConnectionLimits (max_datagram_frame_size l)
        (if rw_max_data r <? l_max_data l then rw_max_data r else l_max_data l)
        (if rw_max_stream_data r <? l_max_stream_data l then rw_max_stream_data r
         else l_max_stream_data l)
        (l_max_streams_bidi l) (l_max_streams_uni l)
  | None => l
  end.

Definition with_receive_profile (max_data max_stream_data max_streams_bidi : Z)
    : ConnectionLimits :=
  mkConnectionLimits DEFAULT_MAX_DATAGRAM_FRAME_SIZE max_data max_stream_data max_streams_bidi 4.

Definition with_receive_window (window_bytes : Z) : ConnectionLimits :=
  let packet_floor :=
    if window_bytes <? DEFAULT_MAX_PACKET_SIZE then window_bytes else DEFAULT_MAX_PACKET_SIZE in
  let quarter := window_bytes / 4 in
  let stream_window := if quarter >? packet_floor then quarter else packet_floor in
  with_receive_profile window_bytes stream_window DEFAULT_MAX_BIDI_STREAMS.

Definition default : ConnectionLimits :=
  mkConnectionLimits DEFAULT_MAX_DATAGRAM_FRAME_SIZE INITIAL_MAX_DATA INITIAL_MAX_STREAM_DATA
    DEFAULT_MAX_BIDI_STREAMS 4.
End Limits.

(** ** Connection receive state *)
Record ConnectionState : Type := mkConnectionState {
  role : Role;
  connection : FlowControl;
  limits : ConnectionLimits;
  received_data : Z;
  streams : list StreamState;
  retired_streams : list (Z * Z);
}.

Module Conn.
Section conn.
Context {A : Allocator}.

Definition new (r : Role) (l : ConnectionLimits) : ConnectionState :=
  mkConnectionState r (Flow.new (l_max_data l)) l 0 [] [].

Definition set_streams (c : ConnectionState) (l : list StreamState) : ConnectionState :=
  mkConnectionState (role c) (connection c) (limits c) (received_data c) l (retired_streams c).

Definition set_connection (c : ConnectionState) (f : FlowControl) : ConnectionState :=
  mkConnectionState (role c) f (limits c) (received_data c) (streams c) (retired_streams c).

Definition set_received (c : ConnectionState) (n : Z) : ConnectionState :=
  mkConnectionState (role c) (connection c) (limits c) n (streams c) (retired_streams c).

(** [(id & 1 != 0, id & 2 != 0)]: server-initiated, unidirectional. *)
Definition stream_kind (id : Z) : bool * bool :=
  (negb (Z.land id 1 =? 0), negb (Z.land id 2 =? 0)).

Definition is_server (r : Role) : bool := match r with Server => true | Client => false end.

Definition is_local (c : ConnectionState) (id : Z) : bool :=
  Bool.eqb (stream_kind id).1 (is_server (role c)).

Definition stream_ordinal (id : Z) : Z :=
  if (id >=? FIRST_CLIENT_BIDI_STREAM_ID) && (Z.land id 3 =? 0)
  then (id - FIRST_CLIENT_BIDI_STREAM_ID) / 4
  else id / 4.

Definition find (c : ConnectionState) (id : Z) : option nat := position st_id id (streams c).

Definition insert_stream (c : ConnectionState) (id : Z) : res unit * ConnectionState :=
  if negb (try_reserve (length (streams c))) then (Err Error.StreamLimit, c) else
  (Ok tt, set_streams c (streams c ++ [RecvStream.new id (l_max_stream_data (limits c))])).

Definition open (c : ConnectionState) (id : Z) : res unit * ConnectionState :=
  if negb (is_local c id) then (Err Error.Invalid, c) else
  match find c id with
  | Some _ => (Ok tt, c)
  | None => insert_stream c id
  end.

(** The [let slot = ...] of [accept]. *)
Definition accept_slot (c : ConnectionState) (id end_ : Z) : res nat * ConnectionState :=
  match find c id with
  | Some i => (Ok i, c)
  | None =>
      if is_local c id then (Err Error.Invalid, c) else
      let limit := if (stream_kind id).2 then l_max_streams_uni (limits c)
                   else l_max_streams_bidi (limits c) in
      if stream_ordinal id >=? limit then (Err Error.StreamLimit, c) else
      if negb (Flow.can_receive (connection c) (sat_add (received_data c) end_))
      then (Err Error.FlowControl, c) else
      match insert_stream c id with
      | (Ok _, c') => (ok_or (find c' id) Error.Invalid, c')
      | (Err e, c') => (Err e, c')
      | (Panic, c') => (Panic, c')
      end
  end.

(** The rest of [accept], with the slot known. *)
Definition accept_at (c : ConnectionState) (slot : nat) (end_ offset len : Z) (fin : bool)
    : res unit * ConnectionState :=
  match streams c !! slot with
  | None => (Panic, c)
  | Some st =>
      let delta := sat_sub end_ (st_received st) in
      if negb (Flow.can_receive (connection c) (sat_add (received_data c) delta))
      then (Err Error.FlowControl, c) else
      match RecvStream.accept st offset len fin with
      | Ok st' =>
          (Ok tt, set_received (set_streams c (<[slot := st']> (streams c)))
                    (sat_add (received_data c) delta))
      | Err e => (Err e, c)
      | Panic => (Panic, c)
      end
  end.

Definition accept (c : ConnectionState) (id offset len : Z) (fin : bool)
    : res unit * ConnectionState :=
  match checked_add offset len with
  | None => (Err Error.FlowControl, c)
  | Some end_ =>
      match accept_slot c id end_ with
      | (Ok slot, c') => accept_at c' slot end_ offset len fin
      | (Err e, c') => (Err e, c')
      | (Panic, c') => (Panic, c')
      end
  end.

Definition in_retired (id : Z) (r : Z * Z) : bool :=
  (id >=? r.1) && (id <=? r.2) && ((id - r.1) mod 4 =? 0).

Definition is_retired (c : ConnectionState) (id : Z) : bool :=
  existsb (in_retired id) (retired_streams c).

(** The [while at < retired_streams.len()] loop: mergeable ranges are removed
    and absorbed, the others kept in order. *)
Fixpoint absorb (class first last : Z) (l : list (Z * Z)) : Z * Z * list (Z * Z) :=
  match l with
  | [] => (first, last, [])
  | (range_first, range_last) :: l' =>
      if (Z.land range_first 3 =? class) && (sat_add range_last 4 >=? first)
         && (sat_add last 4 >=? range_first)
      then absorb class (Z.min first range_first) (Z.max last range_last) l'
      else let '(f, la, kept) := absorb class first last l' in
           (f, la, (range_first, range_last) :: kept)
  end.

(** [sort_unstable_by_key(|range| range.0)]. *)
Fixpoint insert_by_first (r : Z * Z) (l : list (Z * Z)) : list (Z * Z) :=
  match l with
  | [] => [r]
  | r' :: l' => if r.1 <=? r'.1 then r :: l else r' :: insert_by_first r l'
  end.
Fixpoint sort_by_first (l : list (Z * Z)) : list (Z * Z) :=
  match l with
  | [] => []
  | r :: l' => insert_by_first r (sort_by_first l')
  end.

Definition retire_stream (c : ConnectionState) (id : Z) : bool * ConnectionState :=
  match find c id with
  | None => (false, c)
  | Some i =>
      let '(first, last, kept) := absorb (Z.land id 3) id id (retired_streams c) in
      (true, mkConnectionState (role c) (connection c) (limits c) (received_data c)
               (delete i (streams c)) (sort_by_first (kept ++ [(first, last)])))
  end.

Definition consume (c : ConnectionState) (id n : Z) : res ConnectionState :=
  i ← ok_or (find c id) Error.Invalid;
  Ok (set_connection (set_streams c (alter (fun s => RecvStream.consume s n) i (streams c)))
        (Flow.consume (connection c) n)).

Definition is_complete (c : ConnectionState) (id : Z) : bool :=
  match find_key st_id id (streams c) with
  | Some s => st_finished s && (st_consumed s =? st_received s)
  | None => false
  end.

Definition is_complete_or_retired (c : ConnectionState) (id : Z) : bool :=
  is_retired c id || is_complete c id.

Definition remove_stream (c : ConnectionState) (id : Z) : bool * ConnectionState :=
  match find c id with
  | None => (false, c)
  | Some i => (true, set_streams c (delete i (streams c)))
  end.

Definition is_peer_initiated (c : ConnectionState) (id : Z) : bool := negb (is_local c id).

Definition stream_max_data (c : ConnectionState) (id : Z) : option Z :=
  st_max_data <$> find_key st_id id (streams c).

Definition extend_connection_credit (c : ConnectionState) (credit : Z) : ConnectionState :=
  set_connection c (Flow.extend (connection c) credit).

Definition extend_stream_credit (c : ConnectionState) (id credit : Z) : res ConnectionState :=
  i ← ok_or (find c id) Error.Invalid;
  Ok (set_streams c (alter (fun s => RecvStream.extend s credit) i (streams c))).

Definition prepare_local_bidi_receive (c : ConnectionState) (id : Z) : res unit * ConnectionState :=
  match find c id with
  | Some _ => (Ok tt, c)
  | None =>
      if negb (is_local c id) || (stream_kind id).2 then (Err Error.Invalid, c)
      else insert_stream c id
  end.
End conn.
End Conn.

(** ** Sequences of send operations *)
Inductive send_op : Type :=
  | SOpen (id max_data : Z)
  | SInit (max_data max_stream_data : Z)
  | SReserve (id offset len : Z)
  | SExtendConnection (max_data : Z)
  | SExtendStream (id max_data : Z)
  | SFinish (id : Z)
  | SRemove (id : Z).

Definition keep {E A} (old : A) (m : outcome E A) : A :=
  match m with Ok a => a | _ => old end.

Section send_runs.
Context {A : Allocator}.

(** The state after an operation; a refused one leaves it unchanged. *)
Definition send_apply (s : SendFlowControl) (op : send_op) : SendFlowControl :=
  match op with
  | SOpen id m => keep s (Send.open_stream s id m)
  | SInit m ms => keep s (Send.set_initial_limits s m ms)
  | SReserve id off len => keep s (Send.reserve s id off len)
  | SExtendConnection m => Send.extend_connection s m
  | SExtendStream id m => keep s (Send.extend_stream s id m)
  | SFinish id => keep s (Send.finish_stream s id)
  | SRemove id => (Send.remove_stream s id).1
  end.

Definition send_op_ok (op : send_op) : Prop :=
  match op with
  | SOpen _ m => is_u64 m
  | SInit m ms => is_u64 m /\ is_u64 ms
  | SReserve _ off len => is_u64 off /\ is_u64 len
  | SExtendConnection m => is_u64 m
  | SExtendStream _ m => is_u64 m
  | SFinish _ | SRemove _ => True
  end.

(** The largest connection credit the peer granted so far. *)
Definition granted (g : Z) (op : send_op) : Z :=
  match op with
  | SExtendConnection m | SInit m _ => Z.max g m
  | _ => g
  end.

Definition send_ok (s : SendFlowControl) : Prop :=
  keys_distinct sc_id (s_streams s) /\
  Forall (fun st => 0 <= sc_sent st <= sc_max_data st) (s_streams s) /\
  0 <= initial_stream_max_data s /\
  0 <= sent_data s <= s_max_data s /\ s_max_data s <= U64_MAX /\
  (s_max_data s < U64_MAX -> zsum sc_sent (s_streams s) <= sent_data s).

Lemma reserve_Ok s id off len s' :
  Send.reserve s id off len = Ok s' ->
  exists i st, position sc_id id (s_streams s) = Some i /\ s_streams s !! i = Some st /\
    Send.stream s id = Some st /\
    sat_add off len <= sc_max_data st /\
    sat_add (sent_data s) (sat_sub (sat_add off len) (sc_sent st)) <= s_max_data s /\
    s' = mkSendFlowControl (s_max_data s) (initial_stream_max_data s)
           (sat_add (sent_data s) (sat_sub (sat_add off len) (sc_sent st)))
           (alter (Send.reserve_stream (sat_add off len)) i (s_streams s)).
Proof.
  unfold Send.reserve. destruct (Send.can_send s id off len) eqn:Hc; [|done]. cbn [negb].
  unfold Send.can_send, Send.stream in *.
  destruct (position sc_id id (s_streams s)) as [i|] eqn:Hp; [|done].
  destruct (position_Some _ _ _ _ Hp) as (st & Hi & Hk & Hf). rewrite Hf in Hc. rewrite Hi.
  intros [= <-]. apply andb_true_iff in Hc as [?%Z.leb_le ?%Z.leb_le]. eauto 10.
Qed.

Lemma reserve_stream_id e st : sc_id (Send.reserve_stream e st) = sc_id st.
Proof. done. Qed.

Lemma send_ok_reserve s id off len s' :
  is_u64 off -> is_u64 len -> send_ok s -> Send.reserve s id off len = Ok s' -> send_ok s'.
Proof.
  intros Hoff Hlen (Hk & Hf & Hi0 & Hs & Hm & Hsum)
    (i & st & _ & Hi & _ & He & Hd & ->)%reserve_Ok.
  assert (Hst : 0 <= sc_sent st <= sc_max_data st) by (by eapply (Forall_lookup_1 _ _ _ _ Hf)).
  unfold send_ok. cbn [s_streams s_max_data sent_data initial_stream_max_data].
  assert (0 <= sat_add off len) by (unfold sat_add; lia).
  split; [by apply keys_distinct_alter|]. split.
  { apply Forall_alter; [done|]. intros x Hx ?. rewrite Hi in Hx. injection Hx as <-.
    simpl. lia. }
  split; [done|]. split; [unfold sat_add, sat_sub in *; lia|]. split; [done|]. intros Hlt.
  rewrite (zsum_alter _ _ _ _ _ Hi). simpl. specialize (Hsum Hlt).
  unfold sat_add, sat_sub in *. lia.
Qed.

Lemma send_ok_update s id f s' :
  (forall st, sc_id (f st) = sc_id st /\ sc_sent (f st) = sc_sent st /\
              sc_max_data st <= sc_max_data (f st)) ->
  send_ok s -> Send.update_stream s id f = Ok s' -> send_ok s' /\ s_max_data s' = s_max_data s.
Proof.
  intros Hfn (Hk & Hf & Hi0 & Hs & Hm & Hsum) (i & Hp%ok_or_Ok & [= <-])%bind_Ok.
  destruct (position_Some _ _ _ _ Hp) as (st & Hi & _). split; [|done].
  unfold send_ok. simpl. split; [apply keys_distinct_alter; [apply Hfn|done]|]. split.
  { apply Forall_alter; [done|]. intros x Hx ?. destruct (Hfn x) as (_ & -> & ?). lia. }
  repeat split; try lia. intros Hlt. rewrite (zsum_alter _ _ _ _ _ Hi).
  destruct (Hfn st) as (_ & -> & _). specialize (Hsum Hlt). lia.
Qed.

(** Every operation keeps the invariant and raises the limit only by a grant. *)
Lemma send_apply_ok s op :
  send_op_ok op -> send_ok s ->
  send_ok (send_apply s op) /\ s_max_data (send_apply s op) <= granted (s_max_data s) op.
Proof.
  intros Hop Hok. pose proof Hok as (Hk & Hf & Hi0 & Hs & Hm & Hsum).
  destruct op as [id m|m ms|id off len|m|id m|id|id]; simpl in *.
  - unfold Send.open_stream. destruct (position sc_id id (s_streams s)) eqn:Hp; [done|].
    destruct (try_reserve _); [|done]. simpl. split; [|lia]. unfold send_ok. simpl.
    split; [by apply keys_distinct_snoc|]. split.
    { apply Forall_app. split; [done|]. repeat constructor; simpl; lia. }
    repeat split; try lia. intros Hlt. rewrite zsum_app. simpl. specialize (Hsum Hlt). lia.
  - unfold Send.set_initial_limits. destruct (_ || _) eqn:Hg; [simpl; split; [done|lia]|].
    apply orb_false_iff in Hg as [Hg Hnil%negb_false_iff%bool_decide_eq_true]. bools.
    simpl. split; [|lia]. unfold send_ok. simpl. rewrite Hnil.
    split; [constructor|]. split; [constructor|].
    repeat split; simpl; lia.
  - destruct (Send.reserve s id off len) as [s'| |] eqn:Hr; [|done..]. simpl.
    destruct Hop. split; [by apply (send_ok_reserve s id off len)|].
    apply reserve_Ok in Hr as (i & st & _ & _ & _ & _ & _ & ->). simpl. lia.
  - split; [|lia]. unfold send_ok. simpl. repeat split; try done; lia.
  - destruct (Send.extend_stream s id m) as [s'| |] eqn:Hr; [|done..]. simpl.
    eapply send_ok_update in Hr as [? ->]; [split; [done|lia]| |done]. intros st. simpl. lia.
  - destruct (Send.finish_stream s id) as [s'| |] eqn:Hr; [|done..]. simpl.
    eapply send_ok_update in Hr as [? ->]; [split; [done|lia]| |done]. intros st. simpl. lia.
  - unfold Send.remove_stream. destruct (position sc_id id (s_streams s)) as [i|] eqn:Hp; [|done].
    destruct (position_Some _ _ _ _ Hp) as (st & Hi & _).
    split; [|simpl; lia]. unfold send_ok. simpl.
    split; [by apply keys_distinct_delete|]. split; [by apply Forall_delete|].
    repeat split; try lia. intros Hlt. rewrite (zsum_delete _ _ _ _ Hi).
    assert (0 <= sc_sent st <= sc_max_data st) by (by eapply (Forall_lookup_1 _ _ _ _ Hf)).
    specialize (Hsum Hlt). lia.
Qed.

Lemma send_runs_ok ops s :
  Forall send_op_ok ops -> send_ok s ->
  send_ok (fold_left send_apply ops s) /\
  forall g, s_max_data s <= g -> s_max_data (fold_left send_apply ops s) <= fold_left granted ops g.
Proof.
  intros Hops. revert s. induction Hops as [|op ops Hop _ IH]; intros s Hs; simpl; [done|].
  destruct (send_apply_ok s op Hop Hs) as [Hok Hg]. destruct (IH _ Hok) as [Hok' Hg'].
  split; [done|]. intros g Hle. apply Hg'. etrans; [exact Hg|]. destruct op; simpl; lia.
Qed.
End send_runs.

(** ** Sequences of receive operations *)
Inductive recv_op : Type :=
  | ROpen (id : Z)
  | RAccept (id offset len : Z) (fin : bool)
  | RConsume (id n : Z)
  | RExtendConnection (credit : Z)
  | RExtendStream (id credit : Z)
  | RRetire (id : Z)
  | RRemove (id : Z)
  | RPrepareLocal (id : Z).

Section recv_runs.
Context {A : Allocator}.

Definition recv_apply (c : ConnectionState) (op : recv_op) : ConnectionState :=
  match op with
  | ROpen id => (Conn.open c id).2
  | RAccept id off len fin => (Conn.accept c id off len fin).2
  | RConsume id n => keep c (Conn.consume c id n)
  | RExtendConnection n => Conn.extend_connection_credit c n
  | RExtendStream id n => keep c (Conn.extend_stream_credit c id n)
  | RRetire id => (Conn.retire_stream c id).2
  | RRemove id => (Conn.remove_stream c id).2
  | RPrepareLocal id => (Conn.prepare_local_bidi_receive c id).2
  end.

Definition recv_op_ok (op : recv_op) : Prop :=
  match op with
  | RAccept _ off len _ => is_u64 off /\ is_u64 len
  | RConsume _ n | RExtendConnection n | RExtendStream _ n => is_u64 n
  | _ => True
  end.

Definition stream_ok (s : StreamState) : Prop :=
  0 <= st_consumed s <= st_received s /\ st_received s <= st_max_data s.

Definition recv_ok (c : ConnectionState) : Prop :=
  keys_distinct st_id (streams c) /\
  Forall stream_ok (streams c) /\
  0 <= l_max_stream_data (limits c) /\
  0 <= fc_consumed (connection c) /\
  0 <= received_data c <= fc_max_data (connection c) /\ fc_max_data (connection c) <= U64_MAX /\
  (fc_max_data (connection c) < U64_MAX -> zsum st_received (streams c) <= received_data c).

Lemma insert_stream_ok c id :
  recv_ok c -> Conn.find c id = None -> recv_ok (Conn.insert_stream c id).2.
Proof.
  intros Hok Hn. pose proof Hok as (Hk & Hf & Hl & Hc & Hr & Hm & Hsum). unfold Conn.insert_stream.
  destruct (try_reserve _); [|done]. unfold recv_ok. simpl.
  split; [by apply keys_distinct_snoc|]. split.
  { apply Forall_app. split; [done|]. repeat constructor; simpl; lia. }
  repeat split; try lia. intros Hlt. rewrite zsum_app. simpl. specialize (Hsum Hlt). lia.
Qed.

(** What [accept_slot] can do: find the stream, insert it last, or refuse. *)
Lemma accept_slot_cases c id end_ r c' :
  Conn.accept_slot c id end_ = (r, c') ->
  (c' = c /\ exists i st, r = Ok i /\ Conn.find c id = Some i /\ streams c !! i = Some st) \/
  (c' = c /\ Conn.find c id = None /\ exists e, r = Err e) \/
  (Conn.find c id = None /\ Conn.is_local c id = false /\
   sat_add (received_data c) end_ <= fc_max_data (connection c) /\
   r = Ok (length (streams c)) /\ c' = (Conn.insert_stream c id).2 /\
   streams c' = streams c ++ [RecvStream.new id (l_max_stream_data (limits c))]).
Proof.
  unfold Conn.accept_slot, Conn.insert_stream.
  destruct (Conn.find c id) as [i|] eqn:Hfi.
  { intros [= <- <-]. destruct (position_Some _ _ _ _ Hfi) as (st & ? & _). left. eauto 10. }
  assert (Herr : forall e, (Err e, c) = (r, c') ->
    c' = c /\ None (A:=nat) = None /\ exists e', r = Err e').
  { intros e [= <- <-]. eauto. }
  destruct (Conn.is_local c id) eqn:Hl; [by intros H%Herr; right; left|]. cbv zeta.
  destruct (_ >=? _); [by intros H%Herr; right; left|].
  destruct (Flow.can_receive _ _) eqn:Hcr; simpl; [|by intros H%Herr; right; left].
  destruct (try_reserve _); simpl; [|by intros H%Herr; right; left].
  unfold Conn.find. simpl. unfold Conn.find in Hfi.
  rewrite (position_snoc st_id (streams c) (RecvStream.new id _)) by done.
  intros [= <- <-]. right. right. unfold Flow.can_receive in Hcr. apply Z.leb_le in Hcr.
  repeat split; done.
Qed.

Lemma accept_at_ok c slot end_ off len fin :
  is_u64 off -> is_u64 len -> checked_add off len = Some end_ -> recv_ok c ->
  recv_ok (Conn.accept_at c slot end_ off len fin).2.
Proof.
  intros Hoff Hlen Hend Hok. pose proof Hok as (Hk & Hf & Hl & Hc & Hr & Hm & Hsum).
  unfold Conn.accept_at. destruct (streams c !! slot) as [st|] eqn:Hs; [|done].
  assert (Hst : stream_ok st) by (by eapply (Forall_lookup_1 _ _ _ _ Hf)). unfold stream_ok in Hst.
  destruct (Flow.can_receive _ _) eqn:Hcr; [|done]. cbn [negb].
  apply Z.leb_le in Hcr. unfold RecvStream.accept. rewrite Hend. cbn [ok_or mbind outcome_bind].
  rewrite Z.gtb_ltb. destruct (Z.ltb_spec (st_max_data st) end_); [done|].
  unfold checked_add in Hend. destruct (Z.leb_spec (off + len) U64_MAX); [|done].
  injection Hend as <-. cbn [snd]. unfold recv_ok. simpl.
  split; [by eapply keys_distinct_insert|]. split.
  { apply Forall_insert; [done|]. unfold stream_ok. simpl. lia. }
  split; [done|]. split; [done|]. split; [unfold sat_add, sat_sub in *; lia|]. split; [done|].
  intros Hlt. rewrite (zsum_insert _ _ _ _ _ Hs). simpl. specialize (Hsum Hlt).
  unfold sat_add, sat_sub in *. lia.
Qed.

Lemma accept_ok c id off len fin :
  is_u64 off -> is_u64 len -> recv_ok c -> recv_ok (Conn.accept c id off len fin).2.
Proof.
  intros Hoff Hlen Hok. unfold Conn.accept. destruct (checked_add off len) as [e|] eqn:He; [|done].
  destruct (Conn.accept_slot c id e) as [r c'] eqn:Hs.
  destruct (accept_slot_cases _ _ _ _ _ Hs)
    as [(-> & i & st & -> & _)|[(-> & _ & e' & ->)|(Hn & _ & _ & -> & -> & _)]].
  - by apply accept_at_ok.
  - done.
  - apply accept_at_ok; try done. by apply insert_stream_ok.
Qed.

Lemma recv_ok_streams c l :
  recv_ok c -> keys_distinct st_id l -> Forall stream_ok l ->
  zsum st_received l <= zsum st_received (streams c) -> recv_ok (Conn.set_streams c l).
Proof.
  intros (Hk & Hf & Hl & Hc & Hr & Hm & Hsum) Hk' Hf' Hz. unfold recv_ok. simpl.
  split; [done|]. split; [done|]. repeat split; lia.
Qed.

Lemma recv_ok_delete c i :
  recv_ok c -> is_Some (streams c !! i) -> recv_ok (Conn.set_streams c (delete i (streams c))).
Proof.
  intros Hok [st Hi]. pose proof Hok as (Hk & Hf & _). apply recv_ok_streams; [done| | |].
  - by apply keys_distinct_delete.
  - by apply Forall_delete.
  - assert (stream_ok st) as [? ?] by (by eapply (Forall_lookup_1 _ _ _ _ Hf)).
    rewrite (zsum_delete _ _ _ _ Hi). lia.
Qed.

Lemma find_is_Some c id i : Conn.find c id = Some i -> is_Some (streams c !! i).
Proof. intros (st & ? & _)%position_Some. by exists st. Qed.

Lemma recv_apply_ok c op : recv_op_ok op -> recv_ok c -> recv_ok (recv_apply c op).
Proof.
  intros Hop Hok. pose proof Hok as (Hk & Hf & Hl & Hc & Hr & Hm & Hsum).
  destruct op as [id|id off len fin|id n|n|id n|id|id|id]; simpl in *.
  - unfold Conn.open. destruct (Conn.is_local c id); [|done]. simpl.
    destruct (Conn.find c id) eqn:Hfi; [done|]. by apply insert_stream_ok.
  - destruct Hop. by apply accept_ok.
  - unfold Conn.consume. destruct (Conn.find c id) as [i|] eqn:Hfi; [|done]. simpl.
    destruct (find_is_Some _ _ _ Hfi) as [st Hi].
    unfold recv_ok. simpl. split; [by apply keys_distinct_alter|]. split.
    { apply Forall_alter; [done|]. intros x Hx [? ?]. unfold stream_ok. simpl.
      unfold sat_add, U64_MAX in *. lia. }
    unfold sat_add, U64_MAX in *. repeat split; try lia. intros Hlt. rewrite (zsum_alter _ _ _ _ _ Hi). simpl.
    specialize (Hsum Hlt). lia.
  - unfold recv_ok. simpl. repeat split; try done; unfold sat_add; lia.
  - unfold Conn.extend_stream_credit. destruct (Conn.find c id) as [i|] eqn:Hfi; [|done]. simpl.
    destruct (find_is_Some _ _ _ Hfi) as [st Hi]. apply recv_ok_streams; [done| | |].
    + by apply keys_distinct_alter.
    + apply Forall_alter; [done|]. intros x Hx [? ?]. unfold stream_ok. simpl. lia.
    + rewrite (zsum_alter _ _ _ _ _ Hi). simpl. lia.
  - unfold Conn.retire_stream. destruct (Conn.find c id) as [i|] eqn:Hfi; [|done].
    destruct (Conn.absorb _ _ _ _) as [[first last] kept].
    exact (recv_ok_delete c i Hok (find_is_Some _ _ _ Hfi)).
  - unfold Conn.remove_stream. destruct (Conn.find c id) as [i|] eqn:Hfi; [|done].
    exact (recv_ok_delete c i Hok (find_is_Some _ _ _ Hfi)).
  - unfold Conn.prepare_local_bidi_receive. destruct (Conn.find c id) eqn:Hfi; [done|].
    destruct (_ || _); [done|]. by apply insert_stream_ok.
Qed.

Lemma recv_runs_ok ops c :
  Forall recv_op_ok ops -> recv_ok c -> recv_ok (fold_left recv_apply ops c).
Proof.
  intros Hops. revert c. induction Hops as [|op ops Hop _ IH]; intros c Hc; simpl; [done|].
  by apply IH, recv_apply_ok.
Qed.
End recv_runs.

(** ** Retired streams *)
Definition retired_ok (r : Z * Z) : Prop :=
  0 <= r.1 <= r.2 /\ r.2 < 2 ^ 62 /\ (r.2 - r.1) mod 4 = 0.

Lemma land_3_mod x : Z.land x 3 = x mod 4.
Proof. change (Z.land x 3) with (Z.land x (Z.ones 2)). by rewrite Z.land_ones. Qed.

Lemma in_retired_iff x r :
  Conn.in_retired x r = true <-> r.1 <= x <= r.2 /\ (x - r.1) mod 4 = 0.
Proof.
  unfold Conn.in_retired. rewrite !andb_true_iff, Z.geb_le, Z.leb_le, Z.eqb_eq. tauto.
Qed.

Lemma mod4_iff t : t mod 4 = 0 <-> exists k, t = 4 * k.
Proof.
  rewrite Z.mod_divide by lia. unfold Z.divide. split; intros [k ->]; exists k; lia.
Qed.

(** Overlapping or adjacent ranges of one class merge into their exact union. *)
Lemma merge_retired a b c d x :
  retired_ok (a, b) -> retired_ok (c, d) -> a mod 4 = c mod 4 -> a <= d + 4 -> c <= b + 4 ->
  retired_ok (Z.min a c, Z.max b d) /\
  (Conn.in_retired x (Z.min a c, Z.max b d) = true <->
   Conn.in_retired x (a, b) = true \/ Conn.in_retired x (c, d) = true).
Proof.
  unfold retired_ok. rewrite !in_retired_iff. cbn [fst snd].
  intros (? & ? & [q1 Hq1]%mod4_iff) (? & ? & [q2 Hq2]%mod4_iff) Hac ? ?.
  assert (exists q3, a - c = 4 * q3) as [q3 Hq3] by (apply mod4_iff; rewrite Zminus_mod, Hac, Z.sub_diag; done).
  clear Hac. rewrite !mod4_iff.
  destruct (Z.min_spec a c) as [[? ->]|[? ->]], (Z.max_spec b d) as [[? ->]|[? ->]];
    (split; [repeat split; try lia|split; [intros [? [k ?]]|intros [[? [k ?]]|[? [k ?]]]]]).
  all: try (destruct (decide (a <= x <= b)); [left|right]; split; try lia).
  all: try (split; try lia).
  all: first [exists q1; lia | exists q2; lia | exists k; lia | exists (k + q3); lia
             | exists (k - q3); lia | exists (q1 + q3); lia | exists (q2 - q3); lia ].
Qed.

Lemma absorb_spec first last l :
  retired_ok (first, last) -> Forall retired_ok l ->
  let '(f, la, kept) := Conn.absorb (first mod 4) first last l in
  retired_ok (f, la) /\ Forall retired_ok kept /\
  forall x, existsb (Conn.in_retired x) (kept ++ [(f, la)]) =
            Conn.in_retired x (first, last) || existsb (Conn.in_retired x) l.
Proof.
  intros Hr Hl. revert first last Hr. induction Hl as [|[c d] l Hcd Hl IH]; intros a b Hab; simpl.
  - split; [done|]. split; [constructor|]. done.
  - rewrite land_3_mod. destruct (_ && _ && _) eqn:Hg.
    + apply andb_true_iff in Hg as [[H1%Z.eqb_eq H2%Z.geb_le]%andb_true_iff H3%Z.geb_le].
      pose proof Hab as (? & ? & _). pose proof Hcd as (? & ? & _). simpl in *.
      unfold sat_add, U64_MAX in *.
      destruct (merge_retired a b c d 0) as [Hok _]; [done|done|lia|lia|lia|].
      replace (a mod 4) with (Z.min a c mod 4) by (destruct (Z.min_spec a c) as [[_ ->]|[_ ->]]; lia).
      specialize (IH _ _ Hok). destruct (Conn.absorb _ _ _ l) as [[f la] kept].
      destruct IH as (? & ? & Hx). split; [done|]. split; [done|]. intros x. rewrite Hx.
      destruct (merge_retired a b c d x) as [_ Hm]; [done|done|lia|lia|lia|].
      rewrite orb_assoc. f_equal. apply eq_true_iff_eq. by rewrite orb_true_iff.
    + specialize (IH _ _ Hab). destruct (Conn.absorb _ _ _ l) as [[f la] kept].
      destruct IH as (? & ? & Hx). split; [done|]. split; [by constructor|]. intros x. simpl.
      rewrite Hx. by rewrite !orb_assoc, (orb_comm (Conn.in_retired x (c, d))).
Qed.

Lemma insert_by_first_existsb P r l :
  existsb P (Conn.insert_by_first r l) = P r || existsb P l.
Proof.
  induction l as [|r' l IH]; simpl; [done|]. destruct (_ <=? _); [done|]. simpl. rewrite IH.
  by rewrite !orb_assoc, (orb_comm (P r')).
Qed.

Lemma sort_by_first_existsb P l : existsb P (Conn.sort_by_first l) = existsb P l.
Proof. induction l as [|r l IH]; simpl; [done|]. by rewrite insert_by_first_existsb, IH. Qed.

Lemma insert_by_first_Forall P r l :
  P r -> Forall P l -> Forall P (Conn.insert_by_first r l).
Proof. intros Hr. induction 1; simpl; [by repeat constructor|]. case_match; by repeat constructor. Qed.

Lemma sort_by_first_Forall P l : Forall P l -> Forall P (Conn.sort_by_first l).
Proof. induction 1; simpl; [constructor|]. by apply insert_by_first_Forall. Qed.

(** ** Accepting data *)
Section accept_lemmas.
Context {A : Allocator}.

Definition received_of (c : ConnectionState) (id : Z) : Z :=
  match find_key st_id id (streams c) with Some s => st_received s | None => 0 end.

Lemma accept_at_Ok c slot end_ off len fin c' :
  Conn.accept_at c slot end_ off len fin = (Ok tt, c') ->
  checked_add off len = Some end_ ->
  exists st, streams c !! slot = Some st /\
    sat_add (received_data c) (sat_sub end_ (st_received st)) <= fc_max_data (connection c) /\
    end_ <= st_max_data st /\
    c' = Conn.set_received (Conn.set_streams c (<[slot :=
           mkStreamState (st_id st) (st_max_data st) (Z.max (st_received st) end_)
             (st_consumed st) (st_finished st || fin)]> (streams c)))
         (sat_add (received_data c) (sat_sub end_ (st_received st))).
Proof.
  unfold Conn.accept_at. destruct (streams c !! slot) as [st|]; [|done].
  destruct (Flow.can_receive _ _) eqn:Hcr; [|done]. apply Z.leb_le in Hcr. cbn [negb].
  unfold RecvStream.accept. intros H He. rewrite He in H. cbn [ok_or mbind outcome_bind] in H.
  rewrite Z.gtb_ltb in H. destruct (Z.ltb_spec (st_max_data st) end_); [done|].
  injection H as <-. eauto.
Qed.

(** A refusal after the slot is known changes nothing. *)
Lemma accept_at_Err c slot end_ off len fin r c' :
  Conn.accept_at c slot end_ off len fin = (r, c') -> r <> Ok tt -> c' = c.
Proof.
  unfold Conn.accept_at. destruct (streams c !! slot) as [st|]; [|by intros [= _ <-]].
  destruct (Flow.can_receive _ _); simpl; [|by intros [= _ <-]].
  destruct (RecvStream.accept st off len fin); intros [= <- <-]; done.
Qed.

(** [accept] once the stream exists at [slot]. *)
Lemma accept_at_exact c slot id st offset len fin r c' :
  recv_ok c -> is_u64 offset -> is_u64 len -> fc_max_data (connection c) < U64_MAX ->
  checked_add offset len = Some (offset + len) ->
  streams c !! slot = Some st -> st_id st = id ->
  Conn.accept_at c slot (offset + len) offset len fin = (r, c') ->
  (r = Ok tt ->
     received_of c' id = Z.max (received_of c id) (offset + len) /\
     received_data c' = received_data c + (received_of c' id - received_of c id) /\
     received_data c' <= fc_max_data (connection c) /\ connection c' = connection c /\
     exists s, find_key st_id id (streams c') = Some s /\ offset + len <= st_max_data s /\
       (fin = true -> st_finished s = true)) /\
  (r <> Ok tt -> received_data c' = received_data c /\ connection c' = connection c /\
     received_of c' id = received_of c id) /\
  (forall id', id' <> id -> find_key st_id id' (streams c') = find_key st_id id' (streams c)).
Proof.
  intros Hok Hoff Hlen Hmax Hend Hi Hid Hacc. pose proof Hok as (Hk & Hf & _ & _ & Hr & _ & _).
  assert (r = Ok tt \/ r <> Ok tt) as [-> |Hne] by (destruct r as [[]| |]; auto).
  - destruct (accept_at_Ok _ _ _ _ _ _ _ Hacc Hend) as (st0 & Hi0 & Hcr & Hms & ->).
    rewrite Hi in Hi0. injection Hi0 as <-.
    assert (Hst : stream_ok st) by (by eapply (Forall_lookup_1 _ _ _ _ Hf)).
    assert (Hold : received_of c id = st_received st).
    { unfold received_of. rewrite <- Hid.
      by rewrite (find_key_elem st_id _ st Hk (list_elem_of_lookup_2 _ _ _ Hi)). }
    set (st' := mkStreamState _ _ _ _ _) in *.
    assert (Hfind : find_key st_id id (<[slot := st']> (streams c)) = Some st')
      by (rewrite <- Hid; by apply (find_key_insert_eq st_id)).
    set (c' := Conn.set_received _ _).
    assert (Hnew : received_of c' id = Z.max (st_received st) (offset + len))
      by (unfold received_of, c'; simpl; by rewrite Hfind).
    split; [intros _|split; [done|]].
    + rewrite Hnew, Hold. cbn [c' Conn.set_received Conn.set_streams received_data connection streams].
      unfold stream_ok, sat_add, sat_sub in *. split; [done|]. split; [lia|]. split; [lia|].
      split; [done|]. exists st'. split; [done|]. split; [done|]. intros ->. apply orb_true_r.
    + intros id' Hne. eapply (find_key_insert_other st_id); [exact Hi|done|congruence].
  - apply accept_at_Err in Hacc as ->; [|done]. done.
Qed.
End accept_lemmas.

(** ** Properties *)
Section properties.
Context {A : Allocator}.

(** C35: over every sequence of send-side operations, refused ones included, a
    sender stays within its peer's credit: no stream has sent beyond its stream
    limit, the bytes sent on all streams together stay within the connection
    counter, and that counter never passes the largest limit the peer granted. *)
Theorem send_credit_respected max_data max_stream_data ops :
  is_u64 max_data -> is_u64 max_stream_data -> Forall send_op_ok ops ->
  let s := fold_left send_apply ops (Send.new max_data max_stream_data) in
  (forall st, st ∈ s_streams s -> sc_sent st <= sc_max_data st) /\
  (s_max_data s < U64_MAX -> zsum sc_sent (s_streams s) <= sent_data s) /\
  sent_data s <= s_max_data s <= fold_left granted ops max_data.
Proof.
  intros Hm Hms Hops s.
  destruct (send_runs_ok ops (Send.new max_data max_stream_data) Hops) as [Hok Hg].
  { unfold send_ok. simpl. split; [constructor|]. split; [constructor|]. lia. }
  fold s in Hok, Hg. destruct Hok as (_ & Hf & _ & Hs & _ & Hsum).
  specialize (Hg max_data ltac:(simpl; lia)). split; [|split; [done|lia]].
  intros st Hst. rewrite Forall_forall in Hf. specialize (Hf st Hst). lia.
Qed.

(** [available] is exactly the room [can_send] leaves: at an offset, a
    non-empty write is admitted if and only if it is no longer than the reported
    availability. *)
Theorem available_exact s id offset len n :
  send_ok s -> s_max_data s < U64_MAX -> 0 <= offset -> 0 < len -> offset + len <= U64_MAX ->
  Send.available s id offset = Some n ->
  Send.can_send s id offset len = true <-> len <= n.
Proof.
  intros (_ & Hf & _ & Hs & Hm & _) Hlim Ho Hl Hsum. unfold Send.available, Send.can_send.
  destruct (Send.stream s id) as [st|] eqn:Hst; [|done]. intros [= <-].
  apply find_key_Some in Hst as [Hin _]. rewrite Forall_forall in Hf. specialize (Hf st Hin).
  rewrite andb_true_iff, !Z.leb_le. unfold sat_add, sat_sub in *. lia.
Qed.

(** A reservation is charged exactly for bytes never sent before:
    retransmitting an already-sent range costs no credit and moves nothing, and
    new bytes advance the stream's high-water mark and the connection counter by
    the same amount. *)
Theorem reserve_charges_new_bytes s id offset len s' :
  send_ok s -> is_u64 offset -> is_u64 len -> s_max_data s < U64_MAX ->
  offset + len <= U64_MAX -> Send.reserve s id offset len = Ok s' ->
  exists st st', Send.stream s id = Some st /\ Send.stream s' id = Some st' /\
    sc_sent st' = Z.max (sc_sent st) (offset + len) /\ sc_sent st' <= sc_max_data st' /\
    sent_data s' - sent_data s = sc_sent st' - sc_sent st /\
    (offset + len <= sc_sent st -> s' = s) /\
    (forall id', id' <> id -> Send.stream s' id' = Send.stream s id').
Proof.
  intros Hok Hoff Hlen Hmax Hend Hr.
  pose proof Hok as (Hk & Hf & _ & Hs & Hm & _).
  destruct (reserve_Ok _ _ _ _ _ Hr) as (i & st & Hp & Hi & Hst & He & Hd & ->).
  destruct (position_Some _ _ _ _ Hp) as (st0 & Hi0 & Hid & _). simplify_eq.
  assert (Hrange : 0 <= sc_sent st <= sc_max_data st) by (by eapply (Forall_lookup_1 _ _ _ _ Hf)).
  set (st' := Send.reserve_stream (sat_add offset len) st).
  assert (Hins : alter (Send.reserve_stream (sat_add offset len)) i (s_streams s) =
                 <[i := st']> (s_streams s)).
  { rewrite list_insert_alter. apply list_eq. intros j.
    destruct (decide (i = j)) as [<-|].
    - by rewrite !list_lookup_alter_eq, Hi.
    - by rewrite !list_lookup_alter_ne. }
  exists st, st'. unfold Send.stream in *. cbn [s_streams sent_data]. rewrite Hins.
  unfold sat_add, sat_sub in *.
  split; [done|]. split; [by apply (find_key_insert_eq sc_id)|].
  split; [unfold st', sat_add; simpl; lia|]. split; [unfold st', sat_add; simpl; lia|].
  split; [unfold st', sat_add; simpl; lia|]. split.
  - intros Hold. destruct s as [m ini sd l]. cbn [s_max_data s_streams sent_data
      initial_stream_max_data] in *. f_equal; [lia|]. apply list_insert_id. rewrite Hi. f_equal.
    unfold st', Send.reserve_stream, sat_add, sat_sub. destruct st as [k mx se fi]. simpl in *.
    f_equal; [lia|]. replace (Z.max (Z.min (offset + len) U64_MAX - se) 0) with 0 by lia. done.
  - intros id' Hne. eapply (find_key_insert_other sc_id); [exact Hi|done|done].
Qed.

(** Over every sequence of receive-side operations, refused ones
    included, a receiver keeps what it granted: per stream
    [consumed <= received <= max_data], stream identifiers stay distinct, and
    the bytes received on all live streams stay within the connection counter,
    itself within the advertised connection credit. *)
Theorem receive_credit_respected r limits0 ops :
  is_u64 (l_max_data limits0) -> is_u64 (l_max_stream_data limits0) ->
  Forall recv_op_ok ops ->
  let c := fold_left recv_apply ops (Conn.new r limits0) in
  NoDup (st_id <$> streams c) /\
  (forall s, s ∈ streams c -> 0 <= st_consumed s <= st_received s /\ st_received s <= st_max_data s) /\
  (fc_max_data (connection c) < U64_MAX -> zsum st_received (streams c) <= received_data c) /\
  0 <= received_data c <= fc_max_data (connection c).
Proof.
  intros Hm Hms Hops c. assert (Hok : recv_ok c).
  { apply recv_runs_ok; [done|]. unfold recv_ok. simpl. split; [constructor|].
    split; [constructor|]. lia. }
  destruct Hok as (Hk & Hf & _ & _ & Hr & _ & Hsum). split; [exact Hk|].
  split; [|done]. intros s Hs. rewrite Forall_forall in Hf. exact (Hf s Hs).
Qed.

(** The effect of [accept], exactly.  On success the stream's high-water
    mark is the maximum of the old one and the frame's end, within the stream's
    credit; the connection counter grows by the bytes beyond the old mark,
    within the connection's credit; every other stream is untouched.  On
    refusal no counter and no existing stream changes. *)
Theorem accept_exact c id offset len fin r c' :
  recv_ok c -> is_u64 offset -> is_u64 len ->
  fc_max_data (connection c) < U64_MAX ->
  Conn.accept c id offset len fin = (r, c') ->
  (r = Ok tt ->
     received_of c' id = Z.max (received_of c id) (offset + len) /\
     received_data c' = received_data c + (received_of c' id - received_of c id) /\
     received_data c' <= fc_max_data (connection c) /\ connection c' = connection c /\
     exists s, find_key st_id id (streams c') = Some s /\ offset + len <= st_max_data s /\
       (fin = true -> st_finished s = true)) /\
  (r <> Ok tt -> received_data c' = received_data c /\ connection c' = connection c /\
     received_of c' id = received_of c id) /\
  (forall id', id' <> id -> find_key st_id id' (streams c') = find_key st_id id' (streams c)).
Proof.
  intros Hok Hoff Hlen Hmax. unfold Conn.accept.
  destruct (checked_add offset len) as [e|] eqn:He; [|by intros [= <- <-]].
  assert (e = offset + len) as -> by (unfold checked_add in He; destruct (_ <=? _); congruence).
  destruct (Conn.accept_slot c id (offset + len)) as [r1 c1] eqn:Hs.
  destruct (accept_slot_cases _ _ _ _ _ Hs)
    as [(-> & i & st & -> & Hfi & Hi)|[(-> & _ & e' & ->)|(Hn & _ & _ & -> & Hc1 & Hst1)]].
  - destruct (position_Some _ _ _ _ Hfi) as (st0 & Hi0 & Hid & _).
    intros H. by apply (accept_at_exact c i id st0 offset len fin).
  - by intros [= <- <-].
  - intros H. pose proof (insert_stream_ok c id Hok Hn) as Hok1. rewrite <- Hc1 in Hok1.
    assert (Hcn : connection c1 = connection c /\ received_data c1 = received_data c)
      by (rewrite Hc1; unfold Conn.insert_stream; by destruct (try_reserve _)).
    destruct Hcn as [Hcn Hrd].
    assert (Hr0 : received_of c1 id = received_of c id).
    { unfold received_of. rewrite (proj2 (find_key_None st_id id (streams c))) by done.
      rewrite Hst1, (find_key_elem st_id _ (RecvStream.new id (l_max_stream_data (limits c))));
        [done|by rewrite <- Hst1; apply Hok1|apply elem_of_app; right; left]. }
    assert (Hoth : forall id', id' <> id ->
      find_key st_id id' (streams c1) = find_key st_id id' (streams c))
      by (intros id' ?; rewrite Hst1; by apply find_key_snoc_other).
    assert (Hi : streams c1 !! length (streams c) =
                 Some (RecvStream.new id (l_max_stream_data (limits c))))
      by (rewrite Hst1; by apply list_lookup_middle).
    destruct (accept_at_exact c1 (length (streams c)) id _ offset len fin r c' Hok1 Hoff Hlen
      ltac:(by rewrite Hcn) He Hi eq_refl H) as (H1 & H2 & H3).
    rewrite Hcn, Hrd, Hr0 in *. split; [done|]. split; [done|].
    intros id' Hne. by rewrite H3, Hoth.
Qed.

(** The retired set after a stream was retired. *)
Lemma retire_adds c id c' :
  Forall retired_ok (retired_streams c) -> 0 <= id < 2 ^ 62 -> Conn.retire_stream c id = (true, c') ->
  Forall retired_ok (retired_streams c') /\ forall x, Conn.is_retired c' x = (x =? id) || Conn.is_retired c x.
Proof.
  intros Hret Hid. unfold Conn.retire_stream. destruct (Conn.find c id) as [i|] eqn:Hfi; [|done]. rewrite land_3_mod.
  assert (Hself : retired_ok (id, id)) by (unfold retired_ok; cbn [fst snd]; rewrite Z.sub_diag; repeat split; lia || done).
  pose proof (absorb_spec id id (retired_streams c) Hself Hret) as Habs.
  destruct (Conn.absorb _ _ _ _) as [[first last] kept].
  destruct Habs as (Hr & Hk & Hx). intros [= <-]. simpl.
  split; [apply sort_by_first_Forall, Forall_app; split; [done|by repeat constructor; apply Hr]|].
  intros x. unfold Conn.is_retired. simpl. rewrite sort_by_first_existsb, Hx. f_equal.
  apply eq_true_iff_eq. rewrite in_retired_iff, Z.eqb_eq. simpl. split; [lia|].
  intros ->. rewrite Z.sub_diag. done.
Qed.

(** Retiring a stream removes its live state and adds exactly its
    identifier to the retired set; merging ranges never forgets a retired
    stream nor captures one of another class or in a gap. *)
Theorem retire_stream_exact c id c' :
  recv_ok c -> Forall retired_ok (retired_streams c) -> 0 <= id < 2 ^ 62 ->
  Conn.retire_stream c id = (true, c') ->
  Forall retired_ok (retired_streams c') /\ Conn.find c' id = None /\
  (forall x, Conn.is_retired c' x = (x =? id) || Conn.is_retired c x) /\
  (forall x, x <> id -> find_key st_id x (streams c') = find_key st_id x (streams c)).
Proof.
  intros Hok Hret Hid Hrun. destruct (retire_adds _ _ _ Hret Hid Hrun) as [Hret' Hx]. split; [done|].
  revert Hrun. unfold Conn.retire_stream. destruct (Conn.find c id) as [i|] eqn:Hfi; [|done].
  destruct (Conn.absorb _ _ _ _) as [[first last] kept]. intros [= <-].
  destruct (position_Some _ _ _ _ Hfi) as (st & Hi & Hst & _). split; [|split; [done|]].
  - apply position_None. simpl. intros y Hy Hyid.
    apply (keys_distinct_delete_key st_id i (streams c) st y); [apply Hok|done|done|congruence].
  - intros x Hne. by eapply find_key_delete_other; [exact Hi|rewrite Hst].
Qed.

(** A peer can only lower the receive profile: clamping to its request
    never exceeds the configured connection or stream credit, leaves the other
    limits alone, and honours a smaller request exactly. *)
Theorem clamped_to_request_bounds l r :
  let l' := Limits.clamped_to_request l (Some r) in
  l_max_data l' = Z.min (rw_max_data r) (l_max_data l) /\
  l_max_stream_data l' = Z.min (rw_max_stream_data r) (l_max_stream_data l) /\
  l_max_streams_bidi l' = l_max_streams_bidi l /\ l_max_streams_uni l' = l_max_streams_uni l /\
  max_datagram_frame_size l' = max_datagram_frame_size l.
Proof.
  simpl. split; [|split; [|done]].
  - destruct (Z.ltb_spec (rw_max_data r) (l_max_data l)); lia.
  - destruct (Z.ltb_spec (rw_max_stream_data r) (l_max_stream_data l)); lia.
Qed.

(** A first fragment of a new peer stream that fits the connection's
    credit but not the stream's is refused, and the refused stream stays
    registered: the refusal is not free of effects, although its counters are
    unchanged. *)
Theorem refused_first_fragment_registers_stream c id offset len fin :
  Conn.find c id = None -> Conn.is_local c id = false ->
  Conn.stream_ordinal id < l_max_streams_bidi (limits c) ->
  Conn.stream_ordinal id < l_max_streams_uni (limits c) ->
  try_reserve (length (streams c)) = true ->
  0 <= offset -> 0 <= len -> 0 <= received_data c ->
  received_data c + (offset + len) <= fc_max_data (connection c) <= U64_MAX ->
  l_max_stream_data (limits c) < offset + len ->
  exists c', Conn.accept c id offset len fin = (Err Error.FlowControl, c') /\
    Conn.find c' id = Some (length (streams c)) /\ received_data c' = received_data c.
Proof.
  intros Hf Hl Hb Hu Ha Ho Hlen Hr Hcr Hms. unfold Conn.accept, checked_add.
  rewrite (proj2 (Z.leb_le _ U64_MAX)) by lia. unfold Conn.accept_slot. rewrite Hf, Hl. cbv zeta.
  rewrite Z.geb_leb, (proj2 (Z.leb_gt _ _)) by (destruct (Conn.stream_kind id).2; lia).
  unfold Flow.can_receive at 1. rewrite (proj2 (Z.leb_le _ _)) by (unfold sat_add; lia).
  cbn [negb]. unfold Conn.insert_stream. rewrite Ha. cbn [negb].
  set (c1 := Conn.set_streams c _).
  assert (Hf1 : Conn.find c1 id = Some (length (streams c))).
  { unfold Conn.find, c1. simpl.
    exact (position_snoc st_id (streams c) (RecvStream.new id (l_max_stream_data (limits c))) Hf). }
  rewrite Hf1. cbn [ok_or]. exists c1. split; [|done]. unfold Conn.accept_at.
  replace (streams c1 !! length (streams c))
    with (Some (RecvStream.new id (l_max_stream_data (limits c))))
    by (symmetry; apply list_lookup_middle; done).
  unfold Flow.can_receive. cbn [c1 Conn.set_streams connection received_data].
  rewrite (proj2 (Z.leb_le _ _)) by (unfold sat_add, sat_sub; simpl; lia). cbn [negb].
  unfold RecvStream.accept, checked_add. rewrite (proj2 (Z.leb_le _ U64_MAX)) by lia.
  cbn [ok_or mbind outcome_bind RecvStream.new st_max_data].
  rewrite Z.gtb_ltb, (proj2 (Z.ltb_lt _ _)) by lia. done.
Qed.

End properties.

(** ** Witnesses *)
#[local] Instance plenty : Allocator := {| try_reserve := fun _ => true |}.

Lemma send_credit_respected_witness :
  let s := fold_left send_apply [SOpen 4 512; SReserve 4 0 300; SExtendConnection 2048;
             SReserve 4 300 400; SRemove 4] (Send.new 1024 512) in
  sent_data s = 300 /\ sent_data s <= s_max_data s <= 2048.
Proof.
  split; [reflexivity|].
  apply (send_credit_respected 1024 512 [SOpen 4 512; SReserve 4 0 300; SExtendConnection 2048;
    SReserve 4 300 400; SRemove 4]); [vm_compute; split; discriminate..|].
  repeat (constructor; [first [exact I | vm_compute; split; discriminate
    | vm_compute; repeat split; discriminate]|]). constructor.
Defined.

Lemma available_exact_witness :
  Send.can_send (fold_left send_apply [SOpen 4 512; SReserve 4 0 300] (Send.new 1024 512)) 4 300 212
    = true <-> 212 <= 212.
Proof.
  apply (available_exact (fold_left send_apply [SOpen 4 512; SReserve 4 0 300] (Send.new 1024 512))
           4 300 212 212);
    [|reflexivity|lia|lia|vm_compute; discriminate|reflexivity].
  apply send_runs_ok; [repeat constructor; vm_compute; repeat split; discriminate|].
  split; [constructor|]. split; [constructor|]. vm_compute. repeat split; discriminate.
Defined.

Lemma reserve_charges_new_bytes_witness :
  let s := fold_left send_apply [SOpen 4 512; SReserve 4 0 300] (Send.new 1024 512) in
  exists s', Send.reserve s 4 200 150 = Ok s' /\ sent_data s' - sent_data s = 50.
Proof.
  eexists. split; [reflexivity|].
  destruct (reserve_charges_new_bytes
    (fold_left send_apply [SOpen 4 512; SReserve 4 0 300] (Send.new 1024 512)) 4 200 150
    (mkSendFlowControl 1024 512 350 [mkSendStreamCredit 4 512 350 false]))
    as (st & st' & Hst & Hst' & Hs & _ & Hd & _);
    [|vm_compute; split; discriminate|vm_compute; split; discriminate|reflexivity
     |vm_compute; discriminate|reflexivity|].
  - apply send_runs_ok; [repeat constructor; vm_compute; repeat split; discriminate|].
    split; [constructor|]. split; [constructor|]. vm_compute. repeat split; discriminate.
  - reflexivity.
Defined.

Lemma receive_credit_respected_witness :
  let c := fold_left recv_apply [RAccept 4 0 100 false; RConsume 4 60; RExtendConnection 1024;
             RAccept 4 4000000 1 true; RRetire 4] (Conn.new Server Limits.default) in
  0 <= received_data c <= fc_max_data (connection c).
Proof.
  apply (receive_credit_respected Server Limits.default [RAccept 4 0 100 false; RConsume 4 60;
    RExtendConnection 1024; RAccept 4 4000000 1 true; RRetire 4]);
    [vm_compute; split; discriminate..|].
  repeat (constructor; [first [exact I | vm_compute; split; discriminate
    | vm_compute; repeat split; discriminate]|]). constructor.
Defined.

Lemma new_recv_ok : recv_ok (Conn.new Server Limits.default).
Proof.
  split; [constructor|]. split; [constructor|]. vm_compute. repeat split; discriminate.
Qed.

Lemma accept_exact_witness :
  let '(r, c') := Conn.accept (Conn.new Server Limits.default) 4 0 100 false in
  r = Ok tt /\ received_of c' 4 = 100 /\ received_data c' = 100.
Proof.
  destruct (accept_exact (Conn.new Server Limits.default) 4 0 100 false (Ok tt)
    (Conn.accept (Conn.new Server Limits.default) 4 0 100 false).2 new_recv_ok) as (H & _);
    [vm_compute; split; discriminate|vm_compute; split; discriminate|reflexivity|reflexivity|].
  destruct (H eq_refl) as (H1 & H2 & _). split; [reflexivity|]. split; [exact H1|exact H2].
Defined.

Lemma retire_stream_exact_witness :
  let c := fold_left recv_apply [RAccept 4 0 1 true; RAccept 8 0 1 true; RRetire 8]
             (Conn.new Server Limits.default) in
  let c' := (Conn.retire_stream c 4).2 in
  Conn.is_retired c' 4 = true /\ Conn.is_retired c' 8 = true /\ Conn.is_retired c' 12 = false.
Proof.
  assert (H : let c := fold_left recv_apply [RAccept 4 0 1 true; RAccept 8 0 1 true; RRetire 8]
             (Conn.new Server Limits.default) in
    forall x, Conn.is_retired (Conn.retire_stream c 4).2 x = (x =? 4) || Conn.is_retired c x).
  { apply (retire_stream_exact (fold_left recv_apply [RAccept 4 0 1 true; RAccept 8 0 1 true; RRetire 8]
             (Conn.new Server Limits.default)) 4); [|repeat constructor; vm_compute; repeat split; discriminate
    |lia|reflexivity].
    apply recv_runs_ok; [|apply new_recv_ok].
    repeat (constructor; [first [exact I | vm_compute; repeat split; discriminate]|]). constructor. }
  split; [rewrite H; reflexivity|]. split; [rewrite H; reflexivity|]. rewrite H. reflexivity.
Defined.

Lemma refused_first_fragment_witness :
  exists c', Conn.accept (Conn.new Server Limits.default) 4 100000 10 false
    = (Err Error.FlowControl, c') /\ Conn.find c' 4 = Some 0%nat /\ received_data c' = 0.
Proof.
  apply (refused_first_fragment_registers_stream (Conn.new Server Limits.default) 4 100000 10 false);
    try reflexivity; vm_compute; try discriminate; repeat split; discriminate.
Defined.
