(* ===== verification/Congestion.v ===== *)
(** * Congestion control, RTT estimation and pacing

    [RttEstimator], [CongestionController], the pacing arithmetic and the part of
    [PathState] that governs admission and loss thresholds, from
    [src/crates/quic-lite/src/lib.rs], with [PacingConfig] of [node.rs].  The
    theorems bound the estimator and the congestion window over every sequence
    of events, show one window reduction per recovery epoch, give the pacing
    quotients in closed form, and prove both sides of the token bucket: a path
    never sends faster than its burst plus its rate, and a delayed packet is
    admitted at the deadline it was given. *)

From S2P Require Import Prelude.

(** Saturating [u128] arithmetic of the wide pacing paths. *)
Definition sat_mul128 (a b : Z) : Z := Z.min (a * b) U128_MAX.
Definition sat_add128 (a b : Z) : Z := Z.min (a + b) U128_MAX.

(** [u64::div_ceil]. *)
Definition div_ceil (a b : Z) : Z := (a + b - 1) / b.

(** ** RTT estimation *)
Record RttEstimator : Type := mkRtt {
  latest_rtt : option Z;
  smoothed_rtt : option Z;
  rttvar : Z;
  min_rtt : option Z;
  min_rtt_sampled_at_us : option Z;
  minimum_age_window_us : Z;
}.

Module Rtt.
Definition INITIAL_PTO : Z := 500000.
Definition GRANULARITY : Z := 1000.

Definition default : RttEstimator := mkRtt None None 0 None None 60000000.

Definition set_minimum_age_window_us (r : RttEstimator) (window_us : Z) : RttEstimator :=
  mkRtt (latest_rtt r) (smoothed_rtt r) (rttvar r) (min_rtt r) (min_rtt_sampled_at_us r)
    (Z.max window_us 1).

Definition minimum_expired (r : RttEstimator) (now_us : Z) : bool :=
  match min_rtt_sampled_at_us r with
  | None => true
  | Some sampled_at => sat_sub now_us sampled_at >=? minimum_age_window_us r
  end.

Definition update_at (r : RttEstimator) (sample now_us : Z) : RttEstimator :=
  let refresh := minimum_expired r now_us ||
                 match min_rtt r with None => true | Some m => sample <? m end in
  let '(smoothed', rttvar') :=
    match smoothed_rtt r with
    | None => (sample, sample / 2)
    | Some smoothed =>
        let variation := Z.abs (smoothed - sample) in
        (sat_add (sat_mul smoothed 7) sample / 8, sat_add (sat_mul (rttvar r) 3) variation / 4)
    end in
  mkRtt (Some sample) (Some smoothed') rttvar'
    (if refresh then Some sample else min_rtt r)
    (if refresh then Some now_us else min_rtt_sampled_at_us r)
    (minimum_age_window_us r).

Definition latest (r : RttEstimator) : option Z := latest_rtt r.
Definition smoothed (r : RttEstimator) : option Z := smoothed_rtt r.
Definition minimum (r : RttEstimator) : option Z := min_rtt r.

Definition minimum_at (r : RttEstimator) (now_us : Z) : option Z :=
  match min_rtt_sampled_at_us r with
  | Some sampled_at =>
      if sat_sub now_us sampled_at <? minimum_age_window_us r then min_rtt r else None
  | None => None
  end.

Definition pto (r : RttEstimator) : Z :=
  match smoothed_rtt r with
  | None => INITIAL_PTO
  | Some s => Z.max (sat_add s (Z.max (sat_mul (rttvar r) 4) GRANULARITY)) GRANULARITY
  end.
End Rtt.

(** ** NewReno *)
Record CongestionController : Type := mkCC {
  max_packet_size : Z;
  congestion_window : Z;
  slow_start_threshold : Z;
  bytes_in_flight : Z;
  recovery_start_packet : option Z;
}.

Module CC.
Definition new (mps : Z) : CongestionController :=
  let mds := Z.max mps 1 in
  mkCC mds (Z.min (10 * mds) (Z.max (2 * mds) 14720)) U64_MAX 0 None.

Definition reset_for_resumption (c : CongestionController) : CongestionController :=
  mkCC (max_packet_size c) (2 * max_packet_size c) U64_MAX 0 None.

Definition set_flight (c : CongestionController) (n : Z) : CongestionController :=
  mkCC (max_packet_size c) (congestion_window c) (slow_start_threshold c) n
    (recovery_start_packet c).

Definition set_window (c : CongestionController) (n : Z) : CongestionController :=
  mkCC (max_packet_size c) n (slow_start_threshold c) (bytes_in_flight c)
    (recovery_start_packet c).

Definition can_send (c : CongestionController) (bytes : Z) : bool :=
  sat_add (bytes_in_flight c) bytes <=? congestion_window c.

Definition on_packet_sent (c : CongestionController) (bytes : Z) : bool * CongestionController :=
  if negb (can_send c bytes) then (false, c)
  else (true, set_flight c (sat_add (bytes_in_flight c) bytes)).

Definition on_retransmission_sent (c : CongestionController) (bytes : Z) : CongestionController :=
  set_flight c (sat_add (bytes_in_flight c) bytes).

Definition on_ack_with_growth (c : CongestionController) (acked_bytes : Z) (allow_growth : bool)
    : CongestionController :=
  let acked := Z.min acked_bytes (bytes_in_flight c) in
  let c := set_flight c (bytes_in_flight c - acked) in
  if (acked =? 0) || negb allow_growth then c
  else if congestion_window c <? slow_start_threshold c
  then set_window c (sat_add (congestion_window c) acked)
  else let increase :=
         Z.max (sat_mul (max_packet_size c) acked / Z.max (congestion_window c) 1) 1 in
       set_window c (sat_add (congestion_window c) increase).

Definition on_ack (c : CongestionController) (acked_bytes : Z) : CongestionController :=
  on_ack_with_growth c acked_bytes true.

Definition remove_in_flight (c : CongestionController) (bytes : Z) : CongestionController :=
  set_flight c (sat_sub (bytes_in_flight c) bytes).

Definition on_packet_lost (c : CongestionController)
    (lost_bytes lost_packet_number largest_sent_packet : Z) : CongestionController :=
  if lost_bytes =? 0 then c else
  let c := set_flight c (sat_sub (bytes_in_flight c) lost_bytes) in
  if match recovery_start_packet c with
     | Some start => lost_packet_number <=? start
     | None => false
     end
  then c
  else
    let reduced := congestion_window c / 2 in
    let threshold := Z.max reduced (2 * max_packet_size c) in
    mkCC (max_packet_size c) threshold threshold (bytes_in_flight c) (Some largest_sent_packet).

Definition on_persistent_congestion (c : CongestionController) (largest_sent_packet : Z)
    : CongestionController :=
  mkCC (max_packet_size c) (2 * max_packet_size c) (slow_start_threshold c) (bytes_in_flight c)
    (Some largest_sent_packet).
End CC.

(** ** Pacing arithmetic *)
Definition pacing_refill_tokens (elapsed window rtt mss : Z) : Z * Z :=
  let rtt := Z.max rtt 1 in
  let mss := Z.max mss 1 in
  match (n ← checked_mul elapsed window; checked_mul n (2 ^ 16)) with
  | Some numerator =>
      let bytes := numerator / rtt in (bytes, bytes / mss)
  | None =>
      let bytes := sat_mul128 (sat_mul128 elapsed window) (2 ^ 16) / rtt in
      (Z.min bytes U64_MAX, Z.min (bytes / mss) U64_MAX)
  end.

Definition wide_pacing_wait_us (deficit scale denominator : Z) : Z :=
  Z.min (sat_add128 (sat_mul128 deficit scale) (denominator - 1) / denominator) U64_MAX.

(** [u64::try_from] on a [u128]. *)
Definition narrow (v : Z) : option Z := if v <=? U64_MAX then Some v else None.

Definition pacing_wait_us (deficit scale denominator : Z) : Z :=
  let denominator := Z.max denominator 1 in
  if deficit =? 0 then 0 else
  match (s ← narrow scale; d ← narrow denominator;
         v ← checked_mul deficit s; checked_add v (d - 1)) with
  | Some numerator => numerator / denominator
  | None => wide_pacing_wait_us deficit scale denominator
  end.

Record PacingConfig : Type := mkPacingConfig {
  pacing_enabled : bool;
  max_burst_packets : Z;
  max_burst_bytes : Z;
}.

Definition pacing_config_is_valid (c : PacingConfig) : bool :=
  negb (max_burst_packets c =? 0) && (max_burst_packets c <=? 256)
  && (max_burst_bytes c >=? 1100) && (max_burst_bytes c <=? 1048576).

(** ** Path state: the fields of admission and loss detection *)
Record PathTransport : Type := mkPathTransport {
  congestion : CongestionController;
  rtt : RttEstimator;
  pacing_config : PacingConfig;
  pacing_byte_tokens_q16 : Z;
  pacing_packet_tokens_q16 : Z;
  pacing_last_refill_us : Z;
  pacing_deadline_us : option Z;
  send_clock : Z;
  largest_acked_send_order : option Z;
  spurious_losses : Z;
  packet_reordering_threshold : Z;
  loss_time_ratio_q16 : Z;
}.

Module Path.

Definition new (mps : Z) (cfg : PacingConfig) : PathTransport :=
  mkPathTransport (CC.new mps) Rtt.default cfg (Z.shiftl (max_burst_bytes cfg) 16)
    (Z.shiftl (max_burst_packets cfg) 16) 0 None 0 None 0 3 (9 * 2 ^ 16 / 8).

Definition set_pacing_config (p : PathTransport) (cfg : PacingConfig) : PathTransport :=
  mkPathTransport (congestion p) (rtt p) cfg (Z.shiftl (max_burst_bytes cfg) 16)
    (Z.shiftl (max_burst_packets cfg) 16) (send_clock p) None (send_clock p)
    (largest_acked_send_order p) (spurious_losses p) (packet_reordering_threshold p)
    (loss_time_ratio_q16 p).

(** The pacing fields, the rest kept. *)
Definition with_pacing (p : PathTransport) (bt pt last : Z) (deadline : option Z) : PathTransport :=
  mkPathTransport (congestion p) (rtt p) (pacing_config p) bt pt last deadline (send_clock p)
    (largest_acked_send_order p) (spurious_losses p) (packet_reordering_threshold p)
    (loss_time_ratio_q16 p).

Definition pacing_window (p : PathTransport) : Z := Z.max (congestion_window (congestion p)) 1.
Definition pacing_rtt (p : PathTransport) : Z := Z.max (default 100000 (Rtt.smoothed (rtt p))) 1.
Definition pacing_mss (p : PathTransport) : Z := Z.max (max_packet_size (congestion p)) 1.

(** The refill at the head of [can_send_paced]. *)
Definition refill (p : PathTransport) (now_us : Z) : PathTransport :=
  let elapsed := sat_sub now_us (pacing_last_refill_us p) in
  if elapsed =? 0 then p else
  let byte_cap := Z.shiftl (max_burst_bytes (pacing_config p)) 16 in
  let packet_cap := Z.shiftl (max_burst_packets (pacing_config p)) 16 in
  let '(byte_refill, packet_refill) :=
    pacing_refill_tokens elapsed (pacing_window p) (pacing_rtt p) (pacing_mss p) in
  with_pacing p (Z.min (sat_add (pacing_byte_tokens_q16 p) byte_refill) byte_cap)
    (Z.min (sat_add (pacing_packet_tokens_q16 p) packet_refill) packet_cap)
    now_us (pacing_deadline_us p).

Definition set_deadline (p : PathTransport) (d : option Z) : PathTransport :=
  with_pacing p (pacing_byte_tokens_q16 p) (pacing_packet_tokens_q16 p)
    (pacing_last_refill_us p) d.

Definition can_send_paced (p : PathTransport) (packet_bytes now_us : Z) : bool * PathTransport :=
  if negb (pacing_enabled (pacing_config p)) then (true, set_deadline p None) else
  let Q16 := 2 ^ 16 in
  let p := refill p now_us in
  let needed_bytes := sat_mul packet_bytes Q16 in
  let needed_packet := Z.shiftl 1 16 in
  let byte_deficit := sat_sub needed_bytes (pacing_byte_tokens_q16 p) in
  let packet_deficit := sat_sub needed_packet (pacing_packet_tokens_q16 p) in
  if negb (byte_deficit =? 0) || negb (packet_deficit =? 0) then
    let byte_denominator := Z.max (sat_mul128 (pacing_window p) Q16) 1 in
    let byte_wait := pacing_wait_us byte_deficit (pacing_rtt p) byte_denominator in
    let packet_denominator := Z.max (sat_mul128 (pacing_rtt p) (pacing_mss p)) 1 in
    let packet_wait := if packet_deficit =? 0 then 0
                       else pacing_wait_us packet_deficit packet_denominator byte_denominator in
    (false, set_deadline p (Some (sat_add now_us (Z.max (Z.max byte_wait packet_wait) 1))))
  else (true, set_deadline p None).

Definition try_reserve_pacing (p : PathTransport) (packet_bytes now_us : Z) : bool * PathTransport :=
  match can_send_paced p packet_bytes now_us with
  | (false, p') => (false, p')
  | (true, p') =>
      if pacing_enabled (pacing_config p') then
        (true, with_pacing p' (pacing_byte_tokens_q16 p' - sat_mul packet_bytes (2 ^ 16))
                 (pacing_packet_tokens_q16 p' - 2 ^ 16) (pacing_last_refill_us p')
                 (pacing_deadline_us p'))
      else (true, p')
  end.

Definition loss_base_rtt_us (p : PathTransport) : Z :=
  Z.max (Z.max (default 25000 (Rtt.latest (rtt p))) (default 25000 (Rtt.smoothed (rtt p)))) 1.

Definition loss_delay_us (p : PathTransport) (max_ack_delay_us : Z) : Z :=
  sat_add (div_ceil (sat_mul (loss_base_rtt_us p) (loss_time_ratio_q16 p)) (2 ^ 16))
    max_ack_delay_us.

Definition record_spurious_loss_ack (p : PathTransport) (send_order sent_at : Z) : PathTransport :=
  let distance :=
    sat_add (sat_sub (default send_order (largest_acked_send_order p)) send_order) 1 in
  let threshold := Z.max (packet_reordering_threshold p) (Z.min distance 128) in
  let elapsed := sat_sub (send_clock p) sent_at in
  let ratio := div_ceil (sat_mul elapsed (9 * 2 ^ 16)) (sat_mul (loss_base_rtt_us p) 8) in
  mkPathTransport (congestion p) (rtt p) (pacing_config p) (pacing_byte_tokens_q16 p)
    (pacing_packet_tokens_q16 p) (pacing_last_refill_us p) (pacing_deadline_us p) (send_clock p)
    (largest_acked_send_order p) (sat_add (spurious_losses p) 1) threshold
    (Z.max (loss_time_ratio_q16 p) (Z.min ratio (4 * 2 ^ 16))).
End Path.

(** ** RTT bounds *)
Definition rtt_within (lo hi : Z) (r : RttEstimator) : Prop :=
  0 <= rttvar r <= hi /\
  (forall s, smoothed_rtt r = Some s -> lo <= s <= hi) /\
  (forall m, min_rtt r = Some m -> lo <= m <= hi) /\
  (forall m l, min_rtt r = Some m -> latest_rtt r = Some l -> m <= l) /\
  (min_rtt r = None -> min_rtt_sampled_at_us r = None).

Lemma sat_add_small a b : 0 <= a + b <= U64_MAX -> sat_add a b = a + b.
Proof. unfold sat_add. lia. Qed.

Lemma sat_mul_small a b : a * b <= U64_MAX -> sat_mul a b = a * b.
Proof. unfold sat_mul. lia. Qed.

Lemma update_at_within lo hi r sample now :
  0 <= lo <= sample -> sample <= hi <= 2 ^ 60 -> rtt_within lo hi r ->
  rtt_within lo hi (Rtt.update_at r sample now).
Proof.
  intros Hlo Hhi (Hv & Hs & Hm & Hml & Hn). unfold Rtt.update_at.
  set (refresh := _ || _).
  assert (Hkeep : refresh = false -> exists m, min_rtt r = Some m /\ m <= sample).
  { unfold refresh. intros [_ H]%orb_false_iff. destruct (min_rtt r) as [m|]; [|done].
    exists m. split; [done|]. by apply Z.ltb_ge in H. }
  assert (Hmin : (forall m, (if refresh then Some sample else min_rtt r) = Some m ->
                  lo <= m <= hi /\ m <= sample) /\
                 ((if refresh then Some sample else min_rtt r) = None -> False)).
  { destruct refresh; [split; [intros m [= <-]; lia|done]|].
    destruct (Hkeep eq_refl) as (m0 & Hm0 & ?). rewrite Hm0. specialize (Hm m0 Hm0).
    split; [intros m [= <-]; lia|done]. }
  destruct Hmin as [Hmin Hnone].
  destruct (smoothed_rtt r) as [s|] eqn:Hsm.
  - specialize (Hs s eq_refl). unfold U64_MAX in *.
    rewrite !sat_mul_small by (unfold U64_MAX; lia). rewrite !sat_add_small by (unfold U64_MAX; lia).
    unfold rtt_within. cbn [rttvar smoothed_rtt min_rtt latest_rtt min_rtt_sampled_at_us].
    split; [split; [apply Z.div_pos; lia|apply Z.div_le_upper_bound; lia]|].
    split; [intros ? [= <-]; split; [apply Z.div_le_lower_bound; lia|apply Z.div_le_upper_bound; lia]|].
    split; [intros m Hmm; by apply Hmin|].
    split; [intros m l Hmm [= <-]; by apply Hmin|]. intros Hc. by destruct (Hnone Hc).
  - unfold rtt_within. cbn [rttvar smoothed_rtt min_rtt latest_rtt min_rtt_sampled_at_us].
    split; [split; [apply Z.div_pos; lia|apply Z.div_le_upper_bound; lia]|].
    split; [intros ? [= <-]; lia|]. split; [intros m Hmm; by apply Hmin|].
    split; [intros m l Hmm [= <-]; by apply Hmin|]. intros Hc. by destruct (Hnone Hc).
Qed.

Definition feed (samples : list (Z * Z)) (r : RttEstimator) : RttEstimator :=
  fold_left (fun r x => Rtt.update_at r x.1 x.2) samples r.

Lemma feed_within lo hi samples r :
  0 <= lo -> hi <= 2 ^ 60 -> Forall (fun x => lo <= x.1 <= hi) samples -> rtt_within lo hi r ->
  rtt_within lo hi (feed samples r).
Proof.
  intros Hlo Hhi Hf. revert r. induction Hf as [|x l Hx _ IH]; intros r Hr; [done|].
  apply IH. apply update_at_within; [lia|lia|done].
Qed.

Lemma update_at_set r sample now :
  exists s m, smoothed_rtt (Rtt.update_at r sample now) = Some s /\
    latest_rtt (Rtt.update_at r sample now) = Some sample /\
    min_rtt (Rtt.update_at r sample now) = Some m.
Proof.
  unfold Rtt.update_at. destruct (smoothed_rtt r); simpl;
    (destruct (_ || _) eqn:H; [eauto|]; apply orb_false_iff in H as [_ H];
     destruct (min_rtt r); [eauto|done]).
Qed.

(** ** Congestion window *)
Inductive cc_op : Type :=
  | CSent (bytes : Z)
  | CRetransmitted (bytes : Z)
  | CAck (bytes : Z) (growth : bool)
  | CRemove (bytes : Z)
  | CLost (bytes pn largest : Z)
  | CPersistent (largest : Z)
  | CResume.

Definition cc_apply (c : CongestionController) (op : cc_op) : CongestionController :=
  match op with
  | CSent b => (CC.on_packet_sent c b).2
  | CRetransmitted b => CC.on_retransmission_sent c b
  | CAck b g => CC.on_ack_with_growth c b g
  | CRemove b => CC.remove_in_flight c b
  | CLost b pn l => CC.on_packet_lost c b pn l
  | CPersistent l => CC.on_persistent_congestion c l
  | CResume => CC.reset_for_resumption c
  end.

Definition cc_op_ok (op : cc_op) : Prop :=
  match op with
  | CSent b | CRetransmitted b | CAck b _ | CRemove b | CLost b _ _ => is_u64 b
  | _ => True
  end.

Definition cc_ok (c : CongestionController) : Prop :=
  1 <= max_packet_size c <= 2 ^ 32 /\
  2 * max_packet_size c <= congestion_window c <= U64_MAX /\
  2 * max_packet_size c <= slow_start_threshold c /\
  0 <= bytes_in_flight c <= U64_MAX.

Lemma cc_new_ok mps : 0 <= mps <= 2 ^ 32 -> cc_ok (CC.new mps).
Proof. intros H. unfold cc_ok, U64_MAX. simpl. unfold U64_MAX. lia. Qed.

(** Growth on an acknowledgement: at most the bytes acknowledged. *)
Lemma on_ack_growth c b g :
  cc_ok c -> is_u64 b ->
  let c' := CC.on_ack_with_growth c b g in
  cc_ok c' /\ max_packet_size c' = max_packet_size c /\
  congestion_window c <= congestion_window c'
    <= congestion_window c + Z.min b (bytes_in_flight c) /\
  bytes_in_flight c' = bytes_in_flight c - Z.min b (bytes_in_flight c).
Proof.
  intros (Hm & Hw & Ht & Hf) Hb. unfold CC.on_ack_with_growth.
  set (acked := Z.min b (bytes_in_flight c)). assert (0 <= acked) by lia.
  assert (acked <= bytes_in_flight c) by lia. unfold U64_MAX in *.
  destruct (Z.eqb_spec acked 0) as [Ha0|Ha0]; simpl; [unfold cc_ok, U64_MAX; simpl; lia|].
  destruct g; simpl; [|unfold cc_ok, U64_MAX; simpl; lia].
  destruct (Z.ltb_spec (congestion_window c) (slow_start_threshold c)).
  - unfold cc_ok, sat_add, U64_MAX. simpl. lia.
  - set (inc := Z.max _ 1). assert (1 <= inc <= acked).
    { split; [lia|]. apply Z.max_lub; [|lia]. rewrite Z.max_l by lia.
      apply Z.div_le_upper_bound; [lia|]. unfold sat_mul. nia. }
    unfold cc_ok, sat_add, U64_MAX. simpl. lia.
Qed.

Ltac cc_arith := unfold cc_ok in *; simpl in *; unfold sat_add, sat_sub, U64_MAX in *; lia.

Lemma cc_apply_ok c op :
  cc_op_ok op -> cc_ok c ->
  cc_ok (cc_apply c op) /\ max_packet_size (cc_apply c op) = max_packet_size c.
Proof.
  intros Hop Hok. pose proof Hok as (Hm & Hw & Ht & Hf).
  destruct op as [b|b|b g|b|b pn l|l|]; simpl in *.
  - unfold CC.on_packet_sent. destruct (CC.can_send c b); simpl; [|done].
    cc_arith.
  - cc_arith.
  - destruct (on_ack_growth c b g Hok Hop) as (? & ? & _). done.
  - cc_arith.
  - unfold CC.on_packet_lost. destruct (b =? 0); [done|]. cbn [CC.set_flight recovery_start_packet].
    assert (Hhalf : 0 <= congestion_window c / 2 <= congestion_window c)
      by (split; [apply Z.div_pos; lia|apply Z.div_le_upper_bound; lia]).
    cbn [congestion_window max_packet_size CC.set_flight].
    set (half := congestion_window c / 2) in *. clearbody half.
    destruct (match recovery_start_packet c with Some s => pn <=? s | None => false end);
      cc_arith.
  - cc_arith.
  - cc_arith.
Qed.

Lemma cc_runs_ok ops c :
  Forall cc_op_ok ops -> cc_ok c ->
  cc_ok (fold_left cc_apply ops c) /\
  max_packet_size (fold_left cc_apply ops c) = max_packet_size c.
Proof.
  intros Hops. revert c. induction Hops as [|op ops Hop _ IH]; intros c Hc; simpl; [done|].
  destruct (cc_apply_ok c op Hop Hc) as [Hok Hm]. destruct (IH _ Hok) as [? Hm'].
  split; [done|]. by rewrite Hm', Hm.
Qed.

(** A loss inside the current epoch only releases its bytes. *)
Lemma on_packet_lost_in_epoch c b pn l start :
  recovery_start_packet c = Some start -> pn <= start ->
  congestion_window (CC.on_packet_lost c b pn l) = congestion_window c /\
  slow_start_threshold (CC.on_packet_lost c b pn l) = slow_start_threshold c /\
  recovery_start_packet (CC.on_packet_lost c b pn l) = Some start.
Proof.
  intros Hs Hp. unfold CC.on_packet_lost. destruct (b =? 0); [done|].
  cbn [CC.set_flight recovery_start_packet]. rewrite Hs, (proj2 (Z.leb_le _ _)) by done. done.
Qed.

Lemma losses_in_epoch losses c start :
  recovery_start_packet c = Some start -> Forall (fun x => x.2 <= start) losses ->
  forall l, congestion_window (fold_left (fun c x => CC.on_packet_lost c x.1 x.2 l) losses c)
    = congestion_window c.
Proof.
  intros Hs Hf l. revert c Hs. induction Hf as [|[b pn] losses Hp _ IH]; intros c Hs; simpl; [done|].
  destruct (on_packet_lost_in_epoch c b pn l start Hs Hp) as (Hw & _ & Hr).
  rewrite IH by done. done.
Qed.

(** ** Pacing quotients *)
Lemma refill_closed e w r m :
  0 <= e -> 0 <= w -> 1 <= r -> 1 <= m -> e * w * 2 ^ 16 <= U128_MAX ->
  pacing_refill_tokens e w r m =
    (Z.min (e * w * 2 ^ 16 / r) U64_MAX, Z.min (e * w * 2 ^ 16 / (r * m)) U64_MAX).
Proof.
  intros He Hw Hr Hm Hb. unfold pacing_refill_tokens. rewrite !Z.max_l by lia.
  assert (Hq : 0 <= e * w * 2 ^ 16) by nia.
  assert (Hd : forall k, 1 <= k -> e * w * 2 ^ 16 / k <= e * w * 2 ^ 16)
    by (intros; apply Z.div_le_upper_bound; nia).
  assert (Hsat : sat_mul128 (sat_mul128 e w) (2 ^ 16) = e * w * 2 ^ 16).
  { assert (Hew : 0 <= e * w) by nia. unfold sat_mul128.
    rewrite (Z.min_l (e * w) U128_MAX) by lia. by apply Z.min_l. }
  unfold checked_mul. destruct (Z.leb_spec (e * w) U64_MAX); simpl.
  1: destruct (Z.leb_spec (e * w * 2 ^ 16) U64_MAX).
  - rewrite Z.div_div by lia.
    by rewrite !Z.min_l by (etrans; [apply Hd; nia|done]).
  - by rewrite Hsat, Z.div_div by lia.
  - by rewrite Hsat, Z.div_div by lia.
Qed.

Lemma wait_closed d s den :
  0 <= d -> 0 <= s -> 1 <= den -> d * s + den - 1 <= U128_MAX ->
  pacing_wait_us d s den = Z.min ((d * s + den - 1) / den) U64_MAX.
Proof.
  intros Hd Hs Hden Hb. unfold pacing_wait_us. rewrite Z.max_l by lia.
  destruct (Z.eqb_spec d 0) as [->|Hd0].
  { rewrite Z.div_small by lia. unfold U64_MAX. lia. }
  assert (Hq : 0 <= d * s) by nia.
  assert (Hle : (d * s + den - 1) / den <= d * s + den - 1) by (apply Z.div_le_upper_bound; nia).
  assert (Hwide : wide_pacing_wait_us d s den = Z.min ((d * s + den - 1) / den) U64_MAX).
  { unfold wide_pacing_wait_us, sat_mul128, sat_add128.
    rewrite (Z.min_l (d * s) U128_MAX), (Z.min_l (d * s + (den - 1)) U128_MAX) by lia.
    do 2 f_equal. lia. }
  unfold narrow, checked_mul, checked_add.
  destruct (Z.leb_spec s U64_MAX); simpl; [|done].
  destruct (Z.leb_spec den U64_MAX); simpl; [|done].
  destruct (Z.leb_spec (d * s) U64_MAX); simpl; [|done].
  destruct (Z.leb_spec (d * s + (den - 1)) U64_MAX); [|done].
  replace (d * s + (den - 1)) with (d * s + den - 1) in * by lia.
  symmetry. apply Z.min_l. etrans; [exact Hle|done].
Qed.

(** The wait is long enough: [t >= ceil(d * s / den)] gives [t * den >= d * s]. *)
Lemma ceil_enough a den t : 0 < den -> (a + den - 1) / den <= t -> a <= t * den.
Proof.
  intros Hden Ht. pose proof (Z.div_mod (a + den - 1) den ltac:(lia)).
  pose proof (Z.mod_pos_bound (a + den - 1) den ltac:(lia)). nia.
Qed.

(** ** The token bucket *)

(** The sizes for which no intermediate product saturates: windows and RTTs up
    to [2^40], packets up to [2^32] bytes, times below [2^62] microseconds. *)
Definition pacing_sane (p : PathTransport) : Prop :=
  congestion_window (congestion p) <= 2 ^ 40 /\ max_packet_size (congestion p) <= 2 ^ 32 /\
  default 100000 (smoothed_rtt (rtt p)) <= 2 ^ 40 /\
  0 <= max_burst_bytes (pacing_config p) < 2 ^ 32 /\
  0 <= max_burst_packets (pacing_config p) < 2 ^ 16 /\
  0 <= pacing_byte_tokens_q16 p <= Z.shiftl (max_burst_bytes (pacing_config p)) 16 /\
  0 <= pacing_packet_tokens_q16 p <= Z.shiftl (max_burst_packets (pacing_config p)) 16 /\
  0 <= pacing_last_refill_us p.

Lemma pacing_sane_pos p :
  pacing_sane p -> 1 <= Path.pacing_window p <= 2 ^ 40 /\ 1 <= Path.pacing_rtt p <= 2 ^ 40 /\
  1 <= Path.pacing_mss p <= 2 ^ 32.
Proof.
  intros (? & ? & ? & _). unfold Path.pacing_window, Path.pacing_rtt, Path.pacing_mss, Rtt.smoothed.
  lia.
Qed.

(** The refill in closed form. *)
Lemma refill_spec p now :
  pacing_sane p -> pacing_last_refill_us p <= now < 2 ^ 62 ->
  let p' := Path.refill p now in
  let n := (now - pacing_last_refill_us p) * Path.pacing_window p * 2 ^ 16 in
  pacing_byte_tokens_q16 p' =
    Z.min (pacing_byte_tokens_q16 p + n / Path.pacing_rtt p)
          (Z.shiftl (max_burst_bytes (pacing_config p)) 16) /\
  pacing_packet_tokens_q16 p' =
    Z.min (pacing_packet_tokens_q16 p + n / (Path.pacing_rtt p * Path.pacing_mss p))
          (Z.shiftl (max_burst_packets (pacing_config p)) 16) /\
  pacing_last_refill_us p' = now /\ congestion p' = congestion p /\ rtt p' = rtt p /\
  pacing_config p' = pacing_config p.
Proof.
  intros Hs Hnow. pose proof (pacing_sane_pos p Hs) as (Hw & Hr & Hm).
  pose proof Hs as (_ & _ & _ & Hbb & Hbp & Hb & Hp & Hl0).
  rewrite !Z.shiftl_mul_pow2 in * by lia. unfold Path.refill. cbv zeta.
  set (e := sat_sub now (pacing_last_refill_us p)).
  replace (now - pacing_last_refill_us p) with e by (unfold e, sat_sub; lia).
  set (n := e * Path.pacing_window p * 2 ^ 16).
  destruct (Z.eqb_spec e 0) as [He|He].
  - assert (n = 0) as -> by (unfold n; rewrite He; lia).
    rewrite !Z.div_0_l by nia. unfold e, sat_sub in He. repeat split; try reflexivity; lia.
  - assert (He' : 0 <= e < 2 ^ 62) by (unfold e, sat_sub; lia).
    assert (Hn : 0 <= n <= U128_MAX) by (unfold n, U128_MAX; nia).
    rewrite refill_closed by (fold n; lia). fold n.
    assert (0 <= n / Path.pacing_rtt p) by (apply Z.div_pos; lia).
    assert (0 <= n / (Path.pacing_rtt p * Path.pacing_mss p)) by (apply Z.div_pos; nia).
    rewrite !Z.shiftl_mul_pow2 by lia.
    cbn [Path.with_pacing pacing_byte_tokens_q16 pacing_packet_tokens_q16 pacing_last_refill_us
         congestion rtt pacing_config].
    unfold sat_add, U64_MAX. repeat split; try reflexivity; lia.
Qed.

Lemma refill_sane p now :
  pacing_sane p -> pacing_last_refill_us p <= now < 2 ^ 62 -> pacing_sane (Path.refill p now).
Proof.
  intros Hs Hnow. pose proof (pacing_sane_pos p Hs) as (Hw & Hr & Hm).
  destruct (refill_spec p now Hs Hnow) as (Hb & Hp & Hl & Hc & Hrt & Hcfg).
  set (n := (now - pacing_last_refill_us p) * Path.pacing_window p * 2 ^ 16) in *.
  assert (0 <= n) by (unfold n; nia).
  assert (0 <= n / Path.pacing_rtt p) by (apply Z.div_pos; lia).
  assert (0 <= n / (Path.pacing_rtt p * Path.pacing_mss p)) by (apply Z.div_pos; nia).
  destruct Hs as (? & ? & ? & ? & ? & ? & ? & ?).
  unfold pacing_sane. rewrite Hb, Hp, Hl, Hc, Hrt, Hcfg.
  rewrite !Z.shiftl_mul_pow2 in * by lia. repeat split; lia.
Qed.

(** The refill never adds more than the rate allows. *)
Lemma refill_rate p now :
  pacing_sane p -> pacing_last_refill_us p <= now < 2 ^ 62 ->
  Path.pacing_rtt p * pacing_byte_tokens_q16 (Path.refill p now) <=
  Path.pacing_rtt p * pacing_byte_tokens_q16 p +
  (now - pacing_last_refill_us p) * Path.pacing_window p * 2 ^ 16.
Proof.
  intros Hs Hnow. pose proof (pacing_sane_pos p Hs) as (Hw & Hr & Hm).
  destruct (refill_spec p now Hs Hnow) as (-> & _).
  set (n := (now - _) * _ * _). pose proof (Z.mul_div_le n (Path.pacing_rtt p) ltac:(lia)).
  nia.
Qed.

(** Whether the bucket covers a packet, and the answer of [can_send_paced]. *)
Lemma can_send_paced_spec p b now :
  pacing_enabled (pacing_config p) = true -> 0 <= b < 2 ^ 32 ->
  let q := Path.refill p now in
  (Path.can_send_paced p b now).1 =
    (b * 2 ^ 16 <=? pacing_byte_tokens_q16 q) && (2 ^ 16 <=? pacing_packet_tokens_q16 q) /\
  pacing_byte_tokens_q16 (Path.can_send_paced p b now).2 = pacing_byte_tokens_q16 q /\
  pacing_packet_tokens_q16 (Path.can_send_paced p b now).2 = pacing_packet_tokens_q16 q /\
  pacing_last_refill_us (Path.can_send_paced p b now).2 = pacing_last_refill_us q /\
  congestion (Path.can_send_paced p b now).2 = congestion q /\
  rtt (Path.can_send_paced p b now).2 = rtt q /\
  pacing_config (Path.can_send_paced p b now).2 = pacing_config q.
Proof.
  intros Hen Hb q. unfold Path.can_send_paced. rewrite Hen. cbn [negb]. cbv zeta. fold q.
  rewrite sat_mul_small by (unfold U64_MAX; lia). change (Z.shiftl 1 16) with (2 ^ 16).
  unfold sat_sub.
  destruct (Z.leb_spec (b * 2 ^ 16) (pacing_byte_tokens_q16 q)),
           (Z.leb_spec (2 ^ 16) (pacing_packet_tokens_q16 q));
    repeat match goal with |- context [Z.max ?x 0 =? 0] =>
      destruct (Z.eqb_spec (Z.max x 0) 0); [|] end; try lia; simpl; repeat split; done.
Qed.

(** The deadline a refusal sets. *)
Lemma refusal_deadline p b now p' d :
  pacing_sane p -> pacing_enabled (pacing_config p) = true -> 0 <= b < 2 ^ 32 ->
  pacing_last_refill_us p <= now < 2 ^ 62 ->
  Path.can_send_paced p b now = (false, p') -> pacing_deadline_us p' = Some d ->
  let q := Path.refill p now in
  let den := Path.pacing_window p * 2 ^ 16 in
  let db := sat_sub (b * 2 ^ 16) (pacing_byte_tokens_q16 q) in
  let dp := sat_sub (2 ^ 16) (pacing_packet_tokens_q16 q) in
  d = sat_add now (Z.max (Z.max (Z.min ((db * Path.pacing_rtt p + den - 1) / den) U64_MAX)
        (Z.min ((dp * (Path.pacing_rtt p * Path.pacing_mss p) + den - 1) / den) U64_MAX)) 1).
Proof.
  intros Hs Hen Hb Hnow Hc Hd. cbv zeta.
  pose proof (pacing_sane_pos p Hs) as (Hw & Hr & Hm).
  pose proof (refill_sane p now Hs Hnow) as (_ & _ & _ & _ & _ & Htb & Htp & _).
  destruct (refill_spec p now Hs Hnow) as (_ & _ & _ & Hcq & Hrq & Hcfg).
  revert Hc. unfold Path.can_send_paced. rewrite Hen. cbn [negb]. cbv zeta.
  set (q := Path.refill p now) in *.
  assert (Path.pacing_window q = Path.pacing_window p) as -> by (unfold Path.pacing_window; by rewrite Hcq).
  assert (Path.pacing_rtt q = Path.pacing_rtt p) as -> by (unfold Path.pacing_rtt; by rewrite Hrq).
  assert (Path.pacing_mss q = Path.pacing_mss p) as -> by (unfold Path.pacing_mss; by rewrite Hcq).
  rewrite sat_mul_small by (unfold U64_MAX; lia). change (Z.shiftl 1 16) with (2 ^ 16).
  set (db := sat_sub (b * 2 ^ 16) _). set (dp := sat_sub (2 ^ 16) _).
  assert (Hdb : 0 <= db < 2 ^ 48) by (unfold db, sat_sub; lia).
  assert (Hdp : 0 <= dp <= 2 ^ 16) by (unfold dp, sat_sub; lia).
  destruct (negb (db =? 0) || negb (dp =? 0)); [|done]. intros [= <-].
  simpl in Hd. injection Hd as <-.
  unfold sat_mul128. rewrite (Z.min_l (Path.pacing_window p * 2 ^ 16) U128_MAX),
    (Z.min_l (Path.pacing_rtt p * Path.pacing_mss p) U128_MAX),
    (Z.max_l (Path.pacing_window p * 2 ^ 16) 1),
    (Z.max_l (Path.pacing_rtt p * Path.pacing_mss p) 1) by (unfold U128_MAX; nia).
  rewrite wait_closed by (unfold U128_MAX; nia).
  set (den := Path.pacing_window p * 2 ^ 16). f_equal. f_equal. f_equal.
  destruct (Z.eqb_spec dp 0) as [->|].
  - rewrite Z.mul_0_l, Z.add_0_l, Z.div_small by (unfold den; lia). unfold U64_MAX. lia.
  - assert (Hrm : 1 <= Path.pacing_rtt p * Path.pacing_mss p <= 2 ^ 72) by nia.
    apply wait_closed; unfold den, U128_MAX; nia.
Qed.

Lemma refusal_sets_deadline p b now p' :
  Path.can_send_paced p b now = (false, p') -> pacing_deadline_us p' = None -> False.
Proof.
  unfold Path.can_send_paced. destruct (pacing_enabled _); [|done]. cbn [negb]. cbv zeta.
  destruct (negb (_ =? 0) || negb (_ =? 0)); [|done]. by intros [= <-].
Qed.

Lemma tokens_cover tok cap need n r :
  1 <= r -> need <= cap -> (need - tok) * r <= n -> need <= Z.min (tok + n / r) cap.
Proof.
  intros Hr Hcap Hn. assert (need - tok <= n / r) by (apply Z.div_le_lower_bound; lia). lia.
Qed.

(** A sequence of paced sends, with the bytes admitted. *)
Fixpoint run_paced (p : PathTransport) (reqs : list (Z * Z)) : Z * PathTransport :=
  match reqs with
  | [] => (0, p)
  | (b, now) :: reqs' =>
      let '(ok, p') := Path.try_reserve_pacing p b now in
      let '(sent, p'') := run_paced p' reqs' in
      ((if ok then b else 0) + sent, p'')
  end.

(** Requests with a clock that does not run backwards. *)
Fixpoint clocked (t : Z) (reqs : list (Z * Z)) : Prop :=
  match reqs with
  | [] => True
  | (b, now) :: reqs' => 0 <= b < 2 ^ 32 /\ t <= now < 2 ^ 62 /\ clocked now reqs'
  end.

Definition last_time (t : Z) (reqs : list (Z * Z)) : Z := fold_left (fun _ x => x.2) reqs t.

(** One send moves the potential [rtt * tokens - window * 2^16 * time] down by
    what it admits. *)
Lemma try_reserve_potential p b now :
  pacing_sane p -> pacing_enabled (pacing_config p) = true -> 0 <= b < 2 ^ 32 ->
  pacing_last_refill_us p <= now < 2 ^ 62 ->
  let '(ok, p') := Path.try_reserve_pacing p b now in
  pacing_sane p' /\ pacing_enabled (pacing_config p') = true /\
  Path.pacing_rtt p' = Path.pacing_rtt p /\ Path.pacing_window p' = Path.pacing_window p /\
  pacing_last_refill_us p' = now /\
  Path.pacing_rtt p * (pacing_byte_tokens_q16 p' + (if ok then b else 0) * 2 ^ 16) <=
  Path.pacing_rtt p * pacing_byte_tokens_q16 p +
  (now - pacing_last_refill_us p) * Path.pacing_window p * 2 ^ 16.
Proof.
  intros Hs Hen Hb Hnow. pose proof (refill_sane p now Hs Hnow) as Hq.
  pose proof (refill_rate p now Hs Hnow) as Hrate.
  destruct (refill_spec p now Hs Hnow) as (_ & _ & Hl & Hc & Hr & Hcfg).
  destruct (can_send_paced_spec p b now Hen Hb) as (Hok & H1 & H2 & H3 & H4 & H5 & H6).
  unfold Path.try_reserve_pacing. destruct (Path.can_send_paced p b now) as [ok p'].
  cbn [fst snd] in *. rewrite Hl in H3. rewrite Hc in H4. rewrite Hr in H5. rewrite Hcfg in H6.
  rewrite <- H1 in Hrate. pose proof (pacing_sane_pos p Hs) as (_ & Hrp & _).
  assert (Hsane' : pacing_sane p').
  { unfold pacing_sane in *. rewrite H1, H2, H3, H4, H5, H6. rewrite Hcfg, Hl in Hq.
    destruct Hq as (_ & _ & _ & _ & _ & ? & ? & ?).
    destruct Hs as (? & ? & ? & ? & ? & _ & _ & _). repeat split; lia. }
  assert (Heqr : Path.pacing_rtt p' = Path.pacing_rtt p) by (unfold Path.pacing_rtt; by rewrite H5).
  assert (Heqw : Path.pacing_window p' = Path.pacing_window p)
    by (unfold Path.pacing_window; by rewrite H4).
  destruct ok; [|rewrite Z.mul_0_l, Z.add_0_r, H6; split; [exact Hsane'|by split; [|split; [|split]]]].
  rewrite H6, Hen. symmetry in Hok. apply andb_true_iff in Hok as [Hb1%Z.leb_le Hb2%Z.leb_le].
  rewrite <- H1 in Hb1. rewrite <- H2 in Hb2. rewrite sat_mul_small by (unfold U64_MAX; lia).
  cbn [Path.with_pacing pacing_byte_tokens_q16 pacing_last_refill_us pacing_config].
  split; [|split; [by rewrite H6|split; [done|split; [done|split; [done|]]]]].
  - destruct Hsane' as (? & ? & ? & ? & ? & ? & ? & ?).
    unfold pacing_sane, Path.with_pacing; simpl. repeat split; lia.
  - replace (pacing_byte_tokens_q16 p' - b * 2 ^ 16 + b * 2 ^ 16) with (pacing_byte_tokens_q16 p')
      by lia. done.
Qed.

Lemma run_paced_potential reqs p :
  pacing_sane p -> pacing_enabled (pacing_config p) = true ->
  clocked (pacing_last_refill_us p) reqs ->
  let '(sent, p') := run_paced p reqs in
  0 <= pacing_byte_tokens_q16 p' /\
  Path.pacing_rtt p * (pacing_byte_tokens_q16 p' + sent * 2 ^ 16) <=
  Path.pacing_rtt p * pacing_byte_tokens_q16 p +
  (last_time (pacing_last_refill_us p) reqs - pacing_last_refill_us p)
    * Path.pacing_window p * 2 ^ 16.
Proof.
  revert p. induction reqs as [|[b now] reqs IH]; intros p Hs Hen Hclk; simpl.
  - destruct Hs as (_ & _ & _ & _ & _ & ? & _ & _). unfold last_time. simpl. lia.
  - destruct Hclk as (Hb & Hnow & Hclk).
    pose proof (try_reserve_potential p b now Hs Hen Hb Hnow) as Hstep.
    destruct (Path.try_reserve_pacing p b now) as [ok p'].
    destruct Hstep as (Hs' & Hen' & Hr' & Hw' & Hl' & Hpot).
    specialize (IH p' Hs' Hen'). rewrite Hl' in IH. specialize (IH Hclk).
    destruct (run_paced p' reqs) as [sent p'']. destruct IH as [Htok Hind].
    rewrite Hr', Hw' in Hind. split; [done|].
    replace (last_time (pacing_last_refill_us p) ((b, now) :: reqs)) with (last_time now reqs) by done.
    nia.
Qed.

(** ** Loss thresholds *)
Definition thresholds_ok (p : PathTransport) : Prop :=
  3 <= packet_reordering_threshold p <= 128 /\
  9 * 2 ^ 16 / 8 <= loss_time_ratio_q16 p <= 4 * 2 ^ 16.

Lemma record_spurious_ok p order sent_at :
  thresholds_ok p -> thresholds_ok (Path.record_spurious_loss_ack p order sent_at).
Proof.
  unfold thresholds_ok, Path.record_spurious_loss_ack. simpl. intros [? ?]. lia.
Qed.

Lemma div_ceil_mul a b : 0 < b -> div_ceil (a * b) b = a.
Proof.
  intros. unfold div_ceil. replace (a * b + b - 1) with (a * b + (b - 1)) by lia.
  rewrite Z.div_add_l, Z.div_small by lia. lia.
Qed.

Lemma div_ceil_mono a a' b : 0 < b -> a <= a' -> div_ceil a b <= div_ceil a' b.
Proof. intros. apply Z.div_le_mono; lia. Qed.

(** ** Properties *)

(** The RTT estimate stays inside the range of the samples: after any
    non-empty sequence of samples between [lo] and [hi], the smoothed RTT and
    the minimum lie in that range, the minimum is at most the latest sample, and
    the probe timeout is at least one millisecond and at most five times the
    largest sample plus a millisecond. *)
Theorem rtt_estimate_bounded lo hi samples :
  0 <= lo -> hi <= 2 ^ 60 -> samples <> [] -> Forall (fun x => lo <= x.1 <= hi) samples ->
  let r := feed samples Rtt.default in
  exists s m l, Rtt.smoothed r = Some s /\ Rtt.minimum r = Some m /\ Rtt.latest r = Some l /\
    lo <= s <= hi /\ lo <= m <= l /\ m <= hi /\
    Rtt.GRANULARITY <= Rtt.pto r <= 5 * hi + Rtt.GRANULARITY.
Proof.
  intros Hlo Hhi Hne Hf r.
  destruct samples as [|[x now] samples _] using rev_ind; [done|].
  assert (Hr : rtt_within lo hi r).
  { apply feed_within; [done|done|done|]. apply Forall_app in Hf as [_ [Hx _]%Forall_cons].
    unfold rtt_within. simpl in *. repeat split; try done; lia. }
  assert (Hlast : r = Rtt.update_at (feed samples Rtt.default) x now)
    by (unfold r, feed; by rewrite fold_left_app).
  destruct (update_at_set (feed samples Rtt.default) x now) as (s & m & Hs & Hl & Hm).
  rewrite <- Hlast in Hs, Hl, Hm. destruct Hr as (Hv & Hsr & Hmr & Hml & _).
  specialize (Hsr s Hs). specialize (Hmr m Hm). specialize (Hml m x Hm Hl).
  exists s, m, x. unfold Rtt.smoothed, Rtt.minimum, Rtt.latest.
  repeat (split; [done || lia|]). unfold Rtt.pto, Rtt.GRANULARITY. rewrite Hs.
  rewrite sat_mul_small, sat_add_small by (unfold U64_MAX; lia). lia.
Qed.

Lemma rtt_estimate_bounded_witness :
  let r := feed [(100, 0); (900, 5); (400, 9)] Rtt.default in
  exists s m l, Rtt.smoothed r = Some s /\ Rtt.minimum r = Some m /\ Rtt.latest r = Some l /\
    100 <= s <= 900 /\ 100 <= m <= l /\ m <= 900 /\
    Rtt.GRANULARITY <= Rtt.pto r <= 5 * 900 + Rtt.GRANULARITY.
Proof.
  apply (rtt_estimate_bounded 100 900 [(100, 0); (900, 5); (400, 9)]); [lia|lia|discriminate|].
  repeat constructor; simpl; lia.
Defined.

(** Over every sequence of congestion events the window never falls below
    two packets, so a path can always probe; and an admitted packet never takes
    the bytes in flight above the window. *)
Theorem congestion_window_floor mps ops b :
  0 <= mps <= 2 ^ 32 -> Forall cc_op_ok ops -> is_u64 b ->
  let c := fold_left cc_apply ops (CC.new mps) in
  2 * Z.max mps 1 <= congestion_window c <= U64_MAX /\
  (forall c', CC.on_packet_sent c b = (true, c') ->
     bytes_in_flight c' <= congestion_window c' /\
     bytes_in_flight c' = sat_add (bytes_in_flight c) b) /\
  (forall c', CC.on_packet_sent c b = (false, c') -> c' = c).
Proof.
  intros Hm Hops Hb c. destruct (cc_runs_ok ops (CC.new mps) Hops (cc_new_ok mps Hm)) as [Hok Hmps].
  fold c in Hok, Hmps. destruct Hok as (_ & Hw & _). simpl in Hmps. rewrite Hmps in Hw.
  split; [lia|]. unfold CC.on_packet_sent, CC.can_send. split; intros c'.
  - destruct (Z.leb_spec (sat_add (bytes_in_flight c) b) (congestion_window c)); [|done].
    intros [= <-]. done.
  - destruct (_ <=? _); [done|]. by intros [= <-].
Qed.

Lemma congestion_window_floor_witness :
  2 * 1100 <= congestion_window (fold_left cc_apply
    [CSent 1000; CLost 1000 0 3; CSent 900; CAck 900 true; CPersistent 9] (CC.new 1100)) <= U64_MAX.
Proof.
  apply (congestion_window_floor 1100
    [CSent 1000; CLost 1000 0 3; CSent 900; CAck 900 true; CPersistent 9] 0);
    [lia| |vm_compute; split; discriminate].
  repeat (constructor; [first [exact I | vm_compute; split; discriminate]|]). constructor.
Defined.

(** One loss event, one reduction.  When a flight is lost, the first loss
    halves the window (not below two packets) and every further loss of a packet
    sent before that point leaves the window where it is, while all lost bytes
    leave the flight. *)
Theorem single_reduction_per_epoch c b pn largest losses largest' :
  0 < b -> (forall start, recovery_start_packet c = Some start -> start < pn) ->
  Forall (fun x => x.2 <= largest) losses ->
  congestion_window (fold_left (fun c x => CC.on_packet_lost c x.1 x.2 largest') losses
                       (CC.on_packet_lost c b pn largest))
  = Z.max (congestion_window c / 2) (2 * max_packet_size c).
Proof.
  intros Hb Hnew Hlosses. unfold CC.on_packet_lost at 2.
  rewrite (proj2 (Z.eqb_neq b 0)) by lia. cbn [CC.set_flight recovery_start_packet].
  assert (Hfresh : match recovery_start_packet c with Some s => pn <=? s | None => false end = false).
  { destruct (recovery_start_packet c) as [s|]; [|done]. apply Z.leb_gt. by apply Hnew. }
  rewrite Hfresh. by rewrite (losses_in_epoch losses _ largest).
Qed.

Lemma single_reduction_per_epoch_witness :
  congestion_window (fold_left (fun c x => CC.on_packet_lost c x.1 x.2 9)
    [(1100, 3); (1100, 4); (1100, 5)] (CC.on_packet_lost (CC.new 1100) 1100 2 9)) = 5500.
Proof.
  apply (single_reduction_per_epoch (CC.new 1100) 1100 2 9 [(1100, 3); (1100, 4); (1100, 5)] 9);
    [lia|discriminate|repeat constructor; simpl; lia].
Defined.

(** An acknowledgement removes exactly the acknowledged bytes from the
    flight and grows the window by at most that many bytes, in slow start and
    in congestion avoidance alike; an application-limited one does not grow it. *)
Theorem ack_growth_bounded c b g :
  cc_ok c -> is_u64 b ->
  let c' := CC.on_ack_with_growth c b g in
  bytes_in_flight c' = bytes_in_flight c - Z.min b (bytes_in_flight c) /\
  congestion_window c <= congestion_window c'
    <= congestion_window c + Z.min b (bytes_in_flight c) /\
  (g = false -> congestion_window c' = congestion_window c).
Proof.
  intros Hok Hb. destruct (on_ack_growth c b g Hok Hb) as (_ & _ & Hw & Hf).
  split; [done|]. split; [done|]. intros ->. unfold CC.on_ack_with_growth.
  by destruct (_ =? 0).
Qed.

Lemma ack_growth_bounded_witness :
  congestion_window (CC.new 1100) <= congestion_window
    (CC.on_ack_with_growth (CC.on_retransmission_sent (CC.new 1100) 5000) 2200 true)
    <= congestion_window (CC.new 1100) + 2200.
Proof.
  apply (ack_growth_bounded (CC.on_retransmission_sent (CC.new 1100) 5000) 2200 true);
    vm_compute; repeat split; discriminate.
Defined.

(** The narrow and the wide pacing quotients are one function: below the
    [u128] range, the refill is the exact quotient by the RTT and by RTT times
    packet size, and the wait is the exact ceiling, each clamped to [u64]. *)
Theorem pacing_quotients_exact e w r m d s den :
  0 <= e -> 0 <= w -> 1 <= r -> 1 <= m -> e * w * 2 ^ 16 <= U128_MAX ->
  0 <= d -> 0 <= s -> 1 <= den -> d * s + den - 1 <= U128_MAX ->
  pacing_refill_tokens e w r m =
    (Z.min (e * w * 2 ^ 16 / r) U64_MAX, Z.min (e * w * 2 ^ 16 / (r * m)) U64_MAX) /\
  pacing_wait_us d s den = Z.min ((d * s + den - 1) / den) U64_MAX.
Proof. intros. split; [by apply refill_closed | by apply wait_closed]. Qed.

Lemma pacing_quotients_exact_witness :
  pacing_refill_tokens (2 ^ 40) (2 ^ 40) 7 1100 =
    (Z.min (2 ^ 40 * 2 ^ 40 * 2 ^ 16 / 7) U64_MAX,
     Z.min (2 ^ 40 * 2 ^ 40 * 2 ^ 16 / (7 * 1100)) U64_MAX) /\
  pacing_wait_us 5 7 3 = Z.min ((5 * 7 + 3 - 1) / 3) U64_MAX.
Proof.
  apply (pacing_quotients_exact (2 ^ 40) (2 ^ 40) 7 1100 5 7 3); vm_compute; discriminate.
Defined.

(** Pacing conforms to its token bucket: whatever packets are offered at
    whatever (non-decreasing) times, the bytes admitted by the end are at most
    the configured burst plus the elapsed time at the rate of one congestion
    window per RTT. *)
Theorem pacing_rate_bound p reqs :
  pacing_sane p -> pacing_enabled (pacing_config p) = true ->
  clocked (pacing_last_refill_us p) reqs ->
  Path.pacing_rtt p * (run_paced p reqs).1 <=
  Path.pacing_rtt p * max_burst_bytes (pacing_config p) +
  (last_time (pacing_last_refill_us p) reqs - pacing_last_refill_us p) * Path.pacing_window p.
Proof.
  intros Hs Hen Hclk. pose proof (run_paced_potential reqs p Hs Hen Hclk) as H.
  destruct (run_paced p reqs) as [sent p']. destruct H as [Htok Hpot]. cbn [fst].
  pose proof (pacing_sane_pos p Hs) as (Hw & Hr & _).
  destruct Hs as (_ & _ & _ & Hbb & _ & Hb & _ & _). rewrite Z.shiftl_mul_pow2 in Hb by lia.
  set (dt := (last_time _ _ - _) * _) in *. nia.
Qed.

Definition paced_example : PathTransport := Path.new 1100 (mkPacingConfig true 4 4400).

Lemma pacing_rate_bound_witness :
  100000 * (run_paced paced_example [(1100, 0); (1100, 0); (1100, 0); (1100, 0); (1100, 1);
                                     (1100, 20000)]).1 <= 100000 * 4400 + 20000 * 11000.
Proof.
  apply (pacing_rate_bound paced_example [(1100, 0); (1100, 0); (1100, 0); (1100, 0); (1100, 1);
                                     (1100, 20000)]);
    [vm_compute; repeat split; try discriminate|reflexivity|simpl; lia].
Defined.

(** A paced write is never starved: when admission is refused, the
    deadline it sets is later than now, and the same packet is admitted at any
    time from the deadline on, provided it fits the configured burst. *)
Theorem pacing_deadline_admits p b now p' t :
  pacing_sane p -> pacing_enabled (pacing_config p) = true ->
  0 <= b <= max_burst_bytes (pacing_config p) -> 1 <= max_burst_packets (pacing_config p) ->
  pacing_last_refill_us p <= now < 2 ^ 62 ->
  Path.can_send_paced p b now = (false, p') ->
  exists d, pacing_deadline_us p' = Some d /\ now < d /\
    (d <= t < 2 ^ 62 -> (Path.can_send_paced p' b t).1 = true).
Proof.
  intros Hs Hen Hb Hbp Hnow Hc.
  assert (Hbs : 0 <= b < 2 ^ 32) by (destruct Hs as (_ & _ & _ & ? & _); lia).
  destruct (pacing_deadline_us p') as [d|] eqn:Hd; [|exfalso; by eapply refusal_sets_deadline].
  pose proof (refusal_deadline p b now p' d Hs Hen Hbs Hnow Hc Hd) as Hdl. cbv zeta in Hdl.
  exists d. split; [done|]. split; [rewrite Hdl; unfold sat_add, U64_MAX; lia|]. intros Ht.
  pose proof (pacing_sane_pos p Hs) as (Hw & Hr & Hm).
  destruct (can_send_paced_spec p b now Hen Hbs) as (_ & E1 & E2 & E3 & E4 & E5 & E6).
  rewrite Hc in *. cbn [fst snd] in *.
  destruct (refill_spec p now Hs Hnow) as (_ & _ & F3 & F4 & F5 & F6).
  pose proof (refill_sane p now Hs Hnow) as Hq. set (q := Path.refill p now) in *.
  rewrite F3 in E3. rewrite F4 in E4. rewrite F5 in E5. rewrite F6 in E6.
  assert (Hs' : pacing_sane p').
  { unfold pacing_sane in *. rewrite E1, E2, E3, E4, E5, E6. rewrite F6 in Hq.
    destruct Hq as (_ & _ & _ & _ & _ & ? & ? & _).
    destruct Hs as (? & ? & ? & ? & ? & _ & _ & ?). repeat split; lia. }
  assert (Hen' : pacing_enabled (pacing_config p') = true) by (by rewrite E6).
  assert (Hw' : Path.pacing_window p' = Path.pacing_window p) by (unfold Path.pacing_window; by rewrite E4).
  assert (Hr' : Path.pacing_rtt p' = Path.pacing_rtt p) by (unfold Path.pacing_rtt; by rewrite E5).
  assert (Hm' : Path.pacing_mss p' = Path.pacing_mss p) by (unfold Path.pacing_mss; by rewrite E4).
  destruct (can_send_paced_spec p' b t Hen' Hbs) as (-> & _).
  assert (Hnt : now <= t < 2 ^ 62) by (rewrite Hdl in Ht; unfold sat_add, U64_MAX in Ht; lia).
  destruct (refill_spec p' t Hs' ltac:(lia)) as (-> & -> & _).
  rewrite E1, E2, E3, E6, Hw', Hr', Hm'. rewrite !Z.shiftl_mul_pow2 by lia.
  set (den := Path.pacing_window p * 2 ^ 16) in *.
  set (db := sat_sub (b * 2 ^ 16) (pacing_byte_tokens_q16 q)) in *.
  set (dp := sat_sub (2 ^ 16) (pacing_packet_tokens_q16 q)) in *.
  set (cb := (db * Path.pacing_rtt p + den - 1) / den) in *.
  set (cp := (dp * (Path.pacing_rtt p * Path.pacing_mss p) + den - 1) / den) in *.
  assert (Hnow0 : 0 <= now) by (destruct Hs as (_ & _ & _ & _ & _ & _ & _ & ?); lia).
  assert (Hcc : cb <= t - now /\ cp <= t - now).
  { rewrite Hdl in Ht. unfold sat_add, U64_MAX in Ht. clearbody cb cp. lia. }
  destruct Hcc as [Hcb Hcp].
  apply ceil_enough in Hcb; [|unfold den; lia]. apply ceil_enough in Hcp; [|unfold den; lia].
  replace ((t - now) * Path.pacing_window p * 2 ^ 16) with ((t - now) * den) by (unfold den; lia).
  assert (b * 2 ^ 16 - pacing_byte_tokens_q16 q <= db) by (unfold db, sat_sub; lia).
  assert (2 ^ 16 - pacing_packet_tokens_q16 q <= dp) by (unfold dp, sat_sub; lia).
  apply andb_true_iff. split; apply Z.leb_le; apply tokens_cover; nia.
Qed.

Lemma pacing_deadline_admits_witness :
  let p := (run_paced paced_example [(1100, 0); (1100, 0); (1100, 0); (1100, 0)]).2 in
  let p' := (Path.can_send_paced p 1100 0).2 in
  exists d, pacing_deadline_us p' = Some d /\ 0 < d /\
    (d <= 12000 < 2 ^ 62 -> (Path.can_send_paced p' 1100 12000).1 = true).
Proof.
  apply (pacing_deadline_admits (run_paced paced_example [(1100, 0); (1100, 0); (1100, 0); (1100, 0)]).2
    1100 0); vm_compute; repeat split; try discriminate; reflexivity.
Defined.

(** Adapting to late acknowledgements is bounded: over any sequence of
    spurious-loss reports the packet threshold stays between 3 and 128 and the
    time threshold between 9/8 and 4 RTTs, so the loss delay is at most four
    RTTs plus the peer's acknowledgement delay. *)
Theorem loss_thresholds_bounded p reports max_ack_delay :
  thresholds_ok p -> 0 <= max_ack_delay ->
  let p' := fold_left (fun p x => Path.record_spurious_loss_ack p x.1 x.2) reports p in
  3 <= packet_reordering_threshold p' <= 128 /\
  9 * 2 ^ 16 / 8 <= loss_time_ratio_q16 p' <= 4 * 2 ^ 16 /\
  Path.loss_delay_us p' max_ack_delay <= 4 * Path.loss_base_rtt_us p' + max_ack_delay.
Proof.
  intros Hok Hack p'. assert (Hok' : thresholds_ok p').
  { subst p'. revert p Hok. induction reports as [|[o s] reports IH]; intros p Hok; simpl; [done|].
    by apply IH, record_spurious_ok. }
  destruct Hok' as [H1 H2]. split; [done|]. split; [done|].
  unfold Path.loss_delay_us, sat_add, sat_mul.
  assert (Hb : 1 <= Path.loss_base_rtt_us p') by (unfold Path.loss_base_rtt_us; lia).
  assert (div_ceil (Z.min (Path.loss_base_rtt_us p' * loss_time_ratio_q16 p') U64_MAX) (2 ^ 16)
          <= 4 * Path.loss_base_rtt_us p'); [|lia].
  rewrite <- (div_ceil_mul (4 * Path.loss_base_rtt_us p') (2 ^ 16)) by lia.
  apply div_ceil_mono; [lia|]. nia.
Qed.

Lemma loss_thresholds_bounded_witness :
  Path.loss_delay_us (fold_left (fun p x => Path.record_spurious_loss_ack p x.1 x.2)
    [(3, 0); (9, 1)] paced_example) 25000 <= 4 * Path.loss_base_rtt_us
      (fold_left (fun p x => Path.record_spurious_loss_ack p x.1 x.2) [(3, 0); (9, 1)] paced_example)
      + 25000.
Proof.
  apply (loss_thresholds_bounded paced_example [(3, 0); (9, 1)] 25000);
    [vm_compute; repeat split; discriminate|lia].
Defined.
