(* ===== verification/Bitmap.v ===== *)
(** * 64-bit words as bitmaps

    The word operations of the acknowledgement bitmaps: [u64] complement and
    shifts, [trailing_zeros], [leading_zeros], and the scan of a range of words
    for the first or last set bit.  The lemmas reduce a scan over masked words
    to a statement about the bits themselves; no component is modelled here. *)

From S2P Require Import Prelude.

(** [!w] *)
Definition u64_not (w : Z) : Z := Z.lxor w U64_MAX.
(** [u64::MAX << low] and [u64::MAX >> (63 - high)] *)
Definition mask_from (low : Z) : Z := as_u64 (Z.shiftl U64_MAX low).
Definition mask_to (high : Z) : Z := Z.shiftr U64_MAX (63 - high).

(** [w.trailing_zeros()] and [w.leading_zeros()] *)
Definition trailing_zeros (w : Z) : Z := default 64 (List.find (Z.testbit w) (seqZ 0 64)).
Definition leading_zeros (w : Z) : Z := if w =? 0 then 64 else 63 - Z.log2 w.

(** [(a..=b).find(f)] and [(a..=b).rfind(f)] *)
Definition find_incl (f : Z -> bool) (a b : Z) : option Z := List.find f (seqZ a (b - a + 1)).
Definition rfind_incl (f : Z -> bool) (a b : Z) : option Z :=
  List.find f (rev (seqZ a (b - a + 1))).

(** [words.get(i).copied().unwrap_or(0)] *)
Definition word_at (ws : list Z) (i : Z) : Z := default 0 (get_ix ws i).

(** Bit [i] of a bitmap. *)
Definition bit (ws : list Z) (i : Z) : bool := Z.testbit (word_at ws (i / 64)) (i mod 64).

Definition words_ok (ws : list Z) : Prop := Forall (fun w => is_u64 w) ws.

(** The [low] and [high] of word [i] in a scan of the bits [start..end). *)
Definition word_low (start i : Z) : Z := if i =? start / 64 then start mod 64 else 0.
Definition word_high (end_ i : Z) : Z := if i =? (end_ - 1) / 64 then (end_ - 1) mod 64 else 63.

(** ** Bits of the masks *)
Lemma testbit_U64_MAX k : 0 <= k -> Z.testbit U64_MAX k = (k <? 64).
Proof.
  intros. change U64_MAX with (Z.ones 64). destruct (Z.ltb_spec k 64).
  - by rewrite Z.ones_spec_low by lia.
  - by rewrite Z.ones_spec_high by lia.
Qed.

Lemma testbit_u64_high w k : is_u64 w -> 64 <= k -> Z.testbit w k = false.
Proof.
  intros Hw Hk. destruct (Z.eq_dec w 0) as [->|]; [apply Z.bits_0|].
  apply Z.bits_above_log2; [lia|]. enough (Z.log2 w < 64) by lia.
  apply Z.log2_lt_pow2; [lia|]. unfold U64_MAX in Hw. lia.
Qed.

Lemma testbit_u64_not w k :
  is_u64 w -> 0 <= k -> Z.testbit (u64_not w) k = negb (Z.testbit w k) && (k <? 64).
Proof.
  intros Hw Hk. unfold u64_not. rewrite Z.lxor_spec, testbit_U64_MAX by done.
  destruct (Z.ltb_spec k 64); [by destruct (Z.testbit w k)|].
  by rewrite testbit_u64_high.
Qed.

Lemma testbit_mask_from low k :
  0 <= low -> 0 <= k < 64 -> Z.testbit (mask_from low) k = (low <=? k).
Proof.
  intros Hl Hk. unfold mask_from, as_u64. rewrite Z.mod_pow2_bits_low by lia.
  rewrite Z.shiftl_spec by lia. destruct (Z.leb_spec low k).
  - rewrite testbit_U64_MAX by lia. apply Z.ltb_lt. lia.
  - by rewrite Z.testbit_neg_r by lia.
Qed.

Lemma testbit_mask_to high k :
  0 <= high <= 63 -> 0 <= k -> Z.testbit (mask_to high) k = (k <=? high).
Proof.
  intros Hh Hk. unfold mask_to. rewrite Z.shiftr_spec by lia. rewrite testbit_U64_MAX by lia.
  destruct (Z.ltb_spec (k + (63 - high)) 64), (Z.leb_spec k high); lia.
Qed.

Lemma word_low_range start i : 0 <= start -> 0 <= word_low start i <= 63.
Proof.
  intros. unfold word_low. case_match; [|lia].
  pose proof (Z.mod_pos_bound start 64). lia.
Qed.

Lemma word_high_range end_ i : 0 <= word_high end_ i <= 63.
Proof.
  unfold word_high. case_match; [|lia].
  pose proof (Z.mod_pos_bound (end_ - 1) 64). lia.
Qed.

(** The masks of a scan keep exactly the bits of [start..end). *)
Lemma masked_bit w start end_ i k :
  0 <= start < end_ -> start / 64 <= i <= (end_ - 1) / 64 -> 0 <= k < 64 ->
  Z.testbit (Z.land (Z.land w (mask_from (word_low start i))) (mask_to (word_high end_ i))) k =
  Z.testbit w k && ((start <=? 64 * i + k) && (64 * i + k <? end_)).
Proof.
  intros Hse Hi Hk. rewrite !Z.land_spec.
  rewrite testbit_mask_from by (try apply word_low_range; lia).
  rewrite testbit_mask_to by (try apply word_high_range; lia).
  rewrite <- andb_assoc. f_equal. unfold word_low, word_high.
  destruct (Z.eqb_spec i (start / 64)), (Z.eqb_spec i ((end_ - 1) / 64));
    f_equal; apply eq_bool_prop_intro; rewrite !Is_true_true, ?Z.leb_le, ?Z.ltb_lt;
    Z.to_euclidean_division_equations; lia.
Qed.

Lemma masked_high w start end_ i k :
  is_u64 w -> 64 <= k ->
  Z.testbit (Z.land (Z.land w (mask_from (word_low start i))) (mask_to (word_high end_ i))) k = false.
Proof. intros Hw Hk. by rewrite !Z.land_spec, testbit_u64_high. Qed.

(** ** Searches *)
Lemma find_seqZ_Some f a n x :
  List.find f (seqZ a n) = Some x <->
  a <= x < a + n /\ f x = true /\ forall y, a <= y < x -> f y = false.
Proof.
  destruct (Z.le_gt_cases n 0) as [Hn|Hn].
  { rewrite seqZ_nil by done. simpl. split; [done|lia]. }
  revert a. pattern n. apply natlike_ind; [| |lia].
  { intros a. rewrite seqZ_nil by done. simpl. split; [done|lia]. }
  clear n Hn. intros n Hn IH a. rewrite seqZ_cons by lia. rewrite Z.pred_succ. simpl.
  destruct (f a) eqn:Ha.
  - split.
    + intros [= <-]. repeat split; [lia..|done|lia].
    + intros (Hx & Hf & Hall). destruct (Z.eq_dec a x) as [->|]; [done|].
      rewrite Hall in Ha by lia. done.
  - rewrite IH. split; intros (Hx & Hf & Hall).
    + repeat split; [lia..|done|]. intros y Hy.
      destruct (Z.eq_dec a y) as [->|]; [done|]. apply Hall. lia.
    + assert (a <> x) by congruence. repeat split; [lia..|done|]. intros y Hy. apply Hall. lia.
Qed.

Lemma find_seqZ_None f a n :
  List.find f (seqZ a n) = None <-> forall y, a <= y < a + n -> f y = false.
Proof.
  split.
  - intros H y Hy. apply (List.find_none _ _ H). apply list_elem_of_In, elem_of_seqZ. lia.
  - intros H. destruct (List.find _ _) as [x|] eqn:Hf; [|done].
    apply find_seqZ_Some in Hf as (? & Ht & _). by rewrite H in Ht.
Qed.

Lemma rfind_incl_Some f a b x :
  rfind_incl f a b = Some x ->
  a <= x <= b /\ f x = true /\ forall y, x < y <= b -> f y = false.
Proof.
  unfold rfind_incl. destruct (Z.le_gt_cases (b - a + 1) 0) as [Hn|Hn].
  { by rewrite seqZ_nil. }
  remember (b - a + 1) as n eqn:En. replace b with (a + n - 1) by lia. clear En b.
  pattern n. apply natlike_ind; [by rewrite seqZ_nil| |lia].
  clear n Hn. intros n Hn IH.
  replace (Z.succ n) with (n + 1) by lia. rewrite seqZ_app by lia.
  rewrite rev_app_distr, (seqZ_cons (a + n)) by lia. rewrite (seqZ_nil _ (Z.pred 1)) by lia. simpl.
  destruct (f (a + n)) eqn:Hf.
  - intros [= <-]. repeat split; [lia..|done|lia].
  - intros H. destruct (IH H) as (? & ? & Hall). repeat split; [lia..|done|].
    intros y Hy. destruct (Z.eq_dec y (a + n)) as [->|]; [done|]. apply Hall. lia.
Qed.

Lemma rfind_incl_is_Some f a b x :
  a <= x <= b -> f x = true -> exists y, rfind_incl f a b = Some y.
Proof.
  intros Hx Hf. unfold rfind_incl. destruct (List.find _ _) as [y|] eqn:H; [by exists y|].
  pose proof (List.find_none _ _ H x) as Hn. rewrite Hn in Hf; [done|].
  rewrite <- in_rev. apply list_elem_of_In, elem_of_seqZ. lia.
Qed.

Lemma trailing_zeros_spec w :
  is_u64 w -> w <> 0 ->
  0 <= trailing_zeros w < 64 /\ Z.testbit w (trailing_zeros w) = true /\
  forall k, 0 <= k < trailing_zeros w -> Z.testbit w k = false.
Proof.
  intros Hw Hnz. unfold trailing_zeros. destruct (List.find _ _) as [x|] eqn:Hf; simpl.
  - apply find_seqZ_Some in Hf as (Hx & Ht & Hall). split; [lia|done].
  - destruct Hnz. apply Z.bits_inj'. intros k Hk. rewrite Z.bits_0.
    destruct (Z.lt_ge_cases k 64); [|by apply testbit_u64_high].
    by eapply find_seqZ_None; [|split].
Qed.

Lemma leading_zeros_spec w :
  is_u64 w -> w <> 0 ->
  0 <= 63 - leading_zeros w < 64 /\ Z.testbit w (63 - leading_zeros w) = true /\
  forall k, 63 - leading_zeros w < k -> Z.testbit w k = false.
Proof.
  intros Hw Hnz. unfold leading_zeros. rewrite (proj2 (Z.eqb_neq w 0)) by done.
  replace (63 - (63 - Z.log2 w)) with (Z.log2 w) by lia.
  pose proof (Z.log2_nonneg w). assert (Z.log2 w < 64).
  { apply Z.log2_lt_pow2; [lia|]. unfold U64_MAX in Hw. lia. }
  repeat split; [lia..| |].
  - apply Z.bit_log2. lia.
  - intros k Hk. apply Z.bits_above_log2; lia.
Qed.

(** ** Scans

    [bits i] is a word of the scan, [P] the bits it looks for. *)
Section scan.
Context (bits : Z -> Z) (P : Z -> bool) (start end_ : Z).
Context (Hse : 0 <= start < end_).
Context (Hbits : forall i, start / 64 <= i <= (end_ - 1) / 64 -> is_u64 (bits i) /\
  forall k, 0 <= k < 64 ->
    Z.testbit (bits i) k = P (64 * i + k) && ((start <=? 64 * i + k) && (64 * i + k <? end_))).

Let live (i : Z) : bool := negb (bits i =? 0).

Lemma live_bit j : start <= j < end_ -> P j = true -> live (j / 64) = true.
Proof.
  intros Hj HP. unfold live. apply negb_true_iff, Z.eqb_neq. intros H0.
  destruct (Hbits (j / 64)) as [_ Hb]; [Z.to_euclidean_division_equations; lia|].
  specialize (Hb (j mod 64) (Z.mod_pos_bound j 64 eq_refl)).
  rewrite H0, Z.bits_0, <- (Z.div_mod j 64) in Hb by done.
  rewrite HP, (proj2 (Z.leb_le start j)), (proj2 (Z.ltb_lt j end_)) in Hb by lia. done.
Qed.

Lemma in_scan i k :
  start / 64 <= i <= (end_ - 1) / 64 -> 0 <= k < 64 -> Z.testbit (bits i) k = true ->
  start <= 64 * i + k < end_ /\ P (64 * i + k) = true.
Proof.
  intros Hi Hk. destruct (Hbits i Hi) as [_ ->]; [|done].
  rewrite !andb_true_iff, Z.leb_le, Z.ltb_lt. tauto.
Qed.

Lemma scan_first_Some i :
  find_incl live (start / 64) ((end_ - 1) / 64) = Some i ->
  let j := i * 64 + trailing_zeros (bits i) in
  start <= j < end_ /\ P j = true /\ (forall y, start <= y < j -> P y = false) /\
  start / 64 <= i <= (end_ - 1) / 64 /\ live i = true.
Proof.
  intros (Hi & Hl & Hall)%find_seqZ_Some. assert (start / 64 <= i <= (end_ - 1) / 64) as Hr by lia.
  destruct (Hbits i Hr) as [Hw Hb].
  destruct (trailing_zeros_spec (bits i) Hw) as (Ht & Htb & Hlow).
  { by apply Z.eqb_neq, negb_true_iff. }
  destruct (in_scan i _ Hr Ht Htb) as [Hj HP]. cbv zeta. rewrite (Z.mul_comm i).
  split; [done|]. split; [done|]. split; [|done]. intros y Hy. destruct (P y) eqn:HPy; [|done].
  pose proof (live_bit y ltac:(lia) HPy) as Hly.
  destruct (Z.eq_dec (y / 64) i) as [E|].
  - specialize (Hlow (y mod 64)). specialize (Hb (y mod 64) (Z.mod_pos_bound y 64 eq_refl)).
    rewrite <- E in Hb, Hlow. rewrite <- (Z.div_mod y 64) in Hb by done.
    rewrite Hlow, HPy, (proj2 (Z.leb_le start y)), (proj2 (Z.ltb_lt y end_)) in Hb; [done|lia|lia|].
    rewrite E. Z.to_euclidean_division_equations; lia.
  - rewrite Hall in Hly; [done|]. Z.to_euclidean_division_equations; lia.
Qed.

Lemma scan_first_None :
  find_incl live (start / 64) ((end_ - 1) / 64) = None ->
  forall y, start <= y < end_ -> P y = false.
Proof.
  intros Hn y Hy. destruct (P y) eqn:HP; [|done]. pose proof (live_bit y Hy HP) as Hl.
  unfold find_incl in Hn. rewrite (proj1 (find_seqZ_None _ _ _) Hn) in Hl; [done|].
  Z.to_euclidean_division_equations; lia.
Qed.

Lemma scan_last_Some a i :
  start / 64 <= a -> rfind_incl live a ((end_ - 1) / 64) = Some i ->
  let j := i * 64 + 64 - leading_zeros (bits i) in
  start < j <= end_ /\ P (j - 1) = true /\ forall y, j <= y < end_ -> P y = false.
Proof.
  intros Ha (Hi & Hl & Hall)%rfind_incl_Some. assert (start / 64 <= i <= (end_ - 1) / 64) as Hr by lia.
  destruct (Hbits i Hr) as [Hw Hb].
  destruct (leading_zeros_spec (bits i) Hw) as (Ht & Htb & Hhigh).
  { by apply Z.eqb_neq, negb_true_iff. }
  destruct (in_scan i _ Hr Ht Htb) as [Hj HP]. cbv zeta.
  replace (i * 64 + 64 - leading_zeros (bits i) - 1) with (64 * i + (63 - leading_zeros (bits i))) by lia.
  split; [lia|]. split; [done|]. intros y Hy. destruct (P y) eqn:HPy; [|done].
  pose proof (live_bit y ltac:(lia) HPy) as Hly.
  destruct (Z.eq_dec (y / 64) i) as [E|].
  - specialize (Hhigh (y mod 64)). specialize (Hb (y mod 64) (Z.mod_pos_bound y 64 eq_refl)).
    rewrite <- E in Hb, Hhigh. rewrite <- (Z.div_mod y 64) in Hb by done.
    rewrite Hhigh, HPy, (proj2 (Z.leb_le start y)), (proj2 (Z.ltb_lt y end_)) in Hb; [done|lia|lia|].
    rewrite E. Z.to_euclidean_division_equations; lia.
  - rewrite Hall in Hly; [done|]. Z.to_euclidean_division_equations; lia.
Qed.
End scan.

(** ** Words of a bitmap *)
Lemma word_at_ok ws i : words_ok ws -> is_u64 (word_at ws i).
Proof.
  intros Hok. unfold word_at, get_ix. destruct (0 <=? i); [|by vm_compute].
  destruct (ws !! Z.to_nat i) as [w|] eqn:H; [|by vm_compute].
  apply (Forall_lookup_1 _ _ _ _ Hok H).
Qed.

Lemma bit_word ws i k : 0 <= k < 64 -> Z.testbit (word_at ws i) k = bit ws (64 * i + k).
Proof.
  intros Hk. unfold bit. do 2 f_equal; Z.to_euclidean_division_equations; lia.
Qed.

Lemma u64_bits_ok w : 0 <= w -> (forall k, 64 <= k -> Z.testbit w k = false) -> is_u64 w.
Proof.
  intros Hw Hb. split; [done|]. enough (w = w mod 2 ^ 64) as ->.
  { pose proof (Z.mod_pos_bound w (2 ^ 64)). unfold U64_MAX. lia. }
  apply Z.bits_inj'. intros k Hk. destruct (Z.lt_ge_cases k 64).
  - by rewrite Z.mod_pow2_bits_low.
  - rewrite Z.mod_pow2_bits_high by lia. by apply Hb.
Qed.

Lemma u64_not_ok w : is_u64 w -> is_u64 (u64_not w).
Proof.
  intros Hw. apply u64_bits_ok.
  - apply Z.lxor_nonneg. unfold U64_MAX. lia.
  - intros k Hk. rewrite testbit_u64_not by lia. rewrite (proj2 (Z.ltb_ge k 64)) by lia.
    apply andb_false_r.
Qed.

Lemma land_ok w m : is_u64 w -> is_u64 (Z.land w m).
Proof.
  intros Hw. apply u64_bits_ok; [apply Z.land_nonneg; lia|].
  intros k Hk. by rewrite Z.land_spec, testbit_u64_high.
Qed.

Lemma lor_ok w m : is_u64 w -> is_u64 m -> is_u64 (Z.lor w m).
Proof.
  intros Hw Hm. apply u64_bits_ok; [apply Z.lor_nonneg; lia|].
  intros k Hk. by rewrite Z.lor_spec, !testbit_u64_high.
Qed.

(** Testing a bit with [w & (1 << k) != 0]. *)
Lemma land_bit w k : 0 <= k -> negb (Z.land w (Z.shiftl 1 k) =? 0) = Z.testbit w k.
Proof.
  intros Hk. rewrite Z.shiftl_1_l. destruct (Z.testbit w k) eqn:Hb.
  - apply negb_true_iff, Z.eqb_neq. intros H0.
    assert (Z.testbit (Z.land w (2 ^ k)) k = true) as H.
    { by rewrite Z.land_spec, Hb, Z.pow2_bits_true. }
    by rewrite H0, Z.bits_0 in H.
  - apply negb_false_iff, Z.eqb_eq, Z.bits_inj'. intros j Hj.
    rewrite Z.land_spec, Z.bits_0. destruct (Z.eq_dec k j) as [->|]; [by rewrite Hb|].
    by rewrite Z.pow2_bits_false, andb_false_r.
Qed.
