(* ===== verification/SendBuffer.v ===== *)
(** * Retained send ranges

    [RetainedSendRange] of [src/crates/quic-lite/src/lib.rs]: the bytes of one
    logical STREAM transmission kept until they are acknowledged, with one
    acknowledgement bit per byte in [u64] words, compaction of acknowledged
    edges and the choice of the bytes to retransmit; and the part of the ACK
    handler that applies acknowledged byte ranges and FINs to the send buffer
    and retires complete ranges.  The theorems show that the word operations
    implement the per-byte bitmap, that retransmission always starts at the
    first missing byte with the original contents, and that no batch of ACKs
    drops a byte the peer has not acknowledged. *)

From S2P Require Import Prelude Wire Bitmap.

Record PriorPacketLineage : Type := mkPriorPacketLineage {
  pp_packet_number : Z;
  pp_offset : Z;
  pp_data_len : Z;
  pp_fin : bool;
}.

(** [pool_payload] is the byte content of the leased packet. *)
Record RetainedSendRange : Type := mkRetainedSendRange {
  stream_id : Z;
  offset : Z;
  data_len : Z;
  fin : bool;
  payload : option bytes;
  pool_payload : option bytes;
  payload_start : Z;
  payload_end : Z;
  acknowledged : list Z;
  fin_acked : bool;
  logical_packet_number : Z;
  prior_packets : list PriorPacketLineage;
  prior_packet_count : Z;
}.

Definition set_storage (r : RetainedSendRange) (p pool : option bytes) (s e : Z)
    : RetainedSendRange :=
  mkRetainedSendRange (stream_id r) (offset r) (data_len r) (fin r) p pool s e (acknowledged r)
    (fin_acked r) (logical_packet_number r) (prior_packets r) (prior_packet_count r).

Definition set_acknowledged (r : RetainedSendRange) (ws : list Z) : RetainedSendRange :=
  mkRetainedSendRange (stream_id r) (offset r) (data_len r) (fin r) (payload r) (pool_payload r)
    (payload_start r) (payload_end r) ws (fin_acked r) (logical_packet_number r)
    (prior_packets r) (prior_packet_count r).

Definition set_fin_acked (r : RetainedSendRange) : RetainedSendRange :=
  mkRetainedSendRange (stream_id r) (offset r) (data_len r) (fin r) (payload r) (pool_payload r)
    (payload_start r) (payload_end r) (acknowledged r) true (logical_packet_number r)
    (prior_packets r) (prior_packet_count r).

Definition set_prior (r : RetainedSendRange) (l : list PriorPacketLineage) (n : Z)
    : RetainedSendRange :=
  mkRetainedSendRange (stream_id r) (offset r) (data_len r) (fin r) (payload r) (pool_payload r)
    (payload_start r) (payload_end r) (acknowledged r) (fin_acked r) (logical_packet_number r) l n.

Definition div_ceil (a b : Z) : Z := (a + b - 1) / b.

(** The range [encode_stream_packet_on_path_inner] stores: with its own copy of
    the bytes, or, for a leased packet, with the lease attached by
    [encode_stream_packet_from_owned_on_path]. *)
Definition retained_new (sid off : Z) (data : bytes) (fin_ : bool) (pn : Z) (owned : bool)
    : RetainedSendRange :=
  mkRetainedSendRange sid off (zlen data) fin_
    (if owned then None else Some data) (if owned then Some data else None)
    0 (zlen data) (replicate (Z.to_nat (div_ceil (zlen data) 64)) 0) false pn
    (replicate 16 (mkPriorPacketLineage 0 0 0 false)) 0.

(** [self.payload.is_some() || self.pool_payload.is_some()] *)
Definition has_payload (r : RetainedSendRange) : bool :=
  match payload r, pool_payload r with None, None => false | _, _ => true end.

Definition stored_end (r : RetainedSendRange) : Z :=
  match payload r with Some p => payload_start r + zlen p | None => payload_end r end.

Definition retained_len (r : RetainedSendRange) : Z := sat_sub (stored_end r) (payload_start r).

Definition payload_range (r : RetainedSendRange) (start end_ : Z) : option bytes :=
  if (start <? payload_start r) || (stored_end r <? end_) || (end_ <? start) then None
  else match payload r with
  | Some p => get_range p (start - payload_start r) (end_ - payload_start r)
  | None => p ← pool_payload r; get_range p start end_
  end.

Definition is_byte_acknowledged (r : RetainedSendRange) (i : Z) : bool :=
  match get_ix (acknowledged r) (i / 64) with
  | Some word => negb (Z.land word (Z.shiftl 1 (i mod 64)) =? 0)
  | None => false
  end.

Definition live_word (r : RetainedSendRange) (start end_ i : Z) : Z :=
  Z.land (Z.land (u64_not (word_at (acknowledged r) i)) (mask_from (word_low start i)))
    (mask_to (word_high end_ i)).

Definition unacknowledged_bounds (r : RetainedSendRange) (start end_ : Z) : option (Z * Z) :=
  if end_ <=? start then None else
  let live i := negb (live_word r start end_ i =? 0) in
  first_word ← find_incl live (start / 64) ((end_ - 1) / 64);
  last_word ← rfind_incl live first_word ((end_ - 1) / 64);
  Some (first_word * 64 + trailing_zeros (live_word r start end_ first_word),
        last_word * 64 + 64 - leading_zeros (live_word r start end_ last_word)).

(** Returns the released payload and the new range. *)
Definition compact_acknowledged_edges (r : RetainedSendRange)
    : option bytes * RetainedSendRange :=
  if negb (has_payload r) then (None, r) else
  match unacknowledged_bounds r (payload_start r) (stored_end r) with
  | None => (payload r, set_storage r None None (data_len r) (data_len r))
  | Some (first_live, last_live_end) =>
      let p := match payload r with
               | Some p =>
                   let p := if payload_start r <? first_live
                            then drop (Z.to_nat (first_live - payload_start r)) p else p in
                   Some (take (Z.to_nat (last_live_end - first_live)) p)
               | None => None
               end in
      (None, set_storage r p (pool_payload r)
               (if payload_start r <? first_live then first_live else payload_start r)
               last_live_end)
  end.

(** [for word_index in first / 64..=last / 64 { self.acknowledged\[word_index\] |= .. }] *)
Fixpoint mark_words (first last : Z) (ixs : list Z) (ws : list Z) : res (list Z) :=
  match ixs with
  | [] => Ok ws
  | i :: ixs' =>
      w ← index ws i;
      mark_words first last ixs' (<[Z.to_nat i :=
        Z.lor w (Z.land (mask_from (if i =? first / 64 then first mod 64 else 0))
                        (mask_to (if i =? last / 64 then last mod 64 else 63)))]> ws)
  end.

Definition mark_acknowledged (r : RetainedSendRange) (off length : Z)
    : res (option bytes * RetainedSendRange) :=
  let start := Z.max off (offset r) in
  let full_end := sat_add (offset r) (data_len r) in
  let end_ := Z.min (sat_add off length) full_end in
  if end_ <=? start then Ok (None, r) else
  if (start =? offset r) && (end_ =? full_end) then
    Ok (payload r,
        set_storage (set_acknowledged r ((fun _ => U64_MAX) <$> acknowledged r)) None None
          (data_len r) (data_len r))
  else
    let first := start - offset r in
    let last := end_ - offset r - 1 in
    ws ← mark_words first last (seqZ (first / 64) (last / 64 - first / 64 + 1)) (acknowledged r);
    Ok (compact_acknowledged_edges (set_acknowledged r ws)).

Definition all_data_acknowledged (r : RetainedSendRange) : bool := payload_start r =? data_len r.

(** The closure [first_bit] of [first_unacknowledged_run]. *)
Definition run_bits (r : RetainedSendRange) (start : Z) (acked : bool) (i : Z) : Z :=
  let word := word_at (acknowledged r) i in
  Z.land (Z.land (if acked then word else u64_not word) (mask_from (word_low start i)))
    (mask_to (word_high (stored_end r) i)).

Definition first_bit (r : RetainedSendRange) (start : Z) (acked : bool) : option Z :=
  if stored_end r <=? start then None else
  i ← find_incl (fun i => negb (run_bits r start acked i =? 0)) (start / 64)
        ((stored_end r - 1) / 64);
  Some (i * 64 + trailing_zeros (run_bits r start acked i)).

Definition first_unacknowledged_run (r : RetainedSendRange) : option (Z * Z) :=
  if negb (has_payload r) then None else
  start ← first_bit r (payload_start r) false;
  Some (start, default (stored_end r) (first_bit r (start + 1) true)).

(** Despite its name, the number of bytes not yet acknowledged. *)
Definition acknowledged_payload_bytes (r : RetainedSendRange) : Z :=
  zlen (List.filter (fun i => negb (is_byte_acknowledged r i)) (seqZ 0 (data_len r))).

(** [packet] carries the four fields of the [SentPacket] the lineage keeps. *)
Definition add_prior_packet (r : RetainedSendRange) (packet : PriorPacketLineage)
    : RetainedSendRange :=
  if prior_packet_count r <? zlen (prior_packets r)
  then set_prior r (<[Z.to_nat (prior_packet_count r) := packet]> (prior_packets r))
         (prior_packet_count r + 1)
  else set_prior r (drop 1 (prior_packets r) ++ [packet]) (prior_packet_count r).

(** What [retransmit_stream_packet_with_probe] puts in the STREAM frame: offset, bytes, FIN. *)
Definition retransmission (r : RetainedSendRange) : res (option (Z * bytes * bool)) :=
  let fin_only := Ok (Some (offset r + data_len r, [], true)) in
  if has_payload r then
    match first_unacknowledged_run r with
    | Some (start, end_) =>
        bs ← ok_or (payload_range r start end_) Error.Invalid;
        Ok (Some (offset r + start, bs, fin r && negb (fin_acked r) && (end_ =? data_len r)))
    | None => if fin r && negb (fin_acked r) then fin_only else Ok None
    end
  else if fin r && negb (fin_acked r) then fin_only
  else Ok None.

(** ** Acknowledgement of a batch

    The tail of the ACK handler over [send_buffer]: byte ranges, then FINs, then
    retirement of complete ranges. *)
Definition mark_slot (a : Z * Z * Z) (s : option RetainedSendRange)
    : res (option RetainedSendRange) :=
  let '(sid, off, length) := a in
  match s with
  | None => Ok None
  | Some r =>
      if negb (stream_id r =? sid) then Ok (Some r) else
      '(_, r) ← mark_acknowledged r off length; Ok (Some r)
  end.

Fixpoint mark_pass (a : Z * Z * Z) (buf : list (option RetainedSendRange))
    : res (list (option RetainedSendRange)) :=
  match buf with
  | [] => Ok []
  | s :: buf' => s ← mark_slot a s; buf' ← mark_pass a buf'; Ok (s :: buf')
  end.

Fixpoint mark_batch (acks : list (Z * Z * Z)) (buf : list (option RetainedSendRange))
    : res (list (option RetainedSendRange)) :=
  match acks with
  | [] => Ok buf
  | a :: acks' => buf ← mark_pass a buf; mark_batch acks' buf
  end.

Definition fin_slot (f : Z * Z) (r : RetainedSendRange) : RetainedSendRange :=
  if (stream_id r =? f.1) && fin r && (offset r + data_len r =? f.2) then set_fin_acked r else r.

Definition fin_pass (fins : list (Z * Z)) (buf : list (option RetainedSendRange))
    : list (option RetainedSendRange) :=
  fold_left (fun buf f => fmap (M:=option) (fin_slot f) <$> buf) fins buf.

Definition retire_slot (r : RetainedSendRange) : option RetainedSendRange :=
  let r := if all_data_acknowledged r
           then set_storage r None None (payload_start r) (payload_end r) else r in
  if all_data_acknowledged r && (negb (fin r) || fin_acked r) then None else Some r.

Definition acknowledge_batch (acks : list (Z * Z * Z)) (fins : list (Z * Z))
    (buf : list (option RetainedSendRange)) : res (list (option RetainedSendRange)) :=
  buf ← mark_batch acks buf;
  Ok ((fun s => s ≫= retire_slot) <$> fin_pass fins buf).

#[global] Arguments mark_acknowledged : simpl never.
#[global] Arguments compact_acknowledged_edges : simpl never.

(** ** What a range represents

    [data] are the bytes of the original frame and [A] says which of them the
    peer has acknowledged. *)
Definition storage_ok (r : RetainedSendRange) (data : bytes) : Prop :=
  match payload r, pool_payload r with
  | Some p, None => 0 <= payload_start r /\ payload_start r + zlen p <= data_len r /\
      p = take (length p) (drop (Z.to_nat (payload_start r)) data)
  | None, Some b => b = data /\ 0 <= payload_start r <= payload_end r /\ payload_end r <= data_len r
  | None, None => payload_start r = data_len r
  | Some _, Some _ => False
  end.

Definition sizes_ok (r : RetainedSendRange) (data : bytes) : Prop :=
  0 <= offset r /\ offset r + data_len r <= U64_MAX /\ zlen data = data_len r /\
  zlen (acknowledged r) = div_ceil (data_len r) 64 /\ words_ok (acknowledged r).

(** Bytes outside the stored window are acknowledged. *)
Definition edges_ok (r : RetainedSendRange) (A : Z -> bool) : Prop :=
  forall i, 0 <= i < data_len r -> i < payload_start r \/ stored_end r <= i -> A i = true.

(** The window is empty or starts and ends with a byte still missing. *)
Definition tight (r : RetainedSendRange) (A : Z -> bool) : Prop :=
  payload_start r = data_len r \/
  (payload_start r < stored_end r /\ A (payload_start r) = false /\ A (stored_end r - 1) = false).

Definition bits_are (r : RetainedSendRange) (A : Z -> bool) : Prop :=
  forall i, 0 <= i < data_len r -> bit (acknowledged r) i = A i.

Record represents (r : RetainedSendRange) (data : bytes) (A : Z -> bool) : Prop := {
  rep_sizes : sizes_ok r data;
  rep_storage : storage_ok r data;
  rep_bits : bits_are r A;
  rep_edges : edges_ok r A;
  rep_tight : tight r A;
}.

(** The bytes of range [r] an ACK of [off, off + length) covers. *)
Definition covers (r : RetainedSendRange) (off length i : Z) : bool :=
  (off <=? offset r + i) && (offset r + i <? sat_add off length).

Definition same_range (r r' : RetainedSendRange) : Prop :=
  stream_id r' = stream_id r /\ offset r' = offset r /\ data_len r' = data_len r /\
  fin r' = fin r /\ logical_packet_number r' = logical_packet_number r.

Lemma is_byte_acknowledged_bit r i :
  0 <= i -> is_byte_acknowledged r i = bit (acknowledged r) i.
Proof.
  intros Hi. unfold is_byte_acknowledged, bit, word_at.
  destruct (get_ix _ _) as [w|]; simpl; [|by rewrite Z.bits_0].
  apply land_bit, Z.mod_pos_bound. lia.
Qed.

(** The stored window, whichever storage holds it. *)
Lemma storage_window r data :
  sizes_ok r data -> storage_ok r data ->
  0 <= payload_start r <= data_len r /\
  (has_payload r = true ->
   payload_start r <= stored_end r <= data_len r /\
   forall a b, payload_start r <= a -> a <= b -> b <= stored_end r ->
     payload_range r a b = Some (take (Z.to_nat (b - a)) (drop (Z.to_nat a) data))).
Proof.
  intros (Ho & Ht & Hd & _) Hs. unfold storage_ok, payload_range, stored_end, has_payload in *.
  pose proof (zlen_nonneg data).
  destruct (payload r) as [p|], (pool_payload r) as [b|]; [done| | |].
  - destruct Hs as (H0 & Hl & Hp). pose proof (zlen_nonneg p). split; [lia|]. intros _.
    split; [lia|]. intros x y Hx Hxy Hy.
    rewrite (proj2 (Z.ltb_ge x _)), (proj2 (Z.ltb_ge _ y)), (proj2 (Z.ltb_ge y x)) by lia. simpl.
    apply get_range_Some. split; [lia|]. split; [lia|].
    rewrite Hp at 1. rewrite skipn_firstn_comm, take_take, drop_drop.
    replace (Z.to_nat (payload_start r) + Z.to_nat (x - payload_start r))%nat with (Z.to_nat x) by lia.
    f_equal. unfold zlen in *. lia.
  - destruct Hs as (-> & H0 & Hl). split; [lia|]. intros _. split; [lia|]. intros x y Hx Hxy Hy.
    rewrite (proj2 (Z.ltb_ge x _)), (proj2 (Z.ltb_ge _ y)), (proj2 (Z.ltb_ge y x)) by lia. simpl.
    apply get_range_Some. split; [lia|]. split; [lia|]. done.
  - split; [lia|done].
Qed.

(** ** The word scans *)
Lemma live_word_bits r start end_ i :
  words_ok (acknowledged r) -> 0 <= start < end_ -> start / 64 <= i <= (end_ - 1) / 64 ->
  is_u64 (live_word r start end_ i) /\
  forall k, 0 <= k < 64 -> Z.testbit (live_word r start end_ i) k =
    negb (bit (acknowledged r) (64 * i + k)) && ((start <=? 64 * i + k) && (64 * i + k <? end_)).
Proof.
  intros Hok Hse Hi. pose proof (word_at_ok _ i Hok) as Hw. split.
  - by apply land_ok, land_ok, u64_not_ok.
  - intros k Hk. unfold live_word. rewrite masked_bit by done.
    rewrite testbit_u64_not by (done || lia). rewrite (proj2 (Z.ltb_lt k 64)) by lia.
    by rewrite andb_true_r, bit_word.
Qed.

Lemma run_bits_bits r start acked i :
  words_ok (acknowledged r) -> 0 <= start < stored_end r ->
  start / 64 <= i <= (stored_end r - 1) / 64 ->
  is_u64 (run_bits r start acked i) /\
  forall k, 0 <= k < 64 -> Z.testbit (run_bits r start acked i) k =
    Bool.eqb acked (bit (acknowledged r) (64 * i + k)) &&
      ((start <=? 64 * i + k) && (64 * i + k <? stored_end r)).
Proof.
  intros Hok Hse Hi. pose proof (word_at_ok _ i Hok) as Hw. split.
  - apply land_ok, land_ok. destruct acked; [done|by apply u64_not_ok].
  - intros k Hk. unfold run_bits. rewrite masked_bit by done. f_equal.
    destruct acked; [rewrite bit_word by done; by case (bit (acknowledged r) (64 * i + k))|].
    rewrite testbit_u64_not by (done || lia). rewrite (proj2 (Z.ltb_lt k 64)) by lia.
    by rewrite andb_true_r, bit_word.
Qed.

(** The first and the last missing byte of a window. *)
Lemma unacknowledged_bounds_spec r start end_ :
  words_ok (acknowledged r) -> 0 <= start ->
  match unacknowledged_bounds r start end_ with
  | Some (f, l) => start <= f /\ f < l /\ l <= end_ /\
      bit (acknowledged r) f = false /\ bit (acknowledged r) (l - 1) = false /\
      (forall i, start <= i < f -> bit (acknowledged r) i = true) /\
      (forall i, l <= i < end_ -> bit (acknowledged r) i = true)
  | None => forall i, start <= i < end_ -> bit (acknowledged r) i = true
  end.
Proof.
  intros Hok Hs. unfold unacknowledged_bounds. destruct (Z.leb_spec end_ start); [lia|].
  pose proof (live_word_bits r start end_) as Hb.
  set (P := fun j => negb (bit (acknowledged r) j)). set (W := live_word r start end_) in *.
  pose proof (fun i => Hb i Hok (conj Hs H)) as Hb'. clear Hb.
  destruct (find_incl _ _ _) as [f|] eqn:Hf; cbn [mbind option_bind].
  - apply (scan_first_Some W P _ _ (conj Hs H) Hb') in Hf as (Hf1 & Hf2 & Hf3 & Hf4 & Hf5).
    destruct (rfind_incl_is_Some (fun i => negb (W i =? 0)) f
      ((end_ - 1) / 64) f ltac:(lia) Hf5) as [l Hl]. rewrite Hl. cbn [mbind option_bind].
    apply (scan_last_Some W P _ _ (conj Hs H) Hb') in Hl as (Hl1 & Hl2 & Hl3); [|lia].
    apply negb_true_iff in Hf2, Hl2. set (fi := f * 64 + _) in *. set (li := l * 64 + 64 - _) in *.
    assert (fi < li).
    { destruct (Z.lt_ge_cases fi li) as [|Hge]; [done|].
      pose proof (Hl3 fi ltac:(lia)) as Hx. unfold P in Hx. by rewrite Hf2 in Hx. }
    repeat split; [lia..|done|done| |]; intros i Hi; apply negb_false_iff; [apply Hf3|apply Hl3]; lia.
  - intros i Hi. apply negb_false_iff. exact (scan_first_None W P _ _ (conj Hs H) Hb' Hf i Hi).
Qed.

(** The first missing byte and the end of its run. *)
Lemma first_bit_spec r start acked :
  words_ok (acknowledged r) -> 0 <= start ->
  match first_bit r start acked with
  | Some j => start <= j < stored_end r /\ bit (acknowledged r) j = acked /\
      forall i, start <= i < j -> bit (acknowledged r) i = negb acked
  | None => forall i, start <= i < stored_end r -> bit (acknowledged r) i = negb acked
  end.
Proof.
  intros Hok Hs. unfold first_bit. destruct (Z.leb_spec (stored_end r) start); [lia|].
  pose proof (fun i => run_bits_bits r start acked i Hok (conj Hs H)) as Hb.
  set (P := fun j => Bool.eqb acked (bit (acknowledged r) j)).
  assert (HP : forall i, P i = false -> bit (acknowledged r) i = negb acked).
  { intros i. unfold P. by destruct acked, (bit (acknowledged r) i). }
  destruct (find_incl _ _ _) as [f|] eqn:Hf; cbn [mbind option_bind].
  - apply (scan_first_Some _ P _ _ (conj Hs H) Hb) in Hf as (Hf1 & Hf2 & Hf3 & _).
    split; [done|]. split; [by apply Bool.eqb_prop in Hf2|]. intros i Hi. by apply HP, Hf3.
  - intros i Hi. apply HP. exact (scan_first_None _ P _ _ (conj Hs H) Hb Hf i Hi).
Qed.

(** ** Marking *)
Lemma mark_words_Ok first last ixs ws :
  NoDup ixs -> Forall (fun i => 0 <= i < zlen ws) ixs -> words_ok ws ->
  exists ws', mark_words first last ixs ws = Ok ws' /\ zlen ws' = zlen ws /\ words_ok ws' /\
    forall i, 0 <= i < zlen ws -> word_at ws' i =
      if bool_decide (i ∈ ixs) then Z.lor (word_at ws i)
        (Z.land (mask_from (if i =? first / 64 then first mod 64 else 0))
                (mask_to (if i =? last / 64 then last mod 64 else 63)))
      else word_at ws i.
Proof.
  intros Hnd. revert ws. induction Hnd as [|i ixs Hni _ IH]; intros ws Hr Hok.
  { exists ws. split; [done|]. split; [done|]. split; [done|]. intros i _.
    rewrite bool_decide_eq_false_2; [done|apply not_elem_of_nil]. }
  apply Forall_cons_1 in Hr as [Hi Hr].
  destruct (lookup_lt_is_Some_2 ws (Z.to_nat i)) as [w Hw]; [unfold zlen in Hi; lia|].
  assert (Hgi : get_ix ws i = Some w) by (unfold get_ix; by rewrite (proj2 (Z.leb_le 0 i)) by lia).
  cbn [mark_words]. unfold index. rewrite Hgi. cbn [mbind outcome_bind].
  set (m := Z.land (mask_from _) (mask_to _)).
  assert (Hlen : zlen (<[Z.to_nat i := Z.lor w m]> ws) = zlen ws) by (unfold zlen; by rewrite length_insert).
  assert (Hm : is_u64 m).
  { apply land_ok. unfold mask_from, as_u64, U64_MAX. pose proof (Z.mod_pos_bound
      (Z.shiftl (2 ^ 64 - 1) (if i =? first / 64 then first mod 64 else 0)) (2 ^ 64)). lia. }
  destruct (IH (<[Z.to_nat i := Z.lor w m]> ws)) as (ws' & Hws & Hl & Hok' & Hat).
  { by rewrite Hlen. }
  { apply Forall_insert; [done|]. apply lor_ok; [|done]. apply (Forall_lookup_1 _ _ _ _ Hok Hw). }
  exists ws'. split; [done|]. split; [by rewrite Hl|]. split; [done|]. intros j Hj.
  rewrite Hat by (by rewrite Hlen). unfold word_at at 1 2, get_ix.
  rewrite (proj2 (Z.leb_le 0 j)) by lia. destruct (Z.eq_dec i j) as [<-|Hne].
  - rewrite (bool_decide_eq_false_2 _ Hni), bool_decide_eq_true_2 by (by left).
    rewrite list_lookup_insert_eq by (unfold zlen in Hi; lia). simpl. unfold word_at. by rewrite Hgi.
  - rewrite list_lookup_insert_ne by lia. unfold word_at at 1 2, get_ix.
    rewrite (proj2 (Z.leb_le 0 j)) by lia.
    assert (j ∈ i :: ixs <-> j ∈ ixs) as Hiff.
    { rewrite elem_of_cons. split; [by intros [->|]|by right]. }
    by rewrite (bool_decide_ext _ _ Hiff).
Qed.

Lemma mark_mask_bit first last i k :
  0 <= first <= last -> first / 64 <= i <= last / 64 -> 0 <= k < 64 ->
  Z.testbit (Z.land (mask_from (if i =? first / 64 then first mod 64 else 0))
                    (mask_to (if i =? last / 64 then last mod 64 else 63))) k =
  (first <=? 64 * i + k) && (64 * i + k <=? last).
Proof.
  intros Hfl Hi Hk. pose proof (masked_bit (-1) first (last + 1) i k) as H.
  rewrite Z.land_m1_l in H. unfold word_low, word_high in H.
  replace (last + 1 - 1) with last in H by lia. rewrite H by lia.
  rewrite Z.bits_m1 by lia. cbn [andb]. f_equal.
  destruct (Z.ltb_spec (64 * i + k) (last + 1)), (Z.leb_spec (64 * i + k) last); lia.
Qed.

Lemma mark_words_bits first last n ws :
  0 <= first <= last -> last < n -> zlen ws = div_ceil n 64 -> words_ok ws ->
  exists ws', mark_words first last (seqZ (first / 64) (last / 64 - first / 64 + 1)) ws = Ok ws' /\
    zlen ws' = zlen ws /\ words_ok ws' /\
    forall i, 0 <= i < n -> bit ws' i = bit ws i || ((first <=? i) && (i <=? last)).
Proof.
  intros Hfl Hn Hl Hok. unfold div_ceil in Hl.
  destruct (mark_words_Ok first last (seqZ (first / 64) (last / 64 - first / 64 + 1)) ws)
    as (ws' & H & Hl' & Hok' & Hat); [apply NoDup_seqZ| |done|].
  { apply Forall_forall. intros i [? ?]%elem_of_seqZ. rewrite Hl.
    Z.to_euclidean_division_equations; lia. }
  exists ws'. split; [done|]. split; [done|]. split; [done|]. intros i Hi. unfold bit.
  rewrite Hat by (rewrite Hl; Z.to_euclidean_division_equations; lia).
  pose proof (Z.mod_pos_bound i 64 eq_refl) as Hm. case_bool_decide as Hin.
  - apply elem_of_seqZ in Hin as [H1 H2]. rewrite Z.lor_spec. f_equal.
    rewrite mark_mask_bit by lia. by rewrite <- (Z.div_mod i 64).
  - symmetry. rewrite elem_of_seqZ in Hin. destruct (Z.leb_spec first i), (Z.leb_spec i last);
      rewrite ?orb_false_r; try done. destruct Hin. Z.to_euclidean_division_equations; lia.
Qed.

(** The payload compaction keeps, as a function of the new window. *)
Definition trimmed (r : RetainedSendRange) (f l : Z) : option bytes :=
  match payload r with
  | Some p => Some (take (Z.to_nat (l - f))
      (if payload_start r <? f then drop (Z.to_nat (f - payload_start r)) p else p))
  | None => None
  end.

Lemma trimmed_storage r data f l :
  storage_ok r data -> has_payload r = true ->
  payload_start r <= f -> f < l -> l <= stored_end r ->
  let r' := set_storage r (trimmed r f l) (pool_payload r) f l in
  storage_ok r' data /\ stored_end r' = l.
Proof.
  unfold storage_ok, has_payload, stored_end, trimmed. intros Hst Hhp Hf Hfl Hl. simpl.
  destruct (payload r) as [p|], (pool_payload r) as [b|]; [done| | |done].
  - destruct Hst as (H0 & Hle & Hp).
    assert (Hdrop : (if payload_start r <? f then drop (Z.to_nat (f - payload_start r)) p else p)
      = drop (Z.to_nat (f - payload_start r)) p).
    { destruct (Z.ltb_spec (payload_start r) f); [done|].
      by replace (f - payload_start r) with 0 by lia. }
    rewrite Hdrop. set (q := take _ (drop _ p)).
    assert (Hq : zlen q = l - f) by (unfold q; rewrite zlen_take; rewrite ?zlen_drop; lia).
    split; [|lia]. split; [lia|]. split; [lia|].
    replace (length q) with (Z.to_nat (l - f)) by (unfold zlen in Hq; lia). unfold q. rewrite Hp.
    rewrite skipn_firstn_comm, take_take, drop_drop.
    replace (Z.to_nat (payload_start r) + Z.to_nat (f - payload_start r))%nat with (Z.to_nat f) by lia.
    f_equal. unfold zlen in *. lia.
  - destruct Hst as (-> & H0 & Hle). split; [|done]. split; [done|]. lia.
Qed.

(** Compaction moves the window to the missing bytes, without touching them. *)
Lemma compact_represents r data A :
  sizes_ok r data -> storage_ok r data -> bits_are r A -> edges_ok r A ->
  let r' := (compact_acknowledged_edges r).2 in
  represents r' data A /\ same_range r r' /\ fin_acked r' = fin_acked r.
Proof.
  intros Hsz Hst Hb He. destruct (storage_window r data Hsz Hst) as [Hps Hwin].
  pose proof Hsz as (Ho & Ht & Hd & Hwl & Hwo).
  unfold compact_acknowledged_edges. destruct (has_payload r) eqn:Hhp; simpl.
  2:{ split; [|done]. constructor; try done. left. revert Hst Hhp.
      unfold storage_ok, has_payload. by destruct (payload r), (pool_payload r). }
  specialize (Hwin eq_refl) as [Hse _].
  pose proof (unacknowledged_bounds_spec r (payload_start r) (stored_end r) Hwo ltac:(lia)) as Hub.
  destruct (unacknowledged_bounds r _ _) as [[f l]|]; simpl; (split; [|done]).
  - destruct Hub as (H1 & H2 & H3 & H4 & H5 & H6 & H7).
    replace (if payload_start r <? f then f else payload_start r) with f
      by (destruct (Z.ltb_spec (payload_start r) f); lia). fold (trimmed r f l).
    destruct (trimmed_storage r data f l Hst Hhp H1 H2 H3) as [Hst' Hse']. cbv zeta in *.
    constructor; try done.
    + intros i Hi. simpl in Hi. rewrite Hse'. simpl. rewrite <- (Hb i Hi). intros Hout.
      destruct (Z.lt_ge_cases i (payload_start r)) as [?|?];
        [rewrite (Hb i Hi); apply He; [done|lia]|].
      destruct (Z.lt_ge_cases i (stored_end r)) as [?|?];
        [|rewrite (Hb i Hi); apply He; [done|lia]].
      destruct (Z.lt_ge_cases i f); [apply H6|apply H7]; lia.
    + right. rewrite Hse'. simpl. rewrite <- !Hb by lia. done.
  - constructor; try done; [|by left]. intros i Hi _. simpl in Hi.
    destruct (Z.lt_ge_cases i (payload_start r)) as [?|?]; [apply He; [done|lia]|].
    destruct (Z.lt_ge_cases i (stored_end r)) as [?|?]; [|apply He; [done|lia]].
    rewrite <- Hb by done. apply Hub. lia.
Qed.

(** Only the bytes of the range matter. *)
Lemma represents_ext r data A A' :
  (forall i, 0 <= i < data_len r -> A i = A' i) -> represents r data A -> represents r data A'.
Proof.
  intros HA [Hsz Hst Hb He Hti]. destruct (storage_window r data Hsz Hst) as [Hps Hwin].
  constructor; try done.
  - intros i Hi. by rewrite <- HA, Hb.
  - intros i Hi Hout. rewrite <- HA by done. by apply He.
  - destruct (has_payload r) eqn:Hhp.
    + destruct (Hwin eq_refl) as [Hse _]. destruct Hti as [|(H1 & H2 & H3)]; [by left|right].
      rewrite <- !HA by lia. done.
    + left. revert Hst Hhp. unfold storage_ok, has_payload.
      by destruct (payload r), (pool_payload r).
Qed.

Lemma covers_window r off length i :
  0 <= i < data_len r ->
  covers r off length i =
    (Z.max off (offset r) - offset r <=? i) &&
    (i <=? Z.min (sat_add off length) (offset r + data_len r) - offset r - 1).
Proof.
  intros Hi. unfold covers. apply eq_bool_prop_intro.
  rewrite !Is_true_true, !andb_true_iff, !Z.leb_le, Z.ltb_lt. lia.
Qed.

Lemma bit_fill (ws : list Z) i n :
  zlen ws = div_ceil n 64 -> 0 <= i < n -> bit ((fun _ => U64_MAX) <$> ws) i = true.
Proof.
  unfold div_ceil, bit, word_at, get_ix. intros Hl Hi.
  rewrite (proj2 (Z.leb_le 0 (i / 64))) by (apply Z.div_pos; lia). rewrite list_lookup_fmap.
  destruct (lookup_lt_is_Some_2 ws (Z.to_nat (i / 64))) as [w ->].
  { unfold zlen in Hl. Z.to_euclidean_division_equations; lia. }
  simpl. pose proof (Z.mod_pos_bound i 64 eq_refl). rewrite testbit_U64_MAX by lia.
  apply Z.ltb_lt. lia.
Qed.

(** Acknowledging bytes refines the per-byte reference. *)
Lemma mark_acknowledged_represents r data A off length :
  represents r data A -> 0 <= off -> 0 <= length ->
  exists out r', mark_acknowledged r off length = Ok (out, r') /\
    represents r' data (fun i => A i || covers r off length i) /\ same_range r r' /\
    fin_acked r' = fin_acked r.
Proof.
  intros Hrep Hoff Hlen. pose proof Hrep as [Hsz Hst Hb He _].
  pose proof Hsz as (Ho & Ht & Hd & Hwl & Hwo). pose proof (zlen_nonneg data).
  assert (Hfull : sat_add (offset r) (data_len r) = offset r + data_len r) by (unfold sat_add; lia).
  pose proof (fun i => covers_window r off length i) as Hcov.
  unfold mark_acknowledged. rewrite Hfull. set (start := Z.max off (offset r)) in *.
  set (end_ := Z.min (sat_add off length) (offset r + data_len r)) in *.
  destruct (Z.leb_spec end_ start).
  { exists None, r. split; [done|]. split; [|done]. apply (represents_ext _ _ A); [|done].
    intros i Hi. rewrite Hcov by done. destruct (Z.leb_spec (start - offset r) i),
      (Z.leb_spec i (end_ - offset r - 1)); rewrite ?orb_false_r; try done; lia. }
  destruct ((start =? offset r) && (end_ =? offset r + data_len r)) eqn:Hall.
  { bools. eexists _, _. split; [done|]. split; [|done]. constructor; try done.
    - split; [done|]. split; [done|]. split; [done|]. simpl. split.
      + unfold zlen. by rewrite length_fmap.
      + apply Forall_fmap, Forall_true. intros ?. by vm_compute.
    - intros i Hi. simpl in *. rewrite (bit_fill _ _ (data_len r)) by done.
      symmetry. rewrite Hcov by done. apply orb_true_intro. right.
      apply andb_true_iff. rewrite !Z.leb_le. lia.
    - intros i Hi _. simpl in *. rewrite Hcov by done. apply orb_true_intro. right.
      apply andb_true_iff. rewrite !Z.leb_le. lia.
    - by left. }
  destruct (mark_words_bits (start - offset r) (end_ - offset r - 1) (data_len r) (acknowledged r))
    as (ws & -> & Hl' & Hok' & Hbits); [lia|lia|done|done|]. cbn [mbind outcome_bind].
  destruct (compact_acknowledged_edges (set_acknowledged r ws)) as [out r'] eqn:Hc.
  exists out, r'. split; [done|].
  pose proof (compact_represents (set_acknowledged r ws) data
    (fun i => A i || covers r off length i)) as Hcr. rewrite Hc in Hcr. apply Hcr.
  - split; [done|]. split; [done|]. split; [done|]. simpl. by rewrite Hl'.
  - done.
  - intros i Hi. simpl in *. by rewrite Hbits, Hcov, Hb.
  - intros i Hi Hout. simpl in *. rewrite (He i Hi Hout). done.
Qed.

(** ** Retransmission *)

(** The first run of missing bytes, as the per-byte reference has it. *)
Definition first_gap (A : Z -> bool) (n : Z) : option (Z * Z) :=
  s ← List.find (fun i => negb (A i)) (seqZ 0 n);
  Some (s, default n (List.find A (seqZ (s + 1) (n - s - 1)))).

Lemma find_Some_intro f a n x :
  a <= x < a + n -> f x = true -> (forall y, a <= y < x -> f y = false) ->
  List.find f (seqZ a n) = Some x.
Proof. intros. by apply find_seqZ_Some. Qed.

(** Without storage everything is acknowledged. *)
Lemma no_payload_acked r data A :
  represents r data A -> has_payload r = false -> forall i, 0 <= i < data_len r -> A i = true.
Proof.
  intros [_ Hst _ He _] Hhp i Hi. apply He; [done|]. left. revert Hst Hhp.
  unfold storage_ok, has_payload. destruct (payload r), (pool_payload r); try done. lia.
Qed.

Lemma first_unacknowledged_run_gap r data A :
  represents r data A -> first_unacknowledged_run r = first_gap A (data_len r).
Proof.
  intros Hrep. pose proof Hrep as [Hsz Hst Hb He _]. pose proof Hsz as (Ho & Ht & Hd & Hwl & Hwo).
  destruct (storage_window r data Hsz Hst) as [Hps Hwin]. unfold first_unacknowledged_run, first_gap.
  destruct (has_payload r) eqn:Hhp; cbn [negb].
  2:{ rewrite (proj2 (find_seqZ_None _ 0 _)); [done|]. intros i Hi.
      by rewrite (no_payload_acked r data A). }
  destruct (Hwin eq_refl) as [Hse _].
  pose proof (first_bit_spec r (payload_start r) false Hwo ltac:(lia)) as H1.
  destruct (first_bit r (payload_start r) false) as [s|]; cbn [mbind option_bind].
  - destruct H1 as (Hs & Hbs & Hall).
    rewrite (find_Some_intro _ 0 _ s); [cbn [mbind option_bind]|lia|by rewrite <- Hb, Hbs by lia|].
    2:{ intros y Hy. apply negb_false_iff. destruct (Z.lt_ge_cases y (payload_start r)).
        - apply He; lia.
        - rewrite <- Hb by lia. apply Hall. lia. }
    do 2 f_equal. pose proof (first_bit_spec r (s + 1) true Hwo ltac:(lia)) as H2.
    destruct (first_bit r (s + 1) true) as [e|].
    + destruct H2 as (Hs2 & Hb2 & Hall2). rewrite (find_Some_intro _ _ _ e); [done|lia| |].
      * by rewrite <- Hb, Hb2 by lia.
      * intros y Hy. rewrite <- Hb by lia. apply Hall2. lia.
    + destruct (Z.eq_dec (stored_end r) (data_len r)) as [E|].
      * rewrite (proj2 (find_seqZ_None _ _ _)); [done|]. intros y Hy. rewrite <- Hb by lia.
        apply H2. lia.
      * rewrite (find_Some_intro _ _ _ (stored_end r)); [done|lia|apply He; lia|].
        intros y Hy. rewrite <- Hb by lia. apply H2. lia.
  - rewrite (proj2 (find_seqZ_None _ 0 _)); [done|]. intros i Hi. apply negb_false_iff.
    destruct (Z.lt_ge_cases i (payload_start r)); [apply He; lia|].
    destruct (Z.lt_ge_cases i (stored_end r)); [|apply He; lia]. rewrite <- Hb by lia. apply H1. lia.
Qed.

Lemma first_gap_in_window r data A s e :
  represents r data A -> first_gap A (data_len r) = Some (s, e) ->
  has_payload r = true /\ payload_start r <= s < e /\ e <= stored_end r.
Proof.
  intros Hrep Hg. pose proof Hg as Hrun. rewrite <- (first_unacknowledged_run_gap r data A Hrep) in Hrun.
  pose proof Hrep as [Hsz Hst _ _ _]. pose proof Hsz as (_ & _ & _ & _ & Hwo).
  destruct (storage_window r data Hsz Hst) as [Hps Hwin]. revert Hrun. unfold first_unacknowledged_run.
  destruct (has_payload r) eqn:Hhp; [|done]. cbn [negb].
  pose proof (first_bit_spec r (payload_start r) false Hwo ltac:(lia)) as H1.
  destruct (first_bit r _ false) as [s'|]; [|done]. cbn [mbind option_bind].
  pose proof (first_bit_spec r (s' + 1) true Hwo ltac:(lia)) as H2.
  intros [= <- <-]. destruct (first_bit r _ true); simpl; lia.
Qed.

Lemma all_data_acknowledged_iff r data A :
  represents r data A ->
  all_data_acknowledged r = true <-> forall i, 0 <= i < data_len r -> A i = true.
Proof.
  intros [Hsz Hst Hb He Hti]. destruct (storage_window r data Hsz Hst) as [Hps Hwin].
  unfold all_data_acknowledged. rewrite Z.eqb_eq. split.
  - intros E i Hi. apply He; lia.
  - intros Hall. destruct Hti as [|(H1 & H2 & H3)]; [done|].
    destruct (Z.eq_dec (payload_start r) (data_len r)); [done|]. by rewrite Hall in H2 by lia.
Qed.

(** ** Batches *)
Definition ack_ok (a : Z * Z * Z) : Prop := 0 <= a.1.2 /\ 0 <= a.2.

(** The bytes of range [r] a list of ACKs covers, and whether a list of FINs
    covers its FIN. *)
Definition covered_by (r : RetainedSendRange) (acks : list (Z * Z * Z)) (i : Z) : bool :=
  existsb (fun a => (stream_id r =? a.1.1) && covers r a.1.2 a.2 i) acks.

Definition fin_covered_by (r : RetainedSendRange) (fins : list (Z * Z)) : bool :=
  existsb (fun f => (stream_id r =? f.1) && fin r && (offset r + data_len r =? f.2)) fins.

Definition slot_ok (s : option RetainedSendRange) : Prop :=
  match s with Some r => exists data A, represents r data A | None => True end.

(** A slot before and after byte ranges [acks]. *)
Definition slot_marked (acks : list (Z * Z * Z)) (s s' : option RetainedSendRange) : Prop :=
  match s, s' with
  | None, None => True
  | Some r, Some r' => same_range r r' /\ fin_acked r' = fin_acked r /\
      forall data A, represents r data A -> represents r' data (fun i => A i || covered_by r acks i)
  | _, _ => False
  end.

Lemma same_range_covers r r' acks i :
  same_range r r' -> covered_by r' acks i = covered_by r acks i.
Proof. intros (E1 & E2 & E3 & _). unfold covered_by, covers. by rewrite E1, E2. Qed.

Lemma mark_slot_marked a s :
  ack_ok a -> slot_ok s -> exists s', mark_slot a s = Ok s' /\ slot_marked [a] s s' /\ slot_ok s'.
Proof.
  destruct a as [[sid off] len]. intros [Ho Hl] Hs. simpl in *. destruct s as [r|]; [|by exists None].
  destruct Hs as (data & A & Hrep). destruct (Z.eqb_spec (stream_id r) sid) as [E|E]; cbn [negb].
  - destruct (mark_acknowledged_represents r data A off len Hrep Ho Hl) as (out & r' & Hm & Hr' & Hsr & Hf).
    rewrite Hm. cbn [mbind outcome_bind]. exists (Some r'). split; [done|]. split; [|by eexists _, _].
    split; [done|]. split; [done|]. intros d B HB.
    destruct (mark_acknowledged_represents r d B off len HB Ho Hl) as (o2 & r2 & Hm2 & Hr2 & _).
    rewrite Hm in Hm2. injection Hm2 as <- <-. revert Hr2. apply represents_ext. intros i _.
    unfold covered_by. simpl. rewrite E, Z.eqb_refl. by rewrite orb_false_r.
  - exists (Some r). split; [done|]. split; [|by eexists _, _]. split; [done|]. split; [done|].
    intros d B. apply represents_ext. intros i _. unfold covered_by. simpl.
    rewrite (proj2 (Z.eqb_neq _ _)) by done. by rewrite orb_false_r.
Qed.

Lemma mark_pass_marked a buf :
  ack_ok a -> Forall slot_ok buf ->
  exists buf', mark_pass a buf = Ok buf' /\ Forall2 (slot_marked [a]) buf buf' /\ Forall slot_ok buf'.
Proof.
  intros Ha. induction 1 as [|s buf Hs _ IH]; [by exists []|].
  destruct (mark_slot_marked a s Ha Hs) as (s' & H1 & H2 & H3). destruct IH as (buf' & H4 & H5 & H6).
  exists (s' :: buf'). cbn [mark_pass]. rewrite H1. cbn [mbind outcome_bind]. rewrite H4.
  split; [done|]. split; by constructor.
Qed.

Lemma slot_marked_trans a acks s1 s2 s3 :
  slot_marked [a] s1 s2 -> slot_marked acks s2 s3 -> slot_marked (a :: acks) s1 s3.
Proof.
  destruct s1 as [r1|], s2 as [r2|], s3 as [r3|]; try done. simpl.
  intros (Hs & Hf & Hr) (Hs' & Hf' & Hr'). split.
  { destruct Hs as (? & ? & ? & ? & ?), Hs' as (? & ? & ? & ? & ?). repeat split; congruence. }
  split; [congruence|]. intros data A HA. specialize (Hr' _ _ (Hr _ _ HA)). revert Hr'.
  apply represents_ext. intros i _. rewrite (same_range_covers r1 r2) by done.
  unfold covered_by. simpl. by rewrite orb_false_r, orb_assoc.
Qed.

Lemma mark_batch_marked acks buf :
  Forall ack_ok acks -> Forall slot_ok buf ->
  exists buf', mark_batch acks buf = Ok buf' /\ Forall2 (slot_marked acks) buf buf'.
Proof.
  intros Ha. revert buf. induction Ha as [|a acks Ha _ IH]; intros buf Hb.
  - exists buf. split; [done|]. apply Forall_Forall2_diag, Forall_true. intros [r|]; [|done].
    split; [done|]. split; [done|]. intros data A. apply represents_ext. intros i _.
    by rewrite orb_false_r.
  - destruct (mark_pass_marked a buf Ha Hb) as (b1 & H1 & H2 & H3).
    destruct (IH b1 H3) as (b2 & H4 & H5). exists b2. cbn [mark_batch]. rewrite H1.
    split; [done|]. eapply Forall2_trans; [|done|done]. intros. by eapply slot_marked_trans.
Qed.

Lemma set_fin_acked_represents r data A : represents r data A -> represents (set_fin_acked r) data A.
Proof. by intros []. Qed.

(** FINs change nothing but [fin_acked]. *)
Lemma fin_pass_lookup fins buf k :
  exists h, (fin_pass fins buf !! k = fmap (M:=option) h <$> buf !! k) /\
    forall r, same_range r (h r) /\ fin_acked (h r) = fin_acked r || fin_covered_by r fins /\
      forall data A, represents r data A -> represents (h r) data A.
Proof.
  revert buf. induction fins as [|f fins IH]; intros buf.
  - exists id. split; [simpl; destruct (buf !! k) as [[r|]|]; done|]. intros r.
    split; [done|]. by rewrite orb_false_r.
  - destruct (IH (fmap (M:=option) (fin_slot f) <$> buf)) as (h & Hl & Hh).
    exists (h ∘ fin_slot f). split.
    { cbn [fin_pass fold_left]. unfold fin_pass in Hl. rewrite Hl, list_lookup_fmap.
      by destruct (buf !! k) as [[r|]|]. }
    intros r. destruct (Hh (fin_slot f r)) as (H1 & H2 & H3).
    assert (Hs : same_range r (fin_slot f r)) by (unfold fin_slot; case_match; done).
    destruct Hs as (E1 & E2 & E3 & E4 & E5), H1 as (? & ? & ? & ? & ?). simpl.
    split; [repeat split; congruence|]. split.
    + rewrite H2. unfold fin_covered_by. rewrite E1, E2, E3, E4. simpl. rewrite orb_assoc. f_equal.
      unfold fin_slot. destruct (_ && _ && _); simpl; [by rewrite orb_true_r|by rewrite orb_false_r].
    + intros data A HA. apply H3. unfold fin_slot. case_match; [|done]. by apply set_fin_acked_represents.
Qed.

Lemma retire_slot_spec r data A :
  represents r data A ->
  match retire_slot r with
  | None => (forall i, 0 <= i < data_len r -> A i = true) /\ (fin r = true -> fin_acked r = true)
  | Some r' => ~ ((forall i, 0 <= i < data_len r -> A i = true) /\ (fin r = true -> fin_acked r = true)) /\
      represents r' data A /\ same_range r r' /\ fin_acked r' = fin_acked r
  end.
Proof.
  intros Hrep. pose proof (all_data_acknowledged_iff r data A Hrep) as Hall. unfold retire_slot.
  destruct (all_data_acknowledged r) eqn:Ha.
  - assert (E : all_data_acknowledged (set_storage r None None (payload_start r) (payload_end r)) = true)
      by exact Ha. rewrite E. cbn [andb set_storage fin fin_acked].
    pose proof (proj1 Hall eq_refl) as HA. apply Z.eqb_eq in Ha.
    destruct (fin r) eqn:Hf, (fin_acked r) eqn:Hfa; cbn [negb orb]; (split; [|try split]); try done.
    + by intros [_ H]; specialize (H eq_refl).
    + destruct Hrep as [Hsz Hst Hb He Hti]. constructor; try done; [|by left].
      intros i Hi _. by apply HA.
  - rewrite Ha. cbn [andb]. split; [|done]. intros [H _]. apply Hall in H. done.
Qed.

(** The lineage keeps the most recent sixteen transmissions, oldest first. *)
Lemma add_prior_packet_recent r p :
  length (prior_packets r) = 16%nat -> 0 <= prior_packet_count r <= 16 ->
  let recent r := take (Z.to_nat (prior_packet_count r)) (prior_packets r) in
  recent (add_prior_packet r p) =
    (if prior_packet_count r <? 16 then recent r else drop 1 (recent r)) ++ [p].
Proof.
  intros Hl Hc. cbv zeta. unfold add_prior_packet, zlen. rewrite Hl. change (Z.of_nat 16) with 16.
  destruct (Z.ltb_spec (prior_packet_count r) 16); simpl.
  - replace (Z.to_nat (prior_packet_count r + 1)) with (S (Z.to_nat (prior_packet_count r))) by lia.
    erewrite take_S_r by (apply list_lookup_insert_eq; lia). by rewrite take_insert_ge.
  - replace (prior_packet_count r) with 16 by lia. rewrite (take_ge (prior_packets r)) by lia.
    apply take_ge. rewrite length_app, length_drop, Hl. simpl. lia.
Qed.

(** A fresh range represents its data with nothing acknowledged. *)
Lemma retained_new_represents sid off data fin_ pn owned :
  0 <= off -> off + zlen data <= U64_MAX ->
  represents (retained_new sid off data fin_ pn owned) data (fun _ => false).
Proof.
  intros Ho Hl. pose proof (zlen_nonneg data).
  assert (0 <= div_ceil (zlen data) 64) by (apply Z.div_pos; lia).
  assert (Hse : stored_end (retained_new sid off data fin_ pn owned) = zlen data)
    by (unfold stored_end; destruct owned; simpl; lia). constructor.
  - split; [done|]. split; [done|]. split; [done|]. simpl. split.
    + unfold zlen at 1. rewrite length_replicate. lia.
    + apply Forall_replicate. by vm_compute.
  - unfold storage_ok. destruct owned; simpl.
    + split; [done|]. lia.
    + split; [lia|]. split; [lia|]. by rewrite drop_0, firstn_all.
  - intros i Hi. simpl. unfold bit, word_at, get_ix. destruct (0 <=? i / 64); [|apply Z.bits_0].
    destruct (replicate _ 0 !! _) as [w|] eqn:Hw; [|apply Z.bits_0].
    apply lookup_replicate in Hw as [-> _]. apply Z.bits_0.
  - intros i Hi. rewrite Hse. simpl in *. lia.
  - unfold tight. rewrite Hse. simpl. destruct (Z.eq_dec (zlen data) 0); [by left|].
    right. split; [lia|done].
Qed.

(** ** Properties *)

(** The word-parallel acknowledgement bitmap is exactly a per-byte set:
    acknowledging [off, off + length) never panics, marks precisely the covered
    bytes of the range, keeps earlier marks, and leaves every byte that is
    still missing retransmittable with its original value. *)
Theorem mark_acknowledged_refines r data A off length :
  represents r data A -> 0 <= off -> 0 <= length ->
  exists out r', mark_acknowledged r off length = Ok (out, r') /\
    represents r' data (fun i => A i || covers r off length i) /\
    (forall i, 0 <= i < data_len r ->
       is_byte_acknowledged r' i = is_byte_acknowledged r i || covers r off length i) /\
    forall i, 0 <= i < data_len r -> is_byte_acknowledged r' i = false ->
      payload_range r' i (i + 1) = Some (take 1 (drop (Z.to_nat i) data)).
Proof.
  intros Hrep Ho Hl.
  destruct (mark_acknowledged_represents r data A off length Hrep Ho Hl)
    as (out & r' & Hm & Hr' & (_ & _ & Elen & _) & _).
  exists out, r'. split; [done|]. split; [done|].
  assert (Hbit : forall i, 0 <= i < data_len r ->
    is_byte_acknowledged r' i = A i || covers r off length i).
  { intros i Hi. rewrite is_byte_acknowledged_bit by lia. apply (rep_bits _ _ _ Hr'). by rewrite Elen. }
  split.
  - intros i Hi. rewrite Hbit by done. f_equal. symmetry.
    rewrite is_byte_acknowledged_bit by lia. by apply (rep_bits _ _ _ Hrep).
  - intros i Hi Hmiss. rewrite Hbit in Hmiss by done.
    pose proof Hr' as [Hsz Hst Hb He _]. destruct (storage_window r' data Hsz Hst) as [_ Hwin].
    assert (Hin : payload_start r' <= i < stored_end r').
    { destruct (Z.lt_ge_cases i (payload_start r')), (Z.lt_ge_cases i (stored_end r')); try lia;
        rewrite He in Hmiss by lia; done. }
    destruct (has_payload r') eqn:Hhp.
    + destruct (Hwin eq_refl) as [_ Hpr]. rewrite Hpr by lia. by replace (i + 1 - i) with 1 by lia.
    + rewrite (no_payload_acked _ _ _ Hr' Hhp i) in Hmiss by lia. done.
Qed.

(** A retransmission sends the first run of missing bytes, unchanged, with
    FIN exactly when the run reaches the end of a FIN range that is not yet
    acknowledged; a range with nothing missing sends at most a bare FIN; and
    the constant-time completion test agrees with the bitmap. *)
Theorem retransmission_first_gap r data A :
  represents r data A ->
  retransmission r = Ok
    match first_gap A (data_len r) with
    | Some (s, e) => Some (offset r + s, take (Z.to_nat (e - s)) (drop (Z.to_nat s) data),
                           fin r && negb (fin_acked r) && (e =? data_len r))
    | None => if fin r && negb (fin_acked r) then Some (offset r + data_len r, [], true) else None
    end /\
  (all_data_acknowledged r = true <-> first_gap A (data_len r) = None).
Proof.
  intros Hrep. pose proof (first_unacknowledged_run_gap r data A Hrep) as Hrun.
  pose proof Hrep as [Hsz Hst _ _ _]. destruct (storage_window r data Hsz Hst) as [_ Hwin].
  split.
  - unfold retransmission. rewrite Hrun. destruct (first_gap A (data_len r)) as [[s e]|] eqn:Hg.
    + destruct (first_gap_in_window r data A s e Hrep Hg) as (Hhp & Hse & He). rewrite Hhp.
      destruct (Hwin Hhp) as [_ Hpr]. by rewrite Hpr by lia.
    + destruct (has_payload r), (fin r && negb (fin_acked r)); done.
  - rewrite (all_data_acknowledged_iff r data A Hrep). unfold first_gap. split.
    + intros Hall. rewrite (proj2 (find_seqZ_None _ 0 _)); [done|]. intros i Hi. by rewrite Hall.
    + destruct (List.find _ _) eqn:Hf; [done|]. intros _ i Hi. apply negb_false_iff.
      by apply (proj1 (find_seqZ_None _ _ _) Hf).
Qed.

(** Applying any batch of acknowledged ranges and FINs to the send buffer
    is reliable: it never panics, and a retained range is released exactly when
    each of its bytes and its FIN, if it has one, has been acknowledged by a
    frame of its stream; otherwise it stays, with exactly the acknowledged bytes
    marked. *)
Theorem acknowledge_batch_reliable acks fins buf :
  Forall ack_ok acks -> Forall slot_ok buf ->
  exists buf', acknowledge_batch acks fins buf = Ok buf' /\ length buf' = length buf /\
    forall k r data A, buf !! k = Some (Some r) -> represents r data A ->
      let complete := (forall i, 0 <= i < data_len r -> A i || covered_by r acks i = true) /\
                      (fin r = true -> fin_acked r || fin_covered_by r fins = true) in
      match buf' !! k with
      | Some None => complete
      | Some (Some r') => ~ complete /\ same_range r r' /\
          represents r' data (fun i => A i || covered_by r acks i) /\
          fin_acked r' = fin_acked r || fin_covered_by r fins
      | None => False
      end.
Proof.
  intros Ha Hb. destruct (mark_batch_marked acks buf Ha Hb) as (b1 & H1 & H2).
  unfold acknowledge_batch. rewrite H1. eexists. split; [done|]. split.
  { rewrite length_fmap. apply Forall2_length in H2. rewrite H2. clear.
    revert b1. induction fins as [|f fins IH]; intros b1; [done|].
    cbn [fin_pass fold_left]. unfold fin_pass in IH. by rewrite IH, length_fmap. }
  intros k r data A Hk HA. destruct (fin_pass_lookup fins b1 k) as (h & Hl & Hh).
  rewrite list_lookup_fmap, Hl. destruct (Forall2_lookup_l _ _ _ _ _ H2 Hk) as ([r1|] & Hk1 & Hm); [|done].
  destruct Hm as (Hs1 & Hf1 & Hr1). specialize (Hr1 data A HA). rewrite Hk1. simpl.
  destruct (Hh r1) as (Hs2 & Hf2 & Hr2). specialize (Hr2 _ _ Hr1).
  pose proof (retire_slot_spec (h r1) data _ Hr2) as Hret.
  destruct Hs1 as (E1 & E2 & E3 & E4 & E5), Hs2 as (F1 & F2 & F3 & F4 & F5).
  assert (Hfin : fin_acked (h r1) = fin_acked r || fin_covered_by r fins).
  { rewrite Hf2, Hf1. unfold fin_covered_by. by rewrite E1, E2, E3, E4. }
  rewrite F3, F4, E3, E4, Hfin in Hret. destruct (retire_slot (h r1)) as [r'|]; [|done].
  destruct Hret as (Hn & Hr' & (G1 & G2 & G3 & G4 & G5) & Hf'). split; [done|].
  split; [repeat split; congruence|]. split; [done|congruence].
Qed.

(** ** Witnesses *)
Definition sample_data : bytes := seqZ 0 130.
Definition sample_range : RetainedSendRange := retained_new 4 17 sample_data true 9 false.

Lemma sample_represents : represents sample_range sample_data (fun _ => false).
Proof. apply retained_new_represents; by vm_compute. Qed.

Lemma mark_acknowledged_refines_witness :
  exists out r', mark_acknowledged sample_range 30 100 = Ok (out, r') /\
    represents r' sample_data (fun i => false || covers sample_range 30 100 i) /\
    (forall i, 0 <= i < 130 -> is_byte_acknowledged r' i =
       is_byte_acknowledged sample_range i || covers sample_range 30 100 i) /\
    forall i, 0 <= i < 130 -> is_byte_acknowledged r' i = false ->
      payload_range r' i (i + 1) = Some (take 1 (drop (Z.to_nat i) sample_data)).
Proof.
  apply (mark_acknowledged_refines sample_range sample_data (fun _ => false) 30 100);
    [apply sample_represents|lia|lia].
Defined.

Lemma retransmission_first_gap_witness :
  retransmission sample_range = Ok (Some (17, sample_data, true)).
Proof.
  destruct (retransmission_first_gap sample_range sample_data (fun _ => false) sample_represents)
    as [H _]. rewrite H. vm_compute. reflexivity.
Defined.

Lemma acknowledge_batch_reliable_witness :
  exists buf', acknowledge_batch [(4, 17, 130)] [(4, 147)] [Some sample_range; None] = Ok buf' /\
    length buf' = 2%nat.
Proof.
  destruct (acknowledge_batch_reliable [(4, 17, 130)] [(4, 147)] [Some sample_range; None])
    as (b & H1 & H2 & _).
  - by repeat constructor.
  - repeat constructor. exists sample_data, (fun _ => false). apply sample_represents.
  - exists b. split; [exact H1|exact H2].
Defined.
