(* ===== verification/Records.v ===== *)
(** * Record updates

    The endpoint and path states are records of some sixty fields, and a method
    of the code assigns a few of them.  This file gives the update
    [r <| field := v |>] (and [r <| field ::= f |>] for a function of the old
    value), and the tactics [get_set] and [get_set_in] that evaluate a projection of
    an updated record. *)

From S2P Require Import Prelude.

(** [setter field f r] is [r] with [f] applied to [field]. *)
Class Setter {R E : Type} (getter : R -> E) : Type := setter : (E -> E) -> R -> R.
#[global] Arguments setter {R E} getter {_} _ _ : simpl never.

(** The eta expansion of a record type, declared once per record. *)
Class Eta (R : Type) : Type := eta_of : R -> R.

Ltac mk_eta :=
  lazymatch goal with
  | |- Eta ?R =>
      let t := constr:(ltac:(let x := fresh "x" in intro x; unshelve eexists;
                             [econstructor; destruct x | destruct x; reflexivity])
                       : forall x : R, { y : R | y = x }) in
      lazymatch t with fun x => exist _ (@?w x) _ => exact w end
  end.

(** Closes a goal [Setter field]; each field of a record declares its instance once. *)
Ltac mk_setter :=
  lazymatch goal with
  | |- @Setter ?R ?E ?getter =>
      let eta := lazymatch constr:(@eta_of R _) with @eta_of _ ?e => e end in
      exact (fun (f : E -> E) (r : R) => ltac:(
        let b := eval cbv beta delta [eta] in (eta r) in
        let g := eval cbv beta delta [getter] in (getter r) in
        lazymatch b with context C [g] => let b' := context C [f g] in exact b' end))
  end.

Declare Scope record_scope.
#[global] Open Scope record_scope.
Notation "r <| p ::= f |>" := (setter p f r)
  (at level 1, left associativity, p at level 9, f at level 200, format "r <| p  ::=  f |>")
  : record_scope.
Notation "r <| p := v |>" := (setter p (fun _ => v) r)
  (at level 1, left associativity, p at level 9, v at level 200, format "r <| p  :=  v |>")
  : record_scope.

(** Projections (and functions of projections) of updated records. *)
Ltac get_set :=
  repeat match goal with
  | |- context [?p (@setter ?R ?E ?p ?s ?f ?r)] =>
      change (p (@setter R E p s f r)) with (f (p r)); cbv beta
  | |- context [?p (@setter ?R ?E ?q ?s ?f ?r)] => change (p (@setter R E q s f r)) with (p r)
  end.
Ltac get_set_in H :=
  repeat match type of H with
  | context [?p (@setter ?R ?E ?p ?s ?f ?r)] =>
      change (p (@setter R E p s f r)) with (f (p r)) in H; cbv beta in H
  | context [?p (@setter ?R ?E ?q ?s ?f ?r)] => change (p (@setter R E q s f r)) with (p r) in H
  end.
