(* ===== verification/Methods.v ===== *)
(** * Stateful methods

    A Rust method [fn m(&mut self, ..) -> Result<A, Error>] may change [self]
    before it fails, so it is a function of the state that returns the outcome
    and the state it leaves, on every outcome.  This file gives that monad, the
    way a method works on a field ([on_field], [on_field_res]), loops over a
    slice, and the weakest precondition [wp] by which the methods are proved:
    [wp m Q s] says that [m], run from [s], ends in an outcome and a state that
    satisfy [Q]. *)

From S2P Require Import Prelude Records Wire.

Definition method (S A : Type) : Type := S -> res A * S.

#[export] Instance method_ret S : MRet (method S) := fun A a s => (Ok a, s).
#[export] Instance method_bind S : MBind (method S) := fun A B k m s =>
  match m s with
  | (Ok a, s') => k a s'
  | (Err e, s') => (Err e, s')
  | (Panic, s') => (Panic, s')
  end.

Section methods.
Context {S : Type}.

Definition gets {A} (f : S -> A) : method S A := fun s => (Ok (f s), s).
Definition modify (f : S -> S) : method S unit := fun s => (Ok tt, f s).
Definition raise {A} (e : Error.t) : method S A := fun s => (Err e, s).
(** A fallible computation that does not touch the state. *)
Definition lift_res {A} (o : res A) : method S A := fun s => (o, s).
(** A fallible reading of the state. *)
Definition gets_res {A} (f : S -> res A) : method S A := fun s => (f s, s).
(** [if cond { return Err(e) }] *)
Definition refuse_if (b : bool) (e : Error.t) : method S unit := lift_res (guard_err b e).

(** [for x in l { m(x)? }] *)
Fixpoint for_each {X} (l : list X) (m : X -> method S unit) : method S unit :=
  match l with
  | [] => mret tt
  | x :: l' => m x ≫= fun _ => for_each l' m
  end.

(** A method of a field, and one that leaves the field alone when it fails. *)
Definition on_field {E A} (field : S -> E) `{!Setter field} (f : E -> res A * E) : method S A :=
  fun s => let '(o, x) := f (field s) in (o, s <| field := x |>).
Definition on_field_res {E} (field : S -> E) `{!Setter field} (f : E -> res E) : method S unit :=
  fun s => match f (field s) with
           | Ok x => (Ok tt, s <| field := x |>)
           | Err e => (Err e, s)
           | Panic => (Panic, s)
           end.

(** [let _ = m;]: the error of [m] is dropped; a panic unwinds. *)
Definition ignore {A} (m : method S A) : method S unit := fun s =>
  match m s with (Panic, s') => (Panic, s') | (_, s') => (Ok tt, s') end.

Lemma bind_ok {A B} (m : method S A) (k : A -> method S B) s a s' :
  m s = (Ok a, s') -> (m ≫= k) s = k a s'.
Proof. unfold mbind, method_bind. by intros ->. Qed.

Lemma bind_unfold {A B} (m : method S A) (k : A -> method S B) s :
  (m ≫= k) s = match m s with
               | (Ok a, s') => k a s'
               | (Err e, s') => (Err e, s')
               | (Panic, s') => (Panic, s')
               end.
Proof. done. Qed.
Lemma bind_modify {A} f (k : unit -> method S A) s : (modify f ≫= k) s = k tt (f s).
Proof. done. Qed.
Lemma bind_gets {A B} (f : S -> A) (k : A -> method S B) s : (gets f ≫= k) s = k (f s) s.
Proof. done. Qed.

Lemma bind_refuse {A} b er (k : unit -> method S A) s :
  (refuse_if b er ≫= k) s = if b then (Err er, s) else k tt s.
Proof. by destruct b. Qed.

Lemma bind_lift {A B} (o : res A) (k : A -> method S B) s :
  (lift_res o ≫= k) s = match o with Ok a => k a s | Err er => (Err er, s) | Panic => (Panic, s) end.
Proof. by destruct o. Qed.

Lemma bind_gets_res {A B} (f : S -> res A) (k : A -> method S B) s :
  (gets_res f ≫= k) s = match f s with Ok a => k a s | Err er => (Err er, s) | Panic => (Panic, s) end.
Proof. unfold gets_res. rewrite bind_unfold. by destruct (f s). Qed.

(** ** Weakest preconditions *)
Definition wp {A} (m : method S A) (Q : res A -> S -> Prop) (s : S) : Prop := Q (m s).1 (m s).2.

Lemma wp_bind {A B} (m : method S A) (k : A -> method S B) Q s :
  wp m (fun o s' => match o with
                    | Ok a => wp (k a) Q s'
                    | Err e => Q (Err e) s'
                    | Panic => Q Panic s'
                    end) s -> wp (m ≫= k) Q s.
Proof. unfold wp, mbind, method_bind. by destruct (m s) as [[] ?]. Qed.

Lemma wp_ret {A} (a : A) Q s : Q (Ok a) s -> wp (mret a) Q s.
Proof. done. Qed.
Lemma wp_gets {A} (f : S -> A) Q s : Q (Ok (f s)) s -> wp (gets f) Q s.
Proof. done. Qed.
Lemma wp_modify f Q s : Q (Ok tt) (f s) -> wp (modify f) Q s.
Proof. done. Qed.
Lemma wp_raise {A} e (Q : res A -> S -> Prop) s : Q (Err e) s -> wp (raise e) Q s.
Proof. done. Qed.
Lemma wp_lift {A} (o : res A) Q s : Q o s -> wp (lift_res o) Q s.
Proof. done. Qed.
Lemma wp_gets_res {A} (f : S -> res A) Q s : Q (f s) s -> wp (gets_res f) Q s.
Proof. done. Qed.
Lemma wp_refuse b e Q s :
  (b = true -> Q (Err e) s) -> (b = false -> Q (Ok tt) s) -> wp (refuse_if b e) Q s.
Proof. destruct b; unfold wp; simpl; auto. Qed.

Lemma wp_weaken {A} (m : method S A) (Q Q' : res A -> S -> Prop) s :
  wp m Q s -> (forall o s', Q o s' -> Q' o s') -> wp m Q' s.
Proof. unfold wp. auto. Qed.

(** ** Invariants *)
Definition keeps {A} (I : S -> Prop) (m : method S A) : Prop := forall s, I s -> I (m s).2.

Lemma keeps_wp {A} (I : S -> Prop) (m : method S A) s : keeps I m -> I s -> wp m (fun _ => I) s.
Proof. unfold wp. auto. Qed.

Lemma keeps_bind {A B} I (m : method S A) (k : A -> method S B) :
  keeps I m -> (forall a, keeps I (k a)) -> keeps I (m ≫= k).
Proof.
  intros Hm Hk s Hs. specialize (Hm s Hs). unfold mbind, method_bind.
  destruct (m s) as [[a|e|] s']; simpl in *; try done. by apply Hk.
Qed.

Lemma keeps_ret {A} I (a : A) : keeps I (mret a).
Proof. by intros s. Qed.
Lemma keeps_gets {A} I (f : S -> A) : keeps I (gets f).
Proof. by intros s. Qed.
Lemma keeps_modify (I : S -> Prop) f : (forall s, I s -> I (f s)) -> keeps I (modify f).
Proof. by intros H s ?; apply H. Qed.
Lemma keeps_raise {A} I e : keeps (A:=A) I (raise e).
Proof. by intros s. Qed.
Lemma keeps_lift {A} I (o : res A) : keeps I (lift_res o).
Proof. by intros s. Qed.
Lemma keeps_gets_res {A} I (f : S -> res A) : keeps I (gets_res f).
Proof. by intros s. Qed.
Lemma keeps_refuse I b e : keeps I (refuse_if b e).
Proof. by intros s. Qed.
Lemma keeps_ignore {A} I (m : method S A) : keeps I m -> keeps I (ignore m).
Proof. intros H s Hs. specialize (H s Hs). unfold ignore. by destruct (m s) as [[] ?]. Qed.

Lemma keeps_for_each {X} I (l : list X) (m : X -> method S unit) :
  (forall x, x ∈ l -> keeps I (m x)) -> keeps I (for_each l m).
Proof.
  induction l as [|x l IH]; simpl; intros H; [apply keeps_ret|].
  apply keeps_bind; [apply H; left|]. intros _. apply IH. intros y Hy. apply H. by right.
Qed.

Lemma keeps_on_field {E A} I (field : S -> E) `{!Setter field} (f : E -> res A * E) :
  (forall s x, I s -> I (s <| field := x |>)) -> keeps I (on_field field f).
Proof. intros H s Hs. unfold on_field. destruct (f (field s)). simpl. by apply H. Qed.

Lemma keeps_on_field_res {E} I (field : S -> E) `{!Setter field} (f : E -> res E) :
  (forall s x, I s -> I (s <| field := x |>)) -> keeps I (on_field_res field f).
Proof. intros H s Hs. unfold on_field_res. destruct (f (field s)); simpl; auto. Qed.
End methods.

#[global] Arguments gets : simpl never.
#[global] Arguments modify : simpl never.
#[global] Arguments raise : simpl never.
#[global] Arguments lift_res : simpl never.
#[global] Arguments gets_res : simpl never.
#[global] Arguments refuse_if : simpl never.
#[global] Arguments on_field : simpl never.
#[global] Arguments on_field_res : simpl never.

Create HintDb keeps.
#[export] Hint Resolve keeps_ret keeps_gets keeps_gets_res keeps_raise keeps_lift keeps_refuse : keeps.

(** One step of a [wp] proof. *)
Ltac wp_step :=
  lazymatch goal with
  | |- wp (_ ≫= _) _ _ => apply wp_bind
  | |- wp (mret _) _ _ => apply wp_ret
  | |- wp (gets _) _ _ => apply wp_gets
  | |- wp (modify _) _ _ => apply wp_modify
  | |- wp (raise _) _ _ => apply wp_raise
  | |- wp (lift_res _) _ _ => apply wp_lift
  | |- wp (gets_res _) _ _ => apply wp_gets_res
  | |- wp (refuse_if _ _) _ _ => apply wp_refuse; intros ?
  end; cbv beta iota.
