(* ===== verification/Actions.v ===== *)
(** * Actions with an error type of their own

    The methods of [Methods.v] fail with the transport [Error].  The node has
    error types of its own, converted with [From] and [map_err]; this file gives
    the same monad for any error type, the conversion [err_as], and the lemmas
    about what an action does to the state. *)

From S2P Require Import Prelude Records Wire Methods.

Definition action (S E A : Type) : Type := S -> outcome E A * S.
#[global] Typeclasses Opaque action.

#[export] Instance action_ret S E : MRet (action S E) := fun A a s => (Ok a, s).
#[export] Instance action_bind S E : MBind (action S E) := fun A B k m s =>
  match m s with
  | (Ok a, s') => k a s'
  | (Err e, s') => (Err e, s')
  | (Panic, s') => (Panic, s')
  end.

Section actions.
Context {S E : Type}.

Definition get {A} (f : S -> A) : action S E A := fun s => (Ok (f s), s).
(** A fallible reading of the state. *)
Definition ask {A} (f : S -> outcome E A) : action S E A := fun s => (f s, s).
Definition update (f : S -> S) : action S E unit := fun s => (Ok tt, f s).
Definition throw {A} (e : E) : action S E A := fun s => (Err e, s).
Definition pure_out {A} (o : outcome E A) : action S E A := fun s => (o, s).
Definition throw_if (b : bool) (e : E) : action S E unit := pure_out (guard_err b e).
(** An unreachable branch, an [unwrap] of nothing. *)
Definition panic {A} : action S E A := fun s => (Panic, s).

(** [let _ = m;] *)
Definition discard {A} (m : action S E A) : action S E unit := fun s =>
  match m s with (Panic, s') => (Panic, s') | (_, s') => (Ok tt, s') end.

(** [m.map_err(f)] *)
Definition err_as {F A} (f : F -> E) (m : action S F A) : action S E A := fun s =>
  let '(o, s') := m s in (map_err f o, s').

(** A method of one field. *)
Definition on_part {T A} (field : S -> T) `{!Setter field} (m : T -> outcome E A * T) : action S E A := fun s =>
  let '(o, x) := m (field s) in (o, s <| field := x |>).

(** A match on the result: what follows decides on the error itself. *)
Definition catch {F A B} (m : action S F A) (k : A -> action S E B) (h : F -> action S E B) : action S E B := fun s =>
  match m s with
  | (Ok a, s') => k a s'
  | (Err e, s') => h e s'
  | (Panic, s') => (Panic, s')
  end.

Lemma act_unfold {A B} (m : action S E A) (k : A -> action S E B) s :
  (m ≫= k) s = match m s with
               | (Ok a, s') => k a s'
               | (Err e, s') => (Err e, s')
               | (Panic, s') => (Panic, s')
               end.
Proof. done. Qed.
Lemma act_get {A B} (f : S -> A) (k : A -> action S E B) s : (get f ≫= k) s = k (f s) s.
Proof. done. Qed.
Lemma act_update {A} f (k : unit -> action S E A) s : (update f ≫= k) s = k tt (f s).
Proof. done. Qed.
Lemma act_ask {A B} (f : S -> outcome E A) (k : A -> action S E B) s :
  (ask f ≫= k) s = match f s with Ok a => k a s | Err e => (Err e, s) | Panic => (Panic, s) end.
Proof. unfold ask. rewrite act_unfold. by destruct (f s). Qed.
Lemma act_pure {A B} (o : outcome E A) (k : A -> action S E B) s :
  (pure_out o ≫= k) s = match o with Ok a => k a s | Err e => (Err e, s) | Panic => (Panic, s) end.
Proof. by destruct o. Qed.
Lemma act_throw_if {A} b e (k : unit -> action S E A) s :
  (throw_if b e ≫= k) s = if b then (Err e, s) else k tt s.
Proof. by destruct b. Qed.
End actions.

(** ** What an action does to the state

    [respects R m]: the state [m] leaves, on every outcome, is related by [R] to
    the one it started from. *)
Section respecting.
Context {S : Type} (R : relation S) `{!PreOrder R}.

Definition respects {E A} (m : action S E A) : Prop := forall s, R s (m s).2.

Context {E : Type}.

Lemma respects_bind {A B} (m : action S E A) (k : A -> action S E B) :
  respects m -> (forall a, respects (k a)) -> respects (m ≫= k).
Proof.
  intros Hm Hk s. specialize (Hm s). rewrite act_unfold.
  destruct (m s) as [[a|e|] s']; cbn [fst snd] in *; try done. etrans; [exact Hm|apply Hk].
Qed.
Lemma respects_pure {A} (o : S -> outcome E A) : respects (fun s => (o s, s)).
Proof. by intros s. Qed.
Lemma respects_update f : (forall s, R s (f s)) -> respects (E:=E) (update f).
Proof. intros Hf s. apply Hf. Qed.
Lemma respects_discard {A} (m : action S E A) : respects m -> respects (discard m).
Proof. intros Hm s. specialize (Hm s). unfold discard. by destruct (m s) as [[] ?]. Qed.
Lemma respects_err_as {F A} (f : F -> E) (m : action S F A) : respects m -> respects (err_as f m).
Proof. intros Hm s. specialize (Hm s). unfold err_as. by destruct (m s). Qed.
Lemma respects_catch {F A B} (m : action S F A) (k : A -> action S E B) h :
  respects m -> (forall a, respects (k a)) -> (forall e, respects (h e)) -> respects (catch m k h).
Proof.
  intros Hm Hk Hh s. specialize (Hm s). unfold catch.
  destruct (m s) as [[a|e|] s']; cbn [fst snd] in *; [|by etrans; [|apply Hh]|done].
  etrans; [exact Hm|apply Hk].
Qed.
Lemma respects_if {A} (b : bool) (m m' : action S E A) : respects m -> respects m' -> respects (if b then m else m').
Proof. by destruct b. Qed.
End respecting.

#[global] Arguments get : simpl never.
#[global] Arguments ask : simpl never.
#[global] Arguments update : simpl never.
#[global] Arguments throw : simpl never.
#[global] Arguments pure_out : simpl never.
#[global] Arguments throw_if : simpl never.
#[global] Arguments err_as : simpl never.
#[global] Arguments catch : simpl never.
#[global] Arguments on_part : simpl never.
#[global] Arguments discard : simpl never.

(** The structure of an action; leaves the steps that change the state. *)
Ltac action_steps :=
  repeat lazymatch goal with
  | |- PreOrder _ => apply _
  | |- respects _ (_ ≫= _) => apply respects_bind; [..|intros ?]
  | |- respects _ (err_as _ _) => apply respects_err_as
  | |- respects _ (discard _) => apply respects_discard
  | |- respects _ (if ?b then _ else _) => first [apply respects_if | destruct b]
  | |- respects _ (match ?x with _ => _ end) => destruct x
  | |- respects _ (mret _) => apply (respects_pure _ (fun _ => Ok _))
  | |- respects _ (get _) => apply (respects_pure _ (fun s => Ok _))
  | |- respects _ (ask _) => apply respects_pure
  | |- respects _ (throw _) => apply respects_pure
  | |- respects _ (pure_out _) => apply respects_pure
  | |- respects _ (throw_if _ _) => apply respects_pure
  | |- respects _ panic => apply respects_pure
  | |- respects _ (update _) => apply respects_update; intros ?
  end.
