(* ===== verification/PathState.v ===== *)
(** * Path state: one circuit of an association

    [PathState] of [src/crates/quic-lite/src/lib.rs] with [PathEstimatorConfig]
    and [CircuitStatus] of [node.rs]: what an endpoint knows of one network path
    (a circuit).  The pacing and loss-threshold fields are the record
    [PathTransport] of [Congestion.v], embedded here as [transport]; the other
    fields are those of the Rust struct.  The operations keep addresses, the
    circuit key and join attempts, the delivery estimator with its step
    detector, probing, suspension, and the sequenced PATH_STATUS messages by
    which the two ends tell each other that a circuit is available, on standby
    or abandoned; [linked_congestion_increase_q32] couples the window growth of
    all paths.  The theorems give the invariant of the state over every sequence
    of operations, the agreement of the two ends on a circuit's status over an
    unreliable network, the order of the address cache, and the bounds of the
    estimator, the send cost and the coupled increase. *)

From S2P Require Import Prelude Records Wire Keyed Frames FlowControl Congestion.

Definition sat_add32 (a b : Z) : Z := Z.min (a + b) U32_MAX.
Definition sat_mul32 (a b : Z) : Z := Z.min (a * b) U32_MAX.
Definition sat_add16 (a b : Z) : Z := Z.min (a + b) U16_MAX.
Definition sat_add8 (a b : Z) : Z := Z.min (a + b) U8_MAX.

(** [(BearerId, PeerL2Address)] *)
Definition Address : Type := Z * Z.

Record CongestionHistoryPacket : Type := mkHistoryPacket {
  h_packet_number : Z;
  h_sent_at : Z;
  h_accepted : bool;
  h_acked : bool;
  h_lost : bool;
  h_had_rtt_sample : bool;
  h_excluded : bool;
}.

Record PathEstimatorConfig : Type := mkEstimatorConfig {
  minimum_rtt_age_window_us : Z;
  delivery_horizon_packets : Z;
  rtt_step_threshold_percent : Z;
  rtt_step_consecutive_samples : Z;
  loss_step_consecutive_packets : Z;
  step_conservative_duration_us : Z;
  step_cost_multiplier_q16 : Z;
}.

Definition default_config : PathEstimatorConfig :=
  mkEstimatorConfig 60000000 8 50 3 3 5000000 (2 ^ 16 * 2).

Definition estimator_config_is_valid (c : PathEstimatorConfig) : bool :=
  negb (minimum_rtt_age_window_us c =? 0)
  && negb (delivery_horizon_packets c =? 0)
  && (delivery_horizon_packets c <=? 64)
  && negb (rtt_step_threshold_percent c =? 0)
  && (rtt_step_threshold_percent c <=? 1000)
  && negb (rtt_step_consecutive_samples c =? 0)
  && negb (loss_step_consecutive_packets c =? 0)
  && negb (step_conservative_duration_us c =? 0)
  && (step_cost_multiplier_q16 c >=? 2 ^ 16)
  && (step_cost_multiplier_q16 c <=? 2 ^ 16 * 16).

(** [PacingConfig::default], that is [host]. *)
Definition pacing_host : PacingConfig := mkPacingConfig true 8 (DEFAULT_MAX_PACKET_SIZE * 8).

Inductive CircuitStatus : Type :=
  | Opening | Probing | Active | StandbyStatus | Suspended | Failed | Closed.

Record PathState : Type := mkPathState {
  transport : PathTransport;
  ca_remainder_q32 : Z;
  congestion_history : list CongestionHistoryPacket;
  persistent_congestion_end : option Z;
  last_pto_probe_at : option Z;
  pto_backoff : Z;
  largest_acked_packet : option Z;
  largest_sent_packet : option Z;
  next_send_order : Z;
  ack_pending : bool;
  ack_packets : Z;
  ack_immediate : bool;
  ack_started_at : Z;
  largest_received_packet : option Z;
  largest_received_at : Z;
  local_cid : option Z;
  peer_cid : option Z;
  first_hop : option Address;
  active_address : option Address;
  known_addresses : list Address;
  circuit_key : option CircuitKey;
  transaction_id : option Z;
  local_circuit_id : Z;
  join_attempts : Z;
  packets_sent : Z;
  retransmitted_packets : Z;
  ack_ranges_dropped : Z;
  packets_acked : Z;
  packets_lost : Z;
  packets_duplicated : Z;
  duplicate_bytes_prepared : Z;
  probe_bytes_prepared : Z;
  probe_bytes_budgeted : Z;
  probe_bytes_idle_exempt : Z;
  delivery_success_q16 : Z;
  estimator_config : PathEstimatorConfig;
  rtt_step_streak : Z;
  loss_step_streak : Z;
  step_conservative_until_us : Z;
  estimator_step_events : Z;
  last_ack_us : Z;
  next_probe_at_us : option Z;
  pending_probe : option (Z * Z);
  last_peer_probe_response : option (Z * Z);
  probing : bool;
  suspended : bool;
  validated : bool;
  peer_standby : bool;
  peer_abandoned : bool;
  peer_status_sequence : Z;
  local_status_sequence : Z;
  pending_local_status : option (Z * PathStatusKind);
  status_retry_at_us : option Z;
  locally_abandoned : bool;
}.

#[export] Instance eta_PathState : Eta PathState := ltac:(mk_eta).
#[export] Instance eta_PathTransport : Eta PathTransport := ltac:(mk_eta).
#[export] Instance set_transport : Setter transport := ltac:(mk_setter).
#[export] Instance set_ca_remainder_q32 : Setter ca_remainder_q32 := ltac:(mk_setter).
#[export] Instance set_congestion_history : Setter congestion_history := ltac:(mk_setter).
#[export] Instance set_persistent_congestion_end : Setter persistent_congestion_end := ltac:(mk_setter).
#[export] Instance set_last_pto_probe_at : Setter last_pto_probe_at := ltac:(mk_setter).
#[export] Instance set_pto_backoff : Setter pto_backoff := ltac:(mk_setter).
#[export] Instance set_largest_acked_packet : Setter largest_acked_packet := ltac:(mk_setter).
#[export] Instance set_largest_sent_packet : Setter largest_sent_packet := ltac:(mk_setter).
#[export] Instance set_next_send_order : Setter next_send_order := ltac:(mk_setter).
#[export] Instance set_ack_pending : Setter ack_pending := ltac:(mk_setter).
#[export] Instance set_ack_packets : Setter ack_packets := ltac:(mk_setter).
#[export] Instance set_ack_immediate : Setter ack_immediate := ltac:(mk_setter).
#[export] Instance set_ack_started_at : Setter ack_started_at := ltac:(mk_setter).
#[export] Instance set_largest_received_packet : Setter largest_received_packet := ltac:(mk_setter).
#[export] Instance set_largest_received_at : Setter largest_received_at := ltac:(mk_setter).
#[export] Instance set_local_cid : Setter local_cid := ltac:(mk_setter).
#[export] Instance set_peer_cid : Setter peer_cid := ltac:(mk_setter).
#[export] Instance set_first_hop : Setter first_hop := ltac:(mk_setter).
#[export] Instance set_active_address : Setter active_address := ltac:(mk_setter).
#[export] Instance set_known_addresses : Setter known_addresses := ltac:(mk_setter).
#[export] Instance set_circuit_key : Setter circuit_key := ltac:(mk_setter).
#[export] Instance set_transaction_id : Setter transaction_id := ltac:(mk_setter).
#[export] Instance set_local_circuit_id : Setter local_circuit_id := ltac:(mk_setter).
#[export] Instance set_join_attempts : Setter join_attempts := ltac:(mk_setter).
#[export] Instance set_packets_sent : Setter packets_sent := ltac:(mk_setter).
#[export] Instance set_retransmitted_packets : Setter retransmitted_packets := ltac:(mk_setter).
#[export] Instance set_ack_ranges_dropped : Setter ack_ranges_dropped := ltac:(mk_setter).
#[export] Instance set_packets_acked : Setter packets_acked := ltac:(mk_setter).
#[export] Instance set_packets_lost : Setter packets_lost := ltac:(mk_setter).
#[export] Instance set_packets_duplicated : Setter packets_duplicated := ltac:(mk_setter).
#[export] Instance set_duplicate_bytes_prepared : Setter duplicate_bytes_prepared := ltac:(mk_setter).
#[export] Instance set_probe_bytes_prepared : Setter probe_bytes_prepared := ltac:(mk_setter).
#[export] Instance set_probe_bytes_budgeted : Setter probe_bytes_budgeted := ltac:(mk_setter).
#[export] Instance set_probe_bytes_idle_exempt : Setter probe_bytes_idle_exempt := ltac:(mk_setter).
#[export] Instance set_delivery_success_q16 : Setter delivery_success_q16 := ltac:(mk_setter).
#[export] Instance set_estimator_config : Setter estimator_config := ltac:(mk_setter).
#[export] Instance set_rtt_step_streak : Setter rtt_step_streak := ltac:(mk_setter).
#[export] Instance set_loss_step_streak : Setter loss_step_streak := ltac:(mk_setter).
#[export] Instance set_step_conservative_until_us : Setter step_conservative_until_us := ltac:(mk_setter).
#[export] Instance set_estimator_step_events : Setter estimator_step_events := ltac:(mk_setter).
#[export] Instance set_last_ack_us : Setter last_ack_us := ltac:(mk_setter).
#[export] Instance set_next_probe_at_us : Setter next_probe_at_us := ltac:(mk_setter).
#[export] Instance set_pending_probe : Setter pending_probe := ltac:(mk_setter).
#[export] Instance set_last_peer_probe_response : Setter last_peer_probe_response := ltac:(mk_setter).
#[export] Instance set_probing : Setter probing := ltac:(mk_setter).
#[export] Instance set_suspended : Setter suspended := ltac:(mk_setter).
#[export] Instance set_validated : Setter validated := ltac:(mk_setter).
#[export] Instance set_peer_standby : Setter peer_standby := ltac:(mk_setter).
#[export] Instance set_peer_abandoned : Setter peer_abandoned := ltac:(mk_setter).
#[export] Instance set_peer_status_sequence : Setter peer_status_sequence := ltac:(mk_setter).
#[export] Instance set_local_status_sequence : Setter local_status_sequence := ltac:(mk_setter).
#[export] Instance set_pending_local_status : Setter pending_local_status := ltac:(mk_setter).
#[export] Instance set_status_retry_at_us : Setter status_retry_at_us := ltac:(mk_setter).
#[export] Instance set_locally_abandoned : Setter locally_abandoned := ltac:(mk_setter).
#[export] Instance set_congestion : Setter congestion := ltac:(mk_setter).
#[export] Instance set_rtt : Setter rtt := ltac:(mk_setter).
#[export] Instance set_send_clock : Setter send_clock := ltac:(mk_setter).

Definition MAX_PATH_STATES : Z := 4.
Definition MAX_PATH_JOIN_ATTEMPTS : Z := 5.

(** The embedded record: [self.congestion], [self.rtt], [self.send_clock]. *)
Definition path_congestion (p : PathState) : CongestionController := congestion (transport p).
Definition path_rtt (p : PathState) : RttEstimator := rtt (transport p).
Definition path_clock (p : PathState) : Z := send_clock (transport p).
Definition upd_congestion (f : CongestionController -> CongestionController) (p : PathState)
    : PathState := p <| transport ::= fun t => t <| congestion ::= f |> |>.
Definition upd_rtt (f : RttEstimator -> RttEstimator) (p : PathState) : PathState :=
  p <| transport ::= fun t => t <| rtt ::= f |> |>.

Module PathOps.

Definition new (mps : Z) : PathState :=
  mkPathState (Path.new mps pacing_host) 0 [] None None 0 None None 0 false 0 false 0 None 0
    None None None None [] None None 0 0 0 0 0 0 0 0 0 0 0 0 (2 ^ 15) default_config 0 0 0 0 0
    None None None false false true false false 0 0 None None false.

(** *** Addresses *)
Section addresses.
Context `{Allocator}.

Definition remember_address (p : PathState) (address : Address) : PathState :=
  let p := p <| first_hop ::= fun h => Some (default address h) |> in
  let p' :=
    if bool_decide (head (known_addresses p) = Some address) then Some p
    else
      let without :=
        match list_find (fun known => known = address) (known_addresses p) with
        | Some (index, _) => Some (delete index (known_addresses p))
        | None =>
            if try_reserve (length (known_addresses p)) then Some (known_addresses p) else None
        end in
      match without with
      | Some l => Some (p <| known_addresses := take 4 (address :: l) |>)
      | None => None
      end in
  (default p p') <| active_address := Some address |>.
End addresses.

Definition remove_bearer (p : PathState) (id : Z) : PathState :=
  let p := p <| known_addresses ::= List.filter (fun a => negb (a.1 =? id)) |> in
  if match active_address p with Some (bearer, _) => bearer =? id | None => false end
  then p <| active_address := head (known_addresses p) |> else p.

(** *** Estimator *)
Definition set_estimator_config (p : PathState) (config : PathEstimatorConfig) : PathState :=
  (upd_rtt (fun r => Rtt.set_minimum_age_window_us r (minimum_rtt_age_window_us config))
     (p <| estimator_config := config |>))
    <| rtt_step_streak := 0 |> <| loss_step_streak := 0 |>.

Definition is_probe_eligible (p : PathState) : bool :=
  negb (suspended p) && negb (peer_abandoned p) && negb (locally_abandoned p)
  && (validated p || probing p).

Definition is_usable_for_data (p : PathState) : bool :=
  validated p && negb (suspended p) && negb (peer_abandoned p) && negb (locally_abandoned p).

Definition is_closed (p : PathState) : bool := locally_abandoned p || peer_abandoned p.

Definition trigger_estimator_step (p : PathState) (now_us : Z) : PathState :=
  if now_us <? step_conservative_until_us p then p else
  let p := p <| step_conservative_until_us :=
                  sat_add now_us (step_conservative_duration_us (estimator_config p)) |>
             <| estimator_step_events ::= fun n => sat_add n 1 |> in
  match pending_probe p with
  | None => if is_probe_eligible p then p <| next_probe_at_us := Some now_us |> else p
  | Some _ => p
  end.

Definition update_rtt (p : PathState) (sample now_us : Z) : PathState :=
  let r := path_rtt p in
  let baseline :=
    Z.max (match Rtt.minimum_at r now_us with
           | Some m => m
           | None => default sample (Rtt.smoothed r)
           end) 1 in
  let threshold := sat_add16 100 (rtt_step_threshold_percent (estimator_config p)) in
  let elevated := sat_mul128 sample 100 >=? sat_mul128 baseline threshold in
  let p := p <| rtt_step_streak ::= fun n => if elevated then sat_add8 n 1 else 0 |> in
  let p := upd_rtt (fun r => Rtt.update_at r sample now_us) p in
  if rtt_step_streak p >=? rtt_step_consecutive_samples (estimator_config p)
  then trigger_estimator_step (p <| rtt_step_streak := 0 |>) now_us
  else p.

(** [horizon] is not zero in a valid configuration; the code divides by it. *)
Definition delivery_ewma (success horizon : Z) (delivered : bool) : Z :=
  Z.max (sat_add32 (sat_mul32 success (as_u32 (horizon - 1))) (if delivered then 2 ^ 16 else 0)
         / horizon) 1.

Definition record_delivery_outcome (p : PathState) (delivered : bool) (now_us : Z) : PathState :=
  let p := p <| delivery_success_q16 ::= fun s =>
                  delivery_ewma s (delivery_horizon_packets (estimator_config p)) delivered |> in
  if delivered then p <| loss_step_streak := 0 |>
  else
    let p := p <| loss_step_streak ::= fun n => sat_add8 n 1 |> in
    if loss_step_streak p >=? loss_step_consecutive_packets (estimator_config p)
    then trigger_estimator_step (p <| loss_step_streak := 0 |>) now_us
    else p.

Definition measured_send_cost_us (p : PathState) : Z :=
  let rtt_us := Z.max (default 500000 (Rtt.smoothed (path_rtt p))) 1 in
  let window := Z.max (congestion_window (path_congestion p)) 1 in
  let queued := sat_mul128 rtt_us (Z.min (bytes_in_flight (path_congestion p)) window) / window in
  let delivery_probability := Z.max (delivery_success_q16 p) 1 in
  let cost := sat_mul128 (sat_add128 rtt_us queued) (2 ^ 16) / delivery_probability in
  let conservative :=
    if path_clock p <? step_conservative_until_us p
    then sat_mul128 cost (step_cost_multiplier_q16 (estimator_config p)) / 2 ^ 16
    else cost in
  Z.min conservative U64_MAX.

(** *** Status messages *)
Definition pending_status (p : PathState) (now_us : Z)
    : option (CircuitKey * Z * PathStatusKind) :=
  '(sequence, status) ← pending_local_status p;
  if match status_retry_at_us p with Some deadline => now_us <? deadline | None => false end
  then None
  else key ← circuit_key p; Some (key, sequence, status).

Definition queue_status (p : PathState) (status : PathStatusKind) : res (Z * PathState) :=
  if bool_decide (circuit_key p = None) then Err Error.Invalid else
  if locally_abandoned p && negb (bool_decide (status = Abandon)) then Err Error.Invalid else
  sequence ← ok_or (match checked_add (local_status_sequence p) 1 with
                    | Some s => if s <? Z.shiftl 1 62 then Some s else None
                    | None => None
                    end) Error.PacketNumberExhausted;
  let p := p <| local_status_sequence := sequence |> in
  let p := if bool_decide (status = Abandon)
           then p <| locally_abandoned := true |> <| validated := false |> <| probing := false |>
                  <| pending_probe := None |> <| next_probe_at_us := None |>
           else p in
  Ok (sequence, p <| pending_local_status := Some (sequence, status) |>
                  <| status_retry_at_us := Some (path_clock p) |>).

Definition pending_is (p : PathState) (sequence : Z) : bool :=
  match pending_local_status p with Some (pending, _) => pending =? sequence | None => false end.

Definition status_sent (p : PathState) (sequence retry_at_us : Z) : PathState :=
  if pending_is p sequence then p <| status_retry_at_us := Some retry_at_us |> else p.

Definition acknowledge_status (p : PathState) (sequence : Z) : PathState :=
  if pending_is p sequence
  then p <| pending_local_status := None |> <| status_retry_at_us := None |> else p.

Definition receive_status (p : PathState) (sequence : Z) (status : PathStatusKind)
    : bool * PathState :=
  if (sequence <=? peer_status_sequence p) || peer_abandoned p then (false, p) else
  let p := p <| peer_status_sequence := sequence |> in
  (true, match status with
         | Available => p <| peer_standby := false |>
         | Standby => p <| peer_standby := true |>
         | Abandon => p <| peer_abandoned := true |> <| peer_standby := false |>
         end).

Definition local_abandon_complete (p : PathState) : bool :=
  locally_abandoned p && bool_decide (pending_local_status p = None).
Definition local_abandon_pending (p : PathState) : bool :=
  locally_abandoned p && negb (bool_decide (pending_local_status p = None)).

Definition circuit_status (p : PathState) : CircuitStatus :=
  if is_closed p then Closed
  else if suspended p then Suspended
  else if probing p then Probing
  else if peer_standby p then StandbyStatus
  else if validated p then Active
  else Opening.

(** *** Joining, validation and suspension *)
Definition set_circuit (p : PathState) (key : CircuitKey) (tid lid : Z) : PathState :=
  p <| circuit_key := Some key |> <| transaction_id := Some tid |>
    <| local_circuit_id := lid |> <| join_attempts := 1 |> <| validated := false |>.

Definition record_join_retry (p : PathState) : bool * PathState :=
  if join_attempts p >=? MAX_PATH_JOIN_ATTEMPTS then (false, p)
  else (true, p <| join_attempts ::= fun n => as_u8 (n + 1) |>).

Definition mark_validated (p : PathState) : PathState :=
  p <| validated := true |> <| probing := false |> <| suspended := false |>.

Definition mark_probing (p : PathState) : PathState :=
  p <| validated := false |> <| probing := true |> <| suspended := false |>
    <| pending_probe := None |>.

Definition mark_suspended (p : PathState) : PathState :=
  p <| validated := false |> <| probing := false |> <| suspended := true |>
    <| pending_probe := None |> <| next_probe_at_us := None |>.

Definition mark_unvalidated (p : PathState) : PathState := p <| validated := false |>.

Definition reset_recovery_for_resumption (p : PathState) : PathState :=
  upd_congestion CC.reset_for_resumption p
    <| pto_backoff := 0 |> <| last_pto_probe_at := None |> <| persistent_congestion_end := None |>.

(** *** Probes *)
Definition schedule_probe (p : PathState) (deadline_us : Z) : PathState :=
  p <| next_probe_at_us := Some deadline_us |>.

Definition can_respond_to_peer_probe (p : PathState) (token now_us interval_us : Z) : bool :=
  match last_peer_probe_response p with
  | None => true
  | Some (last_token, last_at) =>
      negb (last_token =? token) && (sat_sub now_us last_at >=? interval_us)
  end.

Definition record_peer_probe_response (p : PathState) (token now_us : Z) : PathState :=
  p <| last_peer_probe_response := Some (token, now_us) |>.

Definition assign_send_order (p : PathState) : res (Z * PathState) :=
  next ← ok_or (checked_add (next_send_order p) 1) Error.HistoryFull;
  Ok (next_send_order p, p <| next_send_order := next |>).

Definition begin_probe (p : PathState) (token now_us interval_us : Z) : PathState :=
  p <| pending_probe := Some (token, now_us) |>
    <| next_probe_at_us := Some (sat_add now_us interval_us) |>.

Definition complete_probe (p : PathState) (token now_us : Z) : option Z * PathState :=
  match pending_probe p with
  | None => (None, p)
  | Some (pending, sent_at_us) =>
      if negb (pending =? token) then (None, p) else
      let sample := sat_sub now_us sent_at_us in
      (Some sample,
       (update_rtt (p <| pending_probe := None |>) sample now_us)
         <| step_conservative_until_us := 0 |>)
  end.

Definition update_probe_submission_time (p : PathState) (token sent_at_us : Z) : PathState :=
  match pending_probe p with
  | Some (pending, _) =>
      if pending =? token then p <| pending_probe := Some (token, sent_at_us) |> else p
  | None => p
  end.
End PathOps.

(** ** Linked increases over all paths

    Index [path_id] of [paths]; the sums and products are [u128]. *)
Definition lia_eligible (p : PathState) : bool :=
  validated p && negb (suspended p) && negb (peer_standby p) && negb (peer_abandoned p)
  && negb (locally_abandoned p)
  && match Rtt.smoothed (path_rtt p) with Some r => 0 <? r | None => false end.

Definition window_of (p : PathState) : Z := congestion_window (path_congestion p).

(** One turn of the loop over the eligible paths: [(sum_x_t, max_x_t2)]. *)
Definition lia_step (total_window min_rtt : Z) (acc : Z * Z) (p : PathState) : Z * Z :=
  match Rtt.smoothed (path_rtt p) with
  | Some r =>
      if 0 <? r then
        let x := sat_mul128 (window_of p) (2 ^ 32) / total_window in
        let t := sat_mul128 min_rtt (2 ^ 32) / r in
        let x_t := sat_mul128 x t / 2 ^ 32 in
        let x_t2 := sat_mul128 x_t t / 2 ^ 32 in
        (sat_add128 acc.1 x_t, Z.max acc.2 x_t2)
      else acc
  | None => acc
  end.

Fixpoint min_list (l : list Z) : option Z :=
  match l with
  | [] => None
  | x :: l' => Some (match min_list l' with Some m => Z.min x m | None => x end)
  end.

Definition linked_congestion_increase_q32 (paths : list PathState) (path_id acked_bytes : Z) : Z :=
  let Q32 := 2 ^ 32 in
  if acked_bytes =? 0 then 0 else
  match get_ix paths path_id with
  | None => 0
  | Some target =>
      if negb (lia_eligible target) then 0 else
      let eligible := List.filter lia_eligible paths in
      let total_window := zsum window_of eligible in
      let mss := max_packet_size (path_congestion target) in
      if total_window =? 0 then 0 else
      if zlen paths =? 1 then
        match checked_mul acked_bytes mss ≫= fun product => checked_mul product (2 ^ 32) with
        | Some numerator => numerator / window_of target
        | None => sat_mul128 (sat_mul128 acked_bytes mss) Q32 / total_window
        end
      else
        let min_rtt := Z.max (default 1 (min_list (omap (fun p => Rtt.smoothed (path_rtt p))
                                                     eligible))) 1 in
        let '(sum_x_t, max_x_t2) := fold_left (lia_step total_window min_rtt) eligible (0, 0) in
        if sum_x_t =? 0 then 0 else
        let alpha := sat_mul128 (sat_mul128 max_x_t2 Q32) Q32
                     / Z.max (sat_mul128 sum_x_t sum_x_t) 1 in
        let window := Z.max (window_of target) 1 in
        let first := sat_mul128 (sat_mul128 alpha acked_bytes) mss / total_window in
        let second := sat_mul128 (sat_mul128 acked_bytes mss) Q32 / window in
        Z.min first second
  end.

(** [apply_ack_congestion_growth]: the increases are computed for all paths
    before any window changes. *)
Definition growth_increase (paths : list PathState) (growth : list Z) (path_id : nat) : Z :=
  let acked := default 0 (growth !! path_id) in
  match paths !! path_id with
  | Some p =>
      if negb (acked =? 0)
         && (slow_start_threshold (path_congestion p) <=? congestion_window (path_congestion p))
      then linked_congestion_increase_q32 paths (Z.of_nat path_id) acked else 0
  | None => 0
  end.

Definition grow_path (acked increase : Z) (p : PathState) : PathState :=
  if acked =? 0 then p else
  if window_of p <? slow_start_threshold (path_congestion p) then
    upd_congestion (fun c => CC.set_window c (sat_add (congestion_window c) acked)) p
      <| ca_remainder_q32 := 0 |>
  else
    let accumulated := sat_add128 (ca_remainder_q32 p) increase in
    upd_congestion (fun c => CC.set_window c
        (sat_add (congestion_window c) (Z.min (Z.shiftr accumulated 32) U64_MAX))) p
      <| ca_remainder_q32 := as_u32 accumulated |>.

Definition apply_ack_congestion_growth (paths : list PathState) (growth : list Z)
    : list PathState :=
  imap (fun i p => grow_path (default 0 (growth !! i)) (growth_increase paths growth i) p) paths.

(** ** Sequences of operations *)
Inductive path_op : Type :=
  | ORemember (a : Address)
  | ORemoveBearer (id : Z)
  | OConfigure (c : PathEstimatorConfig)
  | OUpdateRtt (sample now : Z)
  | ODelivery (delivered : bool) (now : Z)
  | OQueueStatus (k : PathStatusKind)
  | OStatusSent (sequence retry_at : Z)
  | OAckStatus (sequence : Z)
  | OReceiveStatus (sequence : Z) (k : PathStatusKind)
  | OSetCircuit (key : CircuitKey) (tid lid : Z)
  | OJoinRetry
  | OMarkValidated
  | OMarkProbing
  | OMarkSuspended
  | OMarkUnvalidated
  | OResetRecovery
  | OScheduleProbe (deadline : Z)
  | OPeerProbe (token now : Z)
  | OSendOrder
  | OBeginProbe (token now interval : Z)
  | OCompleteProbe (token now : Z)
  | OProbeSubmitted (token at_ : Z).

Section path_runs.
Context `{Allocator}.

Definition path_apply (p : PathState) (op : path_op) : PathState :=
  match op with
  | ORemember a => PathOps.remember_address p a
  | ORemoveBearer id => PathOps.remove_bearer p id
  | OConfigure c => PathOps.set_estimator_config p c
  | OUpdateRtt s now => PathOps.update_rtt p s now
  | ODelivery d now => PathOps.record_delivery_outcome p d now
  | OQueueStatus k => match PathOps.queue_status p k with Ok (_, p') => p' | _ => p end
  | OStatusSent s r => PathOps.status_sent p s r
  | OAckStatus s => PathOps.acknowledge_status p s
  | OReceiveStatus s k => (PathOps.receive_status p s k).2
  | OSetCircuit k t l => PathOps.set_circuit p k t l
  | OJoinRetry => (PathOps.record_join_retry p).2
  | OMarkValidated => PathOps.mark_validated p
  | OMarkProbing => PathOps.mark_probing p
  | OMarkSuspended => PathOps.mark_suspended p
  | OMarkUnvalidated => PathOps.mark_unvalidated p
  | OResetRecovery => PathOps.reset_recovery_for_resumption p
  | OScheduleProbe d => PathOps.schedule_probe p d
  | OPeerProbe t now => PathOps.record_peer_probe_response p t now
  | OSendOrder => match PathOps.assign_send_order p with Ok (_, p') => p' | _ => p end
  | OBeginProbe t now i => PathOps.begin_probe p t now i
  | OCompleteProbe t now => (PathOps.complete_probe p t now).2
  | OProbeSubmitted t a => PathOps.update_probe_submission_time p t a
  end.

(** The arguments the callers pass: configurations are checked with [is_valid]
    and status sequences are varints. *)
Definition config_ok (c : PathEstimatorConfig) : Prop :=
  estimator_config_is_valid c = true /\ is_u8 (delivery_horizon_packets c).

Definition path_op_ok (op : path_op) : Prop :=
  match op with
  | OConfigure c => config_ok c
  | _ => True
  end.

Definition mode_ok (p : PathState) : Prop :=
  (validated p && probing p) || (validated p && suspended p) || (probing p && suspended p) = false.

Definition pending_ok (p : PathState) : Prop :=
  match pending_local_status p with
  | Some (sequence, k) =>
      sequence = local_status_sequence p /\ 1 <= sequence /\ circuit_key p <> None /\
      status_retry_at_us p <> None /\ (locally_abandoned p = true -> k = Abandon)
  | None => status_retry_at_us p = None
  end.

Record path_inv (p : PathState) : Prop := {
  inv_addresses : NoDup (known_addresses p) /\ (length (known_addresses p) <= 4)%nat;
  inv_mode : mode_ok p;
  inv_join : 0 <= join_attempts p <= MAX_PATH_JOIN_ATTEMPTS;
  inv_config : config_ok (estimator_config p);
  inv_delivery : 1 <= delivery_success_q16 p <= 2 ^ 16;
  inv_sequence : 0 <= local_status_sequence p < 2 ^ 62 /\ 0 <= peer_status_sequence p;
  inv_pending : pending_ok p;
  inv_peer : peer_abandoned p = true -> peer_standby p = false;
}.

(** What no operation takes back. *)
Record path_le (p p' : PathState) : Prop := {
  le_local : local_status_sequence p <= local_status_sequence p';
  le_peer : peer_status_sequence p <= peer_status_sequence p';
  le_order : next_send_order p <= next_send_order p';
  le_locally : locally_abandoned p = true -> locally_abandoned p' = true;
  le_peer_abandoned : peer_abandoned p = true -> peer_abandoned p' = true;
  le_first_hop : forall h, first_hop p = Some h -> first_hop p' = Some h;
  le_key : circuit_key p <> None -> circuit_key p' <> None;
}.

#[export] Instance path_le_pre : PreOrder path_le.
Proof.
  split.
  - intros p. by split; try lia.
  - intros p q r [] []. split; eauto; lia.
Qed.
End path_runs.

(** Re-establishes the clauses an operation does not touch. *)
Ltac path_clauses :=
  split; unfold mode_ok, pending_ok in *; get_set; cbn iota; try done; try lia.

Lemma config_ok_spec c :
  config_ok c ->
  1 <= delivery_horizon_packets c <= 64 /\
  2 ^ 16 <= step_cost_multiplier_q16 c <= 2 ^ 16 * 16.
Proof.
  unfold config_ok, estimator_config_is_valid, U8_MAX. intros [H ?]. bools. split_and!; lia.
Qed.

Lemma path_new_inv mps : path_inv (PathOps.new mps).
Proof. split; unfold mode_ok, pending_ok, MAX_PATH_JOIN_ATTEMPTS; simpl; try done; try lia.
  split; [apply NoDup_nil_2|lia]. Qed.

Ltac path_step := intros []; split_and?; path_clauses.

Section path_steps.
Context `{Allocator}.

Lemma trigger_step p now :
  path_inv p -> path_inv (PathOps.trigger_estimator_step p now) /\
                path_le p (PathOps.trigger_estimator_step p now).
Proof.
  unfold PathOps.trigger_estimator_step. destruct (now <? _); [by split|]. get_set.
  destruct (pending_probe p); [path_step|]. destruct (PathOps.is_probe_eligible _); path_step.
Qed.

(** A step ends with the trigger or without it. *)
Lemma maybe_trigger p q q' (c : bool) now :
  path_inv q -> path_le p q -> path_inv q' -> path_le p q' ->
  path_inv (if c then PathOps.trigger_estimator_step q now else q') /\
  path_le p (if c then PathOps.trigger_estimator_step q now else q').
Proof.
  intros Hq Hpq Hq' Hpq'. destruct c; [|done]. destruct (trigger_step q now Hq) as [? ?].
  split; [done|]. by transitivity q.
Qed.

Lemma update_rtt_step p s now :
  path_inv p -> path_inv (PathOps.update_rtt p s now) /\ path_le p (PathOps.update_rtt p s now).
Proof.
  intros Hp. unfold PathOps.update_rtt, upd_rtt. cbv zeta.
  apply maybe_trigger; revert Hp; path_step.
Qed.

Lemma delivery_ewma_range s h d :
  1 <= s <= 2 ^ 16 -> 1 <= h <= 64 -> 1 <= PathOps.delivery_ewma s h d <= 2 ^ 16.
Proof.
  intros Hs Hh. unfold PathOps.delivery_ewma, sat_add32, sat_mul32, as_u32.
  rewrite (Z.mod_small (h - 1)) by lia.
  assert (s * (h - 1) <= 2 ^ 16 * 63) by nia.
  rewrite (Z.min_l (s * (h - 1))) by (unfold U32_MAX; lia).
  rewrite Z.min_l by (unfold U32_MAX; destruct d; lia).
  assert ((s * (h - 1) + (if d then 2 ^ 16 else 0)) / h <= 2 ^ 16); [|lia].
  apply Z.div_le_upper_bound; destruct d; nia.
Qed.

Lemma delivery_step p d now :
  path_inv p -> path_inv (PathOps.record_delivery_outcome p d now) /\
                path_le p (PathOps.record_delivery_outcome p d now).
Proof.
  intros Hp. pose proof (inv_config p Hp) as Hc%config_ok_spec.
  pose proof (delivery_ewma_range (delivery_success_q16 p) _ d (inv_delivery p Hp) (proj1 Hc)).
  unfold PathOps.record_delivery_outcome. cbv zeta. destruct d.
  - revert Hp. path_step.
  - apply maybe_trigger; revert Hp; path_step.
Qed.

Lemma complete_probe_step p t now :
  path_inv p -> path_inv (PathOps.complete_probe p t now).2 /\
                path_le p (PathOps.complete_probe p t now).2.
Proof.
  intros Hp. unfold PathOps.complete_probe. destruct (pending_probe p) as [[q at_]|]; [|by split].
  destruct (negb _); [by split|]. simpl.
  assert (path_inv (p <| pending_probe := None |>)) as Hq by (revert Hp; path_step).
  destruct (update_rtt_step _ (sat_sub now at_) now Hq) as [Hi Hl]. split.
  - revert Hi. path_step.
  - etrans; [|etrans; [exact Hl|]]; clear Hl.
    + revert Hp. path_step.
    + revert Hi. path_step.
Qed.

(** *** The address cache *)
Lemma remember_known p a :
  known_addresses (PathOps.remember_address p a) = known_addresses p \/
  exists l, l ⊆+ known_addresses p /\ (NoDup (known_addresses p) -> (a ∉ l) /\ NoDup l) /\
    known_addresses (PathOps.remember_address p a) = take 4 (a :: l).
Proof.
  unfold PathOps.remember_address. get_set. destruct (bool_decide _); [by left|].
  destruct (list_find _ _) as [[i x]|] eqn:Hf.
  - right. exists (delete i (known_addresses p)). split_and!; [by apply sublist_submseteq, sublist_delete| |done].
    intros Hnd. apply list_find_Some in Hf as (Hi & -> & _).
    pose proof (delete_Permutation _ _ _ Hi) as Hp. rewrite Hp in Hnd. by apply NoDup_cons.
  - destruct (try_reserve _); [|by left]. right. exists (known_addresses p). split_and!; [done| |done].
    intros Hnd. split; [|done]. rewrite list_find_None, Forall_forall in Hf. by intros Ha%Hf.
Qed.

Lemma remember_step p a :
  path_inv p -> path_inv (PathOps.remember_address p a) /\
                path_le p (PathOps.remember_address p a).
Proof.
  intros Hp. assert (NoDup (known_addresses (PathOps.remember_address p a)) /\
    (length (known_addresses (PathOps.remember_address p a)) <= 4)%nat) as Ha.
  { destruct (remember_known p a) as [->|(l & _ & Hl & ->)]; [apply Hp|].
    destruct (Hl (proj1 (inv_addresses p Hp))) as [? ?]. split; [|rewrite length_take; lia].
    eapply sublist_NoDup; [|apply sublist_take]. by apply NoDup_cons. }
  revert Ha. unfold PathOps.remember_address. get_set. revert Hp.
  destruct (bool_decide _); [|destruct (match list_find _ _ with Some _ => _ | None => _ end)];
    simpl; intros [] Ha; split; path_clauses; intros h Hh; by rewrite Hh.
Qed.

Lemma filter_keeps {A} (f : A -> bool) l :
  NoDup l -> NoDup (List.filter f l) /\ (length (List.filter f l) <= length l)%nat.
Proof.
  induction 1 as [|x l Hx Hl [IH1 IH2]]; simpl; [split; [apply NoDup_nil_2|lia]|].
  destruct (f x); simpl; split; try lia; [|done]. apply NoDup_cons. split; [|done].
  rewrite list_elem_of_In, filter_In, <- list_elem_of_In. by intros [? _].
Qed.

Lemma remove_bearer_step p id :
  path_inv p -> path_inv (PathOps.remove_bearer p id) /\ path_le p (PathOps.remove_bearer p id).
Proof.
  intros Hp. destruct (inv_addresses p Hp) as [Hnd Hlen].
  destruct (filter_keeps (fun a => negb (a.1 =? id)) _ Hnd) as [? ?].
  unfold PathOps.remove_bearer. revert Hp.
  destruct (match active_address _ with Some _ => _ | None => _ end); path_step;
    (split; [done|by etrans; [eassumption|]]).
Qed.

(** *** Status messages *)
Lemma queue_status_Ok p k s p' :
  PathOps.queue_status p k = Ok (s, p') ->
  circuit_key p <> None /\ (locally_abandoned p = true -> k = Abandon) /\
  s = local_status_sequence p + 1 /\ s < 2 ^ 62 /\
  p' = (if bool_decide (k = Abandon)
        then p <| local_status_sequence := s |>
               <| locally_abandoned := true |> <| validated := false |> <| probing := false |>
               <| pending_probe := None |> <| next_probe_at_us := None |>
        else p <| local_status_sequence := s |>)
       <| pending_local_status := Some (s, k) |> <| status_retry_at_us := Some (path_clock p) |>.
Proof.
  unfold PathOps.queue_status. case_bool_decide as Hk; [done|].
  destruct (locally_abandoned p && _) eqn:Hl; [done|].
  intros (s' & Hs%ok_or_Ok & Hp)%bind_Ok. apply Ok_inj in Hp. injection Hp as <- <-.
  unfold checked_add in Hs. destruct (_ <=? _); [|done].
  destruct (_ <? _) eqn:Hlt; [|done]. injection Hs as <-. bools. change (Z.shiftl 1 62) with (2 ^ 62) in *.
  split_and!; try done; [|by case_bool_decide].
  intros Hla. rewrite Hla in Hl. simpl in Hl. apply negb_false_iff, bool_decide_eq_true in Hl. done.
Qed.

Lemma queue_step p k s p' :
  PathOps.queue_status p k = Ok (s, p') -> path_inv p -> path_inv p' /\ path_le p p'.
Proof.
  intros (Hk & Ha & -> & Hs & ->)%queue_status_Ok.
  case_bool_decide; path_step; split_and?; try done; try lia.
Qed.

Lemma status_pending_step p s :
  path_inv p -> path_inv (PathOps.acknowledge_status p s) /\
                path_le p (PathOps.acknowledge_status p s).
Proof. unfold PathOps.acknowledge_status. destruct (PathOps.pending_is p s); path_step. Qed.

Lemma status_sent_step p s r :
  path_inv p -> path_inv (PathOps.status_sent p s r) /\ path_le p (PathOps.status_sent p s r).
Proof.
  unfold PathOps.status_sent. destruct (PathOps.pending_is p s) eqn:Hp; [|by split].
  unfold PathOps.pending_is in Hp. path_step. unfold pending_ok in *.
  destruct (pending_local_status p) as [[q k]|]; [|done].
  by destruct inv_pending0 as (? & ? & ? & _ & ?).
Qed.

Lemma receive_status_step p s k :
  path_inv p -> path_inv (PathOps.receive_status p s k).2 /\
                path_le p (PathOps.receive_status p s k).2.
Proof.
  unfold PathOps.receive_status. destruct ((s <=? _) || _) eqn:Hc; [by split|].
  simpl. bools. destruct k; path_step; split_and?; try done; try lia; congruence.
Qed.

Lemma mode_step p :
  path_inv p -> forall p', p' ∈ [PathOps.mark_validated p; PathOps.mark_probing p;
    PathOps.mark_suspended p; PathOps.mark_unvalidated p] -> path_inv p' /\ path_le p p'.
Proof.
  intros Hp p' Hin. revert Hp. unfold PathOps.mark_validated, PathOps.mark_probing,
    PathOps.mark_suspended, PathOps.mark_unvalidated in Hin.
  repeat (apply elem_of_cons in Hin as [->|Hin]); [..|by apply not_elem_of_nil in Hin]; path_step.
  unfold mode_ok in *. by destruct (probing p), (suspended p), (validated p).
Qed.

(** Every operation keeps the invariant and takes nothing back. *)
Lemma path_apply_step p op :
  path_op_ok op -> path_inv p -> path_inv (path_apply p op) /\ path_le p (path_apply p op).
Proof.
  intros Hok Hp. destruct op; simpl in *.
  - by apply remember_step.
  - by apply remove_bearer_step.
  - revert Hp. path_step.
  - by apply update_rtt_step.
  - by apply delivery_step.
  - destruct (PathOps.queue_status p k) as [[s p']| |] eqn:Hq; [|by split..]. by eapply queue_step.
  - by apply status_sent_step.
  - by apply status_pending_step.
  - by apply receive_status_step.
  - revert Hp. unfold MAX_PATH_JOIN_ATTEMPTS, PathOps.set_circuit. path_step.
    + unfold mode_ok in *. by destruct (probing p), (suspended p), (validated p).
    + destruct (pending_local_status p) as [[q k]|]; [|done].
      by destruct inv_pending0 as (? & ? & _ & ? & ?).
  - revert Hp. unfold PathOps.record_join_retry, MAX_PATH_JOIN_ATTEMPTS, as_u8.
    destruct (_ >=? _) eqn:Hj; simpl; [by split|]. bools. path_step.
    unfold MAX_PATH_JOIN_ATTEMPTS in *. rewrite Z.mod_small; lia.
  - eapply mode_step; [done|]. set_solver.
  - eapply mode_step; [done|]. set_solver.
  - eapply mode_step; [done|]. set_solver.
  - eapply mode_step; [done|]. set_solver.
  - revert Hp. path_step.
  - revert Hp. path_step.
  - revert Hp. path_step.
  - unfold PathOps.assign_send_order, checked_add. destruct (_ <=? _); simpl; [|by split].
    revert Hp. path_step.
  - revert Hp. path_step.
  - by apply complete_probe_step.
  - unfold PathOps.update_probe_submission_time. destruct (pending_probe p) as [[q a]|]; [|by split].
    destruct (q =? token); [|by split]. revert Hp. path_step.
Qed.

Lemma path_runs p ops :
  Forall path_op_ok ops -> path_inv p ->
  path_inv (fold_left path_apply ops p) /\ path_le p (fold_left path_apply ops p).
Proof.
  intros Hops. revert p. induction Hops as [|op ops Hop _ IH]; intros p Hp; simpl; [by split|].
  destruct (path_apply_step p op Hop Hp) as [Hi Hl]. destruct (IH _ Hi) as [? ?].
  split; [done|]. by etrans.
Qed.
End path_steps.

(** ** The status exchange of the two ends of a circuit

    [link_sent] is the log of the statuses the sender has queued, newest first.
    The network delivers any of them, in any order, any number of times or
    never, and returns acknowledgements only of delivered sequences.  Both ends
    may run their other operations in between. *)
Record Link : Type := mkLink {
  link_sender : PathState;
  link_receiver : PathState;
  link_sent : list (Z * PathStatusKind);
  link_delivered : list Z;
}.

Ltac link_simpl := cbn [link_sender link_receiver link_sent link_delivered].

Definition sender_op (op : path_op) : bool :=
  match op with OQueueStatus _ | OAckStatus _ => true | _ => false end.
Definition receiver_op (op : path_op) : bool :=
  match op with OReceiveStatus _ _ => true | _ => false end.

Section link.
Context `{Allocator}.

Inductive link_step : Link -> Link -> Prop :=
  | LinkQueue p q log del k s p' :
      PathOps.queue_status p k = Ok (s, p') ->
      link_step (mkLink p q log del) (mkLink p' q ((s, k) :: log) del)
  | LinkDeliver p q log del s k :
      (s, k) ∈ log ->
      link_step (mkLink p q log del)
        (mkLink p (PathOps.receive_status q s k).2 log (s :: del))
  | LinkAck p q log del s :
      s ∈ del ->
      link_step (mkLink p q log del) (mkLink (PathOps.acknowledge_status p s) q log del)
  | LinkSenderOp p q log del op :
      sender_op op = false ->
      link_step (mkLink p q log del) (mkLink (path_apply p op) q log del)
  | LinkReceiverOp p q log del op :
      receiver_op op = false ->
      link_step (mkLink p q log del) (mkLink p (path_apply q op) log del).

Definition link_init (mps mps' : Z) : Link := mkLink (PathOps.new mps) (PathOps.new mps') [] [].

(** What the peer believes: [(standby, abandoned)]. *)
Definition peer_view (p : PathState) : bool * bool := (peer_standby p, peer_abandoned p).
Definition view_of (k : PathStatusKind) : bool * bool :=
  match k with Available => (false, false) | Standby => (true, false) | Abandon => (false, true) end.

Definition sender_view (p : PathState) : Z * option (Z * PathStatusKind) * bool :=
  (local_status_sequence p, pending_local_status p, locally_abandoned p).
Definition receiver_view (p : PathState) : Z * bool * bool :=
  (peer_status_sequence p, peer_standby p, peer_abandoned p).

Record log_ok (log : list (Z * PathStatusKind)) (seq : Z) (abandoned : bool) : Prop := {
  log_head : match log with [] => seq = 0 | (s, _) :: _ => seq = s end;
  log_range : forall s k, (s, k) ∈ log -> 1 <= s <= seq;
  log_functional : forall s k k', (s, k) ∈ log -> (s, k') ∈ log -> k = k';
  log_final : forall s s' k, (s, Abandon) ∈ log -> (s', k) ∈ log -> s <= s' -> k = Abandon;
  log_abandoned : forall s, (s, Abandon) ∈ log -> abandoned = true;
}.

Record link_inv (l : Link) : Prop := {
  li_log : log_ok (link_sent l) (local_status_sequence (link_sender l))
             (locally_abandoned (link_sender l));
  li_pending : match pending_local_status (link_sender l) with
               | Some (s, k) => exists log, link_sent l = (s, k) :: log
               | None => link_sent l = [] \/
                         local_status_sequence (link_sender l) ∈ link_delivered l
               end;
  li_delivered : forall s, s ∈ link_delivered l ->
    s <= peer_status_sequence (link_receiver l) \/ peer_abandoned (link_receiver l) = true;
  li_receiver :
    (peer_status_sequence (link_receiver l) = 0 /\ peer_view (link_receiver l) = (false, false)) \/
    exists k, (peer_status_sequence (link_receiver l), k) ∈ link_sent l /\
              peer_view (link_receiver l) = view_of k;
}.

Lemma trigger_views p now :
  sender_view (PathOps.trigger_estimator_step p now) = sender_view p /\
  receiver_view (PathOps.trigger_estimator_step p now) = receiver_view p.
Proof.
  unfold PathOps.trigger_estimator_step, sender_view, receiver_view. destruct (now <? _); [done|].
  get_set. destruct (pending_probe p); [by get_set|]. by destruct (PathOps.is_probe_eligible _); get_set.
Qed.

Lemma update_rtt_views p s now :
  sender_view (PathOps.update_rtt p s now) = sender_view p /\
  receiver_view (PathOps.update_rtt p s now) = receiver_view p.
Proof.
  unfold PathOps.update_rtt, upd_rtt. cbv zeta. destruct (_ >=? rtt_step_consecutive_samples _); [|done].
  match goal with |- context [PathOps.trigger_estimator_step ?q now] =>
    destruct (trigger_views q now) as [-> ->] end. done.
Qed.

Lemma delivery_views p d now :
  sender_view (PathOps.record_delivery_outcome p d now) = sender_view p /\
  receiver_view (PathOps.record_delivery_outcome p d now) = receiver_view p.
Proof.
  unfold PathOps.record_delivery_outcome. cbv zeta. destruct d; [done|].
  destruct (_ >=? loss_step_consecutive_packets _); [|done].
  match goal with |- context [PathOps.trigger_estimator_step ?q now] =>
    destruct (trigger_views q now) as [-> ->] end. done.
Qed.

Lemma remember_views p a :
  sender_view (PathOps.remember_address p a) = sender_view p /\
  receiver_view (PathOps.remember_address p a) = receiver_view p.
Proof.
  unfold PathOps.remember_address. destruct (bool_decide _); [done|].
  by destruct (match list_find _ _ with Some _ => _ | None => _ end).
Qed.

(** The other operations leave the status fields alone. *)
Lemma other_op_views p op :
  (sender_op op = false -> sender_view (path_apply p op) = sender_view p) /\
  (receiver_op op = false -> receiver_view (path_apply p op) = receiver_view p).
Proof.
  destruct op; simpl; try done.
  - destruct (remember_views p a). by split.
  - unfold PathOps.remove_bearer.
    by destruct (match active_address _ with Some _ => _ | None => _ end).
  - destruct (update_rtt_views p sample now). by split.
  - destruct (delivery_views p delivered now). by split.
  - split; [done|]. intros _. destruct (PathOps.queue_status p k) as [[s p']| |] eqn:Hq; [|done..].
    apply queue_status_Ok in Hq as (_ & _ & _ & _ & ->). by case_bool_decide.
  - unfold PathOps.status_sent. by destruct (PathOps.pending_is p sequence).
  - split; [done|]. intros _. unfold PathOps.acknowledge_status.
    by destruct (PathOps.pending_is p sequence).
  - split; [|done]. intros _. unfold PathOps.receive_status.
    destruct (_ || _); [done|]. by destruct k.
  - unfold PathOps.record_join_retry. by destruct (_ >=? _).
  - unfold PathOps.assign_send_order, checked_add. by destruct (_ <=? _).
  - unfold PathOps.complete_probe. destruct (pending_probe p) as [[q at_]|]; [|done].
    destruct (negb _); [done|]. simpl.
    destruct (update_rtt_views (p <| pending_probe := None |>) (sat_sub now at_) now) as [Hs Hr].
    split; intros _; [exact Hs|exact Hr].
  - unfold PathOps.update_probe_submission_time. destruct (pending_probe p) as [[q a]|]; [|done].
    by destruct (q =? token).
Qed.

Lemma log_ok_push log seq a k :
  log_ok log seq a -> 0 <= seq -> (a = true -> k = Abandon) ->
  log_ok ((seq + 1, k) :: log) (seq + 1) (if bool_decide (k = Abandon) then true else a).
Proof.
  intros [Hh Hr Hf Hfin Hab] Hseq Ha.
  assert (forall s k', (s, k') ∈ (seq + 1, k) :: log ->
    (s = seq + 1 /\ k' = k) \/ ((s, k') ∈ log /\ 1 <= s <= seq)) as Hin.
  { intros s k' [?|H1]%elem_of_cons; [simplify_eq; by left|]. right. eauto. }
  split; [done| | | |].
  - intros s k' [[-> _]|[_ ?]]%Hin; lia.
  - intros s k1 k2 [[-> ->]|[H1 ?]]%Hin [[? ->]|[H2 ?]]%Hin; try done; [lia|lia|by eapply Hf].
  - intros s s' k' [[-> <-]|[H1 ?]]%Hin [[-> ->]|[H2 ?]]%Hin Hle; try done; [lia| |by eapply Hfin].
    apply Ha. by eapply Hab.
  - intros s [[-> <-]|[H1 _]]%Hin; [done|]. rewrite (Hab _ H1). by case_bool_decide.
Qed.

Lemma receive_status_cases q s k :
  ((PathOps.receive_status q s k).2 = q /\
    (s <= peer_status_sequence q \/ peer_abandoned q = true)) \/
  (peer_status_sequence q < s /\ peer_abandoned q = false /\
   peer_status_sequence (PathOps.receive_status q s k).2 = s /\
   peer_view (PathOps.receive_status q s k).2 = view_of k).
Proof.
  unfold PathOps.receive_status. destruct ((s <=? _) || _) eqn:Hc.
  - left. split; [done|]. apply orb_true_iff in Hc as [?%Z.leb_le|?]; auto.
  - right. bools. split_and!; try done; [by destruct k|].
    unfold peer_view. destruct k; cbn [snd view_of]; get_set; congruence.
Qed.

Lemma link_step_inv l l' : link_step l l' -> link_inv l -> link_inv l'.
Proof.
  intros Hstep [Hlog Hpend Hdel Hrec]. destruct Hstep; cbn [link_sender link_receiver link_sent link_delivered] in *.
  - apply queue_status_Ok in H0 as (_ & Ha & -> & _ & ->).
    assert (0 <= local_status_sequence p) as Hpos.
    { destruct Hlog as [Hh Hr _ _ _]. destruct log as [|[s k'] log]; [lia|].
      specialize (Hr s k' ltac:(left)). lia. }
    pose proof (log_ok_push _ _ _ k Hlog Hpos Ha) as Hpush.
    split; link_simpl.
    + case_bool_decide; exact Hpush.
    + get_set. by exists log.
    + done.
    + destruct Hrec as [?|(k' & ? & ?)]; [by left|right]. exists k'. split; [by right|done].
  - destruct (receive_status_cases q s k) as [[-> Hs]|(Hlt & Hna & Hseq & Hview)].
    + split; link_simpl; try done.
      * destruct (pending_local_status p) as [[]|]; [done|]. destruct Hpend as [?|?]; [by left|right].
        by right.
      * intros s' [->|?]%elem_of_cons; auto.
    + split; link_simpl; try done.
      * destruct (pending_local_status p) as [[]|]; [done|]. destruct Hpend as [?|?]; [by left|right].
        by right.
      * rewrite Hseq. intros s' [->|Hs']%elem_of_cons; [lia|]. apply Hdel in Hs' as [?|?]; [lia|congruence].
      * right. exists k. by rewrite Hseq, Hview.
  - unfold PathOps.acknowledge_status. destruct (PathOps.pending_is p s) eqn:Hp; [|by split].
    unfold PathOps.pending_is in Hp. split; link_simpl; get_set; try done. right.
    destruct (pending_local_status p) as [[s' k]|]; [|done]. bools. subst s'.
    destruct Hpend as [log' ->]. by rewrite (log_head _ _ _ Hlog).
  - destruct (other_op_views p op) as [Hv _]. specialize (Hv H0). unfold sender_view in Hv.
    injection Hv as Hs Hpe Hl. split; link_simpl; rewrite ?Hs, ?Hpe, ?Hl; done.
  - destruct (other_op_views q op) as [_ Hv]. specialize (Hv H0). unfold receiver_view in Hv.
    injection Hv as Hs Hst Hab. unfold peer_view in *.
    split; link_simpl; unfold peer_view; rewrite ?Hs, ?Hst, ?Hab; done.
Qed.

Lemma link_reachable mps mps' l : rtc link_step (link_init mps mps') l -> link_inv l.
Proof.
  intros Hl. assert (link_inv (link_init mps mps')) as Hi.
  { split; simpl; try by left.
    - split; simpl; try done; intros; exfalso; by eapply not_elem_of_nil.
    - by intros s ?%not_elem_of_nil. }
  induction Hl as [|x y z Hxy _ IH]; [done|]. apply IH. by eapply link_step_inv.
Qed.
End link.

(** ** The address cache as a list of the most recent addresses *)
Fixpoint recent (addresses : list Address) : list Address :=
  match addresses with
  | [] => []
  | a :: rest => a :: List.filter (fun b => negb (bool_decide (b = a))) (recent rest)
  end.

Lemma recent_NoDup l : NoDup (recent l).
Proof.
  induction l as [|a l IH]; simpl; [apply NoDup_nil_2|]. apply NoDup_cons. split.
  - rewrite list_elem_of_In, filter_In. intros [_ Hf]. by rewrite bool_decide_true in Hf.
  - by apply filter_keeps.
Qed.

Lemma filter_delete (a : Address) l i :
  NoDup l -> l !! i = Some a -> List.filter (fun b => negb (bool_decide (b = a))) l = delete i l.
Proof.
  intros Hnd. revert i. induction Hnd as [|x l Hx _ IH]; intros [|i] Hi; simplify_eq/=.
  - rewrite bool_decide_true by done. simpl. clear IH. induction l as [|y l IHl]; simpl; [done|].
    rewrite not_elem_of_cons in Hx. destruct Hx as [? ?].
    rewrite bool_decide_false by done. simpl. by rewrite IHl.
  - rewrite bool_decide_false; simpl; [by rewrite (IH i)|]. intros ->.
    apply Hx. by eapply list_elem_of_lookup_2.
Qed.

Lemma filter_absent (a : Address) l :
  a ∉ l -> List.filter (fun b => negb (bool_decide (b = a))) l = l.
Proof.
  induction l as [|y l IH]; simpl; [done|]. rewrite not_elem_of_cons. intros [? ?].
  rewrite bool_decide_false by done. simpl. by rewrite IH.
Qed.

(** Dropping the tail of a list before or after removing one element. *)
Lemma take_filter n (a : Address) l :
  NoDup l ->
  take n (List.filter (fun b => negb (bool_decide (b = a))) (take (S n) l)) =
  take n (List.filter (fun b => negb (bool_decide (b = a))) l).
Proof.
  intros Hnd. revert n. induction Hnd as [|x l Hx Hnd IH]; intros n; [done|].
  cbn [take List.filter]. case_bool_decide as Hxa; cbn [negb].
  - subst x. rewrite !filter_absent; [by rewrite take_take, Nat.min_id|done|].
    intros Ha. apply Hx. eapply subseteq_take, Ha.
  - destruct n as [|n]; [done|]. cbn [take]. f_equal. apply IH.
Qed.

Lemma take_filter_min n m (a : Address) l :
  NoDup l -> (n < m)%nat ->
  take n (List.filter (fun b => negb (bool_decide (b = a))) (take m l)) =
  take n (List.filter (fun b => negb (bool_decide (b = a))) l).
Proof.
  intros Hnd Hm. rewrite <- (take_filter n a l) by done.
  rewrite <- (take_filter n a (take m l)) by (by eapply sublist_NoDup; [|apply sublist_take]).
  by rewrite take_take, Nat.min_l by lia.
Qed.

Section recent_lemmas.
Context `{Allocator}.

Lemma remember_recent p a :
  (forall n, try_reserve n = true) -> NoDup (known_addresses p) ->
  (length (known_addresses p) <= 4)%nat ->
  known_addresses (PathOps.remember_address p a) =
    take 4 (a :: List.filter (fun b => negb (bool_decide (b = a))) (known_addresses p)).
Proof.
  intros Halloc Hnd Hlen. unfold PathOps.remember_address. get_set. case_bool_decide as Hh.
  - cbn [default]. get_set. destruct (known_addresses p) as [|x l] eqn:Hk; [done|].
    simpl in Hh. injection Hh as ->. apply NoDup_cons in Hnd as [Hx _].
    cbn [List.filter]. rewrite bool_decide_true by done. cbn [negb].
    rewrite filter_absent by done. rewrite take_ge; [done|]. exact Hlen.
  - destruct (list_find _ _) as [[i x]|] eqn:Hf.
    + apply list_find_Some in Hf as (Hi & -> & _). cbn [default]. get_set.
      by rewrite (filter_delete a _ i).
    + rewrite Halloc. cbn [default]. get_set. rewrite filter_absent; [done|].
      rewrite list_find_None, Forall_forall in Hf. by intros Ha%Hf.
Qed.

Lemma remember_all p l :
  (forall n, try_reserve n = true) -> known_addresses p = [] ->
  known_addresses (fold_left PathOps.remember_address l p) = take 4 (recent (rev l)).
Proof.
  intros Halloc Hp. induction l as [|a l IH] using rev_ind; [done|].
  rewrite fold_left_app, rev_app_distr. cbn [fold_left rev app recent].
  pose proof (recent_NoDup (rev l)) as Hnd.
  rewrite remember_recent, IH; try done.
  - cbn [take]. f_equal. by apply (take_filter 3).
  - rewrite IH. eapply sublist_NoDup; [exact Hnd|apply sublist_take].
  - rewrite IH, length_take. lia.
Qed.
End recent_lemmas.

(** ** The coupled increase *)
Lemma sat_mul128_le a b : sat_mul128 a b <= a * b.
Proof. unfold sat_mul128. lia. Qed.

Lemma sat_mul128_nonneg a b : 0 <= a -> 0 <= b -> 0 <= sat_mul128 a b.
Proof. unfold sat_mul128, U128_MAX. intros. pose proof (Z.mul_nonneg_nonneg a b). lia. Qed.

Lemma sat_mul128_mono a b c d :
  0 <= a <= c -> 0 <= b <= d -> sat_mul128 a b <= sat_mul128 c d.
Proof. intros. unfold sat_mul128. assert (a * b <= c * d) by nia. lia. Qed.

Lemma div_nonneg a b : 0 <= a -> 0 <= b -> 0 <= a / b.
Proof.
  intros. destruct (Z.eq_dec b 0) as [->|]; [by rewrite Z.div_0_r|]. apply Z.div_pos; lia.
Qed.

Lemma lia_fold_nonneg tw mr l acc : 0 <= acc.2 -> 0 <= (fold_left (lia_step tw mr) l acc).2.
Proof.
  revert acc. induction l as [|p l IH]; intros acc Hacc; simpl; [done|]. apply IH. unfold lia_step.
  destruct (Rtt.smoothed _) as [r|]; [|done]. destruct (0 <? r); simpl; lia.
Qed.

Lemma sat_product_q32 a m :
  0 <= a -> 0 <= m -> 0 <= sat_mul128 (sat_mul128 a m) (2 ^ 32) <= a * m * 2 ^ 32.
Proof.
  intros Ha Hm. split; [by repeat apply sat_mul128_nonneg|]. etrans; [apply sat_mul128_le|].
  apply Z.mul_le_mono_nonneg_r; [lia|apply sat_mul128_le].
Qed.

(** Byte-wise Reno: [acked * mss / window], in Q32. *)
Definition reno_increase_q32 (p : PathState) (acked : Z) : Z :=
  acked * max_packet_size (path_congestion p) * 2 ^ 32 / window_of p.

Lemma lia_bounded paths i p acked :
  paths !! i = Some p -> Forall (fun q => 0 <= window_of q) paths ->
  0 < window_of p -> 0 <= max_packet_size (path_congestion p) -> 0 <= acked ->
  0 <= linked_congestion_increase_q32 paths (Z.of_nat i) acked <= reno_increase_q32 p acked.
Proof.
  intros Hi Hw Hwp Hm Ha. unfold reno_increase_q32, linked_congestion_increase_q32.
  set (mss := max_packet_size _) in *.
  assert (0 <= acked * mss * 2 ^ 32 / window_of p) as Hreno by (apply Z.div_pos; nia).
  destruct (acked =? 0); [lia|]. unfold get_ix. rewrite Nat2Z.id, Hi.
  rewrite (proj2 (Z.leb_le 0 _)) by lia. destruct (lia_eligible p) eqn:Hel; [|simpl; lia].
  cbn [negb]. cbv zeta. fold mss. set (total := zsum _ _).
  assert (0 <= total) as Ht.
  { apply zsum_nonneg, Forall_forall. intros q Hq. rewrite list_elem_of_In, filter_In in Hq.
    destruct Hq as [Hq _]. rewrite Forall_forall in Hw. apply Hw. by apply list_elem_of_In. }
  destruct (Z.eqb_spec total 0) as [|Hnz]; [lia|].
  destruct (Z.eqb_spec (zlen paths) 1) as [Hone|Hmany].
  - destruct paths as [|q [|]]; try (unfold zlen in Hone; simpl in Hone; lia).
    destruct i as [|i]; [|done]. simpl in Hi. injection Hi as ->.
    assert (total = window_of p) as -> by (unfold total; simpl; rewrite Hel; simpl; lia).
    destruct (checked_mul _ _ ≫= _) as [n|] eqn:Hn.
    + unfold checked_mul in Hn. destruct (_ <=? _); [|done]. cbn [mbind option_bind] in Hn.
      destruct (_ <=? _); [|done]. apply (inj Some) in Hn as <-. split; [exact Hreno|done].
    + pose proof (sat_product_q32 acked mss Ha Hm) as [? ?].
      split; [by apply Z.div_pos|by apply Z.div_le_mono].
  - set (mr := Z.max (default 1 _) 1).
    pose proof (lia_fold_nonneg total mr (List.filter lia_eligible paths) (0, 0)) as Hf.
    destruct (fold_left _ _ _) as [sx mx]. simpl in Hf. specialize (Hf ltac:(lia)).
    destruct (sx =? 0); [lia|].
    rewrite (Z.max_l (window_of p)) by lia.
    pose proof (sat_product_q32 acked mss Ha Hm) as [? ?].
    assert (sat_mul128 (sat_mul128 acked mss) (2 ^ 32) / window_of p
            <= acked * mss * 2 ^ 32 / window_of p) by (by apply Z.div_le_mono).
    assert (0 <= sat_mul128 (sat_mul128 acked mss) (2 ^ 32) / window_of p) by (by apply Z.div_pos).
    assert (0 <= sat_mul128 (sat_mul128 (sat_mul128 (sat_mul128 mx (2 ^ 32)) (2 ^ 32)
                   / Z.max (sat_mul128 sx sx) 1) acked) mss / total); [|lia].
    apply div_nonneg; [|lia]. repeat apply sat_mul128_nonneg; try lia.
    apply div_nonneg; [|lia]. repeat apply sat_mul128_nonneg; lia.
Qed.

Lemma grow_path_avoidance p acked inc :
  acked <> 0 -> slow_start_threshold (path_congestion p) <= window_of p ->
  0 <= window_of p <= 2 ^ 61 -> 0 <= ca_remainder_q32 p < 2 ^ 32 -> 0 <= inc <= 2 ^ 61 * 2 ^ 32 ->
  window_of (grow_path acked inc p) * 2 ^ 32 + ca_remainder_q32 (grow_path acked inc p) =
    window_of p * 2 ^ 32 + ca_remainder_q32 p + inc /\
  0 <= ca_remainder_q32 (grow_path acked inc p) < 2 ^ 32.
Proof.
  intros Hne Hss Hw Hca Hinc. unfold grow_path. rewrite (proj2 (Z.eqb_neq _ _) Hne).
  rewrite (proj2 (Z.ltb_ge _ _) Hss). cbv zeta.
  replace (sat_add128 (ca_remainder_q32 p) inc) with (ca_remainder_q32 p + inc)
    by (unfold sat_add128, U128_MAX; lia).
  set (total := ca_remainder_q32 p + inc). unfold window_of, path_congestion, upd_congestion in *.
  get_set. cbn [CC.set_window congestion_window].
  rewrite Z.shiftr_div_pow2 by lia. unfold as_u32, sat_add.
  pose proof (Z.div_mod total (2 ^ 32) ltac:(lia)). pose proof (Z.mod_pos_bound total (2 ^ 32) ltac:(lia)).
  assert (0 <= total / 2 ^ 32 <= 2 ^ 61 + 1).
  { split; [apply Z.div_pos; lia|]. apply Z.div_le_upper_bound; lia. }
  rewrite (Z.min_l (total / 2 ^ 32)) by (unfold U64_MAX; lia).
  rewrite Z.min_l by (unfold U64_MAX; lia). split; [|lia]. unfold total in *. lia.
Qed.

Lemma reno_increase_le p acked :
  0 <= acked -> 0 <= max_packet_size (path_congestion p) <= window_of p -> 0 < window_of p ->
  reno_increase_q32 p acked <= acked * 2 ^ 32.
Proof. intros. unfold reno_increase_q32. apply Z.div_le_upper_bound; [done|]. nia. Qed.

Lemma growth_lookup paths growth i p :
  paths !! i = Some p ->
  apply_ack_congestion_growth paths growth !! i =
    Some (grow_path (default 0 (growth !! i)) (growth_increase paths growth i) p).
Proof. intros Hi. unfold apply_ack_congestion_growth. by rewrite list_lookup_imap, Hi. Qed.

(** ** Theorems *)
Section properties.
Context `{Allocator}.

(** C34: Over every sequence of path operations with valid estimator
    configurations, the path state stays well formed: at most four distinct
    known addresses, at most one of validated, probing and suspended, join
    attempts within their limit, a delivery probability in (0, 1], status
    sequences that are varints, at most one pending status which is the latest
    one and has a retry deadline; and the status sequences, send order, first
    hop and abandonment never go back. *)
Theorem path_state_wf mps ops ops' :
  Forall path_op_ok ops -> Forall path_op_ok ops' ->
  let p := fold_left path_apply ops (PathOps.new mps) in
  let p' := fold_left path_apply ops' p in
  path_inv p /\ path_inv p' /\ path_le p p'.
Proof.
  intros Ho Ho' p p'. destruct (path_runs _ ops Ho (path_new_inv mps)) as [Hi _].
  destruct (path_runs p ops' Ho' Hi) as [Hi' Hle]. exact (conj Hi (conj Hi' Hle)).
Qed.

(** Once either end has abandoned a circuit, whatever operations follow,
    its status is Closed, it carries no data or probes, it takes no part in
    coupled congestion growth, and the local end can queue no status but
    another Abandon. *)
Theorem abandon_is_final p ops k :
  path_inv p -> PathOps.is_closed p = true -> Forall path_op_ok ops ->
  let p' := fold_left path_apply ops p in
  PathOps.circuit_status p' = Closed /\ PathOps.is_usable_for_data p' = false /\
  PathOps.is_probe_eligible p' = false /\ lia_eligible p' = false /\
  (locally_abandoned p = true -> k <> Abandon -> is_ok (PathOps.queue_status p' k) = false).
Proof.
  intros Hp Hc Ho p'. destruct (path_runs p ops Ho Hp) as [_ Hle]. fold p' in Hle.
  assert (locally_abandoned p' || peer_abandoned p' = true) as Hc'.
  { apply orb_true_iff. apply orb_true_iff in Hc as [Hc|Hc].
    - left. by apply (le_locally _ _ Hle).
    - right. by apply (le_peer_abandoned _ _ Hle). }
  unfold PathOps.circuit_status, PathOps.is_closed, PathOps.is_usable_for_data,
    PathOps.is_probe_eligible, lia_eligible.
  rewrite Hc'. split_and!; try done.
  1-3: by destruct (locally_abandoned p'), (peer_abandoned p'), (suspended p'), (validated p'),
         (peer_standby p').
  intros Hl Hk. apply (le_locally _ _ Hle) in Hl.
  destruct (PathOps.queue_status p' k) as [[s q]| |] eqn:Hq; [|done..].
  apply queue_status_Ok in Hq as (_ & Ha & _). by rewrite (Ha Hl) in Hk.
Qed.

(** However the network loses, repeats and reorders PATH_STATUS messages,
    and whatever else both ends do meanwhile, the receiver's view is that of
    one status the sender queued, none older than it is acted on later, and
    once the sender has nothing pending the receiver's view is that of the last
    status queued; an exchange can always be completed. *)
Theorem status_agreement mps mps' l :
  rtc link_step (link_init mps mps') l ->
  (forall s k log, link_sent l = (s, k) :: log ->
    pending_local_status (link_sender l) = None -> peer_view (link_receiver l) = view_of k) /\
  (peer_view (link_receiver l) = (false, false) \/
   exists k, (peer_status_sequence (link_receiver l), k) ∈ link_sent l /\
             peer_view (link_receiver l) = view_of k) /\
  (forall s, s ∈ link_delivered l -> s <= peer_status_sequence (link_receiver l) \/
             peer_abandoned (link_receiver l) = true) /\
  (exists l', rtc link_step l l' /\ link_sent l' = link_sent l /\
              pending_local_status (link_sender l') = None).
Proof.
  intros Hr%link_reachable. pose proof Hr as [Hlog Hpend Hdel Hrec]. split_and!; try done.
  - intros s k log Hsent Hnone. rewrite Hnone in Hpend.
    destruct Hpend as [?|Hs]; [congruence|]. pose proof (log_head _ _ _ Hlog) as Hh.
    rewrite Hsent in Hh. simpl in Hh. rewrite Hh in Hs. apply Hdel in Hs.
    pose proof (log_range _ _ _ Hlog s k) as Hrs. rewrite Hsent in Hrs. specialize (Hrs ltac:(by left)).
    destruct Hrec as [[Hz Hv]|(k' & Hin & Hv)].
    + unfold peer_view in Hv. injection Hv as Hst Hab. rewrite Hab in Hs. destruct Hs; [lia|done].
    + rewrite Hv. pose proof (log_range _ _ _ Hlog _ _ Hin). destruct Hs as [Hs|Hs].
      * rewrite (log_functional _ _ _ Hlog s k k'); try done; [rewrite Hsent; by left|].
        by replace s with (peer_status_sequence (link_receiver l)) by lia.
      * assert (k' = Abandon) as ->.
        { unfold peer_view in Hv. rewrite Hs in Hv. by destruct k'. }
        rewrite (log_final _ _ _ Hlog _ s k Hin); [done|rewrite Hsent; by left|lia].
  - destruct Hrec as [[_ ?]|?]; [by left|by right].
  - destruct l as [p q log del]. simpl in *.
    destruct (pending_local_status p) as [[s k]|] eqn:Hp; [|by eexists].
    destruct Hpend as [log' ->].
    exists (mkLink (PathOps.acknowledge_status p s) (PathOps.receive_status q s k).2
             ((s, k) :: log') (s :: del)). split_and!; [|done|].
    + eapply rtc_l; [by apply LinkDeliver, list_elem_of_here|].
      eapply rtc_l; [by apply LinkAck, list_elem_of_here|]. apply rtc_refl.
    + link_simpl. unfold PathOps.acknowledge_status, PathOps.pending_is. rewrite Hp, Z.eqb_refl. done.
Qed.

(** As long as memory is available, the known addresses of a path are the
    four most recently used distinct ones, most recent first. *)
Theorem known_addresses_recent mps l :
  (forall n, try_reserve n = true) ->
  known_addresses (fold_left PathOps.remember_address l (PathOps.new mps)) =
    take 4 (recent (rev l)).
Proof. intros Ha. by apply remember_all. Qed.
End properties.

(** One ACK's coupled growth, for every path of the association: a path
    with nothing to credit is untouched; in slow start it grows by the bytes
    acknowledged; in avoidance no fraction of a byte is lost, the increase is
    at most Reno's own for that path, and none for a path that is not
    eligible. *)
Theorem coupled_growth_bounded paths growth i p acked :
  paths !! i = Some p -> growth !! i = Some acked ->
  Forall (fun q => 1 <= max_packet_size (path_congestion q) <= window_of q /\
                   window_of q <= 2 ^ 61 /\ 0 <= ca_remainder_q32 q < 2 ^ 32) paths ->
  0 <= acked <= 2 ^ 61 ->
  exists p', apply_ack_congestion_growth paths growth !! i = Some p' /\
    bytes_in_flight (path_congestion p') = bytes_in_flight (path_congestion p) /\
    (acked = 0 -> p' = p) /\
    (0 < acked -> window_of p < slow_start_threshold (path_congestion p) ->
     window_of p' = window_of p + acked) /\
    (0 < acked -> slow_start_threshold (path_congestion p) <= window_of p ->
     exists inc, 0 <= inc <= reno_increase_q32 p acked /\ (lia_eligible p = false -> inc = 0) /\
       window_of p' * 2 ^ 32 + ca_remainder_q32 p' =
         window_of p * 2 ^ 32 + ca_remainder_q32 p + inc /\
       0 <= ca_remainder_q32 p' < 2 ^ 32).
Proof.
  intros Hi Hg Hall Ha. pose proof (growth_lookup paths growth i p Hi) as Hl.
  rewrite Hg in Hl. change (default 0 (Some acked)) with acked in Hl. eexists. split; [exact Hl|].
  pose proof Hall as Hp. rewrite Forall_lookup in Hp. destruct (Hp _ _ Hi) as ([Hm1 Hm2] & Hw & Hca).
  assert (Forall (fun q => 0 <= window_of q) paths) as Hpos.
  { eapply Forall_impl; [exact Hall|]. intros q [? ?]. lia. }
  split_and!.
  - unfold grow_path. destruct (acked =? 0); [done|]. by destruct (_ <? _).
  - intros ->. done.
  - intros Hpos' Hss. unfold grow_path. rewrite (proj2 (Z.eqb_neq _ _)) by lia.
    rewrite (proj2 (Z.ltb_lt _ _)) by done. unfold window_of, path_congestion, upd_congestion in *.
    get_set. cbn [CC.set_window congestion_window]. apply sat_add_small. unfold U64_MAX. lia.
  - intros Hpos' Hss. pose proof (lia_bounded paths i p acked Hi Hpos ltac:(lia) ltac:(lia) ltac:(lia)).
    pose proof (reno_increase_le p acked ltac:(lia) ltac:(lia) ltac:(lia)).
    exists (growth_increase paths growth i). unfold growth_increase at 1 2 3. rewrite Hg, Hi. change (default 0 (Some acked)) with acked.
    rewrite (proj2 (Z.eqb_neq _ _)), (proj2 (Z.leb_le _ _)) by (done || lia). cbn [negb andb].
    split; [done|]. split; [|].
    + intros Hel. unfold linked_congestion_increase_q32. destruct (acked =? 0); [done|].
      unfold get_ix. rewrite Nat2Z.id, Hi, (proj2 (Z.leb_le 0 _)) by lia. by rewrite Hel.
    + unfold growth_increase. rewrite Hg, Hi. change (default 0 (Some acked)) with acked.
      rewrite (proj2 (Z.eqb_neq _ _)), (proj2 (Z.leb_le _ _)) by (done || lia). cbn [negb andb].
      apply grow_path_avoidance; lia.
Qed.

(** The send cost of a usable path is at least its RTT, and orders paths
    the way the estimates do: a smaller RTT, a less loaded window, a better
    delivery probability or leaving the conservative interval never raises it. *)
Theorem send_cost_monotone p q :
  path_inv p -> path_inv q ->
  let rtt_of := fun x => default 500000 (Rtt.smoothed (path_rtt x)) in
  let flight := fun x => bytes_in_flight (path_congestion x) in
  let conservative := fun x => path_clock x <? step_conservative_until_us x in
  rtt_of p <= rtt_of q <= U64_MAX -> window_of p = window_of q -> 0 <= flight p <= flight q ->
  delivery_success_q16 q <= delivery_success_q16 p ->
  (conservative p = true -> conservative q = true) -> estimator_config p = estimator_config q ->
  rtt_of p <= PathOps.measured_send_cost_us p <= PathOps.measured_send_cost_us q.
Proof.
  intros Hp Hq rtt_of flight conservative Hr Hw Hf Hd Hc He.
  pose proof (inv_delivery p Hp). pose proof (inv_delivery q Hq).
  pose proof (config_ok_spec _ (inv_config q Hq)) as [_ Hm].
  unfold PathOps.measured_send_cost_us. cbv zeta. fold (window_of p) (window_of q) (rtt_of p) (rtt_of q)
    (flight p) (flight q) (conservative p) (conservative q). rewrite He, Hw.
  set (rp := Z.max (rtt_of p) 1). set (rq := Z.max (rtt_of q) 1). set (w := Z.max (window_of q) 1).
  rewrite !(Z.max_l (delivery_success_q16 _)) by lia.
  set (m := step_cost_multiplier_q16 (estimator_config q)) in *.
  assert (1 <= rp <= rq /\ rq <= U64_MAX) as [Hrr Hru] by (unfold rp, rq, U64_MAX in *; lia).
  pose (queued := fun r f => sat_mul128 r (Z.min f w) / w).
  assert (0 <= queued rp (flight p) <= queued rq (flight q)) as Hqq.
  { unfold queued. split; [apply Z.div_pos; [apply sat_mul128_nonneg; lia|lia]|].
    apply Z.div_le_mono; [lia|]. apply sat_mul128_mono; lia. }
  pose (cost := fun r qd s => sat_mul128 (sat_add128 r qd) (2 ^ 16) / s).
  change (sat_mul128 rp (Z.min (flight p) w) / w) with (queued rp (flight p)).
  change (sat_mul128 rq (Z.min (flight q) w) / w) with (queued rq (flight q)).
  set (a := sat_mul128 (sat_add128 rp _) _ / _). set (b := sat_mul128 (sat_add128 rq _) _ / _).
  assert (sat_add128 rp (queued rp (flight p)) <= sat_add128 rq (queued rq (flight q)) /\
          rp <= sat_add128 rp (queued rp (flight p))) as [Hs1 Hs2].
  { unfold sat_add128, U128_MAX, U64_MAX in *. lia. }
  assert (rp <= a) as Hra.
  { unfold a. apply Z.div_le_lower_bound; [lia|]. unfold sat_mul128, U128_MAX, U64_MAX in *. nia. }
  assert (a <= b) as Hab.
  { unfold a, b. etrans; [apply Z.div_le_compat_l; [apply sat_mul128_nonneg; lia|split; [|exact Hd]; lia]|].
    apply Z.div_le_mono; [lia|]. apply sat_mul128_mono; lia. }
  assert (forall x, 0 <= x -> Z.min x U64_MAX <= Z.min (sat_mul128 x m / 2 ^ 16) U64_MAX) as Hcons.
  { intros x Hx. assert (Z.min x U64_MAX <= sat_mul128 x m / 2 ^ 16); [|lia].
    apply Z.div_le_lower_bound; [lia|]. unfold sat_mul128, U128_MAX, U64_MAX. nia. }
  pose proof (Hcons a ltac:(lia)). pose proof (Hcons b ltac:(lia)).
  assert (sat_mul128 a m / 2 ^ 16 <= sat_mul128 b m / 2 ^ 16).
  { apply Z.div_le_mono; [lia|]. apply sat_mul128_mono; lia. }
  assert (rtt_of p <= Z.min a U64_MAX) by (unfold rp, U64_MAX in *; lia).
  destruct (conservative p) eqn:Hcp; [rewrite (Hc eq_refl); lia|].
  destruct (conservative q); lia.
Qed.

(** ** Witnesses *)
#[local] Instance plenty : Allocator := {| try_reserve := fun _ => true |}.

Definition example_ops : list path_op :=
  [ORemember (1, 7); OSetCircuit (mkCircuitKey Client 3) 9 2; OMarkValidated;
   ODelivery false 10; OUpdateRtt 2000 20; OQueueStatus Standby; ORemember (2, 8); OMarkSuspended].

Definition example_path : PathState := fold_left path_apply example_ops (PathOps.new 1100).

Lemma path_state_wf_witness :
  path_inv example_path /\ path_inv (fold_left path_apply [OQueueStatus Abandon] example_path) /\
  path_le example_path (fold_left path_apply [OQueueStatus Abandon] example_path) /\
  known_addresses example_path = [(2, 8); (1, 7)].
Proof.
  pose proof (path_state_wf 1100 example_ops [OQueueStatus Abandon]) as Hw. cbv zeta in Hw.
  destruct Hw as (? & ? & ?); [by repeat constructor..|].
  split; [assumption|]. split; [assumption|]. split; [assumption|]. vm_compute. reflexivity.
Defined.

Lemma abandon_is_final_witness :
  let p := fold_left path_apply [OQueueStatus Abandon] example_path in
  PathOps.circuit_status (fold_left path_apply [OMarkValidated; OReceiveStatus 5 Available] p) = Closed /\
  is_ok (PathOps.queue_status (fold_left path_apply [OMarkValidated; OReceiveStatus 5 Available] p)
           Standby) = false.
Proof.
  intros p.
  destruct (abandon_is_final p [OMarkValidated; OReceiveStatus 5 Available] Standby)
    as (Hs & _ & _ & _ & Hq).
  - destruct (path_state_wf 1100 example_ops [OQueueStatus Abandon]) as (_ & Hi & _);
      [by repeat constructor..|exact Hi].
  - vm_compute. reflexivity.
  - by repeat constructor.
  - split; [exact Hs|]. apply Hq; [vm_compute; reflexivity|discriminate].
Defined.

(** Standby is queued, then Available; the network delivers them in the wrong
    order and the newer one is acknowledged. *)
Definition keyed_path : PathState := PathOps.set_circuit (PathOps.new 1100) (mkCircuitKey Client 0) 1 0.
Definition queued (p : PathState) (k : PathStatusKind) : PathState :=
  match PathOps.queue_status p k with Ok (_, p') => p' | _ => p end.
Definition example_link : Link :=
  mkLink (PathOps.acknowledge_status (queued (queued keyed_path Standby) Available) 2)
    (PathOps.receive_status (PathOps.receive_status (PathOps.new 1100) 2 Available).2 1 Standby).2
    [(2, Available); (1, Standby)] [1; 2].

Lemma status_agreement_witness :
  rtc link_step (link_init 1100 1100) example_link /\
  peer_view (link_receiver example_link) = view_of Available.
Proof.
  assert (rtc link_step (link_init 1100 1100) example_link) as Hr.
  { eapply rtc_l; [apply (LinkSenderOp _ _ _ _ (OSetCircuit (mkCircuitKey Client 0) 1 0)); reflexivity|].
    eapply rtc_l; [apply (LinkQueue _ _ _ _ Standby 1 (queued keyed_path Standby)); reflexivity|].
    eapply rtc_l; [apply (LinkQueue _ _ _ _ Available 2 (queued (queued keyed_path Standby) Available));
                   reflexivity|].
    eapply rtc_l; [apply (LinkDeliver _ _ _ _ 2 Available); left|].
    eapply rtc_l; [apply (LinkDeliver _ _ _ _ 1 Standby); right; left|].
    eapply rtc_l; [apply (LinkAck _ _ _ _ 2); right; left|]. apply rtc_refl. }
  split; [exact Hr|].
  apply (proj1 (status_agreement 1100 1100 example_link Hr) 2 Available [(1, Standby)]); reflexivity.
Defined.

Lemma known_addresses_recent_witness :
  known_addresses (fold_left PathOps.remember_address
    [(1, 1); (2, 2); (3, 3); (1, 1); (4, 4); (5, 5)] (PathOps.new 1100)) =
  [(5, 5); (4, 4); (1, 1); (3, 3)].
Proof.
  rewrite (known_addresses_recent 1100 [(1, 1); (2, 2); (3, 3); (1, 1); (4, 4); (5, 5)]);
    [vm_compute; reflexivity|intros n; reflexivity].
Defined.

(** A path in congestion avoidance with a measured RTT. *)
Definition avoiding_path (window ca : Z) : PathState :=
  upd_congestion (fun c => mkCC 1100 window 2200 1100 None)
    (PathOps.update_rtt (PathOps.new 1100) 50000 100000) <| ca_remainder_q32 := ca |>.

Lemma coupled_growth_bounded_witness :
  exists p', apply_ack_congestion_growth [avoiding_path 11000 0; avoiding_path 22000 5] [1100; 2200]
               !! 1%nat = Some p' /\
    0 <= window_of p' * 2 ^ 32 + ca_remainder_q32 p' - (22000 * 2 ^ 32 + 5)
      <= reno_increase_q32 (avoiding_path 22000 5) 2200.
Proof.
  destruct (coupled_growth_bounded [avoiding_path 11000 0; avoiding_path 22000 5] [1100; 2200] 1
              (avoiding_path 22000 5) 2200) as (p' & Hl & _ & _ & _ & Hg).
  - reflexivity.
  - reflexivity.
  - repeat constructor; vm_compute; congruence.
  - vm_compute; split; congruence.
  - destruct Hg as (inc & Hinc & _ & Heq & _); [reflexivity|vm_compute; congruence|].
    exists p'. split; [exact Hl|].
    change (window_of (avoiding_path 22000 5)) with 22000 in Heq.
    change (ca_remainder_q32 (avoiding_path 22000 5)) with 5 in Heq. lia.
Defined.

Lemma send_cost_monotone_witness :
  PathOps.measured_send_cost_us (PathOps.record_delivery_outcome example_path true 50) <=
  PathOps.measured_send_cost_us example_path.
Proof.
  pose proof (path_state_wf 1100 example_ops [ODelivery true 50]) as Hw.
  destruct Hw as (Hi & Hi' & _); [by repeat constructor..|].
  pose proof (send_cost_monotone (PathOps.record_delivery_outcome example_path true 50) example_path
                Hi' Hi) as Hm.
  cbv zeta in Hm.
  destruct Hm as [_ Hm]; [vm_compute; split; congruence|reflexivity|vm_compute; split; congruence
    |vm_compute; congruence|vm_compute; congruence|reflexivity|exact Hm].
Defined.
