(* ===== verification/Endpoint.v ===== *)
(** * The endpoint: its state, construction and configuration

    [EndpointState] of [src/crates/quic-lite/src/lib.rs]: everything one side of
    an association keeps.  The field [f] of the Rust struct is [e_f] here, of
    [SentPacket] [sp_f] and of [TransportStats] [t_f].  Not kept are the two
    scratch allocations [reusable_send_payload] and [reusable_send_acknowledged]
    (capacity only), and the fields of the [packet-protection] feature, which is
    off: this file and those that build on it model that build.  The methods
    here construct an endpoint, install connection identifiers and credit, add
    paths, set limits and policies and advance the clock; the methods that send
    and receive are in [Credit.v], [Ledger.v], [Transmit.v] and [Receive.v].
    The packet size [P], a const generic, is the class [PacketSize]. *)

From S2P Require Import Prelude Records Methods Wire PacketHeader Keyed AckRanges Frames FlowControl Congestion PathState SendBuffer.

Class PacketSize : Type := { packet_size : Z }.

Record SentPacket : Type := mkSentPacket {
  sp_packet_number : Z;
  sp_ack_largest_received : option Z;
  sp_path_id : nat;
  sp_send_order : Z;
  sp_bytes : Z;
  sp_stream_id : Z;
  sp_offset : Z;
  sp_data_len : Z;
  sp_fin : bool;
  sp_priority_stream : bool;
  sp_path_probe : bool;
  sp_probe_idle_exempt : bool;
  sp_send_buffer_slot : option nat;
  sp_probe_token : option Z;
  sp_path_status : option (CircuitKey * Z);
  sp_rtt_eligible : bool;
  sp_logical_packet_number : Z;
  sp_duplication_charge : Z;
  sp_duplication_budget_committed : bool;
  sp_sent_at : Z;
  sp_accepted : bool;
  sp_window_limited : bool;
  sp_lost : bool;
  sp_inferred_lost : bool;
  sp_data_delivered : bool;
}.

Record TransportStats : Type := mkTransportStats {
  t_received_packets : Z;
  t_ack_ranges_dropped : Z;
  t_stream_packets : Z;
  t_control_packets : Z;
  t_duplicate_packets : Z;
  t_out_of_order_packets : Z;
  t_inferred_missing_packets : Z;
  t_sent_packets : Z;
  t_sent_stream_packets : Z;
  t_sent_control_packets : Z;
  t_retransmitted_packets : Z;
  t_loss_packet_threshold_packets : Z;
  t_loss_time_threshold_packets : Z;
  t_loss_events : Z;
  t_submission_failures : Z;
  t_loss_retransmitted_packets : Z;
  t_pto_retransmitted_packets : Z;
  t_ack_frequency_received : Z;
  t_ack_frequency_sent : Z;
  t_ack_packets : Z;
  t_ack_immediate_packets : Z;
  t_ack_threshold_packets : Z;
  t_ack_timer_packets : Z;
  t_receive_interpacket_samples : Z;
  t_receive_interpacket_total : Z;
  t_receive_interpacket_min : Z;
  t_receive_interpacket_max : Z;
}.

Definition stats_default : TransportStats :=
  mkTransportStats 0 0 0 0 0 0 0 0 0 0 0 0 0 0 0 0 0 0 0 0 0 0 0 0 0 0 0.

Record EndpointState : Type := mkEndpointState {
  e_peer_max_datagram_frame_size : Z;
  e_send : SendFlowControl;
  e_receive : ConnectionState;
  e_paths : list PathState;
  e_received_packets : AckRanges;
  e_receive_packet_floor : Z;
  e_peer_ack_ranges : AckRanges;
  e_next_packet_number : Z;
  e_duplication_budget_capacity : Z;
  e_duplication_credit_bytes : Z;
  e_duplication_credit_remainder : Z;
  e_duplication_reserved_bytes : Z;
  e_path_estimator_config : PathEstimatorConfig;
  e_pacing_config : PacingConfig;
  e_largest_acked_by_peer : option Z;
  e_sent_packets : list (option SentPacket);
  e_send_buffer : list (option RetainedSendRange);
  e_send_buffer_limit_bytes : Z;
  e_transmission_limit : nat;
  e_local_cid : option Z;
  e_peer_cid : option Z;
  e_control_pending : bool;
  e_ack_pending : bool;
  e_ack_packets : Z;
  e_ack_frequency : Z;
  e_ack_reordering_threshold : Z;
  e_largest_ack_frequency_sequence : option Z;
  e_pending_ack_frequency : option (Z * Z * Z * Z);
  e_last_ack_time : Z;
  e_largest_received_at : Z;
  e_max_ack_delay_us : Z;
  e_peer_max_ack_delay_us : Z;
  e_peer_max_in_flight_packets : Z;
  e_peer_max_streams_bidi : Z;
  e_peer_max_streams_uni : Z;
  e_pending_stream_ids : list Z;
  e_credit_inflight_stream_count : nat;
  e_credit_inflight_max_streams_bidi : bool;
  e_credit_pending : bool;
  e_credit_packet_number : option Z;
  e_credit_dirty : bool;
  e_credit_retry_backoff : Z;
  e_max_streams_bidi_pending : bool;
  e_close_code : option Z;
  e_history_limit : nat;
  e_receive_growth_limits : ConnectionLimits;
  e_retired_peer_bidi : Z;
  e_stats : TransportStats;
  e_highest_received_packet : option Z;
  e_last_receive_time : option Z;
}.

#[export] Instance eta_SentPacket : Eta SentPacket := ltac:(mk_eta).
#[export] Instance set_sp_packet_number : Setter sp_packet_number := ltac:(mk_setter).
#[export] Instance set_sp_ack_largest_received : Setter sp_ack_largest_received := ltac:(mk_setter).
#[export] Instance set_sp_path_id : Setter sp_path_id := ltac:(mk_setter).
#[export] Instance set_sp_send_order : Setter sp_send_order := ltac:(mk_setter).
#[export] Instance set_sp_bytes : Setter sp_bytes := ltac:(mk_setter).
#[export] Instance set_sp_stream_id : Setter sp_stream_id := ltac:(mk_setter).
#[export] Instance set_sp_offset : Setter sp_offset := ltac:(mk_setter).
#[export] Instance set_sp_data_len : Setter sp_data_len := ltac:(mk_setter).
#[export] Instance set_sp_fin : Setter sp_fin := ltac:(mk_setter).
#[export] Instance set_sp_priority_stream : Setter sp_priority_stream := ltac:(mk_setter).
#[export] Instance set_sp_path_probe : Setter sp_path_probe := ltac:(mk_setter).
#[export] Instance set_sp_probe_idle_exempt : Setter sp_probe_idle_exempt := ltac:(mk_setter).
#[export] Instance set_sp_send_buffer_slot : Setter sp_send_buffer_slot := ltac:(mk_setter).
#[export] Instance set_sp_probe_token : Setter sp_probe_token := ltac:(mk_setter).
#[export] Instance set_sp_path_status : Setter sp_path_status := ltac:(mk_setter).
#[export] Instance set_sp_rtt_eligible : Setter sp_rtt_eligible := ltac:(mk_setter).
#[export] Instance set_sp_logical_packet_number : Setter sp_logical_packet_number := ltac:(mk_setter).
#[export] Instance set_sp_duplication_charge : Setter sp_duplication_charge := ltac:(mk_setter).
#[export] Instance set_sp_duplication_budget_committed : Setter sp_duplication_budget_committed := ltac:(mk_setter).
#[export] Instance set_sp_sent_at : Setter sp_sent_at := ltac:(mk_setter).
#[export] Instance set_sp_accepted : Setter sp_accepted := ltac:(mk_setter).
#[export] Instance set_sp_window_limited : Setter sp_window_limited := ltac:(mk_setter).
#[export] Instance set_sp_lost : Setter sp_lost := ltac:(mk_setter).
#[export] Instance set_sp_inferred_lost : Setter sp_inferred_lost := ltac:(mk_setter).
#[export] Instance set_sp_data_delivered : Setter sp_data_delivered := ltac:(mk_setter).

#[export] Instance eta_TransportStats : Eta TransportStats := ltac:(mk_eta).
#[export] Instance set_t_received_packets : Setter t_received_packets := ltac:(mk_setter).
#[export] Instance set_t_ack_ranges_dropped : Setter t_ack_ranges_dropped := ltac:(mk_setter).
#[export] Instance set_t_stream_packets : Setter t_stream_packets := ltac:(mk_setter).
#[export] Instance set_t_control_packets : Setter t_control_packets := ltac:(mk_setter).
#[export] Instance set_t_duplicate_packets : Setter t_duplicate_packets := ltac:(mk_setter).
#[export] Instance set_t_out_of_order_packets : Setter t_out_of_order_packets := ltac:(mk_setter).
#[export] Instance set_t_inferred_missing_packets : Setter t_inferred_missing_packets := ltac:(mk_setter).
#[export] Instance set_t_sent_packets : Setter t_sent_packets := ltac:(mk_setter).
#[export] Instance set_t_sent_stream_packets : Setter t_sent_stream_packets := ltac:(mk_setter).
#[export] Instance set_t_sent_control_packets : Setter t_sent_control_packets := ltac:(mk_setter).
#[export] Instance set_t_retransmitted_packets : Setter t_retransmitted_packets := ltac:(mk_setter).
#[export] Instance set_t_loss_packet_threshold_packets : Setter t_loss_packet_threshold_packets := ltac:(mk_setter).
#[export] Instance set_t_loss_time_threshold_packets : Setter t_loss_time_threshold_packets := ltac:(mk_setter).
#[export] Instance set_t_loss_events : Setter t_loss_events := ltac:(mk_setter).
#[export] Instance set_t_submission_failures : Setter t_submission_failures := ltac:(mk_setter).
#[export] Instance set_t_loss_retransmitted_packets : Setter t_loss_retransmitted_packets := ltac:(mk_setter).
#[export] Instance set_t_pto_retransmitted_packets : Setter t_pto_retransmitted_packets := ltac:(mk_setter).
#[export] Instance set_t_ack_frequency_received : Setter t_ack_frequency_received := ltac:(mk_setter).
#[export] Instance set_t_ack_frequency_sent : Setter t_ack_frequency_sent := ltac:(mk_setter).
#[export] Instance set_t_ack_packets : Setter t_ack_packets := ltac:(mk_setter).
#[export] Instance set_t_ack_immediate_packets : Setter t_ack_immediate_packets := ltac:(mk_setter).
#[export] Instance set_t_ack_threshold_packets : Setter t_ack_threshold_packets := ltac:(mk_setter).
#[export] Instance set_t_ack_timer_packets : Setter t_ack_timer_packets := ltac:(mk_setter).
#[export] Instance set_t_receive_interpacket_samples : Setter t_receive_interpacket_samples := ltac:(mk_setter).
#[export] Instance set_t_receive_interpacket_total : Setter t_receive_interpacket_total := ltac:(mk_setter).
#[export] Instance set_t_receive_interpacket_min : Setter t_receive_interpacket_min := ltac:(mk_setter).
#[export] Instance set_t_receive_interpacket_max : Setter t_receive_interpacket_max := ltac:(mk_setter).

#[export] Instance eta_EndpointState : Eta EndpointState := ltac:(mk_eta).
#[export] Instance set_e_peer_max_datagram_frame_size : Setter e_peer_max_datagram_frame_size := ltac:(mk_setter).
#[export] Instance set_e_send : Setter e_send := ltac:(mk_setter).
#[export] Instance set_e_receive : Setter e_receive := ltac:(mk_setter).
#[export] Instance set_e_paths : Setter e_paths := ltac:(mk_setter).
#[export] Instance set_e_received_packets : Setter e_received_packets := ltac:(mk_setter).
#[export] Instance set_e_receive_packet_floor : Setter e_receive_packet_floor := ltac:(mk_setter).
#[export] Instance set_e_peer_ack_ranges : Setter e_peer_ack_ranges := ltac:(mk_setter).
#[export] Instance set_e_next_packet_number : Setter e_next_packet_number := ltac:(mk_setter).
#[export] Instance set_e_duplication_budget_capacity : Setter e_duplication_budget_capacity := ltac:(mk_setter).
#[export] Instance set_e_duplication_credit_bytes : Setter e_duplication_credit_bytes := ltac:(mk_setter).
#[export] Instance set_e_duplication_credit_remainder : Setter e_duplication_credit_remainder := ltac:(mk_setter).
#[export] Instance set_e_duplication_reserved_bytes : Setter e_duplication_reserved_bytes := ltac:(mk_setter).
#[export] Instance set_e_path_estimator_config : Setter e_path_estimator_config := ltac:(mk_setter).
#[export] Instance set_e_pacing_config : Setter e_pacing_config := ltac:(mk_setter).
#[export] Instance set_e_largest_acked_by_peer : Setter e_largest_acked_by_peer := ltac:(mk_setter).
#[export] Instance set_e_sent_packets : Setter e_sent_packets := ltac:(mk_setter).
#[export] Instance set_e_send_buffer : Setter e_send_buffer := ltac:(mk_setter).
#[export] Instance set_e_send_buffer_limit_bytes : Setter e_send_buffer_limit_bytes := ltac:(mk_setter).
#[export] Instance set_e_transmission_limit : Setter e_transmission_limit := ltac:(mk_setter).
#[export] Instance set_e_local_cid : Setter e_local_cid := ltac:(mk_setter).
#[export] Instance set_e_peer_cid : Setter e_peer_cid := ltac:(mk_setter).
#[export] Instance set_e_control_pending : Setter e_control_pending := ltac:(mk_setter).
#[export] Instance set_e_ack_pending : Setter e_ack_pending := ltac:(mk_setter).
#[export] Instance set_e_ack_packets : Setter e_ack_packets := ltac:(mk_setter).
#[export] Instance set_e_ack_frequency : Setter e_ack_frequency := ltac:(mk_setter).
#[export] Instance set_e_ack_reordering_threshold : Setter e_ack_reordering_threshold := ltac:(mk_setter).
#[export] Instance set_e_largest_ack_frequency_sequence : Setter e_largest_ack_frequency_sequence := ltac:(mk_setter).
#[export] Instance set_e_pending_ack_frequency : Setter e_pending_ack_frequency := ltac:(mk_setter).
#[export] Instance set_e_last_ack_time : Setter e_last_ack_time := ltac:(mk_setter).
#[export] Instance set_e_largest_received_at : Setter e_largest_received_at := ltac:(mk_setter).
#[export] Instance set_e_max_ack_delay_us : Setter e_max_ack_delay_us := ltac:(mk_setter).
#[export] Instance set_e_peer_max_ack_delay_us : Setter e_peer_max_ack_delay_us := ltac:(mk_setter).
#[export] Instance set_e_peer_max_in_flight_packets : Setter e_peer_max_in_flight_packets := ltac:(mk_setter).
#[export] Instance set_e_peer_max_streams_bidi : Setter e_peer_max_streams_bidi := ltac:(mk_setter).
#[export] Instance set_e_peer_max_streams_uni : Setter e_peer_max_streams_uni := ltac:(mk_setter).
#[export] Instance set_e_pending_stream_ids : Setter e_pending_stream_ids := ltac:(mk_setter).
#[export] Instance set_e_credit_inflight_stream_count : Setter e_credit_inflight_stream_count := ltac:(mk_setter).
#[export] Instance set_e_credit_inflight_max_streams_bidi : Setter e_credit_inflight_max_streams_bidi := ltac:(mk_setter).
#[export] Instance set_e_credit_pending : Setter e_credit_pending := ltac:(mk_setter).
#[export] Instance set_e_credit_packet_number : Setter e_credit_packet_number := ltac:(mk_setter).
#[export] Instance set_e_credit_dirty : Setter e_credit_dirty := ltac:(mk_setter).
#[export] Instance set_e_credit_retry_backoff : Setter e_credit_retry_backoff := ltac:(mk_setter).
#[export] Instance set_e_max_streams_bidi_pending : Setter e_max_streams_bidi_pending := ltac:(mk_setter).
#[export] Instance set_e_close_code : Setter e_close_code := ltac:(mk_setter).
#[export] Instance set_e_history_limit : Setter e_history_limit := ltac:(mk_setter).
#[export] Instance set_e_receive_growth_limits : Setter e_receive_growth_limits := ltac:(mk_setter).
#[export] Instance set_e_retired_peer_bidi : Setter e_retired_peer_bidi := ltac:(mk_setter).
#[export] Instance set_e_stats : Setter e_stats := ltac:(mk_setter).
#[export] Instance set_e_highest_received_packet : Setter e_highest_received_packet := ltac:(mk_setter).
#[export] Instance set_e_last_receive_time : Setter e_last_receive_time := ltac:(mk_setter).

Abbreviation ep := (method EndpointState).

(** [self.paths\[i\]] for an index the code has checked, or that a ledger record
    holds: an out-of-range index is a panic in the code and changes nothing here;
    the invariant of [Ledger.v] rules it out. *)
Definition upd_path (i : nat) (f : PathState -> PathState) (e : EndpointState) : EndpointState :=
  e <| e_paths ::= alter f i |>.

Definition get_path (e : EndpointState) (i : nat) : option PathState := e_paths e !! i.

Definition upd_stats (f : TransportStats -> TransportStats) (e : EndpointState) : EndpointState :=
  e <| e_stats ::= f |>.

Module Ep.
Section endpoint.
Context `{Allocator, PacketSize}.

(** *** Construction *)
Definition new_with_history_capacity (r : Role) (l : ConnectionLimits) (mps : Z)
    (history_capacity : nat) : EndpointState :=
  mkEndpointState 0 (Send.new (l_max_data l) (l_max_stream_data l)) (Conn.new r l)
    [PathOps.new mps] Ranges.new 0 Ranges.new 0 0 0 0 0 default_config pacing_host None
    (replicate (2 * history_capacity) None) (replicate history_capacity None)
    (sat_mul (Z.of_nat history_capacity) packet_size) (2 * history_capacity)
    None None false false 0 2 1 None None 0 0 25000 25000 U64_MAX
    (l_max_streams_bidi l) (l_max_streams_uni l) [] 0 false false None false 0 false None
    history_capacity l 0 stats_default None None.

Definition new (r : Role) (l : ConnectionLimits) (mps : Z) : EndpointState :=
  new_with_history_capacity r l mps 8.

(** [ConnectionIds::new] *)
Definition connection_ids (local peer : Z) : res (Z * Z) :=
  if (local =? 0) || (peer =? 0) then Err Error.WrongConnectionId else Ok (local, peer).

Definition set_ids (e : EndpointState) (local peer : Z) : EndpointState :=
  upd_path 0 (fun p => p <| local_cid := Some local |> <| peer_cid := Some peer |>)
    (e <| e_local_cid := Some local |> <| e_peer_cid := Some peer |>).

Definition new_established (r : Role) (l : ConnectionLimits) (mps local peer : Z) : EndpointState :=
  set_ids (new r l mps) local peer.

Definition install_connection_ids (local peer : Z) : ep unit :=
  _ ← lift_res (connection_ids local peer); modify (fun e => set_ids e local peer).

Definition continue_packet_numbers_from (next : Z) : ep unit := fun e =>
  if next <? e_next_packet_number e then (Err Error.Invalid, e)
  else (Ok tt, e <| e_next_packet_number := next |>).

(** *** Connection identifiers of the paths *)
Definition or_else {A} (o p : option A) : option A := match o with Some _ => o | None => p end.

Definition local_connection_id_on_path (e : EndpointState) (i : nat) : option Z :=
  or_else (get_path e i ≫= local_cid) (e_local_cid e).
Definition peer_connection_id_on_path (e : EndpointState) (i : nat) : option Z :=
  or_else (get_path e i ≫= peer_cid) (e_peer_cid e).

Definition is_some_eqb (o : option Z) (v : Z) : bool :=
  match o with Some x => x =? v | None => false end.

Definition path_id_for_peer_connection_id (e : EndpointState) (peer : Z) : option nat :=
  or_else (fst <$> list_find (fun p => is_some_eqb (peer_cid p) peer = true) (e_paths e))
    (if is_some_eqb (e_peer_cid e) peer then Some 0%nat else None).

Definition set_peer_connection_id_on_path (i : nat) (peer : Z) : ep unit := fun e =>
  if (peer =? 0)
     || existsb (fun '(id, p) => negb (id =? i)%nat && is_some_eqb (peer_cid p) peer)
          (imap pair (e_paths e))
  then (Err Error.WrongConnectionId, e)
  else match get_path e i with
       | None => (Err Error.PathLimit, e)
       | Some _ => (Ok tt, upd_path i (fun p => p <| peer_cid := Some peer |>) e)
       end.

(** *** Paths *)
Definition add_path_state : ep nat := fun e =>
  if MAX_PATH_STATES <=? zlen (e_paths e) then (Err Error.PathLimit, e) else
  if negb (try_reserve (length (e_paths e))) then (Err Error.HistoryFull, e) else
  match e_paths e with
  | [] => (Panic, e)
  | first :: _ =>
      let path := PathOps.set_estimator_config
                    (PathOps.new (max_packet_size (path_congestion first)))
                    (e_path_estimator_config e) in
      let path := path <| transport ::= fun t => Path.set_pacing_config t (e_pacing_config e) |>
                       <| validated := false |> in
      (Ok (length (e_paths e)), e <| e_paths ::= fun l => l ++ [path] |>)
  end.

Definition set_path_estimator_config (config : PathEstimatorConfig) : ep unit := fun e =>
  if negb (estimator_config_is_valid config) then (Err Error.Invalid, e)
  else (Ok tt, e <| e_path_estimator_config := config |>
                 <| e_paths ::= fmap (fun p => PathOps.set_estimator_config p config) |>).

Definition set_pacing_config (config : PacingConfig) : ep unit := fun e =>
  if negb (pacing_config_is_valid config) then (Err Error.Invalid, e)
  else (Ok tt, e <| e_pacing_config := config |>
                 <| e_paths ::= fmap (fun p =>
                      p <| transport ::= fun t => Path.set_pacing_config t config |>) |>).

Definition add_path_state_with_ids (local peer : Z) : ep nat :=
  _ ← lift_res (connection_ids local peer);
  used ← gets (fun e => existsb (fun p => is_some_eqb (local_cid p) local
                                          || is_some_eqb (peer_cid p) peer) (e_paths e));
  _ ← refuse_if used Error.WrongConnectionId;
  path_id ← add_path_state;
  _ ← modify (upd_path path_id (fun p => p <| local_cid := Some local |> <| peer_cid := Some peer |>));
  mret path_id.

Definition add_path_state_with_local_id (local : Z) : ep nat :=
  used ← gets (fun e => existsb (fun p => is_some_eqb (local_cid p) local) (e_paths e));
  _ ← refuse_if ((local =? 0) || used) Error.WrongConnectionId;
  path_id ← add_path_state;
  _ ← modify (upd_path path_id (fun p => p <| local_cid := Some local |>));
  mret path_id.

Definition set_base_circuit_key (e : EndpointState) : EndpointState :=
  upd_path 0 (fun p => p <| circuit_key := Some (mkCircuitKey Client 0) |>
                         <| local_circuit_id := 0 |>) e.

(** *** Path status and probes *)
Definition pto_timeout_for_path (e : EndpointState) (i : nat) : Z :=
  match get_path e i with
  | Some p => sat_add (Rtt.pto (path_rtt p)) (e_peer_max_ack_delay_us e)
  | None => sat_add 25000 (e_peer_max_ack_delay_us e)
  end.

Definition queue_path_status (i : nat) (status : PathStatusKind) : ep Z := fun e =>
  match get_path e i with
  | None => (Err Error.PathLimit, e)
  | Some p =>
      match PathOps.queue_status p status with
      | Ok (sequence, p') => (Ok sequence, upd_path i (fun _ => p') e)
      | Err err => (Err err, e)
      | Panic => (Panic, e)
      end
  end.

Fixpoint find_map_idx {A B} (f : A -> option B) (i : nat) (l : list A) : option (nat * B) :=
  match l with
  | [] => None
  | x :: l' => match f x with Some b => Some (i, b) | None => find_map_idx f (S i) l' end
  end.

Definition pending_path_status (e : EndpointState) (now_us : Z)
    : option (nat * (CircuitKey * Z * PathStatusKind)) :=
  find_map_idx (fun p => PathOps.pending_status p now_us) 0 (e_paths e).

Definition defer_path_status (i egress : nat) (e : EndpointState) : EndpointState :=
  match get_path e egress with
  | Some p =>
      let retry_at := sat_add (path_clock p) (pto_timeout_for_path e egress) in
      upd_path i (fun p => match pending_local_status p with
                           | Some _ => p <| status_retry_at_us := Some retry_at |>
                           | None => p
                           end) e
  | None => e
  end.

Definition status_egress_path (e : EndpointState) : option nat :=
  fst <$> list_find (fun p => PathOps.is_probe_eligible p = true) (e_paths e).

Definition has_key (key : CircuitKey) (p : PathState) : bool :=
  bool_decide (circuit_key p = Some key).

Definition path_with_key (e : EndpointState) (key : CircuitKey) : option nat :=
  fst <$> list_find (fun p => has_key key p = true) (e_paths e).

Definition receive_path_status (key : CircuitKey) (sequence : Z) (status : PathStatusKind)
    (e : EndpointState) : option (nat * bool) * EndpointState :=
  match path_with_key e key with
  | None => (None, e)
  | Some i =>
      match get_path e i with
      | None => (None, e)
      | Some p => let '(changed, p') := PathOps.receive_status p sequence status in
                  (Some (i, changed), upd_path i (fun _ => p') e)
      end
  end.

Definition begin_path_probe (i : nat) (token now_us interval_us : Z) : ep Z := fun e =>
  match get_path e i with
  | None => (Err Error.PathLimit, e)
  | Some _ => (Ok token, upd_path i (fun p => PathOps.begin_probe p token now_us interval_us) e)
  end.

(** *** Streams and peer credit *)
Definition open_send_stream (id max_data : Z) : ep unit := fun e =>
  let '(server_initiated, unidirectional) := Conn.stream_kind id in
  let locally := Bool.eqb server_initiated (Conn.is_server (role (e_receive e))) in
  let maximum := if unidirectional then e_peer_max_streams_uni e else e_peer_max_streams_bidi e in
  if locally && (maximum <=? Conn.stream_ordinal id) then (Err Error.StreamLimit, e) else
  match Send.open_stream (e_send e) id max_data with
  | Ok s =>
      let e := e <| e_send := s |> in
      if locally && negb unidirectional then
        match Conn.open (e_receive e) id with
        | (Ok _, c) => (Ok tt, e <| e_receive := c |>)
        | (Err err, c) => (Err err, e <| e_receive := c |>
                                      <| e_send := (Send.remove_stream s id).1 |>)
        | (Panic, c) => (Panic, e <| e_receive := c |>)
        end
      else (Ok tt, e)
  | Err err => (Err err, e)
  | Panic => (Panic, e)
  end.

Definition set_initial_peer_budget (max_data max_stream_data max_in_flight : Z) : ep unit :=
  _ ← on_field_res e_send (fun s => Send.set_initial_limits s max_data max_stream_data);
  modify (fun e => e <| e_peer_max_in_flight_packets :=
                          if max_in_flight =? 0 then U64_MAX else max_in_flight |>).

Definition set_initial_peer_credit (max_data max_stream_data : Z) : ep unit :=
  set_initial_peer_budget max_data max_stream_data 0.

(** *** Capacities *)
Definition all_none_from {A} (n : nat) (l : list (option A)) : bool :=
  forallb (fun s => match s with None => true | Some _ => false end) (drop n l).

(** [resize_with]/[truncate] of a slot vector to a new limit; slots in use are
    never dropped. *)
Definition resize_slots {A} (limit : nat) (l : list (option A)) : list (option A) :=
  if (length l <? limit)%nat then l ++ replicate (limit - length l) None
  else if (limit <? length l)%nat && all_none_from limit l then take limit l
  else l.

Definition set_history_capacity (limit : nat) : ep unit := fun e =>
  if (limit =? 0)%nat then (Err Error.HistoryFull, e) else
  if (length (e_send_buffer e) <? limit)%nat && negb (try_reserve (length (e_send_buffer e)))
  then (Err Error.HistoryFull, e)
  else (Ok tt, e <| e_send_buffer ::= resize_slots limit |> <| e_history_limit := limit |>).

Definition set_transmission_capacity (limit : nat) : ep unit := fun e =>
  if (limit =? 0)%nat then (Err Error.HistoryFull, e) else
  if negb (forallb (fun p => try_reserve (length (congestion_history p))) (e_paths e))
     || ((length (e_sent_packets e) <? limit)%nat && negb (try_reserve (length (e_sent_packets e))))
  then (Err Error.HistoryFull, e)
  else (Ok tt, e <| e_sent_packets ::= resize_slots limit |>
                 <| e_transmission_limit := limit |>
                 <| e_paths ::= fmap (fun p => p <| congestion_history ::=
                      fun h => drop (length h - limit) h |>) |>).

Definition allocated_payload_bytes (e : EndpointState) : Z :=
  zsum (fun s => match s with
                 | Some r => if has_payload r then retained_len r else 0
                 | None => 0
                 end) (e_send_buffer e).

Definition set_send_buffer_limit_bytes (limit : Z) : ep unit := fun e =>
  if limit <? allocated_payload_bytes e then (Err Error.HistoryFull, e)
  else (Ok tt, e <| e_send_buffer_limit_bytes := limit |>).

Definition set_duplication_budget_capacity (capacity : Z) (e : EndpointState) : EndpointState :=
  e <| e_duplication_budget_capacity := capacity |>
    <| e_duplication_credit_bytes ::= fun c => Z.min c capacity |>.

Definition duplication_budget_available (e : EndpointState) : Z :=
  sat_sub (e_duplication_credit_bytes e) (e_duplication_reserved_bytes e).

(** *** Clock and ACK policy *)
Definition set_clock (now : Z) (p : PathState) : PathState :=
  p <| transport ::= fun t => t <| send_clock := now |> |>.

Definition set_time (now : Z) (e : EndpointState) : EndpointState :=
  e <| e_paths ::= fmap (set_clock now) |>.

Definition set_ack_frequency (packets : Z) (e : EndpointState) : EndpointState :=
  e <| e_ack_frequency := PacketHeader.clamp packets 1 ACK_RANGE_CAPACITY |>.

Definition set_ack_policy (packets max_ack_delay_us : Z) (e : EndpointState) : EndpointState :=
  set_ack_frequency packets e <| e_max_ack_delay_us := max_ack_delay_us |>
    <| e_peer_max_ack_delay_us := max_ack_delay_us |>.

Definition ack_frequency_invalid (packet_threshold max_ack_delay_us reordering_threshold : Z) : bool :=
  (ACK_RANGE_CAPACITY <=? packet_threshold) || (16383000 <? max_ack_delay_us)
  || (U32_MAX <? reordering_threshold).

Definition request_ack_frequency (sequence packet_threshold max_ack_delay_us reordering_threshold : Z)
    : ep unit := fun e =>
  if ack_frequency_invalid packet_threshold max_ack_delay_us reordering_threshold
  then (Err Error.Invalid, e)
  else (Ok tt, e <| e_pending_ack_frequency :=
                     Some (sequence, packet_threshold, max_ack_delay_us, reordering_threshold) |>).

Definition apply_ack_frequency (sequence packet_threshold max_ack_delay_us reordering_threshold : Z)
    : ep unit := fun e =>
  if match e_largest_ack_frequency_sequence e with
     | Some previous => sequence <=? previous
     | None => false
     end then (Ok tt, e)
  else if ack_frequency_invalid packet_threshold max_ack_delay_us reordering_threshold
  then (Err Error.Invalid, e)
  else (Ok tt, upd_stats (fun t => t <| t_ack_frequency_received ::= fun n => sat_add n 1 |>)
     (e <| e_ack_frequency := sat_add8 (as_u8 packet_threshold) 1 |>
        <| e_max_ack_delay_us := max_ack_delay_us |>
        <| e_ack_reordering_threshold := as_u32 reordering_threshold |>
        <| e_largest_ack_frequency_sequence := Some sequence |>)).

Definition close (code : Z) (e : EndpointState) : EndpointState := e <| e_close_code := Some code |>.

(** One-shot pacing wakes. *)
Definition on_bearer_timeout (e : EndpointState) : EndpointState :=
  e <| e_paths ::= fmap (fun p =>
         match pacing_deadline_us (transport p) with
         | Some deadline => if deadline <=? path_clock p
                            then p <| transport ::= fun t => Path.set_deadline t None |> else p
         | None => p
         end) |>.

(** *** Received packet numbers *)
Definition largest_received (e : EndpointState) : option Z :=
  r_end <$> Ranges.get (e_received_packets e) 0.

Definition expected_packet_number (e : EndpointState) : Z :=
  match largest_received e with
  | Some v => if v + 1 <=? U32_MAX then v + 1 else 0
  | None => 0
  end.

Definition next_packet_number_len (e : EndpointState) : Z :=
  packet_number_len_for (e_next_packet_number e) (e_largest_acked_by_peer e).

Definition has_received_packet (e : EndpointState) (pn : Z) : bool :=
  (pn <? e_receive_packet_floor e) || Ranges.contains (e_received_packets e) pn.

Definition in_flight_packet_count (e : EndpointState) : Z :=
  zsum (fun s => match s with
                 | Some sent => if sp_accepted sent && negb (sp_lost sent) then 1 else 0
                 | None => 0
                 end) (e_sent_packets e).

(** [self.next_packet_number.checked_add(1)] *)
Definition checked_next_packet_number (e : EndpointState) : res Z :=
  if e_next_packet_number e + 1 <=? U32_MAX then Ok (e_next_packet_number e + 1)
  else Err Error.PacketNumberExhausted.
End endpoint.
End Ep.
