(* ===== verification/Credit.v ===== *)
(** * Acknowledgement scheduling and credit publication

    The part of [EndpointState] ([src/crates/quic-lite/src/lib.rs]) that decides
    when to acknowledge and how received credit is returned to the peer:
    [schedule_ack] and its relatives, [stream_consumed_inner] (replenishment of
    the sliding windows), [queue_stream_credit], [try_retire_stream],
    [set_receive_growth_limits], the path and contents of the next control
    packet ([pending_control_path], [encode_control_frames_on_path]), its
    commitment ([commit_control_frames]), the standalone control packet
    [poll_transmit_on_path], and the part of the ACK handler that retires a
    publication of MAX frames ([acknowledge_credit]).  [Publication.v] shows that a
    publication is never lost. *)

From S2P Require Import Prelude Records Methods Wire PacketHeader Keyed AckRanges Frames FlowControl Congestion PathState SendBuffer Endpoint.

Definition MAX_PTO_BACKOFF_EXPONENT : Z := 3.

Record EncodedControlFrames : Type := mkEncodedControlFrames {
  used : Z;
  ack : bool;
  credit : bool;
  credit_stream_count : nat;
  credit_max_streams_bidi : bool;
  ack_frequency : bool;
  immediate_ack : bool;
  ack_threshold_due : bool;
  ack_timer_due : bool;
}.

#[export] Instance eta_EncodedControlFrames : Eta EncodedControlFrames := ltac:(mk_eta).
#[export] Instance set_used : Setter used := ltac:(mk_setter).
#[export] Instance set_ack : Setter ack := ltac:(mk_setter).
#[export] Instance set_credit : Setter credit := ltac:(mk_setter).
#[export] Instance set_credit_stream_count : Setter credit_stream_count := ltac:(mk_setter).
#[export] Instance set_credit_max_streams_bidi : Setter credit_max_streams_bidi := ltac:(mk_setter).
#[export] Instance set_ack_frequency : Setter ack_frequency := ltac:(mk_setter).
#[export] Instance set_immediate_ack : Setter immediate_ack := ltac:(mk_setter).
#[export] Instance set_ack_threshold_due : Setter ack_threshold_due := ltac:(mk_setter).
#[export] Instance set_ack_timer_due : Setter ack_timer_due := ltac:(mk_setter).

Definition no_control : EncodedControlFrames :=
  mkEncodedControlFrames 0 false false 0 false false false false false.


Module Credit.
Section credit.
Context `{Allocator, PacketSize, Features}.

(** *** Acknowledgement scheduling *)
Definition schedule_ack (i : nat) (immediate : bool) (e : EndpointState) : EndpointState :=
  match get_path e i with
  | None => e
  | Some _ =>
      upd_path i (fun p =>
        (if ack_pending p then p else p <| ack_started_at := path_clock p |>)
          <| ack_pending := true |> <| ack_packets ::= fun n => sat_add8 n 1 |>
          <| ack_immediate ::= fun b => b || immediate |>) e
        <| e_ack_pending := true |> <| e_ack_packets ::= fun n => sat_add8 n 1 |>
  end.

Definition schedule_application_ack (i : nat) (immediate : bool) (e : EndpointState)
    : EndpointState :=
  match get_path e i with
  | None => e
  | Some _ =>
      upd_path i (fun p =>
        (if ack_pending p then p
         else p <| ack_started_at := path_clock p |> <| largest_received_at := path_clock p |>)
          <| ack_pending := true |> <| ack_immediate ::= fun b => b || immediate |>) e
        <| e_ack_pending := true |>
  end.

(** [record_bearer_arrival] *)
Definition record_bearer_arrival (i : nat) (received_at_us : Z) (e : EndpointState) : EndpointState :=
  if received_at_us =? 0 then e else
  match get_path e i with
  | None => e
  | Some p =>
      let at_ := Z.min received_at_us (path_clock p) in
      let e' := upd_path i (fun p => p <| largest_received_at := at_ |>) e in
      if bool_decide (largest_received_packet p = e_highest_received_packet e)
      then e' <| e_largest_received_at := at_ |> else e'
  end.

(** [max_by_key] keeps the last of equal keys. *)
Fixpoint max_pending (i : nat) (l : list PathState) (best : option (nat * Z)) : option (nat * Z) :=
  match l with
  | [] => best
  | p :: l' =>
      max_pending (S i) l'
        (if ack_pending p
         then match best with
              | Some (_, at_) => if at_ <=? largest_received_at p
                                 then Some (i, largest_received_at p) else best
              | None => Some (i, largest_received_at p)
              end
         else best)
  end.

Definition pending_receive_ack_path (e : EndpointState) : nat :=
  match max_pending 0 (e_paths e) None with Some (i, _) => i | None => 0%nat end.

Definition request_path_validation_ack (i : nat) (e : EndpointState) : EndpointState :=
  schedule_application_ack i true (e <| e_control_pending := true |>).

Definition request_stream_reack (e : EndpointState) : EndpointState :=
  schedule_application_ack 0 true (e <| e_control_pending := true |>).

Definition refresh_ack_summary (e : EndpointState) : EndpointState :=
  e <| e_ack_pending := existsb ack_pending (e_paths e) |>
    <| e_ack_packets := fold_left (fun n p => sat_add8 n (ack_packets p)) (e_paths e) 0 |>.

(** *** When control output is due *)
Fixpoint rposition {A} (f : A -> bool) (l : list A) : option nat :=
  match l with
  | [] => None
  | x :: l' => match rposition f l' with
               | Some i => Some (S i)
               | None => if f x then Some 0%nat else None
               end
  end.

Fixpoint first_index {A} (f : A -> bool) (l : list A) : option nat :=
  match l with
  | [] => None
  | x :: l' => if f x then Some 0%nat else S <$> first_index f l'
  end.

Definition delayed_ack_due (e : EndpointState) (p : PathState) : bool :=
  ack_pending p
  && ((e_ack_frequency e <=? ack_packets p) || ack_immediate p
      || (e_max_ack_delay_us e <=? sat_sub (path_clock p) (ack_started_at p))).

Definition backoff_factor (n : Z) : Z := Z.shiftl 1 (Z.min n MAX_PTO_BACKOFF_EXPONENT).

(** The time since [last_ack_time] after which credit is (re)published. *)
Definition credit_interval (e : EndpointState) : Z :=
  match e_credit_packet_number e with
  | Some _ => sat_mul (Ep.pto_timeout_for_path e 0) (backoff_factor (e_credit_retry_backoff e))
  | None => e_max_ack_delay_us e
  end.

Definition credit_due_at (e : EndpointState) (clock : Z) : bool :=
  e_credit_pending e && (credit_interval e <=? sat_sub clock (e_last_ack_time e)).

Definition pending_control_path (e : EndpointState) : option nat :=
  if e_control_pending e then Some (default 0%nat (rposition ack_immediate (e_paths e)))
  else match e_pending_ack_frequency e with
  | Some _ => Some 0%nat
  | None =>
      match first_index (delayed_ack_due e) (e_paths e) with
      | Some i => Some i
      | None =>
          match e_paths e with
          | [] => None
          | path0 :: _ => if credit_due_at e (path_clock path0) then Some 0%nat else None
          end
      end
  end.

(** *** Returning credit *)
Definition queue_stream_credit (stream_id : Z) : ep unit := fun e =>
  let e := e <| e_credit_dirty ::= fun d => d || bool_decide (e_credit_packet_number e <> None) |>
             <| e_credit_pending := true |> in
  if existsb (fun id => id =? stream_id) (e_pending_stream_ids e) then (Ok tt, e)
  else if try_reserve (length (e_pending_stream_ids e))
  then (Ok tt, e <| e_pending_stream_ids ::= fun l => l ++ [stream_id] |>)
  else (Err Error.StreamLimit, e).

Definition with_max_data (max_data : Z) (s : StreamState) : StreamState :=
  mkStreamState (st_id s) max_data (st_received s) (st_consumed s) (st_finished s).

Definition set_stream_max (id max_data : Z) (c : ConnectionState) : ConnectionState :=
  match Conn.find c id with
  | Some i => Conn.set_streams c (alter (with_max_data max_data) i (streams c))
  | None => c
  end.

Definition set_max_streams_bidi (target : Z) (c : ConnectionState) : ConnectionState :=
  let l := limits c in
  mkConnectionState (role c) (connection c)
    (mkConnectionLimits (max_datagram_frame_size l) (l_max_data l) (l_max_stream_data l) target
       (l_max_streams_uni l))
    (received_data c) (streams c) (retired_streams c).

Definition raise_max_streams_bidi (e : EndpointState) : EndpointState :=
  let target := sat_add (e_retired_peer_bidi e) (l_max_streams_bidi (e_receive_growth_limits e)) in
  if l_max_streams_bidi (limits (e_receive e)) <? target
  then e <| e_receive ::= set_max_streams_bidi target |> <| e_max_streams_bidi_pending := true |>
  else e.

(** One turn of the loop over [self.receive.streams]. *)
Definition grow_stream (max_stream_data : Z) (index : nat) : ep unit := fun e =>
  match streams (e_receive e) !! index with
  | None => (Panic, e)
  | Some s =>
      let grown := Z.max (st_max_data s) (sat_add (st_consumed s) max_stream_data) in
      let e := e <| e_receive ::= fun c => Conn.set_streams c
                       (alter (with_max_data grown) index (streams c)) |> in
      if st_max_data s <? grown then queue_stream_credit (st_id s) e else (Ok tt, e)
  end.

Definition set_receive_growth_limits (l : ConnectionLimits) : ep unit :=
  _ ← refuse_if ((l_max_data l =? 0) || (l_max_stream_data l =? 0)) Error.Invalid;
  _ ← modify (fun e => e <| e_receive_growth_limits := l |>
                         <| e_receive ::= fun c => Conn.extend_connection_credit c (l_max_data l) |>);
  count ← gets (fun e => length (streams (e_receive e)));
  _ ← for_each (seq 0 count) (grow_stream (l_max_stream_data l));
  modify (fun e => raise_max_streams_bidi e
                     <| e_credit_pending := true |> <| e_control_pending := true |>).

Definition grant_receive_window (stream_id window_bytes : Z) : ep unit :=
  l ← gets e_receive_growth_limits;
  _ ← modify (fun e => e <| e_receive ::= fun c =>
                Conn.extend_connection_credit c (Z.min window_bytes (l_max_data l)) |>);
  _ ← on_field_res e_receive (fun c =>
        Conn.extend_stream_credit c stream_id (Z.min window_bytes (l_max_stream_data l)));
  _ ← modify (fun e => e <| e_control_pending := true |>);
  queue_stream_credit stream_id.

(** *** Retirement of a finished stream *)
Definition stream_retirable (e : EndpointState) (id : Z) : bool :=
  Send.is_finished (e_send e) id && Conn.is_complete (e_receive e) id
  && negb (existsb (fun s => match s with Some p => sp_stream_id p =? id | None => false end)
             (e_sent_packets e)).

Definition try_retire_stream (id : Z) (e : EndpointState) : EndpointState :=
  if negb (stream_retirable e id) then e else
  let peer_initiated := Conn.is_peer_initiated (e_receive e) id in
  let removed := length (List.filter (fun pending => pending =? id)
                           (take (e_credit_inflight_stream_count e) (e_pending_stream_ids e))) in
  let e := e <| e_send ::= fun s => (Send.remove_stream s id).1 |>
             <| e_receive ::= fun c => (Conn.retire_stream c id).2 |>
             <| e_pending_stream_ids ::= List.filter (fun pending => negb (pending =? id)) |>
             <| e_credit_inflight_stream_count ::= fun n => (n - removed)%nat |> in
  if peer_initiated && (Z.land id 2 =? 0) then
    let e := raise_max_streams_bidi (e <| e_retired_peer_bidi ::= fun n => sat_add n 1 |>) in
    e <| e_credit_dirty ::= fun d => d || bool_decide (e_credit_packet_number e <> None) |>
      <| e_credit_pending := true |> <| e_control_pending := true |>
  else e.

(** *** Consumption *)
Definition credit_due (force_control : bool) (consumed advertised window : Z) : bool :=
  let threshold := if force_control || (window <=? sat_mul packet_size 2) then 1
                   else Congestion.div_ceil window 8 in
  threshold <=? sat_sub (sat_add consumed window) advertised.

Definition find_stream (e : EndpointState) (id : Z) : option StreamState :=
  find_key st_id id (streams (e_receive e)).

Definition stream_consumed_inner (stream_id n : Z) (force_control sched_ack : bool) : ep unit :=
  _ ← on_field_res e_receive (fun c => Conn.consume c stream_id n);
  room ← gets (fun e => (length (streams (e_receive e)) <=? length (e_pending_stream_ids e))%nat
                        || try_reserve (length (e_pending_stream_ids e)));
  _ ← refuse_if (negb room) Error.StreamLimit;
  l ← gets e_receive_growth_limits;
  connection_credit_due ← gets (fun e => credit_due force_control
     (fc_consumed (connection (e_receive e))) (fc_max_data (connection (e_receive e))) (l_max_data l));
  _ ← modify (fun e => if connection_credit_due : bool
                       then e <| e_receive ::= fun c => Conn.extend_connection_credit c (l_max_data l) |>
                       else e);
  stream ← gets (fun e => find_stream e stream_id);
  st ← lift_res (ok_or stream Error.Invalid);
  let stream_credit_due := credit_due force_control (st_consumed st) (st_max_data st)
                             (l_max_stream_data l) in
  _ ← modify (fun e => if stream_credit_due
                       then e <| e_receive ::= fun c => set_stream_max stream_id
                                   (st_max_data (RecvStream.extend st (l_max_stream_data l))) c |>
                       else e);
  _ ← modify (fun e => if force_control then e <| e_control_pending := true |> else e);
  _ ← modify (fun e => if sched_ack
                       then schedule_application_ack (pending_receive_ack_path e) force_control e
                       else e);
  _ ← (if connection_credit_due || stream_credit_due then queue_stream_credit stream_id else mret tt);
  modify (try_retire_stream stream_id).

Definition stream_consumed (stream_id n : Z) : ep unit := stream_consumed_inner stream_id n true true.
Definition stream_consumed_deferred (stream_id n : Z) : ep unit :=
  stream_consumed_inner stream_id n false true.
Definition stream_consumed_before_packet_ack (stream_id n : Z) : ep unit :=
  stream_consumed_inner stream_id n false false.

Definition stream_consumed_without_credit (stream_id n : Z) : ep unit :=
  _ ← on_field_res e_receive (fun c => Conn.consume c stream_id n);
  modify (fun e => schedule_application_ack (pending_receive_ack_path e) false e).

(** *** Control frames

    The encoder works on [&self] and a slice of [cap] bytes; the result carries
    the bytes written. *)
Definition too_small (err : Error.t) : bool :=
  match err with Error.Truncated | Error.BufferTooSmall => true | _ => false end.

(** The [for &stream_id in ..] loop: streams until one does not fit. *)
Fixpoint put_stream_credit (c : ConnectionState) (ids : list Z) (cap : Z) : res (nat * bytes) :=
  match ids with
  | [] => Ok (0%nat, [])
  | id :: ids' =>
      let max := default (l_max_stream_data (limits c)) (Conn.stream_max_data c id) in
      match encode (MaxStreamData id max) cap with
      | Ok b => '(n, rest) ← put_stream_credit c ids' (cap - zlen b); Ok (S n, b ++ rest)
      | Err err => if too_small err then Ok (0%nat, []) else Err err
      | Panic => Panic
      end
  end.

(** The body of [if send_credit]: MAX_DATA, the queued streams, MAX_STREAMS.
    [None] is the early return of a piggybacked ACK without credit. *)
Definition put_credit (e : EndpointState) (cap : Z) (piggyback : bool)
    : res (option (nat * bool * bytes)) :=
  match encode (MaxData (fc_max_data (connection (e_receive e)))) cap with
  | Ok b0 =>
      let stream_limit :=
        match e_credit_packet_number e with
        | Some _ => if e_credit_dirty e then length (e_pending_stream_ids e)
                    else Nat.min (e_credit_inflight_stream_count e) (length (e_pending_stream_ids e))
        | None => length (e_pending_stream_ids e)
        end in
      '(n, b1) ← put_stream_credit (e_receive e) (take stream_limit (e_pending_stream_ids e))
                   (cap - zlen b0);
      if e_max_streams_bidi_pending e then
        match encode (MaxStreamsBidi (l_max_streams_bidi (limits (e_receive e))))
                (cap - zlen b0 - zlen b1) with
        | Ok b2 => Ok (Some (n, true, b0 ++ b1 ++ b2))
        | Err err => if too_small err then Ok (Some (n, false, b0 ++ b1)) else Err err
        | Panic => Panic
        end
      else Ok (Some (n, false, b0 ++ b1))
  | Err err => if piggyback && too_small err then Ok None else Err err
  | Panic => Panic
  end.

Definition put_ack_frequency (f : Z * Z * Z * Z) (cap : Z) (piggyback : bool) : res (option bytes) :=
  let '(sequence, threshold, delay, reordering) := f in
  match encode (AckFrequency sequence threshold delay reordering) cap with
  | Ok b => Ok (Some b)
  | Err err => if piggyback && too_small err then Ok None else Err err
  | Panic => Panic
  end.

(** Credit is sent unless an unchanged publication is waiting for its ACK. *)
Definition send_credit (e : EndpointState) (credit_retry_due : bool) : bool :=
  e_credit_pending e && (bool_decide (e_credit_packet_number e = None) || e_credit_dirty e
                         || credit_retry_due).

Definition finish_control (control : EncodedControlFrames) (b : bytes)
    : res (option (EncodedControlFrames * bytes)) :=
  if zlen b =? 0 then Ok None else Ok (Some (control <| used := zlen b |>, b)).

(** The ACK_FREQUENCY frame that may follow the ACK and credit bytes [b]. *)
Definition control_tail (freq : option (Z * Z * Z * Z)) (piggyback : bool) (cap : Z)
    (control : EncodedControlFrames) (b : bytes) : res (option (EncodedControlFrames * bytes)) :=
  match freq with
  | None => finish_control control b
  | Some f =>
      r ← put_ack_frequency f (cap - zlen b) piggyback;
      match r with
      | Some b' => finish_control (control <| ack_frequency := true |>) (b ++ b')
      | None => finish_control control b
      end
  end.

Definition encode_control_frames_on_path (e : EndpointState) (i : nat) (cap : Z) (piggyback : bool)
    : res (option (EncodedControlFrames * bytes)) :=
  match get_path e i with
  | None => Err Error.Invalid
  | Some p =>
      if piggyback
         && negb (i =? default (pending_receive_ack_path e) (pending_control_path e))%nat
      then Ok None else
      let clock := path_clock p in
      let threshold_due := ack_pending p && (e_ack_frequency e <=? ack_packets p) in
      let timer_due := ack_pending p && (e_max_ack_delay_us e <=? sat_sub clock (ack_started_at p)) in
      let credit_retry_due := (i =? 0)%nat && credit_due_at e clock in
      let with_credit := send_credit e credit_retry_due in
      let send_ack := e_control_pending e || ack_immediate p || (threshold_due || timer_due)
                      || credit_retry_due || (piggyback && (ack_pending p || with_credit)) in
      let freq := if (i =? 0)%nat then e_pending_ack_frequency e else None in
      if negb send_ack && bool_decide (freq = None) then Ok None else
      let control := no_control <| ack_threshold_due := threshold_due |>
                       <| ack_timer_due := timer_due |>
                       <| immediate_ack := ((i =? 0)%nat && e_control_pending e) || ack_immediate p |> in
      if negb send_ack then control_tail freq piggyback cap control [] else
      largest ← ok_or (Ep.largest_received e) Error.Invalid;
      let delay := Z.min (sat_sub clock (largest_received_at p)) (e_max_ack_delay_us e) in
      match encode (AckRangesF largest delay (e_received_packets e)) cap with
      | Ok b =>
          let control := control <| ack := true |> in
          if negb with_credit then control_tail freq piggyback cap control b else
          r ← put_credit e (cap - zlen b) piggyback;
          match r with
          | None => Ok (Some (control <| used := zlen b |>, b))
          | Some (n, bidi, b') =>
              control_tail freq piggyback cap
                (control <| credit := true |> <| credit_stream_count := n |>
                         <| credit_max_streams_bidi := bidi |>) (b ++ b')
          end
      | Err err => if piggyback && too_small err then Ok None else Err err
      | Panic => Panic
      end
  end.

Definition bump_ack_stats (control : EncodedControlFrames) (t : TransportStats) : TransportStats :=
  let t := t <| t_ack_packets ::= Z.succ |> in
  if immediate_ack control then t <| t_ack_immediate_packets ::= Z.succ |>
  else if ack_threshold_due control then t <| t_ack_threshold_packets ::= Z.succ |>
  else if ack_timer_due control then t <| t_ack_timer_packets ::= Z.succ |>
  else t.

(** The publication bookkeeping of [commit_control_frames]. *)
Definition publish_credit (pn : Z) (control : EncodedControlFrames) (e : EndpointState)
    : EndpointState :=
  let retrying := bool_decide (e_credit_packet_number e <> None) && negb (e_credit_dirty e) in
  e <| e_credit_packet_number := Some pn |>
    <| e_credit_inflight_stream_count := credit_stream_count control |>
    <| e_credit_inflight_max_streams_bidi := credit_max_streams_bidi control |>
    <| e_credit_dirty := false |>
    <| e_credit_retry_backoff ::= fun n =>
         if retrying then Z.min (sat_add8 n 1) MAX_PTO_BACKOFF_EXPONENT else 0 |>.

Definition commit_control_frames (i : nat) (pn : Z) (control : EncodedControlFrames)
    (e : EndpointState) : EndpointState :=
  let clock := match get_path e i with Some p => path_clock p | None => 0 end in
  let e :=
    if ack control then
      let e := refresh_ack_summary (upd_path i (fun p =>
                 p <| ack_pending := false |> <| ack_packets := 0 |> <| ack_immediate := false |>)
                 (e <| e_control_pending := false |>)) in
      let e := if credit control || bool_decide (e_credit_packet_number e = None)
               then e <| e_last_ack_time := clock |> else e in
      let e := if credit control then publish_credit pn control e else e in
      upd_stats (bump_ack_stats control) e
    else e in
  if ack_frequency control
  then upd_stats (fun t => t <| t_ack_frequency_sent ::= fun n => sat_add n 1 |>)
         (e <| e_pending_ack_frequency := None |>)
  else e.

(** The header of an outgoing short packet. *)
Definition packet_header (e : EndpointState) (destination : Z) (pn_len : Z) (cap : Z) : res bytes :=
  short_encode (mkShortHeader FLAG_FIXED destination (e_next_packet_number e) pn_len) cap.

(** The packet is returned as its bytes. *)
Definition poll_transmit_on_path (i : nat) (cap : Z) : ep (option bytes) := fun e =>
  match get_path e i with
  | None => (Err Error.Invalid, e)
  | Some _ =>
      if bool_decide (pending_control_path e = None) then (Ok None, e) else
      match
        (destination ← ok_or (Ep.peer_connection_id_on_path e i) Error.WrongConnectionId;
         h ← packet_header e destination (Ep.next_packet_number_len e) cap;
         control ← encode_control_frames_on_path e i (cap - zlen h) false;
         match control with
         | None => Ok None
         | Some (control, b) =>
             next ← Ep.checked_next_packet_number e; Ok (Some (control, h ++ b, next))
         end)
      with
      | Ok None => (Ok None, e)
      | Ok (Some (control, packet, next)) =>
          (Ok (Some packet),
           upd_stats (fun t => t <| t_sent_packets ::= Z.succ |> <| t_sent_control_packets ::= Z.succ |>)
             (commit_control_frames i (e_next_packet_number e) control e)
             <| e_next_packet_number := next |>)
      | Err err => (Err err, e)
      | Panic => (Panic, e)
      end
  end.

(** *** The ACK of a publication

    The [if self.credit_packet_number.is_some_and(..)] block of
    [apply_ack_ranges_on_path]; [acknowledged] says which packet numbers the ACK
    covers. *)
Definition credit_acknowledged (acknowledged : Z -> bool) (e : EndpointState) : bool :=
  match e_credit_packet_number e with
  | None => false
  | Some pn =>
      acknowledged pn
      || existsb (fun s => match s with
           | Some sent => sp_accepted sent && bool_decide (sp_send_buffer_slot sent = None)
                          && negb (sp_duplication_charge sent =? 0)
                          && (sp_logical_packet_number sent =? pn)
                          && acknowledged (sp_packet_number sent)
           | None => false
           end) (e_sent_packets e)
  end.

Definition retire_publication (e : EndpointState) : EndpointState :=
  let e := e <| e_credit_packet_number := None |> <| e_credit_retry_backoff := 0 |> in
  if e_credit_dirty e then
    e <| e_credit_pending := true |>
      <| e_control_pending ::= fun b =>
           b || (l_max_stream_data (e_receive_growth_limits e) <=? sat_mul packet_size 2) |>
      <| e_credit_inflight_stream_count := 0%nat |>
      <| e_credit_inflight_max_streams_bidi := false |>
  else
    let e := e <| e_pending_stream_ids ::= drop (Nat.min (e_credit_inflight_stream_count e)
                                                  (length (e_pending_stream_ids e))) |> in
    let e := if e_credit_inflight_max_streams_bidi e
             then e <| e_max_streams_bidi_pending := false |> else e in
    let e := e <| e_credit_inflight_stream_count := 0%nat |>
               <| e_credit_inflight_max_streams_bidi := false |> in
    let pending := negb (bool_decide (e_pending_stream_ids e = [])) || e_max_streams_bidi_pending e in
    let e := e <| e_credit_pending := pending |> in
    if pending then e <| e_control_pending := true |> else e.

Definition acknowledge_credit (acknowledged : Z -> bool) (e : EndpointState) : EndpointState :=
  if credit_acknowledged acknowledged e then retire_publication e else e.
End credit.
End Credit.
