(* ===== verification/Ledger.v ===== *)
(** * The transmission ledger

    [EndpointState::sent_packets] ([src/crates/quic-lite/src/lib.rs]) records
    every transmission until it is acknowledged or its data is delivered by
    another copy.  This file models the events that move records and the
    per-path flight with them: bearer results ([packet_submission_blocked],
    [packet_submission_accepted], [packet_submission_failed]), suspension and
    removal of a path, the congestion history and persistent congestion, loss by
    acknowledgement gaps or time ([detect_ack_losses], [mark_lost]), and the ACK
    handler [apply_ack_ranges_on_path].  The theorems about the flight are in
    [Flight.v]. *)

From S2P Require Import Prelude Records Methods Wire PacketHeader Keyed AckRanges Frames FlowControl Congestion PathState SendBuffer Endpoint Credit.

Module Ledger.
Section ledger.
Context `{Allocator, PacketSize, Features}.

Definition ledger : Type := list (option SentPacket).

(** [iter().position(|slot| slot.is_some_and(|s| s.packet_number == pn))] *)
Fixpoint slot_of (pn : Z) (l : ledger) : option (nat * SentPacket) :=
  match l with
  | [] => None
  | Some s :: l' =>
      if sp_packet_number s =? pn then Some (0%nat, s)
      else match slot_of pn l' with Some (i, s') => Some (S i, s') | None => None end
  | None :: l' => match slot_of pn l' with Some (i, s') => Some (S i, s') | None => None end
  end.

Definition put_slot (i : nat) (s : option SentPacket) (e : EndpointState) : EndpointState :=
  e <| e_sent_packets ::= <[i := s]> |>.

(** [iter_mut().rev().find(|event| event.packet_number == pn)] and an update. *)
Fixpoint update_last (pn : Z) (f : CongestionHistoryPacket -> CongestionHistoryPacket)
    (l : list CongestionHistoryPacket) : option (list CongestionHistoryPacket) :=
  match l with
  | [] => None
  | x :: l' =>
      match update_last pn f l' with
      | Some l'' => Some (x :: l'')
      | None => if h_packet_number x =? pn then Some (f x :: l') else None
      end
  end.

Definition history_update (pn : Z) (f : CongestionHistoryPacket -> CongestionHistoryPacket)
    (p : PathState) : PathState :=
  p <| congestion_history ::= fun l => default l (update_last pn f l) |>.

Definition h_set_accepted (sent_at : Z) (had : bool) (h : CongestionHistoryPacket) :=
  mkHistoryPacket (h_packet_number h) sent_at true (h_acked h) (h_lost h) had (h_excluded h).
Definition h_set_blocked (h : CongestionHistoryPacket) :=
  mkHistoryPacket (h_packet_number h) (h_sent_at h) false (h_acked h) (h_lost h)
    (h_had_rtt_sample h) (h_excluded h).
Definition h_set_lost (h : CongestionHistoryPacket) :=
  mkHistoryPacket (h_packet_number h) (h_sent_at h) (h_accepted h) (h_acked h) true
    (h_had_rtt_sample h) (h_excluded h).
Definition h_set_excluded (h : CongestionHistoryPacket) :=
  mkHistoryPacket (h_packet_number h) (h_sent_at h) (h_accepted h) (h_acked h) (h_lost h)
    (h_had_rtt_sample h) true.
Definition h_set_acked (h : CongestionHistoryPacket) :=
  mkHistoryPacket (h_packet_number h) (h_sent_at h) (h_accepted h) true (h_lost h)
    (h_had_rtt_sample h) (h_excluded h).

(** *** Bearer results *)
Definition last_accepted (l : list CongestionHistoryPacket) : option Z :=
  h_packet_number <$> last (List.filter h_accepted l).

Definition largest_sent_is (p : PathState) (pn : Z) : bool :=
  match largest_sent_packet p with Some x => x =? pn | None => false end.

Definition packet_submission_blocked (pn : Z) (e : EndpointState) : bool * EndpointState :=
  match slot_of pn (e_sent_packets e) with
  | None => (false, e)
  | Some (i, sent) =>
      let e := if sp_accepted sent
               then upd_path (sp_path_id sent)
                      (upd_congestion (fun c => CC.remove_in_flight c (sp_bytes sent))) e
               else e in
      let e := upd_path (sp_path_id sent) (fun p =>
                 if largest_sent_is p pn
                 then p <| largest_sent_packet := last_accepted (congestion_history p) |> else p) e in
      let e := put_slot i (Some (sent <| sp_accepted := false |>)) e in
      (true, upd_path (sp_path_id sent) (history_update pn h_set_blocked) e)
  end.

(** The window test used for every transmission. *)
Definition limited_by_window (c : CongestionController) (bytes : Z) : bool :=
  congestion_window c <? sat_add (sat_add (bytes_in_flight c) bytes) (max_packet_size c).

(** The duplication budget when a record is first accepted. *)
Definition commit_budget (sent : SentPacket) (e : EndpointState) : EndpointState :=
  let e :=
    if negb (sp_duplication_charge sent =? 0) then
      e <| e_duplication_reserved_bytes ::= fun r => sat_sub r (sp_duplication_charge sent) |>
        <| e_duplication_credit_bytes ::= fun c => sat_sub c (sp_duplication_charge sent) |>
    else if (sp_logical_packet_number sent =? sp_packet_number sent)
            && bool_decide (sp_probe_token sent = None) && negb (sp_path_probe sent) then
      let total := sp_bytes sent + e_duplication_credit_remainder e in
      e <| e_duplication_credit_remainder := as_u8 (total mod 10) |>
        <| e_duplication_credit_bytes ::= fun c =>
             Z.min (sat_add c (total / 10)) (e_duplication_budget_capacity e) |>
    else e in
  if sp_path_probe sent then
    if negb (sp_duplication_charge sent =? 0)
    then upd_path (sp_path_id sent) (fun p =>
           p <| probe_bytes_budgeted ::= fun n => sat_add n (sp_bytes sent) |>) e
    else if sp_probe_idle_exempt sent
    then upd_path (sp_path_id sent) (fun p =>
           p <| probe_bytes_idle_exempt ::= fun n => sat_add n (sp_bytes sent) |>) e
    else e
  else e.

(** The flight added by a first acceptance. *)
Definition accept_flight (sent : SentPacket) (e : EndpointState) : SentPacket * EndpointState :=
  if sp_accepted sent then (sent, e)
  else
    let limited := match get_path e (sp_path_id sent) with
                   | Some p => limited_by_window (path_congestion p) (sp_bytes sent)
                   | None => false
                   end in
    (sent <| sp_window_limited := limited |> <| sp_accepted := true |>,
     upd_path (sp_path_id sent)
       (upd_congestion (fun c => CC.on_retransmission_sent c (sp_bytes sent))) e).

Definition packet_submission_accepted (pn now_us : Z) (e : EndpointState) : bool * EndpointState :=
  match slot_of pn (e_sent_packets e) with
  | None => (false, e)
  | Some (i, sent) =>
      let '(sent, e) := accept_flight sent e in
      let sent := sent <| sp_sent_at := now_us |> in
      let e := if sp_duplication_budget_committed sent then e else commit_budget sent e in
      let sent := sent <| sp_duplication_budget_committed := true |> in
      let e := put_slot i (Some sent) e in
      (true, upd_path (sp_path_id sent) (fun p =>
         let p := match sp_probe_token sent with
                  | Some token => PathOps.update_probe_submission_time p token now_us
                  | None => p
                  end in
         let had := bool_decide (Rtt.latest (path_rtt p) <> None) in
         history_update pn (h_set_accepted now_us had) (p <| largest_sent_packet := Some pn |>)) e)
  end.

(** The FIN of a record is still to be acknowledged. *)
Definition fin_pending (e : EndpointState) (sent : SentPacket) : bool :=
  sp_fin sent
  && match sp_send_buffer_slot sent ≫= fun slot => e_send_buffer e !! slot with
     | Some (Some r) => fin r && negb (fin_acked r)
     | _ => false
     end.

(** [(!sent.data_delivered || fin_pending).then_some(sent)] *)
Definition keep_lost (e : EndpointState) (sent : SentPacket) : option SentPacket :=
  if negb (sp_data_delivered sent) || fin_pending e sent then Some sent else None.

Definition packet_submission_failed (pn : Z) (e : EndpointState) : bool * EndpointState :=
  match slot_of pn (e_sent_packets e) with
  | None => (false, e)
  | Some (i, sent) =>
      if negb (sp_accepted sent) || sp_lost sent then (false, e) else
      let e := if negb (sp_duplication_budget_committed sent)
                  && negb (sp_duplication_charge sent =? 0)
               then e <| e_duplication_reserved_bytes ::= fun r =>
                           sat_sub r (sp_duplication_charge sent) |>
               else e in
      let e := upd_path (sp_path_id sent) (fun p =>
                 history_update pn h_set_excluded
                   (upd_congestion (fun c => CC.remove_in_flight c (sp_bytes sent)) p)) e in
      (true, upd_stats (fun t => t <| t_submission_failures ::= fun n => sat_add n 1 |>)
               (put_slot i (keep_lost e (sent <| sp_lost := true |>)) e))
  end.

(** *** Suspension and removal of a path *)
Definition suspend_slot (i : nat) (acc : ledger * PathState) (s : option SentPacket)
    : ledger * PathState :=
  match s with
  | Some sent =>
      if negb (sp_path_id sent =? i)%nat || negb (sp_accepted sent) || sp_lost sent
      then (acc.1 ++ [s], acc.2)
      else (acc.1 ++ [Some (sent <| sp_lost := true |>)],
            history_update (sp_packet_number sent) h_set_excluded
              (upd_congestion (fun c => CC.remove_in_flight c (sp_bytes sent)) acc.2))
  | None => (acc.1 ++ [None], acc.2)
  end.

Definition suspend_path (i : nat) (e : EndpointState) : EndpointState :=
  match get_path e i with
  | None => e
  | Some p =>
      let '(l, p) := fold_left (suspend_slot i) (e_sent_packets e) ([], p) in
      upd_path i (fun _ => PathOps.mark_suspended p) (e <| e_sent_packets := l |>)
  end.

Definition on_path (i : nat) (s : option SentPacket) : bool :=
  match s with Some sent => (sp_path_id sent =? i)%nat | None => false end.

Definition remove_path_state (i : nat) : ep unit := fun e =>
  if (i =? 0)%nat || (length (e_paths e) <=? i)%nat then (Err Error.PathLimit, e) else
  if existsb (on_path i) (e_sent_packets e) then (Err Error.Blocked, e) else
  (Ok tt, e <| e_paths ::= delete i |>
            <| e_sent_packets ::= fmap (fmap (M:=option) (fun sent =>
                 if (i <? sp_path_id sent)%nat
                 then sent <| sp_path_id ::= pred |> else sent)) |>).

(** The block of [QuicNode::resume_circuit] ([node.rs]) on the path. *)
Definition resume_path (i : nat) (address : Address) (now_us : Z) (e : EndpointState)
    : EndpointState :=
  upd_path i (fun p =>
    PathOps.schedule_probe
      (PathOps.reset_recovery_for_resumption
         (PathOps.mark_probing (PathOps.remember_address p address))) now_us) e.

(** *** Congestion history *)
Definition push_history (limit : nat) (h : CongestionHistoryPacket)
    (l : list CongestionHistoryPacket) : list CongestionHistoryPacket :=
  drop (S (length l) - limit) l ++ [h].

Definition record_congestion_packet (i : nat) (pn sent_at packet_bytes : Z) (duplicated stream_packet : bool)
    (e : EndpointState) : EndpointState :=
  upd_path i (fun p =>
    let had := bool_decide (Rtt.latest (path_rtt p) <> None) in
    let p := p <| congestion_history ::= push_history (e_transmission_limit e)
                    (mkHistoryPacket pn sent_at true false false had false) |> in
    let p := if stream_packet then p <| packets_sent ::= fun n => sat_add n 1 |> else p in
    let p := if duplicated
             then p <| packets_duplicated ::= fun n => sat_add n 1 |>
                    <| duplicate_bytes_prepared ::= fun n => sat_add n packet_bytes |>
             else p in
    p <| largest_sent_packet := Some pn |>) e.

(** A lost event that can bound a persistent-congestion period. *)
Definition loss_evidence (h : CongestionHistoryPacket) : bool :=
  h_accepted h && negb (h_excluded h) && negb (h_acked h) && h_lost h && h_had_rtt_sample h.

Definition acked_between (start end_ : CongestionHistoryPacket) (h : CongestionHistoryPacket) : bool :=
  h_accepted h && negb (h_excluded h) && h_acked h
  && (h_sent_at start <? h_sent_at h) && (h_sent_at h <? h_sent_at end_).

Definition declares (duration : Z) (already : option Z) (history : list CongestionHistoryPacket)
    (start end_ : CongestionHistoryPacket) : bool :=
  loss_evidence end_
  && (duration <? sat_sub (h_sent_at end_) (h_sent_at start))
  && negb (match already with Some packet => h_packet_number end_ <=? packet | None => false end)
  && negb (existsb (acked_between start end_) history).

(** The two nested loops: the first [start], and for it the first [end]. *)
Fixpoint persistent_period (duration : Z) (already : option Z)
    (history suffix : list CongestionHistoryPacket) : option Z :=
  match suffix with
  | [] => None
  | start :: rest =>
      let here := if loss_evidence start
                  then h_packet_number <$> List.find (declares duration already history start) rest
                  else None in
      match here with
      | Some pn => Some pn
      | None => persistent_period duration already history rest
      end
  end.

Definition persistent_duration (p : PathState) (peer_max_ack_delay_us : Z) : Z :=
  sat_mul (sat_add (Rtt.pto (path_rtt p)) peer_max_ack_delay_us) 3.

Definition detect_persistent_congestion (i : nat) (e : EndpointState) : EndpointState :=
  match get_path e i with
  | None => e
  | Some p =>
      match Rtt.latest (path_rtt p) with
      | None => e
      | Some _ =>
          match persistent_period (persistent_duration p (e_peer_max_ack_delay_us e))
                  (persistent_congestion_end p) (congestion_history p) (congestion_history p) with
          | None => e
          | Some end_packet =>
              upd_path i (fun p =>
                upd_congestion (fun c =>
                  CC.on_persistent_congestion c (sat_sub (e_next_packet_number e) 1)) p
                  <| persistent_congestion_end := Some end_packet |>) e
          end
      end
  end.

(** *** Loss detection *)

(** What one turn of the first loop of [detect_ack_losses] decides. *)
Definition loss_candidate (i : nat) (largest_acked : Z) (sent : SentPacket) : bool :=
  sp_accepted sent && negb (sp_lost sent) && (sp_path_id sent =? i)%nat
  && (sp_send_order sent <? largest_acked).

Definition threshold_lost (packet_threshold largest_acked : Z) (sent : SentPacket) : bool :=
  sat_add (sp_send_order sent) packet_threshold <=? largest_acked.

Definition time_lost (clock time_threshold : Z) (sent : SentPacket) : bool :=
  time_threshold <=? sat_sub clock (sp_sent_at sent).

Record LossRun : Type := mkLossRun {
  lr_path : PathState;
  lr_stats : TransportStats;
  lr_bytes : Z;
  lr_largest : option Z;
}.

Definition option_max (o : option Z) (v : Z) : option Z :=
  Some (match o with Some x => Z.max x v | None => v end).

Definition mark_inferred (sent : SentPacket) : SentPacket :=
  sent <| sp_lost := true |> <| sp_inferred_lost := true |>.

(** The path bookkeeping of an inferred loss. *)
Definition count_lost (sent : SentPacket) (now : Z) (p : PathState) : PathState :=
  history_update (sp_packet_number sent) h_set_lost
    (PathOps.record_delivery_outcome (p <| packets_lost ::= fun n => sat_add n 1 |>) false now).

Definition loss_step (i : nat) (largest_acked packet_threshold time_threshold clock : Z)
    (s : option SentPacket) (acc : LossRun) : option SentPacket * LossRun :=
  match s with
  | None => (None, acc)
  | Some sent =>
      let by_packet := threshold_lost packet_threshold largest_acked sent in
      if loss_candidate i largest_acked sent && (by_packet || time_lost clock time_threshold sent)
      then (Some (mark_inferred sent),
            mkLossRun (count_lost sent clock (lr_path acc))
              (if by_packet
               then (lr_stats acc) <| t_loss_packet_threshold_packets ::= fun n => sat_add n 1 |>
               else (lr_stats acc) <| t_loss_time_threshold_packets ::= fun n => sat_add n 1 |>)
              (sat_add (lr_bytes acc) (sp_bytes sent))
              (option_max (lr_largest acc) (sp_logical_packet_number sent)))
      else (s, acc)
  end.

(** A loop over the slots of the ledger, with an accumulator. *)
Fixpoint slots_loop {A} (step : option SentPacket -> A -> option SentPacket * A)
    (l : ledger) (acc : A) : ledger * A :=
  match l with
  | [] => ([], acc)
  | s :: l' =>
      let '(s', acc) := step s acc in
      let '(l'', acc) := slots_loop step l' acc in
      (s' :: l'', acc)
  end.

(** The second loop: lost records whose data is delivered are dropped. *)
Definition drop_delivered (e : EndpointState) (i : nat) (s : option SentPacket) : option SentPacket :=
  match s with
  | Some sent =>
      if (sp_path_id sent =? i)%nat && sp_lost sent && sp_data_delivered sent
         && negb (fin_pending e sent)
      then None else s
  | None => None
  end.

(** [on_packet_lost] with the recovery bound both loss entry points use. *)
Definition congestion_loss (e : EndpointState) (lost_bytes largest_lost : Z) (p : PathState)
    : PathState :=
  let largest_sent := default (sat_sub (e_next_packet_number e) 1) (largest_sent_packet p) in
  upd_congestion (fun c => CC.on_packet_lost c lost_bytes largest_lost largest_sent) p.

Definition detect_ack_losses (i : nat) (largest_acked : option Z) (e : EndpointState)
    : EndpointState :=
  match largest_acked, get_path e i with
  | Some largest_acked, Some p =>
      let '(l, r) := slots_loop
        (loss_step i largest_acked (packet_reordering_threshold (transport p))
           (Path.loss_delay_us (transport p) (e_peer_max_ack_delay_us e)) (path_clock p))
        (e_sent_packets e) (mkLossRun p (e_stats e) 0 None) in
      let e := upd_path i (fun _ => lr_path r) (e <| e_sent_packets := l |> <| e_stats := lr_stats r |>) in
      let e := e <| e_sent_packets ::= fmap (drop_delivered e i) |> in
      match lr_largest r with
      | None => e
      | Some largest_lost =>
          upd_path i (congestion_loss e (lr_bytes r) largest_lost)
            (upd_stats (fun t => t <| t_loss_events ::= fun n => sat_add n 1 |>) e)
      end
  | _, _ => e
  end.

Definition mark_lost (pn : Z) (e : EndpointState) : bool * EndpointState :=
  match slot_of pn (e_sent_packets e) with
  | None => (false, e)
  | Some (slot, sent) =>
      if negb (sp_accepted sent) || sp_lost sent then (false, e) else
      let sent := mark_inferred sent in
      let e := upd_path (sp_path_id sent) (fun p => count_lost sent (path_clock p) p) e in
      let e := put_slot slot (keep_lost e sent) e in
      (true, upd_path (sp_path_id sent)
               (congestion_loss e (sp_bytes sent) (sp_logical_packet_number sent)) e)
  end.

(** *** The ACK handler *)

(** What the retirement loop collects. *)
Record AckRun : Type := mkAckRun {
  ar_paths : list PathState;
  ar_rtt_candidate : option (Z * option Z);
  ar_progress : list bool;
  ar_growth : list Z;
  ar_fins : list (Z * Z);
  ar_data : list (Z * Z * Z);
  ar_status : list (CircuitKey * Z);
  ar_newly_acked : bool;
  ar_floor : Z;
}.

(** The bookkeeping of one acknowledged record on its path, flight excepted. *)
Definition count_acked (sent : SentPacket) (p : PathState) : PathState :=
  let p := if sp_inferred_lost sent
           then p <| transport ::= fun t =>
                       Path.record_spurious_loss_ack t (sp_send_order sent) (sp_sent_at sent) |>
           else p in
  let p := PathOps.record_delivery_outcome (p <| packets_acked ::= fun n => sat_add n 1 |>) true
             (path_clock p) in
  let p := p <| last_ack_us := path_clock p |> in
  p <| largest_acked_packet ::= fun o => option_max o (sp_packet_number sent) |>
    <| transport ::= fun t =>
         mkPathTransport (congestion t) (rtt t) (pacing_config t) (pacing_byte_tokens_q16 t)
           (pacing_packet_tokens_q16 t) (pacing_last_refill_us t) (pacing_deadline_us t)
           (send_clock t) (option_max (largest_acked_send_order t) (sp_send_order sent))
           (spurious_losses t) (packet_reordering_threshold t) (loss_time_ratio_q16 t) |>.

Definition after_recovery (sent : SentPacket) (c : CongestionController) : bool :=
  match recovery_start_packet c with Some start => start <? sp_packet_number sent | None => true end.

(** [rtt_candidate] after this record. *)
Definition rtt_sample (sent : SentPacket) (ingress : nat) (clock : Z)
    (o : option (Z * option Z)) : option (Z * option Z) :=
  if sp_rtt_eligible sent && (sp_path_id sent =? ingress)%nat
     && match o with Some (packet, _) => packet <? sp_packet_number sent | None => true end
  then Some (sp_packet_number sent,
             if sp_lost sent then None else Some (sat_sub clock (sp_sent_at sent)))
  else o.

(** [acknowledged] is the set of packet numbers of the ACK. *)
Definition ack_step (acknowledged : Z -> bool) (ingress : nat) (s : option SentPacket) (acc : AckRun)
    : option SentPacket * AckRun :=
  match s with
  | None => (None, acc)
  | Some sent =>
      if negb (sp_accepted sent && acknowledged (sp_packet_number sent)) then (s, acc) else
      let i := sp_path_id sent in
      let paths := alter (count_acked sent) i (ar_paths acc) in
      let clock := match paths !! i with Some p => path_clock p | None => 0 end in
      let grows := match paths !! i with
                   | Some p => negb (sp_lost sent) && sp_window_limited sent
                               && after_recovery sent (path_congestion p)
                   | None => false
                   end in
      let has_data := bool_decide (sp_send_buffer_slot sent <> None) in
      (None,
       mkAckRun
         (if sp_lost sent then paths
          else alter (upd_congestion (fun c => CC.on_ack_with_growth c (sp_bytes sent) false)) i paths)
         (rtt_sample sent ingress clock (ar_rtt_candidate acc))
         (<[i := true]> (ar_progress acc))
         (if grows then alter (fun n => sat_add n (sp_bytes sent)) i (ar_growth acc)
          else ar_growth acc)
         (if has_data && sp_fin sent
          then ar_fins acc ++ [(sp_stream_id sent, sp_offset sent + sp_data_len sent)]
          else ar_fins acc)
         (if has_data
          then ar_data acc ++ [(sp_stream_id sent, sp_offset sent, sp_data_len sent)]
          else ar_data acc)
         (match sp_path_status sent with Some st => ar_status acc ++ [st] | None => ar_status acc end)
         true
         (match sp_ack_largest_received sent with
          | Some largest => Z.max (ar_floor acc) largest
          | None => ar_floor acc
          end))
  end.

Definition ack_start (e : EndpointState) : AckRun :=
  mkAckRun (e_paths e) None (replicate 4 false) (replicate 4 0) [] [] [] false
    (e_receive_packet_floor e).

(** Retirement of own received ranges once the peer has seen their ACK. *)
Definition retire_received (floor : Z) (e : EndpointState) : EndpointState :=
  if ACK_RANGE_CAPACITY / 2 <=? Ranges.len (e_received_packets e) then
    let floor := Z.max (Z.max (floor - ACK_RANGE_CAPACITY * 2) 0) (e_receive_packet_floor e) in
    e <| e_receive_packet_floor := floor |>
      <| e_received_packets ::= fun l => Ranges.discard_below l floor |>
  else e.

Definition acknowledge_path_status (e : EndpointState) (st : CircuitKey * Z) : EndpointState :=
  match Ep.path_with_key e st.1 with
  | Some i => upd_path i (fun p => PathOps.acknowledge_status p st.2) e
  | None => e
  end.

(** Acknowledged transmissions of a range other than the ones still recorded. *)
Definition prior_acked (acknowledged : Z -> bool) (r : RetainedSendRange) : list PriorPacketLineage :=
  List.filter (fun prior => acknowledged (pp_packet_number prior))
    (take (Z.to_nat (prior_packet_count r)) (prior_packets r)).

Definition all_prior_acked (acknowledged : Z -> bool) (buf : list (option RetainedSendRange))
    : list (Z * PriorPacketLineage) :=
  concat (map (fun s => match s with
                        | Some r => map (fun prior => (stream_id r, prior)) (prior_acked acknowledged r)
                        | None => []
                        end) buf).

(** The records after the data of an ACK has been applied to [buf]. *)
Definition settle_slot (buf : list (option RetainedSendRange)) (s : option SentPacket)
    : option SentPacket :=
  match s with
  | None => None
  | Some sent =>
      match sp_send_buffer_slot sent with
      | None => s
      | Some range_index =>
          let delivered := match buf !! range_index with
                           | Some (Some r) => all_data_acknowledged r
                           | _ => true
                           end in
          let fin_done := match buf !! range_index with
                          | Some (Some r) => negb (fin r) || fin_acked r
                          | _ => true
                          end in
          if delivered then
            if fin_done then
              if sp_lost sent then None
              else Some (sent <| sp_data_delivered := true |> <| sp_send_buffer_slot := None |>)
            else Some (sent <| sp_data_delivered := true |>)
          else s
      end
  end.

(** [sort_unstable] and [dedup] of the FINs. *)
Definition fin_le (a b : Z * Z) : bool := (a.1 <? b.1) || ((a.1 =? b.1) && (a.2 <=? b.2)).
Fixpoint insert_fin (f : Z * Z) (l : list (Z * Z)) : list (Z * Z) :=
  match l with
  | [] => [f]
  | g :: l' => if fin_le f g then f :: l else g :: insert_fin f l'
  end.
Fixpoint dedup_fins (l : list (Z * Z)) : list (Z * Z) :=
  match l with
  | f :: ((g :: _) as l') => if bool_decide (f = g) then dedup_fins l' else f :: dedup_fins l'
  | _ => l
  end.
Definition sorted_fins (l : list (Z * Z)) : list (Z * Z) := dedup_fins (fold_right insert_fin [] l).

Definition end_pto_episodes (progress : list bool) (paths : list PathState) : list PathState :=
  imap (fun i p => if default false (progress !! i)
                   then p <| last_pto_probe_at := None |> <| pto_backoff := 0 |> else p) paths.

(** The RTT sample, less the delay the peer reported. *)
Definition apply_rtt_sample (reported_ack_delay : Z) (ingress : nat) (o : option (Z * option Z))
    (e : EndpointState) : EndpointState :=
  match o with
  | Some (_, Some sample) =>
      let ack_delay := Z.min reported_ack_delay (e_peer_max_ack_delay_us e) in
      upd_path ingress (fun p =>
        let now := path_clock p in
        let adjusted := match Rtt.minimum_at (path_rtt p) now with
                        | Some minimum => if sat_add minimum ack_delay <? sample
                                          then sat_sub sample ack_delay else sample
                        | None => sample
                        end in
        PathOps.update_rtt p adjusted now) e
  | _ => e
  end.

Definition mark_history_acked (acknowledged : Z -> bool) (p : PathState) : PathState :=
  p <| congestion_history ::= map (fun h =>
         if h_accepted h && acknowledged (h_packet_number h) then h_set_acked h else h) |>.

(** The losses and persistent congestion of every path, in order. *)
Definition detect_losses_on_path (e : EndpointState) (i : nat) : EndpointState :=
  detect_persistent_congestion i
    (detect_ack_losses i (get_path e i ≫= fun p => largest_acked_send_order (transport p)) e).

Definition detect_all_losses (e : EndpointState) : EndpointState :=
  fold_left detect_losses_on_path (seq 0 (length (e_paths e))) e.

(** The retirement loop and what follows up to the send buffer. *)
Definition retire_acked (acknowledged : Z -> bool) (ingress : nat) (e : EndpointState)
    : AckRun * EndpointState :=
  let '(l, r) := slots_loop (ack_step acknowledged ingress) (e_sent_packets e) (ack_start e) in
  let e := e <| e_sent_packets := l |> <| e_paths := ar_paths r |> in
  let e := retire_received (ar_floor r) e in
  let e := e <| e_paths ::= fun paths => apply_ack_congestion_growth paths (ar_growth r) |> in
  (r, fold_left acknowledge_path_status (ar_status r) e).

Definition apply_ack_ranges_on_path (acknowledged : AckRanges) (reported_ack_delay : Z)
    (ingress : nat) : ep unit := fun e =>
  if Ranges.len acknowledged =? 0 then (Err Error.Invalid, e) else
  let acked := Ranges.contains acknowledged in
  let e := e <| e_peer_ack_ranges := acknowledged |>
             <| e_paths ::= map (mark_history_acked acked) |> in
  let e := Credit.acknowledge_credit acked e in
  let e := e <| e_largest_acked_by_peer := r_end <$> Ranges.get acknowledged 0 |> in
  let '(r, e) := retire_acked acked ingress e in
  let prior := all_prior_acked acked (e_send_buffer e) in
  let data := ar_data r ++ map (fun '(sid, p) => (sid, pp_offset p, pp_data_len p)) prior in
  let fins := ar_fins r ++ map (fun '(sid, p) => (sid, pp_offset p + pp_data_len p))
                             (List.filter (fun '(_, p) => pp_fin p) prior) in
  match mark_batch data (e_send_buffer e) with
  | Err err => (Err err, e)
  | Panic => (Panic, e)
  | Ok buf =>
      let buf := fin_pass fins buf in
      let e := e <| e_sent_packets ::= map (settle_slot buf) |>
                 <| e_send_buffer := map (fun s => s ≫= retire_slot) buf |> in
      let e := fold_left (fun e f => Credit.try_retire_stream f.1 e) (sorted_fins fins) e in
      let e := if ar_newly_acked r || negb (bool_decide (prior = []))
               then e <| e_paths ::= end_pto_episodes (ar_progress r) |> else e in
      (Ok tt, detect_all_losses (apply_rtt_sample reported_ack_delay ingress (ar_rtt_candidate r) e))
  end.
End ledger.
End Ledger.
