(* ===== verification/Transmit.v ===== *)
(** * Transmission

    The methods of [EndpointState] ([src/crates/quic-lite/src/lib.rs]) that put a
    packet on the wire and record it in the ledger: fresh STREAM packets
    ([encode_stream_packet_on_path_inner]), probes and path control
    ([encode_probe_packet], [encode_path_control_packet_inner]), and the connection
    close ([poll_close]).  Copies, retransmissions and the bearer timer are in
    [Retransmit.v], datagrams in [Datagram.v].  An output slice is its capacity [cap] and the
    packet is returned as its bytes. *)

From S2P Require Import Prelude Records Methods Wire PacketHeader Keyed AckRanges Frames FlowControl Congestion PathState SendBuffer Endpoint Credit Ledger.

(** [self.paths\[i\].f()] for a checked index. *)
Definition on_path {A} (i : nat) (f : PathState -> res A * PathState) : ep A := fun e =>
  match get_path e i with
  | None => (Panic, e)
  | Some p => let '(o, p') := f p in (o, upd_path i (fun _ => p') e)
  end.

(** The pacer and the congestion controller of a path. *)
Definition with_transport {A} (f : PathTransport -> A * PathTransport) (p : PathState) : res A * PathState :=
  let '(a, t) := f (transport p) in (Ok a, p <| transport := t |>).
Definition with_congestion {A} (f : CongestionController -> A * CongestionController) (p : PathState)
    : res A * PathState :=
  let '(a, c) := f (path_congestion p) in (Ok a, upd_congestion (fun _ => c) p).
Definition with_send_order (p : PathState) : res Z * PathState :=
  match PathOps.assign_send_order p with
  | Ok (order, p') => (Ok order, p')
  | Err err => (Err err, p)
  | Panic => (Panic, p)
  end.

Definition can_send_paced_on (i : nat) (n : Z) : ep bool :=
  on_path i (fun p => with_transport (fun t => Path.can_send_paced t n (path_clock p)) p).
Definition reserve_pacing_on (i : nat) (n : Z) : ep bool :=
  on_path i (fun p => with_transport (fun t => Path.try_reserve_pacing t n (path_clock p)) p).
Definition packet_sent_on (i : nat) (n : Z) : ep bool :=
  on_path i (with_congestion (fun c => CC.on_packet_sent c n)).

(** [Option::is_none] at the first of the first [limit] slots. *)
Definition free_slot {A} (limit : nat) (l : list (option A)) : option nat :=
  Credit.first_index (fun s => match s with None => true | Some _ => false end) (take limit l).

Module Transmit.
Section transmit.
Context `{Allocator, PacketSize, Features}.

Definition path_can_send (e : EndpointState) (i : nat) (n : Z) : bool :=
  match get_path e i with Some p => CC.can_send (path_congestion p) n | None => false end.

Definition path_window_limited (e : EndpointState) (i : nat) (n : Z) : bool :=
  match get_path e i with
  | Some p => Ledger.limited_by_window (path_congestion p) n
  | None => false
  end.

Definition clock_of (e : EndpointState) (i : nat) : Z :=
  match get_path e i with Some p => path_clock p | None => 0 end.

(** The record of a new transmission: accepted, not lost. *)
Definition new_record (pn order bytes logical charge sent_at : Z) (i : nat) (limited : bool) : SentPacket :=
  mkSentPacket pn None i order bytes 0 0 0 false false false false None None None false logical charge
    false sent_at true limited false false false.

Definition next_pn (next : Z) (e : EndpointState) : EndpointState := e <| e_next_packet_number := next |>.

Definition record_sent (slot : nat) (sent : SentPacket) (duplicated stream_packet : bool)
    (e : EndpointState) : EndpointState :=
  Ledger.record_congestion_packet (sp_path_id sent) (sp_packet_number sent)
    (clock_of e (sp_path_id sent)) (sp_bytes sent) duplicated stream_packet
    (Ledger.put_slot slot (Some sent) e).

(** *** Fresh STREAM packets *)

(** Checks and encoding, up to the control frames. *)
Definition build_stream_packet (e : EndpointState) (i : nat) (destination sid off : Z) (fin_ : bool)
    (data : bytes) (cap : Z) : res (bytes * option EncodedControlFrames) :=
  _ ← guard_err (length (e_paths e) <=? i)%nat Error.PathLimit;
  _ ← guard_err (match Ep.peer_connection_id_on_path e i with
                 | Some peer => negb (destination =? peer)
                 | None => false
                 end) Error.WrongConnectionId;
  _ ← guard_err (packet_size <? zlen data) Error.RetransmissionTooLarge;
  _ ← guard_err (e_peer_max_in_flight_packets e <=? Ep.in_flight_packet_count e) Error.Blocked;
  h ← Credit.packet_header e destination (Ep.next_packet_number_len e) cap;
  prefix ← encode_stream_prefix (mkStreamFrame sid off fin_ data) (cap - zlen h);
  let body := h ++ prefix ++ data in
  _ ← guard_err (cap <? zlen body) Error.BufferTooSmall;
  control ← Credit.encode_control_frames_on_path e i (cap - zlen body) true;
  match control with
  | Some (control, b) => Ok (body ++ b, Some control)
  | None => Ok (body, None)
  end.

(** The free slots of the send buffer and the ledger, and the byte limit. *)
Definition stream_slots (e : EndpointState) (n : Z) : res (nat * nat) :=
  range_slot ← ok_or (free_slot (e_history_limit e) (e_send_buffer e)) Error.HistoryFull;
  slot ← ok_or (free_slot (e_transmission_limit e) (e_sent_packets e)) Error.HistoryFull;
  _ ← guard_err (e_send_buffer_limit_bytes e <? sat_add (Ep.allocated_payload_bytes e) n)
        Error.HistoryFull;
  Ok (range_slot, slot).

(** Allocation of the retained copy and of the acknowledgement bitmap. *)
Definition stream_memory (retain : bool) (data : bytes) : bool :=
  (negb retain || try_reserve (length data)) && try_reserve (Z.to_nat (div_ceil (zlen data) 64)).

Definition stream_record (e : EndpointState) (i range_slot : nat) (sid off : Z) (fin_ : bool)
    (data : bytes) (packet : bytes) (control : option EncodedControlFrames) (order : Z)
    (limited : bool) : SentPacket :=
  (new_record (e_next_packet_number e) order (zlen packet) (e_next_packet_number e) 0 (clock_of e i)
     i limited)
    <| sp_ack_largest_received :=
         match control with
         | Some c => if ack c then Ep.largest_received e else None
         | None => None
         end |>
    <| sp_stream_id := sid |> <| sp_offset := off |> <| sp_data_len := zlen data |>
    <| sp_fin := fin_ |> <| sp_send_buffer_slot := Some range_slot |> <| sp_rtt_eligible := true |>.

Definition count_stream_packet (t : TransportStats) : TransportStats :=
  t <| t_sent_packets ::= Z.succ |> <| t_sent_stream_packets ::= Z.succ |>.

Definition encode_stream_packet_on_path_inner (i : nat) (destination sid off : Z) (fin_ : bool)
    (data : bytes) (cap : Z) (retain : bool) : ep (bytes * Z) :=
  '(packet, control) ← gets_res (fun e => build_stream_packet e i destination sid off fin_ data cap);
  '(range_slot, slot) ← gets_res (fun e => stream_slots e (zlen data));
  fits ← gets (fun e => path_can_send e i (zlen packet));
  _ ← refuse_if (negb fits) Error.Blocked;
  paced ← can_send_paced_on i (zlen packet);
  _ ← refuse_if (negb paced) Error.Blocked;
  _ ← refuse_if (negb (stream_memory retain data)) Error.HistoryFull;
  next ← gets_res Ep.checked_next_packet_number;
  reserved ← reserve_pacing_on i (zlen packet);
  _ ← refuse_if (negb reserved) Error.Blocked;
  _ ← on_field_res e_send (fun s => Send.reserve s sid off (zlen data));
  limited ← gets (fun e => path_window_limited e i (zlen packet));
  sent ← packet_sent_on i (zlen packet);
  _ ← refuse_if (negb sent) Error.Blocked;
  order ← on_path i with_send_order;
  pn ← gets e_next_packet_number;
  _ ← modify (fun e =>
        record_sent slot (stream_record e i range_slot sid off fin_ data packet control order limited)
          false true
          (next_pn next e <| e_send_buffer ::=
             <[range_slot := Some (retained_new sid off data fin_ pn (negb retain))]> |>));
  _ ← (if fin_ then on_field_res e_send (fun s => Send.finish_stream s sid) else mret tt);
  _ ← modify (fun e => match control with
                       | Some c => Credit.commit_control_frames i pn c e
                       | None => e
                       end);
  _ ← modify (upd_stats count_stream_packet);
  mret (packet, pn).

(** *** Probes, close and path control *)
Definition encode_probe_packet (destination cap : Z) : ep (bytes * Z) := fun e =>
  if match e_peer_cid e with Some peer => negb (peer =? destination) | None => false end
  then (Err Error.WrongConnectionId, e) else
  match
    (h ← Credit.packet_header e destination
           (packet_number_len_for (e_next_packet_number e) (Ep.largest_received e)) cap;
     b ← encode Ping (cap - zlen h);
     next ← Ep.checked_next_packet_number e; Ok (h ++ b, next))
  with
  | Ok (packet, next) => (Ok (packet, e_next_packet_number e), next_pn next e)
  | Err err => (Err err, e)
  | Panic => (Panic, e)
  end.

Definition poll_close (cap : Z) : ep (option bytes) := fun e =>
  match e_close_code e with
  | None => (Ok None, e)
  | Some code =>
      match
        (destination ← ok_or (Ep.peer_connection_id_on_path e 0) Error.WrongConnectionId;
         h ← Credit.packet_header e destination (Ep.next_packet_number_len e) cap;
         b ← encode (Close code) (cap - zlen h);
         next ← Ep.checked_next_packet_number e; Ok (h ++ b, next))
      with
      | Ok (packet, next) => (Ok (Some packet), next_pn next e)
      | Err err => (Err err, e)
      | Panic => (Panic, e)
      end
  end.

Definition is_path_control_frame (f : Frame) : bool :=
  match f with
  | PathJoin _ _ _ _ | PathJoinAck _ _ _ | PathChallenge _ | PathResponse _ | PathStatus _ _ _
  | Ping => true
  | _ => false
  end.
Definition is_probe_frame (f : Frame) : bool :=
  match f with PathChallenge _ | PathResponse _ => true | _ => false end.
Definition track_flight (f : Frame) : bool :=
  match f with PathChallenge _ | PathResponse _ | PathStatus _ _ _ | Ping => true | _ => false end.

(** A challenge is padded to the packet size, or to the end of the output;
    [out\[used..target\]] panics when it is already longer. *)
Definition pad_challenge (f : Frame) (mps : Z) (packet : bytes) (cap : Z) : res bytes :=
  match f with
  | PathChallenge _ =>
      let target := Z.min mps cap in
      if target <? zlen packet then Panic
      else Ok (packet ++ replicate (Z.to_nat (target - zlen packet)) FRAME_PADDING)
  | _ => Ok packet
  end.

Definition build_path_control (e : EndpointState) (i : nat) (destination : Z) (f : Frame) (cap : Z)
    : res (bytes * Z) :=
  match get_path e i with
  | None => Err Error.Invalid
  | Some p =>
      _ ← guard_err ((destination =? 0) || negb (is_path_control_frame f)) Error.Invalid;
      h ← Credit.packet_header e destination 4 cap;
      b ← encode f (cap - zlen h);
      packet ← pad_challenge f (max_packet_size (path_congestion p)) (h ++ b) cap;
      next ← Ep.checked_next_packet_number e;
      Ok (packet, next)
  end.

(** The ledger slot of a tracked frame; a PTO probe may exceed the window. *)
Definition control_slot (e : EndpointState) (i : nat) (f : Frame) (n : Z) (pto_probe : bool)
    : res (option nat) :=
  if negb (track_flight f) then Ok None else
  _ ← guard_err (negb pto_probe && (e_peer_max_in_flight_packets e <=? Ep.in_flight_packet_count e))
        Error.Blocked;
  slot ← ok_or (free_slot (e_transmission_limit e) (e_sent_packets e)) Error.HistoryFull;
  _ ← guard_err (negb pto_probe && negb (path_can_send e i n)) Error.Blocked;
  Ok (Some slot).

Definition pacing_exempt (f : Frame) : bool :=
  is_probe_frame f || match f with Ping | PathStatus _ _ _ => true | _ => false end.

(** The record of a tracked control frame. *)
Definition control_record (e : EndpointState) (i : nat) (f : Frame) (n order charge : Z)
    (limited : bool) : SentPacket :=
  (new_record (e_next_packet_number e) order n (e_next_packet_number e) charge (clock_of e i) i limited)
    <| sp_path_probe := is_probe_frame f |>
    <| sp_probe_idle_exempt := is_probe_frame f && (charge =? 0) |>
    <| sp_probe_token := match f with PathChallenge token => Some token | _ => None end |>
    <| sp_path_status := match f with PathStatus key sequence _ => Some (key, sequence) | _ => None end |>
    <| sp_rtt_eligible := match f with Ping => true | _ => false end |>
    <| sp_data_delivered := true |>.

Definition note_status_sent (i : nat) (f : Frame) (e : EndpointState) : EndpointState :=
  match f with
  | PathStatus key sequence _ =>
      let retry_at := sat_add (clock_of e i) (Ep.pto_timeout_for_path e i) in
      match Ep.path_with_key e key with
      | Some j => upd_path j (fun p => PathOps.status_sent p sequence retry_at) e
      | None => e
      end
  | _ => e
  end.

Definition count_control_packet (t : TransportStats) : TransportStats :=
  t <| t_sent_packets ::= fun n => sat_add n 1 |> <| t_sent_control_packets ::= fun n => sat_add n 1 |>.

(** Flight for a tracked frame: a send order, a pacing reservation unless
    exempt, and the bytes. *)
Definition track (i : nat) (f : Frame) (n : Z) (pto_probe : bool) : ep Z :=
  order ← on_path i with_send_order;
  reserved ← (if pacing_exempt f then mret true else reserve_pacing_on i n);
  _ ← refuse_if (negb reserved) Error.Blocked;
  sent ← (if pto_probe
          then on_path i (with_congestion (fun c => (true, CC.on_retransmission_sent c n)))
          else packet_sent_on i n);
  _ ← refuse_if (negb sent) Error.Blocked;
  mret order.

Definition encode_path_control_packet_inner (i : nat) (destination : Z) (f : Frame) (cap : Z)
    (pto_probe : bool) : ep bytes :=
  '(packet, next) ← gets_res (fun e => build_path_control e i destination f cap);
  slot ← gets_res (fun e => control_slot e i f (zlen packet) pto_probe);
  limited ← gets (fun e => path_window_limited e i (zlen packet));
  order ← (if track_flight f then track i f (zlen packet) pto_probe else mret 0);
  _ ← modify (fun e =>
        let charge := if is_probe_frame f && (zlen packet <=? Ep.duplication_budget_available e)
                      then zlen packet else 0 in
        let sent := control_record e i f (zlen packet) order charge limited in
        let e := next_pn next (e <| e_duplication_reserved_bytes ::= fun r => sat_add r charge |>) in
        let e := if is_probe_frame f
                 then upd_path i (fun p => p <| probe_bytes_prepared ::= fun b => sat_add b (zlen packet) |>) e
                 else e in
        match slot with Some k => record_sent k sent false false e | None => e end);
  _ ← modify (note_status_sent i f);
  _ ← modify (upd_stats count_control_packet);
  mret packet.

Definition encode_path_control_packet (i : nat) (destination : Z) (f : Frame) (cap : Z) : ep bytes :=
  encode_path_control_packet_inner i destination f cap false.
End transmit.
End Transmit.
