(* ===== verification/Retransmit.v ===== *)
(** * Retransmission and the bearer timer

    [EndpointState] ([src/crates/quic-lite/src/lib.rs]) sends stored data again
    under a fresh packet number: copies of a credit publication on another path
    ([duplicate_credit_control_on_path]), one recorded transmission
    ([retransmit_stream_packet_with_probe]), the oldest marked loss
    ([retransmit_marked_loss]) and, when the probe timeout of a path expires,
    the oldest unacknowledged record ([retransmit_pto_probe],
    [probe_delivered_flight]); and it tells the bearer how long it may sleep
    ([packet_timer_heads], [next_bearer_deadline]). *)

From S2P Require Import Prelude Records Methods Wire PacketHeader Keyed AckRanges Frames FlowControl Congestion PathState SendBuffer Endpoint Credit Ledger Transmit.

(** Everything [retransmit_stream_packet_with_probe] decides before it touches the state. *)
Record Plan : Type := mkPlan {
  pl_sent : SentPacket;
  pl_range_slot : nat;
  pl_range : RetainedSendRange;
  pl_slot : nat;
  pl_evict : bool;
  pl_offset : Z;
  pl_data : bytes;
  pl_fin : bool;
  pl_packet : bytes;
  pl_next : Z;
}.

Module Retransmit.
Section retransmit.
Context `{Allocator, PacketSize, Features}.

(** *** Copies of a credit publication *)
Fixpoint put_stream_limits (c : ConnectionState) (ids : list Z) (cap : Z) : res bytes :=
  match ids with
  | [] => Ok []
  | id :: ids' =>
      let max := default (l_max_stream_data (limits c)) (Conn.stream_max_data c id) in
      b ← encode (MaxStreamData id max) cap;
      rest ← put_stream_limits c ids' (cap - zlen b); Ok (b ++ rest)
  end.

(** [None]: an ACK is asked for and nothing has been received. *)
Definition put_copied_ack (e : EndpointState) (include_ack : bool) (cap : Z) : res (option bytes) :=
  if negb include_ack then Ok (Some []) else
  match Ep.largest_received e with
  | None => Ok None
  | Some largest => b ← encode (AckRangesF largest 0 (e_received_packets e)) cap; Ok (Some b)
  end.

Definition put_copied_credit (e : EndpointState) (include_max_data : bool) (stream_credit_count : nat)
    (include_max_streams_bidi : bool) (cap : Z) : res bytes :=
  b0 ← (if include_max_data then encode (MaxData (fc_max_data (connection (e_receive e)))) cap else Ok []);
  b1 ← put_stream_limits (e_receive e)
         (take (Nat.min stream_credit_count (length (e_pending_stream_ids e))) (e_pending_stream_ids e))
         (cap - zlen b0);
  b2 ← (if include_max_streams_bidi
        then encode (MaxStreamsBidi (l_max_streams_bidi (limits (e_receive e)))) (cap - zlen b0 - zlen b1)
        else Ok []);
  Ok (b0 ++ b1 ++ b2).

Definition usable_for_data (e : EndpointState) (i : nat) : bool :=
  match get_path e i with Some p => PathOps.is_usable_for_data p | None => false end.

Definition credit_copy_refused (e : EndpointState) (source : Z) (i : nat) (include_max_data : bool)
    (stream_credit_count : nat) (include_max_streams_bidi : bool) : bool :=
  negb (usable_for_data e i) || negb (bool_decide (e_credit_packet_number e = Some source))
  || negb (e_credit_pending e)
  || (negb include_max_data && (stream_credit_count =? 0)%nat && negb include_max_streams_bidi)
  || (e_peer_max_in_flight_packets e <=? Ep.in_flight_packet_count e).

(** The packet, its slot and the next number; [None] as above. *)
Definition build_credit_copy (e : EndpointState) (i : nat) (include_ack include_max_data : bool)
    (stream_credit_count : nat) (include_max_streams_bidi : bool) (cap : Z)
    : res (option (bytes * nat * Z)) :=
  destination ← ok_or (Ep.peer_connection_id_on_path e i) Error.WrongConnectionId;
  slot ← ok_or (free_slot (e_transmission_limit e) (e_sent_packets e)) Error.HistoryFull;
  next ← Ep.checked_next_packet_number e;
  h ← Credit.packet_header e destination (Ep.next_packet_number_len e) cap;
  a ← put_copied_ack e include_ack (cap - zlen h);
  match a with
  | None => Ok None
  | Some a =>
      b ← put_copied_credit e include_max_data stream_credit_count include_max_streams_bidi
            (cap - zlen h - zlen a);
      Ok (Some (h ++ a ++ b, slot, next))
  end.

Definition credit_copy_record (e : EndpointState) (source : Z) (i : nat) (include_ack : bool)
    (n order : Z) (limited : bool) : SentPacket :=
  (Transmit.new_record (e_next_packet_number e) order n source n (Transmit.clock_of e i) i limited)
    <| sp_ack_largest_received := if include_ack then Ep.largest_received e else None |>
    <| sp_data_delivered := true |>.

(** A pacing reservation that is refused keeps the pacer's refill. *)
Definition duplicate_credit_control_on_path (source : Z) (i : nat) (include_ack include_max_data : bool)
    (stream_credit_count : nat) (include_max_streams_bidi : bool) (cap : Z) : ep (option (bytes * Z)) :=
  refused ← gets (fun e => credit_copy_refused e source i include_max_data stream_credit_count
                             include_max_streams_bidi);
  if refused : bool then mret None else
  built ← gets_res (fun e => build_credit_copy e i include_ack include_max_data stream_credit_count
                               include_max_streams_bidi cap);
  match built with
  | None => mret None
  | Some (packet, slot, next) =>
      fits ← gets (fun e => (zlen packet <=? Ep.duplication_budget_available e)
                            && Transmit.path_can_send e i (zlen packet));
      reserved ← (if fits : bool then reserve_pacing_on i (zlen packet) else mret false);
      if negb reserved then mret None else
      limited ← gets (fun e => Transmit.path_window_limited e i (zlen packet));
      sent ← packet_sent_on i (zlen packet);
      if negb sent then mret None else
      order ← on_path i with_send_order;
      pn ← gets e_next_packet_number;
      _ ← modify (fun e =>
            Transmit.record_sent slot (credit_copy_record e source i include_ack (zlen packet) order limited)
              true false (Transmit.next_pn next e)
              <| e_duplication_reserved_bytes ::= fun r => sat_add r (zlen packet) |>);
      _ ← modify (upd_stats Transmit.count_control_packet);
      mret (Some (packet, pn))
  end.

(** *** One recorded transmission *)

(** A free slot, or the slot of the lost record itself. *)
Definition retransmit_slot (e : EndpointState) (index : nat) (sent : SentPacket) : res (nat * bool) :=
  match free_slot (e_transmission_limit e) (e_sent_packets e) with
  | Some slot => Ok (slot, false)
  | None => if sp_lost sent then Ok (index, true) else Err Error.HistoryFull
  end.

(** The record, its range and what of it is to be sent again. *)
Definition retransmit_source (e : EndpointState) (pn : Z) (i : nat) (budgeted_duplicate : bool)
    : res (option (nat * SentPacket * Z * nat * RetainedSendRange * (Z * bytes * bool))) :=
  _ ← guard_err (length (e_paths e) <=? i)%nat Error.PathLimit;
  match Ledger.slot_of pn (e_sent_packets e) with
  | None => Ok None
  | Some (index, sent) =>
      destination ← ok_or (Ep.peer_connection_id_on_path e i) Error.WrongConnectionId;
      if negb (sp_accepted sent) then Ok None else
      if budgeted_duplicate
         && ((i =? sp_path_id sent)%nat
             || (e_peer_max_in_flight_packets e <=? Ep.in_flight_packet_count e)
             || negb (usable_for_data e i)) then Ok None else
      match sp_send_buffer_slot sent with
      | None => Ok None
      | Some range_slot =>
          range ← ok_or (mjoin (e_send_buffer e !! range_slot)) Error.Invalid;
          if sp_data_delivered sent && (negb (sp_fin sent) || fin_acked range) then Ok None else
          content ← retransmission range;
          match content with
          | None => Ok None
          | Some content => Ok (Some (index, sent, destination, range_slot, range, content))
          end
      end
  end.

Definition plan_retransmission (e : EndpointState) (pn : Z) (i : nat) (cap : Z)
    (budgeted_duplicate : bool) : res (option Plan) :=
  source ← retransmit_source e pn i budgeted_duplicate;
  match source with
  | None => Ok None
  | Some (index, sent, destination, range_slot, range, (off, data, fin_)) =>
      '(slot, evict) ← retransmit_slot e index sent;
      next ← Ep.checked_next_packet_number e;
      h ← Credit.packet_header e destination (Ep.next_packet_number_len e) cap;
      b ← encode (Stream (mkStreamFrame (stream_id range) off fin_ data)) (cap - zlen h);
      Ok (Some (mkPlan sent range_slot range slot evict off data fin_ (h ++ b) next))
  end.

(** The four fields of the evicted record that the range keeps. *)
Definition lineage (sent : SentPacket) : PriorPacketLineage :=
  mkPriorPacketLineage (sp_packet_number sent) (sp_offset sent) (sp_data_len sent) (sp_fin sent).

Definition copy_record (e : EndpointState) (i : nat) (pl : Plan) (order : Z) (limited budgeted : bool)
    : SentPacket :=
  let n := zlen (pl_packet pl) in
  (Transmit.new_record (e_next_packet_number e) order n (logical_packet_number (pl_range pl))
     (if budgeted then n else 0) (Transmit.clock_of e i) i limited)
    <| sp_stream_id := stream_id (pl_range pl) |> <| sp_offset := pl_offset pl |>
    <| sp_data_len := zlen (pl_data pl) |> <| sp_fin := pl_fin pl |>
    <| sp_send_buffer_slot := Some (pl_range_slot pl) |> <| sp_rtt_eligible := true |>.

Definition record_copy (i : nat) (pl : Plan) (order : Z) (limited budgeted : bool) (e : EndpointState)
    : EndpointState :=
  let pn := e_next_packet_number e in
  let sent := copy_record e i pl order limited budgeted in
  let e := Transmit.next_pn (pl_next pl) e in
  let e := if pl_evict pl
           then e <| e_send_buffer ::= alter (fmap (M:=option) (fun r => add_prior_packet r (lineage (pl_sent pl))))
                                         (pl_range_slot pl) |>
           else e in
  let e := if budgeted
           then e <| e_duplication_reserved_bytes ::= fun r => sat_add r (zlen (pl_packet pl)) |>
           else e in
  upd_stats Transmit.count_stream_packet
    (Transmit.record_sent (pl_slot pl) sent (negb (logical_packet_number (pl_range pl) =? pn)) true e).

(** Flight and send order of the copy; [None] when the path has no room.  The
    window test of a copy runs after its bytes are in flight. *)
Definition send_copy (i : nat) (pl : Plan) (allow_probe_overrun budgeted : bool) : ep (option (bytes * Z)) :=
  let n := zlen (pl_packet pl) in
  room ← gets (fun e => (negb budgeted || (n <=? Ep.duplication_budget_available e))
                        && (allow_probe_overrun || Transmit.path_can_send e i n));
  reserved ← (if negb (room : bool) then mret false
              else if allow_probe_overrun : bool then mret true else reserve_pacing_on i n);
  if negb reserved then mret None else
  sent ← (if allow_probe_overrun
          then on_path i (with_congestion (fun c => (true, CC.on_retransmission_sent c n)))
          else packet_sent_on i n);
  if negb sent then mret None else
  limited ← gets (fun e => Transmit.path_window_limited e i n);
  order ← on_path i with_send_order;
  pn ← gets e_next_packet_number;
  _ ← modify (record_copy i pl order limited budgeted);
  mret (Some (pl_packet pl, pn)).

Definition retransmit_stream_packet_with_probe (pn : Z) (i : nat) (cap : Z)
    (allow_probe_overrun budgeted_duplicate : bool) : ep (option (bytes * Z)) :=
  plan ← gets_res (fun e => plan_retransmission e pn i cap budgeted_duplicate);
  match plan with
  | None => mret None
  | Some pl => send_copy i pl allow_probe_overrun budgeted_duplicate
  end.

Definition record_retransmission (i : nat) (e : EndpointState) : EndpointState :=
  upd_path i (fun p => p <| retransmitted_packets ::= fun n => sat_add n 1 |>)
    (upd_stats (fun t => t <| t_retransmitted_packets ::= fun n => sat_add n 1 |>) e).

Definition is_some {A} (o : option A) : bool := match o with Some _ => true | None => false end.

(** A retransmission that is counted when it produced a packet. *)
Definition counted (m : ep (option (bytes * Z))) (count : EndpointState -> EndpointState)
    : ep (option (bytes * Z)) :=
  r ← m; _ ← modify (fun e => if is_some r then count e else e); mret r.

Definition retransmit_stream_packet (pn cap : Z) : ep (option (bytes * Z)) :=
  found ← gets (fun e => Ledger.slot_of pn (e_sent_packets e));
  match found with
  | None => mret None
  | Some (_, sent) =>
      counted (retransmit_stream_packet_with_probe pn (sp_path_id sent) cap true false)
        (record_retransmission (sp_path_id sent))
  end.

Definition retransmit_stream_packet_on_path (pn : Z) (i : nat) (cap : Z) : ep (option (bytes * Z)) :=
  counted (retransmit_stream_packet_with_probe pn i cap false false) (record_retransmission i).

Definition duplicate_stream_packet_on_path (pn : Z) (i : nat) (cap : Z) : ep (option (bytes * Z)) :=
  retransmit_stream_packet_with_probe pn i cap false true.

(** *** Which record to send again *)
Definition range_of (e : EndpointState) (sent : SentPacket) : option RetainedSendRange :=
  slot ← sp_send_buffer_slot sent; mjoin (e_send_buffer e !! slot).

(** The range still has something to send. *)
Definition has_content (r : RetainedSendRange) : bool := has_payload r || (fin r && negb (fin_acked r)).

Definition range_has_content (e : EndpointState) (sent : SentPacket) : bool :=
  match range_of e sent with Some r => has_content r | None => false end.

(** A later live transmission of the same range, on which [f] holds. *)
Definition newer_live (e : EndpointState) (sent : SentPacket) (f : SentPacket -> bool) : bool :=
  existsb (fun s => match s with
                    | Some newer =>
                        bool_decide (sp_send_buffer_slot newer = sp_send_buffer_slot sent)
                        && (sp_packet_number sent <? sp_packet_number newer)
                        && sp_accepted newer && negb (sp_lost newer) && f newer
                    | None => false
                    end) (e_sent_packets e).

Definition newer_transmission_covers_retransmission_head (e : EndpointState) (sent : SentPacket) : bool :=
  match range_of e sent with
  | None => false
  | Some range =>
      match first_unacknowledged_run range with
      | None =>
          let fin_offset := sat_add (offset range) (data_len range) in
          fin range && negb (fin_acked range)
          && newer_live e sent (fun newer =>
               sp_fin newer && (sat_add (sp_offset newer) (sp_data_len newer) =? fin_offset))
      | Some (start, _) =>
          let head_offset := sat_add (offset range) start in
          newer_live e sent (fun newer =>
            (sp_offset newer <=? head_offset)
            && (head_offset <? sat_add (sp_offset newer) (sp_data_len newer)))
      end
  end.

Definition retransmittable_loss (e : EndpointState) (sent : SentPacket) : bool :=
  sp_lost sent && sp_accepted sent && (negb (sp_data_delivered sent) || sp_fin sent)
  && negb (newer_transmission_covers_retransmission_head e sent) && range_has_content e sent.

Definition has_retransmittable_loss (e : EndpointState) : bool :=
  existsb (fun s => match s with Some sent => retransmittable_loss e sent | None => false end)
    (e_sent_packets e).

(** [iter().flatten().filter(f).min_by_key(|p| p.sent_at)]: the first of the oldest. *)
Fixpoint oldest (f : SentPacket -> bool) (l : list (option SentPacket)) (best : option SentPacket)
    : option SentPacket :=
  match l with
  | [] => best
  | Some sent :: l' =>
      oldest f l' (if f sent
                   then match best with
                        | Some b => if sp_sent_at sent <? sp_sent_at b then Some sent else best
                        | None => Some sent
                        end
                   else best)
  | None :: l' => oldest f l' best
  end.

(** Paths a loss is repaired on: other paths first, then by smoothed RTT. *)
Definition path_key : Type := Z * Z * nat.
Definition key_lt (a b : path_key) : bool :=
  let '(a1, a2, a3) := a in let '(b1, b2, b3) := b in
  (a1 <? b1) || ((a1 =? b1) && ((a2 <? b2) || ((a2 =? b2) && (a3 <? b3)%nat))).

(** The shifting loop: the new key goes before the keys it is less than. *)
Fixpoint insert_key (k : path_key) (l : list path_key) : list path_key :=
  match l with
  | [] => [k]
  | x :: l' => if key_lt k x then k :: l else x :: insert_key k l'
  end.

Definition repair_path (e : EndpointState) (i : nat) : bool :=
  usable_for_data e i && is_some (Ep.peer_connection_id_on_path e i).

Definition key_of (e : EndpointState) (source i : nat) : path_key :=
  let smoothed := match get_path e i with
                  | Some p => default 500000 (Rtt.smoothed (path_rtt p))
                  | None => 500000
                  end in
  (Z.b2z (i =? source)%nat, Z.min smoothed U32_MAX, i).

Definition repair_order (e : EndpointState) (source : nat) : list path_key :=
  fold_left (fun l i => insert_key (key_of e source i) l)
    (List.filter (repair_path e) (seq 0 (length (e_paths e)))) [].

Definition count_loss_repair (i : nat) (e : EndpointState) : EndpointState :=
  record_retransmission i
    (upd_stats (fun t => t <| t_loss_retransmitted_packets ::= fun n => sat_add n 1 |>) e).

(** The loop over [paths]: the first that yields a packet. *)
Fixpoint first_repair (pn cap : Z) (paths : list path_key) : ep (option (bytes * Z)) :=
  match paths with
  | [] => mret None
  | (_, _, i) :: paths' =>
      r ← counted (retransmit_stream_packet_with_probe pn i cap false false) (count_loss_repair i);
      match r with
      | Some packet => mret (Some packet)
      | None => first_repair pn cap paths'
      end
  end.

Definition retransmit_marked_loss (cap : Z) : ep (option (bytes * Z)) :=
  candidate ← gets (fun e => oldest (retransmittable_loss e) (e_sent_packets e) None);
  match candidate with
  | None => mret None
  | Some sent =>
      order ← gets (fun e => repair_order e (sp_path_id sent));
      first_repair (sp_packet_number sent) cap order
  end.

(** *** Probe timeouts *)
Definition pto_interval (e : EndpointState) (i : nat) : Z :=
  sat_mul (Ep.pto_timeout_for_path e i)
    (Credit.backoff_factor (match get_path e i with Some p => pto_backoff p | None => 0 end)).

Definition live_on (i : nat) (sent : SentPacket) : bool :=
  (sp_path_id sent =? i)%nat && sp_accepted sent && negb (sp_lost sent).

Definition probe_due (e : EndpointState) (now : Z) (i : nat) : bool :=
  match get_path e i, oldest (live_on i) (e_sent_packets e) None with
  | Some p, Some sent =>
      sat_add (default (sp_sent_at sent) (last_pto_probe_at p)) (pto_interval e i) <=? now
  | _, _ => false
  end.

Definition start_pto_backoff (now : Z) (p : PathState) : PathState :=
  p <| last_pto_probe_at := Some now |>
    <| pto_backoff ::= fun n => Z.min (sat_add8 n 1) MAX_PTO_BACKOFF_EXPONENT |>.

Definition probe_delivered_flight (now cap : Z) : ep (option (bytes * Z)) :=
  path ← gets (fun e => List.find (probe_due e now) (seq 0 (length (e_paths e))));
  match path with
  | None => mret None
  | Some i =>
      destination ← gets (fun e => Ep.peer_connection_id_on_path e i);
      match destination with
      | None => mret None
      | Some destination =>
          pn ← gets e_next_packet_number;
          packet ← Transmit.encode_path_control_packet_inner i destination Ping cap true;
          _ ← modify (upd_path i (start_pto_backoff now));
          mret (Some (packet, pn))
      end
  end.

Definition pto_candidate (e : EndpointState) (now : Z) (sent : SentPacket) : bool :=
  match get_path e (sp_path_id sent) with
  | None => false
  | Some p =>
      negb (sp_lost sent) && sp_accepted sent && (negb (sp_data_delivered sent) || sp_fin sent)
      && (Ep.pto_timeout_for_path e (sp_path_id sent) <=? sat_sub now (sp_sent_at sent))
      && match last_pto_probe_at p with
         | Some last => pto_interval e (sp_path_id sent) <=? sat_sub now last
         | None => true
         end
      && range_has_content e sent
  end.

(** [filter(..).min_by_key(|id| (measured_send_cost_us, id)).unwrap_or(source)] *)
Fixpoint cheapest (e : EndpointState) (l : list nat) (best : option (Z * nat)) : option nat :=
  match l with
  | [] => snd <$> best
  | i :: l' =>
      let cost := match get_path e i with Some p => PathOps.measured_send_cost_us p | None => 0 end in
      cheapest e l' (match best with
                     | Some (c, _) => if cost <? c then Some (cost, i) else best
                     | None => Some (cost, i)
                     end)
  end.

Definition probe_path (e : EndpointState) (source : nat) : nat :=
  default source (cheapest e
    (List.filter (fun i => negb (i =? source)%nat && repair_path e i) (seq 0 (length (e_paths e)))) None).

Definition count_pto_probe (i source : nat) (now : Z) (e : EndpointState) : EndpointState :=
  upd_path source (start_pto_backoff now)
    (record_retransmission i
       (upd_stats (fun t => t <| t_pto_retransmitted_packets ::= fun n => sat_add n 1 |>) e)).

Definition retransmit_pto_probe (now cap : Z) : ep (option (bytes * Z)) :=
  candidate ← gets (fun e => oldest (pto_candidate e now) (e_sent_packets e) None);
  match candidate with
  | None => probe_delivered_flight now cap
  | Some sent =>
      let source := sp_path_id sent in
      i ← gets (fun e => probe_path e source);
      counted (retransmit_stream_packet_with_probe (sp_packet_number sent) i cap true false)
        (count_pto_probe i source now)
  end.

Definition retransmit_due (now cap : Z) : ep (option (bytes * Z)) :=
  _ ← modify (Ep.set_time now);
  _ ← modify (fun e => fold_left (fun e i => Ledger.detect_ack_losses i
                (get_path e i ≫= fun p => largest_acked_send_order (transport p)) e)
                (seq 0 (length (e_paths e))) e);
  r ← retransmit_marked_loss cap;
  match r with
  | Some packet => mret (Some packet)
  | None => retransmit_pto_probe now cap
  end.
End retransmit.
End Retransmit.

(** ** The bearer timer *)
Module Timer.
Section timer.
Context `{Allocator, PacketSize, Features}.

(** [Option::min] over an iterator of deadlines. *)
Definition earlier (a b : option Z) : option Z :=
  match a, b with
  | Some x, Some y => Some (Z.min x y)
  | Some x, None | None, Some x => Some x
  | None, None => None
  end.

Definition heads : Type := list (option Z) * list (option Z) * bool.

(** One turn of the loop of [packet_timer_heads]. *)
Definition head_step (paths : list PathState) (acc : heads) (s : option SentPacket) : heads :=
  let '(first, loss, candidate) := acc in
  match s with
  | None => acc
  | Some sent =>
      if negb (sp_accepted sent) then acc
      else if sp_lost sent
      then (first, loss, candidate || (negb (sp_data_delivered sent) || sp_fin sent))
      else match paths !! sp_path_id sent with
           | None => acc
           | Some p =>
               let note := alter (fun head => earlier head (Some (sp_sent_at sent))) (sp_path_id sent) in
               (note first,
                if match largest_acked_send_order (transport p) with
                   | Some order => sp_send_order sent <? order
                   | None => false
                   end then note loss else loss,
                candidate)
           end
  end.

Definition packet_timer_heads (paths : list PathState) (packets : list (option SentPacket)) : heads :=
  fold_left (head_step paths) packets
    (replicate (Z.to_nat MAX_PATH_STATES) None, replicate (Z.to_nat MAX_PATH_STATES) None, false).

Definition min_over {A} (f : nat -> A -> option Z) (l : list A) : option Z :=
  foldr earlier None (imap f l).

Definition ack_deadline_of (e : EndpointState) (i : nat) (p : PathState) : option Z :=
  if ack_immediate p || (ack_pending p && (e_ack_frequency e <=? ack_packets p))
     || ((i =? 0)%nat && (e_control_pending e || Retransmit.is_some (e_pending_ack_frequency e)))
  then Some (path_clock p)
  else if ack_pending p then Some (sat_add (ack_started_at p) (e_max_ack_delay_us e))
  else None.

Definition credit_deadline (e : EndpointState) : option Z :=
  if e_credit_pending e then Some (sat_add (e_last_ack_time e) (Credit.credit_interval e)) else None.

Definition status_deadline (e : EndpointState) : option Z :=
  if existsb (fun p => Retransmit.is_some (pending_local_status p)) (e_paths e)
     && Retransmit.is_some (Ep.status_egress_path e)
  then min_over (fun _ p => status_retry_at_us p) (e_paths e) else None.

Definition loss_deadline_of (e : EndpointState) (loss : list (option Z)) (i : nat) (p : PathState) : option Z :=
  (fun sent_at => sat_add sent_at (Path.loss_delay_us (transport p) (e_peer_max_ack_delay_us e)))
    <$> mjoin (loss !! i).

Definition pto_deadline_of (e : EndpointState) (first : list (option Z)) (i : nat) (p : PathState) : option Z :=
  (fun sent_at => sat_add (default sent_at (last_pto_probe_at p)) (Retransmit.pto_interval e i))
    <$> mjoin (first !! i).

Definition repairable (e : EndpointState) (i : nat) (p : PathState) : bool :=
  PathOps.is_usable_for_data p && Retransmit.is_some (Ep.peer_connection_id_on_path e i)
  && CC.can_send (path_congestion p) (max_packet_size (path_congestion p)).

Definition repair_deadline (e : EndpointState) (candidate : bool) : option Z :=
  if candidate && Retransmit.has_retransmittable_loss e
     && existsb id (imap (repairable e) (e_paths e))
  then Some (default 0 (min_over (fun _ p => if PathOps.is_usable_for_data p then Some (path_clock p) else None)
                          (e_paths e)))
  else None.

Definition next_bearer_deadline (e : EndpointState) : option Z :=
  let '(first, loss, candidate) := packet_timer_heads (e_paths e) (e_sent_packets e) in
  foldr earlier None
    [min_over (ack_deadline_of e) (e_paths e); credit_deadline e; status_deadline e;
     min_over (fun _ p => pacing_deadline_us (transport p)) (e_paths e);
     min_over (loss_deadline_of e loss) (e_paths e); repair_deadline e candidate;
     min_over (pto_deadline_of e first) (e_paths e)].
End timer.
End Timer.
