(* ===== verification/Datagram.v ===== *)
(** * Datagrams

    [src/crates/quic-lite/src/datagram.rs], and the place in [node_datagram.rs]
    where a datagram becomes a packet.  A payload is sent from the buffer it
    lies in: the admission computes where the packet starts in front of the
    payload and what header goes there, the commitment records the transmission,
    and the header is written.  No packet protection is installed, so the tag is
    empty.  The theorems are in [DatagramSpec.v]. *)

From S2P Require Import Prelude Records Methods Wire PacketHeader Keyed AckRanges Frames FlowControl Congestion PathState SendBuffer Endpoint Credit Ledger Transmit.

Inductive DatagramPriority : Type := Low | High.

(** The data of the DATAGRAM frames up to the first that does not decode; each
    turn of the loop takes a byte at least. *)
Fixpoint payloads_of (fuel : nat) (tail : bytes) : list bytes :=
  match fuel with
  | O => []
  | S fuel' =>
      match tail with
      | [] => []
      | _ =>
          match decode_frame tail with
          | Ok (frame, used) =>
              let rest := payloads_of fuel' (drop (Z.to_nat used) tail) in
              match frame with Datagram data _ => data :: rest | _ => rest end
          | _ => []
          end
      end
  end.

Definition payloads (packet : bytes) (frames_at : Z) : res (list bytes) :=
  tail ← slice_from packet frames_at; Ok (payloads_of (length tail) tail).

Module Datagrams.
Section datagrams.
Context `{Allocator, PacketSize, Features}.

Definition datagram_tag_len : Z := 0.

(** [header] of 16 bytes, with the frame type after the packet header; the bytes
    used of it. *)
Definition datagram_header (e : EndpointState) (destination : Z) : res bytes :=
  h ← Credit.packet_header e destination (Ep.next_packet_number_len e) 16;
  if 16 <=? zlen h then Panic else Ok (h ++ [0x30]).

(** [mtu] and the path's packet size, and the space a bearer needs around the
    packet. *)
Definition fits (start end_ storage_len prefix suffix mtu max_size : Z) : res unit :=
  _ ← guard_err ((mtu <? end_ - start) || (max_size <? end_ - start)) Error.DatagramTooLarge;
  guard_err ((start <? prefix)
             || match checked_add end_ suffix with Some last => storage_len <? last | None => true end)
    Error.BufferTooSmall.

(** What sending one more packet of [size] bytes on a path asks for. *)
Definition may_send (e : EndpointState) (p : PathState) (size : Z) (priority : DatagramPriority) : res unit :=
  _ ← guard_err (match priority with
                 | Low => sat_sub (s_max_data (e_send e)) (sent_data (e_send e)) <=? max_packet_size (path_congestion p)
                 | High => false
                 end) Error.Blocked;
  _ ← Ep.checked_next_packet_number e;
  _ ← guard_err ((e_peer_max_in_flight_packets e <=? Ep.in_flight_packet_count e)
                 || negb (CC.can_send (path_congestion p) size)) Error.Blocked;
  _ ← guard_err (bool_decide (free_slot (e_transmission_limit e) (e_sent_packets e) = None)) Error.HistoryFull;
  guard_err (next_send_order p =? U64_MAX) Error.PacketNumberExhausted.

(** [(start..end, header)]; the payload lies at [payload.1..payload.2]. *)
Definition datagram_send_layout (e : EndpointState) (i : nat) (payload : Z * Z) (storage_len prefix suffix mtu : Z)
    (priority : DatagramPriority) : res (Z * Z * bytes) :=
  _ ← guard_err (bool_decide (e_close_code e <> None)) Error.Invalid;
  p ← ok_or (get_path e i) Error.PathLimit;
  _ ← guard_err (e_peer_max_datagram_frame_size e =? 0) Error.DatagramUnsupported;
  let frame_len := 1 + Z.max 0 (payload.2 - payload.1) in
  _ ← guard_err (e_peer_max_datagram_frame_size e <? frame_len) Error.DatagramTooLarge;
  destination ← ok_or (Ep.peer_connection_id_on_path e i) Error.WrongConnectionId;
  header ← datagram_header e destination;
  start ← ok_or (checked_sub payload.1 (zlen header)) Error.BufferTooSmall;
  end_ ← ok_or (checked_add payload.2 datagram_tag_len) Error.BufferTooSmall;
  if end_ <? start then Panic else
  _ ← fits start end_ storage_len prefix suffix mtu (max_packet_size (path_congestion p));
  _ ← may_send e p (end_ - start) priority;
  Ok (start, end_, header).

Definition datagram_record (e : EndpointState) (i : nat) (size order : Z) (limited : bool) : SentPacket :=
  (Transmit.new_record (e_next_packet_number e) order size (e_next_packet_number e) 0 (Transmit.clock_of e i) i limited)
    <| sp_rtt_eligible := true |> <| sp_data_delivered := true |>.

(** [next_packet_number += 1] *)
Definition bump_packet_number (e : EndpointState) : res Z :=
  if U32_MAX <=? e_next_packet_number e then Panic else Ok (e_next_packet_number e + 1).

Definition commit_datagram_transmission (i : nat) (size : Z) : ep unit :=
  slot ← gets_res (fun e => ok_or (free_slot (e_transmission_limit e) (e_sent_packets e)) Error.HistoryFull);
  limited ← gets (fun e => Transmit.path_window_limited e i size);
  reserved ← reserve_pacing_on i size;
  _ ← refuse_if (negb reserved) Error.Blocked;
  order ← on_path i with_send_order;
  sent ← packet_sent_on i size;
  _ ← refuse_if (negb sent) Error.Blocked;
  next ← gets_res bump_packet_number;
  _ ← modify (fun e =>
        Transmit.record_sent slot (datagram_record e i size order limited) false false (Transmit.next_pn next e));
  modify (upd_stats (fun t => t <| t_sent_packets ::= Z.succ |>)).

(** The header written into the storage at the start of the packet, and the
    packet. *)
Definition write_header (storage : bytes) (start : Z) (header : bytes) : bytes :=
  take (Z.to_nat start) storage ++ header ++ drop (Z.to_nat start + length header) storage.
Definition packet_at (storage : bytes) (start end_ : Z) : bytes :=
  take (Z.to_nat (end_ - start)) (drop (Z.to_nat start) storage).

(** One path of [prepare_datagram]: admission, commitment, and the packet in the
    storage that held the payload. *)
Definition prepare_on_path (i : nat) (payload : Z * Z) (storage : bytes) (prefix suffix mtu : Z)
    (priority : DatagramPriority) : ep bytes :=
  '(start, end_, header) ← gets_res (fun e =>
     datagram_send_layout e i payload (zlen storage) prefix suffix mtu priority);
  _ ← commit_datagram_transmission i (end_ - start);
  mret (packet_at (write_header storage start header) start end_).
End datagrams.
End Datagrams.

(** ** What an admitted datagram has *)
Section layout.
Context `{Allocator, PacketSize, Features}.

Record admitted (e : EndpointState) (i : nat) (payload : Z * Z) (storage_len prefix suffix mtu start end_ : Z)
    (header : bytes) (p : PathState) (d : Z) (h : bytes) (k : nat) : Prop := {
  ad_open : e_close_code e = None;
  ad_path : get_path e i = Some p;
  ad_peer : Ep.peer_connection_id_on_path e i = Some d;
  ad_header : Credit.packet_header e d (Ep.next_packet_number_len e) 16 = Ok h;
  ad_type : header = h ++ [0x30];
  ad_limit : 1 + Z.max 0 (payload.2 - payload.1) <= e_peer_max_datagram_frame_size e;
  ad_start : 0 <= start /\ start = payload.1 - zlen header;
  ad_end : end_ = payload.2;
  ad_size : 0 <= end_ - start <= Z.min mtu (max_packet_size (path_congestion p));
  ad_room : prefix <= start /\ end_ + suffix <= storage_len;
  ad_number : e_next_packet_number e + 1 <= U32_MAX;
  ad_flight : CC.can_send (path_congestion p) (end_ - start) = true;
  ad_slot : free_slot (e_transmission_limit e) (e_sent_packets e) = Some k;
  ad_order : next_send_order p <> U64_MAX;
}.

Lemma layout_Ok e i payload storage_len prefix suffix mtu priority start end_ header :
  Datagrams.datagram_send_layout e i payload storage_len prefix suffix mtu priority = Ok (start, end_, header) ->
  exists p d h k, admitted e i payload storage_len prefix suffix mtu start end_ header p d h k.
Proof.
  unfold Datagrams.datagram_send_layout. intros ([] & Hc%guard_err_Ok & Hr)%bind_Ok.
  apply bind_Ok in Hr as (p & Hp%ok_or_Ok & Hr). apply bind_Ok in Hr as ([] & _ & Hr). cbv zeta in Hr.
  apply bind_Ok in Hr as ([] & Hl%guard_err_Ok%Z.ltb_ge & Hr). apply bind_Ok in Hr as (d & Hd%ok_or_Ok & Hr).
  apply bind_Ok in Hr as (header' & Hh & Hr). apply bind_Ok in Hr as (s & Hs%ok_or_Ok & Hr).
  apply bind_Ok in Hr as (t & Ht%ok_or_Ok & Hr). destruct (Z.ltb_spec t s) as [|Hst]; [done|].
  apply bind_Ok in Hr as ([] & Hf & Hr). apply bind_Ok in Hr as ([] & Hm & Hr). injection Hr as -> -> ->.
  unfold Datagrams.datagram_header in Hh. apply bind_Ok in Hh as (h & Hh & Ho).
  destruct (16 <=? zlen h); [done|]. apply Ok_inj in Ho. symmetry in Ho.
  unfold checked_sub in Hs. destruct (Z.leb_spec (zlen header) payload.1); [|done]. injection Hs as Hs.
  unfold checked_add, Datagrams.datagram_tag_len in Ht. destruct (_ <=? _); [|done]. injection Ht as Ht.
  unfold Datagrams.fits in Hf. apply bind_Ok in Hf as ([] & Hf1%guard_err_Ok & Hf2%guard_err_Ok).
  apply orb_false_iff in Hf1 as [Hf1%Z.ltb_ge Hf1'%Z.ltb_ge]. apply orb_false_iff in Hf2 as [Hf2%Z.ltb_ge Hf2'].
  unfold checked_add in Hf2'. destruct (_ <=? _); [|done]. apply Z.ltb_ge in Hf2'.
  unfold Datagrams.may_send in Hm. apply bind_Ok in Hm as ([] & _ & Hm). apply bind_Ok in Hm as (next & Hn & Hm).
  apply bind_Ok in Hm as ([] & Hcan%guard_err_Ok & Hm). apply bind_Ok in Hm as ([] & Hslot%guard_err_Ok & Hord%guard_err_Ok).
  apply orb_false_iff in Hcan as [_ Hcan%negb_false_iff]. apply Z.eqb_neq in Hord.
  apply bool_decide_eq_false in Hc, Hslot. destruct (free_slot _ _) as [k|] eqn:Hk; [|by destruct Hslot].
  unfold Ep.checked_next_packet_number in Hn. destruct (Z.leb_spec (e_next_packet_number e + 1) U32_MAX); [|done].
  exists p, d, h, k. split; try done; try lia.
  - destruct (e_close_code e); [|done]. by destruct Hc.
Qed.
End layout.
