(* ===== verification/OutputBounds.v ===== *)
(** * Output bounds

    Every encoder of [src/crates/quic-lite/src/lib.rs] stays inside its output
    slice: frames, headers, the control frames of [encode_control_frames_on_path]
    and every packet the transmit methods of [Transmit.v] and [Retransmit.v]
    return. *)

From S2P Require Import Prelude Records Methods Wire PacketHeader Keyed AckRanges Reader Frames FlowControl Congestion PathState SendBuffer Endpoint Credit Ledger Transmit Retransmit.

(** [w] never writes past its capacity. *)
Definition fits (w : writer Error.t) : Prop := forall cap b, 0 <= cap -> w cap = Ok b -> zlen b <= cap.

Create HintDb fits.

Lemma zlen_map_first f (s : bytes) : zlen (map_first f s) = zlen s.
Proof. by destruct s. Qed.

Lemma fits_nil : fits wnil.
Proof. intros cap b Hc [= <-]. rewrite zlen_nil. lia. Qed.

Lemma fits_seq w1 w2 : fits w1 -> fits w2 -> fits (w1 ;;; w2).
Proof.
  intros H1 H2 cap b Hc (b1 & b2 & Hw1 & Hw2 & ->)%wseq_Ok. specialize (H1 cap b1 Hc Hw1).
  apply H2 in Hw2; [|lia]. rewrite zlen_app. lia.
Qed.

Lemma fits_varint v : fits (put_varint v).
Proof.
  intros cap b Hc. unfold put_varint. intros (n & Hn & Hb)%bind_Ok.
  destruct (Z.ltb_spec cap n); [done|]. apply Ok_inj in Hb as <-.
  rewrite zlen_map_first, zlen_be_bytes.
  repeat case_match; try done; apply Ok_inj in Hn; lia.
Qed.

Lemma fits_bytes s : fits (put_bytes s).
Proof. intros cap b Hc. unfold put_bytes. destruct (Z.ltb_spec cap (zlen s)); [done|]. intros [= <-]. lia. Qed.

Lemma cid_encode_size c cap b : ConnectionId.encode c cap = Ok b -> zlen b = ConnectionId.encoded_len c /\ zlen b <= cap.
Proof.
  unfold ConnectionId.encode. destruct (Z.ltb_spec cap (ConnectionId.encoded_len c)); [done|].
  intros [= <-]. rewrite zlen_map_first, zlen_be_bytes.
  assert (0 <= ConnectionId.encoded_len c) by (unfold ConnectionId.encoded_len; repeat case_match; lia). lia.
Qed.

Lemma fits_cid c : fits (encode_compact_cid c).
Proof. intros cap b Hc. unfold encode_compact_cid. destruct (c =? 0); [done|]. by intros [_ ?]%cid_encode_size. Qed.

Lemma fits_role r : fits (put_role r).
Proof. apply fits_varint. Qed.

#[export] Hint Resolve fits_nil fits_seq fits_varint fits_bytes fits_cid fits_role : fits.

Lemma fits_gaps l : forall previous, fits (put_gaps previous l).
Proof.
  induction l as [|c l IH]; intros previous; simpl; [auto with fits|].
  intros cap b Hc (gap & _ & Hb)%bind_Ok. revert Hb. apply fits_seq; auto with fits.
Qed.

Lemma fits_ack_ranges largest delay ranges : fits (put_ack_ranges largest delay ranges).
Proof.
  intros cap b Hc. unfold put_ack_ranges. destruct ranges as [|first rest]; [done|].
  destruct (negb _); [done|]. pose proof (fits_gaps rest first).
  match goal with |- ?w cap = _ -> _ => assert (fits w) as Hw by auto 10 with fits end. by apply Hw.
Qed.

Lemma fits_prefix s : fits (encode_stream_prefix s).
Proof. unfold encode_stream_prefix. auto 10 with fits. Qed.

(** Every frame. *)
Lemma fits_one x : fits (fun cap => if cap <? 1 then Err Error.BufferTooSmall else Ok [x]).
Proof.
  intros cap b Hc. destruct (Z.ltb_spec cap 1); [done|]. intros Hb. apply Ok_inj in Hb as <-.
  unfold zlen. simpl. lia.
Qed.

Lemma fits_encode f : fits (encode f).
Proof.
  destruct f; unfold encode; try (by auto 12 using fits_prefix, fits_ack_ranges, fits_one with fits).
  case_match; auto 10 with fits.
Qed.

Section packets.
Context `{Allocator, PacketSize, Features}.

Lemma header_size e d k cap b : Credit.packet_header e d k cap = Ok b -> zlen b <= cap.
Proof.
  unfold Credit.packet_header, short_encode. cbv zeta. cbn [packet_number_len dcid packet_number].
  destruct (Z.ltb_spec cap (1 + ConnectionId.encoded_len d + clamp k 1 4)) as [|Hcap]; [done|].
  intros (cid & [Hl _]%cid_encode_size & Hb)%bind_Ok. apply Ok_inj in Hb as <-.
  rewrite zlen_cons, zlen_app, Hl, zlen_be_bytes.
  assert (0 <= clamp k 1 4) by (unfold clamp; repeat case_match; bools; lia). lia.
Qed.

Lemma stream_credit_size c ids : forall cap n b,
  0 <= cap -> Credit.put_stream_credit c ids cap = Ok (n, b) -> zlen b <= cap.
Proof.
  induction ids as [|id ids IH]; simpl; intros cap n b Hc.
  { intros [= <- <-]. rewrite zlen_nil. lia. }
  destruct (encode _ cap) as [b1|err|] eqn:He; [| |done].
  - intros ([m rest] & Hrest & Hb)%bind_Ok. apply Ok_inj in Hb. injection Hb as <- <-.
    apply fits_encode in He; [|done]. apply IH in Hrest; [|lia]. rewrite zlen_app. lia.
  - destruct (Credit.too_small err); [|done]. intros [= <- <-]. rewrite zlen_nil. lia.
Qed.

Lemma put_credit_size e cap piggyback n bidi b :
  0 <= cap -> Credit.put_credit e cap piggyback = Ok (Some (n, bidi, b)) -> zlen b <= cap.
Proof.
  intros Hc. unfold Credit.put_credit. destruct (encode _ cap) as [b0|err|] eqn:H0'; [| |done].
  2:{ by destruct (_ && _). }
  apply fits_encode in H0'; [|done]. cbv zeta.
  intros ([m b1] & H1'%stream_credit_size & Hb)%bind_Ok; [|lia]. revert Hb.
  destruct (e_max_streams_bidi_pending e).
  2:{ intros Hb. apply Ok_inj in Hb. injection Hb as <- <- <-. rewrite zlen_app. lia. }
  destruct (encode _ (cap - zlen b0 - zlen b1)) as [b2|err|] eqn:H2'; [| |done].
  - apply fits_encode in H2'; [|lia]. intros Hb. apply Ok_inj in Hb. injection Hb as <- <- <-.
    rewrite !zlen_app. lia.
  - destruct (Credit.too_small err); [|done]. intros Hb. apply Ok_inj in Hb. injection Hb as <- <- <-.
    rewrite zlen_app. lia.
Qed.

Lemma finish_size control b c b' :
  Credit.finish_control control b = Ok (Some (c, b')) -> b' = b /\ used c = zlen b.
Proof. unfold Credit.finish_control. destruct (_ =? 0); [done|]. intros Hb. apply Ok_inj in Hb. by injection Hb as <- <-. Qed.

Lemma control_tail_size freq piggyback cap control b c b' :
  zlen b <= cap -> Credit.control_tail freq piggyback cap control b = Ok (Some (c, b')) ->
  zlen b' <= cap /\ used c = zlen b'.
Proof.
  intros Hb. unfold Credit.control_tail. destruct freq as [f|]; [|by intros [-> ->]%finish_size].
  intros (r & Hr & Hfin)%bind_Ok. destruct r as [b2|]; apply finish_size in Hfin as [-> ->]; [|done].
  unfold Credit.put_ack_frequency in Hr. destruct f as [[[q t] d] o].
  destruct (encode _ _) as [x|err|] eqn:Hx; [| |done].
  - apply Ok_inj in Hr. injection Hr as ->. apply fits_encode in Hx; [|lia]. rewrite zlen_app. lia.
  - by destruct (_ && _).
Qed.

(** The control frames, whose length is the [used] of the result. *)
Lemma control_size e i cap piggyback c b :
  0 <= cap -> Credit.encode_control_frames_on_path e i cap piggyback = Ok (Some (c, b)) ->
  zlen b <= cap /\ used c = zlen b.
Proof.
  intros Hc. unfold Credit.encode_control_frames_on_path. destruct (get_path e i) as [p|]; [|done].
  destruct (_ && _); [done|]. cbv zeta.
  match goal with |- context [if negb ?sa && _ then _ else _] => set (send_ack := sa) end.
  destruct (negb send_ack && _); [done|]. destruct (negb send_ack).
  { apply control_tail_size. rewrite zlen_nil. lia. }
  intros (largest & _ & Hb)%bind_Ok. revert Hb.
  destruct (encode _ cap) as [b0|err|] eqn:H0'; [|by destruct (piggyback && Credit.too_small err)|done].
  apply fits_encode in H0'; [|done].
  destruct (negb _); [by apply control_tail_size|]. intros (r & Hr & Hb)%bind_Ok.
  destruct r as [[[n bidi] b1]|].
  - apply put_credit_size in Hr; [|lia]. revert Hb. apply control_tail_size. rewrite zlen_app. lia.
  - apply Ok_inj in Hb. by injection Hb as <- <-.
Qed.

Lemma stream_packet_size e i d sid off f data cap packet control :
  0 <= cap -> Transmit.build_stream_packet e i d sid off f data cap = Ok (packet, control) ->
  zlen packet <= cap.
Proof.
  intros Hc Hb. unfold Transmit.build_stream_packet in Hb. cbv zeta in Hb.
  do 4 apply bind_Ok in Hb as ([] & _ & Hb).
  apply bind_Ok in Hb as (h & _ & Hb). apply bind_Ok in Hb as (prefix & _ & Hb).
  apply bind_Ok in Hb as ([] & Hle%guard_err_Ok%Z.ltb_ge & Hb).
  apply bind_Ok in Hb as (r & Hr & Hb). destruct r as [[c b]|]; apply Ok_inj in Hb; injection Hb as <- <-; [|done].
  apply control_size in Hr as [Hr _]; [|lia]. rewrite zlen_app. lia.
Qed.

Lemma header_then e d k cap h f b :
  Credit.packet_header e d k cap = Ok h -> encode f (cap - zlen h) = Ok b -> zlen (h ++ b) <= cap.
Proof. intros Hh%header_size Hb. apply fits_encode in Hb; [|lia]. rewrite zlen_app. lia. Qed.

Lemma path_control_size e i d f cap packet next :
  Transmit.build_path_control e i d f cap = Ok (packet, next) -> zlen packet <= cap.
Proof.
  unfold Transmit.build_path_control. destruct (get_path e i) as [p|]; [|done].
  intros ([] & _ & (h & Hh & (b & Hb & (pk & Hpk & (nx & _ & Hr)%bind_Ok)%bind_Ok)%bind_Ok)%bind_Ok)%bind_Ok.
  apply Ok_inj in Hr. injection Hr as <- <-. pose proof (header_then _ _ _ _ _ _ _ Hh Hb) as Hle.
  unfold Transmit.pad_challenge in Hpk. destruct f; try (by apply Ok_inj in Hpk as <-).
  destruct (Z.ltb_spec (Z.min (max_packet_size (path_congestion p)) cap) (zlen (h ++ b))); [done|].
  apply Ok_inj in Hpk as <-. rewrite zlen_app. unfold zlen in *. rewrite length_replicate. lia.
Qed.

Lemma plan_size e pn i cap budgeted pl :
  Retransmit.plan_retransmission e pn i cap budgeted = Ok (Some pl) -> zlen (pl_packet pl) <= cap.
Proof.
  unfold Retransmit.plan_retransmission.
  intros (source & _ & Hb)%bind_Ok. destruct source as [[[[[[index sent] d] rs] range] [[off data] f]]|]; [|done].
  revert Hb. intros ([slot evict] & _ & (nx & _ & (h & Hh & (b & Hb & Hr)%bind_Ok)%bind_Ok)%bind_Ok)%bind_Ok.
  apply Ok_inj in Hr. injection Hr as <-. cbn [pl_packet]. by eapply header_then.
Qed.

Lemma stream_limits_size c ids : forall cap b,
  0 <= cap -> Retransmit.put_stream_limits c ids cap = Ok b -> zlen b <= cap.
Proof.
  induction ids as [|id ids IH]; simpl; intros cap b Hc.
  { intros [= <-]. rewrite zlen_nil. lia. }
  intros (b1 & H1'%fits_encode & (rest & Hrest & Hb)%bind_Ok)%bind_Ok; [|done].
  apply Ok_inj in Hb as <-. apply IH in Hrest; [|lia]. rewrite zlen_app. lia.
Qed.

Lemma optional_size (b : bool) f cap x :
  0 <= cap -> (if b then encode f cap else Ok []) = Ok x -> zlen x <= cap.
Proof.
  intros Hc. destruct b; [by apply fits_encode|]. intros Hx. apply Ok_inj in Hx as <-.
  rewrite zlen_nil. lia.
Qed.

Lemma credit_copy_size e i a m n bidi cap packet slot next :
  Retransmit.build_credit_copy e i a m n bidi cap = Ok (Some (packet, slot, next)) -> zlen packet <= cap.
Proof.
  unfold Retransmit.build_credit_copy.
  intros (d & _ & (sl & _ & (nx & _ & (h & Hh%header_size & (o & Ho & Hb)%bind_Ok)%bind_Ok)%bind_Ok)%bind_Ok)%bind_Ok.
  destruct o as [ab|]; [|done]. apply bind_Ok in Hb as (b & Hcr & Hb). apply Ok_inj in Hb. injection Hb as <- <- <-.
  assert (zlen ab <= cap - zlen h) as Hab.
  { unfold Retransmit.put_copied_ack in Ho. destruct a; simpl in Ho.
    - destruct (Ep.largest_received e); [|done]. apply bind_Ok in Ho as (x & Hx%fits_encode & Ho); [|lia].
      apply Ok_inj in Ho. by injection Ho as <-.
    - apply Ok_inj in Ho. injection Ho as <-. rewrite zlen_nil. lia. }
  unfold Retransmit.put_copied_credit in Hcr.
  apply bind_Ok in Hcr as (b0 & Hb0%optional_size & Hcr); [|lia].
  apply bind_Ok in Hcr as (b1 & Hb1%stream_limits_size & Hcr); [|lia].
  apply bind_Ok in Hcr as (b2 & Hb2%optional_size & Hcr); [|lia]. apply Ok_inj in Hcr as <-.
  rewrite !zlen_app. lia.
Qed.
End packets.
