(* ===== verification/Publication.v ===== *)
(** * Publication of receive credit

    The receiver of an association owes its peer every limit it has raised.
    [Credit.v] queues raised stream limits, publishes them with MAX_DATA and
    MAX_STREAMS in a control packet, remembers which part of the queue the packet
    carried, and retires that part when the packet is acknowledged.  Here the
    peer's knowledge is a ghost: it changes only when a packet that carried the
    frames is acknowledged.  The invariant says that a limit the peer may not
    know is still queued, that anything queued keeps the publication timer armed,
    and that what an acknowledgement retires was in the acknowledged packet.  It
    holds for consumption, window grants, new streams, retirement, publication
    and acknowledgement in any order; [set_receive_growth_limits] keeps it only
    while no publication is in flight, and a counterexample shows why. *)

From S2P Require Import Prelude Records Methods Wire PacketHeader Keyed AckRanges Reader Frames FlowControl Congestion PathState SendBuffer Endpoint Credit Ledger Transmit Retransmit.

(** ** What the peer knows *)
Record Known : Type := mkKnown {
  k_data : Z;
  k_stream : Z -> Z;
  k_bidi : Z;
}.

(** The peer applies a frame of credit; limits never go down. *)
Definition learn_frame (k : Known) (f : Frame) : Known :=
  match f with
  | MaxData m => mkKnown (Z.max (k_data k) m) (k_stream k) (k_bidi k)
  | MaxStreamData id m =>
      mkKnown (k_data k) (fun i => if i =? id then Z.max (k_stream k i) m else k_stream k i) (k_bidi k)
  | MaxStreamsBidi m => mkKnown (k_data k) (k_stream k) (Z.max (k_bidi k) m)
  | _ => k
  end.
Definition learn (k : Known) (l : list Frame) : Known := fold_left learn_frame l k.

Definition known_le (k k' : Known) : Prop :=
  k_data k <= k_data k' /\ (forall id, k_stream k id <= k_stream k' id) /\ k_bidi k <= k_bidi k'.

#[export] Instance known_le_pre : PreOrder known_le.
Proof.
  split; [intros k; split_and!; intros; lia|]. intros x y z (? & Hs & ?) (? & Hs' & ?).
  split_and!; [lia| |lia]. intros id. by transitivity (k_stream y id).
Qed.

Lemma learn_frame_le k f : known_le k (learn_frame k f).
Proof. destruct f; split_and!; intros; simpl; try lia. case_match; lia. Qed.

Lemma learn_le k l : known_le k (learn k l).
Proof.
  revert k. induction l as [|f l IH]; intros k; simpl; [done|]. etrans; [apply learn_frame_le|apply IH].
Qed.

(** Every frame of the list is known afterwards. *)
Definition frame_known (k : Known) (f : Frame) : Prop :=
  match f with
  | MaxData m => m <= k_data k
  | MaxStreamData id m => m <= k_stream k id
  | MaxStreamsBidi m => m <= k_bidi k
  | _ => True
  end.

Lemma frame_known_le k k' f : known_le k k' -> frame_known k f -> frame_known k' f.
Proof. intros (? & Hs & ?). destruct f; simpl; intros; try done; try lia. specialize (Hs id). lia. Qed.

Lemma learn_known l : forall k f, f ∈ l -> frame_known (learn k l) f.
Proof.
  induction l as [|g l IH]; intros k f Hf; [by apply not_elem_of_nil in Hf|]. simpl.
  apply elem_of_cons in Hf as [->|Hf]; [|by apply IH].
  eapply frame_known_le; [apply learn_le|]. destruct g; simpl; try done; try lia.
  rewrite Z.eqb_refl. lia.
Qed.

(** ** What a control packet carries *)
Section frames.
Context `{Allocator, PacketSize, Features}.

Definition stream_limit_of (c : ConnectionState) (id : Z) : Z :=
  default (l_max_stream_data (limits c)) (Conn.stream_max_data c id).

(** The credit frames behind [credit_stream_count] and [credit_max_streams_bidi]. *)
Definition credit_frames (e : EndpointState) (n : nat) (bidi : bool) : list Frame :=
  MaxData (fc_max_data (connection (e_receive e)))
  :: map (fun id => MaxStreamData id (stream_limit_of (e_receive e) id)) (take n (e_pending_stream_ids e))
  ++ (if bidi then [MaxStreamsBidi (l_max_streams_bidi (limits (e_receive e)))] else []).

(** [b] is the frames one after the other. *)
Inductive encodes : list Frame -> bytes -> Prop :=
  | encodes_nil : encodes [] []
  | encodes_cons f l cap b1 b2 : encode f cap = Ok b1 -> encodes l b2 -> encodes (f :: l) (b1 ++ b2).

Lemma encodes_app l b l' b' : encodes l b -> encodes l' b' -> encodes (l ++ l') (b ++ b').
Proof.
  induction 1 as [|f l cap b1 b2 Hf Hl IH]; [done|]. intros H'. simpl. rewrite <- app_assoc.
  econstructor; [exact Hf|by apply IH].
Qed.

Lemma stream_credit_frames c ids : forall cap n b,
  Credit.put_stream_credit c ids cap = Ok (n, b) ->
  (n <= length ids)%nat /\ encodes (map (fun id => MaxStreamData id (stream_limit_of c id)) (take n ids)) b.
Proof.
  induction ids as [|id ids IH]; simpl; intros cap n b.
  { intros [= <- <-]. split; [done|constructor]. }
  destruct (encode _ cap) as [b1|err|] eqn:He; [| |done].
  - intros ([m rest] & Hrest & Hb)%bind_Ok. apply Ok_inj in Hb. injection Hb as <- <-.
    destruct (IH _ _ _ Hrest) as [Hm Henc]. split; [lia|]. simpl. econstructor; [exact He|exact Henc].
  - destruct (Credit.too_small err); [|done]. intros [= <- <-]. split; [lia|constructor].
Qed.

(** The credit part of a control packet is exactly these frames. *)
Lemma put_credit_frames e cap piggyback n bidi b :
  Credit.put_credit e cap piggyback = Ok (Some (n, bidi, b)) ->
  encodes (credit_frames e n bidi) b /\ (bidi = true -> e_max_streams_bidi_pending e = true).
Proof.
  unfold Credit.put_credit. destruct (encode _ cap) as [b0|err|] eqn:H0'; [|by destruct (_ && _)|done].
  set (limit := match e_credit_packet_number e with Some _ => _ | None => _ end).
  intros ([m b1] & H1' & Hb)%bind_Ok. apply stream_credit_frames in H1' as [Hm Henc].
  assert (take m (take limit (e_pending_stream_ids e)) = take m (e_pending_stream_ids e)) as Htake.
  { rewrite take_take. f_equal. rewrite length_take in Hm. lia. }
  rewrite Htake in Henc. revert Hb.
  assert (encodes (MaxData (fc_max_data (connection (e_receive e)))
     :: map (fun id => MaxStreamData id (stream_limit_of (e_receive e) id)) (take m (e_pending_stream_ids e)) ++ [])
     (b0 ++ b1)) as Hno.
  { rewrite app_nil_r. econstructor; [exact H0'|exact Henc]. }
  destruct (e_max_streams_bidi_pending e) eqn:Hbidi.
  2:{ intros Hb. apply Ok_inj in Hb. injection Hb as <- <- <-. by split. }
  destruct (encode _ (cap - zlen b0 - zlen b1)) as [b2|err|] eqn:H2'; [| |done].
  - intros Hb. apply Ok_inj in Hb. injection Hb as <- <- <-. split; [|done].
    econstructor; [exact H0'|]. apply encodes_app; [exact Henc|]. rewrite <- (app_nil_r b2).
    econstructor; [exact H2'|constructor].
  - destruct (Credit.too_small err); [|done]. intros Hb. apply Ok_inj in Hb. injection Hb as <- <- <-. by split.
Qed.

Definition same_publication (c c' : EncodedControlFrames) : Prop :=
  ack c' = ack c /\ credit c' = credit c /\ credit_stream_count c' = credit_stream_count c /\
  credit_max_streams_bidi c' = credit_max_streams_bidi c.

Lemma tail_publication freq piggyback cap c b c' b' :
  Credit.control_tail freq piggyback cap c b = Ok (Some (c', b')) ->
  same_publication c c' /\ exists rest, b' = b ++ rest.
Proof.
  assert (forall c1 b1, Credit.finish_control c1 b1 = Ok (Some (c', b')) ->
            c' = c1 <| used := zlen b1 |> /\ b' = b1) as Hfin.
  { intros c1 b1. unfold Credit.finish_control. destruct (_ =? 0); [done|]. intros Hb. apply Ok_inj in Hb.
    by injection Hb as <- <-. }
  unfold Credit.control_tail. destruct freq as [f|].
  2:{ intros [-> ->]%Hfin. split; [done|]. exists []. by rewrite app_nil_r. }
  intros (r & _ & Hr)%bind_Ok. destruct r as [b2|]; apply Hfin in Hr as [-> ->]; (split; [done|]).
  - by exists b2.
  - exists []. by rewrite app_nil_r.
Qed.

(** A control packet that says it carries credit does. *)
Lemma control_publication e i cap piggyback c b :
  Credit.encode_control_frames_on_path e i cap piggyback = Ok (Some (c, b)) -> credit c = true ->
  ack c = true /\ (credit_max_streams_bidi c = true -> e_max_streams_bidi_pending e = true) /\
  exists b0 b1 b2, b = b0 ++ b1 ++ b2 /\
    encodes (credit_frames e (credit_stream_count c) (credit_max_streams_bidi c)) b1.
Proof.
  unfold Credit.encode_control_frames_on_path. destruct (get_path e i) as [p|]; [|done].
  destruct (_ && _); [done|]. cbv zeta.
  match goal with |- context [if negb ?sa && _ then _ else _] => set (send_ack := sa) end.
  destruct (negb send_ack && _); [done|]. destruct (negb send_ack).
  { intros [(_ & Hc & _) _]%tail_publication Hcr. rewrite Hc in Hcr. done. }
  intros (largest & _ & Hb)%bind_Ok Hcr. revert Hb.
  destruct (encode _ cap) as [b0|err|]; [|by destruct (piggyback && Credit.too_small err)|done].
  destruct (negb _).
  { intros [(_ & Hc & _) _]%tail_publication. rewrite Hc in Hcr. done. }
  intros (r & Hr & Hb)%bind_Ok. destruct r as [[[n bidi] b1]|].
  2:{ apply Ok_inj in Hb. injection Hb as <- <-. done. }
  apply put_credit_frames in Hr as [Henc Hbidi].
  apply tail_publication in Hb as [(Ha & _ & Hn & Hm) [rest ->]].
  split; [by rewrite Ha|]. rewrite Hn, Hm. split; [exact Hbidi|]. exists b0, b1, rest.
  split; [by rewrite app_assoc|exact Henc].
Qed.
End frames.

(** ** The invariant *)
Record credit_inv (e : EndpointState) (k : Known) (pub : list Frame) : Prop := {
  ci_distinct : keys_distinct st_id (streams (e_receive e));
  ci_base : forall id, l_max_stream_data (limits (e_receive e)) <= k_stream k id;
  ci_stream : forall st, st ∈ streams (e_receive e) ->
    st_max_data st <= k_stream k (st_id st) \/ (st_id st ∈ e_pending_stream_ids e);
  ci_conn : fc_max_data (connection (e_receive e)) <= k_data k \/ e_credit_pending e = true;
  ci_bidi : l_max_streams_bidi (limits (e_receive e)) <= k_bidi k \/ e_max_streams_bidi_pending e = true;
  ci_wake : e_pending_stream_ids e <> [] \/ e_max_streams_bidi_pending e = true -> e_credit_pending e = true;
  ci_pub : e_credit_packet_number e <> None -> e_credit_dirty e = false ->
    let k' := learn k pub in
    fc_max_data (connection (e_receive e)) <= k_data k' /\
    (forall st, st ∈ streams (e_receive e) ->
       st_id st ∈ take (e_credit_inflight_stream_count e) (e_pending_stream_ids e) ->
       st_max_data st <= k_stream k' (st_id st)) /\
    (e_credit_inflight_max_streams_bidi e = true -> l_max_streams_bidi (limits (e_receive e)) <= k_bidi k');
}.

(** Two states that agree on everything the publication is about. *)
Definition same_credit (e e' : EndpointState) : Prop :=
  e_receive e' = e_receive e /\ e_pending_stream_ids e' = e_pending_stream_ids e /\
  e_credit_inflight_stream_count e' = e_credit_inflight_stream_count e /\
  e_credit_inflight_max_streams_bidi e' = e_credit_inflight_max_streams_bidi e /\
  e_credit_pending e' = e_credit_pending e /\ e_credit_packet_number e' = e_credit_packet_number e /\
  e_credit_dirty e' = e_credit_dirty e /\ e_max_streams_bidi_pending e' = e_max_streams_bidi_pending e.

Lemma same_credit_inv e e' k pub : same_credit e e' -> credit_inv e k pub -> credit_inv e' k pub.
Proof.
  intros (H1 & H2 & H3 & H4 & H5 & H6 & H7 & H8) [Hd Hb Hs Hc Hm Hw Hp].
  split; rewrite ?H1, ?H2, ?H3, ?H4, ?H5, ?H6, ?H7, ?H8; done.
Qed.

Section publication.
Context `{Allocator, PacketSize, Features}.

(** *** Acknowledgement *)
Lemma acknowledged_inv e k pub acked :
  credit_inv e k pub ->
  credit_inv (Credit.acknowledge_credit acked e)
    (if Credit.credit_acknowledged acked e then learn k pub else k) pub.
Proof.
  intros He. unfold Credit.acknowledge_credit. destruct (Credit.credit_acknowledged acked e) eqn:Hack; [|done].
  assert (e_credit_packet_number e <> None) as Hpn.
  { unfold Credit.credit_acknowledged in Hack. by destruct (e_credit_packet_number e). }
  destruct He as [Hd Hb Hs Hc Hm Hw Hp]. specialize (Hp Hpn).
  pose proof (learn_le k pub) as (Hld & Hls & Hlb).
  assert (forall id, l_max_stream_data (limits (e_receive e)) <= k_stream (learn k pub) id) as Hb'.
  { intros id. specialize (Hls id). specialize (Hb id). lia. }
  assert (forall st, st ∈ streams (e_receive e) -> st_max_data st <= k_stream k (st_id st) ->
            st_max_data st <= k_stream (learn k pub) (st_id st)) as Hup.
  { intros st _ Hst. specialize (Hls (st_id st)). lia. }
  unfold Credit.retire_publication. destruct (e_credit_dirty _) eqn:Hdirty; get_set_in Hdirty.
  - split; get_set; try done.
    + intros st Hst. destruct (Hs st Hst); [left; auto|by right].
    + by right.
    + destruct Hm; [left; lia|by right].
  - specialize (Hp eq_refl) as (Hpd & Hps & Hpb). cbv zeta. get_set.
    set (n := Nat.min _ _).
    assert (take n (e_pending_stream_ids e) = take (e_credit_inflight_stream_count e) (e_pending_stream_ids e)) as Htake.
    { unfold n. destruct (Nat.le_ge_cases (e_credit_inflight_stream_count e) (length (e_pending_stream_ids e))).
      - by rewrite Nat.min_l.
      - by rewrite Nat.min_r, firstn_all, take_ge. }
    assert (forall st, st ∈ streams (e_receive e) ->
      st_max_data st <= k_stream (learn k pub) (st_id st) \/ (st_id st ∈ drop n (e_pending_stream_ids e))) as Hs'.
    { intros st Hst. destruct (Hs st Hst) as [|Hin]; [left; auto|].
      rewrite <- (take_drop n), elem_of_app in Hin. destruct Hin as [Hin|]; [|by right].
      rewrite Htake in Hin. left. auto. }
    destruct (e_credit_inflight_max_streams_bidi e); get_set.
    all: match goal with |- credit_inv (if ?b then _ else _) _ _ => destruct b eqn:Hpend end.
    all: split; get_set; try done; auto.
    all: try (destruct Hm; [left; lia|by right]).
    all: apply orb_false_iff in Hpend as [Hpend%negb_false_iff%bool_decide_eq_true ?]; intros [?|?]; congruence.
Qed.

(** *** Changes of the receive state *)

(** What receiving, opening, consuming and removing do to the limits. *)
Definition no_raise (c c' : ConnectionState) : Prop :=
  (keys_distinct st_id (streams c) -> keys_distinct st_id (streams c')) /\
  limits c' = limits c /\ fc_max_data (connection c') = fc_max_data (connection c) /\
  forall st, st ∈ streams c' ->
    st_max_data st = l_max_stream_data (limits c) \/
    exists st0, st0 ∈ streams c /\ st_id st0 = st_id st /\ st_max_data st0 = st_max_data st.

Lemma no_raise_refl c : no_raise c c.
Proof. split_and!; try done. intros st Hst. right. by exists st. Qed.

Lemma no_raise_inv e k pub c' :
  credit_inv e k pub -> no_raise (e_receive e) c' -> credit_inv (e <| e_receive := c' |>) k pub.
Proof.
  intros [Hd Hb Hs Hc Hm Hw Hp] (Hd' & Hl & Hf & Hst'). split; get_set; rewrite ?Hl, ?Hf; auto.
  - intros st Hst. destruct (Hst' st Hst) as [->|(st0 & Hin & <- & <-)]; [left; auto|auto].
  - intros H1' H2'. destruct (Hp H1' H2') as (Hpd & Hps & Hpb). split_and!; [done| |done].
    intros st Hst. destruct (Hst' st Hst) as [->|(st0 & Hin & <- & <-)]; [|auto].
    intros _. destruct (learn_le k pub) as (_ & Hls & _). specialize (Hls (st_id st)). specialize (Hb (st_id st)).
    simpl. lia.
Qed.

Lemma streams_alter_no_raise f i (l : list StreamState) :
  (forall st, st_id (f st) = st_id st /\ st_max_data (f st) = st_max_data st) ->
  forall st, st ∈ alter f i l ->
    exists st0, st0 ∈ l /\ st_id st0 = st_id st /\ st_max_data st0 = st_max_data st.
Proof.
  intros Hf st (j & Hj)%list_elem_of_lookup.
  apply lookup_alter_other in Hj as [(-> & y & Hy & ->)|(_ & Hj)].
  - exists y. destruct (Hf y). split; [by eapply list_elem_of_lookup_2|done].
  - exists st. split; [by eapply list_elem_of_lookup_2|done].
Qed.

Lemma insert_no_raise c id : Conn.find c id = None -> no_raise c (Conn.insert_stream c id).2.
Proof.
  intros Hid. unfold Conn.insert_stream. destruct (try_reserve _); [|apply no_raise_refl]. cbn [negb snd].
  split_and!; try done; [by intros Hd; apply keys_distinct_snoc|]. cbn [streams Conn.set_streams].
  intros st [Hst| ->%list_elem_of_singleton]%elem_of_app; [right; by exists st|by left].
Qed.

Lemma accept_at_no_raise c slot end_ off len fin : no_raise c (Conn.accept_at c slot end_ off len fin).2.
Proof.
  unfold Conn.accept_at. destruct (streams c !! slot) as [st|] eqn:Hslot; [|apply no_raise_refl]. cbv zeta.
  destruct (negb _); [apply no_raise_refl|].
  destruct (RecvStream.accept st off len fin) as [st'| |] eqn:Ha; [|apply no_raise_refl..].
  assert (st_id st' = st_id st /\ st_max_data st' = st_max_data st) as [Hid Hmax].
  { unfold RecvStream.accept in Ha. apply bind_Ok in Ha as (end' & _ & Ha).
    destruct (_ >? _); [done|]. by injection Ha as <-. }
  split_and!; try done; [intros Hd; by eapply keys_distinct_insert|]. simpl.
  intros x (j & Hj)%list_elem_of_lookup. right. apply list_lookup_insert_Some in Hj as [(-> & -> & _)|(_ & Hj)].
  - exists st. split; [by eapply list_elem_of_lookup_2|done].
  - exists x. split; [by eapply list_elem_of_lookup_2|done].
Qed.

Lemma no_raise_trans c1 c2 c3 : no_raise c1 c2 -> no_raise c2 c3 -> no_raise c1 c3.
Proof.
  intros (Hd & Hl & Hf & Hs) (Hd' & Hl' & Hf' & Hs'). split_and!; [auto|congruence|congruence|].
  intros st Hst. destruct (Hs' st Hst) as [->|(st0 & Hin & <- & <-)]; [left; by rewrite Hl|auto].
Qed.

Lemma accept_no_raise c id off len fin : no_raise c (Conn.accept c id off len fin).2.
Proof.
  unfold Conn.accept. destruct (checked_add off len) as [end_|]; [|apply no_raise_refl].
  destruct (Conn.accept_slot c id end_) as [r c'] eqn:Hslot.
  assert (no_raise c c') as Hc.
  { apply accept_slot_cases in Hslot as [(-> & _)|[(-> & _)|(Hid & _ & _ & _ & -> & _)]];
      [apply no_raise_refl..|by apply insert_no_raise]. }
  destruct r; [|done..]. eapply no_raise_trans; [exact Hc|apply accept_at_no_raise].
Qed.

Lemma open_no_raise c id : no_raise c (Conn.open c id).2.
Proof.
  unfold Conn.open. destruct (negb _); [apply no_raise_refl|].
  destruct (Conn.find c id) eqn:Hid; [apply no_raise_refl|by apply insert_no_raise].
Qed.

Lemma prepare_no_raise c id : no_raise c (Conn.prepare_local_bidi_receive c id).2.
Proof.
  unfold Conn.prepare_local_bidi_receive. destruct (Conn.find c id) eqn:Hid; [apply no_raise_refl|].
  destruct (_ || _); [apply no_raise_refl|by apply insert_no_raise].
Qed.

Lemma consume_no_raise c id n c' : Conn.consume c id n = Ok c' -> no_raise c c'.
Proof.
  unfold Conn.consume. intros (i & _ & [= <-])%bind_Ok. split_and!; try done.
  - intros Hd. by apply keys_distinct_alter.
  - intros st Hst. right. eapply streams_alter_no_raise; [|exact Hst]. done.
Qed.

Lemma shrink_no_raise c c' :
  limits c' = limits c -> connection c' = connection c ->
  (exists i, streams c' = delete i (streams c)) -> no_raise c c'.
Proof.
  intros Hl Hf [i Hs]. split_and!; [rewrite Hs; apply keys_distinct_delete|done|by rewrite Hf|].
  intros st Hst. right. exists st. split; [|done]. rewrite Hs in Hst.
  eapply list_elem_of_lookup in Hst as [j Hj]. rewrite list_lookup_delete in Hj.
  case_decide; by eapply list_elem_of_lookup_2.
Qed.

Lemma remove_no_raise c id : no_raise c (Conn.remove_stream c id).2.
Proof.
  unfold Conn.remove_stream. destruct (Conn.find c id) as [i|]; [|apply no_raise_refl].
  apply shrink_no_raise; try done. by exists i.
Qed.

Lemma retire_no_raise c id : no_raise c (Conn.retire_stream c id).2.
Proof.
  unfold Conn.retire_stream. destruct (Conn.find c id) as [i|]; [|apply no_raise_refl].
  destruct (Conn.absorb _ _ _ _) as [[first last] kept]. apply shrink_no_raise; try done. by exists i.
Qed.

(** *** Raising a limit

    What a method that raises a limit must do: queue the streams it raised, keep
    what was queued, arm the timer, and mark a publication in flight as stale. *)
Lemma raised_inv e e' k pub :
  credit_inv e k pub ->
  keys_distinct st_id (streams (e_receive e')) ->
  l_max_stream_data (limits (e_receive e')) = l_max_stream_data (limits (e_receive e)) ->
  (forall st, st ∈ streams (e_receive e') ->
     (exists st0, st0 ∈ streams (e_receive e) /\ st_id st0 = st_id st /\ st_max_data st0 = st_max_data st) \/
     st_id st ∈ e_pending_stream_ids e') ->
  (forall st, st ∈ streams (e_receive e') -> st_id st ∈ e_pending_stream_ids e ->
     st_id st ∈ e_pending_stream_ids e') ->
  e_credit_pending e' = true ->
  (e_max_streams_bidi_pending e' = true \/
   l_max_streams_bidi (limits (e_receive e')) = l_max_streams_bidi (limits (e_receive e)) /\
   e_max_streams_bidi_pending e' = e_max_streams_bidi_pending e) ->
  (e_credit_packet_number e' <> None -> e_credit_dirty e' = true) ->
  credit_inv e' k pub.
Proof.
  intros [Hd Hb Hs Hc Hm Hw Hp] Hd' Hl Hst Hkeep Hpend Hbidi Hdirty. split; rewrite ?Hl; auto.
  - intros st Hin. destruct (Hst st Hin) as [(st0 & Hin0 & Hid & Hmax)|]; [|auto].
    destruct (Hs st0 Hin0) as [Hk|Hq]; [left; by rewrite <- Hid, <- Hmax|right].
    apply Hkeep; [done|]. by rewrite <- Hid.
  - destruct Hbidi as [|(-> & ->)]; auto.
  - intros H1' H2'. rewrite (Hdirty H1') in H2'. done.
Qed.

Context (infallible : forall n, try_reserve n = true).

Lemma queue_spec id e : exists e',
  Credit.queue_stream_credit id e = (Ok tt, e') /\ e_receive e' = e_receive e /\
  e_credit_pending e' = true /\ (e_credit_packet_number e' <> None -> e_credit_dirty e' = true) /\
  e_max_streams_bidi_pending e' = e_max_streams_bidi_pending e /\
  id ∈ e_pending_stream_ids e' /\ (forall i, i ∈ e_pending_stream_ids e -> i ∈ e_pending_stream_ids e').
Proof.
  unfold Credit.queue_stream_credit. cbv zeta. get_set.
  assert (forall d, d || bool_decide (e_credit_packet_number e <> None) = true \/ e_credit_packet_number e = None) as Hd.
  { intros d. destruct (e_credit_packet_number e); [left|by right]. by rewrite bool_decide_eq_true_2, orb_true_r. }
  rewrite infallible. destruct (existsb _ _) eqn:Hq; eexists; (split; [done|]); get_set; split_and!; try done.
  - intros Hpn. by destruct (Hd (e_credit_dirty e)).
  - apply existsb_exists in Hq as (x & Hx & ->%Z.eqb_eq). by apply list_elem_of_In.
  - intros Hpn. by destruct (Hd (e_credit_dirty e)).
  - apply elem_of_app. right. by apply list_elem_of_singleton.
  - intros i Hi. apply elem_of_app. by left.
Qed.

(** Two receive states that differ in the limits of one stream and the
    connection. *)
Definition only_raises (id : Z) (c c' : ConnectionState) : Prop :=
  (keys_distinct st_id (streams c) -> keys_distinct st_id (streams c')) /\ limits c' = limits c /\
  forall st, st ∈ streams c' -> st_id st = id \/ st ∈ streams c.

Lemma queue_raised_inv e1 e k pub id :
  credit_inv e1 k pub -> only_raises id (e_receive e1) (e_receive e) ->
  e_pending_stream_ids e = e_pending_stream_ids e1 ->
  e_max_streams_bidi_pending e = e_max_streams_bidi_pending e1 ->
  exists e', Credit.queue_stream_credit id e = (Ok tt, e') /\ credit_inv e' k pub.
Proof.
  intros Hinv (Hd & Hl & Hs) Hq Hb. destruct (queue_spec id e) as (e' & He & Hr & Hp & Hdi & Hb' & Hid & Hkeep).
  exists e'. split; [done|]. eapply raised_inv; [exact Hinv|..]; rewrite ?Hr, ?Hl, <- ?Hq; auto.
  - apply Hd, Hinv.
  - intros st Hst. destruct (Hs st Hst) as [->|Hin]; [by right|left]. by exists st.
  - right. split; [done|]. by rewrite Hb', Hb.
Qed.

Lemma connection_only_raises id c f : only_raises id c (Conn.set_connection c f).
Proof. split_and!; try done. intros st Hst. by right. Qed.

Lemma stream_only_raises id c i f :
  Conn.find c id = Some i -> (forall st, st_id (f st) = st_id st) ->
  only_raises id c (Conn.set_streams c (alter f i (streams c))).
Proof.
  intros Hi Hf. split_and!; try done.
  - intros Hd. by apply keys_distinct_alter.
  - intros st (j & Hj)%list_elem_of_lookup. cbn [streams Conn.set_streams] in Hj.
    apply lookup_alter_other in Hj as [(-> & y & Hy & ->)|(_ & Hj)].
    + left. rewrite Hf. apply position_Some in Hi as (x & Hx & <- & _). congruence.
    + right. by eapply list_elem_of_lookup_2.
Qed.

Lemma only_raises_trans id c1 c2 c3 :
  only_raises id c1 c2 -> only_raises id c2 c3 -> only_raises id c1 c3.
Proof.
  intros (Hd & Hl & Hs) (Hd' & Hl' & Hs'). split_and!; [auto|congruence|].
  intros st Hst. destruct (Hs' st Hst); auto.
Qed.

Lemma only_raises_refl id c : only_raises id c c.
Proof. split_and!; try done. by right. Qed.

Lemma set_max_only_raises id m c : only_raises id c (Credit.set_stream_max id m c).
Proof.
  unfold Credit.set_stream_max. destruct (Conn.find c id) as [i|] eqn:Hi; [|apply only_raises_refl].
  by apply stream_only_raises.
Qed.

(** [grant_receive_window] on a stream the receiver knows. *)
Lemma grant_inv e k pub id w :
  credit_inv e k pub -> Conn.find (e_receive e) id <> None ->
  credit_inv (Credit.grant_receive_window id w e).2 k pub.
Proof.
  intros Hinv Hid. unfold Credit.grant_receive_window.
  rewrite bind_gets. rewrite bind_modify.
  destruct (Conn.find (e_receive e) id) as [i|] eqn:Hi; [|done].
  assert (forall c credit, Conn.find c id = Some i ->
    Conn.extend_stream_credit c id credit =
      Ok (Conn.set_streams c (alter (fun s => RecvStream.extend s credit) i (streams c)))) as Hext.
  { intros c credit Hc. unfold Conn.extend_stream_credit. by rewrite Hc. }
  erewrite (bind_ok (on_field_res _ _)).
  2:{ unfold on_field_res. get_set. by rewrite Hext. }
  rewrite bind_modify.
  edestruct (queue_raised_inv e) as (e' & -> & He'); [exact Hinv|..|exact He']; get_set; try done.
  eapply only_raises_trans; [apply connection_only_raises|]. by apply stream_only_raises.
Qed.

(** *** Consumption and retirement *)
Lemma take_without (p : Z -> bool) l : forall n,
  take (n - length (List.filter p (take n l))) (List.filter (fun x => negb (p x)) l) =
  List.filter (fun x => negb (p x)) (take n l).
Proof.
  induction l as [|x l IH]; intros [|n]; [done..|]. cbn [take List.filter].
  destruct (p x); cbn [length negb]; [apply IH|].
  assert (length (List.filter p (take n l)) <= n)%nat.
  { pose proof (List.filter_length_le p (take n l)). rewrite length_take in *. lia. }
  rewrite Nat.sub_succ_l by done. cbn [take]. by rewrite IH.
Qed.

Lemma elem_of_filter_bool (p : Z -> bool) x l : x ∈ List.filter p l <-> x ∈ l /\ p x = true.
Proof. rewrite !list_elem_of_In. apply filter_In. Qed.

Lemma retired_streams_other c id st :
  keys_distinct st_id (streams c) -> Conn.find c id <> None ->
  st ∈ streams (Conn.retire_stream c id).2 -> st ∈ streams c /\ st_id st <> id.
Proof.
  intros Hd Hf. unfold Conn.retire_stream. destruct (Conn.find c id) as [i|] eqn:Hi; [|done].
  destruct (Conn.absorb _ _ _ _) as [[first last] kept]. cbn [snd streams]. intros Hst.
  apply position_Some in Hi as (x & Hx & <- & _). split; [|by eapply keys_distinct_delete_key].
  eapply list_elem_of_lookup in Hst as [j Hj]. rewrite list_lookup_delete in Hj.
  case_decide; by eapply list_elem_of_lookup_2.
Qed.

(** The part of [try_retire_stream] that forgets the stream. *)
Definition forgotten (id : Z) (removed : nat) (e : EndpointState) : EndpointState :=
  e <| e_send ::= fun s => (Send.remove_stream s id).1 |>
    <| e_receive ::= fun c => (Conn.retire_stream c id).2 |>
    <| e_pending_stream_ids ::= List.filter (fun pending => negb (pending =? id)) |>
    <| e_credit_inflight_stream_count ::= fun n => (n - removed)%nat |>.

Lemma forget_inv e k pub id removed :
  credit_inv e k pub -> Conn.find (e_receive e) id <> None ->
  removed = length (List.filter (fun pending => pending =? id)
                      (take (e_credit_inflight_stream_count e) (e_pending_stream_ids e))) ->
  credit_inv (forgotten id removed e) k pub.
Proof.
  intros [Hd Hb Hs Hc Hm Hw Hp] Hf Hremoved. unfold forgotten.
  pose proof (retire_no_raise (e_receive e) id) as (Hd' & Hl & Hfc & _).
  pose proof (fun st => retired_streams_other (e_receive e) id st Hd Hf) as Hother.
  split; get_set; rewrite ?Hl, ?Hfc; auto.
  - intros st [Hst Hne]%Hother. destruct (Hs st Hst) as [|Hq]; [by left|right].
    apply elem_of_filter_bool. split; [done|]. by apply negb_true_iff, Z.eqb_neq.
  - intros [Hne|]; [|auto]. apply Hw. left. intros Hnil. by rewrite Hnil in Hne.
  - intros H1' H2'. destruct (Hp H1' H2') as (Hpd & Hps & Hpb). split_and!; [done| |done].
    intros st [Hst Hne]%Hother Hin. apply Hps; [done|]. rewrite Hremoved in Hin.
    rewrite (take_without (fun pending => pending =? id)) in Hin. by apply elem_of_filter_bool in Hin as [? _].
Qed.

Lemma raise_bidi_cases e : exists target, 
  Credit.raise_max_streams_bidi e = e \/
  Credit.raise_max_streams_bidi e =
    e <| e_receive := Credit.set_max_streams_bidi target (e_receive e) |> <| e_max_streams_bidi_pending := true |>.
Proof.
  unfold Credit.raise_max_streams_bidi. cbv zeta. eexists. destruct (_ <? _); [by right|by left].
Qed.

Lemma raise_bidi_inv e k pub f :
  credit_inv e k pub ->
  credit_inv ((Credit.raise_max_streams_bidi e)
     <| e_credit_dirty ::= fun d => d || bool_decide (e_credit_packet_number (Credit.raise_max_streams_bidi e) <> None) |>
     <| e_credit_pending := true |> <| e_control_pending ::= f |>) k pub.
Proof.
  intros Hinv.
  assert (forall b x, x <> None -> b || bool_decide (x <> None (A:=Z)) = true) as Hdirty.
  { intros b x Hx. by rewrite bool_decide_eq_true_2, orb_true_r. }
  destruct (raise_bidi_cases e) as [target [->| ->]];
    (eapply raised_inv; [exact Hinv|..]; get_set; auto; try apply Hinv).
  all: intros st Hst; left; by exists st.
Qed.

Lemma try_retire_inv e k pub id : credit_inv e k pub -> credit_inv (Credit.try_retire_stream id e) k pub.
Proof.
  intros Hinv. unfold Credit.try_retire_stream.
  destruct (Credit.stream_retirable e id) eqn:Hr; [|done]. cbn [negb]. cbv zeta.
  assert (Conn.find (e_receive e) id <> None) as Hf.
  { unfold Credit.stream_retirable, Conn.is_complete in Hr. intros Hf. unfold Conn.find in Hf.
    apply find_key_None in Hf. rewrite Hf in Hr. by rewrite andb_false_r in Hr. }
  match goal with |- context [length ?l] => set (removed := length l) end.
  fold (forgotten id removed e).
  assert (credit_inv (forgotten id removed e) k pub) as Hforget by by apply forget_inv.
  destruct (_ && _); [|done]. apply raise_bidi_inv. eapply same_credit_inv; [|exact Hforget]. by split_and!.
Qed.

Lemma same_credit_refl e : same_credit e e.
Proof. by split_and!. Qed.

Lemma same_credit_trans e1 e2 e3 : same_credit e1 e2 -> same_credit e2 e3 -> same_credit e1 e3.
Proof.
  intros (? & ? & ? & ? & ? & ? & ? & ?) (? & ? & ? & ? & ? & ? & ? & ?). split_and!; congruence.
Qed.

Lemma schedule_same_credit i imm e : same_credit e (Credit.schedule_application_ack i imm e).
Proof.
  unfold Credit.schedule_application_ack. destruct (get_path e i); [|apply same_credit_refl].
  unfold upd_path. by split_and!.
Qed.

Lemma consumed_found c id n c' : Conn.consume c id n = Ok c' -> exists i, Conn.find c' id = Some i.
Proof.
  unfold Conn.consume. destruct (Conn.find c id) as [i|] eqn:Hi; [|done]. intros [= <-].
  apply position_Some in Hi as (x & Hx & Hid & _). unfold Conn.find. cbn [streams Conn.set_connection Conn.set_streams].
  destruct (position st_id id _) eqn:Hp; [by eexists|]. exfalso.
  rewrite position_None in Hp. apply (Hp (RecvStream.consume x n)); [|done].
  apply (list_elem_of_lookup_2 _ i). by rewrite list_lookup_alter_eq, Hx.
Qed.

(** The tail of [stream_consumed_inner], from the state with the raised limits. *)
Lemma consumed_tail_inv e1 e k pub id (force sched due : bool) :
  credit_inv e1 k pub -> only_raises id (e_receive e1) (e_receive e) ->
  e_pending_stream_ids e = e_pending_stream_ids e1 ->
  e_max_streams_bidi_pending e = e_max_streams_bidi_pending e1 ->
  (due = false -> same_credit e1 e) ->
  credit_inv ((
    _ ← modify (fun e => if force then e <| e_control_pending := true |> else e);
    _ ← modify (fun e => if sched
                         then Credit.schedule_application_ack (Credit.pending_receive_ack_path e) force e
                         else e);
    _ ← (if due then Credit.queue_stream_credit id else mret tt);
    modify (Credit.try_retire_stream id)) e).2 k pub.
Proof.
  intros Hinv Hraise Hq Hb Hquiet. rewrite 2!bind_modify.
  match goal with |- context [(_ ≫= _) ?x] => set (e2 := x) end.
  assert (same_credit e e2) as Hsame.
  { unfold e2. assert (same_credit e (if force then e <| e_control_pending := true |> else e)) as Hf.
    { by destruct force; split_and!. }
    destruct sched; [|done]. eapply same_credit_trans; [exact Hf|apply schedule_same_credit]. }
  destruct due.
  - destruct (queue_raised_inv e1 e2 k pub id) as (e3 & He3 & Hinv3); [done|..].
    { by rewrite (proj1 Hsame). }
    { by rewrite (proj1 (proj2 Hsame)). }
    { by rewrite (proj2 (proj2 (proj2 (proj2 (proj2 (proj2 (proj2 Hsame))))))). }
    rewrite (bind_ok _ _ _ _ _ He3). by apply try_retire_inv.
  - rewrite (bind_ok (mret tt) _ _ _ _ eq_refl). apply try_retire_inv.
    eapply same_credit_inv; [|exact Hinv]. eapply same_credit_trans; [by apply Hquiet|done].
Qed.

Lemma consumed_inv e k pub id n force sched :
  credit_inv e k pub -> credit_inv (Credit.stream_consumed_inner id n force sched e).2 k pub.
Proof.
  intros Hinv. unfold Credit.stream_consumed_inner. rewrite bind_unfold. unfold on_field_res.
  destruct (Conn.consume (e_receive e) id n) as [c| |] eqn:Hc; [|done..].
  pose proof (no_raise_inv e k pub c Hinv (consume_no_raise _ _ _ _ Hc)) as Hinv1.
  apply consumed_found in Hc as [i Hi]. set (e1 := e <| e_receive := c |>) in *.
  rewrite bind_gets, bind_unfold. unfold refuse_if, lift_res at 1.
  destruct (guard_err _ _); [|done..].
  rewrite bind_gets. rewrite bind_gets.
  rewrite bind_modify. set (due := Credit.credit_due _ _ _ _).
  match goal with |- context [(gets _ ≫= _) ?x] => set (e2 := x) end.
  assert (e2 = if due then e1 <| e_receive := Conn.extend_connection_credit c (l_max_data (e_receive_growth_limits e1)) |>
               else e1) as He2 by by unfold e2; destruct due.
  assert (exists st, Credit.find_stream e2 id = Some st /\ streams (e_receive e2) = streams c) as (st & Hst & Hstreams).
  { pose proof Hi as (x & _ & _ & Hx)%position_Some. exists x. rewrite He2. by destruct due. }
  rewrite bind_gets. rewrite Hst, bind_unfold. unfold lift_res. cbn [ok_or].
  cbv zeta. rewrite bind_modify. set (sdue := Credit.credit_due _ _ _ _).
  apply (consumed_tail_inv e1); [exact Hinv1|..].
  - rewrite He2. apply (only_raises_trans id _ (e_receive e2)).
    { rewrite He2. destruct due; [apply connection_only_raises|apply only_raises_refl]. }
    destruct sdue; [|apply only_raises_refl]. get_set. apply set_max_only_raises.
  - rewrite He2. by destruct sdue, due.
  - rewrite He2. by destruct sdue, due.
  - rewrite He2. by destruct due, sdue.
Qed.

(** *** New growth limits

    The state inside the method, before the timer is armed again. *)
Record raising (e : EndpointState) (k : Known) : Prop := {
  ra_distinct : keys_distinct st_id (streams (e_receive e));
  ra_base : forall id, l_max_stream_data (limits (e_receive e)) <= k_stream k id;
  ra_stream : forall st, st ∈ streams (e_receive e) ->
    st_max_data st <= k_stream k (st_id st) \/ (st_id st ∈ e_pending_stream_ids e);
  ra_bidi : l_max_streams_bidi (limits (e_receive e)) <= k_bidi k \/ e_max_streams_bidi_pending e = true;
  ra_stale : e_credit_packet_number e <> None -> e_credit_dirty e = true;
}.

Lemma raising_inv e k pub : raising e k -> e_credit_pending e = true -> credit_inv e k pub.
Proof. intros [] Hp. split; auto. intros H1' H2'. rewrite ra_stale0 in H2'; done. Qed.

Lemma grow_stream_raising k m index e :
  raising e k -> (index < length (streams (e_receive e)))%nat ->
  exists e', Credit.grow_stream m index e = (Ok tt, e') /\ raising e' k /\
    length (streams (e_receive e')) = length (streams (e_receive e)).
Proof.
  intros [Hd Hb Hs Hm Hst] Hlt. unfold Credit.grow_stream.
  destruct (lookup_lt_is_Some_2 _ _ Hlt) as [s Hi]. rewrite Hi. cbv zeta. set (grown := Z.max _ _).
  match goal with |- context [if _ then _ else (_, ?x)] => set (e1 := x) end.
  assert (length (streams (e_receive e1)) = length (streams (e_receive e))) as Hlen by apply length_alter.
  assert (keys_distinct st_id (streams (e_receive e1))) as Hd1 by by apply keys_distinct_alter.
  assert (forall st, st ∈ streams (e_receive e1) ->
            st ∈ streams (e_receive e) \/ st = Credit.with_max_data grown s) as Hst1.
  { intros st (j & Hj)%list_elem_of_lookup. change (streams (e_receive e1)) with
      (alter (Credit.with_max_data grown) index (streams (e_receive e))) in Hj.
    apply lookup_alter_other in Hj as [(-> & y & Hy & ->)|(_ & Hj)]; [right; congruence|left].
    by eapply list_elem_of_lookup_2. }
  destruct (Z.ltb_spec (st_max_data s) grown).
  - destruct (queue_spec (st_id s) e1) as (e2 & -> & Hr & _ & Hdi & Hb' & Hid & Hkeep). exists e2.
    rewrite Hr. split_and!; [done| |done]. split; rewrite ?Hr, ?Hb'; auto.
    intros st [Hin| ->]%Hst1; [|by right]. destruct (Hs st Hin); [by left|right; by apply Hkeep].
  - exists e1. split_and!; [done| |done]. split; auto. intros st [Hin| ->]%Hst1; [by apply Hs|].
    assert (grown = st_max_data s) as -> by lia. destruct (Hs s ltac:(by eapply list_elem_of_lookup_2)); auto.
Qed.

Lemma grow_streams_raising k m l : forall e,
  raising e k -> (forall i, i ∈ l -> (i < length (streams (e_receive e)))%nat) ->
  exists e', for_each l (Credit.grow_stream m) e = (Ok tt, e') /\ raising e' k.
Proof.
  induction l as [|i l IH]; intros e He Hl; [by exists e|].
  destruct (grow_stream_raising k m i e He (Hl i ltac:(left))) as (e1 & He1 & Hr & Hlen).
  cbn [for_each]. rewrite (bind_ok _ _ _ _ _ He1). apply IH; [done|]. intros j Hj. rewrite Hlen. apply Hl. by right.
Qed.

(** [set_receive_growth_limits] while no publication is waiting unchanged. *)
Lemma growth_limits_inv e k pub l :
  credit_inv e k pub -> (e_credit_packet_number e <> None -> e_credit_dirty e = true) ->
  credit_inv (Credit.set_receive_growth_limits l e).2 k pub.
Proof.
  intros Hinv Hstale. unfold Credit.set_receive_growth_limits. rewrite bind_unfold. unfold refuse_if, lift_res.
  destruct (guard_err _ _); [|done..]. rewrite bind_modify, bind_gets.
  match goal with |- credit_inv (_ ?x).2 _ _ => set (e1 := x) end.
  assert (raising e1 k) as Hr by (destruct Hinv; by split).
  destruct (grow_streams_raising k (l_max_stream_data l) (seq 0 (length (streams (e_receive e1)))) e1) as (e2 & He2 & Hr2);
    [done|by intros i [_ ?]%elem_of_seq|].
  rewrite (bind_ok _ _ _ _ _ He2). unfold modify. cbn [snd].
  match goal with |- context [Credit.raise_max_streams_bidi ?x] => destruct (raise_bidi_cases x) as [target Hc] end.
  destruct Hr2. destruct Hc as [->| ->]; (apply raising_inv; [|done]); split; get_set; auto.
Qed.

(** *** Publication *)
Lemma published_inv e0 e k pub i cap piggyback c b pn :
  credit_inv e k pub -> same_credit e0 e ->
  Credit.encode_control_frames_on_path e0 i cap piggyback = Ok (Some (c, b)) ->
  credit_inv (Credit.commit_control_frames i pn c e) k
    (if credit c then credit_frames e (credit_stream_count c) (credit_max_streams_bidi c) else pub).
Proof.
  intros Hinv Hsame Henc.
  set (committed := if ack c && credit c then Credit.publish_credit pn c e else e).
  assert (same_credit committed (Credit.commit_control_frames i pn c e)) as Hc.
  { unfold committed, Credit.commit_control_frames. cbv zeta.
    destruct (ack c); cbn [andb]; [|by destruct (ack_frequency c); split_and!].
    destruct (credit c); cbn [orb]; [|destruct (bool_decide _)]; by destruct (ack_frequency c); split_and!. }
  eapply same_credit_inv; [exact Hc|]. clear Hc. unfold committed.
  destruct (credit c) eqn:Hcr; [|by rewrite andb_false_r].
  destruct (control_publication _ _ _ _ _ _ Henc Hcr) as (Ha & Hbidi & _). rewrite Ha. cbn [andb].
  destruct Hinv as [Hd Hb Hs Hcn Hm Hw Hp]. split; get_set; auto.
  intros _ _. cbv zeta. unfold Credit.publish_credit. cbv zeta. get_set.
  set (fs := credit_frames e _ _). split_and!.
  - apply (learn_known fs k (MaxData _)). unfold fs, credit_frames. left.
  - intros st Hst Hin.
    assert (stream_limit_of (e_receive e) (st_id st) = st_max_data st) as <-.
    { unfold stream_limit_of, Conn.stream_max_data. by rewrite (find_key_elem _ _ _ Hd Hst). }
    apply (learn_known fs k (MaxStreamData _ _)). unfold fs, credit_frames. right. apply elem_of_app. left.
    by apply (list_elem_of_fmap_2' (fun id => MaxStreamData id (stream_limit_of (e_receive e) id)) _ (st_id st)).
  - intros Hbd. apply (learn_known fs k (MaxStreamsBidi _)). unfold fs, credit_frames. right. apply elem_of_app. right.
    rewrite Hbd. left.
Qed.
End publication.

(** ** Every run of the receiver *)
Record World : Type := mkWorld {
  w_state : EndpointState;
  w_known : Known;
  w_pub : list Frame;
}.

Section steps.
Context `{Allocator, PacketSize, Features}.

(** Between the encoding of a control packet and its commitment the transmit
    methods change only fields that [same_credit] allows. *)
Inductive credit_step : World -> World -> Prop :=
  | cs_accept e k pub id off len fin :
      credit_step (mkWorld e k pub) (mkWorld (e <| e_receive ::= fun c => (Conn.accept c id off len fin).2 |>) k pub)
  | cs_open e k pub id :
      credit_step (mkWorld e k pub) (mkWorld (e <| e_receive ::= fun c => (Conn.open c id).2 |>) k pub)
  | cs_prepare e k pub id :
      credit_step (mkWorld e k pub)
        (mkWorld (e <| e_receive ::= fun c => (Conn.prepare_local_bidi_receive c id).2 |>) k pub)
  | cs_remove e k pub id :
      credit_step (mkWorld e k pub) (mkWorld (e <| e_receive ::= fun c => (Conn.remove_stream c id).2 |>) k pub)
  | cs_consumed e k pub id n force sched :
      credit_step (mkWorld e k pub) (mkWorld (Credit.stream_consumed_inner id n force sched e).2 k pub)
  | cs_grant e k pub id w :
      Conn.find (e_receive e) id <> None ->
      credit_step (mkWorld e k pub) (mkWorld (Credit.grant_receive_window id w e).2 k pub)
  | cs_retire e k pub id : credit_step (mkWorld e k pub) (mkWorld (Credit.try_retire_stream id e) k pub)
  | cs_growth e k pub l :
      (e_credit_packet_number e <> None -> e_credit_dirty e = true) ->
      credit_step (mkWorld e k pub) (mkWorld (Credit.set_receive_growth_limits l e).2 k pub)
  | cs_publish e0 e k pub i cap piggyback c b pn :
      same_credit e0 e ->
      Credit.encode_control_frames_on_path e0 i cap piggyback = Ok (Some (c, b)) ->
      credit_step (mkWorld e k pub)
        (mkWorld (Credit.commit_control_frames i pn c e) k
           (if credit c then credit_frames e (credit_stream_count c) (credit_max_streams_bidi c) else pub))
  | cs_acknowledge e k pub acked :
      credit_step (mkWorld e k pub)
        (mkWorld (Credit.acknowledge_credit acked e)
           (if Credit.credit_acknowledged acked e then learn k pub else k) pub)
  | cs_other e e' k pub : same_credit e e' -> credit_step (mkWorld e k pub) (mkWorld e' k pub).

(** The peer starts with the limits of the transport parameters. *)
Definition advertised (l : ConnectionLimits) : Known :=
  mkKnown (l_max_data l) (fun _ => l_max_stream_data l) (l_max_streams_bidi l).

Definition begin (r : Role) (l : ConnectionLimits) (mps : Z) (history : nat) : World :=
  mkWorld (Ep.new_with_history_capacity r l mps history) (advertised l) [].

Lemma begin_inv r l mps history :
  let w := begin r l mps history in credit_inv (w_state w) (w_known w) (w_pub w).
Proof.
  split; cbn.
  - apply NoDup_nil_2.
  - done.
  - by intros st ?%not_elem_of_nil.
  - by left.
  - by left.
  - by intros [?|?].
  - done.
Qed.

Context (infallible : forall n, try_reserve n = true).

Lemma credit_step_inv w w' :
  credit_step w w' -> credit_inv (w_state w) (w_known w) (w_pub w) ->
  credit_inv (w_state w') (w_known w') (w_pub w').
Proof.
  intros [] Hinv; cbn [w_state w_known w_pub] in *;
    eauto using consumed_inv, grant_inv, try_retire_inv, growth_limits_inv, published_inv, acknowledged_inv,
      same_credit_inv.
  all: by apply no_raise_inv;
    auto using accept_no_raise, open_no_raise, prepare_no_raise, remove_no_raise.
Qed.

Lemma credit_reachable_inv w w' :
  rtc credit_step w w' -> credit_inv (w_state w) (w_known w) (w_pub w) ->
  credit_inv (w_state w') (w_known w') (w_pub w').
Proof. induction 1; eauto using credit_step_inv. Qed.

(** An armed timer is no later than any of its causes. *)
Lemma earliest_le l d : Some d ∈ l -> exists d', foldr Timer.earlier None l = Some d' /\ d' <= d.
Proof.
  induction l as [|o l IH]; intros Hd; [by apply not_elem_of_nil in Hd|]. simpl.
  apply elem_of_cons in Hd as [<-|Hd].
  - destruct (foldr _ _ _) as [d'|]; eexists; (split; [done|]); lia.
  - destruct (IH Hd) as (d' & -> & Hle). destruct o as [x|]; eexists; (split; [done|]); lia.
Qed.

Lemma credit_timer e :
  e_credit_pending e = true ->
  exists d, Timer.next_bearer_deadline e = Some d /\ d <= sat_add (e_last_ack_time e) (Credit.credit_interval e).
Proof.
  intros Hp. unfold Timer.next_bearer_deadline. destruct (Timer.packet_timer_heads _ _) as [[first loss] candidate].
  assert (Timer.credit_deadline e = Some (sat_add (e_last_ack_time e) (Credit.credit_interval e))) as ->
    by (unfold Timer.credit_deadline; by rewrite Hp).
  apply earliest_le. right. left.
Qed.
End steps.

(** ** What holds of every run *)
Section theorems.
Context `{Allocator, PacketSize, Features}.

(** C4: A raised receive limit is never lost.  Starting from a new endpoint, in
    every state reachable by receiving, opening, consuming, granting, retiring,
    publishing, retrying and acknowledging in any order, every stream whose
    limit the peer has not acknowledged is still queued for publication, an
    unacknowledged MAX_STREAMS is still marked, and while any limit is unknown to the
    peer the bearer timer is armed, no later than the publication interval after
    the last acknowledgement sent.  This is for an allocator that does not fail,
    grants to streams the receiver knows, and growth limits that are set while no
    publication is in flight, or one already marked as stale: without the second
    [unknown_grant_unqueued] and without the third [growth_limits_lost] show a limit
    that the code does lose. *)
Theorem credit_never_lost r l mps history w
    (infallible : forall n, try_reserve n = true)
    (Hrun : rtc credit_step (begin r l mps history) w) :
  let e := w_state w in
  (forall st, st ∈ streams (e_receive e) -> k_stream (w_known w) (st_id st) < st_max_data st ->
     st_id st ∈ e_pending_stream_ids e) /\
  (k_bidi (w_known w) < l_max_streams_bidi (limits (e_receive e)) -> e_max_streams_bidi_pending e = true) /\
  (k_data (w_known w) < fc_max_data (connection (e_receive e)) \/
   (exists st, st ∈ streams (e_receive e) /\ k_stream (w_known w) (st_id st) < st_max_data st) \/
   k_bidi (w_known w) < l_max_streams_bidi (limits (e_receive e)) ->
   exists d, Timer.next_bearer_deadline e = Some d /\
     d <= sat_add (e_last_ack_time e) (Credit.credit_interval e)).
Proof.
  pose proof (credit_reachable_inv infallible _ _ Hrun (begin_inv r l mps history)) as [Hd Hb Hs Hc Hm Hw _].
  assert (forall st, st ∈ streams (e_receive (w_state w)) -> k_stream (w_known w) (st_id st) < st_max_data st ->
     st_id st ∈ e_pending_stream_ids (w_state w)) as Hq.
  { intros st Hst Hlt. destruct (Hs st Hst); [lia|done]. }
  split_and!; [done|destruct Hm; [lia|done]|]. intros Hun. apply credit_timer.
  destruct Hun as [?|[(st & Hst & Hlt)|?]]; [destruct Hc; [lia|done]| |].
  - apply Hw. left. intros Hnil. specialize (Hq st Hst Hlt). rewrite Hnil in Hq. by apply not_elem_of_nil in Hq.
  - apply Hw. right. destruct Hm; [lia|done].
Qed.

(** A control packet says what it carries.  When [encode_control_frames_on_path]
    reports credit, the bytes it wrote contain the encoding of MAX_DATA with the
    current connection limit, MAX_STREAM_DATA with the current limit of each of
    the first [credit_stream_count] queued streams, and, when reported,
    MAX_STREAMS with the current limit, in this order and complete. *)
Theorem published_frames e i cap piggyback c b :
  Credit.encode_control_frames_on_path e i cap piggyback = Ok (Some (c, b)) -> credit c = true ->
  exists b0 b1 b2, b = b0 ++ b1 ++ b2 /\
    encodes (credit_frames e (credit_stream_count c) (credit_max_streams_bidi c)) b1.
Proof. intros Hc Hcr. by destruct (control_publication _ _ _ _ _ _ Hc Hcr) as (_ & _ & ?). Qed.
End theorems.

(** ** Concrete runs *)
Section examples.
#[local] Instance plenty : Allocator := {| try_reserve := fun _ => true |}.
#[local] Instance big_packets : PacketSize := {| packet_size := 1200 |}.
#[local] Instance no_protection : Features := {| packet_protection := false |}.

Definition small_window : ConnectionLimits := Limits.with_receive_profile 1000 1000 4.

(** A server that received 600 bytes on stream 4 in packet 0 and delivered them. *)
Definition server : EndpointState :=
  (Ep.new_with_history_capacity Server small_window 1100 8)
    <| e_received_packets := (Ranges.insert ACK_RANGE_CAPACITY Ranges.new 0).1 |>.
Definition accepted : EndpointState := server <| e_receive ::= fun c => (Conn.accept c 4 0 600 false).2 |>.
Definition consumed : EndpointState := (Credit.stream_consumed_inner 4 600 true true accepted).2.
(** The control packet that publishes the raised limits. *)
Definition publication : option (EncodedControlFrames * bytes) :=
  match Credit.encode_control_frames_on_path consumed 0 1000 false with Ok r => r | _ => None end.

Lemma consumed_reachable : rtc credit_step (begin Server small_window 1100 8)
  (mkWorld consumed (advertised small_window) []).
Proof.
  eapply rtc_l; [apply (cs_other _ server); by split_and!|].
  eapply rtc_l; [apply (cs_accept server _ _ 4 0 600 false)|]. apply rtc_once, (cs_consumed accepted).
Qed.

Lemma credit_never_lost_witness :
  4 ∈ e_pending_stream_ids consumed /\ exists d, Timer.next_bearer_deadline consumed = Some d.
Proof.
  destruct (credit_never_lost Server small_window 1100 8 _ ltac:(done) consumed_reachable)
    as (Hq & _ & Ht). split.
  - apply (Hq (mkStreamState 4 1600 600 600 false)); [vm_compute; left|by vm_compute].
  - destruct Ht as (d & Hd & _); [left; by vm_compute|by exists d].
Defined.

Lemma published_frames_witness :
  exists c b, publication = Some (c, b) /\ credit c = true /\
    exists b0 b1 b2, b = b0 ++ b1 ++ b2 /\ encodes [MaxData 1600; MaxStreamData 4 1600] b1.
Proof.
  destruct publication as [[c b]|] eqn:Hp; [|by vm_compute in Hp]. exists c, b. split; [done|].
  assert (credit c = true /\ credit_stream_count c = 1%nat /\ credit_max_streams_bidi c = false) as (Hc & Hn & Hm).
  { vm_compute in Hp. injection Hp as <- _. by vm_compute. }
  split; [done|]. unfold publication in Hp.
  destruct (Credit.encode_control_frames_on_path consumed 0 1000 false) as [r| |] eqn:He; [subst r|done..].
  pose proof (published_frames consumed 0 1000 false c b He Hc) as Hx. rewrite Hn, Hm in Hx. exact Hx.
Defined.

(** New growth limits while a publication is in flight do not mark it stale: its
    acknowledgement retires limits it did not carry, and no timer is left. *)
Lemma growth_limits_lost :
  let published := match publication with
                   | Some (c, _) => Credit.commit_control_frames 0 0 c consumed
                   | None => consumed
                   end in
  let grown := (Credit.set_receive_growth_limits (Limits.with_receive_profile 5000 1000 4) published).2 in
  let e := Credit.acknowledge_credit (fun pn => pn =? 0) grown in
  publication <> None /\ fc_max_data (connection (e_receive e)) = 5600 /\
  e_credit_pending e = false /\ e_pending_stream_ids e = [] /\ Timer.credit_deadline e = None.
Proof. by vm_compute. Qed.

(** A grant to a stream the receiver does not know fails after raising the
    connection limit, and queues nothing. *)
Lemma unknown_grant_unqueued :
  let delivered := (Credit.stream_consumed_without_credit 4 600 accepted).2 in
  let r := Credit.grant_receive_window 8 1000 delivered in
  r.1 = Err Error.Invalid /\ fc_max_data (connection (e_receive delivered)) = 1000 /\
  fc_max_data (connection (e_receive r.2)) = 1600 /\ e_credit_pending r.2 = false.
Proof. by vm_compute. Qed.
End examples.
