(* ===== verification/Flight.v ===== *)
(** * Conservation of flight

    On every path the congestion controller's bytes in flight are the bytes of
    the ledger's accepted and not lost records.  This file proves it for every
    sequence of ledger events ([Ledger.v]): bearer results, losses,
    acknowledgements, suspension, removal and resumption of a path, and changes
    of capacity and clock.  The events that add records are in
    [Conservation.v]. *)

From S2P Require Import Prelude Records Methods Wire PacketHeader Keyed AckRanges Frames FlowControl Congestion PathState SendBuffer Endpoint Credit Ledger.

(** ** Flight *)
Definition contribution (i : nat) (s : option SentPacket) : Z :=
  match s with
  | Some sent => if sp_accepted sent && negb (sp_lost sent) && (sp_path_id sent =? i)%nat
                 then sp_bytes sent else 0
  | None => 0
  end.

(** The bytes the ledger holds in flight on path [i]. *)
Definition ledger_flight (i : nat) (l : list (option SentPacket)) : Z := zsum (contribution i) l.

Definition path_flight (p : PathState) : Z := bytes_in_flight (path_congestion p).

(** The bytes the congestion controller of path [i] counts in flight. *)
Definition flight_at (paths : list PathState) (i : nat) : Z :=
  match paths !! i with Some p => path_flight p | None => 0 end.

Definition record_ok (paths : nat) (s : option SentPacket) : Prop :=
  match s with
  | Some sent => (sp_path_id sent < paths)%nat /\ 0 <= sp_bytes sent < 2 ^ 32 /\
                 (sp_lost sent = true -> sp_accepted sent = true)
  | None => True
  end.

(** The packet numbers the ledger records. *)
Definition numbers (l : list (option SentPacket)) : list Z :=
  omap (fun s : option SentPacket => sp_packet_number <$> s) l.

(** A packet number the sequence has reached. *)
Class Floor : Type := floor : Z.

(** The invariant: [li_floor] makes it also say that the sequence never goes back. *)
Record ledger_inv {fl : Floor} (e : EndpointState) : Prop := {
  li_flight : forall i, flight_at (e_paths e) i = ledger_flight i (e_sent_packets e);
  li_fresh : Forall (fun pn => pn < e_next_packet_number e) (numbers (e_sent_packets e));
  li_distinct : NoDup (numbers (e_sent_packets e));
  li_floor : floor <= e_next_packet_number e;
  li_records : Forall (record_ok (length (e_paths e))) (e_sent_packets e);
  li_size : Z.of_nat (length (e_sent_packets e)) <= 2 ^ 31;
}.

Definition neutral (f : PathState -> PathState) : Prop := forall p, path_flight (f p) = path_flight p.

Lemma flight_at_alter f j paths i :
  flight_at (alter f j paths) i =
    if decide (i = j) then match paths !! j with Some p => path_flight (f p) | None => 0 end
    else flight_at paths i.
Proof.
  unfold flight_at. case_decide as Hij.
  - subst. rewrite list_lookup_alter_eq. by destruct (paths !! j).
  - by rewrite list_lookup_alter_ne.
Qed.

Lemma flight_at_neutral f j paths i : neutral f -> flight_at (alter f j paths) i = flight_at paths i.
Proof.
  intros Hf. rewrite flight_at_alter. case_decide as Hij; [|done]. subst. unfold flight_at.
  destruct (paths !! j); [apply Hf|done].
Qed.

Lemma flight_at_fmap f paths i : neutral f -> flight_at (f <$> paths) i = flight_at paths i.
Proof. intros Hf. unfold flight_at. rewrite list_lookup_fmap. destruct (paths !! i); simpl; auto. Qed.

Lemma neutral_compose f g : neutral f -> neutral g -> neutral (fun p => f (g p)).
Proof. intros Hf Hg p. by rewrite Hf, Hg. Qed.

Lemma contribution_bounds paths i s :
  record_ok paths s -> 0 <= contribution i s < 2 ^ 32.
Proof. unfold contribution. destruct s as [s|]; [|lia]. intros (_ & ? & _). destruct (_ && _); lia. Qed.

Lemma ledger_flight_bounds paths i l :
  Forall (record_ok paths) l -> 0 <= ledger_flight i l <= 2 ^ 32 * Z.of_nat (length l).
Proof.
  unfold ledger_flight. induction 1 as [|s l Hs _ IH]; simpl; [lia|].
  apply (contribution_bounds _ i) in Hs. lia.
Qed.

Lemma ledger_flight_insert i k l s s' :
  l !! k = Some s ->
  ledger_flight i (<[k := s']> l) = ledger_flight i l - contribution i s + contribution i s'.
Proof. apply zsum_insert. Qed.

Lemma ledger_flight_lookup i k l s paths :
  Forall (record_ok paths) l -> l !! k = Some s -> contribution i s <= ledger_flight i l.
Proof.
  intros Hl. apply zsum_lookup_le. eapply Forall_impl; [exact Hl|].
  intros x Hx. apply (contribution_bounds _ i) in Hx. lia.
Qed.

Lemma ledger_flight_map i f l :
  (forall s, contribution i (f s) = contribution i s) ->
  ledger_flight i (map f l) = ledger_flight i l.
Proof. intros Hf. unfold ledger_flight. induction l as [|s l IH]; simpl; [done|]. by rewrite Hf, IH. Qed.

Lemma record_ok_weaken n m s : record_ok n s -> (n <= m)%nat -> record_ok m s.
Proof. destruct s as [s|]; [|done]. intros (? & ? & ?) ?. split_and!; auto; lia. Qed.

(** The total of a path never reaches the saturation of [u64]. *)
Lemma flight_small {fl : Floor} e i : ledger_inv e -> 0 <= flight_at (e_paths e) i <= 2 ^ 63.
Proof.
  intros He. rewrite (li_flight e He). pose proof (ledger_flight_bounds _ i _ (li_records e He)).
  pose proof (li_size e He). lia.
Qed.

(** *** Operations that move no flight *)
Lemma upd_congestion_flight f p :
  path_flight (upd_congestion f p) = bytes_in_flight (f (path_congestion p)).
Proof. done. Qed.

Lemma neutral_history pn f : neutral (Ledger.history_update pn f).
Proof. done. Qed.

Lemma neutral_trigger now : neutral (fun p => PathOps.trigger_estimator_step p now).
Proof.
  intros p. unfold PathOps.trigger_estimator_step. destruct (now <? _); [done|]. get_set.
  destruct (pending_probe p); [done|]. by destruct (PathOps.is_probe_eligible _).
Qed.

Lemma neutral_delivery d now : neutral (fun p => PathOps.record_delivery_outcome p d now).
Proof.
  intros p. unfold PathOps.record_delivery_outcome. cbv zeta. destruct d; [done|].
  destruct (_ >=? loss_step_consecutive_packets _); [|done]. by rewrite (neutral_trigger now).
Qed.

Lemma neutral_update_rtt s now : neutral (fun p => PathOps.update_rtt p s now).
Proof.
  intros p. unfold PathOps.update_rtt, upd_rtt. cbv zeta.
  destruct (_ >=? rtt_step_consecutive_samples _); [|done]. by rewrite (neutral_trigger now).
Qed.

Lemma neutral_ack_status s : neutral (fun p => PathOps.acknowledge_status p s).
Proof. intros p. unfold PathOps.acknowledge_status. by destruct (PathOps.pending_is p s). Qed.

Lemma neutral_count_lost sent now : neutral (Ledger.count_lost sent now).
Proof. intros p. unfold Ledger.count_lost. by rewrite neutral_history, neutral_delivery. Qed.

Lemma neutral_count_acked sent : neutral (Ledger.count_acked sent).
Proof.
  intros p. unfold Ledger.count_acked. cbv zeta.
  match goal with |- path_flight (setter transport ?f (setter largest_acked_packet ?g
    (setter last_ack_us ?h ?q))) = _ => change (path_flight q = path_flight p) end.
  rewrite neutral_delivery. by destruct (sp_inferred_lost sent).
Qed.

Lemma neutral_growth growth paths i :
  flight_at (apply_ack_congestion_growth paths growth) i = flight_at paths i.
Proof.
  unfold flight_at, apply_ack_congestion_growth. rewrite list_lookup_imap.
  destruct (paths !! i) as [p|]; [|done]. simpl. unfold grow_path.
  destruct (_ =? 0); [done|]. by destruct (_ <? _).
Qed.

Lemma length_growth growth paths :
  length (apply_ack_congestion_growth paths growth) = length paths.
Proof. apply length_imap. Qed.

(** A change that leaves the ledger and every path's flight alone. *)
Lemma inv_neutral {fl : Floor} e e' :
  ledger_inv e -> e_sent_packets e' = e_sent_packets e ->
  e_next_packet_number e' = e_next_packet_number e -> length (e_paths e') = length (e_paths e) ->
  (forall i, flight_at (e_paths e') i = flight_at (e_paths e) i) -> ledger_inv e'.
Proof.
  intros [Hf Hfr Hd Hfl Hr Hs] Hl Hnx Hn Hp. split; rewrite ?Hl, ?Hnx, ?Hn; try done. intros i. by rewrite Hp, Hf.
Qed.

Lemma inv_upd_path {fl : Floor} e i f : neutral f -> ledger_inv e -> ledger_inv (upd_path i f e).
Proof.
  intros Hf He. eapply inv_neutral; [exact He|done|done| |].
  - unfold upd_path. get_set. apply length_alter.
  - intros j. unfold upd_path. get_set. by apply flight_at_neutral.
Qed.

Lemma inv_fmap_paths {fl : Floor} e f : neutral f -> ledger_inv e -> ledger_inv (e <| e_paths ::= fmap f |>).
Proof.
  intros Hf He. eapply inv_neutral; [exact He|done|done| |].
  - get_set. apply length_fmap.
  - intros j. get_set. by apply flight_at_fmap.
Qed.

(** *** One record changes *)
Lemma slot_of_Some pn l k sent :
  Ledger.slot_of pn l = Some (k, sent) -> l !! k = Some (Some sent) /\ sp_packet_number sent = pn.
Proof.
  revert k. induction l as [|[s|] l IH]; intros k; simpl; [done| |].
  - destruct (Z.eqb_spec (sp_packet_number s) pn) as [<-|Hne]; [by intros [= <- <-]|].
    destruct (Ledger.slot_of pn l) as [[i s']|]; [|done]. intros [= <- <-]. by apply IH.
  - destruct (Ledger.slot_of pn l) as [[i s']|]; [|done]. intros [= <- <-]. by apply IH.
Qed.

Lemma contribution_other i sent : i <> sp_path_id sent -> contribution i (Some sent) = 0.
Proof.
  intros Hi. unfold contribution. rewrite (proj2 (Nat.eqb_neq _ _)) by congruence.
  by rewrite andb_false_r.
Qed.

Lemma contribution_lost i sent : sp_lost sent = true -> contribution i (Some sent) = 0.
Proof. intros Hl. unfold contribution. rewrite Hl. cbn [negb]. by rewrite andb_false_r. Qed.

Lemma contribution_own sent :
  contribution (sp_path_id sent) (Some sent) =
    if sp_accepted sent && negb (sp_lost sent) then sp_bytes sent else 0.
Proof. unfold contribution. by rewrite Nat.eqb_refl, andb_true_r. Qed.

(** What may replace the record [sent]: nothing, or the record with other flags
    and the same path. *)
Definition replaces (sent : SentPacket) (s' : option SentPacket) : Prop :=
  match s' with
  | Some r => sp_path_id r = sp_path_id sent /\ sp_bytes r = sp_bytes sent /\
              (sp_lost r = true -> sp_accepted r = true) /\
              sp_packet_number r = sp_packet_number sent
  | None => True
  end.

(** What may become of a slot: an empty slot stays empty. *)
Definition slot_replaced (s s' : option SentPacket) : Prop :=
  match s with Some sent => replaces sent s' | None => s' = None end.

Lemma slot_replaced_refl n s : record_ok n s -> slot_replaced s s.
Proof. destruct s as [sent|]; [|done]. intros (_ & _ & H). by split_and!. Qed.

Lemma slots_replaced_refl n l : Forall (record_ok n) l -> Forall2 slot_replaced l l.
Proof. induction 1; constructor; [by eapply slot_replaced_refl|done]. Qed.

Lemma slots_replaced_numbers l l' :
  Forall2 slot_replaced l l' -> numbers l' `sublist_of` numbers l.
Proof.
  induction 1 as [|s s' l l' Hs _ IH]; [done|]. unfold numbers in *. simpl.
  destruct s as [sent|]; simpl in Hs; [|by subst s'].
  destruct s' as [r|]; simpl; [|by apply sublist_cons]. destruct Hs as (_ & _ & _ & ->). by apply sublist_skip.
Qed.

(** The number part of the invariant when records only change flags or go. *)
Lemma numbers_replaced next l l' :
  Forall (fun pn => pn < next) (numbers l) -> NoDup (numbers l) -> Forall2 slot_replaced l l' ->
  Forall (fun pn => pn < next) (numbers l') /\ NoDup (numbers l').
Proof.
  intros Hf Hd Hs%slots_replaced_numbers. split.
  - rewrite Forall_forall in *. intros x Hx. apply Hf. by eapply sublist_subseteq.
  - by eapply sublist_NoDup.
Qed.

Lemma slots_replaced_insert n l k s s' :
  Forall (record_ok n) l -> l !! k = Some s -> slot_replaced s s' -> Forall2 slot_replaced l (<[k := s']> l).
Proof.
  intros Hl. revert k. induction Hl as [|x l Hx Hl IH]; intros [|k] Hk Hs; simplify_eq/=.
  - constructor; [done|]. by eapply slots_replaced_refl.
  - constructor; [by eapply slot_replaced_refl|]. by apply IH.
Qed.

Lemma inv_change_slot {fl : Floor} e k sent s' f :
  ledger_inv e -> e_sent_packets e !! k = Some (Some sent) -> replaces sent s' ->
  (forall p, get_path e (sp_path_id sent) = Some p ->
     contribution (sp_path_id sent) (Some sent) <= path_flight p <= 2 ^ 63 ->
     path_flight (f p) = path_flight p - contribution (sp_path_id sent) (Some sent)
                         + contribution (sp_path_id sent) s') ->
  ledger_inv (Ledger.put_slot k s' (upd_path (sp_path_id sent) f e)).
Proof.
  intros He Hk Hrep Hf. pose proof (li_flight e He) as Hfl. pose proof (li_records e He) as Hrec.
  pose proof (li_size e He) as Hsize.
  assert (Forall2 slot_replaced (e_sent_packets e) (<[k := s']> (e_sent_packets e))) as Hreps.
  { eapply slots_replaced_insert; [done..|]. exact Hrep. }
  destruct (numbers_replaced _ _ _ (li_fresh e He) (li_distinct e He) Hreps) as [Hfresh Hdist].
  pose proof (Forall_lookup_1 _ _ _ _ Hrec Hk) as Hok. unfold Ledger.put_slot, upd_path.
  split; get_set.
  - intros i. rewrite (ledger_flight_insert _ _ _ _ _ Hk), flight_at_alter, <- Hfl.
    case_decide as Hij.
    + subst i. destruct Hok as (Hlt & _ & _).
      destruct (lookup_lt_is_Some_2 _ _ Hlt) as [p Hp]. rewrite Hp.
      pose proof (flight_small e (sp_path_id sent) He) as Hsm.
      pose proof (ledger_flight_lookup (sp_path_id sent) _ _ _ _ Hrec Hk) as Hle.
      rewrite <- Hfl in Hle. unfold flight_at in *. rewrite Hp in *. apply Hf; [exact Hp|lia].
    + rewrite contribution_other by done.
      destruct s' as [r|]; [|simpl; lia]. destruct Hrep as (Hr & _ & _ & _).
      rewrite contribution_other by congruence. lia.
  - done.
  - done.
  - apply (li_floor e He).
  - rewrite length_alter. apply Forall_insert; [done|].
    destruct s' as [r|]; [|done]. destruct Hrep as (Hr & Hb & Hl & _), Hok as (? & ? & ?).
    split; [by rewrite Hr|split; [by rewrite Hb|done]].
  - by rewrite length_insert.
Qed.

Lemma remove_flight c b : b <= bytes_in_flight c -> bytes_in_flight (CC.remove_in_flight c b) = bytes_in_flight c - b.
Proof. intros. unfold CC.remove_in_flight, sat_sub. simpl. lia. Qed.

Lemma add_flight c b :
  0 <= bytes_in_flight c <= 2 ^ 63 -> 0 <= b < 2 ^ 32 ->
  bytes_in_flight (CC.on_retransmission_sent c b) = bytes_in_flight c + b.
Proof. intros. unfold CC.on_retransmission_sent. simpl. apply sat_add_small. unfold U64_MAX. lia. Qed.

Lemma lost_flight c b l s :
  0 <= b <= bytes_in_flight c -> bytes_in_flight (CC.on_packet_lost c b l s) = bytes_in_flight c - b.
Proof.
  intros. unfold CC.on_packet_lost. destruct (Z.eqb_spec b 0); [lia|].
  unfold sat_sub. destruct (match recovery_start_packet _ with Some _ => _ | None => _ end); simpl; lia.
Qed.

Lemma alter_twice {A} (f g : A -> A) (i : nat) (l : list A) : alter f i (alter g i l) = alter (fun x => f (g x)) i l.
Proof. revert i. induction l as [|x l IH]; intros [|i]; simpl; try done. f_equal. apply IH. Qed.

(** Two updates of the same path are one. *)
Lemma upd_path_twice i f g e : upd_path i f (upd_path i g e) = upd_path i (fun p => f (g p)) e.
Proof.
  unfold upd_path. destruct e; unfold setter, set_e_paths; simpl. f_equal. apply alter_twice.
Qed.

Lemma upd_path_put_slot i f k s e :
  upd_path i f (Ledger.put_slot k s e) = Ledger.put_slot k s (upd_path i f e).
Proof. done. Qed.

Section events.
Context `{Allocator, PacketSize, Features} {fl : Floor}.

(** [WouldBlock] on a record that is not lost. *)
Lemma blocked_inv e pn :
  ledger_inv e ->
  (forall k sent, Ledger.slot_of pn (e_sent_packets e) = Some (k, sent) -> sp_lost sent = false) ->
  ledger_inv (Ledger.packet_submission_blocked pn e).2.
Proof.
  intros He Hnl. unfold Ledger.packet_submission_blocked.
  destruct (Ledger.slot_of pn _) as [[k sent]|] eqn:Hs; [|done].
  specialize (Hnl k sent eq_refl). apply slot_of_Some in Hs as [Hk _].
  pose proof (Forall_lookup_1 _ _ _ _ (li_records e He) Hk) as (_ & Hb & _). cbn [snd].
  rewrite upd_path_put_slot, upd_path_twice.
  assert (replaces sent (Some (sent <| sp_accepted := false |>))) as Hrep.
  { split_and!; try done. get_set. by rewrite Hnl. }
  destruct (sp_accepted sent) eqn:Ha.
  - rewrite upd_path_twice. apply (inv_change_slot e k sent); [done..|].
    rewrite contribution_own, Ha, Hnl. cbn [andb negb]. intros p Hp Hc.
    rewrite neutral_history.
    match goal with |- path_flight (if ?b then ?x else ?y) = _ =>
      replace (path_flight (if b then x else y)) with (path_flight y) by (by destruct b) end.
    rewrite upd_congestion_flight, remove_flight by (apply Hc).
    unfold path_flight, contribution. get_set. simpl. lia.
  - apply (inv_change_slot e k sent); [done..|].
    rewrite contribution_own, Ha. cbn [andb]. intros p Hp Hc. rewrite neutral_history.
    unfold contribution. get_set. cbn [andb]. rewrite Z.sub_0_r, Z.add_0_r.
    by destruct (Ledger.largest_sent_is p pn).
Qed.
End events.

(** [e'] has the ledger of [e] and the flight of every path. *)
Definition same_flight (e e' : EndpointState) : Prop :=
  e_sent_packets e' = e_sent_packets e /\ e_next_packet_number e' = e_next_packet_number e /\
  length (e_paths e') = length (e_paths e) /\
  forall i, flight_at (e_paths e') i = flight_at (e_paths e) i.

#[export] Instance same_flight_pre : PreOrder same_flight.
Proof.
  split; [by intros e|]. intros x y z (H1 & H2 & H3 & H4) (H5 & H6 & H7 & H8).
  split; [by rewrite H5|]. split; [by rewrite H6|]. split; [by rewrite H7|]. intros i. by rewrite H8.
Qed.

Lemma same_flight_inv {fl : Floor} e e' : same_flight e e' -> ledger_inv e -> ledger_inv e'.
Proof. intros (? & ? & ? & ?) He. by eapply inv_neutral. Qed.

Lemma same_flight_refl e e' :
  e_sent_packets e' = e_sent_packets e -> e_next_packet_number e' = e_next_packet_number e ->
  e_paths e' = e_paths e -> same_flight e e'.
Proof. intros Hl Hn Hp. split; [done|]. split; [done|]. by rewrite Hp. Qed.

Lemma same_flight_upd e i f : neutral f -> same_flight e (upd_path i f e).
Proof.
  intros Hf. unfold upd_path. split; [done|]. split; [done|]. get_set. split; [apply length_alter|].
  intros j. by apply flight_at_neutral.
Qed.

Lemma same_flight_put e e' k s :
  same_flight e e' -> same_flight (Ledger.put_slot k s e) (Ledger.put_slot k s e').
Proof.
  intros (H1 & H2 & H3 & H4). unfold Ledger.put_slot. split; get_set; [by rewrite H1|]. by split_and!.
Qed.

Create HintDb flight.
#[export] Hint Resolve same_flight_upd neutral_history neutral_delivery neutral_update_rtt
  neutral_ack_status neutral_count_lost neutral_count_acked : flight.

Section events2.
Context `{Allocator, PacketSize, Features} {fl : Floor}.

Lemma commit_budget_same sent e : same_flight e (Ledger.commit_budget sent e).
Proof.
  unfold Ledger.commit_budget. cbv zeta.
  match goal with |- context [upd_path _ _ ?x] => assert (same_flight e x) as Hx end.
  { repeat case_match; by apply same_flight_refl. }
  repeat case_match; try exact Hx; (etrans; [exact Hx|]); by apply same_flight_upd.
Qed.

(** The last step of an acceptance, on the path. *)
Lemma neutral_accept pn now (token : option Z) :
  neutral (fun p =>
    let p := match token with
             | Some token => PathOps.update_probe_submission_time p token now
             | None => p
             end in
    let had := bool_decide (Rtt.latest (path_rtt p) <> None) in
    Ledger.history_update pn (Ledger.h_set_accepted now had) (p <| largest_sent_packet := Some pn |>)).
Proof.
  intros p. cbv zeta. rewrite neutral_history. destruct token as [t|]; [|done].
  unfold PathOps.update_probe_submission_time. destruct (pending_probe p) as [[q a]|]; [|done].
  by destruct (q =? t).
Qed.

Lemma accepted_inv e pn now :
  ledger_inv e -> ledger_inv (Ledger.packet_submission_accepted pn now e).2.
Proof.
  intros He. unfold Ledger.packet_submission_accepted.
  destruct (Ledger.slot_of pn _) as [[k sent]|] eqn:Hs; [|done].
  apply slot_of_Some in Hs as [Hk _].
  pose proof (Forall_lookup_1 _ _ _ _ (li_records e He) Hk) as (_ & Hb & Hl).
  destruct (Ledger.accept_flight sent e) as [sent1 e1] eqn:Hacc.
  assert (sp_path_id sent1 = sp_path_id sent /\ forall s', s' = sent1 <| sp_sent_at := now |>
            <| sp_duplication_budget_committed := true |> ->
          ledger_inv (Ledger.put_slot k (Some s') e1)) as [Hpath Hput].
  { unfold Ledger.accept_flight in Hacc. destruct (sp_accepted sent) eqn:Ha; simplify_eq.
    - split; [done|]. intros s' ->. apply (same_flight_inv (Ledger.put_slot k (Some
        (sent1 <| sp_sent_at := now |> <| sp_duplication_budget_committed := true |>))
        (upd_path (sp_path_id sent1) id e1))).
      { apply same_flight_put. unfold upd_path. split; [done|]. split; [done|]. get_set.
        split; [by rewrite length_alter|]. intros i. by rewrite flight_at_neutral. }
      apply (inv_change_slot e1 k sent1); [done..|]. intros p _ _.
      unfold contribution. get_set. unfold id. lia.
    - split; [done|]. intros s' ->. apply (inv_change_slot e k sent); [done..|].
      rewrite contribution_own, Ha. cbn [andb]. intros p Hp Hc. rewrite upd_congestion_flight.
      assert (sp_lost sent = false) as Hnl by (destruct (sp_lost sent); [by specialize (Hl eq_refl)|done]).
      unfold contribution. get_set. rewrite Hnl, Nat.eqb_refl. cbn [andb negb].
      unfold path_flight in *. rewrite add_flight by lia. lia. }
  cbn [snd]. apply inv_upd_path; [apply neutral_accept|]. get_set.
  eapply same_flight_inv; [|apply (Hput _ eq_refl)]. apply same_flight_put.
  destruct (sp_duplication_budget_committed sent1); [done|apply commit_budget_same].
Qed.

Lemma keep_lost_replaces e sent sent' :
  sp_path_id sent' = sp_path_id sent -> sp_bytes sent' = sp_bytes sent ->
  sp_packet_number sent' = sp_packet_number sent -> sp_accepted sent' = true -> replaces sent (Ledger.keep_lost e sent').
Proof.
  intros. unfold Ledger.keep_lost. destruct (_ || _); [|done]. by split_and!.
Qed.

Lemma keep_lost_contribution e i sent : sp_lost sent = true -> contribution i (Ledger.keep_lost e sent) = 0.
Proof.
  intros Hl. unfold Ledger.keep_lost. destruct (_ || _); [|done].
  unfold contribution. by rewrite Hl, andb_false_r.
Qed.

Lemma failed_inv e pn : ledger_inv e -> ledger_inv (Ledger.packet_submission_failed pn e).2.
Proof.
  intros He. unfold Ledger.packet_submission_failed.
  destruct (Ledger.slot_of pn _) as [[k sent]|] eqn:Hs; [|done].
  apply slot_of_Some in Hs as [Hk _]. destruct (negb (sp_accepted sent) || _) eqn:Hc; [done|].
  apply orb_false_iff in Hc as [Hacc%negb_false_iff Hnl].
  cbv zeta. cbn [snd]. set (e1 := if _ && _ then _ else e).
  assert (same_flight e e1) as Hsf by (unfold e1; case_match; by apply same_flight_refl).
  assert (ledger_inv e1) as He1 by (by eapply same_flight_inv).
  set (s' := Ledger.keep_lost _ _).
  apply (same_flight_inv (Ledger.put_slot k s' (upd_path (sp_path_id sent) (fun p =>
    Ledger.history_update pn Ledger.h_set_excluded
      (upd_congestion (fun c => CC.remove_in_flight c (sp_bytes sent)) p)) e1))).
  { by apply same_flight_refl. }
  apply inv_change_slot; [done| | |].
  - destruct Hsf as [-> _]. exact Hk.
  - by apply keep_lost_replaces.
  - intros p Hp Hcc. rewrite contribution_own, Hacc, Hnl in *. cbn [andb negb] in *.
    unfold s'. rewrite keep_lost_contribution by done. rewrite neutral_history, upd_congestion_flight.
    rewrite remove_flight by (apply Hcc). unfold path_flight. lia.
Qed.
End events2.

(** ** A whole ledger changes *)

Lemma slot_replaced_ok n s s' : record_ok n s -> slot_replaced s s' -> record_ok n s'.
Proof.
  destruct s as [sent|]; simpl; [|by intros _ ->]. intros (H1 & H2 & _).
  destruct s' as [r|]; [|done]. intros (Hp & Hb & Hl & _). split; [by rewrite Hp|]. split; [by rewrite Hb|done].
Qed.

Lemma slots_replaced_ok n l l' :
  Forall (record_ok n) l -> Forall2 slot_replaced l l' -> Forall (record_ok n) l'.
Proof.
  intros Hl H. induction H as [|s s' l l' Hs H IH]; [constructor|].
  apply Forall_cons in Hl as [H1 H2]. constructor; [by eapply slot_replaced_ok|auto].
Qed.

Lemma slot_replaced_trans a b c : slot_replaced a b -> slot_replaced b c -> slot_replaced a c.
Proof.
  destruct a as [x|]; simpl; [|by intros ->]. destruct b as [y|]; simpl; [|by intros _ ->].
  intros (Hp & Hb & _ & Hn). destruct c as [z|]; [|done]. intros (Hp' & Hb' & Hl & Hn').
  split_and!; [congruence|congruence|done|congruence].
Qed.

Lemma slots_replaced_map n f l l' :
  Forall (record_ok n) l -> Forall2 slot_replaced l l' ->
  (forall s, record_ok n s -> slot_replaced s (f s)) -> Forall2 slot_replaced l (map f l').
Proof.
  intros Hok Hrep Hf. induction Hrep as [|s s' l l' Hs Hrep IH]; [constructor|].
  apply Forall_cons in Hok as [Hso Hlo]. constructor; [|by apply IH].
  eapply slot_replaced_trans; [exact Hs|]. apply Hf. by eapply slot_replaced_ok.
Qed.

Lemma inv_change_ledger {fl : Floor} e e' :
  ledger_inv e -> Forall2 slot_replaced (e_sent_packets e) (e_sent_packets e') ->
  e_next_packet_number e' = e_next_packet_number e -> length (e_paths e') = length (e_paths e) ->
  (forall i, flight_at (e_paths e') i = ledger_flight i (e_sent_packets e')) -> ledger_inv e'.
Proof.
  intros [Hf Hfr Hd Hfl Hr Hs] Hrep Hnx Hn Hflt.
  destruct (numbers_replaced _ _ _ Hfr Hd Hrep) as [Hfr' Hd']. split; [done|by rewrite Hnx|done|by rewrite Hnx| |].
  - rewrite Hn. by eapply slots_replaced_ok.
  - by rewrite <- (Forall2_length _ _ _ Hrep).
Qed.

(** A slot-wise change that keeps every contribution. *)
Lemma inv_map_slots {fl : Floor} e f :
  ledger_inv e -> (forall n s, record_ok n s -> slot_replaced s (f s)) ->
  (forall i s, contribution i (f s) = contribution i s) ->
  ledger_inv (e <| e_sent_packets ::= map f |>).
Proof.
  intros He Hrep Hc. eapply inv_change_ledger; [exact He| |done|done|]; get_set.
  - pose proof (li_records e He) as Hr. clear He. induction Hr as [|s l Hs _ IH]; simpl; constructor; eauto.
  - intros i. by rewrite ledger_flight_map, (li_flight e He).
Qed.

(** A loop over the slots that moves the flight of the records it changes. *)
Lemma slots_loop_flight {A} (step : option SentPacket -> A -> option SentPacket * A)
    (paths_of : A -> list PathState) n :
  (forall s acc s' acc', step s acc = (s', acc') -> record_ok n s ->
     length (paths_of acc) = n ->
     (forall i, contribution i s <= flight_at (paths_of acc) i <= 2 ^ 63) ->
     slot_replaced s s' /\ length (paths_of acc') = n /\
     (forall i, contribution i s' <= contribution i s /\
        flight_at (paths_of acc') i = flight_at (paths_of acc) i - contribution i s + contribution i s')) ->
  forall l acc l' acc', Ledger.slots_loop step l acc = (l', acc') -> Forall (record_ok n) l ->
    length (paths_of acc) = n ->
    (forall i, ledger_flight i l <= flight_at (paths_of acc) i <= 2 ^ 63) ->
    Forall2 slot_replaced l l' /\ length (paths_of acc') = n /\
    forall i, flight_at (paths_of acc') i
              = flight_at (paths_of acc) i - ledger_flight i l + ledger_flight i l'.
Proof.
  intros Hstep. induction l as [|s l IH]; simpl; intros acc l' acc' Hl Hok Hn Hb.
  { injection Hl as <- <-. split_and!; [constructor|done|]. intros i. unfold ledger_flight. simpl. lia. }
  destruct (step s acc) as [s1 acc1] eqn:Hs. destruct (Ledger.slots_loop step l acc1) as [l1 acc2] eqn:Hl1.
  injection Hl as <- <-. apply Forall_cons in Hok as [Hso Hlo].
  assert (forall i, 0 <= contribution i s) as Hc by (intros i; apply (contribution_bounds _ i) in Hso; lia).
  assert (forall i, 0 <= ledger_flight i l) as Hc' by (intros i; apply (ledger_flight_bounds _ i) in Hlo; lia).
  destruct (Hstep _ _ _ _ Hs Hso Hn) as (Hr & Hn1 & Hf1).
  { intros i. specialize (Hb i). specialize (Hc i). specialize (Hc' i). unfold ledger_flight in *. simpl in Hb. lia. }
  pose proof (slot_replaced_ok _ _ _ Hso Hr) as Hso1.
  destruct (IH _ _ _ Hl1 Hlo Hn1) as (Hr2 & Hn2 & Hf2).
  { intros i. specialize (Hb i). destruct (Hf1 i) as [Hle ->].
    apply (contribution_bounds _ i) in Hso1. unfold ledger_flight in *. simpl in Hb. lia. }
  split_and!; [by constructor|done|]. intros i. rewrite Hf2, (proj2 (Hf1 i)).
  unfold ledger_flight. simpl. lia.
Qed.

Section events3.
Context `{Allocator, PacketSize, Features} {fl : Floor}.

(** *** Suspension *)
Definition suspended_slot (i : nat) (s : option SentPacket) : option SentPacket :=
  match s with
  | Some sent => if negb (sp_path_id sent =? i)%nat || negb (sp_accepted sent) || sp_lost sent
                 then s else Some (sent <| sp_lost := true |>)
  | None => None
  end.

Lemma suspended_contribution i j s :
  contribution j (suspended_slot i s) = if decide (j = i) then 0 else contribution j s.
Proof.
  destruct s as [sent|]; unfold suspended_slot; [|by case_decide].
  destruct (Nat.eqb_spec (sp_path_id sent) i) as [Hi|Hi]; cbn [negb orb].
  - destruct (sp_accepted sent) eqn:Ha, (sp_lost sent) eqn:Hl; cbn [negb orb];
      unfold contribution; get_set; rewrite ?Ha, ?Hl; cbn [negb andb]; try by case_decide.
    case_decide as Hji; [done|]. by rewrite (proj2 (Nat.eqb_neq _ _)) by congruence.
  - case_decide as Hji; [|done]. apply contribution_other. congruence.
Qed.

Lemma suspend_loop i l : forall acc,
  ledger_flight i l <= path_flight acc.2 -> Forall (fun s => 0 <= contribution i s) l ->
  let r := fold_left (Ledger.suspend_slot i) l acc in
  r.1 = acc.1 ++ map (suspended_slot i) l /\
  path_flight r.2 = path_flight acc.2 - ledger_flight i l.
Proof.
  unfold ledger_flight. induction l as [|s l IH]; simpl; intros acc Hle Hnn.
  { rewrite app_nil_r. split; [done|lia]. }
  apply Forall_cons in Hnn as [Hs Hnn]. pose proof (zsum_nonneg (contribution i) l Hnn) as Hl0.
  destruct (IH (Ledger.suspend_slot i acc s)) as [-> ->]; [|done|].
  - unfold Ledger.suspend_slot. destruct s as [sent|]; simpl in *; [|lia].
    destruct (sp_path_id sent =? i)%nat, (sp_accepted sent), (sp_lost sent); simpl in *; try lia.
    rewrite neutral_history, upd_congestion_flight, remove_flight; unfold path_flight in *; lia.
  - unfold Ledger.suspend_slot. destruct s as [sent|]; simpl in *; [|by rewrite <- app_assoc].
    destruct (sp_path_id sent =? i)%nat, (sp_accepted sent), (sp_lost sent); simpl in *;
      rewrite <- ?app_assoc; (split; [done|]); try lia.
    rewrite neutral_history, upd_congestion_flight, remove_flight; unfold path_flight in *; lia.
Qed.

Lemma neutral_suspended : neutral PathOps.mark_suspended.
Proof. done. Qed.

Lemma records_nonneg e i : ledger_inv e -> Forall (fun s => 0 <= contribution i s) (e_sent_packets e).
Proof.
  intros He. eapply Forall_impl; [apply (li_records e He)|]. intros s Hs.
  by apply (contribution_bounds _ i) in Hs as [? _].
Qed.

Lemma suspend_path_eq e i p :
  get_path e i = Some p -> ledger_inv e ->
  exists p', path_flight p' = 0 /\
    Ledger.suspend_path i e = upd_path i (fun _ => p')
                                (e <| e_sent_packets ::= map (suspended_slot i) |>).
Proof.
  intros Hp He. unfold Ledger.suspend_path. rewrite Hp.
  pose proof (li_flight e He i) as Hf. unfold get_path in Hp. unfold flight_at in Hf. rewrite Hp in Hf.
  pose proof (suspend_loop i (e_sent_packets e) ([], p)) as Hloop.
  destruct Hloop as [H2 H3]; [simpl; lia|by apply records_nonneg|].
  destruct (fold_left (Ledger.suspend_slot i) (e_sent_packets e) ([], p)) as [l p'].
  cbn [fst snd app] in *. subst l. exists (PathOps.mark_suspended p').
  split; [rewrite neutral_suspended; lia|done].
Qed.

Lemma suspend_inv e i : ledger_inv e -> ledger_inv (Ledger.suspend_path i e).
Proof.
  intros He. destruct (get_path e i) as [p|] eqn:Hp.
  2:{ unfold Ledger.suspend_path. by rewrite Hp. }
  destruct (suspend_path_eq e i p Hp He) as (p' & Hf' & ->). unfold upd_path.
  eapply inv_change_ledger; [exact He|..]; get_set.
  - pose proof (li_records e He) as Hr. clear -Hr. induction Hr as [|s l Hs _ IH]; simpl; constructor; [|done].
    destruct s as [sent|]; [|done]. destruct Hs as (? & ? & Hl). unfold suspended_slot, slot_replaced.
    destruct (negb _ || _ || _) eqn:Hc; [by split_and!|].
    apply orb_false_iff in Hc as [[_ Ha%negb_false_iff]%orb_false_iff _]. by split_and!; get_set.
  - done.
  - apply length_alter.
  - intros j. rewrite flight_at_alter. unfold get_path in Hp. rewrite Hp.
    assert (ledger_flight j (map (suspended_slot i) (e_sent_packets e))
            = if decide (j = i) then 0 else ledger_flight j (e_sent_packets e)) as ->.
    { unfold ledger_flight. induction (e_sent_packets e) as [|s l IH]; simpl; [by case_decide|].
      rewrite IH, suspended_contribution. by case_decide. }
    case_decide; [done|]. apply (li_flight e He).
Qed.

(** *** Removal of a path *)
Definition shift_path (i : nat) (s : option SentPacket) : option SentPacket :=
  fmap (M:=option) (fun sent => if (i <? sp_path_id sent)%nat then sent <| sp_path_id ::= pred |> else sent) s.

Definition old_index (i j : nat) : nat := if (j <? i)%nat then j else S j.

Lemma shift_contribution i j s :
  (match s with Some sent => sp_path_id sent <> i | None => True end) ->
  contribution j (shift_path i s) = contribution (old_index i j) s.
Proof.
  destruct s as [sent|]; [|done]. intros Hne. unfold shift_path, old_index. simpl.
  destruct (Nat.ltb_spec i (sp_path_id sent)), (Nat.ltb_spec j i); unfold contribution; get_set;
    do 2 f_equal; (destruct (Nat.eqb_spec (sp_path_id sent) j), (Nat.eqb_spec (sp_path_id sent) (S j)),
                     (Nat.eqb_spec (pred (sp_path_id sent)) j); lia || done).
Qed.

Lemma flight_at_delete i j paths : flight_at (delete i paths) j = flight_at paths (old_index i j).
Proof.
  unfold flight_at, old_index. destruct (Nat.ltb_spec j i).
  - by rewrite list_lookup_delete_lt.
  - by rewrite list_lookup_delete_ge.
Qed.

Lemma shift_numbers i l : numbers (shift_path i <$> l) = numbers l.
Proof.
  induction l as [|s l IH]; [done|]. cbn [fmap list_fmap]. unfold numbers in *.
  destruct s as [sent|]; simpl; [|exact IH]. f_equal; [|exact IH]. by destruct (i <? sp_path_id sent)%nat.
Qed.

Lemma remove_inv e i : ledger_inv e -> ledger_inv (Ledger.remove_path_state i e).2.
Proof.
  intros He. unfold Ledger.remove_path_state. destruct (_ || _) eqn:Hc; [done|].
  apply orb_false_iff in Hc as [_ Hlen%Nat.leb_gt].
  destruct (existsb _ _) eqn:Hon; [done|]. cbn [snd]. destruct He as [Hf Hfr Hd Hfl Hr Hs].
  rewrite <- (shift_numbers i) in Hfr, Hd. split; get_set; [|exact Hfr|exact Hd|exact Hfl| |].
  - intros j. rewrite flight_at_delete, Hf. clear Hf Hfr Hd Hfl Hr Hs Hlen. unfold ledger_flight.
    induction (e_sent_packets e) as [|s l IH]; [done|]. simpl in Hon. apply orb_false_iff in Hon as [Hn Hon].
    cbn [fmap list_fmap zsum]. rewrite IH by done. f_equal. symmetry. apply (shift_contribution i j s).
    destruct s as [sent|]; [|done]. by apply Nat.eqb_neq in Hn.
  - rewrite length_delete by (by apply lookup_lt_is_Some_2). clear Hf Hs Hfr Hd Hfl.
    induction Hr as [|s l Hs Hl IH]; [constructor|]. simpl in Hon. apply orb_false_iff in Hon as [Hn Hon].
    cbn [fmap list_fmap]. constructor; [|by apply IH]. destruct s as [sent|]; [|done].
    destruct Hs as (H2 & H3 & H4). simpl in Hn. apply Nat.eqb_neq in Hn. simpl.
    destruct (Nat.ltb_spec i (sp_path_id sent)); split_and!; get_set; auto; lia.
  - by rewrite length_fmap.
Qed.

(** *** Resumption: the recovery reset is right when nothing is in flight *)
Lemma reset_flight p : path_flight (PathOps.reset_recovery_for_resumption p) = 0.
Proof. done. Qed.

Lemma resume_inv e i address now :
  ledger_flight i (e_sent_packets e) = 0 -> ledger_inv e ->
  ledger_inv (Ledger.resume_path i address now e).
Proof.
  intros Hz He. unfold Ledger.resume_path, upd_path. eapply inv_change_ledger; [exact He|..]; get_set.
  - by eapply slots_replaced_refl, li_records.
  - done.
  - apply length_alter.
  - intros j. rewrite flight_at_alter. case_decide as Hj; [|apply (li_flight e He)]. subst j.
    rewrite Hz. by destruct (e_paths e !! i).
Qed.
End events3.

Section losses.
Context `{Allocator, PacketSize, Features} {fl : Floor}.

Lemma congestion_loss_flight e b l p :
  0 <= b <= path_flight p -> path_flight (Ledger.congestion_loss e b l p) = path_flight p - b.
Proof. intros Hb. unfold Ledger.congestion_loss. cbv zeta. rewrite upd_congestion_flight. by apply lost_flight. Qed.

Lemma mark_lost_inv e pn : ledger_inv e -> ledger_inv (Ledger.mark_lost pn e).2.
Proof.
  intros He. unfold Ledger.mark_lost.
  destruct (Ledger.slot_of pn _) as [[k sent]|] eqn:Hs; [|done].
  apply slot_of_Some in Hs as [Hk _]. destruct (negb (sp_accepted sent) || _) eqn:Hc; [done|].
  apply orb_false_iff in Hc as [Hacc%negb_false_iff Hnl]. cbv zeta. cbn [snd].
  pose proof (Forall_lookup_1 _ _ _ _ (li_records e He) Hk) as (_ & Hb & _).
  rewrite upd_path_put_slot. change (sp_path_id (Ledger.mark_inferred sent)) with (sp_path_id sent).
  rewrite upd_path_twice. apply inv_change_slot; [done..| |].
  - by apply keep_lost_replaces.
  - rewrite contribution_own, Hacc, Hnl. cbn [andb negb]. intros p _ Hle.
    rewrite keep_lost_contribution by done. pose proof (neutral_count_lost (Ledger.mark_inferred sent)) as Hn.
    change (sp_bytes (Ledger.mark_inferred sent)) with (sp_bytes sent).
    rewrite congestion_loss_flight, Hn; [lia|]. rewrite Hn. lia.
Qed.

(** What the first loop of [detect_ack_losses] does to one slot. *)
Lemma loss_step_spec i la pt tt clock n s acc s' acc' :
  Ledger.loss_step i la pt tt clock s acc = (s', acc') -> record_ok n s ->
  0 <= Ledger.lr_bytes acc <= 2 ^ 63 ->
  slot_replaced s s' /\ path_flight (Ledger.lr_path acc') = path_flight (Ledger.lr_path acc) /\
  Ledger.lr_bytes acc' = Ledger.lr_bytes acc + (contribution i s - contribution i s') /\
  (forall j, j <> i -> contribution j s' = contribution j s) /\
  contribution i s' <= contribution i s /\
  (Ledger.lr_largest acc' = None -> Ledger.lr_largest acc = None /\ s' = s).
Proof.
  intros Hstep Hok Hb. destruct s as [sent|].
  2:{ simpl in Hstep. injection Hstep as <- <-. split_and!; done || lia. }
  pose proof Hok as (_ & Hbytes & Hl).
  assert (slot_replaced (Some sent) (Some sent)) as Hrefl by (by eapply slot_replaced_refl).
  unfold Ledger.loss_step in Hstep. cbv zeta in Hstep.
  destruct (Ledger.loss_candidate _ _ _ && _) eqn:Hc; injection Hstep as <- <-.
  2:{ split_and!; done || lia. }
  apply andb_true_iff in Hc as [Hc _]. unfold Ledger.loss_candidate in Hc. rewrite !andb_true_iff in Hc.
  destruct Hc as [[[Ha Hnl%negb_true_iff] Hp%Nat.eqb_eq] _].
  assert (forall j, contribution j (Some (Ledger.mark_inferred sent)) = 0) as H0'.
  { intros j. unfold contribution, Ledger.mark_inferred. get_set. by rewrite andb_false_r. }
  rewrite H0', <- Hp, contribution_own, Ha, Hnl. cbn [andb negb].
  cbn [Ledger.lr_path Ledger.lr_bytes Ledger.lr_largest]. split_and!.
  - by split_and!.
  - apply neutral_count_lost.
  - rewrite sat_add_small by (unfold U64_MAX; lia). lia.
  - intros j Hj. by rewrite H0', contribution_other.
  - lia.
  - done.
Qed.

Lemma loss_loop i la pt tt clock n l : forall acc l' acc',
  Ledger.slots_loop (Ledger.loss_step i la pt tt clock) l acc = (l', acc') -> Forall (record_ok n) l ->
  0 <= Ledger.lr_bytes acc -> Ledger.lr_bytes acc + ledger_flight i l <= 2 ^ 63 ->
  Forall2 slot_replaced l l' /\ path_flight (Ledger.lr_path acc') = path_flight (Ledger.lr_path acc) /\
  Ledger.lr_bytes acc' = Ledger.lr_bytes acc + (ledger_flight i l - ledger_flight i l') /\
  Ledger.lr_bytes acc <= Ledger.lr_bytes acc' /\
  (forall j, j <> i -> ledger_flight j l' = ledger_flight j l) /\
  (Ledger.lr_largest acc' = None -> Ledger.lr_largest acc = None /\ l' = l).
Proof.
  unfold ledger_flight. induction l as [|s l IH]; simpl; intros acc l' acc' Hl Hok Hb Hs.
  { injection Hl as <- <-. split_and!; done || simpl; lia. }
  destruct (Ledger.loss_step i la pt tt clock s acc) as [s1 acc1] eqn:Hstep.
  destruct (Ledger.slots_loop _ l acc1) as [l1 acc2] eqn:Hl1. injection Hl as <- <-.
  apply Forall_cons in Hok as [Hso Hlo].
  pose proof (ledger_flight_bounds _ i _ Hlo) as Hc'. pose proof (contribution_bounds _ i _ Hso) as Hc.
  unfold ledger_flight in Hc'.
  destruct (loss_step_spec _ _ _ _ _ _ _ _ _ _ Hstep Hso) as (Hr & Hp & Hb1 & Hj & Hle & Hn); [lia|].
  pose proof (contribution_bounds _ i _ (slot_replaced_ok _ _ _ Hso Hr)) as Hc1.
  destruct (IH _ _ _ Hl1 Hlo) as (Hr2 & Hp2 & Hb2 & Hm2 & Hj2 & Hn2); [lia..|].
  split_and!; [by constructor|by rewrite Hp2|simpl; lia|lia| |].
  - intros j Hji. simpl. by rewrite Hj, Hj2.
  - intros [H4 ->]%Hn2. destruct (Hn H4) as [? ->]. done.
Qed.

Lemma drop_delivered_replaced n e i s : record_ok n s -> slot_replaced s (Ledger.drop_delivered e i s).
Proof.
  intros Hok. unfold Ledger.drop_delivered. destruct s as [sent|]; [|done].
  destruct (_ && _); [done|]. by eapply slot_replaced_refl.
Qed.

Lemma drop_delivered_contribution e i j s : contribution j (Ledger.drop_delivered e i s) = contribution j s.
Proof.
  unfold Ledger.drop_delivered. destruct s as [sent|]; [|done].
  destruct (_ && _) eqn:Hc; [|done]. rewrite !andb_true_iff in Hc. destruct Hc as [[[_ Hl] _] _].
  unfold contribution. by rewrite Hl, andb_false_r.
Qed.

Lemma detect_ack_losses_inv e i o : ledger_inv e -> ledger_inv (Ledger.detect_ack_losses i o e).
Proof.
  intros He. unfold Ledger.detect_ack_losses. destruct o as [la|]; [|done].
  destruct (get_path e i) as [p|] eqn:Hp; [|done].
  destruct (Ledger.slots_loop _ _ _) as [l r] eqn:Hl. cbv zeta.
  pose proof (ledger_flight_bounds _ i _ (li_records e He)) as Hlf. pose proof (li_size e He) as Hsz.
  pose proof (li_flight e He i) as Hfi. unfold get_path in Hp. unfold flight_at in Hfi. rewrite Hp in Hfi.
  destruct (loss_loop _ _ _ _ _ _ _ _ _ _ Hl (li_records e He)) as (Hrep & Hfl & Hb & Hm & Hj & Hnone);
    [simpl; lia..|]. cbn [Ledger.lr_bytes Ledger.lr_path Ledger.lr_largest] in *.
  pose proof (slots_replaced_ok _ _ _ (li_records e He) Hrep) as Hlok.
  pose proof (ledger_flight_bounds _ i _ Hlok) as Hlf'.
  assert (forall E, Forall2 slot_replaced (e_sent_packets e) (Ledger.drop_delivered E i <$> l)) as Hrep2.
  { intros E. eapply slots_replaced_map; [apply (li_records e He)|done|].
    intros s. apply drop_delivered_replaced. }
  assert (forall E j, ledger_flight j (Ledger.drop_delivered E i <$> l) = ledger_flight j l) as Hdrop.
  { intros E j. apply ledger_flight_map. intros s. apply drop_delivered_contribution. }
  destruct (Ledger.lr_largest r) as [largest|] eqn:Hlr.
  - eapply inv_change_ledger; [exact He|..]; unfold upd_path, upd_stats; get_set.
    + apply Hrep2.
    + done.
    + by rewrite !length_alter.
    + intros j. rewrite Hdrop, alter_twice, flight_at_alter, Hp. case_decide as Hji.
      * subst j. rewrite congestion_loss_flight; lia.
      * rewrite Hj by done. apply (li_flight e He).
  - destruct (Hnone eq_refl) as [_ ->]. eapply inv_change_ledger; [exact He|..]; unfold upd_path, upd_stats; get_set.
    + apply Hrep2.
    + done.
    + by rewrite !length_alter.
    + intros j. rewrite Hdrop, flight_at_alter, Hp. case_decide as Hji.
      * subst j. lia.
      * apply (li_flight e He).
Qed.
End losses.

(** ** Acknowledgement *)
Lemma acked_flight c b g :
  0 <= b <= bytes_in_flight c -> bytes_in_flight (CC.on_ack_with_growth c b g) = bytes_in_flight c - b.
Proof.
  intros Hb. unfold CC.on_ack_with_growth. cbv zeta. rewrite Z.min_l by lia.
  destruct (_ || _); [done|]. by destruct (_ <? _).
Qed.

Lemma same_flight_fmap e f : neutral f -> same_flight e (e <| e_paths ::= map f |>).
Proof.
  intros Hf. split; [done|]. split; [done|]. get_set. split; [apply length_map|].
  intros i. by apply (flight_at_fmap f).
Qed.

Lemma same_flight_imap e (f : nat -> PathState -> PathState) :
  (forall i, neutral (f i)) -> same_flight e (e <| e_paths ::= imap f |>).
Proof.
  intros Hf. split; [done|]. split; [done|]. get_set. split; [apply length_imap|].
  intros i. unfold flight_at. rewrite list_lookup_imap. destruct (e_paths e !! i); [apply Hf|done].
Qed.

Lemma same_flight_fold {X} (f : EndpointState -> X -> EndpointState) l :
  (forall e x, same_flight e (f e x)) -> forall e, same_flight e (fold_left f l e).
Proof.
  intros Hf. induction l as [|x l IH]; intros e; simpl; [done|]. etrans; [apply Hf|apply IH].
Qed.

Section acknowledgement.
Context `{Allocator, PacketSize, Features} {fl : Floor}.

Lemma ack_step_spec acked ingress n s acc s' acc' :
  Ledger.ack_step acked ingress s acc = (s', acc') -> record_ok n s ->
  length (Ledger.ar_paths acc) = n ->
  (forall i, contribution i s <= flight_at (Ledger.ar_paths acc) i <= 2 ^ 63) ->
  slot_replaced s s' /\ length (Ledger.ar_paths acc') = n /\
  (forall i, contribution i s' <= contribution i s /\
     flight_at (Ledger.ar_paths acc') i
     = flight_at (Ledger.ar_paths acc) i - contribution i s + contribution i s').
Proof.
  intros Hstep Hok Hn Hb. assert (slot_replaced s s) as Hrefl by (by eapply slot_replaced_refl).
  unfold Ledger.ack_step in Hstep. destruct s as [sent|].
  2:{ injection Hstep as <- <-. split_and!; [done..|]. intros i. lia. }
  cbv zeta in Hstep. destruct (negb (sp_accepted sent && _)) eqn:Hc; injection Hstep as <- <-.
  { split_and!; [done..|]. intros i. lia. }
  apply negb_false_iff, andb_true_iff in Hc as [Ha _].
  pose proof Hok as (Hlt & Hby & _). rewrite <- Hn in Hlt. apply lookup_lt_is_Some_2 in Hlt as [p Hp].
  cbn [Ledger.ar_paths]. split_and!; [done| |].
  { destruct (sp_lost sent); by rewrite ?length_alter. }
  intros i. apply (contribution_bounds _ i) in Hok as Hci. change (contribution i None) with 0.
  split; [lia|]. specialize (Hb i). rewrite Z.add_0_r.
  destruct (sp_lost sent) eqn:Hl.
  - rewrite flight_at_neutral by apply neutral_count_acked. unfold contribution. rewrite Hl, andb_false_r.
    simpl. lia.
  - rewrite alter_twice, flight_at_alter. case_decide as Hi.
    + subst i. rewrite contribution_own, Ha, Hl in *. unfold flight_at in *. rewrite Hp in *.
      cbn [andb negb] in *. pose proof (neutral_count_acked sent p) as Hna.
      rewrite upd_congestion_flight. unfold path_flight in *. rewrite acked_flight; lia.
    + rewrite contribution_other by done. lia.
Qed.

Lemma acknowledge_credit_same acked e : same_flight e (Credit.acknowledge_credit acked e).
Proof.
  unfold Credit.acknowledge_credit. destruct (Credit.credit_acknowledged _ _); [|done].
  unfold Credit.retire_publication. cbv zeta. repeat case_match; by apply same_flight_refl.
Qed.

Lemma try_retire_same id e : same_flight e (Credit.try_retire_stream id e).
Proof.
  unfold Credit.try_retire_stream. destruct (negb _); [done|]. cbv zeta.
  destruct (_ && _); [|by apply same_flight_refl].
  unfold Credit.raise_max_streams_bidi. cbv zeta. case_match; by apply same_flight_refl.
Qed.

Lemma retire_received_same floor e : same_flight e (Ledger.retire_received floor e).
Proof. unfold Ledger.retire_received. case_match; by apply same_flight_refl. Qed.

Lemma acknowledge_path_status_same e st : same_flight e (Ledger.acknowledge_path_status e st).
Proof.
  unfold Ledger.acknowledge_path_status. destruct (Ep.path_with_key _ _); [|done].
  apply same_flight_upd, neutral_ack_status.
Qed.

Lemma growth_same growth e :
  same_flight e (e <| e_paths ::= fun paths => apply_ack_congestion_growth paths growth |>).
Proof. split; [done|]. split; [done|]. get_set. split; [apply length_growth|]. intros i. apply neutral_growth. Qed.

Lemma retire_acked_inv acked ingress e : ledger_inv e -> ledger_inv (Ledger.retire_acked acked ingress e).2.
Proof.
  intros He. unfold Ledger.retire_acked. destruct (Ledger.slots_loop _ _ _) as [l r] eqn:Hl.
  destruct (slots_loop_flight _ Ledger.ar_paths (length (e_paths e)) (ack_step_spec acked ingress _)
              _ _ _ _ Hl (li_records e He) eq_refl) as (Hrep & Hn & Hf).
  { intros i. cbn [Ledger.ack_start Ledger.ar_paths]. pose proof (flight_small e i He).
    rewrite (li_flight e He) in *. lia. }
  cbv zeta. cbn [snd]. eapply same_flight_inv; [apply same_flight_fold, acknowledge_path_status_same|].
  eapply same_flight_inv; [apply growth_same|].
  eapply same_flight_inv; [apply retire_received_same|].
  eapply inv_change_ledger; [exact He|done|done|done|]. get_set. intros i. rewrite Hf.
  cbn [Ledger.ack_start Ledger.ar_paths]. rewrite (li_flight e He). lia.
Qed.

Lemma settle_replaced buf n s : record_ok n s -> slot_replaced s (Ledger.settle_slot buf s).
Proof.
  intros Hok. unfold Ledger.settle_slot. assert (slot_replaced s s) by (by eapply slot_replaced_refl).
  destruct s as [sent|]; [|done]. destruct Hok as (_ & _ & Hl). cbv zeta.
  repeat case_match; try done; by split_and!.
Qed.

Lemma settle_contribution buf i s : contribution i (Ledger.settle_slot buf s) = contribution i s.
Proof.
  unfold Ledger.settle_slot. destruct s as [sent|]; [|done]. cbv zeta.
  destruct (sp_send_buffer_slot sent); [|done].
  match goal with |- context [if ?b then _ else _] => destruct b end; [|done].
  match goal with |- context [if ?b then _ else _] => destruct b end; [|done].
  destruct (sp_lost sent) eqn:Hl; [|done]. unfold contribution. by rewrite Hl, andb_false_r.
Qed.

Lemma end_pto_same progress e : same_flight e (e <| e_paths ::= Ledger.end_pto_episodes progress |>).
Proof. apply same_flight_imap. intros i p. by destruct (default _ _). Qed.

Lemma apply_rtt_same delay ingress o e : same_flight e (Ledger.apply_rtt_sample delay ingress o e).
Proof.
  unfold Ledger.apply_rtt_sample. destruct o as [[q [sample|]]|]; [|done..].
  apply same_flight_upd. intros p. cbv zeta. apply (neutral_update_rtt _ _ p).
Qed.

Lemma persistent_same i e : same_flight e (Ledger.detect_persistent_congestion i e).
Proof.
  unfold Ledger.detect_persistent_congestion. destruct (get_path e i) as [p|]; [|done].
  destruct (Rtt.latest _); [|done]. destruct (Ledger.persistent_period _ _ _ _); [|done].
  by apply same_flight_upd.
Qed.

Lemma detect_all_losses_inv e : ledger_inv e -> ledger_inv (Ledger.detect_all_losses e).
Proof.
  unfold Ledger.detect_all_losses. generalize (seq 0 (length (e_paths e))). intros l.
  revert e. induction l as [|i l IH]; simpl; intros e He; [done|]. apply IH.
  unfold Ledger.detect_losses_on_path.
  eapply same_flight_inv; [apply persistent_same|]. by apply detect_ack_losses_inv.
Qed.

Lemma mark_history_neutral acked : neutral (Ledger.mark_history_acked acked).
Proof. done. Qed.

Lemma apply_ack_inv ranges delay ingress e :
  ledger_inv e -> ledger_inv (Ledger.apply_ack_ranges_on_path ranges delay ingress e).2.
Proof.
  intros He. unfold Ledger.apply_ack_ranges_on_path. destruct (Ranges.len ranges =? 0); [done|]. cbv zeta.
  destruct (Ledger.retire_acked _ _ _) as [r e1] eqn:Hr.
  assert (ledger_inv e1) as He1.
  { change e1 with (r, e1).2. rewrite <- Hr. apply retire_acked_inv.
    assert (forall x v, same_flight x (x <| e_largest_acked_by_peer := v |>)) as Hlargest
      by (intros; by apply same_flight_refl).
    eapply same_flight_inv; [apply Hlargest|]. eapply same_flight_inv; [apply acknowledge_credit_same|].
    eapply same_flight_inv; [apply same_flight_fmap, mark_history_neutral|].
    by apply (same_flight_inv e); [apply same_flight_refl|]. }
  destruct (mark_batch _ _) as [buf|err|]; [|done..]. cbn [snd].
  apply detect_all_losses_inv. eapply same_flight_inv; [apply apply_rtt_same|].
  match goal with |- ledger_inv (if _ then ?y <| e_paths ::= _ |> else ?y) => assert (ledger_inv y) as Hy end.
  { eapply same_flight_inv; [apply same_flight_fold; intros; apply try_retire_same|].
    assert (forall x v, same_flight x (x <| e_send_buffer := v |>)) as Hbuf
      by (intros; by apply same_flight_refl).
    eapply same_flight_inv; [apply Hbuf|]. apply inv_map_slots; [exact He1|..].
    - intros n s. apply settle_replaced.
    - intros i s. apply settle_contribution. }
  destruct (_ || _); [|exact Hy]. eapply same_flight_inv; [apply end_pto_same|exact Hy].
Qed.
End acknowledgement.
