(* ===== verification/Conservation.v ===== *)
(** * Transmissions and the invariant of the ledger

    The invariant of [Flight.v] for the events that add records: every transmit
    method of [Transmit.v], [Retransmit.v] and [Datagram.v] keeps it, and every packet takes
    the next packet number.  The last part states it for all events of the
    ledger together, in any order: the flight each congestion controller counts
    is the flight of the recorded transmissions, and no two records share a
    packet number. *)

From S2P Require Import Prelude Records Methods Wire PacketHeader Keyed AckRanges Reader Frames FlowControl Congestion PathState SendBuffer Endpoint Credit Ledger Transmit Retransmit Datagram OutputBounds Flight.

(** ** A new record *)

(** [e'] counts [n] more bytes in flight on path [i]. *)
Definition flight_added (i : nat) (n : Z) (e e' : EndpointState) : Prop :=
  e_sent_packets e' = e_sent_packets e /\ length (e_paths e') = length (e_paths e) /\
  forall j, flight_at (e_paths e') j = flight_at (e_paths e) j + (if decide (j = i) then n else 0).

Lemma numbers_cons s l :
  numbers (s :: l) = match s with Some sent => sp_packet_number sent :: numbers l | None => numbers l end.
Proof. by destruct s. Qed.

Lemma numbers_insert_elem k sent l x :
  x ∈ numbers (<[k := Some sent]> l) -> x = sp_packet_number sent \/ x ∈ numbers l.
Proof.
  revert k. induction l as [|s l IH]; intros [|k]; cbn [insert list_insert]; rewrite ?numbers_cons; auto.
  - rewrite elem_of_cons. intros [->|Hx]; [by left|]. right. destruct s; [by right|done].
  - destruct s as [r|]; [|apply IH]. rewrite !elem_of_cons. intros [->|Hx%IH]; tauto.
Qed.

Lemma numbers_insert_nodup k sent l :
  (sp_packet_number sent ∉ numbers l) -> NoDup (numbers l) -> NoDup (numbers (<[k := Some sent]> l)).
Proof.
  revert k. induction l as [|s l IH]; intros [|k]; cbn [insert list_insert]; rewrite ?numbers_cons; auto.
  - intros Hn Hd. destruct s as [r|]; [|by constructor]. apply not_elem_of_cons in Hn as [_ Hn].
    apply NoDup_cons in Hd as [_ Hd]. by constructor.
  - destruct s as [r|]; [|apply IH]. intros [Hne Hn]%not_elem_of_cons [Hr Hd]%NoDup_cons.
    constructor; [|by apply IH]. intros [Hx|Hx]%numbers_insert_elem; [by apply Hne|done].
Qed.

Lemma inv_put_new {fl : Floor} e e' k s0 sent :
  ledger_inv e -> flight_added (sp_path_id sent) (sp_bytes sent) e e' ->
  e_sent_packets e !! k = Some s0 -> (forall j, contribution j s0 = 0) ->
  (sp_path_id sent < length (e_paths e))%nat -> 0 <= sp_bytes sent < 2 ^ 32 ->
  sp_accepted sent = true -> sp_lost sent = false -> sp_packet_number sent = e_next_packet_number e ->
  e_next_packet_number e' = e_next_packet_number e + 1 ->
  ledger_inv (Ledger.put_slot k (Some sent) e').
Proof.
  intros He (Hl & Hn & Hf) Hk H0 Hi Hb Ha Hlost Hpn Hnext. unfold Ledger.put_slot.
  pose proof (li_fresh e He) as Hfr. rewrite Forall_forall in Hfr.
  split; get_set; rewrite ?Hl, ?Hn, ?Hnext.
  - intros j. rewrite (ledger_flight_insert _ _ _ _ _ Hk), H0, Hf, (li_flight e He).
    unfold contribution. rewrite Ha, Hlost. cbn [andb negb].
    case_decide as Hj; [subst j; rewrite Nat.eqb_refl; lia|].
    rewrite (proj2 (Nat.eqb_neq _ _)) by congruence. lia.
  - apply Forall_forall. intros x [->|Hx]%numbers_insert_elem; [lia|]. apply Hfr in Hx. lia.
  - apply numbers_insert_nodup; [|apply (li_distinct e He)]. intros Hx%Hfr. lia.
  - pose proof (li_floor e He). lia.
  - apply Forall_insert; [apply (li_records e He)|]. split_and!; try done; lia.
  - rewrite length_insert. apply (li_size e He).
Qed.

Lemma free_slot_Some {A} limit (l : list (option A)) k : free_slot limit l = Some k -> l !! k = Some None.
Proof.
  unfold free_slot. revert l k. induction limit as [|limit IH]; intros [|s l] k; simpl; try done.
  destruct s as [a|]; simpl.
  - destruct (Credit.first_index _ _) as [j|] eqn:Hj; simpl; [|done]. intros [= <-]. simpl. by apply IH.
  - by intros [= <-].
Qed.

(** ** Steps that move no flight *)

(** [next_send_order] of every path. *)
Definition orders (e : EndpointState) : list Z := next_send_order <$> e_paths e.

Definition settled (e e' : EndpointState) : Prop := same_flight e e' /\ orders e' = orders e.

#[export] Instance settled_pre : PreOrder settled.
Proof.
  split; [done|]. intros x y z [H1 H2] [H3 H4]. split; [by etrans|by rewrite H4].
Qed.

Definition quiet {A} (m : ep A) : Prop := forall e, settled e (m e).2.

Lemma quiet_gets {A} (f : EndpointState -> A) : quiet (gets f).
Proof. by intros e. Qed.
Lemma quiet_gets_res {A} (f : EndpointState -> res A) : quiet (gets_res f).
Proof. by intros e. Qed.
Lemma quiet_refuse b err : quiet (refuse_if b err).
Proof. by intros e. Qed.
Lemma quiet_ret {A} (a : A) : quiet (mret a).
Proof. by intros e. Qed.

Lemma orders_upd e i p p' :
  get_path e i = Some p -> next_send_order p' = next_send_order p ->
  orders (upd_path i (fun _ => p') e) = orders e.
Proof.
  unfold get_path. intros Hp Ho. unfold orders, upd_path. get_set. apply list_eq. intros j.
  rewrite !list_lookup_fmap. destruct (decide (j = i)) as [->|Hj].
  - rewrite list_lookup_alter_eq, Hp. simpl. by rewrite Ho.
  - by rewrite list_lookup_alter_ne.
Qed.

Lemma same_flight_set e i p p' :
  get_path e i = Some p -> path_flight p' = path_flight p -> same_flight e (upd_path i (fun _ => p') e).
Proof.
  unfold get_path. intros Hp Hf. split; [done|]. split; [done|]. unfold upd_path. get_set.
  split; [apply length_alter|]. intros j. rewrite flight_at_alter. case_decide as Hj; [|done]. subst j.
  unfold flight_at. by rewrite Hp.
Qed.

Lemma settled_upd e i p p' :
  get_path e i = Some p -> path_flight p' = path_flight p -> next_send_order p' = next_send_order p ->
  settled e (upd_path i (fun _ => p') e).
Proof. intros Hp Hf Ho. split; [by eapply same_flight_set|by eapply orders_upd]. Qed.

Lemma quiet_on_path {A} i (f : PathState -> res A * PathState) :
  (forall p, path_flight (f p).2 = path_flight p /\ next_send_order (f p).2 = next_send_order p) ->
  quiet (on_path i f).
Proof.
  intros Hf e. unfold on_path. destruct (get_path e i) as [p|] eqn:Hp; [|done].
  destruct (Hf p). destruct (f p) as [o p']. by eapply settled_upd.
Qed.

Lemma pacing_refill_congestion t now : congestion (Path.refill t now) = congestion t.
Proof.
  unfold Path.refill. cbv zeta. destruct (_ =? 0); [done|].
  by destruct (pacing_refill_tokens _ _ _ _).
Qed.

Lemma can_send_paced_congestion t n now : congestion (Path.can_send_paced t n now).2 = congestion t.
Proof.
  unfold Path.can_send_paced. destruct (negb _); [done|]. cbv zeta.
  destruct (_ || _); simpl; apply pacing_refill_congestion.
Qed.

Lemma reserve_pacing_congestion t n now : congestion (Path.try_reserve_pacing t n now).2 = congestion t.
Proof.
  unfold Path.try_reserve_pacing. pose proof (can_send_paced_congestion t n now) as Hc.
  destruct (Path.can_send_paced t n now) as [[] t']; [|done]. by destruct (pacing_enabled _).
Qed.

Lemma quiet_can_send_paced i n : quiet (can_send_paced_on i n).
Proof.
  apply quiet_on_path. intros p. unfold with_transport.
  pose proof (can_send_paced_congestion (transport p) n (path_clock p)) as Hc.
  destruct (Path.can_send_paced _ _ _) as [b t]. simpl in *. split; [|done].
  unfold path_flight, path_congestion. simpl. by rewrite Hc.
Qed.

Lemma quiet_reserve_pacing i n : quiet (reserve_pacing_on i n).
Proof.
  apply quiet_on_path. intros p. unfold with_transport.
  pose proof (reserve_pacing_congestion (transport p) n (path_clock p)) as Hc.
  destruct (Path.try_reserve_pacing _ _ _) as [b t]. simpl in *. split; [|done].
  unfold path_flight, path_congestion. simpl. by rewrite Hc.
Qed.

Lemma quiet_send f : quiet (on_field_res e_send f).
Proof. intros e. unfold on_field_res. destruct (f (e_send e)); [|done..]. split; [by apply same_flight_refl|done]. Qed.

Lemma quiet_if {A} (b : bool) (m m' : ep A) : quiet m -> quiet m' -> quiet (if b then m else m').
Proof. by destruct b. Qed.

Create HintDb quiet.
#[export] Hint Resolve quiet_if quiet_gets quiet_gets_res quiet_refuse quiet_ret quiet_can_send_paced
  quiet_reserve_pacing quiet_send : quiet.

(** A quiet step at the head of a method that must keep the invariant. *)
Lemma inv_quiet_bind {fl : Floor} {A B} (m : ep A) (k : A -> ep B) e e0 :
  quiet m -> settled e0 e -> ledger_inv e0 ->
  (forall a e', (m e).1 = Ok a -> settled e0 e' -> ledger_inv (k a e').2) ->
  ledger_inv ((m ≫= k) e).2.
Proof.
  intros Hm He0 He Hk. unfold mbind, method_bind. specialize (Hm e).
  destruct (m e) as [[a|err|] e']; cbn [fst snd] in *.
  - apply Hk; [done|]. by etrans.
  - assert (settled e0 e') as [Hs _] by (by etrans). by eapply same_flight_inv.
  - assert (settled e0 e') as [Hs _] by (by etrans). by eapply same_flight_inv.
Qed.

(** One quiet step; the hypotheses name the state it starts from. *)
Ltac quiet_step He0 He :=
  eapply inv_quiet_bind; [by auto with quiet|exact He0|exact He|].

(** ** Steps that add flight *)

(** No path has used up its 64-bit send order. *)
Definition orders_left (e : EndpointState) : Prop := Forall (fun n => n < U64_MAX) (orders e).

Lemma added_same i n e e1 e2 : flight_added i n e e1 -> same_flight e1 e2 -> flight_added i n e e2.
Proof.
  intros (H1 & H2 & H3) (H4 & _ & H5 & H6). split; [by rewrite H4|]. split; [by rewrite H5|].
  intros j. by rewrite H6, H3.
Qed.

Lemma added_upd i n e p p' :
  get_path e i = Some p -> path_flight p' = path_flight p + n ->
  flight_added i n e (upd_path i (fun _ => p') e).
Proof.
  unfold get_path. intros Hp Hf. split; [done|]. unfold upd_path. get_set. split; [apply length_alter|].
  intros j. rewrite flight_at_alter. case_decide as Hj; [|lia]. subst j. unfold flight_at. rewrite Hp. lia.
Qed.

(** [on_packet_sent] refuses, or adds the bytes. *)
Definition sent_result (i : nat) (n : Z) (e : EndpointState) (r : res bool * EndpointState) : Prop :=
  (r.1 = Ok true /\ flight_added i n e r.2 /\ orders r.2 = orders e /\
   e_next_packet_number r.2 = e_next_packet_number e)
  \/ (r.1 <> Ok true /\ settled e r.2).

Lemma flight_path {fl : Floor} e i p :
  ledger_inv e -> get_path e i = Some p -> 0 <= path_flight p <= 2 ^ 63.
Proof.
  intros He Hp. pose proof (flight_small e i He) as Hf. unfold flight_at in Hf. unfold get_path in Hp.
  by rewrite Hp in Hf.
Qed.

Lemma sent_flight_result e i p c n :
  get_path e i = Some p -> bytes_in_flight c = path_flight p + n ->
  sent_result i n e (Ok true, upd_path i (fun _ => upd_congestion (fun _ => c) p) e).
Proof.
  intros Hp Hc. left. split; [done|]. split; [by eapply added_upd|]. split; [by eapply orders_upd|done].
Qed.

Lemma packet_sent_result {fl : Floor} e i n :
  ledger_inv e -> 0 <= n < 2 ^ 32 -> sent_result i n e (packet_sent_on i n e).
Proof.
  intros He Hn. unfold packet_sent_on, on_path.
  destruct (get_path e i) as [p|] eqn:Hp; [|right; by split].
  pose proof (flight_path e i p He Hp) as Hfl. unfold with_congestion, CC.on_packet_sent.
  destruct (negb _); cbn beta iota zeta.
  - right. split; [done|]. eapply settled_upd; [done|done|done].
  - apply sent_flight_result; [done|]. simpl. unfold path_flight in *. apply sat_add_small. unfold U64_MAX. lia.
Qed.

Lemma overrun_result {fl : Floor} e i n :
  ledger_inv e -> 0 <= n < 2 ^ 32 ->
  sent_result i n e (on_path i (with_congestion (fun c => (true, CC.on_retransmission_sent c n))) e).
Proof.
  intros He Hn. unfold on_path. destruct (get_path e i) as [p|] eqn:Hp; [|right; by split].
  pose proof (flight_path e i p He Hp) as Hfl. unfold with_congestion. cbn beta iota zeta.
  apply sent_flight_result; [done|]. by apply add_flight.
Qed.

(** [assign_send_order] with orders left. *)
Lemma send_order_result e i :
  orders_left e -> (exists p, get_path e i = Some p) ->
  exists order e', on_path i with_send_order e = (Ok order, e') /\ same_flight e e'.
Proof.
  intros Hleft [p Hp]. unfold on_path. rewrite Hp. unfold with_send_order, PathOps.assign_send_order.
  assert (next_send_order p < U64_MAX) as Hlt.
  { unfold orders_left in Hleft. rewrite Forall_lookup in Hleft. apply (Hleft i).
    unfold orders. rewrite list_lookup_fmap. unfold get_path in Hp. by rewrite Hp. }
  unfold checked_add. destruct (Z.leb_spec (next_send_order p + 1) U64_MAX); [|lia]. simpl.
  eexists _, _. split; [done|]. by eapply same_flight_set.
Qed.


(** ** Transmit methods *)
Section transmissions.
Context `{Allocator, PacketSize, Features} {fl : Floor}.

Lemma neutral_congestion_packet e e' i pn at_ n dup sp :
  same_flight e e' -> same_flight e (Ledger.record_congestion_packet i pn at_ n dup sp e').
Proof.
  intros He. etrans; [exact He|]. unfold Ledger.record_congestion_packet.
  apply same_flight_upd. intros p. cbv zeta. by destruct sp, dup.
Qed.

(** [record_sent] after the flight has been added. *)
Lemma record_sent_inv e e' k s0 sent dup sp :
  ledger_inv e -> flight_added (sp_path_id sent) (sp_bytes sent) e e' ->
  e_sent_packets e !! k = Some s0 -> (forall j, contribution j s0 = 0) ->
  (sp_path_id sent < length (e_paths e))%nat -> 0 <= sp_bytes sent < 2 ^ 32 ->
  sp_accepted sent = true -> sp_lost sent = false -> sp_packet_number sent = e_next_packet_number e ->
  e_next_packet_number e' = e_next_packet_number e + 1 ->
  ledger_inv (Transmit.record_sent k sent dup sp e').
Proof.
  intros. unfold Transmit.record_sent. eapply same_flight_inv; [by apply neutral_congestion_packet|].
  by eapply inv_put_new.
Qed.

Lemma commit_control_same i pn control e : same_flight e (Credit.commit_control_frames i pn control e).
Proof.
  unfold Credit.commit_control_frames. cbv zeta.
  assert (forall x, same_flight e x -> same_flight e (if ack_frequency control
     then upd_stats (fun t => t <| t_ack_frequency_sent ::= fun n => sat_add n 1 |>)
            (x <| e_pending_ack_frequency := None |>) else x)) as Hlast.
  { intros x Hx. destruct (ack_frequency control); [|done]. etrans; [exact Hx|]. by apply same_flight_refl. }
  apply Hlast. destruct (ack control); [|done].
  assert (same_flight e (Credit.refresh_ack_summary (upd_path i (fun p =>
     p <| ack_pending := false |> <| ack_packets := 0 |> <| ack_immediate := false |>)
       (e <| e_control_pending := false |>)))) as Hx.
  { apply (transitivity (y := upd_path i (fun p =>
       p <| ack_pending := false |> <| ack_packets := 0 |> <| ack_immediate := false |>)
         (e <| e_control_pending := false |>))); [|by apply same_flight_refl].
    apply (transitivity (y := e <| e_control_pending := false |>)); [by apply same_flight_refl|].
    by apply same_flight_upd. }
  match type of Hx with same_flight _ ?x => generalize dependent x end. intros x Hx.
  etrans; [exact Hx|]. unfold upd_stats, Credit.publish_credit. cbv zeta.
  repeat case_match; by apply same_flight_refl.
Qed.

Lemma count_same f e : same_flight e (upd_stats f e).
Proof. by apply same_flight_refl. Qed.

Lemma same_flight_slot e e' k s : settled e e' -> e_sent_packets e' !! k = s -> e_sent_packets e !! k = s.
Proof. intros [(Hl & _) _]. by rewrite Hl. Qed.

Lemma checked_next e next :
  Ep.checked_next_packet_number e = Ok next -> next = e_next_packet_number e + 1.
Proof. unfold Ep.checked_next_packet_number. destruct (_ <=? _); [|done]. by intros Hn%Ok_inj. Qed.

Lemma build_stream_path e i d sid off f data cap r :
  Transmit.build_stream_packet e i d sid off f data cap = Ok r -> (i < length (e_paths e))%nat.
Proof. unfold Transmit.build_stream_packet. by intros ([] & ?%guard_err_Ok%Nat.leb_gt & _)%bind_Ok. Qed.

Lemma stream_slots_free e n rs k :
  Transmit.stream_slots e n = Ok (rs, k) -> e_sent_packets e !! k = Some None.
Proof.
  unfold Transmit.stream_slots.
  intros (x & _ & (y & Hy%ok_or_Ok%free_slot_Some & ([] & _ & Hr)%bind_Ok)%bind_Ok)%bind_Ok.
  apply Ok_inj in Hr. by injection Hr as <- <-.
Qed.

Lemma settled_inv e e' : settled e e' -> ledger_inv e -> ledger_inv e'.
Proof. intros [Hs _]. by apply same_flight_inv. Qed.

Lemma settled_left e e' : settled e e' -> orders_left e -> orders_left e'.
Proof. intros [_ Ho]. unfold orders_left. by rewrite Ho. Qed.

(** A step that adds flight at the head of the rest of a method. *)
Lemma inv_sent_bind {B} i n (m : ep bool) (k : bool -> ep B) e :
  ledger_inv e -> sent_result i n e (m e) ->
  (forall e', settled e e' -> ledger_inv (k false e').2) ->
  (forall e', flight_added i n e e' -> orders e' = orders e ->
     e_next_packet_number e' = e_next_packet_number e -> ledger_inv (k true e').2) ->
  ledger_inv ((m ≫= k) e).2.
Proof.
  intros He Hm Hf Ht. unfold mbind, method_bind. destruct (m e) as [[[]|err|] e'];
    destruct Hm as [(Hr & Ha & Ho & Hn)|[Hr Hs]]; cbn [fst snd] in *; try done; auto;
    by eapply settled_inv.
Qed.

Lemma stream_record_ok e i rs sid off f data packet control order limited :
  let sent := Transmit.stream_record e i rs sid off f data packet control order limited in
  sp_path_id sent = i /\ sp_bytes sent = zlen packet /\ sp_accepted sent = true /\
  sp_lost sent = false /\ sp_packet_number sent = e_next_packet_number e.
Proof. done. Qed.

(** What follows the record of a fresh stream packet. *)
Lemma tail_same {A} i pn sid f control (a : A) e :
  same_flight e
    ((_ ← (if f : bool then on_field_res e_send (fun s => Send.finish_stream s sid) else mret tt);
      _ ← modify (fun e => match control with
                           | Some c => Credit.commit_control_frames i pn c e
                           | None => e
                           end);
      _ ← modify (upd_stats Transmit.count_stream_packet); mret a) e).2.
Proof.
  assert (quiet (if f then on_field_res e_send (fun s => Send.finish_stream s sid) else mret tt)) as Hq
    by auto with quiet.
  unfold mbind, method_bind. specialize (Hq e). destruct (_ e) as [[u|err|] e1]; cbn [fst snd] in *;
    [|apply Hq..]. destruct Hq as [Hq _]. etrans; [exact Hq|]. unfold modify. cbn [fst snd].
  etrans; [|apply count_same]. destruct control; [apply commit_control_same|done].
Qed.

Lemma settled_next e e' : settled e e' -> e_next_packet_number e' = e_next_packet_number e.
Proof. by intros [(_ & ? & _) _]. Qed.

Lemma settled_paths e e' : settled e e' -> length (e_paths e') = length (e_paths e).
Proof. by intros [(_ & _ & ? & _) _]. Qed.

Lemma added_path i n e e' :
  (i < length (e_paths e))%nat -> flight_added i n e e' -> exists p, get_path e' i = Some p.
Proof. intros Hi (_ & Hl & _). apply lookup_lt_is_Some. by rewrite Hl. Qed.

Lemma stream_packet_inv e i d sid off f data cap retain :
  ledger_inv e -> orders_left e -> 0 <= cap < 2 ^ 32 ->
  ledger_inv (Transmit.encode_stream_packet_on_path_inner i d sid off f data cap retain e).2.
Proof.
  intros He Hleft Hcap. unfold Transmit.encode_stream_packet_on_path_inner.
  quiet_step (reflexivity (R := settled) e) He. intros [packet control] e1 Hb He1.
  change (Transmit.build_stream_packet e i d sid off f data cap = Ok (packet, control)) in Hb.
  pose proof (build_stream_path _ _ _ _ _ _ _ _ _ Hb) as Hi. apply stream_packet_size in Hb; [|lia].
  quiet_step He1 He. intros [rs k] e2 Hk He2.
  apply stream_slots_free in Hk. apply (same_flight_slot _ _ _ _ He1) in Hk.
  quiet_step He2 He. intros fits e3 _ He3. quiet_step He3 He. intros [] e4 _ He4.
  quiet_step He4 He. intros paced e5 _ He5. quiet_step He5 He. intros [] e6 _ He6.
  quiet_step He6 He. intros [] e7 _ He7. quiet_step He7 He. intros next e8 Hnext He8.
  apply checked_next in Hnext.
  quiet_step He8 He. intros reserved e9 _ He9. quiet_step He9 He. intros [] e10 _ He10.
  quiet_step He10 He. intros [] e11 _ He11. quiet_step He11 He. intros limited e12 _ He12.
  pose proof (settled_inv _ _ He12 He) as Hinv. pose proof (zlen_nonneg packet).
  eapply inv_sent_bind; [exact Hinv|apply packet_sent_result; [done|lia]|..].
  { intros e' He'. quiet_step (transitivity He12 He') He. done. }
  intros e13 Hadd Hord Hn. rewrite (bind_ok _ _ e13 tt e13) by done.
  destruct (send_order_result e13 i) as (order & e14 & Heq & Hs14).
  { unfold orders_left. rewrite Hord. exact (settled_left _ _ He12 Hleft). }
  { eapply added_path; [|exact Hadd]. by rewrite (settled_paths _ _ He12). }
  rewrite (bind_ok _ _ _ _ _ Heq). pose proof (added_same _ _ _ _ _ Hadd Hs14) as Hadd14.
  rewrite (bind_ok _ _ e14 (e_next_packet_number e14) e14) by done.
  erewrite bind_ok by done. eapply same_flight_inv; [apply tail_same|].
  destruct He12 as [(Hl12 & Hn12 & Hp12 & _) _]. pose proof (settled_next _ _ He7) as Hn7.
  destruct Hs14 as (_ & Hn14 & _).
  eapply (record_sent_inv e12 _ k None); try done.
  - by rewrite Hl12.
  - by rewrite Hp12.
  - change (0 <= zlen packet < 2 ^ 32). lia.
  - change (e_next_packet_number e14 = e_next_packet_number e12). congruence.
  - change (next = e_next_packet_number e12 + 1). lia.
Qed.

(** *** Datagrams *)
Lemma commit_datagram_inv e i size :
  ledger_inv e -> orders_left e -> 0 <= size < 2 ^ 32 -> (i < length (e_paths e))%nat ->
  e_next_packet_number e + 1 <= U32_MAX ->
  ledger_inv (Datagrams.commit_datagram_transmission i size e).2.
Proof.
  intros He Hleft Hsize Hi Hn. unfold Datagrams.commit_datagram_transmission.
  quiet_step (reflexivity (R := settled) e) He. intros k e1 Hk%ok_or_Ok%free_slot_Some He1.
  quiet_step He1 He. intros limited e2 _ He2. quiet_step He2 He. intros reserved e3 _ He3.
  quiet_step He3 He. intros [] e4 _ He4.
  destruct (send_order_result e4 i) as (order & e5 & Heq & Hs5).
  { exact (settled_left _ _ He4 Hleft). }
  { apply lookup_lt_is_Some. by rewrite (settled_paths _ _ He4). }
  rewrite (bind_ok _ _ _ _ _ Heq).
  assert (same_flight e e5) as Hse by (etrans; [exact (proj1 He4)|exact Hs5]).
  pose proof (same_flight_inv _ _ Hse He) as Hinv.
  eapply inv_sent_bind; [exact Hinv|by apply packet_sent_result|..].
  { intros e' He'. quiet_step He' Hinv. done. }
  intros e6 Hadd _ Hn6. rewrite (bind_ok _ _ e6 tt e6) by done.
  destruct Hse as (Hl & Hnext & Hp & _). unfold Datagrams.bump_packet_number.
  rewrite (bind_ok _ _ e6 (e_next_packet_number e6 + 1) e6).
  2:{ unfold gets_res. rewrite (proj2 (Z.leb_gt _ _)) by (rewrite Hn6, Hnext; lia). done. }
  erewrite bind_ok by done. eapply same_flight_inv; [apply count_same|].
  eapply (record_sent_inv e5 _ k None); try done.
  - by rewrite Hl.
  - by rewrite Hp.
  - change (e_next_packet_number e6 + 1 = e_next_packet_number e5 + 1). congruence.
Qed.

Lemma datagram_inv e i payload storage prefix suffix mtu priority :
  ledger_inv e -> orders_left e -> 0 <= suffix -> zlen storage < 2 ^ 32 ->
  ledger_inv (Datagrams.prepare_on_path i payload storage prefix suffix mtu priority e).2.
Proof.
  intros He Hleft Hsuf Hsto. unfold Datagrams.prepare_on_path.
  rewrite bind_unfold. unfold gets_res at 1.
  destruct (Datagrams.datagram_send_layout _ _ _ _ _ _ _ _) as [[[s t] h]| |] eqn:Hl; [|done..].
  apply layout_Ok in Hl as (p & d & hh & k & Ha). destruct Ha.
  pose proof (commit_datagram_inv e i (t - s) He Hleft ltac:(lia)
    ltac:(by eapply lookup_lt_Some) ad_number) as Hinv.
  rewrite bind_unfold. by destruct (Datagrams.commit_datagram_transmission _ _ _) as [[]].
Qed.

(** *** Control packets *)
Lemma sent_if_result (pto : bool) e i n :
  ledger_inv e -> 0 <= n < 2 ^ 32 ->
  sent_result i n e ((if pto then on_path i (with_congestion (fun c => (true, CC.on_retransmission_sent c n)))
                      else packet_sent_on i n) e).
Proof. destruct pto; [apply overrun_result|apply packet_sent_result]. Qed.

Lemma track_result e i f n pto r :
  ledger_inv e -> orders_left e -> (exists p, get_path e i = Some p) -> 0 <= n < 2 ^ 32 ->
  Transmit.track i f n pto e = r ->
  (exists order e', r = (Ok order, e') /\ flight_added i n e e' /\
     e_next_packet_number e' = e_next_packet_number e)
  \/ ((forall order, r.1 <> Ok order) /\ same_flight e r.2).
Proof.
  intros He Hleft Hp Hn <-. unfold Transmit.track.
  destruct (send_order_result e i Hleft Hp) as (order & e1 & Heq & Hs1). rewrite (bind_ok _ _ _ _ _ Heq).
  assert (quiet (if Transmit.pacing_exempt f then mret true else reserve_pacing_on i n)) as Hq by auto with quiet.
  specialize (Hq e1). unfold mbind, method_bind.
  destruct ((if Transmit.pacing_exempt f then mret true else reserve_pacing_on i n) e1) as [[reserved|err|] e2];
    destruct Hq as [Hq _]; cbn [fst snd] in *; [|right; split; [done|by etrans]..].
  pose proof (transitivity Hs1 Hq) as Hs2. pose proof (same_flight_inv _ _ Hs2 He) as He2.
  destruct reserved; [|right; by split]. unfold refuse_if, lift_res, guard_err. cbn [negb].
  cbv beta iota. pose proof (sent_if_result pto e2 i n He2 Hn) as Hsent.
  match type of Hsent with sent_result _ _ _ ?t => destruct t as [[[]|err|] e3] end; destruct Hsent as [(Hr & Ha & _ & Hnx)|[Hr [Hs _]]];
    cbn [fst snd] in *; try done; try (right; split; [done|by etrans]).
  left. exists order, e3. split; [done|]. destruct Hs2 as (H2 & H3 & H4 & H5). split; [|congruence].
  destruct Ha as (H6 & H7 & H8). split; [congruence|]. split; [congruence|].
  intros j. by rewrite H8, H5.
Qed.

Lemma control_slot_free e i f n pto k :
  Transmit.control_slot e i f n pto = Ok (Some k) -> e_sent_packets e !! k = Some None.
Proof.
  unfold Transmit.control_slot. destruct (negb _); [done|].
  intros ([] & _ & (y & Hy%ok_or_Ok%free_slot_Some & ([] & _ & Hr)%bind_Ok)%bind_Ok)%bind_Ok.
  apply Ok_inj in Hr. by injection Hr as <-.
Qed.

Lemma control_slot_tracked e i f n pto k :
  Transmit.control_slot e i f n pto = Ok k -> Transmit.track_flight f = bool_decide (k <> None).
Proof.
  unfold Transmit.control_slot. destruct (Transmit.track_flight f); simpl.
  - intros ([] & _ & (y & _ & ([] & _ & Hr)%bind_Ok)%bind_Ok)%bind_Ok. apply Ok_inj in Hr as <-. done.
  - by intros [= <-].
Qed.

Lemma build_control_path e i d f cap packet next :
  Transmit.build_path_control e i d f cap = Ok (packet, next) ->
  (exists p, get_path e i = Some p) /\ next = e_next_packet_number e + 1.
Proof.
  unfold Transmit.build_path_control. destruct (get_path e i) as [p|]; [|done]. intros Hb. split; [eauto|].
  apply bind_Ok in Hb as ([] & _ & Hb). apply bind_Ok in Hb as (h & _ & Hb).
  apply bind_Ok in Hb as (b & _ & Hb). apply bind_Ok in Hb as (pk & _ & Hb).
  apply bind_Ok in Hb as (nx & Hnx%checked_next & Hb). apply Ok_inj in Hb. by injection Hb as _ <-.
Qed.

Lemma note_status_same i f e : same_flight e (Transmit.note_status_sent i f e).
Proof.
  unfold Transmit.note_status_sent. destruct f; try done. cbv zeta. destruct (Ep.path_with_key _ _); [|done].
  apply same_flight_upd. intros p. unfold PathOps.status_sent. by destruct (PathOps.pending_is _ _).
Qed.

(** The next packet number may always go up. *)
Lemma inv_next e n : ledger_inv e -> e_next_packet_number e <= n -> ledger_inv (Transmit.next_pn n e).
Proof.
  intros [Hf Hfr Hd Hfl Hr Hs] Hn. unfold Transmit.next_pn. split; get_set; try done; [|lia].
  eapply Forall_impl; [exact Hfr|]. intros x Hx. simpl in *. lia.
Qed.

Lemma inv_gets_res {A B} (f : EndpointState -> res A) (k : A -> ep B) e :
  ledger_inv e -> (forall a, f e = Ok a -> ledger_inv (k a e).2) -> ledger_inv ((gets_res f ≫= k) e).2.
Proof.
  intros He Hk. unfold mbind, method_bind, gets_res. destruct (f e) as [a|err|] eqn:Hf; [by apply Hk|done..].
Qed.

(** The state change of a path control packet, its flight added. *)
Lemma control_record_inv e e' i f n order limited next slot (packet : bytes) :
  n = zlen packet -> 0 <= n < 2 ^ 32 -> ledger_inv e -> (i < length (e_paths e))%nat ->
  next = e_next_packet_number e + 1 -> e_next_packet_number e' = e_next_packet_number e ->
  match slot with
  | Some k => e_sent_packets e !! k = Some None /\ flight_added i n e e'
  | None => same_flight e e'
  end ->
  ledger_inv
    (let charge := if Transmit.is_probe_frame f && (zlen packet <=? Ep.duplication_budget_available e')
                   then zlen packet else 0 in
     let sent := Transmit.control_record e' i f (zlen packet) order charge limited in
     let x := Transmit.next_pn next (e' <| e_duplication_reserved_bytes ::= fun r => sat_add r charge |>) in
     let x := if Transmit.is_probe_frame f
              then upd_path i (fun p => p <| probe_bytes_prepared ::= fun b => sat_add b (zlen packet) |>) x
              else x in
     match slot with Some k => Transmit.record_sent k sent false false x | None => x end).
Proof.
  intros -> Hn He Hi Hnext Hn' Hslot. cbv zeta.
  set (charge := if _ && _ then _ else _).
  set (x := Transmit.next_pn next _).
  set (x' := if Transmit.is_probe_frame f then _ else _).
  assert (same_flight x x') as Hx.
  { unfold x'. destruct (Transmit.is_probe_frame f); [|done]. by apply same_flight_upd. }
  assert (e_next_packet_number x' = e_next_packet_number e + 1) as Hnx
    by (destruct Hx as (_ & -> & _); exact Hnext).
  destruct slot as [k|].
  - destruct Hslot as [Hk (Ha & Hb & Hc)]. eapply (record_sent_inv e _ k None); try done.
    destruct Hx as (Hx1 & _ & Hx2 & Hx3). split; [rewrite Hx1; exact Ha|]. split; [rewrite Hx2; exact Hb|].
    intros j. rewrite Hx3. exact (Hc j).
  - eapply same_flight_inv; [exact Hx|]. unfold x.
    apply inv_next; [|get_set; lia]. eapply same_flight_inv; [|exact He].
    etrans; [exact Hslot|]. by apply same_flight_refl.
Qed.

Lemma path_control_inv e i d f cap pto :
  ledger_inv e -> orders_left e -> 0 <= cap < 2 ^ 32 ->
  ledger_inv (Transmit.encode_path_control_packet_inner i d f cap pto e).2.
Proof.
  intros He Hleft Hcap. unfold Transmit.encode_path_control_packet_inner.
  apply inv_gets_res; [done|]. intros [packet next] Hb. pose proof (path_control_size _ _ _ _ _ _ _ Hb).
  destruct (build_control_path _ _ _ _ _ _ _ Hb) as [Hp Hnext]. pose proof (zlen_nonneg packet).
  assert (i < length (e_paths e))%nat as Hi by (by apply lookup_lt_is_Some).
  apply inv_gets_res; [done|]. intros slot Hslot.
  set (limited := Transmit.path_window_limited e i (zlen packet)).
  rewrite (bind_ok _ _ e limited e) by done.
  assert (forall order e', ledger_inv e' -> ledger_inv
    ((_ ← modify (Transmit.note_status_sent i f); _ ← modify (upd_stats Transmit.count_control_packet);
      mret order : ep bytes) e').2) as Htail.
  { intros order e' He'. eapply same_flight_inv; [apply count_same|].
    eapply same_flight_inv; [apply note_status_same|done]. }
  pose proof (control_slot_tracked _ _ _ _ _ _ Hslot) as Htr. destruct (Transmit.track_flight f).
  - destruct slot as [k|]; [|done]. apply control_slot_free in Hslot.
    destruct (Transmit.track i f (zlen packet) pto e) as [o e1] eqn:Ht.
    destruct (track_result e i f (zlen packet) pto _ He Hleft Hp ltac:(lia) Ht) as
      [(order & e2 & Heq & Hadd & Hn2)|[Hno Hs]]; cbn [fst snd] in *.
    + injection Heq as -> ->. rewrite (bind_ok _ _ _ _ _ Ht). apply Htail.
      by eapply (control_record_inv e e2 i f (zlen packet) order limited next (Some k)); [done|lia|..].
    + unfold mbind at 1, method_bind. rewrite Ht. destruct o as [order|err|]; [by destruct (Hno order)|..];
        by eapply same_flight_inv.
  - destruct slot as [k|]; [done|]. rewrite (bind_ok _ _ e 0 e) by done. apply Htail.
    by eapply (control_record_inv e e i f (zlen packet) 0 limited next None); [done|lia|..].
Qed.

(** *** Retransmissions *)
Lemma plan_facts e pn i cap budgeted pl :
  Retransmit.plan_retransmission e pn i cap budgeted = Ok (Some pl) ->
  (i < length (e_paths e))%nat /\ pl_next pl = e_next_packet_number e + 1 /\
  exists s0, e_sent_packets e !! pl_slot pl = Some s0 /\ (forall j, contribution j s0 = 0).
Proof.
  unfold Retransmit.plan_retransmission. intros (source & Hs & Hb)%bind_Ok.
  destruct source as [[[[[[index sent] d] rs] range] [[off data] f]]|]; [|done].
  apply bind_Ok in Hb as ([slot evict] & Hslot & Hb). apply bind_Ok in Hb as (nx & Hnx%checked_next & Hb).
  apply bind_Ok in Hb as (h & _ & Hb). apply bind_Ok in Hb as (b & _ & Hb). apply Ok_inj in Hb.
  injection Hb as <-. cbn [pl_next pl_slot]. unfold Retransmit.retransmit_source in Hs.
  apply bind_Ok in Hs as ([] & Hi%guard_err_Ok%Nat.leb_gt & Hs). split; [done|]. split; [done|].
  unfold Retransmit.retransmit_slot in Hslot. destruct (free_slot _ _) as [k|] eqn:Hk.
  - apply Ok_inj in Hslot. injection Hslot as <- <-. exists None. split; [by eapply free_slot_Some|done].
  - destruct (sp_lost sent) eqn:Hl; [|done]. apply Ok_inj in Hslot. injection Hslot as <- <-.
    destruct (Ledger.slot_of pn (e_sent_packets e)) as [[index' sent']|] eqn:Hof; [|done].
    assert (index' = index /\ sent' = sent) as [-> ->].
    { apply bind_Ok in Hs as (d' & _ & Hs). destruct (negb _); [done|]. destruct (_ && _); [done|].
      destruct (sp_send_buffer_slot sent'); [|done]. apply bind_Ok in Hs as (r' & _ & Hs).
      destruct (_ && _); [done|]. apply bind_Ok in Hs as (c & _ & Hs).
      destruct c; [|done]. apply Ok_inj in Hs. by injection Hs. }
    apply slot_of_Some in Hof as [Hof _]. exists (Some sent). split; [done|].
    intros j. by apply contribution_lost.
Qed.

Lemma record_copy_inv e e' i pl order limited budgeted s0 :
  ledger_inv e -> flight_added i (zlen (pl_packet pl)) e e' -> zlen (pl_packet pl) < 2 ^ 32 ->
  (i < length (e_paths e))%nat -> pl_next pl = e_next_packet_number e + 1 ->
  e_next_packet_number e' = e_next_packet_number e -> e_sent_packets e !! pl_slot pl = Some s0 ->
  (forall j, contribution j s0 = 0) ->
  ledger_inv (Retransmit.record_copy i pl order limited budgeted e').
Proof.
  intros He Hadd Hsz Hi Hnext Hn Hk H0'. pose proof (zlen_nonneg (pl_packet pl)).
  unfold Retransmit.record_copy. cbv zeta. eapply same_flight_inv; [apply count_same|].
  eapply (record_sent_inv e _ _ s0); try done; [|by repeat case_match].
  destruct (pl_evict pl), budgeted; exact Hadd.
Qed.

Lemma send_copy_inv e i pl overrun budgeted s0 :
  ledger_inv e -> orders_left e -> zlen (pl_packet pl) < 2 ^ 32 -> (i < length (e_paths e))%nat ->
  pl_next pl = e_next_packet_number e + 1 -> e_sent_packets e !! pl_slot pl = Some s0 ->
  (forall j, contribution j s0 = 0) ->
  ledger_inv (Retransmit.send_copy i pl overrun budgeted e).2.
Proof.
  intros He Hleft Hsz Hi Hnext Hk H0'. pose proof (zlen_nonneg (pl_packet pl)).
  unfold Retransmit.send_copy. cbv zeta. rewrite (bind_ok _ _ e _ e) by done.
  quiet_step (reflexivity (R := settled) e) He. intros reserved e1 _ He1.
  destruct reserved; cbn [negb]; [|by eapply settled_inv].
  pose proof (settled_inv _ _ He1 He) as Hinv.
  eapply inv_sent_bind; [exact Hinv|apply sent_if_result; [done|lia]|..].
  { intros e' He'. eapply settled_inv; [exact He'|done]. }
  intros e2 Hadd Hord Hn2. cbn [negb]. rewrite (bind_ok _ _ e2 _ e2) by done.
  destruct (send_order_result e2 i) as (order & e3 & Heq & Hs3).
  { unfold orders_left. rewrite Hord. exact (settled_left _ _ He1 Hleft). }
  { eapply added_path; [|exact Hadd]. by rewrite (settled_paths _ _ He1). }
  rewrite (bind_ok _ _ _ _ _ Heq), (bind_ok _ _ e3 (e_next_packet_number e3) e3) by done.
  erewrite bind_ok by done. destruct He1 as [(Hl1 & Hn1 & Hp1 & _) _].
  eapply (record_copy_inv e1 e3); try done.
  - by eapply added_same.
  - by rewrite Hp1.
  - by rewrite Hn1.
  - destruct Hs3 as (_ & -> & _). exact Hn2.
  - by rewrite Hl1.
Qed.

Lemma retransmit_inv e pn i cap overrun budgeted :
  ledger_inv e -> orders_left e -> 0 <= cap < 2 ^ 32 ->
  ledger_inv (Retransmit.retransmit_stream_packet_with_probe pn i cap overrun budgeted e).2.
Proof.
  intros He Hleft Hcap. unfold Retransmit.retransmit_stream_packet_with_probe.
  apply inv_gets_res; [done|]. intros [pl|] Hpl; [|done].
  destruct (plan_facts _ _ _ _ _ _ Hpl) as (Hi & Hnext & s0 & Hk & H0'). apply plan_size in Hpl.
  eapply send_copy_inv; try done. lia.
Qed.

Lemma credit_copy_inv e source i a m n bidi cap :
  ledger_inv e -> orders_left e -> 0 <= cap < 2 ^ 32 ->
  ledger_inv (Retransmit.duplicate_credit_control_on_path source i a m n bidi cap e).2.
Proof.
  intros He Hleft Hcap. unfold Retransmit.duplicate_credit_control_on_path.
  rewrite (bind_ok _ _ e _ e) by done. destruct (Retransmit.credit_copy_refused _ _ _ _ _ _) eqn:Href; [done|].
  apply inv_gets_res; [done|]. intros [[[packet slot] next]|] Hb; [|done].
  pose proof (zlen_nonneg packet). pose proof (credit_copy_size _ _ _ _ _ _ _ _ _ _ Hb) as Hsz.
  assert (next = e_next_packet_number e + 1 /\ e_sent_packets e !! slot = Some None) as [Hnext Hk].
  { unfold Retransmit.build_credit_copy in Hb. apply bind_Ok in Hb as (d & _ & Hb).
    apply bind_Ok in Hb as (k & Hk%ok_or_Ok%free_slot_Some & Hb). apply bind_Ok in Hb as (nx & Hnx%checked_next & Hb).
    apply bind_Ok in Hb as (h & _ & Hb). apply bind_Ok in Hb as (o & _ & Hb). destruct o; [|done].
    apply bind_Ok in Hb as (b & _ & Hb). apply Ok_inj in Hb. by injection Hb as _ <- <-. }
  assert (i < length (e_paths e))%nat as Hi.
  { unfold Retransmit.credit_copy_refused, Retransmit.usable_for_data, get_path in Href.
    apply lookup_lt_is_Some. destruct (e_paths e !! i); [eauto|done]. }
  rewrite (bind_ok _ _ e _ e) by done.
  quiet_step (reflexivity (R := settled) e) He. intros reserved e1 _ He1.
  destruct reserved; cbn [negb]; [|by eapply settled_inv]. rewrite (bind_ok _ _ e1 _ e1) by done.
  eapply inv_sent_bind; [by eapply settled_inv|apply packet_sent_result; [by eapply settled_inv|lia]|..].
  { intros e' He'. eapply settled_inv; [exact He'|]. by eapply settled_inv. }
  intros e2 Hadd Hord Hn2. cbn [negb].
  destruct (send_order_result e2 i) as (order & e3 & Heq & Hs3).
  { unfold orders_left. rewrite Hord. exact (settled_left _ _ He1 Hleft). }
  { eapply added_path; [|exact Hadd]. by rewrite (settled_paths _ _ He1). }
  rewrite (bind_ok _ _ _ _ _ Heq), (bind_ok _ _ e3 (e_next_packet_number e3) e3) by done.
  erewrite bind_ok by done. eapply same_flight_inv; [apply count_same|].
  pose proof Hs3 as (_ & Hn3 & _). pose proof (settled_inv _ _ He1 He) as Hinv.
  destruct He1 as [(Hl1 & Hn1 & Hp1 & _) _].
  eapply (record_sent_inv e1 _ slot None); try done.
  - exact (added_same _ _ _ _ _ Hadd Hs3).
  - by rewrite Hl1.
  - by rewrite Hp1.
  - change (0 <= zlen packet < 2 ^ 32). lia.
  - change (e_next_packet_number e3 = e_next_packet_number e1). congruence.
  - change (next = e_next_packet_number e1 + 1). lia.
Qed.

(** A retransmission that yields no packet leaves flight and send orders alone. *)
Lemma send_copy_none e i pl overrun budgeted e' :
  ledger_inv e -> zlen (pl_packet pl) < 2 ^ 32 ->
  Retransmit.send_copy i pl overrun budgeted e = (Ok None, e') -> settled e e'.
Proof.
  intros He Hsz. pose proof (zlen_nonneg (pl_packet pl)).
  unfold Retransmit.send_copy. cbv zeta. rewrite (bind_ok _ _ e _ e) by done.
  match goal with |- ((if ?b then _ else ?q) ≫= _) e = _ -> _ =>
    assert (quiet (if b then mret false else q)) as Hq by auto with quiet end.
  specialize (Hq e). unfold mbind, method_bind.
  match type of Hq with settled _ (?m e).2 => destruct (m e) as [[reserved|err|] e1] end;
    cbn [fst snd] in *; [|done..].
  destruct reserved; cbn [negb]; [|by intros [= <-]].
  pose proof (settled_inv _ _ Hq He) as Hinv.
  pose proof (sent_if_result overrun e1 i (zlen (pl_packet pl)) Hinv ltac:(lia)) as Hsent.
  match type of Hsent with sent_result _ _ _ ?t => destruct t as [[[]|err|] e2] end;
    destruct Hsent as [(Hr & _)|[Hr Hs]]; cbn [fst snd negb] in *; try done.
  - unfold gets. cbn [fst snd]. destruct (on_path i with_send_order e2) as [[]]; done.
  - intros [= <-]. by etrans.
Qed.

Lemma retransmit_none e pn i cap overrun budgeted e' :
  ledger_inv e -> 0 <= cap < 2 ^ 32 ->
  Retransmit.retransmit_stream_packet_with_probe pn i cap overrun budgeted e = (Ok None, e') -> settled e e'.
Proof.
  intros He Hcap. unfold Retransmit.retransmit_stream_packet_with_probe, gets_res, mbind, method_bind.
  destruct (Retransmit.plan_retransmission _ _ _ _ _) as [[pl|]|err|] eqn:Hpl; [|intros Hr; cbv [mret method_ret] in Hr; by simplify_eq|done..].
  apply plan_size in Hpl. apply send_copy_none; [done|lia].
Qed.

Lemma record_retransmission_same i e : same_flight e (Retransmit.record_retransmission i e).
Proof.
  unfold Retransmit.record_retransmission. etrans; [|by apply same_flight_upd]. apply count_same.
Qed.

(** A counted retransmission: the invariant, and no change without a packet. *)
Lemma counted_inv (m : ep (option (bytes * Z))) count e :
  ledger_inv (m e).2 -> (forall x, same_flight x (count x)) -> ledger_inv (Retransmit.counted m count e).2.
Proof.
  intros Hm Hc. unfold Retransmit.counted, mbind, method_bind. destruct (m e) as [[r|err|] e']; [|done..].
  unfold modify. cbn [fst snd] in *. destruct r; [eapply same_flight_inv; [apply Hc|exact Hm]|done].
Qed.

Lemma counted_none (m : ep (option (bytes * Z))) count e e' :
  Retransmit.counted m count e = (Ok None, e') -> m e = (Ok None, e').
Proof.
  unfold Retransmit.counted, mbind, method_bind, modify, mret, method_ret.
  destruct (m e) as [[[r|]|err|] e1]; simpl; intros; by simplify_eq.
Qed.

Lemma first_repair_inv pn cap paths : forall e r,
  ledger_inv e -> orders_left e -> 0 <= cap < 2 ^ 32 -> Retransmit.first_repair pn cap paths e = r ->
  ledger_inv r.2 /\ (r.1 = Ok None -> settled e r.2).
Proof.
  induction paths as [|[[a b] i] paths IH]; intros e r He Hleft Hcap <-; [done|]. simpl.
  set (m := Retransmit.retransmit_stream_packet_with_probe pn i cap false false).
  assert (ledger_inv (Retransmit.counted m (Retransmit.count_loss_repair i) e).2) as Hinv.
  { apply counted_inv; [by apply retransmit_inv|]. intros x. unfold Retransmit.count_loss_repair.
    etrans; [apply count_same|apply record_retransmission_same]. }
  unfold mbind, method_bind.
  destruct (Retransmit.counted m (Retransmit.count_loss_repair i) e) as [[[r|]|err|] e'] eqn:Hm; [done| |done..].
  apply counted_none, retransmit_none in Hm; [|done..]. cbn [fst snd] in *.
  destruct (IH e' _ Hinv (settled_left _ _ Hm Hleft) Hcap eq_refl) as [H1' H2'].
  split; [done|]. intros Hn. etrans; [exact Hm|]. by apply H2'.
Qed.

Lemma marked_loss_inv cap e r :
  ledger_inv e -> orders_left e -> 0 <= cap < 2 ^ 32 -> Retransmit.retransmit_marked_loss cap e = r ->
  ledger_inv r.2 /\ (r.1 = Ok None -> settled e r.2).
Proof.
  intros He Hleft Hcap <-. unfold Retransmit.retransmit_marked_loss. rewrite (bind_ok _ _ e _ e) by done.
  destruct (Retransmit.oldest _ _ _) as [sent|]; [|done].
  rewrite (bind_ok _ _ e _ e) by done. by eapply first_repair_inv.
Qed.

Lemma backoff_same i now e : same_flight e (upd_path i (Retransmit.start_pto_backoff now) e).
Proof. by apply same_flight_upd. Qed.

Lemma delivered_probe_inv now cap e :
  ledger_inv e -> orders_left e -> 0 <= cap < 2 ^ 32 ->
  ledger_inv (Retransmit.probe_delivered_flight now cap e).2.
Proof.
  intros He Hleft Hcap. unfold Retransmit.probe_delivered_flight. rewrite (bind_ok _ _ e _ e) by done.
  destruct (List.find _ _) as [i|]; [|done]. rewrite (bind_ok _ _ e _ e) by done.
  destruct (Ep.peer_connection_id_on_path e i) as [d|]; [|done]. rewrite (bind_ok _ _ e _ e) by done.
  pose proof (path_control_inv e i d Ping cap true He Hleft Hcap) as Hinv. unfold mbind at 1, method_bind.
  destruct (Transmit.encode_path_control_packet_inner _ _ _ _ _ e) as [[packet|err|] e']; [|done..].
  eapply same_flight_inv; [apply backoff_same|done].
Qed.

Lemma pto_probe_inv now cap e :
  ledger_inv e -> orders_left e -> 0 <= cap < 2 ^ 32 ->
  ledger_inv (Retransmit.retransmit_pto_probe now cap e).2.
Proof.
  intros He Hleft Hcap. unfold Retransmit.retransmit_pto_probe. rewrite (bind_ok _ _ e _ e) by done.
  destruct (Retransmit.oldest _ _ _) as [sent|]; [|by apply delivered_probe_inv].
  cbv zeta. rewrite (bind_ok _ _ e _ e) by done. apply counted_inv; [by apply retransmit_inv|].
  intros x. unfold Retransmit.count_pto_probe. etrans; [|apply backoff_same].
  etrans; [|apply record_retransmission_same]. apply count_same.
Qed.

(** *** Timers: clock, losses and probes in one call *)
Lemma count_lost_order sent now p : next_send_order (Ledger.count_lost sent now p) = next_send_order p.
Proof.
  unfold Ledger.count_lost, PathOps.record_delivery_outcome. cbv zeta. cbn [next_send_order]. get_set.
  destruct (_ >=? _); [|done]. unfold PathOps.trigger_estimator_step. destruct (now <? _); [done|]. get_set.
  repeat case_match; done.
Qed.

Lemma loss_loop_order i la pt tt clock l : forall acc l' acc',
  Ledger.slots_loop (Ledger.loss_step i la pt tt clock) l acc = (l', acc') ->
  next_send_order (Ledger.lr_path acc') = next_send_order (Ledger.lr_path acc).
Proof.
  induction l as [|s l IH]; simpl; intros acc l' acc' Hl; [by simplify_eq|].
  destruct (Ledger.loss_step i la pt tt clock s acc) as [s1 acc1] eqn:Hs.
  destruct (Ledger.slots_loop _ l acc1) as [l1 acc2] eqn:Hl1. injection Hl as _ <-.
  rewrite (IH _ _ _ Hl1). unfold Ledger.loss_step in Hs. destruct s as [sent|]; [|by simplify_eq].
  cbv zeta in Hs. destruct (_ && _); injection Hs as _ <-; [|done]. apply count_lost_order.
Qed.

Lemma detect_orders i o e : orders (Ledger.detect_ack_losses i o e) = orders e.
Proof.
  unfold Ledger.detect_ack_losses. destruct o as [la|]; [|done].
  destruct (get_path e i) as [p|] eqn:Hp; [|done]. destruct (Ledger.slots_loop _ _ _) as [l r] eqn:Hl.
  apply loss_loop_order in Hl. cbn [Ledger.lr_path] in Hl. cbv zeta. unfold get_path in Hp.
  pose proof (orders_upd e i p (Ledger.lr_path r) Hp Hl) as Hx. unfold orders, upd_path in Hx. get_set_in Hx.
  unfold orders, upd_path, upd_stats. destruct (Ledger.lr_largest r); get_set; [|exact Hx].
  rewrite alter_twice, <- Hx. apply list_eq. intros j. rewrite !list_lookup_fmap.
  destruct (decide (j = i)) as [->|Hj]; [|by rewrite !list_lookup_alter_ne].
  by rewrite !list_lookup_alter_eq, Hp.
Qed.

Lemma set_time_same now e : settled e (Ep.set_time now e).
Proof.
  split; [by apply same_flight_fmap|]. unfold orders, Ep.set_time. get_set. rewrite <- list_fmap_compose. done.
Qed.

Lemma detect_fold_inv l : forall e,
  ledger_inv e ->
  let e' := fold_left (fun e i => Ledger.detect_ack_losses i
              (get_path e i ≫= fun p => largest_acked_send_order (transport p)) e) l e in
  ledger_inv e' /\ orders e' = orders e.
Proof.
  induction l as [|i l IH]; simpl; intros e He; [done|].
  destruct (IH _ (detect_ack_losses_inv e i (get_path e i ≫= fun p => largest_acked_send_order (transport p)) He))
    as [H1' H2']. split; [done|]. by rewrite H2', detect_orders.
Qed.

Lemma retransmit_due_inv now cap e :
  ledger_inv e -> orders_left e -> 0 <= cap < 2 ^ 32 ->
  ledger_inv (Retransmit.retransmit_due now cap e).2.
Proof.
  intros He Hleft Hcap. unfold Retransmit.retransmit_due.
  rewrite (bind_ok _ _ e tt (Ep.set_time now e)) by done. erewrite bind_ok by done.
  pose proof (set_time_same now e) as Ht.
  destruct (detect_fold_inv (seq 0 (length (e_paths (Ep.set_time now e)))) _ (settled_inv _ _ Ht He)) as [Hi Ho].
  match type of Ho with orders ?x = _ => set (e1 := x) in * end.
  assert (orders_left e1) as Hl1.
  { unfold orders_left. rewrite Ho. exact (settled_left _ _ Ht Hleft). }
  destruct (marked_loss_inv cap e1 _ Hi Hl1 Hcap eq_refl) as [Hinv Hnone]. unfold mbind, method_bind.
  destruct (Retransmit.retransmit_marked_loss cap e1) as [[[r|]|err|] e2]; cbn [fst snd] in *; [done| |done..].
  apply pto_probe_inv; [done| |done]. by eapply settled_left; [apply Hnone|].
Qed.

(** *** Packets that add no record *)
Lemma poll_transmit_inv i cap e : ledger_inv e -> ledger_inv (Credit.poll_transmit_on_path i cap e).2.
Proof.
  intros He. unfold Credit.poll_transmit_on_path. destruct (get_path e i); [|done].
  destruct (bool_decide _); [done|].
  match goal with |- context [match ?m with _ => _ end] =>
    destruct m as [[[[control packet] next]|]|err|] eqn:Hm; [|done..] end.
  apply bind_Ok in Hm as (d & _ & Hm). apply bind_Ok in Hm as (h & _ & Hm).
  apply bind_Ok in Hm as (o & _ & Hm). destruct o as [[c b]|]; [|done].
  apply bind_Ok in Hm as (nx & Hnx%checked_next & Hm). apply Ok_inj in Hm. injection Hm as <- _ <-.
  cbn [snd]. change (ledger_inv (Transmit.next_pn nx (upd_stats
    (fun t => t <| t_sent_packets ::= Z.succ |> <| t_sent_control_packets ::= Z.succ |>)
    (Credit.commit_control_frames i (e_next_packet_number e) c e)))).
  pose proof (commit_control_same i (e_next_packet_number e) c e) as Hs.
  apply inv_next; [eapply same_flight_inv; [apply count_same|]; by eapply same_flight_inv|].
  destruct Hs as (_ & Hs & _). change (e_next_packet_number (Credit.commit_control_frames i
    (e_next_packet_number e) c e) <= nx). lia.
Qed.

Lemma probe_packet_inv d cap e : ledger_inv e -> ledger_inv (Transmit.encode_probe_packet d cap e).2.
Proof.
  intros He. unfold Transmit.encode_probe_packet. destruct (match e_peer_cid e with Some _ => _ | None => _ end); [done|].
  match goal with |- context [match ?m with _ => _ end] =>
    destruct m as [[packet next]|err|] eqn:Hm; [|done..] end.
  apply bind_Ok in Hm as (h & _ & Hm). apply bind_Ok in Hm as (b & _ & Hm).
  apply bind_Ok in Hm as (nx & Hnx%checked_next & Hm). apply Ok_inj in Hm. injection Hm as _ <-.
  apply inv_next; [done|lia].
Qed.

Lemma poll_close_inv cap e : ledger_inv e -> ledger_inv (Transmit.poll_close cap e).2.
Proof.
  intros He. unfold Transmit.poll_close. destruct (e_close_code e) as [code|]; [|done].
  match goal with |- context [match ?m with _ => _ end] =>
    destruct m as [[packet next]|err|] eqn:Hm; [|done..] end.
  apply bind_Ok in Hm as (d & _ & Hm). apply bind_Ok in Hm as (h & _ & Hm). apply bind_Ok in Hm as (b & _ & Hm).
  apply bind_Ok in Hm as (nx & Hnx%checked_next & Hm). apply Ok_inj in Hm. injection Hm as _ <-.
  apply inv_next; [done|lia].
Qed.
End transmissions.
