(* ===== verification/LedgerSteps.v ===== *)
(** * The ledger under every sequence of events

    A step relation over the events of the transmission ledger: transmissions,
    datagrams, bearer results, acknowledgements, losses, timers, and the life of paths.
    Two of the rules have a guard the code does not test: a bearer result
    [WouldBlock] is for a record that is not lost, and a path is resumed while every
    record of it is still lost, as its suspension left them.  The theorems: in every reachable state
    the flight a congestion controller counts is the flight of the ledger, no
    packet number is recorded twice or reused, and a record leaves the flight
    once.  Two counterexamples show what the guards are for. *)

From S2P Require Import Prelude Records Methods Wire PacketHeader Keyed AckRanges Reader Frames FlowControl Congestion PathState SendBuffer Endpoint Credit Ledger Transmit Retransmit Datagram OutputBounds Flight Conservation.

Section steps.
Context `{Allocator, PacketSize, Features} {fl : Floor}.

(** Empty slots at the end of the ledger carry nothing. *)
Lemma flight_pad i l m : ledger_flight i (l ++ replicate m None) = ledger_flight i l.
Proof.
  unfold ledger_flight. rewrite zsum_app. assert (zsum (contribution i) (replicate m None) = 0) as ->.
  { induction m; simpl; lia. }
  lia.
Qed.

Lemma numbers_pad l m : numbers (l ++ replicate m None) = numbers l.
Proof.
  unfold numbers. rewrite omap_app. assert (omap (fun s : option SentPacket => sp_packet_number <$> s)
    (replicate m None) = []) as ->; [by induction m|]. by rewrite app_nil_r.
Qed.

Lemma all_none_split {A} n (l : list (option A)) :
  Ep.all_none_from n l = true -> l = take n l ++ replicate (length l - n) None.
Proof.
  unfold Ep.all_none_from. intros Hn. rewrite <- (take_drop n l) at 1. f_equal.
  rewrite <- length_drop. induction (drop n l) as [|[x|] k IH]; simpl in *; [done..|]. f_equal. by apply IH.
Qed.

Lemma inv_pad e l l' m :
  ledger_inv (e <| e_sent_packets := l |>) -> l' = l ++ replicate m None \/ l = l' ++ replicate m None ->
  Z.of_nat (length l') <= 2 ^ 31 -> ledger_inv (e <| e_sent_packets := l' |>).
Proof.
  intros [Hf Hfr Hd Hfl Hr _] Hl Hs. get_set_in Hf. get_set_in Hfr. get_set_in Hd. get_set_in Hr.
  destruct Hl as [->| ->]; [|rewrite ?numbers_pad in *]; split; get_set; rewrite ?numbers_pad; try done.
  - intros i. by rewrite flight_pad, Hf.
  - apply Forall_app. split; [done|]. by apply Forall_replicate.
  - intros i. by rewrite Hf, flight_pad.
  - by apply Forall_app in Hr as [Hr _].
Qed.

Lemma resize_inv e limit :
  Z.of_nat limit <= 2 ^ 31 -> ledger_inv e -> ledger_inv (e <| e_sent_packets ::= Ep.resize_slots limit |>).
Proof.
  intros Hlim He. pose proof (li_size e He) as Hsz.
  assert (ledger_inv (e <| e_sent_packets := e_sent_packets e |>)) as He'
    by (apply (same_flight_inv e); [by apply same_flight_refl|done]).
  change (ledger_inv (e <| e_sent_packets := Ep.resize_slots limit (e_sent_packets e) |>)).
  unfold Ep.resize_slots. destruct (Nat.ltb_spec (length (e_sent_packets e)) limit).
  - eapply (inv_pad e _ _ _ He'); [by left|]. rewrite length_app, length_replicate. lia.
  - destruct ((limit <? length (e_sent_packets e))%nat && Ep.all_none_from limit (e_sent_packets e)) eqn:Hc;
      [|done]. apply andb_true_iff in Hc as [_ Hc].
    eapply (inv_pad e _ _ _ He'); [right; by apply all_none_split|]. rewrite length_take. lia.
Qed.

Lemma capacity_inv limit e :
  Z.of_nat limit <= 2 ^ 31 -> ledger_inv e -> ledger_inv (Ep.set_transmission_capacity limit e).2.
Proof.
  intros Hlim He. unfold Ep.set_transmission_capacity. destruct (_ =? 0)%nat; [done|].
  destruct (_ || _); [done|]. cbn [snd].
  apply (same_flight_inv (e <| e_sent_packets ::= Ep.resize_slots limit |>)); [|by apply resize_inv].
  split; [done|]. split; [done|]. get_set. split; [apply length_fmap|].
  intros i. by apply flight_at_fmap.
Qed.

Lemma add_path_inv e : ledger_inv e -> ledger_inv (Ep.add_path_state e).2.
Proof.
  intros He. unfold Ep.add_path_state. destruct (_ <=? _); [done|]. destruct (negb _); [done|].
  destruct (e_paths e) as [|first rest] eqn:Hp; [done|]. rewrite <- Hp. cbv zeta. cbn [snd].
  set (path := _ <| validated := false |>). assert (path_flight path = 0) as Hz by done.
  destruct He as [Hf Hfr Hd Hfl Hr Hs]. split; get_set; try done.
  - intros i. rewrite <- Hf. unfold flight_at. destruct (decide (i < length (e_paths e))%nat).
    + by rewrite lookup_app_l.
    + rewrite lookup_app_r, (lookup_ge_None_2 (e_paths e)) by lia.
      destruct (i - length (e_paths e))%nat; [exact Hz|done].
  - rewrite length_app. simpl. eapply Forall_impl; [exact Hr|]. intros s Hs'.
    eapply record_ok_weaken; [exact Hs'|lia].
Qed.

(** ** The step relation *)

(** Every accepted record of path [i] is lost: nothing was sent there since its
    suspension. *)
Definition all_lost (i : nat) (e : EndpointState) : Prop :=
  Forall (fun s => match s with
                   | Some sent => sp_path_id sent = i -> sp_accepted sent = true -> sp_lost sent = true
                   | None => True
                   end) (e_sent_packets e).

Lemma all_lost_flight i e : all_lost i e -> ledger_flight i (e_sent_packets e) = 0.
Proof.
  unfold all_lost, ledger_flight. induction 1 as [|s l Hs _ IH]; [done|]. cbn [zsum]. rewrite IH.
  assert (contribution i s = 0) as ->; [|done]. destruct s as [sent|]; [|done]. unfold contribution.
  destruct (Nat.eqb_spec (sp_path_id sent) i) as [Hi|]; [|by rewrite andb_false_r].
  destruct (sp_accepted sent) eqn:Ha; [|done]. by rewrite (Hs Hi eq_refl).
Qed.

(** A suspension leaves the path like that. *)
Lemma suspension_loses_all i e : ledger_inv e -> is_Some (get_path e i) -> all_lost i (Ledger.suspend_path i e).
Proof.
  intros He [p Hp]. destruct (suspend_path_eq e i p Hp He) as (p' & _ & ->). unfold all_lost, upd_path. get_set.
  apply Forall_forall. intros s (s0 & -> & _)%list_elem_of_fmap. destruct s0 as [sent|]; [|done].
  unfold suspended_slot. destruct (Nat.eqb_spec (sp_path_id sent) i) as [Hi|Hi]; cbn [negb orb]; [|done].
  destruct (sp_accepted sent) eqn:Ha; cbn [negb orb]; [|by rewrite Ha]. destruct (sp_lost sent) eqn:Hl; by get_set.
Qed.

Inductive ledger_step (e : EndpointState) : EndpointState -> Prop :=
  | step_stream i d sid off f data cap retain :
      orders_left e -> 0 <= cap < 2 ^ 32 ->
      ledger_step e (Transmit.encode_stream_packet_on_path_inner i d sid off f data cap retain e).2
  | step_control i d f cap pto :
      orders_left e -> 0 <= cap < 2 ^ 32 ->
      ledger_step e (Transmit.encode_path_control_packet_inner i d f cap pto e).2
  | step_datagram i payload storage prefix suffix mtu priority :
      orders_left e -> 0 <= suffix -> zlen storage < 2 ^ 32 ->
      ledger_step e (Datagrams.prepare_on_path i payload storage prefix suffix mtu priority e).2
  | step_poll i cap : ledger_step e (Credit.poll_transmit_on_path i cap e).2
  | step_probe d cap : ledger_step e (Transmit.encode_probe_packet d cap e).2
  | step_close cap : ledger_step e (Transmit.poll_close cap e).2
  | step_credit_copy source i a m n bidi cap :
      orders_left e -> 0 <= cap < 2 ^ 32 ->
      ledger_step e (Retransmit.duplicate_credit_control_on_path source i a m n bidi cap e).2
  | step_retransmit pn i cap overrun budgeted :
      orders_left e -> 0 <= cap < 2 ^ 32 ->
      ledger_step e (Retransmit.retransmit_stream_packet_with_probe pn i cap overrun budgeted e).2
  | step_due now cap :
      orders_left e -> 0 <= cap < 2 ^ 32 -> ledger_step e (Retransmit.retransmit_due now cap e).2
  | step_marked_loss cap :
      orders_left e -> 0 <= cap < 2 ^ 32 -> ledger_step e (Retransmit.retransmit_marked_loss cap e).2
  | step_pto_probe now cap :
      orders_left e -> 0 <= cap < 2 ^ 32 -> ledger_step e (Retransmit.retransmit_pto_probe now cap e).2
  | step_blocked pn :
      (forall k sent, Ledger.slot_of pn (e_sent_packets e) = Some (k, sent) -> sp_lost sent = false) ->
      ledger_step e (Ledger.packet_submission_blocked pn e).2
  | step_accepted pn now : ledger_step e (Ledger.packet_submission_accepted pn now e).2
  | step_failed pn : ledger_step e (Ledger.packet_submission_failed pn e).2
  | step_mark_lost pn : ledger_step e (Ledger.mark_lost pn e).2
  | step_ack ranges delay ingress : ledger_step e (Ledger.apply_ack_ranges_on_path ranges delay ingress e).2
  | step_suspend i : ledger_step e (Ledger.suspend_path i e)
  | step_resume i address now :
      all_lost i e -> ledger_step e (Ledger.resume_path i address now e)
  | step_add_path : ledger_step e (Ep.add_path_state e).2
  | step_remove_path i : ledger_step e (Ledger.remove_path_state i e).2
  | step_capacity limit :
      Z.of_nat limit <= 2 ^ 31 -> ledger_step e (Ep.set_transmission_capacity limit e).2
  | step_time now : ledger_step e (Ep.set_time now e)
  (** Every method that leaves the ledger and the flights alone. *)
  | step_other e' : same_flight e e' -> ledger_step e e'.

Lemma step_inv e e' : ledger_step e e' -> ledger_inv e -> ledger_inv e'.
Proof.
  intros Hstep He. destruct Hstep;
    eauto using stream_packet_inv, path_control_inv, datagram_inv, poll_transmit_inv, probe_packet_inv, poll_close_inv,
      credit_copy_inv, retransmit_inv, retransmit_due_inv, pto_probe_inv, blocked_inv, accepted_inv,
      failed_inv, mark_lost_inv, apply_ack_inv, suspend_inv, resume_inv, all_lost_flight, add_path_inv, remove_inv,
      capacity_inv, same_flight_inv, settled_inv, set_time_same.
  by eapply marked_loss_inv.
Qed.

Definition start (r : Role) (l : ConnectionLimits) (mps : Z) (history : nat) : EndpointState :=
  Ep.new_with_history_capacity r l mps history.

Lemma start_inv r l mps history :
  floor <= 0 -> Z.of_nat history <= 2 ^ 30 -> ledger_inv (start r l mps history).
Proof.
  intros Hfl Hh. unfold start, Ep.new_with_history_capacity. split; cbn [e_paths e_sent_packets e_next_packet_number].
  - intros i. transitivity 0; [by destruct i|symmetry; apply (flight_pad i [])].
  - pose proof (numbers_pad [] (2 * history)) as Hn. cbn [app] in Hn. by rewrite Hn.
  - pose proof (numbers_pad [] (2 * history)) as Hn. cbn [app] in Hn. rewrite Hn. constructor.
  - done.
  - by apply Forall_replicate.
  - rewrite length_replicate. lia.
Qed.

Lemma reachable_inv e e' : rtc ledger_step e e' -> ledger_inv e -> ledger_inv e'.
Proof. induction 1; eauto using step_inv. Qed.
End steps.

(** ** What holds in every reachable state *)
Section theorems.
Context `{Allocator, PacketSize, Features}.

Lemma reachable_start r l mps history e :
  Z.of_nat history <= 2 ^ 30 -> rtc ledger_step (start r l mps history) e -> ledger_inv (fl := 0) e.
Proof. intros Hh Hr. eapply reachable_inv; [exact Hr|]. by apply start_inv. Qed.

(** The packet sequence only moves forward. *)
Lemma steps_forward r l mps history e e' :
  Z.of_nat history <= 2 ^ 30 -> rtc ledger_step (start r l mps history) e -> rtc ledger_step e e' ->
  e_next_packet_number e <= e_next_packet_number e'.
Proof.
  intros Hh Hr Hr'. destruct (reachable_start _ _ _ _ _ Hh Hr) as [Hf Hfr Hd _ Hrec Hs].
  apply (li_floor (fl := e_next_packet_number e)). eapply reachable_inv; [exact Hr'|].
  split; [done..|unfold floor; lia|done|done].
Qed.

(** C1: Flight is conserved.  In every state reachable from a new endpoint by
    sending, retransmitting, probing, duplicating, acknowledging, losing,
    failing, suspending, resuming, resizing and adding or removing paths, in any
    order, the bytes in flight of each path are exactly the bytes of the
    accepted, not lost transmissions recorded for it; provided that a bearer
    reports [WouldBlock] only for a record not declared lost before, and that a
    path is resumed while every record of it is lost, as its suspension leaves
    them.  (Without the first, [blocked_after_loss_desync], and without the
    second, [resume_with_probe_desync], the code loses flight.) *)
Theorem flight_conserved r l mps history e i :
  Z.of_nat history <= 2 ^ 30 -> rtc ledger_step (start r l mps history) e ->
  match e_paths e !! i with
  | Some p => bytes_in_flight (congestion (transport p))
  | None => 0
  end = ledger_flight i (e_sent_packets e).
Proof.
  intros Hh Hr. apply (li_flight e (reachable_start _ _ _ _ _ Hh Hr) i).
Qed.

(** *** Which packet number a transmission uses *)
Definition keeps_next {A} (m : ep A) : Prop :=
  forall e, e_next_packet_number (m e).2 = e_next_packet_number e.

Lemma next_bind {A B} (m : ep A) (k : A -> ep B) e b e' :
  keeps_next m -> (m ≫= k) e = (Ok b, e') ->
  exists a e1, m e = (Ok a, e1) /\ e_next_packet_number e1 = e_next_packet_number e /\ k a e1 = (Ok b, e').
Proof.
  intros Hm. specialize (Hm e). unfold mbind, method_bind. destruct (m e) as [[a|err|] e1]; [|done..]. eauto.
Qed.

Lemma quiet_keeps_next {A} (m : ep A) : quiet m -> keeps_next m.
Proof. intros Hm e. by destruct (Hm e) as [(_ & ? & _) _]. Qed.

Lemma on_path_keeps_next {A} i (f : PathState -> res A * PathState) : keeps_next (on_path i f).
Proof. intros e. unfold on_path. destruct (get_path e i) as [p|]; [|done]. by destruct (f p). Qed.

(** Cuts the first step off a successful run. *)
Ltac next_step Hrun a e1 Hm Hn :=
  apply next_bind in Hrun as (a & e1 & Hm & Hn & Hrun);
    [|first [by apply quiet_keeps_next; auto with quiet | by apply on_path_keeps_next]].

Lemma stream_number e i d sid off f data cap retain packet pn e' :
  Transmit.encode_stream_packet_on_path_inner i d sid off f data cap retain e = (Ok (packet, pn), e') ->
  (exists control, Transmit.build_stream_packet e i d sid off f data cap = Ok (packet, control)) /\
  pn = e_next_packet_number e /\ e_next_packet_number e' = e_next_packet_number e + 1.
Proof.
  unfold Transmit.encode_stream_packet_on_path_inner. intros Hrun.
  next_step Hrun pc e1 Hm Hn1. destruct pc as [pk control]. injection Hm as Hm _. next_step Hrun sl e2 Hm2 Hn2. destruct sl as [rs k].
  next_step Hrun u3 e3 Hm3 Hn3. next_step Hrun u4 e4 Hm4 Hn4. next_step Hrun u5 e5 Hm5 Hn5.
  next_step Hrun u6 e6 Hm6 Hn6. next_step Hrun u7 e7 Hm7 Hn7. next_step Hrun next e8 Hnext Hn8.
  next_step Hrun rv e9 Hm9 Hn9. next_step Hrun u10 e10 Hm10 Hn10. next_step Hrun u11 e11 Hm11 Hn11.
  next_step Hrun lim e12 Hm12 Hn12. next_step Hrun u13 e13 Hm13 Hn13. next_step Hrun u14 e14 Hm14 Hn14.
  next_step Hrun ord e15 Hm15 Hn15. next_step Hrun pn' e16 Hm16 Hn16.
  assert (next = e_next_packet_number e7 + 1) as Hnx.
  { apply checked_next. unfold gets_res in Hnext. by injection Hnext. }
  assert (pn' = e_next_packet_number e15) as Hpn by (unfold gets in Hm16; by injection Hm16).
  erewrite (bind_ok (modify _)) in Hrun by done.
  match type of Hrun with (_ ≫= _) ?x = _ => assert (e_next_packet_number x = next) as Hx by done end.
  pose proof (tail_same i pn' sid f control (pk, pn')) as Htail. 
  match type of Hrun with ?m ?x = _ => specialize (Htail x) end. rewrite Hrun in Htail.
  destruct Htail as (_ & Htail & _). cbn [snd] in Htail. rewrite Hx in Htail.
  assert (packet = pk /\ pn = pn') as [-> ->].
  { apply next_bind in Hrun as (u17 & e17 & _ & _ & Hrun);
      [|by apply quiet_keeps_next; auto with quiet]. unfold mbind, method_bind, modify in Hrun.
    by injection Hrun. }
  split; [eauto|]. split; [congruence|]. rewrite Htail. congruence.
Qed.

(** Packet numbers are never reused.  Two stream packets sent by one
    endpoint, with any steps between, carry different, increasing packet
    numbers; all outstanding records have distinct numbers and the new number is
    on none of them. *)
Theorem packet_numbers_never_reused r l mps history e e1 e2 e3 pn pn' packet packet'
    i d sid off f data cap retain i' d' sid' off' f' data' cap' retain' :
  Z.of_nat history <= 2 ^ 30 -> rtc ledger_step (start r l mps history) e ->
  0 <= cap < 2 ^ 32 -> orders_left e ->
  Transmit.encode_stream_packet_on_path_inner i d sid off f data cap retain e = (Ok (packet, pn), e1) ->
  rtc ledger_step e1 e2 ->
  Transmit.encode_stream_packet_on_path_inner i' d' sid' off' f' data' cap' retain' e2
    = (Ok (packet', pn'), e3) ->
  pn < pn' /\ NoDup (numbers (e_sent_packets e2)) /\ (pn' ∉ numbers (e_sent_packets e2)).
Proof.
  intros Hh Hr Hcap Hleft Hs1 Hr2 Hs2.
  assert (rtc ledger_step (start r l mps history) e1) as Hr1.
  { etrans; [exact Hr|]. apply rtc_once. pose proof (step_stream e i d sid off f data cap retain Hleft Hcap) as Hst.
    by rewrite Hs1 in Hst. }
  pose proof (steps_forward _ _ _ _ _ _ Hh Hr1 Hr2). apply stream_number in Hs1 as (_ & -> & Hn1).
  apply stream_number in Hs2 as (_ & -> & _). split; [lia|].
  assert (rtc ledger_step (start r l mps history) e2) as Hr' by (by etrans).
  pose proof (reachable_start _ _ _ _ _ Hh Hr') as He2. split; [apply (li_distinct e2 He2)|].
  intros Hx. pose proof (li_fresh e2 He2) as Hfr. rewrite Forall_forall in Hfr. apply Hfr in Hx. lia.
Qed.

(** *** A loss is counted once *)
Lemma slot_of_insert pn l k sent s' :
  NoDup (numbers l) -> Ledger.slot_of pn l = Some (k, sent) ->
  match s' with Some r => sp_packet_number r = sp_packet_number sent | None => True end ->
  Ledger.slot_of pn (<[k := s']> l) = match s' with Some r => Some (k, r) | None => None end.
Proof.
  revert k. induction l as [|s l IH]; intros k Hd; [done|]. rewrite numbers_cons in Hd.
  destruct s as [x|]; simpl.
  - apply NoDup_cons in Hd as [Hx Hd]. destruct (Z.eqb_spec (sp_packet_number x) pn) as [Hpn|Hpn].
    + intros [= <- <-] Hs'. cbn [insert list_insert]. destruct s' as [r|]; cbn [Ledger.slot_of].
      * rewrite Hs', Hpn, Z.eqb_refl. done.
      * destruct (Ledger.slot_of pn l) as [[j y]|] eqn:Hy; [|done]. exfalso. apply Hx.
        apply slot_of_Some in Hy as [Hy Hn]. unfold numbers. apply list_elem_of_omap.
        exists (Some y). split; [by eapply list_elem_of_lookup_2|]. simpl. by rewrite Hn, Hpn.
    + destruct (Ledger.slot_of pn l) as [[j y]|] eqn:Hy; [|done]. intros [= <- <-] Hs'.
      change (<[S j := s']> (Some x :: l)) with (Some x :: <[j := s']> l). cbn [Ledger.slot_of].
      rewrite (proj2 (Z.eqb_neq _ _) Hpn), (IH j) by done.
      by destruct s'.
  - destruct (Ledger.slot_of pn l) as [[j y]|] eqn:Hy; [|done]. intros [= <- <-] Hs'.
    change (<[S j := s']> (None :: l)) with (None :: <[j := s']> l). cbn [Ledger.slot_of].
    rewrite (IH j) by done. by destruct s'.
Qed.

(** After [mark_lost] and [packet_submission_failed] a record is lost or gone. *)
Definition lost_or_gone (pn : Z) (e : EndpointState) : Prop :=
  match Ledger.slot_of pn (e_sent_packets e) with Some (_, sent) => sp_lost sent = true | None => True end.

Lemma keep_lost_cases e sent :
  Ledger.keep_lost e sent = Some sent \/ Ledger.keep_lost e sent = None.
Proof. unfold Ledger.keep_lost. destruct (_ || _); auto. Qed.

Lemma lost_after_put e e' pn k sent sent' E :
  e_sent_packets e' = <[k := Ledger.keep_lost E sent']> (e_sent_packets e) ->
  NoDup (numbers (e_sent_packets e)) -> Ledger.slot_of pn (e_sent_packets e) = Some (k, sent) ->
  sp_packet_number sent' = sp_packet_number sent -> sp_lost sent' = true -> lost_or_gone pn e'.
Proof.
  intros He Hd Hs Hn Hl. unfold lost_or_gone. rewrite He.
  destruct (keep_lost_cases E sent') as [-> | ->]; by rewrite (slot_of_insert _ _ _ _ _ Hd Hs).
Qed.

Lemma mark_lost_lost pn e :
  NoDup (numbers (e_sent_packets e)) -> (Ledger.mark_lost pn e).1 = true ->
  lost_or_gone pn (Ledger.mark_lost pn e).2.
Proof.
  intros Hd. unfold Ledger.mark_lost. destruct (Ledger.slot_of pn _) as [[k sent]|] eqn:Hs; [|done].
  destruct (_ || _); [done|]. intros _. by eapply (lost_after_put e _ pn k sent).
Qed.

Lemma failed_lost pn e :
  NoDup (numbers (e_sent_packets e)) -> (Ledger.packet_submission_failed pn e).1 = true ->
  lost_or_gone pn (Ledger.packet_submission_failed pn e).2.
Proof.
  intros Hd. unfold Ledger.packet_submission_failed.
  destruct (Ledger.slot_of pn _) as [[k sent]|] eqn:Hs; [|done].
  destruct (negb (sp_accepted sent) || _); [done|]. intros _. cbv zeta. cbn [snd].
  destruct (_ && _); by eapply (lost_after_put e _ pn k sent).
Qed.

(** A loss is counted once.  After a transmission was declared lost, by loss
    detection or by a bearer failure, declaring it lost again either way changes
    nothing and reports so. *)
Theorem loss_counted_once r l mps history e pn (first second : bool) :
  Z.of_nat history <= 2 ^ 30 -> rtc ledger_step (start r l mps history) e ->
  let lose (failed : bool) := if failed then Ledger.packet_submission_failed pn else Ledger.mark_lost pn in
  (lose first e).1 = true -> lose second (lose first e).2 = (false, (lose first e).2).
Proof.
  intros Hh Hr lose Hfirst. pose proof (li_distinct e (reachable_start _ _ _ _ _ Hh Hr)) as Hd.
  assert (lost_or_gone pn (lose first e).2) as Hlost.
  { unfold lose in *. destruct first; [by apply failed_lost|by apply mark_lost_lost]. }
  unfold lost_or_gone in Hlost. unfold lose at 1. destruct second;
    [unfold Ledger.packet_submission_failed|unfold Ledger.mark_lost];
    (destruct (Ledger.slot_of pn _) as [[k sent]|]; [by rewrite Hlost, orb_true_r|done]).
Qed.
End theorems.

(** ** Concrete runs *)
Section examples.
#[local] Instance plenty : Allocator := {| try_reserve := fun _ => true |}.
#[local] Instance big_packets : PacketSize := {| packet_size := 1200 |}.
#[local] Instance no_protection : Features := {| packet_protection := false |}.

(** A client with one stream; two packets of 100 bytes are sent. *)
Definition client : EndpointState :=
  (Ep.open_send_stream 4 65536 (Ep.set_ids (start Client Limits.default 1100 8) 7 9)).2.
Definition send (off : Z) : ep (bytes * Z) :=
  Transmit.encode_stream_packet_on_path_inner 0 9 4 off false (replicate 100 0x2a) 1100 true.
Definition sent_one : EndpointState := (send 0 client).2.
Definition sent_two : EndpointState := (send 100 sent_one).2.

Lemma client_reachable : rtc ledger_step (start Client Limits.default 1100 8) client.
Proof.
  eapply rtc_once. apply step_other. split; [done|]. split; [done|]. split; [done|]. by intros [|i].
Qed.

Lemma orders_left_bool e : forallb (fun n => n <? U64_MAX) (orders e) = true -> orders_left e.
Proof.
  intros He. apply Forall_forall. intros n Hn. apply Z.ltb_lt. rewrite forallb_forall in He.
  apply He. by apply list_elem_of_In.
Qed.

Lemma send_step off e :
  forallb (fun n => n <? U64_MAX) (orders e) = true -> ledger_step e (send off e).2.
Proof. intros He%orders_left_bool. unfold send. by apply step_stream. Qed.

Lemma one_reachable : rtc ledger_step (start Client Limits.default 1100 8) sent_one.
Proof.
  etrans; [apply client_reachable|]. apply rtc_once, send_step. by vm_compute.
Qed.

Lemma two_reachable : rtc ledger_step (start Client Limits.default 1100 8) sent_two.
Proof.
  etrans; [apply one_reachable|]. apply rtc_once, send_step. by vm_compute.
Qed.

Lemma flight_conserved_witness :
  bytes_in_flight (path_congestion (default (PathOps.new 0) (e_paths sent_two !! 0%nat))) = 217 /\
  ledger_flight 0 (e_sent_packets sent_two) = 217.
Proof.
  pose proof (flight_conserved Client Limits.default 1100 8 sent_two 0 ltac:(vm_compute; done) two_reachable) as Hf.
  split; [by vm_compute|]. rewrite <- Hf. by vm_compute.
Defined.

Lemma packet_numbers_never_reused_witness : 0 < 1 /\ (1 ∉ numbers (e_sent_packets sent_one)).
Proof.
  destruct (packet_numbers_never_reused Client Limits.default 1100 8 client sent_one sent_one sent_two 0 1
    (match (send 0 client).1 with Ok (b, _) => b | _ => [] end)
    (match (send 100 sent_one).1 with Ok (b, _) => b | _ => [] end)
    0 9 4 0 false (replicate 100 0x2a) 1100 true 0 9 4 100 false (replicate 100 0x2a) 1100 true) as (Hlt & _ & Hn);
    [by vm_compute|apply client_reachable|done|apply orders_left_bool; by vm_compute|by vm_compute|done|by vm_compute|].
  by split.
Defined.

Lemma loss_counted_once_witness :
  (Ledger.mark_lost 0 sent_two).1 = true /\
  (Ledger.packet_submission_failed 0 (Ledger.mark_lost 0 sent_two).2).1 = false.
Proof.
  split; [by vm_compute|].
  by rewrite (loss_counted_once Client Limits.default 1100 8 sent_two 0 false true
    ltac:(vm_compute; done) two_reachable ltac:(vm_compute; done)).
Defined.

(** Without the guard of [step_blocked]: [WouldBlock] for a packet already
    declared lost takes its bytes out of the flight a second time. *)
Example blocked_after_loss_desync :
  let e := (Ledger.packet_submission_blocked 0 (Ledger.mark_lost 0 sent_two).2).2 in
  flight_at (e_paths e) 0 = 1 /\ ledger_flight 0 (e_sent_packets e) = 109.
Proof. by vm_compute. Qed.

(** Without the guard of [step_resume]: a probe in flight is forgotten by the
    recovery reset, and stays in the ledger. *)
Example resume_with_probe_desync :
  let probe := (Transmit.encode_path_control_packet_inner 0 9 (PathChallenge 5) 1100 false client).2 in
  let e := Ledger.resume_path 0 (1, 1) 1000 probe in
  flight_at (e_paths probe) 0 = 1100 /\ flight_at (e_paths e) 0 = 0 /\
  ledger_flight 0 (e_sent_packets e) = 1100.
Proof. by vm_compute. Qed.
End examples.
