(* ===== verification/StreamSend.v ===== *)
(** * A fresh STREAM packet: delivery and refusal

    [encode_stream_packet_on_path_inner] ([src/crates/quic-lite/src/lib.rs]) as
    its callers see it.  A packet it returns is read back by the peer with the
    sender's packet number and, as its first frame, exactly the bytes, offset and
    FIN that were asked for; a call it refuses has no effect but on the pacer of
    the path. *)

From S2P Require Import Prelude Records Methods Wire PacketHeader Keyed AckRanges Reader Frames FlowControl Congestion PathState SendBuffer Endpoint Credit Ledger Transmit Retransmit OutputBounds Flight Conservation LedgerSteps.

(** The header and the first frame of a short packet, as its receiver reads them. *)
Definition first_frame `{Features} (packet : bytes) (expected : Z) : res (ShortHeader * Frame) :=
  '(h, n) ← decode_with_expected packet expected;
  '(f, _) ← decode_frame (drop (Z.to_nat n) packet);
  Ok (h, f).

Section delivery.
Context `{Allocator, PacketSize, Features}.

(** The pieces of the packet. *)
Lemma stream_packet_pieces e i d sid off f data cap packet control :
  Transmit.build_stream_packet e i d sid off f data cap = Ok (packet, control) ->
  exists h b rest,
    Credit.packet_header e d (Ep.next_packet_number_len e) cap = Ok h /\
    encode (Stream (mkStreamFrame sid off f data)) (cap - zlen h) = Ok b /\ packet = h ++ b ++ rest.
Proof.
  intros Hb. unfold Transmit.build_stream_packet in Hb. cbv zeta in Hb.
  do 4 apply bind_Ok in Hb as ([] & _ & Hb).
  apply bind_Ok in Hb as (h & Hh & Hb). apply bind_Ok in Hb as (prefix & Hp & Hb).
  apply bind_Ok in Hb as ([] & Hle%guard_err_Ok%Z.ltb_ge & Hb). rewrite !zlen_app in Hle.
  assert (encode (Stream (mkStreamFrame sid off f data)) (cap - zlen h) = Ok (prefix ++ data)) as He.
  { unfold encode. apply wseq_Ok. exists prefix, data. split; [exact Hp|]. split; [|done].
    unfold put_bytes. cbn [s_data]. by rewrite (proj2 (Z.ltb_ge _ _)) by lia. }
  apply bind_Ok in Hb as (r & _ & Hb). destruct r as [[c b]|]; apply Ok_inj in Hb; injection Hb as <- _.
  - exists h, (prefix ++ data), b. by rewrite <- !app_assoc.
  - exists h, (prefix ++ data), []. by rewrite app_nil_r.
Qed.

Lemma sent_first_frame e i d sid off f data cap retain packet pn e' expected :
  Transmit.encode_stream_packet_on_path_inner i d sid off f data cap retain e = (Ok (packet, pn), e') ->
  is_cid d -> 0 <= sid -> 0 <= off -> 0 <= cap < 2 ^ 32 ->
  is_u32 (e_next_packet_number e) -> is_u32 (default 0 (e_largest_acked_by_peer e)) ->
  default 0 (e_largest_acked_by_peer e) <= e_next_packet_number e
    <= default 0 (e_largest_acked_by_peer e) + 2 ^ 31 - 1 ->
  is_u32 expected -> default 0 (e_largest_acked_by_peer e) <= expected < e_next_packet_number e + 128 ->
  pn = e_next_packet_number e /\ zlen packet <= cap /\
  exists fl, first_frame packet expected =
    Ok (mkShortHeader fl d pn (Ep.next_packet_number_len e), Stream (mkStreamFrame sid off f data)).
Proof.
  intros Hrun Hd Hsid Hoff Hcap Hnext Hla Hdist Hexp Hwin.
  apply stream_number in Hrun as ([control Hb] & -> & _).
  pose proof (stream_packet_size _ _ _ _ _ _ _ _ _ _ (proj1 Hcap) Hb) as Hsz. split; [done|]. split; [done|].
  destruct (stream_packet_pieces _ _ _ _ _ _ _ _ _ _ Hb) as (h & b & rest & Hh & He & ->).
  destruct (short_header_recovered _ _ _ _ _ (b ++ rest) expected Hnext Hla Hd Hexp Hdist Hwin Hh) as [fl Hdec].
  exists fl. unfold first_frame. rewrite Hdec. cbn [mbind outcome_bind].
  unfold zlen at 1. rewrite Nat2Z.id, drop_app_length.
  rewrite !zlen_app in Hsz. pose proof (zlen_nonneg h).
  assert (decode_frame (b ++ rest) = Ok (Stream (mkStreamFrame sid off f data), zlen b)) as ->; [|done].
  unfold decode_frame, run_reader.
  refine (encode_reads (Stream (mkStreamFrame sid off f data)) (conj Hsid Hoff) eq_refl _ _ _ 0 rest He _ (at_cursor_start _)).
  rewrite zlen_app. unfold U64_MAX. lia.
Qed.

(** A stream packet arrives as it was sent.  When
    [encode_stream_packet_on_path_inner] returns a packet, it fits the buffer,
    its number is the next of the association, and a receiver that has seen at
    least the acknowledged packets decodes from it the destination, that number
    and, as the first frame, exactly the stream, offset, FIN and bytes given. *)
Theorem stream_packet_delivered e i d sid off f data cap retain packet pn e' expected :
  Transmit.encode_stream_packet_on_path_inner i d sid off f data cap retain e = (Ok (packet, pn), e') ->
  is_cid d -> 0 <= sid -> 0 <= off -> 0 <= cap < 2 ^ 32 ->
  is_u32 (e_next_packet_number e) -> is_u32 (default 0 (e_largest_acked_by_peer e)) ->
  default 0 (e_largest_acked_by_peer e) <= e_next_packet_number e
    <= default 0 (e_largest_acked_by_peer e) + 2 ^ 31 - 1 ->
  is_u32 expected -> default 0 (e_largest_acked_by_peer e) <= expected < e_next_packet_number e + 128 ->
  pn = e_next_packet_number e /\ zlen packet <= cap /\
  exists fl, first_frame packet expected =
    Ok (mkShortHeader fl d pn (Ep.next_packet_number_len e), Stream (mkStreamFrame sid off f data)).
Proof. apply sent_first_frame. Qed.
End delivery.

(** ** Refusals *)

(** Only the token bucket of path [i] differs. *)
Definition pacer_only (i : nat) (e e' : EndpointState) : Prop :=
  e' = e \/ exists p a b c dl, get_path e i = Some p /\
    e' = upd_path i (fun _ => p <| transport := Path.with_pacing (transport p) a b c dl |>) e.

Lemma get_upd_path i p' e : (exists p, get_path e i = Some p) -> get_path (upd_path i (fun _ => p') e) i = Some p'.
Proof. intros [p Hp]. unfold get_path, upd_path in *. get_set. by rewrite list_lookup_alter_eq, Hp. Qed.

#[export] Instance pacer_only_pre i : PreOrder (pacer_only i).
Proof.
  split; [by left|]. intros x y z [-> |(p & a & b & c & dl & Hp & ->)]; [done|].
  intros [-> |(q & a' & b' & c' & dl' & Hq & ->)]; [right; by eauto 10|].
  rewrite get_upd_path in Hq by eauto. injection Hq as <-. right. exists p, a', b', c', dl'.
  split; [done|]. by rewrite upd_path_twice.
Qed.

Definition paced_like (t t' : PathTransport) : Prop := exists a b c dl, t' = Path.with_pacing t a b c dl.

Lemma paced_like_refl t : paced_like t t.
Proof. destruct t. by eexists _, _, _, _. Qed.

Lemma refill_like t now : paced_like t (Path.refill t now).
Proof.
  unfold Path.refill. cbv zeta. destruct (_ =? 0); [apply paced_like_refl|].
  destruct (pacing_refill_tokens _ _ _ _). by eexists _, _, _, _.
Qed.

Lemma paced_like_with t t' a b c dl : paced_like t t' -> paced_like t (Path.with_pacing t' a b c dl).
Proof. intros (a' & b' & c' & dl' & ->). by exists a, b, c, dl. Qed.

Lemma can_send_paced_like t n now : paced_like t (Path.can_send_paced t n now).2.
Proof.
  unfold Path.can_send_paced. destruct (negb _); [apply paced_like_with, paced_like_refl|]. cbv zeta.
  destruct (_ || _); apply paced_like_with, refill_like.
Qed.

Lemma reserve_pacing_like t n now : paced_like t (Path.try_reserve_pacing t n now).2.
Proof.
  unfold Path.try_reserve_pacing. pose proof (can_send_paced_like t n now) as Hl.
  destruct (Path.can_send_paced t n now) as [[] t']; [|done].
  destruct (pacing_enabled _); [by apply paced_like_with|done].
Qed.

Lemma on_path_pacer {B} i (g : PathState -> PathTransport -> B * PathTransport) e :
  (forall p, paced_like (transport p) (g p (transport p)).2) ->
  pacer_only i e (on_path i (fun p => with_transport (g p) p) e).2.
Proof.
  intros Hg. unfold on_path. destruct (get_path e i) as [p|] eqn:Hp; [|by left]. unfold with_transport.
  destruct (Hg p) as (a & b & c & dl & Heq). destruct (g p (transport p)) as [r t]. simpl in *. subst t.
  right. by exists p, a, b, c, dl.
Qed.

(** One step of a refused run, from a state that differs by the pacer only. *)
Lemma err_bind {A B} i (m : ep A) (k : A -> ep B) e0 e err e' :
  pacer_only i e0 e -> pacer_only i e (m e).2 -> (m ≫= k) e = (Err err, e') ->
  pacer_only i e0 e' \/
  exists a e1, m e = (Ok a, e1) /\ pacer_only i e0 e1 /\ k a e1 = (Err err, e').
Proof.
  intros He0 Hm. unfold mbind, method_bind. destruct (m e) as [[a|err'|] e1]; cbn [snd] in Hm.
  - intros Hk. right. exists a, e1. split; [done|]. split; [by etrans|done].
  - intros [= -> <-]. left. by etrans.
  - done.
Qed.

Lemma pacer_path i e e' p :
  pacer_only i e e' -> get_path e i = Some p ->
  exists p', get_path e' i = Some p' /\ path_congestion p' = path_congestion p.
Proof.
  intros [-> |(q & a & b & c & dl & Hq & ->)] Hp; [by eauto|]. rewrite get_upd_path by eauto.
  eexists. split; [done|]. rewrite Hp in Hq. by injection Hq as <-.
Qed.

Lemma pacer_orders i e e' : pacer_only i e e' -> orders e' = orders e.
Proof. intros [-> |(q & a & b & c & dl & Hq & ->)]; [done|]. by eapply orders_upd. Qed.

Lemma position_alter f id j (l : list SendStreamCredit) :
  (forall s, sc_id (f s) = sc_id s) -> position sc_id id (alter f j l) = position sc_id id l.
Proof.
  intros Hf. revert j. induction l as [|s l IH]; intros [|j]; try done.
  - change (alter f 0%nat (s :: l)) with (f s :: l). cbn [position]. by rewrite Hf.
  - change (alter f (S j) (s :: l)) with (s :: alter f j l). cbn [position]. by rewrite IH.
Qed.

(** A stream with a reservation can be finished. *)
Lemma reserve_then_finish s sid off n s' :
  Send.reserve s sid off n = Ok s' -> exists s'', Send.finish_stream s' sid = Ok s''.
Proof.
  unfold Send.reserve. destruct (negb _); [done|]. destruct (position _ _ _) as [j|] eqn:Hj; [|done].
  intros (st & _ & Hs)%bind_Ok. apply Ok_inj in Hs as <-. unfold Send.finish_stream, Send.update_stream.
  cbn [s_streams]. rewrite position_alter, Hj by done. simpl. eauto.
Qed.

(** From the send credit on, nothing is refused. *)
Lemma send_total i n e :
  orders_left e -> Transmit.path_can_send e i n = true ->
  exists order e1 e2, packet_sent_on i n e = (Ok true, e1) /\
    on_path i with_send_order e1 = (Ok order, e2) /\ e_send e2 = e_send e.
Proof.
  intros Hleft Hroom. unfold Transmit.path_can_send in Hroom.
  destruct (get_path e i) as [p|] eqn:Hp; [|done].
  unfold packet_sent_on, on_path at 1. rewrite Hp. unfold with_congestion, CC.on_packet_sent. rewrite Hroom.
  cbn [negb]. set (p1 := upd_congestion _ p).
  assert (orders_left (upd_path i (fun _ => p1) e)) as Hleft1.
  { unfold orders_left. by rewrite (orders_upd e i p p1). }
  assert (exists q, get_path (upd_path i (fun _ => p1) e) i = Some q) as Hq
    by (rewrite get_upd_path by eauto; eauto).
  destruct (send_order_result _ i Hleft1 Hq) as (order & e2 & Heq & _).
  exists order, (upd_path i (fun _ => p1) e), e2. split; [done|]. split; [done|].
  revert Heq. unfold on_path. destruct (get_path (upd_path _ _ _) i) as [q|]; [|done].
  destruct (with_send_order q). intros Heq. by simplify_eq.
Qed.

Lemma refuse_ok b err (e e' : EndpointState) u : refuse_if b err e = (Ok u, e') -> b = false /\ e' = e.
Proof. destruct b; unfold refuse_if, lift_res; simpl; [done|]. by intros [= _ <-]. Qed.

Lemma paced_on i n e : pacer_only i e (can_send_paced_on i n e).2.
Proof. apply on_path_pacer. intros p. apply can_send_paced_like. Qed.

Lemma reserved_on i n e : pacer_only i e (reserve_pacing_on i n e).2.
Proof. apply on_path_pacer. intros p. apply reserve_pacing_like. Qed.

(** Cuts a step that keeps all but the pacer off a refused run. *)
Ltac err_step Hrun He a e1 Hok He1 :=
  apply (err_bind _ _ _ _ _ _ _ He) in Hrun as [Hrun|(a & e1 & Hok & He1 & Hrun)];
    [exact Hrun| |first [apply paced_on|apply reserved_on|reflexivity]].

Lemma pacer_room i e e' n :
  pacer_only i e e' -> Transmit.path_can_send e' i n = Transmit.path_can_send e i n.
Proof.
  intros He. unfold Transmit.path_can_send. destruct (get_path e i) as [p|] eqn:Hp.
  - by destruct (pacer_path _ _ _ _ He Hp) as (p' & -> & ->).
  - destruct He as [-> |(p & a & b & c & dl & Hq & _)]; [by rewrite Hp|congruence].
Qed.

Section refusals.
Context `{Allocator, PacketSize, Features}.

(** The part of the method that runs once the send credit is reserved. *)
Lemma reserved_then_sent {A} i n sid (f : bool) e (rest : bool -> Z -> Z -> EndpointState -> EndpointState)
    (commit : Z -> EndpointState -> EndpointState) (count : EndpointState -> EndpointState) (r : Z -> A) err e' :
  orders_left e -> Transmit.path_can_send e i n = true ->
  (exists s, Send.finish_stream (e_send e) sid = Ok s) ->
  (forall b o pn x, e_send (rest b o pn x) = e_send x) ->
  (limited ← gets (fun e => Transmit.path_window_limited e i n);
   sent ← packet_sent_on i n;
   _ ← refuse_if (negb sent) Error.Blocked;
   order ← on_path i with_send_order;
   pn ← gets e_next_packet_number;
   _ ← modify (rest limited order pn);
   _ ← (if f then on_field_res e_send (fun s => Send.finish_stream s sid) else mret tt);
   _ ← modify (commit pn); _ ← modify count; mret (r pn)) e <> (Err err, e').
Proof.
  intros Hleft Hroom [s Hfin] Hrest. rewrite (bind_ok _ _ e _ e) by done.
  destruct (send_total i n e Hleft Hroom) as (order & e1 & e2 & H1' & H2' & Hs).
  rewrite (bind_ok _ _ _ _ _ H1'). cbn [negb]. rewrite (bind_ok _ _ e1 tt e1) by done.
  rewrite (bind_ok _ _ _ _ _ H2'), (bind_ok _ _ e2 (e_next_packet_number e2) e2) by done.
  erewrite (bind_ok (modify _)) by done. set (e3 := rest _ _ _ _).
  assert (e_send e3 = e_send e) as Hs3 by (unfold e3; by rewrite Hrest).
  destruct f; [|done]. unfold on_field_res, mbind, method_bind. by rewrite Hs3, Hfin.
Qed.

(** A refused stream packet leaves the endpoint as it was, except for the
    pacer of the path: no credit, flight, send order, packet number, record,
    retained bytes or statistic changes on any error. *)
Theorem refused_stream_packet e i d sid off f data cap retain err e' :
  orders_left e ->
  Transmit.encode_stream_packet_on_path_inner i d sid off f data cap retain e = (Err err, e') ->
  pacer_only i e e'.
Proof.
  intros Hleft Hrun. unfold Transmit.encode_stream_packet_on_path_inner in Hrun.
  assert (pacer_only i e e) as He by done.
  err_step Hrun He pc e1 Hok1 He1. destruct pc as [packet control].
  err_step Hrun He1 rk e2 Hok2 He2. destruct rk as [rs k].
  err_step Hrun He2 room e3 Hroom He3. injection Hroom as <- <-.
  err_step Hrun He2 u4 e4 Hok4 He4. apply refuse_ok in Hok4 as [Hroom%negb_false_iff ->].
  err_step Hrun He2 u5 e5 Hok5 He5. err_step Hrun He5 u6 e6 Hok6 He6. err_step Hrun He6 u7 e7 Hok7 He7.
  err_step Hrun He7 next e8 Hok8 He8. err_step Hrun He8 u9 e9 Hok9 He9. err_step Hrun He9 u10 e10 Hok10 He10.
  rewrite (pacer_room _ _ _ _ He2), <- (pacer_room _ _ _ _ He10) in Hroom.
  unfold mbind at 1, method_bind, on_field_res at 1 in Hrun.
  destruct (Send.reserve (e_send e10) sid off (zlen data)) as [s|err'|] eqn:Hs;
    [|injection Hrun as _ <-; exact He10|done].
  exfalso. revert Hrun. apply reserved_then_sent.
  - change (orders_left e10). unfold orders_left. by rewrite (pacer_orders _ _ _ He10).
  - exact Hroom.
  - get_set. by eapply reserve_then_finish.
  - done.
Qed.
End refusals.

(** ** Concrete calls *)
Section examples.
#[local] Existing Instance LedgerSteps.plenty.
#[local] Existing Instance LedgerSteps.big_packets.
#[local] Existing Instance LedgerSteps.no_protection.

Definition sent_packet : bytes := match (send 0 client).1 with Ok (b, _) => b | _ => [] end.

Lemma stream_packet_delivered_witness :
  zlen sent_packet = 108 /\ exists fl, first_frame sent_packet 0 =
    Ok (mkShortHeader fl 9 0 1, Stream (mkStreamFrame 4 0 false (replicate 100 0x2a))).
Proof.
  split; [by vm_compute|].
  destruct (stream_packet_delivered client 0 9 4 0 false (replicate 100 0x2a) 1100 true sent_packet 0 sent_one 0)
    as (_ & _ & Hd); [by vm_compute..|exact Hd].
Defined.

(** A stream the endpoint has not opened. *)
Lemma refused_stream_packet_witness :
  let run := Transmit.encode_stream_packet_on_path_inner 0 9 8 0 false [1; 2; 3] 1100 true client in
  run.1 = Err Error.FlowControl /\ run.2 <> client /\ pacer_only 0 client run.2.
Proof.
  cbv zeta. split; [by vm_compute|]. split.
  - intros Heq. apply (f_equal (fun e => pacing_packet_tokens_q16 (transport (default (PathOps.new 0)
      (e_paths e !! 0%nat))))) in Heq. vm_compute in Heq. done.
  - apply (refused_stream_packet client 0 9 8 0 false [1; 2; 3] 1100 true Error.FlowControl).
    + apply orders_left_bool. by vm_compute.
    + by vm_compute.
Defined.
End examples.
