(* ===== verification/Receive.v ===== *)
(** * The receive path

    The methods of [EndpointState] ([src/crates/quic-lite/src/lib.rs]) that take
    packets in: [observe_packet_on_path] (received numbers, ordering statistics),
    [receive_packet_batch_on_path_inner] (header, duplicate and floor tests, the
    frame loop, ACK and credit processing, stream admission),
    [commit_stream_packet_receive], the credit and ACK packets of bearers that
    handle one packet at a time, and [validate_packet].  The [while] loops over
    the frames of a packet are one fixpoint, [walk_frames], whose fuel is one
    more than the length of the packet: every frame consumes a byte.  A packet
    is a byte list and the borrowed payloads of its streams are byte lists too.
    The statistics are incremented without their 64-bit bound.
    [commit_stream_packet_receive] indexes the paths with a number its callers
    have checked; the model panics on any other. *)

From S2P Require Import Prelude Records Methods Wire PacketHeader Keyed AckRanges Reader Frames FlowControl Congestion PathState SendBuffer Endpoint Credit Ledger.

(** [TransportFrames]: the used part of the array of streams. *)
Record TransportFrames : Type := mkTransportFrames {
  tf_header : ShortHeader;
  tf_streams : list (option StreamFrame);
  tf_duplicate : bool;
}.

Definition MAX_PACKET_STREAMS : Z := 8.
Definition PROTOCOL_VIOLATION : Z := 0x0a.

(** What the frame loop collects before anything is applied. *)
Record Parsed : Type := mkParsed {
  pa_streams : list StreamFrame;
  pa_has_ack : bool;
  pa_acknowledged : AckRanges;
  pa_ack_delay : Z;
  pa_has_flow_control : bool;
  pa_ack_eliciting : bool;
  pa_path_status : bool;
  pa_ack_frequency : option (Z * Z * Z * Z);
  pa_close_code : option Z;
}.

#[export] Instance eta_Parsed : Eta Parsed := ltac:(mk_eta).
#[export] Instance set_pa_streams : Setter pa_streams := ltac:(mk_setter).
#[export] Instance set_pa_has_ack : Setter pa_has_ack := ltac:(mk_setter).
#[export] Instance set_pa_acknowledged : Setter pa_acknowledged := ltac:(mk_setter).
#[export] Instance set_pa_ack_delay : Setter pa_ack_delay := ltac:(mk_setter).
#[export] Instance set_pa_has_flow_control : Setter pa_has_flow_control := ltac:(mk_setter).
#[export] Instance set_pa_ack_eliciting : Setter pa_ack_eliciting := ltac:(mk_setter).
#[export] Instance set_pa_path_status : Setter pa_path_status := ltac:(mk_setter).
#[export] Instance set_pa_ack_frequency : Setter pa_ack_frequency := ltac:(mk_setter).
#[export] Instance set_pa_close_code : Setter pa_close_code := ltac:(mk_setter).

Definition nothing_parsed : Parsed := mkParsed [] false Ranges.new 0 false false false None None.

Module Receive.
Section receive.
Context `{Allocator, PacketSize, Features}.

(** *** Received packet numbers *)
Definition count_order (pn : Z) (highest : option Z) (t : TransportStats) : TransportStats :=
  match highest with
  | None => t
  | Some highest =>
      let next := Z.min (highest + 1) U32_MAX in
      if pn <? next then t <| t_out_of_order_packets ::= Z.succ |>
      else if next <? pn then t <| t_inferred_missing_packets ::= fun n => n + (pn - next) |>
      else t
  end.

Definition count_interval (now : Z) (previous : option Z) (t : TransportStats) : TransportStats :=
  match previous with
  | None => t
  | Some previous =>
      let delta := sat_sub now previous in
      let t := t <| t_receive_interpacket_samples ::= Z.succ |>
                 <| t_receive_interpacket_total ::= Z.add delta |> in
      let t := t <| t_receive_interpacket_min ::= fun m =>
                      if t_receive_interpacket_samples t =? 1 then delta else Z.min m delta |> in
      t <| t_receive_interpacket_max ::= Z.max delta |>
  end.

Definition is_newer (pn : Z) (highest : option Z) : bool :=
  match highest with Some highest => highest <? pn | None => true end.

Definition max_option (highest : option Z) (pn : Z) : option Z :=
  Some (match highest with Some highest => Z.max highest pn | None => pn end).

(** The block for a packet number not yet in the received ranges. *)
Definition note_new_packet (pn : Z) (i : nat) (now : Z) (e : EndpointState) : EndpointState :=
  let previous_highest := e_highest_received_packet e in
  let e := upd_stats (count_order pn previous_highest) e in
  let e := e <| e_highest_received_packet ::= fun highest => max_option highest pn |> in
  let e := upd_path i (fun p =>
             let newer := is_newer pn (largest_received_packet p) in
             let p := p <| largest_received_packet ::= fun highest => max_option highest pn |> in
             if newer then p <| largest_received_at := path_clock p |> else p) e in
  let e := if is_newer pn previous_highest then e <| e_largest_received_at := now |> else e in
  upd_stats (count_interval now (e_last_receive_time e)) e <| e_last_receive_time := Some now |>.

Definition observe_packet_on_path (pn : Z) (i : nat) (e : EndpointState) : EndpointState :=
  match get_path e i with
  | None => e
  | Some p =>
      if pn <? e_receive_packet_floor e then e else
      let e := if Ranges.contains (e_received_packets e) pn then e
               else note_new_packet pn i (path_clock p) e in
      let '(ranges, dropped) := Ranges.insert ACK_RANGE_CAPACITY (e_received_packets e) pn in
      let e := e <| e_received_packets := ranges |> in
      if dropped
      then upd_path i (fun p => p <| ack_ranges_dropped ::= fun n => sat_add n 1 |>)
             (upd_stats (fun t => t <| t_ack_ranges_dropped ::= fun n => sat_add n 1 |>) e)
      else e
  end.

Definition reordering (pn highest : Z) : Z :=
  if highest <? pn then sat_sub pn (Z.min (highest + 1) U32_MAX)
  else Z.min (sat_sub highest pn + 1) U32_MAX.

Definition commit_stream_packet_receive (pn : Z) (i : nat) (e : EndpointState) : EndpointState :=
  let e :=
    match e_highest_received_packet e with
    | Some highest =>
        if negb (e_ack_reordering_threshold e =? 0)
           && (e_ack_reordering_threshold e <=? reordering pn highest)
        then upd_path i (fun p => p <| ack_immediate := true |>) (e <| e_control_pending := true |>)
        else e
    | None => e
    end in
  Credit.schedule_ack i false (observe_packet_on_path pn i e).

(** *** The loop over the frames of a packet *)
Fixpoint walk_frames {A} (step : Frame -> Z -> A -> ep A) (fuel : nat) (input : bytes) (offset : Z)
    (acc : A) : ep (A * Z) :=
  match fuel with
  | O => lift_res Panic
  | S fuel' =>
      if zlen input <=? offset then mret (acc, offset) else
      rest ← lift_res (slice_from input offset);
      '(frame, used) ← lift_res (decode_frame rest);
      _ ← refuse_if (used =? 0) Error.Invalid;
      acc ← step frame used acc;
      walk_frames step fuel' input (offset + used) acc
  end.

Definition walk {A} (step : Frame -> Z -> A -> ep A) (input : bytes) (offset : Z) (acc : A) : ep (A * Z) :=
  walk_frames step (S (length input)) input offset acc.

Definition validate_packet (input : bytes) : ep unit :=
  prefix ← lift_res (decode_prefix input);
  let offset := header_len prefix in
  _ ← refuse_if (offset =? zlen input) Error.Truncated;
  '(_, offset) ← walk (fun _ _ _ => mret tt) input offset tt;
  refuse_if (negb (offset =? zlen input)) Error.Invalid.

(** *** Credit from the peer *)
Definition receive_credit_frame (f : Frame) : ep unit :=
  match f with
  | MaxData max => modify (fun e => e <| e_send ::= fun s => Send.extend_connection s max |>)
  | MaxStreamData id max =>
      retired ← gets (fun e => Conn.is_retired (e_receive e) id);
      if retired : bool then mret tt else on_field_res e_send (fun s => Send.extend_stream s id max)
  | MaxStreamsBidi max => modify (fun e => e <| e_peer_max_streams_bidi ::= Z.max max |>)
  | MaxStreamsUni max => modify (fun e => e <| e_peer_max_streams_uni ::= Z.max max |>)
  | _ => mret tt
  end.

Definition receive_flow_control_packet (input : bytes) : ep unit :=
  '(_, offset) ← lift_res (short_decode input);
  _ ← walk (fun f _ _ => receive_credit_frame f) input offset tt;
  mret tt.

Definition acknowledge_frame (f : Frame) (acknowledged : AckRanges) (delay : Z) : AckRanges * Z :=
  match f with
  | Ack largest d => ((Ranges.insert ACK_RANGE_CAPACITY acknowledged largest).1, d)
  | AckRangesF _ d ranges =>
      (fold_left (fun l r => (Ranges.insert_range ACK_RANGE_CAPACITY l r).1) ranges acknowledged, d)
  | _ => (acknowledged, delay)
  end.

Definition receive_ack_packet_on_path (input : bytes) (ingress : nat) : ep unit :=
  '(_, offset) ← lift_res (short_decode input);
  '((acknowledged, delay), _) ←
    walk (fun f _ '(acknowledged, delay) =>
            _ ← receive_credit_frame f; mret (acknowledge_frame f acknowledged delay))
      input offset (Ranges.new, 0);
  Ledger.apply_ack_ranges_on_path acknowledged delay ingress.

(** *** One packet *)
Definition eliciting (r : Parsed) : Parsed := r <| pa_ack_eliciting := true |>.

(** One turn of the frame loop. *)
Definition parse_frame (f : Frame) (used : Z) (r : Parsed) : ep Parsed :=
  match f with
  | Ack _ _ | AckRangesF _ _ _ =>
      let '(acknowledged, delay) := acknowledge_frame f (pa_acknowledged r) (pa_ack_delay r) in
      mret (r <| pa_has_ack := true |> <| pa_acknowledged := acknowledged |> <| pa_ack_delay := delay |>)
  | MaxData _ | MaxStreamData _ _ => mret (eliciting (r <| pa_has_flow_control := true |>))
  | MaxStreamsBidi _ | MaxStreamsUni _ => mret (r <| pa_has_flow_control := true |>)
  | Ping | PathJoin _ _ _ _ | PathJoinAck _ _ _ | PathChallenge _ | PathResponse _ => mret (eliciting r)
  | PathStatus _ _ _ => mret (eliciting (r <| pa_path_status := true |>))
  | AckFrequency sequence packet_threshold max_ack_delay_us reordering_threshold =>
      _ ← refuse_if (bool_decide (pa_ack_frequency r <> None)) Error.Invalid;
      mret (eliciting (r <| pa_ack_frequency :=
              Some (sequence, packet_threshold, max_ack_delay_us, reordering_threshold) |>))
  | Stream value =>
      _ ← refuse_if (MAX_PACKET_STREAMS <=? zlen (pa_streams r)) Error.Invalid;
      mret (eliciting (r <| pa_streams ::= fun l => l ++ [value] |>))
  | Datagram _ _ =>
      limit ← gets (fun e => max_datagram_frame_size (limits (e_receive e)));
      if (limit =? 0) || (limit <? used) then
        _ ← modify (fun e => e <| e_close_code := Some PROTOCOL_VIOLATION |>
                               <| e_control_pending := true |>);
        raise Error.Invalid
      else mret (eliciting r)
  | Close code =>
      _ ← refuse_if (bool_decide (pa_close_code r <> None)) Error.Invalid;
      mret (r <| pa_close_code := Some code |>)
  | Padding => mret r
  end.

(** The loop and the tests after it. *)
Definition parse_packet (input : bytes) (offset : Z) : ep Parsed :=
  '(r, offset) ← walk parse_frame input offset nothing_parsed;
  _ ← refuse_if (negb (offset =? zlen input)) Error.Invalid;
  _ ← refuse_if (bool_decide (pa_close_code r <> None) && negb (zlen (pa_streams r) =? 0)) Error.Invalid;
  mret r.

Definition close_with (code : Z) (e : EndpointState) : EndpointState :=
  e <| e_close_code := Some code |> <| e_control_pending := true |>.

(** ACK, credit, ACK policy and CLOSE of the packet. *)
Definition apply_control (input : bytes) (ingress : nat) (r : Parsed) : ep unit :=
  _ ← (if pa_has_flow_control r then receive_flow_control_packet input else mret tt);
  _ ← (if pa_has_ack r
       then Ledger.apply_ack_ranges_on_path (pa_acknowledged r) (pa_ack_delay r) ingress else mret tt);
  _ ← match pa_ack_frequency r with
      | Some (sequence, packet_threshold, max_ack_delay_us, reordering_threshold) =>
          Ep.apply_ack_frequency sequence packet_threshold max_ack_delay_us reordering_threshold
      | None => mret tt
      end;
  modify (fun e => match pa_close_code r with Some code => close_with code e | None => e end).

Definition accept_stream (f : StreamFrame) : ep unit :=
  on_field e_receive (fun c => Conn.accept c (s_id f) (s_offset f) (zlen (s_data f)) (s_fin f)).

(** Streams that are already retired are dropped. *)
Definition live_streams (e : EndpointState) (l : list StreamFrame) : list (option StreamFrame) :=
  map (fun f => if Conn.is_retired (e_receive e) (s_id f) then None else Some f) l.

Definition flatten {A} (l : list (option A)) : list A := omap id l.

(** Admission of the streams of a new packet. *)
Definition accept_streams (header : ShortHeader) (ingress : nat) (defer_stream_ack : bool)
    (streams : list StreamFrame) : ep TransportFrames :=
  live ← gets (fun e => live_streams e streams);
  _ ← for_each (flatten live) accept_stream;
  _ ← modify (fun e => fold_left (fun e f =>
        if s_fin f then Credit.try_retire_stream (s_id f) e else e) (flatten live) e);
  _ ← (if defer_stream_ack : bool then mret tt
       else modify (commit_stream_packet_receive (packet_number header) ingress));
  _ ← modify (upd_stats (fun t => t <| t_stream_packets ::= Z.succ |>));
  mret (mkTransportFrames header live false).

Definition receive_duplicate (header : ShortHeader) (ingress : nat) : ep TransportFrames :=
  _ ← modify (fun e => upd_stats (fun t => t <| t_duplicate_packets ::= Z.succ |>
                                             <| t_control_packets ::= Z.succ |>)
                         (Credit.schedule_ack ingress true (e <| e_control_pending := true |>)));
  mret (mkTransportFrames header [] true).

Definition receive_control (header : ShortHeader) (ingress : nat) (r : Parsed) : ep TransportFrames :=
  _ ← modify (fun e =>
        let e := upd_stats (fun t => t <| t_control_packets ::= Z.succ |>)
                   (observe_packet_on_path (packet_number header) ingress e) in
        if pa_ack_eliciting r || bool_decide (pa_close_code r <> None)
        then Credit.schedule_ack ingress (bool_decide (pa_close_code r <> None) || pa_path_status r) e
        else e);
  mret (mkTransportFrames header [] false).

Definition receive_packet_batch_on_path_inner (input : bytes) (ingress : nat)
    (protection_opened defer_stream_ack : bool) : ep TransportFrames :=
  paths ← gets (fun e => length (e_paths e));
  _ ← refuse_if (paths <=? ingress)%nat Error.PathLimit;
  closed ← gets (fun e => bool_decide (e_close_code e <> None));
  _ ← refuse_if closed Error.Invalid;
  expected ← gets Ep.expected_packet_number;
  '(header, header_len) ← lift_res (decode_with_expected input expected);
  _ ← refuse_if (protection_opened || negb (Z.land (flags header) FLAG_KEY_PHASE =? 0)) Error.Invalid;
  duplicate ← gets (fun e => Ranges.contains (e_received_packets e) (packet_number header));
  local ← gets_res (fun e => ok_or (Ep.local_connection_id_on_path e ingress) Error.WrongConnectionId);
  _ ← refuse_if (negb (dcid header =? local)) Error.WrongConnectionId;
  below ← gets (fun e => packet_number header <? e_receive_packet_floor e);
  if below : bool then mret (mkTransportFrames header [] true) else
  _ ← refuse_if (header_len =? zlen input) Error.Truncated;
  r ← parse_packet input header_len;
  _ ← apply_control input ingress r;
  _ ← modify (upd_stats (fun t => t <| t_received_packets ::= Z.succ |>));
  if duplicate : bool then receive_duplicate header ingress
  else match pa_streams r with
       | [] => receive_control header ingress r
       | streams => accept_streams header ingress defer_stream_ack streams
       end.

Definition receive_packet_batch_on_path (input : bytes) (ingress : nat) : ep TransportFrames :=
  receive_packet_batch_on_path_inner input ingress false false.

Definition receive_packet_before_stream_delivery (input : bytes) (ingress : nat) : ep TransportFrames :=
  receive_packet_batch_on_path_inner input ingress false true.

(** [TransportFrame]: the first stream, or [None] for [Control]. *)
Definition receive_packet_on_path (input : bytes) (ingress : nat) : ep (option (ShortHeader * StreamFrame)) :=
  packet ← receive_packet_batch_on_path input ingress;
  mret (match flatten (tf_streams packet) with
        | f :: _ => Some (tf_header packet, f)
        | [] => None
        end).

Definition receive_stream_packet (input : bytes) : ep (ShortHeader * StreamFrame) :=
  expected ← gets Ep.expected_packet_number;
  '(header, header_len) ← lift_res (decode_with_expected input expected);
  local ← gets_res (fun e => ok_or (Ep.local_connection_id_on_path e 0) Error.WrongConnectionId);
  _ ← refuse_if (negb (dcid header =? local)) Error.WrongConnectionId;
  below ← gets (fun e => packet_number header <? e_receive_packet_floor e);
  _ ← refuse_if below Error.Invalid;
  rest ← lift_res (slice_from input header_len);
  '(frame, _) ← lift_res (decode_frame rest);
  match frame with
  | Stream stream =>
      _ ← accept_stream stream;
      _ ← modify (fun e => Credit.schedule_application_ack 0 false
                             (observe_packet_on_path (packet_number header) 0 e));
      mret (header, stream)
  | _ => raise Error.Invalid
  end.
End receive.
End Receive.
