(* ===== verification/ReceiveLoop.v ===== *)
(** * The frame loop of the receive path

    What [walk_frames] of [Receive.v] computes: with its fuel it always reaches
    the end of the packet or the first undecodable byte, and equals one fold of
    the loop body over the frames of the packet.  From this follow the exactness
    of [validate_packet] and that a malformed packet has no effect. *)

From S2P Require Import Prelude Records Methods Wire PacketHeader Keyed AckRanges Reader Frames FlowControl Congestion PathState SendBuffer Endpoint Credit Ledger Receive.

(** The frames at the start of [s] with their lengths, and the error that stops
    them, if any. *)
Inductive framed : bytes -> list (Frame * Z) -> option Error.t -> Prop :=
  | framed_end : framed [] [] None
  | framed_err s err : s <> [] -> decode_frame s = Err err -> framed s [] (Some err)
  | framed_cons s f used l o :
      decode_frame s = Ok (f, used) -> 0 < used <= zlen s -> framed (drop (Z.to_nat used) s) l o ->
      framed s ((f, used) :: l) o.

Lemma framed_total s : bytes_ok s -> exists l o, framed s l o.
Proof.
  induction s as [s IH] using (induction_ltof1 _ (@length Z)). unfold ltof in IH. intros Hok.
  destruct s as [|b s']; [exists [], None; constructor|]. set (s := b :: s') in *.
  pose proof (decode_frame_safe s Hok) as Hs. destruct (decode_frame s) as [[f used]|err|] eqn:Hd; [| |done].
  - destruct Hs as (Hu & _). destruct (IH (drop (Z.to_nat used) s)) as (l & o & Hl).
    { rewrite length_drop. unfold zlen in Hu. lia. }
    { by apply bytes_ok_drop. }
    exists ((f, used) :: l), o. by econstructor.
  - exists [], (Some err). by constructor.
Qed.

Lemma framed_frames s l o l' : framed s l o -> frames_of s l' <-> o = None /\ l' = fst <$> l.
Proof.
  intros H. revert l'. induction H as [|s err Hne Hd|s f used l o Hd Hu Hl IH]; intros l'.
  - split; [by intros ->%frames_of_nil_inv|intros [_ ->]; constructor].
  - split; [|by intros []]. intros Hf. exfalso. apply (frames_of_err s l'); [by rewrite Hd|done..].
  - rewrite (frames_of_step _ _ _ _ Hd). setoid_rewrite IH. csimpl. split.
    + by intros (? & -> & -> & ->).
    + intros [-> ->]. eauto.
Qed.

Section loop.
Context `{Allocator, PacketSize, Features} {A : Type} (step : Frame -> Z -> A -> ep A).

Fixpoint fold_frames (l : list (Frame * Z)) (acc : A) : ep A :=
  match l with
  | [] => mret acc
  | (f, used) :: l' => step f used acc ≫= fold_frames l'
  end.

Definition stop (input : bytes) (o : option Error.t) (acc : A) : ep (A * Z) :=
  match o with None => mret (acc, zlen input) | Some err => lift_res (Err err) end.

Lemma bind_assoc_at {B C D} (m : ep B) (k : B -> ep C) (k' : C -> ep D) e :
  ((m ≫= k) ≫= k') e = (m ≫= fun b => k b ≫= k') e.
Proof. rewrite !bind_unfold. by destruct (m e) as [[]]. Qed.

Lemma bind_ext_at {B C} (m : ep B) (k k' : B -> ep C) e :
  (forall b e', k b e' = k' b e') -> (m ≫= k) e = (m ≫= k') e.
Proof. intros Hk. rewrite !bind_unfold. destruct (m e) as [[]]; auto. Qed.

Lemma bind_lift_ok {B C} (b : B) (k : B -> ep C) e : (lift_res (Ok b) ≫= k) e = k b e.
Proof. done. Qed.

Lemma walk_framed input l o : bytes_ok input -> forall fuel off acc e,
  0 <= off <= zlen input -> zlen input - off < Z.of_nat fuel ->
  framed (drop (Z.to_nat off) input) l o ->
  Receive.walk_frames step fuel input off acc e = (fold_frames l acc ≫= stop input o) e.
Proof.
  intros Hok. induction l as [|[f used] l IH]; intros fuel off acc e Hoff Hfuel Hl;
    (destruct fuel as [|fuel]; [lia|]); cbn [Receive.walk_frames fold_frames].
  - inversion Hl as [Hn|? err Hne Hd|]; subst.
    + assert (zlen input = off) as <-.
      { symmetry in Hn. apply (f_equal zlen) in Hn. rewrite zlen_drop, zlen_nil in Hn by lia. lia. }
      by rewrite Z.leb_refl.
    + destruct (packet_step input off Hok Hoff) as [[_ Hn]|(-> & -> & _ & _)]; [done|].
      rewrite bind_lift_ok, Hd. done.
  - inversion Hl as [| |? ? ? ? ? Hd Hu Hrest]; subst.
    destruct (packet_step input off Hok Hoff) as [[_ Hn]|(-> & -> & _ & Hs)].
    { apply (f_equal zlen) in Hn. unfold zlen in *. simpl in Hn. lia. }
    rewrite bind_lift_ok, Hd. rewrite bind_lift_ok. unfold refuse_if.
    destruct Hs as [[err He]|(g & u & Hd' & Hu' & Hle & Hdr)]; [by rewrite Hd in He|].
    rewrite Hd in Hd'. injection Hd' as <- <-. rewrite (proj2 (Z.eqb_neq used 0)) by lia.
    cbn [guard_err]. rewrite bind_lift_ok, bind_assoc_at. apply bind_ext_at. intros acc' e'.
    apply IH; [lia|lia|]. by rewrite <- Hdr.
Qed.

Lemma walk_spec input off acc e l o :
  bytes_ok input -> 0 <= off <= zlen input -> framed (drop (Z.to_nat off) input) l o ->
  Receive.walk step input off acc e = (fold_frames l acc ≫= stop input o) e.
Proof. intros Hok Hoff Hl. apply walk_framed; try done. unfold zlen. lia. Qed.
End loop.

Section properties.
Context `{Allocator, PacketSize, Features}.

Lemma fold_unit l e : fold_frames (fun _ _ _ => mret tt) l tt e = (Ok tt, e).
Proof. by induction l as [|[f used] l IH]. Qed.

Lemma prefix_len input p : bytes_ok input -> decode_prefix input = Ok p -> 0 <= header_len p <= zlen input.
Proof.
  intros Hok Hp. destruct (decode_prefix_Ok _ _ Hok Hp) as (b0 & cid & pnb & body & -> & _ & _ & _ & _ & _ & ->).
  simpl. zlia.
Qed.

(** [validate_packet] terminates on every input, touches no state, and
    accepts exactly the packets whose header decodes and whose remaining bytes
    are one or more frames, back to back, to the end. *)
Theorem validate_packet_exact input e :
  bytes_ok input ->
  exists r, Receive.validate_packet input e = (r, e) /\ r <> Panic /\
    (r = Ok tt <->
     exists p l, decode_prefix input = Ok p /\ l <> [] /\ frames_of (drop (Z.to_nat (header_len p)) input) l).
Proof.
  intros Hok. unfold Receive.validate_packet. pose proof (decode_prefix_not_Panic input Hok) as Hnp.
  rewrite bind_unfold. unfold lift_res at 1. destruct (decode_prefix input) as [p|err|] eqn:Hp; [| |done].
  2:{ exists (Err err). split; [done|]. split; [done|]. split; [done|]. by intros (q & l & Hq & _). }
  cbv zeta. pose proof (prefix_len input p Hok Hp) as Hlen. unfold refuse_if.
  destruct (framed_total (drop (Z.to_nat (header_len p)) input)) as (l & o & Hl); [by apply bytes_ok_drop|].
  assert ((exists q l', Ok p = Ok (E:=Error.t) q /\ l' <> [] /\ frames_of (drop (Z.to_nat (header_len q)) input) l') <->
          o = None /\ l <> []) as Hiff.
  { split.
    - intros (q & l' & Hq & Hne & Hf). apply Ok_inj in Hq. subst q.
      apply (framed_frames _ _ _ _ Hl) in Hf as [-> ->]. split; [done|]. by intros ->.
    - intros [-> Hne]. exists p, (fst <$> l). split; [done|]. split; [by destruct l|].
      by apply (framed_frames _ _ _ _ Hl). }
  setoid_rewrite Hiff. clear Hiff.
  destruct (Z.eqb_spec (header_len p) (zlen input)) as [Heq|Hne]; cbn [guard_err].
  - exists (Err Error.Truncated). split; [done|]. split; [done|]. split; [done|]. intros [_ Hne].
    rewrite Heq, to_nat_zlen, drop_all in Hl. by inversion Hl.
  - rewrite bind_lift_ok, bind_unfold, (walk_spec _ _ _ _ _ _ _ Hok Hlen Hl), bind_unfold.
    rewrite fold_unit. unfold stop. destruct o as [err|].
    { exists (Err err). split; [done|]. split; [done|]. split; [done|]. by intros []. }
    exists (Ok tt). unfold mret, method_ret. rewrite Z.eqb_refl. split; [done|]. split; [done|]. split; [|done].
    intros _. split; [done|]. intros ->.
    inversion Hl as [Hn| |]. apply (f_equal zlen) in Hn. unfold zlen in *. rewrite length_drop in Hn. simpl in Hn. lia.
Qed.

(** *** A malformed packet *)
Definition refusal (r : res Parsed) (e : EndpointState) (run : res Parsed * EndpointState) : Prop :=
  run = (r, e) \/ r = Err Error.Invalid /\ run = (r, Receive.close_with PROTOCOL_VIOLATION e).

Lemma parse_frame_refusal f used r e : exists r',
  r' <> Panic /\ refusal r' e (Receive.parse_frame f used r e).
Proof.
  destruct f; cbn [Receive.parse_frame];
    try (by destruct (Receive.acknowledge_frame _ _ _); eexists; split; [|by left]);
    try (by eexists; split; [|by left]); unfold refuse_if.
  - destruct (bool_decide _); (eexists; split; [|by left]); done.
  - destruct (_ <=? _); (eexists; split; [|by left]); done.
  - rewrite bind_gets. cbv beta. destruct (_ || _); (eexists; split; [|first [by left|by right]]); done.
  - destruct (bool_decide _); (eexists; split; [|by left]); done.
Qed.

Lemma fold_frames_refusal l r e : exists r',
  r' <> Panic /\ refusal r' e (fold_frames Receive.parse_frame l r e).
Proof.
  revert r. induction l as [|[f used] l IH]; intros r; [eexists; split; [|by left]; done|].
  cbn [fold_frames]. rewrite bind_unfold.
  destruct (parse_frame_refusal f used r e) as (r' & Hnp & [-> | [-> ->]]).
  - destruct r' as [r'|err|]; [apply IH|eexists; split; [|by left]; done|done].
  - eexists. split; [|by right]. done.
Qed.

Lemma parse_packet_refusal input off e :
  bytes_ok input -> 0 <= off <= zlen input -> exists r,
    r <> Panic /\ refusal r e (Receive.parse_packet input off e) /\
    (is_ok r = true -> exists l, frames_of (drop (Z.to_nat off) input) l).
Proof.
  intros Hok Hoff. unfold Receive.parse_packet.
  destruct (framed_total (drop (Z.to_nat off) input)) as (l & o & Hl); [by apply bytes_ok_drop|].
  rewrite bind_unfold, (walk_spec _ _ _ _ _ _ _ Hok Hoff Hl), bind_unfold.
  destruct (fold_frames_refusal l nothing_parsed e) as (r & Hnp & [-> | [-> ->]]).
  2:{ eexists. split; [|split; [by right|]]; done. }
  destruct r as [r|err|]; [|eexists; split; [|split; [by left|]]; done|done].
  destruct o as [err|]; [eexists; split; [|split; [by left|]]; done|].
  unfold stop, mret, method_ret, refuse_if. rewrite Z.eqb_refl. cbn [negb guard_err]. rewrite bind_lift_ok.
  rewrite bind_unfold. unfold lift_res.
  destruct (_ && _); cbn [guard_err]; (eexists; split; [|split; [by left|]]); [done..|].
  intros _. exists (fst <$> l). by apply (framed_frames _ _ _ _ Hl).
Qed.

(** A packet as [validate_packet] accepts it. *)
Definition well_formed (input : bytes) : Prop :=
  exists p l, decode_prefix input = Ok p /\ l <> [] /\ frames_of (drop (Z.to_nat (header_len p)) input) l.

Lemma expected_prefix input expected h n :
  decode_with_expected input expected = Ok (h, n) -> exists p, decode_prefix input = Ok p /\ n = header_len p.
Proof.
  unfold decode_with_expected. destruct (decode_prefix input) as [p| |]; [|done..]. cbn [mbind outcome_bind].
  destruct (reconstruct p expected); [|done..]. cbn [mbind outcome_bind]. intros [= _ <-]. eauto.
Qed.

(** C40: A malformed packet has no effect.  When the header does not decode, or
    the rest is not one or more frames to the end of the packet, the receive
    path returns an error, or reports a duplicate for a number below the
    receive floor; it delivers no stream, and the endpoint is as before, apart
    from the close with PROTOCOL_VIOLATION that a DATAGRAM over the limit before
    the malformed byte sets off. *)
Theorem malformed_packet_refused input ingress opened defer e :
  bytes_ok input -> ~ well_formed input ->
  exists r e',
    Receive.receive_packet_batch_on_path_inner input ingress opened defer e = (r, e') /\ r <> Panic /\
    (forall t, r = Ok t -> tf_streams t = [] /\ tf_duplicate t = true) /\
    (e' = e \/ r = Err Error.Invalid /\ e' = Receive.close_with PROTOCOL_VIOLATION e).
Proof.
  intros Hok Hbad. unfold Receive.receive_packet_batch_on_path_inner.
  assert (forall r : res TransportFrames, r <> Panic ->
    (forall t, r = Ok t -> tf_streams t = [] /\ tf_duplicate t = true) -> exists r0 e', (r, e) = (r0, e') /\ r0 <> Panic /\
    (forall t, r0 = Ok t -> tf_streams t = [] /\ tf_duplicate t = true) /\
    (e' = e \/ r0 = Err Error.Invalid /\ e' = Receive.close_with PROTOCOL_VIOLATION e)) as Hsame.
  { intros r Hnp Hr. exists r, e. split_and!; auto. }
  rewrite bind_gets, bind_refuse. destruct (_ <=? _)%nat; [by apply Hsame|].
  rewrite bind_gets, bind_refuse. destruct (bool_decide _); [by apply Hsame|].
  rewrite bind_gets, bind_lift. destruct (decode_with_expected _ _) as [[h n]|err|] eqn:Hh; [|by apply Hsame|].
  2:{ exfalso. revert Hh. unfold decode_with_expected. pose proof (decode_prefix_not_Panic input Hok).
      destruct (decode_prefix input) as [p| |]; [|done..]. cbn [mbind outcome_bind].
      pose proof (reconstruct_not_Panic p (Ep.expected_packet_number e)). by destruct (reconstruct p _). }
  apply expected_prefix in Hh as (p & Hp & ->). pose proof (prefix_len input p Hok Hp) as Hlen.
  rewrite bind_refuse. destruct (_ || _); [by apply Hsame|]. rewrite bind_gets, bind_gets_res.
  destruct (ok_or _ _) as [local|err|] eqn:Hl; [|by apply Hsame|by unfold ok_or in Hl; destruct (Ep.local_connection_id_on_path _ _)].
  rewrite bind_refuse. destruct (negb _); [by apply Hsame|]. rewrite bind_gets.
  destruct (_ <? _). { apply Hsame; [done|]. by intros t [= <-]. }
  rewrite bind_refuse. destruct (Z.eqb_spec (header_len p) (zlen input)) as [Heq|Hne]; [by apply Hsame|].
  rewrite bind_unfold.
  destruct (parse_packet_refusal input (header_len p) e Hok Hlen) as (r & Hnp & Hr & Hf).
  assert (is_ok r = false) as Herr.
  { destruct (is_ok r); [|done]. destruct (Hf eq_refl) as [l Hfl]. destruct Hbad. exists p, l. split; [done|].
    split; [|done]. intros ->. inversion Hfl as [Hn|]. symmetry in Hn.
    apply (f_equal zlen) in Hn. rewrite zlen_drop, zlen_nil in Hn by lia. lia. }
  destruct Hr as [-> | [-> ->]]; [by destruct r; [|apply Hsame|]|].
  eexists _, _. split; [done|]. split; [done|]. split; [done|]. by right.
Qed.
End properties.

(** ** Concrete packets *)
Section examples.
#[local] Instance plenty : Allocator := {| try_reserve := fun _ => true |}.
#[local] Instance big_packets : PacketSize := {| packet_size := 1200 |}.
#[local] Instance no_protection : Features := {| packet_protection := false |}.

Definition receiver : EndpointState :=
  Ep.set_ids (Ep.new_with_history_capacity Server Limits.default 1100 8) 9 7.

(** A PING, and the same packet with an unknown frame after it. *)
Definition ping_packet : bytes := [0x40; 9; 0; 0x01].
Definition bad_packet : bytes := ping_packet ++ [0x3f].

Lemma validate_packet_exact_witness : exists p l,
  decode_prefix ping_packet = Ok p /\ l <> [] /\ frames_of (drop (Z.to_nat (header_len p)) ping_packet) l.
Proof.
  destruct (validate_packet_exact ping_packet receiver) as (r & Hr & _ & Hiff);
    [by apply bytes_ok_bool|]. apply Hiff.
  assert (Receive.validate_packet ping_packet receiver = (Ok tt, receiver)) as Hv by (by vm_compute). congruence.
Defined.

Lemma bad_packet_malformed : ~ well_formed bad_packet.
Proof.
  intros (p & l & Hp & _ & Hl). vm_compute in Hp. injection Hp as <-.
  set (s := drop _ _) in Hl. vm_compute in s. subst s.
  apply (frames_of_step _ Ping 1) in Hl as (l' & -> & Hl); [|by vm_compute].
  revert Hl. apply frames_of_err; by vm_compute.
Qed.

Lemma malformed_packet_refused_witness :
  exists err, Receive.receive_packet_batch_on_path_inner bad_packet 0 false false receiver = (Err err, receiver).
Proof.
  destruct (malformed_packet_refused bad_packet 0 false false receiver) as (r & e' & Hr & Hnp & Ht & He);
    [by apply bytes_ok_bool|apply bad_packet_malformed|].
  assert (tf_duplicate (match r with Ok t => t | _ => mkTransportFrames (mkShortHeader 0 0 0 0) [] false end) = false) as Hd.
  { assert (is_ok (Receive.receive_packet_batch_on_path_inner bad_packet 0 false false receiver).1 = false) as Hk
      by (by vm_compute). rewrite Hr in Hk. by destruct r. }
  assert (e_close_code (Receive.receive_packet_batch_on_path_inner bad_packet 0 false false receiver).2 = None) as Hc
    by (by vm_compute). rewrite Hr in Hc. cbn [snd] in Hc.
  destruct He as [-> |[_ ->]]; [|done]. destruct r as [t|err|]; [|by exists err|done].
  destruct (Ht t eq_refl) as [_ Hdup]. congruence.
Defined.
End examples.
