(* ===== verification/ReceiveSteps.v ===== *)
(** * The receive path as steps of the endpoint

    The receive handler of [Receive.v] takes the endpoint through a sequence of
    the steps over which [LedgerSteps.v] and [Publication.v] prove their
    invariants, so these hold of runs in which whole packets arrive.  What a
    packet leaves behind is in [ReceiveEffects.v]. *)

From S2P Require Import Prelude Records Methods Wire PacketHeader Keyed AckRanges Reader Frames FlowControl Congestion PathState SendBuffer Endpoint Credit Ledger Transmit Retransmit Publication Flight Conservation LedgerSteps Receive ReceiveLoop.

Section simulation.
Context `{Allocator, PacketSize, Features}.

(** The second state is reached from the first by steps of the credit relation,
    whatever the peer knows. *)
Definition credit_simulated (e e' : EndpointState) : Prop :=
  forall k pub, exists k' pub', rtc credit_step (mkWorld e k pub) (mkWorld e' k' pub').

#[export] Instance credit_simulated_pre : PreOrder credit_simulated.
Proof.
  split; [intros e k pub; by exists k, pub|]. intros x y z Hc Hc' k pub.
  destruct (Hc k pub) as (k1 & pub1 & Hr). destruct (Hc' k1 pub1) as (k2 & pub2 & Hr2).
  exists k2, pub2. by etrans.
Qed.

Lemma credit_one e e' : (forall k pub, credit_step (mkWorld e k pub) (mkWorld e' k pub)) -> credit_simulated e e'.
Proof. intros Hs k pub. exists k, pub. by apply rtc_once. Qed.

Lemma credit_same e e' : same_credit e e' -> credit_simulated e e'.
Proof. intros Hs. apply credit_one. intros k pub. by apply cs_other. Qed.

(** By steps of both relations. *)
Definition simulated (e e' : EndpointState) : Prop := rtc ledger_step e e' /\ credit_simulated e e'.

#[export] Instance simulated_pre : PreOrder simulated.
Proof. split; [by intros e|]. intros x y z [Hl Hc] [Hl' Hc']. split; by etrans. Qed.

Lemma simulated_step e e' : same_flight e e' -> credit_simulated e e' -> simulated e e'.
Proof. intros Hf Hc. split; [by apply rtc_once, step_other|done]. Qed.

Lemma simulated_same e e' : same_flight e e' -> same_credit e e' -> simulated e e'.
Proof. intros Hf Hc. by apply simulated_step, credit_same. Qed.

(** *** Methods that move by steps *)
Definition stepping {A} (m : ep A) : Prop := forall e, simulated e (m e).2.

Lemma stepping_bind {A B} (m : ep A) (k : A -> ep B) :
  stepping m -> (forall a, stepping (k a)) -> stepping (m ≫= k).
Proof.
  intros Hm Hk e. rewrite bind_unfold. specialize (Hm e). destruct (m e) as [[a| |] e1]; [|done..].
  etrans; [exact Hm|apply Hk].
Qed.

Lemma stepping_pure {A} (m : ep A) : (forall e, (m e).2 = e) -> stepping m.
Proof. intros Hm e. by rewrite Hm. Qed.

Lemma stepping_modify f : (forall e, simulated e (f e)) -> stepping (modify f).
Proof. by intros Hf e. Qed.

Lemma stepping_if {A} (b : bool) (m m' : ep A) : stepping m -> stepping m' -> stepping (if b then m else m').
Proof. by destruct b. Qed.

Lemma stepping_for_each {X} (l : list X) (m : X -> ep unit) : (forall x, stepping (m x)) -> stepping (for_each l m).
Proof.
  intros Hm. induction l as [|x l IH]; [by apply stepping_pure|]. apply stepping_bind; auto.
Qed.

Lemma stepping_walk {A} (step : Frame -> Z -> A -> ep A) input off acc :
  (forall f used a, stepping (step f used a)) -> stepping (Receive.walk step input off acc).
Proof.
  intros Hs. unfold Receive.walk. generalize (S (length input)) as fuel. intros fuel. revert off acc.
  induction fuel as [|fuel IH]; intros off acc; cbn [Receive.walk_frames]; [by apply stepping_pure|].
  apply stepping_if; [by apply stepping_pure|]. apply stepping_bind; [by apply stepping_pure|]. intros rest.
  apply stepping_bind; [by apply stepping_pure|]. intros [f used]. apply stepping_bind; [by apply stepping_pure|].
  intros _. apply stepping_bind; [apply Hs|]. intros acc'. apply IH.
Qed.

(** *** The parts of the receive handler *)
Ltac both := split; [by apply same_flight_refl|done].

Lemma same_credit_fold {X} (f : EndpointState -> X -> EndpointState) l :
  (forall e x, same_credit e (f e x)) -> forall e, same_credit e (fold_left f l e).
Proof.
  intros Hf. induction l as [|x l IH]; intros e; [apply same_credit_refl|].
  eapply same_credit_trans; [apply Hf|apply IH].
Qed.

Lemma simulated_fold {X} (f : EndpointState -> X -> EndpointState) l :
  (forall e x, simulated e (f e x)) -> forall e, simulated e (fold_left f l e).
Proof.
  intros Hf. induction l as [|x l IH]; intros e; [done|]. etrans; [apply Hf|apply IH].
Qed.

Lemma credit_fold {X} (f : EndpointState -> X -> EndpointState) l :
  (forall e x, credit_simulated e (f e x)) -> forall e, credit_simulated e (fold_left f l e).
Proof.
  intros Hf. induction l as [|x l IH]; intros e; [done|]. etrans; [apply Hf|apply IH].
Qed.

Lemma retire_credit id e : credit_simulated e (Credit.try_retire_stream id e).
Proof. apply credit_one. intros k pub. apply cs_retire. Qed.

Lemma retire_simulated id e : simulated e (Credit.try_retire_stream id e).
Proof. apply simulated_step; [apply try_retire_same|apply retire_credit]. Qed.

Lemma accept_simulated f : stepping (Receive.accept_stream f).
Proof.
  intros e. unfold Receive.accept_stream, on_field. destruct (Conn.accept _ _ _ _ _) as [r c] eqn:Hc. cbn [snd].
  apply simulated_step; [by apply same_flight_refl|]. apply credit_one. intros k pub.
  replace c with (Conn.accept (e_receive e) (s_id f) (s_offset f) (zlen (s_data f)) (s_fin f)).2 by (by rewrite Hc).
  apply (cs_accept e k pub).
Qed.

Lemma losses_same_credit e i : same_credit e (Ledger.detect_losses_on_path e i).
Proof.
  unfold Ledger.detect_losses_on_path, Ledger.detect_persistent_congestion, Ledger.detect_ack_losses.
  repeat case_match; simplify_eq; done.
Qed.

Lemma ack_simulated acked delay ingress : stepping (Ledger.apply_ack_ranges_on_path acked delay ingress).
Proof.
  intros e. split; [apply rtc_once, step_ack|]. unfold Ledger.apply_ack_ranges_on_path.
  destruct (Ranges.len acked =? 0); [done|]. cbv zeta.
  set (e1 := e <| e_peer_ack_ranges := acked |> <| e_paths ::= _ |>).
  assert (credit_simulated e (Credit.acknowledge_credit (Ranges.contains acked) e1)) as Hack.
  { transitivity e1; [by apply credit_same|]. intros k pub. do 2 eexists. apply rtc_once, cs_acknowledge. }
  set (e2 := Credit.acknowledge_credit _ e1) in *. clearbody e2. clear e1.
  set (e3 := e2 <| e_largest_acked_by_peer := _ |>).
  assert (same_credit e2 e3) as H3 by done. clearbody e3.
  destruct (Ledger.retire_acked _ _ _) as [r e4] eqn:Hr.
  assert (same_credit e3 e4) as H4.
  { unfold Ledger.retire_acked in Hr. destruct (Ledger.slots_loop _ _ _) as [l r0]. injection Hr as _ <-.
    eapply same_credit_trans; [|apply same_credit_fold]; [unfold Ledger.retire_received; by case_match|].
    intros x st. unfold Ledger.acknowledge_path_status. by case_match. }
  assert (credit_simulated e e4) as Hc.
  { etrans; [exact Hack|]. apply credit_same. by eapply same_credit_trans. }
  clear Hack H3 H4. destruct (mark_batch _ _) as [buf|err|]; [|exact Hc..]. cbn [snd].
  etrans; [exact Hc|]. unfold Ledger.detect_all_losses.
  match goal with |- credit_simulated _ (fold_left _ ?l (Ledger.apply_rtt_sample _ _ _ ?x)) =>
    transitivity x end.
  2:{ apply credit_same. eapply same_credit_trans; [|apply same_credit_fold, losses_same_credit].
      unfold Ledger.apply_rtt_sample. by repeat case_match. }
  match goal with |- credit_simulated _ (if _ then ?y <| e_paths ::= _ |> else ?y) => transitivity y end.
  2:{ case_match; [by apply credit_same|done]. }
  etrans; [|apply credit_fold; intros; apply retire_credit]. by apply credit_same.
Qed.

Lemma flow_control_simulated input : stepping (Receive.receive_flow_control_packet input).
Proof.
  unfold Receive.receive_flow_control_packet. apply stepping_bind; [by apply stepping_pure|]. intros [h off].
  apply stepping_bind; [|intros []; by apply stepping_pure]. apply stepping_walk. intros f _ _ e.
  apply simulated_same; destruct f; cbn [Receive.receive_credit_frame]; try done; try by apply same_flight_refl.
  all: rewrite bind_gets; destruct (Conn.is_retired _ _); [done|]; unfold on_field_res;
    destruct (Send.extend_stream _ _ _); try done; by apply same_flight_refl.
Qed.

Lemma frequency_simulated a b c d : stepping (Ep.apply_ack_frequency a b c d).
Proof.
  intros e. unfold Ep.apply_ack_frequency. repeat case_match; try done.
  all: apply simulated_same; [by apply same_flight_refl|done].
Qed.

Lemma close_simulated code e : simulated e (Receive.close_with code e).
Proof. apply simulated_same; [by apply same_flight_refl|done]. Qed.

Lemma count_simulated f e : simulated e (upd_stats f e).
Proof. apply simulated_same; [apply count_same|done]. Qed.

Lemma path_simulated i f e : neutral f -> simulated e (upd_path i f e).
Proof. intros Hf. apply simulated_same; [by apply same_flight_upd|done]. Qed.

Lemma note_simulated pn i now e : simulated e (Receive.note_new_packet pn i now e).
Proof.
  unfold Receive.note_new_packet. cbv zeta.
  match goal with |- simulated _ (upd_stats ?f ?x <| e_last_receive_time := _ |>) => transitivity (upd_stats f x) end;
    [|apply simulated_same; [by apply same_flight_refl|done]].
  etrans; [|apply count_simulated].
  match goal with |- simulated _ (if _ then ?x <| e_largest_received_at := _ |> else _) => transitivity x end;
    [|case_match; [apply simulated_same; [by apply same_flight_refl|done]|done]].
  etrans; [|apply path_simulated; intros q; by case_match].
  etrans; [apply (count_simulated (Receive.count_order pn (e_highest_received_packet e)))|].
  apply simulated_same; [by apply same_flight_refl|done].
Qed.

Lemma observe_simulated pn i e : simulated e (Receive.observe_packet_on_path pn i e).
Proof.
  unfold Receive.observe_packet_on_path. destruct (get_path e i) as [p|] eqn:Hp; [|done]. destruct (_ <? _); [done|].
  cbv zeta. match goal with |- context [if ?b then e else ?x] => transitivity (if b then e else x) end.
  { case_match; [done|apply note_simulated]. }
  match goal with |- simulated ?x _ => generalize x as e1 end. intros e1.
  destruct (Ranges.insert _ _ _) as [ranges dropped].
  transitivity (e1 <| e_received_packets := ranges |>); [apply simulated_same; [by apply same_flight_refl|done]|].
  destruct dropped; [|done]. etrans; [|by apply path_simulated]. apply count_simulated.
Qed.

Lemma schedule_simulated i now e : simulated e (Credit.schedule_ack i now e).
Proof.
  unfold Credit.schedule_ack. destruct (get_path e i); [|done]. apply simulated_same; [|done].
  etrans; [apply (same_flight_upd e i)|by apply same_flight_refl].
  intros q. by destruct (ack_pending q).
Qed.

Lemma commit_simulated pn i e : simulated e (Receive.commit_stream_packet_receive pn i e).
Proof.
  unfold Receive.commit_stream_packet_receive. etrans; [|apply schedule_simulated]. etrans; [|apply observe_simulated].
  destruct (e_highest_received_packet e); [|done]. destruct (_ && _); [|done].
  transitivity (e <| e_control_pending := true |>); [apply simulated_same; [by apply same_flight_refl|done]|].
  by apply path_simulated.
Qed.

Lemma parse_simulated input off : stepping (Receive.parse_packet input off).
Proof.
  unfold Receive.parse_packet. apply stepping_bind.
  - apply stepping_walk. intros f used r e.
    destruct (parse_frame_refusal f used r e) as (r' & _ & [-> | [_ ->]]); [done|apply close_simulated].
  - intros [r off']. apply stepping_bind; [by apply stepping_pure|]. intros _.
    apply stepping_bind; [by apply stepping_pure|]. intros _. by apply stepping_pure.
Qed.

Lemma control_simulated input ingress r : stepping (Receive.apply_control input ingress r).
Proof.
  unfold Receive.apply_control.
  apply stepping_bind; [apply stepping_if; [apply flow_control_simulated|by apply stepping_pure]|]. intros _.
  apply stepping_bind; [apply stepping_if; [apply ack_simulated|by apply stepping_pure]|]. intros _.
  apply stepping_bind.
  { destruct (pa_ack_frequency r) as [[[[]]]|]; [apply frequency_simulated|by apply stepping_pure]. }
  intros _. apply stepping_modify. intros e. case_match; [apply close_simulated|done].
Qed.

Lemma streams_simulated header ingress defer streams :
  stepping (Receive.accept_streams header ingress defer streams).
Proof.
  unfold Receive.accept_streams. apply stepping_bind; [by apply stepping_pure|]. intros live.
  apply stepping_bind; [apply stepping_for_each, accept_simulated|]. intros _.
  apply stepping_bind; [apply stepping_modify; intros e; apply simulated_fold; intros; case_match;
    [apply retire_simulated|done]|]. intros _.
  apply stepping_bind; [apply stepping_if; [by apply stepping_pure|apply stepping_modify, commit_simulated]|]. intros _.
  apply stepping_bind; [apply stepping_modify, count_simulated|]. intros _. by apply stepping_pure.
Qed.

(** C6: The receive path refines the endpoint's steps.  Whatever bytes arrive,
    on whatever path, and whether the packet is accepted, refused midway or a
    duplicate, [receive_packet_batch_on_path_inner] takes the endpoint to a
    state it also reaches by a sequence of the ledger's steps and by a sequence
    of the credit steps, so conservation of flight, unique packet numbers and
    the publication of credit hold of every run with received packets in it. *)
Theorem receive_refines_steps input ingress opened defer e k pub :
  let e' := (Receive.receive_packet_batch_on_path_inner input ingress opened defer e).2 in
  rtc ledger_step e e' /\
  exists k' pub', rtc credit_step (mkWorld e k pub) (mkWorld e' k' pub').
Proof.
  assert (stepping (Receive.receive_packet_batch_on_path_inner input ingress opened defer)) as Hs.
  2:{ destruct (Hs e) as [Hl Hc]. split; [exact Hl|apply Hc]. }
  unfold Receive.receive_packet_batch_on_path_inner. 
  do 5 (apply stepping_bind; [by apply stepping_pure|]; intros ?).
  apply stepping_bind; [by apply stepping_pure|]. intros [header n].
  do 5 (apply stepping_bind; [by apply stepping_pure|]; intros ?).
  apply stepping_if; [by apply stepping_pure|]. apply stepping_bind; [by apply stepping_pure|]. intros _.
  apply stepping_bind; [apply parse_simulated|]. intros r.
  apply stepping_bind; [apply control_simulated|]. intros _.
  apply stepping_bind; [apply stepping_modify, count_simulated|]. intros _.
  apply stepping_if; [|destruct (pa_streams r); [|apply streams_simulated]];
    (apply stepping_bind; [apply stepping_modify; intros x|intros _; by apply stepping_pure]).
  - etrans; [|apply count_simulated]. etrans; [|apply schedule_simulated].
    apply simulated_same; [by apply same_flight_refl|done].
  - transitivity (upd_stats (fun t => t <| t_control_packets ::= Z.succ |>)
      (Receive.observe_packet_on_path (packet_number header) ingress x)).
    + etrans; [apply observe_simulated|apply count_simulated].
    + cbv zeta. case_match; [apply schedule_simulated|done].
Qed.
End simulation.
