(* ===== verification/ReceiveEffects.v ===== *)
(** * What a received packet leaves behind

    The frame loop collects exactly what the frames of the packet say; a packet
    that asks for an acknowledgement leaves one pending on its path, with the
    bearer timer armed for it; a repeated packet number delivers no stream and
    takes no credit. *)

From S2P Require Import Prelude Records Methods Wire PacketHeader Keyed AckRanges Reader Frames FlowControl Congestion PathState SendBuffer Endpoint Credit Ledger Transmit Retransmit Publication Flight Conservation LedgerSteps Receive ReceiveLoop.

(** ** What the frames of a packet ask for *)
Definition stream_of (f : Frame) : option StreamFrame := match f with Stream s => Some s | _ => None end.
Definition close_of (f : Frame) : option Z := match f with Close code => Some code | _ => None end.
Definition is_ack (f : Frame) : bool :=
  match f with Ack _ _ | AckRangesF _ _ _ => true | _ => false end.
Definition is_credit (f : Frame) : bool :=
  match f with MaxData _ | MaxStreamData _ _ | MaxStreamsBidi _ | MaxStreamsUni _ => true | _ => false end.
Definition is_status (f : Frame) : bool := match f with PathStatus _ _ _ => true | _ => false end.

(** Frames that ask for an acknowledgement; CLOSE is acknowledged apart. *)
Definition elicits (f : Frame) : bool :=
  match f with
  | Ack _ _ | AckRangesF _ _ _ | MaxStreamsBidi _ | MaxStreamsUni _ | Close _ | Padding => false
  | _ => true
  end.

Section effects.
Context `{Allocator, PacketSize, Features}.

(** [r] collects the frames [l], in order. *)
Record collects (l : list Frame) (r : Parsed) : Prop := {
  co_streams : pa_streams r = omap stream_of l;
  co_ack : pa_has_ack r = existsb is_ack l;
  co_credit : pa_has_flow_control r = existsb is_credit l;
  co_eliciting : pa_ack_eliciting r = existsb elicits l;
  co_status : pa_path_status r = existsb is_status l;
  co_close : option_list (pa_close_code r) = omap close_of l;
  co_few : zlen (pa_streams r) <= MAX_PACKET_STREAMS;
}.

Lemma nothing_collected : collects [] nothing_parsed.
Proof. by split. Qed.

Lemma collects_frame l r f used e r' e' :
  collects l r -> Receive.parse_frame f used r e = (Ok r', e') -> e' = e /\ collects (l ++ [f]) r'.
Proof.
  intros [Hs Ha Hc He Hst Hcl Hf] Hrun.
  destruct f; cbn [Receive.parse_frame] in Hrun;
    try (destruct (Receive.acknowledge_frame _ _ _) as [ack d]);
    rewrite ?bind_refuse, ?bind_gets in Hrun.
  all: repeat match type of Hrun with context [if ?b then _ else _] => destruct b eqn:? end; try done.
  all: unfold mret, method_ret in Hrun; injection Hrun as <- <-; split; [done|];
    split; unfold Receive.eliciting; get_set; rewrite ?omap_app, ?existsb_app, ?app_nil_r, ?orb_false_r, ?orb_true_r; try done.
  - by rewrite Hs.
  - unfold zlen in *. rewrite length_app. simpl. lia.
  - rewrite <- Hcl. by destruct (pa_close_code r).
Qed.

Lemma collects_fold frames : forall l r r' e e',
  collects l r -> fold_frames Receive.parse_frame frames r e = (Ok r', e') ->
  e' = e /\ collects (l ++ (fst <$> frames)) r'.
Proof.
  induction frames as [|[f used] frames IH]; intros l r r' e e' Hr Hrun.
  - cbn in Hrun. injection Hrun as <- <-. by rewrite app_nil_r.
  - cbn [fold_frames] in Hrun. rewrite bind_unfold in Hrun.
    destruct (Receive.parse_frame f used r e) as [[r1| |] e1] eqn:Hf; [|done..].
    destruct (collects_frame _ _ _ _ _ _ _ Hr Hf) as [-> Hr1].
    destruct (IH _ _ _ _ _ Hr1 Hrun) as [-> Hc]. split; [done|]. by rewrite <- app_assoc in Hc.
Qed.

(** What [parse_packet] returns. *)
Lemma parsed input off e r e' :
  bytes_ok input -> 0 <= off <= zlen input -> Receive.parse_packet input off e = (Ok r, e') ->
  e' = e /\ exists l, frames_of (drop (Z.to_nat off) input) l /\ collects l r /\
    (pa_close_code r = None \/ pa_streams r = []).
Proof.
  intros Hok Hoff Hrun. unfold Receive.parse_packet in Hrun.
  destruct (framed_total (drop (Z.to_nat off) input)) as (l & o & Hl); [by apply bytes_ok_drop|].
  rewrite bind_unfold, (walk_spec _ _ _ _ _ _ _ Hok Hoff Hl), bind_unfold in Hrun.
  destruct (fold_frames _ _ _ _) as [[r1| |] e1] eqn:Hf; [|done..].
  destruct (collects_fold _ _ _ _ _ _ nothing_collected Hf) as [-> Hc].
  destruct o as [err|]; [done|]. unfold stop, mret at 1, method_ret in Hrun.
  rewrite Z.eqb_refl, !bind_refuse in Hrun. cbn [negb] in Hrun. destruct (_ && _) eqn:Hb; [done|].
  unfold mret, method_ret in Hrun. injection Hrun as <- <-. split; [done|]. exists (fst <$> l).
  split; [by apply (framed_frames _ _ _ _ Hl)|]. split; [done|].
  apply andb_false_iff in Hb as [Hb|Hb].
  - left. apply bool_decide_eq_false in Hb. by destruct (pa_close_code r1); [destruct Hb|].
  - right. apply negb_false_iff, Z.eqb_eq in Hb. by destruct (pa_streams r1).
Qed.

(** ** Changes of the receive state under fixed credit *)
Record kept (c0 c : ConnectionState) : Prop := {
  kp_ok : recv_ok c0 -> recv_ok c;
  kp_connection : connection c = connection c0;
  kp_limit : l_max_stream_data (limits c) = l_max_stream_data (limits c0);
  kp_streams st : st ∈ streams c ->
    st_max_data st = l_max_stream_data (limits c0) \/
    exists st0, st0 ∈ streams c0 /\ st_id st0 = st_id st /\ st_max_data st0 = st_max_data st;
}.

#[export] Instance kept_pre : PreOrder kept.
Proof.
  split; [intros c; split; try done; intros st Hst; right; by exists st|].
  intros x y z [Hok Hc Hl Hs] [Hok' Hc' Hl' Hs']. split; [auto|congruence|congruence|].
  intros st Hst. destruct (Hs' st Hst) as [->|(st0 & Hin & <- & <-)]; [left; by rewrite Hl|auto].
Qed.

Lemma no_raise_kept c0 c :
  (recv_ok c0 -> recv_ok c) -> connection c = connection c0 -> no_raise c0 c -> kept c0 c.
Proof. intros Hok Hc (_ & Hl & _ & Hs). split; [done|done|by rewrite Hl|done]. Qed.

Lemma accept_connection c id off len fin : connection (Conn.accept c id off len fin).2 = connection c.
Proof.
  unfold Conn.accept. destruct (checked_add off len); [|done].
  destruct (Conn.accept_slot c id _) as [r c'] eqn:Hslot.
  assert (connection c' = connection c) as Hc.
  { apply accept_slot_cases in Hslot as [(-> & _)|[(-> & _)|(_ & _ & _ & _ & -> & _)]]; [done..|].
    unfold Conn.insert_stream. by destruct (try_reserve _). }
  destruct r; [|done..]. unfold Conn.accept_at. destruct (_ !! _); [|done]. cbv zeta. destruct (negb _); [done|].
  by destruct (RecvStream.accept _ _ _ _).
Qed.

Lemma kept_accept c id off len fin : 0 <= off -> 0 <= len -> kept c (Conn.accept c id off len fin).2.
Proof.
  intros Hoff Hlen. apply no_raise_kept; [|apply accept_connection|apply accept_no_raise].
  destruct (checked_add off len) as [end_|] eqn:He; [|unfold Conn.accept; by rewrite He].
  unfold checked_add in He. destruct (Z.leb_spec (off + len) U64_MAX); [|done]. apply accept_ok; lia.
Qed.

Lemma kept_retire c id : kept c (Conn.retire_stream c id).2.
Proof.
  apply no_raise_kept; [apply (recv_apply_ok c (RRetire id) I)| |apply retire_no_raise].
  unfold Conn.retire_stream. destruct (Conn.find _ _); [|done]. by destruct (Conn.absorb _ _ _ _) as [[]].
Qed.

Lemma kept_max_streams n c : kept c (Credit.set_max_streams_bidi n c).
Proof. split; try done. intros st Hst. right. by exists st. Qed.

(** An accepted frame ends within the credit of its stream. *)
Lemma accepted_within c id off len fin c' :
  Conn.accept c id off len fin = (Ok tt, c') ->
  exists st, st ∈ streams c' /\ st_id st = id /\ off + len <= st_max_data st.
Proof.
  unfold Conn.accept. destruct (checked_add off len) as [end_|] eqn:He; [|done].
  destruct (Conn.accept_slot c id end_) as [r c1] eqn:Hslot. destruct r as [slot| |]; [|done..].
  unfold Conn.accept_at. destruct (streams c1 !! slot) as [st|] eqn:Hst; [|done]. cbv zeta.
  assert (st_id st = id) as Hid.
  { apply accept_slot_cases in Hslot as [(-> & i & st' & [= ->] & Hf & Hi)|[(_ & _ & ? & ?)|(_ & _ & _ & [= ->] & _ & Hs)]];
      [|done|].
    - apply position_Some in Hf as (x & Hx & <- & _). congruence.
    - rewrite Hs, lookup_app_r, Nat.sub_diag in Hst by done. by injection Hst as <-. }
  destruct (negb _); [done|]. unfold RecvStream.accept. rewrite He. cbn [ok_or mbind outcome_bind].
  unfold checked_add in He. destruct (_ <=? _); [|done]. injection He as <-.
  rewrite Z.gtb_ltb. destruct (Z.ltb_spec (st_max_data st) (off + len)); [done|]. intros [= <-].
  eexists. split; [cbn; eapply list_elem_of_lookup_2, list_lookup_insert_eq; by eapply lookup_lt_Some|done].
Qed.

(** ** What control processing leaves alone

    The number of paths, what was received and the credit for it; streams may
    only retire, and only those that were received to their end and consumed. *)

(** Identifiers are those of the wire. *)
Definition ids_ok (c : ConnectionState) : Prop :=
  Forall (fun st => 0 <= st_id st < 2 ^ 62) (streams c) /\ Forall retired_ok (retired_streams c).

(** Stream [id] was received to its FIN, and all of it consumed. *)
Definition received_whole (c : ConnectionState) (id : Z) : Prop :=
  exists st, st ∈ streams c /\ st_id st = id /\ st_finished st = true /\ st_consumed st = st_received st.

(** From [c0] to [c] retired streams stay retired, and new ones had been received. *)
Definition retires (c0 c : ConnectionState) : Prop :=
  ids_ok c0 -> ids_ok c /\ forall id,
    (Conn.is_retired c0 id = true -> Conn.is_retired c id = true) /\
    (Conn.is_retired c id = true -> Conn.is_retired c0 id = true \/ received_whole c0 id).

Definition control_only (e e' : EndpointState) : Prop :=
  length (e_paths e') = length (e_paths e) /\
  received_data (e_receive e') = received_data (e_receive e) /\
  streams (e_receive e') ⊆ streams (e_receive e) /\
  kept (e_receive e) (e_receive e') /\ retires (e_receive e) (e_receive e').

Lemma retires_refl c : retires c c.
Proof. intros Hc. split; [done|]. intros id. split; [done|by left]. Qed.

Lemma received_whole_mono c0 c id : streams c ⊆ streams c0 -> received_whole c id -> received_whole c0 id.
Proof. intros Hs (st & Hst & Hrest). exists st. split; [by apply Hs|done]. Qed.

#[export] Instance control_only_pre : PreOrder control_only.
Proof.
  split; [intros e; split_and!; try done; apply retires_refl|].
  intros x y z (Hp & Hd & Hs & Hk & Hr) (Hp' & Hd' & Hs' & Hk' & Hr').
  split; [by rewrite Hp'|]. split; [by rewrite Hd'|]. split; [by etrans|]. split; [by etrans|].
  intros Hx. destruct (Hr Hx) as [Hy Hxy]. destruct (Hr' Hy) as [Hz Hyz]. split; [done|]. intros id. split.
  - intros Hid. by apply Hyz, Hxy.
  - intros [Hid|Hid]%Hyz; [by apply Hxy|]. right. by eapply received_whole_mono.
Qed.

(** One retirement. *)
Lemma retire_retires c id : Conn.is_complete c id = true -> retires c (Conn.retire_stream c id).2.
Proof.
  intros Hc [Hids Hret]. unfold Conn.is_complete in Hc. destruct (find_key st_id id (streams c)) as [st|] eqn:Hf; [|done].
  apply andb_true_iff in Hc as [Hfin Hcons%Z.eqb_eq]. apply find_key_Some in Hf as [Hst Hid].
  rewrite Forall_forall in Hids. pose proof (Hids st Hst) as Hrange. rewrite Hid in Hrange.
  destruct (Conn.retire_stream c id) as [b c'] eqn:Hrun. cbn [snd]. destruct b.
  2:{ assert (c' = c) as ->.
      { unfold Conn.retire_stream in Hrun. destruct (Conn.find c id); [|by injection Hrun].
        by destruct (Conn.absorb _ _ _ _) as [[]]. }
      apply retires_refl. split; [by apply Forall_forall|done]. }
  destruct (retire_adds _ _ _ Hret Hrange Hrun) as [Hret' Hx]. split.
  - split; [|done]. unfold Conn.retire_stream in Hrun. destruct (Conn.find c id) as [i|]; [|done].
    destruct (Conn.absorb _ _ _ _) as [[first last] kept]. injection Hrun as <-. cbn [streams].
    apply Forall_forall. intros x Hx'. apply Hids. revert x Hx'. apply sublist_subseteq, sublist_delete.
  - intros x. rewrite Hx. split; [intros ->; by rewrite orb_true_r|]. intros [->%Z.eqb_eq|]%orb_true_iff; [|by left].
    right. by exists st.
Qed.

Lemma control_same e e' :
  length (e_paths e') = length (e_paths e) -> e_receive e' = e_receive e -> control_only e e'.
Proof. intros Hp Hr. split; [done|]. rewrite Hr. split_and!; try done. apply retires_refl. Qed.

Lemma control_flight e e' : same_flight e e' -> e_receive e' = e_receive e -> control_only e e'.
Proof. intros (_ & _ & Hp & _). by apply control_same. Qed.

Lemma control_fold {X} (f : EndpointState -> X -> EndpointState) l :
  (forall e x, control_only e (f e x)) -> forall e, control_only e (fold_left f l e).
Proof. intros Hf. induction l as [|x l IH]; intros e; [done|]. etrans; [apply Hf|apply IH]. Qed.

Lemma control_retire id e : control_only e (Credit.try_retire_stream id e).
Proof.
  split; [apply try_retire_same|]. unfold Credit.try_retire_stream. destruct (Credit.stream_retirable e id) eqn:Hcan; cbn [negb].
  2:{ split_and!; try done. apply retires_refl. }
  cbv zeta. unfold Credit.stream_retirable in Hcan. rewrite !andb_true_iff in Hcan. destruct Hcan as [[_ Hcan] _].
  set (e1 := e <| e_send ::= _ |> <| e_receive ::= _ |> <| e_pending_stream_ids ::= _ |> <| e_credit_inflight_stream_count ::= _ |>).
  assert (received_data (e_receive e1) = received_data (e_receive e) /\ streams (e_receive e1) ⊆ streams (e_receive e) /\
    kept (e_receive e) (e_receive e1) /\ retires (e_receive e) (e_receive e1)) as Hr.
  { unfold e1. get_set. apply and_assoc. split; [|split; [apply kept_retire|by apply retire_retires]]. unfold Conn.retire_stream. destruct (Conn.find _ _); [|done].
    destruct (Conn.absorb _ _ _ _) as [[first last] kept]. split; [done|]. apply sublist_subseteq, sublist_delete. }
  clearbody e1. destruct (_ && _); [|done]. unfold Credit.raise_max_streams_bidi. cbv zeta. case_match; [|done].
  destruct Hr as (Hd & Hs & Hk & Hr). split; [done|]. split; [done|]. split; [|exact Hr]. etrans; [exact Hk|]. apply kept_max_streams.
Qed.

Lemma ack_loop_paths acked ingress l : forall acc l' acc',
  Ledger.slots_loop (Ledger.ack_step acked ingress) l acc = (l', acc') ->
  length (Ledger.ar_paths acc') = length (Ledger.ar_paths acc).
Proof.
  induction l as [|s l IH]; intros acc l' acc'; cbn [Ledger.slots_loop]; [by intros [= _ <-]|].
  destruct (Ledger.ack_step _ _ _ _) as [s1 acc1] eqn:Hs. destruct (Ledger.slots_loop _ _ _) as [l1 acc2] eqn:Hl.
  intros [= _ <-]. rewrite (IH _ _ _ Hl). destruct s as [sent|]; cbn [Ledger.ack_step] in Hs.
  - destruct (negb _); injection Hs as _ <-; [done|]. cbv zeta. cbn [Ledger.ar_paths].
    destruct (sp_lost sent); by rewrite ?length_alter.
  - by injection Hs as _ <-.
Qed.

Lemma control_losses e i : control_only e (Ledger.detect_losses_on_path e i).
Proof.
  unfold Ledger.detect_losses_on_path. etrans; [|apply control_flight; [apply persistent_same|]].
  - unfold Ledger.detect_ack_losses. repeat case_match; try done; apply control_same; try done;
      unfold upd_stats, upd_path; get_set; by rewrite ?length_alter.
  - unfold Ledger.detect_persistent_congestion. by repeat case_match.
Qed.

Lemma control_ack acked delay ingress e : control_only e (Ledger.apply_ack_ranges_on_path acked delay ingress e).2.
Proof.
  unfold Ledger.apply_ack_ranges_on_path. destruct (Ranges.len acked =? 0); [done|]. cbv zeta.
  set (e1 := e <| e_peer_ack_ranges := acked |> <| e_paths ::= _ |>).
  assert (control_only e e1) as Hc1 by (apply control_same; [apply length_map|done]).
  set (e2 := Credit.acknowledge_credit _ e1).
  assert (control_only e e2) as Hc2.
  { etrans; [exact Hc1|]. apply control_flight; [apply acknowledge_credit_same|]. unfold e2, Credit.acknowledge_credit,
      Credit.retire_publication. by repeat case_match. }
  clearbody e2. clear Hc1 e1.
  set (e3 := e2 <| e_largest_acked_by_peer := _ |>).
  assert (control_only e e3) as Hc3 by (etrans; [exact Hc2|by apply control_same]). clearbody e3. clear Hc2.
  destruct (Ledger.retire_acked _ _ _) as [r e4] eqn:Hr.
  assert (control_only e e4) as Hc4.
  { etrans; [exact Hc3|]. unfold Ledger.retire_acked in Hr. destruct (Ledger.slots_loop _ _ _) as [l r0] eqn:Hl.
    apply ack_loop_paths in Hl. injection Hr as _ <-. etrans; [|apply control_fold].
    - apply control_same; unfold Ledger.retire_received; case_match; get_set; rewrite ?length_growth; done.
    - intros x st. apply control_flight; [apply acknowledge_path_status_same|].
      unfold Ledger.acknowledge_path_status. by case_match. }
  clear Hc3 Hr. destruct (mark_batch _ _) as [buf|err|]; [|exact Hc4..]. cbn [snd].
  etrans; [exact Hc4|]. unfold Ledger.detect_all_losses. etrans; [|apply control_fold, control_losses].
  etrans; [|apply control_flight; [apply apply_rtt_same|unfold Ledger.apply_rtt_sample; by repeat case_match]].
  match goal with |- control_only _ (if _ then ?y <| e_paths ::= _ |> else ?y) => transitivity y end.
  2:{ case_match; [|done]. apply control_flight; [apply end_pto_same|done]. }
  etrans; [|apply control_fold; intros; apply control_retire]. by apply control_same.
Qed.

Lemma control_bind {A B} (m : ep A) (k : A -> ep B) :
  (forall e, control_only e (m e).2) -> (forall a e, control_only e (k a e).2) ->
  forall e, control_only e ((m ≫= k) e).2.
Proof.
  intros Hm Hk e. rewrite bind_unfold. specialize (Hm e). destruct (m e) as [[a| |] e1]; [|done..].
  etrans; [exact Hm|apply Hk].
Qed.

Lemma control_credit_frame f e : control_only e (Receive.receive_credit_frame f e).2.
Proof.
  destruct f; cbn [Receive.receive_credit_frame]; try done; try by apply control_same.
  rewrite bind_gets. destruct (Conn.is_retired _ _); [done|]. unfold on_field_res.
  destruct (Send.extend_stream _ _ _); try done; by apply control_same.
Qed.

Lemma control_walk {A} (step : Frame -> Z -> A -> ep A) input off acc e :
  (forall f used a e, control_only e (step f used a e).2) -> control_only e (Receive.walk step input off acc e).2.
Proof.
  intros Hs. unfold Receive.walk. generalize (S (length input)) as fuel. intros fuel. revert off acc e.
  induction fuel as [|fuel IH]; intros off acc; cbn [Receive.walk_frames]; [done|]. destruct (_ <=? _); [done|].
  apply control_bind; [done|]. intros rest. apply control_bind; [done|]. intros [f used].
  apply control_bind; [done|]. intros _. apply control_bind; [apply Hs|]. intros acc' e. apply IH.
Qed.

Lemma control_apply input ingress r e : control_only e (Receive.apply_control input ingress r e).2.
Proof.
  revert e. unfold Receive.apply_control. apply control_bind.
  { intros e. destruct (pa_has_flow_control r); [|done]. revert e. unfold Receive.receive_flow_control_packet.
    apply control_bind; [done|]. intros [h off]. apply control_bind; [|done]. intros e. apply control_walk.
    intros f _ _. apply control_credit_frame. }
  intros _. apply control_bind; [intros e; destruct (pa_has_ack r); [apply control_ack|done]|]. intros _.
  apply control_bind.
  { intros e. destruct (pa_ack_frequency r) as [[[[]]]|]; [|done]. unfold Ep.apply_ack_frequency.
    repeat case_match; try done; by apply control_same. }
  intros _ e. unfold modify. cbn [snd]. case_match; [by apply control_same|done].
Qed.

(** ** A received packet *)
Definition received (e : EndpointState) : EndpointState :=
  upd_stats (fun t => t <| t_received_packets ::= Z.succ |>) e.

(** The packet number is below the floor or was received already. *)
Definition repeated (pn : Z) (e : EndpointState) : bool :=
  (pn <? e_receive_packet_floor e) || Ranges.contains (e_received_packets e) pn.

(** The frames of the packet were collected in [r], and its control frames led from [e] to [e1]. *)
Definition controlled (input : bytes) (ingress : nat) (n : Z) (r : Parsed) (e e1 : EndpointState) : Prop :=
  Receive.parse_packet input n e = (Ok r, e) /\ Receive.apply_control input ingress r e = (Ok tt, e1).

(** What happened when [receive_packet_batch_on_path_inner] succeeds. *)
Inductive received_run (input : bytes) (ingress : nat) (defer : bool) (e : EndpointState)
    (h : ShortHeader) (n : Z) : TransportFrames -> EndpointState -> Prop :=
  | run_below :
      packet_number h < e_receive_packet_floor e ->
      received_run input ingress defer e h n (mkTransportFrames h [] true) e
  | run_duplicate r l e1 :
      e_receive_packet_floor e <= packet_number h ->
      Ranges.contains (e_received_packets e) (packet_number h) = true ->
      frames_of (drop (Z.to_nat n) input) l -> collects l r -> control_only e e1 ->
      received_run input ingress defer e h n (mkTransportFrames h [] true)
        (Receive.receive_duplicate h ingress (received e1)).2
  | run_control r l e1 :
      repeated (packet_number h) e = false ->
      frames_of (drop (Z.to_nat n) input) l -> collects l r -> pa_streams r = [] -> control_only e e1 ->
      controlled input ingress n r e e1 ->
      received_run input ingress defer e h n (mkTransportFrames h [] false)
        (Receive.receive_control h ingress r (received e1)).2
  | run_streams r l e1 t e' :
      repeated (packet_number h) e = false ->
      frames_of (drop (Z.to_nat n) input) l -> collects l r -> pa_streams r <> [] -> pa_close_code r = None ->
      control_only e e1 -> controlled input ingress n r e e1 ->
      Receive.accept_streams h ingress defer (pa_streams r) (received e1) = (Ok t, e') ->
      received_run input ingress defer e h n t e'.

Lemma receive_runs input ingress opened defer e t e' :
  bytes_ok input ->
  Receive.receive_packet_batch_on_path_inner input ingress opened defer e = (Ok t, e') ->
  (ingress < length (e_paths e))%nat /\
  exists h n, decode_with_expected input (Ep.expected_packet_number e) = Ok (h, n) /\
    received_run input ingress defer e h n t e'.
Proof.
  intros Hok. unfold Receive.receive_packet_batch_on_path_inner.
  rewrite bind_gets, bind_refuse. destruct (Nat.leb_spec (length (e_paths e)) ingress) as [|Hi]; [done|].
  rewrite bind_gets, bind_refuse. destruct (bool_decide _); [done|].
  rewrite bind_gets, bind_lift. destruct (decode_with_expected _ _) as [[h n]| |] eqn:Hh; [|done..].
  intros Hrun. split; [done|]. exists h, n. split; [done|]. revert Hrun.
  apply expected_prefix in Hh as (p & Hp & ->). pose proof (prefix_len input p Hok Hp) as Hlen.
  rewrite bind_refuse. destruct (_ || _); [done|]. rewrite bind_gets, bind_gets_res.
  destruct (ok_or _ _) as [local| |]; [|done..]. rewrite bind_refuse. destruct (negb _); [done|]. rewrite bind_gets.
  destruct (Z.ltb_spec (packet_number h) (e_receive_packet_floor e)) as [Hb|Hb].
  { intros [= <- <-]. by apply run_below. }
  rewrite bind_refuse. destruct (_ =? _); [done|].
  rewrite bind_unfold. destruct (Receive.parse_packet _ _ e) as [[r| |] e0] eqn:Hr; [|done..].
  destruct (parsed _ _ _ _ _ Hok Hlen Hr) as (-> & l & Hl & Hc & Hx).
  rewrite bind_unfold. pose proof (control_apply input ingress r e) as Hctl.
  destruct (Receive.apply_control _ _ _ _) as [[[]| |] e1] eqn:Hap; [|done..]. cbn [snd] in Hctl.
  pose proof (conj Hr Hap : controlled input ingress (header_len p) r e e1) as Hrun1.
  rewrite bind_modify. fold (received e1).
  destruct (Ranges.contains _ _) eqn:Hd.
  { intros Hrun. pose proof (run_duplicate input ingress defer e h (header_len p) r l e1 Hb Hd Hl Hc Hctl) as Hres.
    injection Hrun as <- <-. exact Hres. }
  assert (repeated (packet_number h) e = false) as Hnew.
  { unfold repeated. by rewrite Hd, (proj2 (Z.ltb_ge _ _) Hb). }
  destruct (pa_streams r) as [|s ss] eqn:Hs.
  - intros Hrun. pose proof (run_control input ingress defer e h (header_len p) r l e1 Hnew Hl Hc Hs Hctl Hrun1) as Hres.
    injection Hrun as <- <-. exact Hres.
  - intros Hrun. apply (run_streams _ _ _ _ _ _ r l e1); try done; [by rewrite Hs| |by rewrite Hs].
    destruct Hx; [done|congruence].
Qed.

(** *** Observation and scheduling *)
Lemma control_upd i f e : control_only e (upd_path i f e).
Proof. apply control_same; [unfold upd_path; get_set; apply length_alter|done]. Qed.

Lemma control_note pn i now e : control_only e (Receive.note_new_packet pn i now e).
Proof.
  unfold Receive.note_new_packet. cbv zeta.
  match goal with |- control_only _ (upd_stats ?f ?x <| e_last_receive_time := _ |>) => transitivity x end;
    [|by apply control_same].
  match goal with |- control_only _ (if _ then ?x <| e_largest_received_at := _ |> else _) => transitivity x end;
    [|case_match; [by apply control_same|done]].
  etrans; [|apply control_upd]. by apply control_same.
Qed.

Lemma control_observe pn i e : control_only e (Receive.observe_packet_on_path pn i e).
Proof.
  unfold Receive.observe_packet_on_path. destruct (get_path e i) as [p|]; [|done]. destruct (_ <? _); [done|].
  cbv zeta. match goal with |- context [if ?b then e else ?x] => transitivity (if b then e else x) end.
  { case_match; [done|apply control_note]. }
  match goal with |- control_only ?x _ => generalize x as e1 end. intros e1.
  destruct (Ranges.insert _ _ _) as [ranges dropped].
  transitivity (e1 <| e_received_packets := ranges |>); [by apply control_same|].
  destruct dropped; [|done]. etrans; [|apply control_upd]. by apply control_same.
Qed.

Lemma control_schedule i now e : control_only e (Credit.schedule_ack i now e).
Proof.
  unfold Credit.schedule_ack. destruct (get_path e i); [|done]. etrans; [apply control_upd|]. by apply control_same.
Qed.

(** An acknowledgement is pending on path [i]. *)
Definition promised (i : nat) (now : bool) (e : EndpointState) : Prop :=
  exists p, e_paths e !! i = Some p /\ ack_pending p = true /\ (now = true -> ack_immediate p = true).

Lemma schedule_promised i now e : (i < length (e_paths e))%nat -> promised i now (Credit.schedule_ack i now e).
Proof.
  intros Hi. unfold Credit.schedule_ack. destruct (get_path e i) as [p|] eqn:Hp.
  2:{ unfold get_path in Hp. apply lookup_ge_None in Hp. lia. }
  unfold get_path in Hp. unfold promised, upd_path. get_set. rewrite list_lookup_alter_eq, Hp.
  eexists. split; [done|]. get_set. split; [done|]. intros ->. apply orb_true_r.
Qed.

Lemma commit_promised pn i e :
  (i < length (e_paths e))%nat -> promised i false (Receive.commit_stream_packet_receive pn i e).
Proof.
  intros Hi. unfold Receive.commit_stream_packet_receive. apply schedule_promised.
  match goal with |- context [Receive.observe_packet_on_path _ _ ?x] =>
    destruct (control_observe pn i x) as [-> _]; assert (length (e_paths x) = length (e_paths e)) as -> end; [|done].
  destruct (e_highest_received_packet e); [|done]. destruct (_ && _); [|done]. unfold upd_path. get_set. apply length_alter.
Qed.

(** A pending acknowledgement arms the timer, and is due once the delay is over. *)
Lemma promised_timer i now e : promised i now e -> exists p d,
  e_paths e !! i = Some p /\ Timer.next_bearer_deadline e = Some d /\
  d <= Z.max (path_clock p) (sat_add (ack_started_at p) (e_max_ack_delay_us e)).
Proof.
  intros (p & Hp & Hpend & _). exists p.
  assert (exists d, Timer.ack_deadline_of e i p = Some d /\
    d <= Z.max (path_clock p) (sat_add (ack_started_at p) (e_max_ack_delay_us e))) as (d0 & Hd0 & Hle).
  { unfold Timer.ack_deadline_of. destruct (_ || _); [eexists; split; [done|lia]|].
    rewrite Hpend. eexists; split; [done|lia]. }
  destruct (earliest_le (imap (Timer.ack_deadline_of e) (e_paths e)) d0) as (d1 & Hd1 & Hle1).
  { apply (list_elem_of_lookup_2 _ i). by rewrite list_lookup_imap, Hp, <- Hd0. }
  unfold Timer.next_bearer_deadline. destruct (Timer.packet_timer_heads _ _) as [[first loss] candidate].
  edestruct (earliest_le) as (d & Hd & Hle2); [|exists d; split; [done|]; split; [exact Hd|]; etrans; [exact Hle2|]; etrans; [exact Hle1|exact Hle]].
  unfold Timer.min_over. rewrite Hd1. left.
Qed.

Lemma first_index_exists {A} (f : A -> bool) l x : x ∈ l -> f x = true -> Credit.first_index f l <> None.
Proof.
  intros Hx Hf. induction l as [|y l IH]; [by apply not_elem_of_nil in Hx|]. cbn [Credit.first_index].
  destruct (f y) eqn:Hy; [done|]. apply elem_of_cons in Hx as [<-|Hx]; [congruence|].
  specialize (IH Hx). by destruct (Credit.first_index f l).
Qed.

Lemma promised_due i now e at_ : promised i now e -> exists p, e_paths e !! i = Some p /\
  (0 <= ack_started_at p -> ack_started_at p + e_max_ack_delay_us e <= at_ ->
   Credit.pending_control_path (Ep.set_time at_ e) <> None).
Proof.
  intros (p & Hp & Hpend & _). exists p. split; [done|]. intros Hst Hat. unfold Credit.pending_control_path, Ep.set_time. get_set.
  destruct (e_control_pending e); [done|]. destruct (e_pending_ack_frequency e); [done|].
  match goal with |- context [Credit.first_index ?f ?l] => pose proof (first_index_exists f l (Ep.set_clock at_ p)) as Hf end.
  destruct (Credit.first_index _ _); [done|]. exfalso. apply Hf; [|clear Hf|done].
  - apply (list_elem_of_lookup_2 _ i). by rewrite list_lookup_fmap, Hp.
  - unfold Credit.delayed_ack_due, Ep.set_clock, path_clock. get_set. rewrite Hpend. cbn [andb].
    apply orb_true_iff. right. apply Z.leb_le. unfold sat_sub. lia.
Qed.

(** ** Properties of a received packet *)
Lemma frames_of_unique s l l' : frames_of s l -> frames_of s l' -> l = l'.
Proof.
  intros Hl. revert l'. induction Hl as [|s f used l Hd Hl IH]; intros l' Hl'; [by apply frames_of_nil_inv in Hl'|].
  apply (frames_of_step _ _ _ _ Hd) in Hl' as (l2 & -> & Hl2). by rewrite (IH _ Hl2).
Qed.

Lemma promised_stats i now f e : promised i now e -> promised i now (upd_stats f e).
Proof. done. Qed.

(** A repeated packet number delivers nothing.  When a packet whose number
    was received already, or is below the receive floor, is processed, no stream
    comes out of it, the received-data count stands, no stream appears or moves,
    and one above the floor is acknowledged again at once. *)
Theorem repeated_packet_delivers_nothing input ingress opened defer e t e' h n :
  bytes_ok input ->
  Receive.receive_packet_batch_on_path_inner input ingress opened defer e = (Ok t, e') ->
  decode_with_expected input (Ep.expected_packet_number e) = Ok (h, n) ->
  repeated (packet_number h) e = true ->
  tf_streams t = [] /\ tf_duplicate t = true /\
  received_data (e_receive e') = received_data (e_receive e) /\
  streams (e_receive e') ⊆ streams (e_receive e) /\
  (e_receive_packet_floor e <= packet_number h ->
   e_control_pending e' = true /\ promised ingress true e').
Proof.
  intros Hok Hrun Hh Hrep. destruct (receive_runs _ _ _ _ _ _ _ Hok Hrun) as (Hi & h' & n' & Hh' & Hres).
  rewrite Hh in Hh'. injection Hh' as <- <-.
  destruct Hres as [Hb|r l e1 Hb Hd _ _ Hctl|? ? ? Hnew|? ? ? ? ? Hnew]; [|..|congruence|congruence].
  { split_and!; try done. lia. }
  unfold Receive.receive_duplicate. rewrite bind_modify. cbn [snd mret method_ret].
  destruct Hctl as (Hl & Hrd & Hst & _). set (e2 := received e1 <| e_control_pending := true |>).
  destruct (control_schedule ingress true e2) as (_ & Hrd2 & Hst2 & _).
  split; [done|]. split; [done|]. split; [etrans; [exact Hrd2|exact Hrd]|]. split; [by etrans|].
  intros _. split.
  - change (e_control_pending (Credit.schedule_ack ingress true e2) = true).
    unfold Credit.schedule_ack. by destruct (get_path e2 ingress).
  - apply promised_stats, schedule_promised. change (ingress < length (e_paths e1))%nat. by rewrite Hl.
Qed.

(** Delivery of the streams of a packet. *)
Definition credited (c : ConnectionState) (f : StreamFrame) : Prop :=
  let end_ := s_offset f + zlen (s_data f) in
  end_ <= l_max_stream_data (limits c) \/
  exists st, st ∈ streams c /\ st_id st = s_id f /\ end_ <= st_max_data st.

Lemma credited_kept c0 c f : kept c0 c -> credited c f -> credited c0 f.
Proof.
  intros [_ _ Hl Hs] [Hf|(st & Hst & Hid & Hf)]; [left; by rewrite <- Hl|].
  destruct (Hs st Hst) as [Heq|(st0 & Hin & Hid0 & Heq)]; [left; by rewrite <- Heq|].
  right. exists st0. split; [done|]. split; congruence.
Qed.

Lemma accept_all l : forall e e', Forall (fun f => 0 <= s_offset f) l ->
  for_each l Receive.accept_stream e = (Ok tt, e') ->
  length (e_paths e') = length (e_paths e) /\ kept (e_receive e) (e_receive e') /\
  Forall (credited (e_receive e)) l.
Proof.
  induction l as [|f l IH]; intros e e' Hoff Hrun; [by injection Hrun as <-|].
  apply Forall_cons in Hoff as [Hf Hoff]. cbn [for_each] in Hrun. rewrite bind_unfold in Hrun.
  unfold Receive.accept_stream at 1, on_field in Hrun.
  destruct (Conn.accept _ _ _ _ _) as [r c] eqn:Ha. destruct r as [[]| |]; [|done..].
  pose proof (kept_accept (e_receive e) (s_id f) (s_offset f) (zlen (s_data f)) (s_fin f) Hf (zlen_nonneg _)) as Hk.
  rewrite Ha in Hk. cbn [snd] in Hk.
  destruct (IH _ _ Hoff Hrun) as (Hp & Hk' & Hl). get_set_in Hp. get_set_in Hk'. get_set_in Hl.
  split; [done|]. split; [by etrans|]. constructor.
  - destruct (accepted_within _ _ _ _ _ _ Ha) as (st & Hst & Hid & Hle). eapply credited_kept; [exact Hk|].
    right. by exists st.
  - eapply Forall_impl; [exact Hl|]. intros g. by apply credited_kept.
Qed.

Lemma accept_streams_run h ingress defer streams e t e' :
  Forall (fun f => 0 <= s_offset f) streams -> (ingress < length (e_paths e))%nat ->
  Receive.accept_streams h ingress defer streams e = (Ok t, e') ->
  t = mkTransportFrames h (Receive.live_streams e streams) false /\
  kept (e_receive e) (e_receive e') /\
  Forall (credited (e_receive e)) (Receive.flatten (Receive.live_streams e streams)) /\
  (defer = false -> promised ingress false e').
Proof.
  intros Hoff Hi. unfold Receive.accept_streams. rewrite bind_gets, bind_unfold.
  destruct (for_each _ _ e) as [[[]| |] e1] eqn:Ha; [|done..].
  apply accept_all in Ha as (Hp & Hk & Hc).
  2:{ unfold Receive.flatten, Receive.live_streams. apply Forall_forall. intros f Hf.
      apply list_elem_of_omap in Hf as (o & Ho & Hof). apply list_elem_of_fmap in Ho as (g & -> & Hg).
      destruct (Conn.is_retired _ _); [done|]. injection Hof as ->. rewrite Forall_forall in Hoff. by apply Hoff. }
  rewrite bind_modify.
  set (e2 := fold_left _ _ e1). assert (control_only e1 e2) as (Hp2 & _ & _ & Hk2 & _).
  { apply control_fold. intros x f. case_match; [apply control_retire|done]. }
  clearbody e2. destruct defer.
  - rewrite bind_unfold. cbn [mret method_ret]. rewrite bind_modify. intros [= <- <-].
    split; [done|]. split; [by etrans|]. by split.
  - rewrite bind_modify, bind_modify. intros [= <- <-]. split; [done|]. split; [|split; [done|]].
    + etrans; [exact Hk|]. etrans; [exact Hk2|]. unfold Receive.commit_stream_packet_receive.
      match goal with |- context [Credit.schedule_ack _ _ ?x] => destruct (control_schedule ingress false x) as (_ & _ & _ & Hs & _) end.
      etrans; [|exact Hs].
      match goal with |- context [Receive.observe_packet_on_path _ _ ?x] =>
        destruct (control_observe (packet_number h) ingress x) as (_ & _ & _ & Ho & _) end.
      etrans; [|exact Ho]. destruct (e_highest_received_packet e2); [|done]. by destruct (_ && _).
    + intros _. apply promised_stats, commit_promised. lia.
Qed.

Lemma frames_ok s l : bytes_ok s -> frames_of s l -> Forall frame_ok l.
Proof.
  intros Hok Hl. induction Hl as [|s f used l Hd Hl IH]; [constructor|]. pose proof (decode_frame_safe s Hok) as Hs.
  rewrite Hd in Hs. destruct Hs as (_ & Hf & _). constructor; [done|]. apply IH. by apply bytes_ok_drop.
Qed.

Lemma stream_offsets l : Forall frame_ok l -> Forall (fun f => 0 <= s_offset f) (omap stream_of l).
Proof.
  intros Hl. apply Forall_forall. intros s (f & Hf & Hs)%list_elem_of_omap. rewrite Forall_forall in Hl.
  specialize (Hl f Hf). destruct f; try done. injection Hs as ->. by destruct Hl.
Qed.

Lemma receive_control_kept h ingress r e : kept (e_receive e) (e_receive (Receive.receive_control h ingress r e).2).
Proof.
  unfold Receive.receive_control. rewrite bind_modify. cbn [snd mret method_ret].
  match goal with |- context [Receive.observe_packet_on_path ?a ?b ?x] =>
    destruct (control_observe a b x) as (_ & _ & _ & Ho & _) end.
  case_match; [|exact Ho].
  match goal with |- context [Credit.schedule_ack ?a ?b ?x] => destruct (control_schedule a b x) as (_ & _ & _ & Hsc & _) end.
  etrans; [exact Ho|exact Hsc].
Qed.

(** C28: Delivered data is the packet's and within credit.  What comes out of a new
    packet are its STREAM frames in order, each whole or, when its stream is retired
    once the control frames of the packet have been applied, dropped; that is the
    case of every stream retired before the packet arrived, and otherwise only of
    one whose bytes up to the FIN had all been received and consumed by then.  Each
    frame that comes out ends within a limit of its stream that stood before the
    packet arrived, and the total received stays within the connection limit that
    stood then. *)
Theorem delivered_within_credit input ingress opened defer e t e' h n l :
  bytes_ok input -> recv_ok (e_receive e) -> ids_ok (e_receive e) ->
  Receive.receive_packet_batch_on_path_inner input ingress opened defer e = (Ok t, e') ->
  decode_with_expected input (Ep.expected_packet_number e) = Ok (h, n) ->
  frames_of (drop (Z.to_nat n) input) l -> repeated (packet_number h) e = false ->
  tf_header t = h /\ tf_duplicate t = false /\
  (exists r e1, Receive.parse_packet input n e = (Ok r, e) /\ Receive.apply_control input ingress r e = (Ok tt, e1) /\
     tf_streams t = map (fun f => if Conn.is_retired (e_receive e1) (s_id f) then None else Some f) (omap stream_of l) /\
     forall id, (Conn.is_retired (e_receive e) id = true -> Conn.is_retired (e_receive e1) id = true) /\
       (Conn.is_retired (e_receive e1) id = true ->
        Conn.is_retired (e_receive e) id = true \/ received_whole (e_receive e) id)) /\
  Forall (credited (e_receive e)) (Receive.flatten (tf_streams t)) /\
  recv_ok (e_receive e') /\
  received_data (e_receive e') <= fc_max_data (connection (e_receive e)).
Proof.
  intros Hok Hrecv Hids Hrun Hh Hl Hnew. destruct (receive_runs _ _ _ _ _ _ _ Hok Hrun) as (Hi & h' & n' & Hh' & Hres).
  rewrite Hh in Hh'. injection Hh' as <- <-.
  assert (kept (e_receive e) (e_receive e') ->
    recv_ok (e_receive e') /\ received_data (e_receive e') <= fc_max_data (connection (e_receive e))) as Hfinal.
  { intros [Hk Hc _ _]. specialize (Hk Hrecv). split; [done|]. destruct Hk as (_ & _ & _ & _ & Hr & _). rewrite Hc in Hr. lia. }
  destruct Hres as [Hb|r l' e1 Hb Hd|r l' e1 _ Hl' Hc Hs Hctl [Hpr Hap]|r l' e1 t e' _ Hl' Hc _ _ Hctl [Hpr Hap] Ha].
  - unfold repeated in Hnew. rewrite (proj2 (Z.ltb_lt _ _) Hb) in Hnew. done.
  - unfold repeated in Hnew. by rewrite Hd, orb_true_r in Hnew.
  - rewrite (frames_of_unique _ _ _ Hl' Hl) in Hc. split; [done|]. split; [done|]. split.
    { exists r, e1. split; [done|]. split; [done|]. rewrite <- (co_streams _ _ Hc), Hs. split; [done|]. by apply Hctl. }
    split; [constructor|]. apply Hfinal. destruct Hctl as (_ & _ & _ & Hk & _).
    transitivity (e_receive (received e1)); [exact Hk|apply receive_control_kept].
  - rewrite (frames_of_unique _ _ _ Hl' Hl) in Hc.
    apply accept_streams_run in Ha as (-> & Hk & Hcr & _).
    2:{ rewrite (co_streams _ _ Hc). apply stream_offsets, (frames_ok _ _ (bytes_ok_drop _ _ Hok) Hl). }
    2:{ change (ingress < length (e_paths e1))%nat. destruct Hctl as [-> _]. done. }
    split; [done|]. split; [done|]. split.
    { exists r, e1. split; [done|]. split; [done|]. split; [by rewrite <- (co_streams _ _ Hc)|]. by apply Hctl. }
    destruct Hctl as (_ & _ & _ & Hk1 & _). split; [|apply Hfinal; by etrans].
    eapply Forall_impl; [exact Hcr|]. intros f. by apply credited_kept.
Qed.

(** C27: An acknowledgement is promised.  After a packet with an ack-eliciting
    frame or a CLOSE, new or repeated but not below the receive floor, was received
    on a path by a caller that does not defer the acknowledgement of streams, an
    acknowledgement is pending there, the bearer timer is armed no later than the delay after it
    became pending (or now), and once that time has come the endpoint has control
    output to send. *)
Theorem acknowledgement_promised input ingress opened e t e' h n l :
  bytes_ok input ->
  Receive.receive_packet_batch_on_path_inner input ingress opened false e = (Ok t, e') ->
  decode_with_expected input (Ep.expected_packet_number e) = Ok (h, n) ->
  frames_of (drop (Z.to_nat n) input) l ->
  existsb elicits l = true \/ omap close_of l <> [] ->
  e_receive_packet_floor e <= packet_number h ->
  exists p d, e_paths e' !! ingress = Some p /\ ack_pending p = true /\
    Timer.next_bearer_deadline e' = Some d /\
    d <= Z.max (path_clock p) (sat_add (ack_started_at p) (e_max_ack_delay_us e')) /\
    forall at_, 0 <= ack_started_at p -> ack_started_at p + e_max_ack_delay_us e' <= at_ ->
      Credit.pending_control_path (Ep.set_time at_ e') <> None.
Proof.
  intros Hok Hrun Hh Hl Hask Hfloor. destruct (receive_runs _ _ _ _ _ _ _ Hok Hrun) as (Hi & h' & n' & Hh' & Hres).
  rewrite Hh in Hh'. injection Hh' as <- <-.
  assert (exists now, promised ingress now e') as [now Hp].
  { destruct Hres as [Hb|r l' e1 Hb Hd _ _ Hctl|r l' e1 _ Hl' Hc Hs Hctl _|r l' e1 t e' _ Hl' Hc _ _ Hctl _ Ha].
    - lia.
    - exists true. unfold Receive.receive_duplicate. rewrite bind_modify. cbn [snd mret method_ret].
      apply promised_stats, schedule_promised. change (ingress < length (e_paths e1))%nat. by destruct Hctl as [-> _].
    - exists (bool_decide (pa_close_code r <> None) || pa_path_status r).
      unfold Receive.receive_control. rewrite bind_modify. cbn [snd mret method_ret].
      assert (pa_ack_eliciting r || bool_decide (pa_close_code r <> None) = true) as ->.
      { rewrite (frames_of_unique _ _ _ Hl' Hl) in Hc. destruct Hask as [He|Hcl].
        - by rewrite (co_eliciting _ _ Hc), He.
        - rewrite <- (co_close _ _ Hc) in Hcl. destruct (pa_close_code r); [|done]. apply orb_true_r. }
      apply schedule_promised. match goal with |- context [Receive.observe_packet_on_path ?a ?b ?x] =>
        destruct (control_observe a b x) as [Hlen _] end.
      change (ingress < length (e_paths (Receive.observe_packet_on_path (packet_number h) ingress (received e1))))%nat.
      rewrite Hlen. change (ingress < length (e_paths e1))%nat. by destruct Hctl as [-> _].
    - exists false. apply accept_streams_run in Ha as (_ & _ & _ & Hp); [by apply Hp| |].
      + rewrite (co_streams _ _ Hc). apply stream_offsets, (frames_ok _ _ (bytes_ok_drop _ _ Hok) Hl').
      + change (ingress < length (e_paths e1))%nat. by destruct Hctl as [-> _]. }
  destruct (promised_timer _ _ _ Hp) as (p & d & Hpath & Hd & Hle). exists p, d.
  split; [done|]. split; [by destruct Hp as (q & Hq & Hpend & _); simplify_eq|]. split; [done|]. split; [done|].
  intros at_ Hst Hat. destruct (promised_due _ _ _ at_ Hp) as (q & Hq & Hdue). simplify_eq. by apply Hdue.
Qed.
End effects.

(** ** A concrete packet

    A server receives the first packet of the client of [LedgerSteps.v], twice. *)
Section examples.
#[local] Instance plenty : Allocator := {| try_reserve := fun _ => true |}.
#[local] Instance big_packets : PacketSize := {| packet_size := 1200 |}.
#[local] Instance no_protection : Features := {| packet_protection := false |}.

Definition packet_one : bytes := match (send 0 client).1 with Ok (b, _) => b | _ => [] end.
Definition server : EndpointState := Ep.set_ids (start Server Limits.default 1100 8) 9 7.
Definition header_one : ShortHeader * Z :=
  match decode_with_expected packet_one 0 with Ok x => x | _ => (mkShortHeader 0 0 0 0, 0) end.
Definition receive_one (e : EndpointState) : res TransportFrames * EndpointState :=
  Receive.receive_packet_batch_on_path_inner packet_one 0 false false e.
Definition server_one : EndpointState := (receive_one server).2.
Definition frames_one : list Frame := [Stream (mkStreamFrame 4 0 false (replicate 100 0x2a))].

Example one_received : (receive_one server).1 =
  Ok (mkTransportFrames header_one.1 [Some (mkStreamFrame 4 0 false (replicate 100 0x2a))] false).
Proof. by vm_compute. Qed.

Lemma packet_bytes : bytes_ok packet_one.
Proof. apply bytes_ok_bool. by vm_compute. Qed.

Lemma packet_frames : frames_of (drop (Z.to_nat header_one.2) packet_one) frames_one.
Proof.
  apply (frames_of_cons _ (Stream (mkStreamFrame 4 0 false (replicate 100 0x2a))) 105); [by vm_compute|].
  replace (drop _ _) with (@nil Z) by (by vm_compute). constructor.
Qed.

Lemma repeated_packet_delivers_nothing_witness :
  repeated (packet_number header_one.1) server_one = true /\ tf_streams (match (receive_one server_one).1 with
    Ok t => t | _ => mkTransportFrames header_one.1 [None] false end) = [].
Proof.
  split; [by vm_compute|].
  eapply (repeated_packet_delivers_nothing packet_one 0 false false server_one _ (receive_one server_one).2
    header_one.1 header_one.2); [apply packet_bytes| |by vm_compute|by vm_compute].
  by vm_compute.
Defined.

Lemma delivered_within_credit_witness :
  received_data (e_receive server_one) = 100 /\ recv_ok (e_receive server_one).
Proof.
  split; [by vm_compute|].
  destruct (delivered_within_credit packet_one 0 false false server
    (mkTransportFrames header_one.1 [Some (mkStreamFrame 4 0 false (replicate 100 0x2a))] false) server_one
    header_one.1 header_one.2 frames_one) as (_ & _ & _ & _ & Hr & _);
    [apply packet_bytes|apply new_recv_ok|by split; constructor|by vm_compute|by vm_compute|apply packet_frames|by vm_compute|exact Hr].
Defined.

Lemma acknowledgement_promised_witness :
  exists d, Timer.next_bearer_deadline server_one = Some d.
Proof.
  destruct (acknowledgement_promised packet_one 0 false server
    (mkTransportFrames header_one.1 [Some (mkStreamFrame 4 0 false (replicate 100 0x2a))] false) server_one
    header_one.1 header_one.2 frames_one) as (p & d & _ & _ & Hd & _);
    [apply packet_bytes|by vm_compute|by vm_compute|apply packet_frames|by left|by vm_compute|by exists d].
Defined.
End examples.
