(* ===== verification/PathCount.v ===== *)
(** * The number of paths

    An endpoint gains a path by [add_path_state] and loses one by
    [remove_path_state]; every other method a node calls on it leaves their
    number alone.  [NodeRoutes.v] rests on it: the identifiers of an association
    are listed by path. *)

From S2P Require Import Prelude Records Methods Wire PacketHeader AckRanges Reader Frames FlowControl Congestion PathState SendBuffer Endpoint Credit Ledger Transmit Retransmit OutputBounds Publication Flight Conservation Receive ReceiveLoop ReceiveSteps ReceiveEffects.

Definition path_count (e : EndpointState) : nat := length (e_paths e).
Definition keeps_paths {A} (m : ep A) : Prop := forall e, path_count (m e).2 = path_count e.

Lemma keeps_paths_bind {A B} (m : ep A) (k : A -> ep B) :
  keeps_paths m -> (forall a, keeps_paths (k a)) -> keeps_paths (m ≫= k).
Proof.
  intros Hm Hk e. specialize (Hm e). rewrite bind_unfold. destruct (m e) as [[a|err|] e1]; cbn [fst snd] in *; try done.
  by rewrite Hk.
Qed.
Lemma keeps_paths_modify f : (forall e, path_count (f e) = path_count e) -> keeps_paths (modify f).
Proof. intros Hf e. apply Hf. Qed.
Lemma keeps_paths_quiet {A} (m : ep A) : quiet m -> keeps_paths m.
Proof. intros Hm e. exact (settled_paths _ _ (Hm e)). Qed.
Lemma keeps_paths_const {A} (o : EndpointState -> res A) : keeps_paths (fun e => (o e, e)).
Proof. by intros e. Qed.
Lemma keeps_paths_if {A} (b : bool) (m m' : ep A) : keeps_paths m -> keeps_paths m' -> keeps_paths (if b then m else m').
Proof. by destruct b. Qed.

Lemma count_upd i f e : path_count (upd_path i f e) = path_count e.
Proof. apply length_alter. Qed.

Lemma count_stats f e : path_count (upd_stats f e) = path_count e.
Proof. done. Qed.

Create HintDb paths.
#[export] Hint Resolve count_upd keeps_paths_const : paths.

(** The steps of a method; leaves the updates it makes. *)
Ltac path_steps :=
  repeat lazymatch goal with
  | |- keeps_paths (_ ≫= _) => apply keeps_paths_bind; [|intros ?]
  | |- keeps_paths (if ?b then _ else _) => first [apply keeps_paths_if | destruct b]
  | |- keeps_paths (match ?x with _ => _ end) => destruct x
  | |- keeps_paths (modify _) => apply keeps_paths_modify; intros ?
  | |- keeps_paths (mret _) => apply keeps_paths_const
  | |- keeps_paths (gets _) => apply keeps_paths_const
  | |- keeps_paths (gets_res _) => apply keeps_paths_const
  | |- keeps_paths (lift_res _) => apply keeps_paths_const
  | |- keeps_paths (raise _) => apply keeps_paths_const
  | |- keeps_paths (refuse_if _ _) => apply keeps_paths_const
  end.

Section counts.
Context `{Allocator, PacketSize, Features}.

Lemma on_path_count {A} i (f : PathState -> res A * PathState) : keeps_paths (Transmit.on_path i f).
Proof.
  intros e. unfold Transmit.on_path. destruct (get_path e i); [|done]. destruct (f p). apply count_upd.
Qed.
#[local] Hint Resolve on_path_count : paths.

Lemma record_sent_count k sent d s e : path_count (Transmit.record_sent k sent d s e) = path_count e.
Proof. unfold Transmit.record_sent, Ledger.record_congestion_packet. by rewrite count_upd. Qed.

Lemma note_status_count i f e : path_count (Transmit.note_status_sent i f e) = path_count e.
Proof. unfold Transmit.note_status_sent. destruct f; try done. case_match; [apply count_upd|done]. Qed.

(** ** Transmission *)
Lemma path_control_count i d f cap pto : keeps_paths (Transmit.encode_path_control_packet_inner i d f cap pto).
Proof.
  unfold Transmit.encode_path_control_packet_inner, Transmit.track, Transmit.reserve_pacing_on, Transmit.packet_sent_on.
  path_steps; auto with paths.
  - destruct a as [k|]; rewrite ?record_sent_count; destruct (Transmit.is_probe_frame f); rewrite ?count_upd; done.
  - apply note_status_count.
Qed.

Lemma poll_transmit_count i cap : keeps_paths (Credit.poll_transmit_on_path i cap).
Proof.
  intros e. unfold Credit.poll_transmit_on_path. destruct (get_path e i); [|done]. destruct (bool_decide _); [done|].
  destruct (_ ≫= _) as [[[[c b] next]|]| |]; try done. cbn [snd].
  transitivity (path_count (Credit.commit_control_frames i (e_next_packet_number e) c e)); [done|].
  pose proof (commit_control_same i (e_next_packet_number e) c e) as (_ & _ & Hl & _). exact Hl.
Qed.

Lemma poll_close_count cap : keeps_paths (Transmit.poll_close cap).
Proof.
  intros e. unfold Transmit.poll_close. destruct (e_close_code e); [|done]. by destruct (_ ≫= _) as [[]| |].
Qed.

Lemma send_copy_count i pl o b : keeps_paths (Retransmit.send_copy i pl o b).
Proof.
  unfold Retransmit.send_copy, Transmit.reserve_pacing_on, Transmit.packet_sent_on. path_steps; auto with paths.
  unfold Retransmit.record_copy.
  rewrite count_stats, record_sent_count. by destruct b, (pl_evict pl).
Qed.

Lemma retransmit_count pn i cap o b : keeps_paths (Retransmit.retransmit_stream_packet_with_probe pn i cap o b).
Proof. unfold Retransmit.retransmit_stream_packet_with_probe. path_steps; auto with paths. apply send_copy_count. Qed.

Lemma counted_count m f : keeps_paths m -> (forall e, path_count (f e) = path_count e) -> keeps_paths (Retransmit.counted m f).
Proof. intros Hm Hf. unfold Retransmit.counted. path_steps; [done|]. by destruct (Retransmit.is_some _). Qed.

Lemma record_retransmission_count i e : path_count (Retransmit.record_retransmission i e) = path_count e.
Proof. unfold Retransmit.record_retransmission. by rewrite count_upd. Qed.

Lemma marked_loss_count cap : keeps_paths (Retransmit.retransmit_marked_loss cap).
Proof.
  unfold Retransmit.retransmit_marked_loss. path_steps. generalize (sp_packet_number s) as pn, a as order.
  intros pn order. clear. induction order as [|[[c s] i] l IH]; cbn [Retransmit.first_repair]; [by intros e|].
  path_steps; [|done]. apply counted_count; [apply retransmit_count|]. intros e.
  unfold Retransmit.count_loss_repair. by rewrite record_retransmission_count.
Qed.

Lemma pto_probe_count now cap : keeps_paths (Retransmit.retransmit_pto_probe now cap).
Proof.
  unfold Retransmit.retransmit_pto_probe, Retransmit.probe_delivered_flight. path_steps; auto using path_control_count with paths.
  apply counted_count; [apply retransmit_count|]. intros e. unfold Retransmit.count_pto_probe.
  by rewrite count_upd, record_retransmission_count.
Qed.

Lemma set_time_count now e : path_count (Ep.set_time now e) = path_count e.
Proof. exact (settled_paths _ _ (set_time_same now e)). Qed.

Lemma detect_losses_count i o e : path_count (Ledger.detect_ack_losses i o e) = path_count e.
Proof.
  unfold Ledger.detect_ack_losses. destruct o, (get_path e i); try done. destruct (Ledger.slots_loop _ _ _) as [l r].
  cbv zeta. destruct (Ledger.lr_largest r); rewrite ?count_upd, ?count_stats; exact (count_upd i (fun _ => Ledger.lr_path r) e).
Qed.

Lemma retransmit_due_count now cap : keeps_paths (Retransmit.retransmit_due now cap).
Proof.
  unfold Retransmit.retransmit_due. path_steps; auto using marked_loss_count, pto_probe_count.
  - apply set_time_count.
  - generalize (seq 0 (length (e_paths e))) as l. intros l. revert e. induction l as [|i l IH]; intros e; [done|].
    cbn [fold_left]. by rewrite IH, detect_losses_count.
Qed.

(** ** Suspension, status and probes *)
Lemma suspend_count i e : path_count (Ledger.suspend_path i e) = path_count e.
Proof.
  unfold Ledger.suspend_path. destruct (get_path e i); [|done]. destruct (fold_left _ _ _). by rewrite count_upd.
Qed.

Lemma queue_status_count i k : keeps_paths (Ep.queue_path_status i k).
Proof.
  intros e. unfold Ep.queue_path_status. destruct (get_path e i); [|done]. destruct (PathOps.queue_status _ _) as [[]| |]; try done.
  apply count_upd.
Qed.

Lemma defer_status_count i j e : path_count (Ep.defer_path_status i j e) = path_count e.
Proof. unfold Ep.defer_path_status. destruct (get_path e j); [|done]. apply count_upd. Qed.

Lemma set_peer_cid_count i c : keeps_paths (Ep.set_peer_connection_id_on_path i c).
Proof.
  intros e. unfold Ep.set_peer_connection_id_on_path. destruct (_ || _); [done|]. destruct (get_path e i); [apply count_upd|done].
Qed.

Lemma begin_probe_count i t now d : keeps_paths (Ep.begin_path_probe i t now d).
Proof. intros e. unfold Ep.begin_path_probe. destruct (get_path e i); [apply count_upd|done]. Qed.

Lemma receive_status_count k s st e : path_count (Ep.receive_path_status k s st e).2 = path_count e.
Proof.
  unfold Ep.receive_path_status. destruct (Ep.path_with_key e k); [|done]. destruct (get_path e _); [|done].
  destruct (PathOps.receive_status _ _ _). apply count_upd.
Qed.

Lemma arrival_count i at_ e : path_count (Credit.record_bearer_arrival i at_ e) = path_count e.
Proof.
  unfold Credit.record_bearer_arrival. destruct (_ =? _); [done|]. destruct (get_path e i); [|done].
  destruct (bool_decide _); apply count_upd.
Qed.

Lemma validation_ack_count i e : path_count (Credit.request_path_validation_ack i e) = path_count e.
Proof.
  unfold Credit.request_path_validation_ack, Credit.schedule_application_ack. destruct (get_path _ i); [|done].
  match goal with |- path_count (upd_path i ?f ?x <| _ := _ |>) = _ => exact (count_upd i f x) end.
Qed.

(** ** The receive path *)
Lemma accept_streams_count h i d l : keeps_paths (Receive.accept_streams h i d l).
Proof.
  unfold Receive.accept_streams. path_steps; auto with paths.
  - intros e. revert e. induction (Receive.flatten _) as [|f fs IH]; intros e; [done|]. cbn [for_each]. rewrite bind_unfold.
    unfold Receive.accept_stream at 1, on_field. destruct (Conn.accept _ _ _ _ _) as [[[]| |] c]; try done. by rewrite IH.
  - generalize (Receive.flatten a) as fs. intros fs. revert e. induction fs as [|f fs IH]; intros e; [done|]. cbn [fold_left].
    rewrite IH. destruct (s_fin f); [|done]. by destruct (control_retire (s_id f) e) as [Hl _].
  - unfold Receive.commit_stream_packet_receive. cbv zeta.
    match goal with |- context [Credit.schedule_ack ?a ?b ?x] => destruct (control_schedule a b x) as [Hl _] end.
    match goal with |- context [Receive.observe_packet_on_path ?a ?b ?x] => destruct (control_observe a b x) as [Hl' _] end.
    unfold path_count. rewrite Hl, Hl'. destruct (e_highest_received_packet e); [|done].
    destruct (_ && _); [|done]. apply (count_upd i).
Qed.

Lemma parse_count input off : keeps_paths (Receive.parse_packet input off).
Proof.
  unfold Receive.parse_packet. path_steps. intros e.
  destruct (control_walk Receive.parse_frame input off nothing_parsed e) as [Hl _]; [|exact Hl].
  intros f used r x. destruct (parse_frame_refusal f used r x) as (r' & _ & [-> | [_ ->]]); [done|]. by apply control_same.
Qed.

Lemma apply_control_count input i r : keeps_paths (Receive.apply_control input i r).
Proof. intros e. destruct (control_apply input i r e) as [Hl _]. exact Hl. Qed.

Lemma receive_duplicate_count h i : keeps_paths (Receive.receive_duplicate h i).
Proof.
  unfold Receive.receive_duplicate. path_steps. rewrite count_stats.
  by destruct (control_schedule i true (e <| e_control_pending := true |>)) as [Hl _].
Qed.

Lemma receive_control_count h i r : keeps_paths (Receive.receive_control h i r).
Proof.
  unfold Receive.receive_control. path_steps. destruct (_ || _).
  - match goal with |- context [Credit.schedule_ack ?a ?b ?x] => destruct (control_schedule a b x) as [Hl _] end.
    etrans; [exact Hl|]. destruct (control_observe (packet_number h) i e) as [Ho _]. exact Ho.
  - destruct (control_observe (packet_number h) i e) as [Ho _]. exact Ho.
Qed.

Lemma receive_batch_count input i o d : keeps_paths (Receive.receive_packet_batch_on_path_inner input i o d).
Proof.
  unfold Receive.receive_packet_batch_on_path_inner.
  path_steps; auto using parse_count, apply_control_count, receive_duplicate_count, receive_control_count,
    accept_streams_count with paths.
Qed.
End counts.
