(* ===== verification/Delivery.v ===== *)
(** * From the sender's packet to the receiver's stream

    The two ends of the transport put together: a packet that
    [encode_stream_packet_on_path_inner] built on one endpoint, taken in by
    [receive_packet_batch_on_path_inner] on another. *)

From S2P Require Import Prelude Records Methods Wire PacketHeader Keyed AckRanges Reader Frames FlowControl Congestion PathState SendBuffer Endpoint Credit Ledger Transmit Retransmit OutputBounds Publication Flight Conservation LedgerSteps StreamSend Receive ReceiveLoop ReceiveEffects.

Section delivery.
Context `{Allocator, PacketSize, Features}.


End delivery.

(** ** The first packet of a client, at its server *)
Section examples.
#[local] Instance plenty : Allocator := {| try_reserve := fun _ => true |}.
#[local] Instance big_packets : PacketSize := {| packet_size := 1200 |}.
#[local] Instance no_protection : Features := {| packet_protection := false |}.

End examples.
