(* ===== verification/DatagramSpec.v ===== *)
(** * Datagrams, sent and received

    [Datagram.v] between two endpoints: the packet made around an admitted
    payload reads back as that payload, is never over the limit the receiver
    announced, and uses no stream credit and no repair storage; a refused one
    leaves payload and endpoint as they were, the pacer of the path apart. *)

From S2P Require Import Prelude Records Methods Wire PacketHeader Keyed AckRanges Reader Frames FlowControl Congestion PathState SendBuffer Endpoint Credit Ledger Transmit Retransmit Datagram OutputBounds Flight Conservation LedgerSteps StreamSend Receive.

Section datagrams.
Context `{Allocator, PacketSize, Features}.

(** ** The commitment of an admitted datagram *)

(** Everything but the path, the ledger, the next number and the counters. *)
Definition unrelated (e e' : EndpointState) : Prop :=
  e_send e' = e_send e /\ e_send_buffer e' = e_send_buffer e /\ e_receive e' = e_receive e /\
  e_received_packets e' = e_received_packets e /\ e_duplication_reserved_bytes e' = e_duplication_reserved_bytes e.

Lemma commit_runs e i size p k :
  get_path e i = Some p -> free_slot (e_transmission_limit e) (e_sent_packets e) = Some k ->
  CC.can_send (path_congestion p) size = true -> next_send_order p < U64_MAX -> e_next_packet_number e + 1 <= U32_MAX ->
  exists r e', Datagrams.commit_datagram_transmission i size e = (r, e') /\
    ((r = Err Error.Blocked /\ pacer_only i e e') \/
     r = Ok tt /\ unrelated e e' /\ e_next_packet_number e' = e_next_packet_number e + 1 /\
     exists limited, e_sent_packets e' =
       <[k := Some (Datagrams.datagram_record e i size (next_send_order p) limited)]> (e_sent_packets e)).
Proof.
  intros Hp Hk Hcan Hord Hn. unfold Datagrams.commit_datagram_transmission.
  rewrite bind_gets_res, Hk. cbn [ok_or]. rewrite bind_gets.
  set (limited := Transmit.path_window_limited e i size).
  unfold reserve_pacing_on. rewrite bind_unfold. unfold on_path at 1. rewrite Hp. unfold with_transport.
  pose proof (reserve_pacing_like (transport p) size (path_clock p)) as Hlike.
  pose proof (reserve_pacing_congestion (transport p) size (path_clock p)) as Hcong.
  destruct (Path.try_reserve_pacing _ _ _) as [reserved t]. cbn [snd] in Hlike, Hcong.
  destruct Hlike as (a & b & c & dl & Ht).
  set (e1 := upd_path i (fun _ => p <| transport := t |>) e).
  destruct reserved.
  2:{ eexists _, e1. split; [reflexivity|]. left. split; [done|]. right. exists p, a, b, c, dl. split; [done|]. unfold e1. by rewrite Ht. }
  rewrite bind_refuse. cbn [negb].
  assert (get_path e1 i = Some (p <| transport := t |>)) as Hp1 by (by apply get_upd_path; eauto).
  rewrite bind_unfold. unfold on_path at 1. rewrite Hp1. unfold with_send_order, PathOps.assign_send_order.
  change (next_send_order (p <| transport := t |>)) with (next_send_order p).
  unfold checked_add. rewrite (proj2 (Z.leb_le _ _)) by lia. cbn [ok_or mbind outcome_bind].
  set (p2 := p <| transport := t |> <| next_send_order := _ |>). set (e2 := upd_path i (fun _ => p2) e1).
  assert (get_path e2 i = Some p2) as Hp2 by (apply get_upd_path; eauto).
  rewrite bind_unfold. unfold packet_sent_on, on_path. rewrite Hp2. unfold with_congestion, CC.on_packet_sent.
  change (path_congestion p2) with (congestion t). rewrite Hcong. change (congestion (transport p)) with (path_congestion p).
  rewrite Hcan. cbn [negb]. set (p3 := upd_congestion _ p2). set (e3 := upd_path i (fun _ => p3) e2).
  assert (get_path e3 i = Some p3) as Hp3 by (apply get_upd_path; eauto).
  rewrite bind_refuse. cbn [negb]. rewrite bind_gets_res. unfold Datagrams.bump_packet_number.
  change (e_next_packet_number e3) with (e_next_packet_number e). rewrite (proj2 (Z.leb_gt _ _)) by lia.
  rewrite bind_modify.
  assert (Datagrams.datagram_record e3 i size (next_send_order p) limited =
    Datagrams.datagram_record e i size (next_send_order p) limited) as Hrec.
  { unfold Datagrams.datagram_record. change (e_next_packet_number e3) with (e_next_packet_number e).
    assert (path_clock p3 = path_clock p) as Hclock by (unfold p3, p2; by rewrite Ht).
    unfold Transmit.clock_of. by rewrite Hp3, Hp, Hclock. }
  rewrite Hrec. eexists _, _. split; [reflexivity|]. right. split; [done|]. split; [done|]. split; [done|]. exists limited. done.
Qed.

(** ** The packet *)

Lemma packet_shape (storage header : bytes) start end_ :
  0 <= start -> start + zlen header <= end_ -> end_ <= zlen storage ->
  Datagrams.packet_at (Datagrams.write_header storage start header) start end_ =
    header ++ take (Z.to_nat (end_ - (start + zlen header))) (drop (Z.to_nat (start + zlen header)) storage).
Proof.
  intros Hs Hh He. unfold zlen in *. unfold Datagrams.packet_at, Datagrams.write_header.
  rewrite drop_app_length' by (rewrite length_take; lia). rewrite take_app_ge by lia.
  f_equal. f_equal; [lia|]. f_equal. lia.
Qed.

Lemma decode_datagram data : zlen data + 1 <= U64_MAX ->
  decode_frame (0x30 :: data) = Ok (Datagram data false, zlen data + 1).
Proof.
  intros Hd. pose proof (zlen_nonneg data).
  assert (encode (Datagram data false) (zlen data + 1) = Ok (0x30 :: data)) as He.
  { unfold encode. apply wseq_Ok. exists [0x30], data. split; [|split; [|done]].
    - unfold put_varint. change (48 <? Z.shiftl 1 6) with true. cbn [mbind outcome_bind].
      by rewrite (proj2 (Z.ltb_ge _ _)) by lia.
    - apply wseq_Ok. exists [], data. split; [done|]. split; [|done]. unfold put_bytes.
      by rewrite (proj2 (Z.ltb_ge _ _)) by (unfold zlen; cbn [length]; lia). }
  assert (zlen (0x30 :: data) = zlen data + 1) as Hl by (unfold zlen; cbn [length]; lia).
  unfold decode_frame, run_reader.
  rewrite (encode_reads_last (Datagram data false) I _ _ (0x30 :: data) 0 He ltac:(lia) (at_cursor_start _)). by rewrite Hl.
Qed.

Lemma drop_all_end (x : Z) (data : bytes) n : payloads_of n (drop (Z.to_nat (zlen data + 1)) (x :: data)) = [].
Proof. rewrite drop_ge by (unfold zlen; cbn [length]; lia). by destruct n. Qed.

(** The frame loop on a packet of one frame. *)
Lemma one_frame (h rest : bytes) f r e :
  decode_frame rest = Ok (f, zlen rest) -> 0 < zlen rest ->
  Receive.parse_frame f (zlen rest) Receive.nothing_parsed e = (Ok r, e) -> pa_close_code r = None ->
  Receive.parse_packet (h ++ rest) (zlen h) e = (Ok r, e).
Proof.
  intros Hd Hpos Hf Hc. assert (exists n, length (h ++ rest) = S n) as [n Hn].
  { rewrite length_app. unfold zlen in Hpos. exists (length h + length rest - 1)%nat. lia. }
  assert (Receive.walk Receive.parse_frame (h ++ rest) (zlen h) Receive.nothing_parsed e = (Ok (r, zlen (h ++ rest)), e)) as Hw.
  { unfold Receive.walk. rewrite Hn. cbn [Receive.walk_frames].
    rewrite (proj2 (Z.leb_gt _ _)) by (rewrite zlen_app; lia).
    rewrite bind_lift, slice_from_app, bind_lift, Hd, bind_refuse, (proj2 (Z.eqb_neq _ _)) by lia.
    rewrite (bind_ok _ _ _ _ _ Hf), zlen_app. by rewrite Z.leb_refl. }
  unfold Receive.parse_packet. rewrite (bind_ok _ _ _ _ _ Hw), bind_refuse, Z.eqb_refl. cbn [negb].
  rewrite bind_refuse, Hc. done.
Qed.

(** ** The theorems *)

(** C31: An admitted datagram arrives whole.  The packet made in the storage of
    the payload is no longer than the bearer's limit and than the packets of its
    path may be, and fits the path's congestion window; a receiver
    whose expected number is in the window of the packet number coding decodes
    from it the sender's destination and packet number, and as its only datagram
    exactly the payload bytes; a receiver whose announced limit the sender holds
    does not refuse it; and sending it used one packet number and one record, put
    in a free slot of the ledger with the length of the packet, and no stream
    credit, no repair storage and no duplication budget. *)
Theorem datagram_delivered e i payload storage prefix suffix mtu priority packet e' d expected peer :
  Datagrams.prepare_on_path i payload storage prefix suffix mtu priority e = (Ok packet, e') ->
  0 <= payload.1 <= payload.2 -> 0 <= suffix -> zlen storage <= 2 ^ 32 ->
  Ep.peer_connection_id_on_path e i = Some d -> is_cid d ->
  (forall p, get_path e i = Some p -> next_send_order p <= U64_MAX) ->
  is_u32 (e_next_packet_number e) -> is_u32 (default 0 (e_largest_acked_by_peer e)) ->
  default 0 (e_largest_acked_by_peer e) <= e_next_packet_number e
    <= default 0 (e_largest_acked_by_peer e) + 2 ^ 31 - 1 ->
  is_u32 expected -> default 0 (e_largest_acked_by_peer e) <= expected < e_next_packet_number e + 128 ->
  max_datagram_frame_size (limits (e_receive peer)) = e_peer_max_datagram_frame_size e ->
  let data := take (Z.to_nat (payload.2 - payload.1)) (drop (Z.to_nat payload.1) storage) in
  zlen packet <= mtu /\
  (exists p k limited, get_path e i = Some p /\ e_sent_packets e !! k = Some None /\
     zlen packet <= max_packet_size (path_congestion p) /\ CC.can_send (path_congestion p) (zlen packet) = true /\
     e_sent_packets e' =
       <[k := Some (Datagrams.datagram_record e i (zlen packet) (next_send_order p) limited)]> (e_sent_packets e)) /\
  (exists fl n, decode_with_expected packet expected =
     Ok (mkShortHeader fl d (e_next_packet_number e) (Ep.next_packet_number_len e), n) /\
     payloads packet n = Ok [data] /\ Receive.parse_packet packet n peer = (Ok (Receive.eliciting Receive.nothing_parsed), peer)) /\
  unrelated e e' /\ e_next_packet_number e' = e_next_packet_number e + 1.
Proof.
  intros Hrun Hpay Hsuf Hsto Hd Hcid Hord Hnext Hla Hdist Hexp Hwin Hlim data.
  unfold Datagrams.prepare_on_path in Hrun. rewrite bind_gets_res in Hrun.
  destruct (Datagrams.datagram_send_layout _ _ _ _ _ _ _ _) as [[[s t] h]| |] eqn:Hl; [|done..].
  apply layout_Ok in Hl as (p & d' & hh & k & []). rewrite Hd in ad_peer. injection ad_peer as <-.
  specialize (Hord p ad_path).
  destruct (commit_runs e i (t - s) p k ad_path ad_slot ad_flight ltac:(lia) ad_number)
    as (r & e1 & Hc & Hres).
  rewrite bind_unfold, Hc in Hrun.
  destruct Hres as [[-> _]|(-> & Hun & Hn & limited & Hrec)]; [done|]. injection Hrun as <- <-.
  destruct ad_start as [Hs0 Hs]. subst h. pose proof (zlen_nonneg storage).
  assert (zlen (hh ++ [0x30]) = zlen hh + 1) as Hhl by (by rewrite zlen_app).
  rewrite packet_shape by lia. replace (s + zlen (hh ++ [0x30])) with payload.1 by lia.
  replace (t - payload.1) with (payload.2 - payload.1) by lia. fold data.
  assert (zlen data = payload.2 - payload.1) as Hdl.
  { unfold data, zlen in *. rewrite length_take, length_drop. lia. }
  assert (zlen ((hh ++ [0x30]) ++ data) = t - s) as Hsize by (rewrite zlen_app; lia).
  rewrite Hsize. split; [lia|]. split; [|split; [|done]].
  { exists p, k, limited. split; [done|]. split; [by eapply free_slot_Some|]. split; [lia|done]. }
  rewrite <- app_assoc. cbn [app].
  destruct (short_header_recovered _ _ _ _ _ (0x30 :: data) expected Hnext Hla Hcid Hexp Hdist Hwin ad_header) as [fl Hdec].
  exists fl, (zlen hh). split; [exact Hdec|].
  assert (slice_from (E := Error.t) (hh ++ 0x30 :: data) (zlen hh) = Ok (0x30 :: data)) as Hslice.
  { apply slice_from_app. }
  pose proof (decode_datagram data ltac:(unfold U64_MAX; lia)) as Hdg.
  split.
  - unfold payloads. rewrite Hslice. cbn [mbind outcome_bind]. cbn [length payloads_of]. rewrite Hdg.
    by rewrite drop_all_end.
  - assert (zlen (0x30 :: data) = zlen data + 1) as Hz by (unfold zlen; cbn [length]; lia).
    apply (one_frame _ _ (Datagram data false)); rewrite ?Hz; [exact Hdg|lia| |done]. cbn [Receive.parse_frame]. rewrite bind_gets, Hlim.
    by rewrite (proj2 (Z.eqb_neq _ _)), (proj2 (Z.ltb_ge _ _)) by lia.
Qed.

Lemma datagram_header_not_Panic e d : is_cid d -> Datagrams.datagram_header e d <> Panic.
Proof.
  intros Hd. unfold Datagrams.datagram_header, Credit.packet_header, short_encode. cbv zeta.
  cbn [packet_number_len dcid packet_number].
  set (k := clamp (Ep.next_packet_number_len e) 1 4). assert (1 <= k <= 4) as Hk by (unfold k, clamp; repeat case_match; lia).
  destruct (_ <? _); [done|]. pose proof (cid_encode_not_Panic d (16 - 1)).
  destruct (ConnectionId.encode d (16 - 1)) as [cid| |] eqn:Hc; [|done..]. cbn [mbind outcome_bind].
  apply cid_encode_len in Hc as (Hl & _); [|done].
  assert (ConnectionId.encoded_len d <= 8) by (unfold ConnectionId.encoded_len; repeat case_match; lia).
  assert (forall (b : Z) l, zlen (b :: l) = zlen l + 1) as Hcons by (intros; unfold zlen; cbn [length]; lia).
  rewrite Hcons, zlen_app, zlen_be_bytes, Hl. by rewrite (proj2 (Z.leb_gt _ _)) by lia.
Qed.

Lemma layout_not_Panic e i payload storage_len prefix suffix mtu priority :
  0 <= payload.1 <= payload.2 -> (forall d, Ep.peer_connection_id_on_path e i = Some d -> is_cid d) ->
  Datagrams.datagram_send_layout e i payload storage_len prefix suffix mtu priority <> Panic.
Proof.
  intros Hpay Hcid. unfold Datagrams.datagram_send_layout.
  apply bind_not_Panic; [apply guard_err_not_Panic|]. intros [] _.
  apply bind_not_Panic; [apply ok_or_not_Panic|]. intros p _.
  apply bind_not_Panic; [apply guard_err_not_Panic|]. intros [] _. cbv zeta.
  apply bind_not_Panic; [apply guard_err_not_Panic|]. intros [] _.
  apply bind_not_Panic; [apply ok_or_not_Panic|]. intros d Hd%ok_or_Ok.
  apply bind_not_Panic; [by apply datagram_header_not_Panic, Hcid|]. intros header _.
  apply bind_not_Panic; [apply ok_or_not_Panic|]. intros s Hs%ok_or_Ok.
  apply bind_not_Panic; [apply ok_or_not_Panic|]. intros t Ht%ok_or_Ok.
  assert (s <= t) as Hst.
  { unfold checked_sub in Hs. destruct (_ <=? _); [|done]. injection Hs as <-.
    unfold checked_add, Datagrams.datagram_tag_len in Ht. destruct (_ <=? _); [|done]. injection Ht as <-.
    pose proof (zlen_nonneg header). lia. }
  rewrite (proj2 (Z.ltb_ge _ _)) by lia.
  apply bind_not_Panic; [|intros [] _; apply bind_not_Panic; [|done]].
  - apply bind_not_Panic; [apply guard_err_not_Panic|]. intros [] _. apply guard_err_not_Panic.
  - unfold Datagrams.may_send. apply bind_not_Panic; [apply guard_err_not_Panic|]. intros [] _.
    apply bind_not_Panic; [unfold Ep.checked_next_packet_number; by destruct (_ <=? _)|]. intros next _.
    do 2 (apply bind_not_Panic; [apply guard_err_not_Panic|]; intros [] _). apply guard_err_not_Panic.
Qed.

(** A refused datagram costs nothing.  The send path of a datagram never
    panics, whatever the payload range inside its buffer; when it refuses, the
    endpoint is as it was but for the token bucket of the path; and once the
    layout has been admitted, the only refusal left is the pacer's. *)
Theorem datagram_refused e i payload storage prefix suffix mtu priority :
  0 <= payload.1 <= payload.2 -> (forall d, Ep.peer_connection_id_on_path e i = Some d -> is_cid d) ->
  (forall p, get_path e i = Some p -> next_send_order p <= U64_MAX) ->
  exists r e', Datagrams.prepare_on_path i payload storage prefix suffix mtu priority e = (r, e') /\ r <> Panic /\
    (forall err, r = Err err -> pacer_only i e e' /\
       (is_ok (Datagrams.datagram_send_layout e i payload (zlen storage) prefix suffix mtu priority) = true -> err = Error.Blocked)).
Proof.
  intros Hpay Hcid Hord.
  pose proof (layout_not_Panic e i payload (zlen storage) prefix suffix mtu priority Hpay Hcid) as Hnp.
  unfold Datagrams.prepare_on_path. rewrite bind_gets_res.
  destruct (Datagrams.datagram_send_layout _ _ _ _ _ _ _ _) as [[[s t] h]|err|] eqn:Hl; [| |done].
  - apply layout_Ok in Hl as (p & d' & hh & k & []). specialize (Hord p ad_path).
    destruct (commit_runs e i (t - s) p k ad_path ad_slot ad_flight ltac:(lia) ad_number) as (r & e1 & Hc & Hres).
    rewrite bind_unfold, Hc. destruct Hres as [[-> Hpace]|(-> & _)].
    + eexists _, _. split; [reflexivity|]. split; [done|]. by intros err [= <-].
    + eexists _, _. split; [reflexivity|]. done.
  - eexists _, _. split; [reflexivity|]. split; [done|]. intros er _. split; [by left|done].
Qed.
End datagrams.

(** ** A datagram of a client, and one too long *)
Section examples.
#[local] Existing Instance LedgerSteps.plenty.
#[local] Existing Instance LedgerSteps.big_packets.
#[local] Existing Instance LedgerSteps.no_protection.

(** The client of [LedgerSteps.v], whose peer takes datagrams of 300 bytes. *)
Definition datagram_client : EndpointState := client <| e_peer_max_datagram_frame_size := 300 |>.
Definition lease : bytes := replicate 40 0 ++ replicate 20 0x2a ++ replicate 40 0.
Definition prepared (a b : Z) : res bytes * EndpointState :=
  Datagrams.prepare_on_path 0 (a, b) lease 14 4 1100 High datagram_client.
Definition datagram_packet : bytes := match (prepared 40 60).1 with Ok b => b | _ => [] end.
Definition datagram_peer : EndpointState :=
  start Server (mkConnectionLimits 300 65536 16384 16 4) 1200 4.

Lemma datagram_delivered_witness :
  zlen datagram_packet = 24 /\ exists n, payloads datagram_packet n = Ok [replicate 20 0x2a].
Proof.
  split; [by vm_compute|].
  destruct (datagram_delivered datagram_client 0 (40, 60) lease 14 4 1100 High datagram_packet (prepared 40 60).2 9 0 datagram_peer)
    as (_ & _ & (fl & n & _ & Hp & _) & _); [by vm_compute| | | |by vm_compute| |by intros p [= <-]| | | | | |done|by exists n].
  all: by vm_compute.
Defined.

(** The packet would start before the 14 bytes the bearer needs in front. *)
Lemma datagram_refused_witness :
  (prepared 14 60).1 = Err Error.BufferTooSmall /\ pacer_only 0 datagram_client (prepared 14 60).2.
Proof.
  assert ((prepared 14 60).1 = Err Error.BufferTooSmall) as He by (by vm_compute). split; [exact He|].
  destruct (datagram_refused datagram_client 0 (14, 60) lease 14 4 1100 High) as (r & e' & Hrun & _ & Herr);
    [by vm_compute|by intros d [= <-]|by intros p [= <-]|].
  unfold prepared in *. rewrite Hrun in *. by apply (Herr Error.BufferTooSmall).
Defined.
End examples.
