(* ===== verification/Bootstrap.v ===== *)
(** * Association bootstrap

    The OPEN and OPEN_ACK exchange of [src/crates/quic-lite/src/lib.rs]: the
    receiver profile carried on stream 0 ([encode_bootstrap_profile],
    [decode_bootstrap_profile]), the Initial packets around it, and the relay's
    [rewrite_relay_open].  The theorems show that each side learns exactly the
    profile its peer encoded, for every combination of the optional fields, that
    a relayed OPEN reaches the next hop with only its connection identifiers
    changed, and that no received bytes make the profile decoder panic. *)

From S2P Require Import Prelude Wire PacketHeader AckRanges Reader Frames Keyed FlowControl.

Definition CONTROL_STREAM_ID : Z := 0.
Definition STATELESS_RESET_TOKEN_LEN : Z := 16.

Record BootstrapOpen : Type := mkBootstrapOpen {
  client_receive_cid : Z;
  bo_max_data : Z;
  bo_max_stream_data : Z;
  bo_max_datagram_frame_size : Z;
  bo_max_in_flight_packets : Z;
  bo_stateless_reset_token : option bytes;
  bo_requested_peer_limits : option ReceiveWindowRequest;
}.

Record BootstrapOpenAck : Type := mkBootstrapOpenAck {
  server_receive_cid : Z;
  ba_max_data : Z;
  ba_max_stream_data : Z;
  ba_max_datagram_frame_size : Z;
  ba_max_in_flight_packets : Z;
  ba_stateless_reset_token : option bytes;
}.

(** ** The profile *)

(** [parameters\[used..used + s.len()\].copy_from_slice(s)]: panics when it does
    not fit. *)
Definition put_copy (s : bytes) : writer Error.t := fun cap =>
  if cap <? zlen s then Panic else Ok s.

Definition put_token (t : option bytes) : writer Error.t :=
  match t with Some t => put_copy t | None => wnil end.

Definition put_request (r : option ReceiveWindowRequest) : writer Error.t :=
  match r with
  | Some r => fun cap =>
      if (rw_max_data r =? 0) || (rw_max_stream_data r =? 0) then Err Error.BootstrapInvalid
      else (put_varint (rw_max_data r) ;;; put_varint (rw_max_stream_data r)) cap
  | None => wnil
  end.

(** The RFC 9221 parameter: identifier, length of the value, value. *)
Definition put_datagram_parameter (size : Z) : writer Error.t := fun cap =>
  if negb (size =? 0) then
    (put_varint 0x20 ;;; fun cap =>
       value ← put_varint size 8;
       (put_varint (zlen value) ;;; put_copy value) cap) cap
  else Ok [].

Definition profile_version (token : option bytes) (request : option ReceiveWindowRequest)
    (datagram : Z) : Z :=
  Z.lor (match token, request with
         | None, None => 0 | Some _, None => 1 | None, Some _ => 2 | Some _, Some _ => 3
         end) (if negb (datagram =? 0) then 4 else 0).

Definition encode_bootstrap_profile (kind : Z) (limits : ConnectionLimits)
    (max_in_flight_packets : Z) (token : option bytes) (request : option ReceiveWindowRequest)
    (cap : Z) : res bytes :=
  if (cap <? 3) || (1 <? kind) then Err Error.BufferTooSmall else
  v ← put_varint (profile_version token request (max_datagram_frame_size limits)) (cap - 1);
  params ← (put_varint (l_max_data limits) ;;; put_varint (l_max_stream_data limits)
            ;;; put_varint max_in_flight_packets ;;; put_token token ;;; put_request request
            ;;; put_datagram_parameter (max_datagram_frame_size limits)) 64;
  n ← put_varint (zlen params) (cap - 1 - zlen v);
  if cap <? 1 + zlen v + zlen n + zlen params then Err Error.BufferTooSmall else
  Ok (kind :: v ++ n ++ params).

(** The [while !tail.is_empty()] loop over the extension parameters. *)
Fixpoint scan_extensions (fuel : nat) (tail : bytes) (size : Z) (seen : bool) : res Z :=
  match fuel with
  | O => Err Error.BootstrapInvalid
  | S fuel' =>
      match tail with
      | [] => Ok size
      | _ :: _ =>
          '(id, n) ← get_varint tail;
          tail ← slice_from tail n;
          '(length, n) ← get_varint tail;
          tail ← slice_from tail n;
          len ← ok_or (usize_try_from length) Error.BootstrapInvalid;
          value ← ok_or (get_range tail 0 len) Error.Truncated;
          '(size, seen) ←
            (if id =? 0x20 then
               if seen then Err Error.BootstrapInvalid else
               '(sz, used) ← get_varint value;
               if negb (used =? len) then Err Error.BootstrapInvalid else Ok (sz, true)
             else Ok (size, seen));
          tail ← slice_from tail len;
          scan_extensions fuel' tail size seen
      end
  end.

(** The [if version & 4 != 0] block: the datagram size and the parameters
    before the extensions. *)
Definition decode_extensions (version expected_kind values_len : Z) (parameters : bytes)
    : res (Z * bytes) :=
  if Z.land version 4 =? 0 then Ok (0, parameters) else
  let extension_at := if Z.land version 1 =? 0 then values_len
                      else values_len + STATELESS_RESET_TOKEN_LEN in
  extension_at ←
    (if Z.land version 2 =? 0 then Ok extension_at
     else if negb (expected_kind =? 0) then Err Error.BootstrapInvalid
     else
       s ← ok_or (get_from parameters extension_at) Error.Truncated;
       '(_, n) ← get_varint s;
       '(_, p) ← get_varint_at parameters (extension_at + n);
       Ok p);
  tail ← ok_or (get_from parameters extension_at) Error.Truncated;
  size ← scan_extensions (S (length tail)) tail 0 false;
  parameters ← slice parameters 0 extension_at;
  Ok (size, parameters).

(** The request after the optional token. *)
Definition decode_request (request : bytes) : res ReceiveWindowRequest :=
  '(max_data, p) ← get_varint_at request 0;
  '(max_stream_data, p) ← get_varint_at request p;
  if negb (p =? zlen request) || (max_data =? 0) || (max_stream_data =? 0)
  then Err Error.BootstrapInvalid else Ok (mkReceiveWindowRequest max_data max_stream_data).

(** The [match version & 3]. *)
Definition decode_optional (version expected_kind values_len : Z) (parameters : bytes)
    : res (option bytes * option ReceiveWindowRequest) :=
  let v := Z.land version 3 in
  if (v =? 0) && (values_len =? zlen parameters) then Ok (None, None)
  else if (v =? 1) && (values_len + STATELESS_RESET_TOKEN_LEN =? zlen parameters) then
    t ← slice_from parameters values_len; Ok (Some t, None)
  else if ((v =? 2) || (v =? 3)) && (expected_kind =? 0) then
    if v =? 3 then
      if zlen parameters <? values_len + STATELESS_RESET_TOKEN_LEN then Err Error.BootstrapInvalid
      else
        t ← slice parameters values_len (values_len + STATELESS_RESET_TOKEN_LEN);
        s ← slice_from parameters (values_len + STATELESS_RESET_TOKEN_LEN);
        r ← decode_request s; Ok (Some t, Some r)
    else
      s ← slice_from parameters values_len;
      r ← decode_request s; Ok (None, Some r)
  else Err Error.BootstrapInvalid.

Definition profile : Type :=
  (ConnectionLimits * Z * option bytes * option ReceiveWindowRequest)%type.

Definition decode_bootstrap_profile (input : bytes) (expected_kind : Z) : res profile :=
  match input with
  | [] => Err Error.BootstrapInvalid
  | k :: _ =>
      if negb (k =? expected_kind) then Err Error.BootstrapInvalid else
      '(version, p) ← get_varint_at input 1;
      if 7 <? version then Err Error.BootstrapInvalid else
      '(length, p) ← get_varint_at input p;
      parameters ← slice_from input p;
      if negb (zlen parameters =? length) then Err Error.BootstrapInvalid else
      '(max_data, p) ← get_varint_at parameters 0;
      '(max_stream_data, p) ← get_varint_at parameters p;
      '(packets, values_len) ← get_varint_at parameters p;
      '(size, parameters) ← decode_extensions version expected_kind values_len parameters;
      '(token, request) ← decode_optional version expected_kind values_len parameters;
      if (zlen parameters <? values_len) || (max_data =? 0) || (max_stream_data =? 0)
         || (U16_MAX <? packets)
      then Err Error.BootstrapInvalid else
      Ok (mkConnectionLimits size max_data max_stream_data
            (l_max_streams_bidi Limits.default) (l_max_streams_uni Limits.default),
          as_u16 packets, token, request)
  end.

(** ** The packets *)
Definition control_frame (body : bytes) : Frame :=
  Stream (mkStreamFrame CONTROL_STREAM_ID 0 true body).

(** [encode_bootstrap_open_packet_with_profile_reset_token_and_peer_receive_request] *)
Definition encode_bootstrap_open_packet (client_cid packet_number : Z) (limits : ConnectionLimits)
    (max_in_flight_packets : Z) (token : option bytes) (request : option ReceiveWindowRequest)
    (cap : Z) : res bytes :=
  if client_cid =? 0 then Err Error.BootstrapInvalid else
  body ← encode_bootstrap_profile 0 limits max_in_flight_packets token request 96;
  frame ← encode (control_frame body) 96;
  encode_long_packet LONG_PACKET_INITIAL None (Some client_cid) packet_number 1 frame cap.

(** The stream-0 frame that must fill the rest of the packet. *)
Definition decode_control_frame (input : bytes) (header_len : Z) : res bytes :=
  s ← slice_from input header_len;
  '(frame, used) ← decode_frame s;
  if negb (header_len + used =? zlen input) then Err Error.BootstrapInvalid else
  match frame with
  | Stream stream =>
      if negb (s_id stream =? CONTROL_STREAM_ID) || negb (s_offset stream =? 0)
         || negb (s_fin stream)
      then Err Error.BootstrapInvalid else Ok (s_data stream)
  | _ => Err Error.BootstrapInvalid
  end.

(** [decode_bootstrap_open_packet_with_limits] *)
Definition decode_bootstrap_open_packet (input : bytes) : res (ShortHeader * BootstrapOpen) :=
  '(long, header_len, _) ← decode_long_packet input;
  if negb (l_packet_type long =? LONG_PACKET_INITIAL) || bool_decide (l_dcid long <> None)
  then Err Error.BootstrapInvalid else
  source_cid ← ok_or (l_scid long) Error.BootstrapInvalid;
  data ← decode_control_frame input header_len;
  '(limits, packets, token, request) ← decode_bootstrap_profile data 0;
  zero ← ok_or (ConnectionId.new 0) Error.BootstrapInvalid;
  Ok (mkShortHeader FLAG_FIXED zero (l_packet_number long) (l_packet_number_len long),
      mkBootstrapOpen source_cid (l_max_data limits) (l_max_stream_data limits)
        (max_datagram_frame_size limits) packets token request).

(** [encode_bootstrap_open_ack_packet_with_profile_and_reset_token] *)
Definition encode_bootstrap_open_ack_packet (client_cid server_cid packet_number : Z)
    (limits : ConnectionLimits) (max_in_flight_packets : Z) (token : option bytes) (cap : Z)
    : res bytes :=
  if (client_cid =? 0) || (server_cid =? 0) || (client_cid =? server_cid)
  then Err Error.BootstrapInvalid else
  body ← encode_bootstrap_profile 1 limits max_in_flight_packets token None 96;
  frame ← encode (control_frame body) 96;
  encode_long_packet LONG_PACKET_INITIAL (Some client_cid) (Some server_cid) packet_number 1
    frame cap.

(** [decode_bootstrap_open_ack_packet_with_limits] *)
Definition decode_bootstrap_open_ack_packet (input : bytes) (expected_client_cid : Z)
    : res (ShortHeader * BootstrapOpenAck) :=
  '(long, header_len, _) ← decode_long_packet input;
  if negb (l_packet_type long =? LONG_PACKET_INITIAL)
     || negb (bool_decide (l_dcid long = Some expected_client_cid))
  then Err Error.WrongConnectionId else
  data ← decode_control_frame input header_len;
  server_cid ← ok_or (l_scid long) Error.BootstrapInvalid;
  if server_cid =? expected_client_cid then Err Error.BootstrapInvalid else
  '(limits, packets, token, request) ← decode_bootstrap_profile data 1;
  if bool_decide (request <> None) then Err Error.BootstrapInvalid else
  Ok (mkShortHeader FLAG_FIXED expected_client_cid (l_packet_number long)
        (l_packet_number_len long),
      mkBootstrapOpenAck server_cid (l_max_data limits) (l_max_stream_data limits)
        (max_datagram_frame_size limits) packets token).

(** [rewrite_relay_open]: the relay's [direct] buffer has the packet MTU. *)
Definition rewrite_relay_open {F : Features} (input : bytes) (outbound_dcid : option Z)
    (relay_receive_cid : Z) (cap : Z) : res bytes :=
  if relay_receive_cid =? 0 then Err Error.BootstrapInvalid else
  direct ← rewrite_bootstrap_destination input DEFAULT_MAX_PACKET_SIZE;
  decode_bootstrap_open_packet direct ≫= fun _ =>
  '(header, payload_at, payload_len) ← decode_long_packet direct;
  payload ← slice direct payload_at (payload_at + payload_len);
  encode_long_packet LONG_PACKET_INITIAL outbound_dcid (Some relay_receive_cid)
    (l_packet_number header) (l_packet_number_len header) payload cap.

#[global] Arguments encode_bootstrap_profile : simpl never.
#[global] Arguments decode_bootstrap_profile : simpl never.

(** ** The profile round trip *)
Definition token_ok (t : option bytes) : Prop :=
  match t with Some t => zlen t = STATELESS_RESET_TOKEN_LEN | None => True end.

Definition request_ok (r : option ReceiveWindowRequest) : Prop :=
  match r with Some r => 0 <= rw_max_data r /\ 0 <= rw_max_stream_data r | None => True end.

Definition is_some {A} (o : option A) : bool := match o with Some _ => true | None => false end.

Lemma profile_version_bits t r size :
  let v := profile_version t r size in
  0 <= v <= 7 /\ (Z.land v 4 =? 0) = (size =? 0) /\ (Z.land v 1 =? 0) = negb (is_some t) /\
  (Z.land v 2 =? 0) = negb (is_some r) /\
  Z.land v 3 = (if is_some t then 1 else 0) + (if is_some r then 2 else 0).
Proof.
  unfold profile_version. destruct t, r, (size =? 0); vm_compute; repeat split; discriminate.
Qed.

(** A sequence of copies at a cursor. *)
Lemma at_cursor_take input p b rest :
  at_cursor input p (b ++ rest) -> at_cursor (take (Z.to_nat (p + zlen b)) input) p b.
Proof.
  intros Hc. pose proof (at_cursor_app _ _ _ _ Hc) as [Hp' _]. destruct Hc as [Hp Hd].
  assert (Hl : zlen (take (Z.to_nat (p + zlen b)) input) = p + zlen b) by (apply zlen_take; lia).
  split; [zlia|]. rewrite skipn_firstn_comm, Hd.
  replace (Z.to_nat (p + zlen b) - Z.to_nat p)%nat with (length b) by (unfold zlen in *; lia).
  apply take_app_length.
Qed.

Lemma scan_extensions_datagram size ex cap :
  0 < size -> put_datagram_parameter size cap = Ok ex ->
  scan_extensions (S (length ex)) ex 0 false = Ok size.
Proof.
  intros Hs. unfold put_datagram_parameter. rewrite (proj2 (Z.eqb_neq size 0)) by lia.
  intros (b1 & b2 & H1 & (value & Hv & (b3 & b4 & H3 & H4 & ->)%wseq_Ok)%bind_Ok & ->)%wseq_Ok.
  unfold put_copy in H4. destruct (_ <? _); [done|]. injection H4 as <-.
  pose proof (put_varint_len 32 _ _ ltac:(lia) H1) as (Hl1 & _).
  pose proof (put_varint_len _ _ _ (zlen_nonneg value) H3) as (Hl3 & _).
  pose proof (put_varint_len size _ _ ltac:(lia) Hv) as (Hlv & _ & Hv8).
  assert (Hv1 : 1 <= zlen value).
  { rewrite Hlv. unfold varint_len. repeat case_match; lia. }
  change (varint_len 32) with 1 in Hl1.
  destruct b1 as [|x b1]; [by rewrite zlen_nil in Hl1|].
  assert (Hfuel : exists fuel, length ((x :: b1) ++ b3 ++ value) = S fuel) by (eexists; reflexivity).
  destruct Hfuel as [fuel Hfuel]. rewrite Hfuel. cbn [scan_extensions app].
  rewrite app_comm_cons, (get_put_varint 32 _ _ _ ltac:(lia) H1). cbn [mbind outcome_bind].
  rewrite slice_from_app. cbn [mbind outcome_bind].
  rewrite (get_put_varint _ _ _ _ (zlen_nonneg value) H3). cbn [mbind outcome_bind].
  rewrite slice_from_app. cbn [mbind outcome_bind].
  rewrite usize_small by (unfold U64_MAX; lia). cbn [ok_or mbind outcome_bind].
  assert (Hg : get_range value 0 (zlen value) = Some value).
  { apply get_range_Some. split; [zlia|]. split; [lia|].
    by rewrite Z.sub_0_r, to_nat_zlen, drop_0, firstn_all. }
  rewrite Hg. cbn [ok_or mbind outcome_bind]. change (32 =? 0x20) with true. cbn [andb].
  pose proof (get_put_varint size _ _ [] ltac:(lia) Hv) as Hgv. rewrite app_nil_r in Hgv.
  rewrite Hgv. cbn [mbind outcome_bind]. rewrite Z.eqb_refl. cbn [negb mbind outcome_bind].
  assert (Hsf : slice_from (E:=Error.t) value (zlen value) = Ok []).
  { pose proof (slice_from_app (E:=Error.t) value []) as H. by rewrite app_nil_r in H. }
  rewrite Hsf. cbn [mbind outcome_bind]. by destruct fuel.
Qed.

(** The request after its two varints. *)
Lemma decode_request_put r cap b :
  0 <= rw_max_data r -> 0 <= rw_max_stream_data r -> put_request (Some r) cap = Ok b ->
  decode_request b = Ok r.
Proof.
  intros H1 H2. unfold put_request. destruct (_ || _) eqn:Hz; [done|].
  intros (b1 & b2 & Hb1 & Hb2 & ->)%wseq_Ok. unfold decode_request.
  pose proof (at_cursor_start (b1 ++ b2)) as Hc.
  rewrite (get_varint_at_put _ _ _ _ _ _ H1 Hb1 Hc). cbn [mbind outcome_bind].
  assert (Hc2 : at_cursor (b1 ++ b2) (0 + zlen b1) (b2 ++ []))
    by (rewrite app_nil_r; by apply at_cursor_app).
  rewrite (get_varint_at_put _ _ _ _ _ _ H2 Hb2 Hc2). cbn [mbind outcome_bind].
  apply orb_false_iff in Hz as [-> ->]. rewrite zlen_app, Z.add_0_l, Z.eqb_refl. by destruct r.
Qed.

(** The bytes of the optional fields. *)
Lemma put_token_Ok t cap b :
  token_ok t -> put_token t cap = Ok b ->
  zlen b = (if is_some t then STATELESS_RESET_TOKEN_LEN else 0) /\ t = (if is_some t then Some b else None).
Proof.
  destruct t as [t|]; simpl; [|by intros _ [= <-]]. unfold put_copy.
  destruct (_ <? _); [done|]. intros Ht [= <-]. done.
Qed.

Lemma put_request_None cap b : put_request None cap = Ok b -> b = [].
Proof. by intros [= <-]. Qed.

Lemma decode_extensions_spec t r size kind vl params tk rq ex cap1 cap2 cap3 :
  token_ok t -> request_ok r -> 0 <= size -> (is_some r = true -> kind = 0) ->
  put_token t cap1 = Ok tk -> put_request r cap2 = Ok rq ->
  put_datagram_parameter size cap3 = Ok ex ->
  at_cursor params vl (tk ++ rq ++ ex) ->
  decode_extensions (profile_version t r size) kind vl params =
    Ok (size, take (Z.to_nat (vl + zlen (tk ++ rq))) params).
Proof.
  intros Ht Hr Hs Hk Htk Hrq Hex Hc. destruct (put_token_Ok _ _ _ Ht Htk) as [Hlt _].
  destruct (profile_version_bits t r size) as (_ & H4 & H1 & H2 & _).
  unfold decode_extensions. rewrite H4. pose proof (at_cursor_len _ _ _ Hc) as Hlen.
  destruct (Z.eqb_spec size 0) as [->|Hs0].
  - injection Hex as <-. rewrite take_ge; [done|]. autorewrite with zlen in Hlen.
    rewrite zlen_app. unfold zlen in *. lia.
  - rewrite H1. set (at1 := if negb (is_some t) then vl else vl + STATELESS_RESET_TOKEN_LEN).
    assert (Hat1 : at1 = vl + zlen tk) by (unfold at1; rewrite Hlt; destruct (is_some t); simpl; lia).
    assert (Hc1 : at_cursor params at1 (rq ++ ex)) by (rewrite Hat1; by apply at_cursor_app).
    assert (Hgf : forall p s, at_cursor params p s -> get_from params p = Some s).
    { intros p s [Hp Hd]. apply get_from_Some. by rewrite Hd. }
    rewrite H2.
    assert (Hstep : (if negb (is_some r) then Ok at1 else
        if negb (kind =? 0) then Err Error.BootstrapInvalid else
        s ← ok_or (get_from params at1) Error.Truncated; '(_, n) ← get_varint s;
        '(_, p) ← get_varint_at params (at1 + n); Ok p) = Ok (at1 + zlen rq)).
    { destruct r as [r|]; simpl.
      - rewrite (Hk eq_refl). simpl. rewrite (Hgf _ _ Hc1). simpl.
        destruct Hr as [Hr1 Hr2]. unfold put_request in Hrq. destruct (_ || _); [done|].
        apply wseq_Ok in Hrq as (b1 & b2 & Hb1 & Hb2 & ->). rewrite <- app_assoc in *.
        rewrite (get_put_varint _ _ _ _ Hr1 Hb1). simpl.
        rewrite (get_varint_at_put _ _ _ _ _ _ Hr2 Hb2 (at_cursor_app _ _ _ _ Hc1)). simpl.
        rewrite zlen_app. f_equal. lia.
      - injection Hrq as <-. rewrite zlen_nil. f_equal. lia. }
    rewrite Hstep. cbn [mbind outcome_bind]. apply at_cursor_app in Hc1 as Hc2.
    rewrite (Hgf _ _ Hc2). cbn [ok_or mbind outcome_bind].
    rewrite (scan_extensions_datagram size ex cap3) by (done || lia). cbn [mbind outcome_bind].
    assert (Hsl : slice (E:=Error.t) params 0 (at1 + zlen rq) =
                  Ok (take (Z.to_nat (vl + zlen (tk ++ rq))) params)).
    { apply slice_Ok. destruct Hc2 as [? _]. split; [lia|]. split; [lia|].
      rewrite Z.sub_0_r, drop_0. do 2 f_equal. rewrite zlen_app. lia. }
    by rewrite Hsl.
Qed.

Lemma decode_optional_spec t r size kind vl base tk rq cap1 cap2 :
  token_ok t -> request_ok r -> (is_some r = true -> kind = 0) ->
  put_token t cap1 = Ok tk -> put_request r cap2 = Ok rq ->
  at_cursor base vl (tk ++ rq) ->
  decode_optional (profile_version t r size) kind vl base = Ok (t, r).
Proof.
  intros Ht Hr Hk Htk Hrq Hc. destruct (put_token_Ok _ _ _ Ht Htk) as [Hlt Hte].
  destruct (profile_version_bits t r size) as (_ & _ & _ & _ & H3).
  unfold decode_optional. rewrite H3. pose proof (at_cursor_len _ _ _ Hc) as Hlen.
  rewrite zlen_app in Hlen. destruct r as [r|].
  - destruct Hr as [Hr1 Hr2]. pose proof (decode_request_put r _ _ Hr1 Hr2 Hrq) as Hdr.
    specialize (Hk eq_refl). subst kind. destruct t as [t|]; simpl in *.
    + injection Hte as <-. unfold STATELESS_RESET_TOKEN_LEN in *.
      rewrite (proj2 (Z.ltb_ge _ _)) by zlia.
      rewrite <- Hlt, (at_cursor_slice_range _ _ _ _ Hc). simpl.
      rewrite (at_cursor_slice _ _ _ (at_cursor_app _ _ _ _ Hc)). simpl. by rewrite Hdr.
    + apply zlen_0_nil in Hlt as ->. rewrite (at_cursor_slice _ _ _ Hc). simpl. by rewrite Hdr.
  - apply put_request_None in Hrq as ->. rewrite zlen_nil in Hlen. rewrite app_nil_r in Hc.
    destruct t as [t|]; simpl in *.
    + injection Hte as <-. rewrite (proj2 (Z.eqb_eq (vl + STATELESS_RESET_TOKEN_LEN) _)) by lia.
      simpl. by rewrite (at_cursor_slice _ _ _ Hc).
    + by rewrite (proj2 (Z.eqb_eq vl _)) by lia.
Qed.

(** What a successful encoding is made of. *)
Lemma encode_profile_Ok kind limits packets t r cap bs :
  0 <= kind -> 0 <= l_max_data limits -> 0 <= l_max_stream_data limits -> 0 <= packets ->
  encode_bootstrap_profile kind limits packets t r cap = Ok bs ->
  exists v n md ms pk tk rq ex cv cn c1 c2 c3 c4 c5 c6,
    bs = kind :: v ++ n ++ md ++ ms ++ pk ++ tk ++ rq ++ ex /\ 0 <= kind <= 1 /\
    put_varint (profile_version t r (max_datagram_frame_size limits)) cv = Ok v /\
    put_varint (zlen (md ++ ms ++ pk ++ tk ++ rq ++ ex)) cn = Ok n /\
    put_varint (l_max_data limits) c1 = Ok md /\ put_varint (l_max_stream_data limits) c2 = Ok ms /\
    put_varint packets c3 = Ok pk /\ put_token t c4 = Ok tk /\ put_request r c5 = Ok rq /\
    put_datagram_parameter (max_datagram_frame_size limits) c6 = Ok ex /\ zlen bs <= cap.
Proof.
  intros Hk H1 H2 H3. unfold encode_bootstrap_profile. destruct (_ || _) eqn:Hg; [done|]. bools.
  intros (v & Hv & (params & Hp & (n & Hn & Hbs)%bind_Ok)%bind_Ok)%bind_Ok.
  destruct (Z.ltb_spec cap (1 + zlen v + zlen n + zlen params)); [done|]. injection Hbs as <-.
  apply wseq_Ok in Hp as (md & p1 & Hmd & Hp & ->). apply wseq_Ok in Hp as (ms & p2 & Hms & Hp & ->).
  apply wseq_Ok in Hp as (pk & p3 & Hpk & Hp & ->). apply wseq_Ok in Hp as (tk & p4 & Htk & Hp & ->).
  apply wseq_Ok in Hp as (rq & ex & Hrq & Hex & ->).
  exists v, n, md, ms, pk, tk, rq, ex. do 8 eexists.
  repeat (split; [first [reflexivity | eassumption | lia]|]). zlia.
Qed.

(** The profile the receiver reconstructs. *)
Definition received_profile (limits : ConnectionLimits) (packets : Z) (t : option bytes)
    (r : option ReceiveWindowRequest) : profile :=
  (mkConnectionLimits (max_datagram_frame_size limits) (l_max_data limits)
     (l_max_stream_data limits) (l_max_streams_bidi Limits.default)
     (l_max_streams_uni Limits.default), packets, t, r).

Definition profile_ok (kind : Z) (limits : ConnectionLimits) (packets : Z) (t : option bytes)
    (r : option ReceiveWindowRequest) : Prop :=
  0 <= kind /\ 0 < l_max_data limits /\ 0 < l_max_stream_data limits /\
  0 <= max_datagram_frame_size limits /\ is_u16 packets /\ token_ok t /\ request_ok r /\
  (is_some r = true -> kind = 0).

Lemma decode_profile_encode kind limits packets t r cap bs :
  profile_ok kind limits packets t r ->
  encode_bootstrap_profile kind limits packets t r cap = Ok bs ->
  decode_bootstrap_profile bs kind = Ok (received_profile limits packets t r).
Proof.
  intros (Hk & H1 & H2 & H3 & H4 & Ht & Hr & Hkr) He.
  destruct (encode_profile_Ok kind limits packets t r cap bs ltac:(lia) ltac:(lia) ltac:(lia)
    ltac:(lia) He) as (v & n & md & ms & pk & tk & rq & ex & cv & cn & c1 & c2 & c3 & c4 & c5 & c6
    & Hbs & Hk1 & Hv & Hn & Hmd & Hms & Hpk & Htk & Hrq & Hex & _).
  set (params := md ++ ms ++ pk ++ tk ++ rq ++ ex) in *.
  pose proof (profile_version_bits t r (max_datagram_frame_size limits)) as (Hver & _).
  assert (Hc0 : at_cursor bs 1 (v ++ n ++ params))
    by (rewrite Hbs; apply (at_cursor_cons _ 0 kind), at_cursor_start).
  pose proof (at_cursor_app _ _ _ _ Hc0) as Hc1. pose proof (at_cursor_app _ _ _ _ Hc1) as Hc2.
  assert (Hp0 : at_cursor params 0 (md ++ ms ++ pk ++ tk ++ rq ++ ex)) by apply at_cursor_start.
  pose proof (at_cursor_app _ _ _ _ Hp0) as Hp1. pose proof (at_cursor_app _ _ _ _ Hp1) as Hp2.
  pose proof (at_cursor_app _ _ _ _ Hp2) as Hp3.
  unfold decode_bootstrap_profile. rewrite Hbs at 1. rewrite Z.eqb_refl. cbn [negb].
  rewrite (get_varint_at_put _ _ _ _ _ _ (proj1 Hver) Hv Hc0). cbn [mbind outcome_bind].
  rewrite (proj2 (Z.ltb_ge 7 _)) by lia.
  rewrite (get_varint_at_put _ _ _ _ _ _ (zlen_nonneg params) Hn Hc1). cbn [mbind outcome_bind].
  rewrite (at_cursor_slice _ _ _ Hc2). cbn [mbind outcome_bind]. rewrite Z.eqb_refl. cbn [negb].
  rewrite (get_varint_at_put _ _ _ _ _ _ (Z.lt_le_incl _ _ H1) Hmd Hp0). cbn [mbind outcome_bind].
  rewrite (get_varint_at_put _ _ _ _ _ _ (Z.lt_le_incl _ _ H2) Hms Hp1). cbn [mbind outcome_bind].
  rewrite (get_varint_at_put _ _ _ _ _ _ (proj1 H4) Hpk Hp2). cbn [mbind outcome_bind].
  set (vl := 0 + zlen md + zlen ms + zlen pk) in *.
  rewrite (decode_extensions_spec _ _ _ _ _ _ _ _ _ _ _ _ Ht Hr H3 Hkr Htk Hrq Hex Hp3).
  cbn [mbind outcome_bind].
  assert (Hbase : at_cursor (take (Z.to_nat (vl + zlen (tk ++ rq))) params) vl (tk ++ rq))
    by (apply (at_cursor_take _ _ _ ex); by rewrite <- app_assoc).
  rewrite (decode_optional_spec _ _ _ _ _ _ _ _ _ _ Ht Hr Hkr Htk Hrq Hbase).
  cbn [mbind outcome_bind]. pose proof (at_cursor_len _ _ _ Hbase).
  rewrite (proj2 (Z.ltb_ge _ vl)), (proj2 (Z.ltb_ge U16_MAX _)), !(proj2 (Z.eqb_neq _ 0)) by zlia.
  cbn [orb]. by rewrite as_u16_small.
Qed.

(** ** The packets *)
Lemma control_frame_decode body cap bs :
  encode (control_frame body) cap = Ok bs -> zlen bs <= U64_MAX ->
  decode_frame bs = Ok (control_frame body, zlen bs).
Proof.
  intros He Hsz. assert (Hok : frame_ok (control_frame body)) by (simpl; unfold CONTROL_STREAM_ID; lia).
  exact (encode_reads_last _ Hok _ _ _ 0 He Hsz (at_cursor_start _)).
Qed.

Lemma decode_control_frame_encode body cap fr input p :
  encode (control_frame body) cap = Ok fr -> zlen fr <= U64_MAX -> at_cursor input p fr ->
  decode_control_frame input p = Ok body.
Proof.
  intros He Hsz Hc. unfold decode_control_frame. rewrite (at_cursor_slice _ _ _ Hc).
  cbn [mbind outcome_bind]. rewrite (control_frame_decode _ _ _ He Hsz). cbn [mbind outcome_bind].
  pose proof (at_cursor_len _ _ _ Hc). by rewrite (proj2 (Z.eqb_eq _ _)) by lia.
Qed.

Lemma control_frame_len body bs : encode (control_frame body) 96 = Ok bs -> zlen bs <= 96.
Proof.
  unfold encode, control_frame. intros (b1 & b2 & Hb1 & Hb2 & ->)%wseq_Ok.
  unfold put_bytes in Hb2. destruct (Z.ltb_spec (96 - zlen b1) (zlen (s_data
    (mkStreamFrame CONTROL_STREAM_ID 0 true body)))); [done|]. injection Hb2 as <-. cbn [s_data] in *. zlia.
Qed.

(** ** Totality of the profile decoder *)
Lemma scan_extensions_not_Panic fuel tail size seen :
  bytes_ok tail -> scan_extensions fuel tail size seen <> Panic.
Proof.
  revert tail size seen. induction fuel as [|fuel IH]; intros tail size seen Hok; [done|].
  destruct tail as [|x tail']; [done|]. cbn [scan_extensions]. set (tail := x :: tail') in *.
  apply bind_not_Panic; [by apply get_varint_not_Panic|]. intros [id n] Hn.
  apply get_varint_Ok in Hn as (_ & Hn & _); [|done].
  apply bind_not_Panic; [apply slice_from_not_Panic; lia|]. intros t1 [_ ->]%slice_from_Ok.
  assert (Hok1 : bytes_ok (drop (Z.to_nat n) tail)) by (by apply bytes_ok_drop).
  apply bind_not_Panic; [by apply get_varint_not_Panic|]. intros [len n2] Hn2.
  apply get_varint_Ok in Hn2 as (Hlen & Hn2 & _); [|done].
  apply bind_not_Panic; [apply slice_from_not_Panic; lia|]. intros t2 [_ ->]%slice_from_Ok.
  apply bind_not_Panic; [apply ok_or_not_Panic|]. intros l Hl%ok_or_Ok.
  apply bind_not_Panic; [apply ok_or_not_Panic|]. intros value Hv%ok_or_Ok.
  apply get_range_Some in Hv as (Hl1 & Hl2 & ->).
  apply bind_not_Panic.
  - destruct (id =? 32); [|done]. destruct seen; [done|].
    apply bind_not_Panic; [by apply get_varint_not_Panic, bytes_ok_take, bytes_ok_drop, bytes_ok_drop|].
    intros [sz used] _. by destruct (negb _).
  - intros [sz seen'] _. apply bind_not_Panic; [apply slice_from_not_Panic; lia|].
    intros t3 [_ ->]%slice_from_Ok. by apply IH, bytes_ok_drop, bytes_ok_drop.
Qed.

(** Each turn consumes at least two bytes, so the fuel is never exhausted. *)
Lemma scan_extensions_fuel f1 f2 tail size seen :
  bytes_ok tail -> (length tail < f1)%nat -> (length tail < f2)%nat ->
  scan_extensions f1 tail size seen = scan_extensions f2 tail size seen.
Proof.
  revert f2 tail size seen. induction f1 as [|f1 IH]; intros f2 tail size seen Hok H1 H2; [lia|].
  destruct f2 as [|f2]; [lia|]. destruct tail as [|x tail']; [done|].
  cbn [scan_extensions]. set (tail := x :: tail') in *.
  destruct (get_varint tail) as [[id n]| |] eqn:Hg; [|done..]. cbn [mbind outcome_bind].
  apply get_varint_Ok in Hg as (_ & Hn & _); [|done].
  destruct (slice_from tail n) as [t1| |] eqn:Ht1; [|done..]. cbn [mbind outcome_bind].
  apply slice_from_Ok in Ht1 as [_ ->].
  destruct (get_varint (drop (Z.to_nat n) tail)) as [[len n2]| |]; [|done..]. cbn [mbind outcome_bind].
  destruct (slice_from (drop (Z.to_nat n) tail) n2) as [t2| |] eqn:Ht2; [|done..].
  cbn [mbind outcome_bind]. apply slice_from_Ok in Ht2 as [_ ->].
  destruct (usize_try_from len) as [l|]; [|done]. cbn [ok_or mbind outcome_bind].
  destruct (get_range _ 0 l); [|done]. cbn [ok_or mbind outcome_bind].
  destruct (if id =? 32 then _ else _) as [[sz seen']| |]; [|done..]. cbn [mbind outcome_bind].
  destruct (slice_from (drop (Z.to_nat n2) (drop (Z.to_nat n) tail)) l) as [t3| |] eqn:Ht3; [|done..].
  apply slice_from_Ok in Ht3 as [_ ->]. cbn [mbind outcome_bind].
  apply IH; [by apply bytes_ok_drop, bytes_ok_drop, bytes_ok_drop|..];
    rewrite !length_drop; unfold zlen in *; lia.
Qed.

Lemma decode_extensions_not_Panic v k vl params :
  bytes_ok params -> 0 <= vl <= zlen params ->
  decode_extensions v k vl params <> Panic /\
  (forall size base, decode_extensions v k vl params = Ok (size, base) -> bytes_ok base).
Proof.
  intros Hok Hvl. unfold decode_extensions. destruct (Z.land v 4 =? 0).
  { split; [done|]. by intros ? ? [= _ <-]. }
  set (e := if Z.land v 1 =? 0 then vl else _).
  assert (He : 0 <= e) by (unfold e, STATELESS_RESET_TOKEN_LEN; case_match; lia).
  assert (Hat : forall m, (if Z.land v 2 =? 0 then Ok e else
      if negb (k =? 0) then Err Error.BootstrapInvalid else
      s ← ok_or (get_from params e) Error.Truncated; '(_, n) ← get_varint s;
      '(_, p) ← get_varint_at params (e + n); Ok p) = m -> m <> Panic /\
      (forall at_, m = Ok at_ -> 0 <= at_)).
  { intros m <-. destruct (Z.land v 2 =? 0); [split; [done|by intros ? [= <-]]|].
    destruct (negb _); [done|]. destruct (get_from params e) as [s|] eqn:Hg; [|done]. simpl.
    apply get_from_Some in Hg as [Hr ->].
    pose proof (get_varint_not_Panic _ (bytes_ok_drop (Z.to_nat e) _ Hok)) as Hn.
    destruct (get_varint (drop (Z.to_nat e) params)) as [[a n]| |] eqn:Hgv; [|done..]. simpl.
    apply get_varint_Ok in Hgv as (_ & Hn1 & _); [|by apply bytes_ok_drop].
    rewrite zlen_drop in Hn1 by lia.
    pose proof (get_varint_at_not_Panic params (e + n) Hok ltac:(lia)) as Hn2.
    destruct (get_varint_at params (e + n)) as [[a2 p]| |] eqn:Hp; [|done..]. simpl.
    apply get_varint_at_Ok in Hp as (_ & ? & _); [|done]. split; [done|]. intros ? [= <-]. lia. }
  destruct (Hat _ eq_refl) as [Hnp Hpos]. destruct (if Z.land v 2 =? 0 then _ else _) as [at_| |];
    [|done..]. specialize (Hpos at_ eq_refl). cbn [mbind outcome_bind].
  destruct (get_from params at_) as [tail|] eqn:Htl; [|done]. cbn [ok_or mbind outcome_bind].
  apply get_from_Some in Htl as [Hat_ ->].
  pose proof (scan_extensions_not_Panic (S (length (drop (Z.to_nat at_) params)))
    (drop (Z.to_nat at_) params) 0 false (bytes_ok_drop _ _ Hok)) as Hsc.
  destruct (scan_extensions _ _ 0 false) as [size| |]; [|done..]. cbn [mbind outcome_bind].
  destruct (slice params 0 at_) as [b| |] eqn:Hsl; [| |].
  - apply slice_Ok in Hsl as (_ & _ & ->). cbn [mbind outcome_bind]. split; [done|].
    intros ? ? [= _ <-]. by apply bytes_ok_take, bytes_ok_drop.
  - done.
  - by apply slice_not_Panic in Hsl; [| |lia].
Qed.

Lemma decode_request_not_Panic s : bytes_ok s -> decode_request s <> Panic.
Proof.
  intros Hok. unfold decode_request.
  apply bind_not_Panic; [apply get_varint_at_not_Panic; [done|zlia]|]. intros [md p] Hp.
  apply get_varint_at_Ok in Hp as (_ & ? & ?); [|done].
  apply bind_not_Panic; [apply get_varint_at_not_Panic; [done|lia]|]. intros [ms p2] _.
  by destruct (_ || _).
Qed.

Lemma decode_optional_not_Panic v k vl base :
  bytes_ok base -> 0 <= vl -> decode_optional v k vl base <> Panic \/ zlen base < vl.
Proof.
  intros Hok Hvl. destruct (Z.lt_ge_cases (zlen base) vl) as [|Hle]; [by right|left].
  unfold decode_optional, STATELESS_RESET_TOKEN_LEN.
  destruct (_ && _); [done|]. destruct (_ && _).
  { apply bind_not_Panic; [apply slice_from_not_Panic; lia|done]. }
  destruct (_ && _); [|done]. destruct (_ =? 3).
  - destruct (Z.ltb_spec (zlen base) (vl + 16)); [done|].
    apply bind_not_Panic; [apply slice_not_Panic; lia|]. intros t _.
    apply bind_not_Panic; [apply slice_from_not_Panic; lia|]. intros s [_ ->]%slice_from_Ok.
    apply bind_not_Panic; [by apply decode_request_not_Panic, bytes_ok_drop|done].
  - apply bind_not_Panic; [apply slice_from_not_Panic; lia|]. intros s [_ ->]%slice_from_Ok.
    apply bind_not_Panic; [by apply decode_request_not_Panic, bytes_ok_drop|done].
Qed.

(** The base parameters keep the three leading values. *)
Lemma decode_extensions_len v k vl params size base :
  bytes_ok params -> 0 <= vl <= zlen params ->
  decode_extensions v k vl params = Ok (size, base) -> vl <= zlen base.
Proof.
  intros Hok Hvl. unfold decode_extensions. destruct (_ =? 0); [intros [= _ <-]; lia|].
  set (e := if Z.land v 1 =? 0 then vl else _).
  assert (He : vl <= e) by (unfold e, STATELESS_RESET_TOKEN_LEN; case_match; lia).
  intros (at_ & Hat & (tail & Ht%ok_or_Ok & (sz & _ & (b & Hb & [= _ <-])%bind_Ok)%bind_Ok)%bind_Ok)%bind_Ok.
  assert (vl <= at_).
  { destruct (Z.land v 2 =? 0); [by injection Hat as <-|]. destruct (negb _); [done|].
    apply bind_Ok in Hat as (s & [_ ->]%ok_or_Ok%get_from_Some & ([a n] & Hn & H)%bind_Ok).
    apply get_varint_Ok in Hn as (_ & ? & _); [|by apply bytes_ok_drop].
    apply bind_Ok in H as ([a2 p] & Hp & [= <-]). apply get_varint_at_Ok in Hp as (_ & ? & _); [lia|done]. }
  apply slice_Ok in Hb as (? & ? & ->). rewrite Z.sub_0_r, drop_0, zlen_take; lia.
Qed.

Lemma decode_profile_not_Panic input k : bytes_ok input -> decode_bootstrap_profile input k <> Panic.
Proof.
  intros Hok. destruct input as [|x input']; [done|]. unfold decode_bootstrap_profile.
  set (input := x :: input') in *. destruct (negb _); [done|].
  apply bind_not_Panic; [apply get_varint_at_not_Panic; [done|unfold input; zlia]|].
  intros [v p] Hp. apply get_varint_at_Ok in Hp as (_ & ? & ?); [|done]. destruct (_ <? _); [done|].
  apply bind_not_Panic; [apply get_varint_at_not_Panic; [done|lia]|].
  intros [len p2] Hp2. apply get_varint_at_Ok in Hp2 as (_ & ? & ?); [|done].
  apply bind_not_Panic; [apply slice_from_not_Panic; lia|]. intros params [_ ->]%slice_from_Ok.
  set (params := drop (Z.to_nat p2) input).
  assert (Hpok : bytes_ok params) by (by apply bytes_ok_drop). destruct (negb _); [done|].
  apply bind_not_Panic; [apply get_varint_at_not_Panic; [done|zlia]|].
  intros [md q1] Hq1. apply get_varint_at_Ok in Hq1 as (_ & ? & ?); [|done].
  apply bind_not_Panic; [apply get_varint_at_not_Panic; [done|lia]|].
  intros [ms q2] Hq2. apply get_varint_at_Ok in Hq2 as (_ & ? & ?); [|done].
  apply bind_not_Panic; [apply get_varint_at_not_Panic; [done|lia]|].
  intros [pk vl] Hq3. apply get_varint_at_Ok in Hq3 as (_ & ? & ?); [|done].
  destruct (decode_extensions_not_Panic v k vl params Hpok ltac:(lia)) as [Hnp Hb].
  apply bind_not_Panic; [done|]. intros [size base] He.
  pose proof (decode_extensions_len v k vl params size base Hpok ltac:(lia) He).
  apply bind_not_Panic.
  - destruct (decode_optional_not_Panic v k vl base (Hb _ _ He) ltac:(lia)); [done|lia].
  - intros [t r] _. by destruct (_ || _).
Qed.


Lemma decode_control_frame_not_Panic input p :
  bytes_ok input -> 0 <= p <= zlen input ->
  decode_control_frame input p <> Panic /\
  (forall d, decode_control_frame input p = Ok d -> bytes_ok d).
Proof.
  intros Hok Hp. unfold decode_control_frame.
  destruct (slice_from input p) as [s| |] eqn:Hs; [|done|by apply slice_from_not_Panic in Hs].
  apply slice_from_Ok in Hs as [_ ->]. cbn [mbind outcome_bind].
  pose proof (decode_frame_safe _ (bytes_ok_drop (Z.to_nat p) _ Hok)) as Hsafe.
  destruct (decode_frame _) as [[f used]| |]; [|done..]. destruct Hsafe as (_ & _ & _ & Hpl).
  cbn [mbind outcome_bind]. destruct (negb _); [done|]. destruct f; try done.
  destruct (_ || _); [done|]. split; [done|]. by intros ? [= <-].
Qed.

Section packets.
Context {F : Features}.

Lemma decode_open_packet_not_Panic input :
  bytes_ok input -> decode_bootstrap_open_packet input <> Panic.
Proof.
  intros Hok. apply bind_not_Panic; [by apply decode_long_packet_not_Panic|].
  intros [[h at_] n] Hd. apply decode_long_packet_Ok in Hd as (_ & _ & _ & _ & ? & ? & ? & _); [|done].
  destruct (_ || _); [done|]. apply bind_not_Panic; [apply ok_or_not_Panic|]. intros c _.
  destruct (decode_control_frame_not_Panic input at_ Hok ltac:(lia)) as [Hnp Hb].
  apply bind_not_Panic; [done|]. intros d Hdd.
  apply bind_not_Panic; [apply decode_profile_not_Panic, (Hb _ Hdd)|]. intros [[[l p] t] r] _. done.
Qed.

Lemma decode_open_ack_packet_not_Panic input c :
  bytes_ok input -> decode_bootstrap_open_ack_packet input c <> Panic.
Proof.
  intros Hok. apply bind_not_Panic; [by apply decode_long_packet_not_Panic|].
  intros [[h at_] n] Hd. apply decode_long_packet_Ok in Hd as (_ & _ & _ & _ & ? & ? & ? & _); [|done].
  destruct (_ || _); [done|].
  destruct (decode_control_frame_not_Panic input at_ Hok ltac:(lia)) as [Hnp Hb].
  apply bind_not_Panic; [done|]. intros d Hdd.
  apply bind_not_Panic; [apply ok_or_not_Panic|]. intros sc _. destruct (_ =? c); [done|].
  apply bind_not_Panic; [apply decode_profile_not_Panic, (Hb _ Hdd)|]. intros [[[l p] t] r] _.
  by destruct (bool_decide _).
Qed.

(** The OPEN a relay or a server decodes, from any destination. *)
Definition open_of (c : Z) (limits : ConnectionLimits) (packets : Z) (t : option bytes)
    (r : option ReceiveWindowRequest) : BootstrapOpen :=
  mkBootstrapOpen c (l_max_data limits) (l_max_stream_data limits)
    (max_datagram_frame_size limits) packets t r.

(** An Initial packet around a control frame, as every receiver sees it. *)
Definition carries_initial (bs : bytes) (dc sc : option Z) (pn : Z) (fr : bytes) : Prop :=
  exists at_, decode_long_packet bs =
      Ok (mkLongHeader LONG_PACKET_INITIAL DMESH_LONG_HEADER_VERSION dc sc pn 1, at_, zlen fr) /\
    at_cursor bs at_ fr /\ is_long bs = true.

Lemma encode_initial_carries dc sc pn fr cap bs :
  opt_cid_ok dc -> opt_cid_ok sc -> cap <= U64_MAX ->
  encode_long_packet LONG_PACKET_INITIAL dc sc pn 1 fr cap = Ok bs ->
  carries_initial bs dc sc (pn mod 256) fr.
Proof.
  intros Hd Hs Hcap He.
  destruct (decode_long_encode LONG_PACKET_INITIAL dc sc pn 1 fr cap bs (Z.le_refl 0) Hd Hs Hcap He)
    as (at_ & H1 & H2).
  destruct (encode_long_packet_is_long LONG_PACKET_INITIAL dc sc pn 1 fr cap bs (Z.le_refl 0)
    Hd Hs He) as [H3 _]. by exists at_.
Qed.

Lemma rewrite_destination_carries bs dc sc pn fr d cap out :
  opt_cid_ok d -> opt_cid_ok sc -> cap <= U64_MAX ->
  carries_initial bs dc sc (pn mod 256) fr -> rewrite_destination bs d cap = Ok out ->
  carries_initial out d sc (pn mod 256) fr.
Proof.
  intros Hd Hsc Hcap (at_ & Hdl & Hcur & Hl). unfold rewrite_destination. rewrite Hl, Hdl.
  cbn [mbind outcome_bind]. rewrite <- (app_nil_r fr) in Hcur.
  rewrite (at_cursor_slice_range _ _ _ _ Hcur).
  cbn [mbind outcome_bind l_packet_type l_scid l_packet_number l_packet_number_len]. intros He.
  apply encode_initial_carries in He; [|done..]. by rewrite Z.mod_mod in He.
Qed.

Lemma encode_open_Ok c pn limits packets t r cap bs :
  is_cid c -> cap <= U64_MAX ->
  encode_bootstrap_open_packet c pn limits packets t r cap = Ok bs ->
  exists body fr, encode_bootstrap_profile 0 limits packets t r 96 = Ok body /\
    encode (control_frame body) 96 = Ok fr /\ carries_initial bs None (Some c) (pn mod 256) fr.
Proof.
  intros Hc Hcap. unfold encode_bootstrap_open_packet. destruct (Z.eqb_spec c 0); [done|].
  intros (body & Hbody & (fr & Hfr & Henc)%bind_Ok)%bind_Ok.
  exists body, fr. split; [done|]. split; [done|].
  by apply encode_initial_carries in Henc.
Qed.

Lemma decode_open_of_payload bs c pn limits packets t r body fr :
  profile_ok 0 limits packets t r ->
  encode_bootstrap_profile 0 limits packets t r 96 = Ok body ->
  encode (control_frame body) 96 = Ok fr -> carries_initial bs None (Some c) pn fr ->
  decode_bootstrap_open_packet bs =
    Ok (mkShortHeader FLAG_FIXED 0 pn 1, open_of c limits packets t r).
Proof.
  intros Hpok Hbody Hfr (at_ & Hd & Hcur & _). unfold decode_bootstrap_open_packet. rewrite Hd.
  cbn [mbind outcome_bind l_packet_type l_dcid l_scid]. rewrite Z.eqb_refl.
  rewrite bool_decide_eq_false_2 by (by intros []). cbn [negb orb ok_or mbind outcome_bind].
  pose proof (control_frame_len _ _ Hfr).
  rewrite (decode_control_frame_encode _ _ _ _ _ Hfr ltac:(unfold U64_MAX; lia) Hcur).
  cbn [mbind outcome_bind]. rewrite (decode_profile_encode _ _ _ _ _ _ _ Hpok Hbody). done.
Qed.

(** ** Properties *)

(** OPEN carries the association parameters intact: a server that
    receives the client's OPEN decodes exactly the client's receive identifier,
    credit, datagram limit, packet budget, reset token and receive request, for
    every combination of the optional fields. *)
Theorem bootstrap_open_roundtrip c pn limits packets t r cap bs :
  is_cid c -> profile_ok 0 limits packets t r -> cap <= U64_MAX ->
  encode_bootstrap_open_packet c pn limits packets t r cap = Ok bs ->
  decode_bootstrap_open_packet bs =
    Ok (mkShortHeader FLAG_FIXED 0 (pn mod 256) 1, open_of c limits packets t r).
Proof.
  intros Hc Hpok Hcap Henc.
  destruct (encode_open_Ok _ _ _ _ _ _ _ _ Hc Hcap Henc) as (body & fr & Hbody & Hfr & Hcar).
  by apply (decode_open_of_payload _ _ _ _ _ _ _ body fr).
Qed.

(** OPEN_ACK does the same for the server's profile, and the client
    accepts it only for its own identifier, with a distinct server identifier. *)
Theorem bootstrap_open_ack_roundtrip cc sc pn limits packets t cap bs expected :
  is_cid cc -> is_cid sc -> profile_ok 1 limits packets t None -> cap <= U64_MAX ->
  encode_bootstrap_open_ack_packet cc sc pn limits packets t cap = Ok bs ->
  (expected = cc ->
   decode_bootstrap_open_ack_packet bs expected =
     Ok (mkShortHeader FLAG_FIXED cc (pn mod 256) 1,
         mkBootstrapOpenAck sc (l_max_data limits) (l_max_stream_data limits)
           (max_datagram_frame_size limits) packets t)) /\
  (expected <> cc -> decode_bootstrap_open_ack_packet bs expected = Err Error.WrongConnectionId).
Proof.
  intros Hcc Hsc Hpok Hcap. unfold encode_bootstrap_open_ack_packet.
  destruct (_ || _) eqn:Hg; [done|]. apply orb_false_iff in Hg as [_ Hne%Z.eqb_neq].
  intros (body & Hbody & (fr & Hfr & Henc)%bind_Ok)%bind_Ok.
  apply encode_initial_carries in Henc as (at_ & Hd & Hcur & _); [|done..].
  unfold decode_bootstrap_open_ack_packet. rewrite Hd.
  cbn [mbind outcome_bind l_packet_type l_dcid l_scid]. rewrite Z.eqb_refl. split.
  - intros ->. rewrite bool_decide_eq_true_2 by done. cbn [negb orb].
    pose proof (control_frame_len _ _ Hfr).
    rewrite (decode_control_frame_encode _ _ _ _ _ Hfr ltac:(unfold U64_MAX; lia) Hcur).
    cbn [ok_or mbind outcome_bind]. rewrite (proj2 (Z.eqb_neq sc cc)) by lia.
    by rewrite (decode_profile_encode _ _ _ _ _ _ _ Hpok Hbody).
  - intros Hx. rewrite bool_decide_eq_false_2; [done|]. congruence.
Qed.

(** A relayed OPEN names the relay: after [rewrite_relay_open] the next
    hop sees the outbound destination and the relay's return identifier, and,
    once the destination is dropped at the service, decodes the client's
    original parameters. *)
Theorem relay_open_preserves_profile c pn limits packets t r cap bs d rc cap' out cap'' direct :
  is_cid c -> profile_ok 0 limits packets t r -> cap <= U64_MAX ->
  opt_cid_ok d -> is_cid rc -> cap' <= U64_MAX -> cap'' <= U64_MAX ->
  encode_bootstrap_open_packet c pn limits packets t r cap = Ok bs ->
  rewrite_relay_open bs d rc cap' = Ok out ->
  rewrite_bootstrap_destination out cap'' = Ok direct ->
  (exists at_ n, decode_long_packet out =
     Ok (mkLongHeader LONG_PACKET_INITIAL DMESH_LONG_HEADER_VERSION d (Some rc) (pn mod 256) 1,
         at_, n)) /\
  decode_bootstrap_open_packet direct =
    Ok (mkShortHeader FLAG_FIXED 0 (pn mod 256) 1, open_of rc limits packets t r).
Proof.
  intros Hc Hpok Hcap Hd Hrc Hcap' Hcap'' Henc Hrw Hdir.
  destruct (encode_open_Ok _ _ _ _ _ _ _ _ Hc Hcap Henc) as (body & fr & Hbody & Hfr & Hcar).
  revert Hrw. unfold rewrite_relay_open. destruct (Z.eqb_spec rc 0); [done|].
  intros (dr & Hdr & (x & _ & H)%bind_Ok)%bind_Ok. unfold rewrite_bootstrap_destination in *.
  assert (Hmtu : DEFAULT_MAX_PACKET_SIZE <= U64_MAX) by (by vm_compute).
  destruct (rewrite_destination_carries bs None (Some c) pn fr None _ dr I Hc Hmtu Hcar Hdr)
    as (o1 & Ho1 & Hc1 & Hl1).
  rewrite Ho1 in H. cbn [mbind outcome_bind] in H. rewrite <- (app_nil_r fr) in Hc1.
  rewrite (at_cursor_slice_range _ _ _ _ Hc1) in H.
  cbn [mbind outcome_bind l_packet_number l_packet_number_len] in H.
  apply encode_initial_carries in H; [|done..]. rewrite Z.mod_mod in H by done. split.
  - destruct H as (at_ & H & _). by exists at_, (zlen fr).
  - apply (decode_open_of_payload _ _ _ _ _ _ _ body fr); [done..|].
    by apply (rewrite_destination_carries out d (Some rc) pn fr None cap'').
Qed.

(** No received bytes make the bootstrap decoders panic, and the scan of
    extension parameters always ends by itself: its result does not depend on
    the fuel beyond the length of the input. *)
Theorem bootstrap_decoders_total input kind cid fuel size seen :
  bytes_ok input -> (length input < fuel)%nat ->
  decode_bootstrap_profile input kind <> Panic /\
  decode_bootstrap_open_packet input <> Panic /\
  decode_bootstrap_open_ack_packet input cid <> Panic /\
  scan_extensions fuel input size seen = scan_extensions (S (length input)) input size seen.
Proof.
  intros Hok Hf. split; [by apply decode_profile_not_Panic|].
  split; [by apply decode_open_packet_not_Panic|].
  split; [by apply decode_open_ack_packet_not_Panic|].
  apply scan_extensions_fuel; [done|done|lia].
Qed.
End packets.

(** ** Witnesses *)
#[local] Instance no_protection : Features := {| packet_protection := false |}.

Definition sample_limits : ConnectionLimits := mkConnectionLimits 1200 65536 16384 100 100.
Definition sample_token : bytes := repeat 7 16.
Definition sample_request : ReceiveWindowRequest := mkReceiveWindowRequest 131072 32768.

Definition sample_open : bytes :=
  match encode_bootstrap_open_packet 300 5 sample_limits 8 (Some sample_token)
          (Some sample_request) 1200 with Ok b => b | _ => [] end.

Definition sample_open_ack : bytes :=
  match encode_bootstrap_open_ack_packet 300 77 6 sample_limits 8 (Some sample_token) 1200 with
  | Ok b => b | _ => [] end.

Definition sample_relayed : bytes :=
  match rewrite_relay_open sample_open (Some 900) 41 1200 with Ok b => b | _ => [] end.

Definition sample_direct : bytes :=
  match rewrite_bootstrap_destination sample_relayed 1200 with Ok b => b | _ => [] end.

Lemma sample_profile_ok kind r :
  0 <= kind -> request_ok r -> (is_some r = true -> kind = 0) ->
  profile_ok kind sample_limits 8 (Some sample_token) r.
Proof. intros ? ? ?. unfold profile_ok, sample_limits. cbn. repeat split; try done; lia. Qed.

Lemma bootstrap_open_roundtrip_witness :
  decode_bootstrap_open_packet sample_open =
    Ok (mkShortHeader FLAG_FIXED 0 5 1,
        open_of 300 sample_limits 8 (Some sample_token) (Some sample_request)).
Proof.
  apply (bootstrap_open_roundtrip 300 5 sample_limits 8 (Some sample_token) (Some sample_request)
    1200); [done| |done|vm_compute; reflexivity].
  by apply sample_profile_ok.
Defined.

Lemma bootstrap_open_ack_roundtrip_witness :
  decode_bootstrap_open_ack_packet sample_open_ack 301 = Err Error.WrongConnectionId /\
  decode_bootstrap_open_ack_packet sample_open_ack 300 =
    Ok (mkShortHeader FLAG_FIXED 300 6 1,
        mkBootstrapOpenAck 77 65536 16384 1200 8 (Some sample_token)).
Proof.
  split; apply (bootstrap_open_ack_roundtrip 300 77 6 sample_limits 8 (Some sample_token) 1200
    sample_open_ack); try done; try (by apply sample_profile_ok); vm_compute; reflexivity.
Defined.

Lemma relay_open_preserves_profile_witness :
  decode_bootstrap_open_packet sample_direct =
    Ok (mkShortHeader FLAG_FIXED 0 5 1,
        open_of 41 sample_limits 8 (Some sample_token) (Some sample_request)).
Proof.
  apply (relay_open_preserves_profile 300 5 sample_limits 8 (Some sample_token)
    (Some sample_request) 1200 sample_open (Some 900) 41 1200 sample_relayed 1200 sample_direct);
    try done; try (by apply sample_profile_ok); vm_compute; reflexivity.
Defined.

Lemma bootstrap_decoders_total_witness :
  decode_bootstrap_profile [0; 4; 1; 32] 0 <> Panic /\
  decode_bootstrap_open_packet [0; 4; 1; 32] <> Panic /\
  decode_bootstrap_open_ack_packet [0; 4; 1; 32] 300 <> Panic /\
  scan_extensions 9 [0; 4; 1; 32] 0 false = scan_extensions 5 [0; 4; 1; 32] 0 false.
Proof.
  apply (bootstrap_decoders_total [0; 4; 1; 32] 0 300 9 0 false);
    [repeat constructor; done | simpl; lia].
Defined.
