(* ===== verification/StatelessReset.v ===== *)
(** * Stateless resets

    [StatelessResetKey] and [StatelessResetToken] of
    [src/crates/quic-lite/src/lib.rs]: the token a device derives for a
    connection identifier it has issued, the reset packet it sends for one it no
    longer knows, and the test by which the peer recognises the reset.  The keyed
    hash, HMAC-SHA256 of the crates [hmac] and [sha2], is the parameter [Hmac];
    what is assumed of it is that it returns 32 bytes. *)

From S2P Require Import Prelude Wire PacketHeader Bootstrap.
From Stdlib Require Ascii String.

#[local] Open Scope Z_scope.

Definition STATELESS_RESET_MIN_PACKET_LEN : Z := 21.

Definition bytes_of_string (s : String.string) : bytes :=
  map (fun a => Z.of_N (Ascii.N_of_ascii a)) (String.list_ascii_of_string s).

Definition DEVICE_SECRET_RESET_KEY_LABEL : bytes := bytes_of_string "dmesh/quic-lite/reset-key/v1"%string.
Definition STATELESS_RESET_TOKEN_LABEL : bytes := bytes_of_string "dmesh/quic-lite/stateless-reset/v1"%string.
Definition STATELESS_RESET_PREFIX_LABEL : bytes := bytes_of_string "dmesh/quic-lite/stateless-reset/prefix/v1"%string.

(** [Hmac::<Sha256>::new_from_slice(key)], [update(message)], [finalize]. *)
Class Hmac : Type := { hmac_sha256 : bytes -> bytes -> bytes }.

Class HmacLaws `{Hmac} : Prop := {
  hmac_len key message : zlen (hmac_sha256 key message) = 32;
  hmac_bytes key message : bytes_ok (hmac_sha256 key message);
}.

(** The token's bytes.  [different |= received ^ expected] over the suffix. *)
Definition differs (suffix token : bytes) : Z :=
  fold_left (fun different x => Z.lor different (Z.lxor x.1 x.2)) (combine suffix token) 0.

Definition matches_packet (token input : bytes) : bool :=
  if zlen input <? STATELESS_RESET_MIN_PACKET_LEN then false else
  differs (drop (Z.to_nat (zlen input - STATELESS_RESET_TOKEN_LEN)) input) token =? 0.

Module ResetKey.
Section key.
Context `{Hmac} {F : Features}.

Definition from_device_secret (secret : bytes) : res bytes :=
  if zlen secret <? 16 then Err Error.Invalid else
  Ok (hmac_sha256 secret DEVICE_SECRET_RESET_KEY_LABEL).

(** [cid.encode(&mut \[0u8; 8\])] *)
Definition cid_bytes (cid : Z) : res bytes := ConnectionId.encode cid 8.

(** The [expect] panics if the identifier does not fit eight bytes. *)
Definition token_for (key : bytes) (cid : Z) : res bytes :=
  match cid_bytes cid with
  | Ok encoded =>
      Ok (take (Z.to_nat STATELESS_RESET_TOKEN_LEN) (hmac_sha256 key (STATELESS_RESET_TOKEN_LABEL ++ encoded)))
  | _ => Panic
  end.

(** [digest\[index % digest.len()\] ^ (index as u8).wrapping_mul(0x9d)] *)
Definition prefix_byte (digest : bytes) (index : nat) : Z :=
  Z.lxor (default 0 (digest !! (index mod length digest)%nat)) (as_u8 (as_u8 (Z.of_nat index) * 0x9d)).

Definition reset_prefix (digest : bytes) (n : nat) : bytes := map (prefix_byte digest) (seq 0 n).

(** The bytes written to [out], of capacity [cap]. *)
Definition encode_for_unknown_cid (key triggering_packet : bytes) (unknown_dcid cap : Z) : res (option bytes) :=
  if (zlen triggering_packet <? STATELESS_RESET_MIN_PACKET_LEN)
     || (match triggering_packet with first :: _ => negb (Z.land first 0x80 =? 0) | [] => true end)
  then Ok None else
  let used := Z.min (zlen triggering_packet) cap in
  if used <? STATELESS_RESET_MIN_PACKET_LEN then Err Error.BufferTooSmall else
  token ← token_for key unknown_dcid;
  encoded ← cid_bytes unknown_dcid;
  let digest := hmac_sha256 key (STATELESS_RESET_PREFIX_LABEL ++ encoded ++ be_bytes 8 used) in
  let prefix := reset_prefix digest (Z.to_nat (used - STATELESS_RESET_TOKEN_LEN)) in
  Ok (Some (map_first (fun first => Z.land first 0x3f) prefix ++ token)).

Definition encode_for_unknown_packet (key triggering_packet : bytes) (cap : Z) : res (option bytes) :=
  '(header, _) ← short_decode triggering_packet;
  encode_for_unknown_cid key triggering_packet (dcid header) cap.
End key.
End ResetKey.

(** ** Properties *)
Lemma differs_acc l : forall acc, 0 <= acc -> Forall (fun x => 0 <= x.1 /\ 0 <= x.2) l ->
  fold_left (fun different x => Z.lor different (Z.lxor x.1 x.2)) l acc = 0 <->
  acc = 0 /\ Forall (fun x : Z * Z => x.1 = x.2) l.
Proof.
  induction l as [|[a b] l IH]; intros acc Hacc Hl; cbn [fold_left fst snd].
  - split; [by intros ->|by intros [-> _]].
  - apply Forall_cons in Hl as [[Ha Hb] Hl]. cbn [fst snd] in *.
    assert (0 <= Z.lxor a b) by (apply Z.lxor_nonneg; tauto).
    rewrite IH; [|apply Z.lor_nonneg; tauto|done]. rewrite Forall_cons, Z.lor_eq_0_iff, Z.lxor_eq_0_iff. cbn [fst snd]. tauto.
Qed.

Lemma differs_zero suffix token :
  bytes_ok suffix -> bytes_ok token -> length suffix = length token -> differs suffix token = 0 <-> suffix = token.
Proof.
  intros Hs Ht Hl. unfold differs. rewrite differs_acc; [|done|].
  - clear Hs Ht. revert token Hl. induction suffix as [|a suffix IH]; intros [|b token]; try done; cbn [combine length].
    intros [= Hl]. rewrite Forall_cons. cbn [fst snd]. specialize (IH token Hl). split.
    + intros (_ & -> & Hr). f_equal. by apply IH.
    + intros [= -> ->]. split; [done|]. split; [done|]. by apply IH.
  - apply Forall_forall. intros [a b] Hin. apply list_elem_of_In in Hin. cbn [fst snd].
    pose proof (in_combine_l _ _ _ _ Hin) as Ha. pose proof (in_combine_r _ _ _ _ Hin) as Hb.
    apply list_elem_of_In in Ha, Hb. unfold bytes_ok in *. rewrite Forall_forall in Hs, Ht.
    specialize (Hs a Ha). specialize (Ht b Hb). cbv beta in Hs, Ht. lia.
Qed.

Section laws.
Context `{HmacLaws} {F : Features}.

Lemma cid_fits cid : exists encoded, ResetKey.cid_bytes cid = Ok encoded.
Proof.
  unfold ResetKey.cid_bytes, ConnectionId.encode. destruct (Z.ltb_spec 8 (ConnectionId.encoded_len cid)); [|eauto].
  unfold ConnectionId.encoded_len in *. repeat case_match; lia.
Qed.

(** Tokens can always be derived. *)
Lemma token_for_Ok key cid : exists token, ResetKey.token_for key cid = Ok token /\ zlen token = 16 /\ bytes_ok token.
Proof.
  unfold ResetKey.token_for. destruct (cid_fits cid) as (encoded & ->). eexists. split; [reflexivity|]. split.
  - rewrite zlen_take; [done|]. rewrite hmac_len. unfold STATELESS_RESET_TOKEN_LEN. lia.
  - apply Forall_take, hmac_bytes.
Qed.

Lemma first_masked first : illegal_flags (Z.land first 0x3f) = true.
Proof.
  unfold illegal_flags. rewrite <- Z.land_assoc. change (Z.land 63 FLAG_FIXED) with 0. by rewrite Z.land_0_r.
Qed.

(** What [encode_for_unknown_cid] writes. *)
Lemma encode_reset_shape key trigger cid cap out :
  ResetKey.encode_for_unknown_cid key trigger cid cap = Ok (Some out) ->
  exists b prefix token, out = Z.land b 0x3f :: prefix ++ token /\ ResetKey.token_for key cid = Ok token /\
    zlen token = 16 /\ bytes_ok token /\ zlen out = Z.min (zlen trigger) cap /\ 21 <= zlen out /\
    exists first rest, trigger = first :: rest /\ Z.land first 0x80 = 0.
Proof.
  unfold ResetKey.encode_for_unknown_cid. destruct (_ || _) eqn:Hg; [done|]. apply orb_false_iff in Hg as [Hlen Hfirst].
  destruct (Z.ltb_spec (Z.min (zlen trigger) cap) STATELESS_RESET_MIN_PACKET_LEN) as [|Hused]; [done|].
  destruct (token_for_Ok key cid) as (token & Ht & Htl & Htb). rewrite Ht. destruct (cid_fits cid) as (encoded & ->).
  cbn [mbind outcome_bind]. set (digest := hmac_sha256 _ _). set (used := Z.min _ _) in *.
  unfold STATELESS_RESET_MIN_PACKET_LEN, STATELESS_RESET_TOKEN_LEN in *.
  assert (zlen (ResetKey.reset_prefix digest (Z.to_nat (used - 16))) = used - 16) as Hpl.
  { unfold ResetKey.reset_prefix, zlen. rewrite length_map, length_seq. lia. }
  destruct (ResetKey.reset_prefix digest (Z.to_nat (used - 16))) as [|b prefix] eqn:Hp; [unfold zlen in Hpl; simpl in Hpl; lia|].
  intros [= <-]. exists b, prefix, token. cbn [map_first app]. split; [done|]. split; [done|]. split; [done|]. split; [done|].
  assert (zlen (Z.land b 63 :: prefix ++ token) = used) as Hout.
  { unfold zlen in *. cbn [length] in *. rewrite length_app. lia. }
  rewrite Hout. split; [done|]. split; [lia|]. destruct trigger as [|first rest]; [done|].
  exists first, rest. split; [done|]. apply negb_false_iff in Hfirst. by apply Z.eqb_eq.
Qed.

(** A stateless reset is recognised and never answered.  A reset sent for a
    packet of a connection the device has forgotten is no longer than that
    packet, ends in the token the device issued for the identifier, so the peer
    that holds this token recognises it and any other token of the device's does
    not match; it decodes neither as a short nor as a long packet, so it is
    tested only after parsing failed; and no device answers it with a reset. *)
Theorem reset_recognised key trigger cap header n out :
  short_decode trigger = Ok (header, n) ->
  ResetKey.encode_for_unknown_packet key trigger cap = Ok (Some out) ->
  (forall token, ResetKey.token_for key (dcid header) = Ok token -> matches_packet token out = true) /\
  (forall token, bytes_ok token -> zlen token = 16 -> matches_packet token out = true ->
     ResetKey.token_for key (dcid header) = Ok token) /\
  zlen out <= zlen trigger /\ is_ok (short_decode out) = false /\ is_ok (decode_long_packet out) = false /\
  (forall key' cap', is_ok (ResetKey.encode_for_unknown_packet key' out cap') = false).
Proof.
  intros Hd. unfold ResetKey.encode_for_unknown_packet at 1. rewrite Hd. cbn [mbind outcome_bind]. intros He.
  destruct (encode_reset_shape _ _ _ _ _ He) as (b & prefix & token & -> & Ht & Htl & Htb & Hlen & Hmin & _).
  set (out := Z.land b 63 :: prefix ++ token) in *.
  assert (is_ok (short_decode out) = false) as Hshort.
  { unfold short_decode, decode_prefix, out. by rewrite first_masked. }
  assert (drop (Z.to_nat (zlen out - 16)) out = token) as Hsuffix.
  { assert (zlen out = 1 + zlen prefix + 16) as -> by (unfold out, zlen in *; cbn [length]; rewrite length_app; lia).
    replace (Z.to_nat (1 + zlen prefix + 16 - 16)) with (length (Z.land b 63 :: prefix)) by (unfold zlen; cbn [length]; lia).
    unfold out. by rewrite app_comm_cons, drop_app_length. }
  assert (forall token', bytes_ok token' -> zlen token' = 16 -> matches_packet token' out = true <-> token' = token) as Hm.
  { intros token' Hb Hl. unfold matches_packet, STATELESS_RESET_MIN_PACKET_LEN, STATELESS_RESET_TOKEN_LEN.
    rewrite (proj2 (Z.ltb_ge _ _)) by lia. rewrite Hsuffix, Z.eqb_eq, differs_zero; [done..|]. unfold zlen in *. lia. }
  split; [intros token' Ht'; rewrite Ht in Ht'; injection Ht' as <-; by apply Hm|].
  split; [intros token' Hb Hl Hmt; apply Hm in Hmt; [by rewrite Hmt|done..]|].
  split; [lia|]. split; [done|]. split.
  - unfold decode_long_packet, out. destruct (_ || _) eqn:Hg; [done|]. exfalso. clear Hsuffix Hm. bools.
    assert (Z.land (Z.land b 63) 192 = 0) as Hz by (rewrite <- Z.land_assoc; apply Z.land_0_r). lia.
  - intros key' cap'. unfold ResetKey.encode_for_unknown_packet. by destruct (short_decode out) as [[]| |].
Qed.
End laws.

(** ** A reset for a forgotten identifier *)
Section examples.
#[local] Instance no_protection : Features := {| packet_protection := false |}.

(** A stand-in for the hash, of the right length. *)
#[local] Instance checksum : Hmac :=
  {| hmac_sha256 key message := map (fun i => as_u8 (Z.of_nat i + fold_right Z.add 7 (key ++ message))) (seq 0 32) |}.
#[local] Instance checksum_laws : HmacLaws.
Proof.
  split; [done|]. intros key message. apply Forall_forall. intros b. cbn [hmac_sha256 checksum].
  intros (i & <- & _)%list_elem_of_In%in_map_iff. apply as_u8_range.
Qed.

Definition device_key : bytes := match ResetKey.from_device_secret (replicate 16 5) with Ok k => k | _ => [] end.
Definition stray : bytes := [0x40; 9; 1] ++ replicate 40 0xaa.
Definition stray_reset : bytes :=
  match ResetKey.encode_for_unknown_packet device_key stray 1100 with Ok (Some b) => b | _ => [] end.

Lemma reset_recognised_witness :
  matches_packet (match ResetKey.token_for device_key 9 with Ok t => t | _ => [] end) stray_reset = true /\
  zlen stray_reset <= zlen stray.
Proof.
  destruct (reset_recognised device_key stray 1100 (mkShortHeader 0x40 9 1 1) 3 stray_reset) as (Hm & _ & Hl & _);
    [by vm_compute..|].
  split; [|exact Hl]. destruct (ResetKey.token_for device_key 9) as [t| |] eqn:Ht; [by apply Hm|by vm_compute in Ht..].
Defined.

(** A token of another identifier does not match. *)
Example other_token : ResetKey.token_for device_key 10 = Ok (match ResetKey.token_for device_key 10 with Ok t => t | _ => [] end) /\
  matches_packet (match ResetKey.token_for device_key 10 with Ok t => t | _ => [] end) stray_reset = false.
Proof. by vm_compute. Qed.
End examples.
