(* ===== verification/PacketPool.v ===== *)
(** * Packet storage

    [src/crates/quic-lite/src/packet_pool.rs]: the device-wide pool of MTU-sized
    packet slots with reference-counted leases, and the fixed ring of leases
    between bearers and the transport.  The pool's shared atomics are modelled
    one atomic access per step ([pool_step]), with the compare-exchange loop of
    [acquire_reserving]; the theorems show that every interleaving keeps a slot
    under construction exclusive, shares a committed slot exactly as often as it
    is counted and loses no slot; that headers added in the headroom leave the
    payload in place; and that the ring is a bounded FIFO.

    The file also states [PacketPoolIface], what a bearer may rely on, and its
    instance for this pool. *)

From S2P Require Import Prelude Wire PacketHeader Keyed Bitmap.

(** ** The lease queue

    [M] is the metadata and packet of an entry.  [try_lock] succeeds here; a
    contended lock returns the arguments unchanged, as a full queue does. *)
Module LeaseQueue.
Section queue.
Context {M : Type} (N : Z).

Record state : Type := mkState {
  entries : list (option M);
  head : Z;
  len : Z;
}.

(** [assert!(N != 0)]. *)
Definition new : outcome unit state :=
  if N =? 0 then Panic else Ok (mkState (replicate (Z.to_nat N) None) 0 0).

Definition try_push (q : state) (m : M) : outcome M state :=
  if len q =? N then Err m else
  let tail := (head q + len q) mod N in
  if tail <? zlen (entries q)
  then Ok (mkState (<[Z.to_nat tail := Some m]> (entries q)) (head q) (len q + 1))
  else Panic.

(** The entry taken, if any, and the queue. *)
Definition try_pop (q : state) : outcome unit (option M * state) :=
  if len q =? 0 then Ok (None, q) else
  e ← index (entries q) (head q);
  Ok (e, mkState (<[Z.to_nat (head q) := None]> (entries q)) ((head q + 1) mod N) (len q - 1)).

Definition try_is_empty (q : state) : bool := len q =? 0.

(** The queue holds [l], oldest first. *)
Definition holds (q : state) (l : list M) : Prop :=
  0 < N /\ zlen (entries q) = N /\ 0 <= head q < N /\ len q = zlen l /\ zlen l <= N /\
  forall i m, l !! i = Some m ->
    entries q !! Z.to_nat ((head q + Z.of_nat i) mod N) = Some (Some m).

Lemma holds_new : 0 < N -> exists q, new = Ok q /\ holds q [].
Proof.
  intros HN. unfold new. rewrite (proj2 (Z.eqb_neq N 0)) by lia. eexists. split; [done|].
  split; [done|]. simpl. split; [unfold zlen; rewrite length_replicate; lia|].
  split; [lia|]. split; [done|]. split; [zlia|]. intros i m. by rewrite lookup_nil.
Qed.

(** Distinct positions of the ring. *)
Lemma ring_inj h i j : 0 < N -> 0 <= i < N -> 0 <= j < N -> (h + i) mod N = (h + j) mod N -> i = j.
Proof.
  intros HN Hi Hj H. assert (Hd : (i - j) mod N = 0).
  { replace (i - j) with (h + i - (h + j)) by lia.
    rewrite Zminus_mod, H, Z.sub_diag. by apply Z.mod_0_l; lia. }
  apply Z.mod_divide in Hd as [k Hk]; [|lia]. assert (k = 0) by nia. lia.
Qed.

Lemma push_holds q l m :
  holds q l ->
  if zlen l =? N then try_push q m = Err m
  else exists q', try_push q m = Ok q' /\ holds q' (l ++ [m]).
Proof.
  intros (HN & He & Hh & Hl & Hc & Hat). unfold try_push. rewrite Hl.
  destruct (Z.eqb_spec (zlen l) N) as [|Hne]; [done|].
  pose proof (Z.mod_pos_bound (head q + zlen l) N HN) as Hb.
  rewrite (proj2 (Z.ltb_lt _ _)) by lia. eexists. split; [done|].
  split; [done|]. cbn [entries head len].
  split; [unfold zlen; by rewrite length_insert|]. split; [done|]. split; [zlia|]. split; [zlia|].
  intros i x Hi. apply lookup_snoc_Some in Hi as [[Hlt Hi]|[-> ->]].
  - rewrite list_lookup_insert_ne; [by apply Hat|]. intros E.
    apply Z2Nat.inj in E; [|lia|apply Z.mod_pos_bound; lia].
    apply (ring_inj (head q)) in E; unfold zlen in *; lia.
  - apply list_lookup_insert_eq. unfold zlen in *. lia.
Qed.

Lemma pop_holds q l :
  holds q l ->
  match l with
  | [] => try_pop q = Ok (None, q)
  | m :: l' => exists q', try_pop q = Ok (Some m, q') /\ holds q' l'
  end.
Proof.
  intros (HN & He & Hh & Hl & Hc & Hat). unfold try_pop. rewrite Hl. destruct l as [|m l']; [done|].
  rewrite zlen_cons in *. pose proof (zlen_nonneg l').
  rewrite (proj2 (Z.eqb_neq _ 0)) by lia.
  pose proof (Hat 0%nat m eq_refl) as H0. change (Z.of_nat 0) with 0 in H0.
  rewrite Z.add_0_r, Z.mod_small in H0 by lia.
  unfold index, get_ix. rewrite (proj2 (Z.leb_le 0 _)), H0 by lia. cbn [mbind outcome_bind].
  eexists. split; [done|]. split; [done|]. cbn [entries head len].
  split; [unfold zlen; by rewrite length_insert|]. split; [apply Z.mod_pos_bound; lia|].
  split; [lia|]. split; [lia|]. intros i x Hi.
  assert (Hil : Z.of_nat i + 1 < N) by (apply lookup_lt_Some in Hi; unfold zlen in *; lia).
  replace (((head q + 1) mod N + Z.of_nat i) mod N) with ((head q + Z.of_nat (S i)) mod N)
    by (rewrite Zplus_mod_idemp_l; f_equal; lia).
  rewrite list_lookup_insert_ne; [by apply (Hat (S i))|]. intros E.
  apply Z2Nat.inj in E; [|lia|apply Z.mod_pos_bound; lia].
  rewrite <- (Z.mod_small (head q) N) in E at 1 by lia. rewrite <- (Z.add_0_r (head q)) in E at 1.
  apply (ring_inj (head q)) in E; lia.
Qed.

(** Runs of the queue and of the list it stands for. *)
Inductive op : Type := Push (m : M) | Pop.
Inductive answer : Type := Accepted | Refused (m : M) | Popped (m : option M).

Definition step (q : state) (o : op) : outcome unit (answer * state) :=
  match o with
  | Push m => match try_push q m with
              | Ok q' => Ok (Accepted, q') | Err m => Ok (Refused m, q) | Panic => Panic
              end
  | Pop => '(e, q') ← try_pop q; Ok (Popped e, q')
  end.

Fixpoint run (q : state) (ops : list op) : outcome unit (list answer) :=
  match ops with
  | [] => Ok []
  | o :: ops' => '(a, q') ← step q o; l ← run q' ops'; Ok (a :: l)
  end.

Definition fifo_step (l : list M) (o : op) : answer * list M :=
  match o with
  | Push m => if zlen l =? N then (Refused m, l) else (Accepted, l ++ [m])
  | Pop => match l with [] => (Popped None, []) | m :: l' => (Popped (Some m), l') end
  end.

Fixpoint fifo_run (l : list M) (ops : list op) : list answer :=
  match ops with
  | [] => []
  | o :: ops' => let '(a, l') := fifo_step l o in a :: fifo_run l' ops'
  end.

Lemma step_fifo q l o :
  holds q l -> exists q', step q o = Ok ((fifo_step l o).1, q') /\ holds q' (fifo_step l o).2.
Proof.
  intros Hq. destruct o as [m|]; simpl.
  - pose proof (push_holds q l m Hq) as H. destruct (zlen l =? N).
    + rewrite H. by exists q.
    + destruct H as (q' & -> & ?). by exists q'.
  - pose proof (pop_holds q l Hq) as H. destruct l as [|m l'].
    + rewrite H. by exists q.
    + destruct H as (q' & -> & ?). by exists q'.
Qed.

Lemma run_fifo q l ops : holds q l -> run q ops = Ok (fifo_run l ops).
Proof.
  revert q l. induction ops as [|o ops IH]; intros q l Hq; [done|]. cbn [run fifo_run].
  destruct (step_fifo q l o Hq) as (q' & -> & Hq'). destruct (fifo_step l o) as [a l'].
  cbn [mbind outcome_bind]. by rewrite (IH q' l' Hq').
Qed.
End queue.
Arguments state : clear implicits.
Arguments op : clear implicits.
End LeaseQueue.

(** ** The pool *)
Definition count_ones (w : Z) : Z := zlen (List.filter (Z.testbit w) (seqZ 0 32)).
Definition u32_not (w : Z) : Z := Z.lxor w U32_MAX.

Definition mask (slots : Z) : Z := if slots =? 32 then U32_MAX else Z.shiftl 1 slots - 1.

Record Pool : Type := mkPool {
  free : Z;
  references : list Z;
  packets : list bytes;
}.

(** A shared reference to a packet: the slot and the packet's range in it. *)
Record PoolLease : Type := mkPoolLease {
  lease_slot : Z;
  lease_start : Z;
  lease_len : Z;
}.

(** Exclusive construction access to a slot ([active] until committed). *)
Record PoolWriter : Type := mkPoolWriter {
  writer_slot : Z;
  writer_start : Z;
}.

(** One iteration of the loop of [acquire_reserving] on the value [current] it
    loaded: the value to install and the slot it claims. *)
Definition acquire_try (current reserved : Z) : option (Z * Z) :=
  if count_ones current <=? reserved then None else
  let bit := trailing_zeros current in
  Some (Z.land current (u32_not (Z.shiftl 1 bit)), bit).

(** [buffer\[at_..at_ + data.len()\].copy_from_slice(data)] within bounds. *)
Definition splice (buf : bytes) (at_ : Z) (data : bytes) : bytes :=
  take (Z.to_nat at_) buf ++ data ++ drop (Z.to_nat (at_ + zlen data)) buf.

Section pool.
Context (SLOTS MTU : Z).

Definition set_free (p : Pool) (f : Z) : Pool := mkPool f (references p) (packets p).
Definition set_reference (p : Pool) (slot n : Z) : Pool :=
  mkPool (free p) (<[Z.to_nat slot := n]> (references p)) (packets p).

Definition pool_new : Pool :=
  mkPool (mask SLOTS) (replicate (Z.to_nat SLOTS) 0)
    (replicate (Z.to_nat SLOTS) (replicate (Z.to_nat MTU) 0)).

(** [acquire_reserving] run without interference: the exchange succeeds. *)
Definition acquire_reserving (p : Pool) (reserved : Z) : option (Z * Pool) :=
  '(next, bit) ← acquire_try (free p) reserved;
  Some (bit, set_reference (set_free p next) bit 1).

Definition acquire (p : Pool) : option (Z * Pool) := acquire_reserving p 0.

Definition available (p : Pool) : Z := count_ones (free p).

Definition release (p : Pool) (slot : Z) : bool * Pool :=
  if SLOTS <=? slot then (false, p) else
  let bit := Z.shiftl 1 slot in
  (Z.land (free p) bit =? 0, set_free p (Z.lor (free p) bit)).

Definition packet (p : Pool) (slot len : Z) : option bytes :=
  if (SLOTS <=? slot) || (MTU <? len) then None else
  buf ← get_ix (packets p) slot; Some (take (Z.to_nat len) buf).

Definition write_at (p : Pool) (slot offset : Z) (data : bytes) : option Pool :=
  if (SLOTS <=? slot) || (MTU <? sat_add offset (zlen data)) then None else
  buf ← get_ix (packets p) slot;
  Some (mkPool (free p) (references p) (<[Z.to_nat slot := splice buf offset data]> (packets p))).

Definition acquire_with_headroom (p : Pool) (headroom : Z) (data : bytes)
    : option PoolLease * Pool :=
  if MTU <? sat_add headroom (zlen data) then (None, p) else
  match acquire p with
  | None => (None, p)
  | Some (slot, p) =>
      match write_at p slot headroom data with
      | None => (None, (release p slot).2)
      | Some p => (Some (mkPoolLease slot headroom (zlen data)), p)
      end
  end.

Definition acquire_with (p : Pool) (data : bytes) : option PoolLease * Pool :=
  acquire_with_headroom p 0 data.

(** *** Leases *)
Definition payload (p : Pool) (l : PoolLease) : outcome unit bytes :=
  match packet p (lease_slot l) MTU with
  | Some b => slice b (lease_start l) (lease_start l + lease_len l)
  | None => Panic
  end.

Definition lease_clone (p : Pool) (l : PoolLease) : outcome unit (PoolLease * Pool) :=
  previous ← index (references p) (lease_slot l);
  let p := set_reference p (lease_slot l) (as_u8 (previous + 1)) in
  if (previous =? 0) || (previous =? U8_MAX) then Panic else Ok (l, p).

Definition lease_drop (p : Pool) (l : PoolLease) : outcome unit Pool :=
  previous ← index (references p) (lease_slot l);
  let p := set_reference p (lease_slot l) (as_u8 (previous - 1)) in
  Ok (if previous =? 1 then (release p (lease_slot l)).2 else p).

Definition as_mut_unique (p : Pool) (l : PoolLease) : outcome unit bool :=
  n ← index (references p) (lease_slot l); Ok (n =? 1).

Definition prepend (p : Pool) (l : PoolLease) (header : bytes) : bool * PoolLease * Pool :=
  if lease_start l <? zlen header then (false, l, p) else
  let start := lease_start l - zlen header in
  match write_at p (lease_slot l) start header with
  | None => (false, l, p)
  | Some p => (true, mkPoolLease (lease_slot l) start (lease_len l + zlen header), p)
  end.

Definition strip_prefix (l : PoolLease) (n : Z) : bool * PoolLease :=
  if lease_len l <? n then (false, l)
  else (true, mkPoolLease (lease_slot l) (lease_start l + n) (lease_len l - n)).

(** *** Writers *)
Definition acquire_writer_reserving (p : Pool) (headroom reserved : Z)
    : option (PoolWriter * Pool) :=
  if MTU <? headroom then None else
  '(slot, p) ← acquire_reserving p reserved; Some (mkPoolWriter slot headroom, p).

(** [payload_mut()]: the slot after the headroom. *)
Definition payload_mut (p : Pool) (w : PoolWriter) : outcome unit bytes :=
  buf ← index (packets p) (writer_slot w); slice_from buf (writer_start w).

(** [payload_mut()\[i\] = b]. *)
Definition put_byte (p : Pool) (w : PoolWriter) (i b : Z) : outcome unit Pool :=
  buf ← index (packets p) (writer_slot w);
  view ← slice_from buf (writer_start w);
  if (0 <=? i) && (i <? zlen view)
  then Ok (mkPool (free p) (references p)
             (<[Z.to_nat (writer_slot w) := splice buf (writer_start w + i) [b]]> (packets p)))
  else Panic.

(** Dropping an uncommitted writer. *)
Definition writer_drop (p : Pool) (w : PoolWriter) : Pool := (release p (writer_slot w)).2.

(** A refused commit drops the writer. *)
Definition commit (p : Pool) (w : PoolWriter) (len : Z) : option PoolLease * Pool :=
  if sat_sub MTU (writer_start w) <? len then (None, writer_drop p w)
  else (Some (mkPoolLease (writer_slot w) (writer_start w) len), p).

Definition commit_frame (p : Pool) (w : PoolWriter) (payload_len : Z) : option PoolLease * Pool :=
  match checked_add (writer_start w) payload_len with
  | None => (None, writer_drop p w)
  | Some len => if MTU <? len then (None, writer_drop p w)
                else (Some (mkPoolLease (writer_slot w) 0 len), p)
  end.
End pool.

(** ** Interleavings

    The owners and would-be owners of slots.  Each step is one atomic access by
    one agent: [compare_exchange_weak] may fail even on the expected value, and
    a fresh agent may start at any time. *)
Inductive agent : Type :=
  | Idle
  | Loaded (current reserved : Z)  (* in the loop of acquire_reserving *)
  | Claimed (slot : Z)             (* exchanged, reference count not yet stored *)
  | Writing (slot : Z)             (* a PacketWriter, or acquire_with_headroom *)
  | Leased (slot : Z)              (* a PoolLease *)
  | Releasing (slot : Z).          (* about to set the free bit *)

Definition config : Type := (Pool * list agent)%type.

Section interleavings.
Context (SLOTS : Z).

Inductive pool_step : config -> config -> Prop :=
  | step_spawn p ag : pool_step (p, ag) (p, ag ++ [Idle])
  | step_load p ag k r :
      ag !! k = Some Idle -> 0 <= r -> pool_step (p, ag) (p, <[k := Loaded (free p) r]> ag)
  | step_exhausted p ag k c r :
      ag !! k = Some (Loaded c r) -> acquire_try c r = None ->
      pool_step (p, ag) (p, <[k := Idle]> ag)
  | step_exchange_fails p ag k c r n b :
      ag !! k = Some (Loaded c r) -> acquire_try c r = Some (n, b) ->
      pool_step (p, ag) (p, <[k := Loaded (free p) r]> ag)
  | step_exchange p ag k c r n b :
      ag !! k = Some (Loaded c r) -> acquire_try c r = Some (n, b) -> free p = c ->
      pool_step (p, ag) (set_free p n, <[k := Claimed b]> ag)
  | step_store p ag k b :
      ag !! k = Some (Claimed b) -> pool_step (p, ag) (set_reference p b 1, <[k := Writing b]> ag)
  | step_commit p ag k b :
      ag !! k = Some (Writing b) -> pool_step (p, ag) (p, <[k := Leased b]> ag)
  | step_abandon p ag k b :
      ag !! k = Some (Writing b) -> pool_step (p, ag) (p, <[k := Releasing b]> ag)
  | step_clone p p' ag k l :
      ag !! k = Some (Leased (lease_slot l)) -> lease_clone p l = Ok (l, p') ->
      pool_step (p, ag) (p', ag ++ [Leased (lease_slot l)])
  | step_drop p ag k b n :
      ag !! k = Some (Leased b) -> get_ix (references p) b = Some n ->
      pool_step (p, ag) (set_reference p b (as_u8 (n - 1)),
                         <[k := if n =? 1 then Releasing b else Idle]> ag)
  | step_release p ag k b :
      ag !! k = Some (Releasing b) ->
      pool_step (p, ag) ((release SLOTS p b).2, <[k := Idle]> ag).

(** The slot an agent refers to, exclusively or as one of several leases. *)
Definition slot_of (a : agent) : option Z :=
  match a with
  | Claimed b | Writing b | Leased b | Releasing b => Some b
  | Idle | Loaded _ _ => None
  end.

Definition exclusive (b : Z) (a : agent) : Z :=
  match a with
  | Claimed b' | Writing b' | Releasing b' => if b' =? b then 1 else 0
  | _ => 0
  end.

Definition shared (b : Z) (a : agent) : Z :=
  match a with Leased b' => if b' =? b then 1 else 0 | _ => 0 end.

Definition writing (b : Z) (a : agent) : Z :=
  match a with Writing b' => if b' =? b then 1 else 0 | _ => 0 end.

Definition owners (b : Z) (ag : list agent) : Z := zsum (exclusive b) ag.
Definition leases (b : Z) (ag : list agent) : Z := zsum (shared b) ag.
Definition writers (b : Z) (ag : list agent) : Z := zsum (writing b) ag.

Definition slot_inv (p : Pool) (ag : list agent) (b : Z) : Prop :=
  if Z.testbit (free p) b then owners b ag = 0 /\ leases b ag = 0
  else (owners b ag = 1 /\ leases b ag = 0 /\
        (1 <= writers b ag -> get_ix (references p) b = Some 1)) \/
       (owners b ag = 0 /\ 1 <= leases b ag <= U8_MAX /\
        get_ix (references p) b = Some (leases b ag)).

Definition agent_ok (a : agent) : Prop :=
  match a with
  | Idle => True
  | Loaded _ r => 0 <= r
  | Claimed b | Writing b | Leased b | Releasing b => 0 <= b < SLOTS
  end.

Definition pool_inv (c : config) : Prop :=
  let '(p, ag) := c in
  zlen (references p) = SLOTS /\ is_u32 (free p) /\
  (forall b, SLOTS <= b -> Z.testbit (free p) b = false) /\
  Forall agent_ok ag /\
  forall b, 0 <= b < SLOTS -> slot_inv p ag b.

Context (HSLOTS : 0 <= SLOTS <= 32).

(** *** Counting *)
Lemma exclusive_nonneg b ag : Forall (fun a => 0 <= exclusive b a) ag.
Proof. apply Forall_true. intros []; simpl; try case_match; lia. Qed.

Lemma shared_nonneg b ag : Forall (fun a => 0 <= shared b a) ag.
Proof. apply Forall_true. intros []; simpl; try case_match; lia. Qed.

Lemma owners_insert b ag k x y :
  ag !! k = Some x -> owners b (<[k := y]> ag) = owners b ag - exclusive b x + exclusive b y.
Proof. apply zsum_insert. Qed.

Lemma leases_insert b ag k x y :
  ag !! k = Some x -> leases b (<[k := y]> ag) = leases b ag - shared b x + shared b y.
Proof. apply zsum_insert. Qed.

Lemma writers_insert b ag k x y :
  ag !! k = Some x -> writers b (<[k := y]> ag) = writers b ag - writing b x + writing b y.
Proof. apply zsum_insert. Qed.

Lemma writers_owners b ag : writers b ag <= owners b ag.
Proof.
  unfold writers, owners. induction ag as [|a ag IH]; simpl; [lia|].
  enough (writing b a <= exclusive b a) by lia. destruct a; simpl; repeat case_match; lia.
Qed.

Lemma writers_le b ag k x : ag !! k = Some x -> writing b x <= writers b ag.
Proof. apply zsum_lookup_le, Forall_true. intros []; simpl; repeat case_match; lia. Qed.

Lemma owners_le b ag k x : ag !! k = Some x -> exclusive b x <= owners b ag.
Proof. apply zsum_lookup_le, exclusive_nonneg. Qed.

Lemma leases_le b ag k x : ag !! k = Some x -> shared b x <= leases b ag.
Proof. apply zsum_lookup_le, shared_nonneg. Qed.

Lemma owners_nonneg b ag : 0 <= owners b ag.
Proof. apply zsum_nonneg, exclusive_nonneg. Qed.

Lemma leases_nonneg b ag : 0 <= leases b ag.
Proof. apply zsum_nonneg, shared_nonneg. Qed.

(** *** The claimed bit *)
Lemma count_ones_0 : count_ones 0 = 0.
Proof. by vm_compute. Qed.

Lemma acquire_try_bits c r n b :
  is_u32 c -> 0 <= r -> acquire_try c r = Some (n, b) ->
  0 <= b < 32 /\ Z.testbit c b = true /\ is_u32 n /\
  forall j, 0 <= j -> Z.testbit n j = Z.testbit c j && negb (j =? b).
Proof.
  intros Hc Hr. unfold acquire_try. destruct (Z.leb_spec (count_ones c) r) as [|Hgt]; [done|].
  intros [= <- <-]. assert (Hnz : c <> 0) by (intros ->; rewrite count_ones_0 in Hgt; lia).
  destruct (trailing_zeros_spec c) as (Ht & Htb & _); [unfold U32_MAX, U64_MAX in *; lia|done|].
  set (b := trailing_zeros c) in *.
  assert (Hhigh : forall j, 32 <= j -> Z.testbit c j = false).
  { intros j Hj. apply Z.bits_above_log2; [lia|]. enough (Z.log2 c < 32) by lia.
    apply Z.log2_lt_pow2; unfold U32_MAX in Hc; lia. }
  assert (Hb : b < 32).
  { destruct (Z.lt_ge_cases b 32); [done|]. by rewrite Hhigh in Htb. }
  assert (Hbits : forall j, 0 <= j ->
    Z.testbit (Z.land c (u32_not (Z.shiftl 1 b))) j = Z.testbit c j && negb (j =? b)).
  { intros j Hj. rewrite Z.land_spec. destruct (Z.lt_ge_cases j 32); [|by rewrite Hhigh].
    f_equal. unfold u32_not. rewrite Z.lxor_spec, Z.shiftl_1_l.
    change U32_MAX with (Z.ones 32). rewrite Z.ones_spec_low by lia.
    rewrite Z.pow2_bits_eqb by lia. rewrite (Z.eqb_sym b j). by destruct (j =? b). }
  split; [lia|]. split; [done|]. split; [|done].
  assert (0 <= Z.land c (u32_not (Z.shiftl 1 b))) as Hnn by (apply Z.land_nonneg; lia).
  split; [done|]. set (n := Z.land c _) in *.
  destruct (Z.eq_dec n 0) as [->|]; [by vm_compute|].
  enough (n < 2 ^ 32) by (unfold U32_MAX; lia). apply Z.log2_lt_pow2; [lia|].
  destruct (Z.lt_ge_cases (Z.log2 n) 32); [done|].
  pose proof (Z.bit_log2 n ltac:(lia)) as Hx. rewrite Hbits, Hhigh in Hx by lia. done.
Qed.

(** *** Preservation *)
Lemma slot_inv_ext p p' ag ag' b :
  Z.testbit (free p') b = Z.testbit (free p) b ->
  get_ix (references p') b = get_ix (references p) b ->
  owners b ag' = owners b ag -> leases b ag' = leases b ag -> writers b ag' = writers b ag ->
  slot_inv p ag b -> slot_inv p' ag' b.
Proof. unfold slot_inv. by intros -> -> -> -> ->. Qed.

Lemma get_ix_insert_eq (l : list Z) b n :
  0 <= b < zlen l -> get_ix (<[Z.to_nat b := n]> l) b = Some n.
Proof.
  intros Hb. unfold get_ix. rewrite (proj2 (Z.leb_le 0 b)) by lia.
  apply list_lookup_insert_eq. unfold zlen in Hb. lia.
Qed.

Lemma get_ix_insert_ne (l : list Z) b c n :
  0 <= b -> b <> c -> 0 <= c -> get_ix (<[Z.to_nat b := n]> l) c = get_ix l c.
Proof.
  intros Hb Hne Hc. unfold get_ix. rewrite (proj2 (Z.leb_le 0 c)) by done.
  apply list_lookup_insert_ne. lia.
Qed.

Lemma exclusive_other b x y : slot_of x <> Some b -> slot_of y <> Some b -> exclusive b x = exclusive b y.
Proof.
  intros Hx Hy. destruct x, y; simpl in *; rewrite ?(proj2 (Z.eqb_neq _ _)) by congruence; done.
Qed.

Lemma shared_other b x y : slot_of x <> Some b -> slot_of y <> Some b -> shared b x = shared b y.
Proof.
  intros Hx Hy. destruct x, y; simpl in *; rewrite ?(proj2 (Z.eqb_neq _ _)) by congruence; done.
Qed.

Lemma writing_other b x y : slot_of x <> Some b -> slot_of y <> Some b -> writing b x = writing b y.
Proof.
  intros Hx Hy. destruct x, y; simpl in *; rewrite ?(proj2 (Z.eqb_neq _ _)) by congruence; done.
Qed.

(** A step of agent [k] that only concerns slot [b]. *)
Lemma local_step p p' ag k x y b :
  pool_inv (p, ag) -> ag !! k = Some x -> agent_ok y ->
  (forall c, c <> b -> slot_of x <> Some c) -> (forall c, c <> b -> slot_of y <> Some c) ->
  zlen (references p') = zlen (references p) -> is_u32 (free p') ->
  (forall c, c <> b -> 0 <= c -> Z.testbit (free p') c = Z.testbit (free p) c) ->
  (forall c, c <> b -> 0 <= c -> get_ix (references p') c = get_ix (references p) c) ->
  (SLOTS <= b -> Z.testbit (free p') b = false) ->
  (0 <= b < SLOTS -> slot_inv p ag b -> slot_inv p' (<[k := y]> ag) b) ->
  pool_inv (p', <[k := y]> ag).
Proof.
  intros (Hlen & Hu & Hhi & Hag & Hsl) Hk Hy Hxb Hyb Hrl Hu' Hfree Href Hhib Hb.
  split; [by rewrite Hrl|]. split; [done|]. split.
  { intros c Hc. destruct (Z.eq_dec c b) as [->|]; [by apply Hhib|]. rewrite Hfree by lia. by apply Hhi. }
  split; [by apply Forall_insert|]. intros c Hc.
  destruct (Z.eq_dec c b) as [->|Hne]; [by apply Hb, Hsl|].
  apply (slot_inv_ext p _ ag); [apply Hfree; lia|apply Href; lia| | | |by apply Hsl].
  - rewrite (owners_insert _ _ _ _ _ Hk), (exclusive_other c x y) by auto. lia.
  - rewrite (leases_insert _ _ _ _ _ Hk), (shared_other c x y) by auto. lia.
  - rewrite (writers_insert _ _ _ _ _ Hk), (writing_other c x y) by auto. lia.
Qed.

(** Evaluates the counts of the concerned slot after a local step. *)
Ltac counts Hk :=
  unfold slot_inv;
  rewrite ?(owners_insert _ _ _ _ _ Hk), ?(leases_insert _ _ _ _ _ Hk),
    ?(writers_insert _ _ _ _ _ Hk);
  cbn [exclusive shared writing free references set_free set_reference]; rewrite ?Z.eqb_refl.

Lemma free_u32 p ag : pool_inv (p, ag) -> is_u32 (free p).
Proof. by intros (_ & Hu & _). Qed.

Lemma neutral_step p ag k x y :
  pool_inv (p, ag) -> ag !! k = Some x -> agent_ok y -> slot_of x = None -> slot_of y = None ->
  pool_inv (p, <[k := y]> ag).
Proof.
  intros Hinv Hk Hy Hx Hy'. apply (local_step p p ag k x y (-1)); try done.
  - intros c _. by rewrite Hx.
  - intros c _. by rewrite Hy'.
  - by eapply free_u32.
  - lia.
Qed.

Lemma agent_at p ag k x : pool_inv (p, ag) -> ag !! k = Some x -> agent_ok x.
Proof. intros (_ & _ & _ & Hag & _) Hk. apply (Forall_lookup_1 _ _ _ _ Hag Hk). Qed.

Lemma exchange_inv p ag k c r n b :
  pool_inv (p, ag) -> ag !! k = Some (Loaded c r) -> acquire_try c r = Some (n, b) -> free p = c ->
  pool_inv (set_free p n, <[k := Claimed b]> ag).
Proof.
  intros Hinv Hk Htry Hc. pose proof (agent_at _ _ _ _ Hinv Hk) as Hr. simpl in Hr.
  destruct (acquire_try_bits c r n b) as (Hb & Hbit & Hn & Hbits); [subst c; by eapply free_u32|done..|].
  assert (HbS : 0 <= b < SLOTS).
  { split; [lia|]. destruct (Z.lt_ge_cases b SLOTS) as [|Hge]; [done|].
    destruct Hinv as (_ & _ & Hhi & _). rewrite <- Hc, Hhi in Hbit by done. done. }
  apply (local_step p _ ag k (Loaded c r) (Claimed b) b); try done.
  - simpl. congruence.
  - intros d Hd Hd0. simpl. rewrite Hbits, Hc by done. rewrite (proj2 (Z.eqb_neq d b)) by done.
    apply andb_true_r.
  - lia.
  - intros _. counts Hk. rewrite Hc, Hbits, Hbit, Z.eqb_refl by lia. cbn [andb negb].
    intros [H1 H2]. left. pose proof (writers_owners b ag). lia.
Qed.

(** The exclusive owner of a slot, in its invariant. *)
Lemma exclusive_slot p ag k x b :
  pool_inv (p, ag) -> ag !! k = Some x -> exclusive b x = 1 -> 0 <= b < SLOTS ->
  Z.testbit (free p) b = false /\ owners b ag = 1 /\ leases b ag = 0 /\
  (1 <= writers b ag -> get_ix (references p) b = Some 1).
Proof.
  intros (_ & _ & _ & _ & Hsl) Hk Hx Hb. pose proof (owners_le b _ _ _ Hk) as Hle.
  specialize (Hsl b Hb). unfold slot_inv in Hsl. destruct (Z.testbit (free p) b); [lia|].
  destruct Hsl as [?|?]; [done|lia].
Qed.

(** The steps of the exclusive owner that keep the free mask. *)
Lemma owner_step p p' ag k x y b :
  pool_inv (p, ag) -> ag !! k = Some x -> agent_ok x -> agent_ok y ->
  slot_of x = Some b -> slot_of y = Some b -> exclusive b x = 1 -> free p' = free p ->
  zlen (references p') = zlen (references p) ->
  (forall c, c <> b -> 0 <= c -> get_ix (references p') c = get_ix (references p) c) ->
  0 <= b < SLOTS ->
  (exclusive b y = 1 /\ (writing b y = 1 -> get_ix (references p') b = Some 1) \/
   shared b y = 1 /\ get_ix (references p') b = Some 1) ->
  pool_inv (p', <[k := y]> ag).
Proof.
  intros Hinv Hk Hox Hoy Hx Hy Hex Hfree Hrl Href Hb Hnew.
  destruct (exclusive_slot _ _ _ _ _ Hinv Hk Hex Hb) as (Hf & Ho & Hl & _).
  assert (Hsx : shared b x = 0 /\ writing b x <= 1).
  { destruct x; simpl in *; repeat case_match; try done; lia. }
  pose proof (writers_owners b (<[k := Idle]> ag)) as Hwo.
  rewrite (owners_insert _ _ _ _ _ Hk), (writers_insert _ _ _ _ _ Hk) in Hwo. simpl in Hwo.
  apply (local_step p _ ag k x y b); try done.
  - rewrite Hx. congruence.
  - rewrite Hy. congruence.
  - rewrite Hfree. by eapply free_u32.
  - intros c _ _. by rewrite Hfree.
  - lia.
  - intros _ _. unfold slot_inv. rewrite Hfree, Hf.
    rewrite (owners_insert _ _ _ _ _ Hk), (leases_insert _ _ _ _ _ Hk).
    destruct Hnew as [[Hey Hwy]|[Hsy Hr]].
    + left. split; [lia|]. split; [destruct y; simpl in *; repeat case_match; lia|].
      rewrite (writers_insert _ _ _ _ _ Hk). intros Hw. apply Hwy.
      destruct y; simpl in *; repeat case_match; lia.
    + right. assert (exclusive b y = 0) by (destruct y; simpl in *; repeat case_match; lia).
      rewrite Hr, Hl. split; [lia|]. replace (0 - shared b x + shared b y) with 1 by lia. by vm_compute.
Qed.

Lemma clone_inv p p' ag k l :
  pool_inv (p, ag) -> ag !! k = Some (Leased (lease_slot l)) -> lease_clone p l = Ok (l, p') ->
  pool_inv (p', ag ++ [Leased (lease_slot l)]).
Proof.
  intros Hinv Hk. pose proof (agent_at _ _ _ _ Hinv Hk) as Hb. simpl in Hb. set (b := lease_slot l) in *.
  destruct Hinv as (Hlen & Hu & Hhi & Hag & Hsl). unfold lease_clone, index. fold b.
  destruct (get_ix (references p) b) as [n|] eqn:Hn; [|done]. cbn [mbind outcome_bind].
  destruct ((n =? 0) || (n =? U8_MAX)) eqn:Hg; [done|]. bools. intros [= <-].
  split; [unfold zlen; simpl; by rewrite length_insert|]. split; [done|]. split; [done|].
  split; [apply Forall_app; by split; [|constructor]|]. intros c Hc. specialize (Hsl c Hc).
  unfold slot_inv, owners, leases, writers in *. rewrite !zsum_app.
  cbn [zsum exclusive shared writing set_reference free references].
  destruct (Z.eqb_spec b c) as [<-|Hne].
  - pose proof (leases_le b _ _ _ Hk) as Hle. simpl in Hle. rewrite Z.eqb_refl in Hle.
    unfold leases in Hle. destruct (Z.testbit (free p) b); [lia|].
    destruct Hsl as [?|(H1 & H2 & H3)]; [lia|]. right. rewrite H3 in Hn. injection Hn as <-.
    split; [lia|]. split; [lia|]. rewrite get_ix_insert_eq by lia. f_equal.
    rewrite as_u8_small by lia. lia.
  - rewrite get_ix_insert_ne by lia. by rewrite !Z.add_0_r.
Qed.

Lemma drop_inv p ag k b n :
  pool_inv (p, ag) -> ag !! k = Some (Leased b) -> get_ix (references p) b = Some n ->
  pool_inv (set_reference p b (as_u8 (n - 1)), <[k := if n =? 1 then Releasing b else Idle]> ag).
Proof.
  intros Hinv Hk Hn. pose proof (agent_at _ _ _ _ Hinv Hk) as Hb. simpl in Hb.
  apply (local_step p _ ag k (Leased b) _ b); try done.
  - by case_match.
  - simpl. congruence.
  - case_match; simpl; congruence.
  - unfold zlen. simpl. by rewrite length_insert.
  - exact (free_u32 p ag Hinv).
  - intros c Hc Hc0. simpl. apply get_ix_insert_ne; lia.
  - lia.
  - intros _. counts Hk. pose proof (leases_le b _ _ _ Hk) as Hle. simpl in Hle.
    rewrite Z.eqb_refl in Hle. rewrite Hn. rewrite get_ix_insert_eq by (destruct Hinv as [-> _]; lia).
    destruct (Z.testbit (free p) b); [lia|]. intros [?|(H1 & H2 & [= ->])]; [lia|].
    pose proof (writers_owners b ag).
    destruct (Z.eqb_spec (leases b ag) 1) as [E|E]; cbn [exclusive shared writing]; rewrite ?Z.eqb_refl.
    + left. lia.
    + right. rewrite as_u8_small by lia. split; [lia|]. split; [lia|]. f_equal. lia.
Qed.

Lemma lor_bit a b j :
  0 <= b -> 0 <= j -> Z.testbit (Z.lor a (Z.shiftl 1 b)) j = Z.testbit a j || (b =? j).
Proof.
  intros Hb Hj. rewrite Z.lor_spec, Z.shiftl_1_l, Z.pow2_bits_eqb by done. done.
Qed.

Lemma release_inv p ag k b :
  pool_inv (p, ag) -> ag !! k = Some (Releasing b) ->
  pool_inv ((release SLOTS p b).2, <[k := Idle]> ag).
Proof.
  intros Hinv Hk. pose proof (agent_at _ _ _ _ Hinv Hk) as Hb. simpl in Hb.
  unfold release. destruct (Z.leb_spec SLOTS b); [lia|]. cbn [snd].
  destruct (exclusive_slot _ _ _ _ b Hinv Hk) as (Hf & Ho & Hl & _); [simpl; by rewrite Z.eqb_refl|done|].
  apply (local_step p _ ag k (Releasing b) Idle b); try done.
  - simpl. congruence.
  - pose proof (free_u32 _ _ Hinv) as Hu. simpl. rewrite Z.shiftl_1_l.
    pose proof (Z.pow_pos_nonneg 2 b ltac:(lia) ltac:(lia)).
    split; [apply Z.lor_nonneg; lia|].
    enough (Z.lor (free p) (2 ^ b) < 2 ^ 32) by (unfold U32_MAX; lia).
    assert (0 < Z.lor (free p) (2 ^ b)).
    { enough (Z.lor (free p) (2 ^ b) <> 0) by (pose proof (proj2 (Z.lor_nonneg (free p) (2 ^ b))); lia).
      intros [_ ?]%Z.lor_eq_0_iff. lia. }
    apply Z.log2_lt_pow2; [done|]. rewrite Z.log2_lor by lia. rewrite Z.log2_pow2 by lia.
    apply Z.max_lub_lt; [|lia]. destruct (Z.eq_dec (free p) 0) as [->|]; [done|].
    apply Z.log2_lt_pow2; unfold U32_MAX in Hu; lia.
  - intros c Hc Hc0. simpl. rewrite lor_bit by lia. rewrite (proj2 (Z.eqb_neq b c)) by done.
    apply orb_false_r.
  - lia.
  - intros _ _. counts Hk. rewrite lor_bit, Z.eqb_refl, orb_true_r by lia. lia.
Qed.

Lemma pool_step_inv c c' : pool_inv c -> pool_step c c' -> pool_inv c'.
Proof.
  intros Hinv Hstep. destruct Hstep as [p ag|p ag k r Hk Hr|p ag k c r Hk Htry|p ag k c r n b Hk Htry
    |p ag k c r n b Hk Htry Hc|p ag k b Hk|p ag k b Hk|p ag k b Hk|p p' ag k l Hk Hcl
    |p ag k b n Hk Hn|p ag k b Hk].
  - destruct Hinv as (Hlen & Hu & Hhi & Hag & Hsl). split; [done|]. split; [done|]. split; [done|].
    split; [apply Forall_app; by split; [|constructor]|]. intros b Hb. specialize (Hsl b Hb).
    revert Hsl. apply slot_inv_ext; try done; unfold owners, leases, writers; rewrite zsum_app; simpl; lia.
  - by eapply neutral_step.
  - by eapply neutral_step.
  - pose proof (agent_at _ _ _ _ Hinv Hk). by eapply neutral_step.
  - by eapply exchange_inv.
  - pose proof (agent_at _ _ _ _ Hinv Hk) as Hb. simpl in Hb.
    apply (owner_step p _ ag k (Claimed b) (Writing b) b); try done; simpl; rewrite ?Z.eqb_refl; try done.
    + unfold zlen. by rewrite length_insert.
    + intros c Hc Hc0. apply get_ix_insert_ne; lia.
    + left. split; [done|]. intros _. apply get_ix_insert_eq. destruct Hinv as [-> _]. lia.
  - pose proof (agent_at _ _ _ _ Hinv Hk) as Hb. simpl in Hb.
    destruct (exclusive_slot _ _ _ _ b Hinv Hk) as (_ & _ & _ & Hw); [simpl; by rewrite Z.eqb_refl|done|].
    pose proof (writers_le b _ _ _ Hk) as Hle. simpl in Hle. rewrite Z.eqb_refl in Hle.
    apply (owner_step p _ ag k (Writing b) (Leased b) b); try done; simpl; rewrite ?Z.eqb_refl; try done.
    right. split; [done|]. by apply Hw.
  - pose proof (agent_at _ _ _ _ Hinv Hk) as Hb. simpl in Hb.
    apply (owner_step p _ ag k (Writing b) (Releasing b) b); try done; simpl; rewrite ?Z.eqb_refl; try done.
    by left.
  - by eapply clone_inv.
  - by apply drop_inv.
  - by apply release_inv.
Qed.

Lemma mask_bits b : 0 <= b -> Z.testbit (mask SLOTS) b = (b <? SLOTS).
Proof.
  intros Hb. unfold mask. assert (Hones : (if SLOTS =? 32 then U32_MAX else Z.shiftl 1 SLOTS - 1)
    = Z.ones SLOTS).
  { destruct (Z.eqb_spec SLOTS 32) as [->|]; [done|]. rewrite Z.ones_equiv, Z.shiftl_1_l. lia. }
  rewrite Hones. destruct (Z.ltb_spec b SLOTS).
  - apply Z.ones_spec_low; lia.
  - apply Z.ones_spec_high; lia.
Qed.

Lemma pool_new_inv MTU : pool_inv (pool_new SLOTS MTU, []).
Proof.
  split; [unfold zlen; simpl; rewrite length_replicate; lia|]. simpl. split.
  { unfold mask. destruct (Z.eqb_spec SLOTS 32); [by vm_compute|].
    rewrite Z.shiftl_1_l. pose proof (Z.pow_pos_nonneg 2 SLOTS ltac:(lia) ltac:(lia)).
    pose proof (Z.pow_le_mono_r 2 SLOTS 32 ltac:(lia) ltac:(lia)). unfold U32_MAX. lia. }
  split; [intros b Hb; rewrite mask_bits by lia; apply Z.ltb_ge; lia|]. split; [done|].
  intros b Hb. unfold slot_inv. simpl. by rewrite mask_bits, (proj2 (Z.ltb_lt b SLOTS)) by lia.
Qed.

Lemma pool_reachable_inv MTU c : rtc pool_step (pool_new SLOTS MTU, []) c -> pool_inv c.
Proof.
  intros H. pose proof (pool_new_inv MTU) as Hi. induction H as [|x y z Hxy _ IH]; [done|].
  by apply IH, (pool_step_inv x).
Qed.

(** *** Consequences of the counts *)
Lemma refers_weight a b : slot_of a = Some b <-> exclusive b a + shared b a = 1.
Proof.
  destruct a; simpl; try (destruct (Z.eqb_spec slot b)); split; intros;
    simplify_eq; first [done|congruence|lia].
Qed.

Lemma two_agents ag j k x y b :
  ag !! j = Some x -> ag !! k = Some y -> slot_of x = Some b -> slot_of y = Some b ->
  owners b ag + leases b ag = 1 -> j = k.
Proof.
  intros Hj Hk Hx%refers_weight Hy%refers_weight Hsum. destruct (decide (j = k)) as [|Hne]; [done|].
  assert (Hk' : <[j := Idle]> ag !! k = Some y) by (by rewrite list_lookup_insert_ne).
  pose proof (owners_le b _ _ _ Hk'). pose proof (leases_le b _ _ _ Hk').
  rewrite (owners_insert _ _ _ _ _ Hj) in *. rewrite (leases_insert _ _ _ _ _ Hj) in *. simpl in *. lia.
Qed.

Lemma some_agent ag b :
  1 <= owners b ag + leases b ag -> exists k a, ag !! k = Some a /\ slot_of a = Some b.
Proof.
  unfold owners, leases. induction ag as [|a ag IH]; simpl; [lia|]. intros H.
  destruct (decide (slot_of a = Some b)) as [|Hn]; [by exists 0%nat, a|].
  destruct IH as (k & x & ? & ?); [|by exists (S k), x].
  rewrite refers_weight in Hn. enough (exclusive b a + shared b a = 0) by lia.
  destruct a; simpl in *; repeat case_match; lia.
Qed.
End interleavings.

(** ** Headroom *)
Lemma splice_length buf at_ data :
  0 <= at_ -> at_ + zlen data <= zlen buf -> zlen (splice buf at_ data) = zlen buf.
Proof.
  intros H0 Hle. unfold splice. pose proof (zlen_nonneg data).
  rewrite !zlen_app, zlen_take, zlen_drop by lia. lia.
Qed.

(** Reading a spliced region, and a region after it. *)
Lemma splice_read buf at_ data n :
  0 <= at_ -> at_ + zlen data + n <= zlen buf -> 0 <= n ->
  take (Z.to_nat (zlen data + n)) (drop (Z.to_nat at_) (splice buf at_ data)) =
  data ++ take (Z.to_nat n) (drop (Z.to_nat (at_ + zlen data)) buf).
Proof.
  intros H0 Hle Hn. unfold splice. pose proof (zlen_nonneg data).
  assert (Hl : length (take (Z.to_nat at_) buf) = Z.to_nat at_)
    by (rewrite length_take; unfold zlen in *; lia).
  rewrite drop_app_ge by lia. rewrite Hl, Nat.sub_diag, drop_0.
  replace (Z.to_nat (zlen data + n)) with (length data + Z.to_nat n)%nat by (unfold zlen; lia).
  apply firstn_app_2.
Qed.

(** Appending a byte to a region. *)
Lemma splice_append buf s n b :
  0 <= s -> 0 <= n -> s + n < zlen buf ->
  take (Z.to_nat (n + 1)) (drop (Z.to_nat s) (splice buf (s + n) [b])) =
  take (Z.to_nat n) (drop (Z.to_nat s) buf) ++ [b].
Proof.
  intros Hs Hn Hlt. unfold splice.
  assert (Hl : length (take (Z.to_nat (s + n)) buf) = Z.to_nat (s + n))
    by (rewrite length_take; unfold zlen in *; lia).
  rewrite drop_app_le by lia. rewrite skipn_firstn_comm.
  replace (Z.to_nat (s + n) - Z.to_nat s)%nat with (Z.to_nat n) by lia.
  set (l := take (Z.to_nat n) (drop (Z.to_nat s) buf)).
  assert (Hll : length l = Z.to_nat n) by (unfold l; rewrite length_take, length_drop; unfold zlen in *; lia).
  replace (Z.to_nat (n + 1)) with (length l + 1)%nat by lia. by rewrite firstn_app_2.
Qed.

(** A pool whose slots have the MTU. *)
Definition shape_ok (SLOTS MTU : Z) (p : Pool) : Prop :=
  zlen (packets p) = SLOTS /\ Forall (fun b => zlen b = MTU) (packets p).

Section headroom.
Context (SLOTS MTU : Z).

Lemma shape_get p slot :
  shape_ok SLOTS MTU p -> 0 <= slot < SLOTS ->
  exists buf, get_ix (packets p) slot = Some buf /\ zlen buf = MTU.
Proof.
  intros [Hl Hall] Hs. unfold get_ix. rewrite (proj2 (Z.leb_le 0 slot)) by lia.
  destruct (lookup_lt_is_Some_2 (packets p) (Z.to_nat slot)) as [buf Hb]; [unfold zlen in Hl; lia|].
  exists buf. split; [done|]. apply (Forall_lookup_1 _ _ _ _ Hall Hb).
Qed.

(** A lease sees [data]. *)
Definition lease_holds (p : Pool) (l : PoolLease) (data : bytes) : Prop :=
  0 <= lease_slot l < SLOTS /\ 0 <= lease_start l /\ lease_len l = zlen data /\
  lease_start l + lease_len l <= MTU /\ payload SLOTS MTU p l = Ok data.

Lemma payload_buffer p l buf :
  shape_ok SLOTS MTU p -> 0 <= lease_slot l < SLOTS ->
  get_ix (packets p) (lease_slot l) = Some buf ->
  payload SLOTS MTU p l = slice buf (lease_start l) (lease_start l + lease_len l).
Proof.
  intros Hsh Hs Hg. unfold payload, packet.
  rewrite (proj2 (Z.leb_gt SLOTS _)), (proj2 (Z.ltb_ge MTU MTU)) by lia. cbn [orb].
  rewrite Hg. cbn [mbind option_bind]. destruct (shape_get p _ Hsh Hs) as (b & Hb & Hl).
  rewrite Hg in Hb. injection Hb as <-. rewrite take_ge; [done|]. unfold zlen in Hl. lia.
Qed.

(** Writing [data] just before [n] bytes of a slot, and reading both back. *)
Lemma write_at_read p slot at_ data n :
  shape_ok SLOTS MTU p -> 0 <= slot < SLOTS -> 0 <= at_ -> 0 <= n -> MTU <= U64_MAX ->
  at_ + zlen data + n <= MTU ->
  exists p' buf, write_at SLOTS MTU p slot at_ data = Some p' /\ shape_ok SLOTS MTU p' /\
    get_ix (packets p) slot = Some buf /\
    payload SLOTS MTU p' (mkPoolLease slot at_ (zlen data + n)) =
      Ok (data ++ take (Z.to_nat n) (drop (Z.to_nat (at_ + zlen data)) buf)).
Proof.
  intros Hsh Hs Ha Hn HM Hfit. pose proof (zlen_nonneg data).
  destruct (shape_get p slot Hsh Hs) as (buf & Hb & Hl). unfold write_at.
  rewrite (proj2 (Z.leb_gt SLOTS _)), (proj2 (Z.ltb_ge MTU (sat_add at_ (zlen data))))
    by (unfold sat_add; lia). cbn [orb]. rewrite Hb. cbn [mbind option_bind]. eexists _, buf.
  split; [done|]. destruct Hsh as [Hlen Hall].
  pose proof (splice_length buf at_ data Ha ltac:(lia)) as Hsl.
  assert (Hsh' : shape_ok SLOTS MTU (mkPool (free p) (references p)
    (<[Z.to_nat slot := splice buf at_ data]> (packets p)))).
  { split; [unfold zlen; simpl; by rewrite length_insert|]. apply Forall_insert; [done|lia]. }
  split; [done|]. split; [done|].
  rewrite (payload_buffer _ _ (splice buf at_ data)); [|done|done|].
  - simpl. apply slice_Ok. split; [lia|]. split; [lia|].
    replace (at_ + (zlen data + n) - at_) with (zlen data + n) by lia.
    rewrite splice_read by lia. done.
  - simpl. unfold get_ix. rewrite (proj2 (Z.leb_le 0 slot)) by lia.
    apply list_lookup_insert_eq. unfold zlen in Hlen. lia.
Qed.

(** What an acquisition needs of the pool, whoever owns the other slots. *)
Definition free_ok (p : Pool) : Prop :=
  is_u32 (free p) /\ forall b, SLOTS <= b -> Z.testbit (free p) b = false.

Lemma acquire_slot p r slot p' :
  free_ok p -> 0 <= r -> acquire_reserving p r = Some (slot, p') ->
  0 <= slot < SLOTS /\ packets p' = packets p /\ free_ok p'.
Proof.
  intros (Hu & Hhi) Hr. unfold acquire_reserving.
  destruct (acquire_try (free p) r) as [[n b]|] eqn:Ht; [|done]. cbn [mbind option_bind].
  intros [= <- <-]. destruct (acquire_try_bits _ _ _ _ Hu Hr Ht) as (Hb & Hbit & Hn & Hbits).
  split; [destruct (Z.lt_ge_cases b SLOTS); [lia|by rewrite Hhi in Hbit]|].
  split; [done|]. split; [done|]. intros c Hc. simpl.
  destruct (Z.lt_ge_cases c 0); [by apply Z.testbit_neg_r|]. by rewrite Hbits, Hhi.
Qed.

Lemma acquire_with_headroom_holds p headroom data l p' :
  shape_ok SLOTS MTU p -> free_ok p -> 0 <= headroom -> MTU < U64_MAX ->
  acquire_with_headroom SLOTS MTU p headroom data = (Some l, p') ->
  lease_holds p' l data /\ lease_start l = headroom /\ shape_ok SLOTS MTU p'.
Proof.
  intros Hsh Hf Hh HM. unfold acquire_with_headroom.
  destruct (Z.ltb_spec MTU (sat_add headroom (zlen data))) as [|Hfit]; [done|].
  pose proof (zlen_nonneg data). unfold acquire.
  destruct (acquire_reserving p 0) as [[slot p1]|] eqn:Ha; [|done].
  destruct (acquire_slot p 0 slot p1 Hf ltac:(lia) Ha) as (Hs & Hp & _).
  assert (Hsh1 : shape_ok SLOTS MTU p1) by (unfold shape_ok; by rewrite Hp).
  destruct (write_at_read p1 slot headroom data 0) as (p2 & buf & Hw & Hsh2 & _ & Hpay);
    try done; [lia|unfold sat_add in Hfit; lia|].
  rewrite Hw. intros [= <- <-]. rewrite Z.add_0_r, take_0, app_nil_r in Hpay.
  split; [|done]. split; [done|]. simpl. split; [done|]. split; [done|].
  split; [unfold sat_add in Hfit; lia|done].
Qed.

(** The part of a lease after its first [n] bytes. *)
Lemma payload_suffix p slot start len n bs bs' :
  shape_ok SLOTS MTU p -> 0 <= slot < SLOTS -> 0 <= start -> n = zlen bs -> 0 <= len ->
  payload SLOTS MTU p (mkPoolLease slot start (len + n)) = Ok (bs ++ bs') ->
  payload SLOTS MTU p (mkPoolLease slot (start + n) len) = Ok bs'.
Proof.
  intros Hsh Hs Hst -> Hlen. destruct (shape_get p slot Hsh Hs) as (buf & Hb & Hl).
  rewrite !(payload_buffer _ _ buf) by done. simpl. intros (H1 & H2 & H3)%slice_Ok.
  pose proof (zlen_nonneg bs). apply slice_Ok. split; [lia|]. split; [lia|].
  apply (f_equal (drop (length bs))) in H3. rewrite drop_app_length in H3.
  rewrite H3, skipn_firstn_comm, drop_drop. unfold zlen in *. f_equal; [lia|]. f_equal. lia.
Qed.
End headroom.

(** ** The interface to bearers

    What a bearer that fills a slot byte by byte relies on ([PacketPool] and
    [PacketWriter] of [src/crates/quic-lite/src/bearer.rs]).  [iface_filled p w bs]:
    the writer [w] is live in [p] and [bs] are the first bytes of its payload. *)
Class PacketPoolIface (pool writer : Type) : Type := {
  iface_acquire_writer : pool -> Z -> Z -> option (writer * pool);
  iface_payload_len : pool -> writer -> Z;
  iface_put : pool -> writer -> Z -> Z -> outcome unit pool;
  iface_commit : pool -> writer -> Z -> option bytes * pool;
  iface_drop : pool -> writer -> pool;
  iface_ok : pool -> Prop;
  iface_filled : pool -> writer -> bytes -> Prop;
  iface_payload_len_nonneg p w : 0 <= iface_payload_len p w;
  iface_acquire_filled p h r w p' :
    iface_ok p -> 0 <= h -> 0 <= r -> iface_acquire_writer p h r = Some (w, p') ->
    iface_filled p' w [];
  iface_put_filled p w bs b :
    iface_filled p w bs -> zlen bs < iface_payload_len p w ->
    exists p', iface_put p w (zlen bs) b = Ok p' /\ iface_filled p' w (bs ++ [b]) /\
      iface_payload_len p' w = iface_payload_len p w;
  iface_commit_filled p w bs :
    iface_filled p w bs -> exists p', iface_commit p w (zlen bs) = (Some bs, p');
}.

(** [PacketWriter::commit] of the trait: the lease becomes an [OwnedPacket], whose
    bytes are the committed range. *)
Definition commit_bytes (SLOTS MTU : Z) (p : Pool) (w : PoolWriter) (len : Z)
    : option bytes * Pool :=
  match commit SLOTS MTU p w len with
  | (Some l, p) => (match payload SLOTS MTU p l with Ok b => Some b | _ => None end, p)
  | (None, p) => (None, p)
  end.

Definition payload_mut_len (p : Pool) (w : PoolWriter) : Z :=
  match payload_mut p w with Ok v => zlen v | _ => 0 end.

Lemma payload_mut_len_nonneg p w : 0 <= payload_mut_len p w.
Proof. unfold payload_mut_len. destruct (payload_mut p w); [apply zlen_nonneg|lia..]. Qed.

Section instance.
Context (SLOTS MTU : Z).

Definition filled (p : Pool) (w : PoolWriter) (bs : bytes) : Prop :=
  shape_ok SLOTS MTU p /\ 0 <= writer_slot w < SLOTS /\ 0 <= writer_start w <= MTU /\
  writer_start w + zlen bs <= MTU /\
  payload SLOTS MTU p (mkPoolLease (writer_slot w) (writer_start w) (zlen bs)) = Ok bs.

Definition ready (p : Pool) : Prop := shape_ok SLOTS MTU p /\ free_ok SLOTS p.

Lemma acquire_filled p h r w p' :
  ready p -> 0 <= h -> 0 <= r -> acquire_writer_reserving MTU p h r = Some (w, p') -> filled p' w [].
Proof.
  intros [Hsh Hf] Hh Hr. unfold acquire_writer_reserving.
  destruct (Z.ltb_spec MTU h); [done|].
  destruct (acquire_reserving p r) as [[slot p1]|] eqn:Ha; [|done]. cbn [mbind option_bind].
  intros [= <- <-]. destruct (acquire_slot SLOTS p r slot p1 Hf Hr Ha) as (Hs & Hp & _).
  assert (Hsh1 : shape_ok SLOTS MTU p1) by (unfold shape_ok; by rewrite Hp).
  split; [done|]. simpl. split; [done|]. split; [lia|]. split; [zlia|].
  destruct (shape_get _ _ _ _ Hsh1 Hs) as (buf & Hb & Hl).
  rewrite (payload_buffer _ _ _ _ buf) by done. simpl. apply slice_Ok.
  split; [zlia|]. split; [zlia|]. by rewrite Z.add_0_r, Z.sub_diag.
Qed.

Lemma payload_mut_eq p w buf :
  filled p w [] -> get_ix (packets p) (writer_slot w) = Some buf ->
  payload_mut p w = Ok (drop (Z.to_nat (writer_start w)) buf) /\ zlen buf = MTU.
Proof.
  intros (Hsh & Hs & Hst & _) Hb. destruct (shape_get _ _ _ _ Hsh Hs) as (buf' & Hb' & Hl).
  rewrite Hb in Hb'. injection Hb' as <-. split; [|done].
  unfold payload_mut, index. rewrite Hb. cbn [mbind outcome_bind]. apply slice_from_Ok. split; [lia|done].
Qed.

Lemma filled_nil p w bs : filled p w bs -> filled p w [].
Proof.
  intros (Hsh & Hs & Hst & Hfit & Hp). split; [done|]. split; [done|]. split; [done|].
  split; [zlia|]. destruct (shape_get _ _ _ _ Hsh Hs) as (buf & Hb & Hl).
  rewrite (payload_buffer _ _ _ _ buf) by done. simpl. apply slice_Ok.
  split; [zlia|]. split; [zlia|]. by rewrite Z.add_0_r, Z.sub_diag.
Qed.

(** One more byte. *)
Lemma put_filled p w bs b :
  filled p w bs -> zlen bs < payload_mut_len p w ->
  exists p', put_byte p w (zlen bs) b = Ok p' /\ filled p' w (bs ++ [b]) /\
    payload_mut_len p' w = payload_mut_len p w.
Proof.
  intros Hfill Hroom. pose proof (filled_nil _ _ _ Hfill) as Hnil.
  pose proof Hfill as (Hsh & Hs & Hst & Hfit & Hp).
  destruct (shape_get _ _ _ _ Hsh Hs) as (buf & Hb & Hl).
  destruct (payload_mut_eq p w buf Hnil Hb) as [Hpm _].
  unfold put_byte, payload_mut_len in *. rewrite Hpm in *. unfold payload_mut in Hpm.
  unfold index in *. rewrite Hb in *. cbn [mbind outcome_bind] in *. rewrite Hpm. cbn [mbind outcome_bind].
  rewrite zlen_drop in Hroom by lia. pose proof (zlen_nonneg bs).
  rewrite (proj2 (Z.leb_le 0 _)), (proj2 (Z.ltb_lt (zlen bs) _)) by (rewrite ?zlen_drop; lia).
  cbn [andb]. eexists. split; [done|]. set (p' := mkPool _ _ _).
  assert (Hsl : zlen (splice buf (writer_start w + zlen bs) [b]) = zlen buf)
    by (apply splice_length; zlia).
  assert (Hb' : get_ix (packets p') (writer_slot w) = Some (splice buf (writer_start w + zlen bs) [b])).
  { unfold p', get_ix in *. simpl. destruct (0 <=? writer_slot w); [|done].
    apply list_lookup_insert_eq. by eapply lookup_lt_Some. }
  assert (Hsh' : shape_ok SLOTS MTU p').
  { destruct Hsh as [Hn Hall]. split; [unfold p', zlen; simpl; by rewrite length_insert|].
    apply Forall_insert; [done|lia]. }
  assert (Hfill' : filled p' w (bs ++ [b])).
  { split; [done|]. split; [done|]. split; [done|]. rewrite zlen_app. split; [zlia|].
    rewrite (payload_buffer SLOTS MTU p' _ _ Hsh' (Hs : 0 <= lease_slot (mkPoolLease _ _ _) < _) Hb').
    rewrite (payload_buffer SLOTS MTU p _ _ Hsh (Hs : 0 <= lease_slot (mkPoolLease _ _ _) < _) Hb) in Hp.
    simpl in *. apply slice_Ok in Hp as (_ & _ & Hp). apply slice_Ok.
    split; [zlia|]. split; [zlia|]. rewrite Z.add_simpl_l in Hp.
    change (zlen [b]) with 1. rewrite Z.add_simpl_l, splice_append by lia. by rewrite <- Hp. }
  split; [done|].
  destruct (payload_mut_eq p' w _ (filled_nil _ _ _ Hfill') Hb') as [Hpm' Hl2].
  unfold payload_mut, index in Hpm'. rewrite Hb' in Hpm'. unfold payload_mut, index. rewrite Hb', Hpm'.
  rewrite !zlen_drop; lia.
Qed.

Lemma commit_filled p w bs :
  filled p w bs -> exists p', commit_bytes SLOTS MTU p w (zlen bs) = (Some bs, p').
Proof.
  intros (Hsh & Hs & Hst & Hfit & Hp). unfold commit_bytes, commit.
  rewrite (proj2 (Z.ltb_ge _ _)) by (unfold sat_sub; lia). rewrite Hp. by eexists.
Qed.

#[export] Instance pool_iface : PacketPoolIface Pool PoolWriter := {|
  iface_acquire_writer := acquire_writer_reserving MTU;
  iface_payload_len := payload_mut_len;
  iface_put := put_byte;
  iface_commit := commit_bytes SLOTS MTU;
  iface_drop := writer_drop SLOTS;
  iface_ok := ready;
  iface_filled := filled;
  iface_payload_len_nonneg := payload_mut_len_nonneg;
  iface_acquire_filled := acquire_filled;
  iface_put_filled := put_filled;
  iface_commit_filled := commit_filled;
|}.
End instance.

(** ** Properties *)

(** C36: the packet pool is safe under every interleaving of its atomic
    accesses: a slot is free exactly when nobody refers to it (no slot is
    leaked or handed out twice), a slot under construction has no other user,
    and a lease whose count is one, which [as_mut_unique] lets mutate the
    packet, is the only reference to its slot. *)
Theorem pool_ownership SLOTS MTU p ag :
  0 <= SLOTS <= 32 -> rtc (pool_step SLOTS) (pool_new SLOTS MTU, []) (p, ag) ->
  forall b, 0 <= b < SLOTS ->
  (Z.testbit (free p) b = true <-> forall k a, ag !! k = Some a -> slot_of a <> Some b) /\
  (forall j k a, ag !! j = Some (Writing b) -> ag !! k = Some a -> slot_of a = Some b -> j = k) /\
  (forall j k a, ag !! j = Some (Leased b) -> get_ix (references p) b = Some 1 ->
     ag !! k = Some a -> slot_of a = Some b -> j = k).
Proof.
  intros HS Hr b Hb. apply pool_reachable_inv in Hr as (_ & _ & _ & _ & Hsl); [|done].
  specialize (Hsl b Hb). unfold slot_inv in Hsl.
  pose proof (owners_nonneg b ag). pose proof (leases_nonneg b ag). repeat split.
  - intros Hf k a Hk Ha%refers_weight. rewrite Hf in Hsl.
    pose proof (owners_le b _ _ _ Hk). pose proof (leases_le b _ _ _ Hk). lia.
  - intros Hnone. destruct (Z.testbit (free p) b); [done|].
    destruct (some_agent ag b) as (k & a & Hk & Ha); [lia|]. by apply Hnone in Hk.
  - intros j k a Hj Hk Ha. apply (two_agents ag j k (Writing b) a b); try done.
    pose proof (owners_le b _ _ _ Hj) as Hle. simpl in Hle. rewrite Z.eqb_refl in Hle.
    destruct (Z.testbit (free p) b); lia.
  - intros j k a Hj Href Hk Ha. apply (two_agents ag j k (Leased b) a b); try done.
    pose proof (leases_le b _ _ _ Hj) as Hle. simpl in Hle. rewrite Z.eqb_refl in Hle.
    destruct (Z.testbit (free p) b); [lia|]. destruct Hsl as [?|(? & ? & Hx)]; [lia|].
    rewrite Href in Hx. injection Hx as Hx. lia.
Qed.

(** Bearer headers live in the headroom: a packet acquired with enough
    headroom reads back as written, prepending a header yields the header
    followed by the unmoved packet, and stripping it restores the original
    lease. *)
Theorem headroom_roundtrip SLOTS MTU p headroom data header l p1 :
  shape_ok SLOTS MTU p -> free_ok SLOTS p -> 0 <= headroom -> MTU < U64_MAX ->
  acquire_with_headroom SLOTS MTU p headroom data = (Some l, p1) -> zlen header <= headroom ->
  payload SLOTS MTU p1 l = Ok data /\
  exists l2 p2, prepend SLOTS MTU p1 l header = (true, l2, p2) /\
    payload SLOTS MTU p2 l2 = Ok (header ++ data) /\
    strip_prefix l2 (zlen header) = (true, l) /\ payload SLOTS MTU p2 l = Ok data.
Proof.
  intros Hsh Hf Hh HM Ha Hle.
  destruct (acquire_with_headroom_holds _ _ _ _ _ _ _ Hsh Hf Hh HM Ha)
    as ((Hs & Hst & Hlen & Hfit & Hp) & Hstart & Hsh1).
  split; [done|]. destruct l as [slot start len]. simpl in *. subst start len.
  pose proof (zlen_nonneg header). pose proof (zlen_nonneg data).
  destruct (write_at_read SLOTS MTU p1 slot (headroom - zlen header) header (zlen data))
    as (p2 & buf & Hw & Hsh2 & Hb & Hp2); try done; [lia..|].
  unfold prepend. cbn [lease_start lease_slot lease_len].
  rewrite (proj2 (Z.ltb_ge headroom _)), Hw by done. eexists _, p2. split; [done|].
  rewrite Z.sub_add in Hp2. rewrite (payload_buffer _ _ _ _ _ Hsh1 (Hs : 0 <= lease_slot
    (mkPoolLease slot headroom (zlen data)) < _) Hb) in Hp. simpl in Hp.
  apply slice_Ok in Hp as (_ & _ & Hp). rewrite Z.add_simpl_l in Hp. rewrite <- Hp in Hp2.
  rewrite Z.add_comm in Hp2. split; [done|]. split.
  - unfold strip_prefix. simpl. rewrite (proj2 (Z.ltb_ge _ _)) by lia. do 2 f_equal; lia.
  - rewrite <- (Z.sub_add (zlen header) headroom).
    apply (payload_suffix SLOTS MTU p2 slot (headroom - zlen header) (zlen data) (zlen header) header data);
      try done; lia.
Qed.

(** The lease queue is a bounded FIFO: for every sequence of pushes and
    pops it gives the answers of a list of capacity [N], returns a refused entry
    to its caller, and never panics. *)
Theorem lease_queue_fifo {M} (N : Z) (ops : list (LeaseQueue.op M)) :
  0 < N -> exists q, LeaseQueue.new N = Ok q /\
    LeaseQueue.run N q ops = Ok (LeaseQueue.fifo_run N [] ops).
Proof.
  intros HN. destruct (LeaseQueue.holds_new (M:=M) N HN) as (q & Hq & Hh).
  exists q. split; [done|]. by apply LeaseQueue.run_fifo.
Qed.

(** ** Witnesses *)
Lemma pool_ownership_witness :
  Z.testbit (free (set_free (pool_new 2 8) 2)) 0 = false /\
  forall j k a, [Claimed 0] !! j = Some (Writing 0) -> [Claimed 0] !! k = Some a ->
    slot_of a = Some 0 -> j = k.
Proof.
  assert (Hr : rtc (pool_step 2) (pool_new 2 8, []) (set_free (pool_new 2 8) 2, [Claimed 0])).
  { eapply rtc_l; [apply step_spawn|].
    eapply rtc_l; [apply (step_load 2 _ [Idle] 0 0); [done|lia]|].
    eapply rtc_l; [|apply rtc_refl].
    apply (step_exchange 2 (pool_new 2 8) [Loaded 3 0] 0 3 0 2 0); [done|by vm_compute|done]. }
  destruct (pool_ownership 2 8 _ _ ltac:(lia) Hr 0 ltac:(lia)) as (_ & H & _).
  split; [by vm_compute|exact H].
Defined.

Lemma headroom_roundtrip_witness :
  exists l2 p2 l p1, acquire_with_headroom 2 8 (pool_new 2 8) 3 [10; 11] = (Some l, p1) /\
    prepend 2 8 p1 l [1; 2] = (true, l2, p2) /\ payload 2 8 p2 l2 = Ok [1; 2; 10; 11].
Proof.
  destruct (headroom_roundtrip 2 8 (pool_new 2 8) 3 [10; 11] [1; 2] (mkPoolLease 0 3 2)
    (acquire_with_headroom 2 8 (pool_new 2 8) 3 [10; 11]).2) as (_ & l2 & p2 & H1 & H2 & _).
  - split; [done|]. repeat constructor.
  - split; [by vm_compute|]. intros b Hb. destruct (Z.eq_dec b 2) as [->|]; [done|].
    apply Z.bits_above_log2; [done|]. change (Z.log2 (free (pool_new 2 8))) with 1. lia.
  - lia.
  - by vm_compute.
  - by vm_compute.
  - by vm_compute.
  - exists l2, p2, (mkPoolLease 0 3 2), (acquire_with_headroom 2 8 (pool_new 2 8) 3 [10; 11]).2.
    split; [by vm_compute|]. split; [exact H1|exact H2].
Defined.

Lemma lease_queue_fifo_witness :
  exists q, LeaseQueue.new 2 = Ok q /\
    LeaseQueue.run 2 q [LeaseQueue.Push 1; LeaseQueue.Push 2; LeaseQueue.Push 3; LeaseQueue.Pop] =
      Ok [LeaseQueue.Accepted; LeaseQueue.Accepted; LeaseQueue.Refused 3; LeaseQueue.Popped (Some 1)].
Proof.
  destruct (lease_queue_fifo (M:=Z) 2
    [LeaseQueue.Push 1; LeaseQueue.Push 2; LeaseQueue.Push 3; LeaseQueue.Pop] ltac:(lia)) as (q & H1 & H2).
  exists q. split; [exact H1|exact H2].
Defined.
