(* ===== verification/PeerTable.v ===== *)
(** * Peer address table

    [src/crates/quic-lite/src/peer_table.rs]: the fixed table that gives each
    bearer-native address an opaque [PeerL2Address], a slot number and the slot's
    generation packed in 64 bits.  The theorem shows the promise its
    documentation makes: a handle names one address for its whole life, and once
    removed never names any address again, however the slot is reused. *)

From S2P Require Import Prelude Wire Keyed.

Record PeerEntry (Address : Type) : Type := mkPeerEntry {
  generation : Z;
  address : option Address;
}.
Arguments mkPeerEntry {Address}.
Arguments generation {Address}.
Arguments address {Address}.

Inductive PeerL2TableFull : Type := TableFull.

(** [PeerL2Address::new] refuses zero; the value is the handle. *)
Definition PeerL2Address_new (v : Z) : option Z := if v =? 0 then None else Some v.

Section table.
Context {Address : Type} `{EqDecision Address}.
Implicit Types t : list (PeerEntry Address).

(** [assert!(PEERS <= u32::MAX as usize)]. *)
Definition table_new (PEERS : Z) : outcome unit (list (PeerEntry Address)) :=
  if U32_MAX <? PEERS then Panic
  else Ok (replicate (Z.to_nat PEERS) (mkPeerEntry 1 None)).

(** [iter().position(..)] *)
Fixpoint position_where {A} (f : A -> bool) (l : list A) : option nat :=
  match l with
  | [] => None
  | x :: l' => if f x then Some 0%nat else S <$> position_where f l'
  end.

Definition holds_address (a : Address) (e : PeerEntry Address) : bool :=
  bool_decide (address e = Some a).

Definition usable (e : PeerEntry Address) : bool :=
  bool_decide (address e = None) && negb (generation e =? 0).

(** [handle]: both [expect]s panic. *)
Definition handle {E} t (slot : nat) : outcome E Z :=
  let s := Z.of_nat slot in
  if U32_MAX <? s then Panic else
  e ← index t s;
  match PeerL2Address_new (Z.lor (Z.shiftl (generation e) 32) (Z.min (s + 1) U32_MAX)) with
  | Some v => Ok v
  | None => Panic
  end.

Definition decode (h : Z) : option (nat * Z) :=
  let generation := Z.shiftr h 32 in
  let encoded_slot := as_u32 h in
  slot ← checked_sub encoded_slot 1;
  if generation =? 0 then None else Some (Z.to_nat slot, generation).

Definition get_or_insert t (peer : Address) : outcome PeerL2TableFull (Z * list (PeerEntry Address)) :=
  match position_where (holds_address peer) t with
  | Some slot => h ← handle t slot; Ok (h, t)
  | None =>
      slot ← ok_or (position_where usable t) TableFull;
      e ← index t (Z.of_nat slot);
      let t := <[slot := mkPeerEntry (generation e) (Some peer)]> t in
      h ← handle t slot; Ok (h, t)
  end.

Definition peer t (h : Z) : option Address :=
  '(slot, g) ← decode h;
  e ← t !! slot;
  if generation e =? g then address e else None.

Definition address_of t (a : Address) : option (outcome unit Z) :=
  handle t <$> position_where (holds_address a) t.

Definition remove t (h : Z) : option Address * list (PeerEntry Address) :=
  match decode h with
  | None => (None, t)
  | Some (slot, g) =>
      match t !! slot with
      | None => (None, t)
      | Some e =>
          if negb (generation e =? g) then (None, t) else
          match address e with
          | None => (None, t)
          | Some a =>
              let g' := if generation e + 1 <=? U32_MAX then generation e + 1 else 0 in
              (Some a, <[slot := mkPeerEntry g' None]> t)
          end
      end
  end.

(** ** Runs *)
Inductive op : Type := Insert (a : Address) | Remove (h : Z).

Definition step t (o : op) : list (PeerEntry Address) :=
  match o with
  | Insert a => match get_or_insert t a with Ok (_, t') => t' | _ => t end
  | Remove h => (remove t h).2
  end.

Definition run t (ops : list op) : list (PeerEntry Address) := fold_left step ops t.

(** Generations grow; zero, the retired slot, comes after all of them. *)
Definition rank (g : Z) : Z := if g =? 0 then 2 ^ 32 else g.

Definition entry_ok (e : PeerEntry Address) : Prop :=
  is_u32 (generation e) /\ (generation e = 0 -> address e = None).

Definition table_ok t : Prop := zlen t <= U32_MAX /\ Forall entry_ok t.

(** The later state of a slot: the same generation with its address kept, or a
    later generation. *)
Definition later (e e' : PeerEntry Address) : Prop :=
  (generation e' = generation e /\ (forall a, address e = Some a -> address e' = Some a)) \/
  rank (generation e) < rank (generation e').

Lemma later_refl e : later e e.
Proof. by left. Qed.

Lemma later_trans e1 e2 e3 : later e1 e2 -> later e2 e3 -> later e1 e3.
Proof.
  intros [[E1 H1]|H1] [[E2 H2]|H2].
  - left. split; [congruence|auto].
  - right. by rewrite <- E1.
  - right. by rewrite E2.
  - right. lia.
Qed.

Lemma position_where_Some {A} (f : A -> bool) l i :
  position_where f l = Some i -> exists x, l !! i = Some x /\ f x = true.
Proof.
  revert i. induction l as [|x l IH]; intros i; simpl; [done|]. destruct (f x) eqn:Hf.
  - intros [= <-]. by exists x.
  - intros (j & Hj & ->)%fmap_Some. by apply IH.
Qed.

(** ** Steps *)
Lemma holds_address_true a e : holds_address a e = true -> address e = Some a.
Proof. apply bool_decide_eq_true. Qed.

Lemma usable_true e : usable e = true -> address e = None /\ generation e <> 0.
Proof. unfold usable. rewrite andb_true_iff, bool_decide_eq_true, negb_true_iff, Z.eqb_neq. done. Qed.

Lemma table_ok_get t i e : table_ok t -> t !! i = Some e -> entry_ok e /\ Z.of_nat i < zlen t.
Proof.
  intros [_ Hall] Hi. split; [apply (Forall_lookup_1 _ _ _ _ Hall Hi)|].
  apply lookup_lt_Some in Hi. unfold zlen. lia.
Qed.

(** A handle decodes to its slot and generation. *)
Lemma handle_decode {E} t i e :
  table_ok t -> t !! i = Some e -> generation e <> 0 ->
  exists h, handle (E:=E) t i = Ok h /\ decode h = Some (i, generation e).
Proof.
  intros Hok Hi Hg. destruct (table_ok_get t i e Hok Hi) as [[Hu _] Hlt]. destruct Hok as [Hlen _].
  unfold handle. rewrite (proj2 (Z.ltb_ge U32_MAX _)) by lia.
  unfold index, get_ix. rewrite (proj2 (Z.leb_le 0 _)), Nat2Z.id, Hi by lia. cbn [mbind outcome_bind].
  rewrite Z.min_l by lia. assert (Hv : Z.lor (Z.shiftl (generation e) 32) (Z.of_nat i + 1) =
    generation e * 2 ^ 32 + (Z.of_nat i + 1)).
  { rewrite lor_shiftl_add; unfold U32_MAX in *; lia. }
  rewrite Hv. set (v := generation e * 2 ^ 32 + (Z.of_nat i + 1)).
  unfold PeerL2Address_new. rewrite (proj2 (Z.eqb_neq v 0)) by (unfold v; lia).
  exists v. split; [done|]. unfold decode, as_u32, checked_sub.
  assert (Hhi : Z.shiftr v 32 = generation e).
  { rewrite Z.shiftr_div_pow2 by lia. unfold v. rewrite Z.add_comm, Z.div_add by lia.
    rewrite Z.div_small; unfold U32_MAX in *; lia. }
  assert (Hlo : v mod 2 ^ 32 = Z.of_nat i + 1).
  { unfold v. rewrite Z.add_comm, Z.mod_add by lia. apply Z.mod_small. unfold U32_MAX in *. lia. }
  rewrite Hhi, Hlo, (proj2 (Z.leb_le 1 _)) by lia. cbn [mbind option_bind].
  rewrite (proj2 (Z.eqb_neq (generation e) 0)) by done. do 2 f_equal. lia.
Qed.

Lemma Forall2_later_refl t : Forall2 later t t.
Proof. apply Forall_Forall2_diag, Forall_true. intros. apply later_refl. Qed.

Lemma Forall2_later_insert t i e e' :
  t !! i = Some e -> later e e' -> Forall2 later t (<[i := e']> t).
Proof.
  intros Hi He. apply Forall2_same_length_lookup. split; [by rewrite length_insert|].
  intros j x y Hx Hy. destruct (decide (i = j)) as [<-|Hne].
  - rewrite list_lookup_insert_eq in Hy by (by eapply lookup_lt_Some). by simplify_eq.
  - rewrite list_lookup_insert_ne in Hy by done. simplify_eq. apply later_refl.
Qed.

Lemma insert_table_ok t i e : table_ok t -> entry_ok e -> table_ok (<[i := e]> t).
Proof.
  intros [Hl Hall] He. split; [unfold zlen; rewrite length_insert; done|]. by apply Forall_insert.
Qed.

(** The two outcomes of [get_or_insert]. *)
Lemma get_or_insert_cases t a :
  table_ok t ->
  get_or_insert t a = Err TableFull /\ position_where usable t = None \/
  exists h i e t', get_or_insert t a = Ok (h, t') /\ t' !! i = Some e /\ address e = Some a /\
    decode h = Some (i, generation e) /\ table_ok t' /\ Forall2 later t t'.
Proof.
  intros Hok. unfold get_or_insert. destruct (position_where (holds_address a) t) as [i|] eqn:Hp.
  - right. apply position_where_Some in Hp as (e & Hi & Ha%holds_address_true).
    destruct (table_ok_get t i e Hok Hi) as [[_ Hz] _].
    destruct (handle_decode (E:=PeerL2TableFull) t i e Hok Hi) as (h & -> & Hd); [intros ?; naive_solver|].
    exists h, i, e, t. split; [done|]. repeat (split; [done|]). apply Forall2_later_refl.
  - destruct (position_where usable t) as [i|] eqn:Hu; [|by left]. right.
    apply position_where_Some in Hu as (e & Hi & [Hn Hg]%usable_true). cbn [ok_or mbind outcome_bind].
    unfold index, get_ix. rewrite (proj2 (Z.leb_le 0 _)), Nat2Z.id, Hi by lia. cbn [mbind outcome_bind].
    set (e' := mkPeerEntry (generation e) (Some a)). set (t' := <[i := e']> t).
    destruct (table_ok_get t i e Hok Hi) as [[Hue _] _].
    assert (Hok' : table_ok t') by (apply insert_table_ok; [done|by split]).
    assert (Hi' : t' !! i = Some e') by (apply list_lookup_insert_eq; by eapply lookup_lt_Some).
    destruct (handle_decode (E:=PeerL2TableFull) t' i e' Hok' Hi' Hg) as (h & -> & Hd).
    exists h, i, e', t'. split; [done|]. repeat (split; [done|]).
    apply (Forall2_later_insert t i e); [done|]. left. split; [done|]. simpl. congruence.
Qed.

(** Removal advances the generation. *)
Lemma remove_cases t h :
  table_ok t ->
  remove t h = (None, t) \/
  exists a i e t', remove t h = (Some a, t') /\ decode h = Some (i, generation e) /\
    t !! i = Some e /\ address e = Some a /\ table_ok t' /\ Forall2 later t t' /\
    exists e', t' !! i = Some e' /\ rank (generation e) < rank (generation e').
Proof.
  intros Hok. unfold remove. destruct (decode h) as [[i g]|] eqn:Hd; [|by left].
  destruct (t !! i) as [e|] eqn:Hi; [|by left].
  destruct (Z.eqb_spec (generation e) g) as [<-|]; [|by left]. cbn [negb].
  destruct (address e) as [a|] eqn:Ha; [|by left]. right.
  destruct (table_ok_get t i e Hok Hi) as [[Hu Hz] _].
  assert (generation e <> 0) by (intros E; by rewrite (Hz E) in Ha).
  set (g' := if generation e + 1 <=? U32_MAX then _ else 0).
  assert (Hrank : rank (generation e) < rank g').
  { unfold rank, g'. rewrite (proj2 (Z.eqb_neq (generation e) 0)) by done.
    destruct (Z.leb_spec (generation e + 1) U32_MAX).
    - rewrite (proj2 (Z.eqb_neq _ 0)) by lia. lia.
    - unfold U32_MAX in *. simpl. lia. }
  exists a, i, e, (<[i := mkPeerEntry g' None]> t). split; [done|]. repeat (split; [done|]).
  split; [apply insert_table_ok; [done|]; split; [|done]; simpl; unfold g'; case_match; bools; lia|].
  split; [apply (Forall2_later_insert t i e); [done|by right]|].
  exists (mkPeerEntry g' None). split; [|done]. apply list_lookup_insert_eq. by eapply lookup_lt_Some.
Qed.

Lemma step_later t o : table_ok t -> table_ok (step t o) /\ Forall2 later t (step t o).
Proof.
  intros Hok. destruct o as [a|h]; simpl.
  - destruct (get_or_insert_cases t a Hok) as [[-> _]|(h & i & e & t' & -> & _ & _ & _ & ? & ?)]; [|done].
    split; [done|apply Forall2_later_refl].
  - destruct (remove_cases t h Hok) as [->|(a & i & e & t' & -> & _ & _ & _ & ? & ? & _)]; [|done].
    split; [done|apply Forall2_later_refl].
Qed.

Lemma run_later t ops : table_ok t -> table_ok (run t ops) /\ Forall2 later t (run t ops).
Proof.
  revert t. induction ops as [|o ops IH]; intros t Hok; [split; [done|apply Forall2_later_refl]|].
  destruct (step_later t o Hok) as [Hok1 Hl1]. destruct (IH (step t o) Hok1) as [Hok2 Hl2].
  split; [done|]. eapply Forall2_trans; [|exact Hl1|exact Hl2]. intros. by eapply later_trans.
Qed.

(** A handle whose slot has passed its generation resolves to nothing. *)
Lemma peer_passed t h i g e :
  decode h = Some (i, g) -> t !! i = Some e -> rank g < rank (generation e) -> peer t h = None.
Proof.
  intros Hd Hi Hr. unfold peer. rewrite Hd. cbn [mbind option_bind]. rewrite Hi. cbn [mbind option_bind].
  destruct (Z.eqb_spec (generation e) g) as [E|]; [rewrite E in Hr; lia|done].
Qed.
End table.
Arguments op : clear implicits.

(** ** Properties *)

(** Peer handles are stable and never recycled: the handle returned for an
    address resolves to that address until it is removed and to nothing ever
    after; removing a handle returns the address it resolved to; and the table
    reports itself full only when every slot is occupied or retired. *)
Theorem peer_handle_lifetime {Address} `{EqDecision Address} (t : list (PeerEntry Address)) :
  table_ok t ->
  (forall a h t1, get_or_insert t a = Ok (h, t1) ->
     peer t1 h = Some a /\
     forall ops, peer (run t1 ops) h = Some a \/
       forall ops', peer (run (run t1 ops) ops') h = None) /\
  (forall a h t1, remove t h = (Some a, t1) ->
     peer t h = Some a /\ forall ops, peer (run t1 ops) h = None) /\
  (forall a, get_or_insert t a <> Panic) /\
  (forall a, get_or_insert t a = Err TableFull -> position_where usable t = None).
Proof.
  intros Hok. split; [|split; [|split]].
  - intros a h t1 Hget. destruct (get_or_insert_cases t a Hok)
      as [[Hx _]|(h' & i & e & t' & Hx & Hi & Ha & Hd & Hok1 & _)]; rewrite Hget in Hx; [done|].
    injection Hx as <- <-. split.
    { unfold peer. rewrite Hd. cbn [mbind option_bind]. rewrite Hi. cbn [mbind option_bind].
      by rewrite Z.eqb_refl. }
    intros ops. destruct (run_later t1 ops Hok1) as [Hok2 Hl].
    destruct (Forall2_lookup_l _ _ _ _ _ Hl Hi) as (e2 & Hi2 & [[Hg Hadd]|Hr]).
    + left. unfold peer. rewrite Hd. cbn [mbind option_bind]. rewrite Hi2. cbn [mbind option_bind].
      rewrite Hg, Z.eqb_refl. by apply Hadd.
    + right. intros ops'. destruct (run_later _ ops' Hok2) as [_ Hl2].
      destruct (Forall2_lookup_l _ _ _ _ _ Hl2 Hi2) as (e3 & Hi3 & [[Hg _]|Hr2]);
        (eapply peer_passed; [done|done|]); [by rewrite Hg|lia].
  - intros a h t1 Hrem. destruct (remove_cases t h Hok)
      as [Hx|(a' & i & e & t' & Hx & Hd & Hi & Ha & Hok1 & _ & e1 & Hi1 & Hr)]; rewrite Hrem in Hx; [done|].
    injection Hx as <- <-. split.
    { unfold peer. rewrite Hd. cbn [mbind option_bind]. rewrite Hi. cbn [mbind option_bind].
      by rewrite Z.eqb_refl. }
    intros ops. destruct (run_later t1 ops Hok1) as [_ Hl].
    destruct (Forall2_lookup_l _ _ _ _ _ Hl Hi1) as (e2 & Hi2 & [[Hg _]|Hr2]);
      (eapply peer_passed; [done|done|]); [by rewrite Hg|lia].
  - intros a. by destruct (get_or_insert_cases t a Hok) as [[-> _]|(? & ? & ? & ? & -> & _)].
  - intros a Hx. destruct (get_or_insert_cases t a Hok) as [[_ ?]|(? & ? & ? & ? & Hy & _)]; [done|].
    by rewrite Hx in Hy.
Qed.

(** ** Witnesses *)
Definition sample_table : list (PeerEntry Z) := replicate 2 (mkPeerEntry 1 None).

Lemma peer_handle_lifetime_witness :
  peer (step sample_table (Insert 7)) (2 ^ 32 + 1) = Some 7 /\
  forall ops, peer (run (step (step sample_table (Insert 7)) (Remove (2 ^ 32 + 1))) ops) (2 ^ 32 + 1) = None.
Proof.
  destruct (peer_handle_lifetime (step sample_table (Insert 7))) as (_ & H & _).
  { split; [by vm_compute|]. repeat constructor; by vm_compute. }
  apply (H 7 (2 ^ 32 + 1)). vm_compute. reflexivity.
Defined.
