(* ===== verification/UartCodec.v ===== *)
(** * UART framing

    [src/crates/uart-codec]: the PPP/HDLC byte stuffing of [codec.rs] (whole
    frames, the incremental encoder and the decoder), the record markers of
    [lib.rs] and the decoder of [pool.rs] that writes packets straight into the
    transport's packet pool.  The theorems show that writing a frame in pieces of
    any size produces the frame, that the decoder recovers every record from any
    fragmentation of a stream of frames, and that a marked packet reaches the
    pool intact or is reported as refused.

    The pooled decoder is modelled against [PacketPoolIface], not against one
    pool. *)

From S2P Require Import Prelude Wire PacketHeader AckRanges Reader Frames Keyed FlowControl Bitmap PacketPool.

Inductive CodecError : Type := EmptyPayload | PayloadTooLarge.

Definition UART_FLAG : Z := 0x7e.
Definition UART_ESCAPE : Z := 0x7d.
Definition UART_ESCAPE_XOR : Z := 0x20.
Definition DEFAULT_RECORD_MAX : Z := 4000.
Definition PACKET_MARKER : Z := 0xf7.
Definition WAKE_MARKER : Z := 0xf8.
Definition BAUD_MARKER : Z := 0xf9.

(** [matches!(byte, UART_FLAG | UART_ESCAPE)] *)
Definition needs_escape (b : Z) : bool := (b =? UART_FLAG) || (b =? UART_ESCAPE).

(** ** Encoding *)
Inductive EncodeState : Type :=
  | OpeningFlag | SPayload | Escape (b : Z) | ClosingFlag | Done.

Record EncoderCursor : Type := mkCursor {
  c_prefix : option Z;
  c_offset : Z;
  c_state : EncodeState;
}.

Definition cursor_new (prefix : option Z) : EncoderCursor := mkCursor prefix 0 OpeningFlag.
Definition raw : EncoderCursor := cursor_new None.
Definition prefixed (prefix : Z) : EncoderCursor := cursor_new (Some prefix).

Definition is_finished (c : EncoderCursor) : bool :=
  match c_state c with Done => true | _ => false end.

(** The byte a payload position contributes first, and the state after it. *)
Definition emit (b : Z) : Z * EncodeState :=
  if needs_escape b then (UART_ESCAPE, Escape (Z.lxor b UART_ESCAPE_XOR)) else (b, SPayload).

(** One iteration of the loop of [EncoderCursor::write]: the byte stored at
    [out\[used\]], or none for [continue]. *)
Definition write_step (payload : bytes) (c : EncoderCursor)
    : outcome unit (option Z * EncoderCursor) :=
  match c_state c with
  | OpeningFlag => Ok (Some UART_FLAG, mkCursor (c_prefix c) (c_offset c) SPayload)
  | SPayload =>
      match c_prefix c with
      | Some prefix => let '(b, st) := emit prefix in Ok (Some b, mkCursor None (c_offset c) st)
      | None =>
          if c_offset c =? zlen payload then Ok (None, mkCursor None (c_offset c) ClosingFlag)
          else
            byte ← index payload (c_offset c);
            let '(b, st) := emit byte in Ok (Some b, mkCursor None (c_offset c + 1) st)
      end
  | Escape b => Ok (Some b, mkCursor (c_prefix c) (c_offset c) SPayload)
  | ClosingFlag => Ok (Some UART_FLAG, mkCursor (c_prefix c) (c_offset c) Done)
  | Done => Ok (None, c)
  end.

(** The loop: at most one iteration in a row stores nothing, so twice the room
    plus one iterations suffice. *)
Fixpoint write_loop (fuel : nat) (payload : bytes) (c : EncoderCursor) (room : nat)
    : outcome unit (bytes * EncoderCursor) :=
  match fuel, room with
  | O, _ | _, O => Ok ([], c)
  | S fuel', S room' =>
      if is_finished c then Ok ([], c) else
      '(b, c) ← write_step payload c;
      match b with
      | Some b => '(bs, c) ← write_loop fuel' payload c room'; Ok (b :: bs, c)
      | None => write_loop fuel' payload c room
      end
  end.

Definition write (payload : bytes) (c : EncoderCursor) (room : nat)
    : outcome unit (bytes * EncoderCursor) :=
  write_loop (2 * room + 1) payload c room.

(** [Encoder::new], [Encoder::new_prefixed]: the cursor for a payload. *)
Definition encoder_new (payload : bytes) (max : Z) : outcome CodecError EncoderCursor :=
  if (zlen payload =? 0) || (max <? zlen payload)
  then Err (if zlen payload =? 0 then EmptyPayload else PayloadTooLarge)
  else Ok (cursor_new None).

Definition encoder_new_prefixed (prefix : Z) (payload : bytes) (max : Z)
    : outcome CodecError EncoderCursor :=
  if max <? sat_add (zlen payload) 1 then Err PayloadTooLarge else Ok (cursor_new (Some prefix)).

Fixpoint escape_all (payload : bytes) : bytes :=
  match payload with
  | [] => []
  | b :: payload' =>
      (if needs_escape b then [UART_ESCAPE; Z.lxor b UART_ESCAPE_XOR] else [b])
        ++ escape_all payload'
  end.

Definition encode_payload (payload : bytes) (max : Z) : outcome CodecError bytes :=
  if (zlen payload =? 0) || (max <? zlen payload)
  then Err (if zlen payload =? 0 then EmptyPayload else PayloadTooLarge)
  else Ok (UART_FLAG :: escape_all payload ++ [UART_FLAG]).

(** ** Decoding *)
Record Decoder : Type := mkDecoder {
  in_frame : bool;
  escaped : bool;
  discard : bool;
  d_payload : bytes;
  frame_activity : bool;
  frame_error : bool;
  max_payload : Z;
}.

Definition with_max (max : Z) : Decoder := mkDecoder false false false [] false false max.
Definition decoder_default : Decoder := with_max DEFAULT_RECORD_MAX.

Definition reset (d : Decoder) : Decoder :=
  mkDecoder false false false [] (frame_activity d) (frame_error d) (max_payload d).

Definition take_frame_activity (d : Decoder) : bool * Decoder :=
  (frame_activity d, mkDecoder (in_frame d) (escaped d) (discard d) (d_payload d) false
                       (frame_error d) (max_payload d)).
Definition take_frame_error (d : Decoder) : bool * Decoder :=
  (frame_error d, mkDecoder (in_frame d) (escaped d) (discard d) (d_payload d)
                    (frame_activity d) false (max_payload d)).

Definition nonempty (l : bytes) : bool := match l with [] => false | _ => true end.

(** One byte of [Decoder::push]. *)
Definition push_byte (d : Decoder) (b : Z) : list bytes * Decoder :=
  if b =? UART_FLAG then
    if negb (in_frame d) then
      ([], mkDecoder true false false [] (frame_activity d) (frame_error d) (max_payload d))
    else
      let had_payload := nonempty (d_payload d) in
      (if negb (escaped d) && negb (discard d) && had_payload then [d_payload d] else [],
       mkDecoder true false false [] (frame_activity d || had_payload)
         (frame_error d || (escaped d || discard d)) (max_payload d))
  else if negb (in_frame d) || discard d then ([], d)
  else
    let '(esc, p) :=
      if escaped d then (false, d_payload d ++ [Z.lxor b UART_ESCAPE_XOR])
      else if b =? UART_ESCAPE then (true, d_payload d)
      else (escaped d, d_payload d ++ [b]) in
    if max_payload d <? zlen p
    then ([], mkDecoder (in_frame d) false true [] (frame_activity d) true (max_payload d))
    else ([], mkDecoder (in_frame d) esc (discard d) p (frame_activity d) (frame_error d)
                (max_payload d)).

Fixpoint push (d : Decoder) (bs : bytes) : list bytes * Decoder :=
  match bs with
  | [] => ([], d)
  | b :: bs' =>
      let '(r, d) := push_byte d b in
      let '(rs, d) := push d bs' in (r ++ rs, d)
  end.

(** ** Records *)
Inductive PacketFrameError : Type := FrameEmpty | NotPacket | FrameTooLarge.

Definition decode_packet (payload : bytes) : outcome PacketFrameError bytes :=
  match payload with
  | [] => Err FrameEmpty
  | marker :: packet =>
      if negb (marker =? PACKET_MARKER) then Err NotPacket
      else if zlen packet =? 0 then Err FrameEmpty
      else if DEFAULT_MAX_PACKET_SIZE <? zlen packet then Err FrameTooLarge
      else Ok packet
  end.

Definition encode_packet (packet : bytes) : outcome CodecError EncoderCursor :=
  if zlen packet =? 0 then Err EmptyPayload
  else encoder_new_prefixed PACKET_MARKER packet (DEFAULT_MAX_PACKET_SIZE + 1).

Definition encode_wake : outcome CodecError EncoderCursor := encoder_new [WAKE_MARKER] 1.

Record BaudHandshake : Type := mkBaudHandshake { acknowledged : bool; baud : Z }.

Definition baud_record (h : BaudHandshake) : option bytes :=
  if (baud h =? 115200) || (baud h =? 230400) || (baud h =? 460800) || (baud h =? 921600)
  then Some (BAUD_MARKER :: (if acknowledged h then 1 else 0) :: be_bytes 4 (baud h)) else None.

Definition baud_decode (record : bytes) : option BaudHandshake :=
  match record with
  | marker :: ack :: rate =>
      if negb (zlen record =? 6) || negb (marker =? BAUD_MARKER) || (1 <? ack) then None else
      let h := mkBaudHandshake (ack =? 1) (be_val rate) in
      baud_record h ≫= fun _ => Some h
  | _ => None
  end.

(** ** The pooled decoder

    [P] and [W] are the pool and its writers.  A dropped writer returns its slot,
    so the writer a step discards is dropped explicitly. *)
Inductive FrameKind : Type := KPacket | KWake | KLog.

Inductive PooledFrame : Type :=
  | FPacket (packet : bytes)
  | FWake
  | FLog (record : bytes)
  | FPoolUnavailable.

Section pooled.
Context {P W : Type} `{!PacketPoolIface P W}.

Record PooledDecoder : Type := mkPooledDecoder {
  p_in_frame : bool;
  p_escaped : bool;
  p_discard : bool;
  p_marked : option FrameKind;
  p_wake_payload_len : Z;
  p_writer : option W;
  p_len : Z;
  p_packet_limit : Z;
  p_other : bytes;
}.

Definition pooled_new : PooledDecoder :=
  mkPooledDecoder false false false None 0 None 0 0 [].

(** [self.writer = None] *)
Definition drop_writer (pool : P) (w : option W) : P :=
  match w with Some w => iface_drop pool w | None => pool end.

Definition pooled_reset (pool : P) (d : PooledDecoder) : P * PooledDecoder :=
  (drop_writer pool (p_writer d), pooled_new).

(** The frames a flag closes; the writer is consumed by a commit. *)
Definition close_frame (pool : P) (d : PooledDecoder) : list PooledFrame * P :=
  if p_in_frame d && negb (p_escaped d) && negb (p_discard d) then
    match p_marked d with
    | Some KPacket =>
        if negb (p_len d =? 0) then
          match p_writer d with
          | Some w =>
              match iface_commit pool w (p_len d) with
              | (Some packet, pool) => ([FPacket packet], pool)
              | (None, pool) => ([], pool)
              end
          | None => ([], pool)
          end
        else ([], drop_writer pool (p_writer d))
    | Some KWake => (if p_wake_payload_len d =? 0 then [FWake] else [], drop_writer pool (p_writer d))
    | Some KLog => (if nonempty (p_other d) then [FLog (p_other d)] else [],
                    drop_writer pool (p_writer d))
    | None => ([], drop_writer pool (p_writer d))
    end
  else ([], drop_writer pool (p_writer d)).

(** A decoded byte: classification by the first one, then storage. *)
Definition classify (pool : P) (d : PooledDecoder) (payload_offset byte : Z)
    : list PooledFrame * P * PooledDecoder :=
  let kind := if byte =? PACKET_MARKER then KPacket
              else if byte =? WAKE_MARKER then KWake else KLog in
  let d := mkPooledDecoder (p_in_frame d) (p_escaped d) (p_discard d) (Some kind)
             (p_wake_payload_len d) (p_writer d) (p_len d) (p_packet_limit d) (p_other d) in
  match kind with
  | KPacket =>
      match iface_acquire_writer pool payload_offset 0 with
      | Some (writer, pool) =>
          ([], pool, mkPooledDecoder (p_in_frame d) (p_escaped d) (p_discard d) (p_marked d)
             (p_wake_payload_len d) (Some writer) (p_len d)
             (Z.min (iface_payload_len pool writer) DEFAULT_MAX_PACKET_SIZE) (p_other d))
      | None =>
          ([FPoolUnavailable], pool,
           mkPooledDecoder (p_in_frame d) (p_escaped d) true (p_marked d)
             (p_wake_payload_len d) (p_writer d) (p_len d) (p_packet_limit d) (p_other d))
      end
  | KWake => ([], pool, d)
  | KLog =>
      ([], pool, mkPooledDecoder (p_in_frame d) (p_escaped d) (p_discard d) (p_marked d)
         (p_wake_payload_len d) (p_writer d) (p_len d) (p_packet_limit d) (p_other d ++ [byte]))
  end.

Definition store_byte (pool : P) (d : PooledDecoder) (kind : FrameKind) (byte : Z)
    : outcome unit (P * PooledDecoder) :=
  let upd dis wake w len other :=
    mkPooledDecoder (p_in_frame d) (p_escaped d) dis (p_marked d) wake w len (p_packet_limit d)
      other in
  match kind with
  | KPacket =>
      if p_packet_limit d <=? p_len d
      then Ok (drop_writer pool (p_writer d),
               upd true (p_wake_payload_len d) None (p_len d) (p_other d))
      else match p_writer d with
           | None => Panic
           | Some w =>
               pool ← iface_put pool w (p_len d) byte;
               Ok (pool, upd (p_discard d) (p_wake_payload_len d) (Some w) (p_len d + 1) (p_other d))
           end
  | KWake =>
      let n := p_wake_payload_len d + 1 in
      Ok (pool, upd (if 0 <? n then true else p_discard d) n (p_writer d) (p_len d) (p_other d))
  | KLog =>
      if zlen (p_other d) <? DEFAULT_RECORD_MAX
      then Ok (pool, upd (p_discard d) (p_wake_payload_len d) (p_writer d) (p_len d)
                       (p_other d ++ [byte]))
      else Ok (pool, upd true (p_wake_payload_len d) (p_writer d) (p_len d) [])
  end.

Definition set_escaped (d : PooledDecoder) (e : bool) : PooledDecoder :=
  mkPooledDecoder (p_in_frame d) e (p_discard d) (p_marked d) (p_wake_payload_len d) (p_writer d)
    (p_len d) (p_packet_limit d) (p_other d).

(** One wire byte of [PooledDecoder::push]. *)
Definition pooled_byte (pool : P) (d : PooledDecoder) (payload_offset b : Z)
    : outcome unit (list PooledFrame * P * PooledDecoder) :=
  if b =? UART_FLAG then
    let '(fs, pool) := close_frame pool d in
    Ok (fs, pool, mkPooledDecoder true false false None 0 None 0 0 [])
  else if negb (p_in_frame d) || p_discard d then Ok ([], pool, d)
  else if negb (p_escaped d) && (b =? UART_ESCAPE) then Ok ([], pool, set_escaped d true)
  else
    let byte := if p_escaped d then Z.lxor b UART_ESCAPE_XOR else b in
    let d := set_escaped d false in
    match p_marked d with
    | None => Ok (classify pool d payload_offset byte)
    | Some kind => '(pool, d) ← store_byte pool d kind byte; Ok ([], pool, d)
    end.

Fixpoint pooled_push (pool : P) (d : PooledDecoder) (payload_offset : Z) (bs : bytes)
    : outcome unit (list PooledFrame * P * PooledDecoder) :=
  match bs with
  | [] => Ok ([], pool, d)
  | b :: bs' =>
      '(f, pool, d) ← pooled_byte pool d payload_offset b;
      '(fs, pool, d) ← pooled_push pool d payload_offset bs';
      Ok (f ++ fs, pool, d)
  end.
End pooled.
Arguments PooledDecoder : clear implicits.

(** ** The incremental encoder *)

(** What the cursor has still to write. *)
Definition pending (payload : bytes) (c : EncoderCursor) : bytes :=
  match c_prefix c with Some p => [p] | None => [] end ++ drop (Z.to_nat (c_offset c)) payload.

Definition rest (payload : bytes) (c : EncoderCursor) : bytes :=
  let body := escape_all (pending payload c) ++ [UART_FLAG] in
  match c_state c with
  | OpeningFlag => UART_FLAG :: body
  | SPayload => body
  | Escape b => b :: body
  | ClosingFlag => [UART_FLAG]
  | Done => []
  end.

Definition cursor_ok (payload : bytes) (c : EncoderCursor) : Prop :=
  0 <= c_offset c <= zlen payload.

Definition closing (c : EncoderCursor) : bool :=
  match c_state c with ClosingFlag => true | _ => false end.

Lemma escape_all_cons b bs :
  escape_all (b :: bs) = (emit b).1 :: match (emit b).2 with Escape e => [e] | _ => [] end ++ escape_all bs.
Proof. simpl. unfold emit. by destruct (needs_escape b). Qed.

Lemma rest_emit payload prefix off b :
  rest payload (mkCursor prefix off (emit b).2) =
    match (emit b).2 with Escape e => [e] | _ => [] end
      ++ escape_all (pending payload (mkCursor prefix off SPayload)) ++ [UART_FLAG].
Proof. unfold rest, emit. by destruct (needs_escape b). Qed.

(** An iteration writes the next byte of what is left, or moves to the closing
    flag. *)
Lemma write_step_rest payload c :
  cursor_ok payload c -> is_finished c = false ->
  exists b c', write_step payload c = Ok (b, c') /\ cursor_ok payload c' /\
    match b with
    | Some b => rest payload c = b :: rest payload c'
    | None => rest payload c' = rest payload c /\ closing c' = true /\ closing c = false
    end.
Proof.
  unfold cursor_ok. destruct c as [prefix off st]. intros Hok Hfin. unfold write_step. simpl in *.
  destruct st as [| |e| |]; simpl; try (eexists _, _; split; [done|]; split; [done|]; done).
  destruct prefix as [p|].
  - destruct (emit p) as [b st'] eqn:He. eexists _, _. split; [done|]. split; [done|].
    change st' with ((b, st').2). rewrite <- He, rest_emit. unfold rest, pending.
    cbn [c_prefix c_offset c_state app]. rewrite escape_all_cons, He.
    cbn [fst snd app]. by rewrite <- app_assoc.
  - destruct (Z.eqb_spec off (zlen payload)) as [->|Hne].
    + eexists _, _. split; [done|]. split; [done|]. unfold rest, pending. simpl.
      split; [by rewrite to_nat_zlen, drop_all|done].
    + unfold index, get_ix. rewrite (proj2 (Z.leb_le 0 off)) by lia.
      destruct (lookup_lt_is_Some_2 payload (Z.to_nat off)) as [x Hx]; [unfold zlen in *; lia|].
      rewrite Hx. cbn [mbind outcome_bind]. destruct (emit x) as [b st'] eqn:He.
      eexists _, _. split; [done|]. split; [simpl; lia|].
      change st' with ((b, st').2). rewrite <- He, rest_emit. unfold rest, pending.
      cbn [c_prefix c_offset c_state app]. rewrite (drop_S _ _ _ Hx), escape_all_cons, He.
      cbn [fst snd app]. rewrite <- app_assoc. do 4 f_equal. f_equal. lia.
Qed.

Lemma rest_nil payload c : rest payload c = [] <-> is_finished c = true.
Proof.
  unfold rest, is_finished. destruct (c_state c); try done.
  split; [|done]. by intros [_ ?]%app_eq_nil.
Qed.

Lemma write_loop_rest payload room fuel c :
  cursor_ok payload c ->
  (2 * room + (if closing c then 0 else 1) <= fuel)%nat ->
  exists c', write_loop fuel payload c room = Ok (take room (rest payload c), c') /\
    cursor_ok payload c' /\ rest payload c' = drop room (rest payload c).
Proof.
  revert room c. induction fuel as [|fuel IH]; intros room c Hok Hfuel.
  { assert (room = 0%nat) as -> by lia. exists c. by rewrite take_0, drop_0. }
  destruct room as [|room]; [exists c; by rewrite take_0, drop_0|].
  cbn [write_loop]. destruct (is_finished c) eqn:Hfin.
  { apply (rest_nil payload) in Hfin as Hnil. rewrite Hnil. by exists c. }
  destruct (write_step_rest payload c Hok Hfin) as (b & c1 & -> & Hok1 & Hb). cbn [mbind outcome_bind].
  destruct b as [b|].
  - destruct (IH room c1 Hok1) as (c2 & -> & Hok2 & Hr2); [destruct (closing c), (closing c1); lia|].
    exists c2. rewrite Hb. cbn [mbind outcome_bind]. done.
  - destruct Hb as (Hb & Hc1 & Hc). rewrite <- Hb. apply IH; [done|]. rewrite Hc1.
    rewrite Hc in Hfuel. lia.
Qed.

Lemma write_rest payload c room :
  cursor_ok payload c ->
  exists c', write payload c room = Ok (take room (rest payload c), c') /\
    cursor_ok payload c' /\ rest payload c' = drop room (rest payload c).
Proof. intros Hok. apply write_loop_rest; [done|]. destruct (closing c); lia. Qed.

(** Successive writes into buffers of the given sizes. *)
Fixpoint write_all (payload : bytes) (c : EncoderCursor) (rooms : list nat)
    : outcome unit (bytes * EncoderCursor) :=
  match rooms with
  | [] => Ok ([], c)
  | room :: rooms' =>
      '(bs, c) ← write payload c room;
      '(bs', c) ← write_all payload c rooms'; Ok (bs ++ bs', c)
  end.

Lemma write_all_rest payload rooms c :
  cursor_ok payload c ->
  exists c', write_all payload c rooms = Ok (take (sum_list rooms) (rest payload c), c') /\
    rest payload c' = drop (sum_list rooms) (rest payload c).
Proof.
  revert c. induction rooms as [|room rooms IH]; intros c Hok.
  { exists c. simpl. by rewrite take_0, drop_0. }
  cbn [write_all]. destruct (write_rest payload c room Hok) as (c1 & -> & Hok1 & Hr1).
  cbn [mbind outcome_bind]. destruct (IH c1 Hok1) as (c2 & -> & Hr2). exists c2.
  cbn [mbind outcome_bind]. rewrite Hr1 in *. rewrite drop_drop in Hr2. split; [|done].
  do 2 f_equal. cbn [sum_list]. rewrite <- (take_drop room (take (room + sum_list rooms) _)) at 1.
  rewrite take_take, skipn_firstn_comm. f_equal; [f_equal; lia|]. f_equal. lia.
Qed.

(** ** The decoder *)
Lemma lxor_escape b : Z.lxor (Z.lxor b UART_ESCAPE_XOR) UART_ESCAPE_XOR = b.
Proof. by rewrite Z.lxor_assoc, Z.lxor_nilpotent, Z.lxor_0_r. Qed.

Lemma needs_escape_cases b :
  (needs_escape b = true /\ (Z.lxor b UART_ESCAPE_XOR =? UART_FLAG) = false) \/
  (needs_escape b = false /\ (b =? UART_FLAG) = false /\ (b =? UART_ESCAPE) = false).
Proof.
  unfold needs_escape. destruct (Z.eqb_spec b UART_FLAG) as [->|]; [by left|].
  destruct (Z.eqb_spec b UART_ESCAPE) as [->|]; [by left|by right].
Qed.

Lemma push_app d a b :
  push d (a ++ b) = let '(r1, d1) := push d a in let '(r2, d2) := push d1 b in (r1 ++ r2, d2).
Proof.
  revert d. induction a as [|x a IH]; intros d; simpl; [by destruct (push d b)|].
  destruct (push_byte d x) as [r d1]. rewrite IH. destruct (push d1 a) as [r1 d2].
  destruct (push d2 b) as [r2 d3]. by rewrite app_assoc.
Qed.

(** A decoder inside a frame that has collected [acc]. *)
Definition collecting (d : Decoder) (acc : bytes) : Decoder :=
  mkDecoder true false false acc (frame_activity d) (frame_error d) (max_payload d).

Lemma push_escaped d acc p :
  zlen acc + zlen p <= max_payload d ->
  push (collecting d acc) (escape_all p) = ([], collecting d (acc ++ p)).
Proof.
  revert acc. induction p as [|b p IH]; intros acc Hm; [by rewrite app_nil_r|].
  rewrite zlen_cons in Hm. pose proof (zlen_nonneg p). pose proof (zlen_nonneg acc).
  rewrite (cons_middle b acc p). rewrite app_assoc. specialize (IH (acc ++ [b])).
  rewrite zlen_app in IH. change (zlen [b]) with 1 in IH. specialize (IH ltac:(lia)).
  assert (Hfit : (max_payload d <? zlen (acc ++ [b])) = false)
    by (apply Z.ltb_ge; rewrite zlen_app; change (zlen [b]) with 1; lia).
  cbn [escape_all]. destruct (needs_escape_cases b) as [[-> Hx]|(-> & Hf & He)]; cbn [app push].
  - assert (H1 : push_byte (collecting d acc) UART_ESCAPE =
      ([], mkDecoder true true false acc (frame_activity d) (frame_error d) (max_payload d))).
    { unfold push_byte. simpl. rewrite (proj2 (Z.ltb_ge _ _)) by lia. done. }
    rewrite H1. unfold push_byte at 1. rewrite Hx. cbn [in_frame discard escaped d_payload negb orb
      max_payload frame_activity frame_error]. rewrite lxor_escape, Hfit.
    fold (collecting d (acc ++ [b])). by rewrite IH.
  - assert (H1 : push_byte (collecting d acc) b = ([], collecting d (acc ++ [b]))).
    { unfold push_byte. rewrite Hf, He. cbn [collecting in_frame discard escaped d_payload negb orb
        max_payload frame_activity frame_error]. by rewrite Hfit. }
    by rewrite H1, IH.
Qed.

(** Between frames. *)
Definition quiet (d : Decoder) : Prop :=
  escaped d = false /\ discard d = false /\ d_payload d = [].

Lemma push_frame d p :
  quiet d -> 0 < zlen p <= max_payload d ->
  exists d', push d (UART_FLAG :: escape_all p ++ [UART_FLAG]) = ([p], d') /\ quiet d' /\
    frame_error d' = frame_error d /\ max_payload d' = max_payload d.
Proof.
  intros (He & Hd & Hp) Hlen. cbn [push].
  assert (H1 : push_byte d UART_FLAG = ([], collecting d [])).
  { unfold push_byte. rewrite Z.eqb_refl, He, Hd, Hp. destruct d as [inf]. simpl in *.
    destruct inf; [|done]. unfold collecting. simpl. by rewrite !orb_false_r. }
  rewrite H1, push_app, push_escaped by (rewrite zlen_nil; lia). cbn [app push].
  unfold push_byte. rewrite Z.eqb_refl. cbn [collecting in_frame negb escaped discard d_payload andb].
  destruct p as [|x p]; [unfold zlen in Hlen; simpl in Hlen; lia|]. simpl. eexists. split; [done|].
  split; [done|]. simpl. by rewrite orb_false_r.
Qed.

Fixpoint push_all (d : Decoder) (chunks : list bytes) : list bytes * Decoder :=
  match chunks with
  | [] => ([], d)
  | c :: chunks' => let '(r, d) := push d c in let '(rs, d) := push_all d chunks' in (r ++ rs, d)
  end.

(** Fragmentation does not matter. *)
Lemma push_all_concat d chunks : push_all d chunks = push d (concat chunks).
Proof.
  revert d. induction chunks as [|c chunks IH]; intros d; [done|]. simpl. rewrite push_app.
  destruct (push d c) as [r d1]. by rewrite IH.
Qed.

Lemma push_frames payloads wires d :
  quiet d -> Forall2 (fun p w => encode_payload p (max_payload d) = Ok w) payloads wires ->
  exists d', push d (concat wires) = (payloads, d') /\ quiet d' /\ frame_error d' = frame_error d.
Proof.
  revert wires d. induction payloads as [|p payloads IH]; intros wires d Hq HF.
  { apply Forall2_nil_inv_l in HF as ->. by exists d. }
  apply Forall2_cons_inv_l in HF as (w & wires' & Hw & HF & ->).
  unfold encode_payload in Hw. destruct (_ || _) eqn:Hg; [done|]. apply Ok_inj in Hw as <-. bools.
  pose proof (zlen_nonneg p). destruct (push_frame d p Hq ltac:(lia)) as (d1 & Hp1 & Hq1 & He1 & Hm1).
  rewrite <- Hm1 in HF. destruct (IH wires' d1 Hq1 HF) as (d2 & Hp2 & Hq2 & He2).
  exists d2. cbn [concat]. rewrite push_app, Hp1, Hp2. split; [done|]. split; [done|congruence].
Qed.

(** ** The pooled decoder *)
Section pooled_lemmas.
Context {P W : Type} `{!PacketPoolIface P W}.

(** Inside a marked packet whose first bytes [acc] are in the slot of [w]. *)
Definition filling (w : W) (limit : Z) (acc : bytes) : PooledDecoder W :=
  mkPooledDecoder true false false (Some KPacket) 0 (Some w) (zlen acc) limit [].

(** A decoded byte [b] arrives as itself or as an escape pair. *)
Lemma pooled_escaped pool d off b bs :
  p_in_frame d = true -> p_discard d = false -> p_escaped d = false ->
  pooled_push pool d off (escape_all (b :: bs)) =
    match p_marked d with
    | None => let '(f, pool, d) := classify pool (set_escaped d false) off b in
              '(fs, pool, d) ← pooled_push pool d off (escape_all bs); Ok (f ++ fs, pool, d)
    | Some kind => '(pool, d) ← store_byte pool (set_escaped d false) kind b;
                   pooled_push pool d off (escape_all bs)
    end.
Proof.
  intros Hin Hdis Hesc. cbn [escape_all].
  destruct (needs_escape_cases b) as [[-> Hx]|(-> & Hf & He)]; cbn [app pooled_push].
  - assert (H1 : pooled_byte pool d off UART_ESCAPE = Ok ([], pool, set_escaped d true)).
    { unfold pooled_byte. by rewrite Hin, Hdis, Hesc. }
    rewrite H1. cbn [mbind outcome_bind]. unfold pooled_byte. rewrite Hx.
    cbn [set_escaped p_in_frame p_discard p_escaped p_marked]. rewrite Hin, Hdis. cbn [negb orb andb].
    rewrite lxor_escape. destruct (p_marked d) as [kind|].
    + fold (set_escaped d false). destruct (store_byte _ _ _ _) as [[pool' d']| |]; [|done..].
      cbn [mbind outcome_bind]. by destruct (pooled_push _ _ _ _) as [[[fs ?] ?]| |].
    + cbn [mbind outcome_bind]. fold (set_escaped d false).
      destruct (classify _ _ _ _) as [[f pool'] d']. 
      by destruct (pooled_push _ _ _ _) as [[[fs ?] ?]| |].
  - unfold pooled_byte. rewrite Hf, He, Hin, Hdis, Hesc. cbn [negb orb andb set_escaped p_marked].
    destruct (p_marked d) as [kind|].
    + destruct (store_byte _ _ _ _) as [[pool' d']| |]; [|done..].
      cbn [mbind outcome_bind]. by destruct (pooled_push _ _ _ _) as [[[fs ?] ?]| |].
    + cbn [mbind outcome_bind]. by destruct (classify _ _ _ _) as [[f pool'] d'].
Qed.

Lemma pooled_push_app pool d off a b :
  pooled_push pool d off (a ++ b) =
    '(f, pool, d) ← pooled_push pool d off a;
    '(fs, pool, d) ← pooled_push pool d off b; Ok (f ++ fs, pool, d).
Proof.
  revert pool d. induction a as [|x a IH]; intros pool d; simpl.
  { by destruct (pooled_push pool d off b) as [[[fs ?] ?]| |]. }
  destruct (pooled_byte pool d off x) as [[[f pool1] d1]| |]; [|done..]. simpl. rewrite IH.
  destruct (pooled_push pool1 d1 off a) as [[[f1 pool2] d2]| |]; [|done..]. simpl.
  destruct (pooled_push pool2 d2 off b) as [[[f2 pool3] d3]| |]; [|done..]. simpl. by rewrite app_assoc.
Qed.

Lemma escape_all_app a b : escape_all (a ++ b) = escape_all a ++ escape_all b.
Proof. induction a; simpl; [done|]. by rewrite IHa, app_assoc. Qed.

(** A discarded record swallows everything up to the next flag. *)
Lemma pooled_discard pool d off p :
  p_discard d = true -> pooled_push pool d off (escape_all p) = Ok ([], pool, d).
Proof.
  intros Hd. assert (Hb : forall b, (b =? UART_FLAG) = false -> pooled_byte pool d off b = Ok ([], pool, d)).
  { intros b Hb. unfold pooled_byte. by rewrite Hb, Hd, orb_true_r. }
  induction p as [|b p IH]; [done|]. cbn [escape_all].
  destruct (needs_escape_cases b) as [[-> Hx]|(-> & Hf & He)]; cbn [app pooled_push].
  - rewrite Hb by done. cbn [mbind outcome_bind]. rewrite Hb by done. cbn [mbind outcome_bind].
    by rewrite IH.
  - rewrite Hb by done. cbn [mbind outcome_bind]. by rewrite IH.
Qed.

Lemma pooled_filling pool w limit acc off p :
  iface_filled pool w acc -> limit <= iface_payload_len pool w -> zlen acc + zlen p <= limit ->
  exists pool', pooled_push pool (filling w limit acc) off (escape_all p) =
      Ok ([], pool', filling w limit (acc ++ p)) /\
    iface_filled pool' w (acc ++ p).
Proof.
  revert pool acc. induction p as [|b p IH]; intros pool acc Hf Hlim Hfit.
  { exists pool. by rewrite app_nil_r. }
  rewrite zlen_cons in Hfit. pose proof (zlen_nonneg p).
  rewrite pooled_escaped by done. cbn [filling p_marked]. unfold store_byte.
  cbn [set_escaped filling p_packet_limit p_len p_writer].
  rewrite (proj2 (Z.leb_gt limit _)) by lia.
  destruct (iface_put_filled pool w acc b Hf ltac:(lia)) as (pool1 & -> & Hf1 & Hl1).
  cbn [mbind outcome_bind]. destruct (IH pool1 (acc ++ [b]) Hf1 ltac:(by rewrite Hl1)) as (pool2 & Hp & Hf2).
  { rewrite zlen_app. change (zlen [b]) with 1. lia. }
  rewrite <- app_assoc in Hp, Hf2. exists pool2. split; [|done]. etrans; [|exact Hp].
  unfold filling. by rewrite zlen_app.
Qed.

(** A record larger than the slot is dropped, and so is its writer. *)
Lemma pooled_oversize pool w limit off p :
  iface_filled pool w [] -> 0 <= limit <= iface_payload_len pool w -> limit < zlen p ->
  exists pool' d, pooled_push pool (filling w limit []) off (escape_all p) =
      Ok ([], iface_drop pool' w, d) /\
    p_discard d = true /\ p_writer d = None.
Proof.
  intros Hf Hlim Hbig.
  destruct (drop (Z.to_nat limit) p) as [|x p2] eqn:Hd.
  { apply (f_equal length) in Hd. rewrite length_drop in Hd. unfold zlen in Hbig. simpl in Hd. lia. }
  pose proof (take_drop (Z.to_nat limit) p) as Hp. rewrite Hd in Hp. set (p1 := take (Z.to_nat limit) p) in *.
  assert (Hl1 : zlen p1 = limit) by (apply zlen_take; lia). clearbody p1. subst p.
  rewrite escape_all_app, pooled_push_app.
  destruct (pooled_filling pool w limit [] off p1 Hf ltac:(lia)) as (pool1 & -> & Hf1).
  { rewrite zlen_nil. lia. }
  cbn [mbind outcome_bind app]. rewrite pooled_escaped by done. cbn [filling p_marked]. unfold store_byte.
  cbn [set_escaped filling p_packet_limit p_len p_writer]. rewrite (proj2 (Z.leb_le limit _)) by lia.
  cbn [mbind outcome_bind]. rewrite pooled_discard by done. simpl. by eexists pool1, _.
Qed.

(** Between records. *)
Definition between (inf : bool) : PooledDecoder W :=
  mkPooledDecoder inf false false None 0 None 0 0 [].

Lemma pooled_open pool inf off bs :
  pooled_push pool (between inf) off (UART_FLAG :: bs) =
    '(fs, pool, d) ← pooled_push pool (between true) off bs; Ok (fs, pool, d).
Proof. cbn [pooled_push]. unfold pooled_byte. rewrite Z.eqb_refl. by destruct inf. Qed.

Lemma pooled_marker pool off p :
  pooled_push pool (between true) off (escape_all (PACKET_MARKER :: p)) =
    match iface_acquire_writer pool off 0 with
    | Some (w, pool) =>
        pooled_push pool (filling w (Z.min (iface_payload_len pool w) DEFAULT_MAX_PACKET_SIZE) []) off
          (escape_all p)
    | None =>
        '(fs, pool, d) ← pooled_push pool
            (mkPooledDecoder true false true (Some KPacket) 0 None 0 0 []) off (escape_all p);
        Ok (FPoolUnavailable :: fs, pool, d)
    end.
Proof.
  rewrite pooled_escaped by done. cbn [between p_marked]. unfold classify. rewrite Z.eqb_refl.
  destruct (iface_acquire_writer pool off 0) as [[w pool']|]; [|done].
  cbn [mbind outcome_bind]. unfold filling.
  by destruct (pooled_push _ _ _ _) as [[[fs ?] ?]| |].
Qed.
End pooled_lemmas.

(** ** Properties *)

(** Writing a frame in pieces is the same as writing it at once: for any
    sequence of buffer sizes the encoder's output is the prefix of the escaped
    frame that fits, and it is finished exactly when the whole frame is out;
    with a marker prefix the frame is that of the marker followed by the
    payload. *)
Theorem uart_encoder_incremental prefix payload max rooms wire :
  encode_payload (match prefix with Some p => [p] | None => [] end ++ payload) max = Ok wire ->
  exists c', write_all payload (cursor_new prefix) rooms = Ok (take (sum_list rooms) wire, c') /\
    (is_finished c' = true <-> (length wire <= sum_list rooms)%nat).
Proof.
  unfold encode_payload. destruct (_ || _); [done|]. intros <-%Ok_inj.
  assert (Hrest : rest payload (cursor_new prefix) =
    UART_FLAG :: escape_all (match prefix with Some p => [p] | None => [] end ++ payload) ++ [UART_FLAG]).
  { unfold rest, pending. simpl. by rewrite drop_0. }
  destruct (write_all_rest payload rooms (cursor_new prefix)) as (c' & Hw & Hr).
  { unfold cursor_ok. simpl. zlia. }
  rewrite Hrest in Hw, Hr. exists c'. split; [done|]. rewrite <- (rest_nil payload), Hr.
  split; [|by intros ?%drop_ge]. intros H%(f_equal length). rewrite length_drop in H.
  change (length []) with 0%nat in H. lia.
Qed.

(** C39: the decoder recovers a stream of records from any fragmentation: when
    the chunks received concatenate to the frames of some payloads, the records
    are exactly those payloads, in order, and no framing error is flagged. *)
Theorem uart_stream_roundtrip payloads wires max chunks :
  Forall2 (fun p w => encode_payload p max = Ok w) payloads wires ->
  concat chunks = concat wires ->
  exists d', push_all (with_max max) chunks = (payloads, d') /\ frame_error d' = false.
Proof.
  intros HF Hc. rewrite push_all_concat, Hc.
  destruct (push_frames payloads wires (with_max max)) as (d' & Hp & _ & He); [done..|].
  by exists d'.
Qed.

(** A marked packet crosses the UART into the packet pool whole or not at
    all, over every pool that keeps the interface: with a slot and room it is
    delivered as one packet with its exact bytes; without a slot the refusal is
    reported and nothing else; a packet beyond the slot or the packet limit is
    dropped silently with its slot returned.  The decoder is ready for the next
    record in each case, and never panics. *)
Theorem uart_packet_to_pool {P W} `{!PacketPoolIface P W} (pool : P) inf off packet wire :
  iface_ok pool -> 0 <= off -> 0 < zlen packet ->
  encode_payload (PACKET_MARKER :: packet) (zlen packet + 1) = Ok wire ->
  exists frames pool',
    pooled_push pool (between inf) off wire = Ok (frames, pool', between true) /\
    match iface_acquire_writer pool off 0 with
    | None => frames = [FPoolUnavailable] /\ pool' = pool
    | Some (w, pool1) =>
        if zlen packet <=? Z.min (iface_payload_len pool1 w) DEFAULT_MAX_PACKET_SIZE
        then frames = [FPacket packet]
        else frames = [] /\ exists pool2, pool' = iface_drop pool2 w
    end.
Proof.
  intros Hok Hoff Hpos. unfold encode_payload. destruct (_ || _); [done|]. intros <-%Ok_inj.
  rewrite pooled_open, pooled_push_app, pooled_marker.
  destruct (iface_acquire_writer pool off 0) as [[w pool1]|] eqn:Ha.
  - pose proof (iface_acquire_filled _ _ _ _ _ Hok Hoff (Z.le_refl 0) Ha) as Hf.
    set (limit := Z.min _ _).
    destruct (Z.leb_spec (zlen packet) limit) as [Hle|Hgt].
    + destruct (pooled_filling pool1 w limit [] off packet Hf) as (pool2 & -> & Hf2);
        [unfold limit; lia|rewrite zlen_nil; lia|].
      cbn [mbind outcome_bind app pooled_push]. unfold pooled_byte. rewrite Z.eqb_refl.
      unfold close_frame. cbn [filling p_in_frame p_escaped p_discard p_marked p_len p_writer negb andb].
      cbn [app] in *. rewrite (proj2 (Z.eqb_neq (zlen packet) 0)) by lia. cbn [negb].
      destruct (iface_commit_filled pool2 w packet Hf2) as (pool3 & ->). by eexists _, _.
    + pose proof (iface_payload_len_nonneg pool1 w).
      destruct (pooled_oversize pool1 w limit off packet Hf) as (pool2 & d & -> & Hd & Hw);
        [unfold limit, DEFAULT_MAX_PACKET_SIZE in *; lia|done|].
      cbn [mbind outcome_bind app pooled_push]. unfold pooled_byte. rewrite Z.eqb_refl.
      unfold close_frame. rewrite Hd, andb_false_r, Hw. eexists _, _. split; [done|].
      by split; [|exists pool2].
  - rewrite pooled_discard by done. simpl. by eexists _, _.
Qed.

(** ** Witnesses *)
Lemma uart_encoder_incremental_witness :
  exists c', write_all [0x7e; 5] (cursor_new (Some PACKET_MARKER)) [1; 2; 9]%nat =
      Ok ([0x7e; 0xf7; 0x7d; 0x5e; 5; 0x7e], c') /\ is_finished c' = true.
Proof.
  destruct (uart_encoder_incremental (Some PACKET_MARKER) [0x7e; 5] 16 [1; 2; 9]%nat
    [0x7e; 0xf7; 0x7d; 0x5e; 5; 0x7e] eq_refl) as (c' & H1 & H2).
  exists c'. split; [exact H1|]. apply H2. simpl. lia.
Defined.

Lemma uart_stream_roundtrip_witness :
  exists d', push_all (with_max 16) [[0x7e; 1; 0x7d]; [0x5e; 0x7e; 0x7e]; [2; 0x7e]] =
    ([[1; 0x7e]; [2]], d') /\ frame_error d' = false.
Proof.
  apply (uart_stream_roundtrip [[1; 0x7e]; [2]]
    [[0x7e; 1; 0x7d; 0x5e; 0x7e]; [0x7e; 2; 0x7e]] 16); [|reflexivity].
  repeat constructor.
Defined.

Lemma uart_packet_to_pool_witness :
  exists frames pool', pooled_push (PacketPoolIface0 := pool_iface 2 64)
      (pool_new 2 64) (between false) 8 [0x7e; 0xf7; 9; 0x7d; 0x5e; 0x7e] =
        Ok (frames, pool', between true) /\ frames = [FPacket [9; 0x7e]].
Proof.
  destruct (uart_packet_to_pool (PacketPoolIface0 := pool_iface 2 64)
    (pool_new 2 64) false 8 [9; 0x7e] [0x7e; 0xf7; 9; 0x7d; 0x5e; 0x7e])
    as (frames & pool' & H1 & H2).
  - split.
    + split; [done|]. repeat constructor.
    + split; [by vm_compute|]. intros b Hb. destruct (Z.eq_dec b 2) as [->|]; [done|].
      apply Z.bits_above_log2; [done|]. change (Z.log2 (free (pool_new 2 64))) with 1. lia.
  - lia.
  - by vm_compute.
  - by vm_compute.
  - exists frames, pool'. split; [exact H1|]. revert H2. vm_compute. intros H2. exact H2.
Defined.
