(* ===== verification/SortedKeys.v ===== *)
(** * Sorted vectors of keyed entries

    [slice::binary_search_by_key] of the Rust standard library over a vector
    whose keys strictly increase, and such a vector as the finite map it stands
    for: what [Vec::insert] at the position the search reports, [Vec::remove],
    an update in place and [Vec::retain] do to the order and to the map. *)

From S2P Require Import Prelude.
From stdpp Require Import sorting.
#[local] Open Scope Z_scope.

(** ** Binary search: halving of the window until one candidate is left. *)
Inductive found : Type :=
  | Found (i : nat)
  | Absent (i : nat).

Section search.
Context {A : Type} (key : A -> Z).

Fixpoint search_loop (fuel : nat) (l : list A) (k : Z) (base size : nat) : nat :=
  match fuel with
  | O => base
  | S fuel' =>
      if (size <=? 1)%nat then base else
      let half := Nat.div2 size in
      let mid := (base + half)%nat in
      let greater := match l !! mid with Some x => k <? key x | None => true end in
      search_loop fuel' l k (if greater then base else mid) (size - half)%nat
  end.

Definition binary_search (l : list A) (k : Z) : found :=
  match l !! search_loop (length l) l k 0 (length l) with
  | None => Absent 0
  | Some x =>
      let base := search_loop (length l) l k 0 (length l) in
      if key x =? k then Found base else Absent (if key x <? k then S base else base)
  end.

(** [slice::partition_point] of the keys up to [k]: the same search, which
    never finds the key. *)
Definition partition_point (l : list A) (k : Z) : nat :=
  let base := search_loop (length l) l k 0 (length l) in
  match l !! base with
  | None => 0
  | Some x => if k <? key x then base else S base
  end.

(** The keys are strictly increasing. *)
Definition sorted_keys (l : list A) : Prop := StronglySorted Z.lt (key <$> l).

Lemma sorted_nil : sorted_keys [].
Proof. constructor. Qed.

Lemma sorted_app l k :
  sorted_keys (l ++ k) <-> (forall x y, x ∈ l -> y ∈ k -> key x < key y) /\ sorted_keys l /\ sorted_keys k.
Proof.
  unfold sorted_keys. rewrite fmap_app, StronglySorted_app. apply and_iff_compat_r. split.
  - intros Hs x y Hx Hy. apply Hs; by apply list_elem_of_fmap_2.
  - intros Hs x y (x' & -> & Hx)%list_elem_of_fmap (y' & -> & Hy)%list_elem_of_fmap. by apply Hs.
Qed.

Lemma sorted_lookup_lt l i j x y :
  sorted_keys l -> l !! i = Some x -> l !! j = Some y -> (i < j)%nat -> key x < key y.
Proof.
  intros Hs Hi Hj Hij. rewrite <- (take_drop j l) in Hs. apply sorted_app in Hs as (Hs & _). apply Hs.
  - apply (list_elem_of_lookup_2 _ i). by rewrite lookup_take_lt.
  - apply (list_elem_of_lookup_2 _ 0). by rewrite lookup_drop, Nat.add_0_r.
Qed.

Lemma sorted_lookup_eq l i j x y :
  sorted_keys l -> l !! i = Some x -> l !! j = Some y -> key x = key y -> i = j.
Proof.
  intros Hs Hi Hj Hk. destruct (Nat.lt_trichotomy i j) as [Hlt|[|Hlt]]; [|done|].
  - pose proof (sorted_lookup_lt l i j x y Hs Hi Hj Hlt). lia.
  - pose proof (sorted_lookup_lt l j i y x Hs Hj Hi Hlt). lia.
Qed.

(** Everything before the window is at most [k], everything after it greater. *)
Lemma search_loop_spec l k : sorted_keys l -> forall fuel base size,
  (size <= fuel)%nat -> (0 < size)%nat -> (base + size <= length l)%nat ->
  (forall x, (0 < base)%nat -> l !! base = Some x -> key x <= k) ->
  (forall j x, (base + size <= j)%nat -> l !! j = Some x -> k < key x) ->
  let b := search_loop fuel l k base size in
  (b < length l)%nat /\ (forall x, (0 < b)%nat -> l !! b = Some x -> key x <= k) /\
  (forall j x, (b < j)%nat -> l !! j = Some x -> k < key x).
Proof.
  intros Hs. induction fuel as [|fuel IH]; intros base size Hfuel Hsz Hlen Hlo Hhi; [lia|]. cbn [search_loop].
  destruct (Nat.leb_spec size 1) as [|Hbig].
  { split; [lia|]. split; [done|]. intros j x Hj. apply Hhi. lia. }
  assert (0 < Nat.div2 size < size)%nat as [Hh1 Hh2].
  { rewrite Nat.div2_div. pose proof (Nat.div_mod_eq size 2). pose proof (Nat.mod_upper_bound size 2). lia. }
  destruct (lookup_lt_is_Some_2 l (base + Nat.div2 size)) as [m Hm]; [lia|]. cbv zeta. rewrite Hm.
  destruct (Z.ltb_spec k (key m)) as [Hgt|Hle]; apply IH; try lia; try done.
  - intros j x Hj Hx. destruct (decide (j = base + Nat.div2 size)%nat) as [->|Hne]; [congruence|].
    pose proof (sorted_lookup_lt l _ _ _ _ Hs Hm Hx). rewrite Nat.div2_div in *.
    pose proof (Nat.div_mod_eq size 2). pose proof (Nat.mod_upper_bound size 2). lia.
  - intros x _ Hx. congruence.
  - intros j x Hj. apply Hhi. lia.
Qed.

(** What the search finds in a sorted vector. *)
Lemma binary_search_spec l k : sorted_keys l ->
  match binary_search l k with
  | Found i => exists x, l !! i = Some x /\ key x = k
  | Absent i => (i <= length l)%nat /\
      (forall j x, (j < i)%nat -> l !! j = Some x -> key x < k) /\
      (forall j x, (i <= j)%nat -> l !! j = Some x -> k < key x)
  end.
Proof.
  intros Hs. unfold binary_search. destruct l as [|y l']; [by split_and!|]. set (l := y :: l') in *.
  destruct (search_loop_spec l k Hs (length l) 0 (length l)) as (Hb & Hlo & Hhi);
    [done|unfold l; simpl; lia|done|lia| |].
  { intros j x Hj Hx. apply lookup_lt_Some in Hx. lia. }
  set (b := search_loop _ l k 0 _) in *. destruct (lookup_lt_is_Some_2 l b Hb) as [x Hx]. rewrite Hx.
  destruct (Z.eqb_spec (key x) k); [by exists x|]. destruct (Z.ltb_spec (key x) k) as [Hlt|Hge].
  - split; [lia|]. split; [|intros j z Hj; by apply Hhi]. intros j z Hj Hz.
    destruct (decide (j = b)) as [->|Hne]; [congruence|].
    pose proof (sorted_lookup_lt l j b z x Hs Hz Hx). lia.
  - destruct (decide (b = 0%nat)) as [Hb0|Hb0]; [|specialize (Hlo x ltac:(lia) Hx); lia].
    split; [lia|]. split; [lia|]. intros j z Hj Hz. destruct (decide (j = b)) as [->|]; [|apply (Hhi j); [lia|done]].
    assert (z = x) as -> by congruence. lia.
Qed.
End search.

(** [Vec::insert]; the index is at most the length. *)
Definition insert_at {A} (i : nat) (x : A) (l : list A) : list A := take i l ++ x :: drop i l.

(** ** The map of a vector of pairs *)
Section map.
Context {V : Type}.
Implicit Types l : list (Z * V).

Definition to_map l : gmap Z V := list_to_map l.

Lemma sorted_nodup l : sorted_keys fst l -> NoDup l.*1.
Proof.
  unfold sorted_keys. induction 1 as [|k ks Hs IH Hk]; constructor; [|done].
  intros Hin. rewrite Forall_forall in Hk. specialize (Hk k Hin). lia.
Qed.

Lemma to_map_Some l k v : sorted_keys fst l -> to_map l !! k = Some v <-> (k, v) ∈ l.
Proof. intros Hs. symmetry. by apply elem_of_list_to_map, sorted_nodup. Qed.

Lemma to_map_eq l (m : gmap Z V) :
  sorted_keys fst l -> (forall k v, (k, v) ∈ l <-> m !! k = Some v) -> to_map l = m.
Proof. intros Hs Hm. apply map_eq. intros k. apply option_eq. intros v. by rewrite to_map_Some, Hm. Qed.

Lemma to_map_size l : sorted_keys fst l -> size (to_map l) = length l.
Proof. intros Hs. unfold to_map. rewrite map_size_list_to_map; [done|]. by apply sorted_nodup. Qed.

(** The search is the lookup. *)
Lemma search_to_map l k : sorted_keys fst l ->
  match binary_search fst l k with
  | Found i => exists v, l !! i = Some (k, v) /\ to_map l !! k = Some v
  | Absent i => to_map l !! k = None
  end.
Proof.
  intros Hs. pose proof (binary_search_spec fst l k Hs) as Hb. destruct (binary_search fst l k) as [i|i].
  - destruct Hb as ([k' v] & Hi & <-). exists v. split; [done|]. apply to_map_Some; [done|]. by eapply list_elem_of_lookup_2.
  - destruct Hb as (_ & Hlt & Hgt). apply eq_None_not_Some. intros [v Hv].
    apply to_map_Some, list_elem_of_lookup in Hv as [j Hj]; [|done].
    destruct (Nat.lt_ge_cases j i) as [Hji|Hji]; [specialize (Hlt j _ Hji Hj)|specialize (Hgt j _ Hji Hj)]; simpl in *; lia.
Qed.

Lemma elem_of_insert_at {A} i (x y : A) (l : list A) : y ∈ insert_at i x l <-> y = x \/ y ∈ l.
Proof.
  unfold insert_at. rewrite elem_of_app, elem_of_cons. rewrite <- (take_drop i l) at 3. rewrite elem_of_app. tauto.
Qed.

Lemma length_insert_at {A} i (x : A) (l : list A) : length (insert_at i x l) = S (length l).
Proof. unfold insert_at. rewrite length_app. simpl. rewrite length_take, length_drop. lia. Qed.

(** Insertion where the search says the key belongs. *)
Lemma insert_at_spec l k v i :
  sorted_keys fst l -> binary_search fst l k = Absent i ->
  sorted_keys fst (insert_at i (k, v) l) /\ to_map (insert_at i (k, v) l) = <[k := v]> (to_map l).
Proof.
  intros Hs Hb. pose proof (binary_search_spec fst l k Hs) as Hsp. rewrite Hb in Hsp.
  pose proof (search_to_map l k Hs) as Hnone. rewrite Hb in Hnone. destruct Hsp as (_ & Hlt & Hgt).
  assert (sorted_keys fst (insert_at i (k, v) l)) as Hs'.
  { pose proof Hs as Hsd. rewrite <- (take_drop i l) in Hsd. apply sorted_app in Hsd as (Htd & Ht & Hd).
    assert (forall y, y ∈ drop i l -> k < y.1) as Hdk.
    { intros y [j Hj]%list_elem_of_lookup. rewrite lookup_drop in Hj. apply (Hgt (i + j)%nat); [lia|done]. }
    unfold insert_at. apply sorted_app. split_and!; [|done|].
    - intros x y Hx Hy. assert (x.1 < k) as Hxk.
      { apply list_elem_of_lookup in Hx as [j Hj]. apply lookup_take_Some in Hj as [Hj Hji]. by apply (Hlt j). }
      apply elem_of_cons in Hy as [->|Hy]; [done|]. specialize (Hdk y Hy). lia.
    - change ((k, v) :: drop i l) with ([(k, v)] ++ drop i l). apply sorted_app. split_and!; [|by repeat constructor|done].
      intros x y ->%list_elem_of_singleton Hy. by apply Hdk. }
  split; [done|]. apply to_map_eq; [done|]. intros k' v'. rewrite elem_of_insert_at, lookup_insert_Some, <- to_map_Some by done.
  split.
  - intros [[= -> ->]|Hin]; [by left|]. right. split; [congruence|done].
  - intros [[-> ->]|[_ Hin]]; auto.
Qed.

Lemma sublist_sorted l l' : l' `sublist_of` l -> sorted_keys fst l -> sorted_keys fst l'.
Proof.
  unfold sorted_keys. intros Hsub. induction Hsub as [|x l1 l2 Hsub IH|x l1 l2 Hsub IH]; intros Hs; [done| |].
  - rewrite fmap_cons in *. apply StronglySorted_inv in Hs as [Hs Hf]. constructor; [auto|].
    rewrite Forall_forall in *. intros y Hy. apply Hf.
    apply list_elem_of_fmap in Hy as (z & -> & Hz). apply list_elem_of_fmap_2.
    by apply (sublist_subseteq _ _ Hsub).
  - rewrite fmap_cons in Hs. apply StronglySorted_inv in Hs as [Hs _]. auto.
Qed.

Lemma delete_at_spec l i k v :
  sorted_keys fst l -> l !! i = Some (k, v) ->
  sorted_keys fst (delete i l) /\ to_map (delete i l) = delete k (to_map l).
Proof.
  intros Hs Hi. assert (sorted_keys fst (delete i l)) as Hs' by (eapply sublist_sorted; [apply sublist_delete|done]).
  split; [done|]. apply to_map_eq; [done|]. intros k' v'. rewrite lookup_delete_Some, to_map_Some by done.
  split.
  - intros [j Hj]%list_elem_of_lookup. rewrite list_lookup_delete in Hj.
    assert (exists j', j' <> i /\ l !! j' = Some (k', v')) as (j' & Hne & Hj').
    { case_decide; [exists j|exists (S j)]; (split; [lia|done]). }
    split; [|by eapply list_elem_of_lookup_2]. intros ->. apply Hne.
    by apply (sorted_lookup_eq fst l j' i (k', v') (k', v)).
  - intros [Hne Hin]. rewrite delete_take_drop. rewrite <- (take_drop_middle l i _ Hi) in Hin.
    rewrite elem_of_app, elem_of_cons in Hin. rewrite elem_of_app.
    destruct Hin as [Hin|[Heq|Hin]]; [by left| |by right]. by injection Heq as -> _.
Qed.

(** An update of the value at a found index. *)
Lemma update_at_spec l i k v v' :
  sorted_keys fst l -> l !! i = Some (k, v) ->
  sorted_keys fst (<[i := (k, v')]> l) /\ to_map (<[i := (k, v')]> l) = <[k := v']> (to_map l).
Proof.
  intros Hs Hi. assert (sorted_keys fst (<[i := (k, v')]> l)) as Hs'.
  { unfold sorted_keys. rewrite list_fmap_insert, list_insert_id; [done|]. by rewrite list_lookup_fmap, Hi. }
  split; [done|]. apply to_map_eq; [done|]. intros k1 v1. rewrite lookup_insert_Some, to_map_Some by done. split.
  - intros [j Hj]%list_elem_of_lookup. apply list_lookup_insert_Some in Hj as [(<- & [= <- <-] & _)|(Hne & Hj)]; [by left|].
    right. split; [|by eapply list_elem_of_lookup_2]. intros <-. apply Hne. symmetry.
    by apply (sorted_lookup_eq fst l j i (k, v1) (k, v)).
  - intros [[<- <-]|[Hne Hin]].
    + apply (list_elem_of_lookup_2 _ i), list_lookup_insert_eq. by eapply lookup_lt_Some.
    + apply list_elem_of_lookup in Hin as [j Hj]. apply (list_elem_of_lookup_2 _ j).
      rewrite list_lookup_insert_ne; [done|]. intros ->. congruence.
Qed.

(** [Vec::retain] on the values. *)
Lemma retain_spec l (p : V -> bool) :
  sorted_keys fst l ->
  let l' := List.filter (fun x => p x.2) l in
  sorted_keys fst l' /\ to_map l' = filter (fun x => p x.2 = true) (to_map l).
Proof.
  intros Hs. cbv zeta. assert (sorted_keys fst (List.filter (fun x => p x.2) l)) as Hs'.
  { eapply sublist_sorted; [|done]. clear. induction l as [|x l IH]; simpl; [done|].
    destruct (p x.2); [by apply sublist_skip|by apply sublist_cons]. }
  split; [done|]. apply to_map_eq; [done|]. intros k v. rewrite map_lookup_filter_Some, to_map_Some by done.
  rewrite !list_elem_of_In, filter_In. simpl. tauto.
Qed.

(** A change of every value. *)
Lemma map_values_spec l (f : V -> V) :
  sorted_keys fst l ->
  sorted_keys fst ((fun x => (x.1, f x.2)) <$> l) /\ to_map ((fun x => (x.1, f x.2)) <$> l) = f <$> to_map l.
Proof.
  intros Hs. assert (sorted_keys fst ((fun x => (x.1, f x.2)) <$> l)) as Hs'.
  { unfold sorted_keys. rewrite <- list_fmap_compose. exact Hs. }
  split; [done|]. apply to_map_eq; [done|]. intros k v. rewrite lookup_fmap_Some. setoid_rewrite to_map_Some; [|done].
  split.
  - intros ([k0 v0] & [= -> ->] & Hin)%list_elem_of_fmap. eauto.
  - intros (v0 & <- & Hin). apply list_elem_of_fmap. by exists (k, v0).
Qed.
End map.
