(* ===== verification/Registry.v ===== *)
(** * The DCID registry of a node

    [DcidRegistry] of [src/crates/quic-lite/src/relay.rs]: one sorted vector of
    the connection identifiers a node answers to, each owned by a local endpoint
    or by a forwarding rule; and the methods of [PacketRouter] that change its
    entries (removal, packet quotas, inactivity leases).  The theorems are in
    [RegistrySpec.v] and [RegistryLeases.v].  [Vec::try_reserve(2)] is two reservations of one slot. *)

From S2P Require Import Prelude Wire FlowControl SortedKeys.

(** [ForwardDestination] *)
Inductive ForwardDestination : Type :=
  | Connection (cid : Z)
  | BootstrapDestination.
#[export] Instance ForwardDestination_eq_dec : EqDecision ForwardDestination.
Proof. solve_decision. Defined.

Record ForwardRule (NextHop : Type) : Type := mkForwardRule {
  next_hop : NextHop;
  destination : ForwardDestination;
  lease_duration_us : Z;
  lease_expires_at_us : Z;
  lease_group_id : Z;
  packet_quota : Z;
  forwarded_packets : Z;
  forwarded_control_packets : Z;
  quota_window_started_us : Z;
}.
Arguments mkForwardRule {NextHop}.
Arguments next_hop {NextHop}.
Arguments destination {NextHop}.
Arguments lease_duration_us {NextHop}.
Arguments lease_expires_at_us {NextHop}.
Arguments lease_group_id {NextHop}.
Arguments packet_quota {NextHop}.
Arguments forwarded_packets {NextHop}.
Arguments forwarded_control_packets {NextHop}.
Arguments quota_window_started_us {NextHop}.

#[export] Instance ForwardRule_eq_dec {N} `{EqDecision N} : EqDecision (ForwardRule N).
Proof. solve_decision. Defined.

(** Updates of the lease and of the quota fields. *)
Definition with_lease {N} (expires : Z) (f : ForwardRule N) : ForwardRule N :=
  mkForwardRule (next_hop f) (destination f) (lease_duration_us f) expires (lease_group_id f)
    (packet_quota f) (forwarded_packets f) (forwarded_control_packets f) (quota_window_started_us f).
Definition with_quota {N} (packets control started : Z) (f : ForwardRule N) : ForwardRule N :=
  mkForwardRule (next_hop f) (destination f) (lease_duration_us f) (lease_expires_at_us f) (lease_group_id f)
    (packet_quota f) packets control started.

Inductive DcidTarget (Endpoint NextHop : Type) : Type :=
  | TEndpoint (endpoint : Endpoint)
  | TForward (rule : ForwardRule NextHop).
Arguments TEndpoint {Endpoint NextHop}.
Arguments TForward {Endpoint NextHop}.
#[export] Instance DcidTarget_eq_dec {E N} `{EqDecision E, EqDecision N} : EqDecision (DcidTarget E N).
Proof. solve_decision. Defined.

Module DcidRegistryError.
Inductive t : Type :=
  | InvalidConnectionId
  | Occupied
  | Full
  | Missing
  | WrongTarget
  | InvalidLeaseGroup.
End DcidRegistryError.

Abbreviation reg := (outcome DcidRegistryError.t).

Record DcidRegistry (Endpoint NextHop : Type) : Type := mkDcidRegistry {
  entries : list (Z * DcidTarget Endpoint NextHop);
  max_entries : Z;
}.
Arguments mkDcidRegistry {Endpoint NextHop}.
Arguments entries {Endpoint NextHop}.
Arguments max_entries {Endpoint NextHop}.

Module Registry.
Section registry.
Context `{Allocator} {Endpoint NextHop : Type} `{EqDecision Endpoint, EqDecision NextHop}.
Abbreviation registry := (DcidRegistry Endpoint NextHop).
Abbreviation target := (DcidTarget Endpoint NextHop).
Abbreviation rule := (ForwardRule NextHop).

Definition new : registry := mkDcidRegistry [] U64_MAX.
Definition set_max_entries (n : Z) (r : registry) : registry := mkDcidRegistry (entries r) n.
Definition with_entries (l : list (Z * target)) (r : registry) : registry := mkDcidRegistry l (max_entries r).

Definition find (r : registry) (dcid : Z) : found := binary_search fst (entries r) dcid.

Definition target_at (r : registry) (i : nat) : option target := snd <$> entries r !! i.

Definition lookup (r : registry) (dcid : Z) : option target :=
  match find r dcid with Found i => target_at r i | Absent _ => None end.

Definition contains (r : registry) (dcid : Z) : bool :=
  match find r dcid with Found _ => true | Absent _ => false end.

(** [ingress]: the target, without the packet prefix it is returned with. *)
Definition ingress (r : registry) (dcid : Z) : reg target :=
  ok_or (lookup r dcid) DcidRegistryError.Missing.

Definition endpoint_for_cid (r : registry) (dcid : Z) : option Endpoint :=
  match lookup r dcid with Some (TEndpoint e) => Some e | _ => None end.

Definition endpoint_of (predicate : Endpoint -> bool) (x : Z * target) : option Endpoint :=
  match x.2 with TEndpoint e => if predicate e then Some e else None | TForward _ => None end.

Definition endpoint_matching (r : registry) (predicate : Endpoint -> bool) : option Endpoint :=
  head (omap (endpoint_of predicate) (entries r)).

(** *** Insertion *)
Definition insert (dcid : Z) (t : target) (r : registry) : reg unit * registry :=
  if dcid =? 0 then (Err DcidRegistryError.InvalidConnectionId, r) else
  match find r dcid with
  | Found _ => (Err DcidRegistryError.Occupied, r)
  | Absent i =>
      if max_entries r <=? zlen (entries r) then (Err DcidRegistryError.Full, r) else
      if negb (try_reserve (length (entries r))) then (Err DcidRegistryError.Full, r) else
      (Ok tt, with_entries (insert_at i (dcid, t) (entries r)) r)
  end.

Definition insert_endpoint (dcid : Z) (e : Endpoint) (r : registry) : reg unit * registry :=
  insert dcid (TEndpoint e) r.

Definition install_forward (dcid : Z) (f : rule) (r : registry) : reg unit * registry :=
  if negb (lease_group_id f =? 0) then (Err DcidRegistryError.InvalidLeaseGroup, r)
  else insert dcid (TForward f) r.

Definition in_group (group : Z) (t : target) : bool :=
  match t with TForward f => lease_group_id f =? group | TEndpoint _ => false end.

(** The two rules do not form one lease group. *)
Definition pair_invalid (first_cid : Z) (first : rule) (second_cid : Z) (second : rule) : bool :=
  (first_cid =? second_cid) || (lease_group_id first =? 0)
  || negb (lease_group_id first =? lease_group_id second)
  || negb (lease_duration_us first =? lease_duration_us second)
  || negb (lease_expires_at_us first =? lease_expires_at_us second)
  || negb (packet_quota first =? packet_quota second)
  || negb (forwarded_packets first =? 0) || negb (forwarded_packets second =? 0)
  || negb (forwarded_control_packets first =? 0) || negb (forwarded_control_packets second =? 0).

(** [self.entries.insert(self.find(cid).unwrap_err(), ..)] *)
Definition insert_absent (dcid : Z) (f : rule) (r : registry) : option registry :=
  match find r dcid with
  | Absent i => Some (with_entries (insert_at i (dcid, TForward f) (entries r)) r)
  | Found _ => None
  end.

Definition install_forward_pair (first_cid : Z) (first : rule) (second_cid : Z) (second : rule) (r : registry)
    : reg unit * registry :=
  if (first_cid =? 0) || (second_cid =? 0) then (Err DcidRegistryError.InvalidConnectionId, r) else
  if pair_invalid first_cid first second_cid second then (Err DcidRegistryError.InvalidLeaseGroup, r) else
  if existsb (fun x => in_group (lease_group_id first) x.2) (entries r)
  then (Err DcidRegistryError.Occupied, r) else
  if contains r first_cid || contains r second_cid then (Err DcidRegistryError.Occupied, r) else
  if max_entries r <? sat_add (zlen (entries r)) 2 then (Err DcidRegistryError.Full, r) else
  if negb (try_reserve (length (entries r)) && try_reserve (S (length (entries r))))
  then (Err DcidRegistryError.Full, r) else
  let '(low_cid, low, high_cid, high) :=
    if first_cid <? second_cid then (first_cid, first, second_cid, second)
    else (second_cid, second, first_cid, first) in
  match insert_absent low_cid low r ≫= insert_absent high_cid high with
  | Some r' => (Ok tt, r')
  | None => (Panic, r)
  end.

Definition install_forward_idempotent (dcid : Z) (f : rule) (r : registry) : reg bool * registry :=
  if dcid =? 0 then (Err DcidRegistryError.InvalidConnectionId, r) else
  match lookup r dcid with
  | Some t => (if bool_decide (t = TForward f) then Ok false else Err DcidRegistryError.Occupied, r)
  | None =>
      match insert dcid (TForward f) r with
      | (Ok _, r') => (Ok true, r')
      | (Err e, r') => (Err e, r')
      | (Panic, r') => (Panic, r')
      end
  end.

Definition set_at (i : nat) (dcid : Z) (t : target) (r : registry) : registry :=
  with_entries (<[i := (dcid, t)]> (entries r)) r.

Definition update_forward (dcid : Z) (f : rule) (r : registry) : reg unit * registry :=
  match find r dcid with
  | Absent _ => (Err DcidRegistryError.Missing, r)
  | Found i =>
      match target_at r i with
      | Some (TForward _) => (Ok tt, set_at i dcid (TForward f) r)
      | _ => (Err DcidRegistryError.WrongTarget, r)
      end
  end.

(** *** Removal *)
Definition remove_where (dcid : Z) (p : target -> bool) (r : registry) : option target * registry :=
  match find r dcid with
  | Absent _ => (None, r)
  | Found i =>
      match target_at r i with
      | Some t => if p t then (Some t, with_entries (delete i (entries r)) r) else (None, r)
      | None => (None, r)
      end
  end.

Definition is_forward (t : target) : bool := match t with TForward _ => true | TEndpoint _ => false end.

Definition remove (dcid : Z) (r : registry) : option target * registry := remove_where dcid (fun _ => true) r.

Definition remove_endpoint (dcid : Z) (expected : Endpoint) (r : registry) : bool * registry :=
  let '(o, r') := remove_where dcid (fun t => bool_decide (t = TEndpoint expected)) r in
  (bool_decide (o <> None), r').

Definition remove_forward (dcid : Z) (r : registry) : bool * registry :=
  let '(o, r') := remove_where dcid is_forward r in (bool_decide (o <> None), r').

Definition retain (p : target -> bool) (r : registry) : registry :=
  with_entries (List.filter (fun x => p x.2) (entries r)) r.

Definition drop_group (group : Z) (r : registry) : registry := retain (fun t => negb (in_group group t)) r.

Definition remove_forward_pair (first_cid second_cid : Z) (r : registry) : bool * registry :=
  match lookup r first_cid, lookup r second_cid with
  | Some (TForward first), Some (TForward second) =>
      if (first_cid =? second_cid) || (lease_group_id first =? 0)
         || negb (lease_group_id first =? lease_group_id second)
      then (false, r) else (true, drop_group (lease_group_id first) r)
  | _, _ => (false, r)
  end.

(** *** Leases *)
Definition min_option (a b : option Z) : option Z :=
  match a, b with
  | Some x, Some y => Some (Z.min x y)
  | Some x, None | None, Some x => Some x
  | None, None => None
  end.

Definition expiry_of (x : Z * target) : option Z :=
  match x.2 with TForward f => Some (lease_expires_at_us f) | TEndpoint _ => None end.

Definition next_forward_lease_deadline (r : registry) : option Z :=
  foldr min_option None (expiry_of <$> entries r).

Definition lease_live (now : Z) (t : target) : bool :=
  match t with TForward f => now <? lease_expires_at_us f | TEndpoint _ => true end.

Definition expire_forward_leases (now : Z) (r : registry) : Z * registry :=
  let r' := retain (lease_live now) r in (zlen (entries r) - zlen (entries r'), r').

(** [forward_lease_active] of the DCID in the packet. *)
Definition lease_active (dcid now : Z) (r : registry) : bool * registry :=
  match find r dcid with
  | Absent _ => (true, r)
  | Found i =>
      match target_at r i with
      | Some (TForward f) =>
          if now <? lease_expires_at_us f then (true, r)
          else if lease_group_id f =? 0 then (false, with_entries (delete i (entries r)) r)
          else (false, drop_group (lease_group_id f) r)
      | _ => (true, r)
      end
  end.

Definition renew (expires : Z) (t : target) : target :=
  match t with TForward f => TForward (with_lease expires f) | TEndpoint _ => t end.

Definition renew_group (group expires : Z) (t : target) : target :=
  if in_group group t then renew expires t else t.

(** [refresh_forward_lease] of the DCID in the packet. *)
Definition refresh_lease (dcid now : Z) (r : registry) : bool * registry :=
  match lease_active dcid now r with
  | (false, r') => (false, r')
  | (true, r') =>
      (true,
       match find r' dcid with
       | Absent _ => r'
       | Found i =>
           match target_at r' i with
           | Some (TForward f) =>
               let expires := sat_add now (lease_duration_us f) in
               if lease_group_id f =? 0 then set_at i dcid (renew expires (TForward f)) r'
               else with_entries ((fun x => (x.1, renew_group (lease_group_id f) expires x.2)) <$> entries r') r'
           | _ => r'
           end
       end)
  end.

(** *** Packet quota *)
Definition control_reserve (quota : Z) : Z := Z.max (quota / 16) 1.

(** The window of the quota that [now] is in, and the packets counted in it. *)
Definition roll_window (now : Z) (f : rule) : rule :=
  let window := Z.max (lease_duration_us f) 1 in
  let elapsed := sat_sub now (quota_window_started_us f) in
  if window <=? elapsed
  then with_quota 0 0 (sat_add (quota_window_started_us f) (sat_mul (elapsed / window) window)) f
  else f.

(** The rule part of [consume_forward_quota]. *)
Definition consume_rule (control : bool) (now : Z) (f : rule) : bool * rule :=
  if packet_quota f =? 0 then (true, f) else
  let f := roll_window now f in
  if packet_quota f <=? forwarded_packets f then (false, f) else
  if negb control && (sat_sub (packet_quota f) (control_reserve (packet_quota f)) <=? forwarded_packets f)
  then (false, f) else
  (true, with_quota (sat_add (forwarded_packets f) 1)
           (if control then sat_add (forwarded_control_packets f) 1 else forwarded_control_packets f)
           (quota_window_started_us f) f).

Definition consume_forward_quota (dcid : Z) (control : bool) (now : Z) (r : registry) : bool * registry :=
  match find r dcid with
  | Absent _ => (false, r)
  | Found i =>
      match target_at r i with
      | Some (TForward f) =>
          let '(ok, f') := consume_rule control now f in (ok, set_at i dcid (TForward f') r)
      | _ => (false, r)
      end
  end.
End registry.
End Registry.
