(* ===== verification/RegistrySpec.v ===== *)
(** * What the DCID registry promises

    The registry is a finite map from connection identifiers to targets: over
    every sequence of operations it gives the replies of the map, panics never,
    and holds the same entries.  Leases and quotas are in [RegistryLeases.v]. *)

From S2P Require Import Prelude Wire FlowControl SortedKeys Registry.

Section spec.
Context `{Allocator} {Endpoint NextHop : Type} `{EqDecision Endpoint, EqDecision NextHop}.
Abbreviation registry := (DcidRegistry Endpoint NextHop).
Abbreviation target := (DcidTarget Endpoint NextHop).
Abbreviation rule := (ForwardRule NextHop).

(** ** The abstract registry *)
Record routes : Type := mkRoutes { table : gmap Z target; limit : Z }.

Inductive reg_op : Type :=
  | OSetMax (n : Z)
  | OEndpoint (dcid : Z) (e : Endpoint)
  | OForward (dcid : Z) (f : rule)
  | OPair (first_cid : Z) (first : rule) (second_cid : Z) (second : rule)
  | OIdempotent (dcid : Z) (f : rule)
  | OUpdate (dcid : Z) (f : rule)
  | ORemove (dcid : Z)
  | ORemoveEndpoint (dcid : Z) (e : Endpoint)
  | ORemoveForward (dcid : Z)
  | ORemovePair (first_cid second_cid : Z)
  | OExpire (now : Z)
  | OActive (dcid now : Z)
  | ORefresh (dcid now : Z)
  | OConsume (dcid : Z) (control : bool) (now : Z)
  | OIngress (dcid : Z)
  | OContains (dcid : Z).

Inductive reg_reply : Type :=
  | PDone
  | PResult (r : reg unit)
  | PInserted (r : reg bool)
  | PBool (b : bool)
  | PCount (n : Z)
  | PTarget (o : option target)
  | PIngress (r : reg target).

(** The operations of the code. *)
Definition reply_with {A} (f : A -> reg_reply) (x : A * registry) : reg_reply * registry := (f x.1, x.2).

Definition registry_apply (op : reg_op) (r : registry) : reg_reply * registry :=
  match op with
  | OSetMax n => (PDone, Registry.set_max_entries n r)
  | OEndpoint d e => reply_with PResult (Registry.insert_endpoint d e r)
  | OForward d f => reply_with PResult (Registry.install_forward d f r)
  | OPair a f b g => reply_with PResult (Registry.install_forward_pair a f b g r)
  | OIdempotent d f => reply_with PInserted (Registry.install_forward_idempotent d f r)
  | OUpdate d f => reply_with PResult (Registry.update_forward d f r)
  | ORemove d => reply_with PTarget (Registry.remove d r)
  | ORemoveEndpoint d e => reply_with PBool (Registry.remove_endpoint d e r)
  | ORemoveForward d => reply_with PBool (Registry.remove_forward d r)
  | ORemovePair a b => reply_with PBool (Registry.remove_forward_pair a b r)
  | OExpire now => reply_with PCount (Registry.expire_forward_leases now r)
  | OActive d now => reply_with PBool (Registry.lease_active d now r)
  | ORefresh d now => reply_with PBool (Registry.refresh_lease d now r)
  | OConsume d c now => reply_with PBool (Registry.consume_forward_quota d c now r)
  | OIngress d => (PIngress (Registry.ingress r d), r)
  | OContains d => (PBool (Registry.contains r d), r)
  end.

(** The same operations on the map. *)
Definition on_table (m : routes) (t : gmap Z target) : routes := mkRoutes t (limit m).

Definition full (m : routes) : bool := limit m <=? Z.of_nat (size (table m)).
Definition can_reserve (m : routes) : bool := try_reserve (size (table m)).

Definition spec_insert (d : Z) (t : target) (m : routes) : reg unit * routes :=
  if d =? 0 then (Err DcidRegistryError.InvalidConnectionId, m) else
  match table m !! d with
  | Some _ => (Err DcidRegistryError.Occupied, m)
  | None =>
      if full m || negb (can_reserve m) then (Err DcidRegistryError.Full, m)
      else (Ok tt, on_table m (<[d := t]> (table m)))
  end.

Definition group_members (g : Z) (m : routes) : gmap Z target :=
  filter (fun x => Registry.in_group g x.2 = true) (table m).

Definition spec_pair (a : Z) (f : rule) (b : Z) (g : rule) (m : routes) : reg unit * routes :=
  if (a =? 0) || (b =? 0) then (Err DcidRegistryError.InvalidConnectionId, m) else
  if Registry.pair_invalid a f b g then (Err DcidRegistryError.InvalidLeaseGroup, m) else
  if negb (bool_decide (group_members (lease_group_id f) m = ∅))
     || bool_decide (is_Some (table m !! a)) || bool_decide (is_Some (table m !! b))
  then (Err DcidRegistryError.Occupied, m) else
  if (limit m <? sat_add (Z.of_nat (size (table m))) 2)
     || negb (try_reserve (size (table m)) && try_reserve (S (size (table m))))
  then (Err DcidRegistryError.Full, m) else
  (Ok tt, on_table m (<[a := TForward f]> (<[b := TForward g]> (table m)))).

Definition keep (p : target -> bool) (m : routes) : routes :=
  on_table m (filter (fun x => p x.2 = true) (table m)).

Definition spec_remove_where (d : Z) (p : target -> bool) (m : routes) : option target * routes :=
  match table m !! d with
  | Some t => if p t then (Some t, on_table m (delete d (table m))) else (None, m)
  | None => (None, m)
  end.

Definition spec_active (d now : Z) (m : routes) : bool * routes :=
  match table m !! d with
  | Some (TForward f) =>
      if now <? lease_expires_at_us f then (true, m)
      else (false, if lease_group_id f =? 0 then on_table m (delete d (table m))
                   else keep (fun t => negb (Registry.in_group (lease_group_id f) t)) m)
  | _ => (true, m)
  end.

Definition spec_refresh (d now : Z) (m : routes) : bool * routes :=
  match spec_active d now m with
  | (false, m') => (false, m')
  | (true, m') =>
      (true,
       match table m' !! d with
       | Some (TForward f) =>
           let expires := sat_add now (lease_duration_us f) in
           if lease_group_id f =? 0
           then on_table m' (<[d := TForward (with_lease expires f)]> (table m'))
           else on_table m' (Registry.renew_group (lease_group_id f) expires <$> table m')
       | _ => m'
       end)
  end.

Definition removed_some {A} (x : option target * A) : bool * A := (bool_decide (x.1 <> None), x.2).

Definition spec_with {A} (f : A -> reg_reply) (x : A * routes) : reg_reply * routes := (f x.1, x.2).

Definition routes_apply (op : reg_op) (m : routes) : reg_reply * routes :=
  match op with
  | OSetMax n => (PDone, mkRoutes (table m) n)
  | OEndpoint d e => spec_with PResult (spec_insert d (TEndpoint e) m)
  | OForward d f =>
      if negb (lease_group_id f =? 0) then (PResult (Err DcidRegistryError.InvalidLeaseGroup), m)
      else spec_with PResult (spec_insert d (TForward f) m)
  | OPair a f b g => spec_with PResult (spec_pair a f b g m)
  | OIdempotent d f =>
      match table m !! d with
      | Some t =>
          (PInserted (if d =? 0 then Err DcidRegistryError.InvalidConnectionId
                      else if bool_decide (t = TForward f) then Ok false
                      else Err DcidRegistryError.Occupied), m)
      | None => spec_with (fun x => PInserted (_ ← x; Ok true)) (spec_insert d (TForward f) m)
      end
  | OUpdate d f =>
      match table m !! d with
      | None => (PResult (Err DcidRegistryError.Missing), m)
      | Some (TEndpoint _) => (PResult (Err DcidRegistryError.WrongTarget), m)
      | Some (TForward _) => (PResult (Ok tt), on_table m (<[d := TForward f]> (table m)))
      end
  | ORemove d => spec_with PTarget (spec_remove_where d (fun _ => true) m)
  | ORemoveEndpoint d e => spec_with PBool (removed_some (spec_remove_where d (fun t => bool_decide (t = TEndpoint e)) m))
  | ORemoveForward d => spec_with PBool (removed_some (spec_remove_where d Registry.is_forward m))
  | ORemovePair a b =>
      match table m !! a, table m !! b with
      | Some (TForward f), Some (TForward g) =>
          if (a =? b) || (lease_group_id f =? 0) || negb (lease_group_id f =? lease_group_id g)
          then (PBool false, m)
          else (PBool true, keep (fun t => negb (Registry.in_group (lease_group_id f) t)) m)
      | _, _ => (PBool false, m)
      end
  | OExpire now =>
      let m' := keep (Registry.lease_live now) m in
      (PCount (Z.of_nat (size (table m)) - Z.of_nat (size (table m'))), m')
  | OActive d now => spec_with PBool (spec_active d now m)
  | ORefresh d now => spec_with PBool (spec_refresh d now m)
  | OConsume d c now =>
      match table m !! d with
      | Some (TForward f) =>
          let '(ok, f') := Registry.consume_rule c now f in
          (PBool ok, on_table m (<[d := TForward f']> (table m)))
      | _ => (PBool false, m)
      end
  | OIngress d => (PIngress (ok_or (table m !! d) DcidRegistryError.Missing), m)
  | OContains d => (PBool (bool_decide (is_Some (table m !! d))), m)
  end.

(** ** The registry represents the map *)
Record represents (r : registry) (m : routes) : Prop := {
  rp_sorted : sorted_keys fst (entries r);
  rp_table : to_map (entries r) = table m;
  rp_limit : max_entries r = limit m;
}.

Definition agrees {A} (x : A * registry) (y : A * routes) : Prop := x.1 = y.1 /\ represents x.2 y.2.

Lemma agrees_same {A} (a : A) r m : represents r m -> agrees (a, r) (a, m).
Proof. done. Qed.

Lemma agrees_reply {A B} (f : A -> B) x y : agrees x y -> agrees (f x.1, x.2) (f y.1, y.2).
Proof. intros [Hx Hr]. split; [by simpl; rewrite Hx|done]. Qed.

Lemma represents_size r m : represents r m -> size (table m) = length (entries r).
Proof. intros [Hs Ht _]. rewrite <- Ht. by apply to_map_size. Qed.

Lemma represents_zlen r m : represents r m -> Z.of_nat (size (table m)) = zlen (entries r).
Proof. intros Hr. by rewrite (represents_size r m Hr). Qed.

Lemma represents_table r m l t :
  represents r m -> sorted_keys fst l -> to_map l = t -> represents (Registry.with_entries l r) (on_table m t).
Proof. intros [_ _ Hl] Hs Ht. by split. Qed.

Lemma find_spec r m d : represents r m ->
  match Registry.find r d with
  | Found i => exists t, entries r !! i = Some (d, t) /\ table m !! d = Some t /\ Registry.target_at r i = Some t
  | Absent _ => table m !! d = None
  end.
Proof.
  intros [Hs Ht _]. pose proof (search_to_map (entries r) d Hs) as Hf. unfold Registry.find, Registry.target_at.
  rewrite <- Ht. destruct (binary_search _ _ _) as [i|i]; [|done]. destruct Hf as (v & Hi & Hv). exists v. by rewrite Hi.
Qed.

Lemma lookup_spec r m d : represents r m -> Registry.lookup r d = table m !! d.
Proof.
  intros Hr. pose proof (find_spec r m d Hr) as Hf. unfold Registry.lookup.
  destruct (Registry.find r d) as [i|i]; [|done]. by destruct Hf as (t & _ & -> & ->).
Qed.

Lemma contains_spec r m d : represents r m -> Registry.contains r d = bool_decide (is_Some (table m !! d)).
Proof.
  intros Hr. pose proof (find_spec r m d Hr) as Hf. unfold Registry.contains.
  destruct (Registry.find r d) as [i|i].
  - destruct Hf as (t & _ & -> & _). by rewrite bool_decide_true.
  - rewrite Hf. by rewrite bool_decide_false by (by intros []).
Qed.

(** The entries of a filtered, updated or extended vector. *)
Lemma retain_represents p r m : represents r m -> represents (Registry.retain p r) (keep p m).
Proof.
  intros Hr. destruct (retain_spec (entries r) p (rp_sorted _ _ Hr)) as [Hs Ht].
  apply represents_table; [done|done|]. by rewrite <- (rp_table _ _ Hr).
Qed.

Lemma set_represents r m i d t t' :
  represents r m -> entries r !! i = Some (d, t) ->
  represents (Registry.set_at i d t' r) (on_table m (<[d := t']> (table m))).
Proof.
  intros Hr Hi. destruct (update_at_spec (entries r) i d t t' (rp_sorted _ _ Hr) Hi) as [Hs Ht].
  apply represents_table; [done|done|]. by rewrite <- (rp_table _ _ Hr).
Qed.

Lemma delete_represents r m i d t :
  represents r m -> entries r !! i = Some (d, t) ->
  represents (Registry.with_entries (delete i (entries r)) r) (on_table m (delete d (table m))).
Proof.
  intros Hr Hi. destruct (delete_at_spec (entries r) i d t (rp_sorted _ _ Hr) Hi) as [Hs Ht].
  apply represents_table; [done|done|]. by rewrite <- (rp_table _ _ Hr).
Qed.

Lemma add_represents r m i d t :
  represents r m -> Registry.find r d = Absent i ->
  represents (Registry.with_entries (insert_at i (d, t) (entries r)) r) (on_table m (<[d := t]> (table m))).
Proof.
  intros Hr Hf. destruct (insert_at_spec (entries r) d t i (rp_sorted _ _ Hr) Hf) as [Hs Ht].
  apply represents_table; [done|done|]. by rewrite <- (rp_table _ _ Hr).
Qed.

(** *** Each operation *)
Lemma insert_agrees d t r m : represents r m -> agrees (Registry.insert d t r) (spec_insert d t m).
Proof.
  intros Hr. unfold Registry.insert, spec_insert. destruct (d =? 0); [done|].
  pose proof (find_spec r m d Hr) as Hf. destruct (Registry.find r d) as [i|i] eqn:Hi.
  { by destruct Hf as (v & _ & -> & _). }
  rewrite Hf. unfold full, can_reserve. rewrite (represents_size r m Hr), <- (rp_limit _ _ Hr).
  unfold zlen. destruct (_ <=? _); [done|]. cbn [orb]. destruct (negb _); [done|]. split; [done|]. by apply add_represents.
Qed.

Lemma remove_agrees d p r m : represents r m -> agrees (Registry.remove_where d p r) (spec_remove_where d p m).
Proof.
  intros Hr. unfold Registry.remove_where, spec_remove_where. pose proof (find_spec r m d Hr) as Hf.
  destruct (Registry.find r d) as [i|i]; [|by rewrite Hf]. destruct Hf as (t & Hi & -> & ->).
  destruct (p t); [|done]. split; [done|]. by eapply delete_represents.
Qed.

Lemma group_empty g r m : represents r m ->
  existsb (fun x => Registry.in_group g x.2) (entries r) = negb (bool_decide (group_members g m = ∅)).
Proof.
  intros Hr. unfold group_members. rewrite <- (rp_table _ _ Hr).
  destruct (retain_spec (entries r) (Registry.in_group g) (rp_sorted _ _ Hr)) as [Hs <-].
  destruct (existsb _ _) eqn:He.
  - apply existsb_exists in He as ([d t] & Hin & Hg). rewrite bool_decide_false; [done|]. intros Hm.
    assert (to_map (List.filter (fun x => Registry.in_group g x.2) (entries r)) !! d = Some t) as Hl.
    { apply to_map_Some; [done|]. by rewrite list_elem_of_In, filter_In. }
    by rewrite Hm, lookup_empty in Hl.
  - rewrite bool_decide_true; [done|]. apply map_empty. intros d. apply eq_None_not_Some. intros [t Ht].
    apply to_map_Some in Ht; [|done]. rewrite list_elem_of_In, filter_In in Ht. destruct Ht as [Hin Hg].
    assert (existsb (fun x => Registry.in_group g x.2) (entries r) = true) as Hx by (apply existsb_exists; eauto).
    congruence.
Qed.

Lemma insert_absent_represents d f r m :
  represents r m -> table m !! d = None ->
  exists r', Registry.insert_absent d f r = Some r' /\ represents r' (on_table m (<[d := TForward f]> (table m))).
Proof.
  intros Hr Hd. unfold Registry.insert_absent. pose proof (find_spec r m d Hr) as Hf.
  destruct (Registry.find r d) as [i|i] eqn:Hi; [destruct Hf as (t & _ & Ht & _); congruence|].
  eexists. split; [done|]. by apply add_represents.
Qed.

Lemma pair_agrees a f b g r m :
  represents r m -> agrees (Registry.install_forward_pair a f b g r) (spec_pair a f b g m).
Proof.
  intros Hr. unfold Registry.install_forward_pair, spec_pair. destruct ((a =? 0) || _); [done|].
  destruct (Registry.pair_invalid a f b g) eqn:Hpair; [done|]. rewrite (group_empty _ r m Hr).
  destruct (negb (bool_decide _)); [done|]. cbn [orb]. rewrite !(contains_spec r m) by done.
  destruct (bool_decide (is_Some (table m !! a))) eqn:Ha; [done|]. destruct (bool_decide (is_Some (table m !! b))) eqn:Hb; [done|].
  apply bool_decide_eq_false in Ha, Hb. rewrite <- eq_None_not_Some in Ha, Hb. cbn [orb].
  rewrite (represents_size r m Hr), <- (rp_limit _ _ Hr). fold (zlen (entries r)).
  destruct (_ <? _); [done|]. cbn [orb]. destruct (negb _); [done|].
  assert (a <> b) as Hab.
  { unfold Registry.pair_invalid in Hpair. rewrite !orb_false_iff in Hpair. lia. }
  destruct (Z.ltb_spec a b).
  - destruct (insert_absent_represents a f r m Hr Ha) as (r1 & Hr1 & Hrep1).
    destruct (insert_absent_represents b g r1 _ Hrep1) as (r2 & Hr2 & Hrep2).
    { cbn. by rewrite lookup_insert_ne. }
    rewrite Hr1. cbn [mbind option_bind]. rewrite Hr2. split; [done|]. cbn in Hrep2. by rewrite insert_insert_ne in Hrep2.
  - destruct (insert_absent_represents b g r m Hr Hb) as (r1 & Hr1 & Hrep1).
    destruct (insert_absent_represents a f r1 _ Hrep1) as (r2 & Hr2 & Hrep2).
    { cbn. by rewrite lookup_insert_ne. }
    rewrite Hr1. cbn [mbind option_bind]. rewrite Hr2. split; [done|]. exact Hrep2.
Qed.

Lemma idempotent_agrees d f r m :
  represents r m -> agrees (registry_apply (OIdempotent d f) r) (routes_apply (OIdempotent d f) m).
Proof.
  intros Hr. cbn [registry_apply routes_apply]. unfold reply_with, Registry.install_forward_idempotent.
  rewrite (lookup_spec r m d Hr). destruct (table m !! d) as [t|] eqn:Hd.
  - destruct (d =? 0); [done|]. by case_bool_decide.
  - destruct (insert_agrees d (TForward f) r m Hr) as [He Hrep]. unfold spec_with.
    destruct (Registry.insert _ _ r) as [x r'] eqn:Hi. destruct (spec_insert _ _ m) as [y m'] eqn:Hm.
    cbn [fst snd] in He, Hrep. subst y. unfold spec_insert in Hm. rewrite Hd in Hm.
    destruct (d =? 0); [by injection Hm as <- <-|]. destruct x as [[]|err|]; (split; [done|exact Hrep]).
Qed.

Lemma update_agrees d f r m :
  represents r m -> agrees (registry_apply (OUpdate d f) r) (routes_apply (OUpdate d f) m).
Proof.
  intros Hr. cbn [registry_apply routes_apply]. unfold reply_with, Registry.update_forward.
  pose proof (find_spec r m d Hr) as Hf. destruct (Registry.find r d) as [i|i]; [|by rewrite Hf].
  destruct Hf as (t & Hi & -> & ->). destruct t as [e|g]; [done|]. split; [done|]. by eapply set_represents.
Qed.

Lemma pair_removal_agrees a b r m :
  represents r m -> agrees (registry_apply (ORemovePair a b) r) (routes_apply (ORemovePair a b) m).
Proof.
  intros Hr. cbn [registry_apply routes_apply]. unfold reply_with, Registry.remove_forward_pair.
  rewrite !(lookup_spec r m) by done. destruct (table m !! a) as [[|f]|]; [done| |done].
  destruct (table m !! b) as [[|g]|]; [done| |done].
  destruct (_ || _); [done|]. split; [done|]. by apply retain_represents.
Qed.

Lemma active_agrees d now r m : represents r m -> agrees (Registry.lease_active d now r) (spec_active d now m).
Proof.
  intros Hr. unfold Registry.lease_active, spec_active. pose proof (find_spec r m d Hr) as Hf.
  destruct (Registry.find r d) as [i|i]; [|by rewrite Hf]. destruct Hf as (t & Hi & -> & ->).
  destruct t as [e|f]; [done|]. destruct (_ <? _); [done|]. destruct (_ =? _); (split; [done|]).
  - by eapply delete_represents.
  - by apply retain_represents.
Qed.

Lemma refresh_agrees d now r m : represents r m -> agrees (Registry.refresh_lease d now r) (spec_refresh d now m).
Proof.
  intros Hr. unfold Registry.refresh_lease, spec_refresh. destruct (active_agrees d now r m Hr) as [He Hrep].
  destruct (Registry.lease_active d now r) as [b r']. destruct (spec_active d now m) as [b' m'].
  cbn [fst snd] in He, Hrep. subst b'. destruct b; [|done]. split; [done|]. cbn [snd].
  pose proof (find_spec r' m' d Hrep) as Hf. destruct (Registry.find r' d) as [i|i]; [|by rewrite Hf].
  destruct Hf as (t & Hi & -> & ->). destruct t as [e|f]; [done|]. cbv zeta. destruct (_ =? 0).
  - by eapply set_represents.
  - destruct (map_values_spec (entries r') (Registry.renew_group (lease_group_id f) (sat_add now (lease_duration_us f)))
      (rp_sorted _ _ Hrep)) as [Hs Ht].
    apply represents_table; [done|done|]. by rewrite <- (rp_table _ _ Hrep).
Qed.

Lemma consume_agrees d c now r m :
  represents r m -> agrees (registry_apply (OConsume d c now) r) (routes_apply (OConsume d c now) m).
Proof.
  intros Hr. cbn [registry_apply routes_apply]. unfold reply_with, Registry.consume_forward_quota.
  pose proof (find_spec r m d Hr) as Hf. destruct (Registry.find r d) as [i|i]; [|by rewrite Hf].
  destruct Hf as (t & Hi & -> & ->). destruct t as [e|f]; [done|].
  destruct (Registry.consume_rule c now f) as [ok f']. split; [done|]. by eapply set_represents.
Qed.

Lemma apply_agrees op r m : represents r m -> agrees (registry_apply op r) (routes_apply op m).
Proof.
  intros Hr. destruct op; eauto using idempotent_agrees, update_agrees, pair_removal_agrees, consume_agrees;
    cbn [registry_apply routes_apply]; unfold reply_with, spec_with.
  - split; [done|]. destruct Hr. by split.
  - by apply agrees_reply, insert_agrees.
  - unfold Registry.install_forward. destruct (negb _); [done|]. by apply agrees_reply, insert_agrees.
  - by apply agrees_reply, pair_agrees.
  - by apply agrees_reply, remove_agrees.
  - unfold Registry.remove_endpoint, removed_some.
    destruct (remove_agrees dcid (fun t => bool_decide (t = TEndpoint e)) r m Hr) as [He Hrep].
    destruct (Registry.remove_where _ _ _) as [o r']. split; [by rewrite <- He|done].
  - unfold Registry.remove_forward, removed_some. destruct (remove_agrees dcid Registry.is_forward r m Hr) as [He Hrep].
    destruct (Registry.remove_where _ _ _) as [o r']. split; [by rewrite <- He|done].
  - pose proof (retain_represents (Registry.lease_live now) r m Hr) as Hk. split; [|exact Hk].
    unfold Registry.expire_forward_leases. cbn [fst]. by rewrite (represents_zlen r m Hr), (represents_zlen _ _ Hk).
  - by apply agrees_reply, active_agrees.
  - by apply agrees_reply, refresh_agrees.
  - split; [|done]. unfold Registry.ingress. by rewrite (lookup_spec r m) by done.
  - split; [|done]. by rewrite (contains_spec r m) by done.
Qed.

(** ** Sequences *)
Fixpoint run {S A} (step : reg_op -> S -> A * S) (ops : list reg_op) (s : S) : list A * S :=
  match ops with
  | [] => ([], s)
  | op :: ops' => let '(a, s1) := step op s in let '(l, s2) := run step ops' s1 in (a :: l, s2)
  end.

(** C9: The registry refines a finite map.  On every sequence of registrations,
    updates, removals, expiries, renewals, quota charges and lookups, starting
    from an empty registry, the sorted vector with its binary search gives the
    replies of a map from connection identifiers to targets, errors included,
    and ends with the entries of the map, sorted. *)
Theorem registry_refines_map ops :
  let r := run registry_apply ops Registry.new in
  let m := run routes_apply ops (mkRoutes ∅ U64_MAX) in
  r.1 = m.1 /\ sorted_keys fst (entries r.2) /\ to_map (entries r.2) = table m.2.
Proof.
  assert (represents Registry.new (mkRoutes ∅ U64_MAX)) as Hr by (by split; [apply sorted_nil|..]).
  revert Hr. generalize (Registry.new (Endpoint:=Endpoint) (NextHop:=NextHop)) as r0, (mkRoutes ∅ U64_MAX) as m0.
  induction ops as [|op ops IH]; intros r m Hr; cbn [run].
  { destruct Hr. by split_and!. }
  destruct (apply_agrees op r m Hr) as [He Hrep]. destruct (registry_apply op r) as [a r1], (routes_apply op m) as [b m1].
  cbn [fst snd] in He, Hrep. subst b. specialize (IH r1 m1 Hrep).
  destruct (run registry_apply ops r1) as [l r2], (run routes_apply ops m1) as [k m2].
  destruct IH as (Hl & Hs & Ht). cbn [fst snd] in *. split_and!; [by rewrite Hl|done|done].
Qed.
End spec.
