(* ===== verification/RegistryLeases.v ===== *)
(** * Leases and quotas of forwarding rules

    Over the registry of [Registry.v], with the operations [PacketRouter] offers:
    two rules of one lease group expire, are renewed and disappear together; and
    a rule with a packet quota admits at most its quota in each window of its
    lease duration, of which the control reserve is never given to data. *)

From S2P Require Import Prelude Wire FlowControl SortedKeys Registry RegistrySpec.

(** ** Lease groups *)
Section leases.
Context `{Allocator} {Endpoint NextHop : Type} `{EqDecision Endpoint, EqDecision NextHop}.
Abbreviation registry := (DcidRegistry Endpoint NextHop).
Abbreviation target := (DcidTarget Endpoint NextHop).
Abbreviation rule := (ForwardRule NextHop).
Abbreviation op := (reg_op (Endpoint:=Endpoint) (NextHop:=NextHop)).

(** The operations of the router.  The other two are used by no production code
    and do not check the lease group. *)
Definition routed (o : op) : Prop :=
  match o with OIdempotent _ _ | OUpdate _ _ => False | _ => True end.

(** Two rules of one group. *)
Definition mates (f g : rule) : Prop := lease_group_id f = lease_group_id g /\ lease_group_id f <> 0.

Definition same_lease (f g : rule) : Prop :=
  lease_expires_at_us f = lease_expires_at_us g /\ lease_duration_us f = lease_duration_us g.

Definition paired (m : gmap Z target) : Prop :=
  forall a b f g, m !! a = Some (TForward f) -> m !! b = Some (TForward g) -> mates f g -> same_lease f g.

Lemma paired_subset m m' : m' ⊆ m -> paired m -> paired m'.
Proof. intros Hsub Hp a b f g Ha Hb. apply (Hp a b); by eapply lookup_weaken. Qed.

Lemma paired_filter (P : Z * target -> Prop) `{!forall x, Decision (P x)} m : paired m -> paired (filter P m).
Proof. apply paired_subset, map_filter_subseteq. Qed.

(** A rule of no group, or an endpoint, has no mates. *)
Lemma paired_single d t m :
  match t with TForward f => lease_group_id f = 0 | TEndpoint _ => True end -> paired m -> paired (<[d := t]> m).
Proof.
  intros Ht Hp a b f g Ha Hb [Hg Hnz].
  apply lookup_insert_Some in Ha as [[_ ->]|[_ Ha]]; [done|].
  apply lookup_insert_Some in Hb as [[_ ->]|[_ Hb]]; [congruence|]. by apply (Hp a b).
Qed.

(** Replacing a rule by one with the same lease and group. *)
Lemma paired_replace d f f' m :
  m !! d = Some (TForward f) -> lease_group_id f' = lease_group_id f -> same_lease f' f ->
  paired m -> paired (<[d := TForward f']> m).
Proof.
  intros Hd Hg [He Hl] Hp. assert (forall b g, m !! b = Some (TForward g) -> mates f g -> same_lease f g) as Hf
    by (intros b g; by apply (Hp d b)).
  intros a b x y Ha Hb [Hxy Hnz].
  apply lookup_insert_Some in Ha as [[_ [= <-]]|[_ Ha]]; apply lookup_insert_Some in Hb as [[_ [= <-]]|[_ Hb]].
  - done.
  - destruct (Hf b y Hb) as [H1' H2']; [split; congruence|]. split; congruence.
  - destruct (Hf a x Ha) as [H1' H2']; [split; congruence|]. split; congruence.
  - by apply (Hp a b).
Qed.

Lemma group_absent g (m : routes (Endpoint:=Endpoint) (NextHop:=NextHop)) b f :
  group_members g m = ∅ -> table m !! b = Some (TForward f) -> lease_group_id f <> g.
Proof.
  intros Hm Hb <-. assert (group_members (lease_group_id f) m !! b = Some (TForward f)) as Hl.
  { apply map_lookup_filter_Some. split; [done|]. apply Z.eqb_refl. }
  by rewrite Hm, lookup_empty in Hl.
Qed.

Lemma paired_pair a f b g (m : routes) :
  Registry.pair_invalid a f b g = false -> group_members (lease_group_id f) m = ∅ ->
  paired (table m) -> paired (<[a := TForward f]> (<[b := TForward g]> (table m))).
Proof.
  intros Hok Hempty Hp. unfold Registry.pair_invalid in Hok. rewrite !orb_false_iff, !negb_false_iff, !Z.eqb_eq in Hok.
  assert (lease_group_id f = lease_group_id g /\ same_lease f g) as [Hg Hl] by (unfold same_lease; tauto).
  assert (forall c x, table m !! c = Some (TForward x) -> lease_group_id x <> lease_group_id f) as Hno
    by (intros c x; by apply group_absent).
  destruct Hl as [Hl1 Hl2]. intros c d x y Hc Hd [Hxy Hnz].
  apply lookup_insert_Some in Hc as [[_ [= <-]]|[_ Hc]]; [|apply lookup_insert_Some in Hc as [[_ [= <-]]|[_ Hc]]];
    (apply lookup_insert_Some in Hd as [[_ [= <-]]|[_ Hd]]; [|apply lookup_insert_Some in Hd as [[_ [= <-]]|[_ Hd]]]);
    try done; try (by split; congruence); try (exfalso; eapply Hno; [eassumption|congruence]).
  by apply (Hp c d).
Qed.

Lemma renew_group_target g e (t : target) (f : rule) :
  Registry.renew_group g e t = TForward f ->
  exists f0, t = TForward f0 /\ lease_group_id f = lease_group_id f0 /\ lease_duration_us f = lease_duration_us f0 /\
    lease_expires_at_us f = if lease_group_id f0 =? g then e else lease_expires_at_us f0.
Proof.
  unfold Registry.renew_group. destruct t as [e0|f0]; simpl; [done|].
  destruct (lease_group_id f0 =? g) eqn:Hg; intros [= <-]; exists f0; by rewrite Hg.
Qed.

Lemma paired_renew g e (m : gmap Z target) : paired m -> paired (Registry.renew_group g e <$> m).
Proof.
  intros Hp a b f1 f2 Ha Hb [Hg Hnz]. apply lookup_fmap_Some in Ha as (t1 & Ht1 & Ha), Hb as (t2 & Ht2 & Hb).
  apply renew_group_target in Ht1 as (g1 & -> & Hg1 & Hd1 & He1), Ht2 as (g2 & -> & Hg2 & Hd2 & He2).
  destruct (Hp a b g1 g2 Ha Hb) as [He Hd]; [split; congruence|].
  rewrite <- Hg1, Hg in He1. rewrite <- Hg2 in He2. split; [|congruence]. rewrite He1, He2, He. done.
Qed.

Lemma paired_active d now (m : routes) : paired (table m) -> paired (table (spec_active d now m).2).
Proof.
  intros Hp. unfold spec_active. destruct (table m !! d) as [[|f]|]; [done| |done].
  destruct (_ <? _); [done|]. destruct (_ =? _); [|by apply paired_filter].
  eapply paired_subset; [apply delete_subseteq|done].
Qed.

Lemma paired_apply (o : op) (m : routes) : routed o -> paired (table m) -> paired (table (routes_apply o m).2).
Proof.
  intros Ho Hp. assert (forall d t, match t with TForward f => lease_group_id f = 0 | TEndpoint _ => True end ->
    paired (table (spec_insert d t m).2)) as Hins.
  { intros d t Ht. unfold spec_insert. destruct (d =? 0); [done|]. destruct (table m !! d); [done|].
    destruct (_ || _); [done|]. by apply paired_single. }
  assert (forall d p, paired (table (spec_remove_where d p m).2)) as Hrem.
  { intros d p. unfold spec_remove_where. destruct (table m !! d) as [t|]; [|done]. destruct (p t); [|done].
    eapply paired_subset; [apply delete_subseteq|done]. }
  destruct o; cbn [routes_apply]; unfold spec_with; try done; try apply Hrem; try by apply paired_filter.
  - by apply Hins.
  - destruct (Z.eqb_spec (lease_group_id f) 0) as [Hz|]; [|done]. by apply Hins.
  - unfold spec_pair. destruct (_ || _); [done|]. destruct (Registry.pair_invalid _ _ _ _) eqn:Hok; [done|].
    destruct (negb (bool_decide _)) eqn:Hg; [done|]. repeat (destruct (_ || _); [done|]).
    apply negb_false_iff, bool_decide_eq_true in Hg. by apply paired_pair.
  - destruct (table m !! first_cid) as [[|f]|]; [done| |done]. destruct (table m !! second_cid) as [[|g]|]; [done| |done].
    destruct (_ || _); [done|]. by apply paired_filter.
  - by apply paired_active.
  - unfold spec_refresh. pose proof (paired_active dcid now m Hp) as Ha. destruct (spec_active dcid now m) as [[] m']; [|done].
    cbn [snd fst] in *. destruct (table m' !! dcid) as [[|f]|] eqn:Hd; [done| |done]. cbv zeta.
    destruct (Z.eqb_spec (lease_group_id f) 0) as [Hz|]; [by apply paired_single|by apply paired_renew].
  - destruct (table m !! dcid) as [[|f]|] eqn:Hd; [done| |done].
    destruct (Registry.consume_rule control now f) as [ok f'] eqn:Hc. cbn [snd on_table table].
    assert (lease_group_id f' = lease_group_id f /\ same_lease f' f) as [Hg Hl].
    { unfold Registry.consume_rule, Registry.roll_window in Hc. cbv zeta in Hc.
      repeat case_match; simplify_eq; done. }
    by eapply paired_replace.
Qed.

(** *** On the registry *)
Definition reached (ops : list op) : registry := (run registry_apply ops Registry.new).2.

Lemma run_represents ops (r : registry) m :
  represents r m -> exists m', represents (run registry_apply ops r).2 m'.
Proof.
  revert r m. induction ops as [|o ops IH]; intros r m Hr; cbn [run]; [by exists m|].
  destruct (apply_agrees o r m Hr) as [_ Hrep]. destruct (registry_apply o r) as [a r1]. specialize (IH r1 _ Hrep).
  by destruct (run registry_apply ops r1).
Qed.

Lemma reached_represents ops : exists m, represents (reached ops) m.
Proof. apply (run_represents ops Registry.new (mkRoutes ∅ U64_MAX)). by split; [apply sorted_nil|..]. Qed.

Lemma reached_paired ops :
  Forall routed ops -> exists m : routes (Endpoint:=Endpoint) (NextHop:=NextHop), represents (reached ops) m /\ paired (table m).
Proof.
  intros Hops. unfold reached.
  assert (forall (r : registry) m, represents r m -> paired (table m) ->
    exists m' : routes (Endpoint:=Endpoint) (NextHop:=NextHop),
      represents (run registry_apply ops r).2 m' /\ paired (table m')) as Hrun.
  { induction Hops as [|o ops Ho _ IH]; intros r m Hr Hp; cbn [run]; [by exists m|].
    destruct (apply_agrees o r m Hr) as [_ Hrep]. pose proof (paired_apply o m Ho Hp) as Hp1.
    destruct (registry_apply o r) as [a r1]. specialize (IH r1 _ Hrep Hp1).
    by destruct (run registry_apply ops r1) as [l r2]. }
  apply (Hrun Registry.new (mkRoutes ∅ U64_MAX)); [by split; [apply sorted_nil|..]|].
  intros a b f g Ha. cbn [table] in Ha. by rewrite lookup_empty in Ha.
Qed.

(** Operations that remove no rule. *)
Definition only_adds (o : op) : Prop :=
  match o with
  | ORemove _ | ORemoveEndpoint _ _ | ORemoveForward _ | ORemovePair _ _ | OExpire _ | OActive _ _ | ORefresh _ _ => False
  | _ => True
  end.

(** A removal of the rule of [dcid] alone, by its identifier. *)
Definition removes_alone (dcid : Z) (o : op) : Prop := o = ORemove dcid \/ o = ORemoveForward dcid.

Lemma added_keep (o : op) (m : routes) b :
  only_adds o -> is_Some (table m !! b) -> is_Some (table (routes_apply o m).2 !! b).
Proof.
  intros Ho Hb. assert (forall d t, is_Some (table (on_table m (<[d := t]> (table m))) !! b)) as Hins.
  { intros d t. cbn [on_table table]. apply lookup_insert_is_Some. destruct (decide (d = b)); [by left|by right]. }
  assert (forall d t, is_Some (table (spec_insert d t m).2 !! b)) as Hinsert
    by (intros d t; unfold spec_insert; repeat case_match; try done; apply Hins).
  destruct o; try done; cbn [routes_apply]; unfold spec_with; try apply Hinsert;
    repeat first [done | apply Hinsert | apply Hins | case_match].
  unfold spec_pair. repeat case_match; try done. cbn [snd on_table table].
  apply lookup_insert_is_Some. destruct (decide (first_cid = b)); [by left|]. right. split; [done|].
  apply lookup_insert_is_Some. destruct (decide (second_cid = b)); [by left|by right].
Qed.

Ltac stays Hb := cbn [fst snd]; by rewrite Hb.

Lemma mates_keep (o : op) (m : routes) a b f g :
  ~ removes_alone b o -> paired (table m) -> mates f g ->
  table m !! a = Some (TForward f) -> table m !! b = Some (TForward g) ->
  is_Some (table (routes_apply o m).2 !! a) -> is_Some (table (routes_apply o m).2 !! b).
Proof.
  intros Ho Hp [Hg Hnz] Ha Hb. destruct (Hp a b f g Ha Hb) as [He Hd]; [done|].
  assert (forall p, (p (TForward f) = true -> p (TForward g) = true) ->
    is_Some (table (keep p m) !! a) -> is_Some (table (keep p m) !! b)) as Hkeep.
  { intros p Hpf [t Ht]. apply map_lookup_filter_Some in Ht as [Ht Hpt]. simpl in Hpt.
    rewrite Ha in Ht. injection Ht as <-. exists (TForward g). apply map_lookup_filter_Some. split; [done|]. by apply Hpf. }
  assert (forall k, is_Some (table (keep (fun t => negb (Registry.in_group k t)) m) !! a) ->
    is_Some (table (keep (fun t => negb (Registry.in_group k t)) m) !! b)) as Hgroup
    by (intros k; apply Hkeep; simpl; by rewrite Hg).
  assert (forall d now, is_Some (table (spec_active d now m).2 !! a) -> is_Some (table (spec_active d now m).2 !! b)) as Hact.
  { intros d now. unfold spec_active. destruct (table m !! d) as [[|x]|] eqn:Hx; [stays Hb|..].
    2:{ stays Hb. }
    destruct (_ <? _); [stays Hb|]. destruct (Z.eqb_spec (lease_group_id x) 0) as [Hz|Hz]; [|apply Hgroup].
    intros _. cbn [snd on_table table]. rewrite lookup_delete_ne; [stays Hb|]. intros ->. congruence. }
  assert (forall d p, (d = b -> p (TForward g) = false) -> is_Some (table (spec_remove_where d p m).2 !! b)) as Halone.
  { intros d p Hd'. unfold spec_remove_where. destruct (table m !! d) as [t|] eqn:Ht; [|stays Hb]. destruct (p t) eqn:Hpt; [|stays Hb].
    cbn [snd on_table table]. destruct (decide (d = b)) as [->|]; [|by rewrite lookup_delete_ne, Hb].
    rewrite Hb in Ht. injection Ht as <-. rewrite Hd' in Hpt; done. }
  destruct o; try (intros _; apply added_keep; [done|by rewrite Hb]); cbn [routes_apply]; unfold spec_with.
  - intros _. apply Halone. intros ->. destruct Ho. by left.
  - intros _. apply Halone. done.
  - intros _. apply Halone. intros ->. destruct Ho. by right.
  - destruct (table m !! first_cid) as [[|x]|]; [stays Hb| |stays Hb].
    destruct (table m !! second_cid) as [[|y]|]; [stays Hb| |stays Hb]. destruct (_ || _); [stays Hb|]. apply Hgroup.
  - apply Hkeep. simpl. by rewrite He.
  - apply Hact.
  - cbn [snd]. unfold spec_refresh. specialize (Hact dcid now). destruct (spec_active dcid now m) as [[] m']; [|exact Hact].
    cbn [snd] in *. destruct (table m' !! dcid) as [[|x]|] eqn:Hx; [exact Hact| |exact Hact]. cbv zeta.
    destruct (_ =? _); cbn [on_table table].
    + rewrite !lookup_insert_is_Some. intros [->|[Hne Hs]].
      * destruct (decide (a = b)); [by left|]. right. split; [done|]. apply Hact. by rewrite Hx.
      * destruct (decide (dcid = b)); [by left|]. right. split; [done|]. by apply Hact.
    + rewrite !lookup_fmap, !fmap_is_Some. exact Hact.
Qed.

(** C29: The two directions of a relayed path share one lease.  After any
    sequence of router operations, two rules of one lease group have the same
    expiry and duration; and whatever operation comes next, expiry, renewal and the
    removal of a pair included, either both rules stay or both go, unless it is a
    removal that names the identifier of one of them. *)
Theorem lease_groups_live_together ops a b f g :
  Forall routed ops ->
  Registry.lookup (reached ops) a = Some (TForward f) ->
  Registry.lookup (reached ops) b = Some (TForward g) ->
  mates f g ->
  same_lease f g /\
  forall o, ~ removes_alone a o -> ~ removes_alone b o ->
    Registry.contains (registry_apply o (reached ops)).2 a = Registry.contains (registry_apply o (reached ops)).2 b.
Proof.
  intros Hops. destruct (reached_paired ops Hops) as (m & Hr & Hp). rewrite !(lookup_spec _ m) by done.
  intros Ha Hb Hm. split; [by apply (Hp a b)|]. intros o Hoa Hob. destruct (apply_agrees o _ m Hr) as [_ Hrep].
  rewrite !(contains_spec _ _ _ Hrep). apply bool_decide_ext.
  assert (mates g f) as Hm' by (destruct Hm; split; congruence).
  split; [by apply (mates_keep o m a b f g)|by apply (mates_keep o m b a g f)].
Qed.
End leases.

(** ** Packet quotas *)
Section quota.
Context `{Allocator} {Endpoint NextHop : Type} `{EqDecision Endpoint, EqDecision NextHop}.
Abbreviation registry := (DcidRegistry Endpoint NextHop).
Abbreviation target := (DcidTarget Endpoint NextHop).
Abbreviation rule := (ForwardRule NextHop).

(** A packet offered for forwarding: its connection identifier, whether it is
    control, and when. *)
Record offer : Type := mkOffer { of_dcid : Z; of_control : bool; of_time : Z }.

(** The offers the registry admits, in order. *)
Fixpoint admitted (offers : list offer) (r : registry) : list offer :=
  match offers with
  | [] => []
  | o :: offers' =>
      let '(ok, r') := Registry.consume_forward_quota (of_dcid o) (of_control o) (of_time o) r in
      if ok then o :: admitted offers' r' else admitted offers' r'
  end.

(** The clock of the offers does not go back. *)
Fixpoint clock_from (t : Z) (offers : list offer) : Prop :=
  match offers with
  | [] => True
  | o :: offers' => t <= of_time o <= U64_MAX /\ clock_from (of_time o) offers'
  end.

(** Window [k] of a rule counted from [start]. *)
Definition in_window (d start window k : Z) (o : offer) : bool :=
  (of_dcid o =? d) && ((of_time o - start) / window =? k).
Definition data_offer (o : offer) : bool := negb (of_control o).
Definition count (p : offer -> bool) (l : list offer) : Z := zlen (List.filter p l).

Lemma count_cons p o l : count p (o :: l) = (if p o then 1 else 0) + count p l.
Proof. unfold count. simpl. destruct (p o); rewrite ?zlen_cons; lia. Qed.

Definition window_of (f : rule) : Z := Z.max (lease_duration_us f) 1.
Definition data_quota (f : rule) : Z := sat_sub (packet_quota f) (Registry.control_reserve (packet_quota f)).

(** The meter of rule [f] is in window [j] counted from [start], with [n] packets admitted there. *)
Record metered (f : rule) (start j n : Z) : Prop := {
  mt_start : quota_window_started_us f = start + j * window_of f;
  mt_count : forwarded_packets f = n;
}.

Lemma rolled f start j n now :
  0 <= start -> 0 <= j -> 0 <= n -> metered f start j n -> start + j * window_of f <= now <= U64_MAX ->
  let j' := (now - start) / window_of f in
  j <= j' /\ start + j' * window_of f <= now /\
  metered (Registry.roll_window now f) start j' (if j' =? j then n else 0) /\
  packet_quota (Registry.roll_window now f) = packet_quota f /\
  window_of (Registry.roll_window now f) = window_of f.
Proof.
  intros Hs Hj Hn [Hst Hc] Hnow j'. assert (0 < window_of f) as Hw by (unfold window_of; lia).
  assert (j <= j') as Hle by (apply Z.div_le_lower_bound; nia).
  assert (start + j' * window_of f <= now) as Hj' by (pose proof (Z.mul_div_le (now - start) (window_of f)); subst j'; nia).
  assert (now < start + (j' + 1) * window_of f) as Hend
    by (pose proof (Z.mul_succ_div_gt (now - start) (window_of f)); subst j'; nia).
  assert ((now - quota_window_started_us f) / window_of f = j' - j) as Hel.
  { rewrite Hst. replace (now - (start + j * window_of f)) with (now - start + (- j) * window_of f) by ring.
    rewrite Z.div_add by lia. subst j'. lia. }
  assert (sat_sub now (quota_window_started_us f) = now - quota_window_started_us f) as Hsub by (unfold sat_sub; lia).
  split; [done|]. split; [done|]. unfold Registry.roll_window. cbv zeta. fold (window_of f). rewrite Hsub, Hel.
  destruct (Z.leb_spec (window_of f) (now - quota_window_started_us f)) as [Hroll|Hin].
  - assert (j < j') by nia. destruct (Z.eqb_spec j' j); [lia|]. split; [|done].
    split; [|done]. cbn [with_quota quota_window_started_us]. unfold sat_add, sat_mul, with_quota, window_of in *.
    cbn [lease_duration_us]. rewrite Hst. assert (0 <= j' - j) by lia. nia.
  - assert (j' = j) as -> by nia. rewrite Z.eqb_refl. split; [by split|done].
Qed.

(** One offer to a metered rule. *)
Lemma consumed control now f start j n d ok f' :
  0 <= start -> 0 <= j -> 0 <= d <= n -> n <= packet_quota f <= U64_MAX -> 0 < packet_quota f ->
  d <= data_quota f -> metered f start j n -> start + j * window_of f <= now <= U64_MAX ->
  Registry.consume_rule control now f = (ok, f') ->
  let j' := (now - start) / window_of f in
  let n' := (if j' =? j then n else 0) + (if ok then 1 else 0) in
  let d' := (if j' =? j then d else 0) + (if ok && negb control then 1 else 0) in
  j <= j' /\ start + j' * window_of f <= now /\ metered f' start j' n' /\
  packet_quota f' = packet_quota f /\ window_of f' = window_of f /\
  0 <= d' <= n' /\ n' <= packet_quota f /\ d' <= data_quota f.
Proof.
  intros Hs Hj Hd Hn Hq Hdq Hm Hnow. destruct (rolled f start j n now) as (Hle & Hst & Hr & Hpq & Hw); [lia..|done|done|].
  cbv zeta. set (j' := (now - start) / window_of f) in *. set (n0 := if j' =? j then n else 0) in *.
  set (d0 := if j' =? j then d else 0). assert (0 <= d0 <= n0 /\ n0 <= packet_quota f /\ d0 <= data_quota f) as (Hd0 & Hn0 & Hq0).
  { subst n0 d0. unfold data_quota, sat_sub in *. destruct (j' =? j); lia. }
  clearbody n0 d0. unfold Registry.consume_rule. cbv zeta. destruct (Z.eqb_spec (packet_quota f) 0); [lia|].
  rewrite Hpq. destruct Hr as [Hr1 Hr2]. rewrite Hr2. fold (data_quota f).
  destruct (Z.leb_spec (packet_quota f) n0) as [Hfull|Hroom].
  { intros [= <- <-]. rewrite Z.add_0_r. cbn [andb]. rewrite Z.add_0_r. split_and!; try done; try lia. }
  destruct (negb control && (data_quota f <=? n0)) eqn:Hdata; intros [= <- <-].
  { cbn [andb]. rewrite !Z.add_0_r. split_and!; try done; try lia. }
  cbn [andb]. split_and!; try done; try (destruct control; cbn [negb andb] in *; lia).
  - split; [exact Hr1|]. unfold with_quota, sat_add. cbn [forwarded_packets]. apply Z.min_l. lia.
Qed.

(** The state of a registry in which connection identifier [d] is metered. *)
Definition meters (r : registry) (d start window quota reserve j n data : Z) : Prop :=
  exists f, Registry.lookup r d = Some (TForward f) /\ metered f start j n /\ window_of f = window /\
    packet_quota f = quota /\ data_quota f = reserve /\ 0 <= j /\ 0 <= data <= n /\ n <= quota /\ data <= reserve.

Lemma consume_keeps (r : registry) m d c t :
  represents r m ->
  exists ok r' m', Registry.consume_forward_quota d c t r = (ok, r') /\ represents r' m' /\
    (forall d', d <> d' -> Registry.lookup r' d' = Registry.lookup r d') /\
    (forall f, Registry.lookup r d = Some (TForward f) ->
      exists f', Registry.consume_rule c t f = (ok, f') /\ Registry.lookup r' d = Some (TForward f')).
Proof.
  intros Hr. destruct (consume_agrees d c t r m Hr) as [Hok Hrep]. cbn [registry_apply] in *. unfold reply_with in *.
  destruct (Registry.consume_forward_quota d c t r) as [ok r']. cbn [fst snd] in Hok, Hrep.
  exists ok, r', (routes_apply (OConsume d c t) m).2.
  split; [done|]. split; [done|]. cbn [routes_apply] in *. split.
  - intros d' Hne. rewrite (lookup_spec r' _ d' Hrep), (lookup_spec r m d' Hr).
    destruct (table m !! d) as [[|f]|]; [done| |done]. destruct (Registry.consume_rule c t f).
    cbn [snd on_table table]. by rewrite lookup_insert_ne.
  - intros f. rewrite (lookup_spec r' _ d Hrep), (lookup_spec r m d Hr). intros Hd. rewrite Hd in *.
    destruct (Registry.consume_rule c t f) as [ok' f']. exists f'. injection Hok as ->. split; [done|].
    cbn [snd on_table table]. by rewrite lookup_insert_eq.
Qed.

Lemma admitted_bounded offers (r : registry) m d start window quota reserve t j n data k :
  represents r m -> 0 <= start -> 0 < quota <= U64_MAX ->
  meters r d start window quota reserve j n data -> start + j * window <= t -> clock_from t offers ->
  let c := count (in_window d start window k) (admitted offers r) in
  let cd := count (fun o => data_offer o && in_window d start window k o) (admitted offers r) in
  c + (if k =? j then n else 0) <= quota /\ cd + (if k =? j then data else 0) <= reserve /\ (k < j -> c = 0 /\ cd = 0).
Proof.
  intros Hr Hs Hq. revert r m Hr t j n data. induction offers as [|o offers IH]; intros r m Hr t j n data Hm Ht Hclk.
  { destruct Hm as (f & _ & _ & _ & _ & _ & _ & Hd & Hn & Hdr).
    unfold count, zlen. cbn [admitted List.filter length]. destruct (k =? j); lia. }
  destruct Hclk as [Hnow Hclk]. cbn [admitted].
  destruct (consume_keeps r m (of_dcid o) (of_control o) (of_time o) Hr) as (ok & r' & m' & -> & Hr' & Hother & Hsame).
  destruct Hm as (f & Hf & Hm & Hw & Hpq & Hdq & Hj & Hd & Hn & Hres).
  destruct (Z.eqb_spec (of_dcid o) d) as [Heq|Hne].
  - rewrite Heq in Hsame. destruct (Hsame f Hf) as (f' & Hc & Hf').
    destruct (consumed (of_control o) (of_time o) f start j n data ok f') as (Hle & Hst & Hm' & Hpq' & Hw' & Hd' & Hn' & Hres');
      [done..|lia|lia|lia|lia|done|rewrite Hw; lia|done|]. cbv zeta in *. rewrite Hw in *.
    set (j' := (of_time o - start) / window) in *.
    assert (meters r' d start window quota reserve j' ((if j' =? j then n else 0) + (if ok then 1 else 0))
      ((if j' =? j then data else 0) + (if ok && negb (of_control o) then 1 else 0))) as Hnext.
    { exists f'. unfold data_quota in *. rewrite Hpq', Hw', Hdq, Hpq in *. split_and!; try done; lia. }
    destruct (IH r' m' Hr' (of_time o) _ _ _ Hnext Hst Hclk) as (Hc1 & Hc2 & Hc3).
    assert (in_window d start window k o = (j' =? k)) as Hin by (unfold in_window; by rewrite Heq, Z.eqb_refl).
    destruct ok; rewrite ?count_cons, ?Hin; change (data_offer o) with (negb (of_control o)); clearbody j'; cbn [andb negb] in *;
      destruct (Z.eqb_spec k j), (Z.eqb_spec k j'), (Z.eqb_spec j' k), (Z.eqb_spec j' j); subst; try lia;
      destruct (of_control o); cbn [andb negb] in *; try lia.
  - assert (meters r' d start window quota reserve j n data) as Hnext.
    { exists f. rewrite Hother by done. split_and!; done || lia. }
    destruct (IH r' m' Hr' (of_time o) j n data Hnext) as (Hc1 & Hc2 & Hc3); [lia|done|].
    assert (in_window d start window k o = false) as Hin by (unfold in_window; by destruct (Z.eqb_spec (of_dcid o) d)).
    destruct ok; rewrite ?count_cons, ?Hin, ?andb_false_r; lia.
Qed.

(** A forwarding rule with a packet quota meters its traffic.  Installed by
    any sequence of operations and then offered any packets on a clock that does
    not go back, interleaved with packets of other rules, it admits in each
    window of its lease duration at most its quota, and at most the quota less
    the control reserve of data packets. *)
Theorem forward_quota_bounded ops d (f : rule) offers k :
  Registry.lookup (reached ops) d = Some (TForward f) ->
  0 < packet_quota f <= U64_MAX -> 0 <= quota_window_started_us f ->
  forwarded_packets f = 0 -> clock_from (quota_window_started_us f) offers ->
  let window := in_window d (quota_window_started_us f) (Z.max (lease_duration_us f) 1) k in
  count window (admitted offers (reached ops)) <= packet_quota f /\
  count (fun o => data_offer o && window o) (admitted offers (reached ops))
    <= packet_quota f - Z.max (packet_quota f / 16) 1.
Proof.
  intros Hf Hq Hs Hn Hclk. destruct (reached_represents ops) as (m & Hr).
  assert (packet_quota f / 16 <= packet_quota f) by (apply Z.div_le_upper_bound; lia).
  assert (data_quota f = packet_quota f - Z.max (packet_quota f / 16) 1) as Hd
    by (unfold data_quota, Registry.control_reserve, sat_sub; lia).
  destruct (admitted_bounded offers (reached ops) m d (quota_window_started_us f) (window_of f) (packet_quota f)
    (data_quota f) (quota_window_started_us f) 0 0 0 k) as (Hc1 & Hc2 & _); [done..| |lia|done|].
  { exists f. split_and!; try done; try lia. split; lia. }
  cbv zeta. fold (window_of f). destruct (k =? 0); lia.
Qed.
End quota.

(** ** Examples *)
Section examples.
#[local] Instance roomy : Allocator := {| try_reserve := fun _ => true |}.

Definition direction (hop : Z) : ForwardRule Z := mkForwardRule hop (Connection 9) 100 100 7 32 0 0 0.
Definition path_ops : list (reg_op (Endpoint:=Z) (NextHop:=Z)) :=
  [OEndpoint 50 1; OPair 60 (direction 2) 20 (direction 3); ORefresh 20 40].

Lemma lease_groups_live_together_witness :
  lease_expires_at_us (with_lease 140 (direction 2)) = 140 /\
  Registry.contains (registry_apply (OExpire 140) (reached path_ops)).2 60
  = Registry.contains (registry_apply (OExpire 140) (reached path_ops)).2 20.
Proof.
  split; [done|].
  apply (lease_groups_live_together path_ops 60 20 (with_lease 140 (direction 2)) (with_lease 140 (direction 3)));
    [|by vm_compute|by vm_compute|done|by intros [|]|by intros [|]].
  by repeat constructor.
Defined.

Definition burst : list offer := (fun i => mkOffer 60 false (Z.of_nat i)) <$> seq 1 40.

Lemma forward_quota_bounded_witness :
  count (fun o => data_offer o && in_window 60 0 100 0 o) (admitted burst (reached path_ops)) <= 30 /\
  count data_offer (admitted burst (reached path_ops)) = 30.
Proof.
  split; [|by vm_compute].
  apply (forward_quota_bounded path_ops 60 (with_lease 140 (direction 2)) burst 0);
    [by vm_compute|by vm_compute; split|done|done|by vm_compute; split_and!].
Defined.
End examples.
