(* ===== verification/SetupCodec.v ===== *)
(** * Relay setup messages: data and codecs

    The bodies of PATH_OPEN and PATH_OPEN_ACK packets of
    [src/crates/quic-lite/src/relay.rs]: hop instructions, endpoint payloads,
    the request with its versioned blocks, the view a relay decodes and
    re-encodes for the next hop, and the reply with the relay identifiers that
    hops prepend on its way back.  Encoders are writers and decoders are cursor
    readers; the theorems are in [SetupCodecSpec.v]. *)

From S2P Require Import Prelude Wire PacketHeader AckRanges Reader FlowControl.

Definition SETUP_VERSION : Z := 1.
Definition SETUP_REQUEST_VERSION : Z := 2.
Definition MAX_SETUP_BLOCKS : Z := 8.
Definition MAX_SETUP_BLOCK_BYTES : Z := 256.
Definition MAX_SETUP_BODY_BYTES : Z := DEFAULT_MAX_PACKET_SIZE - 64.
Definition DEFAULT_SETUP_REPLY_BYTES : Z := 256.
Definition SETUP_BLOCK_RELAY : Z := 1.
Definition SETUP_BLOCK_ENDPOINT : Z := 2.
Definition MAX_SETUP_BOOTSTRAP_ACK_BYTES : Z := 128.
Definition MAX_SETUP_HOP_ADDRESS_BYTES : Z := 18.
Definition MAX_NEARBY_RETURN_RELAYS : Z := 3.

(** ** Cursor primitives *)
Definition put_setup_byte (value : Z) : writer Error.t := fun cap =>
  if cap <=? 0 then Err Error.BufferTooSmall else Ok [value].

Definition take_setup_byte : reader Z := fun input p =>
  match get_ix input p with Some b => Ok (b, p + 1) | None => Err Error.Invalid end.

(** [cid.encode(&mut output\[pos..\])], and its decoding at the cursor. *)
Definition put_raw_cid (c : Z) : writer Error.t := ConnectionId.encode c.
Definition rd_raw_cid : reader Z := fun input p =>
  s ← slice_from input p;
  '(c, used) ← ConnectionId.decode s;
  Ok (c, p + used).

(** [&input\[pos..pos + n\]; pos += n] *)
Definition rd_slice (n : Z) : reader bytes := fun input p => s ← slice input p (p + n); Ok (s, p + n).

(** [input.len().saturating_sub(pos)] and [pos == input.len()]. *)
Definition rd_left : reader Z := fun input p => Ok (sat_sub (zlen input) p, p).
Definition rd_at_end : reader bool := fun input p => Ok (p =? zlen input, p).

(** [usize::try_from(v).map_err(|_| Error::Invalid)?] *)
Definition rd_usize (v : Z) : reader Z := lift (ok_or (usize_try_from v) Error.Invalid).

(** [if pos > max { return Err(e) }] after writing. *)
Definition wlimit (max : Z) (e : Error.t) (w : writer Error.t) : writer Error.t := fun cap =>
  b ← w cap; if max <? zlen b then Err e else Ok b.

(** [\[0; n\]] with [s] copied to its front. *)
Definition padded (n : Z) (s : bytes) : bytes := s ++ replicate (Z.to_nat n - length s) 0.

(** ** Hop instructions *)
Record SetupHopInstruction : Type := mkSetupHopInstruction {
  si_address_kind : Z;
  si_address_len : Z;
  si_address : bytes;
  si_lease_us : Z;
  si_packet_quota : Z;
}.
#[export] Instance SetupHopInstruction_eq_dec : EqDecision SetupHopInstruction.
Proof. solve_decision. Defined.

Module Hop.
Definition encode (h : SetupHopInstruction) : writer Error.t := fun cap =>
  if (si_address_kind h =? 0) || (si_address_len h =? 0) || (MAX_SETUP_HOP_ADDRESS_BYTES <? si_address_len h)
     || (si_lease_us h =? 0) || (si_packet_quota h =? 0)
  then Err Error.Invalid else
  wlimit MAX_SETUP_BLOCK_BYTES Error.Invalid
    (put_setup_byte (si_address_kind h) ;;; put_setup_byte (si_address_len h)
     ;;; put_bytes (take (Z.to_nat (si_address_len h)) (si_address h))
     ;;; put_varint (si_lease_us h) ;;; put_varint (si_packet_quota h)) cap.

Definition read : reader SetupHopInstruction :=
  kind ← take_setup_byte;
  len ← take_setup_byte;
  left ← rd_left;
  _ ← refuse ((kind =? 0) || (len =? 0) || (MAX_SETUP_HOP_ADDRESS_BYTES <? len) || (left <? len)) Error.Invalid;
  addr ← rd_slice len;
  lease ← rd_varint;
  quota ← rd_varint;
  done ← rd_at_end;
  _ ← refuse ((lease =? 0) || (quota =? 0) || negb done) Error.Invalid;
  mret (mkSetupHopInstruction kind len (padded MAX_SETUP_HOP_ADDRESS_BYTES addr) lease quota).

Definition decode (input : bytes) : res SetupHopInstruction := fst <$> run_reader read input.
End Hop.

(** ** Endpoint payloads *)
Record SetupJoinEndpoint : Type := mkSetupJoinEndpoint { join_cid : Z; opener_receive_cid : Z }.

Module Join.
Definition encode (j : SetupJoinEndpoint) : writer Error.t := fun cap =>
  if (join_cid j =? 0) || (opener_receive_cid j =? 0) then Err Error.Invalid
  else (put_raw_cid (join_cid j) ;;; put_raw_cid (opener_receive_cid j)) cap.

Definition read : reader SetupJoinEndpoint :=
  j ← rd_raw_cid;
  o ← rd_raw_cid;
  done ← rd_at_end;
  _ ← refuse ((j =? 0) || (o =? 0) || negb done) Error.Invalid;
  mret (mkSetupJoinEndpoint j o).

Definition decode (input : bytes) : res SetupJoinEndpoint := fst <$> run_reader read input.
End Join.

(** [RelayHop] of [node.rs]: the application's form of a hop instruction. *)
Record RelayHop : Type := mkRelayHop {
  rh_address_kind : Z;
  rh_address_len : Z;
  rh_address : bytes;
  rh_lease_us : Z;
  rh_packet_quota : Z;
}.
Definition instruction_of (h : RelayHop) : SetupHopInstruction :=
  mkSetupHopInstruction (rh_address_kind h) (rh_address_len h) (rh_address h) (rh_lease_us h) (rh_packet_quota h).
Definition hop_of (i : SetupHopInstruction) : RelayHop :=
  mkRelayHop (si_address_kind i) (si_address_len i) (si_address i) (si_lease_us i) (si_packet_quota i).

Definition relay_hop_new (kind : Z) (addr : bytes) (lease quota : Z) : res RelayHop :=
  if bool_decide (addr = []) || (MAX_SETUP_HOP_ADDRESS_BYTES <? zlen addr) then Err Error.Invalid
  else Ok (mkRelayHop kind (as_u8 (zlen addr)) (padded MAX_SETUP_HOP_ADDRESS_BYTES addr) lease quota).

Record NearbyRelayHint : Type := mkNearbyRelayHint { relay_id : bytes; hop : RelayHop }.
Record NearbyRelayHints : Type := mkNearbyRelayHints { nh_len : Z; nh_entries : list (option NearbyRelayHint) }.

Module Hints.
Definition EMPTY : NearbyRelayHints := mkNearbyRelayHints 0 (replicate (Z.to_nat MAX_NEARBY_RETURN_RELAYS) None).

(** The loop of [new]: every identifier is non-zero and differs from the ones before. *)
Fixpoint unique_ids (before hints : list NearbyRelayHint) : bool :=
  match hints with
  | [] => true
  | h :: hints' =>
      negb (bool_decide (relay_id h = replicate 8 0))
      && negb (existsb (fun x => bool_decide (relay_id x = relay_id h)) before)
      && unique_ids (before ++ [h]) hints'
  end.

Definition new (hints : list NearbyRelayHint) : option NearbyRelayHints :=
  if MAX_NEARBY_RETURN_RELAYS <? zlen hints then None else
  if unique_ids [] hints
  then Some (mkNearbyRelayHints (as_u8 (zlen hints))
         ((Some <$> hints) ++ replicate (Z.to_nat MAX_NEARBY_RETURN_RELAYS - length hints) None))
  else None.

Definition len (h : NearbyRelayHints) : Z := nh_len h.
Definition is_empty (h : NearbyRelayHints) : bool := nh_len h =? 0.

(** [self.entries\[..self.len()\].iter().flatten()] *)
Definition iter (h : NearbyRelayHints) : list NearbyRelayHint :=
  omap id (take (Z.to_nat (nh_len h)) (nh_entries h)).
End Hints.

Record SetupCreateEndpoint : Type := mkSetupCreateEndpoint {
  initial_packet : bytes;
  return_hints : NearbyRelayHints;
}.

Module Create.
(** The initial packet and the count after it share one room check. *)
Definition put_initial (s : bytes) (count : Z) : writer Error.t := fun cap =>
  if cap <? sat_add (zlen s) 1 then Err Error.BufferTooSmall else Ok (s ++ [count]).

Definition put_hint (h : NearbyRelayHint) : writer Error.t :=
  put_bytes (relay_id h) ;;; fun cap =>
    encoded ← Hop.encode (instruction_of (hop h)) MAX_SETUP_BLOCK_BYTES;
    (put_varint (zlen encoded) ;;; put_bytes encoded) cap.

Fixpoint put_hints (l : list NearbyRelayHint) : writer Error.t :=
  match l with
  | [] => wnil
  | h :: l' => put_hint h ;;; put_hints l'
  end.

Definition encode (c : SetupCreateEndpoint) : writer Error.t := fun cap =>
  if bool_decide (initial_packet c = []) || (MAX_NEARBY_RETURN_RELAYS <? Hints.len (return_hints c))
  then Err Error.Invalid else
  wlimit MAX_SETUP_BLOCK_BYTES Error.BufferTooSmall
    (put_varint (zlen (initial_packet c))
     ;;; put_initial (initial_packet c) (as_u8 (Hints.len (return_hints c)))
     ;;; put_hints (Hints.iter (return_hints c))) cap.

Definition rd_initial (n : Z) : reader bytes := fun input p =>
  end_ ← ok_or (checked_add p n) Error.Invalid;
  if (n =? 0) || (zlen input <=? end_) then Err Error.Invalid else
  s ← slice input p end_;
  Ok (s, end_).

Definition rd_hint : reader NearbyRelayHint :=
  id ← rd_bytes 8 Error.Truncated;
  n ← rd_varint;
  n ← rd_usize n;
  encoded ← rd_bytes n Error.Truncated;
  instruction ← lift (Hop.decode encoded);
  mret (mkNearbyRelayHint id (hop_of instruction)).

Fixpoint rd_hints (n : nat) : reader (list NearbyRelayHint) :=
  match n with
  | O => mret []
  | S n' => h ← rd_hint; l ← rd_hints n'; mret (h :: l)
  end.

Definition read : reader (bytes * NearbyRelayHints) :=
  n ← rd_varint;
  n ← rd_usize n;
  initial ← rd_initial n;
  count ← take_setup_byte;
  _ ← refuse (MAX_NEARBY_RETURN_RELAYS <? count) Error.Invalid;
  hints ← rd_hints (Z.to_nat count);
  done ← rd_at_end;
  _ ← refuse (negb done) Error.Invalid;
  hints ← lift (ok_or (Hints.new hints) Error.Invalid);
  mret (initial, hints).

Definition decode (payload : bytes) (block_version : Z) : res (bytes * NearbyRelayHints) :=
  if block_version =? 1 then Ok (payload, Hints.EMPTY) else
  if negb (block_version =? 2) then Err Error.Invalid else
  fst <$> run_reader read payload.
End Create.

(** ** Requests *)
Inductive SetupMode : Type := SetupCreate | SetupJoin.
Inductive RelayRouteMode : Type := Layered | VipRouted | Telescoping.
#[export] Instance RelayRouteMode_eq_dec : EqDecision RelayRouteMode.
Proof. solve_decision. Defined.

Record SetupCircuitKey : Type := mkSetupCircuitKey { opener_role : Role; sequence : Z }.
#[export] Instance SetupCircuitKey_eq_dec : EqDecision SetupCircuitKey.
Proof. solve_decision. Defined.

Record SetupBlock : Type := mkSetupBlock {
  sb_kind : Z;
  sb_version : Z;
  sb_protection : Z;
  sb_payload : bytes;
}.

Record SetupRequest : Type := mkSetupRequest {
  sr_transaction_id : Z;
  sr_mode : SetupMode;
  sr_route_mode : RelayRouteMode;
  sr_circuit : SetupCircuitKey;
  destination_vip : option Z;
  previous_reverse_cid : option Z;
  sr_blocks : list SetupBlock;
}.

Record SetupBlockBytes : Type := mkSetupBlockBytes { bb_bytes : bytes; bb_count : Z }.

Record SetupRequestView : Type := mkSetupRequestView {
  v_version : Z;
  v_transaction_id : Z;
  v_mode : SetupMode;
  v_route_mode : RelayRouteMode;
  v_circuit : SetupCircuitKey;
  v_destination_vip : option Z;
  v_previous_reverse_cid : option Z;
  v_blocks : SetupBlockBytes;
  v_raw : bytes;
}.

(** The fields every request body starts with. *)
Definition put_mode (m : SetupMode) : writer Error.t :=
  put_setup_byte (match m with SetupCreate => 0 | SetupJoin => 1 end).
Definition put_route_mode (m : RelayRouteMode) : writer Error.t :=
  put_setup_byte (match m with Layered => 0 | VipRouted => 1 | Telescoping => 2 end).
Definition put_opener (r : Role) : writer Error.t :=
  put_setup_byte (match r with Client => 0 | Server => 1 end).
Definition put_vip (vip : option Z) : writer Error.t :=
  match vip with
  | Some v => put_setup_byte 1 ;;; put_bytes (be_bytes 8 v)
  | None => put_setup_byte 0
  end.
Definition put_reverse_cid (cid : option Z) : writer Error.t :=
  match cid with
  | Some c => put_setup_byte 1 ;;; put_raw_cid c
  | None => put_setup_byte 0
  end.

Module Request.
Definition block_invalid (b : SetupBlock) : bool :=
  (sb_kind b =? 0) || (sb_version b =? 0) || negb (sb_protection b =? 0)
  || bool_decide (sb_payload b = []) || (MAX_SETUP_BLOCK_BYTES <? zlen (sb_payload b)).

Definition invalid (r : SetupRequest) : bool :=
  (sr_transaction_id r =? 0) || (sequence (sr_circuit r) =? 0)
  || bool_decide (sr_blocks r = []) || (MAX_SETUP_BLOCKS <? zlen (sr_blocks r))
  || bool_decide (destination_vip r = Some 0) || bool_decide (previous_reverse_cid r = Some 0)
  || existsb block_invalid (sr_blocks r).

Definition put_block (b : SetupBlock) : writer Error.t :=
  put_setup_byte (sb_kind b) ;;; put_setup_byte (sb_version b) ;;; put_setup_byte (sb_protection b)
  ;;; put_varint (zlen (sb_payload b)) ;;; put_bytes (sb_payload b).

(** [pos] bytes are written before the blocks; the body is checked after each. *)
Fixpoint put_blocks (pos : Z) (l : list SetupBlock) : writer Error.t := fun cap =>
  match l with
  | [] => Ok []
  | b :: l' =>
      s ← put_block b cap;
      let pos := pos + zlen s in
      if MAX_SETUP_BODY_BYTES <? pos then Err Error.Invalid else
      s' ← put_blocks pos l' (cap - zlen s);
      Ok (s ++ s')
  end.

Definition put_head (r : SetupRequest) : writer Error.t :=
  put_setup_byte SETUP_REQUEST_VERSION ;;; put_varint (sr_transaction_id r)
  ;;; put_mode (sr_mode r) ;;; put_route_mode (sr_route_mode r)
  ;;; put_opener (opener_role (sr_circuit r)) ;;; put_varint (sequence (sr_circuit r))
  ;;; put_vip (destination_vip r) ;;; put_reverse_cid (previous_reverse_cid r)
  ;;; put_varint (zlen (sr_blocks r)).

Definition encode (r : SetupRequest) : writer Error.t := fun cap =>
  if invalid r then Err Error.Invalid else
  head ← put_head r cap;
  blocks ← put_blocks (zlen head) (sr_blocks r) (cap - zlen head);
  Ok (head ++ blocks).

Definition encode_packet (r : SetupRequest) (cap : Z) : res bytes :=
  body ← encode r MAX_SETUP_BODY_BYTES;
  encode_long_packet LONG_PACKET_PATH_OPEN None None 0 1 body cap.

Definition rd_mode : reader SetupMode :=
  b ← take_setup_byte;
  lift (if b =? 0 then Ok SetupCreate else if b =? 1 then Ok SetupJoin else Err Error.Invalid).

Definition rd_route_mode (version : Z) : reader RelayRouteMode :=
  if version =? SETUP_VERSION then mret Layered else
  b ← take_setup_byte;
  lift (if b =? 0 then Ok Layered else if b =? 1 then Ok VipRouted
        else if b =? 2 then Ok Telescoping else Err Error.Invalid).

Definition rd_opener : reader Role :=
  b ← take_setup_byte;
  lift (if b =? 0 then Ok Client else if b =? 1 then Ok Server else Err Error.Invalid).

Definition rd_vip : reader (option Z) :=
  b ← take_setup_byte;
  if b =? 0 then mret None else
  if negb (b =? 1) then lift (Err Error.Invalid) else
  left ← rd_left;
  _ ← refuse (left <? 8) Error.Invalid;
  s ← rd_slice 8;
  _ ← refuse (be_val s =? 0) Error.Invalid;
  mret (Some (be_val s)).

Definition rd_reverse_cid : reader (option Z) :=
  b ← take_setup_byte;
  if b =? 0 then mret None else
  if negb (b =? 1) then lift (Err Error.Invalid) else
  c ← rd_raw_cid;
  _ ← refuse (c =? 0) Error.Invalid;
  mret (Some c).

Definition rd_skip (n : Z) : reader unit := fun _ p => Ok (tt, p + n).

(** One turn of the loop over the blocks: the payload is skipped. *)
Definition check_block : reader unit :=
  kind ← take_setup_byte;
  version ← take_setup_byte;
  protection ← take_setup_byte;
  n ← rd_varint;
  n ← rd_usize n;
  left ← rd_left;
  _ ← refuse ((kind =? 0) || (version =? 0) || negb (protection =? 0) || (n =? 0)
              || (MAX_SETUP_BLOCK_BYTES <? n) || (left <? n)) Error.Invalid;
  rd_skip n.

Fixpoint check_blocks (n : nat) : reader unit :=
  match n with
  | O => mret tt
  | S n' => _ ← check_block; check_blocks n'
  end.

(** [&input\[pos..\]] *)
Definition rd_rest : reader bytes := fun input p => s ← slice_from input p; Ok (s, p).

(** The decoder after the version byte; [raw] is the whole body. *)
Definition read (version : Z) (raw : bytes) : reader SetupRequestView :=
  tid ← rd_varint;
  mode ← rd_mode;
  route ← rd_route_mode version;
  role ← rd_opener;
  seq ← rd_varint;
  vip ← rd_vip;
  cid ← rd_reverse_cid;
  count ← rd_varint;
  count ← rd_usize count;
  _ ← refuse ((tid =? 0) || (seq =? 0) || (count =? 0) || (MAX_SETUP_BLOCKS <? count)) Error.Invalid;
  blocks ← rd_rest;
  _ ← check_blocks (Z.to_nat count);
  done ← rd_at_end;
  _ ← refuse (negb done) Error.Invalid;
  mret (mkSetupRequestView version tid mode route (mkSetupCircuitKey role seq) vip cid
          (mkSetupBlockBytes blocks count) raw).

Definition decode (input : bytes) : res SetupRequestView :=
  match input with
  | version :: _ =>
      if (MAX_SETUP_BODY_BYTES <? zlen input)
         || negb ((version =? SETUP_VERSION) || (version =? SETUP_REQUEST_VERSION))
      then Err Error.Invalid else fst <$> read version input input 1
  | [] => Err Error.Invalid
  end.
End Request.

(** [decode_setup_request_packet] *)
Definition decode_setup_packet {A} (packet_type : Z) (decode : bytes -> res A) (input : bytes) : res A :=
  '(header, body_at, body_len) ← decode_long_packet input;
  if negb (l_packet_type header =? packet_type)
     || bool_decide (l_dcid header <> None) || bool_decide (l_scid header <> None)
  then Err Error.Invalid else
  body ← slice input body_at (body_at + body_len);
  decode body.

Definition decode_setup_request_packet (input : bytes) : res SetupRequestView :=
  decode_setup_packet LONG_PACKET_PATH_OPEN Request.decode input.

(** ** The view of a relay *)
Module View.

(** One turn of the loop of [SetupBlockBytes::get]: every failure is [None]. *)
Definition scan_block : reader SetupBlock :=
  kind ← take_setup_byte;
  version ← take_setup_byte;
  protection ← take_setup_byte;
  n ← rd_varint;
  n ← rd_usize n;
  payload ← rd_bytes n Error.Invalid;
  mret (mkSetupBlock kind version protection payload).

Fixpoint scan_blocks (i : nat) : reader SetupBlock :=
  match i with
  | O => scan_block
  | S i' => _ ← scan_block; scan_blocks i'
  end.

Definition get (b : SetupBlockBytes) (i : nat) : res (option SetupBlock) :=
  if bb_count b <=? Z.of_nat i then Ok None else
  match run_reader (scan_blocks i) (bb_bytes b) with
  | Ok (block, _) => Ok (Some block)
  | Err _ => Ok None
  | Panic => Panic
  end.

Definition current_hop_instruction (v : SetupRequestView) : res SetupHopInstruction :=
  block ← get (v_blocks v) 0;
  block ← ok_or block Error.Invalid;
  if negb (sb_kind block =? SETUP_BLOCK_RELAY) || negb (sb_version block =? 1)
     || negb (sb_protection block =? 0)
  then Err Error.Invalid else Hop.decode (sb_payload block).

(** [pos.checked_add(n).filter(|end| *end <= bytes.len()).ok_or(Invalid)?] *)
Definition rd_within (n : Z) : reader unit := fun input p =>
  end_ ← ok_or (checked_add p n) Error.Invalid;
  if zlen input <? end_ then Err Error.Invalid else Ok (tt, end_).

(** One turn of the loop over the consumed blocks. *)
Definition skip_block : reader unit :=
  _ ← take_setup_byte;
  _ ← take_setup_byte;
  _ ← take_setup_byte;
  n ← rd_varint;
  n ← rd_usize n;
  rd_within n.

Fixpoint skip_blocks (n : nat) : reader unit :=
  match n with
  | O => mret tt
  | S n' => _ ← skip_block; skip_blocks n'
  end.

Definition consumed_blocks (v : SetupRequestView) : Z :=
  if bool_decide (v_route_mode v = Telescoping) then 0 else 1.

Definition encode_after_first_block_with_reverse_cid (v : SetupRequestView) (cid : option Z)
    : writer Error.t := fun cap =>
  let consumed := consumed_blocks v in
  if bb_count (v_blocks v) <=? consumed then Err Error.Invalid else
  _ ← current_hop_instruction v;
  '(_, block_pos) ← run_reader (skip_blocks (Z.to_nat consumed)) (bb_bytes (v_blocks v));
  remaining ← slice_from (bb_bytes (v_blocks v)) block_pos;
  wlimit MAX_SETUP_BODY_BYTES Error.Invalid
    (put_setup_byte (v_version v) ;;; put_varint (v_transaction_id v) ;;; put_mode (v_mode v)
     ;;; (if SETUP_REQUEST_VERSION <=? v_version v then put_route_mode (v_route_mode v) else wnil)
     ;;; put_opener (opener_role (v_circuit v)) ;;; put_varint (sequence (v_circuit v))
     ;;; put_vip (v_destination_vip v) ;;; put_reverse_cid cid
     ;;; put_varint (bb_count (v_blocks v) - consumed) ;;; put_bytes remaining) cap.

Definition encode_after_first_block (v : SetupRequestView) : writer Error.t :=
  encode_after_first_block_with_reverse_cid v (v_previous_reverse_cid v).

Definition encode_packet_after_first_block_with_reverse_cid (v : SetupRequestView) (cid : option Z)
    (cap : Z) : res bytes :=
  body ← encode_after_first_block_with_reverse_cid v cid MAX_SETUP_BODY_BYTES;
  encode_long_packet LONG_PACKET_PATH_OPEN None None 0 1 body cap.
End View.

(** ** Replies *)
Inductive SetupResult : Type :=
  | Accepted (endpoint_cid lease_us : Z)
  | Rejected (code : Z).

Record SetupBootstrapAck : Type := mkSetupBootstrapAck { ack_len : Z; ack_bytes : bytes }.

Record SetupRelayCids : Type := mkSetupRelayCids { rc_len : Z; rc_cids : list (option Z) }.

Record SetupReply : Type := mkSetupReply {
  rp_transaction_id : Z;
  rp_circuit : SetupCircuitKey;
  rp_result : SetupResult;
  bootstrap_ack : option SetupBootstrapAck;
  relay_cids : SetupRelayCids;
}.

Module RelayCids.
Definition empty : SetupRelayCids := mkSetupRelayCids 0 (replicate (Z.to_nat (MAX_SETUP_BLOCKS - 1)) None).

Definition count (c : SetupRelayCids) : Z := rc_len c.

(** [self.cids.get(index).copied().flatten()] *)
Definition cid_at (c : SetupRelayCids) (i : nat) : option Z := mjoin (rc_cids c !! i).
Definition first (c : SetupRelayCids) : option Z := cid_at c 0.
Definition get (c : SetupRelayCids) (i : nat) : option Z :=
  cid ← cid_at c i; if Z.of_nat i <? rc_len c then Some cid else None.

(** [for index in (0..n).rev() { cids\[index + 1\] = cids\[index\]; }], in range. *)
Fixpoint shift (n : nat) (cids : list (option Z)) : res (list (option Z)) :=
  match n with
  | O => Ok cids
  | S i =>
      x ← index cids (Z.of_nat i);
      if zlen cids <=? Z.of_nat (S i) then Panic else shift i (<[S i := x]> cids)
  end.

Definition prepend (cid : Z) (c : SetupRelayCids) : res SetupRelayCids :=
  if (cid =? 0) || (zlen (rc_cids c) <=? rc_len c) then Err Error.Invalid else
  cids ← shift (Z.to_nat (rc_len c)) (rc_cids c);
  Ok (mkSetupRelayCids (rc_len c + 1) (<[0%nat := Some cid]> cids)).

(** Indices [i .. i + n]. *)
Fixpoint put_cids (c : SetupRelayCids) (i n : nat) : writer Error.t :=
  match n with
  | O => wnil
  | S n' =>
      (fun cap =>
        slot ← index (rc_cids c) (Z.of_nat i);
        cid ← ok_or slot Error.Invalid;
        put_raw_cid cid cap)
      ;;; put_cids c (S i) n'
  end.

Definition encode (c : SetupRelayCids) : writer Error.t :=
  put_varint (rc_len c) ;;; put_cids c 0 (Z.to_nat (rc_len c)).

(** Indices [i .. i + n]. *)
Fixpoint rd_cids (i n : nat) (cids : list (option Z)) : reader (list (option Z)) :=
  match n with
  | O => mret cids
  | S n' =>
      c ← rd_raw_cid;
      _ ← refuse (c =? 0) Error.Invalid;
      rd_cids (S i) n' (<[i := Some c]> cids)
  end.

Definition read : reader SetupRelayCids :=
  n ← rd_varint;
  n ← rd_usize n;
  _ ← refuse (MAX_SETUP_BLOCKS - 1 <? n) Error.Invalid;
  cids ← rd_cids 0 (Z.to_nat n) (rc_cids empty);
  mret (mkSetupRelayCids (as_u8 n) cids).
End RelayCids.

Module Ack.
Definition from_slice (s : bytes) : res SetupBootstrapAck :=
  if bool_decide (s = []) || (MAX_SETUP_BOOTSTRAP_ACK_BYTES <? zlen s) then Err Error.Invalid
  else Ok (mkSetupBootstrapAck (as_u8 (zlen s)) (padded MAX_SETUP_BOOTSTRAP_ACK_BYTES s)).

Definition as_bytes (a : SetupBootstrapAck) : bytes := take (Z.to_nat (ack_len a)) (ack_bytes a).
End Ack.

Definition is_rejected (r : SetupResult) : bool := match r with Rejected _ => true | Accepted _ _ => false end.

Module Reply.
Definition put_result (r : SetupResult) : writer Error.t :=
  match r with
  | Accepted cid lease =>
      if negb (cid =? 0) && negb (lease =? 0)
      then put_setup_byte 0 ;;; put_raw_cid cid ;;; put_varint lease
      else fun _ => Err Error.Invalid
  | Rejected code =>
      if code =? 0 then fun _ => Err Error.Invalid else put_setup_byte 1 ;;; put_varint code
  end.

Definition put_ack (r : SetupResult) (a : option SetupBootstrapAck) : writer Error.t :=
  match r, a with
  | Accepted _ _, Some a => put_setup_byte 1 ;;; put_varint (zlen (Ack.as_bytes a)) ;;; put_bytes (Ack.as_bytes a)
  | _, None => put_setup_byte 0
  | Rejected _, Some _ => fun _ => Err Error.Invalid
  end.

Definition put_relay_cids (r : SetupResult) (c : SetupRelayCids) : writer Error.t :=
  if is_rejected r && negb (rc_len c =? 0) then fun _ => Err Error.Invalid else RelayCids.encode c.

Definition encode (r : SetupReply) : writer Error.t := fun cap =>
  if (rp_transaction_id r =? 0) || (sequence (rp_circuit r) =? 0) then Err Error.Invalid else
  wlimit MAX_SETUP_BODY_BYTES Error.Invalid
    (put_setup_byte SETUP_VERSION ;;; put_varint (rp_transaction_id r)
     ;;; put_opener (opener_role (rp_circuit r)) ;;; put_varint (sequence (rp_circuit r))
     ;;; put_result (rp_result r) ;;; put_ack (rp_result r) (bootstrap_ack r)
     ;;; put_relay_cids (rp_result r) (relay_cids r)) cap.

Definition encode_packet (r : SetupReply) (cap : Z) : res bytes :=
  body ← encode r DEFAULT_SETUP_REPLY_BYTES;
  encode_long_packet LONG_PACKET_PATH_OPEN_ACK None None 0 1 body cap.

Definition rd_result : reader SetupResult :=
  b ← take_setup_byte;
  if b =? 0 then
    cid ← rd_raw_cid;
    _ ← refuse (cid =? 0) Error.Invalid;
    lease ← rd_varint;
    _ ← refuse (lease =? 0) Error.Invalid;
    mret (Accepted cid lease)
  else if b =? 1 then
    code ← rd_varint;
    _ ← refuse (code =? 0) Error.Invalid;
    mret (Rejected code)
  else lift (Err Error.Invalid).

Definition rd_ack : reader (option SetupBootstrapAck) :=
  b ← take_setup_byte;
  if b =? 0 then mret None else
  if negb (b =? 1) then lift (Err Error.Invalid) else
  n ← rd_varint;
  n ← rd_usize n;
  s ← rd_bytes n Error.Invalid;
  a ← lift (Ack.from_slice s);
  mret (Some a).

Definition read : reader SetupReply :=
  tid ← rd_varint;
  role ← Request.rd_opener;
  seq ← rd_varint;
  result ← rd_result;
  ack ← rd_ack;
  cids ← RelayCids.read;
  _ ← refuse (is_rejected result && bool_decide (ack <> None)) Error.Invalid;
  _ ← refuse (is_rejected result && negb (rc_len cids =? 0)) Error.Invalid;
  done ← rd_at_end;
  _ ← refuse ((tid =? 0) || (seq =? 0) || negb done) Error.Invalid;
  mret (mkSetupReply tid (mkSetupCircuitKey role seq) result ack cids).

Definition decode (input : bytes) : res SetupReply :=
  match input with
  | version :: _ =>
      if (MAX_SETUP_BODY_BYTES <? zlen input) || negb (version =? SETUP_VERSION)
      then Err Error.Invalid else fst <$> read input 1
  | [] => Err Error.Invalid
  end.
End Reply.

Definition decode_setup_reply_packet (input : bytes) : res SetupReply :=
  decode_setup_packet LONG_PACKET_PATH_OPEN_ACK Reply.decode input.
