(* ===== verification/SetupCodecSpec.v ===== *)
(** * Relay setup messages: what the codecs guarantee

    Over [SetupCodec.v]: every encoder is inverted by its decoder, no bytes make
    a decoder panic, and a request that hops forward one after the other reaches
    each of them with the transaction unchanged and the blocks that are left. *)

From S2P Require Import Prelude Wire PacketHeader AckRanges Reader FlowControl SetupCodec.

(** ** The primitives *)
Lemma reads_byte v : reads take_setup_byte (put_setup_byte v) v.
Proof.
  intros cap b input p rest Hw _ Hc. unfold put_setup_byte in Hw. destruct (_ <=? _); [done|]. injection Hw as <-.
  unfold take_setup_byte. by rewrite (at_cursor_get_ix _ _ _ _ Hc).
Qed.

Lemma reads_raw_cid c : is_cid c -> reads rd_raw_cid (put_raw_cid c) c.
Proof.
  intros Hcid cap b input p rest Hw _ Hc. unfold rd_raw_cid. rewrite (at_cursor_slice _ _ _ Hc). simpl.
  by rewrite (cid_decode_encode _ _ _ _ Hcid Hw).
Qed.

Lemma put_bytes_Ok s cap b : put_bytes s cap = Ok b -> b = s /\ zlen s <= cap.
Proof. unfold put_bytes. destruct (Z.ltb_spec cap (zlen s)); [done|]. intros [= <-]. split; [done|lia]. Qed.

Lemma reads_slice s : reads (rd_slice (zlen s)) (put_bytes s) s.
Proof.
  intros cap b input p rest [-> _]%put_bytes_Ok _ Hc. unfold rd_slice.
  by rewrite (at_cursor_slice_range _ _ _ _ Hc).
Qed.

(** A check of the room left, in front of a reader of at least [n] bytes. *)
Lemma reads_left {B} (k : Z -> reader B) w b n :
  (forall left, n <= left -> reads (k left) w b) -> (forall cap s, w cap = Ok s -> n <= zlen s) ->
  reads (rd_left ≫= k) w b.
Proof.
  intros Hk Hn cap s input p rest Hw Hsz Hc. unfold mbind, reader_bind, rd_left. pose proof (at_cursor_len _ _ _ Hc) as Hl.
  eapply Hk; [|done..]. specialize (Hn _ _ Hw). unfold sat_sub. zlia.
Qed.

(** The same in front of the last reader of an input. *)
Lemma reads_left_last {B} (k : Z -> reader B) w b n :
  (forall left, n <= left -> reads_last (k left) w b) -> (forall cap s, w cap = Ok s -> n <= zlen s) ->
  reads_last (rd_left ≫= k) w b.
Proof.
  intros Hk Hn cap s input p Hw Hsz Hc. unfold mbind, reader_bind, rd_left. pose proof (at_cursor_len _ _ _ Hc) as Hl.
  eapply Hk; [|done..]. specialize (Hn _ _ Hw). unfold sat_sub. zlia.
Qed.

(** The last value, then checks at the end of the input. *)
Lemma reads_last_snoc {A B} (r : reader A) (k : A -> reader B) w a b :
  reads r w a -> reads_last (k a) wnil b -> reads_last (r ≫= k) w b.
Proof.
  intros H1 H2 cap s input p Hw Hsz Hc. rewrite <- (app_nil_r s) in Hc. unfold mbind, reader_bind.
  rewrite (H1 _ _ _ _ _ Hw Hsz Hc), (H2 0 [] input (p + zlen s)); [|done|done|by apply at_cursor_app in Hc].
  by rewrite zlen_nil, Z.add_0_r.
Qed.

Lemma reads_at_end {B} (k : bool -> reader B) b : reads_last (k true) wnil b -> reads_last (rd_at_end ≫= k) wnil b.
Proof.
  intros Hk cap s input p [= <-] Hsz Hc. unfold mbind, reader_bind, rd_at_end.
  rewrite <- (Hk cap [] input p eq_refl Hsz Hc), (at_cursor_len _ _ _ Hc), zlen_nil, Z.add_0_r. by rewrite Z.eqb_refl.
Qed.

Lemma reads_last_refuse {B} (g : bool) e (k : unit -> reader B) w b :
  g = false -> reads_last (k tt) w b -> reads_last (refuse g e ≫= k) w b.
Proof. intros -> Hk. exact Hk. Qed.

Lemma reads_last_lift {A B} (o : res A) (k : A -> reader B) w a b :
  o = Ok a -> reads_last (k a) w b -> reads_last (lift o ≫= k) w b.
Proof. intros -> Hk. exact Hk. Qed.

Lemma reads_last_ret {A} (a : A) : reads_last (mret a) wnil a.
Proof. apply reads_reads_last, reads_ret. Qed.

Lemma usize_ok v : v <= U64_MAX -> ok_or (usize_try_from v) Error.Invalid = Ok v.
Proof. intros Hv. unfold usize_try_from. by rewrite (proj2 (Z.leb_le _ _)). Qed.

Lemma put_varint_usize v cap b : 0 <= v -> put_varint v cap = Ok b -> v <= U64_MAX.
Proof. intros Hv [Hr _]%put_varint_Ok; [|done]. unfold U64_MAX. lia. Qed.

Lemma reads_run {A} (r : reader A) w a cap b :
  reads_last r w a -> w cap = Ok b -> zlen b <= U64_MAX -> fst <$> run_reader r b = Ok a.
Proof. intros Hr Hw Hsz. unfold run_reader. by rewrite (Hr cap b b 0 Hw Hsz (at_cursor_start b)). Qed.

Lemma wlimit_Ok max e w cap b : wlimit max e w cap = Ok b -> w cap = Ok b /\ zlen b <= max.
Proof.
  unfold wlimit. intros (s & Hs & H)%bind_Ok. destruct (Z.ltb_spec max (zlen s)); [done|]. by injection H as ->.
Qed.

Lemma padded_take n len s :
  zlen s = n -> 0 <= len <= n -> drop (Z.to_nat len) s = replicate (Z.to_nat (n - len)) 0 ->
  padded n (take (Z.to_nat len) s) = s.
Proof.
  intros Hs Hl Hd. unfold padded. rewrite length_take. unfold zlen in Hs.
  replace (Z.to_nat n - Z.to_nat len `min` length s)%nat with (Z.to_nat (n - len)) by lia.
  by rewrite <- Hd, take_drop.
Qed.

#[export] Hint Resolve reads_byte reads_raw_cid reads_slice zlen_nonneg : reads.

Ltac setup_step :=
  match goal with
  | |- reads_last (refuse _ _ ≫= _) _ _ => apply reads_last_refuse
  | |- reads_last (rd_usize _ ≫= _) _ _ => eapply reads_last_lift; [apply usize_ok|]
  | |- reads (rd_usize _ ≫= _) _ _ => eapply reads_lift; [apply usize_ok|]
  | |- reads_last (lift _ ≫= _) _ _ => eapply reads_last_lift
  | |- reads_last (rd_at_end ≫= _) wnil _ => apply reads_at_end
  | |- reads_last (_ ≫= _) (_ ;;; _) _ => eapply reads_bind_last; [solve [eauto with reads]|]
  | |- reads (_ ≫= _) (_ ;;; _) _ => eapply reads_bind; [solve [eauto with reads]|]
  | |- reads_last (_ ≫= _) _ _ => eapply reads_last_snoc; [solve [eauto with reads]|]
  | |- reads_last (mret _) wnil _ => apply reads_last_ret
  end.

(** ** Hop instructions *)
Record hop_ok (h : SetupHopInstruction) : Prop := {
  ho_len : is_u8 (si_address_len h);
  ho_address : zlen (si_address h) = MAX_SETUP_HOP_ADDRESS_BYTES;
  ho_tail : drop (Z.to_nat (si_address_len h)) (si_address h)
            = replicate (Z.to_nat (MAX_SETUP_HOP_ADDRESS_BYTES - si_address_len h)) 0;
  ho_lease : 0 <= si_lease_us h;
  ho_quota : 0 <= si_packet_quota h;
}.

Lemma hop_decode_encode h cap b :
  hop_ok h -> Hop.encode h cap = Ok b -> Hop.decode b = Ok h /\ zlen b <= MAX_SETUP_BLOCK_BYTES.
Proof.
  intros [Hl Ha Ht Hle Hq]. unfold Hop.encode. destruct (_ || _) eqn:Hg; [done|]. bools.
  intros [Hw Hb]%wlimit_Ok. split; [|done]. unfold Hop.decode.
  assert (zlen (take (Z.to_nat (si_address_len h)) (si_address h)) = si_address_len h) as Hz by (apply zlen_take; lia).
  eapply reads_run; [|exact Hw|unfold MAX_SETUP_BLOCK_BYTES, U64_MAX in *; lia]. unfold Hop.read.
  do 2 setup_step. apply (reads_left_last _ _ _ (si_address_len h)).
  - intros left Hleft. setup_step.
    { rewrite !orb_false_iff, !Z.eqb_neq, !Z.ltb_ge. lia. }
    rewrite <- Hz at 1. repeat setup_step.
    { rewrite !orb_false_iff, !Z.eqb_neq. done. }
    rewrite (padded_take MAX_SETUP_HOP_ADDRESS_BYTES (si_address_len h)) by (done || lia).
    destruct h. apply reads_last_ret.
  - intros c s (s1 & s2 & [-> _]%put_bytes_Ok & _ & ->)%wseq_Ok. zlia.
Qed.

(** ** Endpoint payloads *)
Lemma join_decode_encode j cap b :
  is_cid (join_cid j) -> is_cid (opener_receive_cid j) -> cap <= U64_MAX ->
  Join.encode j cap = Ok b -> Join.decode b = Ok j.
Proof.
  intros Hj Ho Hcap. unfold Join.encode. destruct (_ || _) eqn:Hg; [done|]. intros Hw.
  assert (zlen b <= cap) as Hlen.
  { apply wseq_Ok in Hw as (b1 & b2 & H1 & H2 & ->).
    apply cid_encode_len in H1 as (_ & _ & H1); [|done]. apply cid_encode_len in H2 as (_ & _ & H2); [|done]. zlia. }
  eapply reads_run; [|exact Hw|lia]. unfold Join.read. repeat setup_step; [by rewrite Hg|].
  destruct j. apply reads_last_ret.
Qed.

Definition hint_ok (h : NearbyRelayHint) : Prop := zlen (relay_id h) = 8 /\ hop_ok (instruction_of (hop h)).

Lemma reads_hint h : hint_ok h -> reads Create.rd_hint (Create.put_hint h) h.
Proof.
  intros [Hid Hh]. unfold Create.rd_hint, Create.put_hint.
  eapply reads_bind; [rewrite <- Hid; apply reads_bytes|].
  intros cap b input p rest (e & He & Hw)%bind_Ok. destruct (hop_decode_encode _ _ _ Hh He) as [Hd Hlen].
  revert Hw. generalize rest, p, input, b, cap. clear rest p input b cap He. intros rest p input b cap.
  match goal with |- ?w cap = Ok b -> zlen input <= _ -> at_cursor _ _ _ -> ?r input p = _ =>
    cut (reads r w h); [intros Hr Hw; by apply (Hr cap)|] end.
  eapply reads_bind; [apply reads_varint, zlen_nonneg|]. setup_step.
  { unfold MAX_SETUP_BLOCK_BYTES, U64_MAX in *. lia. }
  eapply reads_pure; [apply reads_bytes|]. intros input' p'. unfold mbind, reader_bind, lift. rewrite Hd.
  by destruct h as [id []].
Qed.

Lemma reads_hints l : Forall hint_ok l -> reads (Create.rd_hints (length l)) (Create.put_hints l) l.
Proof.
  induction 1 as [|h l Hh _ IH]; cbn [length Create.rd_hints Create.put_hints]; [apply reads_ret|].
  eapply reads_bind; [by apply reads_hint|]. eapply reads_pure; [exact IH|done].
Qed.

(** The initial packet is followed by at least the count. *)
Lemma reads_initial {B} s c (k : bytes -> reader B) w b :
  s <> [] -> zlen s + 1 <= U64_MAX -> reads_last (k s) (put_setup_byte c ;;; w) b ->
  reads_last (Create.rd_initial (zlen s) ≫= k) (Create.put_initial s c ;;; w) b.
Proof.
  intros Hne Hsz Hk cap bs input p (b1 & b2 & Hw1 & Hw2 & ->)%wseq_Ok Hin Hc. unfold Create.put_initial in Hw1.
  destruct (Z.ltb_spec cap (sat_add (zlen s) 1)) as [|Hroom]; [done|]. injection Hw1 as <-. rewrite <- app_assoc in Hc.
  unfold sat_add in Hroom. pose proof (at_cursor_len _ _ _ Hc) as Hl. unfold mbind, reader_bind, Create.rd_initial.
  rewrite !zlen_app, zlen_cons, zlen_nil in *. zlen_pose. unfold checked_add. rewrite (proj2 (Z.leb_le _ _)) by lia.
  cbn [ok_or mbind outcome_bind]. assert (zlen s <> 0) by (intros Hz; by apply Hne, zlen_0_nil).
  rewrite (proj2 (Z.eqb_neq _ 0)), (proj2 (Z.leb_gt _ _)) by lia. cbn [orb].
  rewrite (at_cursor_slice_range _ _ _ _ Hc). cbn [mbind outcome_bind]. apply at_cursor_app in Hc.
  rewrite (Hk (cap - zlen s) ([c] ++ b2) input (p + zlen s)); [|..|done|exact Hc].
  - do 2 f_equal. zlia.
  - apply wseq_Ok. exists [c], b2. unfold put_setup_byte. rewrite (proj2 (Z.leb_gt _ _)) by lia. split; [done|].
    split; [|done]. rewrite <- Hw2. f_equal. zlia.
Qed.

Lemma hints_new_iter l h :
  Hints.new l = Some h -> Hints.iter h = l /\ Hints.len h = zlen l /\ zlen l <= MAX_NEARBY_RETURN_RELAYS.
Proof.
  unfold Hints.new. destruct (Z.ltb_spec MAX_NEARBY_RETURN_RELAYS (zlen l)) as [|Hl]; [done|].
  destruct (Hints.unique_ids _ _); [|done]. intros [= <-]. unfold Hints.iter, Hints.len. cbn [nh_len nh_entries].
  rewrite as_u8_small by (unfold MAX_NEARBY_RETURN_RELAYS, U8_MAX in *; zlia). split; [|done].
  rewrite to_nat_zlen, take_app_le by (by rewrite length_fmap). rewrite firstn_all2 by (by rewrite length_fmap).
  clear. induction l as [|x l IH]; [done|]. change (x :: omap id (Some <$> l) = x :: l). by rewrite IH.
Qed.

Lemma create_decode_encode initial l h cap b :
  Hints.new l = Some h -> Forall hint_ok l ->
  Create.encode (mkSetupCreateEndpoint initial h) cap = Ok b -> Create.decode b 2 = Ok (initial, h).
Proof.
  intros Hnew Hl. destruct (hints_new_iter _ _ Hnew) as (Hi & Hn & Hmax). unfold Create.encode.
  cbn [initial_packet return_hints]. destruct (_ || _) eqn:Hg; [done|]. bools. rewrite Hi, Hn.
  rewrite as_u8_small by (unfold MAX_NEARBY_RETURN_RELAYS, U8_MAX in *; zlia).
  intros [Hw Hb]%wlimit_Ok. unfold Create.decode. change (2 =? 1) with false. change (2 =? 2) with true. cbn [negb].
  assert (Hsz : zlen initial + 1 <= zlen b).
  { apply wseq_Ok in Hw as (b1 & b2 & _ & (b3 & b4 & H3 & _ & ->)%wseq_Ok & ->).
    unfold Create.put_initial in H3. destruct (_ <? _); [done|]. injection H3 as <-. zlia. }
  unfold MAX_SETUP_BLOCK_BYTES, MAX_NEARBY_RETURN_RELAYS in *.
  eapply reads_run; [|exact Hw|unfold U64_MAX; lia]. unfold Create.read.
  setup_step. setup_step; [unfold U64_MAX; lia|].
  apply reads_initial; [by case_bool_decide|unfold U64_MAX; lia|].
  setup_step. setup_step; [unfold MAX_NEARBY_RETURN_RELAYS; lia|]. rewrite to_nat_zlen.
  eapply reads_last_snoc; [by apply reads_hints|]. do 2 setup_step; [done|].
  setup_step; [by rewrite Hnew|]. apply reads_last_ret.
Qed.

(** ** The fields of a request *)
Lemma reads_mode m : reads Request.rd_mode (put_mode m) m.
Proof. eapply reads_pure; [apply reads_byte|]. by destruct m. Qed.

Lemma reads_route_mode m : reads (Request.rd_route_mode SETUP_REQUEST_VERSION) (put_route_mode m) m.
Proof. eapply reads_pure; [apply reads_byte|]. by destruct m. Qed.

Lemma reads_opener r : reads Request.rd_opener (put_opener r) r.
Proof. eapply reads_pure; [apply reads_byte|]. by destruct r. Qed.

Definition vip_ok (v : option Z) : Prop := match v with Some v => is_u64 v /\ v <> 0 | None => True end.
Definition reverse_ok (c : option Z) : Prop := match c with Some c => is_cid c /\ c <> 0 | None => True end.

Lemma reads_vip v : vip_ok v -> reads Request.rd_vip (put_vip v) v.
Proof.
  destruct v as [v|]; intros Hv; unfold Request.rd_vip, put_vip.
  - destruct Hv as [Hv Hnz]. eapply reads_bind; [apply reads_byte|]. cbv beta. change (1 =? 0) with false.
    change (negb (1 =? 1)) with false. cbv iota. assert (be_val (be_bytes 8 v) = v) as Hval.
    { rewrite be_val_be_bytes. apply Z.mod_small. unfold U64_MAX in Hv. change (256 ^ Z.of_nat 8) with (2 ^ 64). lia. }
    apply (reads_left _ _ _ 8).
    + intros left Hl. apply reads_refuse; [by apply Z.ltb_ge|].
      eapply reads_pure; [apply (reads_slice (be_bytes 8 v))|]. intros input p. rewrite Hval.
      unfold mbind, reader_bind. by rewrite (proj2 (Z.eqb_neq v 0)).
    + intros cap s [-> _]%put_bytes_Ok. rewrite zlen_be_bytes. done.
  - eapply reads_pure; [apply reads_byte|]. done.
Qed.

Lemma reads_reverse_cid c : reverse_ok c -> reads Request.rd_reverse_cid (put_reverse_cid c) c.
Proof.
  destruct c as [c|]; intros Hc; unfold Request.rd_reverse_cid, put_reverse_cid.
  - destruct Hc as [Hc Hnz]. eapply reads_bind; [apply reads_byte|]. cbv beta. change (1 =? 0) with false.
    change (negb (1 =? 1)) with false. cbv iota. eapply reads_pure; [by apply reads_raw_cid|]. intros input p.
    unfold mbind, reader_bind. by rewrite (proj2 (Z.eqb_neq c 0)).
  - eapply reads_pure; [apply reads_byte|]. done.
Qed.
#[export] Hint Resolve reads_mode reads_route_mode reads_opener reads_vip reads_reverse_cid : reads.

Lemma max_body_u64 : MAX_SETUP_BODY_BYTES <= U64_MAX.
Proof. by vm_compute. Qed.

(** *** Blocks *)
Lemma reads_scan_block b : reads View.scan_block (Request.put_block b) b.
Proof.
  intros cap s input p rest Hw Hsz Hc. pose proof (at_cursor_len _ _ _ Hc) as Hl.
  assert (zlen (sb_payload b) <= U64_MAX) as Hu.
  { apply wseq_Ok in Hw as (? & ? & _ & (? & ? & _ & (? & ? & _ & (? & ? & Hv & _)%wseq_Ok & _)%wseq_Ok & _)%wseq_Ok & _).
    by apply put_varint_usize in Hv; [|apply zlen_nonneg]. }
  revert cap s input p rest Hw Hsz Hc Hl.
  cut (reads View.scan_block (Request.put_block b) b); [intros Hr cap s input p rest Hw Hsz Hc _; by eapply Hr|].
  unfold View.scan_block, Request.put_block. do 4 setup_step. setup_step; [done|].
  eapply reads_pure; [apply reads_bytes|]. by destruct b.
Qed.

Lemma reads_check_block b : Request.block_invalid b = false -> reads Request.check_block (Request.put_block b) tt.
Proof.
  intros Hb. unfold Request.block_invalid in Hb. bools. case_bool_decide as Hne; [done|].
  assert (zlen (sb_payload b) <> 0) by (intros Hz; by apply Hne, zlen_0_nil).
  unfold Request.check_block, Request.put_block, MAX_SETUP_BLOCK_BYTES in *. do 4 setup_step.
  setup_step; [unfold U64_MAX; lia|].
  apply (reads_left _ _ _ (zlen (sb_payload b))); [|intros cap s [-> _]%put_bytes_Ok; lia].
  intros left Hleft. apply reads_refuse.
  { rewrite !orb_false_iff, !Z.eqb_neq, !Z.ltb_ge, negb_false_iff, Z.eqb_eq. unfold MAX_SETUP_BLOCK_BYTES. lia. }
  intros cap s input p rest [-> _]%put_bytes_Ok _ _. done.
Qed.

(** The blocks written one after the other. *)
Fixpoint put_all (l : list SetupBlock) : writer Error.t :=
  match l with
  | [] => wnil
  | b :: l' => Request.put_block b ;;; put_all l'
  end.

Lemma put_blocks_Ok pos l cap s :
  Request.put_blocks pos l cap = Ok s -> put_all l cap = Ok s /\ (l <> [] -> pos + zlen s <= MAX_SETUP_BODY_BYTES).
Proof.
  revert pos cap s. induction l as [|b l IH]; intros pos cap s; cbn [Request.put_blocks put_all]; [by intros [= <-]|].
  intros (s1 & H1 & H)%bind_Ok. cbv zeta in H. destruct (Z.ltb_spec MAX_SETUP_BODY_BYTES (pos + zlen s1)); [done|].
  apply bind_Ok in H as (s2 & H2 & [= <-]). apply IH in H2 as [H2 Hl]. split.
  - apply wseq_Ok. by exists s1, s2.
  - intros _. destruct l as [|b' l]; [injection H2 as <-; zlia|]. specialize (Hl ltac:(done)). zlia.
Qed.

Lemma reads_check_blocks l :
  existsb Request.block_invalid l = false -> reads (Request.check_blocks (length l)) (put_all l) tt.
Proof.
  induction l as [|b l IH]; cbn [existsb length Request.check_blocks put_all]; [intros _; apply reads_ret|].
  intros [Hb Hl]%orb_false_iff. eapply reads_bind; [by apply reads_check_block|]. by apply IH.
Qed.

Lemma scan_put_all l i b cap s input p rest :
  l !! i = Some b -> put_all l cap = Ok s -> zlen input <= U64_MAX -> at_cursor input p (s ++ rest) ->
  exists q, View.scan_blocks i input p = Ok (b, q).
Proof.
  revert l cap s p. induction i as [|i IH]; intros [|b0 l] cap s p Hl Hw Hsz Hc; try done;
    cbn [put_all View.scan_blocks] in *; apply wseq_Ok in Hw as (s1 & s2 & H1 & H2 & ->); rewrite <- app_assoc in Hc.
  - injection Hl as <-. eexists. by apply (reads_scan_block _ _ _ _ _ _ H1 Hsz Hc).
  - unfold mbind, reader_bind. rewrite (reads_scan_block _ _ _ _ _ _ H1 Hsz Hc). apply at_cursor_app in Hc. by eapply IH.
Qed.

Lemma get_put_all l cap s i :
  put_all l cap = Ok s -> zlen s <= U64_MAX -> View.get (mkSetupBlockBytes s (zlen l)) i = Ok (l !! i).
Proof.
  intros Hw Hsz. unfold View.get. cbn [bb_count bb_bytes]. destruct (Z.leb_spec (zlen l) (Z.of_nat i)) as [Hge|Hlt].
  - rewrite lookup_ge_None_2; [done|]. unfold zlen in Hge. lia.
  - destruct (lookup_lt_is_Some_2 l i) as [b Hb]; [unfold zlen in Hlt; lia|]. rewrite Hb.
    destruct (scan_put_all l i b cap s s 0 [] Hb Hw Hsz) as [q Hq]; [rewrite app_nil_r; apply at_cursor_start|].
    unfold run_reader. by rewrite Hq.
Qed.

(** ** Request bodies *)

(** The encoding both the opener and the relays write. *)
Definition put_body (version tid : Z) (mode : SetupMode) (route : RelayRouteMode) (circuit : SetupCircuitKey)
    (vip cid : option Z) (count : Z) (rest : writer Error.t) : writer Error.t :=
  put_setup_byte version ;;; put_varint tid ;;; put_mode mode
  ;;; (if SETUP_REQUEST_VERSION <=? version then put_route_mode route else wnil)
  ;;; put_opener (opener_role circuit) ;;; put_varint (sequence circuit)
  ;;; put_vip vip ;;; put_reverse_cid cid ;;; put_varint count ;;; rest.

Definition version_ok (version : Z) (route : RelayRouteMode) : Prop :=
  version = SETUP_VERSION /\ route = Layered \/ version = SETUP_REQUEST_VERSION.

Lemma reads_route version route :
  version_ok version route ->
  reads (Request.rd_route_mode version)
    (if SETUP_REQUEST_VERSION <=? version then put_route_mode route else wnil) route.
Proof. intros [[-> ->]| ->]; [apply reads_ret|apply reads_route_mode]. Qed.

(** [s] is [n] whole blocks, wherever it stands. *)
Definition whole_blocks (n : nat) (s : bytes) : Prop :=
  forall input p, zlen input <= U64_MAX -> at_cursor input p s ->
    Request.check_blocks n input p = Ok (tt, zlen input).

Lemma decode_body version tid mode route circuit vip cid count rest s cap b :
  version_ok version route -> 0 < tid -> 0 < sequence circuit -> vip_ok vip -> reverse_ok cid ->
  0 < count <= MAX_SETUP_BLOCKS -> (forall c x, rest c = Ok x -> x = s) -> whole_blocks (Z.to_nat count) s ->
  put_body version tid mode route circuit vip cid count rest cap = Ok b -> zlen b <= MAX_SETUP_BODY_BYTES ->
  Request.decode b = Ok (mkSetupRequestView version tid mode route circuit vip cid (mkSetupBlockBytes s count) b).
Proof.
  intros Hv Ht Hs Hvip Hcid Hn Hrest Hblocks (b0 & b1 & H0 & H1 & ->)%wseq_Ok Hmax.
  unfold put_setup_byte in H0. destruct (_ <=? 0); [done|]. injection H0 as <-. cbn [app] in *. unfold Request.decode.
  rewrite (proj2 (Z.ltb_ge _ _)) by done.
  assert (negb ((version =? SETUP_VERSION) || (version =? SETUP_REQUEST_VERSION)) = false) as -> by (by destruct Hv as [[-> _]| ->]).
  cbn [orb]. set (raw := version :: b1) in *. set (view := mkSetupRequestView _ _ _ _ _ _ _ _ _).
  assert (zlen raw <= U64_MAX) as Hsz by (pose proof max_body_u64; lia).
  cut (reads_last (Request.read version raw) (put_varint tid ;;; put_mode mode
    ;;; (if SETUP_REQUEST_VERSION <=? version then put_route_mode route else wnil)
    ;;; put_opener (opener_role circuit) ;;; put_varint (sequence circuit)
    ;;; put_vip vip ;;; put_reverse_cid cid ;;; put_varint count ;;; rest) view).
  { intros Hr. by rewrite (Hr _ _ raw 1 H1 Hsz (at_cursor_app raw 0 [version] b1 (at_cursor_start _))). }
  clear H1 Hmax. unfold Request.read.
  eapply reads_bind_last; [apply reads_varint; lia|]. setup_step.
  eapply reads_bind_last; [by apply reads_route|]. setup_step.
  eapply reads_bind_last; [apply reads_varint; lia|]. do 2 setup_step.
  eapply reads_bind_last; [apply reads_varint; lia|]. setup_step; [unfold MAX_SETUP_BLOCKS, U64_MAX in *; lia|].
  setup_step; [rewrite !orb_false_iff, !Z.eqb_neq, Z.ltb_ge; lia|].
  intros c x input p Hx Hin Hc. apply Hrest in Hx as ->. unfold mbind, reader_bind, Request.rd_rest.
  rewrite (at_cursor_slice _ _ _ Hc). cbn [mbind outcome_bind]. rewrite (Hblocks input p Hin Hc).
  unfold rd_at_end. rewrite Z.eqb_refl. cbn [negb]. rewrite (at_cursor_len _ _ _ Hc). unfold view.
  by destruct circuit.
Qed.

(** ** Blocks moved from one body to another

    A relay copies the bytes of the remaining blocks.  [tracks r P]: the reader
    depends only on the bytes that follow its cursor, and its value satisfies
    [P]. *)
Definition tracks {A} (r : reader A) (P : A -> Prop) : Prop :=
  forall i p j q s,
    zlen i <= U64_MAX -> zlen j <= U64_MAX -> bytes_ok s -> at_cursor i p s -> at_cursor j q s ->
    match r i p with
    | Ok (a, p') => P a /\ r j q = Ok (a, q + (p' - p)) /\
        exists s', bytes_ok s' /\ at_cursor i p' s' /\ at_cursor j (q + (p' - p)) s'
    | Err e => r j q = Err e
    | Panic => r j q = Panic
    end.

Lemma tracks_bind {A B} (r : reader A) (k : A -> reader B) P Q :
  tracks r P -> (forall a, P a -> tracks (k a) Q) -> tracks (r ≫= k) Q.
Proof.
  intros Hr Hk i p j q s Hi Hj Hs Hci Hcj. unfold mbind, reader_bind. specialize (Hr i p j q s Hi Hj Hs Hci Hcj).
  destruct (r i p) as [[a p1]|e|]; [|by rewrite Hr..]. destruct Hr as (Ha & -> & s1 & Hs1 & Hci1 & Hcj1).
  specialize (Hk a Ha i p1 j _ s1 Hi Hj Hs1 Hci1 Hcj1). destruct (k a i p1) as [[b p2]|e|]; [|done..].
  destruct Hk as (Hb & Hk & s2 & Hs2 & Hc). replace (q + (p2 - p)) with (q + (p1 - p) + (p2 - p1)) by lia.
  split; [done|]. split; [done|]. by exists s2.
Qed.

Lemma tracks_stay {A} (r : reader A) P :
  (forall i p j q s, zlen i <= U64_MAX -> zlen j <= U64_MAX -> at_cursor i p s -> at_cursor j q s ->
    match r i p with
    | Ok (a, p') => p' = p /\ P a /\ r j q = Ok (a, q)
    | Err e => r j q = Err e
    | Panic => r j q = Panic
    end) -> tracks r P.
Proof.
  intros Hr i p j q s Hi Hj Hs Hci Hcj. specialize (Hr i p j q s Hi Hj Hci Hcj).
  destruct (r i p) as [[a p1]|e|]; [|done..]. destruct Hr as (-> & Ha & Hr).
  replace (q + (p - p)) with q by lia. split; [done|]. split; [done|]. by exists s.
Qed.

Lemma tracks_ret {A} (a : A) (P : A -> Prop) : P a -> tracks (mret a) P.
Proof. intros Ha. by apply tracks_stay. Qed.

Lemma tracks_lift {A} (o : res A) (P : A -> Prop) : (forall a, o = Ok a -> P a) -> tracks (lift o) P.
Proof. intros Ho. apply tracks_stay. intros i p j q s _ _ _ _. unfold lift. destruct o; auto. Qed.

Lemma tracks_refuse (g : bool) e : tracks (refuse g e) (fun _ => g = false).
Proof. apply tracks_lift. intros []. apply guard_err_Ok. Qed.

Lemma tracks_usize v : tracks (rd_usize v) (fun w => w = v).
Proof. apply tracks_lift. intros a H%ok_or_Ok. unfold usize_try_from in H. destruct (_ <=? _); congruence. Qed.

Lemma tracks_left {B} (k : Z -> reader B) Q :
  (forall left, tracks (k left) Q) -> tracks (rd_left ≫= k) Q.
Proof.
  intros Hk i p j q s Hi Hj Hs Hci Hcj. unfold mbind, reader_bind, rd_left.
  pose proof (at_cursor_len _ _ _ Hci) as Hli. pose proof (at_cursor_len _ _ _ Hcj) as Hlj.
  replace (sat_sub (zlen j) q) with (sat_sub (zlen i) p) by (unfold sat_sub; lia). by apply (Hk _ i p j q s).
Qed.

Lemma tracks_byte : tracks take_setup_byte (fun _ => True).
Proof.
  intros i p j q s Hi Hj Hs Hci Hcj. unfold take_setup_byte. destruct s as [|b s].
  - assert (forall k r, at_cursor k r [] -> get_ix k r = None) as Hnone.
    { intros k r Hc. destruct (get_ix k r) eqn:Hg; [|done]. apply get_ix_Some in Hg.
      apply at_cursor_len in Hc. rewrite zlen_nil in Hc. lia. }
    by rewrite !Hnone.
  - rewrite (at_cursor_get_ix _ _ _ _ Hci), (at_cursor_get_ix _ _ _ _ Hcj). split; [done|].
    replace (q + (p + 1 - p)) with (q + 1) by lia. split; [done|]. exists s. inversion Hs.
    split_and!; [done|by eapply at_cursor_cons..].
Qed.

Lemma at_cursor_skip i p s n :
  at_cursor i p s -> 0 <= n <= zlen s -> at_cursor i (p + n) (drop (Z.to_nat n) s).
Proof.
  intros Hc Hn. rewrite <- (take_drop (Z.to_nat n) s) in Hc. apply at_cursor_app in Hc. by rewrite zlen_take in Hc.
Qed.

Lemma tracks_varint : tracks rd_varint (fun v => is_varint v).
Proof.
  intros i p j q s Hi Hj Hs Hci Hcj. unfold rd_varint, get_varint_at.
  rewrite (at_cursor_slice _ _ _ Hci), (at_cursor_slice _ _ _ Hcj). cbn [mbind outcome_bind].
  destruct (get_varint s) as [[v n]|e|] eqn:Hg; [|done..]. apply get_varint_Ok in Hg as (Hv & Hn & _); [|done].
  cbn [mbind outcome_bind]. replace (q + (p + n - p)) with (q + n) by lia.
  split; [done|]. split; [done|]. exists (drop (Z.to_nat n) s).
  split_and!; [by apply bytes_ok_drop|apply at_cursor_skip; [done|lia]..].
Qed.

(** Skipping [n] bytes that are there. *)
Lemma tracks_room n (g : bool) e :
  0 <= n -> tracks (left ← rd_left; _ ← refuse (g || (left <? n)) e; Request.rd_skip n) (fun _ => True).
Proof.
  intros Hn i p j q s Hi Hj Hs Hci Hcj. unfold mbind, reader_bind, rd_left, refuse, lift, Request.rd_skip.
  pose proof (at_cursor_len _ _ _ Hci) as Hli. pose proof (at_cursor_len _ _ _ Hcj) as Hlj.
  replace (sat_sub (zlen j) q) with (zlen s) by (unfold sat_sub; zlia).
  replace (sat_sub (zlen i) p) with (zlen s) by (unfold sat_sub; zlia).
  destruct g; [done|]. cbn [orb]. destruct (Z.ltb_spec (zlen s) n); [done|]. cbn [guard_err].
  replace (q + (p + n - p)) with (q + n) by lia. split; [done|]. split; [done|]. exists (drop (Z.to_nat n) s).
  split_and!; [by apply bytes_ok_drop|apply at_cursor_skip; [done|lia]..].
Qed.

Lemma tracks_bytes n : 0 <= n -> tracks (rd_bytes n Error.Invalid) (fun _ => True).
Proof.
  intros Hn i p j q s Hi Hj Hs Hci Hcj.
  pose proof (at_cursor_len _ _ _ Hci) as Hli. pose proof (at_cursor_len _ _ _ Hcj) as Hlj. zlen_pose.
  destruct (Z_le_gt_dec n (zlen s)) as [Hle|Hgt].
  - assert (forall k r, zlen k <= U64_MAX -> at_cursor k r s -> rd_bytes n Error.Invalid k r = Ok (take (Z.to_nat n) s, r + n)) as Hrd.
    { intros k r Hk Hc. rewrite <- (take_drop (Z.to_nat n) s) in Hc.
      assert (zlen (take (Z.to_nat n) s) = n) as Hz by (apply zlen_take; lia).
      pose proof (reads_bytes (take (Z.to_nat n) s) Error.Invalid n (take (Z.to_nat n) s) k r
        (drop (Z.to_nat n) s)) as Hr.
      rewrite Hz in Hr. apply Hr; [|done|exact Hc]. unfold put_bytes. by rewrite Hz, Z.ltb_irrefl. }
    rewrite !Hrd by done. replace (q + (p + n - p)) with (q + n) by lia. split; [done|]. split; [done|].
    exists (drop (Z.to_nat n) s). split_and!; [by apply bytes_ok_drop|apply at_cursor_skip; [done|lia]..].
  - assert (forall k r, at_cursor k r s -> rd_bytes n Error.Invalid k r = Err Error.Invalid) as Hrd.
    { intros k r Hc. pose proof (at_cursor_len _ _ _ Hc). unfold rd_bytes, checked_add, get_range.
      destruct (r + n <=? U64_MAX); [|done]. cbn [ok_or mbind outcome_bind].
      rewrite (proj2 (Z.leb_gt (r + n) (zlen k))) by lia. by rewrite andb_false_r. }
    by rewrite !Hrd.
Qed.

Ltac tracks_step :=
  match goal with
  | |- tracks (mret _) _ => by apply tracks_ret
  | |- tracks (take_setup_byte ≫= _) _ => eapply tracks_bind; [apply tracks_byte|intros ? _]
  | |- tracks (rd_varint ≫= _) _ => eapply tracks_bind; [apply tracks_varint|intros ? [? _]]
  | |- tracks (rd_usize _ ≫= _) _ => eapply tracks_bind; [apply tracks_usize|intros ? ->]
  end.

Lemma tracks_check_block : tracks Request.check_block (fun _ => True).
Proof. unfold Request.check_block. repeat tracks_step. apply tracks_room. lia. Qed.

Lemma tracks_check_blocks n : tracks (Request.check_blocks n) (fun _ => True).
Proof.
  induction n as [|n IH]; cbn [Request.check_blocks]; [tracks_step|].
  eapply tracks_bind; [apply tracks_check_block|done].
Qed.

Lemma tracks_scan_block : tracks View.scan_block (fun _ => True).
Proof.
  unfold View.scan_block. repeat tracks_step. eapply tracks_bind; [apply tracks_bytes; lia|]. intros. tracks_step.
Qed.

Lemma tracks_scan_blocks n : tracks (View.scan_blocks n) (fun _ => True).
Proof.
  induction n as [|n IH]; cbn [View.scan_blocks]; [apply tracks_scan_block|].
  eapply tracks_bind; [apply tracks_scan_block|done].
Qed.

(** A checked block can be scanned and skipped, to the same position. *)
Lemma checked_block i p p' :
  bytes_ok i -> zlen i <= U64_MAX -> 0 <= p <= zlen i -> Request.check_block i p = Ok (tt, p') ->
  (exists b, View.scan_block i p = Ok (b, p')) /\ View.skip_block i p = Ok (tt, p') /\ p < p' <= zlen i.
Proof.
  intros Hok Hi Hp. unfold Request.check_block, View.scan_block, View.skip_block, mbind, reader_bind.
  assert (forall r, match take_setup_byte i r with Ok (_, r') => r' = r + 1 /\ r < zlen i | _ => True end) as Hbyte.
  { intros r. unfold take_setup_byte. destruct (get_ix i r) eqn:Hg; [|done]. apply get_ix_Some in Hg. lia. }
  pose proof (Hbyte p) as H1. destruct (take_setup_byte i p) as [[k p1]| |]; [|done..]. destruct H1 as [-> H1].
  pose proof (Hbyte (p + 1)) as H2. destruct (take_setup_byte i (p + 1)) as [[v p2]| |]; [|done..]. destruct H2 as [-> H2].
  pose proof (Hbyte (p + 1 + 1)) as H3. destruct (take_setup_byte i (p + 1 + 1)) as [[x p3]| |]; [|done..]. destruct H3 as [-> H3].
  destruct (rd_varint i _) as [[n p4]| |] eqn:Hv; [|done..]. apply get_varint_at_Ok in Hv as (Hn & Hp4 & Hle); [|done].
  unfold rd_usize. rewrite (usize_ok n) by (unfold U64_MAX; lia). unfold lift, rd_left, refuse, Request.rd_skip.
  destruct (guard_err _ _) as [[]| |] eqn:Hg; [|done..]. apply guard_err_Ok in Hg. intros [= <-].
  rewrite !orb_false_iff, Z.ltb_ge in Hg. destruct Hg as [_ Hleft]. unfold sat_sub in Hleft.
  unfold rd_bytes, View.rd_within, checked_add. rewrite (proj2 (Z.leb_le (p4 + n) U64_MAX)) by lia. cbn [ok_or mbind outcome_bind].
  rewrite (proj2 (Z.ltb_ge (zlen i) (p4 + n))) by lia. split; [|split; [done|lia]].
  unfold get_range. rewrite (proj2 (Z.leb_le 0 p4)), (proj2 (Z.leb_le p4 _)), (proj2 (Z.leb_le _ (zlen i))) by lia.
  cbn [andb ok_or mbind outcome_bind]. by eexists.
Qed.

(** ** Safety of the decoders *)
Lemma safe_byte : safe take_setup_byte (fun b => is_u8 b).
Proof.
  intros i p Hok Hp. unfold take_setup_byte. destruct (get_ix i p) as [b|] eqn:Hg; [|done].
  pose proof (get_ix_Some _ _ _ Hg). split; [lia|]. unfold get_ix in Hg. destruct (0 <=? p); [|done].
  by eapply Forall_lookup_1 in Hok.
Qed.

Lemma safe_raw_cid : safe rd_raw_cid (fun c => is_cid c).
Proof.
  intros i p Hok Hp. unfold rd_raw_cid. rewrite (proj2 (slice_from_Ok i p (drop (Z.to_nat p) i))) by done.
  cbn [mbind outcome_bind]. assert (bytes_ok (drop (Z.to_nat p) i)) as Hd by (by apply bytes_ok_drop).
  pose proof (cid_decode_not_Panic _ Hd) as Hnp. destruct (ConnectionId.decode _) as [[c n]| |] eqn:Hc; [|done..].
  apply cid_encode_decode in Hc as (Hc & Hn & _); [|done]. rewrite zlen_drop in Hn by lia. cbn [mbind outcome_bind]. split; [lia|done].
Qed.

Lemma safe_rd_usize v : 0 <= v -> safe (rd_usize v) (fun w => w = v).
Proof.
  intros Hv. apply safe_lift; [apply ok_or_not_Panic|]. intros a H%ok_or_Ok. unfold usize_try_from in H.
  destruct (_ <=? _); congruence.
Qed.

Lemma safe_left_slice {B} n (g : bool) (k : bytes -> reader B) Q :
  0 <= n -> (g = false -> forall s, zlen s = n -> bytes_ok s -> safe (k s) Q) ->
  safe (left ← rd_left; _ ← refuse (g || (left <? n)) Error.Invalid; s ← rd_slice n; k s) Q.
Proof.
  intros Hn Hk i p Hok Hp. unfold mbind, reader_bind, rd_left, refuse, lift, rd_slice.
  destruct g; [done|]. cbn [orb]. destruct (Z.ltb_spec (sat_sub (zlen i) p) n) as [|Hle]; [done|].
  unfold sat_sub in Hle. cbn [guard_err].
  rewrite (proj2 (slice_Ok i p (p + n) (take (Z.to_nat n) (drop (Z.to_nat p) i)))).
  2:{ split; [lia|]. split; [lia|]. do 2 f_equal. lia. }
  cbn [mbind outcome_bind]. specialize (Hk eq_refl (take (Z.to_nat n) (drop (Z.to_nat p) i))).
  rewrite zlen_take in Hk by (rewrite zlen_drop; lia).
  specialize (Hk eq_refl ltac:(by apply bytes_ok_take, bytes_ok_drop) i (p + n) Hok ltac:(lia)).
  destruct (k _ i (p + n)) as [[b p']| |]; [|done..]. split; [lia|by destruct Hk].
Qed.

Lemma safe_at_end {B} (k : bool -> reader B) Q : (forall b, safe (k b) Q) -> safe (rd_at_end ≫= k) Q.
Proof. intros Hk i p Hok Hp. unfold mbind, reader_bind, rd_at_end. by apply Hk. Qed.
#[export] Hint Resolve safe_byte safe_raw_cid safe_rd_usize : safe.

Ltac setup_safe_step :=
  match goal with
  | |- safe (rd_varint ≫= _) _ => eapply safe_bind; [apply safe_varint|intros ? [? ?]]
  | |- safe (rd_usize _ ≫= _) _ => eapply safe_bind; [apply safe_rd_usize; lia|intros ? ->]
  | |- safe (take_setup_byte ≫= _) _ => eapply safe_bind; [apply safe_byte|intros ? [? ?]]
  | |- safe (rd_at_end ≫= _) _ => apply safe_at_end; intros ?
  | _ => safe_step
  end.

Lemma safe_hop : safe Hop.read (fun _ => True).
Proof.
  unfold Hop.read. do 2 setup_safe_step. apply safe_left_slice; [lia|]. intros _ s _ _. repeat setup_safe_step. done.
Qed.

Lemma safe_join : safe Join.read (fun _ => True).
Proof. unfold Join.read. repeat setup_safe_step. done. Qed.

Lemma run_not_Panic {A} (r : reader A) P i : bytes_ok i -> safe r P -> fst <$> run_reader r i <> Panic.
Proof.
  intros Hok Hr. specialize (Hr i 0 Hok ltac:(zlia)). unfold run_reader. by destruct (r i 0) as [[]| |].
Qed.

Lemma safe_hints n : safe (Create.rd_hints n) (fun _ => True).
Proof.
  induction n as [|n IH]; cbn [Create.rd_hints]; [by apply safe_ret|].
  eapply (safe_bind _ _ (fun _ => True)); [|intros h _; eapply safe_bind; [exact IH|intros; by apply safe_ret]].
  unfold Create.rd_hint. eapply safe_bind; [apply safe_bytes; lia|]. intros id _. repeat setup_safe_step.
  eapply safe_bind; [apply safe_bytes; lia|]. intros e [_ He].
  apply (safe_bind _ _ (fun _ => True)); [apply safe_lift; [|done]|intros; by apply safe_ret].
  eapply run_not_Panic; [done|apply safe_hop].
Qed.

Lemma safe_create : safe Create.read (fun _ => True).
Proof.
  unfold Create.read. do 2 setup_safe_step. eapply (safe_bind _ _ (fun _ => True)).
  { intros i p Hok Hp. unfold Create.rd_initial. destruct (checked_add p _) as [e|] eqn:He; [|done]. cbn [ok_or mbind outcome_bind].
    unfold checked_add in He. destruct (_ <=? _); [|done]. injection He as <-.
    destruct (_ || _) eqn:Hg; [done|]. bools.
    destruct (slice i p _) eqn:Hs; [|done|by eapply slice_not_Panic in Hs; [|lia..]]. cbn [mbind outcome_bind]. split; [lia|done]. }
  intros s _. do 2 setup_safe_step. eapply safe_bind; [apply safe_hints|]. intros l _. repeat setup_safe_step.
  apply (safe_bind _ _ (fun _ => True)); [apply safe_lift; [apply ok_or_not_Panic|done]|]. intros. by apply safe_ret.
Qed.
