(* ===== verification/SetupMessages.v ===== *)
(** * Relay setup: requests along a path and their replies

    Over [SetupCodec.v] and the reader facts of [SetupCodecSpec.v]: the view a
    relay decodes is well formed; a request encoded by the opener and forwarded
    by any number of relays keeps its transaction and loses one block per
    layered hop; replies and endpoint payloads round-trip and fit their buffers;
    and no received bytes make any of the decoders panic. *)

From S2P Require Import Prelude Wire PacketHeader AckRanges Reader FlowControl SetupCodec SetupCodecSpec.

(** ** Decoded views *)
Record view_ok (v : SetupRequestView) : Prop := {
  vo_version : version_ok (v_version v) (v_route_mode v);
  vo_transaction : 0 < v_transaction_id v;
  vo_sequence : 0 < sequence (v_circuit v);
  vo_vip : vip_ok (v_destination_vip v);
  vo_cid : reverse_ok (v_previous_reverse_cid v);
  vo_count : 0 < bb_count (v_blocks v) <= MAX_SETUP_BLOCKS;
  vo_bytes : bytes_ok (bb_bytes (v_blocks v));
  vo_size : zlen (bb_bytes (v_blocks v)) <= U64_MAX;
  vo_blocks : Request.check_blocks (Z.to_nat (bb_count (v_blocks v))) (bb_bytes (v_blocks v)) 0
              = Ok (tt, zlen (bb_bytes (v_blocks v)));
}.

(** Blocks that are whole at one place are whole wherever they stand. *)
Lemma whole_blocks_moved n s i p :
  bytes_ok s -> zlen i <= U64_MAX -> at_cursor i p s ->
  Request.check_blocks n i p = Ok (tt, zlen i) -> whole_blocks n s.
Proof.
  intros Hs Hi Hci Hc j q Hj Hcj. pose proof (tracks_check_blocks n i p j q s Hi Hj Hs Hci Hcj) as Ht.
  rewrite Hc in Ht. destruct Ht as (_ & -> & _). do 2 f_equal.
  apply at_cursor_len in Hci, Hcj. lia.
Qed.

Lemma view_whole v : view_ok v -> whole_blocks (Z.to_nat (bb_count (v_blocks v))) (bb_bytes (v_blocks v)).
Proof. intros []. eapply whole_blocks_moved; [done..|apply at_cursor_start|done]. Qed.

Lemma safe_mode : safe Request.rd_mode (fun _ => True).
Proof. unfold Request.rd_mode. setup_safe_step. apply safe_lift; [by repeat case_match|done]. Qed.

Lemma safe_opener : safe Request.rd_opener (fun _ => True).
Proof. unfold Request.rd_opener. setup_safe_step. apply safe_lift; [by repeat case_match|done]. Qed.

Lemma safe_route version :
  version = SETUP_VERSION \/ version = SETUP_REQUEST_VERSION ->
  safe (Request.rd_route_mode version) (fun r => version_ok version r).
Proof.
  intros [-> | ->]; [apply safe_ret; by left|]. unfold Request.rd_route_mode. change (SETUP_REQUEST_VERSION =? SETUP_VERSION) with false.
  cbv iota. setup_safe_step. apply safe_lift; [by repeat case_match|]. intros r _. by right.
Qed.

Lemma safe_vip : safe Request.rd_vip vip_ok.
Proof.
  unfold Request.rd_vip. do 2 setup_safe_step; [by apply safe_ret|]. setup_safe_step; [by apply safe_lift|].
  apply (safe_left_slice 8 false); [lia|]. intros _ s Hs Hok.
  setup_safe_step. apply safe_ret. pose proof (be_val_range s Hok) as Hr. rewrite Hs in Hr. cbv beta in *; bools. split; [|done].
  change (256 ^ 8) with (2 ^ 64) in Hr. unfold U64_MAX. lia.
Qed.

Lemma safe_reverse_cid : safe Request.rd_reverse_cid reverse_ok.
Proof.
  unfold Request.rd_reverse_cid. do 2 setup_safe_step; [by apply safe_ret|]. setup_safe_step; [by apply safe_lift|].
  do 2 setup_safe_step. apply safe_ret. cbv beta in *; bools. by split.
Qed.

Lemma safe_check_blocks n : safe (Request.check_blocks n) (fun _ => True).
Proof.
  induction n as [|n IH]; cbn [Request.check_blocks]; [by apply safe_ret|].
  apply (safe_bind _ _ (fun _ => True)); [|intros [] _; exact IH].
  unfold Request.check_block. repeat setup_safe_step.
  intros i p Hok Hp. unfold mbind, reader_bind, rd_left, refuse, lift, Request.rd_skip.
  destruct (guard_err _ _) as [[]| |] eqn:Hg; [|done|by apply guard_err_not_Panic in Hg]. apply guard_err_Ok in Hg.
  rewrite !orb_false_iff, !Z.ltb_ge in Hg. destruct Hg as [_ Hg]. unfold sat_sub in Hg. split; [lia|done].
Qed.
#[export] Hint Resolve safe_mode safe_opener safe_vip safe_reverse_cid safe_check_blocks : safe.

(** Safety on inputs that fit in memory. *)
Definition safe_sized {A} (r : reader A) (P : A -> Prop) : Prop :=
  forall i p, bytes_ok i -> zlen i <= U64_MAX -> 0 <= p <= zlen i ->
    match r i p with Ok (a, _) => P a | Err _ => True | Panic => False end.

Lemma sized_bind {A B} (r : reader A) (k : A -> reader B) P Q :
  safe r P -> (forall a, P a -> safe_sized (k a) Q) -> safe_sized (r ≫= k) Q.
Proof.
  intros Hr Hk i p Hok Hi Hp. unfold mbind, reader_bind. specialize (Hr i p Hok Hp).
  destruct (r i p) as [[a p1]| |]; [|done..]. destruct Hr as [Hp1 Ha]. apply (Hk a Ha); [done..|lia].
Qed.

Ltac sized_step :=
  match goal with
  | |- safe_sized (rd_varint ≫= _) _ => eapply sized_bind; [apply safe_varint|intros ? [? ?]]
  | |- safe_sized (rd_usize _ ≫= _) _ => eapply sized_bind; [apply safe_rd_usize; lia|intros ? ->]
  | |- safe_sized (_ ≫= _) _ => eapply sized_bind; [solve [eauto with safe]|intros ? ?]
  end.

Lemma safe_request version raw :
  version = SETUP_VERSION \/ version = SETUP_REQUEST_VERSION ->
  safe_sized (Request.read version raw) (fun v => view_ok v /\ v_raw v = raw).
Proof.
  intros Hv. unfold Request.read. sized_step. sized_step. eapply sized_bind; [by apply safe_route|intros route Hroute].
  do 7 sized_step. cbv beta in *; bools. intros i p Hok Hi Hp. unfold mbind, reader_bind, Request.rd_rest, refuse, lift, rd_at_end.
  rewrite (proj2 (slice_from_Ok i p (drop (Z.to_nat p) i))) by done. cbn [mbind outcome_bind].
  match goal with |- context [Request.check_blocks ?n i p] => pose proof (safe_check_blocks n i p Hok Hp) as Hs;
    destruct (Request.check_blocks n i p) as [[[] q]| |] eqn:Hc; [|done..] end.
  destruct (Z.eqb_spec q (zlen i)) as [->|]; [|done]. cbn [negb guard_err]. split; [|done].
  assert (at_cursor i p (drop (Z.to_nat p) i)) as Hcur by done.
  assert (bytes_ok (drop (Z.to_nat p) i)) as Hd by (by apply bytes_ok_drop).
  assert (zlen (drop (Z.to_nat p) i) <= U64_MAX) by (rewrite zlen_drop by done; lia).
  pose proof (whole_blocks_moved _ _ _ _ Hd Hi Hcur Hc) as Hw.
  split; cbn; try done; try lia. apply Hw; [done|apply at_cursor_start].
Qed.

Lemma decode_view_ok b v : bytes_ok b -> Request.decode b = Ok v -> view_ok v /\ v_raw v = b.
Proof.
  intros Hok. unfold Request.decode. destruct b as [|version b]; [done|].
  destruct (_ || _) eqn:Hg; [done|]. apply orb_false_iff in Hg as [Hsz%Z.ltb_ge Hv%negb_false_iff].
  apply orb_true_iff in Hv as [Hv|Hv]; apply Z.eqb_eq in Hv;
    (pose proof (safe_request version (version :: b) ltac:(auto) (version :: b) 1 Hok
      ltac:(pose proof max_body_u64; lia) ltac:(zlia)) as Hs; destruct (Request.read _ _ _ _) as [[w q]| |]; [|done..];
     by intros [= <-]).
Qed.

Lemma request_decode_not_Panic b : bytes_ok b -> Request.decode b <> Panic.
Proof.
  intros Hok. unfold Request.decode. destruct b as [|version b]; [done|].
  destruct (_ || _) eqn:Hg; [done|]. apply orb_false_iff in Hg as [Hsz%Z.ltb_ge Hv%negb_false_iff].
  apply orb_true_iff in Hv as [Hv|Hv]; apply Z.eqb_eq in Hv;
    (pose proof (safe_request version (version :: b) ltac:(auto) (version :: b) 1 Hok
      ltac:(pose proof max_body_u64; lia) ltac:(zlia)) as Hs; by destruct (Request.read _ _ _ _) as [[w q]| |]).
Qed.

(** ** Packets around the bodies *)
Lemma setup_packet_decode {A} ty (dec : bytes -> res A) body cap pkt :
  0 <= ty -> cap <= U64_MAX -> encode_long_packet ty None None 0 1 body cap = Ok pkt ->
  decode_setup_packet ty dec pkt = dec body.
Proof.
  intros Hty Hcap He. destruct (decode_long_encode ty None None 0 1 body cap pkt Hty I I Hcap He) as (at_ & Hd & Hc).
  unfold decode_setup_packet. rewrite Hd. cbn [mbind outcome_bind l_packet_type l_dcid l_scid].
  rewrite Z.eqb_refl. cbn [negb orb]. rewrite !bool_decide_eq_false_2 by (intros Hx; by apply Hx). cbn [orb].
  rewrite <- (app_nil_r body) in Hc. by rewrite (at_cursor_slice_range _ _ _ _ Hc).
Qed.

Lemma setup_packet_not_Panic {A} ty (dec : bytes -> res A) i :
  bytes_ok i -> (forall b, bytes_ok b -> dec b <> Panic) -> decode_setup_packet ty dec i <> Panic.
Proof.
  intros Hok Hdec. unfold decode_setup_packet. apply bind_not_Panic; [by apply decode_long_packet_not_Panic|].
  intros [[h at_] n] Hd. apply decode_long_packet_Ok in Hd as (_ & _ & _ & _ & ? & ? & ? & _); [|done].
  destruct (_ || _); [done|]. apply bind_not_Panic; [apply slice_not_Panic; lia|].
  intros b (_ & _ & ->)%slice_Ok. apply Hdec. by apply bytes_ok_take, bytes_ok_drop.
Qed.

(** ** From the opener *)

(** The view [v] is of request [r] with [k] blocks consumed and reverse
    identifier [cid]. *)
Record carries (r : SetupRequest) (k : nat) (cid : option Z) (v : SetupRequestView) : Prop := {
  ca_version : v_version v = SETUP_REQUEST_VERSION;
  ca_transaction : v_transaction_id v = sr_transaction_id r;
  ca_mode : v_mode v = sr_mode r;
  ca_route : v_route_mode v = sr_route_mode r;
  ca_circuit : v_circuit v = sr_circuit r;
  ca_vip : v_destination_vip v = destination_vip r;
  ca_cid : v_previous_reverse_cid v = cid;
  ca_count : bb_count (v_blocks v) = zlen (sr_blocks r) - Z.of_nat k;
  ca_blocks : forall i, View.get (v_blocks v) i = Ok (sr_blocks r !! (k + i)%nat);
}.

(** The ranges of the Rust types. *)
Record request_ok (r : SetupRequest) : Prop := {
  ro_transaction : 0 <= sr_transaction_id r;
  ro_sequence : 0 <= sequence (sr_circuit r);
  ro_vip : match destination_vip r with Some v => is_u64 v | None => True end;
  ro_cid : match previous_reverse_cid r with Some c => is_cid c | None => True end;
  ro_blocks : Forall (fun b => is_u8 (sb_kind b) /\ is_u8 (sb_version b) /\ bytes_ok (sb_payload b)) (sr_blocks r);
}.

Lemma put_all_bytes l cap s :
  Forall (fun b => is_u8 (sb_kind b) /\ is_u8 (sb_version b) /\ bytes_ok (sb_payload b)) l ->
  existsb Request.block_invalid l = false -> put_all l cap = Ok s -> bytes_ok s.
Proof.
  intros Hl. revert cap s. induction Hl as [|b l (Hk & Hv & Hp) _ IH]; intros cap s; cbn [put_all existsb]; [by intros _ [= <-]; constructor|].
  intros [Hb Hi]%orb_false_iff (s1 & s2 & H1 & H2 & ->)%wseq_Ok. apply bytes_ok_app. split; [|by eapply IH].
  unfold Request.block_invalid in Hb. bools. unfold Request.put_block in H1.
  repeat match goal with Hw : (_ ;;; _) _ = Ok _ |- _ => apply wseq_Ok in Hw as (? & ? & ? & Hw & ->) end.
  repeat match goal with Hw : put_setup_byte _ _ = Ok _ |- _ =>
    unfold put_setup_byte in Hw; destruct (_ <=? 0) in Hw; [done|injection Hw as <-] end.
  match goal with Hw : put_varint _ _ = Ok _ |- _ => apply put_varint_len in Hw as (_ & Hw & _); [|apply zlen_nonneg] end.
  match goal with Hw : put_bytes _ _ = Ok _ |- _ => apply put_bytes_Ok in Hw as [-> _] end.
  cbn [app]. constructor; [done|]. constructor; [done|]. constructor; [unfold U8_MAX; lia|]. by apply bytes_ok_app.
Qed.

Lemma request_valid r :
  request_ok r -> Request.invalid r = false ->
  0 < sr_transaction_id r /\ 0 < sequence (sr_circuit r) /\ vip_ok (destination_vip r) /\
  reverse_ok (previous_reverse_cid r) /\ 0 < zlen (sr_blocks r) <= MAX_SETUP_BLOCKS /\
  existsb Request.block_invalid (sr_blocks r) = false.
Proof.
  intros [Ht Hs Hv Hc _]. unfold Request.invalid. intros Hg. bools. repeat case_bool_decide; try done.
  split; [lia|]. split; [lia|]. split.
  { destruct (destination_vip r); [|done]. split; [done|]. congruence. }
  split.
  { destruct (previous_reverse_cid r); [|done]. split; [done|]. congruence. }
  split; [|done]. assert (zlen (sr_blocks r) <> 0) by (intros Hz; apply zlen_0_nil in Hz; congruence). zlen_pose. lia.
Qed.

Lemma request_encoded r cap b :
  request_ok r -> Request.encode r cap = Ok b -> zlen b <= MAX_SETUP_BODY_BYTES /\
  exists v, Request.decode b = Ok v /\ view_ok v /\ carries r 0 (previous_reverse_cid r) v.
Proof.
  intros Hr. unfold Request.encode. destruct (Request.invalid r) eqn:Hg; [done|].
  destruct (request_valid r Hr Hg) as (Ht & Hs & Hv & Hc & Hn & Hb). intros (h & Hh & (s & Hbl & [= <-])%bind_Ok)%bind_Ok.
  apply put_blocks_Ok in Hbl as [Hall Hmax].
  assert (zlen (h ++ s) <= MAX_SETUP_BODY_BYTES) as Hlen.
  { rewrite zlen_app. apply Hmax. intros Hx%(f_equal zlen). unfold zlen in Hx at 2. simpl in Hx. lia. }
  split; [done|]. pose proof max_body_u64. rewrite zlen_app in Hlen. zlen_pose.
  assert (whole_blocks (Z.to_nat (zlen (sr_blocks r))) s) as Hw.
  { intros i p Hi Hcur. rewrite to_nat_zlen, (at_cursor_len _ _ _ Hcur).
    eapply (reads_check_blocks (sr_blocks r) Hb _ s i p []); [exact Hall|done|by rewrite app_nil_r]. }
  assert (put_body SETUP_REQUEST_VERSION (sr_transaction_id r) (sr_mode r) (sr_route_mode r) (sr_circuit r)
    (destination_vip r) (previous_reverse_cid r) (zlen (sr_blocks r)) (fun _ => Ok s) cap = Ok (h ++ s)) as Hbody.
  { assert ((Request.put_head r ;;; (fun _ => Ok s)) cap = Ok (h ++ s)) as Hseq by (apply wseq_Ok; by exists h, s).
    revert Hseq. unfold Request.put_head, put_body.
    do 8 (intros Hseq%wseq_assoc; revert Hseq; apply wseq_mono; intros ? ?). done. }
  eexists. split.
  { refine (decode_body _ _ _ _ _ _ _ _ _ s cap _ (or_intror eq_refl) Ht Hs Hv Hc Hn _ Hw Hbody _); [by intros ? ? [= ->]|by rewrite zlen_app]. }
  split.
  - split; cbn; try done; try lia; [by right|eapply put_all_bytes; [apply Hr|done|exact Hall]|].
    apply Hw; [lia|apply at_cursor_start].
  - split; cbn; try done; [lia|]. intros i. eapply get_put_all; [exact Hall|lia].
Qed.

(** ** Forwarding *)

(** The first block and the rest. *)
Lemma split_blocks n s p1 :
  bytes_ok s -> zlen s <= U64_MAX -> Request.check_blocks (S n) s 0 = Ok (tt, zlen s) ->
  Request.check_block s 0 = Ok (tt, p1) ->
  0 < p1 <= zlen s /\ whole_blocks n (drop (Z.to_nat p1) s) /\ View.skip_block s 0 = Ok (tt, p1) /\
  forall i c, View.get (mkSetupBlockBytes (drop (Z.to_nat p1) s) c) i = View.get (mkSetupBlockBytes s (c + 1)) (S i).
Proof.
  intros Hok Hs Hc Hb. zlen_pose. destruct (checked_block s 0 p1 Hok Hs ltac:(lia) Hb) as ((b & Hscan) & Hskip & Hp).
  cbn [Request.check_blocks] in Hc. unfold mbind, reader_bind in Hc. rewrite Hb in Hc.
  assert (at_cursor s p1 (drop (Z.to_nat p1) s)) as Hcur by (split; [lia|done]).
  assert (bytes_ok (drop (Z.to_nat p1) s)) as Hd by (by apply bytes_ok_drop).
  split; [lia|]. split; [by eapply whole_blocks_moved|]. split; [done|].
  intros i c. unfold View.get. cbn [bb_count bb_bytes]. replace (c + 1 <=? Z.of_nat (S i)) with (c <=? Z.of_nat i)
    by (destruct (Z.leb_spec c (Z.of_nat i)), (Z.leb_spec (c + 1) (Z.of_nat (S i))); lia || done).
  destruct (c <=? Z.of_nat i); [done|]. unfold run_reader. cbn [View.scan_blocks]. unfold mbind, reader_bind. rewrite Hscan.
  assert (zlen (drop (Z.to_nat p1) s) <= U64_MAX) as Hds by (rewrite zlen_drop; lia).
  pose proof (tracks_scan_blocks i s p1 (drop (Z.to_nat p1) s) 0 _ Hs Hds Hd Hcur (at_cursor_start _)) as Ht.
  destruct (View.scan_blocks i s p1) as [[x q]| |]; [|by rewrite Ht..]. destruct Ht as (_ & -> & _). done.
Qed.

(** What a relay forwards, of a view it decoded. *)
Lemma forwarded_view v cid cap b :
  view_ok v -> reverse_ok cid -> View.encode_after_first_block_with_reverse_cid v cid cap = Ok b ->
  exists w, Request.decode b = Ok w /\ view_ok w /\
    v_version w = v_version v /\ v_transaction_id w = v_transaction_id v /\ v_mode w = v_mode v /\
    v_route_mode w = v_route_mode v /\ v_circuit w = v_circuit v /\ v_destination_vip w = v_destination_vip v /\
    v_previous_reverse_cid w = cid /\ bb_count (v_blocks w) = bb_count (v_blocks v) - View.consumed_blocks v /\
    forall i, View.get (v_blocks w) i = View.get (v_blocks v) (Z.to_nat (View.consumed_blocks v) + i)%nat.
Proof.
  intros Hv Hcid. pose proof Hv as [Hver Ht Hs Hvip _ Hn Hok Hsz Hbl].
  unfold View.encode_after_first_block_with_reverse_cid.
  destruct (Z.leb_spec (bb_count (v_blocks v)) (View.consumed_blocks v)) as [|Hcount]; [done|].
  intros (hop & _ & H)%bind_Ok. apply bind_Ok in H as ([[] pos] & Hskip & H). apply bind_Ok in H as (rem & Hrem & H).
  apply wlimit_Ok in H as [Hw Hmax]. apply slice_from_Ok in Hrem as [Hpos ->].
  destruct (v_blocks v) as [bb count] eqn:Hvb. cbn [bb_bytes bb_count] in *.
  assert (whole_blocks (Z.to_nat (count - View.consumed_blocks v)) (drop (Z.to_nat pos) bb) /\
    forall i, View.get (mkSetupBlockBytes (drop (Z.to_nat pos) bb) (count - View.consumed_blocks v)) i
      = View.get (mkSetupBlockBytes bb count) (Z.to_nat (View.consumed_blocks v) + i)%nat) as [Hwhole Hget].
  { unfold View.consumed_blocks in *. case_bool_decide.
    - injection Hskip as <-. rewrite Z.sub_0_r, drop_0. split; [|done].
      pose proof (view_whole v Hv) as Hwv. by rewrite Hvb in Hwv.
    - change (Z.to_nat 1) with 1%nat in Hskip. cbn [View.skip_blocks] in Hskip.
      unfold run_reader, mbind, reader_bind in Hskip. replace (Z.to_nat count) with (S (Z.to_nat (count - 1))) in Hbl by lia.
      destruct (Request.check_block bb 0) as [[[] p1]| |] eqn:Hcb;
        [|cbn [Request.check_blocks] in Hbl; unfold mbind, reader_bind in Hbl; by rewrite Hcb in Hbl..].
      destruct (split_blocks _ _ _ Hok Hsz Hbl Hcb) as (_ & Hwh & Hsk & Hg). rewrite Hsk in Hskip.
      injection Hskip as <-. split; [done|]. intros i. rewrite Hg. do 2 f_equal. lia. }
  assert (bytes_ok (drop (Z.to_nat pos) bb)) as Hdok by (by apply bytes_ok_drop).
  eexists. split.
  { refine (decode_body _ _ _ _ _ _ _ _ _ (drop (Z.to_nat pos) bb) cap _ Hver Ht Hs Hvip Hcid _ _ Hwhole Hw Hmax).
    - unfold View.consumed_blocks in *. case_bool_decide; lia.
    - by intros c x [-> _]%put_bytes_Ok. }
  split; [|split_and!; done]. assert (zlen (drop (Z.to_nat pos) bb) <= U64_MAX) by (rewrite zlen_drop; lia).
  split; cbn; try done; [unfold View.consumed_blocks in *; case_bool_decide; lia|].
  apply Hwhole; [done|apply at_cursor_start].
Qed.

(** The instruction of the first block left. *)
Lemma instruction_read r k cid v h cap payload :
  carries r k cid v -> sr_blocks r !! k = Some (mkSetupBlock SETUP_BLOCK_RELAY 1 0 payload) ->
  hop_ok h -> Hop.encode h cap = Ok payload -> View.current_hop_instruction v = Ok h.
Proof.
  intros Hv Hk Hh He. unfold View.current_hop_instruction. rewrite (ca_blocks _ _ _ _ Hv 0), Nat.add_0_r, Hk.
  cbn [mbind outcome_bind ok_or sb_kind sb_version sb_protection sb_payload].
  change (_ || _) with false. cbv iota. by destruct (hop_decode_encode _ _ _ Hh He).
Qed.

(** A request forwarded by relays that put [cids] on it, in order. *)
Fixpoint relayed (cap : Z) (cids : list Z) (v : SetupRequestView) : res SetupRequestView :=
  match cids with
  | [] => Ok v
  | c :: cids' =>
      pkt ← View.encode_packet_after_first_block_with_reverse_cid v (Some c) cap;
      w ← decode_setup_request_packet pkt;
      relayed cap cids' w
  end.

Definition blocks_used (r : SetupRequest) (hops : nat) : nat :=
  if bool_decide (sr_route_mode r = Telescoping) then 0 else hops.

Lemma one_hop r k cid v c cap pkt :
  cap <= U64_MAX -> is_cid c -> c <> 0 -> view_ok v -> carries r (blocks_used r k) cid v ->
  View.encode_packet_after_first_block_with_reverse_cid v (Some c) cap = Ok pkt ->
  exists w, decode_setup_request_packet pkt = Ok w /\ view_ok w /\ carries r (blocks_used r (S k)) (Some c) w.
Proof.
  intros Hcap Hc Hnz Hv Hr. unfold View.encode_packet_after_first_block_with_reverse_cid. intros (b & Hb & Hpkt)%bind_Ok.
  destruct (forwarded_view v (Some c) _ b Hv (conj Hc Hnz) Hb)
    as (w & Hw & Hok & Hver & Ht & Hm & Hro & Hci & Hvip & Hpc & Hcount & Hget).
  exists w. split; [|split; [done|]].
  { unfold decode_setup_request_packet. erewrite setup_packet_decode; [exact Hw|done|exact Hcap|exact Hpkt]. }
  destruct Hr. unfold View.consumed_blocks, blocks_used in *. rewrite ca_route0 in *. split; try congruence.
  - rewrite Hcount, ca_count0. case_bool_decide; lia.
  - intros i. rewrite Hget, ca_blocks0. do 2 f_equal. case_bool_decide; lia.
Qed.

Lemma relayed_carries r cap cids k cid v w :
  cap <= U64_MAX -> Forall (fun c => is_cid c /\ c <> 0) cids -> view_ok v -> carries r (blocks_used r k) cid v ->
  relayed cap cids v = Ok w ->
  view_ok w /\ carries r (blocks_used r (k + length cids)) (default cid (Some <$> last cids)) w.
Proof.
  intros Hcap Hcids. revert k cid v. induction Hcids as [|c cids [Hc Hnz] _ IH]; intros k cid v Hv Hr; cbn [relayed length].
  - intros [= <-]. by rewrite Nat.add_0_r.
  - intros (pkt & Hpkt & (x & Hx & H)%bind_Ok)%bind_Ok.
    destruct (one_hop r k cid v c cap pkt Hcap Hc Hnz Hv Hr Hpkt) as (x' & Hx' & Hok & Hr').
    rewrite Hx in Hx'. injection Hx' as <-. destruct (IH (S k) (Some c) x Hok Hr' H) as [Hw Hcar]. split; [done|].
    replace (k + S (length cids))%nat with (S k + length cids)%nat by lia.
    replace (default cid (Some <$> last (c :: cids))) with (default (Some c) (Some <$> last cids)); [done|].
    rewrite last_cons. by destruct (last cids).
Qed.

(** C26: A source-routed setup request reaches every hop as the opener wrote it.
    The PATH_OPEN packet an opener encodes is decoded by the first relay to the
    same request; and after any relays have forwarded it, the next node decodes
    the same transaction, mode, circuit and destination, the reverse identifier
    of the last relay, and exactly the blocks that are left: all of them on a
    telescoping route, all but one per hop on the others.  Where the first of
    these is a relay block, the hop reads the instruction written for it. *)
Theorem setup_request_follows_route r cap pkt :
  request_ok r -> cap <= U64_MAX -> Request.encode_packet r cap = Ok pkt ->
  exists v, decode_setup_request_packet pkt = Ok v /\
    forall cids w, Forall (fun c => is_cid c /\ c <> 0) cids -> relayed cap cids v = Ok w ->
      let k := blocks_used r (length cids) in
      carries r k (default (previous_reverse_cid r) (Some <$> last cids)) w /\
      forall h cap' payload, sr_blocks r !! k = Some (mkSetupBlock SETUP_BLOCK_RELAY 1 0 payload) ->
        hop_ok h -> Hop.encode h cap' = Ok payload -> View.current_hop_instruction w = Ok h.
Proof.
  intros Hr Hcap (b & Hb & Hpkt)%bind_Ok. destruct (request_encoded r _ b Hr Hb) as (_ & v & Hd & Hv & Hcar).
  exists v. split.
  { unfold decode_setup_request_packet. erewrite setup_packet_decode; [exact Hd|done|exact Hcap|exact Hpkt]. }
  intros cids w Hcids Hrel. assert (carries r (blocks_used r 0) (previous_reverse_cid r) v) as Hcar0
    by (unfold blocks_used; by case_bool_decide).
  destruct (relayed_carries r cap cids 0 _ v w Hcap Hcids Hv Hcar0 Hrel) as [_ Hw]. cbv zeta. split; [exact Hw|].
  intros h cap' payload Hk Hh He. eapply instruction_read; [exact Hw|exact Hk|exact Hh|exact He].
Qed.

(** ** Replies *)

(** The identifiers [l], front first. *)
Definition cids_of (l : list Z) : SetupRelayCids :=
  mkSetupRelayCids (zlen l) ((Some <$> l) ++ replicate (Z.to_nat (MAX_SETUP_BLOCKS - 1) - length l) None).
Definition cids_ok (l : list Z) : Prop :=
  Forall (fun c => is_cid c /\ c <> 0) l /\ zlen l <= MAX_SETUP_BLOCKS - 1.
Definition ack_of (s : bytes) : SetupBootstrapAck :=
  mkSetupBootstrapAck (zlen s) (padded MAX_SETUP_BOOTSTRAP_ACK_BYTES s).
Definition ack_ok (s : bytes) : Prop := s <> [] /\ zlen s <= MAX_SETUP_BOOTSTRAP_ACK_BYTES.

Definition result_ok (r : SetupResult) : Prop :=
  match r with
  | Accepted c lease => is_cid c /\ c <> 0 /\ 0 < lease < 2 ^ 62
  | Rejected code => 0 < code < 2 ^ 62
  end.

(** A reply with result [result], bootstrap acknowledgement [ack] and relay identifiers [l]. *)
Definition reply_of (tid : Z) (circuit : SetupCircuitKey) (result : SetupResult) (ack : option bytes) (l : list Z)
    : SetupReply :=
  mkSetupReply tid circuit result (ack_of <$> ack) (cids_of l).

Definition reply_ok (tid : Z) (circuit : SetupCircuitKey) (result : SetupResult) (ack : option bytes) (l : list Z)
    : Prop :=
  0 < tid < 2 ^ 62 /\ 0 < sequence circuit < 2 ^ 62 /\ result_ok result /\ cids_ok l /\
  match ack with Some s => ack_ok s | None => True end /\
  (is_rejected result = true -> ack = None /\ l = []).

Lemma ack_as_bytes s : Ack.as_bytes (ack_of s) = s.
Proof. unfold Ack.as_bytes, ack_of, padded. cbn [ack_len ack_bytes]. by rewrite to_nat_zlen, take_app_length. Qed.

Lemma ack_from_slice s : ack_ok s -> Ack.from_slice s = Ok (ack_of s).
Proof.
  intros [Hne Hs]. unfold Ack.from_slice. rewrite bool_decide_eq_false_2, (proj2 (Z.ltb_ge _ _)) by done. cbn [orb].
  rewrite as_u8_small; [done|]. unfold MAX_SETUP_BOOTSTRAP_ACK_BYTES, U8_MAX in *. zlia.
Qed.

(** *** A writer that fits *)
Definition fits (w : writer Error.t) (n : Z) : Prop :=
  forall cap, n <= cap -> exists b, w cap = Ok b /\ zlen b <= n.

Lemma set_fits_seq w1 w2 n1 n2 : 0 <= n2 -> fits w1 n1 -> fits w2 n2 -> fits (w1 ;;; w2) (n1 + n2).
Proof.
  intros Hn H1 H2 cap Hcap. destruct (H1 cap) as (b1 & Hb1 & Hl1); [lia|].
  destruct (H2 (cap - zlen b1)) as (b2 & Hb2 & Hl2); [lia|]. exists (b1 ++ b2). split; [|zlia].
  apply wseq_Ok. by exists b1, b2.
Qed.

Lemma fits_byte v : fits (put_setup_byte v) 1.
Proof. intros cap Hcap. unfold put_setup_byte. rewrite (proj2 (Z.leb_gt _ _)) by lia. by exists [v]. Qed.

Lemma set_fits_varint v : is_varint v -> fits (put_varint v) 8.
Proof.
  intros Hv cap Hcap. assert (varint_len v <= 8) as Hl by (unfold varint_len; repeat case_match; lia).
  destruct (put_varint_shape v cap Hv ltac:(lia)) as (m & t & h & _ & Hs & _). eexists. split; [exact Hs|].
  apply put_varint_len in Hs as (-> & _); lia.
Qed.

Lemma set_fits_cid c : is_cid c -> fits (put_raw_cid c) 8.
Proof.
  intros Hc cap Hcap. assert (ConnectionId.encoded_len c <= 8) as Hl
    by (destruct (encoded_len_cases c Hc) as [[-> _]|[[-> _]|[[-> _]|[-> _]]]]; lia).
  destruct (cid_encode_shape c cap Hc ltac:(lia)) as (m & h & _ & Hs & _). eexists. split; [exact Hs|].
  apply cid_encode_len in Hs as (-> & _); done.
Qed.

Lemma set_fits_bytes s n : zlen s <= n -> fits (put_bytes s) n.
Proof. intros Hs cap Hcap. unfold put_bytes. rewrite (proj2 (Z.ltb_ge _ _)) by lia. by exists s. Qed.

Lemma slot_at pre c l : index (E:=Error.t) (rc_cids (cids_of (pre ++ c :: l))) (Z.of_nat (length pre)) = Ok (Some c).
Proof.
  unfold index, get_ix, cids_of. cbn [rc_cids]. rewrite (proj2 (Z.leb_le 0 _)), Nat2Z.id by lia.
  rewrite lookup_app_l by (rewrite length_fmap, length_app; simpl; lia).
  by rewrite list_lookup_fmap, lookup_app_r, Nat.sub_diag by lia.
Qed.

Lemma fits_cids l pre :
  Forall (fun c => is_cid c /\ c <> 0) l ->
  fits (RelayCids.put_cids (cids_of (pre ++ l)) (length pre) (length l)) (8 * zlen l).
Proof.
  intros Hl. revert pre. induction Hl as [|c l [Hc _] _ IH]; intros pre; cbn [length RelayCids.put_cids].
  { intros cap Hcap. by exists []. }
  replace (8 * zlen (c :: l)) with (8 + 8 * zlen l) by zlia. apply set_fits_seq; [zlia| |].
  - intros cap Hcap. rewrite slot_at. cbn [mbind outcome_bind ok_or]. by apply set_fits_cid.
  - specialize (IH (pre ++ [c])). rewrite length_app, <- app_assoc in IH. simpl in IH. by rewrite Nat.add_1_r in IH.
Qed.

Lemma reads_cids l pre n :
  Forall (fun c => is_cid c /\ c <> 0) l ->
  reads (RelayCids.rd_cids (length pre) (length l) ((Some <$> pre) ++ replicate (length l + n) None))
    (RelayCids.put_cids (cids_of (pre ++ l)) (length pre) (length l))
    ((Some <$> (pre ++ l)) ++ replicate n None).
Proof.
  intros Hl. revert pre. induction Hl as [|c l [Hc Hnz] _ IH]; intros pre; cbn [length RelayCids.put_cids RelayCids.rd_cids].
  { rewrite app_nil_r. apply reads_ret. }
  eapply reads_bind.
  { eapply reads_ext; [|by apply reads_raw_cid]. intros cap b. by rewrite slot_at. }
  apply reads_refuse; [by apply Z.eqb_neq|]. cbn [Nat.add replicate].
  rewrite insert_app_r_alt by (by rewrite length_fmap). rewrite length_fmap, Nat.sub_diag. cbn.
  specialize (IH (pre ++ [c])). rewrite length_app, fmap_app, <- !app_assoc in IH. simpl in IH.
  by rewrite Nat.add_1_r in IH.
Qed.

Lemma reads_relay_cids l : cids_ok l -> reads RelayCids.read (RelayCids.encode (cids_of l)) (cids_of l).
Proof.
  intros [Hl Hn]. unfold RelayCids.read, RelayCids.encode, cids_of at 1 2 3. cbn [rc_len].
  setup_step. setup_step; [unfold MAX_SETUP_BLOCKS, U64_MAX in *; lia|]. apply reads_refuse; [by apply Z.ltb_ge|].
  rewrite to_nat_zlen. eapply reads_pure.
  - pose proof (reads_cids l [] (Z.to_nat (MAX_SETUP_BLOCKS - 1) - length l) Hl) as Hr. cbn [app length fmap list_fmap] in Hr.
    replace (length l + _)%nat with (Z.to_nat (MAX_SETUP_BLOCKS - 1)) in Hr by (unfold zlen in Hn; lia). exact Hr.
  - intros input p. rewrite as_u8_small; [done|]. unfold MAX_SETUP_BLOCKS, U8_MAX in *. zlia.
Qed.

(** *** The encoded reply *)
Lemma fits_result r : result_ok r -> fits (Reply.put_result r) 17.
Proof.
  destruct r as [c lease|code]; cbn [result_ok Reply.put_result].
  - intros (Hc & Hnz & Hl). rewrite (proj2 (Z.eqb_neq c 0)), (proj2 (Z.eqb_neq lease 0)) by lia. cbn [negb andb].
    change 17 with (1 + (8 + 8)). apply set_fits_seq; [lia|apply fits_byte|].
    apply set_fits_seq; [lia|by apply set_fits_cid|apply set_fits_varint; lia].
  - intros Hcode. rewrite (proj2 (Z.eqb_neq code 0)) by lia. intros cap Hcap.
    destruct (set_fits_seq _ _ 1 8 ltac:(lia) (fits_byte 1) (set_fits_varint code ltac:(lia)) cap) as (b & Hb & Hlen); [lia|].
    exists b. split; [done|lia].
Qed.

Lemma fits_ack r a :
  match a with Some s => ack_ok s | None => True end -> (is_rejected r = true -> a = None) ->
  fits (Reply.put_ack r (ack_of <$> a)) 137.
Proof.
  intros Ha Hr. destruct a as [s|]; [destruct r; [|by specialize (Hr eq_refl)]|].
  - cbn [Reply.put_ack fmap option_fmap option_map]. rewrite ack_as_bytes. destruct Ha as [_ Hs].
    change 137 with (1 + (8 + 128)). apply set_fits_seq; [lia|apply fits_byte|]. apply set_fits_seq; [lia| |by apply set_fits_bytes].
    apply set_fits_varint. unfold MAX_SETUP_BOOTSTRAP_ACK_BYTES in Hs. zlia.
  - intros cap Hcap. destruct (fits_byte 0 cap) as (b & Hb & Hl); [lia|]. exists b. split; [by destruct r|lia].
Qed.

Lemma fits_relay_cids l : cids_ok l -> fits (RelayCids.encode (cids_of l)) 64.
Proof.
  intros [Hl Hn]. change 64 with (8 + 56). apply set_fits_seq; [lia| |].
  - apply set_fits_varint. unfold MAX_SETUP_BLOCKS in Hn. cbn [rc_len cids_of]. zlia.
  - cbn [rc_len cids_of]. rewrite to_nat_zlen. intros cap Hcap. unfold MAX_SETUP_BLOCKS in Hn.
    destruct (fits_cids l [] Hl cap) as (b & Hb & Hlen); [lia|]. exists b. split; [exact Hb|lia].
Qed.

Lemma reply_fits tid circuit result ack l :
  reply_ok tid circuit result ack l ->
  exists b, Reply.encode (reply_of tid circuit result ack l) DEFAULT_SETUP_REPLY_BYTES = Ok b /\ zlen b <= 236.
Proof.
  intros (Ht & Hs & Hr & Hl & Ha & Hrej). unfold Reply.encode, reply_of.
  cbn [rp_transaction_id rp_circuit rp_result bootstrap_ack relay_cids].
  rewrite (proj2 (Z.eqb_neq tid 0)), (proj2 (Z.eqb_neq (sequence circuit) 0)) by lia. cbn [orb].
  assert (Reply.put_relay_cids result (cids_of l) = RelayCids.encode (cids_of l)) as ->.
  { unfold Reply.put_relay_cids. destruct (is_rejected result); [|done]. by destruct (Hrej eq_refl) as [_ ->]. }
  assert (fits (put_setup_byte SETUP_VERSION ;;; put_varint tid ;;; put_opener (opener_role circuit)
    ;;; put_varint (sequence circuit) ;;; Reply.put_result result ;;; Reply.put_ack result (ack_of <$> ack)
    ;;; RelayCids.encode (cids_of l)) (1 + (8 + (1 + (8 + (17 + (137 + 64))))))) as Hfits.
  { apply set_fits_seq; [lia|apply fits_byte|]. apply set_fits_seq; [lia|apply set_fits_varint; lia|].
    apply set_fits_seq; [lia|apply fits_byte|]. apply set_fits_seq; [lia|apply set_fits_varint; lia|].
    apply set_fits_seq; [lia|by apply fits_result|]. apply set_fits_seq; [lia| |by apply fits_relay_cids].
    apply fits_ack; [done|]. intros Hx. by apply Hrej. }
  destruct (Hfits DEFAULT_SETUP_REPLY_BYTES) as (b & Hb & Hlen); [by vm_compute|]. exists b. unfold wlimit.
  rewrite Hb. cbn [mbind outcome_bind]. change MAX_SETUP_BODY_BYTES with 1036. rewrite (proj2 (Z.ltb_ge _ _)) by lia.
  split; [done|lia].
Qed.

(** *** Reading it back *)
Lemma reads_result r : result_ok r -> reads Reply.rd_result (Reply.put_result r) r.
Proof.
  unfold Reply.rd_result. destruct r as [c lease|code]; cbn [result_ok Reply.put_result].
  - intros (Hc & Hnz & Hl). rewrite (proj2 (Z.eqb_neq c 0)), (proj2 (Z.eqb_neq lease 0)) by lia. cbn [negb andb].
    eapply reads_bind; [apply reads_byte|]. change (0 =? 0) with true. cbv iota.
    eapply reads_bind; [by apply reads_raw_cid|]. apply reads_refuse; [by apply Z.eqb_neq|].
    eapply reads_pure; [apply reads_varint; lia|]. intros input p. unfold mbind, reader_bind.
    by rewrite (proj2 (Z.eqb_neq lease 0)) by lia.
  - intros Hcode. rewrite (proj2 (Z.eqb_neq code 0)) by lia. eapply reads_bind; [apply reads_byte|].
    change (1 =? 0) with false. change (1 =? 1) with true. cbv iota.
    eapply reads_pure; [apply reads_varint; lia|]. intros input p. unfold mbind, reader_bind.
    by rewrite (proj2 (Z.eqb_neq code 0)) by lia.
Qed.

Lemma reads_ack r a :
  match a with Some s => ack_ok s | None => True end -> (is_rejected r = true -> a = None) ->
  reads Reply.rd_ack (Reply.put_ack r (ack_of <$> a)) (ack_of <$> a).
Proof.
  intros Ha Hr. unfold Reply.rd_ack. destruct a as [s|]; [destruct r; [|by specialize (Hr eq_refl)]|].
  - cbn [Reply.put_ack fmap option_fmap option_map]. rewrite ack_as_bytes. eapply reads_bind; [apply reads_byte|].
    change (1 =? 0) with false. change (negb (1 =? 1)) with false. cbv iota. setup_step.
    setup_step; [destruct Ha as [_ Hs]; unfold MAX_SETUP_BOOTSTRAP_ACK_BYTES, U64_MAX in *; lia|].
    eapply reads_pure; [apply reads_bytes|]. intros input p. unfold mbind, reader_bind, lift. by rewrite ack_from_slice.
  - eapply reads_ext; [|eapply reads_pure; [apply (reads_byte 0)|done]]. intros cap b. by destruct r.
Qed.

Lemma reply_decoded tid circuit result ack l b :
  reply_ok tid circuit result ack l ->
  Reply.encode (reply_of tid circuit result ack l) DEFAULT_SETUP_REPLY_BYTES = Ok b ->
  Reply.decode b = Ok (reply_of tid circuit result ack l).
Proof.
  intros (Ht & Hs & Hr & Hl & Ha & Hrej). unfold Reply.encode. destruct (_ || _); [done|].
  unfold reply_of at 1 2 3 4 5 6 7. cbn [rp_transaction_id rp_circuit rp_result bootstrap_ack relay_cids].
  intros [Hw Hmax]%wlimit_Ok. apply wseq_Ok in Hw as (b0 & b1 & H0 & H1 & ->). unfold put_setup_byte in H0.
  destruct (_ <=? 0); [done|]. injection H0 as <-. unfold Reply.decode. cbn [app] in *. rewrite (proj2 (Z.ltb_ge _ _)) by done.
  change (SETUP_VERSION =? SETUP_VERSION) with true. cbn [negb orb].
  assert (zlen (SETUP_VERSION :: b1) <= U64_MAX) as Hsz by (pose proof max_body_u64; lia).
  cut (reads_last Reply.read (put_varint tid ;;; put_opener (opener_role circuit) ;;; put_varint (sequence circuit)
    ;;; Reply.put_result result ;;; Reply.put_ack result (ack_of <$> ack)
    ;;; Reply.put_relay_cids result (cids_of l)) (reply_of tid circuit result ack l)).
  { intros Hread. by rewrite (Hread _ _ _ 1 H1 Hsz (at_cursor_app _ 0 [SETUP_VERSION] b1 (at_cursor_start _))). }
  unfold Reply.read. eapply reads_bind_last; [apply reads_varint; lia|]. eapply reads_bind_last; [apply reads_opener|].
  eapply reads_bind_last; [apply reads_varint; lia|]. eapply reads_bind_last; [by apply reads_result|].
  eapply reads_bind_last; [apply reads_ack; [done|intros Hx; by apply Hrej]|].
  eapply reads_last_snoc; [apply (reads_ext _ (RelayCids.encode (cids_of l))); [|by apply reads_relay_cids]|].
  { intros cap x. unfold Reply.put_relay_cids. by destruct (_ && _). }
  apply reads_last_refuse.
  { destruct (is_rejected result); [|done]. by destruct (Hrej eq_refl) as [-> _]. }
  apply reads_last_refuse.
  { destruct (is_rejected result); [|done]. by destruct (Hrej eq_refl) as [_ ->]. }
  apply reads_at_end, reads_last_refuse; [|destruct circuit; apply reads_last_ret].
  by rewrite (proj2 (Z.eqb_neq tid 0)), (proj2 (Z.eqb_neq (sequence circuit) 0)) by lia.
Qed.

(** The packet around a body adds at most 16 bytes. *)
Lemma setup_packet_fits ty body cap :
  1 <= ty <= 3 -> body <> [] -> zlen body < 2 ^ 61 -> zlen body + 16 <= cap ->
  exists pkt, encode_long_packet ty None None 0 1 body cap = Ok pkt /\ zlen pkt <= zlen body + 16.
Proof.
  intros Hty Hne Hlen Hcap. unfold encode_long_packet. rewrite (proj2 (Z.ltb_ge 3 ty)), bool_decide_eq_false_2 by (done || lia).
  change (negb ((1 <=? 1) && (1 <=? 4))) with false. cbn [orb opt_cid_len encode_long_cid mbind outcome_bind].
  rewrite (proj2 (Z.eqb_neq ty LONG_PACKET_INITIAL)) by (unfold LONG_PACKET_INITIAL; lia).
  rewrite (proj2 (Z.ltb_ge cap _)) by lia.
  match goal with |- context [put_varint ?v ?c] =>
    destruct (set_fits_varint v ltac:(zlia) c) as (ln & -> & Hl) end.
  { rewrite !zlen_app, !zlen_cons, zlen_be_bytes, zlen_nil. zlen_pose. lia. }
  cbn [mbind outcome_bind]. eexists. split; [done|]. change (Z.to_nat (4 - 1)) with 3%nat.
  change (drop 3 (be_bytes 4 0)) with [0].
  rewrite !zlen_app, !zlen_cons, zlen_be_bytes, zlen_nil. lia.
Qed.

(** A setup reply always fits and comes back as it was sent.  Every valid
    PATH_OPEN_ACK, with up to seven relay identifiers and a bootstrap
    acknowledgement of up to 128 bytes, is encoded in at most the 256 bytes that
    are reserved for it when its request is admitted, and is decoded to the same
    reply. *)
Theorem setup_reply_roundtrip tid circuit result ack l cap :
  reply_ok tid circuit result ack l -> DEFAULT_SETUP_REPLY_BYTES <= cap <= U64_MAX ->
  let r := reply_of tid circuit result ack l in
  exists pkt, Reply.encode_packet r cap = Ok pkt /\ zlen pkt <= DEFAULT_SETUP_REPLY_BYTES /\
    decode_setup_reply_packet pkt = Ok r.
Proof.
  intros Hok Hcap. cbv zeta. destruct (reply_fits _ _ _ _ _ Hok) as (b & Hb & Hlen).
  pose proof (reply_decoded _ _ _ _ _ _ Hok Hb) as Hd. unfold Reply.encode_packet. rewrite Hb. cbn [mbind outcome_bind].
  unfold DEFAULT_SETUP_REPLY_BYTES in *.
  destruct (setup_packet_fits LONG_PACKET_PATH_OPEN_ACK b cap) as (pkt & Hpkt & Hsz).
  - by vm_compute.
  - intros ->. done.
  - lia.
  - lia.
  - exists pkt. split; [done|]. split; [lia|]. unfold decode_setup_reply_packet.
    rewrite (setup_packet_decode _ _ b cap pkt) by (done || lia). done.
Qed.

(** *** Identifiers prepended on the way back *)
Lemma shift_app n a x b :
  length a = n -> RelayCids.shift n (a ++ x :: b) = Ok (take 1 (a ++ [x]) ++ a ++ b).
Proof.
  revert a x b. induction n as [|i IH]; intros a x b Ha; [by destruct a|].
  destruct a as [|y a _] using rev_ind; [done|]. rewrite length_app in Ha. simpl in Ha.
  cbn [RelayCids.shift]. rewrite <- app_assoc. cbn [app]. unfold index, get_ix. rewrite (proj2 (Z.leb_le 0 _)), Nat2Z.id by lia.
  rewrite lookup_app_r by lia. replace (i - length a)%nat with 0%nat by lia. cbn [lookup list_lookup mbind outcome_bind].
  rewrite (proj2 (Z.leb_gt _ _)) by (unfold zlen; rewrite length_app; simpl; lia).
  replace (<[S i := y]> (a ++ y :: x :: b)) with (a ++ y :: y :: b).
  2:{ rewrite insert_app_r_alt by lia. by replace (S i - length a)%nat with 1%nat by lia. }
  rewrite IH by lia. f_equal. rewrite <- !app_assoc. f_equal. by destruct a.
Qed.

Lemma prepend_cids c l :
  is_cid c -> c <> 0 -> cids_ok l ->
  RelayCids.prepend c (cids_of l) =
    if zlen l <? MAX_SETUP_BLOCKS - 1 then Ok (cids_of (c :: l)) else Err Error.Invalid.
Proof.
  intros Hc Hnz [_ Hl]. unfold RelayCids.prepend, cids_of. cbn [rc_len rc_cids].
  rewrite (proj2 (Z.eqb_neq c 0)) by done. cbn [orb].
  assert (zlen ((Some <$> l) ++ replicate (Z.to_nat (MAX_SETUP_BLOCKS - 1) - length l) None) = MAX_SETUP_BLOCKS - 1) as ->.
  { unfold zlen in *. rewrite length_app, length_fmap, length_replicate. unfold MAX_SETUP_BLOCKS in *. lia. }
  destruct (Z.ltb_spec (zlen l) (MAX_SETUP_BLOCKS - 1)) as [Hlt|Hge]; [|by rewrite (proj2 (Z.leb_le _ _))].
  rewrite (proj2 (Z.leb_gt _ _)) by done. rewrite to_nat_zlen. cbn [length].
  replace (Z.to_nat (MAX_SETUP_BLOCKS - 1) - length l)%nat
    with (S (Z.to_nat (MAX_SETUP_BLOCKS - 1) - S (length l)))%nat by (unfold zlen in Hlt; lia).
  cbn [replicate]. rewrite shift_app by (by rewrite length_fmap). cbn [mbind outcome_bind]. f_equal.
  rewrite zlen_cons. f_equal. by destruct l.
Qed.

(** Relay identifiers come back in path order.  A reply accepted by the last
    hop, to which each relay on its way back prepends its identifier, carries
    the identifiers from the first relay to the last; [get] reads them, and the
    eighth is refused. *)
Theorem relay_cids_in_path_order l :
  Forall (fun c => is_cid c /\ c <> 0) l ->
  foldr (fun c o => o ≫= RelayCids.prepend c) (Ok RelayCids.empty) l =
    (if zlen l <=? MAX_SETUP_BLOCKS - 1 then Ok (cids_of l) else Err Error.Invalid) /\
  forall i, zlen l <= MAX_SETUP_BLOCKS - 1 -> RelayCids.get (cids_of l) i = l !! i.
Proof.
  intros Hl. split.
  - induction Hl as [|c l [Hc Hnz] Hl IH]; [done|]. cbn [foldr]. rewrite IH, zlen_cons.
    destruct (Z.leb_spec (zlen l) (MAX_SETUP_BLOCKS - 1)) as [Hle|Hgt].
    + cbn [mbind outcome_bind]. rewrite prepend_cids by done.
      destruct (Z.ltb_spec (zlen l) (MAX_SETUP_BLOCKS - 1)), (Z.leb_spec (zlen l + 1) (MAX_SETUP_BLOCKS - 1)); done || lia.
    + by rewrite (proj2 (Z.leb_gt (zlen l + 1) _)) by lia.
  - intros i Hn. unfold RelayCids.get, RelayCids.cid_at, cids_of. cbn [rc_len rc_cids].
    destruct (decide (i < length l)%nat) as [Hi|Hi].
    + destruct (lookup_lt_is_Some_2 l i Hi) as [c Hc]. rewrite lookup_app_l by (by rewrite length_fmap).
      rewrite list_lookup_fmap, Hc. cbn. by rewrite (proj2 (Z.ltb_lt _ _)) by (unfold zlen; lia).
    + rewrite (lookup_ge_None_2 l i) by lia. destruct (mjoin _); [|done]. cbn [mbind option_bind].
      by rewrite (proj2 (Z.ltb_ge _ _)) by (unfold zlen; lia).
Qed.

(** ** No panics *)
Definition never_panics (w : writer Error.t) : Prop := forall cap, w cap <> Panic.

Lemma quiet_seq w1 w2 : never_panics w1 -> never_panics w2 -> never_panics (w1 ;;; w2).
Proof. intros H1 H2 cap. apply bind_not_Panic; [apply H1|]. intros b _. apply bind_not_Panic; [apply H2|done]. Qed.

Lemma quiet_byte v : never_panics (put_setup_byte v).
Proof. intros cap. unfold put_setup_byte. by destruct (_ <=? _). Qed.

Lemma quiet_varint v : never_panics (put_varint v).
Proof.
  intros cap. unfold put_varint. apply bind_not_Panic; [by repeat case_match|]. intros n _. by destruct (_ <? _).
Qed.

Lemma quiet_cid c : never_panics (put_raw_cid c).
Proof. intros cap. unfold put_raw_cid, ConnectionId.encode. by destruct (_ <? _). Qed.

Lemma quiet_bytes s : never_panics (put_bytes s).
Proof. intros cap. unfold put_bytes. by destruct (_ <? _). Qed.
Create HintDb quiet.
#[export] Hint Resolve quiet_seq quiet_byte quiet_varint quiet_cid quiet_bytes : quiet.

Lemma safe_scan_block : safe View.scan_block (fun b => bytes_ok (sb_payload b)).
Proof.
  unfold View.scan_block. repeat setup_safe_step. eapply safe_bind; [apply safe_bytes; lia|]. intros s [_ Hs].
  by apply safe_ret.
Qed.

Lemma safe_scan_blocks n : safe (View.scan_blocks n) (fun b => bytes_ok (sb_payload b)).
Proof.
  induction n as [|n IH]; cbn [View.scan_blocks]; [apply safe_scan_block|].
  eapply safe_bind; [apply safe_scan_block|by intros].
Qed.

Lemma safe_skip_blocks n : safe (View.skip_blocks n) (fun _ => True).
Proof.
  induction n as [|n IH]; cbn [View.skip_blocks]; [by apply safe_ret|].
  apply (safe_bind _ _ (fun _ => True)); [|done]. unfold View.skip_block. repeat setup_safe_step.
  intros i p Hok Hp. unfold View.rd_within, checked_add. destruct (_ <=? _); [|done]. cbn [ok_or mbind outcome_bind].
  destruct (Z.ltb_spec (zlen i) (p + a2)); [done|]. split; [lia|done].
Qed.

Lemma get_not_Panic b i : bytes_ok (bb_bytes b) ->
  View.get b i <> Panic /\ forall x, View.get b i = Ok (Some x) -> bytes_ok (sb_payload x).
Proof.
  intros Hok. unfold View.get. destruct (_ <=? _); [done|]. unfold run_reader.
  pose proof (safe_scan_blocks i (bb_bytes b) 0 Hok ltac:(zlia)) as Hs.
  destruct (View.scan_blocks i (bb_bytes b) 0) as [[x q]| |]; [|done..]. split; [done|]. intros y [= <-]. by destruct Hs.
Qed.

Lemma hop_decode_not_Panic b : bytes_ok b -> Hop.decode b <> Panic.
Proof. intros Hok. by eapply run_not_Panic; [|apply safe_hop]. Qed.

Lemma instruction_not_Panic v : view_ok v -> View.current_hop_instruction v <> Panic.
Proof.
  intros Hv. destruct (get_not_Panic (v_blocks v) 0 (vo_bytes _ Hv)) as [Hnp Hok].
  apply bind_not_Panic; [done|]. intros o Ho. apply bind_not_Panic; [apply ok_or_not_Panic|]. intros x Hx%ok_or_Ok. subst o.
  destruct (_ || _); [done|]. by apply hop_decode_not_Panic, Hok.
Qed.

Lemma forwarding_not_Panic v cid cap : view_ok v -> View.encode_after_first_block_with_reverse_cid v cid cap <> Panic.
Proof.
  intros Hv. unfold View.encode_after_first_block_with_reverse_cid. destruct (_ <=? _); [done|].
  apply bind_not_Panic; [by apply instruction_not_Panic|]. intros _ _. unfold run_reader.
  pose proof (safe_skip_blocks (Z.to_nat (View.consumed_blocks v)) _ 0 (vo_bytes _ Hv) ltac:(zlia)) as Hs.
  destruct (View.skip_blocks _ _ _) as [[[] pos]| |]; [|done..]. destruct Hs as [Hs _]. cbn [mbind outcome_bind].
  apply bind_not_Panic; [apply slice_from_not_Panic; lia|]. intros rem _. unfold wlimit.
  apply bind_not_Panic; [|intros b _; by destruct (_ <? _)].
  match goal with |- ?w cap <> Panic => cut (never_panics w); [auto|] end.
  unfold put_mode, put_opener, put_vip, put_reverse_cid, put_route_mode.
  repeat apply quiet_seq; eauto with quiet; repeat case_match; eauto with quiet. intros c. done.
Qed.

Lemma safe_rd_cids n i cids : safe (RelayCids.rd_cids i n cids) (fun _ => True).
Proof.
  revert i cids. induction n as [|n IH]; intros i cids; cbn [RelayCids.rd_cids]; [by apply safe_ret|].
  repeat setup_safe_step. apply IH.
Qed.

Lemma safe_reply : safe Reply.read (fun _ => True).
Proof.
  unfold Reply.read. repeat setup_safe_step. apply (safe_bind _ _ (fun _ => True)).
  { unfold Reply.rd_result. setup_safe_step. apply safe_if; intros _; [|apply safe_if; intros _].
    - repeat setup_safe_step. done.
    - repeat setup_safe_step. done.
    - by apply safe_lift. }
  intros result _. apply (safe_bind _ _ (fun _ => True)).
  { unfold Reply.rd_ack. setup_safe_step. apply safe_if; intros _; [by apply safe_ret|]. apply safe_if; intros _; [by apply safe_lift|].
    repeat setup_safe_step. eapply safe_bind; [apply safe_bytes; lia|]. intros s _.
    apply (safe_bind _ _ (fun _ => True)); [|intros; by apply safe_ret]. apply safe_lift; [|done]. unfold Ack.from_slice. by destruct (_ || _). }
  intros ack _. apply (safe_bind _ _ (fun _ => True)); [|intros; repeat setup_safe_step; done].
  unfold RelayCids.read. repeat setup_safe_step. apply (safe_bind _ _ (fun _ => True)); [|intros; by apply safe_ret].
  apply safe_rd_cids.
Qed.

Lemma reply_decode_not_Panic b : bytes_ok b -> Reply.decode b <> Panic.
Proof.
  intros Hok. unfold Reply.decode. destruct b as [|v b]; [done|]. destruct (_ || _); [done|].
  pose proof (safe_reply (v :: b) 1 Hok ltac:(zlia)) as Hs. by destruct (Reply.read _ _) as [[]| |].
Qed.

(** No received bytes make the setup decoders panic: request and reply
    packets, hop instructions and endpoint payloads; nor do reading the blocks of
    a request that was decoded, its current instruction, or forwarding it. *)
Theorem setup_decoders_total b :
  bytes_ok b ->
  decode_setup_request_packet b <> Panic /\ decode_setup_reply_packet b <> Panic /\
  Hop.decode b <> Panic /\ Join.decode b <> Panic /\ (forall version, Create.decode b version <> Panic) /\
  forall v, decode_setup_request_packet b = Ok v ->
    (forall i, View.get (v_blocks v) i <> Panic) /\ View.current_hop_instruction v <> Panic /\
    forall cid cap, View.encode_after_first_block_with_reverse_cid v cid cap <> Panic.
Proof.
  intros Hok. split_and!.
  - by apply setup_packet_not_Panic, request_decode_not_Panic.
  - by apply setup_packet_not_Panic, reply_decode_not_Panic.
  - by apply hop_decode_not_Panic.
  - by eapply run_not_Panic; [|apply safe_join].
  - intros version. unfold Create.decode. destruct (_ =? 1); [done|]. destruct (negb _); [done|].
    by eapply run_not_Panic; [|apply safe_create].
  - intros v Hd. assert (view_ok v) as Hv.
    { unfold decode_setup_request_packet, decode_setup_packet in Hd. apply bind_Ok in Hd as ([[h at_] n] & _ & Hd).
      destruct (_ || _) in Hd; [done|]. apply bind_Ok in Hd as (body & (_ & _ & ->)%slice_Ok & Hd).
      apply decode_view_ok in Hd as [Hv _]; [done|]. by apply bytes_ok_take, bytes_ok_drop. }
    split; [intros i; by apply get_not_Panic, vo_bytes|]. split; [by apply instruction_not_Panic|].
    intros cid cap. by apply forwarding_not_Panic.
Qed.

(** ** Payloads built by the application *)
Lemma relay_hop_ok kind addr lease quota h :
  0 <= lease -> 0 <= quota -> relay_hop_new kind addr lease quota = Ok h -> hop_ok (instruction_of h).
Proof.
  intros Hl Hq. unfold relay_hop_new. destruct (_ || _) eqn:Hg; [done|]. intros [= <-]. bools.
  unfold MAX_SETUP_HOP_ADDRESS_BYTES in *. zlen_pose.
  assert (zlen (replicate (Z.to_nat 18 - length addr) 0) = 18 - zlen addr) as Hrep
    by (unfold zlen in *; rewrite length_replicate; lia).
  assert (as_u8 (zlen addr) = zlen addr) as Hu by (apply as_u8_small; unfold U8_MAX; lia).
  split; cbn [instruction_of rh_address_kind rh_address_len rh_address rh_lease_us rh_packet_quota
    si_address_len si_address si_lease_us si_packet_quota]; rewrite ?Hu; try done.
  - unfold U8_MAX. lia.
  - unfold padded. rewrite zlen_app, Hrep. unfold MAX_SETUP_HOP_ADDRESS_BYTES. lia.
  - unfold padded. rewrite to_nat_zlen, drop_app_length. f_equal. unfold MAX_SETUP_HOP_ADDRESS_BYTES, zlen. lia.
Qed.

(** The payloads of setup blocks round-trip: a hop instruction built from a
    relay hop of the application, a JOIN payload, and a CREATE payload with its
    opaque initial packet and up to three hints of nearby relays. *)
Theorem setup_payloads_roundtrip cap b :
  cap <= U64_MAX ->
  (forall kind addr lease quota h, 0 <= lease -> 0 <= quota -> relay_hop_new kind addr lease quota = Ok h ->
    Hop.encode (instruction_of h) cap = Ok b -> Hop.decode b = Ok (instruction_of h)) /\
  (forall j, is_cid (join_cid j) -> is_cid (opener_receive_cid j) ->
    Join.encode j cap = Ok b -> Join.decode b = Ok j) /\
  (forall initial l hints, Hints.new l = Some hints -> Forall hint_ok l ->
    Create.encode (mkSetupCreateEndpoint initial hints) cap = Ok b ->
    Create.decode b 2 = Ok (initial, hints) /\ Hints.iter hints = l).
Proof.
  intros Hcap. split_and!.
  - intros kind addr lease quota h Hl Hq Hh He. eapply hop_decode_encode; [exact (relay_hop_ok _ _ _ _ _ Hl Hq Hh)|exact He].
  - intros j Hj Ho He. by eapply join_decode_encode.
  - intros initial l hints Hn Hl He. split; [by eapply create_decode_encode|]. by apply hints_new_iter.
Qed.

(** ** Examples *)
Definition hop_example (b : Z) : SetupHopInstruction :=
  mkSetupHopInstruction 1 6 (padded 18 [b; 2; 3; 4; 5; 6]) 60000000 1000.
Definition payload_example (b : Z) : bytes :=
  match Hop.encode (hop_example b) 256 with Ok s => s | _ => [] end.
Definition request_example : SetupRequest :=
  mkSetupRequest 77 SetupCreate Layered (mkSetupCircuitKey Client 5) (Some 123456789) None
    [mkSetupBlock SETUP_BLOCK_RELAY 1 0 (payload_example 10); mkSetupBlock SETUP_BLOCK_RELAY 1 0 (payload_example 20);
     mkSetupBlock SETUP_BLOCK_ENDPOINT 2 0 [1; 2; 3]].
Definition packet_example : bytes :=
  match Request.encode_packet request_example 1100 with Ok s => s | _ => [] end.
Definition view_example : SetupRequestView :=
  match decode_setup_request_packet packet_example with
  | Ok v => v
  | _ => mkSetupRequestView 0 0 SetupCreate Layered (mkSetupCircuitKey Client 0) None None (mkSetupBlockBytes [] 0) []
  end.
Definition last_view : SetupRequestView :=
  match relayed 1100 [700] view_example with Ok v => v | _ => view_example end.

Lemma hop_example_ok b : hop_ok (hop_example b).
Proof. by split. Qed.

Lemma request_example_ok : request_ok request_example.
Proof.
  split; try done. repeat constructor; try done; by apply bytes_ok_bool.
Qed.

Lemma setup_request_follows_route_witness :
  carries request_example 1 (Some 700) last_view /\ View.current_hop_instruction last_view = Ok (hop_example 20).
Proof.
  destruct (setup_request_follows_route request_example 1100 packet_example request_example_ok) as (v & Hd & Hall);
    [by vm_compute|by vm_compute|].
  assert (v = view_example) as -> by (unfold view_example; by rewrite Hd).
  destruct (Hall [700] last_view) as [Hc Hi]; [by repeat constructor|by vm_compute|].
  split; [exact Hc|]. apply (Hi (hop_example 20) 256 (payload_example 20)); [done|apply hop_example_ok|by vm_compute].
Defined.

Lemma setup_reply_roundtrip_witness :
  exists pkt, zlen pkt <= 256 /\
    decode_setup_reply_packet pkt = Ok (reply_of 77 (mkSetupCircuitKey Client 5) (Accepted 900 60000000) (Some [1; 2; 3]) [700; 800]).
Proof.
  destruct (setup_reply_roundtrip 77 (mkSetupCircuitKey Client 5) (Accepted 900 60000000) (Some [1; 2; 3]) [700; 800] 1100)
    as (pkt & _ & Hl & Hd); [|by vm_compute|by exists pkt].
  split_and!; try done. split; [|done]. by repeat constructor.
Defined.

Lemma relay_cids_in_path_order_witness :
  foldr (fun c o => o ≫= RelayCids.prepend c) (Ok RelayCids.empty) [700; 800; 900] = Ok (cids_of [700; 800; 900]).
Proof. apply (relay_cids_in_path_order [700; 800; 900]). by repeat constructor. Defined.

Lemma setup_decoders_total_witness : decode_setup_request_packet [0xd0; 0x44; 0x4d; 0; 1; 0; 0; 1; 9] <> Panic.
Proof.
  apply (setup_decoders_total [0xd0; 0x44; 0x4d; 0; 1; 0; 0; 1; 9]). by apply bytes_ok_bool.
Defined.

Lemma setup_payloads_roundtrip_witness :
  Join.decode [0x05; 0x09] = Ok (mkSetupJoinEndpoint 5 9).
Proof.
  apply (setup_payloads_roundtrip 100 [0x05; 0x09]); by vm_compute.
Defined.
