(* ===== verification/SetupTable.v ===== *)
(** * Setup transactions of a relay

    [SetupTransactionTable] of [src/crates/quic-lite/src/relay.rs]: the bounded
    table in which a relay remembers the setup requests it is working on and the
    replies it gave, so that a retried request is answered from the table instead
    of being set up twice.  The counters of the code are unsigned and decremented
    without a check; [SetupTableSpec.v] proves that they never go below zero. *)

From S2P Require Import Prelude Wire FlowControl SetupCodec.

(** [ForwardNextHop]: bearer and link-layer address. *)
Record ForwardNextHop : Type := mkForwardNextHop { nx_bearer : Z; nx_peer_l2_address : Z }.
#[export] Instance ForwardNextHop_eq_dec : EqDecision ForwardNextHop.
Proof. solve_decision. Defined.

Record SetupRelayState : Type := mkSetupRelayState {
  ss_forward_cid : Z;
  ss_reverse_cid : Z;
  ss_reverse_target : Z;
  ss_lease_duration_us : Z;
  ss_packet_quota : Z;
}.
#[export] Instance SetupRelayState_eq_dec : EqDecision SetupRelayState.
Proof. solve_decision. Defined.

Inductive SetupTransactionLookup : Type :=
  | LNew
  | LPendingRetry
  | LExpired
  | LReplay (reply : bytes)
  | LConflict
  | LFull
  | LInvalid.

Module SetupTransactionError.
Inductive t : Type := Missing | Expired | ReplyTooLarge | Conflict.
End SetupTransactionError.
Abbreviation setup := (outcome SetupTransactionError.t).

Inductive SetupDownstreamReply : Type :=
  | DReplay (previous_hop : ForwardNextHop) (reply : bytes)
  | DNew (previous_hop : ForwardNextHop) (relay_state : SetupRelayState).

Record SetupTransaction : Type := mkSetupTransaction {
  tx_previous_hop : ForwardNextHop;
  tx_transaction_id : Z;
  tx_request : bytes;
  tx_reply : bytes;
  tx_downstream_reply : bytes;
  tx_downstream_hop : option ForwardNextHop;
  tx_relay_state : option SetupRelayState;
  tx_reply_ready : bool;
  tx_expired : bool;
  tx_pending_deadline_us : Z;
  tx_cache_expiry_us : Z;
  tx_reserved_reply_bytes : Z;
}.

Record SetupTransactionTable : Type := mkSetupTransactionTable {
  t_entries : list SetupTransaction;
  t_max_pending : Z;
  t_max_cached_replies : Z;
  t_max_request_bytes : Z;
  t_max_reply_bytes : Z;
  t_max_reserved_reply_bytes : Z;
  t_reserved_reply_bytes : Z;
  t_pending_count : Z;
  t_cached_count : Z;
  t_retention_us : Z;
}.

(** Updates of an entry and of the table. *)
Definition tx_ended (expiry : Z) (e : SetupTransaction) : SetupTransaction :=
  mkSetupTransaction (tx_previous_hop e) (tx_transaction_id e) (tx_request e) [] (tx_downstream_reply e)
    (tx_downstream_hop e) (tx_relay_state e) (tx_reply_ready e) true (tx_pending_deadline_us e) expiry 0.
Definition tx_completed (reply : bytes) (expiry : Z) (e : SetupTransaction) : SetupTransaction :=
  mkSetupTransaction (tx_previous_hop e) (tx_transaction_id e) (tx_request e) (tx_reply e ++ reply) (tx_downstream_reply e)
    (tx_downstream_hop e) (tx_relay_state e) true (tx_expired e) (tx_pending_deadline_us e) expiry
    (tx_reserved_reply_bytes e).
Definition tx_with_downstream (d : option ForwardNextHop) (s : option SetupRelayState) (reply : bytes)
    (e : SetupTransaction) : SetupTransaction :=
  mkSetupTransaction (tx_previous_hop e) (tx_transaction_id e) (tx_request e) (tx_reply e) reply
    d s (tx_reply_ready e) (tx_expired e) (tx_pending_deadline_us e) (tx_cache_expiry_us e)
    (tx_reserved_reply_bytes e).
Definition with_table (l : list SetupTransaction) (reserved pending cached : Z) (t : SetupTransactionTable)
    : SetupTransactionTable :=
  mkSetupTransactionTable l (t_max_pending t) (t_max_cached_replies t) (t_max_request_bytes t)
    (t_max_reply_bytes t) (t_max_reserved_reply_bytes t) reserved pending cached (t_retention_us t).

Module SetupTable.
Definition new (max_pending max_cached max_request max_reply max_reserved retention : Z) : SetupTransactionTable :=
  mkSetupTransactionTable [] max_pending max_cached max_request max_reply max_reserved 0 0 0 retention.

Definition update_at (i : nat) (f : SetupTransaction -> SetupTransaction) (t : SetupTransactionTable) : SetupTransactionTable :=
  with_table (alter f i (t_entries t)) (t_reserved_reply_bytes t) (t_pending_count t) (t_cached_count t) t.

(** [iter().position(..)] by previous hop and transaction. *)
Definition is_key (hop : ForwardNextHop) (tid : Z) (e : SetupTransaction) : bool :=
  bool_decide (tx_previous_hop e = hop) && (tx_transaction_id e =? tid).
Definition is_downstream (hop : ForwardNextHop) (tid : Z) (e : SetupTransaction) : bool :=
  bool_decide (tx_downstream_hop e = Some hop) && (tx_transaction_id e =? tid).
Definition position (p : SetupTransaction -> bool) (t : SetupTransactionTable) : option (nat * SetupTransaction) :=
  list_find (fun e => p e = true) (t_entries t).

(** *** Ending and removing entries *)
Definition mark_expired (i : nat) (t : SetupTransactionTable) : SetupTransactionTable :=
  match t_entries t !! i with
  | Some e =>
      if tx_reply_ready e || tx_expired e then t else
      with_table (<[i := tx_ended (sat_add (tx_pending_deadline_us e) (t_retention_us t)) e]> (t_entries t))
        (sat_sub (t_reserved_reply_bytes t) (tx_reserved_reply_bytes e)) (t_pending_count t - 1) (t_cached_count t) t
  | None => t
  end.

Definition remove (i : nat) (t : SetupTransactionTable) : SetupTransactionTable :=
  match t_entries t !! i with
  | Some e =>
      let '(pending, cached) :=
        if tx_reply_ready e then (t_pending_count t, t_cached_count t - 1)
        else if tx_expired e then (t_pending_count t, t_cached_count t)
        else (t_pending_count t - 1, t_cached_count t) in
      with_table (delete i (t_entries t)) (sat_sub (t_reserved_reply_bytes t) (tx_reserved_reply_bytes e)) pending cached t
  | None => t
  end.

Definition pending_expired (now : Z) (e : SetupTransaction) : bool :=
  negb (tx_reply_ready e) && negb (tx_expired e) && (tx_pending_deadline_us e <=? now).
Definition retention_over (now : Z) (e : SetupTransaction) : bool :=
  (tx_reply_ready e || tx_expired e) && (tx_cache_expiry_us e <=? now).

(** The loop of [expire]: each turn removes the entry or moves to the next. *)
Fixpoint expire_loop (fuel : nat) (now : Z) (i : nat) (removed : Z) (t : SetupTransactionTable)
    : Z * SetupTransactionTable :=
  match fuel with
  | O => (removed, t)
  | S fuel' =>
      match t_entries t !! i with
      | None => (removed, t)
      | Some e =>
          let over := pending_expired now e in
          let t1 := if over then mark_expired i t else t in
          let removed1 := if over then removed + 1 else removed in
          match t_entries t1 !! i with
          | None => (removed1, t1)
          | Some e1 =>
              if retention_over now e1
              then expire_loop fuel' now i (if over then removed1 else removed1 + 1) (remove i t1)
              else expire_loop fuel' now (S i) removed1 t1
          end
      end
  end.

Definition expire (now : Z) (t : SetupTransactionTable) : Z * SetupTransactionTable :=
  expire_loop (length (t_entries t)) now 0 0 t.

Definition deadline_of (e : SetupTransaction) : Z :=
  if tx_reply_ready e || tx_expired e then tx_cache_expiry_us e else tx_pending_deadline_us e.
Definition next_deadline (t : SetupTransactionTable) : option Z :=
  match deadline_of <$> t_entries t with
  | [] => None
  | d :: l => Some (foldr Z.min d l)
  end.

Definition cancel (hop : ForwardNextHop) (tid : Z) (t : SetupTransactionTable) : bool * SetupTransactionTable :=
  match position (is_key hop tid) t with
  | Some (i, _) => (true, mark_expired i t)
  | None => (false, t)
  end.

(** *** Admission *)
Section admission.
Context `{Allocator}.

Definition new_transaction (hop : ForwardNextHop) (tid : Z) (request : bytes) (reply_capacity deadline : Z)
    : SetupTransaction :=
  mkSetupTransaction hop tid request [] [] None None false false deadline 0 reply_capacity.

Definition begin (hop : ForwardNextHop) (tid : Z) (request : bytes) (reply_capacity now deadline : Z)
    (t : SetupTransactionTable) : SetupTransactionLookup * SetupTransactionTable :=
  let '(_, t) := expire now t in
  if (tid =? 0) || bool_decide (request = []) || (t_max_request_bytes t <? zlen request)
     || (reply_capacity =? 0) || (t_max_reply_bytes t <? reply_capacity) || (deadline <=? now)
  then (LInvalid, t) else
  match position (is_key hop tid) t with
  | Some (_, e) =>
      (if negb (bool_decide (tx_request e = request)) then LConflict
       else if tx_expired e then LExpired
       else if tx_reply_ready e then LReplay (tx_reply e) else LPendingRetry, t)
  | None =>
      match checked_add (t_reserved_reply_bytes t) reply_capacity with
      | None => (LFull, t)
      | Some reserved =>
          if (t_max_pending t <=? t_pending_count t) || (t_max_cached_replies t <=? zlen (t_entries t))
             || (t_max_reserved_reply_bytes t <? reserved)
          then (LFull, t) else
          if negb (try_reserve (length request)) then (LFull, t) else
          if negb (try_reserve (Z.to_nat reply_capacity)) || negb (try_reserve (length (t_entries t)))
          then (LFull, t) else
          (LNew, with_table (t_entries t ++ [new_transaction hop tid request reply_capacity deadline])
             reserved (t_pending_count t + 1) (t_cached_count t) t)
      end
  end.

(** *** Completion *)
Definition complete (hop : ForwardNextHop) (tid : Z) (reply : bytes) (now : Z) (t : SetupTransactionTable)
    : setup unit * SetupTransactionTable :=
  match position (is_key hop tid) t with
  | None => (Err SetupTransactionError.Missing, t)
  | Some (i, e) =>
      if tx_expired e || (tx_pending_deadline_us e <=? now) then (Err SetupTransactionError.Expired, t) else
      if tx_reply_ready e then (Err SetupTransactionError.Missing, t) else
      if bool_decide (reply = []) || (tx_reserved_reply_bytes e <? zlen reply)
      then (Err SetupTransactionError.ReplyTooLarge, t) else
      (Ok tt, with_table (<[i := tx_completed reply (sat_add now (t_retention_us t)) e]> (t_entries t))
                (t_reserved_reply_bytes t) (t_pending_count t - 1) (t_cached_count t + 1) t)
  end.

(** [existing.is_some_and(|existing| existing != value)] *)
Definition conflicts {A} `{EqDecision A} (existing : option A) (value : A) : bool :=
  match existing with Some x => negb (bool_decide (x = value)) | None => false end.

Definition set_downstream_hop (hop : ForwardNextHop) (tid : Z) (downstream : ForwardNextHop)
    (t : SetupTransactionTable) : setup unit * SetupTransactionTable :=
  match position (is_key hop tid) t with
  | None => (Err SetupTransactionError.Missing, t)
  | Some (i, e) =>
      if tx_expired e || tx_reply_ready e then (Err SetupTransactionError.Expired, t) else
      if conflicts (tx_downstream_hop e) downstream then (Err SetupTransactionError.Conflict, t) else
      (Ok tt, update_at i (fun e => tx_with_downstream (Some downstream) (tx_relay_state e) (tx_downstream_reply e) e) t)
  end.

Definition downstream_hop (hop : ForwardNextHop) (tid : Z) (t : SetupTransactionTable) : option ForwardNextHop :=
  '(_, e) ← position (is_key hop tid) t; tx_downstream_hop e.

Definition set_relay_state (hop : ForwardNextHop) (tid : Z) (state : SetupRelayState)
    (t : SetupTransactionTable) : setup unit * SetupTransactionTable :=
  match position (is_key hop tid) t with
  | None => (Err SetupTransactionError.Missing, t)
  | Some (i, e) =>
      if tx_expired e || tx_reply_ready e then (Err SetupTransactionError.Expired, t) else
      if conflicts (tx_relay_state e) state then (Err SetupTransactionError.Conflict, t) else
      (Ok tt, update_at i (fun e => tx_with_downstream (tx_downstream_hop e) (Some state) (tx_downstream_reply e) e) t)
  end.

Definition relay_state (hop : ForwardNextHop) (tid : Z) (t : SetupTransactionTable) : option SetupRelayState :=
  '(_, e) ← position (is_key hop tid) t; tx_relay_state e.

(** The outcome once the reply is stored. *)
Definition downstream_new (e : SetupTransaction) : setup SetupDownstreamReply :=
  match tx_relay_state e with
  | Some s => Ok (DNew (tx_previous_hop e) s)
  | None => Err SetupTransactionError.Missing
  end.

Definition validate_downstream_reply (downstream : ForwardNextHop) (tid : Z) (circuit : SetupCircuitKey)
    (reply : bytes) (t : SetupTransactionTable) : setup SetupDownstreamReply * SetupTransactionTable :=
  match position (is_downstream downstream tid) t with
  | None => (Err SetupTransactionError.Missing, t)
  | Some (i, e) =>
      if tx_expired e then (Err SetupTransactionError.Expired, t) else
      match decode_setup_reply_packet reply with
      | Panic => (Panic, t)
      | Err _ => (Err SetupTransactionError.Conflict, t)
      | Ok decoded =>
          if negb (rp_transaction_id decoded =? tid) || negb (bool_decide (rp_circuit decoded = circuit))
          then (Err SetupTransactionError.Conflict, t) else
          if negb (bool_decide (tx_downstream_reply e = [])) then
            if negb (bool_decide (tx_downstream_reply e = reply)) then (Err SetupTransactionError.Conflict, t)
            else if tx_reply_ready e then (Ok (DReplay (tx_previous_hop e) (tx_reply e)), t)
            else (downstream_new e, t)
          else if bool_decide (reply = []) || (t_max_reply_bytes t <? zlen reply)
               then (Err SetupTransactionError.ReplyTooLarge, t)
          else if negb (try_reserve (length reply)) then (Err SetupTransactionError.ReplyTooLarge, t)
          else (downstream_new e,
                update_at i (fun e => tx_with_downstream (tx_downstream_hop e) (tx_relay_state e) reply e) t)
      end
  end.

Definition complete_from_downstream (downstream : ForwardNextHop) (tid : Z) (reply : bytes) (now : Z)
    (t : SetupTransactionTable) : setup ForwardNextHop * SetupTransactionTable :=
  match position (is_downstream downstream tid) t with
  | None => (Err SetupTransactionError.Missing, t)
  | Some (_, e) =>
      let '(r, t') := complete (tx_previous_hop e) tid reply now t in
      (_ ← r; Ok (tx_previous_hop e), t')
  end.
End admission.
End SetupTable.
