(* ===== verification/SetupTableSpec.v ===== *)
(** * Setup transactions: accounting, retries and timers

    Over the table of [SetupTable.v]: in every reachable state the unchecked
    counters are exactly what the entries amount to and stay within their limits;
    a retried request is answered from the table and never admitted twice within
    its retention; the deadline the table reports is the next time it has
    something to do. *)

From S2P Require Import Prelude Wire FlowControl SetupCodec SetupTable.

(** ** What the counters count *)
Definition total (f : SetupTransaction -> Z) (l : list SetupTransaction) : Z := foldr (fun e s => f e + s) 0 l.

Lemma total_cons f e l : total f (e :: l) = f e + total f l.
Proof. done. Qed.
Lemma total_app f l k : total f (l ++ k) = total f l + total f k.
Proof. induction l as [|e l IH]; [done|]. cbn [app total foldr]. fold (total f (l ++ k)) (total f l). lia. Qed.

Definition pends (e : SetupTransaction) : Z := if tx_reply_ready e || tx_expired e then 0 else 1.
Definition readies (e : SetupTransaction) : Z := if tx_reply_ready e then 1 else 0.

Record tally (t : SetupTransactionTable) : Prop := {
  ta_pending : t_pending_count t = total pends (t_entries t);
  ta_cached : t_cached_count t = total readies (t_entries t);
  ta_reserved : t_reserved_reply_bytes t = total tx_reserved_reply_bytes (t_entries t);
}.

Definition same_config (t t' : SetupTransactionTable) : Prop :=
  t_max_pending t' = t_max_pending t /\ t_max_cached_replies t' = t_max_cached_replies t /\
  t_max_request_bytes t' = t_max_request_bytes t /\ t_max_reply_bytes t' = t_max_reply_bytes t /\
  t_max_reserved_reply_bytes t' = t_max_reserved_reply_bytes t /\ t_retention_us t' = t_retention_us t.

Lemma same_config_trans t t' t'' : same_config t t' -> same_config t' t'' -> same_config t t''.
Proof. unfold same_config. intuition congruence. Qed.

Record entry_ok (t : SetupTransactionTable) (e : SetupTransaction) : Prop := {
  en_transaction : tx_transaction_id e <> 0;
  en_request : tx_request e <> [] /\ zlen (tx_request e) <= t_max_request_bytes t;
  en_reserved : 0 <= tx_reserved_reply_bytes e <= t_max_reply_bytes t;
  en_ready : tx_reply_ready e = true ->
    tx_expired e = false /\ tx_reply e <> [] /\ zlen (tx_reply e) <= tx_reserved_reply_bytes e;
  en_waiting : tx_reply_ready e = false -> tx_reply e = [];
  en_expired : tx_expired e = true -> tx_reserved_reply_bytes e = 0;
}.

Definition key_of (e : SetupTransaction) : ForwardNextHop * Z := (tx_previous_hop e, tx_transaction_id e).

Record table_ok (t : SetupTransactionTable) : Prop := {
  tk_tally : tally t;
  tk_entries : Forall (entry_ok t) (t_entries t);
  tk_keys : NoDup (key_of <$> t_entries t);
  tk_pending : t_pending_count t <= t_max_pending t;
  tk_size : zlen (t_entries t) <= t_max_cached_replies t;
  tk_reserved : t_reserved_reply_bytes t <= t_max_reserved_reply_bytes t;
}.

Lemma entry_ok_config t t' e : same_config t t' -> entry_ok t e -> entry_ok t' e.
Proof.
  intros (_ & _ & Hreq & Hrep & _) [? [? ?] [? ?] ? ? ?].
  split; auto; split; try done; [by rewrite Hreq|by rewrite Hrep].
Qed.

(** ** Ending and removing an entry *)
Definition ended (retention : Z) (e : SetupTransaction) : SetupTransaction :=
  if tx_reply_ready e || tx_expired e then e else tx_ended (sat_add (tx_pending_deadline_us e) retention) e.

Ltac tallies := rewrite ?total_app, ?total_cons in *.

Lemma total_nonneg f l : Forall (fun e => 0 <= f e) l -> 0 <= total f l.
Proof. induction 1; [done|]. rewrite total_cons. lia. Qed.

Definition reserves (l : list SetupTransaction) : Prop := Forall (fun e => 0 <= tx_reserved_reply_bytes e) l.

Lemma mark_at t pre e post :
  t_entries t = pre ++ e :: post -> reserves (t_entries t) -> tally t ->
  t_entries (SetupTable.mark_expired (length pre) t) = pre ++ ended (t_retention_us t) e :: post /\
  tally (SetupTable.mark_expired (length pre) t) /\ same_config t (SetupTable.mark_expired (length pre) t).
Proof.
  intros He Hr [Hp Hc Hs]. unfold SetupTable.mark_expired, ended. rewrite He, lookup_app_r, Nat.sub_diag by lia. cbn [lookup list_lookup].
  destruct (tx_reply_ready e || tx_expired e) eqn:Hd; [by split_and!|].
  apply orb_false_iff in Hd as [Hd1 Hd2]. unfold reserves in Hr. rewrite He in Hr. apply Forall_app in Hr as [Hr1 Hr2].
  inversion Hr2; subst. apply total_nonneg in Hr1. assert (0 <= total tx_reserved_reply_bytes post) by (by apply total_nonneg).
  rewrite insert_app_r_alt, Nat.sub_diag by lia. cbn [list_insert insert]. split; [done|]. split; [|done].
  rewrite He in *. split; cbn [with_table t_pending_count t_cached_count t_reserved_reply_bytes t_entries]; tallies;
    unfold pends, readies, tx_ended, sat_sub in *; cbn [tx_reply_ready tx_expired tx_reserved_reply_bytes] in *;
    rewrite ?Hd1, ?Hd2 in *; cbn [orb] in *; lia.
Qed.

Lemma remove_at t pre e post :
  t_entries t = pre ++ e :: post -> reserves (t_entries t) -> tally t ->
  t_entries (SetupTable.remove (length pre) t) = pre ++ post /\
  tally (SetupTable.remove (length pre) t) /\ same_config t (SetupTable.remove (length pre) t).
Proof.
  intros He Hr [Hp Hc Hs]. unfold SetupTable.remove. rewrite He, lookup_app_r, Nat.sub_diag by lia. cbn [lookup list_lookup].
  unfold reserves in Hr. rewrite He in Hr. apply Forall_app in Hr as [Hr1 Hr2].
  inversion Hr2; subst. apply total_nonneg in Hr1. assert (0 <= total tx_reserved_reply_bytes post) by (by apply total_nonneg).
  rewrite delete_middle. rewrite He in *. tallies. unfold pends, readies in *.
  destruct (tx_reply_ready e) eqn:H1'; [|destruct (tx_expired e) eqn:H2']; cbn [orb] in *;
    (split; [done|]; split; [|done]);
    split; cbn [with_table t_pending_count t_cached_count t_reserved_reply_bytes t_entries]; tallies;
    unfold pends, readies, sat_sub; lia.
Qed.

(** ** Expiry as a map over the entries *)
Definition settle (now retention : Z) (e : SetupTransaction) : option SetupTransaction :=
  let e1 := if SetupTable.pending_expired now e then ended retention e else e in
  if SetupTable.retention_over now e1 then None else Some e1.
Definition unsettled (now : Z) (e : SetupTransaction) : bool :=
  SetupTable.pending_expired now e || SetupTable.retention_over now e.

Lemma ended_reserves ret e : 0 <= tx_reserved_reply_bytes e -> 0 <= tx_reserved_reply_bytes (ended ret e).
Proof. unfold ended. by destruct (_ || _). Qed.

Lemma pending_not_over now e : SetupTable.pending_expired now e = true -> SetupTable.retention_over now e = false.
Proof.
  unfold SetupTable.pending_expired, SetupTable.retention_over. destruct (tx_reply_ready e), (tx_expired e); done.
Qed.

(** [x] is the result of settling [post] behind [pre] in table [t]. *)
Definition settles (now : Z) (pre post : list SetupTransaction) (removed : Z) (t : SetupTransactionTable)
    (x : Z * SetupTransactionTable) : Prop :=
  t_entries x.2 = pre ++ omap (settle now (t_retention_us t)) post /\ tally x.2 /\ same_config t x.2 /\
  x.1 = removed + zlen (List.filter (unsettled now) post).

Lemma settles_nil now pre removed t : t_entries t = pre -> tally t -> settles now pre [] removed t (removed, t).
Proof.
  intros He Ht. unfold settles. cbn [fst snd omap list_omap List.filter]. rewrite app_nil_r, zlen_nil, Z.add_0_r.
  by split_and!.
Qed.

Lemma settles_drop now pre e post removed t t2 x :
  same_config t t2 -> settle now (t_retention_us t) e = None -> unsettled now e = true ->
  settles now pre post (removed + 1) t2 x -> settles now pre (e :: post) removed t x.
Proof.
  intros Hc He Hu (H1 & H2 & H3 & H4). assert (t_retention_us t2 = t_retention_us t) as Hret by apply Hc.
  unfold settles. cbn [omap list_omap List.filter]. rewrite He, Hu. rewrite Hret in H1.
  split_and!; [done|done|by eapply same_config_trans|rewrite H4, zlen_cons; lia].
Qed.

Lemma settles_keep now pre e e1 post removed removed1 t t1 x :
  same_config t t1 -> settle now (t_retention_us t) e = Some e1 ->
  removed1 = removed + (if unsettled now e then 1 else 0) ->
  settles now (pre ++ [e1]) post removed1 t1 x -> settles now pre (e :: post) removed t x.
Proof.
  intros Hc He -> (H1 & H2 & H3 & H4). assert (t_retention_us t1 = t_retention_us t) as Hret by apply Hc.
  unfold settles. cbn [omap list_omap List.filter]. rewrite He. rewrite Hret, <- app_assoc in H1.
  split_and!; [done|done|by eapply same_config_trans|]. rewrite H4. destruct (unsettled now e); rewrite ?zlen_cons; lia.
Qed.

Lemma reserves_app pre e e1 post :
  reserves (pre ++ e :: post) -> 0 <= tx_reserved_reply_bytes e1 -> reserves (pre ++ e1 :: post) /\ reserves (pre ++ post).
Proof.
  unfold reserves. rewrite !Forall_app, !Forall_cons. tauto.
Qed.

Lemma expire_loop_spec fuel now pre post removed t :
  t_entries t = pre ++ post -> (length post <= fuel)%nat -> reserves (t_entries t) -> tally t ->
  settles now pre post removed t (SetupTable.expire_loop fuel now (length pre) removed t).
Proof.
  revert pre post removed t. induction fuel as [|fuel IH]; intros pre post removed t He Hf Hr Ht.
  { destruct post; [|simpl in Hf; lia]. rewrite app_nil_r in He. by apply settles_nil. }
  cbn [SetupTable.expire_loop]. destruct post as [|e post].
  { rewrite app_nil_r in He. rewrite He, lookup_ge_None_2 by lia. by apply settles_nil. }
  rewrite He at 1. rewrite lookup_app_r, Nat.sub_diag by lia. cbn [lookup list_lookup]. cbv zeta.
  set (e1 := if SetupTable.pending_expired now e then ended (t_retention_us t) e else e).
  set (t1 := if SetupTable.pending_expired now e then SetupTable.mark_expired (length pre) t else t).
  assert (t_entries t1 = pre ++ e1 :: post /\ tally t1 /\ same_config t t1) as (He1 & Ht1 & Hc1)
    by (subst t1 e1; destruct (SetupTable.pending_expired now e); [by apply mark_at|by split_and!]).
  rewrite He in Hr. assert (0 <= tx_reserved_reply_bytes e1) as Hr0.
  { apply Forall_app in Hr as [_ Hr]. inversion Hr; subst. subst e1.
    destruct (SetupTable.pending_expired now e); [by apply ended_reserves|done]. }
  destruct (reserves_app _ _ _ _ Hr Hr0) as [Hr1 Hr2]. rewrite <- He1 in Hr1. simpl in Hf.
  assert (settle now (t_retention_us t) e = if SetupTable.retention_over now e1 then None else Some e1) as Hset by done.
  assert (SetupTable.pending_expired now e = true -> unsettled now e = true) as Hu1 by (unfold unsettled; by intros ->).
  rewrite He1 at 1. rewrite lookup_app_r, Nat.sub_diag by lia. cbn [lookup list_lookup].
  destruct (SetupTable.retention_over now e1) eqn:Hover.
  - destruct (remove_at t1 pre e1 post He1 Hr1 Ht1) as (He2 & Ht2 & Hc2). rewrite <- He2 in Hr2.
    eapply settles_drop; [eapply same_config_trans; [exact Hc1|exact Hc2]|done| |].
    + subst e1. destruct (SetupTable.pending_expired now e) eqn:Hp; [by apply Hu1|]. unfold unsettled. by rewrite Hover, orb_true_r.
    + destruct (SetupTable.pending_expired now e); apply IH; done || lia.
  - eapply (settles_keep _ _ _ e1); [exact Hc1|done| |].
    2:{ replace (S (length pre)) with (length (pre ++ [e1])) by (rewrite length_app; simpl; lia).
        apply IH; [by rewrite <- app_assoc|lia|done|done]. }
    unfold unsettled. subst e1. destruct (SetupTable.pending_expired now e); cbn [orb]; rewrite ?Hover; lia.
Qed.

Lemma expire_spec now t :
  reserves (t_entries t) -> tally t -> settles now [] (t_entries t) 0 t (SetupTable.expire now t).
Proof. intros Hr Ht. by apply (expire_loop_spec _ now []). Qed.

(** ** The invariant *)
Lemma table_position_Some p t i e :
  SetupTable.position p t = Some (i, e) ->
  exists pre post, t_entries t = pre ++ e :: post /\ i = length pre /\ p e = true /\ Forall (fun x => p x = false) pre.
Proof.
  unfold SetupTable.position. intros (Hi & Hp & Hno)%list_find_Some. destruct (list_elem_of_split_length _ _ _ Hi) as (pre & post & He & Hl).
  exists pre, post. split; [done|]. split; [done|]. split; [done|]. apply Forall_forall. intros x (j & Hj)%list_elem_of_lookup.
  assert (j < length pre)%nat by (by eapply lookup_lt_Some). apply not_true_is_false. eapply (Hno j); [|lia].
  by rewrite He, lookup_app_l.
Qed.

Lemma table_position_None p t : SetupTable.position p t = None -> Forall (fun x => p x = false) (t_entries t).
Proof. intros H%list_find_None. eapply Forall_impl; [exact H|]. intros x Hx. by apply not_true_is_false. Qed.

Lemma is_key_spec hop tid e : SetupTable.is_key hop tid e = true <-> key_of e = (hop, tid).
Proof.
  unfold SetupTable.is_key, key_of. rewrite andb_true_iff, bool_decide_eq_true, Z.eqb_eq. split; [by intros [-> ->]|by intros [= -> ->]].
Qed.

(** Replacing an entry by one with the same key. *)
Lemma table_ok_replace t t' pre e e1 post :
  table_ok t -> t_entries t = pre ++ e :: post -> t_entries t' = pre ++ e1 :: post -> same_config t t' ->
  key_of e1 = key_of e -> entry_ok t' e1 -> tally t' ->
  t_pending_count t' <= t_pending_count t -> t_reserved_reply_bytes t' <= t_reserved_reply_bytes t -> table_ok t'.
Proof.
  intros [Ht He Hk Hp Hs Hr] Het Het' Hc Hkey He1 Ht' Hp' Hr'. pose proof Hc as (Hc1 & Hc2 & _ & _ & Hc5 & _).
  split; [done| | |lia| |lia].
  - rewrite Het'. rewrite Het in He. apply Forall_app in He as [He2 He3]. inversion He3; subst. apply Forall_app.
    split; [|constructor; [done|]]; (eapply Forall_impl; [eassumption|]; intros x; by apply entry_ok_config).
  - rewrite Het', fmap_app, fmap_cons, Hkey, <- fmap_cons, <- fmap_app. by rewrite <- Het.
  - rewrite Het'. rewrite Het in Hs. rewrite zlen_app, zlen_cons in *. lia.
Qed.

Lemma table_ok_reserves t : table_ok t -> reserves (t_entries t).
Proof. intros Ht. eapply Forall_impl; [apply (tk_entries _ Ht)|]. intros e He. apply (en_reserved _ _ He). Qed.

Lemma entry_ended t ret e : entry_ok t e -> entry_ok t (ended ret e).
Proof.
  intros He. unfold ended. destruct (tx_reply_ready e || tx_expired e) eqn:Hd; [done|].
  apply orb_false_iff in Hd as [Hd _]. destruct He. split; cbn [tx_ended tx_transaction_id tx_request tx_reserved_reply_bytes
    tx_reply_ready tx_expired tx_reply]; try done; [|congruence]. lia.
Qed.

Lemma key_ended ret e : key_of (ended ret e) = key_of e.
Proof. unfold ended. by destruct (_ || _). Qed.

Lemma tally_bound t pre e e1 post t' :
  tally t -> tally t' -> t_entries t = pre ++ e :: post -> t_entries t' = pre ++ e1 :: post ->
  t_pending_count t' - t_pending_count t = pends e1 - pends e /\
  t_reserved_reply_bytes t' - t_reserved_reply_bytes t = tx_reserved_reply_bytes e1 - tx_reserved_reply_bytes e.
Proof.
  intros [Hp _ Hr] [Hp' _ Hr'] He He'. rewrite Hp, Hp', Hr, Hr', He, He', !total_app, !total_cons. lia.
Qed.

Lemma pends_ended ret e : pends (ended ret e) <= pends e.
Proof.
  unfold ended, pends. destruct (tx_reply_ready e || tx_expired e) eqn:Hd; [by rewrite Hd|].
  cbn [tx_ended tx_reply_ready tx_expired]. rewrite orb_true_r. lia.
Qed.
Lemma reserved_ended ret e : 0 <= tx_reserved_reply_bytes e -> tx_reserved_reply_bytes (ended ret e) <= tx_reserved_reply_bytes e.
Proof. intros He. unfold ended. destruct (_ || _); [done|]. cbn. lia. Qed.

Lemma mark_ok t i e :
  table_ok t -> t_entries t !! i = Some e -> table_ok (SetupTable.mark_expired i t).
Proof.
  intros Ht Hi. destruct (list_elem_of_split_length _ _ _ Hi) as (pre & post & He & ->).
  pose proof (table_ok_reserves t Ht) as Hr. destruct (mark_at t pre e post He Hr (tk_tally _ Ht)) as (He' & Ht' & Hc).
  pose proof (tk_entries _ Ht) as Hall. rewrite Forall_forall in Hall. assert (entry_ok t e) as Hee by (apply Hall; by eapply list_elem_of_lookup_2).
  destruct (tally_bound _ _ _ _ _ _ (tk_tally _ Ht) Ht' He He') as [Hp Hre].
  pose proof (pends_ended (t_retention_us t) e). pose proof (reserved_ended (t_retention_us t) e (proj1 (en_reserved _ _ Hee))).
  eapply (table_ok_replace t _ pre e); [done|done|exact He'|done|apply key_ended| |done|lia|lia].
  eapply entry_ok_config; [exact Hc|by apply entry_ended].
Qed.

Lemma settle_some now ret e e1 : settle now ret e = Some e1 -> e1 = e \/ e1 = ended ret e.
Proof. unfold settle. destruct (SetupTable.pending_expired now e), (SetupTable.retention_over _ _); naive_solver. Qed.

Lemma settled_sublist now ret l :
  key_of <$> omap (settle now ret) l `sublist_of` key_of <$> l /\
  total pends (omap (settle now ret) l) <= total pends l /\
  (reserves l -> total tx_reserved_reply_bytes (omap (settle now ret) l) <= total tx_reserved_reply_bytes l).
Proof.
  induction l as [|e l (IH1 & IH2 & IH3)]; [done|]. cbn [omap list_omap]. rewrite total_cons.
  assert (0 <= pends e <= 1) by (unfold pends; destruct (_ || _); lia).
  assert (forall f, total f (e :: l) = f e + total f l) as Htot by done. rewrite Htot.
  destruct (settle now ret e) as [e1|] eqn:He.
  - rewrite !total_cons. assert (key_of e1 = key_of e /\ pends e1 <= pends e /\
      (0 <= tx_reserved_reply_bytes e -> tx_reserved_reply_bytes e1 <= tx_reserved_reply_bytes e)) as (Hk & Hp & Hr).
    { apply settle_some in He as [-> | ->]; [split_and!; done|]. split; [apply key_ended|]. split; [apply pends_ended|apply reserved_ended]. }
    cbn [fmap list_fmap]. rewrite Hk. split; [by constructor|]. split; [lia|]. intros Hres. inversion Hres; subst. specialize (IH3 ltac:(done)). lia.
  - cbn [fmap list_fmap]. split; [by constructor|]. split; [lia|]. intros Hres. inversion Hres; subst. specialize (IH3 ltac:(done)). lia.
Qed.

Lemma expire_ok now t : table_ok t -> table_ok (SetupTable.expire now t).2.
Proof.
  intros Ht. pose proof (table_ok_reserves t Ht) as Hr.
  destruct (expire_spec now t Hr (tk_tally _ Ht)) as (He & Hta & Hc & _). cbn [app] in He.
  destruct (settled_sublist now (t_retention_us t) (t_entries t)) as (Hk & Hp & Hre). specialize (Hre Hr).
  destruct Ht as [[Hp0 _ Hr0] Hall Hnd Hmp Hms Hmr]. pose proof Hc as (Hc1 & Hc2 & _ & _ & Hc5 & _). destruct Hta as [Hta1 Hta2 Hta3].
  split; [by split| | | | |].
  - rewrite He. apply Forall_forall. intros e1 (e & Hin & Hse)%list_elem_of_omap. rewrite Forall_forall in Hall.
    eapply entry_ok_config; [exact Hc|]. apply settle_some in Hse as [-> | ->]; [by apply Hall|by apply entry_ended, Hall].
  - rewrite He. by eapply sublist_NoDup.
  - rewrite Hta1, He. lia.
  - apply sublist_length in Hk. rewrite !length_fmap in Hk. rewrite He. unfold zlen in *. lia.
  - rewrite Hta3, He. lia.
Qed.

(** ** The operations *)
Inductive setup_op : Type :=
  | SBegin (hop : ForwardNextHop) (tid : Z) (request : bytes) (reply_capacity now deadline : Z)
  | SComplete (hop : ForwardNextHop) (tid : Z) (reply : bytes) (now : Z)
  | SDownstreamHop (hop : ForwardNextHop) (tid : Z) (downstream : ForwardNextHop)
  | SRelayState (hop : ForwardNextHop) (tid : Z) (state : SetupRelayState)
  | SValidate (downstream : ForwardNextHop) (tid : Z) (circuit : SetupCircuitKey) (reply : bytes)
  | SCompleteDown (downstream : ForwardNextHop) (tid : Z) (reply : bytes) (now : Z)
  | SCancel (hop : ForwardNextHop) (tid : Z)
  | SExpire (now : Z).

(** What an operation tells about setups: an admission, or a completion. *)
Inductive setup_event : Type :=
  | EAdmitted (hop : ForwardNextHop) (tid : Z)
  | ECompleted (hop : ForwardNextHop) (tid : Z) (reply : bytes).

Section operations.
Context `{Allocator}.

Definition setup_step (o : setup_op) (t : SetupTransactionTable) : list setup_event * SetupTransactionTable :=
  match o with
  | SBegin hop tid request cap now deadline =>
      let '(r, t') := SetupTable.begin hop tid request cap now deadline t in
      (match r with LNew => [EAdmitted hop tid] | _ => [] end, t')
  | SComplete hop tid reply now =>
      let '(r, t') := SetupTable.complete hop tid reply now t in
      (match r with Ok _ => [ECompleted hop tid reply] | _ => [] end, t')
  | SDownstreamHop hop tid d => ([], (SetupTable.set_downstream_hop hop tid d t).2)
  | SRelayState hop tid s => ([], (SetupTable.set_relay_state hop tid s t).2)
  | SValidate d tid circuit reply => ([], (SetupTable.validate_downstream_reply d tid circuit reply t).2)
  | SCompleteDown d tid reply now =>
      let '(r, t') := SetupTable.complete_from_downstream d tid reply now t in
      (match r with Ok hop => [ECompleted hop tid reply] | _ => [] end, t')
  | SCancel hop tid => ([], (SetupTable.cancel hop tid t).2)
  | SExpire now => ([], (SetupTable.expire now t).2)
  end.

Fixpoint setup_run (ops : list setup_op) (t : SetupTransactionTable) : list setup_event * SetupTransactionTable :=
  match ops with
  | [] => ([], t)
  | o :: ops' => let '(e, t1) := setup_step o t in let '(es, t2) := setup_run ops' t1 in (e ++ es, t2)
  end.

(** The ranges of the Rust types. *)
Definition op_ok (o : setup_op) : Prop := match o with SBegin _ _ _ cap _ _ => 0 <= cap | _ => True end.

Lemma update_ok t i e f :
  table_ok t -> t_entries t !! i = Some e -> key_of (f e) = key_of e -> entry_ok t (f e) ->
  pends (f e) = pends e -> readies (f e) = readies e -> tx_reserved_reply_bytes (f e) = tx_reserved_reply_bytes e ->
  table_ok (SetupTable.update_at i f t).
Proof.
  intros Ht Hi Hk He Hp Hr Hs. destruct (list_elem_of_split_length _ _ _ Hi) as (pre & post & Het & ->).
  assert (t_entries (SetupTable.update_at (length pre) f t) = pre ++ f e :: post) as Het'.
  { unfold SetupTable.update_at. cbn [with_table t_entries]. rewrite Het.
    by rewrite alter_app_r_alt, Nat.sub_diag by lia. }
  eapply (table_ok_replace t _ pre e (f e) post); try done; [by apply (entry_ok_config t)|].
  destruct (tk_tally _ Ht) as [H1 H2 H3]. split; rewrite Het', total_app, total_cons;
    cbn [SetupTable.update_at with_table t_pending_count t_cached_count t_reserved_reply_bytes]; rewrite ?Hp, ?Hr, ?Hs.
  - rewrite H1, Het, total_app, total_cons. done.
  - rewrite H2, Het, total_app, total_cons. done.
  - rewrite H3, Het, total_app, total_cons. done.
Qed.

Lemma downstream_ok t i e d s reply :
  table_ok t -> t_entries t !! i = Some e -> entry_ok t e ->
  table_ok (SetupTable.update_at i (fun e => tx_with_downstream (d e) (s e) (reply e) e) t).
Proof. intros Ht Hi []. by apply (update_ok t i e). Qed.

Lemma position_entry t p i e : table_ok t -> SetupTable.position p t = Some (i, e) ->
  t_entries t !! i = Some e /\ entry_ok t e /\ p e = true.
Proof.
  intros Ht (pre & post & He & -> & Hp & _)%table_position_Some. assert (t_entries t !! length pre = Some e) as Hi
    by (by rewrite He, lookup_app_r, Nat.sub_diag by lia). split; [done|]. split; [|done].
  pose proof (tk_entries _ Ht) as Hall. rewrite Forall_forall in Hall. apply Hall. by eapply list_elem_of_lookup_2.
Qed.

Lemma complete_ok hop tid reply now t : table_ok t -> table_ok (SetupTable.complete hop tid reply now t).2.
Proof.
  intros Ht. unfold SetupTable.complete. destruct (SetupTable.position _ t) as [[i e]|] eqn:Hpos; [|done].
  destruct (position_entry _ _ _ _ Ht Hpos) as (Hi & He & _). destruct (tx_expired e || _) eqn:Hx; [done|].
  destruct (tx_reply_ready e) eqn:Hready; [done|]. destruct (bool_decide (reply = []) || _) eqn:Hrep; [done|].
  apply orb_false_iff in Hx as [Hx _]. apply orb_false_iff in Hrep as [Hne%bool_decide_eq_false Hlen%Z.ltb_ge].
  cbn [snd]. destruct (list_elem_of_split_length _ _ _ Hi) as (pre & post & Het & ->). pose proof He as [? ? ? _ Hw _].
  specialize (Hw Hready). set (e1 := tx_completed reply (sat_add now (t_retention_us t)) e).
  assert (<[length pre := e1]> (t_entries t) = pre ++ e1 :: post) as Het'
    by (by rewrite Het, insert_app_r_alt, Nat.sub_diag by lia).
  rewrite Het'. apply (table_ok_replace t _ pre e e1 post); try done.
  - split; try done; unfold e1; cbn [tx_completed tx_reply_ready tx_expired tx_reply tx_reserved_reply_bytes].
    + rewrite Hw. intros _. split_and!; done.
    + rewrite Hx. done.
  - destruct (tk_tally _ Ht) as [H1 H2 H3].
    split; cbn [with_table t_pending_count t_cached_count t_reserved_reply_bytes t_entries]; rewrite ?H1, ?H2, ?H3, Het;
      rewrite !total_app, !total_cons; unfold pends, readies, e1;
      cbn [tx_completed tx_reply_ready tx_expired tx_reserved_reply_bytes]; rewrite ?Hready, ?Hx; cbn [orb]; lia.
  - cbn [with_table t_pending_count]. lia.
Qed.

Lemma begin_ok hop tid request cap now deadline t :
  0 <= cap -> table_ok t -> table_ok (SetupTable.begin hop tid request cap now deadline t).2.
Proof.
  intros Hcap Ht0. unfold SetupTable.begin. pose proof (expire_ok now t Ht0) as Ht. destruct (SetupTable.expire now t) as [n t'].
  cbn [snd] in Ht. clear t Ht0. rename t' into t. destruct (_ || _) eqn:Hg; [done|]. bools. case_bool_decide as Hne; [done|].
  destruct (SetupTable.position _ t) as [[i e]|] eqn:Hpos; [done|].
  destruct (checked_add _ _) as [reserved|] eqn:Hres; [|done]. unfold checked_add in Hres. destruct (_ <=? _) in Hres; [|done].
  injection Hres as <-. destruct (_ || _) eqn:Hlim; [done|]. bools. destruct (negb _); [done|]. destruct (_ || _); [done|].
  cbn [snd]. apply table_position_None in Hpos. destruct Ht as [[Hq1 Hq2 Hq3] Hall Hnd Hmp Hms Hmr].
  split; cbn [with_table t_entries t_pending_count t_cached_count t_reserved_reply_bytes t_max_pending t_max_cached_replies t_max_reserved_reply_bytes]; try lia.
  - split; cbn [with_table t_pending_count t_cached_count t_reserved_reply_bytes t_entries]; rewrite total_app, ?Hq1, ?Hq2, ?Hq3;
      cbn; lia.
  - apply Forall_app. split; [eapply Forall_impl; [exact Hall|]; intros x; by apply entry_ok_config|].
    constructor; [|done]. by split.
  - rewrite fmap_app. apply NoDup_app. split; [done|]. split; [|by apply NoDup_singleton].
    intros k (x & -> & Hx)%list_elem_of_fmap Hk%list_elem_of_singleton. rewrite Forall_forall in Hpos.
    specialize (Hpos x Hx). apply not_true_iff_false in Hpos. apply Hpos, is_key_spec. by rewrite Hk.
  - rewrite zlen_app. change (zlen [_]) with 1. lia.
Qed.

Lemma validate_ok d tid circuit reply t :
  table_ok t -> table_ok (SetupTable.validate_downstream_reply d tid circuit reply t).2.
Proof.
  intros Ht. unfold SetupTable.validate_downstream_reply. destruct (SetupTable.position _ t) as [[i e]|] eqn:Hpos; [|done].
  destruct (position_entry _ _ _ _ Ht Hpos) as (Hi & He & _). destruct (tx_expired e); [done|].
  destruct (decode_setup_reply_packet reply); [|done..]. destruct (_ || _); [done|].
  destruct (negb _); [by repeat case_match|]. destruct (_ || _); [done|]. destruct (negb _); [done|].
  by apply (downstream_ok t i e).
Qed.

Lemma step_ok o t : op_ok o -> table_ok t -> table_ok (setup_step o t).2.
Proof.
  intros Ho Ht. destruct o; cbn [setup_step].
  - pose proof (begin_ok hop tid request reply_capacity now deadline t Ho Ht). by destruct (SetupTable.begin _ _ _ _ _ _ _).
  - pose proof (complete_ok hop tid reply now t Ht). by destruct (SetupTable.complete _ _ _ _ _).
  - unfold SetupTable.set_downstream_hop. destruct (SetupTable.position _ t) as [[i e]|] eqn:Hpos; [|done].
    destruct (position_entry _ _ _ _ Ht Hpos) as (Hi & He & _). destruct (_ || _); [done|].
    destruct (SetupTable.conflicts _ _); [done|]. by apply (downstream_ok t i e (fun _ => Some downstream)).
  - unfold SetupTable.set_relay_state. destruct (SetupTable.position _ t) as [[i e]|] eqn:Hpos; [|done].
    destruct (position_entry _ _ _ _ Ht Hpos) as (Hi & He & _). destruct (_ || _); [done|].
    destruct (SetupTable.conflicts _ _); [done|]. by apply (downstream_ok t i e _ (fun _ => Some state)).
  - by apply validate_ok.
  - unfold SetupTable.complete_from_downstream. destruct (SetupTable.position _ t) as [[i e]|]; [|done].
    pose proof (complete_ok (tx_previous_hop e) tid reply now t Ht). by destruct (SetupTable.complete _ _ _ _ _).
  - unfold SetupTable.cancel. destruct (SetupTable.position _ t) as [[i e]|] eqn:Hpos; [|done].
    destruct (position_entry _ _ _ _ Ht Hpos) as (Hi & _). by eapply mark_ok.
  - by apply expire_ok.
Qed.

Lemma run_ok ops t : Forall op_ok ops -> table_ok t -> table_ok (setup_run ops t).2.
Proof.
  intros Hops. revert t. induction Hops as [|o ops Ho _ IH]; intros t Ht; cbn [setup_run]; [done|].
  pose proof (step_ok o t Ho Ht) as H1. destruct (setup_step o t) as [e t1]. specialize (IH t1 H1).
  by destruct (setup_run ops t1).
Qed.

Lemma complete_config hop tid reply now t : same_config t (SetupTable.complete hop tid reply now t).2.
Proof. unfold SetupTable.complete. by repeat case_match. Qed.

Lemma mark_config i t : same_config t (SetupTable.mark_expired i t).
Proof. unfold SetupTable.mark_expired. by repeat case_match. Qed.

Lemma expire_config fuel now i n t : same_config t (SetupTable.expire_loop fuel now i n t).2.
Proof.
  revert i n t. induction fuel as [|fuel IH]; intros i n t; cbn [SetupTable.expire_loop]; [done|].
  destruct (t_entries t !! i) as [e|]; [|done]. cbv zeta.
  assert (same_config t (if SetupTable.pending_expired now e then SetupTable.mark_expired i t else t)) as Hm
    by (destruct (SetupTable.pending_expired now e); [apply mark_config|done]).
  destruct (t_entries _ !! i) as [e1|]; [|done]. destruct (SetupTable.retention_over now e1).
  - eapply same_config_trans; [exact Hm|]. eapply same_config_trans; [|apply IH]. unfold SetupTable.remove. by repeat case_match.
  - eapply same_config_trans; [exact Hm|apply IH].
Qed.

Lemma step_config o t : same_config t (setup_step o t).2.
Proof.
  destruct o; cbn [setup_step].
  - unfold SetupTable.begin. pose proof (expire_config (length (t_entries t)) now 0 0 t) as Hx. unfold SetupTable.expire.
    destruct (SetupTable.expire_loop _ _ _ _ _) as [n t']. cbn [snd] in Hx. by repeat case_match; simplify_eq.
  - pose proof (complete_config hop tid reply now t). by destruct (SetupTable.complete _ _ _ _ _).
  - unfold SetupTable.set_downstream_hop. by repeat case_match.
  - unfold SetupTable.set_relay_state. by repeat case_match.
  - unfold SetupTable.validate_downstream_reply. by repeat case_match.
  - unfold SetupTable.complete_from_downstream. destruct (SetupTable.position _ t) as [[i e]|]; [|done].
    pose proof (complete_config (tx_previous_hop e) tid reply now t). by destruct (SetupTable.complete _ _ _ _ _).
  - unfold SetupTable.cancel. destruct (SetupTable.position _ t) as [[i e]|]; [apply mark_config|done].
  - apply expire_config.
Qed.

Lemma run_config ops t : same_config t (setup_run ops t).2.
Proof.
  revert t. induction ops as [|o ops IH]; intros t; cbn [setup_run]; [done|]. pose proof (step_config o t) as Hs.
  destruct (setup_step o t) as [e t1]. specialize (IH t1). destruct (setup_run ops t1) as [es t2]. by eapply same_config_trans.
Qed.

(** The table with limits [caps], after [ops]. *)
Definition setup_reached (mp mc mq mr ms ret : Z) (ops : list setup_op) : SetupTransactionTable :=
  (setup_run ops (SetupTable.new mp mc mq mr ms ret)).2.

(** C30: The setup table keeps its books.  After any sequence of admissions,
    completions, cancellations, expiries and downstream replies, the counters,
    which are decremented without a check, are exactly the number of pending and
    of answered entries and the reply bytes they reserve; so they are never
    negative, stay within the limits, keys are unique, and a cached reply fits
    the room that was reserved for it. *)
Theorem setup_table_accounts mp mc mq mr ms ret ops :
  0 <= mp -> 0 <= mc -> 0 <= ms -> Forall op_ok ops ->
  let t := setup_reached mp mc mq mr ms ret ops in
  t_pending_count t = zlen (List.filter (fun e => negb (tx_reply_ready e || tx_expired e)) (t_entries t)) /\
  t_cached_count t = zlen (List.filter tx_reply_ready (t_entries t)) /\
  t_reserved_reply_bytes t = total tx_reserved_reply_bytes (t_entries t) /\
  t_pending_count t <= mp /\ zlen (t_entries t) <= mc /\ t_reserved_reply_bytes t <= ms /\
  NoDup (key_of <$> t_entries t) /\
  Forall (fun e => tx_reply_ready e = true -> tx_expired e = false /\ zlen (tx_reply e) <= tx_reserved_reply_bytes e <= mr)
    (t_entries t).
Proof.
  intros Hmp Hmc Hms Hops t. assert (table_ok (SetupTable.new mp mc mq mr ms ret)) as Hnew
    by (split; cbn; try done; constructor).
  assert (table_ok t /\ same_config (SetupTable.new mp mc mq mr ms ret) t) as [[[H1 H2 H3] Hall Hnd Hp Hs Hr] Hc].
  { split; [by apply run_ok|apply run_config]. }
  destruct Hc as (Hc1 & Hc2 & _ & Hc4 & Hc5 & _). cbn in Hc1, Hc2, Hc4, Hc5.
  assert (forall (p : SetupTransaction -> bool) l, total (fun e => if p e then 1 else 0) l = zlen (List.filter p l)) as Hcount.
  { intros p l. induction l as [|e l IH]; [done|]. rewrite total_cons, IH. cbn. destruct (p e); rewrite ?zlen_cons; lia. }
  split_and!; [|by rewrite <- Hcount|done|by rewrite <- Hc1|by rewrite <- Hc2|by rewrite <- Hc5|done|].
  - rewrite <- Hcount, H1. clear. induction (t_entries t) as [|e l IH]; [done|]. rewrite !total_cons, IH. unfold pends. by destruct (_ || _).
  - eapply Forall_impl; [exact Hall|]. intros e [_ _ Hres Hready _ _] Hrd. destruct (Hready Hrd) as (Hx & _ & Hl).
    rewrite <- Hc4. split; [done|lia].
Qed.

(** ** Timers *)
Lemma deadline_after now e : now < SetupTable.deadline_of e <-> unsettled now e = false.
Proof.
  unfold SetupTable.deadline_of, unsettled, SetupTable.pending_expired, SetupTable.retention_over.
  destruct (tx_reply_ready e), (tx_expired e); cbn [negb andb orb]; rewrite ?orb_false_r, Z.leb_gt; done.
Qed.

Lemma settle_settled now ret e : unsettled now e = false -> settle now ret e = Some e.
Proof. unfold unsettled, settle. intros [-> ->]%orb_false_iff. done. Qed.

Lemma settle_after now ret e e1 : settle now ret e = Some e1 -> now < SetupTable.deadline_of e1.
Proof.
  unfold settle. destruct (SetupTable.pending_expired now e) eqn:Hp; (destruct (SetupTable.retention_over now _) eqn:Ho; [done|]);
    intros [= <-]; apply deadline_after; unfold unsettled; rewrite Ho, orb_false_r; [|done].
  unfold SetupTable.pending_expired, ended in *. destruct (tx_reply_ready e) eqn:Hr, (tx_expired e) eqn:Hx; try done.
  cbn. by rewrite andb_false_r.
Qed.

Lemma table_eq t t' : tally t -> tally t' -> same_config t t' -> t_entries t' = t_entries t -> t' = t.
Proof.
  intros [H1 H2 H3] [H1' H2' H3'] (Hc1 & Hc2 & Hc3 & Hc4 & Hc5 & Hc6) He. rewrite He in *.
  destruct t, t'; cbn in *; congruence.
Qed.

Lemma next_deadline_min t :
  match SetupTable.next_deadline t with
  | None => t_entries t = []
  | Some d => (exists e, e ∈ t_entries t /\ SetupTable.deadline_of e = d) /\ forall e, e ∈ t_entries t -> d <= SetupTable.deadline_of e
  end.
Proof.
  unfold SetupTable.next_deadline. destruct (t_entries t) as [|e0 l]; cbn [fmap list_fmap]; [done|].
  induction l as [|e l [(e1 & Hin & Hd) Hmin]]; cbn [fmap list_fmap foldr].
  { split; [exists e0; split; [by left|done]|]. intros e ->%list_elem_of_singleton. done. }
  split.
  - destruct (Z.min_spec (SetupTable.deadline_of e) (foldr Z.min (SetupTable.deadline_of e0) (SetupTable.deadline_of <$> l)))
      as [[_ ->]|[_ ->]]; [exists e; split; [set_solver|done]|]. exists e1. split; [set_solver|done].
  - intros x Hx. assert (x = e \/ x ∈ e0 :: l) as [->|Hx'] by set_solver; [lia|]. specialize (Hmin x Hx'). lia.
Qed.

(** The timer of the setup table is exact.  In every reachable state the
    reported deadline is the first time at which [expire] does something: before
    it nothing changes, from then on something ends or is forgotten; without a
    deadline the table is empty; and right after [expire] the next deadline lies
    in the future. *)
Theorem setup_deadline_exact mp mc mq mr ms ret ops :
  0 <= mp -> 0 <= mc -> 0 <= ms -> Forall op_ok ops ->
  let t := setup_reached mp mc mq mr ms ret ops in
  match SetupTable.next_deadline t with
  | None => t_entries t = []
  | Some d => forall now, if now <? d then SetupTable.expire now t = (0, t) else 0 < (SetupTable.expire now t).1
  end /\
  forall now d, SetupTable.next_deadline (SetupTable.expire now t).2 = Some d -> now < d.
Proof.
  intros Hmp Hmc Hms Hops t. assert (table_ok t) as Ht by (apply run_ok; [done|split; cbn; try done; constructor]).
  assert (forall now, settles now [] (t_entries t) 0 t (SetupTable.expire now t)) as Hexp
    by (intros now; apply expire_spec; [by apply table_ok_reserves|apply Ht]).
  split.
  - pose proof (next_deadline_min t) as Hd. destruct (SetupTable.next_deadline t) as [d|]; [|done].
    destruct Hd as [(e & Hin & He) Hmin]. intros now. destruct (Hexp now) as (H1 & H2 & H3 & H4).
    destruct (Z.ltb_spec now d) as [Hlt|Hge].
    + assert (forall l, (forall x, x ∈ l -> now < SetupTable.deadline_of x) ->
        omap (settle now (t_retention_us t)) l = l /\ List.filter (unsettled now) l = []) as Hall.
      { induction l as [|x l IH]; [done|]. intros Hl. destruct IH as [IH1 IH2]; [intros y Hy; apply Hl; by right|].
        assert (unsettled now x = false) as Hx by (apply deadline_after, Hl; by left).
        cbn [omap list_omap List.filter]. by rewrite (settle_settled _ _ _ Hx), Hx, IH1, IH2. }
      destruct (Hall (t_entries t)) as [Ho Hf]; [intros x Hx; specialize (Hmin x Hx); lia|]. rewrite Ho in H1. rewrite Hf in H4.
      destruct (SetupTable.expire now t) as [n t']. cbn [fst snd] in *. f_equal; [by rewrite H4|]. apply table_eq; [apply Ht|done..].
    + rewrite H4. assert (unsettled now e = true) as Hu.
      { apply not_false_iff_true. intros Hx%deadline_after. lia. }
      assert (e ∈ List.filter (unsettled now) (t_entries t)) as Hf.
      { apply list_elem_of_In, filter_In. split; [by apply list_elem_of_In|done]. }
      destruct (List.filter (unsettled now) (t_entries t)); [by apply elem_of_nil in Hf|]. rewrite zlen_cons. zlen_pose. lia.
  - intros now d Hd. pose proof (next_deadline_min (SetupTable.expire now t).2) as Hm. rewrite Hd in Hm.
    destruct Hm as [(e1 & Hin & <-) _]. destruct (Hexp now) as (H1 & _). rewrite H1 in Hin.
    apply list_elem_of_omap in Hin as (e & _ & He). by eapply settle_after.
Qed.
End operations.
