(* ===== verification/SetupRetries.v ===== *)
(** * Setup transactions: a request is set up once

    Over [SetupTable.v] and the invariant of [SetupTableSpec.v]: from the
    admission of a setup request until its retention has passed, its entry stays
    in the table whatever else happens, so a retry is never admitted a second
    time and the reply that completed it is the one every retry gets. *)

From S2P Require Import Prelude Wire FlowControl SetupCodec SetupTable SetupTableSpec.

Section retries.
Context `{Allocator}.

(** The time an operation is called with. *)
Definition op_time (o : setup_op) : option Z :=
  match o with
  | SBegin _ _ _ _ now _ | SComplete _ _ _ now | SCompleteDown _ _ _ now | SExpire now => Some now
  | SDownstreamHop _ _ _ | SRelayState _ _ _ | SValidate _ _ _ _ | SCancel _ _ => None
  end.
Definition within (from until : Z) (o : setup_op) : Prop :=
  match op_time o with Some now => from <= now < until | None => True end.

(** The replies that completed the setup of one key. *)
Definition completion_of (key : ForwardNextHop * Z) (ev : setup_event) : option bytes :=
  match ev with
  | ECompleted hop tid reply => if bool_decide ((hop, tid) = key) then Some reply else None
  | EAdmitted _ _ => None
  end.
Definition completions (key : ForwardNextHop * Z) (evs : list setup_event) : list bytes := omap (completion_of key) evs.

(** An entry admitted at [from], with [cs] the replies that completed it, that
    is to be kept until [from] plus the retention. *)
Record kept (key : ForwardNextHop * Z) (request : bytes) (from ret : Z) (cs : list bytes) (e : SetupTransaction) : Prop := {
  kp_key : key_of e = key;
  kp_request : tx_request e = request;
  kp_deadline : from < tx_pending_deadline_us e;
  kp_state : match cs with
             | [] => tx_reply_ready e = false /\ (tx_expired e = true -> sat_add from ret <= tx_cache_expiry_us e)
             | [b] => tx_reply_ready e = true /\ tx_expired e = false /\ tx_reply e = b
                      /\ sat_add from ret <= tx_cache_expiry_us e
             | _ => False
             end;
}.

Definition holds key request from ret cs (t : SetupTransactionTable) : Prop :=
  exists e, e ∈ t_entries t /\ kept key request from ret cs e.

Lemma sat_later a b ret : a < b -> sat_add a ret <= sat_add b ret.
Proof. unfold sat_add. lia. Qed.

(** Updates of fields that retries do not look at. *)
Lemma kept_same key request from ret cs e e' :
  kept key request from ret cs e -> key_of e' = key_of e -> tx_request e' = tx_request e ->
  tx_pending_deadline_us e' = tx_pending_deadline_us e -> tx_reply_ready e' = tx_reply_ready e ->
  tx_expired e' = tx_expired e -> tx_reply e' = tx_reply e -> tx_cache_expiry_us e' = tx_cache_expiry_us e ->
  kept key request from ret cs e'.
Proof.
  intros [H1 H2 H3 H4] Hk Hr Hd Hre Hx Hrp Hc. split; [congruence|congruence|by rewrite Hd|].
  by rewrite Hre, Hx, Hrp, Hc.
Qed.

Lemma kept_ended key request from ret cs e : kept key request from ret cs e -> kept key request from ret cs (ended ret e).
Proof.
  intros He. unfold ended. destruct (tx_reply_ready e || tx_expired e) eqn:Hd; [done|].
  apply orb_false_iff in Hd as [Hr Hx]. destruct He as [H1 H2 H3 H4]. split; try done.
  destruct cs as [|b [|]]; [|by destruct H4; congruence|done]. split; [done|]. intros _. by apply sat_later.
Qed.

(** The entry outlives [expire]. *)
Lemma kept_settle key request from ret cs e now :
  kept key request from ret cs e -> now < sat_add from ret ->
  exists e', settle now ret e = Some e' /\ kept key request from ret cs e'.
Proof.
  intros He Hnow. assert (forall x, kept key request from ret cs x -> SetupTable.retention_over now x = false) as Hover.
  { intros x [_ _ _ Hst]. unfold SetupTable.retention_over. destruct cs as [|b [|]]; [| |done].
    - destruct Hst as [-> Hx]. cbn [orb]. destruct (tx_expired x); [|done]. specialize (Hx eq_refl). apply Z.leb_gt. lia.
    - destruct Hst as (-> & _ & _ & Hx). apply Z.leb_gt. lia. }
  unfold settle. pose proof (kept_ended _ _ _ _ _ _ He) as He'.
  destruct (SetupTable.pending_expired now e); rewrite Hover by done; eauto.
Qed.

Lemma holds_expire key request from ret cs now t :
  table_ok t -> t_retention_us t = ret -> now < sat_add from ret -> holds key request from ret cs t ->
  holds key request from ret cs (SetupTable.expire now t).2.
Proof.
  intros Ht Hret Hnow (e & Hin & He). destruct (kept_settle _ _ _ _ _ _ now He Hnow) as (e' & Hs & He').
  exists e'. split; [|done]. destruct (expire_spec now t (table_ok_reserves t Ht) (tk_tally _ Ht)) as (-> & _).
  apply list_elem_of_omap. exists e. by rewrite Hret.
Qed.

(** The entry at the position of its key is the one held. *)
Lemma same_entry t i x e :
  table_ok t -> t_entries t !! i = Some x -> e ∈ t_entries t -> key_of x = key_of e -> x = e.
Proof.
  intros Ht Hi (j & Hj)%list_elem_of_lookup Hk. assert (i = j) as ->.
  { eapply (NoDup_lookup _ _ _ (key_of e) (tk_keys _ Ht)); rewrite list_lookup_fmap; [by rewrite Hi, <- Hk|by rewrite Hj]. }
  congruence.
Qed.

(** Replacing entry [x] by [y], which is good if [x] was the one held. *)
Lemma holds_replace key request from ret cs cs' t t' i x y :
  table_ok t -> t_entries t !! i = Some x -> t_entries t' = <[i := y]> (t_entries t) -> 
  holds key request from ret cs t ->
  (kept key request from ret cs x -> kept key request from ret cs' y) ->
  (forall e, key_of x <> key -> kept key request from ret cs e -> kept key request from ret cs' e) ->
  holds key request from ret cs' t'.
Proof.
  intros Ht Hi He (e & Hin & Hk) Hy Hother. destruct (decide (key_of x = key)) as [Heq|Hne].
  - assert (x = e) as -> by (eapply same_entry; [done|done|done|rewrite Heq; symmetry; apply Hk]).
    exists y. split; [|by apply Hy]. rewrite He. apply (list_elem_of_lookup_2 _ i). apply list_lookup_insert_eq. by eapply lookup_lt_Some.
  - exists e. split; [|by apply Hother]. rewrite He. apply list_elem_of_lookup in Hin as [j Hj].
    apply (list_elem_of_lookup_2 _ j). rewrite list_lookup_insert_ne; [done|]. intros <-. apply Hne.
    rewrite Hi in Hj. injection Hj as ->. apply Hk.
Qed.

(** ** The operations *)
Lemma holds_same key request from ret cs t i f :
  table_ok t -> holds key request from ret cs t ->
  (forall e, key_of (f e) = key_of e /\ tx_request (f e) = tx_request e /\
    tx_pending_deadline_us (f e) = tx_pending_deadline_us e /\ tx_reply_ready (f e) = tx_reply_ready e /\
    tx_expired (f e) = tx_expired e /\ tx_reply (f e) = tx_reply e /\ tx_cache_expiry_us (f e) = tx_cache_expiry_us e) ->
  holds key request from ret cs (SetupTable.update_at i f t).
Proof.
  intros Ht Hh Hf. destruct (t_entries t !! i) as [x|] eqn:Hi.
  - apply (holds_replace key request from ret cs cs t _ i x (f x)); [exact Ht|exact Hi| |exact Hh| |done].
    + unfold SetupTable.update_at. cbn [with_table t_entries]. apply list_eq. intros j.
      destruct (decide (i = j)) as [<-|Hne].
      * by rewrite list_lookup_alter_eq, Hi, list_lookup_insert_eq by (by eapply lookup_lt_Some).
      * by rewrite list_lookup_alter_ne, list_lookup_insert_ne.
    + intros Hx. destruct (Hf x) as (? & ? & ? & ? & ? & ? & ?). by apply (kept_same _ _ _ _ _ x).
  - destruct Hh as (e & Hin & He). exists e. split; [|done]. unfold SetupTable.update_at. cbn [with_table t_entries].
    assert (alter f i (t_entries t) = t_entries t) as ->; [|done]. apply list_eq. intros j.
    destruct (decide (i = j)) as [<-|Hne]; [by rewrite list_lookup_alter_eq, Hi|by rewrite list_lookup_alter_ne].
Qed.

Lemma holds_mark key request from ret cs t i :
  table_ok t -> t_retention_us t = ret -> holds key request from ret cs t ->
  holds key request from ret cs (SetupTable.mark_expired i t).
Proof.
  intros Ht Hret Hh. unfold SetupTable.mark_expired. destruct (t_entries t !! i) as [x|] eqn:Hi; [|done].
  destruct (tx_reply_ready x || tx_expired x) eqn:Hd; [done|].
  eapply (holds_replace _ _ _ _ cs cs t _ i x (ended ret x)); [done|done| |done|apply kept_ended|done].
  unfold ended. rewrite Hd. by rewrite Hret.
Qed.

Lemma holds_complete key request from ret cs hop tid reply now t :
  table_ok t -> t_retention_us t = ret -> from <= now -> holds key request from ret cs t ->
  let x := SetupTable.complete hop tid reply now t in
  holds key request from ret
    (cs ++ match x.1 with Ok _ => completions key [ECompleted hop tid reply] | _ => [] end) x.2.
Proof.
  intros Ht Hret Hnow Hh. cbv zeta. unfold SetupTable.complete.
  destruct (SetupTable.position _ t) as [[i e]|] eqn:Hpos; [|by cbn; rewrite app_nil_r].
  destruct (position_entry _ _ _ _ Ht Hpos) as (Hi & Hok & Hkey%is_key_spec).
  destruct (tx_expired e || _) eqn:Hx; [by cbn; rewrite app_nil_r|]. destruct (tx_reply_ready e) eqn:Hr; [by cbn; rewrite app_nil_r|].
  destruct (bool_decide (reply = []) || _); [by cbn; rewrite app_nil_r|]. cbn [fst snd]. apply orb_false_iff in Hx as [Hx _].
  eapply (holds_replace _ _ _ _ cs _ t _ i e); [done|done|reflexivity|done| |].
  - intros [Hk Hq Hd Hst]. unfold completions. cbn [omap list_omap completion_of].
    rewrite <- Hkey, Hk, bool_decide_eq_true_2 by done. split; try done.
    destruct cs as [|b [|]]; cbn [app]; [|by destruct Hst; congruence|done].
    cbn [tx_completed tx_reply_ready tx_expired tx_reply tx_cache_expiry_us]. rewrite (en_waiting _ _ Hok Hr), Hret.
    split_and!; try done. unfold sat_add. lia.
  - intros y Hne Hy. unfold completions. cbn [omap list_omap completion_of].
    rewrite bool_decide_eq_false_2 by congruence. by rewrite app_nil_r.
Qed.

Lemma holds_position key request from ret cs hop tid t :
  table_ok t -> holds key request from ret cs t -> key = (hop, tid) ->
  exists i e, SetupTable.position (SetupTable.is_key hop tid) t = Some (i, e) /\ kept key request from ret cs e.
Proof.
  intros Ht (e & Hin & He) ->. destruct (SetupTable.position (SetupTable.is_key hop tid) t) as [[i x]|] eqn:Hpos.
  - destruct (position_entry _ _ _ _ Ht Hpos) as (Hi & _ & Hk%is_key_spec). exists i, x. split; [done|].
    assert (x = e) as -> by (eapply same_entry; [done|done|done|rewrite Hk; symmetry; apply He]). done.
  - apply table_position_None in Hpos. rewrite Forall_forall in Hpos. specialize (Hpos e Hin). apply not_true_iff_false in Hpos.
    exfalso. apply Hpos, is_key_spec, He.
Qed.

Lemma holds_begin key request from ret cs hop tid req cap now deadline t :
  table_ok t -> t_retention_us t = ret -> now < sat_add from ret -> holds key request from ret cs t ->
  let x := SetupTable.begin hop tid req cap now deadline t in
  holds key request from ret cs x.2 /\ (key = (hop, tid) -> x.1 <> LNew).
Proof.
  intros Ht Hret Hnow Hh. cbv zeta. unfold SetupTable.begin.
  pose proof (holds_expire _ _ _ _ _ _ t Ht Hret Hnow Hh) as Hh1. pose proof (expire_ok now t Ht) as Ht1.
  destruct (SetupTable.expire now t) as [n t1]. cbn [snd] in *. destruct (_ || _); [done|].
  destruct (SetupTable.position _ t1) as [[i e]|] eqn:Hpos; [split; [done|]; by repeat case_match|].
  assert (key <> (hop, tid)) as Hne.
  { intros Hk. by destruct (holds_position _ _ _ _ _ hop tid t1 Ht1 Hh1 Hk) as (i & e & Hp & _); congruence. }
  destruct (checked_add _ _); [|done]. destruct (_ || _); [done|]. destruct (negb _); [done|]. destruct (_ || _); [done|].
  split; [|done]. destruct Hh1 as (e & Hin & He). exists e. split; [|done]. cbn. apply elem_of_app. by left.
Qed.

Lemma step_holds key request from ret cs o t :
  op_ok o -> within from (sat_add from ret) o -> table_ok t -> t_retention_us t = ret ->
  holds key request from ret cs t ->
  let x := setup_step o t in
  holds key request from ret (cs ++ completions key x.1) x.2 /\ EAdmitted key.1 key.2 ∉ x.1.
Proof.
  intros Ho Hw Ht Hret Hh. unfold within in Hw. destruct o; cbn [op_time] in Hw; cbv zeta; cbn [setup_step].
  - destruct (holds_begin key request from ret cs hop tid request0 reply_capacity now deadline t Ht Hret ltac:(lia) Hh) as [Hh1 Hne].
    destruct (SetupTable.begin _ _ _ _ _ _ _) as [r t']. cbn [fst snd] in *.
    destruct r; cbn [completions omap list_omap completion_of]; rewrite app_nil_r; (split; [done|]); try by apply not_elem_of_nil.
    intros Hin%list_elem_of_singleton. injection Hin as <- <-. apply Hne; [by destruct key|done].
  - pose proof (holds_complete key request from ret cs hop tid reply now t Ht Hret ltac:(lia) Hh) as Hc.
    destruct (SetupTable.complete _ _ _ _ _) as [r t']. cbn [fst snd] in *. destruct r; (split; [exact Hc|]);
      [|by apply not_elem_of_nil..]. by intros Hin%list_elem_of_singleton.
  - cbn [fst snd completions omap list_omap]. rewrite app_nil_r. split; [|by apply not_elem_of_nil].
    unfold SetupTable.set_downstream_hop. destruct (SetupTable.position _ t) as [[i e]|]; [|done].
    destruct (_ || _); [done|]. destruct (SetupTable.conflicts _ _); [done|]. by apply holds_same.
  - cbn [fst snd completions omap list_omap]. rewrite app_nil_r. split; [|by apply not_elem_of_nil].
    unfold SetupTable.set_relay_state. destruct (SetupTable.position _ t) as [[i e]|]; [|done].
    destruct (_ || _); [done|]. destruct (SetupTable.conflicts _ _); [done|]. by apply holds_same.
  - cbn [fst snd completions omap list_omap]. rewrite app_nil_r. split; [|by apply not_elem_of_nil].
    unfold SetupTable.validate_downstream_reply. destruct (SetupTable.position _ t) as [[i e]|]; [|done].
    destruct (tx_expired e); [done|]. destruct (decode_setup_reply_packet reply); [|done..]. destruct (_ || _); [done|].
    destruct (negb _); [by repeat case_match|]. destruct (_ || _); [done|]. destruct (negb _); [done|]. by apply holds_same.
  - unfold SetupTable.complete_from_downstream. destruct (SetupTable.position _ t) as [[i e]|].
    2:{ cbn. rewrite app_nil_r. split; [done|by apply not_elem_of_nil]. }
    pose proof (holds_complete key request from ret cs (tx_previous_hop e) tid reply now t Ht Hret ltac:(lia) Hh) as Hc.
    destruct (SetupTable.complete _ _ _ _ _) as [r t']. cbn [fst snd] in *. destruct r; (split; [exact Hc|]);
      [|by apply not_elem_of_nil..]. by intros Hin%list_elem_of_singleton.
  - cbn [fst snd completions omap list_omap]. rewrite app_nil_r. split; [|by apply not_elem_of_nil].
    unfold SetupTable.cancel. destruct (SetupTable.position _ t) as [[i e]|]; [|done]. by apply holds_mark.
  - cbn [fst snd completions omap list_omap]. rewrite app_nil_r. split; [|by apply not_elem_of_nil].
    apply holds_expire; [done|done|lia|done].
Qed.

Lemma run_holds key request from ret ops : 
  forall cs t, Forall op_ok ops -> Forall (within from (sat_add from ret)) ops -> table_ok t -> t_retention_us t = ret ->
  holds key request from ret cs t ->
  let x := setup_run ops t in
  holds key request from ret (cs ++ completions key x.1) x.2 /\ (EAdmitted key.1 key.2 ∉ x.1) /\
  table_ok x.2 /\ t_retention_us x.2 = ret.
Proof.
  induction ops as [|o ops IH]; intros cs t Hops Hw Ht Hret Hh; cbn [setup_run].
  { cbv zeta. cbn. rewrite app_nil_r. split_and!; [done|by apply not_elem_of_nil|done|done]. }
  inversion Hops; inversion Hw; subst. destruct (step_holds key request from _ cs o t ltac:(done) ltac:(done) Ht eq_refl Hh) as [Hst1 Hst2].
  pose proof (step_ok o t ltac:(done) Ht) as Ht1. pose proof (step_config o t) as (_ & _ & _ & _ & _ & Hret1).
  destruct (setup_step o t) as [es t1]. cbn [fst snd] in *.
  destruct (IH (cs ++ completions key es) t1) as (Hh2 & Hn2 & Ht2 & Hr2); [done|done|done|done|done|].
  destruct (setup_run ops t1) as [es' t2]. cbn [fst snd] in *. split_and!; [|by apply not_elem_of_app|done|done].
  unfold completions in *. by rewrite omap_app, app_assoc.
Qed.

(** ** Admission and retries *)
Lemma admitted_holds hop tid request cap now deadline t t0 :
  SetupTable.begin hop tid request cap now deadline t = (LNew, t0) ->
  holds (hop, tid) request now (t_retention_us t) [] t0.
Proof.
  unfold SetupTable.begin. destruct (SetupTable.expire now t) as [n t1]. destruct (_ || _) eqn:Hg; [done|]. bools.
  destruct (SetupTable.position _ t1) as [[i e]|]; [by repeat case_match|]. destruct (checked_add _ _); [|done].
  destruct (_ || _); [done|]. destruct (negb _); [done|]. destruct (_ || _); [done|]. intros [= <-].
  exists (SetupTable.new_transaction hop tid request cap deadline). split; [|by split].
  cbn [with_table t_entries]. apply elem_of_app. right. by apply list_elem_of_singleton.
Qed.

Definition retry_answer (cs : list bytes) (same : bool) (r : SetupTransactionLookup) : Prop :=
  if same then match cs with [b] => r = LReplay b | _ => r = LPendingRetry \/ r = LExpired end
  else r = LConflict.

Lemma retry_answered hop tid request from ret cs req cap now deadline t :
  table_ok t -> t_retention_us t = ret -> now < sat_add from ret -> holds (hop, tid) request from ret cs t ->
  tid <> 0 -> req <> [] -> zlen req <= t_max_request_bytes t -> 0 < cap <= t_max_reply_bytes t -> now < deadline ->
  retry_answer cs (bool_decide (req = request)) (SetupTable.begin hop tid req cap now deadline t).1.
Proof.
  intros Ht Hret Hnow Hh Htid Hreq Hrlen Hcap Hdl. unfold SetupTable.begin, retry_answer.
  pose proof (holds_expire _ _ _ _ _ _ t Ht Hret Hnow Hh) as Hh1. pose proof (expire_ok now t Ht) as Ht1.
  pose proof (expire_config (length (t_entries t)) now 0 0 t) as (_ & _ & Hc1 & Hc2 & _ & _).
  unfold SetupTable.expire in *. destruct (SetupTable.expire_loop _ _ _ _ t) as [n t1]. cbn [snd] in *.
  rewrite Hc1, Hc2, (proj2 (Z.eqb_neq tid 0)), (proj2 (Z.eqb_neq cap 0)), (bool_decide_eq_false_2 (req = [])) by (done || lia).
  rewrite (proj2 (Z.ltb_ge _ (zlen req))), (proj2 (Z.ltb_ge _ cap)), (proj2 (Z.leb_gt deadline now)) by lia. cbn [orb].
  destruct (holds_position _ _ _ _ _ hop tid t1 Ht1 Hh1 eq_refl) as (i & e & -> & [_ Hq _ Hst]). rewrite Hq. cbn [fst].
  destruct (bool_decide_reflect (req = request)) as [->|Hne].
  - rewrite bool_decide_eq_true_2 by done. cbn [negb]. destruct cs as [|b [|]]; [|by destruct Hst as (-> & -> & -> & _)|done].
    destruct Hst as [-> _]. destruct (tx_expired e); auto.
  - by rewrite bool_decide_eq_false_2 by congruence.
Qed.

(** C10: A setup request is set up once.  Once a request is admitted, and until
    the retention time has passed, whatever requests, replies, cancellations and
    expiries follow: its transaction is not admitted again and completes at most
    once; a retry with the same bytes is told that it is pending or that it has
    expired, or, once completed, gets exactly the reply that completed it; and
    other bytes under the same transaction are refused as a conflict. *)
Theorem setup_answered_once mp mc mq mr ms ret before hop tid request cap from deadline t0 ops :
  0 <= mp -> 0 <= mc -> 0 <= ms -> Forall op_ok before -> 0 <= cap -> tid <> 0 ->
  SetupTable.begin hop tid request cap from deadline (setup_reached mp mc mq mr ms ret before) = (LNew, t0) ->
  Forall op_ok ops -> Forall (within from (sat_add from ret)) ops ->
  let '(events, t) := setup_run ops t0 in
  ~ In (EAdmitted hop tid) events /\ (length (completions (hop, tid) events) <= 1)%nat /\
  forall req' cap' now deadline',
    req' <> [] -> zlen req' <= mq -> 0 < cap' <= mr -> from <= now < sat_add from ret -> now < deadline' ->
    retry_answer (completions (hop, tid) events) (bool_decide (req' = request))
      (SetupTable.begin hop tid req' cap' now deadline' t).1.
Proof.
  intros Hmp Hmc Hms Hbefore Hcap Htid Hnew Hops Hw.
  assert (table_ok (setup_reached mp mc mq mr ms ret before)) as Ht by (apply run_ok; [done|split; cbn; try done; constructor]).
  pose proof (run_config before (SetupTable.new mp mc mq mr ms ret)) as Hc.
  pose proof (begin_ok hop tid request cap from deadline _ Hcap Ht) as Ht0.
  pose proof (step_config (SBegin hop tid request cap from deadline) (setup_reached mp mc mq mr ms ret before)) as Hc0.
  cbn [setup_step] in Hc0. rewrite Hnew in Ht0, Hc0. cbn [snd] in Ht0, Hc0.
  assert (same_config (SetupTable.new mp mc mq mr ms ret) t0) as Hc1 by (by eapply same_config_trans).
  apply admitted_holds in Hnew. replace (t_retention_us (setup_reached mp mc mq mr ms ret before)) with ret in Hnew
    by (symmetry; apply Hc). assert (t_retention_us t0 = ret) as Hret by apply Hc1.
  pose proof (run_holds _ _ _ _ ops [] t0 Hops Hw Ht0 Hret Hnew) as Hrun. pose proof (run_config ops t0) as Hc2.
  destruct (setup_run ops t0) as [events t]. cbn [fst snd app] in *. destruct Hrun as (Hh & Hno & Htt & Hrr).
  split; [by rewrite <- list_elem_of_In|]. split.
  { destruct Hh as (e & _ & [_ _ _ Hst]). destruct (completions _ _) as [|b [|]]; simpl; [lia|lia|done]. }
  intros req' cap' now deadline' Hne Hlen Hcap' Hnow Hdl.
  assert (same_config (SetupTable.new mp mc mq mr ms ret) t) as (_ & _ & Hm1 & Hm2 & _) by (by eapply same_config_trans).
  cbn in Hm1, Hm2. apply (retry_answered _ _ _ from ret); [done|done|lia|done|done|done|by rewrite Hm1|by rewrite Hm2|done].
Qed.
End retries.

(** ** Examples *)
Section examples.
#[local] Instance roomy : Allocator := {| try_reserve := fun _ => true |}.

Definition upstream : ForwardNextHop := mkForwardNextHop 1 11.
Definition downstream : ForwardNextHop := mkForwardNextHop 2 22.
Definition retry_ops : list setup_op :=
  [SDownstreamHop upstream 7 downstream; SExpire 20; SCompleteDown downstream 7 [5; 6] 60; SExpire 90].
Definition admitted_table : SetupTransactionTable :=
  (SetupTable.begin upstream 7 [1; 2; 3] 256 10 100 (SetupTable.new 4 8 1036 256 1024 500)).2.

Lemma setup_answered_once_witness :
  fst (SetupTable.begin upstream 7 [1; 2; 3] 256 95 200 (setup_run retry_ops admitted_table).2) = LReplay [5; 6].
Proof.
  pose proof (setup_answered_once 4 8 1036 256 1024 500 [] upstream 7 [1; 2; 3] 256 10 100 admitted_table retry_ops
    ltac:(lia) ltac:(lia) ltac:(lia) ltac:(constructor) ltac:(lia) ltac:(lia) eq_refl
    ltac:(by repeat constructor) ltac:(repeat constructor; try lia; by vm_compute)) as Hall.
  destruct (setup_run retry_ops admitted_table) as [events t] eqn:Hrun. destruct Hall as (_ & _ & Hall).
  assert (completions (upstream, 7) events = [[5; 6]]) as Hc
    by (change events with (events, t).1; rewrite <- Hrun; by vm_compute).
  specialize (Hall [1; 2; 3] 256 95 200). rewrite Hc in Hall. apply Hall; [done|by vm_compute|lia|by vm_compute|lia].
Defined.

Lemma setup_table_accounts_witness :
  t_pending_count (setup_reached 4 8 1036 256 1024 500 [SBegin upstream 7 [1] 256 10 100; SBegin upstream 8 [1] 256 10 100]) = 2 /\
  t_reserved_reply_bytes (setup_reached 4 8 1036 256 1024 500 [SBegin upstream 7 [1] 256 10 100; SBegin upstream 8 [1] 256 10 100]) <= 1024.
Proof.
  split; [by vm_compute|].
  apply (setup_table_accounts 4 8 1036 256 1024 500 [SBegin upstream 7 [1] 256 10 100; SBegin upstream 8 [1] 256 10 100]);
    [lia|lia|lia|]. by repeat constructor.
Defined.

Lemma setup_deadline_exact_witness :
  SetupTable.next_deadline (SetupTable.expire 100 (setup_reached 4 8 1036 256 1024 500 [SBegin upstream 7 [1] 256 10 100])).2 = Some 600
  /\ 100 < 600.
Proof.
  split; [by vm_compute|].
  apply (setup_deadline_exact 4 8 1036 256 1024 500 [SBegin upstream 7 [1] 256 10 100]); [lia|lia|lia| |by vm_compute].
  by repeat constructor.
Defined.

(** Two requests with one transaction identifier, forwarded to one next hop:
    the replies of both complete the first. *)
Lemma downstream_reply_ambiguous :
  let other := mkForwardNextHop 3 33 in
  let t := setup_reached 4 8 1036 256 1024 500
    [SBegin upstream 7 [1] 256 10 100; SBegin other 7 [2] 256 10 100;
     SDownstreamHop upstream 7 downstream; SDownstreamHop other 7 downstream] in
  let x := SetupTable.complete_from_downstream downstream 7 [9] 20 t in
  x.1 = Ok upstream /\ (SetupTable.complete_from_downstream downstream 7 [8] 20 x.2).1 = Err SetupTransactionError.Missing.
Proof. vm_compute. by split. Qed.

(** Cancelling an answered transaction reports success and changes nothing. *)
Lemma cancel_answered_keeps :
  let t := setup_reached 4 8 1036 256 1024 500 [SBegin upstream 7 [1] 256 10 100; SComplete upstream 7 [9] 20] in
  SetupTable.cancel upstream 7 t = (true, t).
Proof. by vm_compute. Qed.
End examples.
