(* ===== verification/Router.v ===== *)
(** * The packet router of a relay

    [PacketRouter] and [dispatch_packet] of [src/crates/quic-lite/src/relay.rs]:
    the registry of [Registry.v] and the setup table of [SetupTable.v] behind one
    lookup per packet, and the rewriting of forwarded packets.  The theorems show
    that a short packet crosses any path of forwarding rules with only its
    connection identifier changed, and that no received bytes make the router
    panic.  The stateless-reset key of the router is left out; the tokens made
    from one are in [StatelessReset.v]. *)

From S2P Require Import Prelude Wire PacketHeader AckRanges Reader FlowControl SortedKeys Registry SetupCodec SetupTable.

Inductive RouterTarget (Endpoint NextHop : Type) : Type :=
  | RTEndpoint (endpoint : Endpoint)
  | RTForward (rule : ForwardRule NextHop)
  | RTMissing.
Arguments RTEndpoint {Endpoint NextHop}.
Arguments RTForward {Endpoint NextHop}.
Arguments RTMissing {Endpoint NextHop}.

(** The rewritten packet is carried by the value, for the bytes in [output]. *)
Inductive DcidPacket (Endpoint NextHop : Type) : Type :=
  | DPEndpoint (received_dcid : Z) (endpoint : Endpoint)
  | DPForward (received_dcid : Z) (rule : ForwardRule NextHop) (packet : bytes).
Arguments DPEndpoint {Endpoint NextHop}.
Arguments DPForward {Endpoint NextHop}.

Inductive DcidPacketError : Type :=
  | HeaderError (e : Error.t)
  | RegistryError (e : DcidRegistryError.t)
  | RewriteError (e : Error.t).

Section dispatch.
Context `{F : Features} {Endpoint NextHop : Type}.

Definition dispatch_packet (registry : DcidRegistry Endpoint NextHop) (input : bytes) (cap : Z)
    : outcome DcidPacketError (DcidPacket Endpoint NextHop) :=
  prefix ← map_err HeaderError (decode_routing_prefix input);
  target ← map_err RegistryError (Registry.ingress registry (p_dcid prefix));
  match target with
  | TEndpoint e => Ok (DPEndpoint (p_dcid prefix) e)
  | TForward rule =>
      packet ← map_err RewriteError
        (match destination rule with
         | Connection dcid => rewrite_dcid input dcid cap
         | BootstrapDestination => rewrite_bootstrap_destination input cap
         end);
      Ok (DPForward (p_dcid prefix) rule packet)
  end.
End dispatch.

Record PacketRouter (Endpoint NextHop : Type) : Type := mkPacketRouter {
  registry : DcidRegistry Endpoint NextHop;
  setup_transactions : SetupTransactionTable;
}.
Arguments mkPacketRouter {Endpoint NextHop}.
Arguments registry {Endpoint NextHop}.
Arguments setup_transactions {Endpoint NextHop}.

Definition DEFAULT_MAX_PENDING_SETUPS : Z := 4.
Definition DEFAULT_MAX_CACHED_SETUP_REPLIES : Z := 8.
Definition DEFAULT_SETUP_REPLY_STORAGE_BYTES : Z := 1024.
Definition DEFAULT_SETUP_REPLY_RETENTION_US : Z := 5000000.

Module Router.
Section router.
Context `{F : Features, Allocator} {Endpoint NextHop : Type} `{EqDecision Endpoint, EqDecision NextHop}.
Abbreviation router := (PacketRouter Endpoint NextHop).

Definition new : router :=
  mkPacketRouter Registry.new
    (SetupTable.new DEFAULT_MAX_PENDING_SETUPS DEFAULT_MAX_CACHED_SETUP_REPLIES MAX_SETUP_BODY_BYTES
       DEFAULT_SETUP_REPLY_BYTES DEFAULT_SETUP_REPLY_STORAGE_BYTES DEFAULT_SETUP_REPLY_RETENTION_US).

(** Calls on one of the two parts. *)
Definition on_registry {A} (x : router) (r : A * DcidRegistry Endpoint NextHop) : A * router :=
  (r.1, mkPacketRouter r.2 (setup_transactions x)).
Definition on_setups {A} (x : router) (r : A * SetupTransactionTable) : A * router :=
  (r.1, mkPacketRouter (registry x) r.2).

Definition set_max_entries (n : Z) (x : router) : router :=
  mkPacketRouter (Registry.set_max_entries n (registry x)) (setup_transactions x).
Definition register_endpoint (dcid : Z) (e : Endpoint) (x : router) := on_registry x (Registry.insert_endpoint dcid e (registry x)).
Definition register_forward (dcid : Z) (rule : ForwardRule NextHop) (x : router) :=
  on_registry x (Registry.install_forward dcid rule (registry x)).
Definition register_forward_pair (c1 : Z) (r1 : ForwardRule NextHop) (c2 : Z) (r2 : ForwardRule NextHop) (x : router) :=
  on_registry x (Registry.install_forward_pair c1 r1 c2 r2 (registry x)).
Definition contains (x : router) (dcid : Z) : bool := Registry.contains (registry x) dcid.
Definition endpoint_for_cid (x : router) (dcid : Z) : option Endpoint := Registry.endpoint_for_cid (registry x) dcid.
Definition remove_endpoint (dcid : Z) (e : Endpoint) (x : router) := on_registry x (Registry.remove_endpoint dcid e (registry x)).
Definition remove_forward (dcid : Z) (x : router) := on_registry x (Registry.remove_forward dcid (registry x)).
Definition remove_forward_pair (c1 c2 : Z) (x : router) := on_registry x (Registry.remove_forward_pair c1 c2 (registry x)).
Definition consume_forward_quota (dcid : Z) (control : bool) (now : Z) (x : router) :=
  on_registry x (Registry.consume_forward_quota dcid control now (registry x)).
Definition next_forward_lease_deadline (x : router) : option Z := Registry.next_forward_lease_deadline (registry x).
Definition expire_forward_leases (now : Z) (x : router) := on_registry x (Registry.expire_forward_leases now (registry x)).
Definition opaque_endpoint (accepts : Endpoint -> bool) (x : router) : option Endpoint :=
  Registry.endpoint_matching (registry x) accepts.

Definition begin_setup_transaction (hop : ForwardNextHop) (tid : Z) (request : bytes) (capacity now deadline : Z) (x : router) :=
  on_setups x (SetupTable.begin hop tid request capacity now deadline (setup_transactions x)).
Definition set_setup_downstream_hop (hop : ForwardNextHop) (tid : Z) (downstream : ForwardNextHop) (x : router) :=
  on_setups x (SetupTable.set_downstream_hop hop tid downstream (setup_transactions x)).
Definition setup_downstream_hop (hop : ForwardNextHop) (tid : Z) (x : router) : option ForwardNextHop :=
  SetupTable.downstream_hop hop tid (setup_transactions x).
Definition set_setup_relay_state (hop : ForwardNextHop) (tid : Z) (state : SetupRelayState) (x : router) :=
  on_setups x (SetupTable.set_relay_state hop tid state (setup_transactions x)).
Definition setup_relay_state (hop : ForwardNextHop) (tid : Z) (x : router) : option SetupRelayState :=
  SetupTable.relay_state hop tid (setup_transactions x).
Definition validate_setup_downstream_reply (downstream : ForwardNextHop) (tid : Z) (circuit : SetupCircuitKey)
    (reply : bytes) (x : router) :=
  on_setups x (SetupTable.validate_downstream_reply downstream tid circuit reply (setup_transactions x)).
Definition complete_setup_from_downstream (downstream : ForwardNextHop) (tid : Z) (reply : bytes) (now : Z) (x : router) :=
  on_setups x (SetupTable.complete_from_downstream downstream tid reply now (setup_transactions x)).
Definition complete_setup_transaction (hop : ForwardNextHop) (tid : Z) (reply : bytes) (now : Z) (x : router) :=
  on_setups x (SetupTable.complete hop tid reply now (setup_transactions x)).
Definition cancel_setup_transaction (hop : ForwardNextHop) (tid : Z) (x : router) :=
  on_setups x (SetupTable.cancel hop tid (setup_transactions x)).
Definition expire_setup_transactions (now : Z) (x : router) := on_setups x (SetupTable.expire now (setup_transactions x)).
Definition next_setup_deadline (x : router) : option Z := SetupTable.next_deadline (setup_transactions x).

(** *** Packets *)
Definition target (x : router) (input : bytes) : res (RouterTarget Endpoint NextHop) :=
  prefix ← decode_routing_prefix input;
  match Registry.ingress (registry x) (p_dcid prefix) with
  | Ok (TEndpoint e) => Ok (RTEndpoint e)
  | Ok (TForward rule) => Ok (RTForward rule)
  | Err DcidRegistryError.Missing => Ok RTMissing
  | Err _ | Panic => Panic
  end.

Definition forward_lease_active (input : bytes) (now : Z) (x : router) : res bool * router :=
  match decode_routing_prefix input with
  | Ok prefix => let '(active, x') := on_registry x (Registry.lease_active (p_dcid prefix) now (registry x)) in (Ok active, x')
  | Err e => (Err e, x)
  | Panic => (Panic, x)
  end.

(** The prefix is decoded before and after the lease check, from the same bytes. *)
Definition refresh_forward_lease (input : bytes) (now : Z) (x : router) : res bool * router :=
  match decode_routing_prefix input with
  | Ok prefix => let '(active, x') := on_registry x (Registry.refresh_lease (p_dcid prefix) now (registry x)) in (Ok active, x')
  | Err e => (Err e, x)
  | Panic => (Panic, x)
  end.

Definition path_probe_token_for (connection_id packet_number : Z) : option Z := Some (Z.max packet_number 1).
End router.
End Router.

(** ** Forwarding along a path *)
Section path.
Context `{F : Features} {Endpoint NextHop : Type}.

(** A packet handed from registry to registry, as long as each forwards it. *)
Fixpoint through (cap : Z) (hops : list (DcidRegistry Endpoint NextHop)) (packet : bytes) : option bytes :=
  match hops with
  | [] => Some packet
  | r :: hops' =>
      match dispatch_packet r packet cap with
      | Ok (DPForward _ _ out) => through cap hops' out
      | _ => None
      end
  end.

(** Each registry has a rule from its identifier to the next one. *)
Fixpoint linked (hops : list (DcidRegistry Endpoint NextHop)) (c : Z) (cids : list Z) : Prop :=
  match hops, cids with
  | [], [] => True
  | r :: hops', d :: cids' =>
      is_cid d /\ d <> 0 /\
      (exists f, Registry.lookup r c = Some (TForward f) /\ destination f = Connection d) /\
      linked hops' d cids'
  | _, _ => False
  end.

(** The bytes of a short packet with its identifier apart. *)
Record short_form (b0 : Z) (pnb body : bytes) (c : Z) (s : bytes) (cid : bytes) : Prop := {
  sf_bytes : s = b0 :: cid ++ pnb ++ body;
  sf_flags : illegal_flags b0 = false;
  sf_short : Z.land b0 0x80 = 0;
  sf_number : zlen pnb = Z.land b0 3 + 1;
  sf_cid : is_cid c;
  sf_encoded : ConnectionId.encode c (zlen cid) = Ok cid;
}.

Definition short_prefix (b0 : Z) (pnb : bytes) (c : Z) : ShortHeaderPrefix :=
  mkShortHeaderPrefix b0 c (be_fold32 0 pnb) (zlen pnb) (1 + ConnectionId.encoded_len c + zlen pnb).

Lemma short_form_prefix b0 pnb body c s cid :
  short_form b0 pnb body c s cid -> decode_prefix s = Ok (short_prefix b0 pnb c) /\ is_long s = false /\
  drop (Z.to_nat (header_len (short_prefix b0 pnb c))) s = body /\
  zlen s = 1 + ConnectionId.encoded_len c + zlen pnb + zlen body.
Proof.
  intros [-> Hfl Hs Hn Hc He]. pose proof (cid_encode_len _ _ _ Hc He) as (Hl & _ & _).
  rewrite (decode_prefix_app b0 cid c pnb body) by (done || by eapply cid_decode_encode).
  unfold short_prefix. rewrite <- Hl. split; [done|]. split; [unfold is_long; by rewrite Hs|]. split; [|zlia].
  cbn [header_len]. replace (Z.to_nat (1 + zlen cid + zlen pnb)) with (S (length (cid ++ pnb)))
    by (rewrite length_app; unfold zlen; lia).
  by rewrite skipn_cons, app_assoc, drop_app_length.
Qed.

Lemma cid_len_range c : is_cid c -> 1 <= ConnectionId.encoded_len c <= 8.
Proof. intros Hc. destruct (encoded_len_cases c Hc) as [[-> _]|[[-> _]|[[-> _]|[-> _]]]]; lia. Qed.

Lemma cid_encoding c : is_cid c -> exists cid, ConnectionId.encode c (zlen cid) = Ok cid.
Proof.
  intros Hc. destruct (cid_encode_shape c (ConnectionId.encoded_len c) Hc) as (m & h & _ & He & _); [lia|].
  pose proof (cid_encode_len _ _ _ Hc He) as (Hl & _ & _). eexists. rewrite Hl. exact He.
Qed.

(** One hop. *)
Lemma one_relay (r : DcidRegistry Endpoint NextHop) b0 pnb body c s cid d f cap :
  short_form b0 pnb body c s cid -> is_cid d -> d <> 0 ->
  Registry.lookup r c = Some (TForward f) -> destination f = Connection d ->
  1 + 8 + zlen pnb + zlen body <= cap -> cap + 8 <= U64_MAX ->
  exists out cid', dispatch_packet r s cap = Ok (DPForward c f out) /\ short_form b0 pnb body d out cid'.
Proof.
  intros Hs Hd Hd0 Hl Hf Hcap Hmax. destruct (short_form_prefix _ _ _ _ _ _ Hs) as (Hp & Hlong & _ & Hlen).
  destruct (cid_encoding d Hd) as [cid' He']. pose proof (cid_encode_len _ _ _ Hd He') as (Hl' & _ & _).
  pose proof (cid_len_range d Hd). pose proof (cid_len_range c (sf_cid _ _ _ _ _ _ Hs)).
  exists (b0 :: cid' ++ pnb ++ body), cid'. split; [|by destruct Hs; split].
  unfold dispatch_packet, decode_routing_prefix. rewrite Hlong, Hp. cbn [map_err mbind outcome_bind].
  change (p_dcid (short_prefix b0 pnb c)) with c. unfold Registry.ingress. rewrite Hl. cbn [ok_or map_err mbind outcome_bind].
  rewrite Hf. destruct Hs as [-> Hfl Hsh Hn Hc He].
  by rewrite (rewrite_short_pieces b0 cid c pnb body d cid' cap) by (done || zlia).
Qed.

Lemma path_followed (hops : list (DcidRegistry Endpoint NextHop)) cids b0 pnb body c s cid cap :
  short_form b0 pnb body c s cid -> linked hops c cids ->
  1 + 8 + zlen pnb + zlen body <= cap -> cap + 8 <= U64_MAX ->
  exists out cid', through cap hops s = Some out /\ short_form b0 pnb body (List.last cids c) out cid'.
Proof.
  intros Hs Hl Hcap Hmax. revert cids c s cid Hs Hl. induction hops as [|r hops IH]; intros [|d cids] c s cid Hs Hl; try done.
  { by exists s, cid. }
  destruct Hl as (Hd & Hd0 & (f & Hf & Hdest) & Hl).
  destruct (one_relay r _ _ _ _ _ _ d f cap Hs Hd Hd0 Hf Hdest Hcap Hmax) as (out & cid' & Hdisp & Hout).
  cbn [through]. rewrite Hdisp. destruct (IH cids d out cid' Hout Hl) as (out' & cid'' & Hthr & Hfin).
  exists out', cid''. split; [done|]. destruct cids as [|d' cids]; [done|].
  replace (List.last (d :: d' :: cids) c) with (List.last (d' :: cids) d); [done|]. clear.
  revert d'. induction cids as [|x cids IH]; intros d'; [done|]. cbn [List.last]. apply IH.
Qed.

(** C33: Relays are transparent to a short packet.  If each relay on a path has a
    rule from the identifier it receives to the next one, then every valid short
    packet that leaves room for one identifier is forwarded by all of them, and
    the endpoint registered under the last identifier gets it with the flags,
    the packet number and the body the sender wrote. *)
Theorem relayed_packet_transparent packet p (hops : list (DcidRegistry Endpoint NextHop)) cids
    (last_hop : DcidRegistry Endpoint NextHop) endpoint cap :
  bytes_ok packet -> is_long packet = false -> decode_prefix packet = Ok p ->
  zlen packet + 8 <= cap -> cap + 8 <= U64_MAX -> linked hops (p_dcid p) cids ->
  let d := List.last cids (p_dcid p) in
  Registry.lookup last_hop d = Some (TEndpoint endpoint) ->
  exists out, through cap hops packet = Some out /\
    decode_prefix out = Ok (with_dcid p d) /\
    drop (Z.to_nat (header_len (with_dcid p d))) out = drop (Z.to_nat (header_len p)) packet /\
    dispatch_packet last_hop out cap = Ok (DPEndpoint d endpoint).
Proof.
  intros Hok Hlong Hp Hcap Hmax Hl d Hend. pose proof Hp as Hp'.
  apply decode_prefix_Ok in Hp' as (b0 & cid & pnb & body & Hs & Hfl & He & Hc & Hcl & Hn & Hpe); [|done].
  assert (short_form b0 pnb body (p_dcid p) packet cid) as Hform.
  { split; try done. rewrite Hs in Hlong. unfold is_long in Hlong. by apply negb_false_iff, Z.eqb_eq in Hlong. }
  destruct (short_form_prefix _ _ _ _ _ _ Hform) as (Hdec & _ & Hbody & Hlen).
  pose proof (cid_len_range (p_dcid p) Hc). rewrite Hp in Hdec. injection Hdec as Hpeq.
  destruct (path_followed hops cids b0 pnb body (p_dcid p) packet cid cap Hform Hl) as (out & cid' & Hthr & Hfin); [lia|done|].
  destruct (short_form_prefix _ _ _ _ _ _ Hfin) as (Hdec' & Hlong' & Hbody' & _). fold d in Hfin, Hdec', Hbody'.
  assert (with_dcid p d = short_prefix b0 pnb d) as Hw.
  { rewrite Hpeq. unfold with_dcid, short_prefix. cbn [p_flags p_dcid truncated_packet_number p_packet_number_len header_len].
    f_equal. lia. }
  exists out. rewrite Hw. split_and!; [done|done|by rewrite Hbody', Hpeq, Hbody|].
  unfold dispatch_packet, decode_routing_prefix. rewrite Hlong', Hdec'. cbn [map_err mbind outcome_bind].
  change (p_dcid (short_prefix b0 pnb d)) with d. unfold Registry.ingress. by rewrite Hend.
Qed.

(** Whatever bytes a bearer delivers, routing them does not panic: the
    dispatch of a packet, its target, and the lease check and renewal for it. *)
Theorem routing_total `{Allocator, EqDecision Endpoint, EqDecision NextHop} (x : PacketRouter Endpoint NextHop) packet cap now :
  bytes_ok packet ->
  dispatch_packet (registry x) packet cap <> Panic /\ Router.target x packet <> Panic /\
  (Router.forward_lease_active packet now x).1 <> Panic /\ (Router.refresh_forward_lease packet now x).1 <> Panic.
Proof.
  intros Hok. pose proof (decode_routing_prefix_not_Panic packet Hok) as Hpre.
  assert (forall A E E' (f : E -> E') (o : outcome E A), o <> Panic -> map_err f o <> Panic) as Hmap
    by (intros ???? [] Hn; [discriminate|discriminate|by destruct Hn]).
  assert (forall c, Registry.ingress (registry x) c = Err DcidRegistryError.Missing \/
    exists t, Registry.ingress (registry x) c = Ok t) as Hin.
  { intros c. unfold Registry.ingress. destruct (Registry.lookup (registry x) c) as [t|]; [right; by exists t|by left]. }
  split_and!.
  - unfold dispatch_packet. apply bind_not_Panic; [by apply Hmap|]. intros p _. apply bind_not_Panic.
    { apply Hmap. destruct (Hin (p_dcid p)) as [->|[t ->]]; done. }
    intros [e|rule] _; [done|]. apply bind_not_Panic; [|done]. apply Hmap.
    by destruct (destination rule); [unfold rewrite_dcid; destruct (_ =? 0); [done|]|]; apply rewrite_destination_not_Panic.
  - apply bind_not_Panic; [done|]. intros p _. destruct (Hin (p_dcid p)) as [->|[[|] ->]]; done.
  - unfold Router.forward_lease_active. destruct (decode_routing_prefix packet) as [p| |]; [|done..].
    by destruct (Router.on_registry _ _).
  - unfold Router.refresh_forward_lease. destruct (decode_routing_prefix packet) as [p| |]; [|done..].
    by destruct (Router.on_registry _ _).
Qed.
End path.

(** ** A path of two relays *)
Section examples.
#[local] Instance no_protection : Features := {| packet_protection := false |}.
#[local] Instance plenty : Allocator := {| try_reserve := fun _ => true |}.

Definition forward_to (d : Z) : ForwardRule nat := mkForwardRule 0%nat (Connection d) 1000 2000 0 0 0 0 0.
Definition relay (c d : Z) : DcidRegistry nat nat := (Registry.install_forward c (forward_to d) Registry.new).2.
Definition home (c : Z) : DcidRegistry nat nat := (Registry.insert_endpoint c 9%nat Registry.new).2.

(** Packet 42 for identifier 5, with three bytes of frames. *)
Definition sample_packet : bytes := [0x40; 5; 42; 1; 2; 3].
Definition sample_prefix : ShortHeaderPrefix := mkShortHeaderPrefix 0x40 5 42 1 3.

Lemma relayed_packet_transparent_witness :
  bytes_ok sample_packet /\
  exists out, through 64 [relay 5 300; relay 300 7] sample_packet = Some out /\
    decode_prefix out = Ok (with_dcid sample_prefix 7) /\
    drop (Z.to_nat (header_len (with_dcid sample_prefix 7))) out =
      drop (Z.to_nat (header_len sample_prefix)) sample_packet /\
    dispatch_packet (home 7) out 64 = Ok (DPEndpoint 7 9%nat).
Proof.
  assert (bytes_ok sample_packet) as Hok by (apply bytes_ok_bool; by vm_compute). split; [done|].
  apply (relayed_packet_transparent sample_packet sample_prefix [relay 5 300; relay 300 7] [300; 7] (home 7) 9%nat 64);
    [done|by vm_compute..|by vm_compute| |by vm_compute].
  cbn [linked]. split_and!; try (by vm_compute); [exists (forward_to 300)|exists (forward_to 7)]; by vm_compute.
Defined.

Lemma routing_total_witness :
  bytes_ok sample_packet /\
  dispatch_packet (relay 5 300) sample_packet 4 = Err (RewriteError Error.BufferTooSmall) /\
  let x := mkPacketRouter (relay 5 300) (setup_transactions (Router.new (Endpoint := nat) (NextHop := nat))) in
  dispatch_packet (registry x) sample_packet 4 <> Panic /\ Router.target x sample_packet <> Panic /\
  (Router.forward_lease_active sample_packet 0 x).1 <> Panic /\ (Router.refresh_forward_lease sample_packet 0 x).1 <> Panic.
Proof.
  assert (bytes_ok sample_packet) as Hok by (apply bytes_ok_bool; by vm_compute).
  split; [done|]. split; [by vm_compute|]. intros x. by apply (routing_total x sample_packet 4 0).
Defined.
End examples.
