(* ===== verification/Callback.v ===== *)
(** * Ordered stream delivery

    [callback.rs] of [src/crates/quic-lite/src]: the ranges of each stream that
    wait behind a gap, and the two ways they reach the application, chunks that
    are completed later ([receive_leased], [done]) and a synchronous consumer
    that accepts a prefix of each chunk ([receive_copying],
    [try_receive_copying_borrowed], [resume_copying]).  A packet lease is
    immutable storage, so it is its bytes; the consumer is the class
    [CopyingStreamEvents], a state with one function per callback.  [usize] is 64
    bits.  The theorems are in [CallbackSpec.v] and [CallbackOrder.v]. *)

From S2P Require Import Prelude Records FlowControl SortedKeys.

Record StreamDone : Type := mkStreamDone { sd_stream : Z; sd_delivery_id : Z }.
#[export] Instance StreamDone_eq_dec : EqDecision StreamDone.
Proof. solve_decision. Defined.

Record StreamChunk : Type := mkStreamChunk {
  ck_stream : Z;
  ck_offset : Z;
  ck_end : bool;
  ck_delivery_id : Z;
  ck_packet : bytes;
  ck_from : Z;
  ck_to : Z;
}.

Module CallbackError.
Inductive t : Type := InvalidOverlap | InvalidFin | InvalidCompletion | Capacity.
End CallbackError.
Abbreviation cb := (outcome CallbackError.t).

Inductive CopyingError (E : Type) : Type :=
  | Transport (e : CallbackError.t)
  | Callback (e : E).
Arguments Transport {E}.
Arguments Callback {E}.

(** [rt_from..rt_to] of [rt_packet] is the data at [rt_offset]. *)
Record Retained : Type := mkRetained {
  rt_offset : Z;
  rt_packet : bytes;
  rt_from : Z;
  rt_to : Z;
  rt_end : bool;
}.
#[export] Instance Retained_eq_dec : EqDecision Retained.
Proof. solve_decision. Defined.

Record OrderedStream : Type := mkOrderedStream {
  os_id : Z;
  os_consumed : Z;
  os_final_size : option Z;
  os_retained : list Retained;
  os_outstanding : option (StreamDone * Z * bool);
  os_next_delivery : Z;
  os_finished : bool;
}.
#[export] Instance eta_OrderedStream : Eta OrderedStream := ltac:(mk_eta).
#[export] Instance set_os_consumed : Setter os_consumed := ltac:(mk_setter).
#[export] Instance set_os_final_size : Setter os_final_size := ltac:(mk_setter).
#[export] Instance set_os_retained : Setter os_retained := ltac:(mk_setter).
#[export] Instance set_os_outstanding : Setter os_outstanding := ltac:(mk_setter).
#[export] Instance set_os_next_delivery : Setter os_next_delivery := ltac:(mk_setter).
#[export] Instance set_os_finished : Setter os_finished := ltac:(mk_setter).

(** [Range::len] *)
Definition range_len (a b : Z) : Z := Z.max (b - a) 0.

Module Ordered.
Definition new (id : Z) : OrderedStream := mkOrderedStream id 0 None [] None 1 false.

(** The final size is exceeded, or another one is claimed. *)
Definition fin_invalid (final_size : option Z) (end_ : Z) (fin : bool) : bool :=
  match final_size with Some f => (f <? end_) || (fin && negb (end_ =? f)) | None => false end.

Definition note_fin (fin : bool) (end_ : Z) (s : OrderedStream) : OrderedStream :=
  if fin then s <| os_final_size := Some end_ |> else s.

(** [&packet.bytes()\[range\]] *)
Definition data_of (x : Retained) : cb bytes := slice (rt_packet x) (rt_from x) (rt_to x).

(** One turn of the overlap check: the bytes must agree, and the ranges must be
    the same. *)
Definition check_overlap (packet : bytes) (offset a b end_ : Z) (x : Retained) : cb unit :=
  let a1 := rt_offset x + (rt_to x - rt_from x) in
  let start := Z.max (rt_offset x) offset in
  let stop := Z.min a1 end_ in
  if start <? stop then
    let al := start - rt_offset x in
    let bl := start - offset in
    let n := stop - start in
    old ← slice (rt_packet x) (rt_from x + al) (rt_from x + al + n);
    new ← slice packet (a + bl) (a + bl + n);
    if negb (bool_decide (old = new)) then Err CallbackError.InvalidOverlap else
    if negb (rt_offset x =? offset) || negb (range_len (rt_from x) (rt_to x) =? range_len a b)
    then Err CallbackError.InvalidOverlap else Ok tt
  else Ok tt.

Fixpoint check_overlaps (packet : bytes) (offset a b end_ : Z) (l : list Retained) : cb unit :=
  match l with
  | [] => Ok tt
  | x :: l' => _ ← check_overlap packet offset a b end_ x; check_overlaps packet offset a b end_ l'
  end.

(** An exact copy of the range is retained already. *)
Definition same_range (packet : bytes) (offset a b : Z) (x : Retained) : cb bool :=
  if (rt_offset x =? offset) && (range_len (rt_from x) (rt_to x) =? range_len a b) then
    old ← data_of x;
    new ← slice packet a b;
    Ok (bool_decide (old = new))
  else Ok false.

Fixpoint any_same (packet : bytes) (offset a b : Z) (l : list Retained) : cb bool :=
  match l with
  | [] => Ok false
  | x :: l' => same ← same_range packet offset a b x; if same : bool then Ok true else any_same packet offset a b l'
  end.

(** [retained.partition_point(|item| item.offset <= offset)] *)
Definition position_for (offset : Z) (l : list Retained) : nat := partition_point rt_offset l offset.

Section insert.
Context `{Allocator}.

(** The part of [insert] after the consumed bytes are trimmed. *)
Definition insert_new (packet : bytes) (offset a b : Z) (fin : bool) (max_new : Z) (s : OrderedStream)
    : cb Z * OrderedStream :=
  match checked_add offset (range_len a b) with
  | None => (Err CallbackError.InvalidFin, s)
  | Some end_ =>
      if (a =? b) && negb fin then (Ok 0, s) else
      match (_ ← check_overlaps packet offset a b end_ (os_retained s); any_same packet offset a b (os_retained s)) with
      | Err e => (Err e, s)
      | Panic => (Panic, s)
      | Ok true => (Ok 0, note_fin fin end_ s)
      | Ok false =>
          if max_new <? range_len a b then (Err CallbackError.Capacity, s) else
          if negb (try_reserve (length (os_retained s))) then (Err CallbackError.Capacity, s) else
          (Ok (range_len a b),
           note_fin fin end_ (s <| os_retained ::= fun l => insert_at (position_for offset l) (mkRetained offset packet a b fin) l |>))
      end
  end.

Definition insert (packet : bytes) (offset a b : Z) (fin : bool) (max_new : Z) (s : OrderedStream)
    : cb Z * OrderedStream :=
  if (b <? a) || (zlen packet <? b) then (Err CallbackError.InvalidOverlap, s) else
  match checked_add offset (b - a) with
  | None => (Err CallbackError.InvalidFin, s)
  | Some end_ =>
      if fin_invalid (os_final_size s) end_ fin then (Err CallbackError.InvalidFin, s) else
      if (end_ <=? os_consumed s) && negb ((b - a =? 0) && fin && (offset =? os_consumed s))
      then (Ok 0, note_fin fin end_ s) else
      let trim := sat_sub (os_consumed s) offset in
      insert_new packet (sat_add offset trim) (a + trim) b fin max_new s
  end.
End insert.

(** *** Leased chunks *)
Definition at_cursor (s : OrderedStream) (x : Retained) : bool := rt_offset x =? os_consumed s.
Definition front (s : OrderedStream) : option (nat * Retained) := list_find (fun x => at_cursor s x = true) (os_retained s).

Definition next_chunk (s : OrderedStream) : option StreamChunk * OrderedStream :=
  if bool_decide (os_outstanding s <> None) || os_finished s then (None, s) else
  match front s with
  | None => (None, s)
  | Some (i, x) =>
      let len := range_len (rt_from x) (rt_to x) in
      let end_ := rt_end x || bool_decide (os_final_size s = Some (os_consumed s + len)) in
      let done := mkStreamDone (os_id s) (os_next_delivery s) in
      (Some (mkStreamChunk (os_id s) (os_consumed s) end_ (sd_delivery_id done) (rt_packet x) (rt_from x) (rt_to x)),
       s <| os_retained ::= delete i |> <| os_next_delivery ::= fun n => sat_add n 1 |>
         <| os_outstanding := Some (done, len, end_) |>)
  end.

Definition done (completion : StreamDone) (s : OrderedStream) : cb bool * OrderedStream :=
  match os_outstanding s with
  | None => (Err CallbackError.InvalidCompletion, s)
  | Some (expected, len, end_) =>
      if negb (bool_decide (expected = completion)) then (Err CallbackError.InvalidCompletion, s) else
      if end_ && negb (bool_decide (os_final_size s = Some (sat_add (os_consumed s) len)))
      then (Err CallbackError.InvalidFin, s) else
      let s := s <| os_outstanding := None |> <| os_consumed ::= fun c => sat_add c len |> in
      if end_ : bool then (Ok true, s <| os_finished := true |>) else (Ok false, s)
  end.
End Ordered.

Definition retention_for_receive_window (limits : ConnectionLimits) (minimum : Z) : Z :=
  Z.max (default U64_MAX (usize_try_from (l_max_data limits))) minimum.

(** ** The consumer *)
Class CopyingStreamEvents (Ev Er : Type) : Type := {
  on_stream_chunk : Z -> Z -> bool -> bytes -> Ev -> (nat + Er) * Ev;
  on_stream_finished : Z -> Ev -> Ev;
  on_stream_reset : Z -> Z -> Ev -> Ev;
}.

(** [StreamEvents] *)
Class LeasedStreamEvents (Ev : Type) : Type := {
  on_leased_chunk : StreamChunk -> Ev -> Ev;
  on_leased_finished : Z -> Ev -> Ev;
  on_leased_reset : Z -> Z -> Ev -> Ev;
}.

Record CallbackStreams : Type := mkCallbackStreams {
  cs_streams : list OrderedStream;
  cs_max_streams : Z;
  cs_max_retained_bytes : Z;
  cs_retained_bytes : Z;
}.
#[export] Instance eta_CallbackStreams : Eta CallbackStreams := ltac:(mk_eta).
#[export] Instance set_cs_streams : Setter cs_streams := ltac:(mk_setter).
#[export] Instance set_cs_max_streams : Setter cs_max_streams := ltac:(mk_setter).
#[export] Instance set_cs_max_retained_bytes : Setter cs_max_retained_bytes := ltac:(mk_setter).
#[export] Instance set_cs_retained_bytes : Setter cs_retained_bytes := ltac:(mk_setter).

Module Streams.
Definition new (max_streams max_retained_bytes : Z) : CallbackStreams :=
  mkCallbackStreams [] max_streams max_retained_bytes 0.

Definition set_limits (max_streams max_retained_bytes : Z) (c : CallbackStreams) : CallbackStreams :=
  c <| cs_max_streams := max_streams |> <| cs_max_retained_bytes := max_retained_bytes |>.

Definition position (id : Z) (c : CallbackStreams) : option (nat * OrderedStream) :=
  list_find (fun s => os_id s = id) (cs_streams c).

Definition delivery_finished (id : Z) (c : CallbackStreams) : bool :=
  existsb (fun s => (os_id s =? id) && os_finished s) (cs_streams c).

Definition retention_may_exceed (additional : Z) (c : CallbackStreams) : bool :=
  cs_max_retained_bytes c <? sat_add (cs_retained_bytes c) additional.

Definition outstanding (id : Z) (c : CallbackStreams) : option StreamDone :=
  '(_, s) ← position id c; '(d, _, _) ← os_outstanding s; Some d.

Definition stream_count (c : CallbackStreams) : Z := zlen (List.filter (fun s => negb (os_finished s)) (cs_streams c)).
Definition retained_bytes (c : CallbackStreams) : Z := cs_retained_bytes c.

(** [self.streams.retain(|state| !state.finished)] *)
Definition drop_finished (c : CallbackStreams) : CallbackStreams :=
  c <| cs_streams ::= List.filter (fun s => negb (os_finished s)) |>.
Definition set_stream (i : nat) (s : OrderedStream) (c : CallbackStreams) : CallbackStreams :=
  c <| cs_streams ::= fun l => <[i := s]> l |>.
Definition remove_stream (i : nat) (c : CallbackStreams) : CallbackStreams := c <| cs_streams ::= delete i |>.

(** *** The frames of one packet *)
Definition known_final (id : Z) (packet_finals : list (Z * Z)) (c : CallbackStreams) : option Z :=
  match '(_, s) ← position id c; os_final_size s with
  | Some f => Some f
  | None => snd <$> List.find (fun x => x.1 =? id) packet_finals
  end.

Section validate.
Context `{Allocator}.

(** One turn of the loop: the new stream identifiers and the final sizes of the packet. *)
Definition validate_frame (c : CallbackStreams) (acc : list Z * list (Z * Z)) (frame : Z * Z * Z * bool)
    : cb (list Z * list (Z * Z)) :=
  let '(new_streams, packet_finals) := acc in
  let '(id, offset, len, fin) := frame in
  end_ ← ok_or (checked_add offset len) CallbackError.InvalidFin;
  new_streams ← (if bool_decide (position id c = None) && negb (existsb (Z.eqb id) new_streams)
                 then if try_reserve (length new_streams) then Ok (new_streams ++ [id]) else Err CallbackError.Capacity
                 else Ok new_streams);
  match known_final id packet_finals c with
  | Some f => if (f <? end_) || (fin && negb (end_ =? f)) then Err CallbackError.InvalidFin else Ok (new_streams, packet_finals)
  | None =>
      if fin : bool then
        if try_reserve (length packet_finals) then Ok (new_streams, packet_finals ++ [(id, end_)])
        else Err CallbackError.Capacity
      else Ok (new_streams, packet_finals)
  end.

Fixpoint validate_frames (c : CallbackStreams) (acc : list Z * list (Z * Z)) (frames : list (Z * Z * Z * bool))
    : cb (list Z * list (Z * Z)) :=
  match frames with
  | [] => Ok acc
  | f :: frames' => acc ← validate_frame c acc f; validate_frames c acc frames'
  end.

Definition validate_packet_frames (frames : list (Z * Z * Z * bool)) (c : CallbackStreams) : cb unit :=
  '(new_streams, _) ← validate_frames c ([], []) frames;
  if cs_max_streams c <? sat_add (zlen (cs_streams c)) (zlen new_streams)
  then Err CallbackError.Capacity else Ok tt.

(** *** The stream of a frame *)
Definition stream_mut (id : Z) (c : CallbackStreams) : cb (nat * OrderedStream) * CallbackStreams :=
  let c := drop_finished c in
  match position id c with
  | Some x => (Ok x, c)
  | None =>
      if cs_max_streams c <=? zlen (cs_streams c) then (Err CallbackError.Capacity, c) else
      if negb (try_reserve (length (cs_streams c))) then (Err CallbackError.Capacity, c) else
      (Ok (length (cs_streams c), Ordered.new id), c <| cs_streams ::= fun l => l ++ [Ordered.new id] |>)
  end.

Definition insert_range (id : Z) (packet : bytes) (offset a b : Z) (fin : bool) (available : Z)
    (c : CallbackStreams) : cb Z * CallbackStreams :=
  let c := drop_finished c in
  match position id c with
  | Some (i, s) => let '(o, s') := Ordered.insert packet offset a b fin available s in (o, set_stream i s' c)
  | None =>
      if cs_max_streams c <=? zlen (cs_streams c) then (Err CallbackError.Capacity, c) else
      match Ordered.insert packet offset a b fin available (Ordered.new id) with
      | (Ok n, s') =>
          if negb (try_reserve (length (cs_streams c))) then (Err CallbackError.Capacity, c) else
          (Ok n, c <| cs_streams ::= fun l => l ++ [s'] |>)
      | (Err e, _) => (Err e, c)
      | (Panic, _) => (Panic, c)
      end
  end.

(** *** Leased delivery *)
Definition available (c : CallbackStreams) : Z := sat_sub (cs_max_retained_bytes c) (cs_retained_bytes c).
Definition retain_bytes (n : Z) (c : CallbackStreams) : CallbackStreams := c <| cs_retained_bytes ::= fun r => sat_add r n |>.
Definition release_bytes (n : Z) (c : CallbackStreams) : CallbackStreams := c <| cs_retained_bytes ::= fun r => sat_sub r n |>.

Section leased.
Context {Ev : Type} `{LeasedStreamEvents Ev}.

Definition deliver (chunk : option StreamChunk) (ev : Ev) : Ev :=
  match chunk with Some k => on_leased_chunk k ev | None => ev end.

Definition receive_leased (id : Z) (packet : bytes) (offset a b : Z) (fin : bool) (c : CallbackStreams) (ev : Ev)
    : cb unit * (CallbackStreams * Ev) :=
  match insert_range id packet offset a b fin (available c) c with
  | (Err e, c) => (Err e, (c, ev))
  | (Panic, c) => (Panic, (c, ev))
  | (Ok n, c) =>
      match stream_mut id c with
      | (Err e, c) => (Err e, (c, ev))
      | (Panic, c) => (Panic, (c, ev))
      | (Ok (i, s), c) =>
          let '(chunk, s') := Ordered.next_chunk s in
          (Ok tt, (retain_bytes n (set_stream i s' c), deliver chunk ev))
      end
  end.

Definition done (completion : StreamDone) (c : CallbackStreams) (ev : Ev) : cb unit * (CallbackStreams * Ev) :=
  match position (sd_stream completion) c with
  | None => (Err CallbackError.InvalidCompletion, (c, ev))
  | Some (i, s) =>
      let len := match os_outstanding s with Some (_, len, _) => len | None => 0 end in
      match Ordered.done completion s with
      | (Err e, s') => (Err e, (set_stream i s' c, ev))
      | (Panic, s') => (Panic, (set_stream i s' c, ev))
      | (Ok true, s') =>
          (Ok tt, (remove_stream i (release_bytes len (set_stream i s' c)), on_leased_finished (sd_stream completion) ev))
      | (Ok false, s') =>
          let c := release_bytes len (set_stream i s' c) in
          if bool_decide (os_outstanding s' = None) then
            let '(chunk, s'') := Ordered.next_chunk s' in
            (Ok tt, (set_stream i s'' c, deliver chunk ev))
          else (Ok tt, (c, ev))
      end
  end.

Definition reset (id code : Z) (c : CallbackStreams) (ev : Ev) : CallbackStreams * Ev :=
  match position id c with
  | None => (c, ev)
  | Some (i, s) =>
      let retained := foldr (fun x n => range_len (rt_from x) (rt_to x) + n) 0 (os_retained s) in
      let out := match os_outstanding s with Some (_, len, _) => len | None => 0 end in
      (remove_stream i (release_bytes (retained + out) c), on_leased_reset id code ev)
  end.
End leased.

(** *** Copying delivery *)
Section copying.
Context {Ev Er : Type} `{CopyingStreamEvents Ev Er}.
Abbreviation copying A := (outcome (CopyingError Er) A).

(** A call of the consumer and the reading of its answer. *)
Definition offer (id offset : Z) (end_ : bool) (data : bytes) (ev : Ev) : copying Z * Ev :=
  match on_stream_chunk id offset end_ data ev with
  | (inl n, ev) =>
      if Z.of_nat n <=? zlen data then (Ok (Z.of_nat n), ev) else (Err (Transport CallbackError.InvalidOverlap), ev)
  | (inr e, ev) => (Err (Callback e), on_stream_reset id 1 ev)
  end.

(** One turn of the loop of [resume_copying]: the total so far, and whether the
    loop goes on. *)
Definition resume_turn (id total : Z) (c : CallbackStreams) (ev : Ev) : copying (bool * Z) * (CallbackStreams * Ev) :=
  match position id c with
  | None => (Ok (false, total), (c, ev))
  | Some (i, s) =>
      if os_finished s || bool_decide (os_outstanding s <> None) then (Ok (false, total), (c, ev)) else
      match Ordered.front s with
      | None => (Ok (false, total), (c, ev))
      | Some (k, x) =>
          match map_err Transport (Ordered.data_of x) with
          | Err e => (Err e, (c, ev))
          | Panic => (Panic, (c, ev))
          | Ok data =>
              match offer id (rt_offset x) (rt_end x) data ev with
              | (Err e, ev) => (Err e, (c, ev))
              | (Panic, ev) => (Panic, (c, ev))
              | (Ok n, ev) =>
                  if (n =? 0) && negb (bool_decide (data = [])) then (Ok (false, total), (c, ev)) else
                  let total := sat_add total n in
                  let c := release_bytes n c in
                  let s := s <| os_consumed ::= fun m => sat_add m n |> in
                  if negb (n =? zlen data) then
                    let x' := mkRetained (sat_add (rt_offset x) n) (rt_packet x) (rt_from x + n) (rt_to x) (rt_end x) in
                    (Ok (false, total), (set_stream i (s <| os_retained ::= fun l => <[k := x']> l |>) c, ev))
                  else
                    let s := s <| os_retained ::= delete k |> in
                    if rt_end x then (Ok (false, total), (remove_stream i c, on_stream_finished id ev))
                    else (Ok (true, total), (set_stream i s c, ev))
              end
          end
      end
  end.

Fixpoint resume_loop (fuel : nat) (id total : Z) (c : CallbackStreams) (ev : Ev) : copying Z * (CallbackStreams * Ev) :=
  match fuel with
  | O => (Panic, (c, ev))
  | S fuel' =>
      match resume_turn id total c ev with
      | (Ok (true, total), (c, ev)) => resume_loop fuel' id total c ev
      | (Ok (false, total), (c, ev)) => (Ok total, (c, ev))
      | (Err e, (c, ev)) => (Err e, (c, ev))
      | (Panic, (c, ev)) => (Panic, (c, ev))
      end
  end.

(** Every turn that goes on removes a range of the stream. *)
Definition resume_fuel (id : Z) (c : CallbackStreams) : nat :=
  match position id c with Some (_, s) => S (length (os_retained s)) | None => 1%nat end.

Definition resume_copying (id : Z) (c : CallbackStreams) (ev : Ev) : copying Z * (CallbackStreams * Ev) :=
  resume_loop (resume_fuel id c) id 0 c ev.

(** The bytes can go to the consumer without being stored. *)
Definition borrowable (offset : Z) (s : OrderedStream) : bool :=
  negb (os_finished s) && bool_decide (os_outstanding s = None) && (offset =? os_consumed s)
  && negb (existsb (Ordered.at_cursor s) (os_retained s)).

Definition ignore_value {A} (r : copying A * (CallbackStreams * Ev)) : copying unit * (CallbackStreams * Ev) :=
  (_ ← r.1; Ok tt, r.2).

(** [try_receive_copying_range] for bytes at the cursor of stream [i], [s];
    [retain] is what the closure of that name returns. *)
Definition deliver_borrowed (id : Z) (data : bytes) (offset end_ : Z) (fin : bool) (storage_offset : Z) (retain : cb bytes)
    (i : nat) (s : OrderedStream) (c : CallbackStreams) (ev : Ev) : copying unit * (CallbackStreams * Ev) :=
  if Ordered.fin_invalid (os_final_size s) end_ fin then (Err (Transport CallbackError.InvalidFin), (c, ev)) else
  match offer id offset fin data ev with
  | (Err e, ev) => (Err e, (c, ev))
  | (Panic, ev) => (Panic, (c, ev))
  | (Ok n, ev) =>
      if negb (n =? zlen data) then
        let s := s <| os_consumed := offset + n |> in
        let c := set_stream i s c in
        if cs_max_retained_bytes c <? sat_add (cs_retained_bytes c) (sat_sub (zlen data) n)
        then (Err (Transport CallbackError.Capacity), (c, ev)) else
        match retain with
        | Err e => (Err (Transport e), (c, ev))
        | Panic => (Panic, (c, ev))
        | Ok packet =>
            let '(o, s) := Ordered.insert packet (offset + n) (storage_offset + n) (storage_offset + zlen data) fin
                             (available c) s in
            let c := set_stream i s c in
            match o with
            | Err e => (Err (Transport e), (c, ev))
            | Panic => (Panic, (c, ev))
            | Ok m => (Ok tt, (retain_bytes m c, ev))
            end
        end
      else
        let s := Ordered.note_fin fin end_ s <| os_consumed := end_ |> in
        if fin : bool then
          (Ok tt, (c <| cs_streams ::= List.filter (fun x => negb (os_id x =? id)) |>, on_stream_finished id ev))
        else
          let c := set_stream i s c in
          if bool_decide (os_retained s = []) then (Ok tt, (c, ev)) else ignore_value (resume_copying id c ev)
  end.

(** [receive_copying] of a range that is stored first. *)
Definition receive_stored (id : Z) (packet : bytes) (offset a b : Z) (fin : bool) (c : CallbackStreams) (ev : Ev)
    : copying unit * (CallbackStreams * Ev) :=
  match insert_range id packet offset a b fin (available c) c with
  | (Err e, c) => (Err (Transport e), (c, ev))
  | (Panic, c) => (Panic, (c, ev))
  | (Ok n, c) => ignore_value (resume_copying id (retain_bytes n c) ev)
  end.

(** The two methods call each other: [receive_copying] for bytes that can be
    borrowed, [try_receive_copying_range] for bytes that cannot. *)
Abbreviation range_receiver :=
  (Z -> bytes -> Z -> bool -> Z -> cb bytes -> CallbackStreams -> Ev -> copying unit * (CallbackStreams * Ev)).

(** [receive_copying], given [try_receive_copying_range]. *)
Definition receive_owned (receive : range_receiver) (id : Z) (packet : bytes) (offset a b : Z) (fin : bool)
    (c : CallbackStreams) (ev : Ev) : copying unit * (CallbackStreams * Ev) :=
  if (b <? a) || (zlen packet <? b) then (Err (Transport CallbackError.InvalidOverlap), (c, ev)) else
  if (match position id c with Some (_, s) => borrowable offset s | None => offset =? 0 end) then
    match slice (E := CopyingError Er) packet a b with
    | Ok data => receive id data offset fin a (Ok packet) c ev
    | Err e => (Err e, (c, ev))
    | Panic => (Panic, (c, ev))
    end
  else receive_stored id packet offset a b fin c ev.

Fixpoint receive_range (fuel : nat) : range_receiver := fun id data offset fin storage_offset retain c ev =>
  match checked_add offset (zlen data) with
  | None => (Err (Transport CallbackError.InvalidFin), (c, ev))
  | Some end_ =>
      match stream_mut id c with
      | (Err e, c) => (Err (Transport e), (c, ev))
      | (Panic, c) => (Panic, (c, ev))
      | (Ok (i, s), c) =>
          if borrowable offset s then deliver_borrowed id data offset end_ fin storage_offset retain i s c ev else
          match retain with
          | Err e => (Err (Transport e), (c, ev))
          | Panic => (Panic, (c, ev))
          | Ok packet =>
              receive_owned (match fuel with S fuel' => receive_range fuel' | O => fun _ _ _ _ _ _ c ev => (Panic, (c, ev)) end)
                id packet offset storage_offset (storage_offset + zlen data) fin c ev
          end
      end
  end.

(** One call in the other direction is enough: bytes that cannot be borrowed are stored. *)
Definition receive_copying : Z -> bytes -> Z -> Z -> Z -> bool -> CallbackStreams -> Ev -> copying unit * (CallbackStreams * Ev) :=
  receive_owned (receive_range 0).

Definition try_receive_copying_borrowed (id : Z) (data : bytes) (offset : Z) (fin : bool) (retain : cb bytes)
    (c : CallbackStreams) (ev : Ev) : copying unit * (CallbackStreams * Ev) :=
  receive_range 0 id data offset fin 0 retain c ev.

Definition receive_copying_borrowed (id : Z) (data : bytes) (offset : Z) (fin : bool) (retain : bytes)
    (c : CallbackStreams) (ev : Ev) : copying unit * (CallbackStreams * Ev) :=
  try_receive_copying_borrowed id data offset fin (Ok retain) c ev.
End copying.
End validate.
End Streams.
