(* ===== verification/CallbackSpec.v ===== *)
(** * Ordered delivery: what the application sees

    The ranges a stream retains, and the log of a synchronous consumer.  The
    senders are given as the bytes of their streams ([content]); a frame that
    agrees with them is a [piece].  The theorem shows that, whatever the consumer
    answers and whatever storage is refused, each chunk a stream delivers starts
    where the accepted bytes end and holds the sender's bytes, and that it is
    reported finished exactly when all of them have been accepted. *)

From S2P Require Import Prelude Records Keyed FlowControl SortedKeys Callback.

#[local] Open Scope Z_scope.

(** ** The log of a consumer *)
Inductive event : Type :=
  | EvChunk (id offset : Z) (fin : bool) (data : bytes) (answer : option nat)
  | EvFinished (id : Z)
  | EvReset (id code : Z).

(** A consumer that writes down what it is offered and what it answers. *)
#[export] Instance recorder {Ev Er} `{CopyingStreamEvents Ev Er} : CopyingStreamEvents (Ev * list event) Er := {
  on_stream_chunk id offset fin data st :=
    let '(r, ev) := on_stream_chunk id offset fin data st.1 in
    (r, (ev, st.2 ++ [EvChunk id offset fin data (match r with inl n => Some n | inr _ => None end)]));
  on_stream_finished id st := (on_stream_finished id st.1, st.2 ++ [EvFinished id]);
  on_stream_reset id code st := (on_stream_reset id code st.1, st.2 ++ [EvReset id code]);
}.

Definition taken (data : bytes) (answer : option nat) : bytes :=
  match answer with Some n => if (n <=? length data)%nat then take n data else [] | None => [] end.

(** The bytes the application has accepted of a stream, since the last time one
    with this identifier was finished. *)
Definition got_step (id : Z) (acc : bytes) (e : event) : bytes :=
  match e with
  | EvChunk id' _ _ data answer => if id' =? id then acc ++ taken data answer else acc
  | EvFinished id' => if id' =? id then [] else acc
  | EvReset _ _ => acc
  end.
Definition got (id : Z) (log : list event) : bytes := fold_left (got_step id) log [].

Lemma got_snoc id log e : got id (log ++ [e]) = got_step id (got id log) e.
Proof. unfold got. by rewrite fold_left_app. Qed.

Section spec.
Context (content : Z -> bytes).

(** A frame that carries the sender's bytes. *)
Definition piece (id offset : Z) (data : bytes) (fin : bool) : Prop :=
  slice (E := CallbackError.t) (content id) offset (offset + zlen data) = Ok data /\
  (fin = true -> offset + zlen data = zlen (content id)).

Definition event_ok (before : list event) (e : event) : Prop :=
  match e with
  | EvChunk id offset fin data _ => offset = zlen (got id before) /\ piece id offset data fin
  | EvFinished id => got id before = content id
  | EvReset _ _ => True
  end.

Definition in_order (log : list event) : Prop :=
  forall before e after, log = before ++ e :: after -> event_ok before e.

Lemma in_order_snoc log e : in_order log -> event_ok log e -> in_order (log ++ [e]).
Proof.
  intros Hl He before x after Hs. destruct after as [|y after _] using rev_ind.
  - by apply app_inj_tail in Hs as [-> ->].
  - rewrite app_comm_cons, app_assoc in Hs. apply app_inj_tail in Hs as [-> _]. by eapply Hl.
Qed.

(** ** Streams *)
Definition size_of (id : Z) : Z := zlen (content id).

Definition range_ok (id : Z) (x : Retained) : Prop :=
  exists data, Ordered.data_of x = Ok data /\ piece id (rt_offset x) data (rt_end x).

Record base_ok (s : OrderedStream) : Prop := {
  bo_ranges : Forall (range_ok (os_id s)) (os_retained s);
  bo_final : os_final_size s = None \/ os_final_size s = Some (size_of (os_id s));
}.

Record stream_ok (log : list event) (s : OrderedStream) : Prop := {
  so_base : base_ok s;
  so_live : os_finished s = false;
  so_free : os_outstanding s = None;
  so_range : 0 <= os_consumed s <= size_of (os_id s);
  so_got : got (os_id s) log = take (Z.to_nat (os_consumed s)) (content (os_id s));
}.

Record state_ok (log : list event) (c : CallbackStreams) : Prop := {
  st_streams : forall i s, cs_streams c !! i = Some s -> stream_ok log s;
  st_ids : NoDup (os_id <$> cs_streams c);
  st_absent : forall id, id ∉ (os_id <$> cs_streams c) -> got id log = [];
}.

Definition length_of (x : Retained) : Z := range_len (rt_from x) (rt_to x).
Definition held (s : OrderedStream) : Z := zsum length_of (os_retained s).

Hypothesis content_small : forall id, zlen (content id) <= U64_MAX.

Lemma piece_range id offset data fin :
  piece id offset data fin -> 0 <= offset /\ offset + zlen data <= size_of id /\ size_of id <= U64_MAX.
Proof. intros [(? & ? & _)%slice_Ok _]. pose proof (content_small id). unfold size_of. lia. Qed.

Lemma data_of_length x data : Ordered.data_of x = Ok data -> zlen data = rt_to x - rt_from x /\ length_of x = zlen data.
Proof. intros Hd. pose proof (slice_len _ _ _ _ Hd). unfold length_of, range_len. pose proof (zlen_nonneg data). lia. Qed.

(** The part of a piece that starts [n] bytes in. *)
Lemma piece_suffix id offset data fin packet a b n :
  piece id offset data fin -> slice (E := CallbackError.t) packet a b = Ok data -> 0 <= n <= zlen data ->
  exists rest, slice (E := CallbackError.t) packet (a + n) b = Ok rest /\ piece id (offset + n) rest fin.
Proof.
  intros [Hp Hf] Hs Hn. pose proof (slice_len _ _ _ _ Hs) as Hlen.
  destruct (slice_slice (F := CallbackError.t) _ _ _ _ n (zlen data) Hs) as (rest & Hr & Hr'); [lia..|].
  exists rest. replace b with (a + zlen data) by lia. split; [done|].
  destruct (slice_slice (F := CallbackError.t) _ _ _ _ n (zlen data) Hp) as (rest' & Hr2 & Hr2'); [lia..|].
  rewrite Hr in Hr2. injection Hr2 as <-. pose proof (slice_len _ _ _ _ Hr).
  split; [by replace (offset + n + zlen rest) with (offset + zlen data) by lia|].
  intros ?. rewrite <- Hf by done. lia.
Qed.

(** ** Insertion of a range *)
Lemma check_overlap_not_Panic id packet offset a b data fin x :
  range_ok id x -> slice (E := CallbackError.t) packet a b = Ok data -> piece id offset data fin ->
  Ordered.check_overlap packet offset a b (offset + zlen data) x <> Panic.
Proof.
  intros (d & Hd & _) Hs _. destruct (data_of_length x d Hd) as [Hl _]. pose proof (slice_len _ _ _ _ Hs).
  unfold Ordered.data_of in Hd. apply slice_Ok in Hd as (? & ? & _). apply slice_Ok in Hs as (? & ? & _).
  unfold Ordered.check_overlap. destruct (Z.ltb_spec (Z.max (rt_offset x) offset) (Z.min (rt_offset x + (rt_to x - rt_from x)) (offset + zlen data))); [|done].
  apply bind_not_Panic; [apply slice_not_Panic; lia|]. intros old _.
  apply bind_not_Panic; [apply slice_not_Panic; lia|]. intros new _.
  destruct (negb _); [done|]. by destruct (_ || _).
Qed.

Lemma check_overlaps_not_Panic id packet offset a b data fin l :
  Forall (range_ok id) l -> slice (E := CallbackError.t) packet a b = Ok data -> piece id offset data fin ->
  Ordered.check_overlaps packet offset a b (offset + zlen data) l <> Panic.
Proof.
  intros Hl Hs Hp. induction Hl as [|x l Hx _ IH]; [done|]. cbn [Ordered.check_overlaps].
  apply bind_not_Panic; [by eapply check_overlap_not_Panic|]. by intros.
Qed.

Lemma any_same_not_Panic id packet offset a b data l :
  Forall (range_ok id) l -> slice (E := CallbackError.t) packet a b = Ok data ->
  Ordered.any_same packet offset a b l <> Panic.
Proof.
  intros Hl Hs. induction Hl as [|x l (d & Hd & _) _ IH]; [done|]. cbn [Ordered.any_same]. unfold Ordered.same_range.
  rewrite Hd, Hs. by destruct (_ && _); cbn [mbind outcome_bind]; [destruct (bool_decide _)|].
Qed.

Lemma held_insert (p : list Retained -> nat) x s :
  held (s <| os_retained ::= fun l => insert_at (p l) x l |>) = held s + length_of x.
Proof.
  unfold held. get_set. unfold insert_at. generalize (p (os_retained s)). intros i.
  rewrite <- (take_drop i (os_retained s)) at 3. rewrite !zsum_app. cbn [zsum]. lia.
Qed.

Lemma note_fin_base s offset data fin :
  base_ok s -> piece (os_id s) offset data fin -> base_ok (Ordered.note_fin fin (offset + zlen data) s).
Proof.
  intros [Hr Hf] [_ Hp]. unfold Ordered.note_fin. destruct fin; [|done]. split; [done|]. right. get_set. by rewrite Hp.
Qed.

(** What an insertion leaves alone. *)
Definition same_cursor (s s' : OrderedStream) : Prop :=
  os_id s' = os_id s /\ os_consumed s' = os_consumed s /\ os_finished s' = os_finished s /\
  os_outstanding s' = os_outstanding s.

Lemma note_fin_cursor fin end_ s : same_cursor s (Ordered.note_fin fin end_ s) /\ held (Ordered.note_fin fin end_ s) = held s.
Proof. by destruct fin. Qed.

Definition inserted (max_new : Z) (s : OrderedStream) (r : cb Z * OrderedStream) : Prop :=
  base_ok r.2 /\ same_cursor s r.2 /\
  match r.1 with
  | Ok n => 0 <= n /\ n <= Z.max max_new 0 /\ held r.2 = held s + n
  | Err _ => held r.2 = held s
  | Panic => False
  end.

Section insertion.
Context `{Allocator}.

Lemma insert_new_ok packet offset a b data fin max_new s :
  base_ok s -> slice (E := CallbackError.t) packet a b = Ok data -> piece (os_id s) offset data fin ->
  inserted max_new s (Ordered.insert_new packet offset a b fin max_new s).
Proof.
  intros Hs Hd Hp. pose proof (slice_len _ _ _ _ Hd) as Hlen. pose proof (piece_range _ _ _ _ Hp) as Hr.
  pose proof (zlen_nonneg data). assert (range_len a b = zlen data) as Hl by (unfold range_len; lia).
  unfold Ordered.insert_new, checked_add. rewrite Hl. rewrite (proj2 (Z.leb_le _ _)) by lia.
  assert (same_cursor s s) as Hsame by done.
  destruct (_ && negb fin); [unfold inserted; cbn; by split_and!; try lia|].
  pose proof (check_overlaps_not_Panic _ _ _ _ _ _ _ _ (bo_ranges _ Hs) Hd Hp) as Hov.
  pose proof (any_same_not_Panic _ packet offset a b data _ (bo_ranges _ Hs) Hd) as Han.
  destruct (Ordered.check_overlaps _ _ _ _ _ _) as [[]| |]; cbn [mbind outcome_bind]; [|by unfold inserted; cbn|done].
  destruct (Ordered.any_same _ _ _ _ _) as [[|]| |]; [| |by unfold inserted; cbn|done].
  - destruct (note_fin_cursor fin (offset + zlen data) s). unfold inserted; cbn.
    split_and!; [by apply note_fin_base|done..|lia|lia|lia].
  - destruct (Z.ltb_spec max_new (zlen data)); [by unfold inserted; cbn|].
    destruct (negb _); [by unfold inserted; cbn|].
    set (s1 := s <| os_retained ::= _ |>).
    assert (base_ok s1) as Hs1.
    { destruct Hs as [Hr1 Hf1]. split; [|done]. subst s1. get_set. unfold insert_at.
      rewrite <- (take_drop (Ordered.position_for offset (os_retained s)) (os_retained s)) in Hr1.
      apply Forall_app in Hr1 as [??]. apply Forall_app. split; [done|]. constructor; [|done].
      exists data. split; [exact Hd|done]. }
    destruct (note_fin_cursor fin (offset + zlen data) s1) as [Hc Hh].
    unfold inserted; cbn. split_and!; [by apply note_fin_base|done..|lia|lia|].
    rewrite Hh. subst s1. rewrite (held_insert (Ordered.position_for offset)). unfold length_of. cbn [rt_from rt_to]. by rewrite Hl.
Qed.

Lemma insert_ok packet offset a b data fin max_new s :
  base_ok s -> 0 <= os_consumed s -> slice (E := CallbackError.t) packet a b = Ok data -> piece (os_id s) offset data fin ->
  inserted max_new s (Ordered.insert packet offset a b fin max_new s).
Proof.
  intros Hs Hc Hd Hp. pose proof (slice_len _ _ _ _ Hd) as Hlen. pose proof (piece_range _ _ _ _ Hp) as Hr.
  pose proof (zlen_nonneg data). assert (same_cursor s s) as Hsame by done.
  apply slice_Ok in Hd as Hd'. destruct Hd' as (? & ? & _).
  unfold Ordered.insert. rewrite (proj2 (Z.ltb_ge _ _)), (proj2 (Z.ltb_ge _ _)) by lia. cbn [orb].
  unfold checked_add. rewrite (proj2 (Z.leb_le _ _)) by lia.
  destruct (Ordered.fin_invalid _ _ _); [by unfold inserted; cbn|].
  destruct (Z.leb_spec (offset + (b - a)) (os_consumed s)) as [Hle|Hgt]; cbn [andb];
    [destruct (negb _) eqn:Hz|].
  - rewrite <- Hlen. destruct (note_fin_cursor fin (offset + zlen data) s). unfold inserted; cbn.
    split_and!; [by apply note_fin_base|done..|lia|lia|lia].
  - apply negb_false_iff in Hz. bools. destruct (piece_suffix _ _ _ _ _ _ _ (sat_sub (os_consumed s) offset) Hp Hd) as (rest & Hrest & Hp').
    { unfold sat_sub. lia. }
    replace (sat_add offset (sat_sub (os_consumed s) offset)) with (offset + sat_sub (os_consumed s) offset)
      by (unfold sat_add, sat_sub in *; lia).
    by eapply insert_new_ok.
  - destruct (piece_suffix _ _ _ _ _ _ _ (sat_sub (os_consumed s) offset) Hp Hd) as (rest & Hrest & Hp').
    { unfold sat_sub. lia. }
    replace (sat_add offset (sat_sub (os_consumed s) offset)) with (offset + sat_sub (os_consumed s) offset)
      by (unfold sat_add, sat_sub in *; lia).
    by eapply insert_new_ok.
Qed.
End insertion.

(** ** The table of streams *)
Context (budget : Z) (budget_small : budget <= U64_MAX).

Definition total_held (c : CallbackStreams) : Z := zsum held (cs_streams c).

(** The ranges in memory are counted, and the count is within every limit. *)
Record books (c : CallbackStreams) : Prop := {
  bk_counted : total_held c <= cs_retained_bytes c;
  bk_bounded : cs_retained_bytes c <= budget;
  bk_limit : cs_max_retained_bytes c <= budget;
}.

Definition ok (log : list event) (c : CallbackStreams) : Prop := state_ok log c /\ books c /\ in_order log.

Lemma length_nonneg x : 0 <= length_of x.
Proof. unfold length_of, range_len. lia. Qed.

Lemma held_nonneg s : 0 <= held s.
Proof. apply zsum_nonneg, Forall_forall. intros x _. apply length_nonneg. Qed.

Lemma total_held_nonneg c : 0 <= total_held c.
Proof. apply zsum_nonneg, Forall_forall. intros s _. apply held_nonneg. Qed.

Lemma stream_position_Some id c i s :
  Streams.position id c = Some (i, s) -> cs_streams c !! i = Some s /\ os_id s = id.
Proof. by intros (? & ? & _)%list_find_Some. Qed.
Lemma stream_position_None id c : Streams.position id c = None -> id ∉ (os_id <$> cs_streams c).
Proof.
  intros Hn (s & -> & Hs)%list_elem_of_fmap. apply list_find_None in Hn. rewrite Forall_forall in Hn. by apply (Hn s).
Qed.

Lemma ids_distinct log c i j s t :
  state_ok log c -> cs_streams c !! i = Some s -> cs_streams c !! j = Some t -> os_id s = os_id t -> i = j.
Proof.
  intros Hc Hi Hj He. eapply (NoDup_lookup _ i j (os_id s)); [apply (st_ids _ _ Hc)|..].
  - by rewrite list_lookup_fmap, Hi.
  - by rewrite list_lookup_fmap, Hj, He.
Qed.

Lemma position_of log c i s :
  state_ok log c -> cs_streams c !! i = Some s -> Streams.position (os_id s) c = Some (i, s).
Proof.
  intros Hc Hi. destruct (Streams.position (os_id s) c) as [[j t]|] eqn:Hp.
  - apply stream_position_Some in Hp as [Hj He]. assert (i = j) as <- by (by eapply ids_distinct). congruence.
  - exfalso. apply (stream_position_None _ _ Hp). apply list_elem_of_fmap. exists s. split; [done|]. by eapply list_elem_of_lookup_2.
Qed.

Lemma stream_ok_log log log' s :
  stream_ok log s -> got (os_id s) log' = got (os_id s) log -> stream_ok log' s.
Proof. intros [] He. split; try done. congruence. Qed.

(** Stream [i] becomes [s'] while the log grows by events of this stream. *)
Lemma state_set log log' c i s s' :
  state_ok log c -> cs_streams c !! i = Some s -> os_id s' = os_id s -> stream_ok log' s' ->
  (forall id, id <> os_id s -> got id log' = got id log) ->
  state_ok log' (Streams.set_stream i s' c).
Proof.
  intros Hc Hi He Hs Hlog. pose proof (lookup_lt_Some _ _ _ Hi) as Hlt.
  assert (os_id <$> cs_streams (Streams.set_stream i s' c) = os_id <$> cs_streams c) as Hids.
  { change (cs_streams (Streams.set_stream i s' c)) with (<[i := s']> (cs_streams c)).
    rewrite list_fmap_insert, He. apply list_insert_id. by rewrite list_lookup_fmap, Hi. }
  split.
  - intros j t Hj. change ((<[i := s']> (cs_streams c)) !! j = Some t) in Hj. destruct (decide (i = j)) as [<-|Hne].
    + rewrite list_lookup_insert_eq in Hj by done. by injection Hj as <-.
    + rewrite list_lookup_insert_ne in Hj by done. apply (stream_ok_log log); [by eapply st_streams|].
      apply Hlog. intros Heq. apply Hne. symmetry. by eapply ids_distinct.
  - rewrite Hids. apply (st_ids _ _ Hc).
  - intros id Hid. rewrite Hids in Hid. rewrite Hlog; [by apply (st_absent _ _ Hc)|].
    intros ->. apply Hid, list_elem_of_fmap. exists s. split; [done|]. by eapply list_elem_of_lookup_2.
Qed.

(** Stream [i] is removed once everything it got has been reported. *)
Lemma state_remove log log' c i s :
  state_ok log c -> cs_streams c !! i = Some s -> got (os_id s) log' = [] ->
  (forall id, id <> os_id s -> got id log' = got id log) ->
  state_ok log' (Streams.remove_stream i c).
Proof.
  intros Hc Hi Hgot Hlog. pose proof (list_elem_of_split_length _ _ _ Hi) as (l1 & l2 & Hl & Hlen).
  assert (cs_streams (Streams.remove_stream i c) = l1 ++ l2) as Hdel.
  { change (delete i (cs_streams c) = l1 ++ l2). rewrite Hl, Hlen. by rewrite delete_middle. }
  pose proof (st_ids _ _ Hc) as Hnd. rewrite Hl, fmap_app, fmap_cons in Hnd.
  assert (os_id s ∉ (os_id <$> l1 ++ l2) /\ NoDup (os_id <$> l1 ++ l2)) as [Hnin Hnd'].
  { rewrite fmap_app. rewrite NoDup_app, NoDup_cons in Hnd. destruct Hnd as (H1 & Hd & Hn2 & H2).
    split; [rewrite elem_of_app; intros [Hin|Hin]; [|done]; apply (Hd _ Hin); by left|].
    rewrite NoDup_app. split_and!; try done. intros x Hx Hx2. apply (Hd x Hx). by right. }
  split; rewrite ?Hdel.
  - intros j t Hj. apply list_elem_of_lookup_2 in Hj as Hin.
    assert (os_id t <> os_id s) as Hne by (intros He; apply Hnin; rewrite <- He; by apply list_elem_of_fmap_2).
    apply (stream_ok_log log); [|by apply Hlog].
    assert (t ∈ cs_streams c) as (k & Hk)%list_elem_of_lookup by (rewrite Hl; set_solver).
    by eapply st_streams.
  - done.
  - intros id Hid. destruct (decide (id = os_id s)) as [->|Hne]; [done|]. rewrite Hlog by done.
    apply (st_absent _ _ Hc). rewrite Hl. set_solver.
Qed.

(** ** The consumer *)
Section consumer.
Context `{Allocator} {Ev Er : Type} `{C : CopyingStreamEvents Ev Er}.
Abbreviation sink := (Ev * list event)%type.

Lemma offer_ok id offset fin data (ev : sink) :
  in_order ev.2 -> offset = zlen (got id ev.2) -> piece id offset data fin ->
  let r := Streams.offer (Er := Er) id offset fin data ev in
  in_order r.2.2 /\ (forall id', id' <> id -> got id' r.2.2 = got id' ev.2) /\
  match r.1 with
  | Ok n => 0 <= n <= zlen data /\ got id r.2.2 = got id ev.2 ++ take (Z.to_nat n) data
  | Err _ => got id r.2.2 = got id ev.2
  | Panic => False
  end.
Proof.
  intros Hl Ho Hp. destruct ev as [ev log]. unfold Streams.offer. cbn [on_stream_chunk on_stream_reset recorder fst snd] in *.
  destruct (on_stream_chunk id offset fin data ev) as [[n|e] ev']; cbn [on_stream_reset recorder fst snd].
  - set (e := EvChunk _ _ _ _ _). assert (in_order (log ++ [e])) as Hl' by (by apply in_order_snoc).
    assert (forall id', id' <> id -> got id' (log ++ [e]) = got id' log) as Hother.
    { intros id' Hne. rewrite got_snoc. cbn. destruct (Z.eqb_spec id id'); [by subst|done]. }
    assert (got id (log ++ [e]) = got id log ++ taken data (Some n)) as Hgot by (rewrite got_snoc; cbn; by rewrite Z.eqb_refl).
    cbn [taken] in Hgot. unfold zlen. destruct (Z.leb_spec (Z.of_nat n) (Z.of_nat (length data))); cbn [fst snd].
    + split_and!; try done; [lia|]. rewrite Hgot, Nat2Z.id. by rewrite (proj2 (Nat.leb_le _ _)) by lia.
    + split_and!; try done. rewrite Hgot. rewrite (proj2 (Nat.leb_gt _ _)) by lia. by rewrite app_nil_r.
  - set (e1 := EvChunk _ _ _ _ _). set (e2 := EvReset id 1).
    assert (in_order ((log ++ [e1]) ++ [e2])) by (apply in_order_snoc; [by apply in_order_snoc|done]).
    split_and!; [done| |]; intros; rewrite !got_snoc; cbn; by destruct (_ =? _); rewrite ?app_nil_r.
Qed.

Lemma got_piece id c data fin n :
  piece id c data fin -> 0 <= n <= zlen data ->
  take (Z.to_nat c) (content id) ++ take (Z.to_nat n) data = take (Z.to_nat (c + n)) (content id).
Proof.
  intros [(? & ? & Hd)%slice_Ok _] Hn. rewrite Hd.
  rewrite take_take, Z2Nat.inj_add by lia. rewrite (Nat.min_l (Z.to_nat n)) by lia. apply take_take_drop.
Qed.

Lemma consumed_got log s : stream_ok log s -> os_consumed s = zlen (got (os_id s) log).
Proof. intros Hs. rewrite (so_got _ _ Hs). rewrite zlen_take; [done|]. apply (so_range _ _ Hs). Qed.

(** ** Draining the retained ranges *)
Definition kept {A} (r : outcome (CopyingError Er) A * (CallbackStreams * sink)) : Prop :=
  r.1 <> Panic /\ ok r.2.2.2 r.2.1.

Lemma ok_set log log' c i s s' n :
  ok log c -> in_order log' -> cs_streams c !! i = Some s -> os_id s' = os_id s -> stream_ok log' s' ->
  (forall id, id <> os_id s -> got id log' = got id log) -> 0 <= n -> held s' <= held s - n ->
  ok log' (Streams.set_stream i s' (Streams.release_bytes n c)).
Proof.
  intros (Hc & [Hb1 Hb2 Hb3] & _) Hl Hi He Hs Hother Hn Hheld. split_and!; [|split|done].
  - by apply (state_set log log' (Streams.release_bytes n c) i s s'); [destruct Hc; split|..].
  - unfold total_held. change (cs_streams _) with (<[i := s']> (cs_streams c)). rewrite (zsum_insert _ _ _ _ _ Hi).
    change (cs_retained_bytes _) with (sat_sub (cs_retained_bytes c) n). unfold total_held in Hb1. unfold sat_sub. lia.
  - change (cs_retained_bytes _) with (sat_sub (cs_retained_bytes c) n). pose proof (total_held_nonneg c). unfold sat_sub. lia.
  - done.
Qed.

Lemma ok_remove log log' c i s n :
  ok log c -> in_order log' -> cs_streams c !! i = Some s -> got (os_id s) log' = [] ->
  (forall id, id <> os_id s -> got id log' = got id log) -> 0 <= n <= held s ->
  ok log' (Streams.remove_stream i (Streams.release_bytes n c)).
Proof.
  intros (Hc & [Hb1 Hb2 Hb3] & _) Hl Hi He Hother Hn. split_and!; [|split|done].
  - by apply (state_remove log log' (Streams.release_bytes n c) i s); [destruct Hc; split|..].
  - unfold total_held. change (cs_streams _) with (delete i (cs_streams c)). rewrite (zsum_delete _ _ _ _ Hi).
    change (cs_retained_bytes _) with (sat_sub (cs_retained_bytes c) n). unfold total_held in Hb1. unfold sat_sub. lia.
  - change (cs_retained_bytes _) with (sat_sub (cs_retained_bytes c) n). pose proof (total_held_nonneg c). unfold sat_sub. lia.
  - done.
Qed.

Lemma ok_log log log' c :
  ok log c -> in_order log' -> (forall id, got id log' = got id log) -> ok log' c.
Proof.
  intros (Hc & Hb & _) Hl Hg. split_and!; [|done..]. destruct Hc as [H1 H2 H3]. split; [|done|].
  - intros i s Hi. apply (stream_ok_log log); [by eapply H1|done].
  - intros id Hid. rewrite Hg. by apply H3.
Qed.

(** The log grows by the end of stream [id]. *)
Lemma finish_log id log :
  in_order log -> got id log = content id ->
  in_order (log ++ [EvFinished id]) /\ got id (log ++ [EvFinished id]) = [] /\
  forall id', id' <> id -> got id' (log ++ [EvFinished id]) = got id' log.
Proof.
  intros Hl Hg. split_and!; [by apply in_order_snoc| |].
  - rewrite got_snoc. cbn. by rewrite Z.eqb_refl.
  - intros id' Hne. rewrite got_snoc. cbn. destruct (Z.eqb_spec id id'); [by subst|done].
Qed.

(** A stream whose consumer accepts [n] bytes at the cursor. *)
Lemma stream_advance log log' s data fin n l :
  stream_ok log s -> piece (os_id s) (os_consumed s) data fin -> 0 <= n <= zlen data ->
  got (os_id s) log' = got (os_id s) log ++ take (Z.to_nat n) data ->
  Forall (range_ok (os_id s)) l ->
  sat_add (os_consumed s) n = os_consumed s + n /\
  stream_ok log' (s <| os_consumed := os_consumed s + n |> <| os_retained := l |>).
Proof.
  intros [[Hr Hf] Hl Hfr Hc Hg] Hp Hn Hgot Hfl. pose proof (piece_range _ _ _ _ Hp).
  split; [unfold sat_add; lia|]. split; try done; get_set; [lia|].
  change (os_id _) with (os_id s). change (got (os_id s) log' = take (Z.to_nat (os_consumed s + n)) (content (os_id s))).
  rewrite Hgot, Hg. by eapply got_piece.
Qed.

Lemma resume_turn_ok id total c (ev : sink) :
  ok ev.2 c ->
  let r := Streams.resume_turn (Er := Er) id total c ev in
  kept r /\ match r.1 with Ok (true, _) => (Streams.resume_fuel id r.2.1 < Streams.resume_fuel id c)%nat | _ => True end.
Proof.
  intros Hok. assert (Hok' := Hok). destruct Hok' as (Hc & Hb & Hlog). unfold Streams.resume_turn.
  destruct (Streams.position id c) as [[i s]|] eqn:Hpos; [|done].
  apply stream_position_Some in Hpos as Hpos'. destruct Hpos' as [Hi <-].
  pose proof (st_streams _ _ Hc i s Hi) as Hs. rewrite (so_live _ _ Hs), (so_free _ _ Hs). cbn [orb].
  rewrite bool_decide_eq_false_2 by (intros []; done).
  destruct (Ordered.front s) as [[k x]|] eqn:Hfr; [|done].
  apply list_find_Some in Hfr as (Hk & Hcur%Z.eqb_eq & _).
  pose proof (bo_ranges _ (so_base _ _ Hs)) as Hranges. pose proof (Forall_lookup_1 _ _ _ _ Hranges Hk) as (data & Hd & Hp).
  destruct (data_of_length _ _ Hd) as [Hlen Hlen']. rewrite Hd. cbn [map_err]. rewrite Hcur in *.
  destruct (offer_ok (os_id s) (os_consumed s) (rt_end x) data ev Hlog (consumed_got _ _ Hs) Hp) as (Hlog' & Hother & Hans).
  destruct (Streams.offer _ _ _ _ _) as [[n|e|] ev'] eqn:Hoff; cbn [fst snd] in *; [| |done].
  2:{ split; [|done]. split; [done|]. apply (ok_log ev.2); [done..|]. intros id. by destruct (decide (id = os_id s)) as [->|]; [|apply Hother]. }
  destruct Hans as [Hn Hgot].
  destruct ((n =? 0) && _) eqn:Hzero; cbn [fst snd].
  { bools. subst n. split; [|done]. split; [done|]. apply (ok_log ev.2); [done..|]. intros id.
    destruct (decide (id = os_id s)) as [->|]; [|by apply Hother].
    cbn [fst snd]. by rewrite Hgot, app_nil_r. }
  destruct (Z.eqb_spec n (zlen data)) as [->|Hne]; cbn [negb].
  - destruct (stream_advance _ ev'.2 s data _ (zlen data) (delete k (os_retained s)) Hs Hp Hn Hgot) as [Hsat Hs'];
      [by apply Forall_delete|].
    destruct (rt_end x) eqn:Hend; cbn [fst snd].
    + assert (got (os_id s) ev'.2 = content (os_id s)) as Hall.
      { pose proof (so_got _ _ Hs') as Hall.
        change (got (os_id s) ev'.2 = take (Z.to_nat (os_consumed s + zlen data)) (content (os_id s))) in Hall.
        destruct Hp as [_ Hf]. by rewrite Hall, (Hf eq_refl), to_nat_zlen, firstn_all. }
      destruct (finish_log _ _ Hlog' Hall) as (Hl2 & Hg2 & Ho2). split; [|done]. split; [done|].
      cbn [on_stream_finished recorder fst snd]. apply (ok_remove ev.2 _ c i s); [done..| |].
      * intros id Hid. by rewrite Ho2, Hother by done.
      * rewrite <- Hlen'. split; [apply length_nonneg|]. eapply zsum_lookup_le; [|exact Hk].
        apply Forall_forall. intros y _. apply length_nonneg.
    + set (s1 := s <| os_consumed ::= _ |> <| os_retained ::= _ |>).
      assert (s1 = s <| os_consumed := os_consumed s + zlen data |> <| os_retained := delete k (os_retained s) |>) as ->.
      { subst s1. rewrite <- Hsat. done. }
      split; [split; [done|]|].
      * apply (ok_set ev.2 _ c i s); try done; [lia|]. unfold held. get_set. rewrite (zsum_delete _ _ _ _ Hk). lia.
      * unfold Streams.resume_fuel. rewrite Hpos.
        set (c' := Streams.set_stream _ _ _). set (s' := _ <| os_retained := _ |>) in c'.
        assert (cs_streams c' !! i = Some s') as Hi' by (apply list_lookup_insert_eq; by eapply lookup_lt_Some).
        assert (Streams.position (os_id s) c' = Some (i, s')) as ->.
        { apply (position_of ev'.2 c' i s'); [|done].
          apply (state_set ev.2 _ (Streams.release_bytes (zlen data) c) i s); [destruct Hc; split|..]; done. }
        subst s'. get_set. rewrite length_delete by done. apply lookup_lt_Some in Hk. lia.
  - destruct (piece_suffix _ _ _ _ _ _ _ n Hp Hd) as (rest & Hrest & Hp'); [lia|].
    set (x' := mkRetained _ _ _ _ _). pose proof (piece_range _ _ _ _ Hp).
    assert (sat_add (os_consumed s) n = os_consumed s + n) as Hsat by (unfold sat_add; lia).
    destruct (stream_advance _ ev'.2 s data _ n (<[k := x']> (os_retained s)) Hs Hp Hn Hgot) as [_ Hs'].
    { apply Forall_insert; [done|]. exists rest. split; [exact Hrest|]. subst x'. cbn [rt_offset rt_end]. by rewrite Hsat. }
    set (s1 := s <| os_consumed ::= _ |> <| os_retained ::= _ |>).
    assert (s1 = s <| os_consumed := os_consumed s + n |> <| os_retained := <[k := x']> (os_retained s) |>) as ->.
    { subst s1. by rewrite <- Hsat. }
    split; [|done]. split; [done|]. apply (ok_set ev.2 _ c i s); try done; [lia|].
    assert (length_of x' = zlen data - n) by (unfold length_of, range_len, x'; cbn [rt_from rt_to]; lia).
    unfold held. get_set. rewrite (zsum_insert _ _ _ _ _ Hk). lia.
Qed.

Lemma resume_loop_ok fuel id total c (ev : sink) :
  ok ev.2 c -> (Streams.resume_fuel id c <= fuel)%nat -> kept (Streams.resume_loop (Er := Er) fuel id total c ev).
Proof.
  revert total c ev. induction fuel as [|fuel IH]; intros total c ev Hok Hf.
  { unfold Streams.resume_fuel in Hf. destruct (Streams.position id c) as [[]|]; lia. }
  destruct (resume_turn_ok id total c ev Hok) as [[Hp Hk] Hdec]. cbn [Streams.resume_loop].
  destruct (Streams.resume_turn _ _ _ _) as [[[[] t]|e|] [c' ev']]; cbn [fst snd] in *; try done.
  apply IH; [done|lia].
Qed.

Lemma resume_copying_ok id c (ev : sink) : ok ev.2 c -> kept (Streams.resume_copying (Er := Er) id c ev).
Proof. intros Hok. by apply resume_loop_ok. Qed.


(** ** Storing a range *)
Lemma drop_finished_ok log c : state_ok log c -> Streams.drop_finished c = c.
Proof.
  intros Hc. unfold Streams.drop_finished. destruct c as [l m1 m2 m3].
  change (mkCallbackStreams (List.filter (fun s => negb (os_finished s)) l) m1 m2 m3 = mkCallbackStreams l m1 m2 m3). f_equal.
  assert (Forall (fun s => os_finished s = false) l) as Hl.
  { apply Forall_lookup. intros i s Hi. by apply (so_live _ _ (st_streams _ _ Hc i s Hi)). }
  clear Hc. induction Hl as [|s l Hs _ IH]; [done|]. cbn [List.filter]. by rewrite Hs, IH.
Qed.

(** A stream is replaced, or a new one pushed, with [n] more retained bytes. *)
Lemma ok_store log c i s s' n :
  ok log c -> cs_streams c !! i = Some s -> os_id s' = os_id s -> stream_ok log s' ->
  held s' = held s + n -> 0 <= n -> cs_retained_bytes c + n <= budget ->
  ok log (Streams.retain_bytes n (Streams.set_stream i s' c)).
Proof.
  intros (Hc & [Hb1 Hb2 Hb3] & Hl) Hi He Hs Hh Hn Hbud. split_and!; [|split|done].
  - assert (state_ok log (Streams.set_stream i s' c)) as Hc' by (by apply (state_set log log c i s s')). destruct Hc'; by split.
  - unfold total_held. change (cs_streams _) with (<[i := s']> (cs_streams c)). rewrite (zsum_insert _ _ _ _ _ Hi).
    change (cs_retained_bytes _) with (sat_add (cs_retained_bytes c) n). unfold total_held in Hb1. unfold sat_add. lia.
  - change (cs_retained_bytes _) with (sat_add (cs_retained_bytes c) n). unfold sat_add. lia.
  - done.
Qed.

Lemma ok_push log c s n :
  ok log c -> os_id s ∉ (os_id <$> cs_streams c) -> stream_ok log s ->
  held s = n -> cs_retained_bytes c + n <= budget ->
  ok log (Streams.retain_bytes n (c <| cs_streams ::= fun l => l ++ [s] |>)).
Proof.
  intros (Hc & [Hb1 Hb2 Hb3] & Hl) Hid Hs Hh Hbud. pose proof (held_nonneg s). split_and!; [|split|done].
  - destruct Hc as [H1 H2 H3]. split; change (cs_streams _) with (cs_streams c ++ [s]).
    + intros i t [Hi|[_ Hi]]%lookup_app_Some; [by eapply H1|]. apply list_lookup_singleton_Some in Hi as [_ <-]. done.
    + rewrite fmap_app. apply NoDup_app. split_and!; [done| |apply NoDup_singleton].
      intros x Hx ->%list_elem_of_singleton. done.
    + intros id Hn. apply H3. intros Hin. apply Hn. rewrite fmap_app. set_solver.
  - unfold total_held. change (cs_streams _) with (cs_streams c ++ [s]). rewrite zsum_app. cbn [zsum].
    change (cs_retained_bytes _) with (sat_add (cs_retained_bytes c) n). unfold total_held in Hb1. unfold sat_add. lia.
  - change (cs_retained_bytes _) with (sat_add (cs_retained_bytes c) n). unfold sat_add. lia.
  - done.
Qed.

Lemma retain_zero c : cs_retained_bytes c <= U64_MAX -> Streams.retain_bytes 0 c = c.
Proof.
  intros Hb. destruct c as [l m1 m2 m3]. cbn in Hb.
  change (mkCallbackStreams l m1 m2 (sat_add m3 0) = mkCallbackStreams l m1 m2 m3). f_equal. unfold sat_add. lia.
Qed.

Lemma new_ok log c id : state_ok log c -> id ∉ (os_id <$> cs_streams c) -> stream_ok log (Ordered.new id).
Proof.
  intros Hc Hid. split; try done; [by split; [constructor|left]| |].
  - cbn. unfold size_of. pose proof (zlen_nonneg (content id)). lia.
  - cbn. by rewrite (st_absent _ _ Hc).
Qed.

Lemma cursor_ok log s s' : stream_ok log s -> base_ok s' -> same_cursor s s' -> stream_ok log s'.
Proof. intros [] Hb (Hid & Hco & Hfi & Hou). split; congruence. Qed.

Lemma stream_mut_ok log id c :
  ok log c ->
  ok log (Streams.stream_mut id c).2 /\
  match (Streams.stream_mut id c).1 with
  | Ok (i, s) => cs_streams (Streams.stream_mut id c).2 !! i = Some s /\ os_id s = id
  | Err _ => True
  | Panic => False
  end.
Proof.
  intros Hok. assert (Hok' := Hok). destruct Hok' as (Hc & Hb & _). unfold Streams.stream_mut.
  rewrite (drop_finished_ok _ _ Hc). destruct (Streams.position id c) as [[i s]|] eqn:Hpos.
  { apply stream_position_Some in Hpos. done. }
  destruct (_ <=? _); [done|]. destruct (negb _); [done|]. cbn [fst snd]. split.
  - pose proof (bk_bounded _ Hb). pose proof (stream_position_None _ _ Hpos) as Hid.
    rewrite <- (retain_zero (c <| cs_streams ::= _ |>)) by (change (cs_retained_bytes c <= U64_MAX); lia).
    apply ok_push; [done..|by eapply new_ok|done|lia].
  - split; [|done]. change ((cs_streams c ++ [Ordered.new id]) !! length (cs_streams c) = Some (Ordered.new id)). by rewrite lookup_app_r, Nat.sub_diag.
Qed.

Lemma insert_range_ok log id packet offset a b data fin c :
  ok log c -> slice (E := CallbackError.t) packet a b = Ok data -> piece id offset data fin ->
  let r := Streams.insert_range id packet offset a b fin (Streams.available c) c in
  match r.1 with
  | Ok n => ok log (Streams.retain_bytes n r.2)
  | Err _ => ok log r.2
  | Panic => False
  end.
Proof.
  intros Hok Hd Hp. assert (Hok' := Hok). destruct Hok' as (Hc & Hb & _). unfold Streams.insert_range.
  rewrite (drop_finished_ok _ _ Hc). pose proof (bk_bounded _ Hb). pose proof (bk_limit _ Hb).
  destruct (Streams.position id c) as [[i s]|] eqn:Hpos.
  - apply stream_position_Some in Hpos as [Hi <-]. pose proof (st_streams _ _ Hc i s Hi) as Hs.
    pose proof (insert_ok packet offset a b data fin (Streams.available c) s (so_base _ _ Hs) (proj1 (so_range _ _ Hs)) Hd Hp) as Hins.
    unfold Streams.available in *. destruct (Ordered.insert _ _ _ _ _ _ _) as [[n|e|] s']; destruct Hins as (Hbase & Hcur & Hh); cbn [fst snd] in *; [| |done].
    + destruct Hh as (? & ? & Hh). apply (ok_store log c i s s' n); try done; [apply Hcur|by eapply cursor_ok|].
      unfold sat_sub in *. lia.
    + assert (ok log (Streams.retain_bytes 0 (Streams.set_stream i s' c))) as Hst.
      { apply (ok_store log c i s s' 0); try done; [apply Hcur|by eapply cursor_ok|lia|lia]. }
      rewrite retain_zero in Hst; [done|]. change (cs_retained_bytes c <= U64_MAX). lia.
  - destruct (_ <=? _); [done|]. pose proof (stream_position_None _ _ Hpos) as Hid. pose proof (new_ok _ _ _ Hc Hid) as Hnew.
    pose proof (insert_ok packet offset a b data fin (Streams.available c) (Ordered.new id) (so_base _ _ Hnew) (proj1 (so_range _ _ Hnew)) Hd Hp) as Hins.
    unfold Streams.available in *. destruct (Ordered.insert _ _ _ _ _ _ _) as [[n|e|] s']; destruct Hins as (Hbase & Hcur & Hh); cbn [fst snd] in *; [|done|done].
    destruct (negb _); [done|]. destruct Hh as (? & ? & Hh). assert (os_id s' = id) as Hid' by apply Hcur.
    apply ok_push; try done; [by rewrite Hid'|by eapply cursor_ok|]. unfold sat_sub in *. lia.
Qed.

(** ** Reception *)
Definition retain_ok (data : bytes) (storage_offset : Z) (retain : cb bytes) : Prop :=
  match retain with
  | Ok packet => slice (E := CallbackError.t) packet storage_offset (storage_offset + zlen data) = Ok data
  | Err _ => True
  | Panic => False
  end.

Lemma borrowable_true offset s : Streams.borrowable offset s = true -> offset = os_consumed s.
Proof. unfold Streams.borrowable. intros Hb. bools. lia. Qed.

Lemma ignore_kept {A} (r : outcome (CopyingError Er) A * (CallbackStreams * sink)) : kept r -> kept (Streams.ignore_value r).
Proof. intros [Hp Hk]. split; [|done]. unfold Streams.ignore_value. by destruct r as [[] ?]. Qed.

(** The stream after [n] borrowed bytes, with its ranges and final size. *)
Lemma borrowed_advance log log' s data fin n :
  stream_ok log s -> piece (os_id s) (os_consumed s) data fin -> 0 <= n <= zlen data ->
  got (os_id s) log' = got (os_id s) log ++ take (Z.to_nat n) data ->
  stream_ok log' (s <| os_consumed := os_consumed s + n |>).
Proof.
  intros Hs Hp Hn Hg. destruct (stream_advance log log' s data fin n (os_retained s) Hs Hp Hn Hg) as [_ Hs'].
  - apply (bo_ranges _ (so_base _ _ Hs)).
  - by destruct s.
Qed.

Lemma ok_advance log log' c i s s' :
  ok log c -> in_order log' -> cs_streams c !! i = Some s -> os_id s' = os_id s -> stream_ok log' s' ->
  (forall id, id <> os_id s -> got id log' = got id log) -> held s' = held s ->
  ok log' (Streams.set_stream i s' c).
Proof.
  intros Hok Hl Hi He Hs Ho Hh. pose proof Hok as (_ & [Hb1 Hb2 _] & _). pose proof (total_held_nonneg c).
  replace (Streams.set_stream i s' c) with (Streams.set_stream i s' (Streams.release_bytes 0 c)).
  - apply (ok_set log _ c i s); try done; lia.
  - destruct c as [l m1 m2 m3]. cbn in Hb1, Hb2, H0.
    change (mkCallbackStreams (<[i := s']> l) m1 m2 (sat_sub m3 0) = mkCallbackStreams (<[i := s']> l) m1 m2 m3).
    f_equal. unfold total_held in *. cbn [cs_streams] in *. unfold sat_sub. lia.
Qed.

Lemma release_zero c : 0 <= cs_retained_bytes c -> Streams.release_bytes 0 c = c.
Proof.
  intros Hb. destruct c as [l m1 m2 m3]. cbn in Hb.
  change (mkCallbackStreams l m1 m2 (sat_sub m3 0) = mkCallbackStreams l m1 m2 m3). f_equal. unfold sat_sub. lia.
Qed.

Lemma filter_others (l : list OrderedStream) i s :
  NoDup (os_id <$> l) -> l !! i = Some s -> List.filter (fun x => negb (os_id x =? os_id s)) l = delete i l.
Proof.
  intros Hnd Hi. destruct (list_elem_of_split_length _ _ _ Hi) as (l1 & l2 & -> & ->). rewrite delete_middle.
  rewrite fmap_app, fmap_cons, NoDup_app, NoDup_cons in Hnd. destruct Hnd as (_ & Hd & Hn & _).
  assert (forall k, (forall x, x ∈ k -> os_id x <> os_id s) -> List.filter (fun x => negb (os_id x =? os_id s)) k = k) as Hall.
  { clear. induction k as [|x k IH]; intros Hk; [done|]. cbn [List.filter].
    rewrite (proj2 (Z.eqb_neq _ _)) by (apply Hk; by left). cbn [negb]. rewrite IH; [done|]. intros y Hy. apply Hk. by right. }
  rewrite List.filter_app. cbn [List.filter]. rewrite Z.eqb_refl. cbn [negb]. rewrite !Hall; [done|..].
  - intros x Hx He. apply Hn. rewrite <- He. by apply list_elem_of_fmap_2.
  - intros x Hx He. apply (Hd (os_id x)); [by apply list_elem_of_fmap_2|]. rewrite He. by left.
Qed.

(** The stream is finished by borrowed bytes; what it still retains is forgotten. *)
Lemma ok_drop log log' c i s :
  ok log c -> in_order log' -> cs_streams c !! i = Some s -> got (os_id s) log' = [] ->
  (forall id, id <> os_id s -> got id log' = got id log) ->
  ok log' (c <| cs_streams ::= List.filter (fun x => negb (os_id x =? os_id s)) |>).
Proof.
  intros Hok Hl Hi He Ho. pose proof Hok as (Hc & [Hb1 Hb2 _] & _). pose proof (total_held_nonneg c).
  replace (c <| cs_streams ::= _ |>) with (Streams.remove_stream i (Streams.release_bytes 0 c)).
  - apply (ok_remove log _ c i s); try done. split; [lia|apply held_nonneg].
  - rewrite release_zero by lia. destruct c as [l m1 m2 m3].
    change (mkCallbackStreams (delete i l) m1 m2 m3 = mkCallbackStreams (List.filter (fun x => negb (os_id x =? os_id s)) l) m1 m2 m3).
    f_equal. symmetry. apply filter_others; [apply (st_ids _ _ Hc)|done].
Qed.

Lemma fin_invalid_false log s offset data fin :
  stream_ok log s -> piece (os_id s) offset data fin -> Ordered.fin_invalid (os_final_size s) (offset + zlen data) fin = false.
Proof.
  intros Hs Hp. pose proof (piece_range _ _ _ _ Hp) as (_ & Hr & _). destruct Hp as [_ Hf].
  destruct (bo_final _ (so_base _ _ Hs)) as [->| ->]; cbn; [done|]. rewrite (proj2 (Z.ltb_ge _ _)) by done.
  destruct fin; [|done]. cbn. rewrite Hf by done. unfold size_of. by rewrite Z.eqb_refl.
Qed.

Lemma deliver_borrowed_ok data fin storage_offset retain i s c (ev : sink) :
  ok ev.2 c -> cs_streams c !! i = Some s -> piece (os_id s) (os_consumed s) data fin -> retain_ok data storage_offset retain ->
  kept (Streams.deliver_borrowed (Er := Er) (os_id s) data (os_consumed s) (os_consumed s + zlen data) fin storage_offset retain i s c ev).
Proof.
  intros Hok Hi Hp Hr. pose proof Hok as (Hc & Hb & Hlog). pose proof (st_streams _ _ Hc i s Hi) as Hs.
  pose proof (zlen_nonneg data). pose proof (piece_range _ _ _ _ Hp) as Hrange.
  unfold Streams.deliver_borrowed. rewrite (fin_invalid_false _ _ _ _ _ Hs Hp).
  destruct (offer_ok (os_id s) (os_consumed s) fin data ev Hlog (consumed_got _ _ Hs) Hp) as (Hlog' & Hother & Hans).
  destruct (Streams.offer _ _ _ _ _) as [[n|e|] ev'] eqn:Hoff; cbn [fst snd] in *; [| |done].
  2:{ split; [done|]. apply (ok_log ev.2); [done..|]. intros id. by destruct (decide (id = os_id s)) as [->|]; [|apply Hother]. }
  destruct Hans as [Hn Hgot]. pose proof (borrowed_advance _ ev'.2 s data fin n Hs Hp Hn Hgot) as Hs'.
  destruct (Z.eqb_spec n (zlen data)) as [->|Hne]; cbn [negb].
  - destruct fin.
    + assert (got (os_id s) ev'.2 = content (os_id s)) as Hall.
      { pose proof (so_got _ _ Hs') as Hall.
        change (got (os_id s) ev'.2 = take (Z.to_nat (os_consumed s + zlen data)) (content (os_id s))) in Hall.
        destruct Hp as [_ Hf]. by rewrite Hall, (Hf eq_refl), to_nat_zlen, firstn_all. }
      destruct (finish_log _ _ Hlog' Hall) as (Hl2 & Hg2 & Ho2). split; [done|].
      cbn [on_stream_finished recorder fst snd]. apply (ok_drop ev.2 _ c i s); [done..|].
      intros id Hid. by rewrite Ho2, Hother by done.
    + assert (ok ev'.2 (Streams.set_stream i (s <| os_consumed := os_consumed s + zlen data |>) c)) as Hok'.
      { by apply (ok_advance ev.2 _ c i s). }
      destruct (bool_decide _); [by split|]. by apply ignore_kept, resume_copying_ok.
  - assert (ok ev'.2 (Streams.set_stream i (s <| os_consumed := os_consumed s + n |>) c)) as Hok'.
    { by apply (ok_advance ev.2 _ c i s). }
    destruct (Z.ltb_spec (cs_max_retained_bytes (Streams.set_stream i (s <| os_consumed := os_consumed s + n |>) c))
                (sat_add (cs_retained_bytes (Streams.set_stream i (s <| os_consumed := os_consumed s + n |>) c)) (sat_sub (zlen data) n))) as [|Hroom];
      [by split|].
    destruct retain as [packet|e|]; [|by split|done]. cbn [retain_ok] in Hr.
    destruct (piece_suffix _ _ _ _ _ _ _ n Hp Hr) as (rest & Hrest & Hp'); [lia|].
    set (c1 := Streams.set_stream i _ c) in *. set (s1 := s <| os_consumed := _ |>) in *.
    pose proof (insert_ok packet (os_consumed s + n) (storage_offset + n) (storage_offset + zlen data) rest fin (Streams.available c1) s1
                  (so_base _ _ Hs') (proj1 (so_range _ _ Hs')) Hrest Hp') as Hins.
    assert (cs_streams c1 !! i = Some s1) as Hi1 by (apply list_lookup_insert_eq; by eapply lookup_lt_Some).
    pose proof Hok' as (_ & Hb' & _). pose proof (bk_bounded _ Hb'). pose proof (bk_limit _ Hb'). unfold Streams.available in *.
    destruct (Ordered.insert _ _ _ _ _ _ _) as [[m|e|] s2]; destruct Hins as (Hbase & Hcur & Hh); cbn [fst snd] in *; [| |done].
    + destruct Hh as (? & ? & Hh). split; [done|].
      apply (ok_store _ c1 i s1 s2 m); try done; [apply Hcur|by eapply cursor_ok|]. unfold sat_sub, sat_add in *. lia.
    + split; [done|]. apply (ok_advance ev'.2 _ c1 i s1); try done; [apply Hcur|by eapply cursor_ok].
Qed.

Lemma receive_stored_ok id packet offset a b data fin c (ev : sink) :
  ok ev.2 c -> slice (E := CallbackError.t) packet a b = Ok data -> piece id offset data fin ->
  kept (Streams.receive_stored (Er := Er) id packet offset a b fin c ev).
Proof.
  intros Hok Hd Hp. pose proof (insert_range_ok _ id packet offset a b data fin c Hok Hd Hp) as Hins.
  unfold Streams.receive_stored. destruct (Streams.insert_range _ _ _ _ _ _ _ _) as [[n|e|] c']; cbn [fst snd] in *; [|by split|done].
  by apply ignore_kept, resume_copying_ok.
Qed.

(** A receiver that keeps the invariant on bytes that can be borrowed. *)
Lemma receive_owned_ok receive id packet offset a b data fin c (ev : sink) :
  (forall data, piece id offset data fin -> retain_ok data a (Ok packet) -> kept (receive id data offset fin a (Ok packet) c ev)) \/
  (exists i s, Streams.position id c = Some (i, s) /\ Streams.borrowable offset s = false) ->
  ok ev.2 c -> slice (E := CallbackError.t) packet a b = Ok data -> piece id offset data fin ->
  kept (Streams.receive_owned (Er := Er) receive id packet offset a b fin c ev).
Proof.
  intros Hrec Hok Hd Hp. pose proof (slice_len _ _ _ _ Hd) as Hlen. apply slice_Ok in Hd as Hd'. destruct Hd' as (? & ? & Hdata).
  unfold Streams.receive_owned. rewrite (proj2 (Z.ltb_ge _ _)), (proj2 (Z.ltb_ge _ _)) by lia. cbn [orb].
  assert (slice (E := CopyingError Er) packet a b = Ok data) as -> by (by apply slice_Ok).
  destruct Hrec as [Hrec|(i & s & -> & ->)]; [|by eapply receive_stored_ok].
  destruct (match Streams.position id c with Some (_, s) => _ | None => _ end); [|by eapply receive_stored_ok].
  apply Hrec; [done|]. cbn. by replace (a + zlen data) with b by lia.
Qed.

Lemma receive_range_ok fuel id data offset fin storage_offset retain c (ev : sink) :
  ok ev.2 c -> piece id offset data fin -> retain_ok data storage_offset retain ->
  kept (Streams.receive_range (Er := Er) fuel id data offset fin storage_offset retain c ev).
Proof.
  intros Hok Hp Hr. pose proof (piece_range _ _ _ _ Hp). destruct fuel as [|fuel]; cbn [Streams.receive_range];
    unfold checked_add; rewrite (proj2 (Z.leb_le _ _)) by lia;
    destruct (stream_mut_ok _ id c Hok) as [Hok' Hm];
    destruct (Streams.stream_mut id c) as [[[i s]|e|] c']; cbn [fst snd] in *; try by split.
  all: destruct Hm as [Hi <-]; destruct (Streams.borrowable offset s) eqn:Hbor;
    [apply borrowable_true in Hbor as ->; by apply deliver_borrowed_ok|].
  all: destruct retain as [packet|e|]; [|by split|done].
  all: eapply receive_owned_ok; [|done..]; right; exists i, s; split; [|done].
  all: destruct Hok' as (Hc' & _); by eapply position_of.
Qed.

Lemma receive_copying_ok id packet offset a b data fin c (ev : sink) :
  ok ev.2 c -> slice (E := CallbackError.t) packet a b = Ok data -> piece id offset data fin ->
  kept (Streams.receive_copying (Er := Er) id packet offset a b fin c ev).
Proof. intros Hok Hd Hp. eapply receive_owned_ok; [|done..]. left. intros. by apply receive_range_ok. Qed.

(** ** Runs *)
Inductive delivery_op : Type :=
  | DBorrowed (id : Z) (data : bytes) (offset : Z) (fin : bool) (retain : cb bytes)
  | DOwned (id : Z) (packet : bytes) (offset a b : Z) (fin : bool)
  | DResume (id : Z)
  | DLimits (max_streams max_retained_bytes : Z).

Definition delivery_op_ok (o : delivery_op) : Prop :=
  match o with
  | DBorrowed id data offset fin retain => piece id offset data fin /\ retain_ok data 0 retain
  | DOwned id packet offset a b fin =>
      exists data, slice (E := CallbackError.t) packet a b = Ok data /\ piece id offset data fin
  | DResume _ => True
  | DLimits _ max_retained_bytes => max_retained_bytes <= budget
  end.

Definition delivery_step (o : delivery_op) (c : CallbackStreams) (ev : sink)
    : outcome (CopyingError Er) unit * (CallbackStreams * sink) :=
  match o with
  | DBorrowed id data offset fin retain => Streams.try_receive_copying_borrowed id data offset fin retain c ev
  | DOwned id packet offset a b fin => Streams.receive_copying id packet offset a b fin c ev
  | DResume id => Streams.ignore_value (Streams.resume_copying id c ev)
  | DLimits ms mr => (Ok tt, (Streams.set_limits ms mr c, ev))
  end.

Fixpoint delivery_run (ops : list delivery_op) (c : CallbackStreams) (ev : sink)
    : list (outcome (CopyingError Er) unit) * (CallbackStreams * sink) :=
  match ops with
  | [] => ([], (c, ev))
  | o :: ops' =>
      let '(r, (c, ev)) := delivery_step o c ev in
      let '(rs, s) := delivery_run ops' c ev in (r :: rs, s)
  end.

Lemma delivery_step_ok o c (ev : sink) : ok ev.2 c -> delivery_op_ok o -> kept (delivery_step o c ev).
Proof.
  intros Hok Ho. destruct o as [id data offset fin retain|id packet offset a b fin|id|ms mr]; cbn [delivery_step delivery_op_ok] in *.
  - destruct Ho as [Hp Hr]. by apply receive_range_ok.
  - destruct Ho as (data & ? & ?). by eapply receive_copying_ok.
  - by apply ignore_kept, resume_copying_ok.
  - split; [done|]. destruct Hok as (Hc & [Hb1 Hb2 Hb3] & Hl). cbn [fst snd]. split_and!; [by destruct Hc; split|by split|done].
Qed.

Lemma delivery_run_ok ops c (ev : sink) :
  ok ev.2 c -> Forall delivery_op_ok ops ->
  Forall (fun r => r <> Panic) (delivery_run ops c ev).1 /\ ok (delivery_run ops c ev).2.2.2 (delivery_run ops c ev).2.1.
Proof.
  intros Hok Hops. revert c ev Hok. induction Hops as [|o ops Ho _ IH]; intros c ev Hok; [done|]. cbn [delivery_run].
  destruct (delivery_step_ok o c ev Hok Ho) as [Hr Hk]. destruct (delivery_step o c ev) as [r [c' ev']]. cbn [fst snd] in *.
  destruct (IH c' ev' Hk) as [Hrs Hk']. destruct (delivery_run ops c' ev') as [rs s]. cbn [fst snd] in *. split; [by constructor|done].
Qed.

Lemma new_streams_ok ms mr : 0 <= budget -> mr <= budget -> ok [] (Streams.new ms mr).
Proof.
  intros ? ?. split_and!; [split|split|].
  - by intros i s ?.
  - constructor.
  - done.
  - done.
  - done.
  - done.
  - intros before e after Hn. by destruct before.
Qed.


(** Ordered delivery never stores more than it may.  The ranges that wait
    behind gaps are counted, and the count stays within the largest retention
    limit that was configured, whatever arrives and whatever is refused. *)
Theorem retained_bytes_bounded ops ms mr ev :
  0 <= budget -> mr <= budget -> Forall delivery_op_ok ops ->
  let '(_, (c, _)) := delivery_run ops (Streams.new ms mr) (ev, []) in
  zsum (fun s => zsum (fun x => range_len (rt_from x) (rt_to x)) (os_retained s)) (cs_streams c) <= Streams.retained_bytes c <= budget.
Proof.
  intros H1 H2 Hops. destruct (delivery_run_ok ops (Streams.new ms mr) (ev, []) (new_streams_ok ms mr H1 H2) Hops) as [_ (_ & [Hc Hb _] & _)].
  by destruct (delivery_run _ _ _) as [rs [c ev']].
Qed.
End consumer.
End spec.
