(* ===== verification/CallbackOrder.v ===== *)
(** * Ordered delivery: everything arrives

    One stream, cut by the sender into segments, whose frames arrive in any order
    and any number of times at a consumer that takes all it is offered.  The
    theorem shows that at every moment the application has exactly the segments
    before the first missing one, and that the arrival of the last missing
    segment delivers the rest and finishes the stream once.  The examples apply
    the theorems of [CallbackSpec.v] and show two cases outside them: frames that
    overlap, and a range that is repeated with a FIN. *)

From S2P Require Import Prelude Records Keyed FlowControl SortedKeys Callback CallbackSpec.

#[local] Open Scope Z_scope.

(** A consumer that accepts every chunk. *)
#[local] Instance accept_all : CopyingStreamEvents unit Empty_set := {
  on_stream_chunk _ _ _ data ev := (inl (length data), ev);
  on_stream_finished _ ev := ev;
  on_stream_reset _ _ ev := ev;
}.
Abbreviation sink := (unit * list event)%type.

Section order.
Context `{Allocator} (allocates : forall n, try_reserve n = true).
Context (sid : Z) (segments : list bytes).

Definition whole : bytes := concat segments.
Definition offset_of (k : nat) : Z := zlen (concat (take k segments)).
Definition segment (k : nat) : bytes := nth k segments [].
Definition is_last (k : nat) : bool := (S k =? length segments)%nat.

Hypothesis whole_small : zlen whole <= U64_MAX.
(** Only the last segment may be empty. *)
Hypothesis segments_full : forall k, (S k < length segments)%nat -> segment k <> [].

Lemma offset_succ k : (k < length segments)%nat -> offset_of (S k) = offset_of k + zlen (segment k).
Proof.
  intros Hk. unfold offset_of, segment. destruct (lookup_lt_is_Some_2 _ _ Hk) as [x Hx].
  rewrite (take_S_r _ _ _ Hx), concat_app, zlen_app. cbn [concat]. rewrite app_nil_r.
  by rewrite (nth_lookup_Some _ _ _ _ Hx).
Qed.

Lemma offset_mono j k : (j <= k)%nat -> (k <= length segments)%nat -> offset_of j <= offset_of k.
Proof.
  intros Hjk Hk. induction Hjk as [|k Hjk IH]; [lia|]. rewrite offset_succ by lia. specialize (IH ltac:(lia)). zlia.
Qed.

Lemma offset_lt j k : (j < k)%nat -> (k < length segments)%nat -> offset_of j < offset_of k.
Proof.
  intros Hjk Hk. pose proof (offset_mono (S j) k ltac:(lia) ltac:(lia)). rewrite offset_succ in * by lia.
  pose proof (segments_full j ltac:(lia)) as Hne. destruct (segment j); [done|]. zlia.
Qed.

Lemma offset_total : offset_of (length segments) = zlen whole.
Proof. unfold offset_of, whole. by rewrite firstn_all. Qed.

Lemma offset_inj j k : (j < length segments)%nat -> (k < length segments)%nat -> offset_of j = offset_of k -> j = k.
Proof.
  intros Hj Hk He. destruct (Nat.lt_trichotomy j k) as [Hlt|[|Hlt]]; [|done|].
  - pose proof (offset_lt j k Hlt Hk). lia.
  - pose proof (offset_lt k j Hlt Hj). lia.
Qed.

Definition contents (id : Z) : bytes := if id =? sid then whole else [].

Lemma segment_piece k : (k < length segments)%nat -> piece contents sid (offset_of k) (segment k) (is_last k).
Proof.
  intros Hk. pose proof (offset_mono (S k) (length segments) ltac:(lia) ltac:(lia)) as Hm.
  pose proof (offset_succ k Hk) as Hs. rewrite offset_total in Hm. unfold piece, contents. rewrite Z.eqb_refl. split.
  - apply slice_Ok. split; [unfold offset_of; zlia|]. split; [lia|].
    replace (offset_of k + zlen (segment k) - offset_of k) with (zlen (segment k)) by lia.
    rewrite to_nat_zlen. unfold offset_of, whole, segment. destruct (lookup_lt_is_Some_2 _ _ Hk) as [x Hx].
    rewrite (nth_lookup_Some _ _ _ _ Hx). rewrite <- (take_drop k segments) at 2. rewrite concat_app, to_nat_zlen, drop_app_length.
    rewrite (drop_S _ _ _ Hx). cbn [concat]. by rewrite take_app_length.
  - intros Hl. apply Nat.eqb_eq in Hl. rewrite <- Hs, Hl. apply offset_total.
Qed.

(** The frame of segment [k], and the range kept for it. *)
Definition arrival (k : nat) : delivery_op := DBorrowed sid (segment k) (offset_of k) (is_last k) (Ok (segment k)).
Definition kept_range (k : nat) : Retained := mkRetained (offset_of k) (segment k) 0 (zlen (segment k)) (is_last k).

(** Stream [s] has consumed the segments before [q] and keeps those of [seen] from [q] on. *)
Record holds (seen : list nat) (q : nat) (s : OrderedStream) : Prop := {
  hd_id : os_id s = sid;
  hd_live : os_finished s = false;
  hd_free : os_outstanding s = None;
  hd_consumed : os_consumed s = offset_of q;
  hd_final : os_final_size s = None \/ os_final_size s = Some (zlen whole);
  hd_ranges : forall x, x ∈ os_retained s <-> exists k, k ∈ seen /\ (q <= k)%nat /\ x = kept_range k;
  hd_nodup : NoDup (os_retained s);
}.

Context (max_streams max_retained : Z).
Abbreviation table s := (mkCallbackStreams [s] max_streams max_retained (held s)).
Abbreviation chunk q := (EvChunk sid (offset_of q) (is_last q) (segment q) (Some (length (segment q)))).

Lemma position_single s : os_id s = sid -> Streams.position sid (table s) = Some (0%nat, s).
Proof. intros He. unfold Streams.position. cbn [cs_streams list_find]. by rewrite decide_True. Qed.

Lemma held_length k : length_of (kept_range k) = zlen (segment k).
Proof. unfold length_of, range_len. cbn [rt_from rt_to kept_range]. zlia. Qed.

(** Nothing of [seen] lies at the cursor. *)
Lemma front_none seen q s :
  holds seen q s -> Forall (fun k => k < length segments)%nat seen -> (q < length segments)%nat -> q ∉ seen ->
  Ordered.front s = None /\ existsb (Ordered.at_cursor s) (os_retained s) = false.
Proof.
  intros Hh Hseen Hq Hn. assert (forall x, x ∈ os_retained s -> Ordered.at_cursor s x = false) as Hall.
  { intros x (k & Hk & Hqk & ->)%(hd_ranges _ _ _ Hh). unfold Ordered.at_cursor. cbn [rt_offset kept_range].
    rewrite (hd_consumed _ _ _ Hh). apply Z.eqb_neq. intros He. rewrite Forall_forall in Hseen.
    apply offset_inj in He as ->; [done|by apply Hseen|done]. }
  split.
  - apply list_find_None, Forall_forall. intros x Hx. by rewrite (Hall x Hx).
  - apply not_true_iff_false. intros (x & Hx & Hc)%existsb_exists. apply list_elem_of_In in Hx. by rewrite (Hall x Hx) in Hc.
Qed.

(** The range at the cursor is the one of segment [q]. *)
Lemma front_some seen q s :
  holds seen q s -> Forall (fun k => k < length segments)%nat seen -> (q < length segments)%nat -> q ∈ seen ->
  exists i, Ordered.front s = Some (i, kept_range q) /\ os_retained s !! i = Some (kept_range q).
Proof.
  intros Hh Hseen Hq Hin. destruct (Ordered.front s) as [[i x]|] eqn:Hf.
  - apply list_find_Some in Hf as (Hi & Hc & _). exists i.
    pose proof (list_elem_of_lookup_2 _ _ _ Hi) as (k & Hk & Hqk & ->)%(hd_ranges _ _ _ Hh).
    unfold Ordered.at_cursor in Hc. cbn [rt_offset kept_range] in Hc. apply Z.eqb_eq in Hc. rewrite (hd_consumed _ _ _ Hh) in Hc.
    rewrite Forall_forall in Hseen. apply offset_inj in Hc as ->; [done|by apply Hseen|done].
  - apply list_find_None in Hf. rewrite Forall_forall in Hf.
    assert (kept_range q ∈ os_retained s) as Hx by (apply (hd_ranges _ _ _ Hh); by exists q).
    exfalso. apply (Hf _ Hx). unfold Ordered.at_cursor. rewrite (hd_consumed _ _ _ Hh). apply Z.eqb_refl.
Qed.

Lemma holds_delete seen q s i c :
  holds seen q s -> Forall (fun k => k < length segments)%nat seen -> (q < length segments)%nat ->
  os_retained s !! i = Some (kept_range q) -> c = offset_of (S q) ->
  holds seen (S q) (s <| os_consumed := c |> <| os_retained ::= delete i |>).
Proof.
  intros [] Hseen Hq Hi ->. pose proof (delete_Permutation _ _ _ Hi) as Hp.
  assert (forall y, y ∈ os_retained s <-> y = kept_range q \/ y ∈ delete i (os_retained s)) as Hmem.
  { intros y. transitivity (y ∈ kept_range q :: delete i (os_retained s)); [by rewrite <- Hp|apply elem_of_cons]. }
  assert (NoDup (kept_range q :: (delete i (os_retained s)))) as Hnd by (by rewrite <- Hp).
  apply NoDup_cons in Hnd as [Hn Hnd]. split; try done; get_set. intros x. split.
  - intros Hx. destruct (proj1 (hd_ranges0 x) (proj2 (Hmem x) (or_intror Hx))) as (k & Hk & Hqk & ->). exists k. split_and!; try done.
    destruct (decide (q = k)) as [<-|]; [done|lia].
  - intros (k & Hk & Hqk & ->). assert (kept_range k ∈ os_retained s) as Hin by (apply hd_ranges0; exists k; split_and!; [done|lia|done]).
    apply Hmem in Hin as [He|]; [|done]. injection He as He _ _ _.
    rewrite Forall_forall in Hseen. apply offset_inj in He; [lia|by apply Hseen|done].
Qed.

Definition unfinished (log : list event) : Prop := EvFinished sid ∉ log.

Lemma offer_all q (log : list event) :
  Streams.offer (Er := Empty_set) sid (offset_of q) (is_last q) (segment q) ((), log) =
    (Ok (zlen (segment q)), ((), log ++ [chunk q])).
Proof. unfold Streams.offer. cbn. unfold zlen. by rewrite Z.leb_refl. Qed.

Lemma offset_add q : (q < length segments)%nat -> sat_add (offset_of q) (zlen (segment q)) = offset_of (S q).
Proof.
  intros Hq. rewrite offset_succ by done. pose proof (offset_mono (S q) (length segments) ltac:(lia) ltac:(lia)) as Hm.
  rewrite offset_succ, offset_total in Hm by done. unfold sat_add. lia.
Qed.

(** One turn of the drain loop that finds the segment at the cursor. *)
Lemma turn_some seen q s total log :
  holds seen q s -> Forall (fun k => k < length segments)%nat seen -> (q < length segments)%nat -> q ∈ seen ->
  exists t s', holds seen (S q) s' /\ length (os_retained s) = S (length (os_retained s')) /\
    Streams.resume_turn (Er := Empty_set) sid total (table s) ((), log) =
      (Ok (negb (is_last q), t),
       (if is_last q then mkCallbackStreams [] max_streams max_retained (held s') else table s',
        ((), log ++ chunk q :: (if is_last q then [EvFinished sid] else [])))).
Proof.
  intros Hh Hseen Hq Hin. destruct (front_some seen q s Hh Hseen Hq Hin) as (i & Hf & Hi).
  exists (sat_add total (zlen (segment q))), (s <| os_consumed := offset_of (S q) |> <| os_retained ::= delete i |>).
  split; [by apply (holds_delete seen q)|]. split.
  { get_set. pose proof (lookup_lt_Some _ _ _ Hi). rewrite length_delete by done. lia. }
  unfold Streams.resume_turn. rewrite (position_single s (hd_id _ _ _ Hh)), (hd_live _ _ _ Hh), (hd_free _ _ _ Hh), Hf.
  rewrite bool_decide_eq_false_2 by (intros []; done). cbn [orb].
  unfold Ordered.data_of. cbn [rt_packet rt_from rt_to rt_offset rt_end kept_range]. rewrite slice_all. cbn [map_err].
  rewrite offer_all. destruct ((_ =? 0) && _) eqn:Hz.
  { bools. destruct (segment q); [done|]. zlia. }
  rewrite Z.eqb_refl. cbn [negb].
  assert (s <| os_consumed ::= fun m => sat_add m (zlen (segment q)) |> = s <| os_consumed := offset_of (S q) |>) as ->.
  { by rewrite <- (offset_add q Hq), <- (hd_consumed _ _ _ Hh). }
  set (s' := s <| os_consumed := _ |> <| os_retained ::= _ |>).
  assert (sat_sub (held s) (zlen (segment q)) = held s') as Hheld.
  { pose proof (held_nonneg s') as Hnn. subst s'. unfold held in *. get_set. get_set_in Hnn.
    rewrite (zsum_delete _ _ _ _ Hi), held_length in *. unfold sat_sub. lia. }
  destruct (is_last q) eqn:Hlast; cbn [negb].
  - unfold Streams.remove_stream, Streams.release_bytes. cbn. rewrite <- app_assoc. cbn [app]. rewrite <- Hheld. done.
  - unfold Streams.set_stream, Streams.release_bytes. cbn [snd fst]. rewrite <- Hheld. done.
Qed.

(** Where the delivery stands after the ranges from [q] on have been drained. *)
Definition drained (seen : list nat) (q : nat) (log : list event) (c : CallbackStreams) (log' : list event) : Prop :=
  (exists q' s rest, (q <= q' < length segments)%nat /\ ~ (q' ∈ seen) /\ (forall j, (q <= j < q')%nat -> j ∈ seen) /\
     c = table s /\ holds seen q' s /\ log' = log ++ rest /\ unfinished rest) \/
  ((forall j, (q <= j < length segments)%nat -> j ∈ seen) /\ c = mkCallbackStreams [] max_streams max_retained 0 /\
     exists rest, log' = (log ++ rest) ++ [EvFinished sid] /\ unfinished rest).

Lemma drained_step seen q log e c log' :
  e <> EvFinished sid -> q ∈ seen -> drained seen (S q) (log ++ [e]) c log' -> drained seen q log c log'.
Proof.
  intros He Hin [(q' & s & rest & ? & ? & Hall & ? & ? & -> & ?)|(Hall & ? & rest & -> & ?)]; [left|right].
  - exists q', s, (e :: rest). split_and!; try done; [lia|lia| |by rewrite <- app_assoc|].
    + intros j ?. destruct (decide (j = q)) as [->|]; [done|]. apply Hall. lia.
    + unfold unfinished. by intros [?|?]%elem_of_cons.
  - split_and!; [|done|exists (e :: rest); split; [by rewrite <- !app_assoc|]].
    + intros j ?. destruct (decide (j = q)) as [->|]; [done|]. apply Hall. lia.
    + unfold unfinished. by intros [?|?]%elem_of_cons.
Qed.

Lemma holds_nothing seen q s :
  holds seen q s -> Forall (fun k => k < length segments)%nat seen -> (length segments <= q)%nat -> held s = 0.
Proof.
  intros Hh Hseen Hq. unfold held. destruct (os_retained s) as [|x l] eqn:Hl; [done|]. exfalso.
  assert (x ∈ os_retained s) as (k & Hk & Hqk & _)%(hd_ranges _ _ _ Hh) by (rewrite Hl; by left).
  rewrite Forall_forall in Hseen. specialize (Hseen k Hk). cbn in Hseen. lia.
Qed.

Lemma drain_loop fuel seen q s total log :
  holds seen q s -> Forall (fun k => k < length segments)%nat seen -> (q < length segments)%nat ->
  (length (os_retained s) < fuel)%nat ->
  exists t c log', Streams.resume_loop (Er := Empty_set) fuel sid total (table s) ((), log) = (Ok t, (c, ((), log'))) /\
    drained seen q log c log'.
Proof.
  revert q s total log. induction fuel as [|fuel IH]; intros q s total log Hh Hseen Hq Hf; [lia|]. cbn [Streams.resume_loop].
  destruct (decide (q ∈ seen)) as [Hin|Hn].
  - destruct (turn_some seen q s total log Hh Hseen Hq Hin) as (t & s' & Hh' & Hlen & ->).
    destruct (is_last q) eqn:Hlast; cbn [negb].
    + apply Nat.eqb_eq in Hlast. rewrite (holds_nothing seen (S q) s') by (done || lia).
      eexists _, _, _. split; [done|]. right. split_and!; [intros j ?; by replace j with q by lia|done|].
      exists [EvChunk sid (offset_of q) true (segment q) (Some (length (segment q)))]. split; [by rewrite <- app_assoc|]. unfold unfinished. by intros ?%list_elem_of_singleton.
    + apply Nat.eqb_neq in Hlast.
      destruct (IH (S q) s' t (log ++ [EvChunk sid (offset_of q) false (segment q) (Some (length (segment q)))]) Hh' Hseen) as (t' & c & log' & -> & Hdr); [lia|lia|].
      eexists _, _, _. split; [done|]. eapply drained_step; [|exact Hin|exact Hdr]; done.
  - destruct (front_none seen q s Hh Hseen Hq Hn) as [Hfr _].
    unfold Streams.resume_turn. rewrite (position_single s (hd_id _ _ _ Hh)), (hd_live _ _ _ Hh), (hd_free _ _ _ Hh), Hfr.
    rewrite bool_decide_eq_false_2 by (intros []; done). cbn [orb].
    eexists _, _, _. split; [done|]. left. exists q, s, []. split_and!; try done; [by intros; lia|by rewrite app_nil_r|apply not_elem_of_nil].
Qed.

(** ** Storing the range of a later segment *)
Lemma last_true k : is_last k = true -> offset_of k + zlen (segment k) = zlen whole.
Proof. intros Hl. assert (S k = length segments) as He by (by apply Nat.eqb_eq). rewrite <- offset_succ, He by lia. apply offset_total. Qed.

Lemma note_last seen q k s :
  (k < length segments)%nat -> holds seen q s ->
  holds seen q (Ordered.note_fin (is_last k) (offset_of k + zlen (segment k)) s) /\
  held (Ordered.note_fin (is_last k) (offset_of k + zlen (segment k)) s) = held s /\
  os_retained (Ordered.note_fin (is_last k) (offset_of k + zlen (segment k)) s) = os_retained s.
Proof.
  intros Hk []. unfold Ordered.note_fin. destruct (is_last k) eqn:Hl; [|done]. split; [|done].
  split; try done. right. get_set. by rewrite last_true.
Qed.

Lemma holds_more seen q k s : holds seen q s -> ((k < q)%nat \/ k ∈ seen) -> holds (k :: seen) q s.
Proof.
  intros [] Hk. split; try done. intros x. rewrite hd_ranges0. split.
  - intros (j & ? & ? & ->). exists j. split_and!; [by right|done..].
  - intros (j & [->|?]%elem_of_cons & ? & ->); [|by exists j]. destruct Hk as [?|?]; [lia|by exists k].
Qed.

Lemma overlap_kept j k :
  (j < length segments)%nat -> (k < length segments)%nat ->
  Ordered.check_overlap (segment k) (offset_of k) 0 (zlen (segment k)) (offset_of k + zlen (segment k)) (kept_range j) = Ok tt.
Proof.
  intros Hj Hk. unfold Ordered.check_overlap. cbn [rt_offset rt_packet rt_from rt_to kept_range].
  destruct (decide (j = k)) as [->|Hne].
  - rewrite Z.sub_0_r, !Z.max_id, !Z.min_id. destruct (Z.ltb_spec (offset_of k) (offset_of k + zlen (segment k))) as [|]; [|done].
    rewrite Z.sub_diag, !Z.add_0_l. replace (offset_of k + zlen (segment k) - offset_of k) with (zlen (segment k)) by lia.
    rewrite slice_all. cbn [mbind outcome_bind]. by rewrite bool_decide_eq_true_2, !Z.eqb_refl.
  - rewrite (proj2 (Z.ltb_ge _ _)); [done|].
    pose proof (offset_succ j Hj). pose proof (offset_succ k Hk).
    destruct (Nat.lt_trichotomy j k) as [Hlt|[|Hlt]]; [|done|].
    + pose proof (offset_mono (S j) k ltac:(lia) ltac:(lia)). lia.
    + pose proof (offset_mono (S k) j ltac:(lia) ltac:(lia)). lia.
Qed.

Lemma overlaps_kept k l :
  (k < length segments)%nat -> (forall x, x ∈ l -> exists j, (j < length segments)%nat /\ x = kept_range j) ->
  Ordered.check_overlaps (segment k) (offset_of k) 0 (zlen (segment k)) (offset_of k + zlen (segment k)) l = Ok tt /\
  Ordered.any_same (segment k) (offset_of k) 0 (zlen (segment k)) l = Ok (bool_decide (kept_range k ∈ l)).
Proof.
  intros Hk. induction l as [|x l IH]; intros Hl.
  { done. }
  destruct (Hl x) as (j & Hj & ->); [by left|]. destruct IH as [IH1 IH2]; [intros y Hy; apply Hl; by right|].
  cbn [Ordered.check_overlaps Ordered.any_same]. rewrite overlap_kept by done. cbn [mbind outcome_bind]. split; [done|].
  unfold Ordered.same_range, Ordered.data_of. cbn [rt_offset rt_packet rt_from rt_to kept_range].
  destruct (decide (j = k)) as [->|Hne].
  - rewrite !Z.eqb_refl. cbn [andb]. rewrite slice_all. cbn [mbind outcome_bind].
    rewrite bool_decide_eq_true_2 by done. f_equal. symmetry. apply bool_decide_eq_true. by left.
  - rewrite (proj2 (Z.eqb_neq _ _)) by (intros He; by apply offset_inj in He). cbn [andb mbind outcome_bind]. rewrite IH2. f_equal.
    apply bool_decide_ext. rewrite elem_of_cons. split; [by right|]. intros [He|]; [|done].
    injection He as He _ _ _. by apply offset_inj in He.
Qed.

Lemma zsum_Permutation {A} (w : A -> Z) l k : l ≡ₚ k -> zsum w l = zsum w k.
Proof. induction 1; cbn [zsum]; lia. Qed.

Lemma all_ranges n : (n <= length segments)%nat -> zsum length_of (kept_range <$> seq 0 n) = offset_of n.
Proof.
  induction n as [|n IH]; intros Hn; [done|]. rewrite seq_S, fmap_app, zsum_app, IH by lia. cbn [fmap list_fmap zsum].
  rewrite held_length, offset_succ by lia. cbn [Nat.add]. lia.
Qed.

(** Distinct ranges fit in the stream. *)
Lemma ranges_fit (l : list Retained) :
  NoDup l -> (forall x, x ∈ l -> exists k, (k < length segments)%nat /\ x = kept_range k) -> zsum length_of l <= zlen whole.
Proof.
  intros Hnd Hl. assert (l ⊆+ (kept_range <$> seq 0 (length segments))) as (k & Hk)%submseteq_Permutation.
  { apply NoDup_submseteq; [done|]. intros x Hx. destruct (Hl x Hx) as (j & Hj & ->). apply list_elem_of_fmap_2, elem_of_seq. lia. }
  rewrite <- offset_total, <- all_ranges by lia. rewrite (zsum_Permutation _ _ _ Hk), zsum_app.
  pose proof (zsum_nonneg length_of k) as Hn. rewrite Forall_forall in Hn. specialize (Hn (fun x _ => length_nonneg x)). lia.
Qed.

Hypothesis room : zlen whole <= max_retained.

Lemma holds_range seen q s x :
  holds seen q s -> Forall (fun k => k < length segments)%nat seen -> x ∈ os_retained s ->
  exists k, (k < length segments)%nat /\ x = kept_range k.
Proof.
  intros Hh Hseen (k & Hk & _ & ->)%(hd_ranges _ _ _ Hh). rewrite Forall_forall in Hseen. exists k. split; [by apply Hseen|done].
Qed.

(** A segment that is not at the cursor is kept once. *)
Lemma insert_segment seen q k s :
  holds seen q s -> Forall (fun k => k < length segments)%nat seen -> (q < length segments)%nat ->
  (forall j, (j < q)%nat -> j ∈ seen) -> (k < length segments)%nat -> k <> q ->
  exists s' n, Ordered.insert (segment k) (offset_of k) 0 (zlen (segment k)) (is_last k) (sat_sub max_retained (held s)) s = (Ok n, s') /\
    holds (k :: seen) q s' /\ held s' = held s + n /\ 0 <= n.
Proof.
  intros Hh Hseen Hq Hbefore Hk Hne. pose proof (offset_succ k Hk) as Hsucc. pose proof (zlen_nonneg (segment k)).
  pose proof (offset_mono (S k) (length segments) ltac:(lia) ltac:(lia)) as Hend. rewrite offset_total in Hend.
  assert (0 <= offset_of k) by (unfold offset_of; zlia).
  unfold Ordered.insert. rewrite (proj2 (Z.ltb_ge _ _)), (proj2 (Z.ltb_ge _ _)) by lia. cbn [orb]. rewrite Z.sub_0_r.
  unfold checked_add. rewrite (proj2 (Z.leb_le _ _)) by lia.
  assert (Ordered.fin_invalid (os_final_size s) (offset_of k + zlen (segment k)) (is_last k) = false) as ->.
  { unfold Ordered.fin_invalid. destruct (hd_final _ _ _ Hh) as [->| ->]; [done|]. rewrite (proj2 (Z.ltb_ge _ _)) by lia. cbn [orb].
    destruct (is_last k) eqn:Hl; [|done]. by rewrite last_true, Z.eqb_refl. }
  rewrite (hd_consumed _ _ _ Hh).
  assert (offset_of k <> offset_of q) by (intros He; by apply offset_inj in He).
  rewrite (proj2 (Z.eqb_neq (offset_of k) (offset_of q))), andb_false_r by done. cbn [negb]. rewrite andb_true_r.
  destruct (Z.leb_spec (offset_of k + zlen (segment k)) (offset_of q)) as [Hle|Hgt].
  - exists (Ordered.note_fin (is_last k) (offset_of k + zlen (segment k)) s), 0. destruct (note_last _ _ k s Hk Hh) as (Hh' & Hheld & _).
    split_and!; [done| |lia|lia]. apply holds_more; [done|]. left. destruct (decide (q <= k)%nat); [|lia].
    pose proof (offset_lt q k ltac:(lia) Hk). lia.
  - assert (q < k)%nat as Hqk.
    { destruct (decide (q < k)%nat); [done|]. pose proof (offset_mono (S k) q ltac:(lia) ltac:(lia)). lia. }
    pose proof (offset_lt q k Hqk Hk). assert (sat_sub (offset_of q) (offset_of k) = 0) as -> by (unfold sat_sub; lia).
    assert (sat_add (offset_of k) 0 = offset_of k) as -> by (unfold sat_add; lia). rewrite Z.add_0_l.
    assert (range_len 0 (zlen (segment k)) = zlen (segment k)) as Hlen by (unfold range_len; lia).
    unfold Ordered.insert_new. rewrite Hlen. unfold checked_add. rewrite (proj2 (Z.leb_le _ _)) by lia.
    assert ((0 =? zlen (segment k)) && negb (is_last k) = false) as ->.
    { apply andb_false_iff. destruct (decide (S k = length segments)) as [He|]; [right; unfold is_last; by rewrite He, Nat.eqb_refl|].
      left. apply Z.eqb_neq. pose proof (segments_full k ltac:(lia)). intros He. by destruct (segment k); [|zlia]. }
    destruct (overlaps_kept k (os_retained s) Hk (fun x => holds_range _ _ _ x Hh Hseen)) as [-> ->]. cbn [mbind outcome_bind].
    destruct (bool_decide_reflect (kept_range k ∈ os_retained s)) as [Hin|Hn].
    + exists (Ordered.note_fin (is_last k) (offset_of k + zlen (segment k)) s), 0. destruct (note_last _ _ k s Hk Hh) as (Hh' & Hheld & _).
      split_and!; [done| |lia|lia]. apply holds_more; [done|]. right. apply (hd_ranges _ _ _ Hh) in Hin as (j & ? & ? & He).
      injection He as He _ _ _. apply offset_inj in He as ->; [done|done|]. rewrite Forall_forall in Hseen. by apply Hseen.
    + assert (held s + zlen (segment k) <= zlen whole) as Hfit.
      { rewrite <- held_length, Z.add_comm. apply (ranges_fit (kept_range k :: os_retained s)).
        - apply NoDup_cons. split; [done|apply (hd_nodup _ _ _ Hh)].
        - intros x [->|Hx]%elem_of_cons; [by exists k|by eapply holds_range]. }
      rewrite (proj2 (Z.ltb_ge _ _)) by (unfold sat_sub; lia). rewrite allocates. cbn [negb].
      set (s1 := s <| os_retained ::= _ |>).
      assert (holds (k :: seen) q s1) as Hh1.
      { destruct Hh. subst s1. split; try done; get_set.
        - intros x. unfold insert_at. set (p := Ordered.position_for _ _). rewrite elem_of_app, elem_of_cons.
          assert (x ∈ os_retained s <-> x ∈ take p (os_retained s) \/ x ∈ drop p (os_retained s)) as Hmem
            by (rewrite <- elem_of_app, take_drop; done).
          rewrite hd_ranges0 in Hmem. split; [intros [Hx|[->|Hx]]|intros (j & [->|Hj]%elem_of_cons & Hqj & ->)].
          + destruct (proj2 Hmem (or_introl Hx)) as (j & ? & ? & ->). exists j. split_and!; [by right|done..].
          + exists k. split_and!; [by left|lia|done].
          + destruct (proj2 Hmem (or_intror Hx)) as (j & ? & ? & ->). exists j. split_and!; [by right|done..].
          + by right; left.
          + destruct (proj1 Hmem) as [|]; [by exists j|by left|by right; right].
        - unfold insert_at. rewrite <- Permutation_middle. apply NoDup_cons. rewrite take_drop. done. }
      destruct (note_last _ _ k s1 Hk Hh1) as (Hh' & Hheld & _).
      eexists _, _. split_and!; [done|exact Hh'| |done]. rewrite Hheld. subst s1. rewrite (held_insert (Ordered.position_for (offset_of k))).
      by change (mkRetained _ _ _ _ _) with (kept_range k); rewrite held_length.
Qed.

(** ** Arrivals *)
Hypothesis has_stream : 1 <= max_streams.

(** The first missing segment is [q]. *)
Record standing (seen : list nat) (q : nat) (c : CallbackStreams) : Prop := {
  sg_seen : Forall (fun k => k < length segments)%nat seen;
  sg_missing : (q < length segments)%nat /\ q ∉ seen;
  sg_before : forall j, (j < q)%nat -> j ∈ seen;
  sg_table : (c = mkCallbackStreams [] max_streams max_retained 0 /\ seen = []) \/ exists s, c = table s /\ holds seen q s;
}.

Lemma table_live seen q s : holds seen q s -> Streams.drop_finished (table s) = table s.
Proof.
  intros Hh. unfold Streams.drop_finished.
  change (mkCallbackStreams (List.filter (fun s => negb (os_finished s)) [s]) max_streams max_retained (held s) = table s).
  cbn [List.filter]. by rewrite (hd_live _ _ _ Hh).
Qed.

Lemma new_holds : holds [] 0 (Ordered.new sid).
Proof.
  split; try done; [by left| |constructor]. intros x. cbn. split; [by intros ?%not_elem_of_nil|]. by intros (k & ?%not_elem_of_nil & _).
Qed.

Lemma standing_stream seen q c :
  standing seen q c -> exists s, Streams.stream_mut sid c = (Ok (0%nat, s), table s) /\ holds seen q s.
Proof.
  intros [_ _ Hbefore [[-> ->]|(s & -> & Hh)]]; unfold Streams.stream_mut.
  - assert (q = 0%nat) as -> by (destruct q; [done|]; specialize (Hbefore 0%nat ltac:(lia)); by apply not_elem_of_nil in Hbefore).
    exists (Ordered.new sid). split; [|apply new_holds].
    change (Streams.drop_finished _) with (mkCallbackStreams [] max_streams max_retained 0).
    change (Streams.position sid _) with (@None (nat * OrderedStream)). cbn [cs_max_streams cs_streams zlen].
    rewrite (proj2 (Z.leb_gt _ _)) by (change (zlen (@nil OrderedStream)) with 0; lia). by rewrite allocates.
  - exists s. split; [|done]. by rewrite (table_live _ _ _ Hh), (position_single s (hd_id _ _ _ Hh)).
Qed.

Lemma borrowable_at seen q k s :
  holds seen q s -> Forall (fun k => k < length segments)%nat seen -> (q < length segments)%nat -> q ∉ seen -> (k < length segments)%nat ->
  Streams.borrowable (offset_of k) s = bool_decide (k = q).
Proof.
  intros Hh Hseen Hq Hn Hk. unfold Streams.borrowable. rewrite (hd_live _ _ _ Hh), (hd_free _ _ _ Hh), (hd_consumed _ _ _ Hh).
  destruct (front_none seen q s Hh Hseen Hq Hn) as [_ ->]. rewrite bool_decide_eq_true_2 by done. cbn [negb andb]. rewrite andb_true_r.
  destruct (bool_decide_reflect (k = q)) as [->|Hne]; [apply Z.eqb_refl|]. apply Z.eqb_neq. intros He. by apply offset_inj in He.
Qed.

Lemma resume_drained seen q s log :
  holds seen q s -> Forall (fun k => k < length segments)%nat seen -> (q < length segments)%nat ->
  exists c log', Streams.ignore_value (Streams.resume_copying (Er := Empty_set) sid (table s) ((), log)) = (Ok tt, (c, ((), log'))) /\
    drained seen q log c log'.
Proof.
  intros Hh Hseen Hq. unfold Streams.resume_copying, Streams.resume_fuel. rewrite (position_single s (hd_id _ _ _ Hh)).
  destruct (drain_loop (S (length (os_retained s))) seen q s 0 log Hh Hseen Hq) as (t & c & log' & -> & Hd); [lia|].
  by exists c, log'.
Qed.

Lemma holds_advance seen q s :
  holds seen q s -> q ∉ seen -> holds (q :: seen) (S q) (s <| os_consumed := offset_of (S q) |>).
Proof.
  intros [] Hn. split; try done. intros x. get_set. rewrite hd_ranges0. split.
  - intros (k & Hk & ? & ->). exists k. split_and!; [by right| |done]. destruct (decide (k = q)) as [->|]; [done|lia].
  - intros (k & [->|Hk]%elem_of_cons & ? & ->); [lia|]. exists k. split_and!; [done|lia|done].
Qed.

(** The segment at the cursor goes straight to the application. *)
Lemma arrive_next seen q s log :
  holds seen q s -> Forall (fun k => k < length segments)%nat seen -> (q < length segments)%nat -> q ∉ seen ->
  exists c log',
    Streams.deliver_borrowed (Er := Empty_set) sid (segment q) (offset_of q) (offset_of q + zlen (segment q)) (is_last q) 0 (Ok (segment q))
      0 s (table s) ((), log) = (Ok tt, (c, ((), log'))) /\ drained (q :: seen) q log c log'.
Proof.
  intros Hh Hseen Hq Hn. pose proof (holds_advance seen q s Hh Hn) as Hh'.
  assert (Forall (fun k => k < length segments)%nat (q :: seen)) as Hseen' by (by constructor).
  pose proof (offset_mono (S q) (length segments) ltac:(lia) ltac:(lia)) as Hend. rewrite offset_total in Hend.
  rewrite offset_succ in * by done. unfold Streams.deliver_borrowed.
  assert (Ordered.fin_invalid (os_final_size s) (offset_of q + zlen (segment q)) (is_last q) = false) as ->.
  { unfold Ordered.fin_invalid. destruct (hd_final _ _ _ Hh) as [->| ->]; [done|]. rewrite (proj2 (Z.ltb_ge _ _)) by lia. cbn [orb].
    destruct (is_last q) eqn:Hl; [|done]. by rewrite last_true, Z.eqb_refl. }
  rewrite offer_all, Z.eqb_refl. cbn [negb]. destruct (is_last q) eqn:Hlast.
  - apply Nat.eqb_eq in Hlast. pose proof (holds_nothing _ _ _ Hh' Hseen' ltac:(lia)) as H0.
    eexists _, _. split; [reflexivity|]. right. split_and!.
    + intros j ?. replace j with q by lia. by left.
    + change (mkCallbackStreams (List.filter (fun x => negb (os_id x =? sid)) [s]) max_streams max_retained (held s) =
              mkCallbackStreams [] max_streams max_retained 0).
      cbn [List.filter]. rewrite (hd_id _ _ _ Hh), Z.eqb_refl. cbn [negb]. by rewrite <- H0.
    + exists [EvChunk sid (offset_of q) true (segment q) (Some (length (segment q)))]. split; [done|].
      unfold unfinished. by intros ?%list_elem_of_singleton.
  - apply Nat.eqb_neq in Hlast. cbn [Ordered.note_fin].
    change (Streams.set_stream 0 _ (table s)) with (table (s <| os_consumed := offset_of q + zlen (segment q) |>)).
    destruct (bool_decide_reflect (os_retained (s <| os_consumed := offset_of q + zlen (segment q) |>) = [])) as [Hr|_].
    + eexists _, _. split; [reflexivity|]. left. eexists (S q), _, [_]. split_and!; [lia|lia| | |done|exact Hh'|done|].
      * intros Hin. assert (kept_range (S q) ∈ os_retained (s <| os_consumed := offset_of q + zlen (segment q) |>)) as Hx
          by (apply (hd_ranges _ _ _ Hh'); by exists (S q)). rewrite Hr in Hx. by apply not_elem_of_nil in Hx.
      * intros j ?. replace j with q by lia. by left.
      * unfold unfinished. by intros ?%list_elem_of_singleton.
    + destruct (resume_drained (q :: seen) (S q) _ (log ++ [EvChunk sid (offset_of q) false (segment q) (Some (length (segment q)))]) Hh' Hseen')
        as (c & log' & -> & Hd); [lia|]. exists c, log'. split; [done|].
      eapply drained_step; [|by left|exact Hd]. done.
Qed.

(** Another segment waits; what it waits for may have been drained before. *)
Lemma arrive_later seen q k s log :
  holds seen q s -> standing seen q (table s) -> (k < length segments)%nat -> k <> q ->
  exists c log',
    Streams.receive_owned (Er := Empty_set) (fun _ _ _ _ _ _ c ev => (Panic, (c, ev))) sid (segment k) (offset_of k) 0
      (0 + zlen (segment k)) (is_last k) (table s) ((), log) = (Ok tt, (c, ((), log'))) /\ drained (k :: seen) q log c log'.
Proof.
  intros Hh [Hseen [Hq Hn] Hbefore _] Hk Hne. unfold Streams.receive_owned. rewrite Z.add_0_l. pose proof (zlen_nonneg (segment k)).
  rewrite (proj2 (Z.ltb_ge _ _)), (proj2 (Z.ltb_ge _ _)) by lia. cbn [orb].
  rewrite (position_single s (hd_id _ _ _ Hh)), (borrowable_at seen q k s Hh Hseen Hq Hn Hk), bool_decide_eq_false_2 by done.
  unfold Streams.receive_stored, Streams.insert_range. rewrite (table_live _ _ _ Hh), (position_single s (hd_id _ _ _ Hh)).
  change (Streams.available (table s)) with (sat_sub max_retained (held s)).
  destruct (insert_segment seen q k s Hh Hseen Hq Hbefore Hk Hne) as (s' & n & -> & Hh' & Hheld & Hpos).
  assert (Streams.retain_bytes n (Streams.set_stream 0 s' (table s)) = table s') as ->.
  { change (mkCallbackStreams [s'] max_streams max_retained (sat_add (held s) n) = table s'). f_equal. rewrite Hheld.
    assert (held s' <= zlen whole).
    { apply ranges_fit; [apply (hd_nodup _ _ _ Hh')|]. intros x Hx. eapply holds_range; [exact Hh'| |done]. by constructor. }
    unfold sat_add. lia. }
  apply resume_drained; [done|by constructor|done].
Qed.

Lemma arrive seen q c log k :
  standing seen q c -> (k < length segments)%nat ->
  exists c' log', delivery_step (Er := Empty_set) (arrival k) c ((), log) = (Ok tt, (c', ((), log'))) /\ drained (k :: seen) q log c' log'.
Proof.
  intros Hst Hk. pose proof Hst as [Hseen [Hq Hn] Hbefore _].
  destruct (standing_stream seen q c Hst) as (s & Hmut & Hh).
  unfold delivery_step, arrival, Streams.try_receive_copying_borrowed. cbn [Streams.receive_range].
  pose proof (offset_mono (S k) (length segments) ltac:(lia) ltac:(lia)) as Hend. rewrite offset_total, offset_succ in Hend by done.
  unfold checked_add. rewrite (proj2 (Z.leb_le _ _)) by lia. rewrite Hmut, (borrowable_at seen q k s Hh Hseen Hq Hn Hk).
  destruct (bool_decide_reflect (k = q)) as [->|Hne]; [by apply arrive_next|].
  apply (arrive_later seen q k s log); try done. split; try done. right. by exists s.
Qed.

Lemma drained_standing seen q log c log' :
  Forall (fun k => k < length segments)%nat seen -> (forall j, (j < q)%nat -> j ∈ seen) -> unfinished log ->
  drained seen q log c log' ->
  (exists q', standing seen q' c /\ unfinished log') \/
  ((forall j, (j < length segments)%nat -> j ∈ seen) /\ c = mkCallbackStreams [] max_streams max_retained 0 /\
   exists rest, log' = (log ++ rest) ++ [EvFinished sid] /\ unfinished rest).
Proof.
  intros Hseen Hbefore Hlog [(q' & s & rest & ? & ? & Hall & -> & ? & -> & Hrest)|(Hall & Hc & Hrest)]; [left|right].
  - exists q'. split; [split; [done|split; [lia|done]| |right; by exists s]|].
    + intros j ?. destruct (decide (j < q)%nat); [by apply Hbefore|apply Hall; lia].
    + unfold unfinished in *. by intros [?|?]%elem_of_app.
  - split; [|done]. intros j ?. destruct (decide (j < q)%nat); [by apply Hbefore|apply Hall; lia].
Qed.

(** As long as a segment is missing, the others are delivered or kept. *)
Lemma arrivals ks p seen q c log :
  standing seen q c -> unfinished log -> Forall (fun k => k < length segments)%nat ks ->
  (p < length segments)%nat -> p ∉ ks -> p ∉ seen ->
  exists q' seen' c' log',
    delivery_run (Er := Empty_set) (arrival <$> ks) c ((), log) = (replicate (length ks) (Ok tt), (c', ((), log'))) /\
    standing seen' q' c' /\ unfinished log' /\ (forall j, j ∈ seen' <-> j ∈ ks \/ j ∈ seen).
Proof.
  intros Hst Hlog Hks Hp. revert seen q c log Hst Hlog. induction Hks as [|k ks Hk _ IH]; intros seen q c log Hst Hlog Hpk Hps.
  { exists q, seen, c, log. split_and!; try done. intros j. split; [by right|]. by intros [?%not_elem_of_nil|]. }
  rewrite not_elem_of_cons in Hpk. destruct Hpk as [Hne Hpk].
  destruct (arrive seen q c log k Hst Hk) as (c1 & log1 & Hstep & Hdr).
  assert (p ∉ k :: seen) as Hps' by (rewrite not_elem_of_cons; done).
  apply drained_standing in Hdr as [(q1 & Hst1 & Hlog1)|(Hall & _)]; [|exfalso; by apply Hps', Hall|by constructor; [|apply Hst]| |done].
  - destruct (IH (k :: seen) q1 c1 log1 Hst1 Hlog1 Hpk Hps') as (q' & seen' & c' & log' & Hrun & Hst' & Hlog' & Hmem).
    exists q', seen', c', log'. split_and!; try done.
    + rewrite fmap_cons. cbn [delivery_run]. rewrite Hstep, Hrun. done.
    + intros j. rewrite Hmem, !elem_of_cons. tauto.
  - intros j Hj. right. by apply (sg_before _ _ _ Hst).
Qed.

Lemma standing_got seen q c log :
  standing seen q c -> state_ok contents log c -> got sid log = concat (take q segments).
Proof.
  intros [_ [Hq _] Hbefore [[-> ->]|(s & -> & Hh)]] Hok.
  - assert (q = 0%nat) as -> by (destruct q; [done|]; specialize (Hbefore 0%nat ltac:(lia)); by apply not_elem_of_nil in Hbefore).
    apply (st_absent _ _ _ Hok). apply not_elem_of_nil.
  - pose proof (so_got _ _ _ (st_streams _ _ _ Hok 0%nat s eq_refl)) as Hg. rewrite (hd_id _ _ _ Hh), (hd_consumed _ _ _ Hh) in Hg.
    rewrite Hg. unfold contents, whole, offset_of. rewrite Z.eqb_refl, to_nat_zlen.
    rewrite <- (take_drop q segments) at 2. by rewrite concat_app, take_app_length.
Qed.

Lemma arrivals_ok ks : Forall (fun k => k < length segments)%nat ks -> Forall (delivery_op_ok contents max_retained) (arrival <$> ks).
Proof.
  intros Hks. apply Forall_fmap. eapply Forall_impl; [exact Hks|]. intros k Hk. split; [by apply segment_piece|]. apply slice_all.
Qed.

(** C8: One stream whose frames are the fixed segments its sender cut it into, one
    after the other and none empty but perhaps the last, is delivered completely to a
    consumer that takes every chunk, when no allocation fails, the table has room
    for a stream and the whole stream fits the retention budget.  Whatever the
    order in which the segments arrive, and however often, the consumer has exactly
    the segments before the first missing one, and no call fails; and the arrival of
    the last missing segment delivers the rest, finishes the stream once and leaves
    nothing behind.  (Frames that overlap otherwise may stall:
    [overlapping_frames_stall].) *)
Theorem segments_all_arrive ks p :
  Forall (fun k => k < length segments)%nat ks -> (p < length segments)%nat ->
  (forall j, (j < p)%nat -> In j ks) -> ~ In p ks -> max_retained <= U64_MAX ->
  let '(results, (c, (_, log))) := delivery_run (Er := Empty_set) (arrival <$> ks) (Streams.new max_streams max_retained) ((), []) in
  Forall (fun r => r = Ok tt) results /\ got sid log = concat (take p segments) /\ ~ In (EvFinished sid) log /\
  ((forall j, (j < length segments)%nat -> j <> p -> In j ks) ->
   let '(result, (c', (_, log'))) := delivery_step (Er := Empty_set) (arrival p) c ((), log) in
   result = Ok tt /\ cs_streams c' = [] /\ Streams.retained_bytes c' = 0 /\
   exists rest, log' = (log ++ rest) ++ [EvFinished sid] /\ got sid (log ++ rest) = concat segments /\ ~ In (EvFinished sid) rest).
Proof.
  intros Hks Hp Hbefore Hnp Hmax. setoid_rewrite <- list_elem_of_In in Hbefore.
  assert (forall id, zlen (contents id) <= U64_MAX) as Hsmall by (intros id; unfold contents; destruct (_ =? _); [done|by vm_compute]).
  assert (standing [] 0 (Streams.new max_streams max_retained)) as Hst0.
  { split; [constructor|split; [lia|apply not_elem_of_nil]|intros; lia|by left]. }
  destruct (arrivals ks p [] 0 _ [] Hst0) as (q & seen & c & log & Hrun & Hst & Hlog & Hmem);
    [apply not_elem_of_nil|done|done|by rewrite list_elem_of_In|apply not_elem_of_nil|].
  pose proof (zlen_nonneg whole).
  destruct (delivery_run_ok contents Hsmall max_retained Hmax (arrival <$> ks) (Streams.new max_streams max_retained) ((), []))
    as [_ Hok]; [apply new_streams_ok; lia|by apply arrivals_ok|]. rewrite Hrun in Hok |- *. cbn [fst snd] in Hok.
  assert (q = p) as ->.
  { destruct (Nat.lt_trichotomy q p) as [Hlt|[|Hlt]]; [|done|].
    - exfalso. apply (proj2 (sg_missing _ _ _ Hst)), Hmem. left. by apply Hbefore.
    - exfalso. apply (sg_before _ _ _ Hst) in Hlt. apply Hmem in Hlt as [Hin|Hin]; [by apply Hnp, list_elem_of_In|by apply not_elem_of_nil in Hin]. }
  split_and!; [by apply Forall_replicate|eapply standing_got; [exact Hst|apply Hok]|by rewrite <- list_elem_of_In|].
  intros Hall. destruct (arrive seen p c log p Hst Hp) as (c' & log' & Hstep & Hdr).
  pose proof (delivery_step_ok contents Hsmall max_retained Hmax (arrival p) c ((), log) Hok) as [_ Hok'].
  { split; [by apply segment_piece|apply slice_all]. }
  rewrite Hstep in Hok' |- *. cbn [fst snd] in Hok'.
  apply drained_standing in Hdr as [(q' & Hst' & _)|(_ & -> & rest & -> & Hrest)]; [|..].
  - exfalso. destruct (sg_missing _ _ _ Hst') as [Hq' Hn]. apply Hn. destruct (decide (q' = p)) as [->|Hne]; [by left|].
    right. apply Hmem. left. apply list_elem_of_In. by apply Hall.
  - split_and!; try done. exists rest. split_and!; [done| |by rewrite <- list_elem_of_In]. destruct Hok' as (_ & _ & Hord).
    pose proof (Hord (log ++ rest) (EvFinished sid) [] eq_refl) as Hfin. cbn in Hfin. rewrite Hfin. unfold contents. by rewrite Z.eqb_refl.
  - constructor; [done|apply Hst].
  - intros j Hj. right. by apply (sg_before _ _ _ Hst).
  - done.
Qed.
End order.

(** ** Examples *)
Section examples.
#[local] Instance plenty : Allocator := {| try_reserve := fun _ => true |}.

Definition six : Z -> bytes := fun id => if id =? 4 then [1; 2; 3; 4; 5; 6] else [].

(** The middle, the end and the front of a stream. *)
Definition frames : list delivery_op :=
  [DBorrowed 4 [3; 4] 2 false (Ok [3; 4]); DBorrowed 4 [5; 6] 4 true (Err CallbackError.Capacity);
   DOwned 4 [9; 1; 2; 9] 0 1 3 false; DBorrowed 4 [5; 6] 4 true (Ok [5; 6])].

Lemma six_small id : zlen (six id) <= U64_MAX.
Proof. unfold six. by destruct (id =? 4). Qed.

Lemma sample_frames_ok : Forall (delivery_op_ok six 8) frames.
Proof.
  repeat constructor; try by vm_compute. exists [1; 2]. by vm_compute.
Qed.


Lemma retained_bytes_bounded_witness :
  Forall (delivery_op_ok six 8) frames /\
  let '(_, (c, _)) := delivery_run (Er := Empty_set) frames (Streams.new 2 8) (tt, []) in
  zsum (fun s => zsum (fun x => range_len (rt_from x) (rt_to x)) (os_retained s)) (cs_streams c) <= Streams.retained_bytes c <= 8.
Proof.
  split; [exact sample_frames_ok|].
  apply (retained_bytes_bounded six six_small 8 ltac:(by vm_compute) frames 2 8 tt); [lia|lia|exact sample_frames_ok].
Defined.

Definition cut : list bytes := [[1; 2]; [3]; [4; 5; 6]].

Lemma segments_all_arrive_witness :
  let '(results, (c, (_, log))) := delivery_run (Er := Empty_set) (arrival 4 cut <$> [2; 0; 2]%nat) (Streams.new 1 6) (tt, []) in
  Forall (fun r => r = Ok tt) results /\ got 4 log = concat (take 1 cut) /\ ~ In (EvFinished 4) log /\
  ((forall j, (j < length cut)%nat -> j <> 1%nat -> In j [2; 0; 2]%nat) ->
   let '(result, (c', (_, log'))) := delivery_step (Er := Empty_set) (arrival 4 cut 1) c (tt, log) in
   result = Ok tt /\ cs_streams c' = [] /\ Streams.retained_bytes c' = 0 /\
   exists rest, log' = (log ++ rest) ++ [EvFinished 4] /\ got 4 (log ++ rest) = concat cut /\ ~ In (EvFinished 4) rest).
Proof.
  apply (@segments_all_arrive plenty (fun _ => eq_refl) 4 cut).
  - by vm_compute.
  - intros [|[|k]] Hk; [done..|]. cbn in Hk. lia.
  - by vm_compute.
  - lia.
  - repeat constructor.
  - cbn. lia.
  - intros [|j] Hj; [right; by left|lia].
  - cbn. lia.
  - by vm_compute.
Defined.

(** A frame that covers a retained range delivers its bytes again from the
    packet and finishes the stream; the retained copy is dropped but stays
    counted, so that the room for eight bytes is gone for good. *)
Definition twenty : bytes := replicate 20 7.
Lemma covered_range_leaks :
  let '(_, (c, (_, log))) := delivery_run (Er := Empty_set)
    [DBorrowed 4 (drop 12 twenty) 12 true (Ok (drop 12 twenty)); DBorrowed 4 twenty 0 true (Ok twenty)] (Streams.new 2 8) (tt, []) in
  In (EvFinished 4) log /\ cs_streams c = [] /\ Streams.retained_bytes c = 8 /\
  (Streams.try_receive_copying_borrowed (Er := Empty_set) 8 [1] 1 false (Ok [1]) c (tt, log)).1 = Err (Transport CallbackError.Capacity).
Proof. vm_compute. split_and!; try done. right. by left. Qed.

(** A retained range that is repeated with a FIN keeps its old end mark: all
    bytes are delivered and the final size is known, but nothing reports the end. *)
Lemma repeated_fin_lost :
  let '(_, (c, (_, log))) := delivery_run (Er := Empty_set)
    [DBorrowed 4 [3; 4] 2 false (Ok [3; 4]); DBorrowed 4 [3; 4] 2 true (Ok [3; 4]); DBorrowed 4 [1; 2] 0 false (Ok [1; 2])]
    (Streams.new 2 8) (tt, []) in
  got 4 log = [1; 2; 3; 4] /\ ~ In (EvFinished 4) log /\ os_final_size <$> cs_streams c = [Some 4] /\ os_consumed <$> cs_streams c = [4].
Proof. vm_compute. split_and!; try done. by intros [?|[?|[]]]. Qed.

(** Frames that overlap without being equal or nested: 12..20 waits, 0..15 is
    delivered, and then 15..20 is neither at the cursor nor accepted again. *)
Lemma overlapping_frames_stall :
  let '(results, (c, (_, log))) := delivery_run (Er := Empty_set)
    [DBorrowed 4 (drop 12 twenty) 12 true (Ok (drop 12 twenty)); DBorrowed 4 (take 15 twenty) 0 false (Ok (take 15 twenty))]
    (Streams.new 2 32) (tt, []) in
  Forall (fun r => r = Ok tt) results /\ os_consumed <$> cs_streams c = [15] /\
  delivery_step (Er := Empty_set) (DResume 4) c (tt, log) = (Ok tt, (c, (tt, log))) /\
  (delivery_step (Er := Empty_set) (DBorrowed 4 (drop 12 twenty) 12 true (Ok (drop 12 twenty))) c (tt, log)).1
    = Err (Transport CallbackError.InvalidOverlap).
Proof. vm_compute. split_and!; try done. by repeat constructor. Qed.
End examples.
