(* ===== verification/Mux.v ===== *)
(** * The stream multiplexer

    [StreamMux] of [src/crates/quic-lite/src/mux.rs]: an endpoint and the ordered
    delivery of its streams.  A packet goes through the endpoint and its STREAM
    frames to the application's handler, in the order of the code: a preflight
    that may leave the packet alone, admission by the endpoint without
    acknowledgement, delivery, and only then the acknowledgement.  The handler is
    a function of its state; the theorems are in [MuxSpec.v]. *)

From S2P Require Import Prelude Records Methods Wire PacketHeader AckRanges Reader Frames FlowControl PathState SendBuffer Endpoint Credit Transmit Receive Callback.

Module StreamDeliveryError.
Inductive t : Type := Packet (e : Error.t) | Application (e : Error.t).
End StreamDeliveryError.

Record StreamMux : Type := mkStreamMux {
  mx_endpoint : EndpointState;
  mx_ordered : CallbackStreams;
}.
#[export] Instance eta_StreamMux : Eta StreamMux := ltac:(mk_eta).
#[export] Instance set_mx_endpoint : Setter mx_endpoint := ltac:(mk_setter).
#[export] Instance set_mx_ordered : Setter mx_ordered := ltac:(mk_setter).

(** [ValidationSink]: every byte is accepted. *)
#[export] Instance ValidationSink : CopyingStreamEvents unit unit := {
  on_stream_chunk _ _ _ data ev := (inl (length data), ev);
  on_stream_finished _ ev := ev;
  on_stream_reset _ _ ev := ev;
}.

(** The closure [FnMut(u64, u64, bool, &\[u8\]) -> Result<usize, Error>]. *)
Class Application (Hd : Type) : Type := handler : Z -> Z -> bool -> bytes -> Hd -> (nat + Error.t) * Hd.

(** The handler's state, and the bytes it has accepted. *)
#[export] Instance ApplicationStreamSink {Hd} `{Application Hd} : CopyingStreamEvents (Hd * Z) Error.t := {
  on_stream_chunk stream offset end_ data ev :=
    match handler stream offset end_ data ev.1 with
    | (inl consumed, h) =>
        if zlen data <? Z.of_nat consumed then (inr Error.Invalid, (h, ev.2))
        else (inl consumed, (h, sat_add ev.2 (Z.of_nat consumed)))
    | (inr e, h) => (inr e, (h, ev.2))
    end;
  on_stream_finished _ ev := ev;
  on_stream_reset _ _ ev := ev;
}.

(** The length of the data is that of the vector reserved for it. *)
Definition retain_stream_bytes `{Allocator} (data : bytes) : cb bytes :=
  if try_reserve (length data) then Ok data else Err CallbackError.Capacity.

Module Mux.
Section mux.
Context `{Allocator, PacketSize, Features}.
Abbreviation delivery A := (outcome StreamDeliveryError.t A).

Definition set_delivery_limits (max_streams max_bytes : Z) (m : StreamMux) : StreamMux :=
  m <| mx_ordered ::= Streams.set_limits max_streams max_bytes |>.

Definition new_with_history_capacity (r : Role) (l : ConnectionLimits)
    (max_packet_size max_pending_streams max_stream_bytes : Z) (history_capacity : nat) : StreamMux :=
  mkStreamMux (Ep.new_with_history_capacity r l max_packet_size history_capacity)
    (Streams.new max_pending_streams max_stream_bytes).

(** A method of the endpoint. *)
Definition on_endpoint {A} (f : ep A) (m : StreamMux) : res A * StreamMux :=
  let '(o, e) := f (mx_endpoint m) in (o, m <| mx_endpoint := e |>).

Definition install_connection_ids (local peer : Z) : StreamMux -> res unit * StreamMux :=
  on_endpoint (Ep.install_connection_ids local peer).

Definition close_code (m : StreamMux) : option Z := e_close_code (mx_endpoint m).

(** *** The frames of a packet *)
Definition stream_delivery_complete (e : EndpointState) (id : Z) : bool := Conn.is_complete_or_retired (e_receive e) id.

(** The [while] loop: whether a STREAM frame was seen, and those that are not
    complete. *)
Fixpoint collect_frames (fuel : nat) (e : EndpointState) (input : bytes) (offset : Z)
    (has_stream : bool) (packet_frames : list StreamFrame) : res (bool * list StreamFrame) :=
  match fuel with
  | O => Panic
  | S fuel' =>
      if zlen input <=? offset then Ok (has_stream, packet_frames) else
      rest ← slice_from input offset;
      '(frame, used) ← decode_frame rest;
      match frame with
      | Stream stream =>
          collect_frames fuel' e input (offset + used) true
            (if stream_delivery_complete e (s_id stream) then packet_frames else packet_frames ++ [stream])
      | _ => collect_frames fuel' e input (offset + used) has_stream packet_frames
      end
  end.

(** *** Before the endpoint sees the packet *)
Fixpoint dry_run (retain : bytes -> cb bytes) (frames : list StreamFrame) (staged : CallbackStreams) : delivery bool :=
  match frames with
  | [] => Ok true
  | f :: frames' =>
      match Streams.try_receive_copying_borrowed (Er := unit) (s_id f) (s_data f) (s_offset f) (s_fin f)
              (retain (s_data f)) staged tt with
      | (Ok _, (staged, _)) => dry_run retain frames' staged
      | (Err (Transport CallbackError.Capacity), _) => Ok false
      | (Err _, _) => Err (StreamDeliveryError.Packet Error.Invalid)
      | (Panic, _) => Panic
      end
  end.

Definition frame_view (f : StreamFrame) : Z * Z * Z * bool := (s_id f, s_offset f, zlen (s_data f), s_fin f).

(** [Ok false] is the early [return Ok(())]. *)
Definition preflight (retain : bytes -> cb bytes) (frames : list StreamFrame) (ordered : CallbackStreams) : delivery bool :=
  match Streams.validate_packet_frames (map frame_view frames) ordered with
  | Err CallbackError.Capacity => Ok false
  | Err _ => Err (StreamDeliveryError.Packet Error.Invalid)
  | Panic => Panic
  | Ok _ =>
      let packet_stream_bytes := fold_left (fun total f => sat_add total (zlen (s_data f))) frames 0 in
      if Streams.retention_may_exceed packet_stream_bytes ordered then dry_run retain frames ordered else Ok true
  end.

Section application.
Context {Hd : Type} `{Application Hd}.

(** A method of the endpoint whose error is a packet error. *)
Definition packet_method {A B} (f : ep A) (m : StreamMux) (h : Hd)
    (k : A -> StreamMux -> delivery B * (StreamMux * Hd)) : delivery B * (StreamMux * Hd) :=
  match on_endpoint f m with
  | (Ok a, m) => k a m
  | (Err e, m) => (Err (StreamDeliveryError.Packet e), (m, h))
  | (Panic, m) => (Panic, (m, h))
  end.

(** The [match] on the delivery: [Ok false] leaves the packet unacknowledged. *)
Definition delivery_result (o : outcome (CopyingError Error.t) unit) : delivery bool :=
  match o with
  | Ok _ => Ok true
  | Err (Transport CallbackError.Capacity) => Ok false
  | Err (Transport _) => Err (StreamDeliveryError.Packet Error.Invalid)
  | Err (Callback e) => Err (StreamDeliveryError.Application e)
  | Panic => Panic
  end.

Definition deliver_frame (retain : bytes -> cb bytes) (f : StreamFrame) (m : StreamMux) (h : Hd)
    : delivery bool * (StreamMux * Hd) :=
  let '(o, (ordered, (h, n))) :=
    Streams.try_receive_copying_borrowed (s_id f) (s_data f) (s_offset f) (s_fin f) (retain (s_data f))
      (mx_ordered m) (h, 0) in
  let m := m <| mx_ordered := ordered |> in
  match o with
  | Panic => (Panic, (m, h))
  | _ =>
      if n =? 0 then (delivery_result o, (m, h)) else
      packet_method (Credit.stream_consumed_before_packet_ack (s_id f) n) m h
        (fun _ m => (delivery_result o, (m, h)))
  end.

Fixpoint deliver_frames (retain : bytes -> cb bytes) (frames : list StreamFrame) (m : StreamMux) (h : Hd)
    : delivery bool * (StreamMux * Hd) :=
  match frames with
  | [] => (Ok true, (m, h))
  | f :: frames' =>
      match deliver_frame retain f m h with
      | (Ok true, (m, h)) => deliver_frames retain frames' m h
      | r => r
      end
  end.

(** *** One packet *)
Definition receive_stream_events_with_retention (input : bytes) (ingress : nat) (retain : bytes -> cb bytes)
    (m : StreamMux) (h : Hd) : delivery unit * (StreamMux * Hd) :=
  let e := mx_endpoint m in
  let without_streams := packet_method (Receive.receive_packet_on_path input ingress) m h (fun _ m => (Ok tt, (m, h))) in
  match decode_with_expected input (Ep.expected_packet_number e) with
  | Err err => (Err (StreamDeliveryError.Packet err), (m, h))
  | Panic => (Panic, (m, h))
  | Ok (header, header_len) =>
      if packet_number header <? e_receive_packet_floor e then without_streams else
      match collect_frames (S (length input)) e input header_len false [] with
      | Err err => (Err (StreamDeliveryError.Packet err), (m, h))
      | Panic => (Panic, (m, h))
      | Ok (false, _) => without_streams
      | Ok (true, frames) =>
          match preflight retain frames (mx_ordered m) with
          | Err err => (Err err, (m, h))
          | Panic => (Panic, (m, h))
          | Ok false => (Ok tt, (m, h))
          | Ok true =>
              packet_method (Receive.receive_packet_before_stream_delivery input ingress) m h (fun admitted m =>
                match deliver_frames retain frames m h with
                | (Err err, s) => (Err err, s)
                | (Panic, s) => (Panic, s)
                | (Ok false, s) => (Ok tt, s)
                | (Ok true, (m, h)) =>
                    if negb (tf_duplicate admitted) && negb (zlen (tf_streams admitted) =? 0)
                    then (Ok tt, (m <| mx_endpoint ::= Receive.commit_stream_packet_receive
                                         (packet_number (tf_header admitted)) ingress |>, h))
                    else (Ok tt, (m, h))
                end)
          end
      end
  end.

Definition receive_stream_events_on_path (input : bytes) (ingress : nat) : StreamMux -> Hd -> delivery unit * (StreamMux * Hd) :=
  receive_stream_events_with_retention input ingress retain_stream_bytes.

Definition receive_stream_events (input : bytes) : StreamMux -> Hd -> delivery unit * (StreamMux * Hd) :=
  receive_stream_events_on_path input 0.

(** *** Retained bytes *)
Definition resume_stream_events (stream_id : Z) (m : StreamMux) (h : Hd) : delivery Z * (StreamMux * Hd) :=
  let '(o, (ordered, (h, n))) := Streams.resume_copying stream_id (mx_ordered m) (h, 0) in
  let m := m <| mx_ordered := ordered |> in
  match o with
  | Ok _ =>
      if n =? 0 then (Ok n, (m, h))
      else packet_method (Credit.stream_consumed stream_id n) m h (fun _ m => (Ok n, (m, h)))
  | Err (Transport _) => (Err (StreamDeliveryError.Packet Error.Invalid), (m, h))
  | Err (Callback e) => (Err (StreamDeliveryError.Application e), (m, h))
  | Panic => (Panic, (m, h))
  end.
End application.

(** *** Responses *)
Definition encode_stream_packet_on_path (i : nat) (destination sid off : Z) (fin : bool) (data : bytes) (cap : Z)
    : ep (bytes * Z) :=
  Transmit.encode_stream_packet_on_path_inner i destination sid off fin data cap true.

(** The model of the inner method has put the lease into the range it records,
    where the code looks for that range. *)
Definition encode_stream_packet_from_owned_on_path (i : nat) (destination sid off : Z) (fin : bool) (data : bytes) (cap : Z)
    : ep (bytes * Z) :=
  '(packet, pn) ← Transmit.encode_stream_packet_on_path_inner i destination sid off fin data cap false;
  found ← gets (fun e => existsb (fun r => logical_packet_number r =? pn) (Receive.flatten (e_send_buffer e)));
  _ ← refuse_if (negb found) Error.Invalid;
  mret (packet, pn).

(** The stream may have been opened by the caller. *)
Definition response_peer (i : nat) (sid : Z) : ep Z :=
  _ ← ignore (Ep.open_send_stream sid U64_MAX);
  gets_res (fun e => ok_or (Ep.peer_connection_id_on_path e i) Error.WrongConnectionId).

Definition encode_response_at_on_path (i : nat) (sid off : Z) (data : bytes) (fin : bool) (cap : Z)
    : StreamMux -> res (bytes * Z) * StreamMux :=
  on_endpoint (peer ← response_peer i sid; encode_stream_packet_on_path i peer sid off fin data cap).

Definition encode_response_at : Z -> Z -> bytes -> bool -> Z -> StreamMux -> res (bytes * Z) * StreamMux :=
  encode_response_at_on_path 0.

Definition encode_response_from_owned_at_on_path (i : nat) (sid off : Z) (fin : bool) (packet : bytes) (cap : Z)
    : StreamMux -> res (bytes * Z) * StreamMux :=
  on_endpoint (peer ← response_peer i sid; encode_stream_packet_from_owned_on_path i peer sid off fin packet cap).
End mux.
End Mux.
