(* ===== verification/MuxSpec.v ===== *)
(** * What the multiplexer acknowledges

    Every step of the ordered delivery keeps the bytes it is responsible for: a
    byte is accepted by the application or held in a retained range until it is,
    whatever the consumer answers ([advances]).  With it, the theorem on
    [receive_stream_events]: a new packet is recorded as received, and so
    acknowledged, only when each byte of its STREAM frames has been settled. *)

From S2P Require Import Prelude Records Methods Wire PacketHeader AckRanges Reader Frames FlowControl Congestion PathState SendBuffer Endpoint Credit Ledger Transmit Retransmit Receive ReceiveLoop ReceiveEffects SortedKeys Callback Mux.

#[local] Open Scope Z_scope.

(** ** Streams by identifier *)
Definition lookup_stream (id : Z) (l : list OrderedStream) : option OrderedStream := snd <$> list_find (fun s => os_id s = id) l.

Lemma lookup_cons id s l : lookup_stream id (s :: l) = if decide (os_id s = id) then Some s else lookup_stream id l.
Proof.
  unfold lookup_stream. cbn [list_find]. destruct (decide _); [done|]. by destruct (list_find _ l) as [[]|].
Qed.

Lemma lookup_position id c : lookup_stream id (cs_streams c) = snd <$> Streams.position id c.
Proof. done. Qed.

Lemma lookup_at id c i s : Streams.position id c = Some (i, s) -> lookup_stream id (cs_streams c) = Some s.
Proof. intros Hp. by rewrite lookup_position, Hp. Qed.

Lemma lookup_set_same l : forall i id s s',
  list_find (fun s => os_id s = id) l = Some (i, s) -> os_id s' = os_id s -> forall id',
  lookup_stream id' (<[i := s']> l) = if decide (id' = id) then Some s' else lookup_stream id' l.
Proof.
  induction l as [|x l IH]; intros i id s s' Hf He id'; [done|]. cbn [list_find] in Hf.
  destruct (decide (os_id x = id)) as [Hx|Hx].
  - injection Hf as <- <-. cbn [insert list_insert]. rewrite !lookup_cons.
    destruct (decide (id' = id)) as [->|Hne]; [by rewrite decide_True by congruence|].
    by rewrite !decide_False by congruence.
  - destruct (list_find _ l) as [[j y]|] eqn:Hl; [|done]. cbn in Hf. injection Hf as <- <-.
    cbn [insert list_insert]. rewrite !lookup_cons. rewrite (IH _ _ _ _ Hl He).
    destruct (decide (id' = id)) as [->|Hne]; [by rewrite decide_False|done].
Qed.

Lemma lookup_delete_other l : forall i id s,
  list_find (fun s => os_id s = id) l = Some (i, s) -> forall id', id' <> id ->
  lookup_stream id' (delete i l) = lookup_stream id' l.
Proof.
  induction l as [|x l IH]; intros i id s Hf id' Hne; [done|]. cbn [list_find] in Hf.
  destruct (decide (os_id x = id)) as [Hx|Hx].
  - injection Hf as <- <-. cbn [delete list_delete]. rewrite lookup_cons. by rewrite decide_False by congruence.
  - destruct (list_find _ l) as [[j y]|] eqn:Hl; [|done]. cbn in Hf. injection Hf as <- <-.
    cbn [delete list_delete]. rewrite !lookup_cons. by rewrite (IH _ _ _ Hl).
Qed.

Lemma lookup_filter_other id id' l : id' <> id ->
  lookup_stream id' (List.filter (fun x => negb (os_id x =? id)) l) = lookup_stream id' l.
Proof.
  intros Hne. induction l as [|x l IH]; [done|]. cbn [List.filter]. rewrite lookup_cons.
  destruct (Z.eqb_spec (os_id x) id) as [Hx|Hx]; cbn [negb].
  - by rewrite decide_False by congruence.
  - by rewrite lookup_cons, IH.
Qed.

Lemma lookup_snoc id l s : lookup_stream id l <> None -> lookup_stream id (l ++ [s]) = lookup_stream id l.
Proof.
  induction l as [|x l IH]; [done|]. rewrite <- app_comm_cons, !lookup_cons. destruct (decide _); [done|]. apply IH.
Qed.

Lemma lookup_snoc_new id l s : lookup_stream id l = None -> os_id s = id -> lookup_stream id (l ++ [s]) = Some s.
Proof.
  intros Hn Hs. induction l as [|x l IH]; [cbn [app]; rewrite lookup_cons; by rewrite decide_True|].
  rewrite <- app_comm_cons, lookup_cons in *. destruct (decide _); [done|]. by apply IH.
Qed.

(** ** The bytes a stream is responsible for *)
Definition covers (s : OrderedStream) (p : Z) : Prop :=
  p < os_consumed s \/
  exists x, x ∈ os_retained s /\ rt_offset x <= p < rt_offset x + range_len (rt_from x) (rt_to x).

(** Neither finished nor waiting for a completion. *)
Definition live (s : OrderedStream) : Prop := os_finished s = false /\ os_outstanding s = None.
Definition quiet (c : CallbackStreams) : Prop := Forall live (cs_streams c).

Definition grows (s s' : OrderedStream) : Prop :=
  os_id s' = os_id s /\ (live s -> live s') /\ forall p, p < U64_MAX -> covers s p -> covers s' p.
#[export] Instance grows_pre : PreOrder grows.
Proof. split; [by split|]. intros x y z (? & ? & ?) (? & ? & ?). split; [congruence|]. auto. Qed.

Lemma quiet_lookup c i s : quiet c -> cs_streams c !! i = Some s -> live s.
Proof. intros Hq Hi. unfold quiet in Hq. rewrite Forall_lookup in Hq. by eapply Hq. Qed.

Lemma drop_quiet c : quiet c -> Streams.drop_finished c = c.
Proof.
  intros Hq. destruct c as [l m1 m2 m3]. unfold quiet in Hq. cbn [cs_streams] in Hq.
  change (mkCallbackStreams (List.filter (fun s => negb (os_finished s)) l) m1 m2 m3 = mkCallbackStreams l m1 m2 m3). f_equal.
  induction Hq as [|s l [Hs _] _ IH]; [done|]. cbn [List.filter]. by rewrite Hs, IH.
Qed.

Lemma grows_note fin end_ s : grows s (Ordered.note_fin fin end_ s).
Proof. by destruct fin. Qed.

Lemma grows_consumed s n : os_consumed s <= n -> grows s (s <| os_consumed := n |>).
Proof. intros Hn. split; [done|]. split; [done|]. intros p _ [Hc|Hx]; unfold covers; get_set; [left; lia|by right]. Qed.

(** ** Storing a range *)
Section insert.
Context `{Allocator}.

Lemma any_same_found packet offset a b l :
  Ordered.any_same packet offset a b l = Ok true ->
  exists x, x ∈ l /\ rt_offset x = offset /\ range_len (rt_from x) (rt_to x) = range_len a b.
Proof.
  induction l as [|x l IH]; cbn [Ordered.any_same]; [done|]. unfold Ordered.same_range.
  destruct (_ && _) eqn:He.
  - bools. destruct (Ordered.data_of x) as [old| |]; [|done..]. cbn [mbind outcome_bind].
    destruct (slice packet a b) as [new| |]; [|done..]. cbn [mbind outcome_bind].
    destruct (bool_decide _); [intros _; exists x; split; [left|done]|].
    intros Hl. destruct (IH Hl) as (y & Hy & ?). exists y. split; [by right|done].
  - cbn [mbind outcome_bind]. intros Hl. destruct (IH Hl) as (y & Hy & ?). exists y. split; [by right|done].
Qed.

Lemma insert_new_covers packet offset a b fin max_new s o s' :
  Ordered.insert_new packet offset a b fin max_new s = (o, s') ->
  grows s s' /\ (is_ok o = true -> forall p, offset <= p < offset + range_len a b -> covers s' p).
Proof.
  unfold Ordered.insert_new. destruct (checked_add _ _) as [end_|] eqn:He; [|intros [= <- <-]; by split].
  destruct (_ && _) eqn:Hempty.
  { intros [= <- <-]. bools. subst b. split; [done|]. intros _ p Hp. unfold range_len in Hp. lia. }
  destruct (Ordered.check_overlaps _ _ _ _ _ _ ≫= _) as [[]| |] eqn:Hsame; [| |intros [= <- <-]; by split..].
  - intros [= <- <-]. split; [apply grows_note|]. intros _ p Hp.
    destruct (Ordered.check_overlaps _ _ _ _ _ _) as [[]| |]; [|done..]. cbn [mbind outcome_bind] in Hsame.
    destruct (any_same_found _ _ _ _ _ Hsame) as (x & Hx & Ho & Hl).
    destruct (grows_note fin end_ s) as (_ & _ & Hg).
    assert (covers s p) as Hc by (right; exists x; split; [done|lia]). by destruct fin.
  - destruct (_ <? _); [intros [= <- <-]; by split|]. destruct (negb (try_reserve _)); [intros [= <- <-]; by split|].
    intros [= <- <-]. set (x := mkRetained offset packet a b fin). set (s1 := s <| os_retained ::= _ |>).
    assert (forall y, y ∈ os_retained s1 <-> y = x \/ y ∈ os_retained s) as Hmem.
    { intros y. unfold s1. get_set. apply elem_of_insert_at. }
    assert (grows s s1) as Hg.
    { split; [done|]. split; [done|]. intros p _ [Hc|(y & Hy & Hr)]; [by left|]. right. exists y. split; [|done].
      apply Hmem. by right. }
    split; [etrans; [exact Hg|apply grows_note]|]. intros _ p Hp.
    assert (covers s1 p) as Hc by (right; exists x; split; [apply Hmem; by left|done]). by destruct fin.
Qed.

Lemma insert_covers packet offset a b fin max_new s o s' :
  Ordered.insert packet offset a b fin max_new s = (o, s') ->
  grows s s' /\ (is_ok o = true -> forall p, offset <= p < offset + (b - a) -> covers s' p).
Proof.
  unfold Ordered.insert. destruct ((b <? a) || _) eqn:Hr; [intros [= <- <-]; by split|]. bools.
  destruct (checked_add offset (b - a)) as [end_|] eqn:He; [|intros [= <- <-]; by split].
  unfold checked_add in He. destruct (Z.leb_spec (offset + (b - a)) U64_MAX); [|done]. injection He as <-.
  destruct (Ordered.fin_invalid _ _ _); [intros [= <- <-]; by split|].
  destruct (_ && _) eqn:Hold.
  { intros [= <- <-]. bools. split; [apply grows_note|]. intros _ p Hp.
    assert (covers s p) as Hc by (left; lia). by destruct fin. }
  intros Hi. apply insert_new_covers in Hi as [Hg Hc]. split; [done|]. intros Ho p Hp.
  destruct (Z.lt_ge_cases p (os_consumed s)) as [Hlt|Hge]; [apply Hg; [lia|by left]|].
  apply Hc; [done|]. apply andb_false_iff in Hold. unfold sat_add, sat_sub, range_len.
  destruct Hold as [Hold|Hold]; [apply Z.leb_gt in Hold; lia|]. lia.
Qed.
End insert.

(** ** Steps of the delivery

    [ended id ev] says that the consumer has accepted the last chunk of stream
    [id], all of it.  Nothing the delivery does may lose a byte: it stays covered
    by its stream, until the end of the stream is accepted. *)
Section steps.
Context `{Allocator} {Ev Er : Type} `{C : CopyingStreamEvents Ev Er} (ended : Z -> Ev -> Prop).

Definition later (ev ev' : Ev) : Prop := forall id, ended id ev -> ended id ev'.
#[export] Instance later_pre : PreOrder later.
Proof. split; [by intros ev id|]. intros x y z H1 H2 id He. by apply H2, H1. Qed.

Class Remembers : Prop := {
  chunk_later id offset fin data ev : later ev (on_stream_chunk id offset fin data ev).2;
  chunk_ends id offset data ev ev' :
    on_stream_chunk id offset true data ev = (inl (length data), ev') -> ended id ev';
  finished_later id ev : later ev (on_stream_finished id ev);
  reset_later id code ev : later ev (on_stream_reset id code ev);
}.
Context `{Remembers}.

Definition settled (id p : Z) (c : CallbackStreams) (ev : Ev) : Prop :=
  ended id ev \/ exists s, lookup_stream id (cs_streams c) = Some s /\ covers s p.

Definition settled_range (id a b : Z) (c : CallbackStreams) (ev : Ev) : Prop :=
  forall p, a <= p < b -> settled id p c ev.

Definition advances (x y : CallbackStreams * Ev) : Prop :=
  later x.2 y.2 /\ (quiet x.1 -> quiet y.1) /\
  forall id p, p < U64_MAX -> settled id p x.1 x.2 -> settled id p y.1 y.2.
#[export] Instance advances_pre : PreOrder advances.
Proof.
  split; [by intros x|]. intros x y z (Hl & Hq & Hs) (Hl' & Hq' & Hs'). split; [by etrans|]. auto.
Qed.

Lemma advances_range x y id a b : b <= U64_MAX -> advances x y ->
  settled_range id a b x.1 x.2 -> settled_range id a b y.1 y.2.
Proof. intros Hb (_ & _ & Hs) Hr p Hp. apply Hs; [lia|]. by apply Hr. Qed.

(** Nothing but the counters and limits changes. *)
Lemma advances_same c c' ev ev' : cs_streams c' = cs_streams c -> later ev ev' -> advances (c, ev) (c', ev').
Proof.
  intros Hc Hl. split; [done|]. unfold quiet, settled. cbn [fst snd]. rewrite Hc. split; [done|].
  intros id p _ [He|?]; [left; by apply Hl|by right].
Qed.

(** Stream [i] is replaced by one that covers as much. *)
Lemma advances_set c ev ev' i id s s' :
  Streams.position id c = Some (i, s) -> grows s s' -> later ev ev' ->
  advances (c, ev) (Streams.set_stream i s' c, ev').
Proof.
  intros Hp (Hid & Hlive & Hcov) Hl. unfold Streams.position in Hp. split; [done|]. cbn [fst snd]. split.
  - intros Hq. apply Forall_insert; [done|]. apply list_find_Some in Hp as (Hi & _ & _). eapply Hlive, quiet_lookup; eauto.
  - intros id' p Hlt [He|(t & Ht & Hc)]; [left; by apply Hl|right].
    unfold Streams.set_stream. get_set. rewrite (lookup_set_same _ _ _ _ _ Hp Hid).
    destruct (decide (id' = id)) as [->|_]; [|by exists t]. exists s'. split; [done|].
    unfold lookup_stream in Ht. rewrite Hp in Ht. injection Ht as <-. by apply Hcov.
Qed.

(** Stream [id] is gone; its end was accepted. *)
Lemma advances_drop c c' ev ev' id :
  ended id ev' -> later ev ev' -> (quiet c -> quiet c') ->
  (forall id', id' <> id -> lookup_stream id' (cs_streams c') = lookup_stream id' (cs_streams c)) ->
  advances (c, ev) (c', ev').
Proof.
  intros He Hl Hq Hlook. split; [done|]. split; [done|]. cbn [fst snd].
  intros id' p _ [Hs|Hs]; [left; by apply Hl|]. destruct (decide (id' = id)) as [->|Hne]; [by left|right].
  by rewrite Hlook.
Qed.

Lemma advances_remove c ev ev' i id s :
  Streams.position id c = Some (i, s) -> ended id ev' -> later ev ev' ->
  advances (c, ev) (Streams.remove_stream i c, ev').
Proof.
  intros Hp He Hl. apply (advances_drop _ _ _ _ id); [done..| |].
  - intros Hq. by apply Forall_delete.
  - by apply lookup_delete_other with s.
Qed.

(** ** The consumer *)
Lemma offer_ends id offset fin data ev :
  later ev (Streams.offer (Er := Er) id offset fin data ev).2 /\
  match (Streams.offer (Er := Er) id offset fin data ev).1 with
  | Ok n => 0 <= n <= zlen data /\
      (n = zlen data -> fin = true -> ended id (Streams.offer (Er := Er) id offset fin data ev).2)
  | _ => True
  end.
Proof.
  unfold Streams.offer. pose proof (chunk_later id offset fin data ev) as Hl.
  destruct (on_stream_chunk id offset fin data ev) as [[n|e] ev'] eqn:Hc; cbn [fst snd] in *.
  - destruct (Z.leb_spec (Z.of_nat n) (zlen data)); cbn [fst snd]; [|done]. split; [done|]. split; [lia|].
    intros Hn ->. unfold zlen in Hn. apply Nat2Z.inj in Hn. subst n. by eapply chunk_ends.
  - split; [|done]. etrans; [exact Hl|apply reset_later].
Qed.

(** A chunk whose end was accepted is over: the stream is dropped. *)
Lemma resume_turn_advances id total c ev :
  advances (c, ev) (Streams.resume_turn (Er := Er) id total c ev).2.
Proof.
  unfold Streams.resume_turn. destruct (Streams.position id c) as [[i s]|] eqn:Hp; [|done].
  destruct (_ || _); [done|]. destruct (Ordered.front s) as [[k x]|] eqn:Hf; [|done].
  apply list_find_Some in Hf as (Hk & Hcur%Z.eqb_eq & _).
  destruct (map_err _ _) as [data| |] eqn:Hd; [|done..].
  assert (zlen data = range_len (rt_from x) (rt_to x)) as Hlen.
  { unfold Ordered.data_of in Hd. destruct (slice _ _ _) as [data'| |] eqn:Hs; [|done..]. injection Hd as ->.
    pose proof (slice_len _ _ _ _ Hs). pose proof (zlen_nonneg data). unfold range_len. lia. }
  destruct (offer_ends id (rt_offset x) (rt_end x) data ev) as [Hl Hn].
  destruct (Streams.offer _ _ _ _ _) as [[n| |] ev']; cbn [fst snd] in *; [|by apply advances_same..].
  destruct Hn as [Hn He]. destruct (_ && _); [by apply advances_same|].
  assert (forall l, (forall y, y ∈ os_retained s -> y <> x -> y ∈ l) ->
    (forall p, p < U64_MAX -> rt_offset x <= p < rt_offset x + zlen data ->
       p < os_consumed s + n \/ exists y, y ∈ l /\ rt_offset y <= p < rt_offset y + range_len (rt_from y) (rt_to y)) ->
    grows s (s <| os_consumed := sat_add (os_consumed s) n |> <| os_retained := l |>)) as Hgrow.
  { intros l Hothers Hx. split; [done|]. split; [done|]. intros p Hlt [Hc|(y & Hy & Hr)]; unfold covers; get_set.
    - left. unfold sat_add. lia.
    - destruct (decide (y = x)) as [->|Hne]; [|right; exists y; auto].
      destruct (Hx p Hlt) as [Hc|?]; [lia|left; unfold sat_add; lia|by right]. }
  destruct (Z.eqb_spec n (zlen data)) as [->|Hne]; cbn [negb].
  - destruct (rt_end x) eqn:Hend; cbn [fst snd].
    + transitivity (Streams.release_bytes (zlen data) c, ev'); [by apply advances_same|].
      eapply advances_remove; [exact Hp| |apply finished_later]. by apply finished_later, He.
    + transitivity (Streams.release_bytes (zlen data) c, ev'); [by apply advances_same|].
      eapply advances_set; [exact Hp| |done]. apply (Hgrow (delete k (os_retained s))).
      * intros y Hy Hyx. apply delete_Permutation in Hk. rewrite Hk in Hy. by apply elem_of_cons in Hy as [->|].
      * intros p _ Hr. left. lia.
  - transitivity (Streams.release_bytes n c, ev'); [by apply advances_same|].
    eapply advances_set; [exact Hp| |done]. set (x' := mkRetained _ _ _ _ _).
    apply (Hgrow (<[k := x']> (os_retained s))).
    + intros y Hy Hyx. apply list_elem_of_lookup in Hy as [j Hj]. apply list_elem_of_lookup. exists j.
      rewrite list_lookup_insert_ne; [done|]. intros <-. rewrite Hk in Hj. by injection Hj as ->.
    + intros p Hlt Hr. destruct (Z.lt_ge_cases p (os_consumed s + n)) as [|Hge]; [by left|right].
      exists x'. split; [apply list_elem_of_lookup; exists k; apply list_lookup_insert_eq; by eapply lookup_lt_Some|].
      subst x'. cbn [rt_offset rt_from rt_to]. unfold range_len, sat_add in *. lia.
Qed.

Lemma resume_loop_advances fuel id total c ev :
  advances (c, ev) (Streams.resume_loop (Er := Er) fuel id total c ev).2.
Proof.
  revert total c ev. induction fuel as [|fuel IH]; intros total c ev; [done|]. cbn [Streams.resume_loop].
  pose proof (resume_turn_advances id total c ev) as Ht.
  destruct (Streams.resume_turn _ _ _ _) as [[[[] t]| |] [c' ev']]; cbn [fst snd] in *; try done.
  etrans; [exact Ht|apply IH].
Qed.

Lemma resume_advances id c ev : advances (c, ev) (Streams.resume_copying (Er := Er) id c ev).2.
Proof. apply resume_loop_advances. Qed.

Lemma ignore_value_snd {A} (r : outcome (CopyingError Er) A * (CallbackStreams * Ev)) : (Streams.ignore_value r).2 = r.2.
Proof. by destruct r. Qed.

(** ** The stream of a frame *)
Lemma new_live id : live (Ordered.new id).
Proof. done. Qed.

Lemma advances_push c s ev :
  lookup_stream (os_id s) (cs_streams c) = None -> live s ->
  advances (c, ev) (c <| cs_streams ::= fun l => l ++ [s] |>, ev).
Proof.
  intros Hn Hs. split; [done|]. cbn [fst snd]. split.
  - intros Hq. apply Forall_app. split; [exact Hq|by constructor].
  - intros id p _ [He|(t & Ht & Hc)]; [by left|right]. exists t. split; [|done]. get_set.
    rewrite lookup_snoc; [done|congruence].
Qed.

Lemma position_push c id s : Streams.position id c = None -> os_id s = id ->
  Streams.position id (c <| cs_streams ::= fun l => l ++ [s] |>) = Some (length (cs_streams c), s).
Proof.
  unfold Streams.position. intros Hp Hs. apply list_find_None in Hp. apply list_find_Some. get_set. split_and!.
  - by rewrite lookup_app_r, Nat.sub_diag by lia.
  - done.
  - intros j t Hj Hlt. rewrite lookup_app_l in Hj by done. rewrite Forall_lookup in Hp. by eapply Hp.
Qed.

Lemma stream_mut_advances id c ev : quiet c ->
  advances (c, ev) ((Streams.stream_mut id c).2, ev) /\
  match (Streams.stream_mut id c).1 with
  | Ok (i, s) => Streams.position id (Streams.stream_mut id c).2 = Some (i, s)
  | _ => True
  end.
Proof.
  intros Hq. unfold Streams.stream_mut. rewrite (drop_quiet _ Hq).
  destruct (Streams.position id c) as [[i s]|] eqn:Hp; [done|].
  destruct (_ <=? _); [done|]. destruct (negb _); [done|]. cbn [fst snd]. split.
  - apply advances_push; [|apply new_live]. cbn [os_id Ordered.new]. by rewrite lookup_position, Hp.
  - by apply position_push.
Qed.

Lemma insert_range_advances id packet offset a b fin available c ev : quiet c ->
  let r := Streams.insert_range id packet offset a b fin available c in
  advances (c, ev) (r.2, ev) /\
  (is_ok r.1 = true -> settled_range id offset (offset + (b - a)) r.2 ev).
Proof.
  intros Hq. unfold Streams.insert_range. rewrite (drop_quiet _ Hq).
  destruct (Streams.position id c) as [[i s]|] eqn:Hp.
  - destruct (Ordered.insert _ _ _ _ _ _ _) as [o s'] eqn:Hi. apply insert_covers in Hi as [Hg Hc].
    cbn [fst snd]. split; [by eapply advances_set|]. intros Ho p Hr. right. exists s'. split; [|by apply Hc].
    unfold Streams.set_stream. get_set. destruct Hg as [Hid _].
    rewrite (lookup_set_same _ _ _ _ _ Hp Hid). by rewrite decide_True.
  - destruct (_ <=? _); [done|].
    destruct (Ordered.insert _ _ _ _ _ _ _) as [[n| |] s'] eqn:Hi; [|done..].
    apply insert_covers in Hi as [(Hid & Hlive & _) Hc]. destruct (negb _); [done|]. cbn [fst snd].
    assert (lookup_stream id (cs_streams c) = None) as Hn by (by rewrite lookup_position, Hp).
    split; [apply advances_push; [by rewrite Hid|by apply Hlive]|]. intros _ p Hr. right. exists s'.
    split; [|by apply Hc]. get_set. by apply lookup_snoc_new.
Qed.

(** ** One frame *)
Definition carried (x : CallbackStreams * Ev) (id a b : Z) (r : outcome (CopyingError Er) unit * (CallbackStreams * Ev)) : Prop :=
  advances x r.2 /\ (is_ok r.1 = true -> b <= U64_MAX /\ settled_range id a b r.2.1 r.2.2).

Lemma lookup_set_stream c i s s' id :
  Streams.position id c = Some (i, s) -> grows s s' ->
  lookup_stream id (cs_streams (Streams.set_stream i s' c)) = Some s' /\
  Streams.position id (Streams.set_stream i s' c) = Some (i, s').
Proof.
  intros Hp (Hid & _). unfold Streams.position in Hp. split.
  - unfold Streams.set_stream. get_set. rewrite (lookup_set_same _ _ _ _ _ Hp Hid). by rewrite decide_True.
  - unfold Streams.position, Streams.set_stream. get_set. apply list_find_Some in Hp as (Hi & Hs & Hb).
    apply list_find_Some. split_and!; [apply list_lookup_insert_eq; by eapply lookup_lt_Some|congruence|].
    intros j t Hj Hlt. rewrite list_lookup_insert_ne in Hj by lia. by eapply Hb.
Qed.

Lemma deliver_borrowed_carried id data offset end_ fin storage_offset retain i s c ev :
  Streams.position id c = Some (i, s) -> offset = os_consumed s -> end_ = offset + zlen data -> end_ <= U64_MAX ->
  carried (c, ev) id offset end_ (Streams.deliver_borrowed (Er := Er) id data offset end_ fin storage_offset retain i s c ev).
Proof.
  intros Hp Ho Hend Hmax. unfold Streams.deliver_borrowed, carried. destruct (Ordered.fin_invalid _ _ _); [by split|].
  destruct (offer_ends id offset fin data ev) as [Hl Hn].
  destruct (Streams.offer _ _ _ _ _) as [[n| |] ev']; cbn [fst snd] in *; [|by split; [apply advances_same|]..].
  destruct Hn as [Hn He]. destruct (Z.eqb_spec n (zlen data)) as [->|Hne]; cbn [negb].
  - set (s1 := Ordered.note_fin fin end_ s <| os_consumed := end_ |>).
    assert (grows s s1) as Hg.
    { etrans; [apply (grows_consumed s end_); pose proof (zlen_nonneg data); lia|apply grows_note]. }
    destruct fin.
    + cbn [fst snd]. assert (ended id ev') as He' by (by apply He). split.
      * apply (advances_drop _ _ _ _ id); [by apply finished_later|by etrans; [|apply finished_later]| |].
        -- intros Hq. unfold quiet in *. get_set. apply Forall_forall. intros x Hx. rewrite Forall_forall in Hq. apply Hq.
           apply list_elem_of_In in Hx. apply filter_In in Hx as [Hx _]. by apply list_elem_of_In.
        -- intros id' Hne. get_set. by apply lookup_filter_other.
      * intros _. split; [done|]. intros p _. left. by apply finished_later.
    + destruct (lookup_set_stream _ _ _ _ _ Hp Hg) as [Hlook _].
      assert (advances (c, ev) (Streams.set_stream i s1 c, ev')) as Ha by (by eapply advances_set).
      assert (settled_range id offset end_ (Streams.set_stream i s1 c) ev') as Hs.
      { intros p Hr. right. exists s1. split; [done|]. left. change (p < end_). lia. }
      destruct (bool_decide _); cbn [fst snd]; [by split|]. rewrite ignore_value_snd.
      pose proof (resume_advances id (Streams.set_stream i s1 c) ev') as Hr. split; [by etrans|].
      intros _. split; [done|]. by apply (advances_range _ _ _ _ _ Hmax Hr).
  - set (s1 := s <| os_consumed := offset + n |>). set (c1 := Streams.set_stream i s1 c).
    assert (grows s s1) as Hg.
    { apply (grows_consumed s (offset + n)). lia. }
    assert (advances (c, ev) (c1, ev')) as Ha by (by eapply advances_set).
    destruct (_ <? _); [by split|]. destruct retain as [packet| |]; [|by split..].
    destruct (lookup_set_stream _ _ _ _ _ Hp Hg) as [_ Hp1].
    destruct (Ordered.insert _ _ _ _ _ _ _) as [o s2] eqn:Hi. apply insert_covers in Hi as [Hg2 Hc2].
    assert (advances (c, ev) (Streams.set_stream i s2 c1, ev')) as Ha2.
    { etrans; [exact Ha|]. by eapply advances_set. }
    destruct o as [m| |]; cbn [fst snd]; [|by split..].
    split; [etrans; [exact Ha2|by apply advances_same]|]. intros _. split; [done|].
    intros p Hr. right. exists s2. split; [apply (lookup_set_stream _ _ _ _ _ Hp1 Hg2)|].
    destruct (Z.lt_ge_cases p (offset + n)) as [Hlt|Hge].
    + apply Hg2; [lia|]. left. subst s1. get_set. lia.
    + apply Hc2; [done|]. lia.
Qed.

Lemma receive_stored_carried id packet offset a b fin c ev :
  quiet c -> offset + (b - a) <= U64_MAX ->
  carried (c, ev) id offset (offset + (b - a)) (Streams.receive_stored (Er := Er) id packet offset a b fin c ev).
Proof.
  intros Hq Hb. unfold Streams.receive_stored, carried.
  destruct (insert_range_advances id packet offset a b fin (Streams.available c) c ev Hq) as [Ha Hs].
  destruct (Streams.insert_range _ _ _ _ _ _ _ _) as [[n| |] c']; cbn [fst snd] in *; [|by split..].
  rewrite ignore_value_snd. pose proof (resume_advances id (Streams.retain_bytes n c') ev) as Hr.
  assert (advances (c', ev) (Streams.retain_bytes n c', ev)) as Hn by by apply advances_same.
  split; [by etrans; [exact Ha|etrans; [exact Hn|exact Hr]]|]. intros _. split; [done|].
  apply (advances_range _ _ _ _ _ Hb Hr), (advances_range _ _ _ _ _ Hb Hn). by apply Hs.
Qed.

Lemma borrowable_cursor offset s : Streams.borrowable offset s = true -> offset = os_consumed s.
Proof. unfold Streams.borrowable. intros Hb. by bools. Qed.

Lemma receive_range_carried retain : forall fuel id data offset fin storage_offset c ev,
  quiet c ->
  carried (c, ev) id offset (offset + zlen data)
    (Streams.receive_range (Er := Er) fuel id data offset fin storage_offset retain c ev).
Proof.
  intros fuel. induction fuel as [|fuel IH]; intros id data offset fin storage_offset c ev Hq; cbn [Streams.receive_range].
  all: destruct (checked_add offset (zlen data)) as [end_|] eqn:He; [|by split].
  all: unfold checked_add in He; destruct (Z.leb_spec (offset + zlen data) U64_MAX) as [Hmax|]; [|done]; injection He as <-.
  all: destruct (stream_mut_advances id c ev Hq) as [Ha Hp].
  all: assert (quiet (Streams.stream_mut id c).2) as Hq' by (by apply Ha).
  all: destruct (Streams.stream_mut id c) as [[[i s]| |] c']; cbn [fst snd] in *; [|by split..].
  all: destruct (Streams.borrowable offset s) eqn:Hbor.
  1,3: apply borrowable_cursor in Hbor; destruct (deliver_borrowed_carried id data offset (offset + zlen data) fin
      storage_offset retain i s c' ev Hp Hbor eq_refl Hmax) as [Hd Hs]; split; [by etrans|exact Hs].
  all: destruct retain as [packet| |]; [|by split..]; unfold Streams.receive_owned; destruct (_ || _); [by split|].
  all: rewrite Hp, Hbor.
  all: destruct (receive_stored_carried id packet offset storage_offset (storage_offset + zlen data) fin c' ev Hq') as [Hd Hs]; [lia|].
  all: replace (storage_offset + zlen data - storage_offset) with (zlen data) in Hs by lia; split; [by etrans|exact Hs].
Qed.
End steps.

(** ** Received packet numbers

    Before the acknowledgement nothing adds a packet number to the received
    ranges. *)
Section received.
Context `{Allocator, PacketSize, Features}.

Definition narrows (e e' : EndpointState) : Prop :=
  wf (e_received_packets e) ->
  wf (e_received_packets e') /\
  forall pn, Ranges.contains (e_received_packets e') pn = true -> Ranges.contains (e_received_packets e) pn = true.
#[export] Instance narrows_pre : PreOrder narrows.
Proof. split; [by intros e|]. intros x y z Hxy Hyz Hw. destruct (Hxy Hw) as [Hw' ?]. destruct (Hyz Hw'). split; auto. Qed.

Definition narrowing {A} (m : ep A) : Prop := forall e, narrows e (m e).2.

Lemma narrows_same e e' : e_received_packets e' = e_received_packets e -> narrows e e'.
Proof. unfold narrows. by intros ->. Qed.

Lemma narrowing_bind {A B} (m : ep A) (k : A -> ep B) : narrowing m -> (forall a, narrowing (k a)) -> narrowing (m ≫= k).
Proof.
  intros Hm Hk e. rewrite bind_unfold. specialize (Hm e). destruct (m e) as [[a| |] e1]; [|done..].
  etrans; [exact Hm|apply Hk].
Qed.

Lemma narrowing_pure {A} (m : ep A) : (forall e, (m e).2 = e) -> narrowing m.
Proof. intros Hm e. by rewrite Hm. Qed.

Lemma narrowing_for_each {X} (l : list X) (m : X -> ep unit) : (forall x, narrowing (m x)) -> narrowing (for_each l m).
Proof. intros Hm. induction l as [|x l IH]; [by intros e|]. by apply narrowing_bind. Qed.

Lemma narrows_fold {X} (f : EndpointState -> X -> EndpointState) l :
  (forall e x, narrows e (f e x)) -> forall e, narrows e (fold_left f l e).
Proof. intros Hf. induction l as [|x l IH]; intros e; [done|]. etrans; [apply Hf|apply IH]. Qed.

Lemma retire_stream_received id e : e_received_packets (Credit.try_retire_stream id e) = e_received_packets e.
Proof.
  unfold Credit.try_retire_stream. destruct (negb _); [done|]. cbv zeta. destruct (_ && _); [|done].
  unfold Credit.raise_max_streams_bidi. by repeat case_match.
Qed.

Lemma narrows_losses e i : narrows e (Ledger.detect_losses_on_path e i).
Proof.
  apply narrows_same. unfold Ledger.detect_losses_on_path.
  transitivity (e_received_packets (Ledger.detect_ack_losses i (get_path e i ≫= fun p => largest_acked_send_order (transport p)) e)).
  - unfold Ledger.detect_persistent_congestion. by repeat case_match.
  - unfold Ledger.detect_ack_losses. by repeat case_match.
Qed.

Lemma narrows_retired acked ingress e : narrows e (Ledger.retire_acked acked ingress e).2.
Proof.
  unfold Ledger.retire_acked. destruct (Ledger.slots_loop _ _ _) as [l r]. cbn [snd].
  etrans; [|apply narrows_fold; intros x st; apply narrows_same; unfold Ledger.acknowledge_path_status; by case_match].
  unfold Ledger.retire_received. case_match; [|by apply narrows_same].
  intros Hw. get_set. destruct (discard_below_exact (e_received_packets e)
    (Z.max (Z.max (Ledger.ar_floor r - ACK_RANGE_CAPACITY * 2) 0) (e_receive_packet_floor e))) as [Hw' Hc]; [lia|done|].
  split; [exact Hw'|]. intros pn Hpn. change (Ranges.contains (Ranges.discard_below (e_received_packets e)
    (Z.max (Z.max (Ledger.ar_floor r - ACK_RANGE_CAPACITY * 2) 0) (e_receive_packet_floor e))) pn = true) in Hpn.
  rewrite Hc in Hpn. by bools.
Qed.

Lemma rtt_received delay i o e : e_received_packets (Ledger.apply_rtt_sample delay i o e) = e_received_packets e.
Proof. unfold Ledger.apply_rtt_sample. by repeat case_match. Qed.

Lemma narrowing_ack acked delay ingress : narrowing (Ledger.apply_ack_ranges_on_path acked delay ingress).
Proof.
  intros e. unfold Ledger.apply_ack_ranges_on_path. destruct (_ =? 0); [done|]. cbv zeta.
  set (e1 := Credit.acknowledge_credit _ _). assert (narrows e e1) as Hn1.
  { apply narrows_same. unfold e1, Credit.acknowledge_credit, Credit.retire_publication. by repeat case_match. }
  clearbody e1. set (e2 := e1 <| e_largest_acked_by_peer := _ |>).
  assert (narrows e e2) as Hn2 by (etrans; [exact Hn1|apply narrows_same; reflexivity]). clearbody e2.
  pose proof (narrows_retired (Ranges.contains acked) ingress e2) as Hn3.
  destruct (Ledger.retire_acked _ _ _) as [r e3]. cbn [snd] in Hn3.
  assert (narrows e e3) as Hn4 by (by etrans). destruct (mark_batch _ _) as [buf| |]; [|done..]. cbn [snd].
  etrans; [exact Hn4|]. unfold Ledger.detect_all_losses. etrans; [|apply narrows_fold, narrows_losses].
  etrans; [|apply narrows_same, rtt_received].
  match goal with |- narrows _ (if _ then ?y <| e_paths ::= _ |> else ?y) => transitivity y end.
  2:{ apply narrows_same. by case_match. }
  etrans; [|apply narrows_fold; intros x f; by apply narrows_same, retire_stream_received]. by apply narrows_same.
Qed.

Lemma narrowing_credit_frame f : narrowing (Receive.receive_credit_frame f).
Proof.
  intros e. destruct f; cbn [Receive.receive_credit_frame]; try done; try by apply narrows_same.
  rewrite bind_gets. destruct (Conn.is_retired _ _); [done|]. unfold on_field_res.
  destruct (Send.extend_stream _ _ _); try done; by apply narrows_same.
Qed.

Lemma narrowing_walk {A} (step : Frame -> Z -> A -> ep A) input off acc :
  (forall f used a, narrowing (step f used a)) -> narrowing (Receive.walk step input off acc).
Proof.
  intros Hs. unfold Receive.walk. generalize (S (length input)) as fuel. intros fuel. revert off acc.
  induction fuel as [|fuel IH]; intros off acc; cbn [Receive.walk_frames]; [done|]. intros e. destruct (_ <=? _); [done|].
  revert e. apply narrowing_bind; [done|]. intros rest. apply narrowing_bind; [done|]. intros [f used].
  apply narrowing_bind; [done|]. intros _. apply narrowing_bind; [apply Hs|]. intros acc' e. apply IH.
Qed.

Lemma narrowing_control input ingress r : narrowing (Receive.apply_control input ingress r).
Proof.
  apply narrowing_bind.
  { intros e. destruct (pa_has_flow_control r); [|done]. revert e. unfold Receive.receive_flow_control_packet.
    apply narrowing_bind; [done|]. intros [h off]. apply narrowing_bind; [|done]. apply narrowing_walk.
    intros f _ _. apply narrowing_credit_frame. }
  intros _. apply narrowing_bind; [intros e; destruct (pa_has_ack r); [apply narrowing_ack|done]|]. intros _.
  apply narrowing_bind.
  { intros e. destruct (pa_ack_frequency r) as [[[[]]]|]; [|done]. apply narrows_same.
    unfold Ep.apply_ack_frequency. by repeat case_match. }
  intros _ e. apply narrows_same. unfold modify. cbn [snd]. by case_match.
Qed.

Lemma narrowing_parse input off : narrowing (Receive.parse_packet input off).
Proof.
  apply narrowing_bind.
  - apply narrowing_walk. intros f used r e. apply narrows_same.
    destruct f; cbn [Receive.parse_frame]; try (destruct (Receive.acknowledge_frame _ _ _));
      rewrite ?bind_refuse, ?bind_gets; by repeat case_match.
  - intros [r off'] e. rewrite !bind_refuse. by repeat case_match.
Qed.

Lemma narrowing_streams header ingress streams : narrowing (Receive.accept_streams header ingress true streams).
Proof.
  unfold Receive.accept_streams. apply narrowing_bind; [done|]. intros live. apply narrowing_bind.
  { apply narrowing_for_each. intros f e. unfold Receive.accept_stream, on_field.
    destruct (Conn.accept _ _ _ _ _) as [o c]. by apply narrows_same. }
  intros _. apply narrowing_bind.
  { intros e. apply narrows_fold. intros x f. case_match; [|done]. by apply narrows_same, retire_stream_received. }
  intros _. apply narrowing_bind; [done|]. intros _. apply narrowing_bind; [|done]. intros e. by apply narrows_same.
Qed.

Lemma narrowing_consumed id n : narrowing (Credit.stream_consumed_before_packet_ack id n).
Proof.
  unfold Credit.stream_consumed_before_packet_ack, Credit.stream_consumed_inner.
  apply narrowing_bind; [intros e; apply narrows_same; unfold on_field_res; by destruct (Conn.consume _ _ _)|].
  intros []. do 4 (apply narrowing_bind; [done|]; intros ?).
  apply narrowing_bind; [intros e; apply narrows_same; unfold modify; cbn [snd]; by case_match|]. intros _.
  do 2 (apply narrowing_bind; [done|]; intros ?). cbv zeta.
  apply narrowing_bind; [intros e; apply narrows_same; unfold modify; cbn [snd]; by case_match|]. intros _.
  do 2 (apply narrowing_bind; [done|]; intros []).
  apply narrowing_bind.
  { intros e. case_match; [|done]. apply narrows_same. unfold Credit.queue_stream_credit. by repeat case_match. }
  intros _ e. apply narrows_same. unfold modify. cbn [snd]. apply retire_stream_received.
Qed.

(** A new packet with streams, admitted without its acknowledgement. *)
Lemma admission_narrows input ingress e h n l :
  bytes_ok input -> decode_with_expected input (Ep.expected_packet_number e) = Ok (h, n) ->
  repeated (packet_number h) e = false -> frames_of (drop (Z.to_nat n) input) l -> omap stream_of l <> [] ->
  narrows e (Receive.receive_packet_before_stream_delivery input ingress e).2.
Proof.
  intros Hok Hh Hnew Hl Hs. unfold Receive.receive_packet_before_stream_delivery, Receive.receive_packet_batch_on_path_inner.
  destruct (expected_prefix _ _ _ _ Hh) as (p & Hpre & Hn). pose proof (prefix_len _ _ Hok Hpre) as Hlen.
  unfold repeated in Hnew. apply orb_false_iff in Hnew as [Hfloor Hdup].
  rewrite bind_gets, bind_refuse. destruct (_ <=? _)%nat; [done|]. rewrite bind_gets, bind_refuse. destruct (bool_decide _); [done|].
  rewrite bind_gets, bind_lift, Hh. rewrite bind_refuse. destruct (_ || _); [done|]. rewrite bind_gets, bind_gets_res.
  destruct (ok_or _ _) as [local| |]; [|done..]. rewrite bind_refuse. destruct (negb _); [done|]. rewrite bind_gets, Hfloor.
  rewrite bind_refuse. destruct (_ =? _); [done|]. rewrite bind_unfold.
  pose proof (narrowing_parse input n e) as Hpn. destruct (Receive.parse_packet input n e) as [[r| |] e1] eqn:Hp; [|exact Hpn..].
  destruct (parsed input n e r e1 Hok) as (-> & l' & Hl' & Hc & _); [lia|done|].
  rewrite (frames_of_unique _ _ _ Hl' Hl) in Hc.
  rewrite bind_unfold. pose proof (narrowing_control input ingress r e) as Hctl.
  destruct (Receive.apply_control input ingress r e) as [[[]| |] e1]; [|exact Hctl..]. cbn [snd] in Hctl.
  rewrite bind_modify, Hdup. etrans; [exact Hctl|]. rewrite (co_streams _ _ Hc).
  destruct (omap stream_of l) as [|f fs] eqn:Hst; [done|]. etrans; [|apply narrowing_streams]. by apply narrows_same.
Qed.
End received.

(** ** The handler's log *)
Definition call : Type := Z * Z * bool * bytes * option nat.

(** A handler that writes down what it is offered and what it accepts. *)
#[export] Instance logging {Hd} `{Application Hd} : Application (Hd * list call) := fun id offset fin data st =>
  let '(r, h) := handler id offset fin data st.1 in
  (r, (h, st.2 ++ [(id, offset, fin, data, match r with inl n => Some n | inr _ => None end)])).

(** A chunk marked as the last one of the stream was accepted in full. *)
Definition end_accepted (id : Z) (log : list call) : Prop :=
  exists offset data, (id, offset, true, data, Some (length data)) ∈ log.

(** Byte [p] of stream [id] is accepted, or held until it is. *)
Definition byte_settled (log : list call) (id p : Z) (c : CallbackStreams) : Prop :=
  end_accepted id log \/
  exists s, lookup_stream id (cs_streams c) = Some s /\
    (p < os_consumed s \/
     exists x, x ∈ os_retained s /\ rt_offset x <= p < rt_offset x + range_len (rt_from x) (rt_to x)).

Section mux.
Context `{Allocator, PacketSize, Features} {Hd : Type} `{Application Hd}.
Abbreviation state := (Hd * list call)%type.

Definition sink_ended (id : Z) (ev : state * Z) : Prop := end_accepted id ev.1.2.

Lemma end_later id log log' : end_accepted id log -> end_accepted id (log ++ log').
Proof. intros (o & d & Hin). exists o, d. apply elem_of_app. by left. Qed.

#[local] Instance sink_remembers : Remembers (Er := Error.t) sink_ended.
Proof.
  split; [| |intros id ev id' He; exact He|intros id code ev id' He; exact He].
  - intros id offset fin data [[h log] n] id' He. cbn [on_stream_chunk ApplicationStreamSink fst snd]. unfold handler at 1, logging.
    destruct (handler id offset fin data _) as [[k|e] h']; cbn [fst snd]; [destruct (_ <? _)|]; by apply end_later.
  - intros id offset data [[h log] n] ev'. cbn [on_stream_chunk ApplicationStreamSink fst snd]. unfold handler at 1, logging.
    destruct (handler id offset true data _) as [[k|e] h']; cbn [fst snd]; [|done]. destruct (_ <? _); [done|].
    intros [= -> <-]. exists offset, data. apply elem_of_app. right. by left.
Qed.

Abbreviation steps_to := (advances sink_ended).
Definition moves (x y : StreamMux * state) : Prop :=
  steps_to (mx_ordered x.1, (x.2, 0)) (mx_ordered y.1, (y.2, 0)) /\ narrows (mx_endpoint x.1) (mx_endpoint y.1).
#[local] Instance moves_pre : PreOrder moves.
Proof.
  split; [intros x; by split|]. intros x y z [? ?] [? ?]. split; by etrans.
Qed.

(** A frame that was delivered is settled, and so are the ones before it. *)
Lemma deliver_frame_moves retain f m (h : state) :
  quiet (mx_ordered m) ->
  let r := Mux.deliver_frame retain f m h in
  moves (m, h) r.2 /\
  (r.1 = Ok true -> s_offset f + zlen (s_data f) <= U64_MAX /\
     forall p, s_offset f <= p < s_offset f + zlen (s_data f) -> byte_settled r.2.2.2 (s_id f) p (mx_ordered r.2.1)).
Proof.
  intros Hq. unfold Mux.deliver_frame.
  destruct (receive_range_carried (Er := Error.t) sink_ended (retain (s_data f)) 0 (s_id f) (s_data f) (s_offset f) (s_fin f) 0
    (mx_ordered m) (h, 0) Hq) as [Ha Hs].
  unfold Streams.try_receive_copying_borrowed.
  destruct (Streams.receive_range 0 _ _ _ _ _ _ _ _) as [o [c [h' n]]]. cbn [fst snd] in *.
  set (m1 := m <| mx_ordered := c |>). assert (moves (m, h) (m1, h')) as Hm by (split; [exact Ha|done]).
  assert (forall e', narrows (mx_endpoint m1) e' ->
    moves (m, h) (m1 <| mx_endpoint := e' |>, h')) as Hm' by (intros e' He; etrans; [exact Hm|by split]).
  assert (Mux.delivery_result o = Ok true -> s_offset f + zlen (s_data f) <= U64_MAX /\
    forall p, s_offset f <= p < s_offset f + zlen (s_data f) -> byte_settled h'.2 (s_id f) p c) as Hres.
  { intros Hr. apply Hs. destruct o as [|[[]|]|]; try done. }
  destruct o as [u|e|]; [| |by split]; (destruct (n =? 0); [by split|]);
    unfold Mux.packet_method, Mux.on_endpoint; pose proof (narrowing_consumed (s_id f) n (mx_endpoint m1)) as Hn;
    destruct (Credit.stream_consumed_before_packet_ack _ _ _) as [[a| |] e']; cbn [fst snd] in *; (split; [by apply Hm'|done || exact Hres]).
Qed.

Lemma deliver_frames_moves retain frames : forall m (h : state),
  quiet (mx_ordered m) ->
  let r := Mux.deliver_frames retain frames m h in
  moves (m, h) r.2 /\
  (r.1 = Ok true -> Forall (fun f => forall p, s_offset f <= p < s_offset f + zlen (s_data f) ->
     byte_settled r.2.2.2 (s_id f) p (mx_ordered r.2.1)) frames).
Proof.
  induction frames as [|f frames IH]; intros m h Hq; cbn [Mux.deliver_frames]; [by split; [|constructor]|].
  destruct (deliver_frame_moves retain f m h Hq) as [Hm Hs].
  destruct (Mux.deliver_frame retain f m h) as [[[]| |] [m' h']]; cbn [fst snd] in *; [|by split..].
  destruct (Hs eq_refl) as [Hb Hsettled]. assert (quiet (mx_ordered m')) as Hq' by (by apply Hm).
  destruct (IH m' h' Hq') as [Hm' Hs']. split; [by etrans|]. intros Hr. constructor; [|by apply Hs'].
  destruct Hm' as [Hadv _]. intros p Hp. apply (advances_range _ _ _ _ _ _ Hb Hadv Hsettled p Hp).
Qed.

(** ** The frames of the packet *)
Definition incomplete (e : EndpointState) (f : StreamFrame) : bool := negb (Mux.stream_delivery_complete e (s_id f)).

Lemma collect_spec e input : bytes_ok input -> forall l fuel off has acc,
  0 <= off <= zlen input -> zlen input - off < Z.of_nat fuel -> frames_of (drop (Z.to_nat off) input) l ->
  Mux.collect_frames fuel e input off has acc =
  Ok (has || bool_decide (omap stream_of l <> []), acc ++ List.filter (incomplete e) (omap stream_of l)).
Proof.
  intros Hok. induction l as [|f l IH]; intros fuel off has acc Hoff Hfuel Hl; (destruct fuel as [|fuel]; [lia|]);
    cbn [Mux.collect_frames].
  - inversion Hl as [Hn|]. assert (zlen input = off) as <-.
    { symmetry in Hn. apply (f_equal zlen) in Hn. rewrite zlen_drop, zlen_nil in Hn by lia. lia. }
    rewrite Z.leb_refl. cbn. by rewrite orb_false_r, app_nil_r.
  - inversion Hl as [|? ? used ? Hdec Hrest]; subst.
    destruct (packet_step input off Hok Hoff) as [[_ Hn]|(-> & -> & _ & Hs)].
    { rewrite Hn in Hdec. done. }
    cbn [mbind outcome_bind]. destruct Hs as [[err He]|(g & u & Hdec' & Hu' & Hle & Hdr)]; [by rewrite Hdec in He|].
    rewrite Hdec' in Hdec. injection Hdec as -> ->. rewrite Hdec'. cbn [mbind outcome_bind]. rewrite Hdr in Hrest.
    destruct (stream_of f) as [s|] eqn:Hf.
    + destruct f; try done. injection Hf as ->. rewrite IH by (done || lia). csimpl.
      rewrite orb_true_r. unfold incomplete at 2.
      destruct (Mux.stream_delivery_complete _ _); cbn [negb]; [done|]. by rewrite <- app_assoc.
    + csimpl. rewrite Hf. destruct f; try done; by rewrite IH by (done || lia).
Qed.

(** Packet numbers that are not recorded as received. *)
Definition unrecorded (pn : Z) (e : EndpointState) : Prop := Ranges.contains (e_received_packets e) pn = false.

Lemma narrows_unrecorded pn e e' : narrows e e' -> wf (e_received_packets e) -> unrecorded pn e -> unrecorded pn e'.
Proof.
  intros Hn Hw Hu. destruct (Hn Hw) as [_ Hc]. unfold unrecorded in *.
  destruct (Ranges.contains (e_received_packets e') pn) eqn:He; [|done]. by rewrite (Hc _ He) in Hu.
Qed.

(** Delivery of the frames of an admitted packet. *)
Lemma packet_delivery retain input ingress m (h : state) hd n l frames :
  bytes_ok input -> decode_with_expected input (Ep.expected_packet_number (mx_endpoint m)) = Ok (hd, n) ->
  repeated (packet_number hd) (mx_endpoint m) = false -> frames_of (drop (Z.to_nat n) input) l -> omap stream_of l <> [] ->
  quiet (mx_ordered m) -> wf (e_received_packets (mx_endpoint m)) ->
  let r := Mux.packet_method (Receive.receive_packet_before_stream_delivery input ingress) m h (fun _ m =>
             Mux.deliver_frames retain frames m h) in
  quiet (mx_ordered r.2.1) /\ unrecorded (packet_number hd) (mx_endpoint r.2.1) /\
  (r.1 = Ok true -> Forall (fun f => forall p, s_offset f <= p < s_offset f + zlen (s_data f) ->
     byte_settled r.2.2.2 (s_id f) p (mx_ordered r.2.1)) frames).
Proof.
  intros Hok Hh Hnew Hl Hs Hq Hw. unfold Mux.packet_method, Mux.on_endpoint.
  pose proof (admission_narrows input ingress (mx_endpoint m) hd n l Hok Hh Hnew Hl Hs) as Hadm.
  assert (unrecorded (packet_number hd) (mx_endpoint m)) as Hun by (unfold repeated in Hnew; by apply orb_false_iff in Hnew as [_ ?]).
  destruct (Receive.receive_packet_before_stream_delivery input ingress (mx_endpoint m)) as [[t| |] e]; cbn [fst snd] in *;
    [|split; [exact Hq|split; [by eapply narrows_unrecorded|done]]..].
  set (m1 := m <| mx_endpoint := e |>).
  destruct (deliver_frames_moves retain frames m1 h Hq) as [[(_ & Hq' & _) Hn] Hset]. split; [exact (Hq' Hq)|]. split; [|exact Hset]. apply (narrows_unrecorded _ (mx_endpoint m)); [by etrans|done..].
Qed.
End mux.

(** ** The states of a multiplexer

    Whatever its endpoint is used for besides, and whoever handles its streams. *)
Section reachable.
Context `{Allocator, PacketSize, Features}.

Inductive mux_reachable : StreamMux -> Prop :=
  | reach_new e ms mb : mux_reachable (mkStreamMux e (Streams.new ms mb))
  | reach_endpoint m e : mux_reachable m -> mux_reachable (m <| mx_endpoint := e |>)
  | reach_limits m ms mb : mux_reachable m -> mux_reachable (Mux.set_delivery_limits ms mb m)
  | reach_receive Hd (A : Application Hd) m (h : Hd) input ingress retain :
      mux_reachable m ->
      mux_reachable (Mux.receive_stream_events_with_retention input ingress retain m h).2.1
  | reach_resume Hd (A : Application Hd) m (h : Hd) id :
      mux_reachable m -> mux_reachable (Mux.resume_stream_events id m h).2.1.

Section handlers.
Context {Hd : Type} `{Application Hd}.

#[local] Instance sink_forgets : Remembers (Er := Error.t) (fun _ (_ : Hd * Z) => True).
Proof. by split. Qed.

Lemma packet_method_ordered {A B} (f : ep A) m (h : Hd) k :
  (forall a e, mx_ordered (k a (m <| mx_endpoint := e |>)).2.1 = mx_ordered m) ->
  mx_ordered (Mux.packet_method (B := B) f m h k).2.1 = mx_ordered m.
Proof. intros Hk. unfold Mux.packet_method, Mux.on_endpoint. by destruct (f (mx_endpoint m)) as [[a| |] e]. Qed.

Lemma deliver_frame_quiet retain f m (h : Hd) : quiet (mx_ordered m) -> quiet (mx_ordered (Mux.deliver_frame retain f m h).2.1).
Proof.
  intros Hq. unfold Mux.deliver_frame, Streams.try_receive_copying_borrowed.
  destruct (receive_range_carried (Er := Error.t) (fun _ _ => True) (retain (s_data f)) 0 (s_id f) (s_data f) (s_offset f) (s_fin f) 0
    (mx_ordered m) (h, 0) Hq) as [(_ & Ha & _) _].
  destruct (Streams.receive_range 0 _ _ _ _ _ _ _ _) as [o [c [h' n]]]. cbn [fst snd] in *.
  destruct o; [| |by apply Ha]; (destruct (n =? 0); [by apply Ha|]);
    rewrite packet_method_ordered by done; by apply Ha.
Qed.

Lemma deliver_frames_quiet retain frames : forall m (h : Hd),
  quiet (mx_ordered m) -> quiet (mx_ordered (Mux.deliver_frames retain frames m h).2.1).
Proof.
  induction frames as [|f frames IH]; intros m h Hq; cbn [Mux.deliver_frames]; [done|].
  pose proof (deliver_frame_quiet retain f m h Hq) as Hq'.
  destruct (Mux.deliver_frame retain f m h) as [[[]| |] [m' h']]; cbn [fst snd] in *; try done. by apply IH.
Qed.

Lemma receive_quiet input ingress retain m (h : Hd) :
  quiet (mx_ordered m) -> quiet (mx_ordered (Mux.receive_stream_events_with_retention input ingress retain m h).2.1).
Proof.
  intros Hq. unfold Mux.receive_stream_events_with_retention. cbv zeta.
  destruct (decode_with_expected _ _) as [[hd n]| |]; [|done..]. destruct (_ <? _); [by rewrite packet_method_ordered|].
  destruct (Mux.collect_frames _ _ _ _ _ _) as [[[] frames]| |]; [|by rewrite packet_method_ordered|done..].
  destruct (Mux.preflight _ _ _) as [[]| |]; [|done..].
  unfold Mux.packet_method, Mux.on_endpoint.
  destruct (Receive.receive_packet_before_stream_delivery input ingress (mx_endpoint m)) as [[t| |] e]; [|exact Hq..].
  set (m1 := m <| mx_endpoint := e |>). pose proof (deliver_frames_quiet retain frames m1 h Hq) as Hq'.
  destruct (Mux.deliver_frames _ _ _ _) as [[[]| |] [m' h']]; cbn [fst snd] in *; try done. by destruct (_ && _).
Qed.

Lemma resume_quiet id m (h : Hd) : quiet (mx_ordered m) -> quiet (mx_ordered (Mux.resume_stream_events id m h).2.1).
Proof.
  intros Hq. unfold Mux.resume_stream_events.
  destruct (resume_advances (Er := Error.t) (fun _ _ => True) id (mx_ordered m) (h, 0)) as (_ & Ha & _).
  destruct (Streams.resume_copying _ _ _) as [o [c [h' n]]]. cbn [fst snd] in *.
  destruct o as [k|[]|]; [|by apply Ha..]. destruct (n =? 0); [by apply Ha|]. rewrite packet_method_ordered by done. by apply Ha.
Qed.
End handlers.

Lemma reachable_quiet m : mux_reachable m -> quiet (mx_ordered m).
Proof.
  induction 1 as [e ms mb|m e _ IH|m ms mb _ IH|Hd A m h input ingress retain _ IH|Hd A m h id _ IH].
  - constructor.
  - exact IH.
  - exact IH.
  - by apply receive_quiet.
  - by apply resume_quiet.
Qed.

(** C3: Bytes are acknowledged only when they are safe.  After a packet with a
    new number has gone through the multiplexer, the number is recorded as
    received, and so acknowledged, only if every byte of its STREAM frames was
    accepted by the application, or is held in a retained range of its stream,
    or belongs to a stream whose last chunk was accepted; streams that were
    already complete are left out.  This holds whatever the application
    answers, whatever storage is refused and wherever the processing stops. *)
Theorem acknowledged_when_safe {Hd} `{Application Hd} m (h : Hd) input ingress r m' h' log hd n l f p :
  mux_reachable m -> wf (e_received_packets (mx_endpoint m)) -> bytes_ok input ->
  decode_with_expected input (Ep.expected_packet_number (mx_endpoint m)) = Ok (hd, n) ->
  frames_of (drop (Z.to_nat n) input) l -> repeated (packet_number hd) (mx_endpoint m) = false ->
  Mux.receive_stream_events_on_path input ingress m (h, []) = (r, (m', (h', log))) ->
  Ranges.contains (e_received_packets (mx_endpoint m')) (packet_number hd) = true ->
  Stream f ∈ l -> Mux.stream_delivery_complete (mx_endpoint m) (s_id f) = false ->
  s_offset f <= p < s_offset f + zlen (s_data f) ->
  byte_settled log (s_id f) p (mx_ordered m').
Proof.
  intros Hreach Hw Hok Hh Hl Hnew Hrun Hack Hf Hopen Hp. apply reachable_quiet in Hreach as Hq.
  assert (unrecorded (packet_number hd) (mx_endpoint m)) as Hun by (unfold repeated in Hnew; by apply orb_false_iff in Hnew as [_ ?]).
  assert (f ∈ omap stream_of l) as Hin by (apply list_elem_of_omap; by exists (Stream f)).
  assert (omap stream_of l <> []) as Hs by (intros He; rewrite He in Hin; by apply not_elem_of_nil in Hin).
  destruct (expected_prefix _ _ _ _ Hh) as (pf & Hpre & Hn). pose proof (prefix_len _ _ Hok Hpre) as Hlen.
  unfold Mux.receive_stream_events_on_path, Mux.receive_stream_events_with_retention in Hrun. cbv zeta in Hrun. rewrite Hh in Hrun.
  unfold repeated in Hnew. assert (Hnew' := Hnew). apply orb_false_iff in Hnew' as [Hfloor _]. rewrite Hfloor in Hrun.
  rewrite (collect_spec (mx_endpoint m) input Hok l) in Hrun; [|lia|unfold zlen; lia|done].
  rewrite (bool_decide_eq_true_2 (omap stream_of l <> [])) in Hrun by done. cbn [orb app] in Hrun.
  set (frames := List.filter _ _) in Hrun. assert (f ∈ frames) as Hff.
  { apply list_elem_of_In, filter_In. split; [by apply list_elem_of_In|]. unfold incomplete. by rewrite Hopen. }
  destruct (Mux.preflight _ _ _) as [[]| |]; [|injection Hrun as _ <- _ _; unfold unrecorded in Hun; congruence..].
  pose proof (packet_delivery Mux.retain_stream_bytes input ingress m (h, []) hd n l frames Hok Hh Hnew Hl Hs Hq Hw) as Hpd.
  unfold Mux.packet_method in Hrun, Hpd. destruct (Mux.on_endpoint _ m) as [[t| |] m1]; cbn [fst snd] in *.
  2,3: destruct Hpd as (_ & Hu & _); injection Hrun as _ <- _ _; unfold unrecorded in Hu; congruence.
  destruct (Mux.deliver_frames _ _ _ _) as [[[]| |] [m2 h2]]; cbn [fst snd] in *.
  2,3,4: destruct Hpd as (_ & Hu & _); injection Hrun as _ <- _; unfold unrecorded in Hu; congruence.
  destruct Hpd as (_ & _ & Hset). specialize (Hset eq_refl). rewrite Forall_forall in Hset. specialize (Hset f Hff p Hp).
  destruct (_ && _); injection Hrun as _ <- ->; exact Hset.
Qed.
End reachable.
