(* ===== verification/MuxExamples.v ===== *)
(** * Packets through a multiplexer

    Concrete packets for the server of [ReceiveEffects.v]: the witness of the
    theorem of [MuxSpec.v], on a packet whose second frame leaves a gap, and a
    packet that shows what two frames of one stream can do. *)

From S2P Require Import Prelude Records Methods Wire PacketHeader Keyed AckRanges Reader Frames FlowControl Congestion PathState SendBuffer Endpoint Credit Ledger Transmit Retransmit Publication Flight Conservation LedgerSteps Receive ReceiveLoop ReceiveEffects SortedKeys Callback Mux MuxSpec.

#[local] Instance plenty : Allocator := {| try_reserve := fun _ => true |}.
#[local] Instance big_packets : PacketSize := {| packet_size := 1200 |}.
#[local] Instance no_protection : Features := {| packet_protection := false |}.

(** A handler that takes everything. *)
#[local] Instance greedy : Application unit := fun _ _ _ data h => (inl (length data), h).

Definition stream_frame (offset : Z) (fin : bool) (data : bytes) : Frame := Stream (mkStreamFrame 4 offset fin data).
Definition frame_bytes (f : Frame) : bytes := match encode f 100 with Ok b => b | _ => [] end.
Definition packet_of (l : list Frame) : bytes := take (Z.to_nat header_one.2) packet_one ++ concat (frame_bytes <$> l).

Definition receiver : StreamMux := mkStreamMux server (Streams.new 4 1000).
Definition run (l : list Frame) : outcome StreamDeliveryError.t unit * (StreamMux * (unit * list call)) :=
  Mux.receive_stream_events_on_path (packet_of l) 0 receiver (tt, []).

(** Bytes 0 to 2 arrive, and bytes 5 to 7; 3 and 4 are missing. *)
Definition gap : list Frame := [stream_frame 0 false [1; 2; 3]; stream_frame 5 false [6; 7; 8]].

Lemma gap_frames : frames_of (drop (Z.to_nat header_one.2) (packet_of gap)) gap.
Proof.
  apply (frames_of_cons _ (stream_frame 0 false [1; 2; 3]) 7); [by vm_compute|].
  apply (frames_of_cons _ (stream_frame 5 false [6; 7; 8]) 7); [by vm_compute|]. apply frames_of_nil.
Qed.

Lemma acknowledged_when_safe_witness :
  byte_settled (run gap).2.2.2 4 6 (mx_ordered (run gap).2.1) /\
  (run gap).2.2.2 = [(4, 0, false, [1; 2; 3], Some 3%nat)].
Proof.
  split; [|by vm_compute].
  apply (acknowledged_when_safe receiver tt (packet_of gap) 0 (run gap).1 (run gap).2.1 (run gap).2.2.1 (run gap).2.2.2
    header_one.1 header_one.2 gap (mkStreamFrame 4 5 false [6; 7; 8]) 6).
  - exact (reach_new server 4 1000).
  - exact wf_nil.
  - apply bytes_ok_bool. by vm_compute.
  - by vm_compute.
  - apply gap_frames.
  - by vm_compute.
  - unfold run. destruct (Mux.receive_stream_events_on_path _ _ _ _) as [r [m' [h' log]]]. done.
  - by vm_compute.
  - right. by left.
  - by vm_compute.
  - cbn [s_offset s_data]. unfold zlen. simpl. lia.
Defined.

(** A stream that ends within a packet is forgotten at once, and the frames that
    follow it in the packet were chosen before: a second copy of its last frame
    starts the stream anew, so the application is given it twice, and consumption
    is reported twice. *)
Lemma repeated_frame_delivered_twice :
  let '(r, (m, (_, log))) := run [stream_frame 0 true [1; 2; 3]; stream_frame 0 true [1; 2; 3]] in
  r = Ok tt /\
  log = [(4, 0, true, [1; 2; 3], Some 3%nat); (4, 0, true, [1; 2; 3], Some 3%nat)] /\
  received_data (e_receive (mx_endpoint m)) = 3 /\ fc_consumed (connection (e_receive (mx_endpoint m))) = 6.
Proof. by vm_compute. Qed.

(** An empty copy that follows leaves a stream that nothing will ever finish. *)
Lemma finished_stream_reopened :
  let '(r, (m, _)) := run [stream_frame 0 true [1; 2; 3]; stream_frame 0 false []] in
  r = Ok tt /\ Mux.stream_delivery_complete (mx_endpoint m) 4 = true /\
  (os_id <$> cs_streams (mx_ordered m)) = [4].
Proof. by vm_compute. Qed.
