(* ===== verification/Association.v ===== *)
(** * Associations

    [src/crates/quic-lite/src/connection.rs]: the two ends of a connection over
    the endpoint.  [ServerStreamConnection] is created by an OPEN and answers it
    with OPEN_ACK, [ClientConnection] sends the OPEN and is completed by the
    answer, [ClientAssociation] adds the numbering of client streams, and
    [classify_server_packet] tells a shared listener what a packet is.  A
    method that works on the endpoint lifts the endpoint's method; the output
    buffers have the packet size.  The theorems are in [AssociationSpec.v]. *)

From S2P Require Import Prelude Records Methods Wire PacketHeader AckRanges Reader Frames FlowControl Congestion PathState SendBuffer Bootstrap Endpoint Credit Ledger Transmit Retransmit Receive SetupCodec Callback Mux StatelessReset.

Definition FIRST_SERVER_BIDI_STREAM_ID : Z := 1.
Definition DEFAULT_STREAM_STATE_LIMIT : Z := 32.
Definition DEFAULT_INITIAL_PTO_US : Z := 250000.

#[export] Instance ReceiveWindowRequest_eq_dec : EqDecision ReceiveWindowRequest.
Proof. solve_decision. Defined.
#[export] Instance BootstrapOpen_eq_dec : EqDecision BootstrapOpen.
Proof. solve_decision. Defined.

(** [AssociationLimits] of [node.rs] *)
Record AssociationLimits : Type := mkAssociationLimits {
  al_connection : ConnectionLimits;
  al_history_packets : nat;
  al_transmission_records : nat;
  al_max_pending_streams : Z;
  al_max_queued_chunks_per_stream : Z;
  al_max_buffered_stream_bytes : Z;
  al_duplication_budget_bytes : Z;
  al_path_probe_interval_us : Z;
  al_path_estimator : PathEstimatorConfig;
  al_pacing : PacingConfig;
}.

Definition pacing_embedded : PacingConfig := mkPacingConfig true 4 (DEFAULT_MAX_PACKET_SIZE * 4).

Definition association_limits_host : AssociationLimits :=
  mkAssociationLimits (Limits.with_receive_profile (16 * 1024 * 1024) (4 * 1024 * 1024) 256) 128 256 256 64
    (16 * 1024 * 1024) (64 * 1024) 5000000 default_config pacing_host.

Definition association_limits_embedded : AssociationLimits :=
  mkAssociationLimits (Limits.with_receive_profile (32 * 1024) (8 * 1024) 4) 6 12 4 2
    (32 * 1024) 1024 5000000 default_config pacing_embedded.

Record ServerStreamConnection : Type := mkServerStreamConnection {
  sv_mux : StreamMux;
  sv_local_limits : ConnectionLimits;
  sv_local_max_in_flight_packets : Z;
  sv_peer_open : BootstrapOpen;
  sv_stateless_reset_token : option bytes;
  sv_next_response_stream : Z;
}.
#[export] Instance eta_ServerStreamConnection : Eta ServerStreamConnection := ltac:(mk_eta).
#[export] Instance set_sv_mux : Setter sv_mux := ltac:(mk_setter).
#[export] Instance set_sv_local_max_in_flight_packets : Setter sv_local_max_in_flight_packets := ltac:(mk_setter).
#[export] Instance set_sv_next_response_stream : Setter sv_next_response_stream := ltac:(mk_setter).

Record ServerStreamConfig : Type := mkServerStreamConfig {
  sc_history_packets : nat;
  sc_transmission_records : nat;
  sc_max_pending_streams : Z;
  sc_max_stream_bytes : Z;
}.
Definition server_config_default : ServerStreamConfig := mkServerStreamConfig 0 0 DEFAULT_STREAM_STATE_LIMIT 4096.

(** [history_packets.saturating_mul(2)] *)
Definition twice (n : nat) : nat := Z.to_nat (sat_mul (Z.of_nat n) 2).

Definition records_or_twice (transmission_records history_packets : nat) : nat :=
  if (transmission_records =? 0)%nat then twice history_packets else transmission_records.

Definition set_peer_datagram_limit (size : Z) (e : EndpointState) : EndpointState :=
  e <| e_peer_max_datagram_frame_size := size |>.

Module Server.
Section server.
Context `{Allocator, PacketSize, Features}.

(** A method of [self.mux], of [self.mux.endpoint], and an infallible one. *)
Definition on_mux {A} (f : StreamMux -> res A * StreamMux) : method ServerStreamConnection A := on_field sv_mux f.
Definition on_ep {A} (f : ep A) : method ServerStreamConnection A := on_mux (Mux.on_endpoint f).
Definition upd_ep (f : EndpointState -> EndpointState) : method ServerStreamConnection unit := on_ep (modify f).
Definition endpoint (s : ServerStreamConnection) : EndpointState := mx_endpoint (sv_mux s).

Definition encode_open_ack_into (client_cid server_cid : Z) (local_limits : ConnectionLimits) (max_in_flight_packets : Z)
    (token : option bytes) (cap : Z) : res bytes :=
  encode_bootstrap_open_ack_packet client_cid server_cid 0 local_limits max_in_flight_packets token cap.

Definition finish_open (bootstrap_packet_number : Z) (open : BootstrapOpen) (server_cid : Z) : ep unit :=
  _ ← Ep.install_connection_ids server_cid (client_receive_cid open);
  _ ← Ep.set_initial_peer_budget (bo_max_data open) (bo_max_stream_data open) (bo_max_in_flight_packets open);
  _ ← modify (set_peer_datagram_limit (bo_max_datagram_frame_size open));
  Ep.continue_packet_numbers_from (Z.min (bootstrap_packet_number + 1) U32_MAX).

(** The connection is built in its allocation; an error drops it. *)
Definition accept_open_boxed_with_config_into (packet : bytes) (server_cid : Z) (local_limits : ConnectionLimits)
    (config : ServerStreamConfig) (token : option bytes) : res (ServerStreamConnection * bytes) :=
  '(bootstrap_header, open) ← decode_bootstrap_open_packet packet;
  let local_limits := Limits.clamped_to_request local_limits (bo_requested_peer_limits open) in
  let history_packets := Nat.max (sc_history_packets config) 1 in
  if negb (try_reserve 0) then Err Error.OutOfMemory else
  let mux := Mux.new_with_history_capacity Server local_limits packet_size (sc_max_pending_streams config)
               (retention_for_receive_window local_limits (sc_max_stream_bytes config)) history_packets in
  match (_ ← Ep.set_transmission_capacity (records_or_twice (sc_transmission_records config) history_packets);
         finish_open (packet_number bootstrap_header) open server_cid) (mx_endpoint mux) with
  | (Ok _, e) =>
      used ← encode_open_ack_into (client_receive_cid open) server_cid local_limits 0 token packet_size;
      Ok (mkServerStreamConnection (mux <| mx_endpoint := e |>) local_limits 0 open token FIRST_SERVER_BIDI_STREAM_ID, used)
  | (Err err, _) => Err err
  | (Panic, _) => Panic
  end.

Definition accept_open_with_config_into : bytes -> Z -> ConnectionLimits -> ServerStreamConfig -> option bytes ->
    res (ServerStreamConnection * bytes) := accept_open_boxed_with_config_into.

Definition accept_open_with_limits_and_reset_token_into (packet : bytes) (server_cid : Z) (local_limits : ConnectionLimits)
    (token : option bytes) : res (ServerStreamConnection * bytes) :=
  accept_open_with_config_into packet server_cid local_limits server_config_default token.

(** *** Replays *)
Definition peer_receive_cid (s : ServerStreamConnection) : Z := client_receive_cid (sv_peer_open s).
Definition accepts_replayed_open (open : BootstrapOpen) (s : ServerStreamConnection) : bool := bool_decide (sv_peer_open s = open).
Definition is_peer_stateless_reset (input : bytes) (s : ServerStreamConnection) : bool :=
  match bo_stateless_reset_token (sv_peer_open s) with Some token => matches_packet token input | None => false end.

Definition replay_open_ack_into (packet : bytes) (s : ServerStreamConnection) : res bytes :=
  '(_, open) ← decode_bootstrap_open_packet packet;
  if negb (bool_decide (open = sv_peer_open s)) then Err Error.BootstrapInvalid else
  local_cid ← ok_or (e_local_cid (endpoint s)) Error.WrongConnectionId;
  encode_open_ack_into (client_receive_cid open) local_cid (sv_local_limits s) (sv_local_max_in_flight_packets s)
    (sv_stateless_reset_token s) packet_size.

(** *** Configuration *)
Definition set_runtime_limits (l : AssociationLimits) : method ServerStreamConnection unit :=
  _ ← on_ep (Credit.set_receive_growth_limits (al_connection l));
  _ ← on_ep (Ep.set_history_capacity (al_history_packets l));
  _ ← on_ep (Ep.set_transmission_capacity (al_transmission_records l));
  _ ← upd_ep (Ep.set_duplication_budget_capacity (al_duplication_budget_bytes l));
  _ ← on_ep (Ep.set_path_estimator_config (al_path_estimator l));
  _ ← on_ep (Ep.set_pacing_config (al_pacing l));
  modify (fun s => s <| sv_mux ::= Mux.set_delivery_limits (al_max_pending_streams l) (al_max_buffered_stream_bytes l) |>).

Definition set_window (initial_window_bytes : Z) (p : PathState) : PathState :=
  p <| transport ::= fun t => t <| congestion ::= fun c =>
         mkCC (max_packet_size c) initial_window_bytes U64_MAX (bytes_in_flight c) (recovery_start_packet c) |> |>.

Definition configure_transport (history_packets transmission_records : nat) (initial_window_bytes ack_frequency ack_delay : Z)
    : method ServerStreamConnection unit :=
  _ ← on_ep (Ep.set_history_capacity history_packets);
  _ ← on_ep (Ep.set_transmission_capacity transmission_records);
  _ ← upd_ep (upd_path 0 (set_window initial_window_bytes));
  _ ← upd_ep (Ep.set_ack_policy ack_frequency (sat_mul ack_delay 1000));
  modify (fun s => s <| sv_local_max_in_flight_packets := 0 |>).

Definition request_ack_frequency (sequence packet_tolerance max_ack_delay_us reorder_threshold : Z)
    : method ServerStreamConnection unit :=
  on_ep (Ep.request_ack_frequency sequence packet_tolerance max_ack_delay_us reorder_threshold).

(** *** Streams *)
Definition reserve_response_stream : method ServerStreamConnection Z := fun s =>
  (Ok (sv_next_response_stream s), s <| sv_next_response_stream ::= fun n => sat_add n 4 |>).

Definition open_response_stream : method ServerStreamConnection Z :=
  stream ← reserve_response_stream;
  _ ← on_ep (Ep.open_send_stream stream U64_MAX);
  mret stream.

Definition prepare_peer_bidi_response (stream_id : Z) : method ServerStreamConnection unit :=
  on_ep (Ep.open_send_stream stream_id U64_MAX).

Definition available_stream_send_bytes (stream_id offset : Z) (s : ServerStreamConnection) : option Z :=
  Send.available (e_send (endpoint s)) stream_id offset.

Definition receive_stream_events_on_path {Hd} `{Application Hd} (packet : bytes) (ingress : nat) (s : ServerStreamConnection)
    (h : Hd) : outcome StreamDeliveryError.t unit * (ServerStreamConnection * Hd) :=
  let '(o, (mux, h)) := Mux.receive_stream_events_on_path packet ingress (sv_mux s) h in (o, (s <| sv_mux := mux |>, h)).

Definition receive_stream_events {Hd} `{Application Hd} (packet : bytes) :
    ServerStreamConnection -> Hd -> outcome StreamDeliveryError.t unit * (ServerStreamConnection * Hd) :=
  receive_stream_events_on_path packet 0.

Definition resume_stream_events {Hd} `{Application Hd} (stream_id : Z) (s : ServerStreamConnection) (h : Hd)
    : outcome StreamDeliveryError.t Z * (ServerStreamConnection * Hd) :=
  let '(o, (mux, h)) := Mux.resume_stream_events stream_id (sv_mux s) h in (o, (s <| sv_mux := mux |>, h)).

(** The packet is its bytes; its number is dropped. *)
Definition encode_stream_payload_at_on_path (i : nat) (stream_id offset : Z) (data : bytes) (fin : bool) (cap : Z)
    : method ServerStreamConnection bytes :=
  '(packet, _) ← on_mux (Mux.encode_response_at_on_path i stream_id offset data fin cap); mret packet.

Definition encode_stream_payload_at : Z -> Z -> bytes -> bool -> Z -> method ServerStreamConnection bytes :=
  encode_stream_payload_at_on_path 0.

Definition encode_stream_payload_from_owned_at_on_path (i : nat) (stream_id offset : Z) (fin : bool) (packet : bytes) (cap : Z)
    : method ServerStreamConnection bytes :=
  '(packet, _) ← on_mux (Mux.encode_response_from_owned_at_on_path i stream_id offset fin packet cap); mret packet.

(** *** Transmission *)
Definition poll_transmit_on_path (i : nat) (cap : Z) : method ServerStreamConnection (option bytes) :=
  on_ep (Credit.poll_transmit_on_path i cap).
Definition poll_transmit (cap : Z) : method ServerStreamConnection (option bytes) := poll_transmit_on_path 0 cap.
Definition set_time (now : Z) : method ServerStreamConnection unit := upd_ep (Ep.set_time now).
Definition close (code : Z) : method ServerStreamConnection unit := upd_ep (Ep.close code).
Definition poll_close (cap : Z) : method ServerStreamConnection (option bytes) := on_ep (Transmit.poll_close cap).
Definition is_closed (s : ServerStreamConnection) : bool := bool_decide (e_close_code (endpoint s) <> None).
Definition close_code (s : ServerStreamConnection) : option Z := Mux.close_code (sv_mux s).
Definition pending_control_path (s : ServerStreamConnection) : option nat := Credit.pending_control_path (endpoint s).
Definition next_bearer_deadline (s : ServerStreamConnection) : option Z := Timer.next_bearer_deadline (endpoint s).

Definition poll_timer (now cap : Z) : method ServerStreamConnection (option bytes) :=
  _ ← set_time now;
  control ← poll_transmit cap;
  match control with
  | Some used => mret (Some used)
  | None => r ← on_ep (Retransmit.retransmit_due now cap); mret (fst <$> r)
  end.
End server.
End Server.

(** ** What a listener receives *)
Inductive ServerPacket : Type :=
  | Initial (open : BootstrapOpen)
  | PathOpen
  | PathOpenAck
  | BootstrapAck (destination : Z)
  | Established (destination : Z).

Definition classify_server_packet `{Features} (packet : bytes) : res ServerPacket :=
  match decode_bootstrap_open_packet packet with
  | Ok (_, open) => Ok (Initial open)
  | Panic => Panic
  | Err _ =>
      match decode_long_packet packet with
      | Panic => Panic
      | Ok (long, _, _) =>
          if l_packet_type long =? LONG_PACKET_INITIAL then
            match l_dcid long with Some destination => Ok (BootstrapAck destination) | None => Err Error.Invalid end
          else if l_packet_type long =? LONG_PACKET_PATH_OPEN then
            match decode_setup_request_packet packet with Ok _ => Ok PathOpen | Err _ => Err Error.Invalid | Panic => Panic end
          else if l_packet_type long =? LONG_PACKET_PATH_OPEN_ACK then
            match decode_setup_reply_packet packet with Ok _ => Ok PathOpenAck | Err _ => Err Error.Invalid | Panic => Panic end
          else Err Error.Invalid
      | Err _ =>
          '(header, _) ← short_decode packet;
          Ok (Established (dcid header))
      end
  end.

(** ** The client *)
Record ClientConnection : Type := mkClientConnection {
  cl_local_cid : Z;
  cl_local_limits : ConnectionLimits;
  cl_requested_peer_limits : option ReceiveWindowRequest;
  cl_peer_cid : option Z;
  cl_peer_reset_token : option bytes;
  cl_local_reset_token : option bytes;
  cl_endpoint : option EndpointState;
  cl_started : bool;
  cl_open_packet_number : Z;
  cl_history_packets : nat;
  cl_transmission_records : nat;
  cl_duplication_budget_capacity : Z;
  cl_path_estimator_config : PathEstimatorConfig;
  cl_pacing_config : PacingConfig;
}.
#[export] Instance eta_ClientConnection : Eta ClientConnection := ltac:(mk_eta).
#[export] Instance set_cl_requested_peer_limits : Setter cl_requested_peer_limits := ltac:(mk_setter).
#[export] Instance set_cl_peer_cid : Setter cl_peer_cid := ltac:(mk_setter).
#[export] Instance set_cl_peer_reset_token : Setter cl_peer_reset_token := ltac:(mk_setter).
#[export] Instance set_cl_local_reset_token : Setter cl_local_reset_token := ltac:(mk_setter).
#[export] Instance set_cl_endpoint : Setter cl_endpoint := ltac:(mk_setter).
#[export] Instance set_cl_started : Setter cl_started := ltac:(mk_setter).
#[export] Instance set_cl_open_packet_number : Setter cl_open_packet_number := ltac:(mk_setter).
#[export] Instance set_cl_duplication_budget_capacity : Setter cl_duplication_budget_capacity := ltac:(mk_setter).
#[export] Instance set_cl_path_estimator_config : Setter cl_path_estimator_config := ltac:(mk_setter).
#[export] Instance set_cl_pacing_config : Setter cl_pacing_config := ltac:(mk_setter).

Module Client.
Section client.
Context `{Allocator, PacketSize, Features}.

Definition with_limits_and_history (local_cid : Z) (local_limits : ConnectionLimits)
    (history_packets transmission_records : nat) : ClientConnection :=
  mkClientConnection local_cid local_limits None None None None None false 0 history_packets transmission_records 0
    default_config pacing_host.
Definition with_limits (local_cid : Z) (local_limits : ConnectionLimits) : ClientConnection :=
  with_limits_and_history local_cid local_limits 1 2.
Definition new (local_cid : Z) : ClientConnection := with_limits local_cid Limits.default.

(** A method of [self.endpoint_mut()?]; and one of the endpoint, if there is
    one, whose absence is [Ok(None)]. *)
Definition on_ep {A} (f : ep A) : method ClientConnection A := fun c =>
  match cl_endpoint c with
  | Some e => let '(o, e) := f e in (o, c <| cl_endpoint := Some e |>)
  | None => (Err Error.Invalid, c)
  end.
Definition on_ep_or_none {A} (f : ep (option A)) : method ClientConnection (option A) := fun c =>
  match cl_endpoint c with Some _ => on_ep f c | None => (Ok None, c) end.

Definition is_established (c : ClientConnection) : bool := match cl_endpoint c with Some _ => true | None => false end.

Definition set_requested_peer_receive_profile (request : ReceiveWindowRequest) : method ClientConnection unit :=
  started ← gets cl_started;
  _ ← refuse_if (started || (rw_max_data request =? 0) || (rw_max_stream_data request =? 0)) Error.Invalid;
  modify (fun c => c <| cl_requested_peer_limits := Some request |>).

Definition set_local_reset_token (token : bytes) (c : ClientConnection) : ClientConnection :=
  c <| cl_local_reset_token := Some token |>.

Definition is_peer_stateless_reset (input : bytes) (c : ClientConnection) : bool :=
  match cl_peer_reset_token c with Some token => matches_packet token input | None => false end.

Definition decodes_short_to (input : bytes) (f : Z -> bool) : bool :=
  match short_decode input with Ok (header, _) => f (dcid header) | _ => false end.

Definition accepts (input : bytes) (i : nat) (c : ClientConnection) : bool :=
  let open_ack := is_ok (decode_bootstrap_open_ack_packet input (cl_local_cid c)) in
  match cl_endpoint c with
  | Some e =>
      decodes_short_to input (fun d => bool_decide (Ep.local_connection_id_on_path e i = Some d))
      || ((i =? 0)%nat && open_ack)
  | None => (i =? 0)%nat && (decodes_short_to input (fun d => d =? cl_local_cid c) || (cl_started c && open_ack))
  end.

(** *** OPEN *)
Definition encode_open (c : ClientConnection) : res bytes :=
  encode_bootstrap_open_packet (cl_local_cid c) (cl_open_packet_number c) (cl_local_limits c) 0 (cl_local_reset_token c)
    (cl_requested_peer_limits c) packet_size.

Definition start : method ClientConnection bytes :=
  started ← gets cl_started;
  _ ← refuse_if started Error.Invalid;
  _ ← modify (fun c => c <| cl_started := true |> <| cl_open_packet_number := 0 |>);
  gets_res encode_open.

Definition encode_open_attempt (packet_number : Z) : method ClientConnection bytes :=
  established ← gets is_established;
  _ ← refuse_if established Error.Invalid;
  _ ← modify (fun c => c <| cl_started := true |> <| cl_open_packet_number := packet_number |>);
  gets_res encode_open.

(** *** The answer *)
Definition new_endpoint (c : ClientConnection) : EndpointState :=
  Ep.new_with_history_capacity Client (cl_local_limits c) packet_size (cl_history_packets c).

(** What both ways of completing the connection set up on the new endpoint. *)
Definition configure_endpoint (now_us : Z) (c : ClientConnection) : ep unit :=
  _ ← Ep.set_transmission_capacity (records_or_twice (cl_transmission_records c) (cl_history_packets c));
  _ ← modify (Ep.set_duplication_budget_capacity (cl_duplication_budget_capacity c));
  _ ← Ep.set_path_estimator_config (cl_path_estimator_config c);
  _ ← Ep.set_pacing_config (cl_pacing_config c);
  modify (Ep.set_time now_us).

(** The local endpoint is installed only when everything succeeds. *)
Definition build_endpoint (f : ep unit) (c : ClientConnection) : res EndpointState :=
  match f (new_endpoint c) with
  | (Ok _, e) => Ok e
  | (Err err, _) => Err err
  | (Panic, _) => Panic
  end.

Definition next_after_open (c : ClientConnection) : Z := Z.min (cl_open_packet_number c + 1) U32_MAX.

Definition open_ack_endpoint (ack : BootstrapOpenAck) (now_us : Z) (c : ClientConnection) : ep unit :=
  _ ← configure_endpoint now_us c;
  _ ← Ep.install_connection_ids (cl_local_cid c) (server_receive_cid ack);
  _ ← Ep.set_initial_peer_credit (ba_max_data ack) (ba_max_stream_data ack);
  _ ← modify (set_peer_datagram_limit (ba_max_datagram_frame_size ack));
  Ep.continue_packet_numbers_from (next_after_open c).

Definition receive_open_ack (input : bytes) (now_us : Z) : method ClientConnection bool :=
  started ← gets cl_started;
  _ ← refuse_if (negb started) Error.Invalid;
  local_cid ← gets cl_local_cid;
  '(_, ack) ← lift_res (decode_bootstrap_open_ack_packet input local_cid);
  established ← gets is_established;
  if established : bool then
    same ← gets (fun c => bool_decide (cl_peer_cid c = Some (server_receive_cid ack)));
    if same : bool then mret false else raise Error.WrongConnectionId
  else
    e ← gets_res (fun c => build_endpoint (open_ack_endpoint ack now_us c) c);
    _ ← modify (fun c => c <| cl_peer_cid := Some (server_receive_cid ack) |>
                           <| cl_peer_reset_token := ba_stateless_reset_token ack |> <| cl_endpoint := Some e |>);
    mret true.

Definition prepare_local_bidi_receive (stream_id : Z) : ep unit :=
  on_field e_receive (fun r => Conn.prepare_local_bidi_receive r stream_id).

Definition symmetric_endpoint (now_us : Z) (c : ClientConnection) : ep unit :=
  _ ← configure_endpoint now_us c;
  _ ← Ep.install_connection_ids (cl_local_cid c) (cl_local_cid c);
  _ ← Ep.continue_packet_numbers_from (next_after_open c);
  _ ← Ep.open_send_stream FIRST_CLIENT_BIDI_STREAM_ID INITIAL_MAX_STREAM_DATA;
  prepare_local_bidi_receive FIRST_CLIENT_BIDI_STREAM_ID.

Definition receive_initial_short_header (input : bytes) (now_us : Z) : method ClientConnection unit :=
  ready ← gets (fun c => cl_started c && negb (is_established c));
  _ ← refuse_if (negb ready) Error.Invalid;
  '(header, _) ← lift_res (short_decode input);
  local_cid ← gets cl_local_cid;
  _ ← refuse_if (negb (dcid header =? local_cid)) Error.WrongConnectionId;
  e ← gets_res (fun c => build_endpoint (symmetric_endpoint now_us c) c);
  modify (fun c => c <| cl_peer_cid := Some (cl_local_cid c) |> <| cl_endpoint := Some e |>).

(** *** Configuration *)
Definition set_duplication_budget_capacity (capacity : Z) (c : ClientConnection) : ClientConnection :=
  c <| cl_duplication_budget_capacity := capacity |>
    <| cl_endpoint ::= fmap (Ep.set_duplication_budget_capacity capacity) |>.

(** A setting that is checked, stored, and applied to the endpoint if there is one. *)
Definition apply_if_established (f : ep unit) : method ClientConnection unit := fun c =>
  match cl_endpoint c with Some _ => on_ep f c | None => (Ok tt, c) end.

Definition set_path_estimator_config (config : PathEstimatorConfig) : method ClientConnection unit :=
  _ ← refuse_if (negb (estimator_config_is_valid config)) Error.Invalid;
  _ ← modify (fun c => c <| cl_path_estimator_config := config |>);
  apply_if_established (Ep.set_path_estimator_config config).

Definition set_pacing_config (config : PacingConfig) : method ClientConnection unit :=
  _ ← refuse_if (negb (pacing_config_is_valid config)) Error.Invalid;
  _ ← modify (fun c => c <| cl_pacing_config := config |>);
  apply_if_established (Ep.set_pacing_config config).

(** *** Transmission *)
Definition poll_transmit_on_path (i : nat) (cap : Z) : method ClientConnection (option bytes) :=
  on_ep_or_none (Credit.poll_transmit_on_path i cap).
Definition poll_transmit (cap : Z) : method ClientConnection (option bytes) := poll_transmit_on_path 0 cap.
Definition poll_transmit_at (now_us cap : Z) : method ClientConnection (option bytes) :=
  on_ep_or_none (_ ← modify (Ep.set_time now_us); Credit.poll_transmit_on_path 0 cap).
Definition poll_close (cap : Z) : method ClientConnection (option bytes) := on_ep_or_none (Transmit.poll_close cap).
Definition close (code : Z) : method ClientConnection unit := on_ep (modify (Ep.close code)).
(** The PTO argument is ignored. *)
Definition poll_retransmit (now_us cap : Z) : method ClientConnection (option bytes) :=
  on_ep_or_none (_ ← modify (Ep.set_time now_us); r ← Retransmit.retransmit_due now_us cap; mret (fst <$> r)).
End client.
End Client.

(** ** The client's association *)
Record ClientAssociation : Type := mkClientAssociation {
  ca_connection : ClientConnection;
  ca_next_client_bidi_stream_id : Z;
}.
#[export] Instance eta_ClientAssociation : Eta ClientAssociation := ltac:(mk_eta).
#[export] Instance set_ca_connection : Setter ca_connection := ltac:(mk_setter).
#[export] Instance set_ca_next_client_bidi_stream_id : Setter ca_next_client_bidi_stream_id := ltac:(mk_setter).

Record AssociationStreamPayload : Type := mkAssociationStreamPayload {
  ap_stream_id : Z;
  ap_offset : Z;
  ap_fin : bool;
  ap_data : bytes;
  ap_delivery_complete_before_packet : bool;
}.

Module Assoc.
Section association.
Context `{Allocator, PacketSize, Features}.

Definition with_runtime_limits (local_cid : Z) (local_limits : ConnectionLimits) (history_packets transmission_records : nat)
    : ClientAssociation :=
  mkClientAssociation (Client.with_limits_and_history local_cid local_limits history_packets transmission_records)
    FIRST_CLIENT_BIDI_STREAM_ID.
Definition with_limits (local_cid : Z) (local_limits : ConnectionLimits) : ClientAssociation :=
  mkClientAssociation (Client.with_limits local_cid local_limits) FIRST_CLIENT_BIDI_STREAM_ID.
Definition new (local_cid : Z) : ClientAssociation := with_limits local_cid Limits.default.
(** [boxed_with_runtime_limits]: the same value in its own allocation. *)
Definition boxed_with_runtime_limits (local_cid : Z) (local_limits : ConnectionLimits)
    (history_packets transmission_records : nat) : res ClientAssociation :=
  if negb (try_reserve 0) then Err Error.OutOfMemory
  else Ok (with_runtime_limits local_cid local_limits history_packets transmission_records).

Definition on_connection {A} (f : method ClientConnection A) : method ClientAssociation A := on_field ca_connection f.
Definition on_ep {A} (f : ep A) : method ClientAssociation A := on_connection (Client.on_ep f).
Definition endpoint (a : ClientAssociation) : option EndpointState := cl_endpoint (ca_connection a).

Definition set_runtime_limits (l : AssociationLimits) : method ClientAssociation unit :=
  _ ← on_connection (Client.set_path_estimator_config (al_path_estimator l));
  _ ← on_connection (Client.set_pacing_config (al_pacing l));
  _ ← on_ep (Credit.set_receive_growth_limits (al_connection l));
  _ ← on_ep (Ep.set_history_capacity (al_history_packets l));
  _ ← on_ep (Ep.set_transmission_capacity (al_transmission_records l));
  on_ep (modify (Ep.set_duplication_budget_capacity (al_duplication_budget_bytes l))).

(** *** Streams *)
(** [next_client_bidi_stream_id.checked_add(4).ok_or(StreamLimit)?] *)
Definition advance_stream_id : method ClientAssociation unit :=
  on_field_res ca_next_client_bidi_stream_id (fun n => ok_or (checked_add n 4) Error.StreamLimit).

Definition allocate_client_bidi_stream : method ClientAssociation Z :=
  stream ← gets ca_next_client_bidi_stream_id;
  _ ← advance_stream_id;
  mret stream.

Definition prepare_client_bidi_stream (stream_id : Z) : method ClientAssociation unit :=
  on_ep (_ ← Ep.open_send_stream stream_id U64_MAX; Client.prepare_local_bidi_receive stream_id).

Definition open_next_client_bidi_stream : method ClientAssociation Z :=
  stream ← gets ca_next_client_bidi_stream_id;
  _ ← prepare_client_bidi_stream stream;
  _ ← advance_stream_id;
  mret stream.

Definition available_stream_send_bytes (stream_id offset : Z) (a : ClientAssociation) : option Z :=
  endpoint a ≫= fun e => Send.available (e_send e) stream_id offset.

Definition stream_consumed (stream_id n : Z) (deferred : bool) : method ClientAssociation unit :=
  on_ep (if deferred then Credit.stream_consumed_deferred stream_id n else Credit.stream_consumed stream_id n).

(** The destination of stream packets, and the stream opened again. *)
Definition stream_destination (i : nat) (stream_id : Z) : method ClientAssociation Z :=
  c ← gets ca_connection;
  let fallback := default (cl_local_cid c) (cl_peer_cid c) in
  destination ← on_ep (gets (fun e => default fallback (Ep.peer_connection_id_on_path e i)));
  _ ← on_ep (Ep.open_send_stream stream_id U64_MAX);
  mret destination.

Definition encode_stream_payload_at_on_path (i : nat) (stream_id offset : Z) (data : bytes) (fin : bool)
    : method ClientAssociation bytes :=
  destination ← stream_destination i stream_id;
  '(packet, _) ← on_ep (Mux.encode_stream_packet_on_path i destination stream_id offset fin data packet_size);
  mret packet.

Definition encode_stream_payload_at : Z -> Z -> bytes -> bool -> method ClientAssociation bytes :=
  encode_stream_payload_at_on_path 0.

Definition encode_stream_payload_from_owned_at_on_path (i : nat) (stream_id offset : Z) (fin : bool) (packet : bytes)
    : method ClientAssociation bytes :=
  destination ← stream_destination i stream_id;
  '(packet, _) ← on_ep (Mux.encode_stream_packet_from_owned_on_path i destination stream_id offset fin packet packet_size);
  mret packet.

(** *** Packets *)
Definition start : method ClientAssociation bytes := on_connection Client.start.
Definition encode_open_attempt (packet_number : Z) : method ClientAssociation bytes :=
  on_connection (Client.encode_open_attempt packet_number).

(** The packet's metadata is not used. *)
Definition receive_packet_on_path {R} (input : bytes) (i : nat) (receive : method ClientConnection R)
    : method ClientAssociation R :=
  accepted ← gets (fun a => Client.accepts input i (ca_connection a));
  if accepted : bool then on_connection receive else
  reset ← gets (fun a => Client.is_peer_stateless_reset input (ca_connection a));
  if reset : bool then raise Error.PeerRestarted else raise Error.WrongConnectionId.
Definition receive_packet {R} (input : bytes) : method ClientConnection R -> method ClientAssociation R :=
  receive_packet_on_path input 0.

Definition receive_open_ack_packet (input : bytes) (received_at_us : Z) : method ClientAssociation unit :=
  receive_packet input (_ ← Client.receive_open_ack input received_at_us; mret tt).

Definition receive_initial_short_header_packet (input : bytes) (received_at_us : Z) : method ClientAssociation unit :=
  receive_packet input (Client.receive_initial_short_header input received_at_us).

(** The first stream of the packet that is complete already; an error stops the
    search. *)
Fixpoint first_complete (fuel : nat) (e : EndpointState) (input : bytes) (offset : Z) : option Z :=
  match fuel with
  | O => None
  | S fuel' =>
      if zlen input <=? offset then None else
      match slice_from (E := Error.t) input offset ≫= decode_frame with
      | Ok (Stream stream, used) =>
          if Mux.stream_delivery_complete e (s_id stream) then Some (s_id stream)
          else first_complete fuel' e input (offset + used)
      | Ok (_, used) => first_complete fuel' e input (offset + used)
      | _ => None
      end
  end.

Definition completed_stream (input : bytes) (a : ClientAssociation) : option Z :=
  endpoint a ≫= fun e =>
  match decode_with_expected input (Ep.expected_packet_number e) with
  | Ok (_, header_len) => first_complete (S (length input)) e input header_len
  | _ => None
  end.

Definition receive_stream_payload_packet_on_path (i : nat) (input : bytes)
    : method ClientAssociation (option AssociationStreamPayload) :=
  completed ← gets (completed_stream input);
  payload ← receive_packet_on_path input i (Client.on_ep (Receive.receive_packet_on_path input i));
  match payload with
  | None => mret None
  | Some (_, frame) =>
      _ ← (if s_fin frame then on_ep (modify Credit.request_stream_reack) else mret tt);
      mret (Some (mkAssociationStreamPayload (s_id frame) (s_offset frame) (s_fin frame) (s_data frame)
                    (bool_decide (completed = Some (s_id frame)))))
  end.

Definition receive_stream_payload_packet : bytes -> method ClientAssociation (option AssociationStreamPayload) :=
  receive_stream_payload_packet_on_path 0.

Definition next_bearer_deadline (a : ClientAssociation) : option Z := endpoint a ≫= Timer.next_bearer_deadline.

Definition poll_timer (now cap : Z) : method ClientAssociation (option bytes) :=
  control ← on_connection (Client.poll_transmit_at now cap);
  match control with
  | Some used => mret (Some used)
  | None => on_connection (Client.poll_retransmit now cap)
  end.

Definition is_peer_stateless_reset (input : bytes) (a : ClientAssociation) : bool :=
  Client.is_peer_stateless_reset input (ca_connection a).
Definition peer_cid (a : ClientAssociation) : option Z := cl_peer_cid (ca_connection a).

Definition is_duplicate_open_ack (input : bytes) (a : ClientAssociation) : bool :=
  match peer_cid a with
  | None => false
  | Some peer_cid =>
      match decode_bootstrap_open_ack_packet input (cl_local_cid (ca_connection a)) with
      | Ok (_, ack) => server_receive_cid ack =? peer_cid
      | _ => false
      end
  end.

Definition continue_packet_numbers_from (next : Z) : method ClientAssociation unit :=
  on_ep (Ep.continue_packet_numbers_from next).
End association.
End Assoc.
