(* ===== verification/AssociationSpec.v ===== *)
(** * The handshake

    What the two ends of a connection hold after OPEN and OPEN_ACK: crossed
    connection identifiers, each side's send credit equal to the other's receive
    window, the server's reset token at the client; and that a repeated OPEN or
    OPEN_ACK changes nothing. *)

From S2P Require Import Prelude Records Methods Wire PacketHeader AckRanges Reader Frames FlowControl Congestion PathState SendBuffer Bootstrap Endpoint Credit Ledger Transmit Retransmit Receive SetupCodec Callback Mux StatelessReset Association.

Section handshake.
Context `{Allocator, PacketSize, Features}.

(** ** Setting up an endpoint *)

(** The parts of the endpoint that the peers agree on. *)
Definition terms (e : EndpointState) : SendFlowControl * ConnectionState * option Z * option Z * Z * Z :=
  (e_send e, e_receive e, e_local_cid e, e_peer_cid e, e_peer_max_datagram_frame_size e, e_next_packet_number e).

Definition same_terms {A} (m : ep A) : Prop := forall e o e', m e = (o, e') -> terms e' = terms e.

Lemma same_terms_bind {A B} (m : ep A) (k : A -> ep B) : same_terms m -> (forall a, same_terms (k a)) -> same_terms (m ≫= k).
Proof.
  intros Hm Hk e o e'. rewrite bind_unfold. destruct (m e) as [[a| |] e1] eqn:Hr.
  - intros Hrun. apply Hk in Hrun. apply Hm in Hr. congruence.
  - intros [= _ <-]. by apply Hm in Hr.
  - intros [= _ <-]. by apply Hm in Hr.
Qed.

Lemma same_terms_modify f : (forall e, terms (f e) = terms e) -> same_terms (modify f).
Proof. intros Hf e o e' [= _ <-]. apply Hf. Qed.

Lemma same_transmission n : same_terms (Ep.set_transmission_capacity n).
Proof. intros e o e'. unfold Ep.set_transmission_capacity. repeat case_match; by intros [= _ <-]. Qed.
Lemma same_estimator c : same_terms (Ep.set_path_estimator_config c).
Proof. intros e o e'. unfold Ep.set_path_estimator_config. case_match; by intros [= _ <-]. Qed.
Lemma same_pacing c : same_terms (Ep.set_pacing_config c).
Proof. intros e o e'. unfold Ep.set_pacing_config. case_match; by intros [= _ <-]. Qed.

Lemma same_configure now c : same_terms (Client.configure_endpoint now c).
Proof.
  repeat (apply same_terms_bind; [first [apply same_transmission|apply same_estimator|apply same_pacing|by apply same_terms_modify]|intros _]).
  by apply same_terms_modify.
Qed.

(** What the steps that follow the configuration establish on an endpoint with
    nothing sent. *)
Definition agreed (local peer max_data max_stream_data datagram next : Z) (e : EndpointState) : Prop :=
  e_local_cid e = Some local /\ e_peer_cid e = Some peer /\
  s_max_data (e_send e) = max_data /\ initial_stream_max_data (e_send e) = max_stream_data /\
  e_peer_max_datagram_frame_size e = datagram /\ e_next_packet_number e = next.

Definition establish (local peer max_data max_stream_data in_flight datagram next : Z) : ep unit :=
  _ ← Ep.install_connection_ids local peer;
  _ ← Ep.set_initial_peer_budget max_data max_stream_data in_flight;
  _ ← modify (set_peer_datagram_limit datagram);
  Ep.continue_packet_numbers_from next.

Lemma establish_agreed local peer max_data max_stream_data in_flight datagram next e u e' :
  establish local peer max_data max_stream_data in_flight datagram next e = (Ok u, e') ->
  agreed local peer max_data max_stream_data datagram next e' /\ e_receive e' = e_receive e.
Proof.
  unfold establish, Ep.install_connection_ids. rewrite bind_unfold, bind_lift.
  unfold Ep.connection_ids. destruct (_ || _); [done|]. cbn [modify].
  unfold modify at 1. rewrite bind_unfold. unfold Ep.set_initial_peer_budget at 1. rewrite bind_unfold.
  unfold on_field_res, Send.set_initial_limits. destruct (_ || _); [done|]. unfold modify at 1. rewrite bind_modify.
  unfold Ep.continue_packet_numbers_from. destruct (_ <? _); [done|]. intros [= _ <-]. done.
Qed.

Lemma configured_establish now c (m : ep unit) e u e' :
  (_ ← Client.configure_endpoint now c; m) e = (Ok u, e') ->
  exists e1, m e1 = (Ok u, e') /\ terms e1 = terms e.
Proof.
  rewrite bind_unfold. destruct (Client.configure_endpoint now c e) as [[[]| |] e1] eqn:Hc; [|done..].
  intros Hm. exists e1. split; [done|]. by apply same_configure in Hc.
Qed.

(** ** The theorem *)

(** A profile a side may offer. *)
Definition offers (l : ConnectionLimits) (token : option bytes) : Prop :=
  0 < l_max_data l /\ 0 < l_max_stream_data l /\ 0 <= max_datagram_frame_size l /\ token_ok token.

Definition asks (r : option ReceiveWindowRequest) : Prop :=
  match r with Some r => 0 < rw_max_data r /\ 0 < rw_max_stream_data r | None => True end.

Lemma clamped_offers l r token : offers l token -> asks r -> offers (Limits.clamped_to_request l r) token.
Proof.
  intros (Hd & Hs & Hg & Ht) Hr. unfold Limits.clamped_to_request. destruct r as [r|]; [|done]. destruct Hr as [Hrd Hrs].
  split; cbn; [by case_match|]. split; [by case_match|done].
Qed.

Lemma offers_profile kind l token r :
  offers l token -> asks r -> 0 <= kind -> (is_some r = true -> kind = 0) -> profile_ok kind l 0 token r.
Proof.
  intros (Hd & Hs & Hg & Ht) Hr Hk Hkr. split_and!; try done. unfold request_ok. destruct r; [|done]. destruct Hr. lia.
Qed.

(** The OPEN of a client, as a server reads it. *)
Definition open_sent (c : ClientConnection) : BootstrapOpen :=
  open_of (cl_local_cid c) (cl_local_limits c) 0 (cl_local_reset_token c) (cl_requested_peer_limits c).

Lemma open_decodes c open :
  is_cid (cl_local_cid c) -> offers (cl_local_limits c) (cl_local_reset_token c) -> asks (cl_requested_peer_limits c) ->
  packet_size <= U64_MAX -> Client.encode_open c = Ok open ->
  decode_bootstrap_open_packet open = Ok (mkShortHeader FLAG_FIXED 0 (cl_open_packet_number c mod 256) 1, open_sent c).
Proof.
  intros Hc Ho Ha Hp He. destruct (encode_open_Ok _ _ _ _ _ _ _ _ Hc Hp He) as (body & fr & Hbody & Hfr & Hcar).
  eapply decode_open_of_payload; [|exact Hbody|exact Hfr|exact Hcar]. by apply offers_profile.
Qed.

(** What accepting an OPEN leaves and answers. *)
Lemma accept_open_Ok packet scid limits config token h open s ack :
  decode_bootstrap_open_packet packet = Ok (h, open) ->
  Server.accept_open_with_config_into packet scid limits config token = Ok (s, ack) ->
  let offered := Limits.clamped_to_request limits (bo_requested_peer_limits open) in
  let e := Server.endpoint s in
  agreed scid (client_receive_cid open) (bo_max_data open) (bo_max_stream_data open) (bo_max_datagram_frame_size open)
    (Z.min (packet_number h + 1) U32_MAX) e /\
  e_receive e = Conn.new Server offered /\ sv_peer_open s = open /\
  encode_bootstrap_open_ack_packet (client_receive_cid open) scid 0 offered 0 token packet_size = Ok ack /\
  (forall packet' h', decode_bootstrap_open_packet packet' = Ok (h', open) -> Server.replay_open_ack_into packet' s = Ok ack).
Proof.
  intros Hd. unfold Server.accept_open_with_config_into, Server.accept_open_boxed_with_config_into. rewrite Hd.
  cbn [mbind outcome_bind]. cbv zeta. destruct (negb _); [done|]. set (mux := Mux.new_with_history_capacity _ _ _ _ _ _).
  rewrite bind_unfold. destruct (Ep.set_transmission_capacity _ _) as [[[]| |] e1] eqn:Ht; [|done..].
  apply same_transmission in Ht.
  destruct (Server.finish_open _ _ _ e1) as [[[]| |] e2] eqn:Hf; [|done..].
  apply (establish_agreed scid (client_receive_cid open) (bo_max_data open) (bo_max_stream_data open)
    (bo_max_in_flight_packets open)) in Hf as [Hag Hrec].
  destruct (Server.encode_open_ack_into _ _ _ _ _ _) as [ack'| |] eqn:Hack; [|done..]. cbn [mbind outcome_bind].
  intros [= <- <-]. split; [exact Hag|]. split; [|split; [done|]].
  { change (e_receive e2 = Conn.new Server (Limits.clamped_to_request limits (bo_requested_peer_limits open))).
    rewrite Hrec. by injection Ht. }
  split; [exact Hack|]. intros packet' h' Hd'. unfold Server.replay_open_ack_into. rewrite Hd'. cbn [mbind outcome_bind sv_peer_open].
  rewrite bool_decide_eq_true_2 by done. cbn [negb].
  change (e_local_cid (Server.endpoint _)) with (e_local_cid e2). destruct Hag as (-> & _). exact Hack.
Qed.

Definition limits_of (e : EndpointState) : ConnectionLimits := limits (e_receive e).

(** One endpoint may send what the other has made room for. *)
Definition matched (a b : EndpointState) : Prop :=
  e_local_cid a = e_peer_cid b /\ e_local_cid a <> None /\
  s_max_data (e_send a) = fc_max_data (connection (e_receive b)) /\
  initial_stream_max_data (e_send a) = l_max_stream_data (limits (e_receive b)) /\
  e_peer_max_datagram_frame_size a = max_datagram_frame_size (limits (e_receive b)).

(** What a client holds that has completed its connection with [ack]. *)
Lemma receive_open_ack_Ok c ack scid offered token now b c2 :
  cl_started c = true -> Client.is_established c = false ->
  decode_bootstrap_open_ack_packet ack (cl_local_cid c) = Ok (mkShortHeader FLAG_FIXED (cl_local_cid c) 0 1,
    mkBootstrapOpenAck scid (l_max_data offered) (l_max_stream_data offered) (max_datagram_frame_size offered) 0 token) ->
  Client.receive_open_ack ack now c = (Ok b, c2) ->
  b = true /\ exists e, c2 = c <| cl_peer_cid := Some scid |> <| cl_peer_reset_token := token |> <| cl_endpoint := Some e |> /\
    agreed (cl_local_cid c) scid (l_max_data offered) (l_max_stream_data offered) (max_datagram_frame_size offered)
      (Client.next_after_open c) e /\
    e_receive e = Conn.new Client (cl_local_limits c).
Proof.
  intros Hst Hne Hd. unfold Client.receive_open_ack. rewrite bind_gets, Hst, bind_refuse. cbn [negb].
  rewrite bind_gets, bind_lift, Hd. rewrite bind_gets, Hne. rewrite bind_gets_res.
  destruct (Client.build_endpoint _ _) as [e| |] eqn:Hb; [|done..]. rewrite bind_modify. intros [= <- <-].
  split; [done|]. exists e. split; [done|]. unfold Client.build_endpoint in Hb.
  destruct (Client.open_ack_endpoint _ _ _ _) as [[[]| |] e0] eqn:Hr; [|done..]. injection Hb as ->.
  apply configured_establish in Hr as (e1 & He & Ht).
  apply (establish_agreed (cl_local_cid c) scid (l_max_data offered) (l_max_stream_data offered) 0) in He as [Hag Hrec].
  split; [exact Hag|]. rewrite Hrec. by injection Ht.
Qed.

(** C2: The handshake agrees.  When a server accepts the OPEN of a client and the
    client completes its connection with the answer, each end sends to the
    identifier the other receives on; each may send exactly what the other's
    receive windows allow, which for the server are its limits clamped to the
    client's request, and datagrams up to the other's limit; the client holds the
    server's reset token and continues its packet numbers after the OPEN.  The
    OPEN in any other copy gets the same answer again, a different OPEN gets
    none, and a repeated answer changes nothing. *)
Theorem handshake_agrees c pn open c1 scid limits config token s ack now b c2 :
  is_cid (cl_local_cid c) -> is_cid scid -> packet_size <= U64_MAX ->
  offers (cl_local_limits c) (cl_local_reset_token c) -> asks (cl_requested_peer_limits c) -> offers limits token ->
  Client.encode_open_attempt pn c = (Ok open, c1) ->
  Server.accept_open_with_config_into open scid limits config token = Ok (s, ack) ->
  Client.receive_open_ack ack now c1 = (Ok b, c2) ->
  b = true /\
  (exists e, cl_endpoint c2 = Some e /\ matched e (Server.endpoint s) /\ matched (Server.endpoint s) e /\
     limits_of (Server.endpoint s) = Limits.clamped_to_request limits (cl_requested_peer_limits c) /\
     limits_of e = cl_local_limits c /\ e_next_packet_number e = Z.min (pn + 1) U32_MAX) /\
  cl_peer_reset_token c2 = token /\
  Server.replay_open_ack_into open s = Ok ack /\
  (forall other h o, decode_bootstrap_open_packet other = Ok (h, o) -> o <> sv_peer_open s ->
     Server.replay_open_ack_into other s = Err Error.BootstrapInvalid) /\
  (forall later, Client.receive_open_ack ack later c2 = (Ok false, c2)).
Proof.
  intros Hcid Hscid Hps Hoffer Hask Hserver Hopen Haccept Hack.
  unfold Client.encode_open_attempt in Hopen. rewrite bind_gets, bind_refuse in Hopen.
  destruct (Client.is_established c) eqn:Hne; [done|]. rewrite bind_modify in Hopen.
  set (c' := c <| cl_started := true |> <| cl_open_packet_number := pn |>) in Hopen.
  injection Hopen as Hopen <-.
  pose proof (open_decodes c' open Hcid Hoffer Hask Hps Hopen) as Hd.
  destruct (accept_open_Ok _ _ _ _ _ _ _ _ _ Hd Haccept) as (Hag & Hrec & Hpeer & Henc & Hreplay).
  set (offered := Limits.clamped_to_request limits _) in *.
  assert (offers offered token) as Hoff by (by apply clamped_offers).
  destruct (bootstrap_open_ack_roundtrip (cl_local_cid c) scid 0 offered 0 token packet_size ack (cl_local_cid c') Hcid Hscid
    ltac:(by apply offers_profile) Hps Henc) as [Hdec _]. specialize (Hdec eq_refl).
  destruct (receive_open_ack_Ok c' ack scid offered token now b c2 eq_refl Hne Hdec Hack) as (-> & e & -> & Hage & Hrece).
  destruct Hag as (Hs1 & Hs2 & Hs3 & Hs4 & Hs5 & Hs6). destruct Hage as (He1 & He2 & He3 & He4 & He5 & He6).
  split; [done|]. split.
  { exists e. split; [done|]. unfold matched, limits_of. rewrite Hrec, Hrece, Hs1, Hs2, Hs3, Hs4, Hs5, He1, He2, He3, He4, He5, He6.
    by split_and!. }
  split; [done|]. split; [by eapply Hreplay|]. split.
  - intros other h o Ho Hdiff. unfold Server.replay_open_ack_into. rewrite Ho. cbn [mbind outcome_bind].
    by rewrite bool_decide_eq_false_2.
  - intros later. unfold Client.receive_open_ack. rewrite bind_gets, bind_refuse. cbn [negb].
    rewrite bind_gets, bind_lift.
    change (cl_local_cid (c' <| cl_peer_cid := _ |> <| cl_peer_reset_token := _ |> <| cl_endpoint := _ |>)) with (cl_local_cid c').
    rewrite Hdec. rewrite bind_gets. change (Client.is_established _) with true. cbv iota.
    rewrite bind_gets. by rewrite bool_decide_eq_true_2.
Qed.
End handshake.

(** ** A handshake *)
Section examples.
#[local] Instance plenty : Allocator := {| try_reserve := fun _ => true |}.
#[local] Instance big_packets : PacketSize := {| packet_size := 1200 |}.
#[local] Instance no_protection : Features := {| packet_protection := false |}.

Definition ok_of {A} (d : A) (o : res A) : A := match o with Ok a => a | _ => d end.

(** A client that asks for a small receive window, its fourth attempt. *)
Definition caller : ClientConnection :=
  (Client.set_requested_peer_receive_profile (mkReceiveWindowRequest 5000 900) (Client.new 7)).2.
Definition call_attempt : res bytes * ClientConnection := Client.encode_open_attempt 3 caller.
Definition call : bytes := ok_of [] call_attempt.1.
Definition reset_token : option bytes := Some (replicate 16 5).
Definition answer : res (ServerStreamConnection * bytes) :=
  Server.accept_open_with_config_into call 9 Limits.default server_config_default reset_token.

Lemma handshake_agrees_witness :
  exists s ack e c2, answer = Ok (s, ack) /\ Client.receive_open_ack ack 50 call_attempt.2 = (Ok true, c2) /\
    cl_endpoint c2 = Some e /\ matched e (Server.endpoint s) /\ l_max_data (limits_of (Server.endpoint s)) = 5000 /\
    e_next_packet_number e = 4.
Proof.
  assert (is_cid (cl_local_cid caller) /\ is_cid 9 /\ packet_size <= U64_MAX) as (Hc & Hs & Hp) by (by vm_compute).
  assert (offers (cl_local_limits caller) (cl_local_reset_token caller)) as Ho by (by split_and!).
  assert (asks (cl_requested_peer_limits caller)) as Hk by (by split).
  assert (offers Limits.default reset_token) as Hl by (by split_and!).
  assert (Client.encode_open_attempt 3 caller = (Ok call, call_attempt.2)) as Hopen by (by vm_compute).
  assert (is_ok answer = true /\ (Client.receive_open_ack (ok_of [] (snd <$> answer)) 50 call_attempt.2).1 = Ok true) as [Ha Hr]
    by (by vm_compute).
  unfold answer in *.
  destruct (Server.accept_open_with_config_into _ _ _ _ _) as [[s ack]| |] eqn:Hans; [clear Ha|discriminate Ha..]. cbn [fmap outcome_fmap ok_of snd] in Hr.
  destruct (Client.receive_open_ack ack 50 call_attempt.2) as [b c2] eqn:Hrun. cbn [fst] in Hr. subst b.
  destruct (handshake_agrees caller 3 call call_attempt.2 9 Limits.default server_config_default reset_token s ack 50 true c2
    Hc Hs Hp Ho Hk Hl Hopen Hans Hrun) as (_ & (e & He & Hm & _ & Hlim & _ & Hn) & _).
  clear Hopen Hans.
  exists s, ack, e, c2. split_and!; [done..|by rewrite Hlim|by rewrite Hn].
Defined.
End examples.
