(* ===== verification/Listener.v ===== *)
(** * A listener's packets

    [classify_server_packet] of [src/crates/quic-lite/src/connection.rs] against
    the decoders it chooses between. *)

From S2P Require Import Prelude Records Wire PacketHeader Frames FlowControl Bootstrap SetupCodec SetupMessages Association.

Section listener.
Context `{Features}.

Lemma open_is_initial packet h open : decode_bootstrap_open_packet packet = Ok (h, open) ->
  exists long at_ n, decode_long_packet packet = Ok (long, at_, n) /\ l_packet_type long = LONG_PACKET_INITIAL /\ l_dcid long = None.
Proof.
  unfold decode_bootstrap_open_packet. intros ([[long at_] n] & Hl & Hr)%bind_Ok. destruct (_ || _) eqn:Hg; [done|].
  exists long, at_, n. split; [done|]. apply orb_false_iff in Hg as [Ht%negb_false_iff%Z.eqb_eq Hd%bool_decide_eq_false].
  split; [done|]. by destruct (l_dcid long); [destruct Hd|].
Qed.

Lemma open_ack_is_initial packet c h a : decode_bootstrap_open_ack_packet packet c = Ok (h, a) ->
  exists long at_ n, decode_long_packet packet = Ok (long, at_, n) /\ l_packet_type long = LONG_PACKET_INITIAL /\ l_dcid long = Some c.
Proof.
  unfold decode_bootstrap_open_ack_packet. intros ([[long at_] n] & Hl & Hr)%bind_Ok. destruct (_ || _) eqn:Hg; [done|].
  exists long, at_, n. split; [done|]. apply orb_false_iff in Hg as [Ht%negb_false_iff%Z.eqb_eq Hd%negb_false_iff%bool_decide_eq_true].
  done.
Qed.

Lemma setup_is_long {A} t (d : bytes -> res A) packet v : decode_setup_packet t d packet = Ok v ->
  exists long at_ n, decode_long_packet packet = Ok (long, at_, n) /\ l_packet_type long = t.
Proof.
  unfold decode_setup_packet. intros ([[long at_] n] & Hl & Hr)%bind_Ok. destruct (_ || _) eqn:Hg; [done|].
  exists long, at_, n. split; [done|]. apply orb_false_iff in Hg as [[Ht%negb_false_iff%Z.eqb_eq _]%orb_false_iff _]. done.
Qed.

(** What a long packet that is no OPEN is taken for. *)
Lemma classify_long packet long at_ n :
  bytes_ok packet -> decode_long_packet packet = Ok (long, at_, n) -> is_ok (decode_bootstrap_open_packet packet) = false ->
  classify_server_packet packet =
    (if l_packet_type long =? LONG_PACKET_INITIAL then
       match l_dcid long with Some d => Ok (BootstrapAck d) | None => Err Error.Invalid end
     else if (l_packet_type long =? LONG_PACKET_PATH_OPEN) && is_ok (decode_setup_request_packet packet) then Ok PathOpen
     else if (l_packet_type long =? LONG_PACKET_PATH_OPEN_ACK) && is_ok (decode_setup_reply_packet packet) then Ok PathOpenAck
     else Err Error.Invalid).
Proof.
  intros Hok Hl Ho. destruct (setup_decoders_total packet Hok) as (Hrq & Hrp & _). unfold classify_server_packet.
  pose proof (decode_open_packet_not_Panic packet Hok) as Hop.
  destruct (decode_bootstrap_open_packet packet) as [[]| |]; [done| |done]. rewrite Hl.
  destruct (Z.eqb_spec (l_packet_type long) LONG_PACKET_INITIAL) as [|_]; [done|].
  destruct (Z.eqb_spec (l_packet_type long) LONG_PACKET_PATH_OPEN) as [->|_]; cbn [andb].
  - by destruct (decode_setup_request_packet packet).
  - destruct (_ =? _); [|done]. by destruct (decode_setup_reply_packet packet).
Qed.

Lemma not_open packet long at_ n :
  decode_long_packet packet = Ok (long, at_, n) -> l_packet_type long <> LONG_PACKET_INITIAL \/ l_dcid long <> None ->
  is_ok (decode_bootstrap_open_packet packet) = false.
Proof.
  intros Hl Ht. destruct (decode_bootstrap_open_packet packet) as [[h o]| |] eqn:Ho; [|done..].
  apply open_is_initial in Ho as (long' & at' & n' & Hl' & Ht' & Hd'). rewrite Hl in Hl'. injection Hl' as <- _ _. by destruct Ht.
Qed.

Lemma not_long first rest : Z.land first 0x80 = 0 -> is_ok (decode_long_packet (first :: rest)) = false.
Proof.
  intros Hf. unfold decode_long_packet. destruct (_ || _) eqn:Hg; [done|]. exfalso.
  apply orb_false_iff in Hg as [_ Hc%negb_false_iff%Z.eqb_eq].
  apply (f_equal (fun x => Z.testbit x 7)) in Hf, Hc. rewrite Z.land_spec in Hf, Hc. cbn in Hf, Hc. by rewrite Hc in Hf.
Qed.

(** A listener tells packets apart.  On every byte string the classification
    of a shared listener returns; an OPEN, an OPEN_ACK, a path setup request and
    a path setup reply are recognised exactly when their own decoders accept
    them, with the OPEN's contents and the OPEN_ACK's destination, and a short
    packet is handed to the association of the identifier it carries. *)
Theorem listener_classifies packet :
  bytes_ok packet ->
  classify_server_packet packet <> Panic /\
  (forall open, classify_server_packet packet = Ok (Initial open) <-> exists h, decode_bootstrap_open_packet packet = Ok (h, open)) /\
  (classify_server_packet packet = Ok PathOpen <-> is_ok (decode_setup_request_packet packet) = true) /\
  (classify_server_packet packet = Ok PathOpenAck <-> is_ok (decode_setup_reply_packet packet) = true) /\
  (forall c h ack, decode_bootstrap_open_ack_packet packet c = Ok (h, ack) -> classify_server_packet packet = Ok (BootstrapAck c)) /\
  (forall first rest h n, packet = first :: rest -> Z.land first 0x80 = 0 -> short_decode packet = Ok (h, n) ->
     classify_server_packet packet = Ok (Established (dcid h))).
Proof.
  intros Hok. pose proof (decode_open_packet_not_Panic packet Hok) as Hop.
  pose proof (decode_long_packet_not_Panic packet Hok) as Hlp.
  assert (short_decode packet <> Panic) as Hsp.
  { unfold short_decode. apply bind_not_Panic; [by apply decode_prefix_not_Panic|done]. }
  assert (is_ok (decode_long_packet packet) = false -> is_ok (decode_bootstrap_open_packet packet) = false /\
    is_ok (decode_setup_request_packet packet) = false /\ is_ok (decode_setup_reply_packet packet) = false) as Hshort.
  { intros Hl. unfold decode_bootstrap_open_packet, decode_setup_request_packet, decode_setup_reply_packet, decode_setup_packet.
    by destruct (decode_long_packet packet). }
  destruct (decode_bootstrap_open_packet packet) as [[h0 o]|er|] eqn:Ho; [| |done].
  { assert (classify_server_packet packet = Ok (Initial o)) as Hc by (unfold classify_server_packet; by rewrite Ho).
    apply open_is_initial in Ho as Hinit. destruct Hinit as (long & at_ & n & Hl & Ht & Hdc). rewrite Hc. split_and!; try done.
    - intros open. split; [intros [= <-]; eauto|]. by intros (h & [= _ ->]).
    - split; [done|]. intros Hs. destruct (decode_setup_request_packet packet) as [v| |] eqn:Hv; [|done..].
      apply setup_is_long in Hv as (l' & a' & n' & Hl' & Ht'). rewrite Hl in Hl'. injection Hl' as <- _ _. by rewrite Ht in Ht'.
    - split; [done|]. intros Hs. destruct (decode_setup_reply_packet packet) as [v| |] eqn:Hv; [|done..].
      apply setup_is_long in Hv as (l' & a' & n' & Hl' & Ht'). rewrite Hl in Hl'. injection Hl' as <- _ _. by rewrite Ht in Ht'.
    - intros c h a Hack. apply open_ack_is_initial in Hack as (l' & a' & n' & Hl' & _ & Hd'). rewrite Hl in Hl'.
      injection Hl' as <- _ _. by rewrite Hdc in Hd'.
    - intros first rest h n' -> Hf _. pose proof (not_long first rest Hf) as Hn. by rewrite Hl in Hn. }
  assert (is_ok (decode_bootstrap_open_packet packet) = false) as Hno by (by rewrite Ho).
  assert (forall open : BootstrapOpen, (exists h : ShortHeader, Err er = Ok (h, open)) <-> False) as Hnone by (intros open; split; [by intros (h & ?)|done]).
  destruct (decode_long_packet packet) as [[[long at_] n]| |] eqn:Hl; [| |done].
  - pose proof (classify_long packet long at_ n Hok Hl Hno) as Hc. rewrite Hc.
    assert (is_ok (decode_setup_request_packet packet) = true -> l_packet_type long = LONG_PACKET_PATH_OPEN) as Hrq.
    { intros Hs. destruct (decode_setup_request_packet packet) as [v| |] eqn:Hv; [|done..].
      apply setup_is_long in Hv as (l' & a' & n' & Hl' & Ht'). rewrite Hl in Hl'. by injection Hl' as <- _ _. }
    assert (is_ok (decode_setup_reply_packet packet) = true -> l_packet_type long = LONG_PACKET_PATH_OPEN_ACK) as Hrp.
    { intros Hs. destruct (decode_setup_reply_packet packet) as [v| |] eqn:Hv; [|done..].
      apply setup_is_long in Hv as (l' & a' & n' & Hl' & Ht'). rewrite Hl in Hl'. by injection Hl' as <- _ _. }
    split_and!.
    + by repeat case_match.
    + intros open. rewrite Hnone. split; [by repeat case_match|done].
    + split; [|intros Hs; rewrite Hs, (Hrq Hs); done]. repeat case_match; try done. intros _. by bools.
    + split; [|intros Hs; rewrite Hs, (Hrp Hs); done]. repeat case_match; try done. intros _. by bools.
    + intros c h a Hack. apply open_ack_is_initial in Hack as (l' & a' & n' & Hl' & Ht' & Hd'). rewrite Hl in Hl'.
      injection Hl' as <- _ _. by rewrite Ht', Hd'.
    + intros first rest h n' -> Hf _. pose proof (not_long first rest Hf) as Hn. by rewrite Hl in Hn.
  - destruct (Hshort eq_refl) as (_ & Hrq & Hrp). rewrite Hrq, Hrp.
    assert (classify_server_packet packet = '(header, _) ← short_decode packet; Ok (Established (dcid header))) as Hc
      by (unfold classify_server_packet; by rewrite Ho, Hl).
    rewrite Hc. destruct (short_decode packet) as [[hd k]| |]; cbn [mbind outcome_bind]; [| |done]; split_and!; try done.
    + intros open. by rewrite Hnone.
    + intros c h a Hack. apply open_ack_is_initial in Hack as (l' & a' & n' & Hl' & _). by rewrite Hl in Hl'.
    + by intros first rest h n _ _ [= -> _].
    + intros open. by rewrite Hnone.
    + intros c h a Hack. apply open_ack_is_initial in Hack as (l' & a' & n' & Hl' & _). by rewrite Hl in Hl'.
Qed.
End listener.

(** ** A short packet *)
Section examples.
#[local] Instance no_protection : Features := {| packet_protection := false |}.

Definition stray_packet : bytes := [0x40; 9; 1; 0xaa].

Lemma listener_classifies_witness :
  bytes_ok stray_packet /\ classify_server_packet stray_packet = Ok (Established 9).
Proof.
  assert (bytes_ok stray_packet) as Hok by (apply bytes_ok_bool; by vm_compute). split; [done|].
  destruct (listener_classifies stray_packet Hok) as (_ & _ & _ & _ & _ & Hshort).
  apply (Hshort 0x40 [9; 1; 0xaa] (mkShortHeader 0x40 9 1 1) 3); by vm_compute.
Defined.
End examples.
