(* ===== verification/Probe.v ===== *)
(** * The probe workload

    [src/crates/quic-lite/src/probe.rs]: the byte streams that transport tests
    and diagnostics send over QUIC-lite and over TCP.  [ProbeSender] produces a
    stream in chunks that begin with their number, [ProbeReceiver] checks one,
    [ProbeRun] a group of them; [ProbePayload] produces and checks the same
    pattern under any chunking, with a generator that never divides.  The
    theorems are in [ProbeSpec.v]. *)

From S2P Require Import Prelude Records.

Definition MAX_NORMAL_STREAMS : Z := 4.
Definition MAX_BYTES : Z := 64 * 1024 * 1024.

Module ProbeError.
Inductive t : Type := UnexpectedRange | InvalidPayload | UnexpectedStream.
End ProbeError.
Definition probe_res : Type -> Type := outcome ProbeError.t.

(** ** The request and its plan *)
Record ProbeRequest : Type := mkProbeRequest {
  rq_bytes : Z;
  rq_packet_size : Z;
  rq_ack_frequency : option Z;
  rq_ack_delay_ms : option Z;
  rq_low_priority_bytes : option Z;
  rq_high_priority_bytes : option Z;
  rq_parallel_streams : option Z;
  rq_initial_consume_delay_ms : option Z;
  rq_consume_delay_ms : option Z;
}.

Definition request_new (bytes packet_size : Z) : ProbeRequest :=
  mkProbeRequest bytes packet_size None None None None None None None.

Record ProbePlan : Type := mkProbePlan {
  pl_packet_size : Z;
  pl_normal_streams : Z;
  pl_normal_bytes : list Z;
  pl_high_priority_bytes : Z;
  pl_low_priority_bytes : Z;
  pl_ack_frequency : Z;
  pl_ack_delay_ms : Z;
  pl_initial_consume_delay_ms : Z;
  pl_consume_delay_ms : Z;
}.

(** [v.clamp(lo, hi)] for [lo <= hi] *)
Definition clamped (v lo hi : Z) : Z := Z.max lo (Z.min v hi).

Module Plan.
(** [requested / n], one more for the first [requested % n] streams, zero past
    the streams in use. *)
Definition share (requested normal_streams : Z) (index : nat) : Z :=
  if Z.of_nat index <? normal_streams
  then requested / normal_streams + (if Z.of_nat index <? requested mod normal_streams then 1 else 0)
  else 0.

Definition capped (o : option Z) : Z := Z.min (default 0 (o ≫= usize_try_from)) MAX_BYTES.

Definition from_request (request : ProbeRequest) (max_packet_size : Z) : ProbePlan :=
  let normal_streams := clamped (default 1 (rq_parallel_streams request)) 1 MAX_NORMAL_STREAMS in
  let requested := clamped (rq_bytes request) 1 MAX_BYTES in
  mkProbePlan (clamped (rq_packet_size request) 8 (Z.max max_packet_size 8)) normal_streams
    (share requested normal_streams <$> seq 0 (Z.to_nat MAX_NORMAL_STREAMS))
    (capped (rq_high_priority_bytes request)) (capped (rq_low_priority_bytes request))
    (clamped (default 2 (rq_ack_frequency request)) 1 8) (clamped (default 5 (rq_ack_delay_ms request)) 1 25)
    (default 0 (rq_initial_consume_delay_ms request)) (default 0 (rq_consume_delay_ms request)).

Definition total_bytes (p : ProbePlan) : Z :=
  sat_add (sat_add (foldr Z.add 0 (take (Z.to_nat (pl_normal_streams p)) (pl_normal_bytes p)))
             (pl_high_priority_bytes p)) (pl_low_priority_bytes p).
End Plan.

Record ProbeResult : Type := mkProbeResult {
  rs_bytes : Z;
  rs_normal_bytes : Z;
  rs_high_bytes : Z;
  rs_low_bytes : Z;
  rs_elapsed_us : Z;
  rs_callback_errors : list Z;
}.

Definition bits_per_second (r : ProbeResult) : Z :=
  if rs_elapsed_us r =? 0 then 0 else sat_mul (sat_mul (rs_bytes r) 8) 1000000 / rs_elapsed_us r.

(** ** A stream in numbered chunks *)
Record ProbeChunk : Type := mkProbeChunk {
  ch_stream_id : Z;
  ch_offset : Z;
  ch_len : Z;
  ch_fin : bool;
  ch_packet_id : Z;
}.

Record ProbeSender : Type := mkProbeSender {
  sn_stream_id : Z;
  sn_remaining : Z;
  sn_chunk_size : Z;
  sn_offset : Z;
  sn_packet_id : Z;
}.

(** [offset.wrapping_add(4 + index) as u8] for the bytes after the number; the
    reduction modulo 2^64 does not change the low byte. *)
Definition offset_bytes (offset : Z) (n : nat) : bytes := (fun i => as_u8 (offset + (4 + Z.of_nat i))) <$> seq 0 n.

Module Sender.
Definition new (stream_id bytes chunk_size : Z) : option ProbeSender :=
  if (bytes =? 0) || (chunk_size <? 4) then None else Some (mkProbeSender stream_id bytes chunk_size 0 0).

Definition is_complete (s : ProbeSender) : bool := sn_remaining s =? 0.

(** The chunk and the bytes written at the start of [output]. *)
Definition prepare (flow_window output_len : Z) (s : ProbeSender) : option (ProbeChunk * bytes) :=
  let available := default U64_MAX (usize_try_from flow_window) in
  let len := Z.min (Z.min (Z.min (sn_remaining s) (sn_chunk_size s)) output_len) available in
  if len <? 4 then None else
  Some (mkProbeChunk (sn_stream_id s) (sn_offset s) len (len =? sn_remaining s) (sn_packet_id s),
        be_bytes 4 (sn_packet_id s) ++ offset_bytes (sn_offset s) (Z.to_nat (len - 4))).

Definition commit (chunk : ProbeChunk) (s : ProbeSender) : probe_res unit * ProbeSender :=
  if negb (ch_stream_id chunk =? sn_stream_id s)
     || negb (ch_offset chunk =? sn_offset s)
     || negb (ch_packet_id chunk =? sn_packet_id s)
     || (ch_len chunk <? 4)
     || (sn_remaining s <? ch_len chunk)
     || negb (eqb (ch_fin chunk) (ch_len chunk =? sn_remaining s))
  then (Err ProbeError.UnexpectedRange, s)
  else (Ok tt, mkProbeSender (sn_stream_id s) (sn_remaining s - ch_len chunk) (sn_chunk_size s)
                 (sat_add (sn_offset s) (ch_len chunk)) ((sn_packet_id s + 1) mod 2 ^ 32)).
End Sender.

(** ** The same bytes under any chunking *)
Record PayloadPattern : Type := mkPayloadPattern {
  pt_packet_size : Z;
  pt_within : Z;
  pt_packet : Z;
  pt_header : bytes;
  pt_byte : Z;
}.

Module Pattern.
Definition new (position packet_size : Z) : PayloadPattern :=
  let packet := if position / packet_size <=? U32_MAX then position / packet_size else U32_MAX in
  mkPayloadPattern packet_size (position mod packet_size) packet (be_bytes 4 packet) (as_u8 position).

(** [within += n], to the next packet at its end. *)
Definition advance (n byte : Z) (p : PayloadPattern) : PayloadPattern :=
  let within := pt_within p + n in
  if within =? pt_packet_size p then
    let packet := Z.min (pt_packet p + 1) U32_MAX in
    mkPayloadPattern (pt_packet_size p) 0 packet (be_bytes 4 packet) byte
  else mkPayloadPattern (pt_packet_size p) within (pt_packet p) (pt_header p) byte.

(** [self.header\[self.within\]] is in range. *)
Definition next_byte (p : PayloadPattern) : Z * PayloadPattern :=
  (if pt_within p <? 4 then default 0 (pt_header p !! Z.to_nat (pt_within p)) else pt_byte p,
   advance 1 (as_u8 (pt_byte p + 1)) p).

(** One run of [fill]: up to the end of the number or of the packet. *)
Definition run_len (remaining : nat) (p : PayloadPattern) : nat :=
  let limit := if pt_within p <? 4 then 4 else pt_packet_size p in
  Nat.min remaining (Z.to_nat (limit - pt_within p)).

Definition run (n : nat) (p : PayloadPattern) : bytes * PayloadPattern :=
  (if pt_within p <? 4 then take n (drop (Z.to_nat (pt_within p)) (pt_header p))
   else (fun i => as_u8 (pt_byte p + Z.of_nat i)) <$> seq 0 n,
   advance (Z.of_nat n) (as_u8 (pt_byte p + Z.of_nat n)) p).
End Pattern.

Record ProbePayload : Type := mkProbePayload {
  pp_packet_size : Z;
  pp_total : Z;
  pp_offset : Z;
}.

Module Payload.
Definition new (total packet_size : Z) : option ProbePayload :=
  if negb (total =? 0) && (total <=? MAX_BYTES) && (4 <=? packet_size)
  then Some (mkProbePayload packet_size total 0) else None.

Definition is_complete (p : ProbePayload) : bool := pp_offset p =? pp_total p.

Definition at_offset (offset : Z) (p : ProbePayload) : ProbePayload := mkProbePayload (pp_packet_size p) (pp_total p) offset.

(** The loop of [fill]; each turn writes a byte at least. *)
Fixpoint fill_runs (fuel remaining : nat) (pattern : PayloadPattern) : bytes :=
  match fuel with
  | O => []
  | S fuel' =>
      if (remaining =? 0)%nat then [] else
      let n := Pattern.run_len remaining pattern in
      let '(part, pattern) := Pattern.run n pattern in
      part ++ fill_runs fuel' (remaining - n) pattern
  end.

(** What [fill] writes at the start of an output of [out_len] bytes. *)
Definition fill (out_len : Z) (p : ProbePayload) : bytes * ProbePayload :=
  let count := Z.min (default U64_MAX (usize_try_from (pp_total p - pp_offset p))) out_len in
  (fill_runs (Z.to_nat count) (Z.to_nat count) (Pattern.new (pp_offset p) (pp_packet_size p)),
   at_offset (pp_offset p + count) p).

Fixpoint matches_pattern (bytes : list Z) (pattern : PayloadPattern) : bool :=
  match bytes with
  | [] => true
  | byte :: bytes' =>
      let '(expected, pattern) := Pattern.next_byte pattern in
      (byte =? expected) && matches_pattern bytes' pattern
  end.

Definition consume (bytes : list Z) (verify : bool) (p : ProbePayload) : probe_res unit * ProbePayload :=
  if pp_total p - pp_offset p <? zlen bytes then (Err ProbeError.UnexpectedRange, p) else
  if verify && negb (matches_pattern bytes (Pattern.new (pp_offset p) (pp_packet_size p)))
  then (Err ProbeError.InvalidPayload, p)
  else (Ok tt, at_offset (pp_offset p + zlen bytes) p).

Definition check (bytes : list Z) : ProbePayload -> probe_res unit * ProbePayload := consume bytes true.
End Payload.

(** ** Checking a stream in numbered chunks *)
Record ProbeReceiver : Type := mkProbeReceiver {
  rc_validation : Z;
  rc_bytes : Z;
  rc_next_offset : Z;
  rc_next_packet_id : Z;
  rc_complete : bool;
  rc_callback_errors : list Z;
}.
#[export] Instance eta_ProbeReceiver : Eta ProbeReceiver := ltac:(mk_eta).
#[export] Instance set_rc_callback_errors : Setter rc_callback_errors := ltac:(mk_setter).

Module Receiver.
Definition new (validation : Z) : ProbeReceiver := mkProbeReceiver validation 0 0 0 false (replicate 6 0).

Definition fail (counter : nat) (err : ProbeError.t) (r : ProbeReceiver) : probe_res Z * ProbeReceiver :=
  (Err err, r <| rc_callback_errors ::= alter (fun n => sat_add n 1) counter |>).

(** The number, and at level 2 the bytes after it. *)
Definition valid_payload (bytes : list Z) (r : ProbeReceiver) : bool :=
  (rc_validation r <? 1)
  || ((be_val (take 4 bytes) =? rc_next_packet_id r)
      && ((rc_validation r <? 2)
          || bool_decide (drop 4 bytes = offset_bytes (rc_next_offset r) (length bytes - 4)))).

Definition receive (offset : Z) (fin : bool) (bytes : list Z) (r : ProbeReceiver) : probe_res Z * ProbeReceiver :=
  if rc_complete r || (zlen bytes <? 4) || negb (offset =? rc_next_offset r)
  then fail 2 ProbeError.UnexpectedRange r
  else if negb (valid_payload bytes r) then fail 5 ProbeError.InvalidPayload r
  else (Ok (zlen bytes),
        mkProbeReceiver (rc_validation r) (sat_add (rc_bytes r) (zlen bytes)) (sat_add (rc_next_offset r) (zlen bytes))
          ((rc_next_packet_id r + 1) mod 2 ^ 32) fin (rc_callback_errors r)).
End Receiver.

(** ** A group of streams *)
Record ProbeRun : Type := mkProbeRun {
  rn_normal : list ProbeReceiver;
  rn_high : ProbeReceiver;
  rn_low : ProbeReceiver;
  rn_normal_streams : nat;
  rn_high_enabled : bool;
  rn_low_enabled : bool;
}.
#[export] Instance eta_ProbeRun : Eta ProbeRun := ltac:(mk_eta).
#[export] Instance set_rn_normal : Setter rn_normal := ltac:(mk_setter).
#[export] Instance set_rn_high : Setter rn_high := ltac:(mk_setter).
#[export] Instance set_rn_low : Setter rn_low := ltac:(mk_setter).

Module Run.
(** [NORMAL] is the capacity; [clamp(1, NORMAL)] asserts that it is not zero. *)
Definition new (NORMAL : nat) (validation : Z) (normal_streams : nat) (high_enabled low_enabled : bool)
    : probe_res ProbeRun :=
  if (NORMAL =? 0)%nat then Panic else
  Ok (mkProbeRun (replicate NORMAL (Receiver.new validation)) (Receiver.new validation) (Receiver.new validation)
        (Nat.max 1 (Nat.min normal_streams NORMAL)) high_enabled low_enabled).

Definition active (r : ProbeRun) : list ProbeReceiver := take (rn_normal_streams r) (rn_normal r).

Definition is_complete (r : ProbeRun) : bool :=
  forallb rc_complete (active r)
  && (negb (rn_high_enabled r) || rc_complete (rn_high r))
  && (negb (rn_low_enabled r) || rc_complete (rn_low r)).

Definition normal_index (first_stream stream_id : Z) (r : ProbeRun) : option nat :=
  delta ← checked_sub stream_id first_stream;
  if negb (delta mod 4 =? 0) then None else
  let index := Z.to_nat (delta / 4) in
  if (index <? rn_normal_streams r)%nat then Some index else None.

(** The receiver the chunk is for, and how the run takes it back; the stream
    numbers of the priority streams follow those of the normal ones, and their
    sums are checked. *)
Definition receiver_of (first_stream stream_id : Z) (r : ProbeRun)
    : probe_res (ProbeReceiver * (ProbeReceiver -> ProbeRun)) :=
  match checked_add first_stream (4 * Z.of_nat (rn_normal_streams r)) ≫= fun high => (pair high) <$> checked_add high 4 with
  | None => Panic
  | Some (high_stream, low_stream) =>
      match normal_index first_stream stream_id r with
      | Some index =>
          match rn_normal r !! index with
          | Some receiver => Ok (receiver, fun x => r <| rn_normal ::= <[index := x]> |>)
          | None => Panic
          end
      | None =>
          if (stream_id =? high_stream) && rn_high_enabled r then Ok (rn_high r, fun x => r <| rn_high := x |>)
          else if (stream_id =? low_stream) && rn_low_enabled r then Ok (rn_low r, fun x => r <| rn_low := x |>)
          else Err ProbeError.UnexpectedStream
      end
  end.

Definition receive (first_stream stream_id offset : Z) (fin : bool) (bytes : list Z) (r : ProbeRun)
    : probe_res (bool * Z) * ProbeRun :=
  match receiver_of first_stream stream_id r with
  | Ok (receiver, put) =>
      let '(o, receiver) := Receiver.receive offset fin bytes receiver in
      let r := put receiver in
      (consumed ← o; Ok (is_complete r, consumed), r)
  | Err err => (Err err, r)
  | Panic => (Panic, r)
  end.

Definition normal_bytes (r : ProbeRun) : Z := foldr Z.add 0 (rc_bytes <$> active r).
Definition high_bytes (r : ProbeRun) : Z := rc_bytes (rn_high r).
Definition low_bytes (r : ProbeRun) : Z := rc_bytes (rn_low r).
Definition bytes_received (r : ProbeRun) : Z := sat_add (sat_add (normal_bytes r) (high_bytes r)) (low_bytes r).

Definition callback_errors (r : ProbeRun) : list Z :=
  foldl (fun totals receiver => zip_with sat_add totals (rc_callback_errors receiver)) (replicate 6 0)
    (active r ++ [rn_high r; rn_low r]).

Definition result (elapsed_us : Z) (r : ProbeRun) : ProbeResult :=
  mkProbeResult (bytes_received r) (normal_bytes r) (high_bytes r) (low_bytes r) elapsed_us (callback_errors r).
End Run.
