(* ===== verification/ProbeSpec.v ===== *)
(** * What a probe shows

    [Probe.v] against one-line references.  The division-free generator of
    [ProbePayload] writes the byte pattern that quotient and remainder define,
    under any chunking, and its checker accepts that pattern only; a
    [ProbeSender] and a [ProbeReceiver] agree on every schedule of windows; the
    plan divides the bytes it was asked for.  A sender whose last chunk would be
    shorter than a chunk number never finishes. *)

From S2P Require Import Prelude Records Probe.

(** ** The pattern *)

(** Byte [q] of a payload in packets of [ps]: the packet number, then the low
    byte of the position. *)
Definition reference_byte (ps q : Z) : Z :=
  if q mod ps <? 4 then default 0 (be_bytes 4 (q / ps) !! Z.to_nat (q mod ps)) else as_u8 q.
Definition reference (ps q : Z) (n : nat) : bytes := (fun i => reference_byte ps (q + Z.of_nat i)) <$> seq 0 n.

Lemma reference_S ps q n : reference ps q (S n) = reference_byte ps q :: reference ps (q + 1) n.
Proof.
  unfold reference. cbn [seq fmap list_fmap]. f_equal; [f_equal; lia|]. rewrite <- seq_shift, <- list_fmap_compose.
  apply list_fmap_ext. intros i x _. cbn. f_equal. lia.
Qed.

Lemma reference_app ps q a b : reference ps q (a + b) = reference ps q a ++ reference ps (q + Z.of_nat a) b.
Proof.
  revert q. induction a as [|a IH]; intros q; [cbn; by rewrite Z.add_0_r|].
  cbn [Nat.add]. rewrite !reference_S, IH. cbn [app]. do 3 f_equal. lia.
Qed.

Lemma length_reference ps q n : length (reference ps q n) = n.
Proof. unfold reference. by rewrite length_fmap, length_seq. Qed.

(** The packet numbers of a payload fit 32 bits. *)
Definition small (ps q : Z) : Prop := 4 <= ps /\ 0 <= q <= MAX_BYTES.

Lemma small_packet ps q : small ps q -> 0 <= q / ps <= 2 ^ 24.
Proof.
  intros [Hps [Hq Hm]]. split; [by apply Z.div_pos; lia|]. unfold MAX_BYTES in Hm.
  apply Z.div_le_upper_bound; lia.
Qed.

Lemma new_shape ps q : small ps q -> Pattern.new q ps = mkPayloadPattern ps (q mod ps) (q / ps) (be_bytes 4 (q / ps)) (as_u8 q).
Proof.
  intros Hs. pose proof (small_packet ps q Hs). unfold Pattern.new.
  rewrite (proj2 (Z.leb_le _ _)) by (unfold U32_MAX; lia). done.
Qed.

Lemma as_u8_add a b : as_u8 (as_u8 a + b) = as_u8 (a + b).
Proof. unfold as_u8. by rewrite Zplus_mod_idemp_l. Qed.

(** Advancing within a packet. *)
Lemma advance_new ps q n : small ps q -> small ps (q + n) -> 0 < n -> q mod ps + n <= ps ->
  Pattern.advance n (as_u8 (as_u8 q + n)) (Pattern.new q ps) = Pattern.new (q + n) ps.
Proof.
  intros Hs Hs' Hn Hw. rewrite !new_shape by done. unfold Pattern.advance. cbn [pt_within pt_packet_size pt_packet pt_header].
  rewrite as_u8_add. pose proof (small_packet _ _ Hs). pose proof (small_packet _ _ Hs'). destruct Hs as [Hps _].
  pose proof (Z.div_mod q ps ltac:(lia)) as Hdm. pose proof (Z.mod_pos_bound q ps ltac:(lia)).
  destruct (Z.eqb_spec (q mod ps + n) ps) as [Heq|Hne].
  - assert ((q + n) / ps = q / ps + 1 /\ (q + n) mod ps = 0) as [-> ->].
    { replace (q + n) with ((q / ps + 1) * ps) by lia. split; [apply Z.div_mul; lia|apply Z.mod_mul; lia]. }
    by rewrite Z.min_l by (unfold U32_MAX; lia).
  - assert ((q + n) / ps = q / ps /\ (q + n) mod ps = q mod ps + n) as [-> ->]; [|done].
    replace (q + n) with ((q mod ps + n) + q / ps * ps) by lia.
    rewrite Z.div_add, Z.mod_add by lia. rewrite Z.div_small, Z.mod_small by lia. lia.
Qed.

Lemma next_byte_new ps q : small ps q -> small ps (q + 1) ->
  Pattern.next_byte (Pattern.new q ps) = (reference_byte ps q, Pattern.new (q + 1) ps).
Proof.
  intros Hs Hs'. unfold Pattern.next_byte. rewrite <- (advance_new ps q 1); [|done|done|lia|].
  2:{ pose proof (Z.mod_pos_bound q ps ltac:(destruct Hs; lia)). lia. }
  rewrite new_shape by done. done.
Qed.

(** One run lies within the number or within the rest of a packet. *)
Lemma run_bytes ps q n : small ps q ->
  Z.of_nat n <= (if q mod ps <? 4 then 4 else ps) - q mod ps ->
  (if q mod ps <? 4 then take n (drop (Z.to_nat (q mod ps)) (be_bytes 4 (q / ps)))
   else (fun i => as_u8 (as_u8 q + Z.of_nat i)) <$> seq 0 n) = reference ps q n.
Proof.
  intros [Hps Hq] Hn. pose proof (Z.mod_pos_bound q ps ltac:(lia)) as Hw. pose proof (Z.div_mod q ps ltac:(lia)) as Hdm.
  assert (forall i, (i < n)%nat -> (q + Z.of_nat i) mod ps = q mod ps + Z.of_nat i /\ (q + Z.of_nat i) / ps = q / ps) as Hpos.
  { intros i Hi. assert (q mod ps + Z.of_nat i < ps) by (destruct (Z.ltb_spec (q mod ps) 4); lia).
    replace (q + Z.of_nat i) with ((q mod ps + Z.of_nat i) + q / ps * ps) by lia.
    rewrite Z.div_add, Z.mod_add by lia. rewrite Z.div_small, Z.mod_small by lia. lia. }
  apply list_eq. intros i. unfold reference. rewrite list_lookup_fmap.
  destruct (decide (i < n)%nat) as [Hi|Hi].
  - rewrite lookup_seq_lt by done. cbn [fmap option_fmap option_map Nat.add]. unfold reference_byte.
    destruct (Hpos i Hi) as [-> ->]. destruct (Z.ltb_spec (q mod ps) 4) as [Hlt|Hge].
    + rewrite (proj2 (Z.ltb_lt _ _)) by lia. rewrite lookup_take_lt by done. rewrite lookup_drop.
      replace (Z.to_nat (q mod ps + Z.of_nat i)) with (Z.to_nat (q mod ps) + i)%nat by lia.
      destruct (lookup_lt_is_Some_2 (be_bytes 4 (q / ps)) (Z.to_nat (q mod ps) + i)%nat) as [b ->]; [|done].
      rewrite length_be_bytes. lia.
    + rewrite (proj2 (Z.ltb_ge _ _)) by lia. rewrite list_lookup_fmap, lookup_seq_lt by done. cbn [fmap option_fmap option_map Nat.add].
      by rewrite as_u8_add.
  - rewrite (lookup_ge_None_2 (seq 0 n)) by (rewrite length_seq; lia). cbn. apply lookup_ge_None_2.
    destruct (q mod ps <? 4); [rewrite length_take; lia|rewrite length_fmap, length_seq; lia].
Qed.

Lemma fill_runs_reference ps : forall fuel n q,
  small ps q -> q + Z.of_nat n <= MAX_BYTES -> (n <= fuel)%nat ->
  Payload.fill_runs fuel n (Pattern.new q ps) = reference ps q n.
Proof.
  induction fuel as [|fuel IH]; intros n q Hs Hm Hf; [by replace n with 0%nat by lia|].
  cbn [Payload.fill_runs]. destruct (Nat.eqb_spec n 0) as [->|Hn]; [done|]. destruct Hs as [Hps Hq].
  set (k := Pattern.run_len n (Pattern.new q ps)).
  pose proof (Z.mod_pos_bound q ps ltac:(lia)) as Hw.
  assert (Z.of_nat k <= (if q mod ps <? 4 then 4 else ps) - q mod ps /\ (1 <= k <= n)%nat /\ q mod ps + Z.of_nat k <= ps) as (Hk & Hkn & Hkp).
  { unfold k, Pattern.run_len. rewrite new_shape by done. cbn [pt_within pt_packet_size].
    destruct (Z.ltb_spec (q mod ps) 4); lia. }
  unfold Pattern.run. rewrite (new_shape ps q) by done. cbn [pt_within pt_header pt_byte].
  rewrite <- (new_shape ps q) by done. rewrite run_bytes by done. rewrite advance_new by (unfold small; lia).
  rewrite IH by (unfold small; lia). rewrite <- reference_app. f_equal. lia.
Qed.

Lemma matches_reference ps : forall bytes q,
  small ps q -> q + zlen bytes <= MAX_BYTES ->
  Payload.matches_pattern bytes (Pattern.new q ps) = bool_decide (bytes = reference ps q (length bytes)).
Proof.
  induction bytes as [|b bytes IH]; intros q Hs Hm; [done|].
  assert (zlen (b :: bytes) = zlen bytes + 1) as Hl by (unfold zlen; cbn [length]; lia).
  pose proof (zlen_nonneg bytes). destruct Hs as [Hps Hq].
  cbn [Payload.matches_pattern length]. rewrite next_byte_new, IH, reference_S by (unfold small; lia).
  destruct (Z.eqb_spec b (reference_byte ps q)) as [->|Hne]; cbn [andb].
  - apply bool_decide_ext. split; [intros Heq; by f_equal|by intros [= Heq]].
  - symmetry. apply bool_decide_eq_false. by intros [= ? _].
Qed.

(** ** Any chunking *)
Definition payload_ok (p : ProbePayload) : Prop :=
  4 <= pp_packet_size p /\ 0 <= pp_offset p <= pp_total p /\ pp_total p <= MAX_BYTES.

(** The bytes that are left. *)
Definition rest (p : ProbePayload) : bytes :=
  reference (pp_packet_size p) (pp_offset p) (Z.to_nat (pp_total p - pp_offset p)).

Lemma zlen_rest p : payload_ok p -> zlen (rest p) = pp_total p - pp_offset p.
Proof. intros (_ & ? & _). unfold rest, zlen. rewrite length_reference. lia. Qed.

Lemma fill_rest p n : payload_ok p -> 0 <= n ->
  exists p', Payload.fill n p = (take (Z.to_nat n) (rest p), p') /\ payload_ok p' /\ rest p' = drop (Z.to_nat n) (rest p).
Proof.
  intros (Hps & Ho & Hm) Hn. unfold Payload.fill. unfold usize_try_from.
  rewrite (proj2 (Z.leb_le _ _)) by (unfold U64_MAX, MAX_BYTES in *; lia). cbn [default]. unfold id.
  remember (Z.min (pp_total p - pp_offset p) n) as c eqn:Hc.
  rewrite fill_runs_reference by (unfold small; lia).
  assert (rest p = reference (pp_packet_size p) (pp_offset p) (Z.to_nat c)
    ++ reference (pp_packet_size p) (pp_offset p + c) (Z.to_nat (pp_total p - (pp_offset p + c)))) as Hr.
  { unfold rest. replace (Z.to_nat (pp_total p - pp_offset p)) with (Z.to_nat c + Z.to_nat (pp_total p - (pp_offset p + c)))%nat by lia.
    rewrite reference_app. by replace (Z.of_nat (Z.to_nat c)) with c by lia. }
  eexists. split; [|split].
  - f_equal. rewrite Hr. destruct (Z.le_gt_cases n (pp_total p - pp_offset p)).
    + rewrite take_app_le by (rewrite length_reference; lia). rewrite take_ge; [done|]. rewrite length_reference. lia.
    + rewrite take_ge; [|rewrite length_app, !length_reference; lia].
      replace (Z.to_nat (pp_total p - (pp_offset p + c))) with 0%nat by lia. by rewrite app_nil_r.
  - unfold payload_ok. cbn. lia.
  - rewrite Hr. unfold rest. cbn [Payload.at_offset pp_packet_size pp_offset pp_total].
    destruct (Z.le_gt_cases n (pp_total p - pp_offset p)).
    + rewrite drop_app_length'; [done|]. rewrite length_reference. lia.
    + rewrite drop_ge; [|rewrite length_app, !length_reference; lia].
      by replace (Z.to_nat (pp_total p - (pp_offset p + c))) with 0%nat by lia.
Qed.

Lemma check_rest p bytes : payload_ok p ->
  exists p', Payload.check bytes p =
    (if pp_total p - pp_offset p <? zlen bytes then Err ProbeError.UnexpectedRange
     else if bool_decide (bytes = take (length bytes) (rest p)) then Ok tt else Err ProbeError.InvalidPayload, p') /\
    payload_ok p' /\
    rest p' = (if bool_decide (bytes = take (length bytes) (rest p)) then drop (length bytes) (rest p) else rest p).
Proof.
  intros Hok. pose proof Hok as (Hps & Ho & Hm). unfold Payload.check, Payload.consume. cbn [andb].
  destruct (Z.ltb_spec (pp_total p - pp_offset p) (zlen bytes)) as [Hlong|Hfit].
  { exists p. split; [done|]. split; [done|]. rewrite bool_decide_eq_false_2; [done|]. intros Heq.
    apply (f_equal length) in Heq. rewrite length_take in Heq. pose proof (zlen_rest p Hok). unfold zlen in *. lia. }
  assert (take (length bytes) (rest p) = reference (pp_packet_size p) (pp_offset p) (length bytes) /\
    drop (length bytes) (rest p) = reference (pp_packet_size p) (pp_offset p + zlen bytes) (Z.to_nat (pp_total p - (pp_offset p + zlen bytes))))
    as [Htake Hdrop].
  { unfold rest. unfold zlen in *.
    replace (Z.to_nat (pp_total p - pp_offset p)) with (length bytes + Z.to_nat (pp_total p - (pp_offset p + Z.of_nat (length bytes))))%nat by lia.
    rewrite reference_app. split; [rewrite take_app_le by (by rewrite length_reference); rewrite take_ge; [done|by rewrite length_reference]|].
    by rewrite drop_app_length' by (by rewrite length_reference). }
  rewrite matches_reference by (unfold small; lia). rewrite <- Htake.
  case_bool_decide as Hb; cbn [negb].
  - eexists. split; [done|]. pose proof (zlen_nonneg bytes). split; [unfold payload_ok; cbn; lia|]. rewrite Hdrop. done.
  - exists p. done.
Qed.

(** Buffers filled, and chunks checked, one after the other. *)
Fixpoint fill_all (sizes : list Z) (p : ProbePayload) : list bytes :=
  match sizes with
  | [] => []
  | n :: sizes' => let '(b, p) := Payload.fill n p in b :: fill_all sizes' p
  end.

Fixpoint check_all (chunks : list bytes) (p : ProbePayload) : probe_res unit * ProbePayload :=
  match chunks with
  | [] => (Ok tt, p)
  | b :: chunks' =>
      match Payload.check b p with
      | (Ok _, p) => check_all chunks' p
      | r => r
      end
  end.

Lemma fill_all_rest : forall sizes p, payload_ok p -> Forall (fun n => 0 <= n) sizes ->
  concat (fill_all sizes p) = take (Z.to_nat (foldr Z.add 0 sizes)) (rest p).
Proof.
  induction sizes as [|n sizes IH]; intros p Hok Hs; [done|]. apply Forall_cons in Hs as [Hn Hs].
  destruct (fill_rest p n Hok Hn) as (p' & Hf & Hok' & Hr). cbn [fill_all foldr]. rewrite Hf. cbn [concat].
  rewrite IH, Hr by done.
  assert (0 <= foldr Z.add 0 sizes) by (clear -Hs; induction Hs; cbn; lia).
  rewrite Z2Nat.inj_add by lia. apply take_take_drop.
Qed.

Lemma check_all_prefix : forall chunks p, payload_ok p ->
  ((check_all chunks p).1 = Ok tt <-> concat chunks `prefix_of` rest p) /\
  ((check_all chunks p).1 = Ok tt -> rest (check_all chunks p).2 = drop (length (concat chunks)) (rest p) /\
     payload_ok (check_all chunks p).2).
Proof.
  induction chunks as [|b chunks IH]; intros p Hok; cbn [check_all concat].
  { split; [split; [intros _; apply prefix_nil|done]|done]. }
  destruct (check_rest p b Hok) as (p' & Hc & Hok' & Hr). rewrite Hc. pose proof (zlen_rest p Hok) as Hl.
  destruct (Z.ltb_spec (pp_total p - pp_offset p) (zlen b)) as [Hlong|Hfit].
  { cbn [fst snd]. split; [|done]. split; [done|]. intros [k Hk]. exfalso. rewrite Hk, !zlen_app in Hl.
    pose proof (zlen_nonneg (concat chunks)). pose proof (zlen_nonneg k). lia. }
  case_bool_decide as Hb.
  - destruct (IH p' Hok') as [IH1 IH2]. rewrite Hr in IH1, IH2.
    assert (rest p = b ++ drop (length b) (rest p)) as Hsplit by (rewrite Hb at 1; by rewrite take_drop).
    split.
    + rewrite IH1. split.
      * intros [k Hk]. exists k. rewrite Hsplit, Hk. by rewrite app_assoc.
      * intros [k Hk]. exists k. rewrite <- app_assoc in Hk. rewrite Hsplit in Hk. by apply app_inv_head in Hk.
    + intros Hrun. destruct (IH2 Hrun) as [-> Hok2]. split; [|done]. by rewrite drop_drop, length_app.
  - cbn [fst snd]. split; [|done]. split; [done|]. intros [k Hk]. destruct Hb. rewrite Hk, <- app_assoc.
    by rewrite take_app_length.
Qed.

(** C32: The payload is the same bytes under any chunking.  Whatever the sizes of
    the buffers [fill] is given, it writes the pattern defined byte by byte with
    quotient and remainder, in order and to the end of the payload; and a
    receiver that checks chunks of any other sizes accepts exactly the prefixes
    of that pattern, and is complete exactly when it has seen all of it. *)
Theorem payload_any_chunking total ps p sizes chunks :
  Payload.new total ps = Some p -> 0 <= total -> Forall (fun n => 0 <= n) sizes ->
  concat (fill_all sizes p) = take (Z.to_nat (foldr Z.add 0 sizes)) (reference ps 0 (Z.to_nat total)) /\
  ((check_all chunks p).1 = Ok tt <-> concat chunks `prefix_of` reference ps 0 (Z.to_nat total)) /\
  ((check_all chunks p).1 = Ok tt ->
     Payload.is_complete (check_all chunks p).2 = bool_decide (concat chunks = reference ps 0 (Z.to_nat total))).
Proof.
  unfold Payload.new. destruct (_ && _) eqn:Hg; [|done]. intros [= <-] Ht Hs.
  apply andb_true_iff in Hg as [[_ Hm%Z.leb_le]%andb_true_iff Hps%Z.leb_le].
  set (p := mkProbePayload ps total 0). assert (payload_ok p) as Hok by (unfold payload_ok; cbn; lia).
  assert (rest p = reference ps 0 (Z.to_nat total)) as Hr by (unfold rest; cbn; by rewrite Z.sub_0_r).
  rewrite <- Hr. split; [by apply fill_all_rest|]. destruct (check_all_prefix chunks p Hok) as [Hiff Hres].
  split; [exact Hiff|]. intros Hrun. destruct (Hres Hrun) as [Hrest Hok']. apply Hiff in Hrun as [k Hk].
  pose proof (zlen_rest _ Hok') as Hl. rewrite Hrest, Hk, drop_app_length in Hl.
  unfold Payload.is_complete. rewrite Hk. destruct k as [|b k].
  - rewrite app_nil_r, bool_decide_eq_true_2 by done. apply Z.eqb_eq. unfold zlen in Hl. cbn in Hl. lia.
  - rewrite bool_decide_eq_false_2.
    + apply Z.eqb_neq. unfold zlen in Hl. cbn [length] in Hl. lia.
    + intros Heq. apply (f_equal length) in Heq. rewrite length_app in Heq. cbn [length] in Heq. lia.
Qed.

(** ** A sender and a receiver *)

(** One turn of a driver for each window and scratch size: what the sender
    prepares is received and committed. *)
Fixpoint transfer (grants : list (Z * Z)) (s : ProbeSender) (r : ProbeReceiver)
    : probe_res unit * (ProbeSender * ProbeReceiver) :=
  match grants with
  | [] => (Ok tt, (s, r))
  | (window, output_len) :: grants' =>
      match Sender.prepare window output_len s with
      | None => transfer grants' s r
      | Some (chunk, bytes) =>
          match Receiver.receive (ch_offset chunk) (ch_fin chunk) bytes r with
          | (Ok _, r) =>
              match Sender.commit chunk s with
              | (Ok _, s) => transfer grants' s r
              | (Err err, s) => (Err err, (s, r))
              | (Panic, s) => (Panic, (s, r))
              end
          | (Err err, r) => (Err err, (s, r))
          | (Panic, r) => (Panic, (s, r))
          end
      end
  end.

(** The two ends agree on how far they are. *)
Record in_step (total : Z) (s : ProbeSender) (r : ProbeReceiver) : Prop := {
  st_split : sn_offset s + sn_remaining s = total /\ 0 <= sn_offset s /\ 0 <= sn_remaining s;
  st_chunk : 4 <= sn_chunk_size s;
  st_offset : rc_next_offset r = sn_offset s;
  st_bytes : rc_bytes r = sn_offset s;
  st_id : rc_next_packet_id r = sn_packet_id s /\ is_u32 (sn_packet_id s);
  st_complete : rc_complete r = (sn_remaining s =? 0);
  st_errors : rc_callback_errors r = replicate 6 0;
}.

Lemma prepare_shape window output_len s chunk bytes :
  Sender.prepare window output_len s = Some (chunk, bytes) ->
  4 <= ch_len chunk <= sn_remaining s /\ zlen bytes = ch_len chunk /\
  chunk = mkProbeChunk (sn_stream_id s) (sn_offset s) (ch_len chunk) (ch_len chunk =? sn_remaining s) (sn_packet_id s) /\
  bytes = be_bytes 4 (sn_packet_id s) ++ offset_bytes (sn_offset s) (length bytes - 4).
Proof.
  unfold Sender.prepare. remember (Z.min _ _) as len eqn:Hlen. destruct (Z.ltb_spec len 4); [done|].
  intros Heq. apply (inj Some) in Heq. apply pair_equal_spec in Heq as [<- <-]. cbn [ch_len].
  assert (zlen (be_bytes 4 (sn_packet_id s) ++ offset_bytes (sn_offset s) (Z.to_nat (len - 4))) = len) as Hz.
  { rewrite zlen_app, zlen_be_bytes. unfold offset_bytes, zlen. rewrite length_fmap, length_seq. lia. }
  split; [lia|]. split; [done|]. split; [done|]. f_equal. f_equal. unfold zlen in Hz. lia.
Qed.

Lemma transfer_step total s r chunk bytes :
  in_step total s r -> total <= U64_MAX ->
  4 <= ch_len chunk <= sn_remaining s -> zlen bytes = ch_len chunk ->
  chunk = mkProbeChunk (sn_stream_id s) (sn_offset s) (ch_len chunk) (ch_len chunk =? sn_remaining s) (sn_packet_id s) ->
  bytes = be_bytes 4 (sn_packet_id s) ++ offset_bytes (sn_offset s) (length bytes - 4) ->
  exists n s' r', Receiver.receive (ch_offset chunk) (ch_fin chunk) bytes r = (Ok n, r') /\
    Sender.commit chunk s = (Ok tt, s') /\ in_step total s' r' /\ sn_offset s' = sn_offset s + ch_len chunk.
Proof.
  intros [(Hsum & Ho & Hr) Hcs Hro Hrb [Hid Hidr] Hrc Hre] Ht Hlen Hz -> Hb. cbn [ch_len ch_offset ch_fin ch_stream_id ch_packet_id] in *.
  set (len := ch_len chunk) in *.
  unfold Receiver.receive. rewrite Hrc, Hro, Z.eqb_refl, Hz, (proj2 (Z.eqb_neq _ _)), (proj2 (Z.ltb_ge _ _)) by lia.
  cbn [orb negb].
  assert (Receiver.valid_payload bytes r = true) as ->.
  { unfold Receiver.valid_payload. rewrite Hid, Hro.
    assert (be_val (take 4 bytes) = sn_packet_id s) as ->.
    { rewrite Hb, take_app_le by (by rewrite length_be_bytes). rewrite take_ge by (by rewrite length_be_bytes).
      rewrite be_val_be_bytes. apply Z.mod_small. unfold U32_MAX in *. lia. }
    rewrite Z.eqb_refl, bool_decide_eq_true_2; [by rewrite !orb_true_r|].
    rewrite Hb at 1. by rewrite drop_app_length' by (by rewrite length_be_bytes). }
  cbn [negb]. unfold Sender.commit. cbn [ch_len ch_offset ch_fin ch_stream_id ch_packet_id].
  rewrite !Z.eqb_refl, eqb_reflx, !(proj2 (Z.ltb_ge _ _)) by lia. cbn [orb negb].
  eexists _, _, _. split; [reflexivity|]. split; [reflexivity|]. cbn [sn_offset].
  assert (sat_add (sn_offset s) len = sn_offset s + len) as Hsat by (unfold sat_add; lia).
  split; [|exact Hsat]. split; cbn; rewrite ?Hrb, ?Hsat, ?Hid; try done; try lia.
  - split; [done|]. pose proof (Z.mod_pos_bound (sn_packet_id s + 1) (2 ^ 32)). unfold U32_MAX. lia.
Qed.

Lemma transfer_run total : forall grants s r, in_step total s r -> total <= U64_MAX ->
  exists s' r', transfer grants s r = (Ok tt, (s', r')) /\ in_step total s' r' /\ sn_offset s <= sn_offset s'.
Proof.
  induction grants as [|[w o] grants IH]; intros s r Hst Ht; cbn [transfer]; [by exists s, r|].
  destruct (Sender.prepare w o s) as [[chunk bytes]|] eqn:Hp; [|by apply IH].
  apply prepare_shape in Hp as (Hlen & Hz & Hc & Hb).
  destruct (transfer_step _ _ _ _ _ Hst Ht Hlen Hz Hc Hb) as (n & s1 & r1 & -> & -> & Hst1 & Ho).
  destruct (IH s1 r1 Hst1 Ht) as (s' & r' & Hrun & Hst' & Hle). exists s', r'. split; [done|]. split; [done|]. lia.
Qed.

(** What a probe sender sends, its receiver validates.  Over any sequence of
    flow windows and scratch buffers, at every validation level, each chunk the
    sender prepares is accepted by the receiver and by its own commit, no error
    is counted, both ends count the same bytes, and the receiver is complete
    exactly when the sender is; and the sender is held back only by windows or
    buffers under four bytes, or by a rest under four bytes. *)
Theorem probe_transfer_validated stream total chunk_size validation s grants :
  Sender.new stream total chunk_size = Some s -> 0 <= total <= U64_MAX ->
  exists s' r', transfer grants s (Receiver.new validation) = (Ok tt, (s', r')) /\
    rc_bytes r' = sn_offset s' /\ sn_offset s' + sn_remaining s' = total /\ rc_complete r' = Sender.is_complete s' /\
    rc_callback_errors r' = replicate 6 0 /\
    (forall window output_len, 4 <= window -> 4 <= output_len ->
       Sender.prepare window output_len s' = None <-> sn_remaining s' < 4).
Proof.
  unfold Sender.new. destruct (_ || _) eqn:Hg; [done|]. apply orb_false_iff in Hg as [Hn%Z.eqb_neq Hc%Z.ltb_ge].
  intros [= <-] Ht. set (s := mkProbeSender _ _ _ _ _).
  destruct (transfer_run total grants s (Receiver.new validation)) as (s' & r' & Hrun & [] & _); [|lia|].
  { split; cbn; try done; try lia. }
  exists s', r'. split; [exact Hrun|]. split; [done|]. split; [lia|]. split; [done|]. split; [done|].
  intros w o Hw Ho. unfold Sender.prepare.
  assert (4 <= default U64_MAX (usize_try_from w)).
  { unfold usize_try_from. destruct (_ <=? _); cbn; unfold id, U64_MAX; lia. }
  remember (default U64_MAX (usize_try_from w)) as a. destruct (Z.ltb_spec (Z.min (Z.min (Z.min (sn_remaining s') (sn_chunk_size s')) o) a) 4).
  - split; [intros _|done]. lia.
  - split; [done|]. lia.
Qed.

(** A rest of one to three bytes is never sent: no window and no buffer make the
    sender offer it, and the run does not complete. *)
Lemma short_rest_never_sent s : 0 < sn_remaining s < 4 ->
  Sender.is_complete s = false /\ forall window output_len, Sender.prepare window output_len s = None.
Proof.
  intros Hr. split; [unfold Sender.is_complete; apply Z.eqb_neq; lia|]. intros w o. unfold Sender.prepare.
  by rewrite (proj2 (Z.ltb_lt _ _)) by lia.
Qed.

(** Nine bytes in chunks of eight: the sender that [new] accepts cannot send the
    last byte. *)
Lemma nine_bytes_stall :
  exists s, Sender.new 3 9 8 = Some s /\
    let s' := (transfer [(100, 100)] s (Receiver.new 2)).2.1 in
    sn_remaining s' = 1 /\ Sender.is_complete s' = false /\
    forall window output_len, Sender.prepare window output_len s' = None.
Proof.
  eexists. split; [reflexivity|]. cbv zeta. split; [by vm_compute|]. apply short_rest_never_sent. by vm_compute.
Qed.

(** A sender that has sent full chunks only is in the pattern of the payload. *)
Lemma offset_bytes_reference q n : offset_bytes q n = (fun i => as_u8 (q + 4 + Z.of_nat i)) <$> seq 0 n.
Proof. apply list_fmap_ext. intros i x _. f_equal. lia. Qed.

Lemma sender_in_pattern s window output_len chunk bytes :
  Sender.prepare window output_len s = Some (chunk, bytes) -> 4 <= sn_chunk_size s ->
  sn_offset s = sn_packet_id s * sn_chunk_size s -> 0 <= sn_packet_id s ->
  bytes = reference (sn_chunk_size s) (sn_offset s) (length bytes).
Proof.
  intros Hp Hc Ho Hid. pose proof (prepare_shape _ _ _ _ _ Hp) as (Hlen & Hz & _ & Hb).
  assert (ch_len chunk <= sn_chunk_size s) as Hle.
  { unfold Sender.prepare in Hp. remember (Z.min _ _) as len eqn:Hl. destruct (_ <? 4); [done|].
    apply (inj Some) in Hp. apply pair_equal_spec in Hp as [<- _]. cbn [ch_len]. lia. }
  assert (forall i, 0 <= i < ch_len chunk -> (sn_offset s + i) mod sn_chunk_size s = i mod sn_chunk_size s /\
    (sn_offset s + i) / sn_chunk_size s = sn_packet_id s) as Hpos.
  { intros i Hi. rewrite Ho, Z.add_comm. rewrite Z.mod_add, Z.div_add by lia. split; [done|].
    rewrite Z.div_small by lia. lia. }
  apply list_eq. intros i. unfold reference. rewrite list_lookup_fmap.
  destruct (decide (i < length bytes)%nat) as [Hi|Hi].
  2:{ rewrite (lookup_ge_None_2 bytes), (lookup_ge_None_2 (seq 0 _)) by (rewrite ?length_seq; lia). done. }
  rewrite lookup_seq_lt by done. cbn [fmap option_fmap option_map Nat.add]. unfold zlen in Hz.
  unfold reference_byte. destruct (Hpos (Z.of_nat i) ltac:(lia)) as [-> ->]. rewrite Z.mod_small by lia. rewrite Hb.
  destruct (Z.ltb_spec (Z.of_nat i) 4).
  - rewrite lookup_app_l by (rewrite length_be_bytes; lia). rewrite Nat2Z.id.
    destruct (lookup_lt_is_Some_2 (be_bytes 4 (sn_packet_id s)) i) as [b ->]; [rewrite length_be_bytes; lia|done].
  - rewrite lookup_app_r by (rewrite length_be_bytes; lia). rewrite length_be_bytes, offset_bytes_reference.
    rewrite list_lookup_fmap, lookup_seq_lt by lia. cbn. do 2 f_equal. lia.
Qed.

(** ** The plan *)
Lemma shares_sum requested n : 1 <= n <= MAX_NORMAL_STREAMS -> 0 <= requested ->
  foldr Z.add 0 (take (Z.to_nat n) (Plan.share requested n <$> seq 0 (Z.to_nat MAX_NORMAL_STREAMS))) = requested.
Proof.
  intros Hn Hr. pose proof (Z.div_mod requested n ltac:(lia)). pose proof (Z.mod_pos_bound requested n ltac:(lia)).
  unfold MAX_NORMAL_STREAMS in *.
  assert (n = 1 \/ n = 2 \/ n = 3 \/ n = 4) as [-> |[-> |[-> | ->]]] by lia;
    cbv [Z.to_nat Pos.to_nat Pos.iter_op Nat.add seq fmap list_fmap take foldr Plan.share];
    repeat match goal with |- context [?a <? ?b] => destruct (Z.ltb_spec a b) end; lia.
Qed.

(** A plan is within its bounds and exact.  Whatever was asked for, a plan has
    one to four streams, packets of at least eight bytes, delays in range, and
    its streams carry together exactly the requested bytes, clamped to 64 MiB,
    in shares that differ by one byte at most. *)
Theorem plan_exact request max_packet_size :
  0 <= rq_bytes request ->
  (forall n, rq_high_priority_bytes request = Some n \/ rq_low_priority_bytes request = Some n -> 0 <= n) ->
  let p := Plan.from_request request max_packet_size in
  1 <= pl_normal_streams p <= MAX_NORMAL_STREAMS /\ length (pl_normal_bytes p) = 4%nat /\
  8 <= pl_packet_size p <= Z.max max_packet_size 8 /\ 1 <= pl_ack_frequency p <= 8 /\ 1 <= pl_ack_delay_ms p <= 25 /\
  0 <= pl_high_priority_bytes p <= MAX_BYTES /\ 0 <= pl_low_priority_bytes p <= MAX_BYTES /\
  Plan.total_bytes p = Z.max 1 (Z.min (rq_bytes request) MAX_BYTES) + pl_high_priority_bytes p + pl_low_priority_bytes p /\
  (forall a b x y, pl_normal_bytes p !! a = Some x -> pl_normal_bytes p !! b = Some y ->
     Z.of_nat a < pl_normal_streams p -> Z.of_nat b < pl_normal_streams p -> Z.abs (x - y) <= 1).
Proof.
  intros Hb Hprio p.
  assert (forall o, (forall n, o = Some n -> 0 <= n) -> 0 <= Plan.capped o <= MAX_BYTES) as Hcap.
  { intros [n|] Ho; unfold Plan.capped; cbn; [|unfold MAX_BYTES; lia]. specialize (Ho n eq_refl).
    unfold usize_try_from. destruct (_ <=? _); cbn; unfold id, MAX_BYTES; lia. }
  assert (1 <= pl_normal_streams p <= MAX_NORMAL_STREAMS) as Hn by (unfold p; cbn; unfold clamped, MAX_NORMAL_STREAMS; lia).
  pose proof (Hcap (rq_high_priority_bytes request) ltac:(eauto)) as Hh.
  pose proof (Hcap (rq_low_priority_bytes request) ltac:(eauto)) as Hl.
  split; [exact Hn|]. split; [done|]. split; [unfold p; cbn; unfold clamped; lia|].
  split; [unfold p; cbn; unfold clamped; lia|]. split; [unfold p; cbn; unfold clamped; lia|].
  split; [exact Hh|]. split; [exact Hl|]. split.
  - assert (pl_normal_bytes p = Plan.share (clamped (rq_bytes request) 1 MAX_BYTES) (pl_normal_streams p)
      <$> seq 0 (Z.to_nat MAX_NORMAL_STREAMS)) as Hs by done.
    unfold Plan.total_bytes. rewrite Hs, shares_sum; [|done|unfold clamped; lia].
    change (pl_high_priority_bytes p) with (Plan.capped (rq_high_priority_bytes request)).
    change (pl_low_priority_bytes p) with (Plan.capped (rq_low_priority_bytes request)).
    unfold sat_add, clamped. unfold U64_MAX, MAX_BYTES in *. lia.
  - intros a b x y Ha Hb' Hlta Hltb. revert Ha Hb'.
    change (pl_normal_bytes p) with (Plan.share (clamped (rq_bytes request) 1 MAX_BYTES) (pl_normal_streams p)
      <$> seq 0 (Z.to_nat MAX_NORMAL_STREAMS)).
    clearbody p. rewrite !list_lookup_fmap. unfold MAX_NORMAL_STREAMS in *. rewrite !lookup_seq_lt by lia. intros [= <-] [= <-].
    unfold Plan.share. cbn [Nat.add].
    repeat match goal with |- context [?a <? ?b] => destruct (Z.ltb_spec a b) end; lia.
Qed.

(** ** Concrete runs *)
Definition sample_payload : ProbePayload := mkProbePayload 6 20 0.

Lemma payload_any_chunking_witness :
  concat (fill_all [7; 0; 30] sample_payload) = reference 6 0 20 /\
  Payload.is_complete (check_all [reference 6 0 5; reference 6 5 15] sample_payload).2 = true.
Proof.
  destruct (payload_any_chunking 20 6 sample_payload [7; 0; 30] [reference 6 0 5; reference 6 5 15]) as (Hf & _ & Hc);
    [done|done|by repeat constructor|]. split.
  - rewrite Hf. by vm_compute.
  - rewrite Hc by (by vm_compute). by vm_compute.
Defined.

Definition sample_sender : ProbeSender := mkProbeSender 3 12 8 0 0.

Lemma probe_transfer_validated_witness :
  exists s' r', transfer [(8, 8); (0, 8); (100, 8)] sample_sender (Receiver.new 2) = (Ok tt, (s', r')) /\
    rc_complete r' = true /\ rc_bytes r' = 12.
Proof.
  destruct (probe_transfer_validated 3 12 8 2 sample_sender [(8, 8); (0, 8); (100, 8)]) as (s' & r' & Hrun & Hb & _ & Hc & _);
    [done|by vm_compute|].
  exists s', r'. split; [exact Hrun|]. vm_compute in Hrun. injection Hrun as <- <-. done.
Defined.

Lemma plan_exact_witness :
  Plan.total_bytes (Plan.from_request (mkProbeRequest 10 1200 None None (Some 7) None (Some 3) None None) 1100) = 17.
Proof.
  destruct (plan_exact (mkProbeRequest 10 1200 None None (Some 7) None (Some 3) None None) 1100)
    as (_ & _ & _ & _ & _ & _ & _ & -> & _); [done|by intros n [[=]|[= <-]]|done].
Defined.
