(* ===== verification/Node.v ===== *)
(** * The associations of a node

    [QuicNode] of [src/crates/quic-lite/src/node.rs]: the table of associations
    behind generation-checked handles, the connection identifiers routed to them
    ([PacketRouter] of [Router.v]), admission limits, lifecycle events, the start
    of a client association, the acceptance of an Initial, and removal.  Circuits
    are in [NodePaths.v], timers in [NodeTimer.v] and the theorems in
    [NodeSpec.v] and [NodeRoutes.v].

    The packet pool is another component ([PacketPool.v]); an operation that
    builds a packet takes [lease], the room of the slot the pool gives it behind
    the prefix reserve, or [None] when no slot is free.  Fields that only bearers
    and setup transactions use are left out. *)

From S2P Require Import Prelude Records Methods Actions Wire PacketHeader Reader Frames FlowControl Congestion PathState Endpoint Credit Ledger Transmit Bootstrap SortedKeys Registry SetupCodec SetupTable Router Callback Mux Association.

(** ** Limits *)
Record NodeLimits : Type := mkNodeLimits {
  nl_max_associations : Z;
  nl_max_routes : Z;
  nl_relay_control_packet_reserve : Z;
}.
Definition node_limits_host : NodeLimits := mkNodeLimits 4096 8192 0.
Definition node_limits_embedded : NodeLimits := mkNodeLimits 4 8 2.

Definition PACKET_PREFIX_RESERVE : Z := 80.
Definition PACKET_SUFFIX_RESERVE : Z := 24.
Definition DEFAULT_IDLE_TIMEOUT_US : Z := 30000000.
Definition CLIENT_BOOTSTRAP_ATTEMPTS : Z := 4.

(** ** Errors *)
Module QuicNodeError.
Inductive t : Type :=
  | AssociationTableFull
  | MissingAssociation
  | WrongAssociationRole
  | Routing
  | InvalidLimits.
End QuicNodeError.

Module QuicNodeEgressError.
Inductive t : Type :=
  | Association (e : QuicNodeError.t)
  | Transport (e : Error.t)
  | PoolUnavailable
  | InvalidPoolLayout
  | MissingEgressAddress
  | MissingBearer
  | BearerBusy
  | CircuitBusy
  | StreamEventsFull
  | AssociationTimedOut
  | PathSetupAttemptsExhausted
  | SetupRejected (code : Z).

(** Nothing of the supplied stream bytes was committed. *)
Definition is_retryable (e : t) : bool :=
  match e with
  | BearerBusy | PoolUnavailable => true
  | Transport Error.Blocked | Transport Error.FlowControl | Transport Error.HistoryFull => true
  | _ => false
  end.
End QuicNodeEgressError.
Abbreviation Transport := QuicNodeEgressError.Transport.
Abbreviation NoAssociation := (QuicNodeEgressError.Association QuicNodeError.MissingAssociation).

(** ** Handles and events *)
Record QuicAssociation : Type := mkQuicAssociation { qa_slot : nat; qa_generation : Z }.
#[export] Instance QuicAssociation_eq_dec : EqDecision QuicAssociation.
Proof. solve_decision. Defined.

Record CircuitId : Type := mkCircuitId { ci_association : QuicAssociation; ci_local_id : Z }.

Inductive AssociationEvent : Type :=
  | CircuitOpened (association : QuicAssociation) (circuit : CircuitId)
  | CircuitStatusChanged (association : QuicAssociation) (circuit : CircuitId) (status : CircuitStatus)
  | CircuitClosed (association : QuicAssociation) (circuit : CircuitId)
  | EventClosed (association : QuicAssociation) (code : Z)
  | EventReset (association : QuicAssociation)
  | IdleTimeout (association : QuicAssociation)
  | SetupTimeout (association : QuicAssociation)
  | EventSetupRejected (association : QuicAssociation) (circuit : option CircuitId) (association_retired : bool) (code : Z)
  | PeerReturnPathHints (association : QuicAssociation) (hints : NearbyRelayHints)
  | EventsDropped (count : Z).

(** ** The table *)
Inductive AssociationState : Type :=
  | ClientState (client : ClientAssociation)
  | ServerState (server : ServerStreamConnection).

Record ClientBootstrap : Type := mkClientBootstrap {
  bs_next_attempt : Z;
  bs_last_attempt_at : Z;
  bs_setup_transaction_id : option Z;
  bs_setup_relay_count : option Z;
  bs_setup_request : option bytes;
}.

(** The arrays are lists of [MAX_PATH_STATES] elements. *)
Record AssociationSlot : Type := mkAssociationSlot {
  as_generation : Z;
  as_receive_cid : Z;
  as_peer_join_cid : option Z;
  as_relayed_join_requests : list (option bytes);
  as_relayed_join_attempts : list Z;
  as_relayed_join_retry_at_us : list (option Z);
  as_relayed_join_deadline_us : list (option Z);
  as_receive_cids : list (option Z);
  as_next_circuit_sequence : list Z;
  as_highest_remote_circuit_sequence : list Z;
  as_next_transaction_id : Z;
  as_next_circuit_id : Z;
  as_state : AssociationState;
  as_bootstrap_address : option Address;
  as_bootstrap : option ClientBootstrap;
  as_close_code : option Z;
  as_last_activity_us : Z;
  as_ack_eliciting_sent_since_receive : bool;
  as_client_delivery : CallbackStreams;
  as_limits : AssociationLimits;
}.
#[export] Instance eta_AssociationSlot : Eta AssociationSlot := ltac:(mk_eta).
#[export] Instance set_as_relayed_join_requests : Setter as_relayed_join_requests := ltac:(mk_setter).
#[export] Instance set_as_relayed_join_attempts : Setter as_relayed_join_attempts := ltac:(mk_setter).
#[export] Instance set_as_relayed_join_retry_at_us : Setter as_relayed_join_retry_at_us := ltac:(mk_setter).
#[export] Instance set_as_relayed_join_deadline_us : Setter as_relayed_join_deadline_us := ltac:(mk_setter).
#[export] Instance set_as_receive_cids : Setter as_receive_cids := ltac:(mk_setter).
#[export] Instance set_as_next_circuit_sequence : Setter as_next_circuit_sequence := ltac:(mk_setter).
#[export] Instance set_as_highest_remote_circuit_sequence : Setter as_highest_remote_circuit_sequence := ltac:(mk_setter).
#[export] Instance set_as_next_transaction_id : Setter as_next_transaction_id := ltac:(mk_setter).
#[export] Instance set_as_next_circuit_id : Setter as_next_circuit_id := ltac:(mk_setter).
#[export] Instance set_as_state : Setter as_state := ltac:(mk_setter).
#[export] Instance set_as_bootstrap_address : Setter as_bootstrap_address := ltac:(mk_setter).
#[export] Instance set_as_bootstrap : Setter as_bootstrap := ltac:(mk_setter).
#[export] Instance set_as_close_code : Setter as_close_code := ltac:(mk_setter).
#[export] Instance set_as_last_activity_us : Setter as_last_activity_us := ltac:(mk_setter).
#[export] Instance set_as_ack_eliciting_sent_since_receive : Setter as_ack_eliciting_sent_since_receive := ltac:(mk_setter).
#[export] Instance set_as_client_delivery : Setter as_client_delivery := ltac:(mk_setter).
#[export] Instance set_as_limits : Setter as_limits := ltac:(mk_setter).

(** The handlers of datagrams are known by their association only. *)
Record QuicNode : Type := mkQuicNode {
  nd_associations : list (option AssociationSlot);
  nd_generations : list Z;
  nd_next_local_cid : Z;
  nd_clock_us : Z;
  nd_idle_timeout_us : Z;
  nd_router : PacketRouter QuicAssociation ForwardNextHop;
  nd_pending_controls : list QuicAssociation;
  nd_association_events : list AssociationEvent;
  nd_dropped_association_events : Z;
  nd_node_limits : NodeLimits;
  nd_default_association_limits : AssociationLimits;
  nd_datagram_handlers : list QuicAssociation;
}.
#[export] Instance eta_QuicNode : Eta QuicNode := ltac:(mk_eta).
#[export] Instance set_nd_associations : Setter nd_associations := ltac:(mk_setter).
#[export] Instance set_nd_generations : Setter nd_generations := ltac:(mk_setter).
#[export] Instance set_nd_next_local_cid : Setter nd_next_local_cid := ltac:(mk_setter).
#[export] Instance set_nd_clock_us : Setter nd_clock_us := ltac:(mk_setter).
#[export] Instance set_nd_idle_timeout_us : Setter nd_idle_timeout_us := ltac:(mk_setter).
#[export] Instance set_nd_router : Setter nd_router := ltac:(mk_setter).
#[export] Instance set_nd_pending_controls : Setter nd_pending_controls := ltac:(mk_setter).
#[export] Instance set_nd_association_events : Setter nd_association_events := ltac:(mk_setter).
#[export] Instance set_nd_dropped_association_events : Setter nd_dropped_association_events := ltac:(mk_setter).
#[export] Instance set_nd_node_limits : Setter nd_node_limits := ltac:(mk_setter).
#[export] Instance set_nd_default_association_limits : Setter nd_default_association_limits := ltac:(mk_setter).
#[export] Instance set_nd_datagram_handlers : Setter nd_datagram_handlers := ltac:(mk_setter).

Abbreviation node E := (action QuicNode E).

Record NodeEgress : Type := mkNodeEgress {
  ne_association : QuicAssociation;
  ne_address : Address;
  ne_packet : bytes;
}.

Definition DEFAULT_REORDER_CAPACITY_BYTES : Z := 64 * DEFAULT_MAX_PACKET_SIZE.
Definition ARRAY : nat := Z.to_nat MAX_PATH_STATES.
Definition role_index (r : Role) : nat := match r with Server => 1 | Client => 0 end.

(** ** An association's endpoint and paths *)
Definition state_role (s : AssociationState) : Role :=
  match s with ClientState _ => Client | ServerState _ => Server end.

Definition state_endpoint (s : AssociationState) : option EndpointState :=
  match s with
  | ClientState c => Assoc.endpoint c
  | ServerState sv => Some (mx_endpoint (sv_mux sv))
  end.
Definition slot_endpoint (s : AssociationSlot) : option EndpointState := state_endpoint (as_state s).

(** [client.connection_mut().endpoint_mut()?] or [&mut server.mux.endpoint] *)
Definition endpoint_mut {A} (f : ep A) : method AssociationState A := fun s =>
  match s with
  | ClientState c => let '(o, c) := Assoc.on_ep f c in (o, ClientState c)
  | ServerState sv => let '(o, sv) := Server.on_ep f sv in (o, ServerState sv)
  end.
Definition slot_ep {A} (f : ep A) : method AssociationSlot A := on_field as_state (endpoint_mut f).

(** [if let Some(path) = slot_path_state_mut(slot, i)], and the same for the endpoint. *)
Definition upd_endpoint (f : EndpointState -> EndpointState) (s : AssociationSlot) : AssociationSlot :=
  match slot_endpoint s with Some _ => (slot_ep (modify f) s).2 | None => s end.
Definition upd_slot_path (i : nat) (f : PathState -> PathState) : AssociationSlot -> AssociationSlot :=
  upd_endpoint (upd_path i f).

Definition slot_path_count (s : AssociationSlot) : nat :=
  match slot_endpoint s with Some e => length (e_paths e) | None => 0 end.
Definition slot_path_state (s : AssociationSlot) (i : nat) : option PathState :=
  slot_endpoint s ≫= fun e => get_path e i.
Definition slot_active_address (s : AssociationSlot) : option Address :=
  Ep.or_else (slot_path_state s 0 ≫= active_address) (as_bootstrap_address s).
Definition slot_path_id_for_cid (s : AssociationSlot) (cid : Z) : option nat :=
  fst <$> list_find (fun c => c = Some cid) (as_receive_cids s).

(** The entry at [i] is taken out, the later ones move down and the last becomes [d]. *)
Definition shift_out {A} (i : nat) (d : A) (l : list A) : list A := delete i l ++ [d].

Definition remove_slot_path_state (i : nat) : method AssociationSlot unit :=
  _ ← slot_ep (Ledger.remove_path_state i);
  modify (fun s => s <| as_receive_cids ::= shift_out i None |>
                     <| as_relayed_join_requests ::= shift_out i None |>
                     <| as_relayed_join_attempts ::= shift_out i 0 |>
                     <| as_relayed_join_retry_at_us ::= shift_out i None |>
                     <| as_relayed_join_deadline_us ::= shift_out i None |>).

Section addresses.
Context `{Allocator}.

Definition knows_address (a : Address) (s : AssociationSlot) (i : nat) : bool :=
  match slot_path_state s i with Some p => bool_decide (a ∈ known_addresses p) | None => false end.

Definition remember_slot_address (a : Address) (s : AssociationSlot) : AssociationSlot :=
  match list_find (fun i => knows_address a s i = true) (seq 0 ARRAY) with
  | Some (_, i) => upd_slot_path i (fun p => PathOps.remember_address p a) s <| as_bootstrap_address := None |>
  | None =>
      if bool_decide (as_bootstrap_address s = None) && bool_decide (slot_path_state s 0 ≫= active_address = None)
      then s <| as_bootstrap_address := Some a |> else s
  end.
End addresses.

(** ** The node *)
Module Node.
Section node.
Context `{Allocator, PacketSize, Features}.

(** [new]: [seed] is the first local identifier, chosen at random on hosts. *)
Definition new (seed : Z) : QuicNode :=
  mkQuicNode [None] [0] seed 0 DEFAULT_IDLE_TIMEOUT_US
    (Router.set_max_entries (nl_max_routes node_limits_host) Router.new) [] [] 0 node_limits_host association_limits_host [].

(** *** Lookup *)
Definition slot_index (n : QuicNode) (id : QuicAssociation) : option nat :=
  match nd_associations n !! qa_slot id with
  | Some (Some s) => if as_generation s =? qa_generation id then Some (qa_slot id) else None
  | _ => None
  end.

Definition slot (n : QuicNode) (id : QuicAssociation) : option AssociationSlot :=
  slot_index n id ≫= fun i => mjoin (nd_associations n !! i).

Definition set_slot (id : QuicAssociation) (s : AssociationSlot) (n : QuicNode) : QuicNode :=
  n <| nd_associations ::= <[qa_slot id := Some s]> |>.

(** [self.slot_mut(id).ok_or(missing)?] and a method of the slot, whose error is wrapped. *)
Definition on_slot {E A} (id : QuicAssociation) (missing : E) (wrap : Error.t -> E) (m : method AssociationSlot A)
    : node E A := fun n =>
  match slot n id with
  | None => (Err missing, n)
  | Some s => let '(o, s') := m s in (map_err wrap o, set_slot id s' n)
  end.

(** [if let Some(slot) = self.slot_mut(id) { f(slot) }] *)
Definition if_slot (id : QuicAssociation) (f : AssociationSlot -> AssociationSlot) (n : QuicNode) : QuicNode :=
  match slot n id with Some s => set_slot id (f s) n | None => n end.

Definition read_slot {E A} (id : QuicAssociation) (missing : E) (f : AssociationSlot -> outcome E A) : node E A :=
  ask (fun n => s ← ok_or (slot n id) missing; f s).

Definition contains_association (n : QuicNode) (id : QuicAssociation) : bool := bool_decide (slot n id <> None).

Definition association_is_established (n : QuicNode) (id : QuicAssociation) : bool :=
  match as_state <$> slot n id with
  | Some (ClientState c) => Client.is_established (ca_connection c)
  | Some (ServerState _) => true
  | None => false
  end.

Definition association_egress_address (n : QuicNode) (id : QuicAssociation) : option Address :=
  slot n id ≫= slot_active_address.

Definition association_count (n : QuicNode) : Z := zlen (omap id (nd_associations n)).

(** *** Limits *)
Definition set_limits (pool_capacity : Z) (l : NodeLimits) : node QuicNodeError.t unit :=
  _ ← throw_if ((nl_max_associations l =? 0) || (U32_MAX <? nl_max_associations l) || (nl_max_routes l =? 0)
                || (pool_capacity <? nl_relay_control_packet_reserve l)) QuicNodeError.InvalidLimits;
  update (fun n => n <| nd_router ::= Router.set_max_entries (nl_max_routes l) |> <| nd_node_limits := l |>).

(** The test both setters of association limits start with. *)
Definition association_limits_invalid (l : AssociationLimits) : bool :=
  (al_history_packets l =? 0)%nat || (al_transmission_records l =? 0)%nat || (al_max_pending_streams l =? 0)
  || (al_max_queued_chunks_per_stream l =? 0) || (al_max_buffered_stream_bytes l =? 0)
  || (al_duplication_budget_bytes l =? 0) || (al_path_probe_interval_us l =? 0)
  || negb (estimator_config_is_valid (al_path_estimator l)) || negb (pacing_config_is_valid (al_pacing l))
  || (l_max_data (al_connection l) =? 0) || (l_max_stream_data (al_connection l) =? 0).

Definition set_default_association_limits (l : AssociationLimits) : node QuicNodeError.t unit :=
  _ ← throw_if (association_limits_invalid l) QuicNodeError.InvalidLimits;
  update (fun n => n <| nd_default_association_limits := l |>).

Definition set_state_limits (l : AssociationLimits) : method AssociationState unit := fun s =>
  match s with
  | ClientState c => let '(o, c) := Assoc.set_runtime_limits l c in (o, ClientState c)
  | ServerState sv => let '(o, sv) := Server.set_runtime_limits l sv in (o, ServerState sv)
  end.

Definition set_association_limits (id : QuicAssociation) (l : AssociationLimits) : node QuicNodeEgressError.t unit :=
  _ ← throw_if (association_limits_invalid l) (Transport Error.Invalid);
  on_slot id NoAssociation Transport
    (_ ← on_field as_state (set_state_limits l);
     modify (fun s => s <| as_client_delivery ::= Streams.set_limits (al_max_pending_streams l) (al_max_buffered_stream_bytes l) |>
                        <| as_limits := l |>)).

Definition set_idle_timeout_us (timeout : Z) (n : QuicNode) : QuicNode := n <| nd_idle_timeout_us := Z.max timeout 1 |>.

(** *** Time *)
Definition advance_clock (now : Z) (n : QuicNode) : QuicNode :=
  let now := Z.max (nd_clock_us n) now in
  n <| nd_clock_us := now |> <| nd_associations ::= fmap (fmap (M:=option) (upd_endpoint (Ep.set_time now))) |>.

(** *** Events *)
Definition event_capacity (n : QuicNode) : Z :=
  sat_mul (sat_mul (Z.max (nl_max_associations (nd_node_limits n)) 1) MAX_PATH_STATES) 4.

Definition push_association_event (event : AssociationEvent) (n : QuicNode) : QuicNode :=
  let n := if event_capacity n <=? zlen (nd_association_events n)
           then n <| nd_association_events ::= tail |> <| nd_dropped_association_events ::= fun c => sat_add c 1 |>
           else n in
  n <| nd_association_events ::= fun l => l ++ [event] |>.

Definition next_association_event (n : QuicNode) : option AssociationEvent * QuicNode :=
  if negb (nd_dropped_association_events n =? 0)
  then (Some (EventsDropped (nd_dropped_association_events n)), n <| nd_dropped_association_events := 0 |>)
  else (head (nd_association_events n), n <| nd_association_events ::= tail |>).

(** *** Routes *)
Definition on_router {E A} (f : PacketRouter QuicAssociation ForwardNextHop -> outcome E A * PacketRouter QuicAssociation ForwardNextHop)
    : node E A := on_part nd_router f.

(** [DcidRegistryError] is [Routing]. *)
Definition routing : DcidRegistryError.t -> QuicNodeError.t := fun _ => QuicNodeError.Routing.

Definition register_endpoint (cid : Z) (id : QuicAssociation) : node QuicNodeError.t unit :=
  err_as routing (on_router (Router.register_endpoint cid id)).
Definition register_forward (cid : Z) (rule : ForwardRule ForwardNextHop) : node QuicNodeError.t unit :=
  err_as routing (on_router (Router.register_forward cid rule)).
Definition register_forward_pair (c1 : Z) (r1 : ForwardRule ForwardNextHop) (c2 : Z) (r2 : ForwardRule ForwardNextHop)
    : node QuicNodeError.t unit := err_as routing (on_router (Router.register_forward_pair c1 r1 c2 r2)).
Definition remove_forward (cid : Z) (n : QuicNode) : bool * QuicNode :=
  let '(b, r) := Router.remove_forward cid (nd_router n) in (b, n <| nd_router := r |>).
Definition remove_forward_pair (c1 c2 : Z) (n : QuicNode) : bool * QuicNode :=
  let '(b, r) := Router.remove_forward_pair c1 c2 (nd_router n) in (b, n <| nd_router := r |>).
Definition remove_endpoint (cid : Z) (id : QuicAssociation) (n : QuicNode) : bool * QuicNode :=
  let '(b, r) := Router.remove_endpoint cid id (nd_router n) in (b, n <| nd_router := r |>).

(** [for _ in 0..=max_associations]; a counter out of range is the [expect]. *)
Fixpoint try_cids (fuel : nat) (n : QuicNode) : outcome QuicNodeError.t Z * QuicNode :=
  match fuel with
  | O => (Err QuicNodeError.AssociationTableFull, n)
  | S fuel' =>
      let value := nd_next_local_cid n in
      let n := n <| nd_next_local_cid := Z.max (sat_add value 1) 1 |> in
      match ConnectionId.new value with
      | None => (Panic, n)
      | Some cid => if Router.contains (nd_router n) cid then try_cids fuel' n else (Ok cid, n)
      end
  end.
Definition allocate_local_cid : node QuicNodeError.t Z := fun n =>
  try_cids (Z.to_nat (nl_max_associations (nd_node_limits n) + 1)) n.

(** *** Admission *)
Definition slot_free (s : option AssociationSlot) : bool := match s with None => true | Some _ => false end.

(** The first free slot, or a new one while the table may grow. *)
Definition choose_slot (n : QuicNode) : option nat :=
  match list_find (fun s => slot_free s = true) (nd_associations n) with
  | Some (i, _) => Some i
  | None => if zlen (nd_associations n) <? nl_max_associations (nd_node_limits n)
            then Some (length (nd_associations n)) else None
  end.

Definition expect_ok {E S A} (r : res A * S) : outcome E S := match r.1 with Ok _ => Ok r.2 | _ => Panic end.

(** The default limits of the node on a new association. *)
Definition apply_default_limits (l : AssociationLimits) (s : AssociationState) : outcome QuicNodeError.t AssociationState :=
  match s with
  | ClientState c =>
      let c := c <| ca_connection ::= Client.set_duplication_budget_capacity (al_duplication_budget_bytes l) |> in
      c ← expect_ok (Assoc.on_connection (Client.set_pacing_config (al_pacing l)) c);
      c ← expect_ok (Assoc.on_connection (Client.set_path_estimator_config (al_path_estimator l)) c);
      Ok (ClientState (Assoc.on_ep (modify Ep.set_base_circuit_key) c).2)
  | ServerState sv =>
      let sv := (Server.upd_ep Ep.set_base_circuit_key sv).2 in
      let sv := (Server.upd_ep (Ep.set_duplication_budget_capacity (al_duplication_budget_bytes l)) sv).2 in
      sv ← expect_ok (Server.on_ep (Ep.set_path_estimator_config (al_path_estimator l)) sv);
      sv ← expect_ok (Server.on_ep (Ep.set_pacing_config (al_pacing l)) sv);
      Ok (ServerState sv)
  end.

Definition client_retention (s : AssociationState) : Z :=
  match s with
  | ClientState c => retention_for_receive_window (cl_local_limits (ca_connection c)) DEFAULT_REORDER_CAPACITY_BYTES
  | ServerState _ => DEFAULT_REORDER_CAPACITY_BYTES
  end.

Definition new_slot (generation cid now : Z) (l : AssociationLimits) (s : AssociationState) : AssociationSlot :=
  mkAssociationSlot generation cid None (replicate ARRAY None) (replicate ARRAY 0) (replicate ARRAY None)
    (replicate ARRAY None) (<[0%nat := Some cid]> (replicate ARRAY None)) [1; 1] [0; 0] 1 1 s None None None now false
    (Streams.new (al_max_pending_streams l) (Z.min (client_retention s) (al_max_buffered_stream_bytes l))) l.

(** [self.associations.push(entry)] or [self.associations[slot] = entry] *)
Definition put_association (i : nat) (entry : option AssociationSlot) (n : QuicNode) : QuicNode :=
  n <| nd_associations ::= fun l => if (i =? length l)%nat then l ++ [entry] else <[i := entry]> l |>.

(** A generation for the slot; [None] cannot be pushed. *)
Definition reserve_generation (i : nat) : node QuicNodeError.t unit := fun n =>
  let g := nd_generations n in
  if negb (i =? length g)%nat then (Ok tt, n) else
  if negb (try_reserve (length g)) then (Err QuicNodeError.AssociationTableFull, n)
  else (Ok tt, n <| nd_generations ::= fun g => g ++ [0] |>).

(** [self.generations[slot].checked_add(1).expect(..)] *)
Definition next_generation (i : nat) (n : QuicNode) : outcome QuicNodeError.t Z :=
  match nd_generations n !! i with
  | Some g => match checked_add g 1 with Some g => Ok g | None => Panic end
  | None => Panic
  end.

Definition insert (cid : Z) (s : AssociationState) : node QuicNodeError.t QuicAssociation :=
  i ← ask (fun n => ok_or (choose_slot n) QuicNodeError.AssociationTableFull);
  _ ← reserve_generation i;
  generation ← ask (next_generation i);
  let id := mkQuicAssociation i generation in
  _ ← register_endpoint cid id;
  _ ← update (fun n => n <| nd_generations ::= <[i := generation]> |>);
  s ← ask (fun n => apply_default_limits (nd_default_association_limits n) s);
  _ ← update (fun n => put_association i
        (Some (new_slot generation cid (nd_clock_us n) (nd_default_association_limits n) s)) n);
  _ ← update (push_association_event (CircuitOpened id (mkCircuitId id 0)));
  mret id.
Definition add_client (cid : Z) (c : ClientAssociation) : node QuicNodeError.t QuicAssociation := insert cid (ClientState c).
Definition add_server (cid : Z) (sv : ServerStreamConnection) : node QuicNodeError.t QuicAssociation := insert cid (ServerState sv).

(** *** Removal *)
(** [removed_all &= self.router.remove_endpoint(cid, &id)] for every identifier. *)
Fixpoint remove_endpoints (cids : list Z) (id : QuicAssociation) (n : QuicNode) : bool * QuicNode :=
  match cids with
  | [] => (true, n)
  | cid :: cids' =>
      let '(removed, n) := remove_endpoint cid id n in
      let '(rest, n) := remove_endpoints cids' id n in (removed && rest, n)
  end.

Definition other_than (id : QuicAssociation) (l : list QuicAssociation) : list QuicAssociation :=
  List.filter (fun a => negb (bool_decide (a = id))) l.

Definition remove (id : QuicAssociation) : node QuicNodeError.t AssociationState := fun n =>
  match slot_index n id, slot n id with
  | Some i, Some entry =>
      let n := n <| nd_associations ::= <[i := None]> |> <| nd_pending_controls ::= other_than id |>
                 <| nd_datagram_handlers ::= other_than id |> in
      (Ok (as_state entry), (remove_endpoints (omap (fun c => c) (as_receive_cids entry)) id n).2)
  | _, _ => (Err QuicNodeError.MissingAssociation, n)
  end.

Definition remove_client (id : QuicAssociation) : node QuicNodeError.t ClientAssociation := fun n =>
  match as_state <$> slot n id with
  | None => (Err QuicNodeError.MissingAssociation, n)
  | Some (ServerState _) => (Err QuicNodeError.WrongAssociationRole, n)
  | Some (ClientState _) =>
      match remove id n with
      | (Ok (ClientState c), n) => (Ok c, n)
      | (Ok (ServerState _), n) => (Panic, n)
      | (Err e, n) => (Err e, n)
      | (Panic, n) => (Panic, n)
      end
  end.

(** *** Packets *)
(** The slot the pool gives has room for a packet and the suffix reserve. *)
Definition lease_room (lease : option Z) (short : QuicNodeEgressError.t) : outcome QuicNodeEgressError.t unit :=
  match lease with
  | None => Err QuicNodeEgressError.PoolUnavailable
  | Some room => guard_err (room <? sat_add packet_size PACKET_SUFFIX_RESERVE) short
  end.

Definition build_packet {A} (lease : option Z) (serialize : node Error.t A) : node QuicNodeEgressError.t A :=
  _ ← pure_out (lease_room lease (Transport Error.BufferTooSmall));
  err_as Transport serialize.
Definition build_optional_packet {A} (lease : option Z) (serialize : node Error.t (option A))
    : node QuicNodeEgressError.t (option A) :=
  _ ← pure_out (lease_room lease QuicNodeEgressError.InvalidPoolLayout);
  err_as Transport serialize.

(** A serializer that works on a value the caller has not installed yet. *)
Definition build_local {A} (lease : option Z) (o : res A) : node QuicNodeEgressError.t A :=
  _ ← pure_out (lease_room lease (Transport Error.BufferTooSmall));
  pure_out (map_err Transport o).

(** A serializer on the slot of an association. *)
Definition slot_packet {A} (id : QuicAssociation) (m : method AssociationSlot A) : node Error.t A :=
  on_slot id Error.WrongConnectionId (fun e => e) m.

Definition remember_address (id : QuicAssociation) (a : Address) (n : QuicNode) : QuicNode :=
  if_slot id (fun s => remember_slot_address a s <| as_last_activity_us := nd_clock_us n |>
                                                 <| as_ack_eliciting_sent_since_receive := false |>) n.

Definition remember_ingress_path_address (id : QuicAssociation) (i : nat) (a : Address) (advance_egress : bool) (n : QuicNode)
    : QuicNode :=
  if_slot id (fun s => (if advance_egress then upd_slot_path i (fun p => PathOps.remember_address p a) s else s)
                         <| as_last_activity_us := nd_clock_us n |> <| as_ack_eliciting_sent_since_receive := false |>) n.

(** *** Both ends of a new association *)
(** [token]: the router's reset token for the identifier, if it issues them. *)
Definition start_association (cid : Z) (a : Address) (now : Z) (token : option bytes) (lease : option Z)
    : node QuicNodeEgressError.t NodeEgress :=
  l ← get nd_default_association_limits;
  c ← pure_out (map_err Transport
        (Assoc.boxed_with_runtime_limits cid (al_connection l) (al_history_packets l) (al_transmission_records l)));
  let c := match token with Some t => c <| ca_connection ::= Client.set_local_reset_token t |> | None => c end in
  '(packet, c) ← build_local lease (match Assoc.start c with (Ok p, c) => Ok (p, c) | (Err e, _) => Err e | (Panic, _) => Panic end);
  id ← err_as QuicNodeEgressError.Association (add_client cid c);
  _ ← update (if_slot id (upd_slot_path 0 PathOps.mark_unvalidated));
  _ ← update (remember_address id a);
  _ ← update (if_slot id (fun s => s <| as_bootstrap := Some (mkClientBootstrap 1 now None None None) |>));
  mret (mkNodeEgress id a packet).

Definition server_config (l : AssociationLimits) : ServerStreamConfig :=
  mkServerStreamConfig (al_history_packets l) (al_transmission_records l) (al_max_pending_streams l)
    (al_max_buffered_stream_bytes l).

Definition accept_initial (a : Address) (packet : bytes) (server_cid : Z) (local_limits : ConnectionLimits)
    (token : option bytes) (lease : option Z) : node QuicNodeEgressError.t NodeEgress :=
  config ← get (fun n => server_config (nd_default_association_limits n));
  '(server, response) ← build_local lease
    (Server.accept_open_boxed_with_config_into packet server_cid local_limits config token);
  id ← err_as QuicNodeEgressError.Association (add_server server_cid server);
  _ ← update (remember_address id a);
  mret (mkNodeEgress id a response).

(** *** Close *)
Inductive NodeClose : Type :=
  | CloseControl (packet : NodeEgress)
  | CloseDone (packet : NodeEgress).

Definition note_close (code : Z) : method AssociationSlot unit :=
  other ← gets (fun s => match as_close_code s with Some c => negb (c =? code) | None => false end);
  _ ← refuse_if other Error.Invalid;
  modify (fun s => s <| as_close_code := Some code |>).

Definition poll_state_transmit (i : nat) : method AssociationState (option bytes) := fun s =>
  match s with
  | ClientState c =>
      let '(o, c) := Assoc.on_connection (Client.poll_transmit_on_path i packet_size) c in (o, ClientState c)
  | ServerState sv => let '(o, sv) := Server.poll_transmit_on_path i packet_size sv in (o, ServerState sv)
  end.

Definition close_state (code : Z) : method AssociationState bytes := fun s =>
  match s with
  | ClientState c =>
      let '(o, c) := Assoc.on_connection
        (_ ← Client.close code; r ← Client.poll_close packet_size; lift_res (ok_or r Error.Invalid)) c in (o, ClientState c)
  | ServerState sv =>
      let '(o, sv) := (_ ← Server.close code; r ← Server.poll_close packet_size; lift_res (ok_or r Error.Invalid)) sv in
      (o, ServerState sv)
  end.

(** [busy]: the bearer of the address retains a packet; each packet has its lease. *)
Definition close_association (id : QuicAssociation) (code : Z) (busy : bool) (lease1 lease2 : option Z)
    : node QuicNodeEgressError.t NodeClose :=
  _ ← on_slot id NoAssociation Transport (note_close code);
  a ← read_slot id NoAssociation (fun s => ok_or (slot_active_address s) QuicNodeEgressError.MissingEgressAddress);
  _ ← throw_if busy QuicNodeEgressError.BearerBusy;
  _ ← read_slot id NoAssociation (fun _ => Ok tt);
  control ← build_optional_packet lease1 (slot_packet id (on_field as_state (poll_state_transmit 0)));
  match control with
  | Some packet => mret (CloseControl (mkNodeEgress id a packet))
  | None =>
      packet ← build_packet lease2 (slot_packet id (on_field as_state (close_state code)));
      _ ← err_as QuicNodeEgressError.Association (remove id);
      mret (CloseDone (mkNodeEgress id a packet))
  end.
End node.
End Node.
