(* ===== verification/RouterEndpoints.v ===== *)
(** * The endpoints of a router

    What the operations of [PacketRouter] do to the identifiers registered for
    local endpoints: registration adds one, removal takes the one it names, and
    everything a relay does with forwarding rules, leases and quotas leaves them
    alone. *)

From S2P Require Import Prelude Wire FlowControl SortedKeys Registry RegistrySpec SetupTable Router PathState Node.

(** ** The router's endpoints *)
Section router.
Context `{Allocator}.
Abbreviation router := (PacketRouter QuicAssociation ForwardNextHop).

Definition registry_ok (r : router) : Prop := sorted_keys fst (entries (registry r)).
Definition routed (r : router) (cid : Z) (id : QuicAssociation) : Prop := Router.endpoint_for_cid r cid = Some id.

Definition map_of (r : router) : routes := mkRoutes (to_map (entries (registry r))) (max_entries (registry r)).

Lemma map_of_represents r : registry_ok r -> represents (registry r) (map_of r).
Proof. by split. Qed.

Lemma routed_table r m cid id :
  represents (registry r) m -> routed r cid id <-> table m !! cid = Some (TEndpoint id).
Proof.
  intros Hr. unfold routed, Router.endpoint_for_cid, Registry.endpoint_for_cid. rewrite (lookup_spec _ m) by done.
  destruct (table m !! cid) as [[e|f]|]; naive_solver.
Qed.

(** An operation of the registry that leaves the endpoint entries alone. *)
Definition same_routes (r r' : router) : Prop :=
  registry_ok r -> registry_ok r' /\ forall cid id, routed r' cid id <-> routed r cid id.
#[export] Instance same_routes_pre : PreOrder same_routes.
Proof.
  split; [by intros r Hr|]. intros x y z Hxy Hyz Hx. destruct (Hxy Hx) as [Hy H1]. destruct (Hyz Hy) as [Hz H2].
  split; [done|]. intros. by rewrite H2, H1.
Qed.

Lemma same_routes_table r r' m m' :
  represents (registry r) m -> represents (registry r') m' ->
  (forall cid id, table m' !! cid = Some (TEndpoint id) <-> table m !! cid = Some (TEndpoint id)) ->
  same_routes r r'.
Proof.
  intros Hr Hr' Ht Hok. split; [apply (rp_sorted _ _ Hr')|]. intros cid id. by rewrite !routed_table by done.
Qed.

(** The operations that do not register or remove endpoints. *)
Definition forwards_only (op : reg_op (Endpoint := QuicAssociation) (NextHop := ForwardNextHop)) : Prop :=
  match op with OEndpoint _ _ | ORemove _ | ORemoveEndpoint _ _ | OIdempotent _ _ => False | _ => True end.

Lemma keep_endpoints p (m : routes (Endpoint := QuicAssociation) (NextHop := ForwardNextHop)) cid id :
  (forall id, p (TEndpoint id) = true) ->
  table (keep p m) !! cid = Some (TEndpoint id) <-> table m !! cid = Some (TEndpoint id).
Proof.
  intros Hp. unfold keep, on_table. cbn [table]. rewrite map_lookup_filter_Some. split; [by intros []|]. intros Hm. by split; [|apply Hp].
Qed.

Lemma forward_insert (m : routes (Endpoint := QuicAssociation) (NextHop := ForwardNextHop)) d f cid id :
  (forall e, table m !! d <> Some (TEndpoint e)) ->
  (<[d := TForward f]> (table m)) !! cid = Some (TEndpoint id) <-> table m !! cid = Some (TEndpoint id).
Proof.
  intros Hd. destruct (decide (d = cid)) as [->|Hne]; [|by rewrite lookup_insert_ne].
  rewrite lookup_insert_eq. split; [done|]. intros Hm. by destruct (Hd id).
Qed.

Lemma forward_delete (m : routes (Endpoint := QuicAssociation) (NextHop := ForwardNextHop)) d cid id :
  (forall e, table m !! d <> Some (TEndpoint e)) ->
  delete d (table m) !! cid = Some (TEndpoint id) <-> table m !! cid = Some (TEndpoint id).
Proof.
  intros Hd. destruct (decide (d = cid)) as [->|Hne]; [|by rewrite lookup_delete_ne].
  rewrite lookup_delete_eq. split; [done|]. intros Hm. by destruct (Hd id).
Qed.

Lemma active_endpoints d now (m : routes (Endpoint := QuicAssociation) (NextHop := ForwardNextHop)) cid id :
  table (spec_active d now m).2 !! cid = Some (TEndpoint id) <-> table m !! cid = Some (TEndpoint id).
Proof.
  unfold spec_active. destruct (table m !! d) as [[e|f]|] eqn:Hd; try done. destruct (_ <? _); [done|]. cbn [snd].
  destruct (_ =? _); [|by apply keep_endpoints]. apply forward_delete. congruence.
Qed.

Lemma forwards_endpoints op (m : routes (Endpoint := QuicAssociation) (NextHop := ForwardNextHop)) cid id :
  forwards_only op ->
  table (routes_apply op m).2 !! cid = Some (TEndpoint id) <-> table m !! cid = Some (TEndpoint id).
Proof.
  intros Hop. destruct op; try done; cbn [routes_apply].
  - destruct (negb _); [done|]. unfold spec_with, spec_insert. destruct (_ =? 0); [done|].
    destruct (table m !! dcid) eqn:Hd; [done|]. destruct (_ || _); [done|]. apply forward_insert. congruence.
  - unfold spec_with, spec_pair. destruct (_ || _); [done|]. destruct (Registry.pair_invalid _ _ _ _); [done|].
    cbn [snd]. match goal with |- context [if ?b then (Err DcidRegistryError.Occupied, m) else _] => destruct b eqn:Hb end; [done|].
    match goal with |- context [if ?b then (Err DcidRegistryError.Full, m) else _] => destruct b end; [done|].
    rewrite !orb_false_iff in Hb. destruct Hb as [[_ H1] H2]. apply bool_decide_eq_false in H1, H2. rewrite <- eq_None_not_Some in H1, H2.
    cbn [snd on_table table]. pose proof (forward_insert m second_cid second cid id) as Hs.
    rewrite <- Hs by congruence. destruct (decide (first_cid = cid)) as [->|Hne]; [|by rewrite lookup_insert_ne].
    rewrite lookup_insert_eq. destruct (decide (second_cid = cid)) as [->|Hne']; [by rewrite lookup_insert_eq|].
    rewrite lookup_insert_ne by done. by rewrite H1.
  - destruct (table m !! dcid) as [[e|g]|] eqn:Hd; try done. apply forward_insert. congruence.
  - unfold spec_with, removed_some, spec_remove_where. destruct (table m !! dcid) as [[e|g]|] eqn:Hd; try done.
    apply forward_delete. congruence.
  - destruct (table m !! first_cid) as [[e|g]|]; try done. destruct (table m !! second_cid) as [[e|g']|]; try done.
    destruct (_ || _); [done|]. by apply keep_endpoints.
  - by apply keep_endpoints.
  - unfold spec_with. apply active_endpoints.
  - unfold spec_with, spec_refresh. pose proof (active_endpoints dcid now m cid id) as Ha.
    destruct (spec_active dcid now m) as [[] m'] eqn:Hact; [|done]. cbn [snd] in *. rewrite <- Ha.
    destruct (table m' !! dcid) as [[e|f]|] eqn:Hd; try done. cbv zeta. destruct (_ =? _).
    + apply forward_insert. congruence.
    + cbn [on_table table]. rewrite lookup_fmap. destruct (table m' !! cid) as [[e|g]|]; cbn; [done| |done].
      unfold Registry.renew_group, Registry.renew. by destruct (Registry.in_group _ _).
  - destruct (table m !! dcid) as [[e|f]|] eqn:Hd; try done. destruct (Registry.consume_rule _ _ _).
    apply forward_insert. congruence.
Qed.

(** On the router. *)
Lemma forwards_same op (r : router) :
  forwards_only op -> same_routes r (mkPacketRouter (registry_apply op (registry r)).2 (setup_transactions r)).
Proof.
  intros Hop Hok. pose proof (map_of_represents r Hok) as Hr. destruct (apply_agrees op _ _ Hr) as [_ Hr'].
  refine (same_routes_table r (mkPacketRouter (registry_apply op (registry r)).2 (setup_transactions r)) _ _ Hr Hr' _ Hok). intros cid id. by apply forwards_endpoints.
Qed.

Lemma setups_same (r : router) t : same_routes r (mkPacketRouter (registry r) t).
Proof. done. Qed.

Lemma register_routes cid id (r r' : router) :
  registry_ok r -> Router.register_endpoint cid id r = (Ok tt, r') ->
  registry_ok r' /\ (forall e, ~ routed r cid e) /\
  forall c e, routed r' c e <-> (c = cid /\ e = id) \/ routed r c e.
Proof.
  intros Hok Hrun. pose proof (map_of_represents r Hok) as Hr. unfold Router.register_endpoint, Router.on_registry in Hrun.
  destruct (insert_agrees cid (TEndpoint id) _ _ Hr) as [He Hr']. unfold Registry.insert_endpoint in Hrun.
  injection Hrun as Ho <-. rewrite Ho in He. unfold spec_insert in He, Hr'. destruct (cid =? 0); [done|].
  destruct (table (map_of r) !! cid) as [t|] eqn:Hc; [done|]. destruct (_ || _); [done|]. cbn [snd] in Hr'.
  split; [apply (rp_sorted _ _ Hr')|]. split.
  - intros e. rewrite (routed_table r _ cid e Hr). congruence.
  - intros c e. rewrite (routed_table (mkPacketRouter _ (setup_transactions r)) _ c e Hr'), (routed_table r _ c e Hr). cbn [on_table table].
    destruct (decide (cid = c)) as [->|Hne].
    + rewrite lookup_insert_eq, Hc. naive_solver.
    + rewrite lookup_insert_ne by done. naive_solver.
Qed.

Lemma register_refused cid id (r r' : router) o :
  Router.register_endpoint cid id r = (o, r') -> o <> Ok tt -> r' = r /\ o <> Panic.
Proof.
  unfold Router.register_endpoint, Router.on_registry, Registry.insert_endpoint, Registry.insert. intros [= <- <-] Ho.
  revert Ho. destruct r as [reg t]. cbn [registry setup_transactions].
  destruct (cid =? 0); [done|]. destruct (Registry.find reg cid); [done|]. destruct (_ <=? _); [done|].
  by destruct (negb _).
Qed.

Lemma remove_routes cid id (r : router) :
  registry_ok r ->
  let r' := (Router.remove_endpoint cid id r).2 in
  registry_ok r' /\
  ((Router.remove_endpoint cid id r).1 = true <-> routed r cid id) /\
  forall c e, routed r' c e <-> routed r c e /\ ~ (c = cid /\ e = id).
Proof.
  intros Hok. pose proof (map_of_represents r Hok) as Hr.
  destruct (apply_agrees (ORemoveEndpoint cid id) _ _ Hr) as [He Hr']. cbn [registry_apply routes_apply] in He, Hr'.
  unfold reply_with, spec_with, removed_some in He, Hr'. cbn [fst snd] in He, Hr'. injection He as He.
  intros r'. change (registry r') with (Registry.remove_endpoint cid id (registry r)).2 in *.
  split; [apply (rp_sorted _ _ Hr')|].
  change ((Router.remove_endpoint cid id r).1) with (Registry.remove_endpoint cid id (registry r)).1.
  rewrite He, bool_decide_eq_true, (routed_table r _ cid id Hr).
  assert (forall c e, routed r' c e <-> table (spec_remove_where cid (fun t => bool_decide (t = TEndpoint id)) (map_of r)).2 !! c
    = Some (TEndpoint e)) as Hr'' by (intros; by apply routed_table).
  unfold spec_remove_where in *. destruct (table (map_of r) !! cid) as [t|] eqn:Hc; cbn [fst snd] in *.
  - destruct (bool_decide (t = TEndpoint id)) eqn:Ht; cbn [fst snd] in *.
    + apply bool_decide_eq_true in Ht as ->. split; [done|]. intros c e. rewrite Hr'', (routed_table r _ c e Hr).
      cbn [on_table table]. destruct (decide (cid = c)) as [->|Hne].
      * rewrite lookup_delete_eq, Hc. naive_solver.
      * rewrite lookup_delete_ne by done. naive_solver.
    + apply bool_decide_eq_false in Ht. split; [naive_solver|]. intros c e. rewrite Hr'', (routed_table r _ c e Hr).
      split; [|naive_solver]. intros Hx. split; [done|]. intros [-> ->]. congruence.
  - split; [done|]. intros c e. rewrite Hr'', (routed_table r _ c e Hr). split; [|naive_solver]. intros Hx.
    split; [done|]. intros [-> ->]. congruence.
Qed.
End router.
