(* ===== verification/NodePaths.v ===== *)
(** * The circuits of an association

    The methods of [QuicNode] ([src/crates/quic-lite/src/node.rs]) that open,
    retry, suspend and close a circuit of an association, take a bearer away, and
    apply the path-control frames of a peer: PATH_JOIN and its answer, the probes
    and PATH_STATUS.  [lease] is as in [Node.v]. *)

From S2P Require Import Prelude Records Methods Actions Wire PacketHeader Reader Frames FlowControl Congestion PathState Endpoint Credit Ledger Transmit Receive SortedKeys Registry SetupTable Router Mux Association Node.

(** [QuicNodePacketRejection] *)
Module Rejection.
Inductive t : Type :=
  | Packet (e : Error.t)
  | PeerClosed (code : Z)
  | Egress (e : QuicNodeEgressError.t)
  | ApplicationFailed (e : Error.t).
End Rejection.

(** An entry of an array of the slot. *)
Definition entry (i : nat) (l : list Z) : Z := default 0 (l !! i).

Module NodePath.
Section paths.
Context `{Allocator, PacketSize, Features}.

Definition node_error : QuicNodeError.t -> QuicNodeEgressError.t := QuicNodeEgressError.Association.

(** [loop]: a candidate that is not [avoid]; the counter has passed the first
    one, so the second is another. *)
Fixpoint fresh_cid (fuel : nat) (avoid : Z) : node QuicNodeError.t Z :=
  match fuel with
  | O => panic
  | S fuel' =>
      candidate ← Node.allocate_local_cid;
      if candidate =? avoid then fresh_cid fuel' avoid else mret candidate
  end.

Definition path_matching (f : PathState -> bool) (e : EndpointState) : option nat :=
  fst <$> list_find (fun p => f p = true) (e_paths e).

(** A read of the endpoint: [ok_or(absent)] or [unwrap] when it is missing. *)
Definition endpoint_or {E} (absent : outcome E EndpointState) (s : AssociationSlot) : outcome E EndpointState :=
  match slot_endpoint s with Some e => Ok e | None => absent end.

Definition transport_err {A} (e : Error.t) : outcome QuicNodeEgressError.t A := Err (Transport e).

(** *** A direct circuit *)
Record JoinPlan : Type := mkJoinPlan {
  jp_key : CircuitKey;
  jp_transaction_id : Z;
  jp_local_circuit_id : Z;
  jp_join_cid : Z;
  jp_peer_cid : Z;
}.

(** What [open_direct_path] reads, and the limits it tests. *)
Definition plan_join (s : AssociationSlot) : outcome QuicNodeEgressError.t JoinPlan :=
  let role := state_role (as_state s) in
  e ← endpoint_or (transport_err Error.Invalid) s;
  let sequence := entry (role_index role) (as_next_circuit_sequence s) in
  let transaction_id := as_next_transaction_id s in
  let local_circuit_id := as_next_circuit_id s in
  join_cid ← ok_or (Ep.or_else (as_peer_join_cid s) (Ep.peer_connection_id_on_path e 0)) (Transport Error.WrongConnectionId);
  peer_cid ← ok_or (Ep.peer_connection_id_on_path e 0) (Transport Error.WrongConnectionId);
  _ ← guard_err ((sequence =? 0) || (2 ^ 62 <=? sequence) || (transaction_id =? 0) || (2 ^ 62 <=? transaction_id)
                 || (local_circuit_id =? U64_MAX)) (Transport Error.PacketNumberExhausted);
  _ ← guard_err (MAX_PATH_STATES <=? zlen (e_paths e)) (Transport Error.PathLimit);
  Ok (mkJoinPlan (mkCircuitKey role sequence) transaction_id local_circuit_id join_cid peer_cid).

(** The new path of the slot, under the identifier it is reached by. *)
Definition install_path (add : ep nat) (f : PathState -> PathState) (local_cid : Z) : method AssociationSlot nat :=
  path_id ← slot_ep add;
  _ ← slot_ep (modify (upd_path path_id f));
  _ ← modify (fun s => s <| as_receive_cids ::= <[path_id := Some local_cid]> |>);
  mret path_id.

Definition join_path (p : JoinPlan) (address : Address) (local_cid : Z) : method AssociationSlot unit :=
  _ ← install_path (Ep.add_path_state_with_local_id local_cid)
        (fun path => PathOps.remember_address
           (PathOps.set_circuit path (jp_key p) (jp_transaction_id p) (jp_local_circuit_id p)) address) local_cid;
  modify (fun s => s <| as_next_circuit_sequence ::=
                          <[role_index (opener_role (jp_key p)) := sat_add (key_sequence (jp_key p)) 1]> |>
                     <| as_next_transaction_id := sat_add (jp_transaction_id p) 1 |>
                     <| as_next_circuit_id := jp_local_circuit_id p + 1 |>).

(** An identifier registered for the time of [m]: taken back when [m] fails. *)
Definition with_endpoint_route {E A} (routing : E) (cid : Z) (id : QuicAssociation) (m : node E A) : node E A :=
  _ ← err_as (fun _ => routing) (Node.register_endpoint cid id);
  catch m mret (fun e => _ ← update (fun n => (Node.remove_endpoint cid id n).2); throw e).

Definition join_packet (id : QuicAssociation) (i : nat) (destination : Z) (f : Frame) : node Error.t bytes :=
  Node.slot_packet id (slot_ep (Transmit.encode_path_control_packet i destination f packet_size)).

Definition open_direct_path (id : QuicAssociation) (address : Address) (lease : option Z)
    : node QuicNodeEgressError.t (CircuitKey * NodeEgress) :=
  p ← Node.read_slot id NoAssociation plan_join;
  local_cid ← err_as node_error (fresh_cid 2 (jp_peer_cid p));
  packet ← Node.build_packet lease
    (join_packet id 0 (jp_peer_cid p) (PathJoin (jp_join_cid p) (jp_key p) (jp_transaction_id p) local_cid));
  _ ← with_endpoint_route (node_error QuicNodeError.Routing) local_cid id
        (Node.on_slot id NoAssociation Transport (join_path p address local_cid));
  mret (jp_key p, mkNodeEgress id address packet).

Definition plan_retry (key : CircuitKey) (s : AssociationSlot) : outcome QuicNodeEgressError.t (Z * Z * Z * Address) :=
  e ← endpoint_or (transport_err Error.Invalid) s;
  i ← ok_or (Ep.path_with_key e key) (Transport Error.Invalid);
  path ← match get_path e i with Some p => Ok p | None => Panic end;
  _ ← guard_err (validated path) (Transport Error.Invalid);
  _ ← guard_err (MAX_PATH_JOIN_ATTEMPTS <=? join_attempts path) QuicNodeEgressError.PathSetupAttemptsExhausted;
  tid ← ok_or (transaction_id path) (Transport Error.Invalid);
  receive_cid ← ok_or (Ep.local_connection_id_on_path e i) (Transport Error.WrongConnectionId);
  peer_cid ← ok_or (Ep.peer_connection_id_on_path e 0) (Transport Error.WrongConnectionId);
  address ← ok_or (active_address path) QuicNodeEgressError.MissingEgressAddress;
  Ok (tid, receive_cid, peer_cid, address).

(** [paths.iter_mut().find(..).ok_or(Invalid)?] and [record_join_retry]. *)
Definition count_join_retry (key : CircuitKey) : ep unit := fun e =>
  match Ep.path_with_key e key with
  | None => (Err Error.Invalid, e)
  | Some i => (Ok tt, upd_path i (fun p => (PathOps.record_join_retry p).2) e)
  end.

Definition retry_direct_path (id : QuicAssociation) (key : CircuitKey) (lease : option Z)
    : node QuicNodeEgressError.t NodeEgress :=
  '(tid, receive_cid, peer_cid, address) ← Node.read_slot id NoAssociation (plan_retry key);
  packet ← Node.build_packet lease (join_packet id 0 peer_cid (PathJoin peer_cid key tid receive_cid));
  _ ← Node.on_slot id NoAssociation Transport (slot_ep (count_join_retry key));
  mret (mkNodeEgress id address packet).

(** *** Suspension and removal *)
Definition circuit_path (c : CircuitId) (e : EndpointState) : option nat :=
  path_matching (fun p => local_circuit_id p =? ci_local_id c) e.

(** The endpoint of a client that is not established is unwrapped. *)
Definition find_circuit (c : CircuitId) (s : AssociationSlot)
    : outcome QuicNodeEgressError.t (EndpointState * nat * PathState) :=
  e ← endpoint_or Panic s;
  i ← ok_or (circuit_path c e) (Transport Error.Invalid);
  match get_path e i with Some p => Ok (e, i, p) | None => Panic end.

Definition push_status (id : QuicAssociation) (local_id : Z) (status : CircuitStatus) (n : QuicNode) : QuicNode :=
  Node.push_association_event (CircuitStatusChanged id (mkCircuitId id local_id) status) n.

Definition suspend_path (i : nat) : ep unit :=
  key ← gets (fun e => get_path e i ≫= circuit_key);
  _ ← (match key with
       | Some _ => _ ← Ep.queue_path_status i Standby; mret tt
       | None => mret tt
       end);
  modify (Ledger.suspend_path i).

Definition suspend_circuit (c : CircuitId) : node QuicNodeEgressError.t unit :=
  let id := ci_association c in
  '(_, i, p) ← Node.read_slot id NoAssociation (find_circuit c);
  if suspended p then mret tt else
  _ ← Node.on_slot id NoAssociation Transport (slot_ep (suspend_path i));
  update (push_status id (local_circuit_id p) Suspended).

Record ClosePlan : Type := mkClosePlan {
  cp_path_id : nat;
  cp_receive_cid : Z;
  cp_busy : bool;
  cp_abandon_pending : bool;
  cp_abandon_complete : bool;
}.

Definition has_outstanding (i : nat) (p : PathState) (e : EndpointState) : bool :=
  existsb (Ledger.on_path i) (e_sent_packets e) || ack_pending p.

Definition plan_close (c : CircuitId) (s : AssociationSlot) : outcome QuicNodeEgressError.t ClosePlan :=
  '(e, i, p) ← find_circuit c s;
  _ ← guard_err (i =? 0)%nat (Transport Error.Invalid);
  cid ← ok_or (mjoin (as_receive_cids s !! i)) (Transport Error.WrongConnectionId);
  Ok (mkClosePlan i cid
        ((negb (validated p) || has_outstanding i p e) && negb (PathOps.local_abandon_complete p))
        (PathOps.local_abandon_pending p) (PathOps.local_abandon_complete p)).

Definition close_circuit (c : CircuitId) : node QuicNodeEgressError.t unit :=
  let id := ci_association c in
  p ← Node.read_slot id NoAssociation (plan_close c);
  _ ← throw_if (cp_busy p) QuicNodeEgressError.CircuitBusy;
  if negb (cp_abandon_complete p) then
    _ ← (if cp_abandon_pending p then mret tt else
         _ ← Node.on_slot id NoAssociation Transport (slot_ep (Ep.queue_path_status (cp_path_id p) Abandon));
         update (Node.push_association_event (CircuitStatusChanged id c Closed)));
    throw QuicNodeEgressError.CircuitBusy
  else
    removed ← (fun n => let '(b, n) := Node.remove_endpoint (cp_receive_cid p) id n in (Ok b, n));
    _ ← throw_if (negb removed) (node_error QuicNodeError.Routing);
    _ ← Node.on_slot id NoAssociation Transport (remove_slot_path_state (cp_path_id p));
    update (Node.push_association_event (CircuitClosed id c)).

(** *** Probes *)
Definition plan_probe (i : nat) (s : AssociationSlot) : outcome QuicNodeEgressError.t (Address * Z * Z * Z * Z) :=
  path ← ok_or (slot_path_state s i) (Transport Error.PathLimit);
  address ← ok_or (active_address path) QuicNodeEgressError.MissingEgressAddress;
  e ← endpoint_or Panic s;
  destination ← ok_or (Ep.peer_connection_id_on_path e i) (Transport Error.WrongConnectionId);
  local ← ok_or (Ep.local_connection_id_on_path e i) (Transport Error.WrongConnectionId);
  Ok (address, destination, local, e_next_packet_number e, al_path_probe_interval_us (as_limits s)).

Definition prepare_path_probe (id : QuicAssociation) (i : nat) (now : Z) (lease : option Z)
    : node QuicNodeEgressError.t NodeEgress :=
  '(address, destination, local, packet_number, interval) ← Node.read_slot id NoAssociation (plan_probe i);
  token ← pure_out (ok_or (Router.path_probe_token_for local packet_number) (Transport Error.Invalid));
  packet ← Node.build_packet lease (Node.slot_packet id (slot_ep
    (_ ← Ep.begin_path_probe i token now interval;
     Transmit.encode_path_control_packet i destination (PathChallenge token) packet_size)));
  mret (mkNodeEgress id address packet).

(** *** A bearer goes away *)
(** One path loses the bearer; without another address it is suspended. *)
Definition drop_bearer_on_path (bearer : Z) (i : nat) (r : EndpointState * list Z) : EndpointState * list Z :=
  let '(e, suspended_ids) := r in
  match get_path e i with
  | None => r
  | Some p =>
      let p := PathOps.remove_bearer p bearer in
      let e := upd_path i (fun _ => p) e in
      if bool_decide (active_address p = None) && negb (suspended p) then
        ((Ep.queue_path_status i Standby (Ledger.suspend_path i e)).2, suspended_ids ++ [local_circuit_id p])
      else (e, suspended_ids)
  end.

Definition drop_bearer (bearer : Z) (s : AssociationSlot) : AssociationSlot * list Z :=
  let '(s, ids) :=
    match slot_endpoint s with
    | Some e =>
        let '(e', ids) := fold_left (fun r i => drop_bearer_on_path bearer i r) (seq 0 (length (e_paths e))) (e, []) in
        (upd_endpoint (fun _ => e') s, ids)
    | None => (s, [])
    end in
  (match as_bootstrap_address s with
   | Some (b, _) => if b =? bearer then s <| as_bootstrap_address := None |> else s
   | None => s
   end, ids).

(** The part of [remove_bearer] for one slot of the table, with its events. *)
Definition remove_bearer_at (bearer : Z) (n : QuicNode) (i : nat) : QuicNode :=
  match nd_associations n !! i with
  | Some (Some s) =>
      let id := mkQuicAssociation i (as_generation s) in
      let '(s, ids) := drop_bearer bearer s in
      fold_left (fun n local_id => push_status id local_id Suspended n) ids (Node.set_slot id s n)
  | _ => n
  end.
(** [remove_bearer] of a registered bearer. *)
Definition remove_bearer (bearer : Z) (n : QuicNode) : QuicNode :=
  fold_left (remove_bearer_at bearer) (seq 0 (length (nd_associations n))) n.

(** *** Path control from the peer *)
Definition packet_err {A} (e : Error.t) : outcome Rejection.t A := Err (Rejection.Packet e).
Abbreviation NoSlot := (Rejection.Packet Error.WrongConnectionId).

Definition largest_on (i : nat) (e : EndpointState) : option Z := get_path e i ≫= largest_received_packet.

Definition newer (current previous : option Z) : bool :=
  match current, previous with
  | Some number, Some old => old <? number
  | Some _, None => true
  | None, _ => false
  end.

Definition receive_control (input : bytes) (ingress : nat) (received_at_us : Z) : ep unit :=
  previous ← gets (largest_on ingress);
  _ ← Receive.receive_packet_batch_on_path input ingress;
  current ← gets (largest_on ingress);
  if newer current previous then modify (Credit.record_bearer_arrival ingress received_at_us) else mret tt.

(** The path with the key and the transaction, and whether the key is taken otherwise. *)
Definition plan_accept (join_cid : Z) (key : CircuitKey) (tid : Z) (s : AssociationSlot) : outcome Rejection.t (option nat) :=
  e ← endpoint_or Panic s;
  _ ← guard_err (negb (bool_decide (Ep.local_connection_id_on_path e 0 = Some join_cid))) NoSlot;
  let existing := path_matching (fun p => Ep.has_key key p && bool_decide (transaction_id p = Some tid)) e in
  let conflict := existsb (Ep.has_key key) (e_paths e) && bool_decide (existing = None) in
  let highest := entry (role_index (opener_role key)) (as_highest_remote_circuit_sequence s) in
  _ ← guard_err (conflict || (bool_decide (existing = None) && (key_sequence key <=? highest)))
        (Rejection.Packet Error.BootstrapInvalid);
  Ok existing.

Definition repeated_join (i : nat) (receive_cid : Z) (address : Address) (s : AssociationSlot) : outcome Rejection.t unit :=
  e ← endpoint_or Panic s;
  p ← match get_path e i with Some p => Ok p | None => Panic end;
  guard_err (negb (bool_decide (Ep.peer_connection_id_on_path e i = Some receive_cid))
             || negb (bool_decide (address ∈ known_addresses p))) (Rejection.Packet Error.BootstrapInvalid).

Definition accept_join (key : CircuitKey) (tid receive_cid local_cid deadline : Z) (address : Address)
    : method AssociationSlot nat :=
  local_circuit_id ← gets as_next_circuit_id;
  _ ← refuse_if (local_circuit_id =? U64_MAX) Error.PacketNumberExhausted;
  i ← install_path (Ep.add_path_state_with_ids local_cid receive_cid)
        (fun p => PathOps.schedule_probe
           (PathOps.remember_address (PathOps.set_circuit p key tid local_circuit_id) address) deadline) local_cid;
  _ ← modify (fun s => s <| as_next_circuit_id := local_circuit_id + 1 |>
        <| as_highest_remote_circuit_sequence ::= <[role_index (opener_role key) := key_sequence key]> |>);
  mret i.

Definition taken_by_us (cid : Z) (s : AssociationSlot) : bool := bool_decide (Some cid ∈ as_receive_cids s).

Definition local_circuit_id_of (i : nat) (s : AssociationSlot) : option Z := local_circuit_id <$> slot_path_state s i.

Definition receive_path_join (id : QuicAssociation) (ingress : nat) (local_role : Role) (address : Address) (deadline : Z)
    (join_cid : Z) (key : CircuitKey) (tid receive_cid : Z) (lease : option Z) : node Rejection.t (option NodeEgress) :=
  _ ← throw_if (bool_decide (opener_role key = local_role) || negb (ingress =? 0)%nat) (Rejection.Packet Error.Invalid);
  existing ← Node.read_slot id NoSlot (plan_accept join_cid key tid);
  i ← match existing with
      | Some i => _ ← Node.read_slot id NoSlot (repeated_join i receive_cid address); mret i
      | None =>
          _ ← Node.read_slot id NoSlot (fun s => guard_err (taken_by_us receive_cid s) NoSlot);
          local_cid ← err_as (fun _ => Rejection.Packet Error.HistoryFull) (fresh_cid 2 receive_cid);
          i ← with_endpoint_route (Rejection.Packet Error.PathLimit) local_cid id
                (Node.on_slot id NoSlot Rejection.Packet (accept_join key tid receive_cid local_cid deadline address));
          _ ← update (fun n => match Node.slot n id ≫= local_circuit_id_of i with
                               | Some local_id => Node.push_association_event (CircuitOpened id (mkCircuitId id local_id)) n
                               | None => n
                               end);
          mret i
      end;
  local_receive_cid ← Node.read_slot id NoSlot
    (fun s => e ← endpoint_or Panic s; ok_or (Ep.local_connection_id_on_path e i) NoSlot);
  packet ← err_as Rejection.Egress (Node.build_packet lease
    (join_packet id i receive_cid (PathJoinAck key tid local_receive_cid)));
  mret (Some (mkNodeEgress id address packet)).

(** The circuit of the ingress path is validated; whether it was opening. *)
Definition apply_join_ack (ingress : nat) (key : CircuitKey) (tid receive_cid deadline : Z) (address : Address)
    : ep (bool * Z) :=
  p ← gets_res (fun e => ok_or (get_path e ingress) Error.PathLimit);
  _ ← refuse_if (negb (Ep.has_key key p) || negb (bool_decide (transaction_id p = Some tid))) Error.BootstrapInvalid;
  _ ← Ep.set_peer_connection_id_on_path ingress receive_cid;
  _ ← modify (upd_path ingress (fun p =>
        PathOps.schedule_probe (PathOps.mark_validated (PathOps.remember_address p address)) deadline));
  _ ← modify (Credit.request_path_validation_ack ingress);
  mret (negb (validated p), local_circuit_id p).

Definition receive_path_join_ack (id : QuicAssociation) (ingress : nat) (local_role : Role) (address : Address) (deadline : Z)
    (key : CircuitKey) (tid receive_cid : Z) : node Rejection.t (option NodeEgress) :=
  _ ← throw_if (negb (bool_decide (opener_role key = local_role)) || (ingress =? 0)%nat) (Rejection.Packet Error.Invalid);
  '(was_opening, local_id) ← Node.on_slot id NoSlot Rejection.Packet
    (slot_ep (apply_join_ack ingress key tid receive_cid deadline address));
  _ ← (if was_opening : bool then update (push_status id local_id Active) else mret tt);
  mret None.

Definition probe_interval (n : QuicNode) (id : QuicAssociation) : Z :=
  match Node.slot n id with Some s => al_path_probe_interval_us (as_limits s) | None => 5000000 end.

(** The destination of the answer, or [None] when the challenge is not answered now. *)
Definition plan_response (ingress : nat) (token now interval : Z) (s : AssociationSlot) : outcome Rejection.t (option Z) :=
  e ← endpoint_or Panic s;
  p ← ok_or (get_path e ingress) (Rejection.Packet Error.PathLimit);
  _ ← guard_err (negb (PathOps.is_probe_eligible p)) (Rejection.Packet Error.Invalid);
  if negb (PathOps.can_respond_to_peer_probe p token now interval) then Ok None else
  destination ← ok_or (Ep.peer_connection_id_on_path e ingress) NoSlot;
  Ok (Some destination).

Definition note_response (ingress : nat) (token now interval : Z) : ep bool :=
  p ← gets_res (fun e => ok_or (get_path e ingress) Error.PathLimit);
  if negb (PathOps.can_respond_to_peer_probe p token now interval) then mret false else
  _ ← modify (upd_path ingress (fun p => PathOps.record_peer_probe_response p token now));
  mret true.

Definition receive_path_challenge (id : QuicAssociation) (ingress : nat) (address : Address) (received_at_us token : Z)
    (lease : option Z) : node Rejection.t (option NodeEgress) :=
  now ← get (fun n => Z.max (nd_clock_us n) received_at_us);
  interval ← get (fun n => probe_interval n id);
  destination ← Node.read_slot id NoSlot (plan_response ingress token now interval);
  match destination with
  | None => mret None
  | Some destination =>
      packet ← err_as Rejection.Egress (Node.build_packet lease (join_packet id ingress destination (PathResponse token)));
      answered ← Node.on_slot id NoSlot Rejection.Packet (slot_ep (note_response ingress token now interval));
      mret (if answered : bool then Some (mkNodeEgress id address packet) else None)
  end.

(** A matched probe resumes a circuit that was probing or suspended. *)
Definition complete_path_probe (ingress : nat) (token now : Z) : ep (option Z) := fun e =>
  match get_path e ingress with
  | None => (Ok None, e)
  | Some p =>
      let was_probing := match PathOps.circuit_status p with Probing => true | _ => suspended p end in
      let '(sample, p') := PathOps.complete_probe p token now in
      let resumed := bool_decide (sample <> None) && was_probing in
      let p' := if resumed then PathOps.mark_validated p' else p' in
      (Ok (if resumed then Some (local_circuit_id p') else None), upd_path ingress (fun _ => p') e)
  end.

Definition receive_path_response (id : QuicAssociation) (ingress : nat) (received_at_us token : Z)
    : node Rejection.t (option NodeEgress) :=
  now ← get (fun n => Z.max (nd_clock_us n) received_at_us);
  resumed ← Node.on_slot id NoSlot Rejection.Packet (slot_ep (complete_path_probe ingress token now));
  match resumed with
  | None => mret None
  | Some local_id =>
      _ ← update (Node.if_slot id (upd_endpoint (fun e => (Ep.queue_path_status ingress Available e).2)));
      _ ← update (push_status id local_id Active);
      mret None
  end.

Definition apply_path_status (ingress : nat) (key : CircuitKey) (sequence : Z) (status : PathStatusKind)
    : ep (Z * option CircuitStatus) :=
  r ← (fun e => let '(r, e) := Ep.receive_path_status key sequence status e in (Ok r, e));
  '(i, changed) ← lift_res (ok_or r Error.WrongConnectionId);
  _ ← modify (Credit.request_path_validation_ack ingress);
  p ← gets_res (fun e => match get_path e i with Some p => Ok p | None => Panic end);
  mret (local_circuit_id p, if changed : bool then Some (PathOps.circuit_status p) else None).

Definition receive_path_status_frame (id : QuicAssociation) (ingress : nat) (address : Address) (key : CircuitKey)
    (sequence : Z) (status : PathStatusKind) (lease : option Z) : node Rejection.t (option NodeEgress) :=
  '(local_id, changed) ← Node.on_slot id NoSlot Rejection.Packet (slot_ep (apply_path_status ingress key sequence status));
  _ ← match changed with Some st => update (push_status id local_id st) | None => mret tt end;
  response ← err_as Rejection.Egress (Node.build_optional_packet lease
    (Node.slot_packet id (on_field as_state (Node.poll_state_transmit ingress))));
  mret (mkNodeEgress id address <$> response).

(** Other frames do not come out of [decode_path_control_packet]. *)
Definition apply_received_path_control (id : QuicAssociation) (ingress : nat) (address : Address) (received_at_us : Z)
    (input : bytes) (control : Frame) (lease : option Z) : node Rejection.t (option NodeEgress) :=
  local_role ← Node.read_slot id NoSlot (fun s => Ok (state_role (as_state s)));
  _ ← Node.on_slot id NoSlot Rejection.Packet (slot_ep (receive_control input ingress received_at_us));
  deadline ← get (fun n => sat_add (nd_clock_us n) (probe_interval n id));
  match control with
  | PathJoin join_cid key tid receive_cid =>
      receive_path_join id ingress local_role address deadline join_cid key tid receive_cid lease
  | PathJoinAck key tid receive_cid =>
      receive_path_join_ack id ingress local_role address deadline key tid receive_cid
  | PathChallenge token => receive_path_challenge id ingress address received_at_us token lease
  | PathResponse token => receive_path_response id ingress received_at_us token
  | PathStatus key sequence status => receive_path_status_frame id ingress address key sequence status lease
  | _ => panic
  end.

Definition receive_path_control (id : QuicAssociation) (ingress : nat) (address : Address) (received_at_us : Z)
    (input : bytes) (lease : option Z) : node Rejection.t (option (option NodeEgress)) :=
  control ← pure_out (map_err Rejection.Packet (decode_path_control_packet input));
  match control with
  | None => mret None
  | Some control =>
      r ← apply_received_path_control id ingress address received_at_us input control lease; mret (Some r)
  end.
End paths.
End NodePath.
