(* ===== verification/NodeTimer.v ===== *)
(** * The deadlines of a node

    [timer_expired] of [src/crates/quic-lite/src/node.rs] and what it does for
    the first of its causes that is due: an association idle for too long is
    retired; a relayed join is sent again or given up; a circuit is probed; the
    Initial of a client is sent again or the client retired; ACK, credit, path
    status and repair packets are sent.  [lease] and [lease'] are what the pool
    gives to the first and the second packet the call builds. *)

From S2P Require Import Prelude Records Methods Actions Wire PacketHeader Reader Frames FlowControl Congestion PathState Endpoint Credit Ledger Transmit Retransmit Receive SortedKeys Registry SetupTable Router Mux Association Node NodePaths.

Inductive NodeTimer : Type :=
  | TimerEgress (packet : NodeEgress)
  | BootstrapTimedOut (association : QuicAssociation)
  | IdleTimedOut (association : QuicAssociation)
  | CircuitSetupTimedOut (association : QuicAssociation) (circuit : CircuitId).

(** [min_by_key]: the first of the smallest. *)
Fixpoint earliest {A} (l : list (A * Z)) : option (A * Z) :=
  match l with
  | [] => None
  | (x, d) :: l' =>
      match earliest l' with
      | Some (y, d') => if d' <? d then Some (y, d') else Some (x, d)
      | None => Some (x, d)
      end
  end.

(** [iter().enumerate().filter_map(f)] over the live slots. *)
Definition over_slots {B} (f : nat -> AssociationSlot -> option B) (n : QuicNode) : list B :=
  omap (fun '(i, s) => s ≫= f i) (imap pair (nd_associations n)).

Module NodeTimer.
Section timer.
Context `{Allocator, PacketSize, Features}.

Definition handle (i : nat) (s : AssociationSlot) : QuicAssociation := mkQuicAssociation i (as_generation s).

Definition if_due (now deadline : Z) {A} (x : A) : option (A * Z) := if deadline <=? now then Some (x, deadline) else None.

(** *** Idle associations *)
Definition idle_deadline (n : QuicNode) (s : AssociationSlot) : Z := sat_add (as_last_activity_us s) (nd_idle_timeout_us n).

Definition idle_due (n : QuicNode) : list (QuicAssociation * Z) :=
  over_slots (fun i s => if_due (nd_clock_us n) (idle_deadline n s) (handle i s)) n.

Definition retire_idle (id : QuicAssociation) : node QuicNodeEgressError.t (option NodeTimer) :=
  _ ← err_as NodePath.node_error (Node.remove id);
  _ ← update (Node.push_association_event (IdleTimeout id));
  mret (Some (IdleTimedOut id)).

(** *** Relayed joins *)
Record DueJoin : Type := mkDueJoin {
  dj_association : QuicAssociation;
  dj_path_id : nat;
  dj_request : bytes;
  dj_attempts : Z;
  dj_deadline : Z;
  dj_local_circuit_id : Z;
  dj_local_cid : Z;
  dj_address : Address;
}.

Definition due_join_on (now : Z) (i : nat) (s : AssociationSlot) (path_id : nat) : option DueJoin :=
  request ← mjoin (as_relayed_join_requests s !! path_id);
  retry_at ← mjoin (as_relayed_join_retry_at_us s !! path_id);
  deadline ← mjoin (as_relayed_join_deadline_us s !! path_id);
  if (retry_at <=? now) || (deadline <=? now) then
    path ← slot_path_state s path_id;
    address ← active_address path;
    cid ← mjoin (as_receive_cids s !! path_id);
    Some (mkDueJoin (handle i s) path_id request (entry path_id (as_relayed_join_attempts s)) deadline
            (local_circuit_id path) cid address)
  else None.

Definition due_join (n : QuicNode) : option DueJoin :=
  head (over_slots (fun i s => head (omap (due_join_on (nd_clock_us n) i s) (seq 0 ARRAY))) n).

Definition give_up_join (j : DueJoin) : node QuicNodeEgressError.t (option NodeTimer) :=
  let id := dj_association j in
  let circuit := mkCircuitId id (dj_local_circuit_id j) in
  _ ← (fun n => match Node.slot n id with
                | Some _ => Node.on_slot id NoAssociation Transport (remove_slot_path_state (dj_path_id j)) n
                | None => (Ok tt, n)
                end);
  _ ← update (fun n => (Node.remove_endpoint (dj_local_cid j) id n).2);
  _ ← update (Node.push_association_event (CircuitStatusChanged id circuit Failed));
  _ ← update (Node.push_association_event (CircuitClosed id circuit));
  mret (Some (CircuitSetupTimedOut id circuit)).

(** The bytes of a saved request in a new packet. *)
Definition copy_request (request : bytes) : res bytes :=
  if packet_size <? zlen request then Err Error.BufferTooSmall else Ok request.

Definition retry_join (j : DueJoin) (now : Z) (lease : option Z) : node QuicNodeEgressError.t (option NodeTimer) :=
  let id := dj_association j in
  packet ← Node.build_local lease (copy_request (dj_request j));
  _ ← update (Node.if_slot id (fun s =>
        s <| as_relayed_join_attempts ::= <[dj_path_id j := sat_add8 (dj_attempts j) 1]> |>
          <| as_relayed_join_retry_at_us ::=
               <[dj_path_id j := Some (Z.min (sat_add now DEFAULT_INITIAL_PTO_US) (dj_deadline j))]> |>));
  mret (Some (TimerEgress (mkNodeEgress id (dj_address j) packet))).

(** *** Probes *)
Definition due_probe_path (now : Z) (e : EndpointState) (path_id : nat) : option (nat * Z) :=
  p ← get_path e path_id;
  local ← Ep.local_connection_id_on_path e path_id;
  _ ← Router.path_probe_token_for local (e_next_packet_number e);
  deadline ← next_probe_at_us p;
  if PathOps.is_probe_eligible p && (deadline <=? now) then Some (path_id, deadline) else None.

Definition due_probe (n : QuicNode) : option (QuicAssociation * nat) :=
  fst <$> earliest (over_slots (fun i s =>
    match as_bootstrap s, slot_endpoint s with
    | None, Some e =>
        '(path_id, deadline) ← head (omap (due_probe_path (nd_clock_us n) e) (seq 0 (length (e_paths e))));
        Some ((handle i s, path_id), deadline)
    | _, _ => None
    end) n).

(** *** Bootstrap, control and repair *)
Definition state_deadline (s : AssociationState) : option Z :=
  match s with
  | ClientState c => Assoc.next_bearer_deadline c
  | ServerState sv => Server.next_bearer_deadline sv
  end.

Definition slot_deadline (s : AssociationSlot) : option Z :=
  match as_bootstrap s with
  | Some b => Some (sat_add (bs_last_attempt_at b) DEFAULT_INITIAL_PTO_US)
  | None => state_deadline (as_state s)
  end.

Definition due_slot (n : QuicNode) : option QuicAssociation :=
  fst <$> earliest (over_slots (fun i s =>
    deadline ← slot_deadline s; if_due (nd_clock_us n) deadline (handle i s)) n).

(** The Initial again: the saved setup request, or a new attempt of the client. *)
Definition bootstrap_packet (b : ClientBootstrap) : method AssociationState bytes := fun s =>
  match s, bs_setup_request b with
  | ClientState _, Some request => (copy_request request, s)
  | ClientState c, None => let '(o, c) := Assoc.encode_open_attempt (bs_next_attempt b) c in (o, ClientState c)
  | ServerState _, _ => (Panic, s)
  end.

(** Only clients bootstrap. *)
Definition bootstrap_address_of (s : AssociationSlot) : outcome QuicNodeEgressError.t Address :=
  address ← ok_or (slot_active_address s) QuicNodeEgressError.MissingEgressAddress;
  match as_state s with ClientState _ => Ok address | ServerState _ => Panic end.

Definition bootstrap_expired (id : QuicAssociation) (b : ClientBootstrap) (now : Z) (lease : option Z)
    : node QuicNodeEgressError.t (option NodeTimer) :=
  if CLIENT_BOOTSTRAP_ATTEMPTS <=? bs_next_attempt b then
    _ ← err_as NodePath.node_error (Node.remove_client id);
    _ ← update (Node.push_association_event (SetupTimeout id));
    mret (Some (BootstrapTimedOut id))
  else
    address ← Node.read_slot id NoAssociation bootstrap_address_of;
    packet ← Node.build_packet lease (Node.slot_packet id (on_field as_state (bootstrap_packet b)));
    _ ← update (Node.if_slot id (fun s => s <| as_bootstrap :=
          Some (mkClientBootstrap (Z.min (bs_next_attempt b + 1) U32_MAX) now (bs_setup_transaction_id b)
                  (bs_setup_relay_count b) (bs_setup_request b)) |>));
    mret (Some (TimerEgress (mkNodeEgress id address packet))).

(** [path.active_address().or_else(|| (path_id == 0).then_some(bootstrap_address).flatten())] *)
Definition path_address (s : AssociationSlot) (i : nat) : option Address :=
  Ep.or_else (slot_path_state s i ≫= active_address) (if (i =? 0)%nat then as_bootstrap_address s else None).

(** The PATH_STATUS to send and where: status path, egress path, frame, destination, address. *)
Definition status_output (now : Z) (s : AssociationSlot)
    : outcome QuicNodeEgressError.t (option (nat * nat * Frame * Z * Address)) :=
  e ← NodePath.endpoint_or Panic s;
  Ok ('(status_path, (key, sequence, status)) ← Ep.pending_path_status e now;
      egress ← Ep.status_egress_path e;
      _ ← get_path e egress;
      address ← path_address s egress;
      destination ← Ep.peer_connection_id_on_path e egress;
      Some (status_path, egress, PathStatus key sequence status, destination, address)).

Definition poll_control (id : QuicAssociation) (lease : option Z) : node QuicNodeEgressError.t (option NodeEgress) :=
  r ← Node.read_slot id NoAssociation (fun s =>
        match slot_endpoint s ≫= Credit.pending_control_path with
        | None => Ok None
        | Some i => address ← ok_or (path_address s i) QuicNodeEgressError.MissingEgressAddress; Ok (Some (i, address))
        end);
  match r with
  | None => mret None
  | Some (i, address) =>
      packet ← Node.build_optional_packet lease (Node.slot_packet id (on_field as_state (Node.poll_state_transmit i)));
      mret (mkNodeEgress id address <$> packet)
  end.

Definition poll_association_control (id : QuicAssociation) (lease lease' : option Z)
    : node QuicNodeEgressError.t (option NodeEgress) :=
  now ← get nd_clock_us;
  output ← Node.read_slot id NoAssociation (status_output now);
  match output with
  | None => poll_control id lease
  | Some (status_path, egress, f, destination, address) =>
      catch (Node.build_packet lease (Node.slot_packet id (slot_ep
               (_ ← modify (Ep.set_time now); Transmit.encode_path_control_packet egress destination f packet_size))))
        (fun packet => mret (Some (mkNodeEgress id address packet)))
        (fun err => match err with
         | QuicNodeEgressError.Transport Error.Blocked | QuicNodeEgressError.Transport Error.HistoryFull =>
             _ ← Node.on_slot id NoAssociation Transport (slot_ep (modify (Ep.defer_path_status status_path egress)));
             poll_control id lease'
         | _ => throw err
         end)
  end.

(** The due recovery of the endpoint, with its pacing wake consumed. *)
Definition poll_state_timer (now : Z) : method AssociationState (option bytes) := fun s =>
  match s with
  | ClientState c =>
      let c := (Assoc.on_ep (modify Ep.on_bearer_timeout) c).2 in
      let '(o, c) := Assoc.poll_timer now packet_size c in (o, ClientState c)
  | ServerState sv =>
      let sv := (Server.upd_ep Ep.on_bearer_timeout sv).2 in
      let '(o, sv) := Server.poll_timer now packet_size sv in (o, ServerState sv)
  end.

Definition packet_route (packet : bytes) (s : AssociationSlot) : outcome QuicNodeEgressError.t Address :=
  '(header, _) ← map_err Transport (short_decode packet);
  e ← NodePath.endpoint_or (NodePath.transport_err Error.WrongConnectionId) s;
  i ← ok_or (Ep.path_id_for_peer_connection_id e (dcid header)) (Transport Error.WrongConnectionId);
  ok_or (path_address s i) QuicNodeEgressError.MissingEgressAddress.

Definition endpoint_expired (id : QuicAssociation) (now : Z) (lease lease' lease'' : option Z)
    : node QuicNodeEgressError.t (option NodeTimer) :=
  control ← poll_association_control id lease lease';
  match control with
  | Some packet => mret (Some (TimerEgress packet))
  | None =>
      packet ← Node.build_optional_packet lease'' (Node.slot_packet id (on_field as_state (poll_state_timer now)));
      match packet with
      | None => mret None
      | Some packet =>
          address ← Node.read_slot id NoAssociation (packet_route packet);
          mret (Some (TimerEgress (mkNodeEgress id address packet)))
      end
  end.

(** *** The whole *)
Definition start_turn (now : Z) (n : QuicNode) : QuicNode :=
  let n := Node.advance_clock now n in
  let n := n <| nd_router ::= fun r => (Router.expire_forward_leases (nd_clock_us n) r).2 |> in
  n <| nd_router ::= fun r => (Router.expire_setup_transactions (nd_clock_us n) r).2 |>.

Definition timer_expired (now : Z) (lease lease' lease'' : option Z) : node QuicNodeEgressError.t (option NodeTimer) :=
  _ ← update (start_turn now);
  now ← get nd_clock_us;
  idle ← get (fun n => fst <$> earliest (idle_due n));
  match idle with Some id => retire_idle id | None =>
  join ← get due_join;
  match join with
  | Some j => if (dj_deadline j <=? now) || (MAX_PATH_JOIN_ATTEMPTS <=? dj_attempts j)
              then give_up_join j else retry_join j now lease
  | None =>
  probe ← get due_probe;
  match probe with
  | Some (id, path_id) =>
      packet ← NodePath.prepare_path_probe id path_id now lease; mret (Some (TimerEgress packet))
  | None =>
  due ← get due_slot;
  match due with
  | None => mret None
  | Some id =>
      bootstrap ← Node.read_slot id NoAssociation (fun s => Ok (as_bootstrap s));
      match bootstrap with
      | Some b => bootstrap_expired id b now lease
      | None => endpoint_expired id now lease lease' lease''
      end
  end end end end.

(** *** The next deadline *)
Definition probe_deadline_on (e : EndpointState) (path_id : nat) : option Z :=
  p ← get_path e path_id;
  if negb (PathOps.is_probe_eligible p) then None else
  local ← Ep.local_connection_id_on_path e path_id;
  _ ← Router.path_probe_token_for local (e_next_packet_number e);
  next_probe_at_us p.

Definition minimum (l : list Z) : option Z := match l with [] => None | d :: l => Some (foldr Z.min d l) end.

Definition probe_deadline (s : AssociationSlot) : option Z :=
  match as_bootstrap s, slot_endpoint s with
  | None, Some e => minimum (omap (probe_deadline_on e) (seq 0 (length (e_paths e))))
  | _, _ => None
  end.

Definition setup_deadlines (s : AssociationSlot) (path_id : nat) : list Z :=
  match mjoin (as_relayed_join_requests s !! path_id) with
  | Some _ => omap (fun d => d) [mjoin (as_relayed_join_retry_at_us s !! path_id);
                                 mjoin (as_relayed_join_deadline_us s !! path_id)]
  | None => []
  end.
Definition setup_deadline (s : AssociationSlot) : option Z := minimum (flat_map (setup_deadlines s) (seq 0 ARRAY)).

Definition min_with (o : option Z) (d : Z) : Z := match o with Some x => Z.min d x | None => d end.

Definition association_deadline (n : QuicNode) (s : AssociationSlot) : Z :=
  min_with (setup_deadline s) (min_with (probe_deadline s) (min_with (slot_deadline s) (idle_deadline n s))).

Definition next_deadline (n : QuicNode) : option Z :=
  minimum (omap (fun d => d)
    [minimum (over_slots (fun _ s => Some (association_deadline n s)) n);
     Router.next_forward_lease_deadline (nd_router n); Router.next_setup_deadline (nd_router n)]).
End timer.
End NodeTimer.
