(* ===== verification/NodeRoutes.v ===== *)
(** * Routes and handles of a node

    Two promises of the association table, over every sequence of operations of
    the node.  The identifiers registered for an association in the router are
    exactly those its slot lists, one per path and no other association's, so
    removing it retires every one of them.  And a handle that has been removed
    never names an association again, whatever slots are reused. *)

From S2P Require Import Prelude Records Methods Actions Wire PacketHeader AckRanges Reader Frames FlowControl Congestion PathState Endpoint Credit Ledger Transmit Retransmit Receive PathCount SortedKeys Registry RegistrySpec SetupTable Router Callback Mux Association Node RouterEndpoints NodePaths NodeTimer.

(** ** One slot *)
Definition listed (s : AssociationSlot) (cid : Z) : Prop := Some cid ∈ as_receive_cids s.
Definition paths_or_one (s : AssociationSlot) : nat := Nat.max 1 (slot_path_count s).

(** One identifier for each path, or for the path to come; none twice. *)
Record slot_ok (s : AssociationSlot) : Prop := {
  so_length : length (as_receive_cids s) = ARRAY;
  so_aligned : forall i, is_Some (mjoin (as_receive_cids s !! i)) <-> (i < paths_or_one s)%nat;
  so_distinct : forall i j cid, as_receive_cids s !! i = Some (Some cid) -> as_receive_cids s !! j = Some (Some cid) -> i = j;
  so_paths : slot_endpoint s <> None -> (0 < slot_path_count s)%nat;
}.

(** The slot keeps its handle, its identifiers and its paths. *)
Record slot_same (s s' : AssociationSlot) : Prop := {
  ss_generation : as_generation s' = as_generation s;
  ss_cids : as_receive_cids s' = as_receive_cids s;
  ss_paths : paths_or_one s' = paths_or_one s;
  ss_endpoint : slot_endpoint s' <> None -> (slot_endpoint s <> None -> (0 < slot_path_count s)%nat) ->
                (0 < slot_path_count s')%nat;
}.
#[export] Instance slot_same_pre : PreOrder slot_same.
Proof.
  split.
  - intros s. by split; [..|intros H1 H2; apply H2].
  - intros x y z [H1 H2 H3 H4] [K1 K2 K3 K4]. split; [congruence..|]. intros Hz Hx. apply K4; [done|]. intros Hy. by apply H4.
Qed.

Lemma slot_same_ok s s' : slot_same s s' -> slot_ok s -> slot_ok s'.
Proof.
  intros [Hg Hc Hp He] [Hl Ha Hd Hs]. split; rewrite ?Hc; [done| |done|by intros; apply He].
  intros i. by rewrite Ha, Hp.
Qed.

Lemma listed_same s s' cid : slot_same s s' -> listed s' cid <-> listed s cid.
Proof. intros [_ Hc _ _]. unfold listed. by rewrite Hc. Qed.

Section slots.
Context `{Allocator, PacketSize, Features}.

(** A method of the endpoint, on the slot. *)
Lemma slot_ep_shape {A} (f : ep A) s :
  exists o st, slot_ep f s = (o, s <| as_state := st |>) /\
    match slot_endpoint s with
    | Some e => o = (f e).1 /\ state_endpoint st = Some (f e).2
    | None => o = Err Error.Invalid /\ st = as_state s
    end.
Proof.
  unfold slot_ep, on_field, slot_endpoint, endpoint_mut. destruct (as_state s) as [c|sv] eqn:Hst; cbn [state_endpoint].
  - unfold Assoc.on_ep, Assoc.on_connection, on_field, Client.on_ep, Assoc.endpoint.
    destruct (cl_endpoint (ca_connection c)) as [e|] eqn:He.
    + destruct (f e) as [o e'] eqn:Hf. cbn. by repeat eexists.
    + eexists _, _. split; [done|]. split; [done|]. by destruct c as [[]].
  - unfold Server.on_ep, Server.on_mux, on_field, Mux.on_endpoint.
    destruct (f (mx_endpoint (sv_mux sv))) as [o e'] eqn:Hf. cbn. by repeat eexists.
Qed.

Lemma state_same s st :
  (forall e', state_endpoint st = Some e' -> exists e, slot_endpoint s = Some e /\ path_count e' = path_count e) ->
  (state_endpoint st = None -> slot_path_count s <= 1)%nat ->
  slot_same s (s <| as_state := st |>).
Proof.
  intros Hs Hn. split; try done.
  - unfold paths_or_one, slot_path_count, slot_endpoint. get_set. destruct (state_endpoint st) as [e'|] eqn:He.
    + destruct (Hs e' eq_refl) as (e & He' & Hc). unfold slot_endpoint in He'. rewrite He'. unfold path_count in Hc. by rewrite Hc.
    + specialize (Hn eq_refl). unfold slot_path_count, slot_endpoint in Hn. destruct (state_endpoint (as_state s)); lia.
  - unfold slot_path_count, slot_endpoint. get_set. destruct (state_endpoint st) as [e'|] eqn:He; [|done]. intros _ Hp.
    destruct (Hs e' eq_refl) as (e & He' & Hc). unfold path_count in Hc. rewrite Hc. unfold slot_endpoint in He'.
    rewrite He' in Hp. by apply Hp.
Qed.

Definition slot_quiet {A} (m : method AssociationSlot A) : Prop := forall s, slot_same s (m s).2.

Lemma slot_ep_quiet {A} (f : ep A) : keeps_paths f -> slot_quiet (slot_ep f).
Proof.
  intros Hf s. destruct (slot_ep_shape f s) as (o & st & -> & Hst). cbn [snd].
  destruct (slot_endpoint s) as [e|] eqn:He.
  - destruct Hst as [_ Hst]. apply state_same; [|congruence]. intros e' He'. exists e. split; [done|].
    rewrite Hst in He'. injection He' as <-. apply Hf.
  - destruct Hst as [_ ->]. apply state_same; unfold slot_path_count; rewrite ?He; [|lia].
    unfold slot_endpoint in He. by rewrite He.
Qed.

Lemma slot_quiet_bind {A B} (m : method AssociationSlot A) (k : A -> method AssociationSlot B) :
  slot_quiet m -> (forall a, slot_quiet (k a)) -> slot_quiet (m ≫= k).
Proof.
  intros Hm Hk s. specialize (Hm s). rewrite bind_unfold. destruct (m s) as [[a|e|] s']; cbn [fst snd] in *; try done.
  etrans; [exact Hm|apply Hk].
Qed.
Lemma slot_quiet_const {A} (o : AssociationSlot -> res A) : slot_quiet (fun s => (o s, s)).
Proof. by intros s. Qed.
Lemma slot_quiet_modify f : (forall s, slot_same s (f s)) -> slot_quiet (modify f).
Proof. intros Hf s. apply Hf. Qed.

(** An update of fields that are neither identifiers nor state. *)
Lemma same_fields s s' :
  as_generation s' = as_generation s -> as_receive_cids s' = as_receive_cids s -> as_state s' = as_state s ->
  slot_same s s'.
Proof.
  intros Hg Hc Hs. split; try done; unfold paths_or_one, slot_path_count, slot_endpoint; rewrite Hs; [done|].
  intros He Hp. by apply Hp.
Qed.

Lemma upd_endpoint_same f s : (forall e, path_count (f e) = path_count e) -> slot_same s (upd_endpoint f s).
Proof.
  intros Hf. unfold upd_endpoint. destruct (slot_endpoint s); [|done].
  apply (slot_ep_quiet (modify f)). intros x. apply Hf.
Qed.
Lemma upd_slot_path_same i f s : slot_same s (upd_slot_path i f s).
Proof. apply upd_endpoint_same. intros e. apply count_upd. Qed.
End slots.

(** ** The node *)
Section invariant.
Context `{Allocator}.

Record node_inv (n : QuicNode) : Prop := {
  ni_router : registry_ok (nd_router n);
  ni_length : (length (nd_associations n) <= length (nd_generations n))%nat;
  ni_slots : forall i s, nd_associations n !! i = Some (Some s) ->
             slot_ok s /\ nd_generations n !! i = Some (as_generation s);
  ni_routes : forall cid id, routed (nd_router n) cid id <-> exists s, Node.slot n id = Some s /\ listed s cid;
  ni_limits : Node.association_limits_invalid (nd_default_association_limits n) = false;
}.

(** Generations only grow, and a slot is taken again under a later one. *)
Record node_le (n n' : QuicNode) : Prop := {
  nl_grow : forall i g, nd_generations n !! i = Some g -> exists g', nd_generations n' !! i = Some g' /\ g <= g';
  nl_fresh : forall i s', nd_associations n' !! i = Some (Some s') ->
             (exists s, nd_associations n !! i = Some (Some s) /\ as_generation s = as_generation s') \/
             (forall g, nd_generations n !! i = Some g -> g < as_generation s');
}.
#[export] Instance node_le_pre : PreOrder node_le.
Proof.
  split; [split; eauto with lia|]. intros x y z [Gxy Fxy] [Gyz Fyz]. split.
  - intros i g Hg. destruct (Gxy i g Hg) as (g1 & Hg1 & ?). destruct (Gyz i g1 Hg1) as (g2 & Hg2 & ?). exists g2. split; [done|lia].
  - intros i s Hs. destruct (Fyz i s Hs) as [(s1 & Hs1 & Hg1)|Hnew].
    + rewrite <- Hg1. by apply Fxy.
    + right. intros g Hg. destruct (Gxy i g Hg) as (g1 & Hg1 & ?). specialize (Hnew g1 Hg1). lia.
Qed.

Definition step_ok (n n' : QuicNode) : Prop := node_inv n -> node_inv n' /\ node_le n n'.
#[export] Instance step_ok_pre : PreOrder step_ok.
Proof.
  split; [by intros n Hn; split|]. intros x y z Hxy Hyz Hx. destruct (Hxy Hx) as [Hy H1]. destruct (Hyz Hy) as [Hz H2].
  split; [done|by etrans].
Qed.

Lemma slot_Some n id s :
  Node.slot n id = Some s <-> nd_associations n !! qa_slot id = Some (Some s) /\ as_generation s = qa_generation id.
Proof.
  unfold Node.slot, Node.slot_index. destruct (nd_associations n !! qa_slot id) as [[x|]|] eqn:Hx; cbn; [|naive_solver..].
  destruct (Z.eqb_spec (as_generation x) (qa_generation id)); cbn; rewrite ?Hx; cbn; naive_solver.
Qed.

(** *** Operations that keep every association as it is *)
Record node_same (n n' : QuicNode) : Prop := {
  ns_slots : Forall2 (option_Forall2 slot_same) (nd_associations n) (nd_associations n');
  ns_generations : nd_generations n' = nd_generations n;
  ns_router : same_routes (nd_router n) (nd_router n');
  ns_limits : Node.association_limits_invalid (nd_default_association_limits n) = false ->
              Node.association_limits_invalid (nd_default_association_limits n') = false;
}.
#[export] Instance node_same_pre : PreOrder node_same.
Proof.
  split; [by split|]. intros x y z [S1 G1 R1 L1] [S2 G2 R2 L2]. split; [by etrans|congruence|by etrans|auto].
Qed.

Lemma same_slot n n' i s' : node_same n n' -> nd_associations n' !! i = Some (Some s') ->
  exists s, nd_associations n !! i = Some (Some s) /\ slot_same s s'.
Proof.
  intros [Hs _ _ _] Hi. destruct (Forall2_lookup_r _ _ _ _ _ Hs Hi) as (o & Ho & Hf). inversion Hf; subst. eauto.
Qed.

Lemma same_slot' n n' i s : node_same n n' -> nd_associations n !! i = Some (Some s) ->
  exists s', nd_associations n' !! i = Some (Some s') /\ slot_same s s'.
Proof.
  intros [Hs _ _ _] Hi. destruct (Forall2_lookup_l _ _ _ _ _ Hs Hi) as (o & Ho & Hf). inversion Hf; subst. eauto.
Qed.

Lemma same_listed n n' id cid : node_same n n' ->
  (exists s, Node.slot n' id = Some s /\ listed s cid) <-> (exists s, Node.slot n id = Some s /\ listed s cid).
Proof.
  intros Hn. split; intros (s & [Hs Hg]%slot_Some & Hl).
  - destruct (same_slot _ _ _ _ Hn Hs) as (s0 & Hs0 & Hss). exists s0. rewrite slot_Some. split; [|by apply (listed_same s0 s cid Hss)].
    split; [done|]. destruct Hss. congruence.
  - destruct (same_slot' _ _ _ _ Hn Hs) as (s0 & Hs0 & Hss). exists s0. rewrite slot_Some. split; [|by apply (listed_same s s0 cid Hss)].
    split; [done|]. destruct Hss. congruence.
Qed.

Lemma same_step n n' : node_same n n' -> step_ok n n'.
Proof.
  intros Hn. pose proof Hn as [Hs Hg Hr Hl]. intros [I1 I2 I3 I4 I5]. split.
  - destruct (Hr I1) as [Hr1 Hr2]. split; [done| | | |auto].
    + rewrite Hg. by rewrite <- (Forall2_length _ _ _ Hs).
    + intros i s' Hi. destruct (same_slot _ _ _ _ Hn Hi) as (s & Hi' & Hss). destruct (I3 i s Hi') as [Ho Hgen].
      split; [by apply (slot_same_ok s)|]. rewrite Hg, Hgen. destruct Hss. congruence.
    + intros cid id. rewrite Hr2, I4. symmetry. by apply same_listed.
  - split; rewrite ?Hg; [eauto with lia|]. intros i s' Hi. left.
    destruct (same_slot _ _ _ _ Hn Hi) as (s & Hi' & []). eauto.
Qed.

Lemma set_slot_same id s s' n : Node.slot n id = Some s -> slot_same s s' -> node_same n (Node.set_slot id s' n).
Proof.
  intros [Hs _]%slot_Some Hss. split; try done. unfold Node.set_slot. get_set.
  apply Forall2_same_length_lookup_2; [by rewrite length_insert|]. intros i x y Hx Hy.
  destruct (decide (i = qa_slot id)) as [->|Hne].
  - rewrite list_lookup_insert_eq in Hy by (by eapply lookup_lt_Some). simplify_eq. by constructor.
  - rewrite list_lookup_insert_ne in Hy by done. simplify_eq. done.
Qed.

(** Fields of the node that neither promise is about. *)
Lemma other_fields n n' :
  nd_associations n' = nd_associations n -> nd_generations n' = nd_generations n -> nd_router n' = nd_router n ->
  nd_default_association_limits n' = nd_default_association_limits n -> node_same n n'.
Proof. intros Ha Hg Hr Hl. split; [by rewrite Ha|done|by rewrite Hr|by rewrite Hl]. Qed.
End invariant.

Abbreviation quiet_action := (respects node_same).

Section quiet.
Context `{Allocator, PacketSize, Features}.

Lemma on_slot_same {E A} id (e : E) w (m : method AssociationSlot A) :
  slot_quiet m -> quiet_action (Node.on_slot id e w m).
Proof.
  intros Hm n. unfold Node.on_slot. destruct (Node.slot n id) as [s|] eqn:Hs; [|done]. specialize (Hm s).
  destruct (m s) as [o s']. by apply (set_slot_same id s s').
Qed.

Lemma if_slot_same id f n : (forall s, slot_same s (f s)) -> node_same n (Node.if_slot id f n).
Proof.
  intros Hf. unfold Node.if_slot. destruct (Node.slot n id) as [s|] eqn:Hs; [|done]. by apply (set_slot_same id s).
Qed.

Lemma event_same ev n : node_same n (Node.push_association_event ev n).
Proof. unfold Node.push_association_event. cbv zeta. by destruct (_ <=? _); apply other_fields. Qed.

Lemma router_same n r : same_routes (nd_router n) r -> node_same n (n <| nd_router := r |>).
Proof. by intros Hr. Qed.

Lemma try_cids_same k : forall n, node_same n (Node.try_cids k n).2.
Proof.
  induction k as [|k IH]; intros n; [done|]. cbn [Node.try_cids]. destruct (ConnectionId.new _); cbn [snd]; [|by apply other_fields].
  destruct (Router.contains _ _); [|by apply other_fields].
  etrans; [|apply IH]. by apply other_fields.
Qed.
Lemma allocate_same : quiet_action Node.allocate_local_cid.
Proof. intros n. apply try_cids_same. Qed.

Lemma advance_clock_same now n : node_same n (Node.advance_clock now n).
Proof.
  split; try done. unfold Node.advance_clock. cbv zeta. get_set. apply Forall2_fmap_r, Forall_Forall2_diag, Forall_forall.
  intros [s|] _; constructor. apply upd_endpoint_same. intros e. apply set_time_count.
Qed.
End quiet.

(** *** Admission *)
Section admission.
Context `{Allocator, PacketSize, Features}.

(** A state that has not joined a second path. *)
Definition one_path (s : AssociationState) : Prop :=
  match state_endpoint s with Some e => path_count e = 1%nat | None => True end.

Lemma choose_slot_free n i : Node.choose_slot n = Some i ->
  (i <= length (nd_associations n))%nat /\ forall s, nd_associations n !! i <> Some (Some s).
Proof.
  unfold Node.choose_slot. destruct (list_find _ _) as [[j o]|] eqn:Hf.
  - intros [= ->]. apply list_find_Some in Hf as (Hj & Hfree & _). split; [apply lookup_lt_Some in Hj; lia|].
    intros s Hs. rewrite Hj in Hs. by simplify_eq.
  - destruct (_ <? _); intros [= <-]. split; [done|]. intros s Hs. apply lookup_lt_Some in Hs. lia.
Qed.

Lemma put_lookup i entry n j : (i <= length (nd_associations n))%nat ->
  nd_associations (Node.put_association i entry n) !! j = if decide (j = i) then Some entry else nd_associations n !! j.
Proof.
  intros Hi. unfold Node.put_association. get_set. destruct (Nat.eqb_spec i (length (nd_associations n))) as [->|Hne].
  - case_decide as Hj; [by subst j; rewrite lookup_app_r, Nat.sub_diag|].
    destruct (decide (j < length (nd_associations n))%nat) as [Hlt|Hge]; [by rewrite lookup_app_l|].
    rewrite lookup_app_r, (lookup_ge_None_2 (nd_associations n)) by lia.
    destruct (j - length (nd_associations n))%nat eqn:Hd; [lia|done].
  - case_decide as Hj; [by subst j; rewrite list_lookup_insert_eq by lia|by rewrite list_lookup_insert_ne].
Qed.

Lemma reserve_ok i : respects step_ok (Node.reserve_generation i).
Proof.
  intros n. unfold Node.reserve_generation. destruct (negb (i =? _)%nat); [done|]. destruct (negb (try_reserve _)); [done|].
  cbn [snd]. intros [I1 I2 I3 I4 I5]. split.
  - split; try done; get_set.
    + rewrite length_app. cbn. lia.
    + intros j s Hs. destruct (I3 j s Hs) as [Ho Hg]. split; [done|]. by rewrite lookup_app_l by (by eapply lookup_lt_Some).
  - split; get_set; [|eauto]. intros j g Hg. exists g. split; [|lia]. by rewrite lookup_app_l by (by eapply lookup_lt_Some).
Qed.

Lemma reserve_associations i n : nd_associations (Node.reserve_generation i n).2 = nd_associations n.
Proof. unfold Node.reserve_generation. destruct (negb (i =? _)%nat); [done|]. by destruct (negb (try_reserve _)). Qed.

Lemma next_generation_Ok i n g : Node.next_generation i n = Ok g ->
  exists g0, nd_generations n !! i = Some g0 /\ g = g0 + 1.
Proof.
  unfold Node.next_generation. destruct (nd_generations n !! i) as [g0|]; [|done]. unfold checked_add.
  destruct (_ <=? _); [|done]. intros [= <-]. eauto.
Qed.

(** Valid limits are accepted, and the number of paths stays. *)
Lemma server_paths_kept {A} (f : ep A) sv : keeps_paths f ->
  path_count (mx_endpoint (sv_mux (Server.on_ep f sv).2)) = path_count (mx_endpoint (sv_mux sv)).
Proof.
  intros Hf. unfold Server.on_ep, Server.on_mux, on_field, Mux.on_endpoint. specialize (Hf (mx_endpoint (sv_mux sv))).
  by destruct (f _) as [o e'].
Qed.

Lemma estimator_count l : keeps_paths (Ep.set_path_estimator_config l).
Proof. intros e. unfold Ep.set_path_estimator_config. destruct (negb _); [done|]. apply length_fmap. Qed.
Lemma base_key_count e : path_count (Ep.set_base_circuit_key e) = path_count e.
Proof. apply count_upd. Qed.
Lemma pacing_count l : keeps_paths (Ep.set_pacing_config l).
Proof. intros e. unfold Ep.set_pacing_config. destruct (negb _); [done|]. apply length_fmap. Qed.

Lemma limits_valid l : Node.association_limits_invalid l = false ->
  estimator_config_is_valid (al_path_estimator l) = true /\ pacing_config_is_valid (al_pacing l) = true.
Proof. unfold Node.association_limits_invalid. rewrite !orb_false_iff, !negb_false_iff. tauto. Qed.

(** A valid configuration of a client, established or not. *)
Lemma client_config {C} (valid : bool) (store : ClientConnection -> ClientConnection) (f : ep unit) (a : ClientAssociation) :
  valid = true -> (forall c, cl_endpoint (store c) = cl_endpoint c) -> (forall e, (f e).1 = Ok tt) -> keeps_paths f ->
  exists a', Node.expect_ok (E := C) (Assoc.on_connection
    (_ ← refuse_if (negb valid) Error.Invalid; _ ← modify store; Client.apply_if_established f) a) = Ok a' /\
    (one_path (ClientState a) -> one_path (ClientState a')).
Proof.
  intros -> Hs Hok Hf. unfold Node.expect_ok, Assoc.on_connection, on_field. rewrite bind_refuse. cbn [negb]. rewrite bind_modify.
  unfold Client.apply_if_established, Client.on_ep. cbv beta. rewrite Hs. unfold one_path, state_endpoint, Assoc.endpoint.
  destruct (cl_endpoint (ca_connection a)) as [e|] eqn:He.
  - specialize (Hok e). specialize (Hf e). destruct (f e) as [o e']. cbn in Hok, Hf. subst o. cbn. eexists. split; [done|].
    cbn. congruence.
  - cbn. eexists. split; [done|]. get_set. by rewrite Hs, He.
Qed.

Lemma admit_spec l s : Node.association_limits_invalid l = false ->
  exists s', Node.apply_default_limits l s = Ok s' /\ (one_path s -> one_path s').
Proof.
  intros [He Hp]%limits_valid. destruct s as [c|sv]; cbn [Node.apply_default_limits].
  - set (c0 := c <| ca_connection ::= _ |>).
    assert (one_path (ClientState c) -> one_path (ClientState c0)) as H0c.
    { unfold one_path, state_endpoint, Assoc.endpoint, c0, Client.set_duplication_budget_capacity. get_set.
      by destruct (cl_endpoint (ca_connection c)). }
    clearbody c0. unfold Client.set_pacing_config, Client.set_path_estimator_config.
    destruct (client_config (C:=QuicNodeError.t) _ (fun c => c <| cl_pacing_config := al_pacing l |>)
      (Ep.set_pacing_config (al_pacing l)) c0 Hp) as (c1 & -> & H1c); [done| |apply pacing_count|].
    { intros e. unfold Ep.set_pacing_config. by rewrite Hp. }
    cbn [mbind outcome_bind].
    destruct (client_config (C:=QuicNodeError.t) _ (fun c => c <| cl_path_estimator_config := al_path_estimator l |>)
      (Ep.set_path_estimator_config (al_path_estimator l)) c1 He) as (c2 & -> & H2c); [done| |apply estimator_count|].
    { intros e. unfold Ep.set_path_estimator_config. by rewrite He. }
    cbn [mbind outcome_bind]. eexists. split; [done|]. intros Hc. specialize (H2c (H1c (H0c Hc))). clear -H2c.
    unfold one_path, state_endpoint, Assoc.endpoint, Assoc.on_ep, Assoc.on_connection, on_field, Client.on_ep in *.
    destruct (cl_endpoint (ca_connection c2)) as [e|] eqn:He; cbn [fst snd]; get_set; [|by rewrite He].
    unfold modify. cbn [fst snd]. get_set. etrans; [apply base_key_count|done].
  - set (sv1 := (Server.upd_ep (Ep.set_duplication_budget_capacity _) _).2).
    assert (one_path (ServerState sv) -> one_path (ServerState sv1)) as H1s.
    { unfold one_path, state_endpoint. intros Hs1. unfold sv1, Server.upd_ep. rewrite !server_paths_kept; [done|..].
      - apply keeps_paths_modify, base_key_count.
      - by apply keeps_paths_modify. }
    clearbody sv1.
    assert (forall (f : ep unit) x, (forall e, (f e).1 = Ok tt) ->
      Node.expect_ok (E := QuicNodeError.t) (Server.on_ep f x) = Ok (Server.on_ep f x).2) as Hexp.
    { intros f x Hf. unfold Node.expect_ok, Server.on_ep, Server.on_mux, on_field, Mux.on_endpoint.
      specialize (Hf (mx_endpoint (sv_mux x))). destruct (f _) as [o e']. cbn in Hf. by subst o. }
    rewrite Hexp by (intros e; unfold Ep.set_path_estimator_config; by rewrite He). cbn [mbind outcome_bind].
    rewrite Hexp by (intros e; unfold Ep.set_pacing_config; by rewrite Hp). cbn [mbind outcome_bind].
    eexists. split; [done|]. intros Hs. specialize (H1s Hs). unfold one_path, state_endpoint in *.
    by rewrite !server_paths_kept by (apply pacing_count || apply estimator_count).
Qed.

Lemma new_slot_ok g cid now l s : one_path s -> slot_ok (Node.new_slot g cid now l s).
Proof.
  intros Hs. assert (paths_or_one (Node.new_slot g cid now l s) = 1%nat /\
    (slot_endpoint (Node.new_slot g cid now l s) <> None -> (0 < slot_path_count (Node.new_slot g cid now l s))%nat)) as [Hp He].
  { unfold paths_or_one, slot_path_count, slot_endpoint, one_path, path_count in *. cbn [as_state Node.new_slot].
    destruct (state_endpoint s); [rewrite Hs|]; split; done || lia. }
  split; [done| | |done]; cbn [as_receive_cids Node.new_slot].
  - intros i. rewrite Hp. destruct i as [|[|[|[|i]]]]; cbn; split; try done; try lia; by intros [].
  - intros i j c. destruct i as [|[|[|[|i]]]], j as [|[|[|[|j]]]]; done.
Qed.

Lemma new_slot_listed g cid now l s c : listed (Node.new_slot g cid now l s) c <-> c = cid.
Proof.
  unfold listed. change (as_receive_cids _) with [Some cid; None; None; None].
  rewrite !elem_of_cons. split; [|intros ->; by left]. intros [[= ->]|[|[|[|Hn]]]]; try done. by apply elem_of_nil in Hn.
Qed.

(** The state an admitted association leaves. *)
Definition installed (cid : Z) (id : QuicAssociation) (s : AssociationState) (r : PacketRouter QuicAssociation ForwardNextHop)
    (n : QuicNode) : QuicNode :=
  Node.push_association_event (CircuitOpened id (mkCircuitId id 0))
    (Node.put_association (qa_slot id)
      (Some (Node.new_slot (qa_generation id) cid (nd_clock_us n) (nd_default_association_limits n) s))
      (n <| nd_router := r |> <| nd_generations ::= <[qa_slot id := qa_generation id]> |>)).

Lemma installed_ok cid id g s r n :
  Node.choose_slot n = Some (qa_slot id) -> nd_generations n !! qa_slot id = Some g -> qa_generation id = g + 1 ->
  Router.register_endpoint cid id (nd_router n) = (Ok tt, r) -> one_path s ->
  step_ok n (installed cid id s r n).
Proof.
  intros [Hle Hfree]%choose_slot_free Hg Hid Hreg Hone.
  assert (qa_slot id < length (nd_generations n))%nat as Hlt by (by eapply lookup_lt_Some).
  set (new := Node.new_slot (qa_generation id) cid (nd_clock_us n) (nd_default_association_limits n) s).
  assert (slot_ok new /\ as_generation new = qa_generation id /\ forall c, listed new c <-> c = cid) as (Hok & Hng & Hlisted).
  { split; [by apply new_slot_ok|]. split; [done|]. intros c. apply new_slot_listed. }
  assert (forall j, nd_associations (installed cid id s r n) !! j =
    if decide (j = qa_slot id) then Some (Some new) else nd_associations n !! j) as Hat.
  { intros j. unfold installed, Node.push_association_event. cbv zeta.
    destruct (_ <=? _); exact (put_lookup (qa_slot id) _ (n <| nd_router := r |> <| nd_generations ::= <[qa_slot id := qa_generation id]> |>) j Hle). }
  assert (nd_generations (installed cid id s r n) = <[qa_slot id := qa_generation id]> (nd_generations n) /\
    nd_router (installed cid id s r n) = r /\
    nd_default_association_limits (installed cid id s r n) = nd_default_association_limits n) as (Hgen & Hr & Hl)
    by (unfold installed, Node.push_association_event; cbv zeta; by destruct (_ <=? _)).
  clearbody new. revert Hat Hgen Hr Hl. generalize (installed cid id s r n) as n'. intros n' Hat Hgen Hr Hl.
  intros [I1 I2 I3 I4 I5]. split.
  - destruct (register_routes _ _ _ _ I1 Hreg) as (R1 & R2 & R3). split; rewrite ?Hgen, ?Hr, ?Hl; [done| | | |done].
    + rewrite length_insert. apply Nat.nlt_ge. intros [o Ho]%lookup_lt_is_Some_2. rewrite Hat in Ho.
      destruct (decide _); [lia|]. apply lookup_lt_Some in Ho. lia.
    + intros j x Hj. rewrite Hat in Hj. destruct (decide (j = qa_slot id)) as [->|Hne].
      * simplify_eq. split; [done|]. by rewrite list_lookup_insert_eq, Hng.
      * rewrite list_lookup_insert_ne by done. by apply I3.
    + intros c e. rewrite R3, I4. split.
      * intros [[-> ->]|(x & [Hx Hxg]%slot_Some & Hc)].
        { exists new. rewrite slot_Some, Hat, decide_True by done. split; [done|]. by apply Hlisted. }
        exists x. split; [|done]. rewrite slot_Some, Hat, decide_False; [done|]. intros He. rewrite He in Hx. exact (Hfree x Hx).
      * intros (x & [Hx Hxg]%slot_Some & Hc). rewrite Hat in Hx. destruct (decide (qa_slot e = qa_slot id)) as [Heq|Hne].
        { left. simplify_eq. apply Hlisted in Hc. split; [done|]. destruct e, id. cbn in *. congruence. }
        right. exists x. by rewrite slot_Some.
  - split.
    + intros j g' Hj. rewrite Hgen. destruct (decide (j = qa_slot id)) as [->|Hne].
      * exists (qa_generation id). rewrite list_lookup_insert_eq by done. split; [done|]. simplify_eq. lia.
      * exists g'. by rewrite list_lookup_insert_ne.
    + intros j x Hj. rewrite Hat in Hj. destruct (decide (j = qa_slot id)) as [->|Hne]; [|left; eauto].
      right. intros g' Hg'. simplify_eq. lia.
Qed.

Lemma register_refused_same cid id n o n' :
  Node.register_endpoint cid id n = (o, n') -> o <> Ok tt -> node_same n n' /\ o <> Panic.
Proof.
  unfold Node.register_endpoint, err_as, Node.on_router, on_part.
  destruct (Router.register_endpoint cid id (nd_router n)) as [x r] eqn:Hr. intros [= <- <-] Ho.
  destruct (register_refused _ _ _ _ _ Hr) as [-> Hx]; [by intros ->|]. split; [by apply router_same|by destruct x].
Qed.

Lemma register_Ok cid id n n' :
  Node.register_endpoint cid id n = (Ok tt, n') ->
  exists r, Router.register_endpoint cid id (nd_router n) = (Ok tt, r) /\ n' = n <| nd_router := r |>.
Proof.
  unfold Node.register_endpoint, err_as, Node.on_router, on_part.
  destruct (Router.register_endpoint cid id (nd_router n)) as [[[]|x|] r]; intros [= <-]. eauto.
Qed.

(** What [insert] does: on success the state is [installed]; it never panics
    unless a slot has used up its generations. *)
Lemma insert_run cid s n : one_path s -> node_inv n ->
  match Node.insert cid s n with
  | (Ok id, n') => exists n1 s' r, step_ok n n1 /\ n' = installed cid id s' r n1 /\ step_ok n1 n' /\
                     exists g, nd_generations n1 !! qa_slot id = Some g /\ g < qa_generation id
  | (_, n') => step_ok n n'
  end.
Proof.
  intros Hone Hinv. unfold Node.insert. rewrite act_ask. destruct (Node.choose_slot n) as [i|] eqn:Hi; [|done]. cbn [ok_or].
  rewrite act_unfold. pose proof (reserve_ok i n) as H1n. pose proof (reserve_associations i n) as Ha.
  assert (Node.choose_slot (Node.reserve_generation i n).2 = Some i) as Hi1.
  { rewrite <- Hi. unfold Node.choose_slot. rewrite Ha. unfold Node.reserve_generation.
    destruct (negb (i =? _)%nat); [done|]. by destruct (negb (try_reserve _)). }
  destruct (Node.reserve_generation i n) as [[[]|x|] n1]; cbn [fst snd] in *; [|done..].
  rewrite act_ask. destruct (Node.next_generation i n1) as [g|x|] eqn:Hg; [|done..].
  apply next_generation_Ok in Hg as (g0 & Hg0 & ->). rewrite act_unfold.
  set (id := mkQuicAssociation i (g0 + 1)). destruct (Node.register_endpoint cid id n1) as [[[]|x|] n2] eqn:Hreg.
  2,3: apply register_refused_same in Hreg as [Hs _]; [|done]; by etrans; [|apply same_step].
  apply register_Ok in Hreg as (r & Hreg & ->). rewrite act_update, act_ask.
  destruct (H1n Hinv) as [Hinv1 _].
  destruct (admit_spec (nd_default_association_limits n1) s (ni_limits _ Hinv1)) as (s' & Hadm & Hone').
  change (nd_default_association_limits (_ <| nd_generations ::= _ |>)) with (nd_default_association_limits n1).
  rewrite Hadm. rewrite !act_update. cbn [mret action_ret].
  exists n1, s', r. split; [done|]. split; [done|].
  split; [exact (installed_ok cid id g0 s' r n1 Hi1 Hg0 eq_refl Hreg (Hone' Hone))|].
  exists g0. split; [done|]. cbn. lia.
Qed.

Lemma node_insert_ok cid s : one_path s -> respects step_ok (Node.insert cid s).
Proof.
  intros Hone n Hinv. pose proof (insert_run cid s n Hone Hinv) as Hrun.
  destruct (Node.insert cid s n) as [[id|x|] n']; [|by apply Hrun..].
  destruct Hrun as (n1 & s' & r & Hr1 & _ & Hr2 & _). cbn [snd]. by apply (transitivity Hr1 Hr2).
Qed.
End admission.

(** *** Removal *)
Section removal.
Context `{Allocator, PacketSize, Features}.

Definition cids_of (s : AssociationSlot) : list Z := omap (fun c => c) (as_receive_cids s).

Lemma cids_listed s c : c ∈ cids_of s <-> listed s c.
Proof. unfold cids_of, listed. rewrite list_elem_of_omap. naive_solver. Qed.

Lemma cids_nodup s : slot_ok s -> NoDup (cids_of s).
Proof.
  intros [_ _ Hd _]. unfold cids_of. revert Hd. generalize (as_receive_cids s) as l. intros l.
  induction l as [|o l IH]; intros Hd; [constructor|].
  assert (NoDup (omap (fun c => c) l)) as Hl.
  { apply IH. intros i j c Hi Hj. assert (S i = S j) by (by apply (Hd (S i) (S j) c)). lia. }
  destruct o as [c|]; [|done]. constructor; [|done]. intros Hc. apply list_elem_of_omap in Hc as (o & Ho & ->).
  apply list_elem_of_lookup in Ho as [j Hj]. assert (0%nat = S j) by (by apply (Hd 0%nat (S j) c)). lia.
Qed.

Lemma remove_endpoint_node cid id n :
  registry_ok (nd_router n) ->
  let n' := (Node.remove_endpoint cid id n).2 in
  n' = n <| nd_router := nd_router n' |> /\ registry_ok (nd_router n') /\
  ((Node.remove_endpoint cid id n).1 = true <-> routed (nd_router n) cid id) /\
  forall c e, routed (nd_router n') c e <-> routed (nd_router n) c e /\ ~ (c = cid /\ e = id).
Proof.
  intros Hok. unfold Node.remove_endpoint. pose proof (remove_routes cid id (nd_router n) Hok) as Hr.
  destruct (Router.remove_endpoint cid id (nd_router n)) as [b r]. cbn [fst snd] in *. get_set. tauto.
Qed.

Lemma remove_endpoints_spec id cids : forall n,
  NoDup cids -> registry_ok (nd_router n) -> (forall c, c ∈ cids -> routed (nd_router n) c id) ->
  let n' := (Node.remove_endpoints cids id n).2 in
  (Node.remove_endpoints cids id n).1 = true /\ n' = n <| nd_router := nd_router n' |> /\ registry_ok (nd_router n') /\
  forall c e, routed (nd_router n') c e <-> routed (nd_router n) c e /\ ~ (c ∈ cids /\ e = id).
Proof.
  induction cids as [|cid cids IH]; intros n Hd Hok Hin; cbn [Node.remove_endpoints].
  { split; [done|]. split; [by destruct n|]. split; [done|]. intros c e. split; [|tauto]. intros Hr. split; [done|].
    by intros [Hc%elem_of_nil _]. }
  apply NoDup_cons in Hd as [Hnot Hd]. destruct (remove_endpoint_node cid id n Hok) as (He & Hok1 & Hb & Hr).
  destruct (Node.remove_endpoint cid id n) as [b n1]. cbn [fst snd] in *.
  assert (b = true) as -> by (apply Hb, Hin; by left).
  destruct (IH n1 Hd Hok1) as (Hb2 & He2 & Hok2 & Hr2).
  { intros c Hc. apply Hr. split; [apply Hin; by right|]. intros [-> _]. done. }
  destruct (Node.remove_endpoints cids id n1) as [b2 n2]. cbn [fst snd] in *. split; [done|].
  split; [rewrite He2, He; by destruct n|]. split; [done|].
  intros c e. rewrite Hr2, Hr, elem_of_cons. naive_solver.
Qed.

(** A slot that is emptied together with its routes. *)
Lemma emptied_ok id n n' :
  is_Some (Node.slot n id) -> node_inv n ->
  nd_associations n' = <[qa_slot id := None]> (nd_associations n) -> nd_generations n' = nd_generations n ->
  nd_default_association_limits n' = nd_default_association_limits n ->
  registry_ok (nd_router n') ->
  (forall c e, routed (nd_router n') c e <-> routed (nd_router n) c e /\ e <> id) ->
  node_inv n' /\ node_le n n' /\ Node.slot n' id = None.
Proof.
  intros [s [Hs Hg]%slot_Some] [I1 I2 I3 I4 I5] Ha Hgen Hl Hok Hr.
  assert (forall j x, nd_associations n' !! j = Some (Some x) -> j <> qa_slot id /\ nd_associations n !! j = Some (Some x)) as Hat.
  { intros j x Hj. rewrite Ha in Hj. destruct (decide (j = qa_slot id)) as [->|Hne].
    - rewrite list_lookup_insert_eq in Hj by (by eapply lookup_lt_Some). done.
    - split; [done|]. by rewrite list_lookup_insert_ne in Hj. }
  split; [|split].
  - split; rewrite ?Hgen, ?Hl; [done| | | |done].
    + by rewrite Ha, length_insert.
    + intros j x [_ Hj]%Hat. by apply I3.
    + intros c e. rewrite Hr, I4. split.
      * intros [(x & [Hx Hxg]%slot_Some & Hc) Hne]. exists x. split; [|done]. apply slot_Some. split; [|done].
        rewrite Ha, list_lookup_insert_ne; [done|]. intros Heq. destruct e, id. cbn in *. subst. simplify_eq.
      * intros (x & [[Hne Hx]%Hat Hxg]%slot_Some & Hc). split; [exists x; by rewrite slot_Some|]. by intros ->.
  - split; rewrite ?Hgen; [eauto with lia|]. intros j x [_ Hj]%Hat. left. eauto.
  - apply eq_None_not_Some. intros [x [[Hne _]%Hat _]%slot_Some]. done.
Qed.

(** Only [remove] empties a slot; every route of the association goes with it. *)
Lemma remove_run id s n : node_inv n -> Node.slot n id = Some s ->
  exists n', Node.remove id n = (Ok (as_state s), n') /\ node_inv n' /\ node_le n n' /\ Node.slot n' id = None /\
    (forall cid, ~ routed (nd_router n') cid id) /\
    forall m, nd_router m = nd_router n -> (Node.remove_endpoints (cids_of s) id m).1 = true.
Proof.
  intros Hinv Hs. pose proof Hinv as [I1 I2 I3 I4 I5]. pose proof Hs as [Hsl Hg]%slot_Some.
  assert (Node.slot_index n id = Some (qa_slot id)) as Hidx.
  { unfold Node.slot_index. rewrite Hsl. by rewrite (proj2 (Z.eqb_eq _ _) Hg). }
  unfold Node.remove. rewrite Hidx, Hs. fold (cids_of s).
  set (n1 := n <| nd_associations ::= _ |> <| nd_pending_controls ::= _ |> <| nd_datagram_handlers ::= _ |>).
  assert (forall m, nd_router m = nd_router n -> forall c, c ∈ cids_of s -> routed (nd_router m) c id) as Hin.
  { intros m Hm c Hc. rewrite Hm. apply I4. exists s. split; [done|]. by apply cids_listed. }
  destruct (remove_endpoints_spec id (cids_of s) n1) as (_ & He & Hok & Hr).
  { by apply cids_nodup, (I3 _ _ Hsl). }
  { exact I1. }
  { by apply Hin. }
  eexists. split; [done|]. set (n2 := (Node.remove_endpoints (cids_of s) id n1).2) in *.
  assert (forall c e, routed (nd_router n2) c e <-> routed (nd_router n) c e /\ e <> id) as Hr'.
  { intros c e. rewrite Hr. change (nd_router n1) with (nd_router n). split; (intros [Hce Hx]; split; [done|]).
    - intros ->. apply Hx. split; [|done]. apply I4 in Hce as (x & Hx' & Hl). rewrite Hs in Hx'. simplify_eq. by apply cids_listed.
    - by intros [_ ->]. }
  destruct (emptied_ok id n n2) as (Hi & Hle & Hnone); try done; try (by rewrite He).
  split; [done|]. split; [done|]. split; [done|]. split; [intros c Hc; by apply Hr' in Hc as [_ []]|].
  intros m Hm. destruct (remove_endpoints_spec id (cids_of s) m) as [Hb _]; [..|exact Hb].
  - by apply cids_nodup, (I3 _ _ Hsl).
  - by rewrite Hm.
  - by apply Hin.
Qed.

Lemma remove_ok id : respects step_ok (Node.remove id).
Proof.
  intros n Hinv. destruct (Node.slot n id) as [s|] eqn:Hs.
  - destruct (remove_run id s n Hinv Hs) as (n' & -> & Hi & Hle & _). done.
  - unfold Node.remove. rewrite Hs. by destruct (Node.slot_index n id).
Qed.

Lemma remove_client_ok id : respects step_ok (Node.remove_client id).
Proof.
  intros n. unfold Node.remove_client. pose proof (remove_ok id n) as Hr.
  destruct (as_state <$> Node.slot n id) as [[c|sv]|]; [|done..].
  by destruct (Node.remove id n) as [[[]|x|] n'].
Qed.
End removal.
