(* ===== verification/NodeQuiet.v ===== *)
(** * Operations of a node that keep its table

    Most methods of a node read and update the associations in place: they leave
    the handles, the listed identifiers, the number of paths and the registered
    endpoints alone ([node_same] of [NodeRoutes.v]).  Here that is shown method
    by method; the methods that admit and retire associations and circuits are
    in [NodeCircuits.v]. *)

From S2P Require Import Prelude Records Methods Actions Wire PacketHeader AckRanges Reader Frames FlowControl Congestion PathState Endpoint Credit Ledger Transmit Retransmit Receive PathCount SortedKeys Registry RegistrySpec SetupTable Router Callback Mux Association Node RouterEndpoints NodePaths NodeTimer NodeRoutes.

(** ** Methods of an association *)
Definition state_paths (s : AssociationState) : option nat := path_count <$> state_endpoint s.
Definition state_quiet {A} (m : method AssociationState A) : Prop := forall s, state_paths (m s).2 = state_paths s.
Definition client_paths (c : ClientConnection) : option nat := path_count <$> cl_endpoint c.
Definition client_quiet {A} (m : method ClientConnection A) : Prop := forall c, client_paths (m c).2 = client_paths c.

Section states.
Context `{Allocator, PacketSize, Features}.

Lemma on_state_quiet {A} (m : method AssociationState A) : state_quiet m -> slot_quiet (on_field as_state m).
Proof.
  intros Hm s. unfold on_field. specialize (Hm (as_state s)). destruct (m (as_state s)) as [o st]. cbn [snd] in *.
  unfold state_paths in Hm. apply state_same.
  - intros e' He. rewrite He in Hm. unfold slot_endpoint. destruct (state_endpoint (as_state s)) as [e|]; [|done].
    injection Hm as Hm. eauto.
  - intros He. rewrite He in Hm. unfold slot_path_count, slot_endpoint. destruct (state_endpoint (as_state s)); [done|lia].
Qed.

Lemma client_ep {A} (f : ep A) : keeps_paths f -> client_quiet (Client.on_ep f).
Proof.
  intros Hf c. unfold Client.on_ep, client_paths. destruct (cl_endpoint c) as [e|] eqn:He; [|cbn; by rewrite He].
  specialize (Hf e). destruct (f e) as [o e']. cbn. by rewrite <- Hf.
Qed.
Lemma client_ep_or_none {A} (f : ep (option A)) : keeps_paths f -> client_quiet (Client.on_ep_or_none f).
Proof. intros Hf c. unfold Client.on_ep_or_none. destruct (cl_endpoint c) eqn:He; [by apply client_ep|done]. Qed.

Lemma client_bind {A B} (m : method ClientConnection A) (k : A -> method ClientConnection B) :
  client_quiet m -> (forall a, client_quiet (k a)) -> client_quiet (m ≫= k).
Proof.
  intros Hm Hk c. specialize (Hm c). rewrite bind_unfold. destruct (m c) as [[a|e|] c']; cbn [fst snd] in *; try done.
  by rewrite Hk.
Qed.
Lemma client_modify f : (forall c, client_paths (f c) = client_paths c) -> client_quiet (modify f).
Proof. intros Hf c. apply Hf. Qed.
Lemma client_const {A} (o : ClientConnection -> res A) : client_quiet (fun c => (o c, c)).
Proof. by intros c. Qed.

Lemma assoc_client {A} (m : method ClientConnection A) a :
  client_quiet m -> state_paths (ClientState (Assoc.on_connection m a).2) = state_paths (ClientState a).
Proof.
  intros Hm. specialize (Hm (ca_connection a)). unfold state_paths, state_endpoint, Assoc.endpoint, Assoc.on_connection, on_field.
  destruct (m (ca_connection a)) as [o c]. exact Hm.
Qed.

Lemma server_ep {A} (f : ep A) sv : keeps_paths f -> state_paths (ServerState (Server.on_ep f sv).2) = state_paths (ServerState sv).
Proof. intros Hf. unfold state_paths, state_endpoint. cbn. f_equal. by apply server_paths_kept. Qed.

Lemma poll_transmit_quiet i : state_quiet (Node.poll_state_transmit i).
Proof.
  intros [c|sv]; unfold Node.poll_state_transmit.
  - pose proof (assoc_client (Client.poll_transmit_on_path i packet_size) c) as Hc.
    destruct (Assoc.on_connection _ c) as [o c']. apply Hc, client_ep_or_none, poll_transmit_count.
  - pose proof (server_ep (Credit.poll_transmit_on_path i packet_size) sv (poll_transmit_count i packet_size)) as Hs.
    unfold Server.poll_transmit_on_path. by destruct (Server.on_ep _ sv) as [o sv'].
Qed.

Lemma close_count code e : path_count (Ep.close code e) = path_count e.
Proof. unfold Ep.close. by destruct (e_close_code e). Qed.

(** A method of a server that is a sequence of endpoint methods. *)
Lemma server_bind {A B} (m : method ServerStreamConnection A) (k : A -> method ServerStreamConnection B) sv :
  state_paths (ServerState (m sv).2) = state_paths (ServerState sv) ->
  (forall a sv', state_paths (ServerState (k a sv').2) = state_paths (ServerState sv')) ->
  state_paths (ServerState ((m ≫= k) sv).2) = state_paths (ServerState sv).
Proof.
  intros Hm Hk. rewrite bind_unfold. destruct (m sv) as [[a|e|] sv']; cbn [fst snd] in *; try done. by rewrite Hk.
Qed.

Lemma close_state_quiet code : state_quiet (Node.close_state code).
Proof.
  intros [c|sv]; unfold Node.close_state.
  - match goal with |- context [Assoc.on_connection ?m c] => pose proof (assoc_client m c) as Hc; destruct (Assoc.on_connection m c) as [o c'] end.
    apply Hc, client_bind; [|intros _; apply client_bind; [apply client_ep_or_none, poll_close_count|]].
    + apply client_ep. intros e. apply close_count.
    + intros r. apply client_const.
  - match goal with |- context [(?m : method ServerStreamConnection _) sv] =>
      assert (state_paths (ServerState (m sv).2) = state_paths (ServerState sv)) as Hs end.
    { apply server_bind; [apply server_ep; intros e; apply close_count|]. intros _ sv'.
      apply server_bind; [apply server_ep, poll_close_count|done]. }
    match goal with |- context [(?m : method ServerStreamConnection _) sv] => by destruct (m sv) as [o sv'] end.
Qed.

Lemma bearer_timeout_count e : path_count (Ep.on_bearer_timeout e) = path_count e.
Proof. apply length_fmap. Qed.

Lemma poll_timer_quiet now : state_quiet (NodeTimer.poll_state_timer now).
Proof.
  intros [c|sv]; unfold NodeTimer.poll_state_timer.
  - assert (state_paths (ClientState (Assoc.on_ep (modify Ep.on_bearer_timeout) c).2) = state_paths (ClientState c)) as <-.
    { apply assoc_client, client_ep. intros e. apply bearer_timeout_count. }
    generalize (Assoc.on_ep (modify Ep.on_bearer_timeout) c).2 as c1. clear c. intros c1. unfold Assoc.poll_timer.
    rewrite bind_unfold. pose proof (assoc_client (Client.poll_transmit_at now packet_size) c1) as Hp1.
    destruct (Assoc.on_connection (Client.poll_transmit_at now packet_size) c1) as [[[u|]|e|] c2]; cbn [fst snd] in *.
    1,3,4: apply Hp1, client_ep_or_none; path_steps; [apply set_time_count|apply poll_transmit_count].
    etrans; [|apply Hp1, client_ep_or_none; path_steps; [apply set_time_count|apply poll_transmit_count]].
    pose proof (assoc_client (Client.poll_retransmit now packet_size) c2) as Hp2.
    destruct (Assoc.on_connection (Client.poll_retransmit now packet_size) c2) as [o c3]. apply Hp2, client_ep_or_none.
    path_steps; [apply set_time_count|apply retransmit_due_count].
  - assert (state_paths (ServerState (Server.upd_ep Ep.on_bearer_timeout sv).2) = state_paths (ServerState sv)) as <-.
    { apply server_ep. intros e. apply bearer_timeout_count. }
    generalize (Server.upd_ep Ep.on_bearer_timeout sv).2 as s1. clear sv. intros s1.
    assert (state_paths (ServerState (Server.poll_timer now packet_size s1).2) = state_paths (ServerState s1)) as Hs.
    { unfold Server.poll_timer. apply server_bind; [apply server_ep; intros e; apply set_time_count|]. intros _ s2.
      apply server_bind; [apply server_ep, poll_transmit_count|]. intros [u|] s3; [done|].
      apply server_bind; [apply server_ep, retransmit_due_count|done]. }
    by destruct (Server.poll_timer now packet_size s1).
Qed.

Lemma bootstrap_packet_quiet b : state_quiet (NodeTimer.bootstrap_packet b).
Proof.
  intros s. unfold NodeTimer.bootstrap_packet. destruct s as [c|sv]; [|done]. destruct (bs_setup_request b); [done|].
  unfold Assoc.encode_open_attempt. match goal with |- context [Assoc.on_connection ?m c] =>
    pose proof (assoc_client m c) as Hc; destruct (Assoc.on_connection m c) as [o c'] end.
  apply Hc. unfold Client.encode_open_attempt.
  apply client_bind; [apply client_const|intros used]. apply client_bind; [by intros x; destruct used|intros _].
  apply client_bind; [by apply client_modify|intros _]. apply client_const.
Qed.

Lemma growth_count l : keeps_paths (Credit.set_receive_growth_limits l).
Proof.
  unfold Credit.set_receive_growth_limits. path_steps; try done.
  2: { unfold Credit.raise_max_streams_bidi. cbv zeta. repeat case_match; done. }
  induction (seq 0 a1) as [|i l' IH]; [by intros e|]. cbn [for_each]. path_steps; [|done].
  intros e. unfold Credit.grow_stream. destruct (streams (e_receive e) !! i); [|done]. cbv zeta. destruct (_ <? _); [|done].
  unfold Credit.queue_stream_credit. cbv zeta. destruct (existsb _ _); [done|]. by destruct (try_reserve _).
Qed.
Lemma history_count k : keeps_paths (Ep.set_history_capacity k).
Proof. intros e. unfold Ep.set_history_capacity. destruct (_ =? _)%nat; [done|]. by destruct (_ && _). Qed.
Lemma transmission_count k : keeps_paths (Ep.set_transmission_capacity k).
Proof. intros e. unfold Ep.set_transmission_capacity. destruct (_ =? _)%nat; [done|]. destruct (_ || _); [done|]. apply length_fmap. Qed.

Lemma client_config_quiet b e store (f : ep unit) :
  (forall c, cl_endpoint (store c) = cl_endpoint c) -> keeps_paths f ->
  client_quiet (_ ← refuse_if b e; _ ← modify store; Client.apply_if_established f).
Proof.
  intros Hs Hf. apply client_bind; [intros c; by destruct b|]. intros _. apply client_bind.
  - intros c. unfold client_paths. exact (f_equal _ (Hs c)).
  - intros _ c. unfold Client.apply_if_established. destruct (cl_endpoint c); [by apply client_ep|done].
Qed.

Lemma set_limits_quiet l : state_quiet (Node.set_state_limits l).
Proof.
  intros [c|sv]; unfold Node.set_state_limits.
  - assert (state_paths (ClientState (Assoc.set_runtime_limits l c).2) = state_paths (ClientState c)) as Hc.
    { revert c. unfold Assoc.set_runtime_limits.
      assert (forall A B (m : method ClientConnection A) (k : A -> method ClientAssociation B), client_quiet m ->
        (forall a c, state_paths (ClientState (k a c).2) = state_paths (ClientState c)) ->
        forall c, state_paths (ClientState ((Assoc.on_connection m ≫= k) c).2) = state_paths (ClientState c)) as Hbind.
      { intros A B m k Hm Hk c. rewrite bind_unfold. pose proof (assoc_client m c Hm) as Hc.
        destruct (Assoc.on_connection m c) as [[a|x|] c']; cbn [fst snd] in *; try done. by rewrite Hk. }
      apply Hbind; [by apply client_config_quiet; [|apply estimator_count]|]. intros _.
      apply Hbind; [by apply client_config_quiet; [|apply pacing_count]|]. intros _.
      apply Hbind; [apply client_ep, growth_count|]. intros _. apply Hbind; [apply client_ep, history_count|]. intros _.
      apply Hbind; [apply client_ep, transmission_count|]. intros _ c. by apply assoc_client, client_ep. }
    by destruct (Assoc.set_runtime_limits l c).
  - assert (state_paths (ServerState (Server.set_runtime_limits l sv).2) = state_paths (ServerState sv)) as Hs.
    { unfold Server.set_runtime_limits. unfold Server.upd_ep. do 6 (apply server_bind;
        [apply server_ep; auto using growth_count, history_count, transmission_count, estimator_count, pacing_count,
           keeps_paths_modify|intros _ ?]); done. }
    by destruct (Server.set_runtime_limits l sv).
Qed.
End states.

(** ** The operations *)
Create HintDb node_quiet.

Section operations.
Context `{Allocator, PacketSize, Features}.
#[local] Hint Resolve allocate_same event_same slot_ep_quiet on_state_quiet : node_quiet.

Lemma build_packet_same {A} lease (m : node Error.t A) : quiet_action m -> quiet_action (Node.build_packet lease m).
Proof. intros Hm. unfold Node.build_packet. action_steps. exact Hm. Qed.
Lemma build_optional_same {A} lease (m : node Error.t (option A)) :
  quiet_action m -> quiet_action (Node.build_optional_packet lease m).
Proof. intros Hm. unfold Node.build_optional_packet. action_steps. exact Hm. Qed.
Lemma build_local_same {A} lease (o : res A) : quiet_action (Node.build_local lease o).
Proof. unfold Node.build_local. action_steps. Qed.
Lemma slot_packet_same {A} id (m : method AssociationSlot A) : slot_quiet m -> quiet_action (Node.slot_packet id m).
Proof. apply on_slot_same. Qed.
Lemma poll_transmit_same id i :
  quiet_action (Node.slot_packet id (on_field as_state (Node.poll_state_transmit i))).
Proof. apply slot_packet_same, on_state_quiet, poll_transmit_quiet. Qed.
Lemma read_same {E A} id (e : E) (f : AssociationSlot -> outcome E A) : quiet_action (Node.read_slot id e f).
Proof. unfold Node.read_slot. action_steps. Qed.

Lemma remember_slot_same a s : slot_same s (remember_slot_address a s).
Proof.
  unfold remember_slot_address. destruct (list_find _ _) as [[j i]|].
  - etrans; [|apply (upd_slot_path_same i)]. by apply same_fields.
  - destruct (_ && _); [by apply same_fields|done].
Qed.
Lemma remember_address_same id a n : node_same n (Node.remember_address id a n).
Proof. apply if_slot_same. intros s. etrans; [|apply remember_slot_same]. by apply same_fields. Qed.
Lemma remember_ingress_same id i a b n : node_same n (Node.remember_ingress_path_address id i a b n).
Proof. apply if_slot_same. intros s. destruct b; [etrans; [apply (upd_slot_path_same i)|]|]; by apply same_fields. Qed.

(** *** Limits and rules *)
Lemma set_limits_same c l : quiet_action (Node.set_limits c l).
Proof.
  unfold Node.set_limits. action_steps. transitivity (s <| nd_router ::= Router.set_max_entries (nl_max_routes l) |>); [|by apply other_fields].
  apply router_same. exact (forwards_same (OSetMax (nl_max_routes l)) (nd_router s) I).
Qed.
Lemma set_default_limits_same l : quiet_action (Node.set_default_association_limits l).
Proof.
  intros n. unfold Node.set_default_association_limits. rewrite act_throw_if.
  destruct (Node.association_limits_invalid l) eqn:Hl; [done|]. by split.
Qed.
Lemma set_association_limits_same id l : quiet_action (Node.set_association_limits id l).
Proof.
  unfold Node.set_association_limits. action_steps. apply on_slot_same, slot_quiet_bind; [apply on_state_quiet, set_limits_quiet|].
  intros _. apply slot_quiet_modify. intros s. by apply same_fields.
Qed.

Lemma register_forward_same cid rule : quiet_action (Node.register_forward cid rule).
Proof.
  unfold Node.register_forward. action_steps. intros n. unfold Node.on_router, on_part.
  pose proof (forwards_same (OForward cid rule) (nd_router n) I) as Hf. cbn in Hf.
  unfold Router.register_forward, Router.on_registry. by apply router_same.
Qed.
Lemma register_forward_pair_same c1 r1 c2 r2 : quiet_action (Node.register_forward_pair c1 r1 c2 r2).
Proof.
  unfold Node.register_forward_pair. action_steps. intros n. unfold Node.on_router, on_part.
  pose proof (forwards_same (OPair c1 r1 c2 r2) (nd_router n) I) as Hf. cbn in Hf.
  unfold Router.register_forward_pair, Router.on_registry. by apply router_same.
Qed.
Lemma remove_forward_same cid n : node_same n (Node.remove_forward cid n).2.
Proof.
  pose proof (forwards_same (ORemoveForward cid) (nd_router n) I) as Hf. cbn in Hf.
  unfold Node.remove_forward, Router.remove_forward, Router.on_registry. by apply router_same.
Qed.
Lemma remove_forward_pair_same c1 c2 n : node_same n (Node.remove_forward_pair c1 c2 n).2.
Proof.
  pose proof (forwards_same (ORemovePair c1 c2) (nd_router n) I) as Hf. cbn in Hf.
  unfold Node.remove_forward_pair, Router.remove_forward_pair, Router.on_registry. by apply router_same.
Qed.

Lemma start_turn_same now n : node_same n (NodeTimer.start_turn now n).
Proof.
  unfold NodeTimer.start_turn. etrans; [apply (advance_clock_same now)|]. generalize (Node.advance_clock now n) as m. intros m.
  etrans; [apply (router_same m)|apply router_same, setups_same].
  exact (forwards_same (OExpire (nd_clock_us m)) (nd_router m) I).
Qed.
End operations.

(** ** Circuits that stay *)
Section circuits.
Context `{Allocator, PacketSize, Features}.

Lemma fresh_cid_same k cid : quiet_action (NodePath.fresh_cid k cid).
Proof.
  induction k as [|k IH]; cbn [NodePath.fresh_cid]; action_steps; [apply allocate_same|exact IH].
Qed.

Lemma push_status_same id local st n : node_same n (NodePath.push_status id local st n).
Proof. apply event_same. Qed.

Lemma control_packet_count i d f cap : keeps_paths (Transmit.encode_path_control_packet i d f cap).
Proof. apply path_control_count. Qed.
Lemma path_control_same id i d f : quiet_action (NodePath.join_packet id i d f).
Proof. apply slot_packet_same, slot_ep_quiet, path_control_count. Qed.

Lemma retry_direct_same id key lease : quiet_action (NodePath.retry_direct_path id key lease).
Proof.
  unfold NodePath.retry_direct_path. action_steps; auto using read_same, build_packet_same, path_control_same.
  apply on_slot_same, slot_ep_quiet. intros e. unfold NodePath.count_join_retry. destruct (Ep.path_with_key e key); [apply count_upd|done].
Qed.

Lemma suspend_path_count i : keeps_paths (NodePath.suspend_path i).
Proof.
  unfold NodePath.suspend_path. path_steps; auto using queue_status_count, suspend_count.
Qed.
Lemma suspend_circuit_same c : quiet_action (NodePath.suspend_circuit c).
Proof.
  unfold NodePath.suspend_circuit. action_steps; auto using read_same, push_status_same.
  apply on_slot_same, slot_ep_quiet, suspend_path_count.
Qed.

Lemma probe_same id i now lease : quiet_action (NodePath.prepare_path_probe id i now lease).
Proof.
  unfold NodePath.prepare_path_probe. action_steps; auto using read_same. apply build_packet_same, slot_packet_same, slot_ep_quiet.
  path_steps; auto using begin_probe_count, control_packet_count.
Qed.

(** *** A bearer goes away *)
Lemma drop_bearer_count bearer ids : forall r,
  path_count (fold_left (fun r i => NodePath.drop_bearer_on_path bearer i r) ids r).1 = path_count r.1.
Proof.
  induction ids as [|i ids IH]; intros [e l]; [done|]. cbn [fold_left]. rewrite IH. unfold NodePath.drop_bearer_on_path.
  destruct (get_path e i); [|done]. destruct (_ && _); cbn [fst]; [|apply count_upd].
  by rewrite queue_status_count, suspend_count, count_upd.
Qed.

Lemma drop_bearer_same bearer s : slot_same s (NodePath.drop_bearer bearer s).1.
Proof.
  unfold NodePath.drop_bearer. destruct (slot_endpoint s) as [e|] eqn:He.
  - destruct (fold_left _ _ _) as [e' ids] eqn:Hf.
    assert (path_count e' = path_count e) as Hc by (pose proof (drop_bearer_count bearer (seq 0 (length (e_paths e))) (e, [])) as Hp; by rewrite Hf in Hp).
    assert (slot_same s (upd_endpoint (fun _ => e') s)) as Hs.
    { unfold upd_endpoint. rewrite He. destruct (slot_ep_shape (modify (fun _ => e')) s) as (o & st & -> & Hst). rewrite He in Hst.
      destruct Hst as [_ Hst]. apply state_same; [|by rewrite Hst]. intros x Hx. rewrite Hst in Hx. injection Hx as <-. by exists e. }
    etrans; [exact Hs|]. destruct (as_bootstrap_address _) as [[b a]|]; [destruct (b =? bearer)|]; by try apply same_fields.
  - cbn [fst]. destruct (as_bootstrap_address _) as [[b a]|]; [destruct (b =? bearer)|]; by try apply same_fields.
Qed.

Lemma fold_same {B} (f : QuicNode -> B -> QuicNode) l : forall n,
  (forall m x, node_same m (f m x)) -> node_same n (fold_left f l n).
Proof. induction l as [|x l IH]; intros n Hf; [done|]. cbn [fold_left]. etrans; [apply Hf|by apply IH]. Qed.

Lemma remove_bearer_same bearer n : node_same n (NodePath.remove_bearer bearer n).
Proof.
  apply fold_same. intros m i. unfold NodePath.remove_bearer_at. destruct (nd_associations m !! i) as [[s|]|] eqn:Hs; [|done..].
  pose proof (drop_bearer_same bearer s) as Hd. destruct (NodePath.drop_bearer bearer s) as [s' ids].
  etrans; [|apply fold_same; intros; apply push_status_same]. apply (set_slot_same _ s); [|done]. by apply slot_Some.
Qed.

(** *** Path control *)
Lemma receive_control_same input i at_ : keeps_paths (NodePath.receive_control input i at_).
Proof.
  unfold NodePath.receive_control. path_steps; [apply receive_batch_count|apply arrival_count].
Qed.

Lemma join_ack_same id i r a d key tid cid : quiet_action (NodePath.receive_path_join_ack id i r a d key tid cid).
Proof.
  unfold NodePath.receive_path_join_ack. action_steps; auto using push_status_same. apply on_slot_same, slot_ep_quiet.
  unfold NodePath.apply_join_ack. path_steps; auto using set_peer_cid_count, count_upd, validation_ack_count.
Qed.

Lemma challenge_same id i a at_ token lease : quiet_action (NodePath.receive_path_challenge id i a at_ token lease).
Proof.
  unfold NodePath.receive_path_challenge. action_steps; auto using read_same, build_packet_same, path_control_same.
  apply on_slot_same, slot_ep_quiet. unfold NodePath.note_response. path_steps; apply count_upd.
Qed.

Lemma response_same id i at_ token : quiet_action (NodePath.receive_path_response id i at_ token).
Proof.
  unfold NodePath.receive_path_response. action_steps; auto using push_status_same.
  - apply on_slot_same, slot_ep_quiet. intros e. unfold NodePath.complete_path_probe. destruct (get_path e i) as [p|]; [|done].
    destruct (PathOps.complete_probe p token a). apply count_upd.
  - apply if_slot_same. intros x. apply upd_endpoint_same. intros e. apply queue_status_count.
Qed.

Lemma status_frame_same id i a key seq st lease : quiet_action (NodePath.receive_path_status_frame id i a key seq st lease).
Proof.
  unfold NodePath.receive_path_status_frame. action_steps; auto using push_status_same, build_optional_same, poll_transmit_same.
  apply on_slot_same, slot_ep_quiet. unfold NodePath.apply_path_status. path_steps; auto using validation_ack_count.
  intros e. pose proof (receive_status_count key seq st e) as Hc. by destruct (Ep.receive_path_status key seq st e).
Qed.

(** *** Control and repair packets *)
Lemma poll_control_same id lease : quiet_action (NodeTimer.poll_control id lease).
Proof. unfold NodeTimer.poll_control. action_steps; auto using read_same, build_optional_same, poll_transmit_same. Qed.

Lemma association_control_same id lease lease' : quiet_action (NodeTimer.poll_association_control id lease lease').
Proof.
  unfold NodeTimer.poll_association_control. action_steps; auto using read_same, poll_control_same.
  apply respects_catch; [apply _| | |].
  - apply build_packet_same, slot_packet_same, slot_ep_quiet. path_steps; auto using set_time_count, control_packet_count.
  - intros. action_steps.
  - intros err. action_steps; auto using poll_control_same; apply on_slot_same, slot_ep_quiet; path_steps; apply defer_status_count.
Qed.

Lemma endpoint_expired_same id now l1 l2 l3 : quiet_action (NodeTimer.endpoint_expired id now l1 l2 l3).
Proof.
  unfold NodeTimer.endpoint_expired. action_steps; auto using read_same, association_control_same.
  apply build_optional_same, slot_packet_same, on_state_quiet, poll_timer_quiet.
Qed.

Lemma retry_join_same j now lease : quiet_action (NodeTimer.retry_join j now lease).
Proof.
  unfold NodeTimer.retry_join. action_steps; auto using build_local_same. apply if_slot_same. intros x. by apply same_fields.
Qed.
End circuits.
