(* ===== verification/NodeCircuits.v ===== *)
(** * Operations of a node that change its table

    The methods that open and close a circuit, start, accept and close an
    association, and the timer turn that may retire either: each keeps the
    invariant of [NodeRoutes.v] and only moves generations forward
    ([step_ok]).  A circuit takes the next path of its association and an
    identifier registered for it; one that is refused leaves no route behind. *)

From S2P Require Import Prelude Records Methods Actions Wire PacketHeader AckRanges Reader Frames FlowControl Congestion PathState Endpoint Credit Ledger Transmit Retransmit Receive PathCount SortedKeys Registry RegistrySpec SetupTable Router Bootstrap Callback Mux Association Node RouterEndpoints NodePaths NodeTimer NodeRoutes NodeQuiet.

(** ** One association replaced, with its routes *)
Section replaced.
Context `{Allocator}.

Lemma replaced_ok id s s' n n' :
  Node.slot n id = Some s -> node_inv n ->
  nd_associations n' = <[qa_slot id := Some s']> (nd_associations n) -> nd_generations n' = nd_generations n ->
  nd_default_association_limits n' = nd_default_association_limits n ->
  registry_ok (nd_router n') -> as_generation s' = as_generation s -> slot_ok s' ->
  (forall c e, routed (nd_router n') c e <-> (e = id /\ listed s' c) \/ (e <> id /\ routed (nd_router n) c e)) ->
  node_inv n' /\ node_le n n'.
Proof.
  intros [Hs Hg]%slot_Some [I1 I2 I3 I4 I5] Ha Hgen Hl Hok Hgs Hso Hr.
  assert (forall j, nd_associations n' !! j = if decide (j = qa_slot id) then Some (Some s') else nd_associations n !! j) as Hat.
  { intros j. rewrite Ha. destruct (decide _) as [->|Hne]; [|by rewrite list_lookup_insert_ne].
    by rewrite list_lookup_insert_eq by (by eapply lookup_lt_Some). }
  split.
  - split; rewrite ?Hgen, ?Hl; [done| | | |done].
    + by rewrite Ha, length_insert.
    + intros j x Hj. rewrite Hat in Hj. destruct (decide (j = qa_slot id)) as [->|Hne]; [|by apply I3].
      simplify_eq. split; [done|]. rewrite Hgs. apply (I3 _ _ Hs).
    + intros c e. rewrite Hr, I4. destruct (decide (e = id)) as [->|Hne].
      * split; [intros [[_ Hc]|[]]; [|done]|].
        { exists s'. by rewrite slot_Some, Hat, decide_True, Hgs. }
        intros (x & [Hx _]%slot_Some & Hc). rewrite Hat, decide_True in Hx by done. simplify_eq. by left.
      * destruct (decide (qa_slot e = qa_slot id)) as [Heq|Hns].
        { split; [intros [[]|[_ (x & [Hx Hxg]%slot_Some & _)]]|intros (x & [Hx Hxg]%slot_Some & _)].
          - done.
          - destruct Hne. rewrite Heq in Hx. destruct e, id. cbn in *. congruence.
          - destruct Hne. rewrite Hat, decide_True in Hx by done. destruct e, id. cbn in *. congruence. }
        split; [intros [[]|[_ (x & [Hx Hxg]%slot_Some & Hc)]]; [done|]|intros (x & [Hx Hxg]%slot_Some & Hc); right; split; [done|]].
        { exists x. by rewrite slot_Some, Hat, decide_False. }
        rewrite Hat, decide_False in Hx by done. exists x. by rewrite slot_Some.
  - split; rewrite ?Hgen; [eauto with lia|]. intros j x Hj. rewrite Hat in Hj.
    destruct (decide (j = qa_slot id)) as [->|Hne]; left; [|eauto]. simplify_eq. exists s. by split.
Qed.

(** The association gains its next path under [cid]. *)
Record opened (cid : Z) (s s' : AssociationSlot) : Prop := {
  op_generation : as_generation s' = as_generation s;
  op_cids : as_receive_cids s' = <[slot_path_count s := Some cid]> (as_receive_cids s);
  op_room : (0 < slot_path_count s < ARRAY)%nat;
  op_count : slot_path_count s' = S (slot_path_count s);
}.

Lemma opened_listed cid s s' c : slot_ok s -> opened cid s s' -> listed s' c <-> c = cid \/ listed s c.
Proof.
  intros [Hl Ha _ _] [_ Hc Hr _]. unfold listed. rewrite Hc, !list_elem_of_lookup. split.
  - intros [j Hj]. destruct (decide (j = slot_path_count s)) as [->|Hne].
    + rewrite list_lookup_insert_eq in Hj by lia. left. congruence.
    + rewrite list_lookup_insert_ne in Hj by done. eauto.
  - intros [->|[j Hj]]; [exists (slot_path_count s); rewrite list_lookup_insert_eq by lia; done|].
    exists j. rewrite list_lookup_insert_ne; [done|]. intros <-. specialize (Ha (slot_path_count s)). rewrite Hj in Ha.
    unfold paths_or_one in Ha. assert (is_Some (Some c)) as Hs by done. apply Ha in Hs. lia.
Qed.

Lemma opened_slot_ok cid s s' : slot_ok s -> opened cid s s' -> ~ listed s cid -> slot_ok s'.
Proof.
  intros [Hl Ha Hd Hs] [_ Hc Hr Hn] Hnot.
  assert (forall j, as_receive_cids s' !! j = if decide (j = slot_path_count s) then Some (Some cid) else as_receive_cids s !! j) as Hat.
  { intros j. rewrite Hc. destruct (decide _) as [->|Hne]; [by rewrite list_lookup_insert_eq by lia|by rewrite list_lookup_insert_ne]. }
  split.
  - by rewrite Hc, length_insert.
  - intros i. rewrite Hat. specialize (Ha i). unfold paths_or_one in *. rewrite Hn. destruct (decide _) as [->|Hne].
    + split; [lia|done].
    + rewrite Ha. lia.
  - intros i j c. rewrite !Hat. destruct (decide _) as [->|Hi], (decide _) as [->|Hj]; [done|..].
    + intros [= <-] Hx. destruct Hnot. by apply list_elem_of_lookup_2 in Hx.
    + intros Hx [= <-]. destruct Hnot. by apply list_elem_of_lookup_2 in Hx.
    + apply Hd.
  - intros _. lia.
Qed.

Lemma opened_ok cid id s s' n n' r :
  Node.slot n id = Some s -> node_inv n ->
  Router.register_endpoint cid id (nd_router n) = (Ok tt, r) -> opened cid s s' ->
  nd_associations n' = <[qa_slot id := Some s']> (nd_associations n) -> nd_generations n' = nd_generations n ->
  nd_default_association_limits n' = nd_default_association_limits n -> nd_router n' = r ->
  node_inv n' /\ node_le n n'.
Proof.
  intros Hs Hinv Hreg Hop Ha Hg Hl Hr. pose proof Hinv as [I1 _ I3 I4 _]. pose proof Hs as [Hsl _]%slot_Some.
  destruct (register_routes _ _ _ _ I1 Hreg) as (R1 & R2 & R3). destruct (I3 _ _ Hsl) as [Hso _].
  assert (forall c, routed (nd_router n) c id <-> listed s c) as Hown.
  { intros c. rewrite I4. split; [intros (x & Hx & ?); congruence|eauto]. }
  apply (replaced_ok id s s' n n'); rewrite ?Hr; try done; [apply Hop| |].
  - apply (opened_slot_ok cid s s' Hso Hop). rewrite <- Hown. apply R2.
  - intros c e. rewrite R3, (opened_listed cid s s' c Hso Hop), <- Hown. clear. destruct (decide (e = id)) as [->|Hne]; naive_solver.
Qed.

(** The association loses the path [i] and its identifier. *)
Record closed_path (i : nat) (s s' : AssociationSlot) : Prop := {
  cl_generation : as_generation s' = as_generation s;
  cl_cids : as_receive_cids s' = shift_out i None (as_receive_cids s);
  cl_range : (0 < i < slot_path_count s)%nat;
  cl_count : slot_path_count s = S (slot_path_count s');
}.

Lemma shift_out_lookup {A} i (d : A) l j : (i < length l)%nat ->
  shift_out i d l !! j = if (j <? i)%nat then l !! j else
                         if (S j =? length l)%nat then Some d else l !! S j.
Proof.
  intros Hi. unfold shift_out. assert (length (delete i l) = length l - 1)%nat as Hd by (apply length_delete, lookup_lt_is_Some_2, Hi).
  destruct (Nat.ltb_spec j i) as [Hlt|Hge].
  { rewrite lookup_app_l by lia. by apply list_lookup_delete_lt. }
  destruct (Nat.eqb_spec (S j) (length l)) as [He|Hne].
  { rewrite lookup_app_r by lia. by replace (j - _)%nat with 0%nat by lia. }
  destruct (decide (j < length (delete i l))%nat) as [Hj|Hj].
  - rewrite lookup_app_l by done. by apply list_lookup_delete_ge.
  - rewrite lookup_app_r by lia. rewrite (lookup_ge_None_2 l) by lia. destruct (j - _)%nat eqn:He; [lia|done].
Qed.

(** Everything listed but the identifier of the path stays listed. *)
Lemma closed_listed i s s' cid c :
  slot_ok s -> closed_path i s s' -> as_receive_cids s !! i = Some (Some cid) ->
  listed s' c <-> listed s c /\ c <> cid.
Proof.
  intros [Hl _ Hd _] [_ Hc Hr _] Hi. unfold listed. rewrite Hc, !list_elem_of_lookup.
  assert (i < length (as_receive_cids s))%nat as Hlt by (by eapply lookup_lt_Some). split.
  - intros [j Hj]. rewrite shift_out_lookup in Hj by done. destruct (Nat.ltb_spec j i).
    { split; [eauto|]. intros ->. assert (j = i) by eauto. lia. }
    destruct (Nat.eqb_spec (S j) (length (as_receive_cids s))); [done|]. split; [eauto|]. intros ->. assert (S j = i) by eauto. lia.
  - intros [[j Hj] Hne]. assert (j <> i) by congruence. assert (j < length (as_receive_cids s))%nat by (by eapply lookup_lt_Some).
    destruct (decide (j < i)%nat).
    + exists j. rewrite shift_out_lookup by done. by destruct (Nat.ltb_spec j i); [|lia].
    + exists (Nat.pred j). rewrite shift_out_lookup by done. destruct (Nat.ltb_spec (Nat.pred j) i); [lia|].
      destruct (Nat.eqb_spec (S (Nat.pred j)) (length (as_receive_cids s))); [lia|]. by replace (S (Nat.pred j)) with j by lia.
Qed.

Lemma closed_slot_ok i s s' : slot_ok s -> closed_path i s s' -> slot_ok s'.
Proof.
  intros [Hl Ha Hd Hs] [_ Hc Hr Hn].
  assert (slot_path_count s <= ARRAY)%nat as Hmax.
  { apply Nat.nlt_ge. intros Hx. specialize (Ha ARRAY). rewrite (lookup_ge_None_2 (as_receive_cids s)) in Ha by lia.
    destruct (proj2 Ha) as [? Hx']; [unfold paths_or_one; lia|done]. }
  assert (i < length (as_receive_cids s))%nat as Hlt by lia.
  split.
  - rewrite Hc. unfold shift_out. rewrite length_app, length_delete by (by apply lookup_lt_is_Some_2). cbn. lia.
  - intros j. rewrite Hc, shift_out_lookup by done. pose proof (Ha j) as Haj. pose proof (Ha (S j)) as Has.
    unfold paths_or_one in *. rewrite Hl. destruct (Nat.ltb_spec j i).
    + rewrite Haj. lia.
    + destruct (Nat.eqb_spec (S j) ARRAY) as [He|Hne]; [split; [by intros []|intros; unfold ARRAY in *; lia]|]. rewrite Has. lia.
  - intros j k c. rewrite Hc, !shift_out_lookup, Hl by done.
    assert (forall j x, (if (j <? i)%nat then as_receive_cids s !! j else if (S j =? ARRAY)%nat then Some None else as_receive_cids s !! S j)
      = Some (Some x) -> as_receive_cids s !! (if (j <? i)%nat then j else S j) = Some (Some x)) as Hsrc.
    { intros m x. destruct (m <? i)%nat; [done|]. by destruct (S m =? ARRAY)%nat. }
    intros Hj%Hsrc Hk%Hsrc. pose proof (Hd _ _ _ Hj Hk) as He. revert He.
    destruct (Nat.ltb_spec j i), (Nat.ltb_spec k i); lia.
  - intros _. lia.
Qed.

Lemma closed_ok i cid id s s' n n' :
  Node.slot n id = Some s -> node_inv n -> closed_path i s s' -> as_receive_cids s !! i = Some (Some cid) ->
  nd_associations n' = <[qa_slot id := Some s']> (nd_associations n) -> nd_generations n' = nd_generations n ->
  nd_default_association_limits n' = nd_default_association_limits n ->
  nd_router n' = (Router.remove_endpoint cid id (nd_router n)).2 ->
  node_inv n' /\ node_le n n'.
Proof.
  intros Hs Hinv Hcl Hi Ha Hg Hl Hr. pose proof Hinv as [I1 _ I3 I4 _]. pose proof Hs as [Hsl _]%slot_Some.
  destruct (remove_routes cid id (nd_router n) I1) as (R1 & _ & R3). destruct (I3 _ _ Hsl) as [Hso _].
  assert (forall c, routed (nd_router n) c id <-> listed s c) as Hown.
  { intros c. rewrite I4. split; [intros (x & Hx & ?); congruence|eauto]. }
  apply (replaced_ok id s s' n n'); rewrite ?Hr; try done; [apply Hcl|by apply (closed_slot_ok i s)|].
  intros c e. rewrite R3, (closed_listed i s s' cid c Hso Hcl Hi), <- Hown. clear. destruct (decide (e = id)) as [->|Hne]; naive_solver.
Qed.
End replaced.

(** ** Opening *)
Section opening.
Context `{Allocator, PacketSize, Features}.

(** A method that appends a path, or fails with the paths as they are. *)
Definition adds_path (m : ep nat) : Prop := forall e, (0 < path_count e)%nat ->
  match m e with
  | (Ok i, e') => i = path_count e /\ (path_count e < ARRAY)%nat /\ path_count e' = S (path_count e)
  | (Err _, e') => path_count e' = path_count e
  | (Panic, _) => False
  end.

Lemma add_path_adds : adds_path Ep.add_path_state.
Proof.
  intros e He. unfold Ep.add_path_state. destruct (Z.leb_spec MAX_PATH_STATES (zlen (e_paths e))); [done|].
  destruct (negb _); [done|]. destruct (e_paths e) as [|p l] eqn:Hp; [unfold path_count in He; rewrite Hp in He; cbn in He; lia|].
  unfold path_count. get_set. rewrite length_app, Hp. cbn [length]. split; [done|]. split; [|lia].
  unfold ARRAY, zlen in *. cbn [length] in *. lia.
Qed.

Lemma adds_then g : (forall i e, path_count (g i e) = path_count e) ->
  adds_path (i ← Ep.add_path_state; _ ← modify (g i); mret i).
Proof.
  intros Hg e He. pose proof (add_path_adds e He) as Ha. rewrite bind_unfold.
  destruct (Ep.add_path_state e) as [[i|x|] e']; try done. rewrite bind_modify. cbn [mret method_ret]. by rewrite Hg.
Qed.

Lemma adds_local cid : adds_path (Ep.add_path_state_with_local_id cid).
Proof.
  intros e He. unfold Ep.add_path_state_with_local_id. rewrite bind_gets, bind_refuse. destruct (_ || _); [done|].
  refine (adds_then (fun i => upd_path i (fun p => p <| local_cid := Some cid |>)) _ e He). intros. apply count_upd.
Qed.
Lemma adds_both cid peer : adds_path (Ep.add_path_state_with_ids cid peer).
Proof.
  intros e He. unfold Ep.add_path_state_with_ids. rewrite bind_unfold. unfold lift_res.
  destruct (Ep.connection_ids cid peer) as [?|?|] eqn:Hc; [|done|unfold Ep.connection_ids in Hc; by destruct (_ || _)].
  rewrite bind_gets, bind_refuse. destruct (existsb _ _); [done|].
  refine (adds_then (fun i => upd_path i (fun p => p <| local_cid := Some cid |> <| peer_cid := Some peer |>)) _ e He).
  intros. apply count_upd.
Qed.

Lemma install_run add f cid s :
  slot_ok s -> adds_path add ->
  match NodePath.install_path add f cid s with
  | (Ok i, s') => opened cid s s'
  | (Err _, s') => slot_same s s'
  | (Panic, _) => False
  end.
Proof.
  intros Hok Hadd. unfold NodePath.install_path. rewrite bind_unfold. destruct (slot_ep_shape add s) as (o & st & -> & Hst).
  destruct (slot_endpoint s) as [e|] eqn:He.
  2: { destruct Hst as [-> ->]. by apply same_fields. }
  assert (slot_path_count s = path_count e) as Hc by (unfold slot_path_count; by rewrite He).
  assert (0 < path_count e)%nat as Hpos by (rewrite <- Hc; apply (so_paths _ Hok); by rewrite He).
  destruct Hst as [-> Hst]. specialize (Hadd e Hpos). destruct (add e) as [[i|x|] e']; cbn [fst snd] in *; [| |done].
  2: { apply state_same; [|by rewrite Hst]. intros y Hy. rewrite Hst in Hy. injection Hy as <-. by exists e. }
  destruct Hadd as (-> & Hlt & He'). rewrite bind_unfold.
  destruct (slot_ep_shape (modify (upd_path (path_count e) f)) (s <| as_state := st |>)) as (o & st2 & -> & Hst2).
  unfold slot_endpoint in Hst2. get_set_in Hst2. rewrite Hst in Hst2. destruct Hst2 as [-> Hst2]. cbn [fst snd modify] in *.
  rewrite bind_modify. cbn [mret method_ret]. split; rewrite ?Hc; [done|done|done|].
  unfold slot_path_count, slot_endpoint. get_set. rewrite Hst2. etrans; [apply count_upd|done].
Qed.

(** What follows does not touch the identifiers or the state. *)
Lemma opened_fields cid s s1 s2 : opened cid s s1 ->
  as_generation s2 = as_generation s1 -> as_receive_cids s2 = as_receive_cids s1 -> as_state s2 = as_state s1 ->
  opened cid s s2.
Proof.
  intros [O1 O2 O3 O4] Hg Hc Hs. split; [congruence..|done|]. rewrite <- O4. unfold slot_path_count, slot_endpoint. by rewrite Hs.
Qed.

Definition opens {A} (cid : Z) (m : method AssociationSlot A) : Prop := forall s, slot_ok s ->
  match m s with
  | (Ok _, s') => opened cid s s'
  | (Err _, s') => slot_same s s'
  | (Panic, _) => False
  end.

Lemma join_opens p a cid : opens cid (NodePath.join_path p a cid).
Proof.
  intros s Hok. unfold NodePath.join_path. rewrite bind_unfold.
  match goal with |- context [NodePath.install_path ?add ?f cid s] =>
    pose proof (install_run add f cid s Hok (adds_local cid)) as Hi; destruct (NodePath.install_path add f cid s) as [[i|x|] s'] end; [|done..].
  by apply (opened_fields cid s s').
Qed.

Lemma accept_opens key tid rcid cid d a : opens cid (NodePath.accept_join key tid rcid cid d a).
Proof.
  intros s Hok. unfold NodePath.accept_join. rewrite bind_gets, bind_refuse. destruct (_ =? _); [done|]. rewrite bind_unfold.
  match goal with |- context [NodePath.install_path ?add ?f cid s] =>
    pose proof (install_run add f cid s Hok (adds_both cid rcid)) as Hi; destruct (NodePath.install_path add f cid s) as [[i|x|] s'] end; [|done..].
  rewrite bind_modify. by apply (opened_fields cid s s').
Qed.

(** The route and the path come together, and go together on an error. *)
Lemma route_and_path {E A} (routing missing : E) w cid id (m : method AssociationSlot A) :
  opens cid m -> respects step_ok (NodePath.with_endpoint_route routing cid id (Node.on_slot id missing w m)).
Proof.
  intros Hm n Hinv. unfold NodePath.with_endpoint_route. rewrite act_unfold. unfold err_as.
  destruct (Node.register_endpoint cid id n) as [o n1] eqn:Hreg. cbn [map_err].
  assert (o = Ok tt \/ o <> Ok tt) as [->|Hne] by (destruct o as [[]| |]; [by left|by right..]).
  2: { destruct (register_refused_same _ _ _ _ _ Hreg Hne) as [Hs _]. apply same_step in Hs. specialize (Hs Hinv).
       destruct o as [[]|x|]; [done|exact Hs..]. }
  apply register_Ok in Hreg as (r & Hreg & ->). cbn [map_err]. unfold catch, Node.on_slot.
  change (Node.slot (n <| nd_router := r |>) id) with (Node.slot n id).
  assert (forall m', node_same n (m' <| nd_router := nd_router n |>) -> nd_router m' = r ->
    node_same n (Node.remove_endpoint cid id m').2) as Hback.
  { intros m' [S1 S2 _ S4] Hr. get_set_in S1. get_set_in S2. get_set_in S4. unfold Node.remove_endpoint.
    destruct (Router.remove_endpoint cid id (nd_router m')) as [b r'] eqn:Hrm. cbn [snd]. split; get_set; [done|done| |done].
    intros Hok. destruct (register_routes _ _ _ _ Hok Hreg) as (R1 & R2 & R3). rewrite Hr in Hrm.
    destruct (remove_routes cid id r R1) as (Q1 & _ & Q3). rewrite Hrm in Q1, Q3. cbn [snd] in Q1, Q3. split; [done|].
    intros c e. rewrite Q3, R3. specialize (R2 id). split; [intros [[[-> ->]|Hx] Hn]; [by destruct Hn|done]|].
    intros Hx. split; [by right|]. intros [-> ->]. done. }
  destruct (Node.slot n id) as [s|] eqn:Hs.
  2: { cbn [map_err]. rewrite act_update. cbn [snd throw]. apply same_step; [|done]. apply Hback; [by destruct n|done]. }
  pose proof Hs as [Hsl _]%slot_Some. pose proof (proj1 (ni_slots _ Hinv _ _ Hsl)) as Hok. specialize (Hm s Hok).
  destruct (m s) as [[a|x|] s']; cbn [map_err]; [| |done].
  - cbn [mret action_ret snd]. by apply (opened_ok cid id s s' n _ r).
  - rewrite act_update. cbn [snd throw]. apply same_step; [|done]. apply Hback; [|done].
    exact (set_slot_same id s s' n Hs Hm).
Qed.
End opening.

(** ** Closing *)
Section closing.
Context `{Allocator, PacketSize, Features}.

(** Some packet sent on the path is still recorded. *)
Definition has_record (i : nat) (s : AssociationSlot) : bool :=
  match slot_endpoint s with Some e => existsb (Ledger.on_path i) (e_sent_packets e) | None => false end.

Lemma remove_path_run i s :
  match remove_slot_path_state i s with
  | (Ok _, s') => closed_path i s s' /\ has_record i s = false
  | (Err x, s') => slot_same s s' /\ ((0 < i < slot_path_count s)%nat -> has_record i s = true /\ x = Error.Blocked)
  | (Panic, _) => False
  end.
Proof.
  unfold remove_slot_path_state. rewrite bind_unfold. destruct (slot_ep_shape (Ledger.remove_path_state i) s) as (o & st & -> & Hst).
  unfold has_record. assert (slot_path_count s = match slot_endpoint s with Some e => path_count e | None => 0%nat end) as Hc by done.
  destruct (slot_endpoint s) as [e|] eqn:He.
  2: { destruct Hst as [-> ->]. split; [by apply same_fields|]. rewrite Hc. lia. }
  destruct Hst as [-> Hst]. unfold Ledger.remove_path_state in *.
  assert (forall st, state_endpoint st = Some e -> slot_same s (s <| as_state := st |>)) as Hsame.
  { intros x Hx. apply state_same; [|by rewrite Hx]. intros y Hy. rewrite Hx in Hy. injection Hy as <-. by exists e. }
  destruct (_ || _) eqn:Hr; cbn [fst snd] in *.
  { split; [by apply Hsame|]. rewrite Hc. unfold path_count. apply orb_true_iff in Hr as [Hr%Nat.eqb_eq|Hr%Nat.leb_le]; lia. }
  apply orb_false_iff in Hr as [Hr1%Nat.eqb_neq Hr2%Nat.leb_gt].
  destruct (existsb _ _) eqn:Hrec; cbn [fst snd] in *; [by split; [apply Hsame|]|].
  split; [|done]. unfold modify. cbn [snd]. split; get_set; [done|done| |].
  - rewrite Hc. unfold path_count. lia.
  - unfold slot_path_count at 2. unfold slot_endpoint. get_set. rewrite Hst, Hc. unfold path_count. get_set.
    rewrite length_delete by (by apply lookup_lt_is_Some_2). lia.
Qed.

Lemma over_slots_Some {B} (f : nat -> AssociationSlot -> option B) n x :
  x ∈ over_slots f n -> exists i s, nd_associations n !! i = Some (Some s) /\ f i s = Some x.
Proof.
  unfold over_slots. intros ([i o] & Hin & Hf)%list_elem_of_omap. apply list_elem_of_lookup in Hin as [k Hk].
  rewrite list_lookup_imap in Hk. destruct (nd_associations n !! k) as [a|] eqn:Ha; [|done]. cbn in Hk. injection Hk as -> ->.
  destruct o as [s|]; [|done]. eauto.
Qed.

Lemma head_in {B} (l : list B) x : head l = Some x -> x ∈ l.
Proof. destruct l; [done|]. intros [= ->]. by left. Qed.

Lemma due_join_spec n j : NodeTimer.due_join n = Some j ->
  exists s, Node.slot n (NodeTimer.dj_association j) = Some s /\
            as_receive_cids s !! NodeTimer.dj_path_id j = Some (Some (NodeTimer.dj_local_cid j)) /\
            (NodeTimer.dj_path_id j < slot_path_count s)%nat.
Proof.
  intros (i & s & Hs & Hj)%head_in%over_slots_Some. exists s.
  apply head_in, list_elem_of_omap in Hj as (p & _ & Hj). unfold NodeTimer.due_join_on in Hj.
  repeat match type of Hj with
  | _ ≫= _ = Some _ => apply bind_Some in Hj as (? & ? & Hj)
  | (if ?b then _ else _) = Some _ => destruct b; [|done]
  end.
  injection Hj as <-. cbn. split; [by apply slot_Some|]. split.
  - match goal with He : mjoin (as_receive_cids s !! p) = Some _ |- _ => by apply bind_Some in He as (? & -> & ->) end.
  - match goal with He : slot_path_state s p = Some _ |- _ => rename He into Hp end.
    unfold slot_path_state in Hp. unfold slot_path_count. destruct (slot_endpoint s) as [e|]; [|done]. cbn in Hp.
    by apply lookup_lt_Some in Hp.
Qed.

Lemma give_up_ok n j : NodeTimer.due_join n = Some j -> step_ok n (NodeTimer.give_up_join j n).2.
Proof.
  intros (s & Hs & Hcid & Hp)%due_join_spec Hinv. unfold NodeTimer.give_up_join. rewrite act_unfold, Hs. unfold Node.on_slot. rewrite Hs.
  pose proof (remove_path_run (NodeTimer.dj_path_id j) s) as Hr.
  destruct (remove_slot_path_state (NodeTimer.dj_path_id j) s) as [[[]|x|] s']; cbn [map_err]; [| |done].
  2: { cbn [snd]. apply same_step; [|done]. apply (set_slot_same _ s s' n Hs), Hr. }
  rewrite !act_update. cbn [mret action_ret snd]. destruct Hr as [Hcl _]. set (id := NodeTimer.dj_association j) in *.
  set (n1 := (Node.remove_endpoint _ id _).2).
  assert (step_ok n n1) as Hn1.
  { intros _. unfold n1, Node.remove_endpoint. rewrite (surjective_pairing (Router.remove_endpoint _ _ _)). cbn [snd].
    by apply (closed_ok _ _ id s s' n _ Hs Hinv Hcl Hcid). }
  by apply (transitivity Hn1 (same_step _ _ (transitivity (event_same _ n1) (event_same _ _)))).
Qed.

Lemma circuit_path_range c e i : NodePath.circuit_path c e = Some i -> (i < path_count e)%nat.
Proof.
  unfold NodePath.circuit_path, NodePath.path_matching. intros ([j p] & (Hj & _)%list_find_Some & ->)%fmap_Some.
  by apply lookup_lt_Some in Hj.
Qed.

Lemma plan_close_spec c s p : NodePath.plan_close c s = Ok p ->
  as_receive_cids s !! NodePath.cp_path_id p = Some (Some (NodePath.cp_receive_cid p)) /\
  (0 < NodePath.cp_path_id p < slot_path_count s)%nat /\
  exists e, slot_endpoint s = Some e /\ NodePath.circuit_path c e = Some (NodePath.cp_path_id p).
Proof.
  unfold NodePath.plan_close, NodePath.find_circuit, NodePath.endpoint_or, slot_path_count.
  destruct (slot_endpoint s) as [e|]; [|done]. cbn [mbind outcome_bind]. destruct (NodePath.circuit_path c e) as [i|] eqn:Hc; [|done].
  cbn [ok_or mbind outcome_bind]. destruct (get_path e i) as [q|] eqn:Hq; [|done]. cbn [mbind outcome_bind].
  destruct (Nat.eqb_spec i 0) as [->|Hi]; [done|]. cbn [guard_err mbind outcome_bind].
  destruct (mjoin (as_receive_cids s !! i)) as [cid|] eqn:Hcid; [|done]. cbn [ok_or mbind outcome_bind]. intros [= <-].
  cbn. apply bind_Some in Hcid as (? & -> & ->). apply circuit_path_range in Hc as Hr. split; [done|]. split; [unfold path_count in Hr; lia|eauto].
Qed.

Lemma queue_abandon_same c (p : NodePath.ClosePlan) :
  quiet_action (_ ← (if NodePath.cp_abandon_pending p then mret tt else
      _ ← Node.on_slot (ci_association c) NoAssociation Transport (slot_ep (Ep.queue_path_status (NodePath.cp_path_id p) Abandon));
      update (Node.push_association_event (CircuitStatusChanged (ci_association c) c Closed)));
    throw QuicNodeEgressError.CircuitBusy : node QuicNodeEgressError.t unit).
Proof. action_steps; [|apply event_same]. apply on_slot_same, slot_ep_quiet, queue_status_count. Qed.

(** Closing a circuit keeps the node in order unless it ends in [Blocked]: then
    the route of the path is gone and its identifier is still listed. *)
Lemma close_circuit_ok c n : (NodePath.close_circuit c n).1 <> Err (Transport Error.Blocked) ->
  step_ok n (NodePath.close_circuit c n).2.
Proof.
  intros Hret Hinv. revert Hret. unfold NodePath.close_circuit, Node.read_slot. rewrite act_ask.
  destruct (Node.slot n (ci_association c)) as [s|] eqn:Hs; [|done]. cbn [ok_or mbind outcome_bind].
  destruct (NodePath.plan_close c s) as [p|x|] eqn:Hp; [|done..]. apply plan_close_spec in Hp as (Hcid & Hr & e & He & Hc).
  rewrite act_throw_if. destruct (NodePath.cp_busy p); [done|]. destruct (negb (NodePath.cp_abandon_complete p)).
  { intros _. apply same_step; [|done]. by apply queue_abandon_same. }
  rewrite act_unfold. destruct (remove_endpoint_node (NodePath.cp_receive_cid p) (ci_association c) n (ni_router _ Hinv)) as (Hn1 & _ & Hb & _).
  destruct (Node.remove_endpoint (NodePath.cp_receive_cid p) (ci_association c) n) as [b n1] eqn:Hrm. cbn [fst snd] in *.
  assert (b = true) as ->.
  { apply Hb, (ni_routes _ Hinv). exists s. split; [done|]. by apply list_elem_of_lookup_2 in Hcid. }
  rewrite act_throw_if. cbn [negb]. rewrite act_unfold. unfold Node.on_slot.
  assert (Node.slot n1 (ci_association c) = Some s) as Hs1 by (rewrite Hn1; exact Hs). rewrite Hs1.
  pose proof (remove_path_run (NodePath.cp_path_id p) s) as Hrun.
  destruct (remove_slot_path_state (NodePath.cp_path_id p) s) as [[[]|x|] s']; cbn [map_err]; [| |done].
  2: { destruct Hrun as [_ Hx]. destruct (Hx Hr) as [_ ->]. intros Hret. by destruct Hret. }
  destruct Hrun as [Hcl _]. intros _. unfold update. cbn [snd]. set (n2 := Node.set_slot _ s' n1).
  assert (step_ok n n2) as Hn2.
  { intros _. apply (closed_ok _ (NodePath.cp_receive_cid p) (ci_association c) s s' n n2 Hs Hinv Hcl Hcid); unfold n2, Node.set_slot.
    1-3: rewrite Hn1; get_set; done.
    get_set. unfold Node.remove_endpoint in Hrm. apply (f_equal snd) in Hrm. cbn [snd] in Hrm.
    destruct (Router.remove_endpoint _ _ (nd_router n)) as [b' r]. by rewrite <- Hrm. }
  by apply (transitivity Hn2 (same_step _ _ (event_same _ n2))).
Qed.
End closing.

(** ** The composed operations *)
Section composed.
Context `{Allocator, PacketSize, Features}.

Lemma respects_same {E A} (m : node E A) : quiet_action m -> respects step_ok m.
Proof. intros Hm n. apply same_step, Hm. Qed.

Lemma open_direct_ok id a lease : respects step_ok (NodePath.open_direct_path id a lease).
Proof.
  unfold NodePath.open_direct_path. action_steps; try (apply route_and_path, join_opens);
    apply respects_same; auto using read_same, fresh_cid_same, build_packet_same, path_control_same.
Qed.

Lemma join_ok id i r a d cid key tid rcid lease :
  respects step_ok (NodePath.receive_path_join id i r a d cid key tid rcid lease).
Proof.
  unfold NodePath.receive_path_join. action_steps; try (apply route_and_path, accept_opens);
    try (apply respects_same; auto using read_same, fresh_cid_same, build_packet_same, path_control_same; fail).
  destruct (_ ≫= _); [apply same_step, event_same|done].
Qed.

Lemma path_control_ok id i a at_ input f lease : respects step_ok (NodePath.apply_received_path_control id i a at_ input f lease).
Proof.
  unfold NodePath.apply_received_path_control. action_steps; try apply join_ok;
    apply respects_same; auto using read_same, join_ack_same, challenge_same, response_same, status_frame_same.
  apply on_slot_same, slot_ep_quiet, receive_control_same.
Qed.

Lemma receive_path_control_ok id i a at_ input lease : respects step_ok (NodePath.receive_path_control id i a at_ input lease).
Proof. unfold NodePath.receive_path_control. action_steps; apply path_control_ok. Qed.

(** *** The two ends of an association *)
Lemma started_client cid l t h r : forall c, Assoc.boxed_with_runtime_limits cid l h r = Ok c ->
  forall p c', Assoc.start (match t with Some t => c <| ca_connection ::= Client.set_local_reset_token t |> | None => c end) = (Ok p, c') ->
  one_path (ClientState c').
Proof.
  unfold Assoc.boxed_with_runtime_limits. destruct (negb _); [done|]. intros c [= <-] p c' Hs.
  set (c0 := match t with Some _ => _ | None => _ end) in Hs.
  assert (cl_endpoint (ca_connection c0) = None) as H0c by (unfold c0; by destruct t). clearbody c0.
  unfold Assoc.start, Assoc.on_connection, on_field, Client.start in Hs. rewrite bind_gets, bind_refuse in Hs.
  destruct (cl_started (ca_connection c0)); [done|]. rewrite bind_modify in Hs. unfold gets_res in Hs. injection Hs as _ <-.
  unfold one_path, state_endpoint, Assoc.endpoint. get_set. by rewrite H0c.
Qed.

Lemma finish_open_count pn open cid : keeps_paths (Server.finish_open pn open cid).
Proof.
  unfold Server.finish_open, Ep.install_connection_ids, Ep.set_initial_peer_budget. path_steps; try done.
  - unfold Ep.set_ids. by rewrite count_upd.
  - intros e. unfold on_field_res. by destruct (Send.set_initial_limits _ _ _).
  - intros e. unfold Ep.continue_packet_numbers_from. by destruct (_ <? _).
Qed.

Lemma accepted_server packet cid l config t sv used :
  Server.accept_open_boxed_with_config_into packet cid l config t = Ok (sv, used) -> one_path (ServerState sv).
Proof.
  unfold Server.accept_open_boxed_with_config_into. destruct (decode_bootstrap_open_packet packet) as [[h open]|x|]; [|done..].
  cbn [mbind outcome_bind]. destruct (negb _); [done|]. cbv zeta.
  match goal with |- context [(?m ≫= ?k) (mx_endpoint ?mux)] =>
    assert (path_count (mx_endpoint mux) = 1%nat) as H1p by done;
    assert (keeps_paths (m ≫= k)) as Hk by (path_steps; auto using transmission_count, finish_open_count);
    specialize (Hk (mx_endpoint mux)); destruct ((m ≫= k) (mx_endpoint mux)) as [[[]|x|] e] end; [|done..].
  cbn [snd] in Hk. destruct (Server.encode_open_ack_into _ _ _ _ _ _) as [u|x|]; [|done..]. cbn [mbind outcome_bind].
  intros [= <- <-]. unfold one_path, state_endpoint. by rewrite <- H1p.
Qed.

Lemma start_association_ok cid a now t lease : respects step_ok (Node.start_association cid a now t lease).
Proof.
  intros n. unfold Node.start_association. rewrite act_get, act_pure.
  destruct (Assoc.boxed_with_runtime_limits cid _ _ _) as [c|x|] eqn:Hc; [|done..]. cbn [map_err].
  unfold Node.build_local. rewrite act_unfold, act_pure. destruct (Node.lease_room _ _); [|done..]. unfold pure_out.
  set (c0 := match t with Some _ => _ | None => _ end).
  destruct (Assoc.start c0) as [[p|x|] c1] eqn:Hs; [|done..]. cbn [map_err].
  pose proof (started_client _ _ _ _ _ c Hc p c1 Hs) as Hone. revert n Hc. intros n _. revert n.
  change (respects step_ok (id ← err_as QuicNodeEgressError.Association (Node.add_client cid c1);
    _ ← update (Node.if_slot id (upd_slot_path 0 PathOps.mark_unvalidated)); _ ← update (Node.remember_address id a);
    _ ← update (Node.if_slot id (fun s => s <| as_bootstrap := Some (mkClientBootstrap 1 now None None None) |>));
    mret (mkNodeEgress id a p) : node QuicNodeEgressError.t NodeEgress)).
  action_steps.
  - by apply node_insert_ok.
  - apply same_step, if_slot_same. intros x. apply upd_slot_path_same.
  - apply same_step, remember_address_same.
  - apply same_step, if_slot_same. intros x. by apply same_fields.
Qed.

Lemma accept_initial_ok a packet cid l t lease : respects step_ok (Node.accept_initial a packet cid l t lease).
Proof.
  intros n. unfold Node.accept_initial. rewrite act_get. unfold Node.build_local. rewrite act_unfold, act_pure.
  destruct (Node.lease_room _ _); [|done..]. unfold pure_out.
  destruct (Server.accept_open_boxed_with_config_into _ _ _ _ _) as [[sv used]|x|] eqn:Hs; [|done..]. cbn [map_err].
  apply accepted_server in Hs. revert n.
  change (respects step_ok (id ← err_as QuicNodeEgressError.Association (Node.add_server cid sv);
    _ ← update (Node.remember_address id a); mret (mkNodeEgress id a used) : node QuicNodeEgressError.t NodeEgress)).
  action_steps; [by apply node_insert_ok|apply same_step, remember_address_same].
Qed.

Lemma close_association_ok id code busy l1 l2 : respects step_ok (Node.close_association id code busy l1 l2).
Proof.
  unfold Node.close_association. action_steps; try apply remove_ok;
    apply respects_same; auto using read_same, build_optional_same, poll_transmit_same.
  - apply on_slot_same. unfold Node.note_close. apply slot_quiet_bind; [apply slot_quiet_const|]. intros other.
    apply slot_quiet_bind; [apply (slot_quiet_const (fun _ => guard_err other Error.Invalid))|].
    intros _. apply slot_quiet_modify. intros s. by apply same_fields.
  - apply build_packet_same, slot_packet_same, on_state_quiet, close_state_quiet.
Qed.

(** *** The timer *)
Lemma bootstrap_expired_ok id b now lease : respects step_ok (NodeTimer.bootstrap_expired id b now lease).
Proof.
  unfold NodeTimer.bootstrap_expired. action_steps; try apply remove_client_ok; try (apply same_step, event_same);
    try (apply respects_same; auto using read_same; fail).
  - apply respects_same, build_packet_same, slot_packet_same, on_state_quiet, bootstrap_packet_quiet.
  - apply same_step, if_slot_same. intros x. by apply same_fields.
Qed.

Lemma timer_expired_ok now l1 l2 l3 : respects step_ok (NodeTimer.timer_expired now l1 l2 l3).
Proof.
  unfold NodeTimer.timer_expired. apply respects_bind; [apply _|action_steps; apply same_step, start_turn_same|intros _].
  apply respects_bind; [apply _|action_steps|intros now']. apply respects_bind; [apply _|action_steps|intros [id|]].
  { unfold NodeTimer.retire_idle. action_steps; [apply remove_ok|apply same_step, event_same]. }
  intros n. rewrite act_get. destruct (NodeTimer.due_join n) as [j|] eqn:Hj.
  { destruct (_ || _); [by apply give_up_ok|apply same_step, retry_join_same]. }
  clear Hj. revert n. apply respects_bind; [apply _|action_steps|intros probe].
  action_steps; try apply bootstrap_expired_ok; apply respects_same; auto using probe_same, read_same, endpoint_expired_same.
Qed.
End composed.
