(* ===== verification/NodeDeadline.v ===== *)
(** * Deadlines of a node

    [next_deadline] tells the platform when to call [timer_expired].  The two
    read the same state in different ways; here they are compared.  A turn that
    finds nothing to do changes nothing, and nothing that [timer_expired] would
    do is due before the deadline; a deadline that has passed is work that the
    next turn finds, as long as the path of every relayed join can be reached. *)

From S2P Require Import Prelude Records Methods Actions Wire PacketHeader Frames FlowControl Congestion PathState Endpoint SortedKeys Registry SetupTable Router Callback Mux Association Node NodePaths NodeTimer NodeRoutes NodeQuiet NodeCircuits.

Section deadlines.
Context `{Allocator, PacketSize, Features}.
Implicit Types (n m : QuicNode) (s : AssociationSlot).

(** ** Minima *)
Lemma minimum_Some (l : list Z) d : NodeTimer.minimum l = Some d -> d ∈ l /\ forall x, x ∈ l -> d <= x.
Proof.
  destruct l as [|a l]; [done|]. intros [= <-]. revert a. induction l as [|b l IH]; intros a; cbn [foldr].
  - split; [by left|]. intros x [->|Hx]%elem_of_cons; [lia|by apply elem_of_nil in Hx].
  - destruct (IH a) as [Hin Hle]. split.
    + destruct (Z.min_spec b (foldr Z.min a l)) as [[_ ->]|[_ ->]]; [by right; left|].
      apply elem_of_cons in Hin as [->|Hin]; [by left|]. by right; right.
    + intros x [->|[->|Hx]%elem_of_cons]%elem_of_cons.
      * specialize (Hle a ltac:(by left)). lia.
      * lia.
      * specialize (Hle x ltac:(by right)). lia.
Qed.

Lemma minimum_in (l : list Z) x : x ∈ l -> exists d, NodeTimer.minimum l = Some d /\ d <= x.
Proof.
  intros Hx. destruct (NodeTimer.minimum l) as [d|] eqn:Hd; [|destruct l; [by apply elem_of_nil in Hx|done]].
  exists d. split; [done|]. by apply (minimum_Some l d Hd).
Qed.

Lemma earliest_in {A} (l : list (A * Z)) x : x ∈ l -> is_Some (earliest l).
Proof.
  intros Hx. destruct l as [|[y d] l]; [by apply elem_of_nil in Hx|]. cbn [earliest].
  destruct (earliest l) as [[z e]|]; [destruct (e <? d)|]; done.
Qed.
Lemma earliest_none {A} (l : list (A * Z)) : (forall x, x ∉ l) -> earliest l = None.
Proof. destruct l as [|x l]; [done|]. intros Hl. destruct (Hl x). by left. Qed.

Lemma over_slots_in {B} (f : nat -> AssociationSlot -> option B) n i s x :
  nd_associations n !! i = Some (Some s) -> f i s = Some x -> x ∈ over_slots f n.
Proof.
  intros Hs Hf. unfold over_slots. apply list_elem_of_omap. exists (i, Some s). split; [|done].
  apply list_elem_of_lookup. exists i. by rewrite list_lookup_imap, Hs.
Qed.

(** ** Nothing is due before the deadline *)
Definition live (n : QuicNode) (s : AssociationSlot) : Prop := exists i, nd_associations n !! i = Some (Some s).

Lemma association_covered n s : live n s -> exists d, NodeTimer.next_deadline n = Some d /\ d <= NodeTimer.association_deadline n s.
Proof.
  intros [i Hs]. assert (NodeTimer.association_deadline n s ∈ over_slots (fun _ s => Some (NodeTimer.association_deadline n s)) n) as Hin
    by (by eapply over_slots_in).
  destruct (minimum_in _ _ Hin) as (d1 & Hd1 & Hle1). unfold NodeTimer.next_deadline. rewrite Hd1.
  destruct (minimum_in (omap (fun d => d) [Some d1; Router.next_forward_lease_deadline (nd_router n);
    Router.next_setup_deadline (nd_router n)]) d1) as (d & -> & Hle); [|exists d; split; [done|lia]].
  apply list_elem_of_omap. exists (Some d1). split; [by left|done].
Qed.

Lemma min_with_le o d : NodeTimer.min_with o d <= d /\ forall x, o = Some x -> NodeTimer.min_with o d <= x.
Proof. destruct o as [y|]; cbn; [split; [lia|]|by split]. intros x [= ->]. lia. Qed.

(** The deadline of an association is at most each of the four. *)
Lemma association_deadline_le n s :
  NodeTimer.association_deadline n s <= NodeTimer.idle_deadline n s /\
  (forall d, NodeTimer.slot_deadline s = Some d -> NodeTimer.association_deadline n s <= d) /\
  (forall d, NodeTimer.probe_deadline s = Some d -> NodeTimer.association_deadline n s <= d) /\
  (forall d, NodeTimer.setup_deadline s = Some d -> NodeTimer.association_deadline n s <= d).
Proof.
  unfold NodeTimer.association_deadline.
  set (a := NodeTimer.min_with (NodeTimer.slot_deadline s) _). set (b := NodeTimer.min_with (NodeTimer.probe_deadline s) a).
  destruct (min_with_le (NodeTimer.slot_deadline s) (NodeTimer.idle_deadline n s)) as [Ha1 Ha2].
  destruct (min_with_le (NodeTimer.probe_deadline s) a) as [Hb1 Hb2]. destruct (min_with_le (NodeTimer.setup_deadline s) b) as [Hc1 Hc2].
  fold a in Ha1, Ha2. fold b in Hb1, Hb2. split; [lia|]. split; [intros d Hd; specialize (Ha2 d Hd); lia|].
  split; [intros d Hd; specialize (Hb2 d Hd); lia|done].
Qed.

(** The work one association has at the clock of the node. *)
Lemma idle_due_in n x : x ∈ NodeTimer.idle_due n -> exists s, live n s /\ NodeTimer.idle_deadline n s <= nd_clock_us n.
Proof.
  intros (i & s & Hs & Hx)%over_slots_Some. exists s. split; [by exists i|]. unfold NodeTimer.if_due in Hx.
  destruct (Z.leb_spec (NodeTimer.idle_deadline n s) (nd_clock_us n)); [done|discriminate Hx].
Qed.

Lemma due_slot_some n id : NodeTimer.due_slot n = Some id ->
  exists s d, live n s /\ NodeTimer.slot_deadline s = Some d /\ d <= nd_clock_us n.
Proof.
  unfold NodeTimer.due_slot. intros ([x y] & Hx & _)%fmap_Some.
  destruct (over_slots _ n) as [|z l] eqn:Hl; [discriminate Hx|].
  assert (z ∈ over_slots (fun i s => deadline ← NodeTimer.slot_deadline s; NodeTimer.if_due (nd_clock_us n) deadline (NodeTimer.handle i s)) n) as Hz
    by (rewrite Hl; by left).
  apply over_slots_Some in Hz as (i & s & Hs & Hz). apply bind_Some in Hz as (d & Hd & Hz). exists s, d.
  split; [by exists i|]. split; [done|]. unfold NodeTimer.if_due in Hz. destruct (Z.leb_spec d (nd_clock_us n)); [done|discriminate Hz].
Qed.

Lemma due_probe_path_spec now e p x d : NodeTimer.due_probe_path now e p = Some (x, d) ->
  NodeTimer.probe_deadline_on e p = Some d /\ d <= now.
Proof.
  unfold NodeTimer.due_probe_path, NodeTimer.probe_deadline_on. destruct (get_path e p) as [q|]; [|done]. cbn [mbind option_bind].
  destruct (Ep.local_connection_id_on_path e p) as [l|]; [|done]. cbn [mbind option_bind Router.path_probe_token_for].
  destruct (next_probe_at_us q) as [t|]; [|done]. cbn [mbind option_bind]. destruct (PathOps.is_probe_eligible q); [|done]. cbn [andb negb].
  destruct (Z.leb_spec t now); [|done]. intros [= <- <-]. done.
Qed.

Lemma due_probe_some n x : NodeTimer.due_probe n = Some x ->
  exists s d, live n s /\ NodeTimer.probe_deadline s = Some d /\ d <= nd_clock_us n.
Proof.
  unfold NodeTimer.due_probe. intros ([y d0] & Hx & _)%fmap_Some.
  match type of Hx with earliest ?l = _ => destruct l as [|z k] eqn:Hl; [discriminate Hx|] end.
  assert (z ∈ z :: k) as Hz by (by left). rewrite <- Hl in Hz. apply over_slots_Some in Hz as (i & s & Hs & Hz).
  exists s. unfold NodeTimer.probe_deadline. destruct (as_bootstrap s); [done|]. destruct (slot_endpoint s) as [e|]; [|done].
  apply bind_Some in Hz as ([p d] & Hp & _). apply head_in, list_elem_of_omap in Hp as (q & Hq & Hp).
  apply due_probe_path_spec in Hp as [Hp Hd].
  assert (d ∈ omap (NodeTimer.probe_deadline_on e) (seq 0 (length (e_paths e)))) as Hin by (apply list_elem_of_omap; by exists q).
  destruct (minimum_in _ _ Hin) as (d' & Hm & Hle). exists d'. split; [by exists i|]. split; [done|lia].
Qed.

Lemma due_join_some n j : NodeTimer.due_join n = Some j ->
  exists s d, live n s /\ NodeTimer.setup_deadline s = Some d /\ d <= nd_clock_us n.
Proof.
  intros (i & s & Hs & Hj)%head_in%over_slots_Some. apply head_in, list_elem_of_omap in Hj as (p & Hp & Hj).
  exists s. unfold NodeTimer.due_join_on in Hj. apply bind_Some in Hj as (r & Hr & Hj). apply bind_Some in Hj as (t & Ht & Hj).
  apply bind_Some in Hj as (d & Hd & Hj). destruct ((t <=? nd_clock_us n) || (d <=? nd_clock_us n)) eqn:Hdue; [|discriminate Hj].
  assert (forall x, x ∈ [t; d] -> x ∈ flat_map (NodeTimer.setup_deadlines s) (seq 0 ARRAY)) as Hin.
  { intros x Hx. apply list_elem_of_In, in_flat_map. exists p. split; [by apply list_elem_of_In|]. apply list_elem_of_In.
    unfold NodeTimer.setup_deadlines. by rewrite Hr, Ht, Hd. }
  destruct (minimum_in _ _ (Hin t ltac:(by left))) as (d' & Hm & H1d). destruct (minimum_in _ _ (Hin d ltac:(by right; left))) as (d2 & Hm2 & H2d).
  assert (d2 = d') as -> by congruence. exists d'. split; [by exists i|]. split; [done|].
  apply orb_true_iff in Hdue as [Hdue%Z.leb_le|Hdue%Z.leb_le]; lia.
Qed.

(** C13: Nothing is due before the deadline: when the turn that starts at the
    clock of the platform leaves a node whose [next_deadline] is absent or in
    the future, [timer_expired] sends nothing, retires nothing and leaves that
    node as it is. *)
Theorem timer_sleeps_until_deadline now l1 l2 l3 n :
  let m := NodeTimer.start_turn now n in
  (forall d, NodeTimer.next_deadline m = Some d -> nd_clock_us m < d) ->
  NodeTimer.timer_expired now l1 l2 l3 n = (Ok None, m).
Proof.
  intros m Hd. unfold NodeTimer.timer_expired. rewrite act_update. fold m. rewrite !act_get.
  assert (forall s, live m s -> nd_clock_us m < NodeTimer.association_deadline m s) as Hlate.
  { intros s Hs. destruct (association_covered m s Hs) as (d & Hn & Hle). specialize (Hd d Hn). lia. }
  assert (forall s d, live m s -> NodeTimer.association_deadline m s <= d -> d <= nd_clock_us m -> False) as Hno.
  { intros s d Hs Hle Hc. specialize (Hlate s Hs). lia. }
  assert (earliest (NodeTimer.idle_due m) = None) as ->.
  { apply earliest_none. intros x (s & Hs & Hx)%idle_due_in. apply (Hno s _ Hs (proj1 (association_deadline_le m s)) Hx). }
  cbn [fmap option_fmap option_map]. rewrite act_get. destruct (NodeTimer.due_join m) as [j|] eqn:Hj.
  { apply due_join_some in Hj as (s & d & Hs & Hx & Hc). destruct (association_deadline_le m s) as (_ & _ & _ & Hx').
    by destruct (Hno s d Hs (Hx' d Hx) Hc). }
  rewrite act_get. destruct (NodeTimer.due_probe m) as [p|] eqn:Hp.
  { apply due_probe_some in Hp as (s & d & Hs & Hx & Hc). destruct (association_deadline_le m s) as (_ & _ & Hx' & _).
    by destruct (Hno s d Hs (Hx' d Hx) Hc). }
  rewrite act_get. destruct (NodeTimer.due_slot m) as [id|] eqn:Hi; [|done].
  apply due_slot_some in Hi as (s & d & Hs & Hx & Hc). destruct (association_deadline_le m s) as (_ & Hx' & _ & _).
  by destruct (Hno s d Hs (Hx' d Hx) Hc).
Qed.

(** ** A passed deadline is work *)
Definition work_due (n : QuicNode) : Prop :=
  is_Some (earliest (NodeTimer.idle_due n)) \/ is_Some (NodeTimer.due_join n) \/ is_Some (NodeTimer.due_probe n) \/
  is_Some (NodeTimer.due_slot n).

(** Every relayed join that waits for its answer has its two deadlines, its
    identifier and an address to be sent to. *)
Definition joins_reachable (s : AssociationSlot) : Prop := forall p,
  is_Some (mjoin (as_relayed_join_requests s !! p)) ->
  is_Some (mjoin (as_relayed_join_retry_at_us s !! p)) /\ is_Some (mjoin (as_relayed_join_deadline_us s !! p)) /\
  is_Some (mjoin (as_receive_cids s !! p)) /\ is_Some (slot_path_state s p ≫= active_address).

Lemma min_with_cases o d : NodeTimer.min_with o d = d \/ o = Some (NodeTimer.min_with o d).
Proof. destruct o as [x|]; [|by left]. cbn. destruct (Z.min_spec d x) as [[_ ->]|[_ ->]]; [by left|by right]. Qed.

Lemma head_some {B} (l : list B) x : x ∈ l -> is_Some (head l).
Proof. destruct l; [by intros ?%elem_of_nil|done]. Qed.

Lemma setup_due n i s d : nd_associations n !! i = Some (Some s) -> joins_reachable s ->
  NodeTimer.setup_deadline s = Some d -> d <= nd_clock_us n -> is_Some (NodeTimer.due_join n).
Proof.
  intros Hs Hj Hd Hle. apply minimum_Some in Hd as [Hd _]. apply list_elem_of_In, in_flat_map in Hd as (p & Hp & Hd).
  apply list_elem_of_In in Hp, Hd. unfold NodeTimer.setup_deadlines in Hd.
  destruct (mjoin (as_relayed_join_requests s !! p)) as [r|] eqn:Hr; [|by apply elem_of_nil in Hd].
  destruct (Hj p ltac:(by rewrite Hr)) as ([t Ht] & [u Hu] & [c Hc] & [a Ha]). rewrite Ht, Hu in Hd.
  apply bind_Some in Ha as (path & Hpath & Ha).
  assert (is_Some (NodeTimer.due_join_on (nd_clock_us n) i s p)) as [j Hdue].
  { unfold NodeTimer.due_join_on. rewrite Hr, Ht, Hu. cbn [mbind option_bind].
    assert ((t <=? nd_clock_us n) || (u <=? nd_clock_us n) = true) as ->.
    { cbn in Hd. apply orb_true_iff. apply elem_of_cons in Hd as [->|[->|Hx%elem_of_nil]%elem_of_cons];
        [left|right|done]; by apply Z.leb_le. }
    rewrite Hpath. cbn [mbind option_bind]. rewrite Ha. cbn [mbind option_bind]. by rewrite Hc. }
  destruct (head_some (omap (NodeTimer.due_join_on (nd_clock_us n) i s) (seq 0 ARRAY)) j) as [k Hk].
  { apply list_elem_of_omap. by exists p. }
  unfold NodeTimer.due_join. apply (head_some _ k).
  by apply (over_slots_in (fun i s => head (omap (NodeTimer.due_join_on (nd_clock_us n) i s) (seq 0 ARRAY))) n i s).
Qed.

Lemma probe_due n i s d : nd_associations n !! i = Some (Some s) ->
  NodeTimer.probe_deadline s = Some d -> d <= nd_clock_us n -> is_Some (NodeTimer.due_probe n).
Proof.
  intros Hs Hd Hle. unfold NodeTimer.probe_deadline in Hd. destruct (as_bootstrap s) eqn:Hb; [done|].
  destruct (slot_endpoint s) as [e|] eqn:He; [|done]. apply minimum_Some in Hd as [(p & Hp & Hd)%list_elem_of_omap _].
  assert (NodeTimer.due_probe_path (nd_clock_us n) e p = Some (p, d)) as Hdue.
  { unfold NodeTimer.due_probe_path, NodeTimer.probe_deadline_on in *. destruct (get_path e p) as [q|]; [|done]. cbn [mbind option_bind] in *.
    destruct (PathOps.is_probe_eligible q); [|done]. cbn [negb] in Hd.
    destruct (Ep.local_connection_id_on_path e p) as [l|]; [|done]. cbn [mbind option_bind Router.path_probe_token_for] in *.
    rewrite Hd. cbn [mbind option_bind]. by rewrite (proj2 (Z.leb_le _ _)). }
  destruct (head_some (omap (NodeTimer.due_probe_path (nd_clock_us n) e) (seq 0 (length (e_paths e)))) (p, d)) as [[k dk] Hk].
  { apply list_elem_of_omap. by exists p. }
  unfold NodeTimer.due_probe. apply fmap_is_Some, (earliest_in _ ((NodeTimer.handle i s, k), dk)).
  eapply over_slots_in; [exact Hs|]. cbn beta. by rewrite Hb, He, Hk.
Qed.

(** C14: A deadline that has passed is work the next turn finds: when an
    association of the node has a deadline at or before the clock, and each of
    its relayed joins still has an address to be sent to, one of the four
    searches of [timer_expired] finds something due. *)
Theorem passed_deadline_is_work n id s : Node.slot n id = Some s -> joins_reachable s ->
  NodeTimer.association_deadline n s <= nd_clock_us n -> work_due n.
Proof.
  intros [Hs _]%slot_Some Hj Hd. unfold NodeTimer.association_deadline in Hd.
  assert (forall d, NodeTimer.slot_deadline s = Some d -> d <= nd_clock_us n -> is_Some (NodeTimer.due_slot n)) as Hslot.
  { intros d Hx Hle. unfold NodeTimer.due_slot. apply fmap_is_Some, (earliest_in _ (NodeTimer.handle (qa_slot id) s, d)).
    eapply over_slots_in; [exact Hs|]. cbn beta. rewrite Hx. cbn [mbind option_bind]. unfold NodeTimer.if_due.
    by rewrite (proj2 (Z.leb_le _ _)). }
  set (a := NodeTimer.min_with (NodeTimer.slot_deadline s) _) in Hd. set (b := NodeTimer.min_with (NodeTimer.probe_deadline s) a) in Hd.
  destruct (min_with_cases (NodeTimer.setup_deadline s) b) as [Hc|Hc].
  2: { right; left. by apply (setup_due n (qa_slot id) s _ Hs Hj Hc). }
  rewrite Hc in Hd. destruct (min_with_cases (NodeTimer.probe_deadline s) a) as [Hb|Hb]; fold b in Hb.
  2: { do 2 right; left. by apply (probe_due n (qa_slot id) s _ Hs Hb). }
  rewrite Hb in Hd. destruct (min_with_cases (NodeTimer.slot_deadline s) (NodeTimer.idle_deadline n s)) as [Ha|Ha]; fold a in Ha.
  2: { do 3 right. by apply (Hslot _ Ha). }
  left. rewrite Ha in Hd. apply (earliest_in _ (NodeTimer.handle (qa_slot id) s, NodeTimer.idle_deadline n s)).
  eapply over_slots_in; [exact Hs|]. cbn beta. unfold NodeTimer.if_due. by rewrite (proj2 (Z.leb_le _ _)).
Qed.
End deadlines.
