(* ===== verification/NodeSpec.v ===== *)
(** * What a node promises

    [node_step] is one call of a method of the node, with any arguments;
    [reachable] are the states a sequence of calls leaves, none of them a
    [close_circuit] that ended in [Blocked].  What the transport
    of an association does between them (stream operations and received
    packets, modelled in [Mux.v], [Association.v] and [Receive.v]) is one more
    step, which may change the endpoint in any way that keeps its paths.  The
    theorems: the routes of every reachable node, what a removal retires, the
    life of a handle, the choice of identifiers and the queue of events. *)

From S2P Require Import Prelude Records Methods Actions Wire PacketHeader Frames Keyed FlowControl Congestion PathState Endpoint Credit Ledger PathCount SortedKeys Registry RegistrySpec SetupTable Router Callback Mux Association Node RouterEndpoints NodePaths NodeTimer NodeRoutes NodeQuiet NodeCircuits.

Section steps.
Context `{Allocator, PacketSize, Features}.

(** The endpoint of an association moved on, or a client's was installed by its answer. *)
Record transported (s s' : AssociationSlot) : Prop := {
  tp_generation : as_generation s' = as_generation s;
  tp_cids : as_receive_cids s' = as_receive_cids s;
  tp_paths : state_paths (as_state s') = state_paths (as_state s) \/
             (state_paths (as_state s) = None /\ state_paths (as_state s') = Some 1%nat);
}.

Inductive node_step (n : QuicNode) : QuicNode -> Prop :=
  | StClock now : node_step n (Node.advance_clock now n)
  | StLimits capacity l : node_step n (Node.set_limits capacity l n).2
  | StDefaultLimits l : node_step n (Node.set_default_association_limits l n).2
  | StAssociationLimits id l : node_step n (Node.set_association_limits id l n).2
  | StIdleTimeout t : node_step n (Node.set_idle_timeout_us t n)
  | StLocalCid : node_step n (Node.allocate_local_cid n).2
  | StForward cid rule : node_step n (Node.register_forward cid rule n).2
  | StForwardPair c1 r1 c2 r2 : node_step n (Node.register_forward_pair c1 r1 c2 r2 n).2
  | StRemoveForward cid : node_step n (Node.remove_forward cid n).2
  | StRemoveForwardPair c1 c2 : node_step n (Node.remove_forward_pair c1 c2 n).2
  | StAddClient cid c : one_path (ClientState c) -> node_step n (Node.add_client cid c n).2
  | StAddServer cid sv : one_path (ServerState sv) -> node_step n (Node.add_server cid sv n).2
  | StStart cid a now token lease : node_step n (Node.start_association cid a now token lease n).2
  | StAccept a packet cid l token lease : node_step n (Node.accept_initial a packet cid l token lease n).2
  | StRemove id : node_step n (Node.remove id n).2
  | StRemoveClient id : node_step n (Node.remove_client id n).2
  | StClose id code busy l1 l2 : node_step n (Node.close_association id code busy l1 l2 n).2
  | StEvent : node_step n (Node.next_association_event n).2
  | StIngress id i a advance : node_step n (Node.remember_ingress_path_address id i a advance n)
  | StOpenPath id a lease : node_step n (NodePath.open_direct_path id a lease n).2
  | StRetryPath id key lease : node_step n (NodePath.retry_direct_path id key lease n).2
  | StSuspend c : node_step n (NodePath.suspend_circuit c n).2
  | StCloseCircuit c : (NodePath.close_circuit c n).1 <> Err (QuicNodeEgressError.Transport Error.Blocked) -> node_step n (NodePath.close_circuit c n).2
  | StProbe id i now lease : node_step n (NodePath.prepare_path_probe id i now lease n).2
  | StBearer bearer : node_step n (NodePath.remove_bearer bearer n)
  | StPathControl id i a at_ input lease : node_step n (NodePath.receive_path_control id i a at_ input lease n).2
  | StControl id lease lease' : node_step n (NodeTimer.poll_association_control id lease lease' n).2
  | StTimer now l1 l2 l3 : node_step n (NodeTimer.timer_expired now l1 l2 l3 n).2
  | StTransport id s s' : Node.slot n id = Some s -> transported s s' -> node_step n (Node.set_slot id s' n).

Definition steps : relation QuicNode := rtc node_step.
Definition reachable (n : QuicNode) : Prop := exists seed, steps (Node.new seed) n.

Lemma transported_same s s' : transported s s' -> slot_same s s'.
Proof.
  intros [Hg Hc Hp].
  assert (forall x, slot_path_count x = default 0%nat (state_paths (as_state x))) as Hcount.
  { intros x. unfold slot_path_count, slot_endpoint, state_paths. by destruct (state_endpoint (as_state x)). }
  assert (forall x, slot_endpoint x <> None -> is_Some (state_paths (as_state x))) as Hsome.
  { intros x. unfold slot_endpoint, state_paths. destruct (state_endpoint (as_state x)); [done|by intros []]. }
  split; unfold paths_or_one; rewrite ?Hcount; [done|done| |].
  - destruct Hp as [->|[-> ->]]; done.
  - intros Hs Hx. destruct Hp as [Hp|[_ ->]]; [|cbn; lia]. rewrite Hp. apply Hx. intros Hn. apply Hsome in Hs as [k Hk].
    rewrite Hp in Hk. unfold state_paths, slot_endpoint in *. by rewrite Hn in Hk.
Qed.

Lemma step_keeps n n' : node_step n n' -> step_ok n n'.
Proof.
  destruct 1; try (apply same_step; first [apply advance_clock_same | apply set_limits_same | apply set_default_limits_same
    | apply set_association_limits_same | apply allocate_same | apply register_forward_same
    | apply register_forward_pair_same | apply remove_forward_same | apply remove_forward_pair_same
    | apply remember_ingress_same | apply retry_direct_same | apply suspend_circuit_same | apply probe_same
    | apply remove_bearer_same | apply association_control_same]; fail).
  - by apply same_step, other_fields.
  - by apply node_insert_ok.
  - by apply node_insert_ok.
  - apply start_association_ok.
  - apply accept_initial_ok.
  - apply remove_ok.
  - apply remove_client_ok.
  - apply close_association_ok.
  - unfold Node.next_association_event. destruct (negb _); by apply same_step, other_fields.
  - apply open_direct_ok.
  - by apply close_circuit_ok.
  - apply receive_path_control_ok.
  - apply timer_expired_ok.
  - apply same_step, (set_slot_same id s s'); [done|by apply transported_same].
Qed.

Lemma steps_keep n n' : steps n n' -> step_ok n n'.
Proof. induction 1 as [|x y z Hxy _ IH]; [done|]. etrans; [by apply step_keeps|done]. Qed.

Lemma new_inv seed : node_inv (Node.new seed).
Proof.
  assert (forall id, Node.slot (Node.new seed) id = None) as Hnone.
  { intros id. apply eq_None_not_Some. intros [s [Hs _]%slot_Some]. cbn in Hs. destruct (qa_slot id) as [|[|k]]; done. }
  split.
  - exact (sorted_nil fst).
  - done.
  - intros i s Hs. cbn in Hs. destruct i as [|[|k]]; done.
  - intros cid id. rewrite Hnone. split; [|by intros (s & ? & _)]. intros Hr. by change (None = Some id) in Hr.
  - by vm_compute.
Qed.

Lemma node_reachable_inv n : reachable n -> node_inv n.
Proof. intros [seed Hs]. apply (steps_keep _ _ Hs), new_inv. Qed.

(** ** Routes *)
(** C12: In every state a node reaches, a connection identifier leads to an
    association exactly when the association's slot lists it: every identifier
    the slot lists is registered, and the router knows no other.  No
    [close_circuit] on the way may have ended in [Blocked]: it then leaves an
    identifier listed whose route is gone ([blocked_close_strands_identifier] in
    [NodeExamples.v]). *)
Theorem routes_are_listed n : reachable n -> forall cid id,
  Router.endpoint_for_cid (nd_router n) cid = Some id <->
  exists s, Node.slot n id = Some s /\ Some cid ∈ as_receive_cids s.
Proof. intros Hn. apply (ni_routes _ (node_reachable_inv n Hn)). Qed.

(** Every association of a reachable node has one identifier for each of
    its paths (or for the path to come, before the answer of the peer), in the
    order of the paths and none of them twice. *)
Theorem one_identifier_per_path n id s : reachable n -> Node.slot n id = Some s ->
  (forall i, is_Some (mjoin (as_receive_cids s !! i)) <-> (i < Nat.max 1 (slot_path_count s))%nat) /\
  NoDup (omap (fun c => c) (as_receive_cids s)).
Proof.
  intros Hn [Hs _]%slot_Some. destruct (ni_slots _ (node_reachable_inv n Hn) _ _ Hs) as [Ho _].
  split; [apply (so_aligned _ Ho)|by apply (cids_nodup s)].
Qed.

(** C11: Removing an association of a reachable node succeeds, every identifier
    its slot lists is found and taken out of the router (the assertion on
    [removed_all]), and no identifier leads to the association any more.  As for
    the routes, no [close_circuit] on the way ended in [Blocked]; after one that
    did the assertion can fail ([blocked_close_strands_identifier]). *)
Theorem removal_retires_routes n id s : reachable n -> Node.slot n id = Some s ->
  exists n', Node.remove id n = (Ok (as_state s), n') /\ Node.slot n' id = None /\
    (forall cid, Router.endpoint_for_cid (nd_router n') cid <> Some id) /\
    (forall m, nd_router m = nd_router n ->
      (Node.remove_endpoints (omap (fun c => c) (as_receive_cids s)) id m).1 = true).
Proof.
  intros Hn Hs. destruct (remove_run id s n (node_reachable_inv n Hn) Hs) as (n' & Hr & _ & _ & Hnone & Hroutes & Hall).
  by exists n'.
Qed.

(** ** Handles *)
(** Once an association has been removed, its handle names no association
    in any later state of the node, however often its slot is used again. *)
Theorem removed_handle_is_dead n id s n1 n2 : reachable n -> Node.slot n id = Some s ->
  (Node.remove id n).2 = n1 -> steps n1 n2 -> Node.slot n2 id = None.
Proof.
  intros Hn Hs Hr H12. pose proof (node_reachable_inv n Hn) as Hinv.
  destruct (remove_run id s n Hinv Hs) as (m & Hrun & Hi1 & Hle & Hnone & _). rewrite Hrun in Hr. cbn in Hr. subst m.
  apply slot_Some in Hs as [Hs Hg]. destruct (ni_slots _ Hinv _ _ Hs) as [_ Hgen].
  destruct (nl_grow _ _ Hle _ _ Hgen) as (g1 & Hg1 & Hle1).
  apply eq_None_not_Some. intros [x [Hx Hxg]%slot_Some]. destruct (steps_keep _ _ H12 Hi1) as [_ Hle2].
  destruct (nl_fresh _ _ Hle2 _ _ Hx) as [(y & Hy & Hyg)|Hfresh].
  - assert (Node.slot n1 id = Some y) as He by (apply slot_Some; split; [done|congruence]). congruence.
  - specialize (Hfresh _ Hg1). lia.
Qed.

(** ** Identifiers *)
Definition last_cid (k : nat) (n : QuicNode) : Z := nd_next_local_cid n + Z.of_nat k.

Lemma try_cids_run k : forall n, 1 <= nd_next_local_cid n -> last_cid k n <= ConnectionId.MAX_VALUE + 1 ->
  match Node.try_cids k n with
  | (Ok cid, n') => Router.contains (nd_router n) cid = false /\ n' = n <| nd_next_local_cid := cid + 1 |> /\
                    nd_next_local_cid n <= cid < last_cid k n
  | (Err _, _) => forall cid, nd_next_local_cid n <= cid < last_cid k n -> Router.contains (nd_router n) cid = true
  | (Panic, _) => False
  end.
Proof.
  unfold last_cid, ConnectionId.MAX_VALUE. change (Z.shiftl 1 61 - 1) with 2305843009213693951.
  induction k as [|k IH]; intros n H1n Hmax; cbn [Node.try_cids]; [lia|].
  set (n1 := n <| nd_next_local_cid := Z.max (sat_add (nd_next_local_cid n) 1) 1 |>).
  assert (n1 = n <| nd_next_local_cid := nd_next_local_cid n + 1 |>) as Hn1.
  { unfold n1, sat_add, U64_MAX. by rewrite Z.min_l, Z.max_l by lia. }
  unfold ConnectionId.new, ConnectionId.MAX_VALUE. change (Z.shiftl 1 61 - 1) with 2305843009213693951.
  rewrite (proj2 (Z.leb_le _ _)) by lia. change (nd_router n1) with (nd_router n).
  destruct (Router.contains (nd_router n) (nd_next_local_cid n)) eqn:Hc; [|split; [done|]; split; [done|lia]].
  specialize (IH n1). rewrite Hn1 in IH. get_set_in IH. rewrite Hn1. specialize (IH ltac:(lia) ltac:(lia)).
  destruct (Node.try_cids k _) as [[cid|x|] n2]; [| |done].
  - destruct IH as (Ha & -> & Hb). split; [done|]. split; [by destruct n|lia].
  - intros cid Hcid. destruct (decide (cid = nd_next_local_cid n)) as [->|Hne]; [done|]. apply IH. lia.
Qed.

(** Every identifier of a range is taken only when the router has that many entries. *)
Lemma taken_range r first k : registry_ok r ->
  (forall cid, first <= cid < first + Z.of_nat k -> Router.contains r cid = true) ->
  Z.of_nat k <= zlen (entries (registry r)).
Proof.
  intros Hok Hall. pose proof (map_of_represents r Hok) as Hr. rewrite <- (represents_zlen _ _ Hr). apply inj_le.
  rewrite <- (size_dom (D := gset Z)).
  assert (NoDup ((fun i => first + Z.of_nat i) <$> seq 0 k)) as Hd.
  { apply (NoDup_fmap_2_strong (fun i => first + Z.of_nat i)); [intros; lia|apply NoDup_seq]. }
  replace k with (size (list_to_set ((fun i => first + Z.of_nat i) <$> seq 0 k) : gset Z))
    by (by rewrite (size_list_to_set _ Hd), length_fmap, length_seq).
  apply subseteq_size. intros c Hc.
  apply elem_of_list_to_set, list_elem_of_fmap in Hc as (i & -> & Hi). apply elem_of_seq in Hi. apply elem_of_dom.
  specialize (Hall (first + Z.of_nat i) ltac:(lia)). unfold Router.contains in Hall. rewrite (contains_spec _ _ _ Hr) in Hall.
  by apply bool_decide_eq_true in Hall.
Qed.

(** The counter has room for [turns] allocations, and the table for one more entry. *)
Record cids_left (turns : Z) (n : QuicNode) : Prop := {
  cf_first : 1 <= nd_next_local_cid n;
  cf_limit : 0 <= nl_max_associations (nd_node_limits n);
  cf_last : nd_next_local_cid n + turns * (nl_max_associations (nd_node_limits n) + 1) <= ConnectionId.MAX_VALUE + 1;
  cf_room : zlen (entries (registry (nd_router n))) <= nl_max_associations (nd_node_limits n);
}.

Lemma allocate_run turns n : 1 <= turns -> registry_ok (nd_router n) -> cids_left turns n ->
  exists cid, Node.allocate_local_cid n = (Ok cid, n <| nd_next_local_cid := cid + 1 |>) /\
    Router.contains (nd_router n) cid = false /\
    nd_next_local_cid n <= cid <= nd_next_local_cid n + nl_max_associations (nd_node_limits n).
Proof.
  intros Ht Hok [C1 C2 C3 C4]. unfold Node.allocate_local_cid. set (k := Z.to_nat _).
  assert (Z.of_nat k = nl_max_associations (nd_node_limits n) + 1) as Hk by lia. clearbody k.
  pose proof (try_cids_run k n C1 ltac:(unfold last_cid; nia)) as Hrun. unfold last_cid in Hrun.
  destruct (Node.try_cids k n) as [[cid|x|] n']; [| |done].
  - destruct Hrun as (Hc & -> & Hr). exists cid. split; [done|]. split; [done|lia].
  - pose proof (taken_range (nd_router n) (nd_next_local_cid n) k Hok Hrun). lia.
Qed.

(** The loop that looks for the identifier of a new path ends within two
    turns, whatever identifier it has to avoid: while the router has no more
    entries than the node may have associations and the counter is in range, it
    finds an identifier that is not the one to avoid and that nothing is
    registered under, and the router is left alone. *)
Theorem fresh_identifier_found k avoid n : reachable n -> cids_left 2 n ->
  exists cid n', NodePath.fresh_cid (2 + k) avoid n = (Ok cid, n') /\ cid <> avoid /\
    nd_router n' = nd_router n /\ Router.contains (nd_router n) cid = false /\
    nd_next_local_cid n < nd_next_local_cid n'.
Proof.
  intros Hn Hc. pose proof (ni_router _ (node_reachable_inv n Hn)) as Hok.
  destruct (allocate_run 2 n ltac:(lia) Hok Hc) as (c1 & Hrun & Hfree & Hr). cbn [Nat.add NodePath.fresh_cid].
  rewrite act_unfold, Hrun. destruct (Z.eqb_spec c1 avoid) as [->|Hne].
  2: { exists c1. eexists. split; [done|]. split; [done|]. get_set. split; [done|]. split; [done|]. lia. }
  destruct Hc as [C1 C2 C3 C4]. destruct (allocate_run 1 (n <| nd_next_local_cid := avoid + 1 |>)) as (c2 & Hrun2 & Hfree2 & Hr2).
  { lia. }
  { done. }
  { split; get_set; try done; lia. }
  rewrite act_unfold, Hrun2. get_set_in Hr2. rewrite (proj2 (Z.eqb_neq c2 avoid)) by lia.
  exists c2. eexists. split; [done|]. split; [lia|]. get_set. split; [done|]. split; [done|]. lia.
Qed.

(** ** Events *)
Inductive event_op : Type :=
  | PushEvent (event : AssociationEvent)
  | NextEvent.

Definition given_of (o : option AssociationEvent) : list AssociationEvent := match o with Some e => [e] | None => [] end.

(** What the application has been given, and the node. *)
Fixpoint run_events (ops : list event_op) (n : QuicNode) : list AssociationEvent * QuicNode :=
  match ops with
  | [] => ([], n)
  | PushEvent e :: ops => run_events ops (Node.push_association_event e n)
  | NextEvent :: ops =>
      let '(o, n) := Node.next_association_event n in
      let '(given, n) := run_events ops n in (given_of o ++ given, n)
  end.

Definition pushed (ops : list event_op) : list AssociationEvent :=
  omap (fun op => match op with PushEvent e => Some e | NextEvent => None end) ops.

Definition is_report (e : AssociationEvent) : bool := match e with EventsDropped _ => true | _ => false end.

(** The events an event stands for. *)
Definition event_weight (e : AssociationEvent) : Z := match e with EventsDropped count => count | _ => 1 end.

Definition owed (n : QuicNode) : Z := zlen (nd_association_events n) + nd_dropped_association_events n.

Lemma push_event_run e n :
  nd_dropped_association_events n < U64_MAX -> 0 <= nd_dropped_association_events n ->
  let n' := Node.push_association_event e n in
  owed n' = owed n + 1 /\ 0 <= nd_dropped_association_events n' <= nd_dropped_association_events n + 1 /\
  nd_node_limits n' = nd_node_limits n /\
  exists q, nd_association_events n' = q ++ [e] /\ sublist q (nd_association_events n).
Proof.
  intros Hd H0d. unfold Node.push_association_event, owed. cbv zeta.
  destruct (Z.leb_spec (Node.event_capacity n) (zlen (nd_association_events n))) as [Hcap|Hcap]; get_set.
  - assert (0 < Node.event_capacity n) as Hpos.
    { unfold Node.event_capacity, sat_mul, MAX_PATH_STATES, U64_MAX. lia. }
    unfold zlen in *. rewrite length_app. destruct (nd_association_events n) as [|x q]; cbn [length tail] in *; [lia|].
    unfold sat_add. rewrite Z.min_l by lia. split; [lia|]. split; [lia|]. split; [done|]. exists q. split; [done|]. by constructor.
  - unfold zlen. rewrite length_app. cbn [length]. split; [lia|]. split; [lia|]. split; [done|].
    exists (nd_association_events n). by split.
Qed.

(** Events are neither lost silently, nor reordered, nor given twice. *)
Lemma next_event_run n :
  let '(o, n') := Node.next_association_event n in
  owed n' + zsum event_weight (given_of o) =
    owed n + zsum (fun e => event_weight e - 1) (if nd_dropped_association_events n =? 0 then given_of o else []).
Proof.
  unfold Node.next_association_event, owed. destruct (Z.eqb_spec (nd_dropped_association_events n) 0) as [Hd|Hd]; cbn [negb].
  - get_set. rewrite Hd. destruct (nd_association_events n) as [|e q]; cbn; unfold zlen; cbn [length]; lia.
  - get_set. cbn. lia.
Qed.

Definition real_events (l : list AssociationEvent) : list AssociationEvent := List.filter (fun e => negb (is_report e)) l.

Lemma sublist_Forall (P : AssociationEvent -> Prop) l k : sublist l k -> Forall P k -> Forall P l.
Proof. induction 1 as [|x l k _ IH|x l k _ IH]; intros Hk; [done|..]; apply Forall_cons in Hk as [? ?]; [constructor|]; auto. Qed.

Lemma events_run ops : forall n,
  Forall (fun e => is_report e = false) (nd_association_events n ++ pushed ops) ->
  0 <= nd_dropped_association_events n -> nd_dropped_association_events n + zlen (pushed ops) <= U64_MAX ->
  let '(given, n') := run_events ops n in
  zsum event_weight given + owed n' = owed n + zlen (pushed ops) /\
  sublist (real_events given ++ nd_association_events n') (nd_association_events n ++ pushed ops).
Proof.
  induction ops as [|[e|] ops IH]; intros n Hev H0d Hmax; cbn [run_events].
  - cbn. rewrite app_nil_r. by split; [unfold zlen; cbn; lia|].
  - change (pushed (PushEvent e :: ops)) with (e :: pushed ops) in *. unfold zlen in Hmax. cbn [length] in Hmax.
    destruct (push_event_run e n ltac:(lia) H0d) as (Ho & Hb & Hl & q & Hq & Hsub).
    specialize (IH (Node.push_association_event e n)). destruct (run_events ops _) as [given n'].
    assert (sublist (q ++ e :: pushed ops) (nd_association_events n ++ e :: pushed ops)) as Hs by (by apply sublist_app).
    rewrite Hq, <- app_assoc in IH. cbn [app] in IH. destruct IH as [IH1 IH2].
    + by apply (sublist_Forall _ _ _ Hs).
    + lia.
    + unfold zlen. lia.
    + split; [unfold zlen in *; cbn [length]; lia|]. by etrans.
  - change (pushed (NextEvent :: ops)) with (pushed ops) in *. pose proof (next_event_run n) as Hn.
    specialize (IH (Node.next_association_event n).2).
    assert ((Node.next_association_event n).1 = None \/ exists e, (Node.next_association_event n).1 = Some e) as Hcase
      by (destruct (Node.next_association_event n).1; eauto).
    destruct (Node.next_association_event n) as [o n1] eqn:Hrun. cbn [fst snd] in *.
    destruct (run_events ops n1) as [given n'].
    unfold Node.next_association_event in Hrun. revert Hrun Hn. destruct (Z.eqb_spec (nd_dropped_association_events n) 0) as [Hd|Hd]; cbn [negb].
    + intros [= <- <-] Hn. get_set_in IH. destruct (nd_association_events n) as [|e q] eqn:Hq;
        cbn [given_of head tail app zsum] in *.
      * destruct IH as [IH1 IH2]; [done..|]. split; [lia|done].
      * apply Forall_cons in Hev as [He Hev]. destruct IH as [IH1 IH2]; [done..|].
        assert (event_weight e = 1) as Hw by (by destruct e). split; [lia|]. cbn. rewrite He. cbn. by constructor.
    + intros [= <- <-] Hn. get_set_in IH. cbn [given_of app zsum] in *. destruct IH as [IH1 IH2]; [done|lia|unfold zlen in *; lia|].
      split; [lia|done].
Qed.

(** The queue of lifecycle events accounts for every event pushed since the
    node was made: each has been given to the application, is still queued, or
    is counted in an [EventsDropped] report given or due; and those given or
    queued are in the order they were pushed, none of them twice. *)
Theorem events_accounted ops n : nd_association_events n = [] -> nd_dropped_association_events n = 0 ->
  Forall (fun e => is_report e = false) (pushed ops) -> zlen (pushed ops) <= U64_MAX ->
  let '(given, n') := run_events ops n in
  zsum event_weight given + zlen (nd_association_events n') + nd_dropped_association_events n' = zlen (pushed ops) /\
  sublist (real_events given ++ nd_association_events n') (pushed ops).
Proof.
  intros Hq Hd Hev Hmax. pose proof (events_run ops n) as Hrun. rewrite Hq, Hd in Hrun.
  specialize (Hrun Hev ltac:(lia) ltac:(lia)). destruct (run_events ops n) as [given n']. destruct Hrun as [Hr1 Hr2].
  unfold owed in Hr1. rewrite Hq, Hd in Hr1. split; [unfold zlen in *; cbn [length] in *; lia|done].
Qed.
End steps.
