(* ===== verification/NodeExamples.v ===== *)
(** * A node at work

    Concrete nodes for the theorems of [NodeSpec.v] and [NodeDeadline.v]: a
    client node whose Initial a server node accepts, a second circuit of the
    server's association, and the cases in which the table does not do what its
    documentation says. *)

From S2P Require Import Prelude Records Methods Actions Wire PacketHeader Frames Keyed FlowControl Congestion PathState Endpoint Credit Ledger Transmit PathCount SortedKeys Registry RegistrySpec SetupTable Router Callback Mux Association Node RouterEndpoints NodePaths NodeTimer NodeRoutes NodeQuiet NodeCircuits NodeDeadline NodeSpec.

#[local] Instance plenty : Allocator := {| try_reserve := fun _ => true |}.
#[local] Instance big_packets : PacketSize := {| packet_size := 1200 |}.
#[local] Instance no_protection : Features := {| packet_protection := false |}.

Definition room : option Z := Some 1300.
Definition bearer_one : Address := (1, 17).
Definition bearer_two : Address := (2, 34).

(** A client node that has sent its Initial. *)
Definition calling : outcome QuicNodeEgressError.t NodeEgress * QuicNode :=
  Node.start_association 100 bearer_one 1000 None room (Node.new 100).
Definition initial : bytes := match calling.1 with Ok e => ne_packet e | _ => [] end.
Definition caller_node : QuicNode := calling.2.
Definition caller_id : QuicAssociation := mkQuicAssociation 0 1.

(** A server node that has accepted it, twice. *)
Definition accept (n : QuicNode) (cid : Z) (a : Address) : QuicNode :=
  (Node.accept_initial a initial cid Limits.default None room n).2.
Definition server_node : QuicNode := accept (Node.new 500) 500 bearer_one.
Definition server_id : QuicAssociation := mkQuicAssociation 0 1.
Definition two_circuits : QuicNode := (NodePath.open_direct_path server_id bearer_two room server_node).2.
Definition later_node : QuicNode := accept (Node.remove server_id two_circuits).2 700 bearer_one.

Definition slot_or (n : QuicNode) (id : QuicAssociation) : bool := bool_decide (is_Some (Node.slot n id)).

Lemma server_reached : reachable server_node.
Proof. exists 500. eapply rtc_l; [apply (StAccept _ bearer_one initial 500 Limits.default None room)|]. apply rtc_refl. Qed.
Lemma two_circuits_reached : reachable two_circuits.
Proof.
  destruct server_reached as [seed Hs]. exists seed. eapply rtc_r; [exact Hs|]. apply (StOpenPath _ server_id bearer_two room).
Qed.

Lemma association_of (n : QuicNode) id : slot_or n id = true -> exists s, Node.slot n id = Some s.
Proof. intros Hs%bool_decide_eq_true. exact Hs. Qed.

(** ** Routes and handles *)
Lemma routes_are_listed_witness :
  Router.endpoint_for_cid (nd_router two_circuits) 501 = Some server_id /\
  exists s, Node.slot two_circuits server_id = Some s /\ Some 501 ∈ as_receive_cids s.
Proof.
  assert (Router.endpoint_for_cid (nd_router two_circuits) 501 = Some server_id) as Hr by (by vm_compute).
  split; [exact Hr|]. apply (routes_are_listed two_circuits two_circuits_reached 501 server_id). exact Hr.
Defined.

Lemma one_identifier_per_path_witness :
  exists s, Node.slot two_circuits server_id = Some s /\ slot_path_count s = 2%nat /\
    is_Some (mjoin (as_receive_cids s !! 1%nat)) /\ ~ is_Some (mjoin (as_receive_cids s !! 2%nat)).
Proof.
  destruct (association_of two_circuits server_id) as [s Hs]; [by vm_compute|]. exists s.
  assert (slot_path_count <$> Node.slot two_circuits server_id = Some 2%nat) as Hc by (by vm_compute).
  rewrite Hs in Hc. injection Hc as Hc.
  destruct (one_identifier_per_path two_circuits server_id s two_circuits_reached Hs) as [Ha _]. rewrite Hc in Ha.
  split; [exact Hs|]. split; [exact Hc|]. split; [apply (Ha 1%nat); lia|]. intros Hx. apply (Ha 2%nat) in Hx. lia.
Defined.

Lemma removal_retires_routes_witness :
  exists n', (Node.remove server_id two_circuits).2 = n' /\ Node.slot n' server_id = None /\
    Router.endpoint_for_cid (nd_router n') 500 <> Some server_id /\ Router.endpoint_for_cid (nd_router n') 501 <> Some server_id.
Proof.
  destruct (association_of two_circuits server_id) as [s Hs]; [by vm_compute|].
  destruct (removal_retires_routes two_circuits server_id s two_circuits_reached Hs) as (n' & Hr & Hnone & Hroutes & _).
  exists n'. rewrite Hr. split; [reflexivity|]. split; [exact Hnone|]. split; apply Hroutes.
Defined.

(** The slot is used again, under the next generation. *)
Lemma removed_handle_is_dead_witness :
  is_Some (Node.slot later_node (mkQuicAssociation 0 2)) /\ Node.slot later_node server_id = None.
Proof.
  split; [apply (bool_decide_eq_true_1 (is_Some (Node.slot later_node (mkQuicAssociation 0 2)))); by vm_compute|].
  destruct (association_of two_circuits server_id) as [s Hs]; [by vm_compute|].
  apply (removed_handle_is_dead two_circuits server_id s _ later_node two_circuits_reached Hs eq_refl).
  apply rtc_once. apply (StAccept _ bearer_one initial 700 Limits.default None room).
Defined.

(** ** Identifiers and events *)
Lemma fresh_identifier_found_witness :
  exists cid n', NodePath.fresh_cid 3 500 server_node = (Ok cid, n') /\ cid <> 500.
Proof.
  destruct (fresh_identifier_found 1 500 server_node) as (cid & n' & Hr & Hne & _); [exact server_reached| |].
  { split; by vm_compute. }
  exists cid, n'. split; [exact Hr|exact Hne].
Defined.

(** Seventeen events for a queue of sixteen. *)
Definition small_limits : NodeLimits := mkNodeLimits 1 8 0.
Definition small_queue : QuicNode := (Node.set_limits 8 small_limits (Node.new 1)).2.
Definition resets : list event_op := replicate 17 (PushEvent (EventReset caller_id)) ++ [NextEvent; NextEvent].

Lemma events_accounted_witness :
  let '(given, n') := run_events resets small_queue in
  zsum event_weight given + zlen (nd_association_events n') + nd_dropped_association_events n' = 17 /\
  given = [EventsDropped 1; EventReset caller_id].
Proof.
  assert (Forall (fun e => is_report e = false) (pushed resets)) as Hp by (repeat constructor).
  pose proof (events_accounted resets small_queue eq_refl eq_refl Hp ltac:(by vm_compute)) as Hrun.
  assert ((run_events resets small_queue).1 = [EventsDropped 1; EventReset caller_id]) as Hg by (by vm_compute).
  destruct (run_events resets small_queue) as [given n']. destruct Hrun as [Hw _]. split; [exact Hw|exact Hg].
Defined.

(** ** Deadlines *)
Lemma timer_sleeps_until_deadline_witness :
  NodeTimer.timer_expired 1200 room room room caller_node = (Ok None, NodeTimer.start_turn 1200 caller_node) /\
  NodeTimer.next_deadline caller_node = Some 251000.
Proof.
  assert (NodeTimer.next_deadline (NodeTimer.start_turn 1200 caller_node) = Some 251000) as Hd by (by vm_compute).
  split; [|by vm_compute]. apply timer_sleeps_until_deadline. rewrite Hd. intros d [= <-]. by vm_compute.
Defined.

Definition late_caller : QuicNode := NodeTimer.start_turn 40000000 caller_node.
Lemma passed_deadline_is_work_witness : exists s, Node.slot late_caller caller_id = Some s /\ work_due late_caller.
Proof.
  destruct (association_of late_caller caller_id) as [s Hs]; [by vm_compute|]. exists s. split; [exact Hs|].
  assert ((fun s => (as_relayed_join_requests s, NodeTimer.association_deadline late_caller s)) <$> Node.slot late_caller caller_id
    = Some (replicate 4 None, 251000)) as Hj by (by vm_compute).
  rewrite Hs in Hj. injection Hj as Hj Hd.
  apply (passed_deadline_is_work late_caller caller_id s Hs); [|rewrite Hd; by vm_compute].
  intros p. rewrite Hj. intros [r Hr]. do 4 (destruct p as [|p]; [discriminate Hr|]). discriminate Hr.
Defined.

(** ** Where the table does something else *)
(** A limit of one association, set while a slot that was used is free, admits
    a second association: [insert] looks for a free slot before it looks at the
    limit. *)
Definition one_too_many : QuicNode :=
  let n := accept (accept (Node.new 500) 500 bearer_one) 600 bearer_one in
  accept (Node.set_limits 8 (mkNodeLimits 1 8 0) (Node.remove server_id n).2).2 700 bearer_one.
Example lowered_limit_exceeded :
  nl_max_associations (nd_node_limits one_too_many) = 1 /\ Node.association_count one_too_many = 2.
Proof. by vm_compute. Qed.

(** The circuit of the event a client's start queues cannot be suspended before
    the answer of the peer: the endpoint it unwraps is not there yet. *)
Example early_suspension_panics :
  nd_association_events caller_node = [CircuitOpened caller_id (mkCircuitId caller_id 0)] /\
  (NodePath.suspend_circuit (mkCircuitId caller_id 0) caller_node).1 = Panic.
Proof. by vm_compute. Qed.

(** A relayed join whose bearer went away: its deadlines have passed, no turn
    of the timer finds it, and the deadline of the node stays in the past. *)
Definition join_waiting : QuicNode :=
  Node.if_slot server_id (fun s => s <| as_relayed_join_requests := [None; Some [1; 2; 3]; None; None] |>
    <| as_relayed_join_attempts := [0; 1; 0; 0] |> <| as_relayed_join_retry_at_us := [None; Some 100; None; None] |>
    <| as_relayed_join_deadline_us := [None; Some 200; None; None] |>) two_circuits.
Definition join_stranded : QuicNode := NodePath.remove_bearer 2 join_waiting.
Example stranded_join_never_ends :
  NodeTimer.next_deadline (NodeTimer.start_turn 300 join_stranded) = Some 100 /\
  NodeTimer.timer_expired 300 room room room join_stranded = (Ok None, NodeTimer.start_turn 300 join_stranded) /\
  (NodeTimer.timer_expired 300 room room room join_waiting).1 = Ok (Some (CircuitSetupTimedOut server_id (mkCircuitId server_id 1))).
Proof. by vm_compute. Qed.

(** The second path is abandoned and the peer has answered, but a packet sent on it
    before is still recorded. *)
Definition leave_path (e : EndpointState) : EndpointState :=
  upd_path 1 (fun p => p <| locally_abandoned := true |> <| pending_local_status := None |>)
    (e <| e_sent_packets ::= <[0%nat := Some (Transmit.new_record 9 0 40 9 0 0 1 false)]> |>).
Definition leaving_node : QuicNode := Node.if_slot server_id (upd_endpoint leave_path) two_circuits.
Definition blocked_close : outcome QuicNodeEgressError.t unit * QuicNode :=
  NodePath.close_circuit (mkCircuitId server_id 1) leaving_node.

Lemma leaving_reached : reachable leaving_node.
Proof.
  destruct two_circuits_reached as [seed Hs]. exists seed. eapply rtc_r; [exact Hs|].
  destruct (association_of two_circuits server_id) as [s Hslot]; [by vm_compute|].
  unfold leaving_node, Node.if_slot. rewrite Hslot. apply StTransport with (s := s); [exact Hslot|].
  assert ((fun s => let s' := upd_endpoint leave_path s in
      (bool_decide (as_generation s' = as_generation s), bool_decide (as_receive_cids s' = as_receive_cids s),
       bool_decide (state_paths (as_state s') = state_paths (as_state s)))) <$> Node.slot two_circuits server_id
    = Some (true, true, true)) as Hsame by (by vm_compute).
  rewrite Hslot in Hsame. injection Hsame as Hg%bool_decide_eq_true Hc%bool_decide_eq_true Hp%bool_decide_eq_true.
  split; [exact Hg|exact Hc|by left].
Qed.

(** [close_circuit] takes the route out of the router before it finds that the path
    cannot go: its identifier stays listed, no longer leads anywhere, and the
    assertion of a later removal fails. *)
Example blocked_close_strands_identifier :
  reachable leaving_node /\ blocked_close.1 = Err (QuicNodeEgressError.Transport Error.Blocked) /\
  Router.endpoint_for_cid (nd_router blocked_close.2) 501 = None /\
  (fun s => omap (fun c => c) (as_receive_cids s)) <$> Node.slot blocked_close.2 server_id = Some [500; 501] /\
  (Node.remove_endpoints [500; 501] server_id blocked_close.2).1 = false.
Proof. split; [exact leaving_reached|by vm_compute]. Qed.
