(* ===== verification/Mailbox.v ===== *)
(** * The callback mailbox of a node

    [CallbackSlots] and [CompletionQueue] of [src/crates/quic-lite/src/bearer.rs]:
    the unordered mailbox through which bearers return the packets they have sent,
    and the list of bearers that can accept packets again.  [push] and [pop] are
    given twice: as whole calls, and as agents that make one atomic access per
    step ([agent_step]), which any number of callbacks and owners may interleave
    ([mail_step]); so are [send_ready] and [pop_ready] ([Readiness]).  The invariants of the interleavings are proved here, the
    theorems are in [MailboxSpec.v].  Positions and the cursor are [nat]. *)

From S2P Require Import Prelude Keyed.

Module CallbackSlots.
(** The constants [SLOT_*] of the state byte. *)
Inductive SlotState : Type := SLOT_EMPTY | SLOT_WRITING | SLOT_READY | SLOT_READING.

#[export] Instance SlotState_eq_dec : EqDecision SlotState.
Proof. solve_decision. Defined.

Section slots.
Context {T : Type}.

(** The storage is [None] while it is uninitialised or moved out of. *)
Record CallbackSlot : Type := mkCallbackSlot {
  state : SlotState;
  value : option T;
}.

Record CallbackSlots : Type := mkCallbackSlots {
  slots : list CallbackSlot;
  cursor : nat;
}.

Definition new (capacity : nat) : CallbackSlots :=
  mkCallbackSlots (replicate capacity (mkCallbackSlot SLOT_EMPTY None)) 0.

Definition set_slot (q : CallbackSlots) (i : nat) (c : CallbackSlot) : CallbackSlots :=
  mkCallbackSlots (<[i := c]> (slots q)) (cursor q).

(** [state.compare_exchange(expected, desired)] *)
Definition compare_exchange (expected desired : SlotState) (c : CallbackSlot) : option CallbackSlot :=
  if decide (state c = expected) then Some (mkCallbackSlot desired (value c)) else None.

(** ** Whole calls *)

(** [for slot in &self.slots], from position [i]. *)
Fixpoint push_from (fuel i : nat) (v : T) (q : CallbackSlots) : outcome T CallbackSlots :=
  match fuel with
  | O => Err v
  | S fuel' =>
      match slots q !! i with
      | None => Err v
      | Some c =>
          match compare_exchange SLOT_EMPTY SLOT_WRITING c with
          | Some _ => Ok (set_slot q i (mkCallbackSlot SLOT_READY (Some v)))
          | None => push_from fuel' (S i) v q
          end
      end
  end.

Definition push (v : T) (q : CallbackSlots) : outcome T CallbackSlots := push_from (length (slots q)) 0 v q.

(** [for offset in 0..self.slots.len()]; reading uninitialised storage is [Panic]. *)
Fixpoint pop_from (fuel offset start : nat) (q : CallbackSlots) : outcome unit (option T * CallbackSlots) :=
  match fuel with
  | O => Ok (None, q)
  | S fuel' =>
      let index := ((start + offset) mod length (slots q))%nat in
      match slots q !! index with
      | None => Panic
      | Some c =>
          match compare_exchange SLOT_READY SLOT_READING c with
          | Some _ =>
              match value c with
              | None => Panic
              | Some v =>
                  Ok (Some v, mkCallbackSlots (<[index := mkCallbackSlot SLOT_EMPTY None]> (slots q))
                                ((index + 1) mod length (slots q)))
              end
          | None => pop_from fuel' (S offset) start q
          end
      end
  end.

Definition pop (q : CallbackSlots) : outcome unit (option T * CallbackSlots) :=
  pop_from (length (slots q)) 0 (cursor q) q.

(** ** One atomic access at a time *)
Inductive agent : Type :=
  | Pushing (v : T) (i : nat)            (* about to test slot [i] *)
  | Reserved (v : T) (i : nat)           (* has exchanged it to SLOT_WRITING *)
  | Written (i : nat)                    (* has written the storage *)
  | Popping (start offset : nat)         (* about to test a slot *)
  | Taken (i : nat)                      (* has exchanged it to SLOT_READING *)
  | Moved (v : T) (i : nat)              (* has read the storage *)
  | Released (v : T) (i : nat).          (* has stored SLOT_EMPTY *)

(** What an agent is after a step, or what its call returned. *)
Inductive progress : Type :=
  | Goes (a : agent)
  | Pushed
  | Refused (v : T)
  | Popped (v : option T).

Definition at_slot {B} (q : CallbackSlots) (i : nat) (k : CallbackSlot -> outcome unit B) : outcome unit B :=
  match slots q !! i with Some c => k c | None => Panic end.

Definition agent_step (q : CallbackSlots) (a : agent) : outcome unit (CallbackSlots * progress) :=
  match a with
  | Pushing v i =>
      match slots q !! i with
      | None => Ok (q, Refused v)
      | Some c =>
          match compare_exchange SLOT_EMPTY SLOT_WRITING c with
          | Some c => Ok (set_slot q i c, Goes (Reserved v i))
          | None => Ok (q, Goes (Pushing v (S i)))
          end
      end
  | Reserved v i => at_slot q i (fun c => Ok (set_slot q i (mkCallbackSlot (state c) (Some v)), Goes (Written i)))
  | Written i => at_slot q i (fun c => Ok (set_slot q i (mkCallbackSlot SLOT_READY (value c)), Pushed))
  | Popping start offset =>
      if (offset <? length (slots q))%nat then
        let index := ((start + offset) mod length (slots q))%nat in
        at_slot q index (fun c =>
          match compare_exchange SLOT_READY SLOT_READING c with
          | Some c => Ok (set_slot q index c, Goes (Taken index))
          | None => Ok (q, Goes (Popping start (S offset)))
          end)
      else Ok (q, Popped None)
  | Taken i => at_slot q i (fun c =>
      match value c with
      | Some v => Ok (set_slot q i (mkCallbackSlot (state c) None), Goes (Moved v i))
      | None => Panic
      end)
  | Moved v i => at_slot q i (fun c => Ok (set_slot q i (mkCallbackSlot SLOT_EMPTY (value c)), Goes (Released v i)))
  | Released v i => Ok (mkCallbackSlots (slots q) ((i + 1) mod length (slots q)), Popped (Some v))
  end.

(** An agent left alone: its steps until its call returns. *)
Fixpoint run_alone (fuel : nat) (q : CallbackSlots) (a : agent) : outcome unit (CallbackSlots * progress) :=
  match fuel with
  | O => Ok (q, Goes a)
  | S fuel' =>
      '(q, p) ← agent_step q a;
      match p with Goes a => run_alone fuel' q a | _ => Ok (q, p) end
  end.

(** The steps an agent can still take: its own loop is the only one it waits for. *)
Definition remaining (capacity : nat) (a : agent) : nat :=
  match a with
  | Pushing _ i => 3 + (capacity - i)
  | Reserved _ _ => 2
  | Written _ => 1
  | Popping _ offset => 4 + (capacity - offset)
  | Taken _ => 3
  | Moved _ _ => 2
  | Released _ _ => 1
  end.

(** ** Interleavings

    [begun], [delivered] and [refused] record the values of the calls. *)
Record config : Type := mkConfig {
  mailbox : CallbackSlots;
  agents : list agent;
  begun : list T;
  delivered : list T;
  refused : list T;
}.

Definition agent_value (a : agent) : option T :=
  match a with
  | Pushing v _ | Reserved v _ | Moved v _ | Released v _ => Some v
  | Written _ | Popping _ _ | Taken _ => None
  end.

(** The values in the hands of agents and in the slots. *)
Definition held (q : CallbackSlots) (ag : list agent) : list T := omap agent_value ag ++ omap value (slots q).
Definition live (c : config) : nat := length (held (mailbox c) (agents c)).

Definition rest (p : progress) : list agent := match p with Goes a => [a] | _ => [] end.
Definition gave (p : progress) : list T := match p with Popped (Some v) => [v] | _ => [] end.
Definition gave_back (p : progress) : list T := match p with Refused v => [v] | _ => [] end.

(** No more than [limit] values are underway when another call begins. *)
Inductive mail_step (limit : nat) (c : config) : config -> Prop :=
  | BeginPush v :
      (live c < limit)%nat ->
      mail_step limit c (mkConfig (mailbox c) (agents c ++ [Pushing v 0]) (begun c ++ [v]) (delivered c) (refused c))
  | BeginPop :
      mail_step limit c
        (mkConfig (mailbox c) (agents c ++ [Popping (cursor (mailbox c)) 0]) (begun c) (delivered c) (refused c))
  | Act l1 a l2 q p :
      agents c = l1 ++ a :: l2 -> agent_step (mailbox c) a = Ok (q, p) ->
      mail_step limit c
        (mkConfig q (l1 ++ rest p ++ l2) (begun c) (delivered c ++ gave p) (refused c ++ gave_back p)).

Definition initial (capacity : nat) : config := mkConfig (new capacity) [] [] [] [].
Definition reachable (capacity limit : nat) (c : config) : Prop := rtc (mail_step limit) (initial capacity) c.

(** ** Exclusive access

    The part of the protocol of slot [k] an agent is in, and what it says of the
    slot: whoever is in it is alone. *)
Inductive phase : Type := InReserved | InWritten | InTaken | InMoved.

Definition claim (k : nat) (a : agent) : option phase :=
  let at_ i p := if decide (i = k) then Some p else None in
  match a with
  | Reserved _ i => at_ i InReserved
  | Written i => at_ i InWritten
  | Taken i => at_ i InTaken
  | Moved _ i => at_ i InMoved
  | _ => None
  end.

Definition claims (k : nat) (ag : list agent) : list phase := omap (claim k) ag.

Definition slot_ok (c : CallbackSlot) (ps : list phase) : Prop :=
  match state c, value c, ps with
  | SLOT_EMPTY, None, [] => True
  | SLOT_WRITING, None, [InReserved] => True
  | SLOT_WRITING, Some _, [InWritten] => True
  | SLOT_READY, Some _, [] => True
  | SLOT_READING, Some _, [InTaken] => True
  | SLOT_READING, None, [InMoved] => True
  | _, _, _ => False
  end.

Definition agent_ok (capacity : nat) (a : agent) : Prop :=
  match a with
  | Pushing _ i => (i <= capacity)%nat
  | Reserved _ i | Written i | Taken i | Moved _ i | Released _ i => (i < capacity)%nat
  | Popping start _ => (start < capacity)%nat \/ capacity = 0%nat
  end.

Definition access_inv (q : CallbackSlots) (ag : list agent) : Prop :=
  (forall k c, slots q !! k = Some c -> slot_ok c (claims k ag)) /\
  Forall (agent_ok (length (slots q))) ag /\
  ((cursor q < length (slots q))%nat \/ length (slots q) = 0%nat).

(** ** How many agents are at or beyond a slot

    A slot counts while it is not empty, a push while it has a slot still to test. *)
Definition occupied (c : CallbackSlot) : Z := if decide (state c = SLOT_EMPTY) then 0 else 1.
Definition waiting (i : nat) (a : agent) : Z :=
  match a with Pushing _ j => if (i <=? j)%nat then 1 else 0 | _ => 0 end.
Definition leaving (a : agent) : Z := match a with Released _ _ => 1 | _ => 0 end.

Definition crowd (i : nat) (q : CallbackSlots) (ag : list agent) : Z :=
  zsum occupied (drop i (slots q)) + zsum (waiting i) ag.

(** The values underway, counted by the slots and agents that have them. *)
Definition underway (q : CallbackSlots) (ag : list agent) : Z := crowd 0 q ag + zsum leaving ag.
End slots.
Arguments CallbackSlot : clear implicits.
Arguments CallbackSlots : clear implicits.
Arguments agent : clear implicits.
Arguments progress : clear implicits.
Arguments config : clear implicits.
End CallbackSlots.

(** ** The completion queue

    [T] is the completion; a bearer identifier is a nonzero [u16], 0 marks a free
    entry of [ready].  Waking the owner's task is left out. *)
Module CompletionQueue.
Section queue.
Context {T : Type}.

Record CompletionQueue : Type := mkCompletionQueue {
  completions : CallbackSlots.CallbackSlots T;
  ready : list Z;
}.

(** [assert!(capacity != 0)] *)
Definition new (capacity : nat) : outcome unit CompletionQueue :=
  if (capacity =? 0)%nat then Panic
  else Ok (mkCompletionQueue (CallbackSlots.new capacity) (replicate capacity 0)).

Definition pop_completion (q : CompletionQueue) : outcome unit (option T * CompletionQueue) :=
  '(v, c) ← CallbackSlots.pop (completions q); Ok (v, mkCompletionQueue c (ready q)).

(** The loop of [pop_ready]: [swap(0)] of each entry until one was not 0. *)
Fixpoint take_ready (l : list Z) : option Z * list Z :=
  match l with
  | [] => (None, [])
  | known :: l' =>
      if known =? 0 then let '(b, l') := take_ready l' in (b, 0 :: l')
      else (Some known, 0 :: l')
  end.

Definition pop_ready (q : CompletionQueue) : option Z * CompletionQueue :=
  let '(b, l) := take_ready (ready q) in (b, mkCompletionQueue (completions q) l).

(** [assert!(self.completions.push(completion).is_ok())] *)
Definition send_completed (completion : T) (q : CompletionQueue) : outcome unit CompletionQueue :=
  match CallbackSlots.push completion (completions q) with
  | Ok c => Ok (mkCompletionQueue c (ready q))
  | _ => Panic
  end.

(** The loop of [send_ready]: [None] when nothing was published. *)
Fixpoint publish (bearer : Z) (l : list Z) : option (list Z) :=
  match l with
  | [] => None
  | known :: l' =>
      if known =? 0 then Some (bearer :: l')
      else if known =? bearer then Some (known :: l')
      else cons known <$> publish bearer l'
  end.

Definition send_ready (bearer : Z) (q : CompletionQueue) : outcome unit CompletionQueue :=
  match publish bearer (ready q) with
  | Some l => Ok (mkCompletionQueue (completions q) l)
  | None => Panic
  end.
End queue.
Arguments CompletionQueue : clear implicits.
End CompletionQueue.

(** ** Readiness, one access at a time

    [send_ready] compares and exchanges the entries in order until one was free
    or its own; [pop_ready] swaps 0 into them until one was not free.  Any number
    of either may be under way, each between two of its accesses. *)
Module Readiness.
Inductive agent : Type :=
  | Publishing (bearer : Z) (i : nat)
  | Taking (i : nat).

Inductive progress : Type :=
  | Goes (a : agent)
  | Published (bearer : Z)
  | Unpublished (bearer : Z)
  | Took (bearer : option Z).

(** [Unpublished]: the loop found no entry, and [assert!(published)] fails. *)
Definition agent_step (entries : list Z) (a : agent) : list Z * progress :=
  match a with
  | Publishing b i =>
      match entries !! i with
      | None => (entries, Unpublished b)
      | Some known =>
          if known =? 0 then (<[i := b]> entries, Published b)
          else if known =? b then (entries, Published b)
          else (entries, Goes (Publishing b (S i)))
      end
  | Taking i =>
      match entries !! i with
      | None => (entries, Took None)
      | Some known =>
          (<[i := 0]> entries, if known =? 0 then Goes (Taking (S i)) else Took (Some known))
      end
  end.

(** A call nobody interrupts. *)
Fixpoint run_alone (fuel : nat) (entries : list Z) (a : agent) : option (list Z * progress) :=
  match fuel with
  | O => None
  | S fuel' =>
      match agent_step entries a with
      | (entries, Goes a) => run_alone fuel' entries a
      | done => Some done
      end
  end.

(** What has happened so far.  [reports]: the reports that returned, each with the
    number of bearers handed out by then; [empty_takes]: for each take that found
    nothing, how many reports had returned when it began, which an agent carries. *)
Record config : Type := mkConfig {
  entries : list Z;
  agents : list (agent * nat);
  reports : list (Z * nat);
  given : list Z;
  overflowed : list Z;
  empty_takes : list nat;
}.

Definition rest (p : progress) (n : nat) : list (agent * nat) := match p with Goes a => [(a, n)] | _ => [] end.
Definition reported (p : progress) (k : nat) : list (Z * nat) := match p with Published b => [(b, k)] | _ => [] end.
Definition gave (p : progress) : list Z := match p with Took (Some b) => [b] | _ => [] end.
Definition failed (p : progress) : list Z := match p with Unpublished b => [b] | _ => [] end.
Definition found_none (p : progress) (n : nat) : list nat := match p with Took None => [n] | _ => [] end.

(** [ids]: the bearers that report. *)
Inductive ready_step (ids : list Z) (c : config) : config -> Prop :=
  | BeginReport b : b ∈ ids -> b <> 0 ->
      ready_step ids c (mkConfig (entries c) (agents c ++ [(Publishing b 0, length (reports c))]) (reports c) (given c) (overflowed c) (empty_takes c))
  | BeginTake :
      ready_step ids c (mkConfig (entries c) (agents c ++ [(Taking 0, length (reports c))]) (reports c) (given c) (overflowed c) (empty_takes c))
  | Act l1 a n l2 l p :
      agents c = l1 ++ (a, n) :: l2 -> agent_step (entries c) a = (l, p) ->
      ready_step ids c (mkConfig l (l1 ++ rest p n ++ l2) (reports c ++ reported p (length (given c)))
        (given c ++ gave p) (overflowed c ++ failed p) (empty_takes c ++ found_none p n)).

Definition initial (capacity : nat) : config := mkConfig (replicate capacity 0) [] [] [] [] [].
Definition reachable (capacity : nat) (ids : list Z) (c : config) : Prop := rtc (ready_step ids) (initial capacity) c.
End Readiness.
