(* ===== verification/MailboxSpec.v ===== *)
(** * What the callback mailbox promises

    Proofs about [Mailbox.v].  However the steps of callbacks and owners
    interleave: a slot's storage is accessed by one agent at a time and never
    read before it is written; every value handed in is in one place until it is
    handed out once; a call ends after a bounded number of its own steps; and
    while no more values are underway than there are slots, no push is refused.
    A bearer reported ready is handed out before a take that began later finds
    nothing, but the reports of two bearers can fill the entries. *)

From S2P Require Import Prelude Keyed Mailbox.
Import CallbackSlots.

Section mailbox.
Context {T : Type}.
Implicit Types (q : CallbackSlots T) (a : agent T) (ag : list (agent T)) (p : progress T).

(** ** The steps, case by case *)
Inductive effect q : agent T -> CallbackSlots T -> progress T -> Prop :=
  | EffReserve v i c : slots q !! i = Some c -> state c = SLOT_EMPTY ->
      effect q (Pushing v i) (set_slot q i (mkCallbackSlot SLOT_WRITING (value c))) (Goes (Reserved v i))
  | EffNext v i c : slots q !! i = Some c -> state c <> SLOT_EMPTY ->
      effect q (Pushing v i) q (Goes (Pushing v (S i)))
  | EffFull v i : slots q !! i = None -> effect q (Pushing v i) q (Refused v)
  | EffWrite v i c : slots q !! i = Some c ->
      effect q (Reserved v i) (set_slot q i (mkCallbackSlot (state c) (Some v))) (Goes (Written i))
  | EffPublish i c : slots q !! i = Some c ->
      effect q (Written i) (set_slot q i (mkCallbackSlot SLOT_READY (value c))) Pushed
  | EffTake start offset c :
      let i := ((start + offset) mod length (slots q))%nat in
      slots q !! i = Some c -> state c = SLOT_READY ->
      effect q (Popping start offset) (set_slot q i (mkCallbackSlot SLOT_READING (value c))) (Goes (Taken i))
  | EffSkip start offset : (offset < length (slots q))%nat ->
      effect q (Popping start offset) q (Goes (Popping start (S offset)))
  | EffNone start offset : effect q (Popping start offset) q (Popped None)
  | EffMove i c v : slots q !! i = Some c -> value c = Some v ->
      effect q (Taken i) (set_slot q i (mkCallbackSlot (state c) None)) (Goes (Moved v i))
  | EffRelease v i c : slots q !! i = Some c ->
      effect q (Moved v i) (set_slot q i (mkCallbackSlot SLOT_EMPTY (value c))) (Goes (Released v i))
  | EffReturn v i :
      effect q (Released v i) (mkCallbackSlots (slots q) ((i + 1) mod length (slots q))) (Popped (Some v)).

Lemma agent_effect q a q' p : agent_step q a = Ok (q', p) -> effect q a q' p.
Proof.
  destruct a as [v i|v i|i|start offset|i|v i|v i]; unfold agent_step, at_slot, compare_exchange.
  - destruct (slots q !! i) as [c|] eqn:Hc; [|intros [= <- <-]; by constructor].
    case_decide; intros [= <- <-]; by econstructor.
  - destruct (slots q !! i) eqn:Hc; [|done]. intros [= <- <-]. by constructor.
  - destruct (slots q !! i) eqn:Hc; [|done]. intros [= <- <-]. by constructor.
  - destruct (Nat.ltb_spec offset (length (slots q))); [|intros [= <- <-]; constructor].
    destruct (slots q !! _) as [c|] eqn:Hc; [|done]. case_decide; intros [= <- <-]; by constructor.
  - destruct (slots q !! i) as [c|] eqn:Hc; [|done]. destruct (value c) as [v|] eqn:Hv; [|done].
    intros [= <- <-]. by constructor.
  - destruct (slots q !! i) eqn:Hc; [|done]. intros [= <- <-]. by constructor.
  - intros [= <- <-]. constructor.
Qed.

(** ** Exclusive access *)
Lemma claims_app k l1 l2 : claims (T:=T) k (l1 ++ l2) = claims k l1 ++ claims k l2.
Proof. apply omap_app. Qed.
Lemma claims_mid k l1 a l2 : claims k (l1 ++ a :: l2) = claims k l1 ++ option_list (claim k a) ++ claims k l2.
Proof. rewrite claims_app. f_equal. unfold claims. cbn. by destruct (claim k a). Qed.

Lemma claims_rest k p : claims k (rest p) = match p with Goes a => option_list (claim k a) | _ => [] end.
Proof. by destruct p. Qed.

(** An agent in a slot's protocol is the only one. *)
Lemma slot_ok_alone (c : CallbackSlot T) ph l1 l2 : slot_ok c (l1 ++ [ph] ++ l2) -> l1 = [] /\ l2 = [].
Proof.
  unfold slot_ok. destruct l1 as [|x [|y l1]], l2 as [|z l2]; cbn [app]; try done;
    destruct (state c), (value c); by (try destruct ph; try destruct x).
Qed.
Lemma slot_ok_idle (c : CallbackSlot T) ps :
  slot_ok c ps -> state c = SLOT_EMPTY \/ state c = SLOT_READY ->
  ps = [] /\ (state c = SLOT_EMPTY -> value c = None) /\ (state c = SLOT_READY -> is_Some (value c)).
Proof.
  unfold slot_ok. destruct (state c), (value c) as [v|], ps as [|[] [|]]; intros Hs [He|He]; try done; split_and!; eauto; done.
Qed.

Lemma access_claims q l1 a l2 k c :
  access_inv q (l1 ++ a :: l2) -> slots q !! k = Some c -> slot_ok c (claims k l1 ++ option_list (claim k a) ++ claims k l2).
Proof. intros (Hs & _) Hc. specialize (Hs k c Hc). by rewrite claims_mid in Hs. Qed.

(** A step changes at most one slot; what the protocol allows there is enough. *)
Lemma access_step q l1 a l2 q' p i :
  access_inv q (l1 ++ a :: l2) ->
  (forall k, k <> i -> claim k a = None /\ claims k (rest p) = []) ->
  (forall k, k <> i -> slots q' !! k = slots q !! k) ->
  length (slots q') = length (slots q) ->
  ((cursor q' < length (slots q))%nat \/ length (slots q) = 0%nat) ->
  Forall (agent_ok (length (slots q))) (rest p) ->
  (forall c c', slots q !! i = Some c -> slots q' !! i = Some c' ->
     slot_ok c (claims i l1 ++ option_list (claim i a) ++ claims i l2) ->
     slot_ok c' (claims i l1 ++ claims i (rest p) ++ claims i l2)) ->
  access_inv q' (l1 ++ rest p ++ l2).
Proof.
  intros Hinv Hcl Hother Hlen Hcur Hok Hi. pose proof Hinv as (Hs & Ha & _). split; [|split].
  - intros k c' Hk. rewrite !claims_app. destruct (decide (k = i)) as [->|Hne].
    + destruct (lookup_lt_is_Some_2 (slots q) i) as [c Hc]; [rewrite <- Hlen; by eapply lookup_lt_Some|].
      eapply Hi; [done..|]. by eapply access_claims.
    + rewrite (Hother k Hne) in Hk. pose proof (access_claims _ _ _ _ _ _ Hinv Hk) as Ho.
      destruct (Hcl k Hne) as [Hn ->]. by rewrite Hn in Ho.
  - rewrite Hlen. apply Forall_app in Ha as [Ha1 [Ha Ha2]%Forall_cons]. by rewrite !Forall_app.
  - by rewrite Hlen.
Qed.

Local Ltac alone Hok :=
  let Hl := fresh in let Hr := fresh in
  destruct (slot_ok_alone _ _ _ _ Hok) as [Hl Hr]; rewrite Hl, Hr in *; revert Hok; unfold slot_ok; cbn.

Lemma access_effect q l1 a l2 q' p :
  access_inv q (l1 ++ a :: l2) -> effect q a q' p -> access_inv q' (l1 ++ rest p ++ l2).
Proof.
  intros Hinv He. pose proof Hinv as (_ & Ha & Hcur).
  apply Forall_app in Ha as [_ [Ha _]%Forall_cons].
  assert (forall i c', i < length (slots q) -> slots (set_slot q i c') !! i = Some c')%nat as Hset
    by (intros; by apply list_lookup_insert_eq).
  destruct He as [v i c Hc Hs|v i c Hc Hs|v i Hc|v i c Hc|i c Hc|start offset c i Hc Hs|start offset Ho|start offset
                 |i c v Hc Hv|v i c Hc|v i].
  1,4,5,6,9,10: pose proof (lookup_lt_Some _ _ _ Hc) as Hlt; apply (access_step q l1 _ l2 _ _ i Hinv);
    [intros k Hk; cbn; by rewrite ?decide_False by congruence
    |intros k Hk; cbn; by rewrite list_lookup_insert_ne
    |cbn; by rewrite length_insert|done|by repeat constructor
    |intros c0 c' Hc0 Hc'; rewrite Hc in Hc0; injection Hc0 as <-; rewrite (Hset i _ Hlt) in Hc'; injection Hc' as <-;
     rewrite claims_rest; cbn [claim]; rewrite ?decide_True by done; unfold option_list, option_rect; cbn [app]; intros Hok ].
  - apply slot_ok_idle in Hok as ([-> ->]%app_eq_nil & Hv & _); [|by left]. unfold slot_ok. cbn. by rewrite Hv.
  - alone Hok. by destruct (state c), (value c).
  - alone Hok. by destruct (state c), (value c).
  - apply slot_ok_idle in Hok as ([-> ->]%app_eq_nil & _ & Hv); [|by right]. destruct (Hv Hs) as [v Hv']. unfold slot_ok. cbn. by rewrite Hv'.
  - alone Hok. rewrite Hv. by destruct (state c).
  - alone Hok. by destruct (state c), (value c).
  - apply lookup_lt_Some in Hc. apply (access_step q l1 _ l2 _ _ i Hinv); try done; [by repeat constructor; cbn; lia|].
    intros c0 c' Hc0 Hc'. rewrite Hc0 in Hc'. by injection Hc' as <-.
  - apply (access_step q l1 _ l2 _ _ i Hinv); try done. intros c0 c' Hc0 Hc'. rewrite Hc0 in Hc'. by injection Hc' as <-.
  - apply (access_step q l1 _ l2 _ _ 0 Hinv); try done; [by apply Forall_singleton|].
    intros c0 c' Hc0 Hc'. rewrite Hc0 in Hc'. by injection Hc' as <-.
  - apply (access_step q l1 _ l2 _ _ 0 Hinv); try done. intros c0 c' Hc0 Hc'. rewrite Hc0 in Hc'. by injection Hc' as <-.
  - apply (access_step q l1 _ l2 _ _ i Hinv); try done.
    + left. cbn in Ha |- *. apply Nat.mod_upper_bound. lia.
    + intros c0 c' Hc0 Hc'. cbn in Hc'. rewrite Hc0 in Hc'. by injection Hc' as <-.
Qed.

(** Every step is possible: uninitialised storage is never read. *)
Lemma access_total q l1 a l2 : access_inv q (l1 ++ a :: l2) -> exists q' p, agent_step q a = Ok (q', p).
Proof.
  intros Hinv. pose proof Hinv as (_ & Ha & _). apply Forall_app in Ha as [_ [Ha _]%Forall_cons].
  assert (forall i, i < length (slots q) -> exists c, slots q !! i = Some c)%nat as Hat
    by (intros i Hi; by apply lookup_lt_is_Some_2 in Hi as [c ->]; eauto).
  destruct a as [v i|v i|i|start offset|i|v i|v i]; unfold agent_step, at_slot; cbn [agent_ok] in Ha; eauto;
    try (destruct (Hat i Ha) as [c Hc]; rewrite Hc; eauto; fail).
  - destruct (slots q !! i) as [c|]; [|by eauto]. destruct (compare_exchange _ _ c); eauto.
  - destruct (Nat.ltb_spec offset (length (slots q))); [|by eauto].
    destruct (Hat ((start + offset) mod length (slots q))%nat) as [c Hc]; [apply Nat.mod_upper_bound; lia|].
    rewrite Hc. destruct (compare_exchange _ _ c); eauto.
  - destruct (Hat i Ha) as [c Hc]. rewrite Hc. pose proof (access_claims _ _ _ _ _ _ Hinv Hc) as Hok. cbn [claim] in Hok.
    rewrite decide_True in Hok by done. unfold option_list, option_rect in Hok. cbn [app] in Hok. alone Hok.
    destruct (state c), (value c); eauto; done.
Qed.

(** ** Values *)
Lemma omap_set {B} (f : CallbackSlot T -> option B) q i c c' :
  slots q !! i = Some c -> exists R,
  omap f (slots q) ≡ₚ option_list (f c) ++ R /\ omap f (slots (set_slot q i c')) ≡ₚ option_list (f c') ++ R.
Proof. intros Hc. destruct (omap_insert f _ _ _ Hc) as (R & Hl & Hi). exists R. split; [done|apply Hi]. Qed.

Lemma agent_values l1 a l2 :
  omap agent_value (l1 ++ a :: l2) ≡ₚ option_list (agent_value a) ++ omap agent_value l1 ++ omap agent_value l2.
Proof.
  rewrite omap_app, Permutation_app_swap_app, app_assoc. change (a :: l2) with ([a] ++ l2). rewrite omap_app, app_assoc.
  by destruct a.
Qed.

Lemma held_set q ag i c c' :
  slots q !! i = Some c -> exists R, held q ag ≡ₚ option_list (value c) ++ R ++ omap agent_value ag /\
    forall ag', held (set_slot q i c') ag' ≡ₚ option_list (value c') ++ R ++ omap agent_value ag'.
Proof.
  intros Hc. destruct (omap_set value q i c c' Hc) as (R & H1 & H2). exists R. unfold held. rewrite H1. split; [|intros ag'; rewrite H2];
    by rewrite (Permutation_app_comm (omap agent_value _)), <- app_assoc.
Qed.

Lemma held_effect q l1 a l2 q' p :
  access_inv q (l1 ++ a :: l2) -> effect q a q' p ->
  held q (l1 ++ a :: l2) ≡ₚ held q' (l1 ++ rest p ++ l2) ++ gave p ++ gave_back p.
Proof.
  intros Hinv He. destruct He as [v i c Hc Hs|v i c Hc Hs|v i Hc|v i c Hc|i c Hc|start offset c i Hc Hs|start offset Ho|start offset
                                  |i c v Hc Hv|v i c Hc|v i];
    cbn [rest gave gave_back app]; rewrite ?app_nil_r.
  1,4,5,6,9,10: match goal with |- held _ ?ag ≡ₚ held (set_slot _ _ ?c') _ =>
      destruct (held_set q ag i c c' Hc) as (R & -> & ->); cbn [value] end.
  - by rewrite !agent_values.
  - pose proof (access_claims _ _ _ _ _ _ Hinv Hc) as Hok. cbn [claim] in Hok.
    rewrite decide_True in Hok by done. unfold option_list, option_rect in Hok. cbn [app] in Hok. alone Hok.
    destruct (state c), (value c); try done. intros _. rewrite !agent_values. cbn.
    by rewrite <- (Permutation_middle R).
  - by rewrite !agent_values, omap_app.
  - by rewrite !agent_values.
  - rewrite Hv, !agent_values. cbn. by rewrite <- (Permutation_middle R).
  - by rewrite !agent_values.
  - unfold held. by rewrite !agent_values.
  - unfold held. rewrite !agent_values, omap_app. cbn. by rewrite Permutation_cons_append.
  - unfold held. by rewrite !agent_values.
  - unfold held. by rewrite !agent_values, omap_app.
  - unfold held. cbn [slots]. rewrite !agent_values, omap_app. cbn. by rewrite Permutation_cons_append.
Qed.

(** ** The crowd at a slot *)
Lemma occupied_drop i j q c c' :
  slots q !! j = Some c ->
  zsum occupied (drop i (slots (set_slot q j c'))) =
  zsum occupied (drop i (slots q)) + (if (i <=? j)%nat then occupied c' - occupied c else 0).
Proof.
  intros Hc. cbn [set_slot slots]. destruct (Nat.leb_spec i j) as [Hij|Hij].
  - rewrite drop_insert_ge, (zsum_insert _ _ _ c) by (done || rewrite lookup_drop; by replace (i + (j - i))%nat with j by lia). lia.
  - rewrite drop_insert_lt by done. lia.
Qed.

Lemma occupied_range (c : CallbackSlot T) : 0 <= occupied c <= 1.
Proof. unfold occupied. case_decide; lia. Qed.
Lemma waiting_range i (a : agent T) : 0 <= waiting i a <= 1.
Proof. destruct a; cbn; try lia. case_match; lia. Qed.
Lemma leaving_range (a : agent T) : 0 <= leaving a <= 1.
Proof. destruct a; cbn; lia. Qed.

(** The slot of an agent in its protocol is occupied. *)
Lemma claimed_occupied q l1 a l2 i c ph :
  access_inv q (l1 ++ a :: l2) -> slots q !! i = Some c -> claim i a = Some ph -> occupied c = 1.
Proof.
  intros Hinv Hc Ha. pose proof (access_claims _ _ _ _ _ _ Hinv Hc) as Hok. rewrite Ha in Hok.
  unfold option_list, option_rect in Hok. cbn [app] in Hok. unfold occupied. case_decide as Hs; [|done].
  exfalso. apply slot_ok_idle in Hok as [Hn _]; [|by left]. by apply app_eq_nil in Hn as [_ ?].
Qed.

(** Nobody gets beyond a slot but past one who stays there. *)
Lemma crowd_effect q l1 a l2 q' p i :
  access_inv q (l1 ++ a :: l2) -> effect q a q' p ->
  crowd i q' (l1 ++ rest p ++ l2) <= crowd i q (l1 ++ a :: l2) \/
  (exists j, i = S j /\ (j < length (slots q))%nat /\ crowd i q' (l1 ++ rest p ++ l2) + 1 <= crowd j q (l1 ++ a :: l2)).
Proof.
  intros Hinv He. unfold crowd.
  destruct He as [v j c Hc Hs|v j c Hc Hs|v j Hc|v j c Hc|j c Hc|start offset c j Hc Hs|start offset Ho|start offset
                 |j c v Hc Hv|v j c Hc|v j];
    try (assert (occupied c = 1) as Hocc by (eapply (claimed_occupied q l1 _ l2 j); [done..|]; cbn; by rewrite decide_True));
    cbn [rest app]; rewrite ?(occupied_drop i j q c) by done; rewrite ?zsum_mid, ?zsum_app; cbn [waiting zsum slots]; rewrite ?Hocc.
  - left. assert (occupied c = 0) as -> by (unfold occupied; by rewrite decide_True).
    change (occupied (mkCallbackSlot SLOT_WRITING (value c))) with 1. destruct (i <=? j)%nat; lia.
  - destruct (decide (i = S j)) as [->|Hne]; [right; exists j|left].
    + split; [done|]. split; [by eapply lookup_lt_Some|].
      rewrite (drop_S _ _ _ Hc). cbn [zsum]. assert (occupied c = 1) as -> by (unfold occupied; by rewrite decide_False).
      assert (forall l : list (agent T), zsum (waiting (S j)) l <= zsum (waiting j) l) as Hmono.
      { intros l. induction l as [|b l IH]; cbn [zsum]; [lia|]. destruct b; cbn [waiting]; try lia.
        destruct (Nat.leb_spec (S j) i), (Nat.leb_spec j i); lia. }
      pose proof (Hmono l1). pose proof (Hmono l2). rewrite zsum_mid. cbn [waiting]. rewrite !Nat.leb_refl. lia.
    + destruct (Nat.leb_spec i (S j)), (Nat.leb_spec i j); lia.
  - left. destruct (i <=? j)%nat; lia.
  - left. assert (occupied (mkCallbackSlot (state c) (Some v)) = occupied c) as -> by done. destruct (i <=? j)%nat; lia.
  - left. change (occupied (mkCallbackSlot SLOT_READY (value c))) with 1. destruct (i <=? j)%nat; lia.
  - left. assert (occupied c = 1) as -> by (unfold occupied; by rewrite Hs).
    change (occupied (mkCallbackSlot SLOT_READING (value c))) with 1. destruct (i <=? j)%nat; lia.
  - left. lia.
  - left. lia.
  - left. assert (occupied (mkCallbackSlot (state c) None) = occupied c) as -> by done. destruct (i <=? j)%nat; lia.
  - left. change (occupied (mkCallbackSlot SLOT_EMPTY (value c))) with 0. destruct (i <=? j)%nat; lia.
  - left. lia.
Qed.

Lemma underway_effect q l1 a l2 q' p :
  access_inv q (l1 ++ a :: l2) -> effect q a q' p ->
  underway q (l1 ++ a :: l2) = underway q' (l1 ++ rest p ++ l2) + zlen (gave p) + zlen (gave_back p).
Proof.
  intros Hinv He. unfold underway, crowd.
  destruct He as [v j c Hc Hs|v j c Hc Hs|v j Hc|v j c Hc|j c Hc|start offset c j Hc Hs|start offset Ho|start offset
                 |j c v Hc Hv|v j c Hc|v j];
    try (assert (occupied c = 1) as Hocc by (eapply (claimed_occupied q l1 _ l2 j); [done..|]; cbn; by rewrite decide_True));
    cbn [rest app gave gave_back]; rewrite ?(occupied_drop 0 j q c) by done;
    rewrite ?zsum_mid, ?zsum_app; cbn [waiting zsum slots leaving Nat.leb]; change (zlen (@nil T)) with 0; try lia.
  - assert (occupied c = 0) as -> by (unfold occupied; by rewrite decide_True).
    change (occupied (mkCallbackSlot SLOT_WRITING (value c))) with 1. lia.
  - change (zlen [v]) with 1. lia.
  - assert (occupied (mkCallbackSlot (state c) (Some v)) = occupied c) as -> by done. lia.
  - change (occupied (mkCallbackSlot SLOT_READY (value c))) with 1. lia.
  - assert (occupied c = 1) as -> by (unfold occupied; by rewrite Hs).
    change (occupied (mkCallbackSlot SLOT_READING (value c))) with 1. lia.
  - assert (occupied (mkCallbackSlot (state c) None) = occupied c) as -> by done. lia.
  - change (occupied (mkCallbackSlot SLOT_EMPTY (value c))) with 0. lia.
  - change (zlen [v]) with 1. lia.
Qed.

(** ** The invariant of a run *)
Record mail_inv (capacity limit : nat) (c : config T) : Prop := mkMailInv {
  mi_access : access_inv (mailbox c) (agents c);
  mi_length : length (slots (mailbox c)) = capacity;
  mi_values : begun c ≡ₚ held (mailbox c) (agents c) ++ delivered c ++ refused c;
  mi_live : Z.of_nat (live c) = underway (mailbox c) (agents c);
  mi_crowd : (limit <= capacity)%nat -> forall i, (i <= capacity)%nat ->
    crowd i (mailbox c) (agents c) <= Z.of_nat (capacity - i);
  mi_refused : (limit <= capacity)%nat -> refused c = [];
}.

Lemma held_snoc q ag a : held q (ag ++ [a]) ≡ₚ option_list (agent_value a) ++ held q ag.
Proof. unfold held. rewrite agent_values, app_nil_r. by rewrite <- app_assoc. Qed.

Lemma underway_snoc q ag a : underway q (ag ++ [a]) = underway q ag + waiting 0 a + leaving a.
Proof. unfold underway, crowd. rewrite !zsum_app. cbn [zsum]. lia. Qed.
Lemma crowd_snoc i q ag a : crowd i q (ag ++ [a]) = crowd i q ag + waiting i a.
Proof. unfold crowd. rewrite zsum_app. cbn [zsum]. lia. Qed.
Lemma crowd_underway q ag : 0 <= crowd 0 q ag <= underway q ag.
Proof.
  unfold underway, crowd. split; [|enough (0 <= zsum leaving ag) by lia; apply zsum_nonneg, Forall_true; intros b; apply leaving_range].
  enough (0 <= zsum occupied (drop 0 (slots q)) /\ 0 <= zsum (waiting 0) ag) by lia.
  split; apply zsum_nonneg, Forall_true; [apply occupied_range|apply waiting_range].
Qed.

Lemma access_snoc q ag a :
  access_inv q ag -> (forall k, claim k a = None) -> agent_ok (length (slots q)) a -> access_inv q (ag ++ [a]).
Proof.
  intros (Hs & Ha & Hc) Hk Hok. split; [|split; [|done]].
  - intros k c Hl. unfold claims. rewrite omap_app. cbn. rewrite Hk, app_nil_r. by apply Hs.
  - apply Forall_app. by rewrite Forall_singleton.
Qed.

Lemma mail_inv_initial capacity limit : mail_inv capacity limit (initial capacity).
Proof.
  assert (length (slots (new (T:=T) capacity)) = capacity) as Hlen by apply length_replicate.
  assert (forall n, omap value (replicate n (mkCallbackSlot (T:=T) SLOT_EMPTY None)) = []) as Hnone by (intros n; by induction n).
  assert (forall n, zsum occupied (replicate n (mkCallbackSlot (T:=T) SLOT_EMPTY None)) = 0) as Hzero by (intros n; by induction n).
  constructor; cbn [initial mailbox agents begun delivered refused]; [|done|..|done].
  - split; [|split; [constructor|cbn; rewrite length_replicate; lia]].
    intros k c Hc. apply lookup_replicate in Hc as [-> _]. done.
  - unfold held, new. cbn [slots]. by rewrite Hnone.
  - unfold live, underway, crowd, held. cbn [initial mailbox agents]. unfold new. cbn [slots]. by rewrite drop_0, Hnone, Hzero.
  - intros _ i Hi. unfold crowd, new. cbn [slots]. rewrite drop_replicate, Hzero. cbn [zsum]. lia.
Qed.

Lemma mail_inv_step capacity limit c c' : mail_inv capacity limit c -> mail_step limit c c' -> mail_inv capacity limit c'.
Proof.
  intros [Ha Hlen Hv Hl Hc Hr] Hstep. unfold live in *. destruct Hstep as [v Hlim| |l1 a l2 q p Hag Hstep].
  - assert (held (mailbox c) (agents c ++ [Pushing v 0]) ≡ₚ v :: held (mailbox c) (agents c)) as Hp by apply held_snoc.
    constructor; cbn [mailbox agents begun delivered refused]; try done.
    + by apply access_snoc; [|done|cbn; lia].
    + rewrite Hp, Hv. by rewrite <- Permutation_cons_append.
    + unfold live. cbn [mailbox agents]. rewrite (Permutation_length Hp), underway_snoc. cbn [length waiting leaving Nat.leb]. lia.
    + intros Hle i Hi. rewrite crowd_snoc. cbn [waiting]. specialize (Hc Hle i Hi).
      unfold live in Hlim. pose proof (crowd_underway (mailbox c) (agents c)). destruct i as [|i]; cbn [Nat.leb]; lia.
  - assert (held (mailbox c) (agents c ++ [Popping (cursor (mailbox c)) 0]) ≡ₚ held (mailbox c) (agents c)) as Hp by apply held_snoc.
    constructor; cbn [mailbox agents begun delivered refused]; try done.
    + apply access_snoc; [done..|]. cbn. apply Ha.
    + by rewrite Hp.
    + unfold live. cbn [mailbox agents]. rewrite (Permutation_length Hp), underway_snoc. cbn [waiting leaving]. lia.
    + intros Hle i Hi. rewrite crowd_snoc. cbn [waiting]. specialize (Hc Hle i Hi). lia.
  - apply agent_effect in Hstep. rewrite Hag in *.
    pose proof (held_effect _ _ _ _ _ _ Ha Hstep) as Hp. pose proof (underway_effect _ _ _ _ _ _ Ha Hstep) as Hu.
    assert (length (slots q) = length (slots (mailbox c))) as Hlen'
      by (destruct Hstep; cbn [set_slot slots]; by rewrite ?length_insert).
    constructor; cbn [mailbox agents begun delivered refused].
    + by eapply access_effect.
    + congruence.
    + rewrite Hv, Hp, <- !app_assoc. f_equiv.
      by rewrite (Permutation_app_comm (gave_back p)), <- app_assoc, Permutation_app_swap_app.
    + unfold live. cbn [mailbox agents]. apply Permutation_length in Hp. rewrite !length_app in Hp. unfold zlen in Hu. lia.
    + intros Hle i Hi. destruct (crowd_effect _ _ _ _ _ _ i Ha Hstep) as [Hci|(j & -> & Hj & Hci)].
      * specialize (Hc Hle i Hi). lia.
      * specialize (Hc Hle j ltac:(lia)). lia.
    + intros Hle. rewrite (Hr Hle). destruct Hstep as [| |v j Hj| | | | | | | |]; try done. exfalso.
      specialize (Hc Hle capacity ltac:(lia)). destruct Ha as (_ & Hok & _).
      apply Forall_app in Hok as [_ [Hok _]%Forall_cons]. cbn in Hok. apply lookup_ge_None in Hj.
      unfold crowd in Hc. rewrite zsum_mid, Nat.sub_diag in Hc. cbn [waiting] in Hc.
      rewrite (proj2 (Nat.leb_le _ _)) in Hc by lia.
      assert (0 <= zsum occupied (drop capacity (slots (mailbox c)))) by (apply zsum_nonneg, Forall_true; intros; apply occupied_range).
      assert (forall l : list (agent T), 0 <= zsum (waiting capacity) l) as Hw by (intros; apply zsum_nonneg, Forall_true; intros; apply waiting_range).
      pose proof (Hw l1). pose proof (Hw l2). lia.
Qed.

Lemma mail_reachable capacity limit c : reachable capacity limit c -> mail_inv capacity limit c.
Proof.
  unfold reachable. intros Hc. remember (initial capacity) as c0 eqn:H0.
  assert (mail_inv capacity limit c0) as Hinv by (subst; apply mail_inv_initial). clear H0.
  induction Hc as [|c1 c2 c3 Hs _ IH]; [done|]. apply IH. by eapply mail_inv_step.
Qed.
End mailbox.

(** ** Whole calls

    A call of [push] or [pop] is its agent run without interference. *)
Section calls.
Context {T : Type}.
Implicit Types (q : CallbackSlots T) (a : agent T) (p : progress T).

Lemma run_goes n q a q' a' : agent_step q a = Ok (q', Goes a') -> run_alone (S n) q a = run_alone n q' a'.
Proof. intros Hs. cbn [run_alone]. by rewrite Hs. Qed.
Lemma run_ends n q a q' p :
  agent_step q a = Ok (q', p) -> (forall a', p <> Goes a') -> run_alone (S n) q a = Ok (q', p).
Proof. intros Hs Hp. cbn [run_alone]. rewrite Hs. destruct p; try done. by destruct (Hp a0). Qed.

Lemma set_slot_twice q i c c' : set_slot (set_slot q i c) i c' = set_slot q i c'.
Proof. unfold set_slot. cbn. by rewrite list_insert_insert_eq. Qed.

Lemma push_runs v q n : forall i, (n = length (slots q) - i)%nat ->
  run_alone (3 + n) q (Pushing v i) =
  match push_from n i v q with Ok q' => Ok (q', Pushed) | Err v => Ok (q, Refused v) | Panic => Panic end.
Proof.
  induction n as [|n IH]; intros i Hn.
  - assert (slots q !! i = None) as Hi by (apply lookup_ge_None; lia).
    change (3 + 0)%nat with (S 2). apply run_ends; [|done]. unfold agent_step. by rewrite Hi.
  - cbn [push_from]. destruct (lookup_lt_is_Some_2 (slots q) i) as [c Hc]; [lia|]. rewrite Hc.
    destruct (compare_exchange SLOT_EMPTY SLOT_WRITING c) as [c'|] eqn:Hx.
    + replace (3 + S n)%nat with (S (S (S (S n)))) by lia. rewrite (run_goes _ q _ (set_slot q i c') (Reserved v i));
        [|unfold agent_step; by rewrite Hc, Hx].
      assert (forall x, slots (set_slot q i x) !! i = Some x) as Hset
        by (intros x; apply list_lookup_insert_eq; by eapply lookup_lt_Some).
      rewrite (run_goes _ _ _ (set_slot q i (mkCallbackSlot (state c') (Some v))) (Written i));
        [|unfold agent_step, at_slot; by rewrite Hset, set_slot_twice].
      apply run_ends; [|done]. unfold agent_step, at_slot. by rewrite Hset, set_slot_twice.
    + replace (3 + S n)%nat with (S (3 + n)) by lia. rewrite (run_goes _ q _ q (Pushing v (S i)));
        [|unfold agent_step; by rewrite Hc, Hx]. apply IH. lia.
Qed.

Lemma pop_runs start q n : forall offset, (n = length (slots q) - offset)%nat ->
  (forall k c, slots q !! k = Some c -> state c = SLOT_READY -> is_Some (value c)) ->
  run_alone (4 + n) q (Popping start offset) =
  match pop_from n offset start q with Ok (v, q') => Ok (q', Popped v) | _ => Panic end.
Proof.
  induction n as [|n IH]; intros offset Hn Hq.
  - change (4 + 0)%nat with (S 3). apply run_ends; [|done]. unfold agent_step.
    by rewrite (proj2 (Nat.ltb_ge _ _)) by lia.
  - cbn [pop_from]. set (i := ((start + offset) mod length (slots q))%nat).
    assert (i < length (slots q))%nat as Hlt by (apply Nat.mod_upper_bound; lia).
    destruct (lookup_lt_is_Some_2 (slots q) i) as [c Hc]; [done|]. rewrite Hc.
    destruct (compare_exchange SLOT_READY SLOT_READING c) as [c'|] eqn:Hx.
    + pose proof Hx as Hx'. unfold compare_exchange in Hx'. case_decide as Hs; [|done]. injection Hx' as <-.
      destruct (Hq i c Hc Hs) as [v Hv]. rewrite Hv. rewrite Hv in Hx.
      assert (forall x, slots (set_slot q i x) !! i = Some x) as Hset by (intros x; by apply list_lookup_insert_eq).
      replace (4 + S n)%nat with (S (S (S (S (S n))))) by lia.
      rewrite (run_goes _ q _ (set_slot q i (mkCallbackSlot SLOT_READING (Some v))) (Taken i));
        [|unfold agent_step, at_slot; rewrite (proj2 (Nat.ltb_lt _ _)) by lia; fold i; by rewrite Hc, Hx].
      rewrite (run_goes _ _ _ (set_slot q i (mkCallbackSlot SLOT_READING None)) (Moved v i));
        [|unfold agent_step, at_slot; by rewrite Hset, set_slot_twice].
      rewrite (run_goes _ _ _ (set_slot q i (mkCallbackSlot SLOT_EMPTY None)) (Released v i));
        [|unfold agent_step, at_slot; by rewrite Hset, set_slot_twice].
      apply run_ends; [|done]. cbn. by rewrite length_insert.
    + replace (4 + S n)%nat with (S (4 + n)) by lia. rewrite (run_goes _ q _ q (Popping start (S offset)));
        [|unfold agent_step, at_slot; rewrite (proj2 (Nat.ltb_lt _ _)) by lia; fold i; by rewrite Hc, Hx]. apply IH; [lia|done].
Qed.

Lemma run_alone_inv n : forall q a q' p,
  access_inv q [a] -> run_alone n q a = Ok (q', p) ->
  access_inv q' (rest p) /\ held q [a] ≡ₚ held q' (rest p) ++ gave p ++ gave_back p /\ length (slots q') = length (slots q).
Proof.
  induction n as [|n IH]; intros q a q' p Hinv Hrun.
  - injection Hrun as <- <-. cbn [rest gave gave_back]. by rewrite app_nil_r.
  - cbn [run_alone] in Hrun. destruct (agent_step q a) as [[q1 p1]| |] eqn:Hs; try done. cbn [mbind outcome_bind] in Hrun.
    apply agent_effect in Hs. pose proof (access_effect q [] a [] q1 p1 Hinv Hs) as Hinv'. cbn [app] in Hinv'. rewrite app_nil_r in Hinv'.
    pose proof (held_effect q [] a [] q1 p1 Hinv Hs) as Hp. cbn [app] in Hp. rewrite app_nil_r in Hp.
    assert (length (slots q1) = length (slots q)) as Hlen by (destruct Hs; cbn [set_slot slots]; by rewrite ?length_insert).
    destruct p1 as [a1| |v|v].
    + destruct (IH _ _ _ _ Hinv' Hrun) as (? & ? & ?). cbn [rest gave gave_back] in Hp. rewrite !app_nil_r in Hp.
      split; [done|]. split; [by rewrite Hp|congruence].
    + by injection Hrun as <- <-.
    + by injection Hrun as <- <-.
    + by injection Hrun as <- <-.
Qed.

Lemma access_run n : forall q a, access_inv q [a] -> run_alone n q a <> Panic.
Proof.
  induction n as [|n IH]; intros q a Hinv; [done|]. cbn [run_alone].
  destruct (access_total q [] a [] Hinv) as (q' & p & Hs). rewrite Hs. cbn [mbind outcome_bind]. destruct p; try done.
  apply IH. apply agent_effect in Hs. apply (access_effect q [] a []) in Hs; [|done]. done.
Qed.

(** A mailbox between calls, and the values in it. *)
Definition quiet q : Prop := access_inv q [].
Definition contents q : list T := omap value (slots q).

Lemma quiet_new capacity : quiet (new capacity).
Proof. apply (mi_access capacity 0 (initial capacity)), mail_inv_initial. Qed.

Lemma quiet_slot q k c : quiet q -> slots q !! k = Some c ->
  (state c = SLOT_EMPTY /\ value c = None) \/ (state c = SLOT_READY /\ is_Some (value c)).
Proof.
  intros (Hs & _) Hc. specialize (Hs k c Hc). unfold slot_ok in Hs. cbn in Hs. destruct (state c), (value c); eauto; done.
Qed.

Lemma omap_full {A B} (f : A -> option B) l : (forall k x, l !! k = Some x -> is_Some (f x)) -> length (omap f l) = length l.
Proof.
  induction l as [|x l IH]; intros Hall; [done|]. destruct (Hall 0%nat x eq_refl) as [y Hy]. cbn. rewrite Hy. cbn. f_equal.
  apply IH. intros k z Hz. by apply (Hall (S k)).
Qed.
Lemma omap_length {A B} (f : A -> option B) l : (length (omap f l) <= length l)%nat.
Proof. induction l as [|x l IH]; cbn; [lia|]. destruct (f x); cbn; lia. Qed.
Lemma omap_none {A B} (f : A -> option B) l : (forall k x, l !! k = Some x -> f x = None) -> omap f l = [].
Proof.
  induction l as [|x l IH]; intros Hall; [done|]. cbn. rewrite (Hall 0%nat x eq_refl). apply IH. intros k z Hz. by apply (Hall (S k)).
Qed.

Lemma push_from_refused n : forall i v v' q, (n = length (slots q) - i)%nat -> push_from n i v q = Err v' ->
  v' = v /\ forall k c, (i <= k)%nat -> slots q !! k = Some c -> state c <> SLOT_EMPTY.
Proof.
  induction n as [|n IH]; intros i v v' q Hn; cbn [push_from].
  - intros [= <-]. split; [done|]. intros k c Hk Hc. apply lookup_lt_Some in Hc. lia.
  - destruct (lookup_lt_is_Some_2 (slots q) i) as [c Hc]; [lia|]. rewrite Hc. unfold compare_exchange.
    case_decide as Hs; [done|]. intros He. destruct (IH (S i) v v' q ltac:(lia) He) as [-> Hall]. split; [done|].
    intros k c' Hk Hc'. destruct (decide (k = i)) as [->|]; [congruence|]. apply (Hall k); [lia|done].
Qed.

Lemma push_call v q : quiet q ->
  match push v q with
  | Ok q' => quiet q' /\ contents q' ≡ₚ v :: contents q /\ length (slots q') = length (slots q)
  | Err v' => v' = v /\ length (contents q) = length (slots q)
  | Panic => False
  end.
Proof.
  intros Hq. assert (access_inv q [Pushing v 0]) as Hinv by (apply (access_snoc q []); [done..|cbn; lia]).
  pose proof (push_runs v q (length (slots q)) 0 ltac:(lia)) as Hrun. unfold push.
  destruct (push_from _ 0 v q) as [q'|v'|] eqn:Hp.
  - apply run_alone_inv in Hrun as (Hq' & Hh & Hlen); [|done]. cbn [rest gave gave_back] in *.
    split; [done|]. split; [|done]. unfold contents. unfold held in Hh. cbn in Hh. by rewrite !app_nil_r in Hh.
  - apply push_from_refused in Hp as [-> Hall]; [|lia]. split; [done|]. apply omap_full. intros k c Hc.
    destruct (quiet_slot q k c Hq Hc) as [[He _]|[_ ?]]; [|done]. by destruct (Hall k c ltac:(lia) Hc).
  - exfalso. revert Hp. generalize (length (slots q)) as n, 0%nat as i. intros n. induction n as [|n IH]; intros i; cbn; [done|].
    destruct (slots q !! i) as [c|]; [|done]. destruct (compare_exchange _ _ c); [done|apply IH].
Qed.

Lemma pop_from_none n : forall offset start q q', (n = length (slots q) - offset)%nat -> pop_from n offset start q = Ok (None, q') ->
  q' = q /\ forall k c, (offset <= k < length (slots q))%nat -> slots q !! ((start + k) mod length (slots q))%nat = Some c -> state c <> SLOT_READY.
Proof.
  induction n as [|n IH]; intros offset start q q' Hn; cbn [pop_from].
  - intros [= <-]. split; [done|]. lia.
  - destruct (slots q !! _) as [c|] eqn:Hc; [|done]. unfold compare_exchange. case_decide as Hs; [by destruct (value c)|].
    intros He. destruct (IH (S offset) start q q' ltac:(lia) He) as [-> Hall]. split; [done|].
    intros k c' Hk Hc'. destruct (decide (k = offset)) as [->|]; [congruence|]. apply (Hall k); [lia|done].
Qed.

(** Every position is tested, from wherever the cursor starts. *)
Lemma ring_covers start n k : (k < n)%nat -> exists offset, (offset < n)%nat /\ ((start + offset) mod n = k)%nat.
Proof.
  intros Hk. pose proof (Nat.div_mod start n ltac:(lia)) as Hd. pose proof (Nat.mod_upper_bound start n ltac:(lia)) as Hb.
  set (r := (start mod n)%nat) in *. set (d := (start / n)%nat) in *. clearbody r d.
  destruct (decide (r <= k)%nat).
  - exists (k - r)%nat. split; [lia|]. replace (start + (k - r))%nat with (k + d * n)%nat by lia.
    rewrite Nat.Div0.mod_add. by apply Nat.mod_small.
  - exists (k + n - r)%nat. split; [lia|]. replace (start + (k + n - r))%nat with (k + (d + 1) * n)%nat by lia.
    rewrite Nat.Div0.mod_add. by apply Nat.mod_small.
Qed.

Lemma pop_call q : quiet q ->
  match pop q with
  | Ok (Some v, q') => quiet q' /\ contents q ≡ₚ v :: contents q' /\ length (slots q') = length (slots q)
  | Ok (None, q') => q' = q /\ contents q = []
  | _ => False
  end.
Proof.
  intros Hq. unfold pop. assert (access_inv q [Popping (cursor q) 0]) as Hinv by (apply (access_snoc q []); [done..|apply Hq]).
  assert (forall k c, slots q !! k = Some c -> state c = SLOT_READY -> is_Some (value c)) as Hready.
  { intros k c Hc Hs. destruct (quiet_slot q k c Hq Hc) as [[He _]|[_ ?]]; [congruence|done]. }
  pose proof (pop_runs (cursor q) q (length (slots q)) 0 ltac:(lia) Hready) as Hrun.
  destruct (pop_from _ 0 (cursor q) q) as [[[v|] q']| |] eqn:Hp.
  - apply run_alone_inv in Hrun as (Hq' & Hh & Hlen); [|done]. cbn [rest gave gave_back] in *.
    split; [done|]. split; [|done]. unfold held in Hh. cbn in Hh. unfold contents. rewrite Hh. by rewrite <- Permutation_cons_append.
  - apply pop_from_none in Hp as [-> Hall]; [|lia]. split; [done|]. apply omap_none. intros k c Hc.
    destruct (quiet_slot q k c Hq Hc) as [[_ ?]|[Hr _]]; [done|]. exfalso. pose proof (lookup_lt_Some _ _ _ Hc) as Hlt.
    destruct (ring_covers (cursor q) _ k Hlt) as (offset & Ho & Hk). apply (Hall offset c); [lia|by rewrite Hk|done].
  - exfalso. eapply (access_run (4 + length (slots q))); [exact Hinv|exact Hrun].
  - exfalso. eapply (access_run (4 + length (slots q))); [exact Hinv|exact Hrun].
Qed.
End calls.

(** ** The mailbox *)
Section promises.
Context {T : Type}.

(** A call whose every step finds the mailbox as others have left it. *)
Fixpoint under_interference (qs : list (CallbackSlots T)) (a : agent T) : outcome unit (progress T) :=
  match qs with
  | [] => Ok (Goes a)
  | q :: qs' =>
      '(_, p) ← agent_step q a;
      match p with Goes a' => under_interference qs' a' | _ => Ok p end
  end.

Lemma remaining_decreases q (a : agent T) q' a' :
  effect q a q' (Goes a') -> (remaining (length (slots q)) a' < remaining (length (slots q)) a)%nat.
Proof.
  inversion 1 as [? ? c Hc|? ? c Hc| | | |? ? c i Hc| | | | |]; subst; cbn [remaining]; try lia.
  apply lookup_lt_Some in Hc. lia.
Qed.

(** C15: while no more values are underway than the mailbox has slots no push is
    refused, however the atomic accesses of any number of pushes and pops
    interleave; so the assertion of [send_completed] holds. *)
Theorem push_never_refused capacity limit (c : config T) :
  (limit <= capacity)%nat -> reachable capacity limit c ->
  refused c = [] /\
  forall l1 a l2 q p, agents c = l1 ++ a :: l2 -> agent_step (mailbox c) a = Ok (q, p) -> gave_back p = [].
Proof.
  intros Hle Hc. pose proof (mi_refused _ _ _ (mail_reachable _ _ _ Hc) Hle) as Hr. split; [done|].
  intros l1 a l2 q p Ha Hs. assert (reachable capacity limit (mkConfig q (l1 ++ rest p ++ l2) (begun c) (delivered c ++ gave p) (refused c ++ gave_back p))) as Hc'.
  { eapply rtc_r; [exact Hc|]. by eapply Act. }
  pose proof (mi_refused _ _ _ (mail_reachable _ _ _ Hc') Hle) as Hr'. cbn [refused] in Hr'. rewrite Hr in Hr'. done.
Qed.

(** C16: at every point of every interleaving each value handed to [push] is in one
    place, a slot or an agent's hands, or was handed out once; a slot's storage is
    in the hands of at most one agent, which finds it in the state its part of the
    protocol needs, and no storage is read before it is written. *)
Theorem one_place_per_value capacity limit (c : config T) :
  reachable capacity limit c ->
  begun c ≡ₚ held (mailbox c) (agents c) ++ delivered c ++ refused c /\
  (forall k s, slots (mailbox c) !! k = Some s -> slot_ok s (claims k (agents c))) /\
  forall l1 a l2, agents c = l1 ++ a :: l2 -> agent_step (mailbox c) a <> Panic.
Proof.
  intros [Ha _ Hv _ _ _]%mail_reachable. split; [done|]. split; [apply Ha|].
  intros l1 a l2 Hag. rewrite Hag in Ha. by destruct (access_total _ _ _ _ Ha) as (q & p & ->).
Qed.

(** C20: a call of [push] or [pop] ends after at most four steps more than there are
    slots, whatever the other agents do to the mailbox between its steps; run
    without interference it is the whole call of the code. *)
Theorem calls_never_wait capacity (qs : list (CallbackSlots T)) a :
  Forall (fun q => length (slots q) = capacity) qs ->
  (remaining capacity a <= length qs)%nat ->
  (forall a', under_interference qs a <> Ok (Goes a')) /\
  (forall v (q : CallbackSlots T), run_alone (3 + length (slots q)) q (Pushing v 0) =
     match push v q with Ok q' => Ok (q', Pushed) | Err v => Ok (q, Refused v) | Panic => Panic end) /\
  (forall q : CallbackSlots T, quiet q -> run_alone (4 + length (slots q)) q (Popping (cursor q) 0) =
     match pop q with Ok (v, q') => Ok (q', Popped v) | _ => Panic end).
Proof.
  intros Hqs Hn. split; [|split].
  - revert a Hn. induction Hqs as [|q qs Hq _ IH]; intros a Hr a'.
    + exfalso. destruct a; cbn in Hr; lia.
    + cbn [under_interference length] in *. destruct (agent_step q a) as [[q' p]| |] eqn:Hs; try done.
      cbn [mbind outcome_bind]. destruct p as [a1| |v|v]; try done. apply IH.
      apply agent_effect, remaining_decreases in Hs. rewrite Hq in Hs. lia.
  - intros v q. apply push_runs. lia.
  - intros q Hq. apply pop_runs; [lia|]. intros k c Hc Hs. destruct (quiet_slot q k c Hq Hc) as [[He _]|[_ ?]]; [congruence|done].
Qed.
End promises.

Definition busy_mailbox : config Z :=
  mkConfig (mkCallbackSlots [mkCallbackSlot SLOT_READY (Some 7); mkCallbackSlot SLOT_EMPTY None] 0)
    [Pushing 8 0] [7; 8] [] [].

Lemma busy_reachable : reachable 2 2 busy_mailbox.
Proof.
  unfold reachable. eapply rtc_l; [apply (BeginPush 2 _ 7); vm_compute; lia|].
  eapply rtc_l; [apply (Act 2 _ [] (Pushing 7 0) [] (mkCallbackSlots [mkCallbackSlot SLOT_WRITING None; mkCallbackSlot SLOT_EMPTY None] 0) (Goes (Reserved 7 0))); reflexivity|].
  eapply rtc_l; [apply (Act 2 _ [] (Reserved 7 0) [] (mkCallbackSlots [mkCallbackSlot SLOT_WRITING (Some 7); mkCallbackSlot SLOT_EMPTY None] 0) (Goes (Written 0))); reflexivity|].
  eapply rtc_l; [apply (Act 2 _ [] (Written 0) [] (mkCallbackSlots [mkCallbackSlot SLOT_READY (Some 7); mkCallbackSlot SLOT_EMPTY None] 0) Pushed); reflexivity|].
  eapply rtc_l; [apply (BeginPush 2 _ 8); vm_compute; lia|]. apply rtc_refl.
Qed.

Lemma push_never_refused_witness :
  refused busy_mailbox = [].
Proof. apply (push_never_refused 2 2); [lia|exact busy_reachable]. Defined.

Lemma one_place_per_value_witness : begun busy_mailbox ≡ₚ [8; 7].
Proof. apply (one_place_per_value 2 2 busy_mailbox), busy_reachable. Defined.

Lemma calls_never_wait_witness :
  under_interference (replicate 5 (mailbox busy_mailbox)) (Pushing 8 0) <> Ok (Goes (Pushing 8 5)).
Proof. apply (calls_never_wait 2 (replicate 5 (mailbox busy_mailbox)) (Pushing 8 0)); [by repeat constructor|by cbn; lia]. Defined.

(** The mailbox has the capacity the pool had when the node was made; a pool that
    has grown since lets more packets be underway, and a completion is refused. *)
Lemma grown_pool_overflows : exists c : config Z, reachable 1 2 c /\ refused c <> [].
Proof.
  eexists. split; [|shelve]. unfold reachable.
  eapply rtc_l; [apply (BeginPush 2 _ 7); vm_compute; lia|].
  eapply rtc_l; [apply (Act 2 _ [] (Pushing 7 0) [] (mkCallbackSlots [mkCallbackSlot SLOT_WRITING None] 0) (Goes (Reserved 7 0))); reflexivity|].
  eapply rtc_l; [apply (BeginPush 2 _ 8); vm_compute; lia|].
  eapply rtc_l; [apply (Act 2 _ [Reserved 7 0] (Pushing 8 0) [] (mkCallbackSlots [mkCallbackSlot SLOT_WRITING None] 0) (Goes (Pushing 8 1))); reflexivity|].
  eapply rtc_l; [apply (Act 2 _ [Reserved 7 0] (Pushing 8 1) [] (mkCallbackSlots [mkCallbackSlot SLOT_WRITING None] 0) (Refused 8)); reflexivity|].
  apply rtc_refl. Unshelve. done.
Qed.

(** ** Readiness *)
Section readiness.
Import CompletionQueue.

Inductive ready_op : Type :=
  | Report (bearer : Z)
  | Take
  | Drain.

(** [while let Some(id) = pop_ready()], nobody reporting in between. *)
Fixpoint drain_ready (fuel : nat) (l : list Z) : list Z * list Z :=
  match fuel with
  | O => ([], l)
  | S fuel' =>
      match take_ready l with
      | (None, l) => ([], l)
      | (Some b, l) => let '(bs, l) := drain_ready fuel' l in (b :: bs, l)
      end
  end.

(** What each operation that takes handed out; [None] is the panic of [send_ready]. *)
Fixpoint run_ready (ops : list ready_op) (l : list Z) : option (list (list Z) * list Z) :=
  match ops with
  | [] => Some ([], l)
  | Report b :: ops' => l ← publish b l; run_ready ops' l
  | Take :: ops' =>
      let '(b, l) := take_ready l in
      '(out, l) ← run_ready ops' l; Some (option_list b :: out, l)
  | Drain :: ops' =>
      let '(bs, l) := drain_ready (S (length l)) l in
      '(out, l) ← run_ready ops' l; Some (bs :: out, l)
  end.

(** The bearers that are ready, in the order they first said so. *)
Definition note (b : Z) (l : list Z) : list Z := if decide (b ∈ l) then l else l ++ [b].

Fixpoint spec_ready (ops : list ready_op) (l : list Z) : list (list Z) :=
  match ops with
  | [] => []
  | Report b :: ops' => spec_ready ops' (note b l)
  | Take :: ops' => spec_ready ops' l
  | Drain :: ops' => l :: spec_ready ops' []
  end.

Definition full_drains (ids : list Z) (o : ready_op) : Prop :=
  match o with Report b => b ∈ ids | Take => False | Drain => True end.

Abbreviation nonzero := (filter (fun b : Z => b <> 0)).

Lemma take_ready_spec l :
  length (take_ready l).2 = length l /\
  match nonzero l with
  | [] => take_ready l = (None, l) /\ l = replicate (length l) 0
  | b :: bs => (take_ready l).1 = Some b /\ nonzero (take_ready l).2 = bs
  end.
Proof.
  induction l as [|b l [Hlen IH]]; [done|]. cbn [take_ready]. rewrite filter_cons. destruct (Z.eqb_spec b 0) as [->|Hb].
  - rewrite decide_False by naive_solver. destruct (take_ready l) as [r l'] eqn:Ht. cbn [fst snd] in *. split; [cbn; lia|].
    destruct (nonzero l) as [|b bs].
    + destruct IH as [[= -> ->] Hl]. split; [done|]. cbn. by f_equal.
    + destruct IH as [-> <-]. split; [done|]. rewrite filter_cons, decide_False by naive_solver. done.
  - rewrite decide_True by done. cbn [fst snd length]. split; [done|]. split; [done|]. by rewrite filter_cons, decide_False by naive_solver.
Qed.

Lemma drain_ready_spec l : drain_ready (S (length l)) l = (nonzero l, replicate (length l) 0).
Proof.
  assert (length (nonzero l) < S (length l))%nat as Hf by (pose proof (length_filter (fun b : Z => b <> 0) l); lia).
  revert Hf. generalize (S (length l)) as n. intros n. revert l. induction n as [|n IH]; intros l Hn; [lia|]. cbn [drain_ready].
  pose proof (take_ready_spec l) as [Hlen Ht]. destruct (nonzero l) as [|b bs] eqn:Hl.
  - destruct Ht as [-> Hz]. by rewrite <- Hz.
  - destruct (take_ready l) as [r l'] eqn:Hr. cbn [fst snd] in *. destruct Ht as [-> Hl'].
    rewrite (IH l') by (rewrite Hl'; cbn in Hn; lia). by rewrite Hl', Hlen.
Qed.

Lemma nonzero_replicate n : nonzero (replicate n 0) = [].
Proof. induction n as [|n IH]; [done|]. cbn [replicate]. by rewrite filter_cons, decide_False by naive_solver. Qed.
Lemma nonzero_all l : Forall (fun b => b <> 0) l -> nonzero l = l.
Proof. induction 1 as [|b l Hb _ IH]; [done|]. rewrite filter_cons, decide_True by done. by rewrite IH. Qed.

Lemma publish_known b l k : b ∈ l -> Forall (fun b => b <> 0) l -> publish b (l ++ k) = Some (l ++ k).
Proof.
  intros Hb Hl. induction Hl as [|x l Hx _ IH]; [by apply not_elem_of_nil in Hb|]. cbn [app publish].
  rewrite (proj2 (Z.eqb_neq x 0)) by done. destruct (Z.eqb_spec x b) as [|Hne]; [done|].
  apply elem_of_cons in Hb as [->|Hb]; [done|]. by rewrite IH.
Qed.
Lemma publish_new b l n : b ∉ l -> Forall (fun b => b <> 0) l -> publish b (l ++ replicate (S n) 0) = Some ((l ++ [b]) ++ replicate n 0).
Proof.
  intros Hb Hl. induction Hl as [|x l Hx _ IH]; [done|]. cbn [app publish]. apply not_elem_of_cons in Hb as [Hne Hb].
  rewrite (proj2 (Z.eqb_neq x 0)) by done. destruct (Z.eqb_spec x b) as [|]; [congruence|]. by rewrite IH.
Qed.

Lemma note_new b l : b ∉ l -> note b l = l ++ [b].
Proof. intros Hb. unfold note. by rewrite decide_False. Qed.
Lemma note_known b l : b ∈ l -> note b l = l.
Proof. intros Hb. unfold note. by rewrite decide_True. Qed.

Lemma run_ready_refines capacity ids ops : forall l n,
  NoDup ids -> (length ids <= capacity)%nat -> Forall (fun b => b <> 0) ids ->
  Forall (full_drains ids) ops ->
  NoDup l -> l ⊆ ids -> (length l + n)%nat = capacity ->
  exists l', run_ready ops (l ++ replicate n 0) = Some (spec_ready ops l, l').
Proof.
  induction ops as [|o ops IH]; intros l n Hids Hcap Hnz Hops Hl Hsub Hn; [by eexists|].
  apply Forall_cons in Hops as [Ho Hops]. rewrite Forall_forall in Hnz.
  assert (Forall (fun b => b <> 0) l) as Hlnz by (apply Forall_forall; intros b Hb; by apply Hnz, Hsub).
  destruct o as [b| |]; cbn [run_ready spec_ready full_drains] in *; [|done|].
  - destruct (decide (b ∈ l)) as [Hb|Hb].
    + rewrite (publish_known b l _ Hb Hlnz), (note_known b l Hb). cbn [mbind option_bind]. apply IH; try done. by apply Forall_forall.
    + assert (NoDup (l ++ [b])) as Hl' by (apply NoDup_app; split; [done|]; split; [|by apply NoDup_singleton]; set_solver).
      assert (l ++ [b] ⊆ ids) as Hsub' by set_solver.
      pose proof (submseteq_length _ _ (NoDup_submseteq _ _ Hl' Hsub')) as Hle. rewrite length_app in Hle. cbn in Hle.
      destruct n as [|n]; [lia|]. rewrite (publish_new b l n Hb Hlnz), (note_new b l Hb). cbn [mbind option_bind].
      apply IH; try done; [by apply Forall_forall|]. rewrite length_app. cbn. lia.
  - rewrite drain_ready_spec, filter_app, nonzero_replicate, app_nil_r, (nonzero_all l Hlnz), length_app, length_replicate.
    destruct (IH [] (length l + n)%nat) as [l' Hrun]; try done; [by apply Forall_forall|constructor|set_solver|].
    cbn [app] in Hrun. rewrite Hrun. cbn. by eexists.
Qed.

Lemma publish_keeps b l l' : publish b l = Some l' -> b ∈ l' /\ length l' = length l.
Proof.
  revert l'. induction l as [|x l IH]; intros l'; cbn [publish]; [done|].
  destruct (Z.eqb_spec x 0); [intros [= <-]; by split; [left|]|]. destruct (Z.eqb_spec x b) as [->|]; [intros [= <-]; by split; [left|]|].
  intros (k & Hk & ->)%fmap_Some. destruct (IH k Hk) as [Hb Hlen]. split; [by right|cbn; by f_equal].
Qed.

(** Rounds of the owner that nobody reports in the middle of: with no more bearers
    than entries no report panics and each round hands out exactly the bearers that
    reported since the last one, each once, in the order they first did. *)
Theorem readiness_rounds capacity ids ops :
  NoDup ids -> (length ids <= capacity)%nat -> Forall (fun b => b <> 0) ids -> Forall (full_drains ids) ops ->
  fst <$> run_ready ops (replicate capacity 0) = Some (spec_ready ops []).
Proof.
  intros Hids Hcap Hnz Hops.
  destruct (run_ready_refines capacity ids ops [] capacity) as [l' Hrun]; try done; [constructor|set_solver|].
  cbn [app] in Hrun. by rewrite Hrun.
Qed.

Lemma readiness_rounds_witness :
  fst <$> run_ready [Report 3; Report 5; Report 3; Drain; Report 5; Drain] (replicate 2 0) = Some [[3; 5]; [5]].
Proof.
  apply (readiness_rounds 2 [3; 5]); [|by cbn; lia|by repeat constructor|].
  - by apply (bool_decide_unpack _).
  - repeat constructor; cbn; set_solver.
Defined.

Lemma publish_past b x l : x <> 0 -> x <> b -> publish b (x :: l) = cons x <$> publish b l.
Proof. intros Hx Hne. cbn [publish]. by rewrite (proj2 (Z.eqb_neq x 0)), (proj2 (Z.eqb_neq x b)). Qed.
Lemma take_first b l : b <> 0 -> take_ready (b :: l) = (Some b, 0 :: l).
Proof. intros Hb. cbn [take_ready]. by rewrite (proj2 (Z.eqb_neq b 0)). Qed.

(** *** Rounds that are interrupted

    [behind o] does [o] to the entries after a free first one. *)
Section overflow.
Context (b1 b2 : Z).

Definition behind (o : ready_op) : list ready_op :=
  match o with
  | Report b => if b =? b1 then [Report b2; Report b1; Take] else [Report b1; Report b2; Take]
  | o => [o]
  end.

Fixpoint fill (n : nat) : list ready_op :=
  match n with
  | O => []
  | S n' => flat_map behind (fill n') ++ [Report b1]
  end.

Definition after (ops : list ready_op) (l : list Z) : option (list Z) := snd <$> run_ready ops l.

Definition uses (o : ready_op) : Prop := o = Report b1 \/ o = Report b2 \/ o = Take.

Lemma after_cons o ops l : after (o :: ops) l = after [o] l ≫= after ops.
Proof.
  unfold after. destruct o as [b| |]; cbn [run_ready].
  - by destruct (publish b l).
  - destruct (take_ready l) as [r l']. cbn. by destruct (run_ready ops l') as [[? ?]|].
  - destruct (drain_ready _ l) as [bs l']. cbn. by destruct (run_ready ops l') as [[? ?]|].
Qed.
Lemma after_app ops1 ops2 l : after (ops1 ++ ops2) l = after ops1 l ≫= after ops2.
Proof.
  revert l. induction ops1 as [|o ops1 IH]; intros l; [done|]. cbn [app]. rewrite (after_cons o (ops1 ++ ops2)), (after_cons o ops1).
  destruct (after [o] l) as [l'|]; [|done]. cbn. apply IH.
Qed.

Context (Hb1 : b1 <> 0) (Hb2 : b2 <> 0) (Hb : b1 <> b2).

Lemma behind_run o l : uses o -> after (behind o) (0 :: l) = cons 0 <$> after [o] l.
Proof.
  intros [->|[->| ->]]; cbn [behind].
  - rewrite Z.eqb_refl. unfold after. cbn [run_ready publish Z.eqb]. cbn [mbind option_bind].
    rewrite publish_past by congruence. destruct (publish b1 l) as [l'|]; [|done].
    cbn [fmap option_fmap option_map mbind option_bind run_ready]. by rewrite take_first.
  - rewrite (proj2 (Z.eqb_neq b2 b1)) by congruence. unfold after. cbn [run_ready publish Z.eqb]. cbn [mbind option_bind].
    rewrite publish_past by congruence. destruct (publish b2 l) as [l'|]; [|done].
    cbn [fmap option_fmap option_map mbind option_bind run_ready]. by rewrite take_first.
  - unfold after. cbn. by destruct (take_ready l) as [r l'].
Qed.

Lemma fill_uses n : Forall uses (fill n).
Proof.
  induction n as [|n IH]; [constructor|]. cbn [fill]. apply Forall_app. split; [|by repeat constructor; left].
  induction IH as [|o ops Ho _ IHo]; [constructor|]. cbn [flat_map]. apply Forall_app. split; [|done].
  destruct Ho as [->|[->| ->]]; cbn [behind]; try case_match; rewrite ?Forall_cons, ?Forall_nil; unfold uses; auto 10.
Qed.

Lemma behind_runs ops l l' : Forall uses ops -> after ops l = Some l' -> after (flat_map behind ops) (0 :: l) = Some (0 :: l').
Proof.
  intros Hops. revert l. induction Hops as [|o ops Ho _ IH]; intros l Hr.
  - by injection Hr as <-.
  - cbn [flat_map]. rewrite after_app, (behind_run o l Ho). rewrite after_cons in Hr.
    destruct (after [o] l) as [l1|]; [|done]. cbn in Hr |- *. by apply IH.
Qed.

Lemma fill_fills n : after (fill n) (replicate n 0) = Some (replicate n b1).
Proof.
  induction n as [|n IH]; [done|]. cbn [fill replicate]. rewrite after_app, (behind_runs _ _ _ (fill_uses n) IH). done.
Qed.

(** Two bearers are enough to fill the entries of any mailbox, if their reports come
    between the takes of a round: one bearer then has all of them and the report of
    the other panics. *)
Lemma two_bearers_overflow capacity :
  (0 < capacity)%nat ->
  exists ops, Forall uses ops /\ run_ready ops (replicate capacity 0) = None.
Proof.
  intros Hc. exists (fill capacity ++ [Report b2]). split.
  - apply Forall_app. split; [apply fill_uses|]. apply Forall_singleton. by right; left.
  - assert (after (fill capacity ++ [Report b2]) (replicate capacity 0) = None) as Ha.
    { rewrite after_app, fill_fills. cbn [mbind option_bind]. unfold after. cbn [run_ready].
      enough (publish b2 (replicate capacity b1) = None) as -> by done.
      clear Hc. induction capacity as [|n IH]; [done|]. cbn [replicate]. by rewrite publish_past, IH. }
    unfold after in Ha. by destruct (run_ready _ _) as [[? ?]|].
Qed.
End overflow.
End readiness.

(** ** Readiness under any interleaving *)
Section interleaved.
Import CompletionQueue Readiness.
Implicit Types (l : list Z) (r : Z * nat).

Inductive ready_effect l : agent -> list Z -> progress -> Prop :=
  | RePublish b i : l !! i = Some 0 -> ready_effect l (Publishing b i) (<[i := b]> l) (Published b)
  | ReKnown b i : l !! i = Some b -> b <> 0 -> ready_effect l (Publishing b i) l (Published b)
  | RePass b i known : l !! i = Some known -> known <> 0 -> known <> b ->
      ready_effect l (Publishing b i) l (Goes (Publishing b (S i)))
  | ReFull b i : l !! i = None -> ready_effect l (Publishing b i) l (Unpublished b)
  | ReFree i : l !! i = Some 0 -> ready_effect l (Taking i) l (Goes (Taking (S i)))
  | ReTake i b : l !! i = Some b -> b <> 0 -> ready_effect l (Taking i) (<[i := 0]> l) (Took (Some b))
  | ReNone i : l !! i = None -> ready_effect l (Taking i) l (Took None).

Lemma ready_agent_effect l a l' p : agent_step l a = (l', p) -> ready_effect l a l' p.
Proof.
  destruct a as [b i|i]; cbn [agent_step]; destruct (l !! i) as [known|] eqn:Hi.
  - destruct (Z.eqb_spec known 0) as [->|Hk]; [intros [= <- <-]; by constructor|].
    destruct (Z.eqb_spec known b) as [->|Hb]; intros [= <- <-]; by econstructor.
  - intros [= <- <-]. by constructor.
  - destruct (Z.eqb_spec known 0) as [->|Hk]; intros [= <- <-]; [|by constructor].
    rewrite list_insert_id by done. by constructor.
  - intros [= <- <-]. by constructor.
Qed.

(** *** What becomes of a report
    At an entry from [i] on, or handed out since the report returned. *)
Definition accounted (i : nat) (l given : list Z) r : Prop :=
  (exists j, (i <= j)%nat /\ l !! j = Some r.1) \/ r.1 ∈ drop r.2 given.

Definition sound_report (given : list Z) r : Prop := r.1 <> 0 /\ (r.2 <= length given)%nat.

Lemma entry_stays l a l' p j b :
  ready_effect l a l' p -> b <> 0 -> l !! j = Some b -> l' !! j = Some b \/ p = Took (Some b).
Proof.
  intros He Hb Hj. destruct He as [b' i Hi|?|?|?|?|i b' Hi _|?]; try (by left).
  - left. rewrite list_lookup_insert_ne; [done|]. intros ->. congruence.
  - destruct (decide (i = j)) as [->|Hne]; [right; congruence|left; by rewrite list_lookup_insert_ne].
Qed.

Lemma since_grows r (given more : list Z) : sound_report given r -> r.1 ∈ drop r.2 given -> r.1 ∈ drop r.2 (given ++ more).
Proof. intros [_ Hr] Hin. rewrite drop_app_le by done. apply elem_of_app. by left. Qed.

Lemma accounted_stays l a l' p i given r :
  ready_effect l a l' p -> sound_report given r -> accounted i l given r -> accounted i l' (given ++ gave p) r.
Proof.
  intros He Hr [(j & Hi & Hj)|Hd]; [|by right; apply since_grows].
  destruct (entry_stays _ _ _ _ _ _ He (proj1 Hr) Hj) as [Hj'| ->]; [left; by exists j|].
  right. rewrite drop_app_le by apply Hr. apply elem_of_app. right. by left.
Qed.

Lemma accounted_next l i given r : r.1 <> 0 -> l !! i = Some 0 -> accounted i l given r -> accounted (S i) l given r.
Proof.
  intros Hr Hi [(j & Hij & Hj)|Hd]; [|by right]. left. exists j. split; [|done].
  assert (i <> j) by congruence. lia.
Qed.

Lemma accounted_end l i given r : l !! i = None -> accounted i l given r -> r.1 ∈ drop r.2 given.
Proof.
  intros Hi [(j & Hij & Hj)|Hd]; [|done]. apply lookup_lt_Some in Hj. apply lookup_ge_None in Hi. lia.
Qed.

(** *** The invariant *)
Definition occurrences (b : Z) (l : list Z) : Z := zsum (fun x => if x =? b then 1 else 0) l.

Record ready_inv (c : config) : Prop := mkReadyInv {
  ri_sound : Forall (sound_report (given c)) (reports c);
  ri_reports : Forall (accounted 0 (entries c) (given c)) (reports c);
  ri_takes : forall i n, (Taking i, n) ∈ agents c -> Forall (accounted i (entries c) (given c)) (take n (reports c));
  ri_empty : forall n, n ∈ empty_takes c -> Forall (fun r => r.1 ∈ drop r.2 (given c)) (take n (reports c));
  ri_marks : (forall a n, (a, n) ∈ agents c -> (n <= length (reports c))%nat) /\
             (forall n, n ∈ empty_takes c -> (n <= length (reports c))%nat);
  ri_bearers : forall b i n, (Publishing b i, n) ∈ agents c -> b <> 0;
  ri_counts : forall b, b <> 0 -> occurrences b (given c) + occurrences b (entries c) <= occurrences b (reports c).*1;
}.

Lemma occurrences_app b l k : occurrences b (l ++ k) = occurrences b l + occurrences b k.
Proof. apply zsum_app. Qed.

Lemma effect_counts l a l' p k b : ready_effect l a l' p -> b <> 0 ->
  occurrences b (gave p) + occurrences b l' <= occurrences b l + occurrences b (reported p k).*1.
Proof.
  intros He Hb. unfold occurrences. destruct He as [b' i Hi|b' i Hi ?|?|?|?|i b' Hi ?|?]; cbn; try lia.
  - rewrite (zsum_insert _ i l 0 b' Hi), (proj2 (Z.eqb_neq 0 b)) by done. destruct (b' =? b); lia.
  - destruct (b' =? b); lia.
  - rewrite (zsum_insert _ i l b' 0 Hi), (proj2 (Z.eqb_neq 0 b)) by done. destruct (b' =? b); lia.
Qed.

Lemma effect_reports l a l' p given : ready_effect l a l' p -> (forall b i, a = Publishing b i -> b <> 0) ->
  Forall (fun r => sound_report (given ++ gave p) r /\ accounted 0 l' (given ++ gave p) r) (reported p (length given)).
Proof.
  intros He Hb. destruct He as [b i Hi|b i Hi ?|?|?|?|?|?]; cbn [reported gave]; try constructor; try constructor;
    rewrite ?app_nil_r; unfold sound_report; cbn [fst snd].
  - split; [by eapply Hb|done].
  - left. exists i. split; [lia|]. cbn. apply list_lookup_insert_eq. by eapply lookup_lt_Some.
  - by split.
  - left. exists i. split; [lia|done].
Qed.

(** What an agent carries on with. *)
Lemma in_rest (l1 l2 : list (agent * nat)) x p n : x ∈ l1 ++ rest p n ++ l2 -> x ∈ l1 ++ l2 \/ exists a, p = Goes a /\ x = (a, n).
Proof.
  rewrite !elem_of_app. intros [?|[Hx|?]]; [by left; left| |by left; right].
  destruct p as [a| | |]; cbn in Hx; try by apply not_elem_of_nil in Hx. apply list_elem_of_singleton in Hx as ->. right. by exists a.
Qed.
Lemma in_others (l1 l2 : list (agent * nat)) x y : x ∈ l1 ++ l2 -> x ∈ l1 ++ y :: l2.
Proof. rewrite !elem_of_app, elem_of_cons. tauto. Qed.

Lemma ready_inv_act c (l1 l2 : list (agent * nat)) a n l p :
  agents c = l1 ++ (a, n) :: l2 -> ready_effect (entries c) a l p -> ready_inv c ->
  ready_inv (mkConfig l (l1 ++ rest p n ++ l2) (reports c ++ reported p (length (given c)))
    (given c ++ gave p) (overflowed c ++ failed p) (empty_takes c ++ found_none p n)).
Proof.
  intros Ha He [Hs Hr Ht Hn [Hm1 Hm2] Hb Hc].
  assert ((a, n) ∈ agents c) as Hin by (rewrite Ha; apply elem_of_app; right; by left).
  assert (forall x, x ∈ l1 ++ l2 -> x ∈ agents c) as Hothers by (intros x Hx; rewrite Ha; by apply in_others).
  assert (forall b i, a = Publishing b i -> b <> 0) as Hab by (intros b i ->; by eapply Hb).
  pose proof (effect_reports _ _ _ _ (given c) He Hab) as Hnew. rewrite Forall_and in Hnew. destruct Hnew as [Hnew1 Hnew2].
  assert (forall i rs, rs ⊆ reports c -> Forall (accounted i (entries c) (given c)) rs -> Forall (accounted i l (given c ++ gave p)) rs) as Hstay.
  { intros i rs Hrs. rewrite !Forall_forall. intros Hall r Hin'. rewrite Forall_forall in Hs.
    eapply accounted_stays; [exact He|by apply Hs, Hrs|by apply Hall]. }
  constructor; cbn [entries agents reports given empty_takes].
  - apply Forall_app. split; [|done]. eapply Forall_impl; [exact Hs|]. intros r [? ?]. split; [done|]. rewrite length_app. lia.
  - apply Forall_app. split; [|done]. by apply Hstay.
  - intros i m Hx. apply in_rest in Hx as [Hx%Hothers|(a' & -> & [= <- ->])].
    + rewrite take_app_le by (by eapply Hm1). apply Hstay; [apply subseteq_take|by apply Ht].
    + rewrite take_app_le by (by eapply Hm1). inversion He as [| | | |j Hj| |]; subst. cbn. rewrite app_nil_r.
      specialize (Ht j n Hin). rewrite !Forall_forall in *. intros r Hx. apply accounted_next; [|done|by apply Ht].
      apply Hs. by eapply subseteq_take.
  - intros m [Hm|Hm]%elem_of_app.
    + rewrite take_app_le by (by apply Hm2). specialize (Hn m Hm). rewrite !Forall_forall in *. intros r Hx.
      apply since_grows; [|by apply Hn]. apply Hs. by eapply subseteq_take.
    + inversion He; subst; cbn in Hm; try by apply not_elem_of_nil in Hm. apply list_elem_of_singleton in Hm as ->.
      cbn. rewrite !app_nil_r. eapply Forall_impl; [by eapply Ht|]. intros r. by apply accounted_end.
  - split; rewrite length_app.
    + intros a' m [Hx%Hothers|(? & -> & [= <- ->])]%in_rest; [apply Hm1 in Hx; lia|apply Hm1 in Hin; lia].
    + intros m [Hx%Hm2|Hx]%elem_of_app; [lia|].
      destruct p as [| | |[]]; cbn in Hx; try by apply not_elem_of_nil in Hx.
      apply list_elem_of_singleton in Hx as ->. apply Hm1 in Hin. lia.
  - intros b i m Hx. apply in_rest in Hx as [Hx%Hothers|(a' & -> & [= <- ->])]; [by eapply Hb|].
    inversion He; subst. by eapply Hab.
  - intros b Hb0. rewrite fmap_app, !occurrences_app. pose proof (effect_counts _ _ _ _ (length (given c)) b He Hb0).
    specialize (Hc b Hb0). lia.
Qed.

Lemma ready_inv_begin c a ids : ready_inv c -> (forall b i, a = Publishing b i -> b <> 0) -> (forall i, a = Taking i -> i = 0%nat) ->
  ready_inv (mkConfig (entries c) (agents c ++ [(a, length (reports c))]) (reports c) (given c) ids (empty_takes c)).
Proof.
  intros [Hs Hr Ht Hn [Hm1 Hm2] Hb Hc] Ha Ha0.
  constructor; cbn [entries agents reports given empty_takes]; try done.
  - intros i n [Hx|[= <- ->]%list_elem_of_singleton]%elem_of_app; [by apply Ht|]. rewrite (Ha0 i eq_refl). by rewrite firstn_all.
  - split; [|done]. intros a' n [Hx%Hm1|[= <- ->]%list_elem_of_singleton]%elem_of_app; lia.
  - intros b i n [Hx|[= <- ->]%list_elem_of_singleton]%elem_of_app; [by eapply Hb|by eapply Ha].
Qed.

Lemma ready_inv_initial capacity : ready_inv (initial capacity).
Proof.
  constructor; cbn [initial entries agents reports given empty_takes]; try constructor; try (intros *; set_solver).
  intros b Hb. enough (occurrences b (replicate capacity 0) = 0) as Hz by (by rewrite Hz).
  unfold occurrences. induction capacity as [|n IH]; [done|]. cbn [replicate zsum]. by rewrite (proj2 (Z.eqb_neq 0 b)).
Qed.

Lemma ready_reachable capacity ids c : reachable capacity ids c -> ready_inv c.
Proof.
  intros Hc. pose proof (ready_inv_initial capacity) as Hi. unfold reachable in Hc. induction Hc as [|x y z Hxy _ IH]; [done|].
  apply IH. destruct Hxy as [b _ Hb| |l1 a n l2 l p Ha Hst%ready_agent_effect].
  - apply ready_inv_begin; [done|by intros ? ? [= <- <-]|done].
  - apply ready_inv_begin; [done|done|by intros ? [= <-]].
  - by eapply ready_inv_act.
Qed.

(** *** One bearer, one entry *)
Definition one_bearer (ids : list Z) : Prop := forall b b', b ∈ ids -> b' ∈ ids -> b = b'.

Record alone_inv (capacity : nat) (ids : list Z) (c : config) : Prop := mkAloneInv {
  ai_length : length (entries c) = capacity;
  ai_entries : Forall (fun x => x = 0 \/ x ∈ ids) (entries c);
  ai_publishers : forall b i n, (Publishing b i, n) ∈ agents c -> b ∈ ids /\ i = 0%nat;
  ai_overflowed : overflowed c = [];
}.

Lemma alone_inv_step capacity ids c c' : (0 < capacity)%nat -> one_bearer ids -> ready_step ids c c' ->
  alone_inv capacity ids c -> alone_inv capacity ids c'.
Proof.
  intros Hcap Hone Hstep [Hl He Hp Ho].
  destruct Hstep as [b Hb _| |l1 a n l2 l p Ha Hst%ready_agent_effect]; constructor; cbn [entries agents overflowed]; try done.
  - intros b' i n [Hx|[= <- <- ->]%list_elem_of_singleton]%elem_of_app; [by eapply Hp|done].
  - intros b' i n [Hx|Hx%list_elem_of_singleton]%elem_of_app; [by eapply Hp|done].
  - destruct Hst; by rewrite ?length_insert.
  - assert (forall i x, x = 0 \/ x ∈ ids -> Forall (fun x => x = 0 \/ x ∈ ids) (<[i:=x]> (entries c))) as Hins
      by (intros; by apply Forall_insert).
    destruct Hst as [b i Hi| | | | |i b Hi ?|]; try done; apply Hins; [|by left].
    right. apply (Hp b i n). rewrite Ha. apply elem_of_app. right. by left.
  - intros b i m [Hx|(a' & -> & [= <- ->])]%in_rest; [apply (Hp b i m); rewrite Ha; by apply in_others|].
    inversion Hst as [| |b' j known Hj Hk Hne| | | |]; subst. exfalso.
    destruct (Hp b j n) as [Hb ->]; [rewrite Ha; apply elem_of_app; right; by left|].
    rewrite Forall_lookup in He. destruct (He _ _ Hj) as [|Hin]; [done|]. apply Hne. by apply Hone.
  - rewrite Ho. destruct Hst as [| | |b i Hi| | |]; try done. exfalso.
    destruct (Hp b i n) as [Hb ->]; [rewrite Ha; apply elem_of_app; right; by left|].
    apply lookup_ge_None in Hi. lia.
Qed.

Lemma alone_no_overflow capacity ids c :
  (0 < capacity)%nat -> one_bearer ids -> reachable capacity ids c -> overflowed c = [].
Proof.
  intros Hcap Hone Hc. enough (alone_inv capacity ids c) as [] by done. unfold reachable in Hc.
  assert (alone_inv capacity ids (initial capacity)) as Hi.
  { constructor; cbn [initial entries agents overflowed]; [apply length_replicate| |set_solver|done].
    apply Forall_replicate. by left. }
  induction Hc as [|x y z Hxy _ IH]; [done|]. apply IH. by eapply alone_inv_step.
Qed.

(** *** A call nobody interrupts *)
Lemma insert_middle (pre l : list Z) x y : <[length pre := y]> (pre ++ x :: l) = pre ++ y :: l.
Proof. rewrite insert_app_r_alt by done. by rewrite Nat.sub_diag. Qed.

Lemma run_alone_step n l a :
  run_alone (S n) l a = match agent_step l a with (l', Goes a') => run_alone n l' a' | ended => Some ended end.
Proof. done. Qed.

Lemma publish_runs b l : forall pre,
  run_alone (S (length l)) (pre ++ l) (Publishing b (length pre)) =
    Some (match publish b l with Some l' => (pre ++ l', Published b) | None => (pre ++ l, Unpublished b) end).
Proof.
  induction l as [|x l IH]; intros pre; cbn [length]; rewrite run_alone_step; cbn [agent_step].
  - by rewrite app_nil_r, lookup_ge_None_2.
  - rewrite list_lookup_middle by done. cbn [publish]. destruct (x =? 0); [by rewrite insert_middle|].
    destruct (x =? b); [done|]. specialize (IH (pre ++ [x])).
    rewrite <- app_assoc, length_app, Nat.add_1_r in IH. cbn [app] in IH. rewrite IH.
    by destruct (publish b l); cbn; rewrite <- ?app_assoc.
Qed.

Lemma take_runs l : forall pre,
  run_alone (S (length l)) (pre ++ l) (Taking (length pre)) = Some (pre ++ (take_ready l).2, Took (take_ready l).1).
Proof.
  induction l as [|x l IH]; intros pre; cbn [length]; rewrite run_alone_step; cbn [agent_step].
  - rewrite lookup_ge_None_2 by (by rewrite app_nil_r). cbn. by rewrite app_nil_r.
  - rewrite list_lookup_middle by done. rewrite insert_middle. cbn [take_ready].
    destruct (Z.eqb_spec x 0) as [->|Hx]; [|done]. specialize (IH (pre ++ [0])).
    rewrite <- app_assoc, length_app, Nat.add_1_r in IH. cbn [app] in IH. rewrite IH.
    destruct (take_ready l) as [r l']. cbn. by rewrite <- app_assoc.
Qed.

(** C19: However the accesses of any number of readiness reports and takes interleave,
    one entry at a time: the bearer of a report that returned is in an entry or was
    handed out since; once a take finds nothing, every bearer whose report had
    returned before the take began has been handed out since that report; no bearer is
    handed out more often than it reported; with a single bearer no report panics
    (with two one may, [two_bearers_overflow]); and a call nobody interrupts is the
    loop of [publish] or [take_ready]. *)
Theorem readiness_reported_once capacity ids c :
  reachable capacity ids c ->
  (forall b k, (b, k) ∈ reports c -> b ∈ entries c \/ b ∈ drop k (given c)) /\
  (forall n b k, n ∈ empty_takes c -> (b, k) ∈ take n (reports c) -> b ∈ drop k (given c)) /\
  (forall b, b <> 0 -> occurrences b (given c) <= occurrences b (reports c).*1) /\
  ((0 < capacity)%nat -> one_bearer ids -> overflowed c = []) /\
  (forall l b,
     run_alone (S (length l)) l (Publishing b 0) =
       Some (match publish b l with Some l' => (l', Published b) | None => (l, Unpublished b) end) /\
     run_alone (S (length l)) l (Taking 0) = Some ((take_ready l).2, Took (take_ready l).1)).
Proof.
  intros Hc. pose proof (ready_reachable _ _ _ Hc) as [_ Hr _ Hn _ _ Hcount]. rewrite Forall_forall in Hr. split; [|split; [|split; [|split]]].
  - intros b k [(j & _ & Hj)|Hd]%Hr; [left|by right]. by eapply list_elem_of_lookup_2.
  - intros n b k Hin Hb. specialize (Hn n Hin). rewrite Forall_forall in Hn. exact (Hn _ Hb).
  - intros b Hb. specialize (Hcount b Hb). enough (0 <= occurrences b (entries c)) by lia.
    apply zsum_nonneg, Forall_forall. intros x _. by destruct (x =? b).
  - intros Hcap Hone. by apply (alone_no_overflow capacity ids).
  - intros l b. split; [exact (publish_runs b l [])|exact (take_runs l [])].
Qed.

(** A schedule: who begins or goes on; agents are named by their place in the list. *)
Inductive move : Type :=
  | MReport (b : Z)
  | MTake
  | MStep (k : nat).

Definition play1 (c : config) (m : move) : config :=
  let begin a := mkConfig (entries c) (agents c ++ [(a, length (reports c))]) (reports c) (given c) (overflowed c) (empty_takes c) in
  match m with
  | MReport b => begin (Publishing b 0)
  | MTake => begin (Taking 0)
  | MStep k =>
      match agents c !! k with
      | None => c
      | Some (a, n) =>
          let '(l, p) := agent_step (entries c) a in
          mkConfig l (take k (agents c) ++ rest p n ++ drop (S k) (agents c)) (reports c ++ reported p (length (given c)))
            (given c ++ gave p) (overflowed c ++ failed p) (empty_takes c ++ found_none p n)
      end
  end.

Definition allowed (ids : list Z) (m : move) : Prop := match m with MReport b => b ∈ ids /\ b <> 0 | _ => True end.

Lemma play_steps ids ms : Forall (allowed ids) ms -> forall c, rtc (ready_step ids) c (foldl play1 c ms).
Proof.
  induction 1 as [|m ms Hm _ IH]; intros c; [done|]. cbn [foldl]. etrans; [|apply IH]. destruct m as [b| |k]; cbn [play1].
  - apply rtc_once, BeginReport; apply Hm.
  - apply rtc_once, BeginTake.
  - destruct (agents c !! k) as [[a n]|] eqn:Hk; [|done]. destruct (agent_step (entries c) a) as [l p] eqn:Hs.
    apply rtc_once. apply (Act ids c _ a n _ l p); [|done]. by rewrite take_drop_middle.
Qed.

(** Two bearers report while the owner takes: the report of 5 passes the entry of 3
    before the owner takes it. *)
Definition interruption : list move :=
  [MReport 3; MStep 0; MReport 5; MStep 0; MTake; MStep 1; MStep 0] ++ [MTake; MStep 0; MStep 0] ++ [MTake; MStep 0; MStep 0; MStep 0].
Definition interrupted_round : config := foldl play1 (initial 2) interruption.

Lemma interrupted_reachable : reachable 2 [3; 5] interrupted_round.
Proof. apply play_steps. repeat constructor; done. Qed.

Example interrupted_round_is : interrupted_round = mkConfig [0; 0] [] [(3, 0%nat); (5, 1%nat)] [3; 5] [] [2%nat].
Proof. by vm_compute. Qed.

Lemma readiness_reported_once_witness : 5 ∈ drop 1 (given interrupted_round).
Proof.
  destruct (readiness_reported_once 2 [3; 5] interrupted_round interrupted_reachable) as (_ & Hn & _).
  apply (Hn 2%nat 5 1%nat); rewrite interrupted_round_is; cbn; [left|right; left].
Defined.
End interleaved.
