(* ===== verification/Bearer.v ===== *)
(** * Bearers and their registry

    [src/crates/quic-lite/src/bearer.rs]: the bearers of a node, what it keeps of
    each ([RegisteredBearer]: description, reported state, counters, the one packet
    the driver refused), and the table of them ([BearerRegistry]).  [P] is an
    [OwnedPacket], [packet_len] the length of its [bytes()]; [A] a
    [PacketAcceptance]; [D] the driver behind [PacketEgress], whose [submit] is the
    parameter [egress]: [None] for [Ok], the submission for [WouldBlock].  The
    events queue every token shares is that of the node ([Mailbox.v]). *)

From S2P Require Import Prelude Records Mailbox.

(** [BearerId::new] of a [u16]. *)
Definition BearerId_new (value : Z) : option Z := if value =? 0 then None else Some value.

(** ** Names and descriptions *)
Record BearerName : Type := mkBearerName { bn_bytes : bytes; bn_len : Z }.
#[export] Instance BearerName_eq_dec : EqDecision BearerName.
Proof. solve_decision. Defined.

Definition is_ascii (s : bytes) : bool := forallb (fun b => b <? 128) s.

Definition BearerName_new (name : bytes) : option BearerName :=
  if (zlen name =? 0) || (16 <? zlen name) || negb (is_ascii name) then None
  else Some (mkBearerName (name ++ replicate (16 - length name) 0) (as_u8 (zlen name))).

Definition as_str (n : BearerName) : outcome unit bytes := slice (bn_bytes n) 0 (bn_len n).

Record BearerInfo : Type := mkBearerInfo {
  bi_name : BearerName;
  bi_max_packet_size : Z;
  bi_prefix_required : Z;
  bi_suffix_required : Z;
  bi_requires_packet_encryption : bool;
  bi_secure_link : bool;
  bi_nominal_bitrate_bps : Z;
  bi_local_mac : option bytes;
}.

Record BearerStats : Type := mkBearerStats {
  received_packets : Z;
  received_bytes : Z;
  ingress_drops : Z;
  submitted_packets : Z;
  submitted_bytes : Z;
  completed_packets : Z;
  completed_bytes : Z;
  send_would_block : Z;
  send_failures : Z;
}.
Definition BearerStats_default : BearerStats := mkBearerStats 0 0 0 0 0 0 0 0 0.

Record BearerState : Type := mkBearerState {
  enabled : bool;
  ready : bool;
  in_flight_packets : Z;
  measured_bitrate_bps : Z;
}.
Definition BearerState_new : BearerState := mkBearerState false false 0 0.

(** ** Submissions and completions *)
Inductive PacketSendOutcome : Type := Sent | Failed | Indeterminate.
#[export] Instance PacketSendOutcome_eq_dec : EqDecision PacketSendOutcome.
Proof. solve_decision. Defined.

Record PacketCompletionToken (A : Type) : Type := mkToken { tok_bearer : Z; tok_acceptance : option A }.
Arguments mkToken {A}. Arguments tok_bearer {A}. Arguments tok_acceptance {A}.

Record EgressSubmission (P A : Type) : Type := mkSubmission { sub_packet : P; sub_completion : PacketCompletionToken A }.
Arguments mkSubmission {P A}. Arguments sub_packet {P A}. Arguments sub_completion {P A}.

Record PacketSendCompletion (P A : Type) : Type := mkCompletion {
  cp_bearer : Z;
  cp_packet : P;
  cp_outcome : PacketSendOutcome;
  cp_elapsed_us : Z;
  cp_acceptance : option A;
}.
Arguments mkCompletion {P A}. Arguments cp_bearer {P A}. Arguments cp_packet {P A}.
Arguments cp_outcome {P A}. Arguments cp_elapsed_us {P A}. Arguments cp_acceptance {P A}.

(** ** Registered bearers *)
Record RegisteredBearer (P A D : Type) : Type := mkRegisteredBearer {
  rb_id : Z;
  rb_info : BearerInfo;
  rb_state : BearerState;
  rb_stats : BearerStats;
  rb_egress : D;
  rb_pending : option (Z * EgressSubmission P A * option A);
}.
Arguments mkRegisteredBearer {P A D}. Arguments rb_id {P A D}. Arguments rb_info {P A D}. Arguments rb_state {P A D}.
Arguments rb_stats {P A D}. Arguments rb_egress {P A D}. Arguments rb_pending {P A D}.

#[export] Instance eta_BearerInfo : Eta BearerInfo := ltac:(mk_eta).
#[export] Instance set_bi_nominal : Setter bi_nominal_bitrate_bps := ltac:(mk_setter).
#[export] Instance eta_BearerStats : Eta BearerStats := ltac:(mk_eta).
#[export] Instance set_received_packets : Setter received_packets := ltac:(mk_setter).
#[export] Instance set_received_bytes : Setter received_bytes := ltac:(mk_setter).
#[export] Instance set_ingress_drops : Setter ingress_drops := ltac:(mk_setter).
#[export] Instance set_submitted_packets : Setter submitted_packets := ltac:(mk_setter).
#[export] Instance set_submitted_bytes : Setter submitted_bytes := ltac:(mk_setter).
#[export] Instance set_completed_packets : Setter completed_packets := ltac:(mk_setter).
#[export] Instance set_completed_bytes : Setter completed_bytes := ltac:(mk_setter).
#[export] Instance set_send_would_block : Setter send_would_block := ltac:(mk_setter).
#[export] Instance set_send_failures : Setter send_failures := ltac:(mk_setter).
#[export] Instance eta_BearerState : Eta BearerState := ltac:(mk_eta).
#[export] Instance set_enabled_flag : Setter enabled := ltac:(mk_setter).
#[export] Instance set_ready_flag : Setter ready := ltac:(mk_setter).
#[export] Instance set_in_flight : Setter in_flight_packets := ltac:(mk_setter).
#[export] Instance set_measured : Setter measured_bitrate_bps := ltac:(mk_setter).
#[export] Instance set_rb_info P A D : Setter (@rb_info P A D) := fun f b =>
  mkRegisteredBearer (rb_id b) (f (rb_info b)) (rb_state b) (rb_stats b) (rb_egress b) (rb_pending b).
#[export] Instance set_rb_state P A D : Setter (@rb_state P A D) := fun f b =>
  mkRegisteredBearer (rb_id b) (rb_info b) (f (rb_state b)) (rb_stats b) (rb_egress b) (rb_pending b).
#[export] Instance set_rb_stats P A D : Setter (@rb_stats P A D) := fun f b =>
  mkRegisteredBearer (rb_id b) (rb_info b) (rb_state b) (f (rb_stats b)) (rb_egress b) (rb_pending b).
#[export] Instance set_rb_egress P A D : Setter (@rb_egress P A D) := fun f b =>
  mkRegisteredBearer (rb_id b) (rb_info b) (rb_state b) (rb_stats b) (f (rb_egress b)) (rb_pending b).
#[export] Instance set_rb_pending P A D : Setter (@rb_pending P A D) := fun f b =>
  mkRegisteredBearer (rb_id b) (rb_info b) (rb_state b) (rb_stats b) (rb_egress b) (f (rb_pending b)).

Module Bearer.
Section bearer.
Context {P A D : Type} (packet_len : P -> Z).
Context (egress : D -> Z -> EgressSubmission P A -> option (EgressSubmission P A) * D).
Abbreviation bearer := (RegisteredBearer P A D).
Abbreviation submission := (EgressSubmission P A).
Abbreviation completion := (PacketSendCompletion P A).

(** [PacketCompletionToken::complete], [EgressSubmission::complete] *)
Definition token_complete (t : PacketCompletionToken A) (packet : P) (outcome : PacketSendOutcome) (elapsed_us : Z)
    (q : CompletionQueue.CompletionQueue completion) : Prelude.outcome unit (CompletionQueue.CompletionQueue completion) :=
  CompletionQueue.send_completed (mkCompletion (tok_bearer t) packet outcome elapsed_us (tok_acceptance t)) q.

Definition is_ready (b : bearer) : bool := enabled (rb_state b) && ready (rb_state b).
Definition has_pending_submission (b : bearer) : bool := bool_decide (is_Some (rb_pending b)).
Definition can_submit (b : bearer) : bool := is_ready b && negb (has_pending_submission b).

Definition set_enabled (on : bool) (b : bearer) : bearer := b <| rb_state ::= fun s => s <| enabled := on |> |>.
Definition send_ready (b : bearer) : bearer := b <| rb_state ::= fun s => s <| ready := true |> |>.
Definition set_nominal_bitrate_bps (rate : Z) (b : bearer) : bearer :=
  b <| rb_info ::= fun i => i <| bi_nominal_bitrate_bps := rate |> |>.
Definition record_received (len : Z) (b : bearer) : bearer :=
  b <| rb_stats ::= fun s => s <| received_packets ::= fun n => sat_add n 1 |> <| received_bytes ::= fun n => sat_add n len |> |>.
Definition record_ingress_drop (b : bearer) : bearer :=
  b <| rb_stats ::= fun s => s <| ingress_drops ::= fun n => sat_add n 1 |> |>.

(** What [retry] notes of an accepted and of a refused submission. *)
Definition note_accepted (len : Z) (b : bearer) : bearer :=
  b <| rb_state ::= fun s => s <| ready := false |> <| in_flight_packets ::= fun n => sat_add n 1 |> |>
    <| rb_stats ::= fun s => s <| submitted_packets ::= fun n => sat_add n 1 |> <| submitted_bytes ::= fun n => sat_add n len |> |>.
Definition note_blocked (b : bearer) : bearer :=
  b <| rb_state ::= fun s => s <| ready := false |> |>
    <| rb_stats ::= fun s => s <| send_would_block ::= fun n => sat_add n 1 |> |>.

(** [None]: the driver took the packet; else its [WouldBlock]. *)
Definition retry (peer : Z) (s : submission) (b : bearer) : outcome unit (option submission * bearer) :=
  if negb (tok_bearer (sub_completion s) =? rb_id b) then Panic
  else
    let len := packet_len (sub_packet s) in
    let '(r, d) := egress (rb_egress b) peer s in
    let b := b <| rb_egress := d |> in
    match r with
    | None => Ok (None, note_accepted len b)
    | Some s => Ok (Some s, note_blocked b)
    end.

Definition submit (peer : Z) (packet : P) (acceptance : option A) (b : bearer) : outcome unit (option submission * bearer) :=
  retry peer (mkSubmission packet (mkToken (rb_id b) acceptance)) b.

Definition submit_or_retain (peer : Z) (packet : P) (acceptance : option A) (b : bearer) : outcome unit (bool * bearer) :=
  if has_pending_submission b then Panic
  else
    '(r, b) ← submit peer packet acceptance b;
    match r with
    | None => Ok (true, b)
    | Some s => Ok (false, b <| rb_pending := Some (peer, s, acceptance) |>)
    end.

Definition retry_pending (b : bearer) : outcome unit (option A * bearer) :=
  match rb_pending b with
  | None => Ok (None, send_ready b)
  | Some (peer, s, acceptance) =>
      '(r, b) ← retry peer s (send_ready (b <| rb_pending := None |>));
      match r with
      | None => Ok (acceptance, b)
      | Some s => Ok (None, b <| rb_pending := Some (peer, s, acceptance) |>)
      end
  end.

(** The rate of one send, and the measured rate after it. *)
Definition rate_sample (len elapsed_us : Z) : Z := Z.max (sat_mul len 8000000 / elapsed_us) 1.
Definition smooth_rate (measured sample : Z) : Z :=
  if measured =? 0 then sample else sat_add (sat_mul measured 3) sample / 4.

Definition record_completion (success : bool) (len elapsed_us : Z) (b : bearer) : bearer :=
  let b := b <| rb_state ::= fun s => s <| in_flight_packets ::= fun n => sat_sub n 1 |> <| ready := enabled s |> |> in
  if success then
    let b := b <| rb_stats ::= fun s => s <| completed_packets ::= fun n => sat_add n 1 |> <| completed_bytes ::= fun n => sat_add n len |> |> in
    if elapsed_us =? 0 then b
    else b <| rb_state ::= fun s => s <| measured_bitrate_bps ::= fun m => smooth_rate m (rate_sample len elapsed_us) |> |>
  else b <| rb_stats ::= fun s => s <| send_failures ::= fun n => sat_add n 1 |> |>.
End bearer.
End Bearer.

(** ** The registry *)
Module BearerRegistryError.
Inductive t : Type := Full | DuplicateName | IdExhausted.
End BearerRegistryError.

Module AddBearerError.
Inductive t (E : Type) : Type :=
  | Registry (e : BearerRegistryError.t)
  | PacketTooSmall (actual required : Z)
  | Attach (e : E).
Arguments Registry {E}. Arguments PacketTooSmall {E}. Arguments Attach {E}.
End AddBearerError.

Record BearerRegistry (P A D : Type) : Type := mkBearerRegistry {
  br_entries : list (option (RegisteredBearer P A D));
  br_next_id : Z;
}.
Arguments mkBearerRegistry {P A D}. Arguments br_entries {P A D}. Arguments br_next_id {P A D}.

Module Bearers.
Section registry.
Context {P A D : Type} (packet_len : P -> Z).
Abbreviation registry := (BearerRegistry P A D).
Abbreviation bearer := (RegisteredBearer P A D).

(** [entries.iter().flatten()] *)
Definition iter (r : registry) : list bearer := omap id (br_entries r).

(** [assert!(BEARERS <= u16::MAX)] *)
Definition new (BEARERS : Z) : outcome unit registry :=
  if BEARERS <=? U16_MAX then Ok (mkBearerRegistry (replicate (Z.to_nat BEARERS) None) 1) else Panic.

Definition named (name : BearerName) (r : registry) : bool := existsb (fun b => bool_decide (bi_name (rb_info b) = name)) (iter r).

(** [entries.iter().position(Option::is_none)] *)
Definition free_slot (r : registry) : option nat := fst <$> list_find (fun e => ~ is_Some e) (br_entries r).

Definition reserve_id (name : BearerName) (r : registry) : outcome BearerRegistryError.t Z * registry :=
  if named name r then (Err BearerRegistryError.DuplicateName, r)
  else if bool_decide (free_slot r = None) then (Err BearerRegistryError.Full, r)
  else
    match BearerId_new (br_next_id r) with
    | None => (Err BearerRegistryError.IdExhausted, r)
    | Some id =>
        if U16_MAX <? br_next_id r + 1 then (Err BearerRegistryError.IdExhausted, r)
        else (Ok id, mkBearerRegistry (br_entries r) (br_next_id r + 1))
    end.

Definition register (id : Z) (info : BearerInfo) (d : D) (r : registry) : outcome BearerRegistryError.t Z * registry :=
  if named (bi_name info) r then (Err BearerRegistryError.DuplicateName, r)
  else
    match free_slot r with
    | None => (Err BearerRegistryError.Full, r)
    | Some i =>
        (Ok id, mkBearerRegistry
           (<[i := Some (mkRegisteredBearer id info BearerState_new BearerStats_default d None)]> (br_entries r)) (br_next_id r))
    end.

(** The position of a bearer's entry. *)
Definition slot_of (id : Z) (r : registry) : option nat :=
  fst <$> list_find (fun e => rb_id <$> e = Some id) (br_entries r).

Definition get (id : Z) (r : registry) : option bearer := i ← slot_of id r; mjoin (br_entries r !! i).

(** [get_mut(id)] and an update of what it returns. *)
Definition put (id : Z) (b : bearer) (r : registry) : registry :=
  match slot_of id r with
  | Some i => mkBearerRegistry (<[i := Some b]> (br_entries r)) (br_next_id r)
  | None => r
  end.

Definition remove (id : Z) (r : registry) : bool * registry :=
  match slot_of id r with
  | None => (false, r)
  | Some i => (true, mkBearerRegistry (<[i := None]> (br_entries r)) (br_next_id r))
  end.

Definition send_completed (c : PacketSendCompletion P A) (r : registry) : bool * registry :=
  match get (cp_bearer c) r with
  | None => (false, r)
  | Some b =>
      (true, put (cp_bearer c)
         (Bearer.record_completion (bool_decide (cp_outcome c = Sent)) (packet_len (cp_packet c)) (cp_elapsed_us c) b) r)
  end.

(** [QuicNode::register_bearer_ingress]: [attach] is what the bearer's [attach]
    returned when it was given the identifier. *)
Definition register_bearer_ingress {E} (PACKET : Z) (info : BearerInfo) (attach : Z -> option E) (d : D) (r : registry)
    : outcome (AddBearerError.t E) Z * registry :=
  if bi_max_packet_size info <? PACKET then (Err (AddBearerError.PacketTooSmall (bi_max_packet_size info) PACKET), r)
  else
    match reserve_id (bi_name info) r with
    | (Ok id, r) =>
        match attach id with
        | Some e => (Err (AddBearerError.Attach e), r)
        | None =>
            match register id info d r with
            | (Ok id, r) =>
                match get id r with
                | Some b => (Ok id, put id (Bearer.send_ready (Bearer.set_enabled true b)) r)
                | None => (Panic, r)
                end
            | (Err e, r) => (Err (AddBearerError.Registry e), r)
            | (Panic, r) => (Panic, r)
            end
        end
    | (Err e, r) => (Err (AddBearerError.Registry e), r)
    | (Panic, r) => (Panic, r)
    end.

Definition by_name (name : BearerName) (r : registry) : option bearer :=
  snd <$> list_find (fun b => bi_name (rb_info b) = name) (iter r).
End registry.
End Bearers.
