(* ===== verification/BearerSpec.v ===== *)
(** * What the bearer registry promises

    Proofs about [Bearer.v].  [world] is a registry with its completion queue and
    the submissions the drivers hold; [world_step] the calls a node makes and the
    completions the drivers report.  In every reachable world each packet is in one
    place, the in-flight count of a bearer is the number of its packets its driver
    holds or has handed back, and identifiers are unique and never reused. *)

From S2P Require Import Prelude Keyed Records Mailbox MailboxSpec Bearer.

(** ** Names *)
Lemma is_ascii_range s b : is_ascii s = true -> b ∈ s -> b < 128.
Proof. unfold is_ascii. rewrite forallb_forall. intros Hs Hb%list_elem_of_In. specialize (Hs b Hb). lia. Qed.

(** A name is accepted exactly when it has 1 to 16 ASCII bytes; an accepted name
    reads back as it was given, so distinct names are distinct. *)
Theorem bearer_name_roundtrip (name : bytes) :
  (BearerName_new name = None <-> zlen name = 0 \/ 16 < zlen name \/ is_ascii name = false) /\
  forall n, BearerName_new name = Some n ->
    as_str n = Ok name /\ zlen (bn_bytes n) = 16 /\ forall name', BearerName_new name' = Some n -> name' = name.
Proof.
  assert (forall s n, BearerName_new s = Some n -> as_str n = Ok s /\ zlen (bn_bytes n) = 16) as Hread.
  { intros s n. unfold BearerName_new. destruct (_ || _) eqn:Hc; [done|]. intros [= <-].
    apply orb_false_iff in Hc as [[Hz%Z.eqb_neq Hl%Z.ltb_ge]%orb_false_iff _]. unfold as_str. cbn [bn_bytes bn_len].
    rewrite as_u8_small by (unfold U8_MAX; zlia). split.
    - apply slice_Ok. split; [zlia|]. split; [zlia|]. rewrite Z.sub_0_r, to_nat_zlen. change (Z.to_nat 0) with 0%nat.
      by rewrite drop_0, take_app_length.
    - rewrite zlen_app. unfold zlen in *. rewrite length_replicate. lia. }
  split.
  - unfold BearerName_new. destruct (Z.eqb_spec (zlen name) 0), (Z.ltb_spec 16 (zlen name)), (is_ascii name); cbn;
      (split; [intros; try discriminate; auto|intros [?|[?|?]]; try lia; done]).
  - intros n Hn. destruct (Hread _ _ Hn) as [Hr Hl]. split; [done|]. split; [done|].
    intros name' Hn'. destruct (Hread _ _ Hn') as [Hr' _]. rewrite Hr in Hr'. by injection Hr'.
Qed.

(** The measured rate stays between the rate it had and the new sample. *)
Theorem measured_rate_between (measured sample : Z) :
  0 <= measured -> 1 <= sample -> 3 * measured + sample <= U64_MAX ->
  Z.min (if measured =? 0 then sample else measured) sample <= Bearer.smooth_rate measured sample <= Z.max measured sample.
Proof.
  intros Hm Hs Hb. unfold Bearer.smooth_rate. destruct (Z.eqb_spec measured 0) as [->|Hne]; [lia|].
  unfold sat_add, sat_mul. rewrite (Z.min_l (measured * 3)), (Z.min_l (measured * 3 + sample)) by lia. split.
  - apply Z.div_le_lower_bound; lia.
  - apply Z.div_le_upper_bound; lia.
Qed.

(** ** One bearer *)
Section bearer.
Context {P A D : Type} (packet_len : P -> Z).
Context (egress : D -> Z -> EgressSubmission P A -> option (EgressSubmission P A) * D).
(** A refusal returns the unchanged submission. *)
Context (would_block : forall d peer s s' d', egress d peer s = (Some s', d') -> s' = s).
Implicit Types (b : RegisteredBearer P A D) (r : BearerRegistry P A D).

Abbreviation in_flight b := (in_flight_packets (rb_state b)).

Lemma retry_spec peer s b :
  tok_bearer (sub_completion s) = rb_id b ->
  exists res b', Bearer.retry packet_len egress peer s b = Ok (res, b') /\
    rb_id b' = rb_id b /\ rb_info b' = rb_info b /\ rb_pending b' = rb_pending b /\ ready (rb_state b') = false /\
    egress (rb_egress b) peer s = (res, rb_egress b') /\
    match res with
    | None => in_flight b' = sat_add (in_flight b) 1 /\
              submitted_packets (rb_stats b') = sat_add (submitted_packets (rb_stats b)) 1
    | Some s' => s' = s /\ in_flight b' = in_flight b /\
              submitted_packets (rb_stats b') = submitted_packets (rb_stats b)
    end.
Proof.
  intros Ht. unfold Bearer.retry. rewrite Ht, Z.eqb_refl. cbn [negb].
  destruct (egress (rb_egress b) peer s) as [[s'|] d] eqn:He; do 2 eexists; (split; [reflexivity|]); get_set; repeat (split; [done|]).
  - by rewrite (would_block _ _ _ _ _ He).
  - done.
Qed.

Lemma submit_or_retain_spec peer packet acc b :
  rb_pending b = None ->
  exists took b', Bearer.submit_or_retain packet_len egress peer packet acc b = Ok (took, b') /\
    rb_id b' = rb_id b /\ rb_info b' = rb_info b /\
    let s := mkSubmission packet (mkToken (rb_id b) acc) in
    rb_pending b' = (if took then None else Some (peer, s, acc)) /\
    in_flight b' = (if took then sat_add (in_flight b) 1 else in_flight b) /\
    egress (rb_egress b) peer s = (if took then None else Some s, rb_egress b').
Proof.
  intros Hp. unfold Bearer.submit_or_retain, Bearer.submit, Bearer.has_pending_submission.
  rewrite bool_decide_eq_false_2 by (rewrite Hp; by intros [? ?]).
  destruct (retry_spec peer (mkSubmission packet (mkToken (rb_id b) acc)) b eq_refl) as (res & b' & -> & Hid & Hi & Hpn & _ & Hd & Hres).
  cbn [mbind outcome_bind]. destruct res as [s'|].
  - destruct Hres as (-> & Hf & _). exists false. eexists. split; [reflexivity|]. get_set. done.
  - destruct Hres as [Hf _]. exists true. eexists. split; [reflexivity|]. cbv zeta. rewrite Hpn. done.
Qed.

Lemma retry_pending_spec b :
  (forall peer s acc, rb_pending b = Some (peer, s, acc) -> tok_bearer (sub_completion s) = rb_id b) ->
  exists res b', Bearer.retry_pending packet_len egress b = Ok (res, b') /\
    rb_id b' = rb_id b /\ rb_info b' = rb_info b /\
    ((rb_pending b' = rb_pending b /\ res = None /\ in_flight b' = in_flight b /\
      match rb_pending b with
      | None => rb_egress b' = rb_egress b
      | Some (peer, s, _) => egress (rb_egress b) peer s = (Some s, rb_egress b')
      end) \/
     (exists peer s acc, rb_pending b = Some (peer, s, acc) /\ rb_pending b' = None /\ res = acc /\
        in_flight b' = sat_add (in_flight b) 1 /\ egress (rb_egress b) peer s = (None, rb_egress b'))).
Proof.
  intros Ht. unfold Bearer.retry_pending. destruct (rb_pending b) as [[[peer s] acc]|] eqn:Hp.
  - destruct (retry_spec peer s (Bearer.send_ready (b <| rb_pending := None |>))) as (res & b' & -> & Hid & Hi & Hpn & _ & Hd & Hres);
      [by apply (Ht peer s acc)|]. cbn [mbind outcome_bind]. destruct res as [s'|].
    + destruct Hres as (-> & Hf & _). do 2 eexists. split; [reflexivity|]. get_set. split; [done|]. split; [done|]. left. done.
    + destruct Hres as [Hf _]. do 2 eexists. split; [reflexivity|]. split; [done|]. split; [done|]. right.
      exists peer, s, acc. done.
  - do 2 eexists. split; [reflexivity|]. split; [done|]. split; [done|]. by left.
Qed.

Lemma record_completion_spec success len elapsed b :
  let b' := Bearer.record_completion success len elapsed b in
  rb_id b' = rb_id b /\ rb_info b' = rb_info b /\ rb_pending b' = rb_pending b /\
  in_flight b' = sat_sub (in_flight b) 1 /\ ready (rb_state b') = enabled (rb_state b).
Proof. unfold Bearer.record_completion. destruct success; [destruct (elapsed =? 0)|]; done. Qed.

(** ** The table *)
Definition at_entry r (i : nat) b : Prop := br_entries r !! i = Some (Some b).

Record table_ok r : Prop := mkTableOk {
  tb_next : 1 <= br_next_id r <= U16_MAX;
  tb_ids : forall i b, at_entry r i b -> 1 <= rb_id b < br_next_id r;
  tb_unique : forall i j b c, at_entry r i b -> at_entry r j c -> rb_id b = rb_id c -> i = j;
  tb_names : forall i j b c, at_entry r i b -> at_entry r j c -> bi_name (rb_info b) = bi_name (rb_info c) -> i = j;
}.

Lemma bearer_slot_Some id r i : Bearers.slot_of id r = Some i -> exists b, at_entry r i b /\ rb_id b = id.
Proof.
  unfold Bearers.slot_of, at_entry. intros ([j e] & Hf & ->)%fmap_Some. apply list_find_Some in Hf as (He & Hid & _). cbn.
  destruct e as [b|]; [|done]. exists b. split; [done|]. by injection Hid.
Qed.
Lemma slot_of_at id r i b : table_ok r -> at_entry r i b -> rb_id b = id -> Bearers.slot_of id r = Some i.
Proof.
  intros Hr Hb Hid. destruct (Bearers.slot_of id r) as [j|] eqn:Hs.
  - apply bearer_slot_Some in Hs as (c & Hc & Hcid). f_equal. eapply tb_unique; [exact Hr|exact Hc|exact Hb|congruence].
  - exfalso. unfold Bearers.slot_of in Hs. apply fmap_None, list_find_None in Hs. rewrite Forall_lookup in Hs.
    apply (Hs i (Some b)); [exact Hb|]. cbn. by f_equal.
Qed.
Lemma get_Some id r b : Bearers.get id r = Some b <-> exists i, Bearers.slot_of id r = Some i /\ at_entry r i b /\ rb_id b = id.
Proof.
  unfold Bearers.get. split.
  - intros (i & Hs & Hj)%bind_Some. apply bearer_slot_Some in Hs as Hb. destruct Hb as (c & Hc & Hid). exists i. split; [done|].
    unfold at_entry in *. rewrite Hc in Hj |- *. cbn in Hj. injection Hj as ->. done.
  - intros (i & -> & Hb & _). cbn. unfold at_entry in Hb. by rewrite Hb.
Qed.
Lemma get_None id r : Bearers.get id r = None <-> forall i b, at_entry r i b -> rb_id b <> id.
Proof.
  unfold Bearers.get. destruct (Bearers.slot_of id r) as [i|] eqn:Hs.
  - apply bearer_slot_Some in Hs as (b & Hb & Hid). split; [|intros Hall; by destruct (Hall i b Hb)].
    cbn. unfold at_entry in Hb. rewrite Hb. done.
  - split; [|done]. intros _ i b Hb Hid. unfold Bearers.slot_of in Hs. apply fmap_None, list_find_None in Hs. rewrite Forall_lookup in Hs.
    apply (Hs i (Some b)); [exact Hb|]. cbn. by f_equal.
Qed.

Lemma put_at id i b b' r j c : Bearers.slot_of id r = Some i -> at_entry r i b ->
  at_entry (Bearers.put id b' r) j c <-> (j = i /\ c = b') \/ (j <> i /\ at_entry r j c).
Proof.
  intros Hs Hb. unfold Bearers.put, at_entry in *. rewrite Hs. cbn [br_entries]. rewrite list_lookup_insert_Some.
  apply lookup_lt_Some in Hb. naive_solver.
Qed.

Lemma put_ok id i b b' r :
  Bearers.slot_of id r = Some i -> at_entry r i b -> rb_id b' = rb_id b -> bi_name (rb_info b') = bi_name (rb_info b) ->
  table_ok r -> table_ok (Bearers.put id b' r).
Proof.
  intros Hs Hb Hid Hn [Ht Hi Hu Hm].
  assert (br_next_id (Bearers.put id b' r) = br_next_id r) as Hnext by (unfold Bearers.put; by rewrite Hs).
  constructor; rewrite ?Hnext; [done|..].
  - intros j c [[-> ->]|[_ Hc]]%(put_at _ _ _ _ _ _ _ Hs Hb); [rewrite Hid|]; by eapply Hi.
  - intros j k c d [[-> ->]|[Hj Hc]]%(put_at _ _ _ _ _ _ _ Hs Hb) [[-> ->]|[Hk Hd]]%(put_at _ _ _ _ _ _ _ Hs Hb); rewrite ?Hid; intros He; eauto.
  - intros j k c d [[-> ->]|[Hj Hc]]%(put_at _ _ _ _ _ _ _ Hs Hb) [[-> ->]|[Hk Hd]]%(put_at _ _ _ _ _ _ _ Hs Hb); rewrite ?Hn; intros He; eauto.
Qed.

Lemma entry_remove_at id i r j c : Bearers.slot_of id r = Some i ->
  at_entry (Bearers.remove id r).2 j c <-> j <> i /\ at_entry r j c.
Proof.
  intros Hs. unfold Bearers.remove, at_entry. rewrite Hs. cbn [snd br_entries]. rewrite list_lookup_insert_Some. naive_solver.
Qed.
Lemma table_remove_ok id r : table_ok r -> table_ok (Bearers.remove id r).2.
Proof.
  intros Hr. destruct (Bearers.slot_of id r) as [i|] eqn:Hs; [|unfold Bearers.remove; by rewrite Hs].
  destruct Hr as [Ht Hi Hu Hm]. assert (br_next_id (Bearers.remove id r).2 = br_next_id r) as Hnext by (unfold Bearers.remove; by rewrite Hs).
  constructor; rewrite ?Hnext; [done|..].
  - intros j c [_ Hc]%(entry_remove_at _ _ _ _ _ Hs). by eapply Hi.
  - intros j k c d [_ Hc]%(entry_remove_at _ _ _ _ _ Hs) [_ Hd]%(entry_remove_at _ _ _ _ _ Hs). by eapply Hu.
  - intros j k c d [_ Hc]%(entry_remove_at _ _ _ _ _ Hs) [_ Hd]%(entry_remove_at _ _ _ _ _ Hs). by eapply Hm.
Qed.
End bearer.

(** ** Bearers, their drivers and the node *)
Section world.
Context {P A D L : Type} (packet_len : P -> Z) (lease : P -> L).
Context (egress : D -> Z -> EgressSubmission P A -> option (EgressSubmission P A) * D).
Implicit Types (b : RegisteredBearer P A D) (r : BearerRegistry P A D).
Abbreviation in_flight b := (in_flight_packets (rb_state b)).
Abbreviation submission := (EgressSubmission P A).
Abbreviation completion := (PacketSendCompletion P A).

(** What stays the same of a packet from its submission to its completion. *)
Definition tag : Type := (Z * option A * L).
Definition tag_of (s : submission) : tag := (tok_bearer (sub_completion s), tok_acceptance (sub_completion s), lease (sub_packet s)).
Definition done_tag (c : completion) : tag := (cp_bearer c, cp_acceptance c, lease (cp_packet c)).
Definition retained (e : option (RegisteredBearer P A D)) : option tag :=
  b ← e; '(_, s, _) ← rb_pending b; Some (tag_of s).

(** [held]: the submissions drivers took and have not completed. *)
Record world : Type := mkWorld {
  w_registry : BearerRegistry P A D;
  w_queue : CompletionQueue.CompletionQueue completion;
  w_held : list submission;
  w_submitted : list tag;
  w_finished : list tag;
}.

Definition queued (w : world) : list completion := contents (CompletionQueue.completions (w_queue w)).
Definition pending_tags (w : world) : list tag := omap retained (br_entries (w_registry w)).
Definition outstanding (w : world) : list tag := pending_tags w ++ (tag_of <$> w_held w) ++ (done_tag <$> queued w).

Definition with_bearer (id : Z) (b : RegisteredBearer P A D) (w : world) : world :=
  mkWorld (Bearers.put id b (w_registry w)) (w_queue w) (w_held w) (w_submitted w) (w_finished w).

(** The reports and settings that do not move packets; a driver may change at any time. *)
Inductive tuned b : RegisteredBearer P A D -> Prop :=
  | TuneEnabled on : tuned b (Bearer.set_enabled on b)
  | TuneReady : tuned b (Bearer.send_ready b)
  | TuneRate rate : tuned b (Bearer.set_nominal_bitrate_bps rate b)
  | TuneReceived len : tuned b (Bearer.record_received len b)
  | TuneDrop : tuned b (Bearer.record_ingress_drop b)
  | TuneDriver d : tuned b (b <| rb_egress := d |>).

(** A driver watched: it notes the submissions it takes. *)
Definition driver : Type := D * list submission.
Definition watching (d : driver) (peer : Z) (s : submission) : option submission * driver :=
  let '(answer, d') := egress d.1 peer s in
  (answer, (d', match answer with None => d.2 ++ [s] | Some _ => d.2 end)).
Definition watched b : RegisteredBearer P A driver :=
  mkRegisteredBearer (rb_id b) (rb_info b) (rb_state b) (rb_stats b) (rb_egress b, []) (rb_pending b).
Definition unwatched (wb : RegisteredBearer P A driver) : RegisteredBearer P A D :=
  mkRegisteredBearer (rb_id wb) (rb_info wb) (rb_state wb) (rb_stats wb) (rb_egress wb).1 (rb_pending wb).
Definition taken (wb : RegisteredBearer P A driver) : list submission := (rb_egress wb).2.

(** A submission is held once its driver took it, in a call the node made.  No
    more packets are outstanding than [capacity], the slots of the node's pool. *)
Inductive world_step (capacity : nat) (PACKET : Z) (w : world) : world -> Prop :=
  | AddBearer info attach d o r :
      Bearers.register_bearer_ingress (E:=unit) PACKET info attach d (w_registry w) = (o, r) ->
      world_step capacity PACKET w (mkWorld r (w_queue w) (w_held w) (w_submitted w) (w_finished w))
  | RemoveBearer id :
      world_step capacity PACKET w
        (mkWorld (Bearers.remove id (w_registry w)).2 (w_queue w) (w_held w) (w_submitted w)
           (w_finished w ++ option_list (retained (Bearers.get id (w_registry w)))))
  | Submit id b peer packet acc took (b' : RegisteredBearer P A driver) :
      Bearers.get id (w_registry w) = Some b -> Bearer.has_pending_submission b = false ->
      (length (outstanding w) < capacity)%nat ->
      Bearer.submit_or_retain packet_len watching peer packet acc (watched b) = Ok (took, b') ->
      world_step capacity PACKET w
        (mkWorld (Bearers.put id (unwatched b') (w_registry w)) (w_queue w) (w_held w ++ taken b')
           (w_submitted w ++ [tag_of (mkSubmission packet (mkToken id acc))]) (w_finished w))
  | Retry id b res (b' : RegisteredBearer P A driver) :
      Bearers.get id (w_registry w) = Some b ->
      Bearer.retry_pending packet_len watching (watched b) = Ok (res, b') ->
      world_step capacity PACKET w
        (mkWorld (Bearers.put id (unwatched b') (w_registry w)) (w_queue w) (w_held w ++ taken b')
           (w_submitted w) (w_finished w))
  | Complete l1 s l2 packet outcome elapsed q :
      w_held w = l1 ++ s :: l2 -> lease packet = lease (sub_packet s) ->
      Bearer.token_complete (sub_completion s) packet outcome elapsed (w_queue w) = Ok q ->
      world_step capacity PACKET w (mkWorld (w_registry w) q (l1 ++ l2) (w_submitted w) (w_finished w))
  | Deliver c q :
      CompletionQueue.pop_completion (w_queue w) = Ok (Some c, q) ->
      world_step capacity PACKET w
        (mkWorld (Bearers.send_completed packet_len c (w_registry w)).2 q (w_held w) (w_submitted w) (w_finished w ++ [done_tag c]))
  | Tune id b b' :
      Bearers.get id (w_registry w) = Some b -> tuned b b' -> world_step capacity PACKET w (with_bearer id b' w).

(** ** The invariant *)
Definition count (id : Z) (l : list tag) : Z := zsum (fun t => if t.1.1 =? id then 1 else 0) l.

Record world_ok (capacity : nat) (w : world) : Prop := mkWorldOk {
  wo_table : table_ok (w_registry w);
  wo_quiet : quiet (CompletionQueue.completions (w_queue w));
  wo_slots : length (CallbackSlots.slots (CompletionQueue.completions (w_queue w))) = capacity;
  wo_room : (length (outstanding w) <= capacity)%nat;
  wo_known : Forall (fun t => t.1.1 < br_next_id (w_registry w)) (outstanding w);
  wo_pending : forall i b peer s acc, at_entry (w_registry w) i b -> rb_pending b = Some (peer, s, acc) ->
    tok_bearer (sub_completion s) = rb_id b /\ tok_acceptance (sub_completion s) = acc;
  wo_flight : forall i b, at_entry (w_registry w) i b ->
    in_flight b = count (rb_id b) ((tag_of <$> w_held w) ++ (done_tag <$> queued w));
  wo_tags : w_submitted w ≡ₚ outstanding w ++ w_finished w;
}.

Lemma count_app id l k : count id (l ++ k) = count id l + count id k.
Proof. apply zsum_app. Qed.
Lemma count_range id l : 0 <= count id l <= Z.of_nat (length l).
Proof. unfold count. induction l as [|t l IH]; cbn [zsum length]; [lia|]. case_match; lia. Qed.
Lemma count_perm id l k : l ≡ₚ k -> count id l = count id k.
Proof. unfold count. induction 1; cbn [zsum]; lia. Qed.
Lemma count_unknown id l : Forall (fun t => t.1.1 < id) l -> count id l = 0.
Proof.
  unfold count. induction 1 as [|t l Ht _ IH]; [done|]. cbn [zsum].
  destruct (Z.eqb_spec t.1.1 id); lia.
Qed.

(** An update of one entry, on what it retains. *)
Lemma pending_put id i b b' r :
  Bearers.slot_of id r = Some i -> at_entry r i b -> exists R,
  omap retained (br_entries r) ≡ₚ option_list (retained (Some b)) ++ R /\
  omap retained (br_entries (Bearers.put id b' r)) ≡ₚ option_list (retained (Some b')) ++ R /\
  omap retained (br_entries (Bearers.remove id r).2) ≡ₚ R.
Proof.
  intros Hs Hb. destruct (omap_insert retained _ _ _ Hb) as (R & Hl & Hi). exists R. split; [done|].
  unfold Bearers.put, Bearers.remove. rewrite Hs. split; [apply Hi|]. apply (Hi None).
Qed.

Lemma put_next id b r : br_next_id (Bearers.put id b r) = br_next_id r.
Proof. unfold Bearers.put. by destruct (Bearers.slot_of id r). Qed.
Lemma remove_next id r : br_next_id (Bearers.remove id r).2 = br_next_id r.
Proof. unfold Bearers.remove. by destruct (Bearers.slot_of id r). Qed.

(** A bearer replaced by one that retains the same. *)
Lemma world_put capacity w id i b b' :
  world_ok capacity w -> Bearers.slot_of id (w_registry w) = Some i -> at_entry (w_registry w) i b ->
  rb_id b' = rb_id b -> bi_name (rb_info b') = bi_name (rb_info b) -> rb_pending b' = rb_pending b -> in_flight b' = in_flight b ->
  world_ok capacity (with_bearer id b' w).
Proof.
  intros [Ht Hq Hsl Hroom Hk Hp Hf Hv] Hs Hb Hid Hn Hpend Hfl.
  destruct (pending_put id i b b' _ Hs Hb) as (R & H1 & H2 & _).
  assert (retained (Some b') = retained (Some b)) as Hr by (cbn; by rewrite Hpend). rewrite Hr, <- H1 in H2. clear R H1 Hr.
  assert (outstanding (with_bearer id b' w) ≡ₚ outstanding w) as Ho by (unfold outstanding, pending_tags, with_bearer; cbn; by rewrite H2).
  constructor; rewrite ?Ho; cbn [with_bearer w_registry w_queue w_held w_submitted w_finished]; rewrite ?put_next; try done.
  - by eapply put_ok.
  - intros j c peer s acc [[-> ->]|[_ Hc]]%(put_at _ _ _ _ _ _ _ Hs Hb) Hcp.
    + rewrite Hpend in Hcp. rewrite Hid. by eapply Hp.
    + by eapply Hp.
  - intros j c [[-> ->]|[_ Hc]]%(put_at _ _ _ _ _ _ _ Hs Hb).
    + rewrite Hid, Hfl. by eapply Hf.
    + by eapply Hf.
Qed.

(** A bearer replaced by one that retains or hands on other packets. *)
Lemma world_move capacity w id i b b' extra new :
  Z.of_nat capacity <= U64_MAX -> world_ok capacity w ->
  Bearers.slot_of id (w_registry w) = Some i -> at_entry (w_registry w) i b ->
  rb_id b' = rb_id b -> rb_info b' = rb_info b ->
  option_list (retained (Some b')) ++ (tag_of <$> extra) ≡ₚ option_list (retained (Some b)) ++ new ->
  Forall (fun t => t.1.1 = rb_id b) ((tag_of <$> extra) ++ new) ->
  (length (outstanding w) + length new <= capacity)%nat ->
  (forall peer s acc, rb_pending b' = Some (peer, s, acc) -> tok_bearer (sub_completion s) = rb_id b /\ tok_acceptance (sub_completion s) = acc) ->
  in_flight b' = (if decide (extra = []) then in_flight b else sat_add (in_flight b) (Z.of_nat (length extra))) ->
  world_ok capacity (mkWorld (Bearers.put id b' (w_registry w)) (w_queue w) (w_held w ++ extra) (w_submitted w ++ new) (w_finished w)).
Proof.
  intros Hcap [Ht Hq Hsl Hroom Hk Hp Hf Hv] Hs Hb Hid Hn Htags Hown Hlen Hpend Hfl.
  destruct (pending_put id i b b' _ Hs Hb) as (R & H1 & H2 & _). set (w' := mkWorld _ _ _ _ _).
  assert (outstanding w' ≡ₚ outstanding w ++ new) as Ho.
  { unfold outstanding, pending_tags, w', queued. cbn [w_registry w_queue w_held]. rewrite H1, H2, fmap_app.
    set (Q := done_tag <$> _). set (T := tag_of <$> w_held w). set (X := tag_of <$> extra) in *.
    transitivity ((option_list (retained (Some b')) ++ X) ++ R ++ T ++ Q);
      [rewrite <- !app_assoc; f_equiv; rewrite !app_assoc; f_equiv; by rewrite <- (Permutation_app_comm X), app_assoc|].
    rewrite Htags, <- !app_assoc. f_equiv. rewrite (Permutation_app_comm new), <- !app_assoc. done. }
  apply Forall_app in Hown as [Hextra Hnew].
  assert (rb_id b < br_next_id (w_registry w)) as Hlt by (by eapply tb_ids).
  constructor; rewrite ?Ho, ?length_app, ?Forall_app; cbn [w' w_registry w_queue w_held w_submitted w_finished]; rewrite ?put_next; try done.
  - eapply put_ok; [done..|by f_equal|done].
  - split; [done|]. eapply Forall_impl; [exact Hnew|]. cbn. intros t ->. done.
  - intros j c peer s acc [[-> ->]|[_ Hc]]%(put_at _ _ _ _ _ _ _ Hs Hb) Hcp; [rewrite Hid; by eapply Hpend|by eapply Hp].
  - intros j c Hc. change (queued w') with (queued w). rewrite fmap_app, !count_app.
    assert (count (rb_id b) (tag_of <$> extra) = Z.of_nat (length extra)) as Hce.
    { clear -Hextra. unfold count. revert Hextra. induction extra as [|x extra IH]; intros [Hx Hall]%Forall_cons || intros _; [done|].
      cbn [fmap list_fmap zsum length]. rewrite Hx, Z.eqb_refl, (IH Hall). lia. }
    apply (put_at _ _ _ _ _ _ _ Hs Hb) in Hc as [[-> ->]|[Hj Hc]].
    + rewrite Hid, Hfl, Hce. specialize (Hf _ _ Hb). rewrite count_app in Hf. case_decide as He; [subst extra; cbn [length]; lia|].
      assert (Z.of_nat (length (w_held w)) + Z.of_nat (length (queued w)) + Z.of_nat (length extra) <= Z.of_nat capacity).
      { apply Permutation_length in Ho. rewrite length_app in Ho. unfold outstanding at 1 in Ho.
        unfold w', queued in Ho. cbn [w_registry w_queue w_held] in Ho. fold (queued w) in Ho. rewrite !length_app, !length_fmap, length_app in Ho. lia. }
      pose proof (count_range (rb_id b) (tag_of <$> w_held w)). pose proof (count_range (rb_id b) (done_tag <$> queued w)).
      rewrite !length_fmap in *. unfold sat_add. rewrite Z.min_l by lia. lia.
    + assert (count (rb_id c) (tag_of <$> extra) = 0) as ->.
      { assert (rb_id c <> rb_id b) as Hne by (intros He; apply Hj; by eapply tb_unique).
        clear -Hextra Hne. unfold count. induction Hextra as [|x l Hx _ IH]; [done|]. cbn [zsum]. rewrite Hx, IH.
        destruct (Z.eqb_spec (rb_id b) (rb_id c)); [congruence|done]. }
      specialize (Hf _ _ Hc). rewrite count_app in Hf. lia.
  - rewrite Hv, <- !app_assoc. f_equiv. apply Permutation_app_comm.
Qed.

(** ** Adding a bearer *)
Lemma free_slot_spec r i : Bearers.free_slot r = Some i -> br_entries r !! i = Some None.
Proof.
  unfold Bearers.free_slot. intros ([j e] & Hf & ->)%fmap_Some. apply list_find_Some in Hf as (He & Hn & _). cbn.
  destruct e as [b|]; [|done]. exfalso. apply Hn. by eexists.
Qed.
Lemma named_spec name r : Bearers.named name r = false -> forall i b, at_entry r i b -> bi_name (rb_info b) <> name.
Proof.
  unfold Bearers.named, Bearers.iter. intros Hn i b Hb He. apply Bool.not_true_iff_false in Hn. apply Hn.
  apply existsb_exists. exists b. split; [|by apply bool_decide_eq_true]. apply list_elem_of_In, list_elem_of_omap.
  exists (Some b). split; [by eapply list_elem_of_lookup_2|done].
Qed.

(** What [register_bearer_ingress] leaves: the table, the table with one identifier
    spent, or a new bearer under it. *)
Lemma add_bearer_spec {E} PACKET info (attach : Z -> option E) d r o r' :
  table_ok r -> Bearers.register_bearer_ingress PACKET info attach d r = (o, r') ->
  (r' = r /\ exists e, o = Err e) \/
  (br_entries r' = br_entries r /\ (br_next_id r' = br_next_id r + 1 /\ br_next_id r' <= U16_MAX) /\ exists e, o = Err (AddBearerError.Attach e)) \/
  (exists i b, br_entries r !! i = Some None /\ br_entries r' = <[i := Some b]> (br_entries r) /\
     (br_next_id r' = br_next_id r + 1 /\ br_next_id r' <= U16_MAX) /\ o = Ok (br_next_id r) /\ rb_id b = br_next_id r /\ rb_info b = info /\
     rb_pending b = None /\ in_flight b = 0 /\ Bearer.is_ready b = true /\
     forall j c, at_entry r j c -> bi_name (rb_info c) <> bi_name info).
Proof.
  intros [[Hn1 Hn2] Hids _ _]. unfold Bearers.register_bearer_ingress. destruct (_ <? _); [intros [= <- <-]; left; eauto|].
  unfold Bearers.reserve_id. destruct (Bearers.named _ r) eqn:Hnm; [intros [= <- <-]; left; eauto|].
  destruct (Bearers.free_slot r) as [i|] eqn:Hfree; [|rewrite bool_decide_eq_true_2 by done; intros [= <- <-]; left; eauto].
  rewrite bool_decide_eq_false_2 by done. unfold BearerId_new. rewrite (proj2 (Z.eqb_neq _ 0)) by lia.
  destruct (Z.ltb_spec U16_MAX (br_next_id r + 1)); [intros [= <- <-]; left; eauto|].
  destruct (attach (br_next_id r)) as [e|]; [intros [= <- <-]; right; left; split; [done|]; split; [by cbn|eauto]|].
  unfold Bearers.register. change (Bearers.named (bi_name info) (mkBearerRegistry (br_entries r) (br_next_id r + 1))) with (Bearers.named (bi_name info) r).
  change (Bearers.free_slot (mkBearerRegistry (br_entries r) (br_next_id r + 1))) with (Bearers.free_slot r). rewrite Hnm, Hfree. cbn [br_entries br_next_id].
  set (b0 := mkRegisteredBearer _ _ _ _ _ _). set (r1 := mkBearerRegistry (<[i := Some b0]> (br_entries r)) (br_next_id r + 1)).
  pose proof (free_slot_spec r i Hfree) as Hi. pose proof (lookup_lt_Some _ _ _ Hi) as Hlt.
  assert (at_entry r1 i b0) as Hb0 by (unfold at_entry, r1; cbn; by rewrite list_lookup_insert_eq).
  assert (Bearers.slot_of (br_next_id r) r1 = Some i) as Hs.
  { destruct (Bearers.slot_of (br_next_id r) r1) as [j|] eqn:Hj.
    - apply bearer_slot_Some in Hj as (c & Hc & Hcid). unfold at_entry, r1 in Hc. cbn in Hc.
      apply list_lookup_insert_Some in Hc as [(-> & _)|[_ Hc]]; [done|]. specialize (Hids j c Hc). lia.
    - exfalso. unfold Bearers.slot_of in Hj. apply fmap_None, list_find_None in Hj. rewrite Forall_lookup in Hj.
      by apply (Hj i (Some b0)). }
  assert (Bearers.get (br_next_id r) r1 = Some b0) as -> by (apply get_Some; by exists i).
  intros [= <- <-]. right. right. exists i. eexists. split; [done|]. unfold Bearers.put. rewrite Hs. cbn [r1 br_entries br_next_id].
  rewrite list_insert_insert_eq. split; [reflexivity|]. repeat (split; [done|]). by apply named_spec.
Qed.

Lemma world_add {E} capacity w r o PACKET info (attach : Z -> option E) d :
  world_ok capacity w -> Bearers.register_bearer_ingress PACKET info attach d (w_registry w) = (o, r) ->
  world_ok capacity (mkWorld r (w_queue w) (w_held w) (w_submitted w) (w_finished w)).
Proof.
  intros [Ht Hq Hsl Hroom Hk Hp Hf Hv] Hadd. pose proof (add_bearer_spec _ _ _ _ _ _ _ Ht Hadd) as Hr.
  destruct Hr as [[-> _]|[(He & [Hn Hmax] & _)|(i & b & Hi & He & [Hn Hmax] & _ & Hbid & Hbi & Hbp & Hbf & _ & Hfresh)]].
  - by constructor.
  - constructor; cbn; try done.
    + destruct Ht as [? Hids Hu Hm]. constructor; unfold at_entry; rewrite ?He, ?Hn; [lia| |done|done].
      intros j c Hc. specialize (Hids j c Hc). lia.
    + unfold outstanding, pending_tags in Hroom |- *. cbn. by rewrite He.
    + unfold outstanding, pending_tags in Hk |- *. cbn. rewrite He, Hn. eapply Forall_impl; [exact Hk|]. cbn. lia.
    + intros j c. unfold at_entry. rewrite He. apply Hp.
    + intros j c. unfold at_entry. rewrite He. apply Hf.
    + unfold outstanding, pending_tags in Hv |- *. cbn. by rewrite He.
  - pose proof (lookup_lt_Some _ _ _ Hi) as Hlt.
    assert (forall j c, at_entry r j c <-> (j = i /\ c = b) \/ (j <> i /\ at_entry (w_registry w) j c)) as Hat.
    { intros j c. unfold at_entry. rewrite He, list_lookup_insert_Some. naive_solver. }
    assert (outstanding (mkWorld r (w_queue w) (w_held w) (w_submitted w) (w_finished w)) ≡ₚ outstanding w) as Ho.
    { unfold outstanding, pending_tags. cbn. destruct (omap_insert retained _ _ _ Hi) as (R & H1 & H2).
      rewrite He, H1, (H2 (Some b)). cbn. by rewrite Hbp. }
    constructor; rewrite ?Ho; cbn [w_registry w_queue w_held w_submitted w_finished]; rewrite ?Hn; try done.
    + destruct Ht as [? Hids Hu Hm]. constructor; rewrite ?Hn; [lia|..].
      * intros j c [[-> ->]|[_ Hc]]%Hat; [lia|]. specialize (Hids j c Hc). lia.
      * intros j k c c' [[-> ->]|[_ Hc]]%Hat [[-> ->]|[_ Hc']]%Hat Heq; [done| | |by eapply Hu].
        -- specialize (Hids k c' Hc'). lia.
        -- specialize (Hids j c Hc). lia.
      * intros j k c c' [[-> ->]|[_ Hc]]%Hat [[-> ->]|[_ Hc']]%Hat Heq; [done| | |by eapply Hm].
        -- by destruct (Hfresh k c' Hc'); rewrite <- Hbi.
        -- by destruct (Hfresh j c Hc); rewrite <- Hbi.
    + eapply Forall_impl; [exact Hk|]. cbn. lia.
    + intros j c peer s acc [[-> ->]|[_ Hc]]%Hat; [by rewrite Hbp|by eapply Hp].
    + intros j c [[-> ->]|[_ Hc]]%Hat; [|by eapply Hf]. rewrite Hbf, Hbid. symmetry. apply count_unknown.
      unfold outstanding in Hk. apply Forall_app in Hk as [_ Hk]. exact Hk.
Qed.

(** ** The other steps *)
Lemma world_remove capacity w id :
  world_ok capacity w ->
  world_ok capacity (mkWorld (Bearers.remove id (w_registry w)).2 (w_queue w) (w_held w) (w_submitted w)
                       (w_finished w ++ option_list (retained (Bearers.get id (w_registry w))))).
Proof.
  intros Hw. pose proof Hw as [Ht Hq Hsl Hroom Hk Hp Hf Hv]. destruct (Bearers.slot_of id (w_registry w)) as [i|] eqn:Hs.
  - destruct (bearer_slot_Some _ _ _ Hs) as (b & Hb & Hid). assert (Bearers.get id (w_registry w) = Some b) as Hg by (apply get_Some; eauto).
    destruct (pending_put id i b b _ Hs Hb) as (R & H1 & _ & H3). rewrite Hg. set (w' := mkWorld _ _ _ _ _).
    assert (outstanding w ≡ₚ outstanding w' ++ option_list (retained (Some b))) as Ho.
    { unfold outstanding, pending_tags, w', queued. cbn [w_registry w_queue w_held]. rewrite H1, H3, <- !app_assoc.
      rewrite (Permutation_app_comm (option_list _)). by rewrite <- !app_assoc. }
    rewrite Ho in Hroom, Hk, Hv. rewrite length_app in Hroom. apply Forall_app in Hk as [Hk _].
    constructor; cbn [w' w_registry w_queue w_held w_submitted w_finished]; rewrite ?remove_next; try done.
    + by apply table_remove_ok.
    + fold w'. lia.
    + intros j c peer s acc [_ Hc]%(entry_remove_at _ _ _ _ _ Hs). by eapply Hp.
    + intros j c [_ Hc]%(entry_remove_at _ _ _ _ _ Hs). by eapply Hf.
    + fold w'. rewrite Hv, <- !app_assoc. f_equiv. apply Permutation_app_comm.
  - assert (Bearers.get id (w_registry w) = None) as -> by (unfold Bearers.get; by rewrite Hs).
    unfold Bearers.remove. rewrite Hs. cbn. rewrite app_nil_r. by destruct w.
Qed.

Lemma queued_push w c q :
  quiet (CompletionQueue.completions (w_queue w)) ->
  CompletionQueue.send_completed c (w_queue w) = Ok q ->
  quiet (CompletionQueue.completions q) /\ contents (CompletionQueue.completions q) ≡ₚ c :: queued w /\
  length (CallbackSlots.slots (CompletionQueue.completions q)) = length (CallbackSlots.slots (CompletionQueue.completions (w_queue w))).
Proof.
  intros Hq. unfold CompletionQueue.send_completed. pose proof (push_call c _ Hq) as Hp.
  destruct (CallbackSlots.push c _) as [k| |]; [|done..]. intros [= <-]. apply Hp.
Qed.

Lemma world_complete capacity w l1 s l2 packet outcome elapsed q :
  world_ok capacity w -> w_held w = l1 ++ s :: l2 -> lease packet = lease (sub_packet s) ->
  Bearer.token_complete (sub_completion s) packet outcome elapsed (w_queue w) = Ok q ->
  world_ok capacity (mkWorld (w_registry w) q (l1 ++ l2) (w_submitted w) (w_finished w)).
Proof.
  intros [Ht Hq Hsl Hroom Hk Hp Hf Hv] Hheld Hlease Hc. apply queued_push in Hc as (Hq' & Hcont & Hlen); [|done].
  set (c := mkCompletion _ _ _ _ _) in *. set (w' := mkWorld _ _ _ _ _).
  assert (done_tag c = tag_of s) as Htag by (unfold done_tag, tag_of; cbn; by rewrite Hlease).
  assert ((tag_of <$> w_held w') ++ (done_tag <$> queued w') ≡ₚ (tag_of <$> w_held w) ++ (done_tag <$> queued w)) as Hrest.
  { unfold w', queued at 1. cbn [w_held w_queue]. rewrite Hcont, Hheld, !fmap_app. cbn [fmap list_fmap].
    rewrite Htag, <- !app_assoc. f_equiv. cbn. by rewrite <- Permutation_middle. }
  assert (outstanding w' ≡ₚ outstanding w) as Ho by (unfold outstanding; by rewrite Hrest).
  constructor; rewrite ?Ho; try done.
  - cbn. congruence.
  - intros i b Hb. rewrite (count_perm _ _ _ Hrest). by eapply Hf.
Qed.

Lemma world_deliver capacity w c q :
  world_ok capacity w -> CompletionQueue.pop_completion (w_queue w) = Ok (Some c, q) ->
  world_ok capacity (mkWorld (Bearers.send_completed packet_len c (w_registry w)).2 q (w_held w) (w_submitted w) (w_finished w ++ [done_tag c])).
Proof.
  intros [Ht Hq Hsl Hroom Hk Hp Hf Hv]. unfold CompletionQueue.pop_completion. pose proof (pop_call _ Hq) as Hpop.
  destruct (CallbackSlots.pop _) as [[[c'|] k]| |]; try done. destruct Hpop as (Hq' & Hcont & Hlen). intros [= -> <-].
  set (r' := (Bearers.send_completed packet_len c (w_registry w)).2).
  assert (br_next_id r' = br_next_id (w_registry w) /\ omap retained (br_entries r') ≡ₚ omap retained (br_entries (w_registry w)) /\ table_ok r' /\
    forall j b', at_entry r' j b' -> exists b, at_entry (w_registry w) j b /\ rb_id b' = rb_id b /\ rb_pending b' = rb_pending b /\
      in_flight b' = (if cp_bearer c =? rb_id b then sat_sub (in_flight b) 1 else in_flight b)) as (Hn & Hret & Ht' & Hat).
  { unfold r', Bearers.send_completed. destruct (Bearers.get (cp_bearer c) (w_registry w)) as [b|] eqn:Hg; cbn [snd].
    - apply get_Some in Hg as (i & Hs & Hb & Hid). set (b1 := Bearer.record_completion _ _ _ b).
      destruct (record_completion_spec (bool_decide (cp_outcome c = Sent)) (packet_len (cp_packet c)) (cp_elapsed_us c) b) as (H1 & H2 & H3 & H4 & _).
      fold b1 in H1, H2, H3, H4. split; [apply put_next|]. split; [|split].
      + destruct (pending_put _ i b b1 _ Hs Hb) as (R & Hr1 & Hr2 & _). rewrite Hr1, Hr2. cbn. by rewrite H3.
      + eapply put_ok; [done..|by f_equal|done].
      + intros j b' [[-> ->]|[Hj Hb']]%(put_at _ _ _ _ _ _ _ Hs Hb).
        * exists b. by rewrite H4, (proj2 (Z.eqb_eq _ _) (eq_sym Hid)).
        * exists b'. rewrite (proj2 (Z.eqb_neq _ _)); [done|]. intros He. apply Hj. eapply tb_unique; [done|exact Hb'|exact Hb|congruence].
    - split; [done|]. split; [done|]. split; [done|]. intros j b' Hb'. exists b'. rewrite (proj2 (Z.eqb_neq _ _)); [done|].
      rewrite get_None in Hg. intros He. by destruct (Hg j b' Hb'). }
  clearbody r'. set (w' := mkWorld _ _ _ _ _).
  assert (queued w ≡ₚ c :: queued w') as Hqd by exact Hcont.
  assert (outstanding w ≡ₚ outstanding w' ++ [done_tag c]) as Ho.
  { unfold outstanding, pending_tags, w' at 1 2. cbn [w_registry w_held]. rewrite Hret, Hqd. cbn [fmap list_fmap].
    rewrite <- !app_assoc. f_equiv. f_equiv. apply Permutation_cons_append. }
  rewrite Ho in Hroom, Hk, Hv. rewrite length_app in Hroom. apply Forall_app in Hk as [Hk _].
  constructor; cbn [w' w_registry w_queue w_held w_submitted w_finished CompletionQueue.completions]; fold w'; rewrite ?Hn; try done.
  - congruence.
  - lia.
  - intros j b' peer s acc Hb' Hpd. destruct (Hat j b' Hb') as (b & Hb & Hid & Hpe & _). rewrite Hid. eapply Hp; [exact Hb|by rewrite <- Hpe].
  - intros j b' Hb'. destruct (Hat j b' Hb') as (b & Hb & Hid & _ & Hfl). specialize (Hf j b Hb).
    rewrite (count_perm _ _ ((tag_of <$> w_held w) ++ done_tag c :: (done_tag <$> queued w'))) in Hf by (by rewrite Hqd).
    unfold count in Hf |- *. rewrite zsum_mid in Hf. rewrite zsum_app, Hid. cbn [done_tag fst] in Hf.
    pose proof (count_range (rb_id b) (tag_of <$> w_held w)). pose proof (count_range (rb_id b) (done_tag <$> queued w')). unfold count in *.
    rewrite Hfl. destruct (cp_bearer c =? rb_id b); [unfold sat_sub; rewrite Z.max_l|]; lia.
  - rewrite Hv, <- !app_assoc. f_equiv. apply Permutation_app_comm.
Qed.

(** ** Runs *)
Context (would_block : forall d peer s s' d', egress d peer s = (Some s', d') -> s' = s).

Lemma tuned_same b b' : tuned b b' ->
  rb_id b' = rb_id b /\ bi_name (rb_info b') = bi_name (rb_info b) /\ rb_pending b' = rb_pending b /\ in_flight b' = in_flight b.
Proof. by destruct 1. Qed.

Lemma has_pending_none b : Bearer.has_pending_submission b = false -> rb_pending b = None.
Proof. unfold Bearer.has_pending_submission. intros Hp%bool_decide_eq_false. by apply eq_None_not_Some. Qed.

Lemma watching_would_block d peer s s' d' : watching d peer s = (Some s', d') -> s' = s.
Proof. unfold watching. destruct (egress d.1 peer s) as [[x|] d1] eqn:He; [|done]. intros [= <- _]. by eapply would_block. Qed.

(** What a watched driver notes of one call. *)
Lemma watching_run d peer s answer d' :
  watching (d, []) peer s = (answer, d') ->
  egress d peer s = (answer, d'.1) /\ d'.2 = (if answer then [] else [s]).
Proof. unfold watching. cbn. destruct (egress d peer s) as [[x|] d1]; by intros [= <- <-]. Qed.

Lemma watched_submit b peer packet acc :
  rb_pending b = None ->
  exists took (b' : RegisteredBearer P A driver), Bearer.submit_or_retain packet_len watching peer packet acc (watched b) = Ok (took, b') /\
    rb_id b' = rb_id b /\ rb_info b' = rb_info b /\
    let s := mkSubmission packet (mkToken (rb_id b) acc) in
    rb_pending b' = (if took then None else Some (peer, s, acc)) /\
    in_flight b' = (if took then sat_add (in_flight b) 1 else in_flight b) /\
    taken b' = (if took then [s] else []).
Proof.
  intros Hp. destruct (submit_or_retain_spec packet_len watching watching_would_block peer packet acc (watched b) Hp)
    as (took & b' & Heq & H1 & H2 & H3 & H4 & H5). exists took, b'. do 3 (split; [done|]).
  apply watching_run in H5 as [_ H5]. split; [done|]. split; [done|]. unfold taken. rewrite H5. by destruct took.
Qed.

Lemma watched_retry b :
  (forall peer s acc, rb_pending b = Some (peer, s, acc) -> tok_bearer (sub_completion s) = rb_id b) ->
  exists res (b' : RegisteredBearer P A driver), Bearer.retry_pending packet_len watching (watched b) = Ok (res, b') /\
    rb_id b' = rb_id b /\ rb_info b' = rb_info b /\
    ((rb_pending b' = rb_pending b /\ in_flight b' = in_flight b /\ taken b' = []) \/
     (exists peer s acc, rb_pending b = Some (peer, s, acc) /\ rb_pending b' = None /\
        in_flight b' = sat_add (in_flight b) 1 /\ taken b' = [s] /\ (egress (rb_egress b) peer s).1 = None)).
Proof.
  intros Ht. destruct (retry_pending_spec packet_len watching watching_would_block (watched b) Ht) as (res & b' & Heq & H1 & H2 & H3).
  exists res, b'. do 3 (split; [done|]). destruct H3 as [(H3 & _ & H4 & Hd)|(peer & s & acc & Hp & H3 & _ & H4 & Hd)].
  - left. split; [done|]. split; [done|]. change (rb_pending (watched b)) with (rb_pending b) in Hd. unfold taken.
    destruct (rb_pending b) as [[[peer s] acc]|]; [by apply watching_run in Hd as [_ ->]|by rewrite Hd].
  - right. apply watching_run in Hd as [He Hd]. exists peer, s, acc. do 4 (split; [done|]). by rewrite He.
Qed.

Lemma world_submit capacity w id b peer packet acc took (b' : RegisteredBearer P A driver) :
  Z.of_nat capacity <= U64_MAX -> world_ok capacity w -> Bearers.get id (w_registry w) = Some b ->
  Bearer.has_pending_submission b = false -> (length (outstanding w) < capacity)%nat ->
  Bearer.submit_or_retain packet_len watching peer packet acc (watched b) = Ok (took, b') ->
  world_ok capacity (mkWorld (Bearers.put id (unwatched b') (w_registry w)) (w_queue w) (w_held w ++ taken b')
                       (w_submitted w ++ [tag_of (mkSubmission packet (mkToken id acc))]) (w_finished w)).
Proof.
  intros Hcap Hw (i & Hs & Hb & Hid)%get_Some Hp%has_pending_none Hroom Hsub. set (s := mkSubmission packet _).
  destruct (watched_submit b peer packet acc Hp) as (took1 & b1 & Heq & H1 & H2 & H3 & H4 & H5).
  rewrite Heq in Hsub. injection Hsub as -> ->. rewrite Hid in H3, H5. fold s in H3, H5. rewrite H5.
  apply (world_move capacity w id i b (unwatched b') _ _ Hcap Hw Hs Hb H1 H2); cbn [unwatched rb_pending rb_state].
  - cbn [retained mbind option_bind unwatched rb_pending]. rewrite Hp, H3. by destruct took.
  - subst id. destruct took; by repeat constructor.
  - cbn. lia.
  - intros p0 s0 a0. rewrite H3. destruct took; [done|]. intros [= <- <- <-]. by rewrite Hid.
  - rewrite H4. by destruct took.
Qed.

Lemma world_retry capacity w id b res (b' : RegisteredBearer P A driver) :
  Z.of_nat capacity <= U64_MAX -> world_ok capacity w -> Bearers.get id (w_registry w) = Some b ->
  Bearer.retry_pending packet_len watching (watched b) = Ok (res, b') ->
  world_ok capacity (mkWorld (Bearers.put id (unwatched b') (w_registry w)) (w_queue w) (w_held w ++ taken b')
    (w_submitted w) (w_finished w)).
Proof.
  intros Hcap Hw (i & Hs & Hb & Hid)%get_Some Hretry. pose proof (wo_pending _ _ Hw i b) as Hp.
  destruct (watched_retry b) as (res1 & b1 & Heq & H1 & H2 & H3);
    [intros peer s acc Hpd; by destruct (Hp peer s acc Hb Hpd)|].
  rewrite Heq in Hretry. injection Hretry as -> ->. rewrite <- (app_nil_r (w_submitted w)).
  apply (world_move capacity w id i b (unwatched b') _ _ Hcap Hw Hs Hb H1 H2); rewrite ?app_nil_r.
  - cbn [retained mbind option_bind unwatched rb_pending].
    destruct H3 as [(-> & _ & ->)|(peer & s & acc & -> & -> & _ & -> & _)]; [by rewrite app_nil_r|done].
  - destruct H3 as [(_ & _ & ->)|(peer & s & acc & Hpd & _ & _ & -> & _)]; [constructor|].
    destruct (Hp _ _ _ Hb Hpd) as [Ht _]. by repeat constructor.
  - cbn. pose proof (wo_room _ _ Hw). lia.
  - cbn [unwatched rb_pending]. intros peer s acc.
    destruct H3 as [(-> & _ & _)|(peer1 & s1 & acc1 & Hpd & -> & _ & _)]; [|done]. by apply Hp.
  - cbn [unwatched rb_state]. destruct H3 as [(_ & -> & ->)|(peer & s & acc & _ & _ & -> & -> & _)]; [by rewrite decide_True|by rewrite decide_False].
Qed.

Lemma world_steps capacity PACKET w w' :
  Z.of_nat capacity <= U64_MAX -> world_ok capacity w -> world_step capacity PACKET w w' -> world_ok capacity w'.
Proof.
  intros Hcap Hw Hstep.
  destruct Hstep as [info attach d o r Hadd|id|id b peer packet acc took b' Hg Hp Hroom Hsub|id b res b' Hg Hr
                    |l1 s l2 packet outcome elapsed q Hh Hl Hc|c q Hpop|id b b' Hg Ht].
  - by eapply world_add.
  - by apply world_remove.
  - by eapply world_submit.
  - by eapply world_retry.
  - by eapply world_complete.
  - by eapply world_deliver.
  - apply get_Some in Hg as (i & Hs & Hb & _). apply tuned_same in Ht as (? & ? & ? & ?). by eapply world_put.
Qed.

(** A node with no bearers yet. *)
Definition first_world (BEARERS : Z) (capacity : nat) (w : world) : Prop :=
  exists r q, Bearers.new BEARERS = Ok r /\ CompletionQueue.new capacity = Ok q /\ w = mkWorld r q [] [] [].

Definition reachable_world (BEARERS : Z) (capacity : nat) (PACKET : Z) (w : world) : Prop :=
  Z.of_nat capacity <= U64_MAX /\ exists w0, first_world BEARERS capacity w0 /\ rtc (world_step capacity PACKET) w0 w.

Lemma first_world_ok BEARERS capacity w : first_world BEARERS capacity w -> world_ok capacity w.
Proof.
  intros (r & q & Hr & Hq & ->). unfold Bearers.new in Hr. destruct (_ <=? _); [|done]. injection Hr as <-.
  unfold CompletionQueue.new in Hq. destruct (_ =? _)%nat; [done|]. injection Hq as <-.
  assert (forall n, omap retained (replicate n None) = []) as Hnone by (intros n; by induction n).
  assert (forall n, contents (CallbackSlots.new (T:=completion) n) = []) as Hempty
    by (intros n; unfold contents, CallbackSlots.new; cbn; by induction n).
  assert (forall n i b, at_entry (mkBearerRegistry (replicate n None) 1) i b -> False) as Hno.
  { intros n i b Hb. unfold at_entry in Hb. cbn in Hb. by apply lookup_replicate in Hb as [? _]. }
  assert (outstanding (mkWorld (mkBearerRegistry (replicate (Z.to_nat BEARERS) None) 1)
            (CompletionQueue.mkCompletionQueue (CallbackSlots.new capacity) (replicate capacity 0)) [] [] []) = []) as Ho.
  { unfold outstanding, pending_tags, queued. cbn [w_registry w_held w_queue br_entries CompletionQueue.completions]. by rewrite Hnone, Hempty. }
  constructor; rewrite ?Ho; cbn [w_registry w_queue w_held w_submitted w_finished CompletionQueue.completions]; try done.
  - constructor; cbn; [unfold U16_MAX; lia|..]; intros; exfalso; by eapply Hno.
  - apply quiet_new.
  - unfold CallbackSlots.new. cbn. apply length_replicate.
  - cbn. lia.
  - intros i b peer s acc Hb. exfalso. by eapply Hno.
  - intros i b Hb. exfalso. by eapply Hno.
Qed.

Lemma world_reachable BEARERS capacity PACKET w : reachable_world BEARERS capacity PACKET w -> world_ok capacity w.
Proof.
  intros (Hcap & w0 & Hf & Hrun). apply first_world_ok in Hf. induction Hrun as [|w1 w2 w3 Hs _ IH]; [done|].
  apply IH. by eapply world_steps.
Qed.

(** *** Identifiers *)
Lemma send_completed_ids c r :
  br_next_id (Bearers.send_completed packet_len c r).2 = br_next_id r /\
  forall j b', at_entry (Bearers.send_completed packet_len c r).2 j b' -> exists b, at_entry r j b /\ rb_id b' = rb_id b.
Proof.
  unfold Bearers.send_completed. destruct (Bearers.get (cp_bearer c) r) as [b|] eqn:Hg; cbn [snd]; [|by split; [|eauto]].
  apply get_Some in Hg as (i & Hs & Hb & Hid). split; [apply put_next|].
  intros j b' [[-> ->]|[Hj Hb']]%(put_at _ _ _ _ _ _ _ Hs Hb); [|by eauto]. exists b. split; [done|]. apply record_completion_spec.
Qed.

Lemma put_ids id b b' r j c : Bearers.get id r = Some b -> rb_id b' = rb_id b ->
  at_entry (Bearers.put id b' r) j c -> exists c0, at_entry r j c0 /\ rb_id c = rb_id c0.
Proof.
  intros (i & Hs & Hb & Hid)%get_Some He [[-> ->]|[_ Hc]]%(put_at _ _ _ _ _ _ _ Hs Hb); eauto.
Qed.

(** The identifiers a step leaves registered were so, or are new. *)
Lemma step_ids capacity PACKET w w' : world_ok capacity w -> world_step capacity PACKET w w' ->
  br_next_id (w_registry w) <= br_next_id (w_registry w') /\
  forall j b', at_entry (w_registry w') j b' ->
    (exists b, at_entry (w_registry w) j b /\ rb_id b' = rb_id b) \/ br_next_id (w_registry w) <= rb_id b'.
Proof.
  intros [Ht Hq Hsl Hroom Hk Hp Hf Hv] Hstep.
  destruct Hstep as [info attach d o r Hadd|id|id b peer packet acc took b' Hg Hpd _ Hsub|id b res b' Hg Hr
                    |l1 s l2 packet outcome elapsed q Hh Hl Hc|c q Hpop|id b b' Hg Htn]; cbn [w_registry with_bearer]; rewrite ?put_next, ?remove_next.
  - pose proof (add_bearer_spec _ _ _ _ _ _ _ Ht Hadd) as Hr.
    destruct Hr as [[-> _]|[(He & [Hn _] & _)|(i & b & Hi & He & [Hn _] & _ & Hbid & _)]].
    + split; [done|]. eauto.
    + split; [lia|]. intros j b'. unfold at_entry. rewrite He. eauto.
    + split; [lia|]. intros j b'. unfold at_entry. rewrite He, list_lookup_insert_Some.
      intros [(-> & [= <-] & _)|[_ Hb']]; [right; lia|eauto].
  - split; [done|]. intros j b' Hb'. destruct (Bearers.slot_of id (w_registry w)) as [i|] eqn:Hs.
    + destruct (proj1 (entry_remove_at _ _ _ _ _ Hs) Hb') as [_ Hb2]. eauto.
    + unfold Bearers.remove in Hb'. rewrite Hs in Hb'. eauto.
  - split; [done|]. intros j c Hc. left. apply has_pending_none in Hpd.
    destruct (watched_submit b peer packet acc Hpd) as (took1 & b1 & Heq & H1 & _).
    rewrite Heq in Hsub. injection Hsub as -> ->. exact (put_ids id b (unwatched b') _ j c Hg H1 Hc).
  - split; [done|]. intros j c Hc. left. pose proof Hg as (i & Hs & Hb & Hid)%get_Some.
    destruct (watched_retry b) as (res1 & b1 & Heq & H1 & _);
      [intros peer s acc Hpdg; by destruct (Hp i b peer s acc Hb Hpdg)|].
    rewrite Heq in Hr. injection Hr as -> ->. exact (put_ids id b (unwatched b') _ j c Hg H1 Hc).
  - split; [done|]. eauto.
  - destruct (send_completed_ids c (w_registry w)) as [-> Hat]. split; [done|]. intros j b' Hb'. left. by apply Hat.
  - split; [done|]. intros j c Hc. left. apply tuned_same in Htn as (Hid & _). by eapply put_ids.
Qed.

(** C17: every packet submitted is in one place: retained by its bearer, held by its
    driver, in the completion queue, or finished; and the in-flight count of a
    bearer is exactly the number of its packets that are held or queued. *)
Theorem packets_accounted BEARERS capacity PACKET w :
  reachable_world BEARERS capacity PACKET w ->
  w_submitted w ≡ₚ pending_tags w ++ (tag_of <$> w_held w) ++ (done_tag <$> queued w) ++ w_finished w /\
  forall id b, Bearers.get id (w_registry w) = Some b ->
    in_flight b = count id (tag_of <$> w_held w) + count id (done_tag <$> queued w).
Proof.
  intros Hw%world_reachable. split.
  - rewrite (wo_tags _ _ Hw). unfold outstanding. by rewrite <- !app_assoc.
  - intros id b (i & _ & Hb & <-)%get_Some. by rewrite (wo_flight _ _ Hw i b Hb), count_app.
Qed.

(** C21: while no more packets are outstanding than the pool has slots no assertion
    of the registry or the completion queue fails: bearers can be added, packets
    submitted past an idle bearer and retried, every held packet completed and every
    completion taken. *)
Theorem node_calls_total BEARERS capacity PACKET w :
  reachable_world BEARERS capacity PACKET w ->
  (forall E info (attach : Z -> option E) d, (Bearers.register_bearer_ingress PACKET info attach d (w_registry w)).1 <> Panic) /\
  (forall id b, Bearers.get id (w_registry w) = Some b ->
     Bearer.retry_pending packet_len egress b <> Panic /\
     (Bearer.has_pending_submission b = false -> forall peer packet acc, Bearer.submit_or_retain packet_len egress peer packet acc b <> Panic)) /\
  (forall s packet outcome elapsed, s ∈ w_held w -> exists q, Bearer.token_complete (sub_completion s) packet outcome elapsed (w_queue w) = Ok q) /\
  CompletionQueue.pop_completion (w_queue w) <> Panic.
Proof.
  intros [Ht Hq Hsl Hroom Hk Hp Hf Hv]%world_reachable. split; [|split; [|split]].
  - intros E info attach d. destruct (Bearers.register_bearer_ingress _ _ _ _ _) as [o r] eqn:Hadd.
    apply add_bearer_spec in Hadd as [[_ [e ->]]|[(_ & _ & e & ->)|(i & b & _ & _ & _ & -> & _)]]; done.
  - intros id b (i & _ & Hb & _)%get_Some. split.
    + destruct (retry_pending_spec packet_len egress would_block b) as (res & b' & -> & _); [|done].
      intros peer s acc Hpd. by destruct (Hp i b peer s acc Hb Hpd).
    + intros Hpd%has_pending_none peer packet acc.
      by destruct (submit_or_retain_spec packet_len egress would_block peer packet acc b Hpd) as (took & b' & -> & _).
  - intros s packet outcome elapsed Hs. unfold Bearer.token_complete, CompletionQueue.send_completed.
    set (c := mkCompletion _ _ _ _ _). pose proof (push_call c _ Hq) as Hpush.
    destruct (CallbackSlots.push c _) as [k|c'|]; [by eexists| |done]. exfalso. destruct Hpush as [_ Hfull].
    unfold outstanding in Hroom. rewrite !length_app, !length_fmap in Hroom. apply list_elem_of_split in Hs as (l1 & l2 & Hh).
    rewrite Hh, length_app in Hroom. unfold queued in Hroom. cbn in Hroom. lia.
  - unfold CompletionQueue.pop_completion. pose proof (pop_call _ Hq) as Hpop. by destruct (CallbackSlots.pop _) as [[? ?]| |].
Qed.

(** The identifier of a bearer that was removed, or whose attachment failed, is
    never given out again; a completion that comes late changes nothing. *)
Theorem bearer_ids_never_reused BEARERS capacity PACKET w w' id :
  reachable_world BEARERS capacity PACKET w -> id < br_next_id (w_registry w) -> Bearers.get id (w_registry w) = None ->
  rtc (world_step capacity PACKET) w w' ->
  Bearers.get id (w_registry w') = None /\
  forall c, cp_bearer c = id -> Bearers.send_completed packet_len c (w_registry w') = (false, w_registry w').
Proof.
  intros Hw Hid Hg Hrun. assert (Bearers.get id (w_registry w') = None) as Hnone.
  { assert (world_ok capacity w) as Hok by (by eapply world_reachable). destruct Hw as [Hcap _].
    induction Hrun as [|w1 w2 w3 Hs _ IH]; [done|]. destruct (step_ids _ _ _ _ Hok Hs) as [Hle Hat].
    apply IH; [lia| |by eapply world_steps]. rewrite get_None in Hg |- *. intros j b' Hb'.
    destruct (Hat j b' Hb') as [(b & Hb & ->)|Hge]; [by eapply Hg|lia]. }
  split; [done|]. intros c Hc. unfold Bearers.send_completed. by rewrite Hc, Hnone.
Qed.

(** C18: A packet its driver refused stays retained as it was submitted, whatever the
    node does, until the driver, asked again with the same peer and submission,
    answers that it took it, and then holds exactly that submission; or the bearer is
    removed.  (The driver is any that returns a submission it refuses unchanged.) *)
Theorem refused_packet_stays BEARERS capacity PACKET w w' id b peer s acc :
  reachable_world BEARERS capacity PACKET w -> Bearers.get id (w_registry w) = Some b -> rb_pending b = Some (peer, s, acc) ->
  world_step capacity PACKET w w' ->
  (exists b', Bearers.get id (w_registry w') = Some b' /\ rb_pending b' = Some (peer, s, acc)) \/
  (exists b', Bearers.get id (w_registry w') = Some b' /\ rb_pending b' = None /\
     (egress (rb_egress b) peer s).1 = None /\ w_held w' = w_held w ++ [s]) \/
  (Bearers.get id (w_registry w') = None /\ w_finished w' = w_finished w ++ [tag_of s]).
Proof.
  intros Hw Hg Hpd Hstep. assert (world_ok capacity w) as Hok by (by eapply world_reachable).
  assert (world_ok capacity w') as Hok' by (eapply world_steps; [apply Hw|done..]).
  pose proof (wo_table _ _ Hok') as Ht'. pose proof (wo_table _ _ Hok) as Ht. pose proof Hg as (i & Hs & Hb & Hid)%get_Some.
  assert (forall c, at_entry (w_registry w') i c -> rb_id c = id -> Bearers.get id (w_registry w') = Some c) as Hget.
  { intros c Hc Hcid. apply get_Some. exists i. split; [by eapply slot_of_at|done]. }
  assert (forall id1 b1 c, Bearers.get id1 (w_registry w) = Some b1 -> w_registry w' = Bearers.put id1 c (w_registry w) -> id1 <> id ->
    exists b', Bearers.get id (w_registry w') = Some b' /\ rb_pending b' = Some (peer, s, acc)) as Hother.
  { intros id1 b1 c (i1 & Hs1 & Hb1 & Hid1)%get_Some Heq Hne. exists b. split; [|done]. apply Hget; [|done]. rewrite Heq.
    apply (put_at _ _ _ _ _ _ _ Hs1 Hb1). right. split; [|done]. intros ->. congruence. }
  assert (forall c, w_registry w' = Bearers.put id c (w_registry w) -> rb_id c = id -> Bearers.get id (w_registry w') = Some c) as Hsame.
  { intros c Heq Hcid. apply Hget; [|done]. rewrite Heq. apply (put_at _ _ _ _ _ _ _ Hs Hb). by left. }
  destruct Hstep as [info attach d o r Hadd|id1|id1 b1 peer1 packet acc1 took b1' Hg1 Hpd1 _ Hsub|id1 b1 res b1' Hg1 Hr
                    |l1 s1 l2 packet outcome elapsed q Hh Hl Hc|c q Hpop|id1 b1 b1' Hg1 Htn]; cbn [w_registry w_held w_finished with_bearer] in *.
  - left. exists b. split; [|done]. apply Hget; [|done].
    destruct (add_bearer_spec _ _ _ _ _ _ _ Ht Hadd) as [[-> _]|[(He & _)|(j & b1 & Hj & He & _)]]; [done| |].
    + unfold at_entry. by rewrite He.
    + unfold at_entry in *. rewrite He. rewrite list_lookup_insert_ne; [done|]. intros ->. congruence.
  - destruct (decide (id1 = id)) as [->|Hne].
    + right. right. split; [|rewrite Hg; cbn; by rewrite Hpd]. apply get_None. intros j c [Hj Hc]%(entry_remove_at _ _ _ _ _ Hs) Hcid.
      apply Hj. eapply tb_unique; [exact Ht|exact Hc|exact Hb|congruence].
    + left. exists b. split; [|done]. apply Hget; [|done]. destruct (Bearers.slot_of id1 (w_registry w)) as [j|] eqn:Hs1.
      * apply (entry_remove_at _ _ _ _ _ Hs1). split; [|done]. intros ->. apply bearer_slot_Some in Hs1 as (c & Hc & Hcid).
        unfold at_entry in Hb, Hc. congruence.
      * unfold Bearers.remove. by rewrite Hs1.
  - destruct (decide (id1 = id)) as [->|Hne]; [|left; by eapply Hother].
    apply has_pending_none in Hpd1. congruence.
  - destruct (decide (id1 = id)) as [->|Hne]; [|left; by eapply Hother]. rewrite Hg in Hg1. injection Hg1 as <-.
    destruct (watched_retry b) as (res1 & b2 & Heq & H1 & _ & H3);
      [intros peer1 s1 acc1 Hpd1; by destruct (wo_pending _ _ Hok i b peer1 s1 acc1 Hb Hpd1)|].
    rewrite Heq in Hr. injection Hr as -> ->. rewrite Hid in H1.
    destruct H3 as [(H3 & _ & _)|(peer1 & s1 & acc1 & Hpd1 & H3 & _ & H4 & H5)].
    + left. exists (unwatched b1'). split; [by apply Hsame|cbn; congruence].
    + right. left. exists (unwatched b1'). split; [by apply Hsame|]. rewrite Hpd in Hpd1. injection Hpd1 as <- <- <-.
      split; [done|]. split; [done|]. by rewrite H4.
  - left. by exists b.
  - left. unfold Bearers.send_completed in *. destruct (Bearers.get (cp_bearer c) (w_registry w)) as [b1|] eqn:Hg1; [|by exists b].
    destruct (decide (cp_bearer c = id)) as [He|Hne]; [|by eapply (Hother (cp_bearer c) b1)]. cbn [snd] in *. rewrite He in *. rewrite Hg in Hg1. injection Hg1 as <-.
    destruct (record_completion_spec (bool_decide (cp_outcome c = Sent)) (packet_len (cp_packet c)) (cp_elapsed_us c) b) as (H1 & _ & H3 & _).
    eexists. split; [apply Hsame; [done|congruence]|]. congruence.
  - left. destruct (decide (id1 = id)) as [->|Hne]; [|by eapply Hother]. rewrite Hg in Hg1. injection Hg1 as <-.
    apply tuned_same in Htn as (H1 & _ & H3 & _). exists b1'. split; [apply Hsame; congruence|congruence].
Qed.
End world.
Arguments world : clear implicits.

(** ** A bearer at work

    Packets are byte strings that name their lease in the first byte; the driver is
    a flag, set while it can take packets. *)
Module Demo.
Definition lease (p : bytes) : Z := default 0 (head p).
Definition egress (d : bool) (peer : Z) (s : EgressSubmission bytes Z) : option (EgressSubmission bytes Z) * bool :=
  if d then (None, d) else (Some s, d).

Lemma would_block d peer s s' d' : egress d peer s = (Some s', d') -> s' = s.
Proof. destruct d; [done|]. by intros [= -> _]. Qed.

Definition uart0 : bytes := [117; 97; 114; 116; 48].
Definition info : BearerInfo := mkBearerInfo (default (mkBearerName [] 0) (BearerName_new uart0)) 64 80 24 false true 115200 None.

Definition empty : world bytes Z bool Z :=
  mkWorld (mkBearerRegistry [None; None] 1)
    (CompletionQueue.mkCompletionQueue (CallbackSlots.new 2) [0; 0]) [] [] [].
Definition added : world bytes Z bool Z := Eval vm_compute in
  mkWorld (Bearers.register_bearer_ingress (E:=unit) 64 info (fun _ => None) false (w_registry empty)).2 (w_queue empty) [] [] [].
Definition uart : RegisteredBearer bytes Z bool := Eval vm_compute in
  mkRegisteredBearer 1 info (mkBearerState true true 0 0) BearerStats_default false None.
Definition refusing : RegisteredBearer bytes Z bool := Eval vm_compute in
  match Bearer.submit_or_retain zlen (watching egress) 7 [9; 1; 2] (Some 30) (watched uart) with
  | Ok (_, b) => unwatched b
  | _ => uart
  end.
Definition retained_world : world bytes Z bool Z := Eval vm_compute in
  mkWorld (Bearers.put 1 refusing (w_registry added)) (w_queue added) [] [(1, Some 30, 9)] [].
Definition ready_again : RegisteredBearer bytes Z bool := Eval vm_compute in refusing <| rb_egress := true |>.

Lemma added_reachable : rtc (world_step zlen lease egress 2 64) empty added.
Proof. apply rtc_once. apply (AddBearer _ _ _ 2 64 empty info (fun _ => None) false (Ok 1)). by vm_compute. Qed.
Lemma empty_first : first_world 2 2 empty.
Proof. by do 2 eexists. Qed.
Lemma retained_reachable : reachable_world zlen lease egress 2 2 64 retained_world.
Proof.
  split; [by vm_compute|]. exists empty. split; [exact empty_first|]. eapply rtc_r; [exact added_reachable|].
  refine (Submit zlen lease egress 2 64 added 1 uart 7 [9; 1; 2] (Some 30) false (watched refusing) _ _ _ _); [done..|by cbn; lia|done].
Qed.
End Demo.

Lemma bearer_name_roundtrip_witness : as_str (bi_name Demo.info) = Ok Demo.uart0.
Proof. apply (proj2 (bearer_name_roundtrip Demo.uart0) (bi_name Demo.info)). reflexivity. Defined.

Lemma measured_rate_between_witness : 1000 <= Bearer.smooth_rate 1000 3000 <= 3000.
Proof. apply (measured_rate_between 1000 3000); [lia|lia|by vm_compute]. Defined.

Lemma packets_accounted_witness :
  w_submitted Demo.retained_world ≡ₚ
    pending_tags Demo.lease Demo.retained_world ++ (tag_of Demo.lease <$> w_held Demo.retained_world) ++
    (done_tag Demo.lease <$> queued Demo.retained_world) ++ w_finished Demo.retained_world.
Proof. apply (packets_accounted zlen Demo.lease Demo.egress Demo.would_block 2 2 64 Demo.retained_world Demo.retained_reachable). Defined.

Lemma node_calls_total_witness : CompletionQueue.pop_completion (w_queue Demo.retained_world) <> Panic.
Proof. apply (node_calls_total zlen Demo.lease Demo.egress Demo.would_block 2 2 64 Demo.retained_world Demo.retained_reachable). Defined.

Definition removed_world : world bytes Z bool Z :=
  mkWorld (Bearers.remove 1 (w_registry Demo.retained_world)).2 (w_queue Demo.retained_world) [] [(1, Some 30, 9)] [(1, Some 30, 9)].

Lemma bearer_ids_never_reused_witness : Bearers.get 1 (w_registry removed_world) = None.
Proof.
  apply (bearer_ids_never_reused zlen Demo.lease Demo.egress Demo.would_block 2 2 64 removed_world removed_world 1);
    [|by vm_compute|by vm_compute|apply rtc_refl].
  destruct Demo.retained_reachable as (Hcap & w0 & Hf & Hrun). split; [exact Hcap|]. exists w0. split; [exact Hf|].
  eapply rtc_r; [exact Hrun|]. apply (RemoveBearer zlen Demo.lease Demo.egress 2 64 Demo.retained_world 1).
Defined.

(** The driver can take packets again, and the node retries. *)
Definition retrying_world : world bytes Z bool Z := with_bearer 1 Demo.ready_again Demo.retained_world.
Definition refused : EgressSubmission bytes Z := mkSubmission [9; 1; 2] (mkToken 1 (Some 30)).
Definition retried : RegisteredBearer bytes Z (driver (P:=bytes) (A:=Z) (D:=bool)) := Eval vm_compute in
  match Bearer.retry_pending zlen (watching Demo.egress) (watched Demo.ready_again) with Ok (_, b) => b | _ => watched Demo.ready_again end.
Definition retried_world : world bytes Z bool Z :=
  mkWorld (Bearers.put 1 (unwatched retried) (w_registry retrying_world)) (w_queue retrying_world)
    (w_held retrying_world ++ taken retried) (w_submitted retrying_world) (w_finished retrying_world).

Lemma retrying_reachable : reachable_world zlen Demo.lease Demo.egress 2 2 64 retrying_world.
Proof.
  destruct Demo.retained_reachable as (Hcap & w0 & Hf & Hrun). split; [exact Hcap|]. exists w0. split; [exact Hf|].
  eapply rtc_r; [exact Hrun|]. apply (Tune zlen Demo.lease Demo.egress 2 64 Demo.retained_world 1 Demo.refusing); [reflexivity|].
  apply (TuneDriver Demo.refusing true).
Qed.

Lemma refused_packet_stays_witness : w_held retried_world = w_held retrying_world ++ [refused].
Proof.
  destruct (refused_packet_stays zlen Demo.lease Demo.egress Demo.would_block 2 2 64 _ retried_world 1 Demo.ready_again 7 refused (Some 30)
    retrying_reachable) as [(b' & Hg & Hp)|[(b' & _ & _ & _ & Hh)|[Hg _]]]; [reflexivity|reflexivity| | |exact Hh|].
  - apply (Retry zlen Demo.lease Demo.egress 2 64 retrying_world 1 Demo.ready_again (Some 30) retried); reflexivity.
  - vm_compute in Hg. injection Hg as <-. discriminate Hp.
  - discriminate Hg.
Defined.
