(* ===== verification/HeapPool.v ===== *)
(** * The growing packet pool

    [src/crates/quic-lite/src/heap_packet_pool.rs]: packet slots whose storage is on
    the heap, so that the pool can grow and shrink in use.  Two descriptions: the
    owner's calls as functions on the pool and the allocator ([resize],
    [resize_with_budget], [maintain_free]); and every call, the owner's too, as an
    agent that makes one atomic access per step ([agent_step]), which any number of
    writers, leases, drops and resizes may interleave ([pool_step]).  A slot is a
    [nat], a buffer the address the allocator gave. *)

From S2P Require Import Prelude Keyed Records.

Definition WRITER : Z := U8_MAX.
Definition HEAP_PACKET_SLOT_OVERHEAD : Z := 32.

Module HeapPacketPoolError.
Inductive t : Type := CapacityTooLarge | AllocationFailed.
End HeapPacketPoolError.

Record HeapPacketPool : Type := mkHeapPacketPool {
  hp_lock : bool;
  hp_capacity : nat;
  hp_buffers : list (option Z);
  hp_references : list Z;
}.
#[export] Instance eta_HeapPacketPool : Eta HeapPacketPool := ltac:(mk_eta).
#[export] Instance set_hp_lock : Setter hp_lock := ltac:(mk_setter).
#[export] Instance set_hp_capacity : Setter hp_capacity := ltac:(mk_setter).
#[export] Instance set_hp_buffers : Setter hp_buffers := ltac:(mk_setter).
#[export] Instance set_hp_references : Setter hp_references := ltac:(mk_setter).

Module HeapPool.
Section pool.
Context (MAX_SLOTS : nat).

(** [assert!(MAX_SLOTS <= u8::MAX)] *)
Definition new : outcome unit HeapPacketPool :=
  if Z.of_nat MAX_SLOTS <=? U8_MAX
  then Ok (mkHeapPacketPool false 0 (replicate MAX_SLOTS None) (replicate MAX_SLOTS WRITER)) else Panic.

Definition references (p : HeapPacketPool) (slot : nat) : Z := default WRITER (hp_references p !! slot).
Definition buffer (p : HeapPacketPool) (slot : nat) : option Z := mjoin (hp_buffers p !! slot).
Definition set_reference (slot : nat) (n : Z) (p : HeapPacketPool) : HeapPacketPool := p <| hp_references ::= <[slot := n]> |>.
Definition set_buffer (slot : nat) (b : option Z) (p : HeapPacketPool) : HeapPacketPool := p <| hp_buffers ::= <[slot := b]> |>.

(** ** Counts *)
Definition allocated (p : HeapPacketPool) : Z := zlen (filter is_Some (hp_buffers p)).
Definition available (p : HeapPacketPool) : Z := zlen (filter (fun r => r = 0) (take (hp_capacity p) (hp_references p))).
Definition in_use (p : HeapPacketPool) : Z :=
  zlen (filter (fun r => r <> 0 /\ r <> WRITER) (hp_references p)) +
  zlen (filter (fun rb => rb.1 = WRITER /\ is_Some rb.2) (zip (hp_references p) (hp_buffers p))).

(** ** The owner's calls

    [A] is the state of the allocator. *)
Context {A : Type} (allocate : A -> option Z * A) (deallocate : Z -> A -> A) (MTU : Z).

Definition retire_locked (slot : nat) (s : HeapPacketPool * A) : HeapPacketPool * A :=
  let '(p, h) := s in
  (set_buffer slot None (set_reference slot WRITER p),
   match buffer p slot with Some b => deallocate b h | None => h end).

Definition reclaim_retired_locked (capacity : nat) (s : HeapPacketPool * A) : HeapPacketPool * A :=
  fold_left (fun s slot =>
    if (references s.1 slot =? 0) && bool_decide (is_Some (buffer s.1 slot)) then retire_locked slot s else s)
    (seq capacity (MAX_SLOTS - capacity)) s.

(** The buffers allocated for slots without one; dropped again when one fails. *)
Fixpoint allocate_pending (p : HeapPacketPool) (slots : list nat) (pending : list (nat * Z)) (h : A)
    : option (list (nat * Z)) * A :=
  match slots with
  | [] => (Some (rev pending), h)
  | slot :: slots' =>
      match buffer p slot with
      | Some _ => allocate_pending p slots' pending h
      | None =>
          match allocate h with
          | (Some b, h) => allocate_pending p slots' ((slot, b) :: pending) h
          | (None, h) => (None, fold_left (fun h sb => deallocate sb.2 h) (rev pending) h)
          end
      end
  end.

Definition install (s : HeapPacketPool * A) (sb : nat * Z) : HeapPacketPool * A :=
  let '(p, h) := s in
  match buffer p sb.1 with
  | None => (set_reference sb.1 0 (set_buffer sb.1 (Some sb.2) p), h)
  | Some _ => (p, deallocate sb.2 h)
  end.

Definition resize (target : nat) (s : HeapPacketPool * A) : outcome HeapPacketPoolError.t unit * (HeapPacketPool * A) :=
  let '(p, h) := s in
  if (MAX_SLOTS <? target)%nat then (Err HeapPacketPoolError.CapacityTooLarge, s)
  else
    let current := hp_capacity p in
    if (current <? target)%nat then
      match allocate_pending p (seq current (target - current)) [] h with
      | (None, h) => (Err HeapPacketPoolError.AllocationFailed, (p, h))
      | (Some pending, h) =>
          let '(p, h) := fold_left install pending (p, h) in
          (Ok tt, reclaim_retired_locked target (p <| hp_capacity := target |>, h))
      end
    else
      let s := (p <| hp_capacity := target |>, h) in
      let s := fold_left (fun s slot => if references s.1 slot =? 0 then retire_locked slot s else s) (seq target (current - target)) s in
      (Ok tt, reclaim_retired_locked target s).

Definition slot_bytes : Z := Z.max (sat_add MTU HEAP_PACKET_SLOT_OVERHEAD) 1.

(** [for capacity in current + 1..=admitted], until a growth fails. *)
Fixpoint grow_by (n : nat) (capacity : nat) (s : HeapPacketPool * A) : HeapPacketPool * A :=
  match n with
  | O => s
  | S n' => match resize capacity s with (Ok _, s) => grow_by n' (S capacity) s | (_, s) => s end
  end.

Definition resize_with_budget (target : nat) (available_bytes reserve_bytes : Z) (s : HeapPacketPool * A)
    : outcome HeapPacketPoolError.t nat * (HeapPacketPool * A) :=
  if (MAX_SLOTS <? target)%nat then (Err HeapPacketPoolError.CapacityTooLarge, s)
  else
    let current := hp_capacity s.1 in
    if (target <=? current)%nat then
      match resize target s with (Ok _, s) => (Ok target, s) | (Err e, s) => (Err e, s) | (Panic, s) => (Panic, s) end
    else
      let affordable_growth := sat_sub available_bytes reserve_bytes / slot_bytes in
      let admitted := Nat.min target (Z.to_nat (sat_add (Z.of_nat current) affordable_growth)) in
      let s := grow_by (admitted - current) (S current) s in
      (Ok (hp_capacity s.1), s).

Definition maintain_free (target_free device_limit : nat) (available_bytes largest_free_block reserve_bytes : Z)
    (s : HeapPacketPool * A) : outcome HeapPacketPoolError.t nat * (HeapPacketPool * A) :=
  if (MAX_SLOTS <? device_limit)%nat then (Err HeapPacketPoolError.CapacityTooLarge, s)
  else
    let desired := Nat.min (Z.to_nat (sat_add (in_use s.1) (Z.of_nat target_free))) device_limit in
    if (desired <=? hp_capacity s.1)%nat then
      match resize desired s with
      | (Ok _, s) => (Ok (hp_capacity s.1), s) | (Err e, s) => (Err e, s) | (Panic, s) => (Panic, s)
      end
    else if largest_free_block <? slot_bytes then (Ok (hp_capacity s.1), s)
    else resize_with_budget desired available_bytes reserve_bytes s.
End pool.

(** ** One atomic access at a time *)

(** Who an acquired slot is for: a [HeapPacketWriter], or a holder of a raw reference. *)
Inductive kind : Type := ForWriter | ForRaw.
Definition first_reference (k : kind) : Z := match k with ForWriter => WRITER | ForRaw => 1 end.

(** What follows the retirement of a slot. *)
Inductive job : Type :=
  | JobUnlock
  | JobShrink (slot current target : nat)
  | JobReclaim (slot : nat).

Inductive agent : Type :=
  (* acquire_writer_reserving, acquire_raw *)
  | Trying (k : kind) (reserved : nat)
  | Entered (k : kind) (reserved : nat)
  | Counting (k : kind) (reserved capacity i free : nat)
  | Finding (k : kind) (capacity i : nat)
  | Marking (k : kind) (slot : nat)
  | Leaving (k : kind) (slot : nat)
  (* a writer, a lease or raw reference *)
  | Writing (slot : nat)
  | Leased (slot : nat)
  (* final_release *)
  | Releasing (slot : nat)
  | TryFinal (slot : nat)
  | FinalCapacity (slot : nat)
  | FinalReferences (slot : nat)
  (* retire_locked *)
  | RetireMark (slot : nat) (next : job)
  | RetireSwap (slot : nat) (next : job)
  | Freeing (b : Z) (next : job)
  (* resize *)
  | Growing (slot target : nat) (pending : list (nat * Z))
  | GrowLock (target : nat) (pending : list (nat * Z))
  | Installing (target : nat) (pending : list (nat * Z))
  | StoreBuffer (slot : nat) (b : Z) (target : nat) (pending : list (nat * Z))
  | StoreReference (slot : nat) (target : nat) (pending : list (nat * Z))
  | ShrinkLock (current target : nat)
  | SetCapacity (current target : nat)
  | Working (j : job)
  | Dropping (pending : list (nat * Z)).

(** What a step did besides changing the pool. *)
Inductive effect : Type :=
  | Silent
  | Allocated (b : Z)
  | Freed (b : Z).

Definition step_result : Type := (HeapPacketPool * list agent * effect)%type.
Definition goes (p : HeapPacketPool) (a : agent) : outcome unit step_result := Ok (p, [a], Silent).
Definition ends (p : HeapPacketPool) : outcome unit step_result := Ok (p, [], Silent).
Definition unlock (p : HeapPacketPool) : HeapPacketPool := p <| hp_lock := false |>.
Definition lock (p : HeapPacketPool) : HeapPacketPool := p <| hp_lock := true |>.

(** What a holder of a writer or lease does next; [alloc]: what [allocate] returns
    if it is called. *)
Inductive choice : Type := Commit | Drop | Clone.

Section steps.
Context (MAX_SLOTS : nat).

Definition job_step (p : HeapPacketPool) (j : job) : outcome unit step_result :=
  match j with
  | JobUnlock => ends (unlock p)
  | JobShrink slot current target =>
      if (slot <? current)%nat then
        if references p slot =? 0 then goes p (RetireMark slot (JobShrink (S slot) current target))
        else goes p (Working (JobShrink (S slot) current target))
      else goes p (Working (JobReclaim target))
  | JobReclaim slot =>
      if (slot <? MAX_SLOTS)%nat then
        if (references p slot =? 0) && bool_decide (is_Some (buffer p slot)) then goes p (RetireMark slot (JobReclaim (S slot)))
        else goes p (Working (JobReclaim (S slot)))
      else goes p (Working JobUnlock)
  end.

Definition agent_step (p : HeapPacketPool) (alloc : option Z) (c : choice) (a : agent) : outcome unit step_result :=
  match a with
  | Trying k reserved => if hp_lock p then ends p else goes (lock p) (Entered k reserved)
  | Entered k reserved => goes p (Counting k reserved (hp_capacity p) 0 0)
  | Counting k reserved capacity i free =>
      if (i <? capacity)%nat
      then goes p (Counting k reserved capacity (S i) (if references p i =? 0 then S free else free))
      else if (free <=? reserved)%nat then goes p (Working JobUnlock)
      else goes p (Finding k capacity 0)
  | Finding k capacity i =>
      if (i <? capacity)%nat then
        if references p i =? 0 then goes p (Marking k i) else goes p (Finding k capacity (S i))
      else goes p (Working JobUnlock)
  | Marking k slot => goes (set_reference slot (first_reference k) p) (Leaving k slot)
  | Leaving k slot => goes (unlock p) (match k with ForWriter => Writing slot | ForRaw => Leased slot end)
  | Writing slot =>
      match c with
      | Commit => goes (set_reference slot 1 p) (Leased slot)
      | _ => goes (set_reference slot 0 p) (Releasing slot)
      end
  | Leased slot =>
      let previous := references p slot in
      match c with
      | Clone =>
          let p := set_reference slot (as_u8 (previous + 1)) p in
          if (previous =? 0) || (WRITER - 1 <=? previous) then Panic else Ok (p, [Leased slot; Leased slot], Silent)
      | _ =>
          let p := set_reference slot (as_u8 (previous - 1)) p in
          if previous =? 1 then goes p (Releasing slot) else ends p
      end
  | Releasing slot => if (slot <? hp_capacity p)%nat then ends p else goes p (TryFinal slot)
  | TryFinal slot => if hp_lock p then ends p else goes (lock p) (FinalCapacity slot)
  | FinalCapacity slot => if (slot <? hp_capacity p)%nat then goes p (Working JobUnlock) else goes p (FinalReferences slot)
  | FinalReferences slot => if references p slot =? 0 then goes p (RetireMark slot JobUnlock) else goes p (Working JobUnlock)
  | RetireMark slot next => goes (set_reference slot WRITER p) (RetireSwap slot next)
  | RetireSwap slot next =>
      goes (set_buffer slot None p) (match buffer p slot with Some b => Freeing b next | None => Working next end)
  | Freeing b next => Ok (p, [Working next], Freed b)
  | Growing slot target pending =>
      if (slot <? target)%nat then
        match buffer p slot with
        | Some _ => goes p (Growing (S slot) target pending)
        | None =>
            match alloc with
            | Some b => Ok (p, [Growing (S slot) target (pending ++ [(slot, b)])], Allocated b)
            | None => goes p (Dropping pending)
            end
        end
      else goes p (GrowLock target pending)
  | GrowLock target pending => if hp_lock p then goes p (GrowLock target pending) else goes (lock p) (Installing target pending)
  | Installing target pending =>
      match pending with
      | [] => goes p (SetCapacity target target)
      | (slot, b) :: pending' =>
          match buffer p slot with
          | None => goes p (StoreBuffer slot b target pending')
          | Some _ => Ok (p, [Installing target pending'], Freed b)
          end
      end
  | StoreBuffer slot b target pending => goes (set_buffer slot (Some b) p) (StoreReference slot target pending)
  | StoreReference slot target pending => goes (set_reference slot 0 p) (Installing target pending)
  | ShrinkLock current target => if hp_lock p then goes p (ShrinkLock current target) else goes (lock p) (SetCapacity current target)
  | SetCapacity current target => goes (p <| hp_capacity := target |>) (Working (JobShrink target current target))
  | Working j => job_step p j
  | Dropping pending =>
      match pending with
      | [] => ends p
      | (_, b) :: pending' => Ok (p, [Dropping pending'], Freed b)
      end
  end.

(** ** Interleavings

    [cf_allocated] and [cf_freed] record the buffers; an address the allocator gives
    again counts as another buffer. *)
Record config : Type := mkConfig {
  cf_pool : HeapPacketPool;
  cf_agents : list agent;
  cf_allocated : list Z;
  cf_freed : list Z;
}.

Definition allocations (e : effect) : list Z := match e with Allocated b => [b] | _ => [] end.
Definition frees (e : effect) : list Z := match e with Freed b => [b] | _ => [] end.

(** The first step of [resize] is its load of the capacity. *)
Definition start_resize (target : nat) (p : HeapPacketPool) : agent :=
  if (hp_capacity p <? target)%nat then Growing (hp_capacity p) target [] else ShrinkLock (hp_capacity p) target.

Inductive pool_step (c : config) : config -> Prop :=
  | StartAcquire k reserved :
      pool_step c (mkConfig (cf_pool c) (cf_agents c ++ [Trying k reserved]) (cf_allocated c) (cf_freed c))
  | StartResize target :
      (target <= MAX_SLOTS)%nat ->
      pool_step c (mkConfig (cf_pool c) (cf_agents c ++ [start_resize target (cf_pool c)]) (cf_allocated c) (cf_freed c))
  | Act l1 a l2 alloc ch p out e :
      cf_agents c = l1 ++ a :: l2 ->
      (forall b, alloc = Some b -> b ∉ cf_allocated c) ->
      agent_step (cf_pool c) alloc ch a = Ok (p, out, e) ->
      pool_step c (mkConfig p (l1 ++ out ++ l2) (cf_allocated c ++ allocations e) (cf_freed c ++ frees e)).

Definition reachable (c : config) : Prop :=
  exists p, new MAX_SLOTS = Ok p /\ rtc pool_step (mkConfig p [] [] []) c.

(** What an agent has of a slot, or does to it. *)
Definition use (slot : nat) (a : agent) : option kind :=
  match a with
  | Leaving k i => if decide (i = slot) then Some k else None
  | Writing i => if decide (i = slot) then Some ForWriter else None
  | Leased i => if decide (i = slot) then Some ForRaw else None
  | _ => None
  end.

Inductive phase : Type := FoundFree | Retiring | FoundEmpty | Filled.
Definition phase_of (slot : nat) (a : agent) : option phase :=
  match a with
  | Marking _ i | RetireMark i _ => if decide (i = slot) then Some FoundFree else None
  | RetireSwap i _ => if decide (i = slot) then Some Retiring else None
  | StoreBuffer i _ _ _ => if decide (i = slot) then Some FoundEmpty else None
  | StoreReference i _ _ => if decide (i = slot) then Some Filled else None
  | _ => None
  end.

Definition holds_lock (a : agent) : bool :=
  match a with
  | Entered _ _ | Counting _ _ _ _ _ | Finding _ _ _ | Marking _ _ | Leaving _ _ | FinalCapacity _ | FinalReferences _
  | RetireMark _ _ | RetireSwap _ _ | Freeing _ _ | Installing _ _ | StoreBuffer _ _ _ _ | StoreReference _ _ _
  | SetCapacity _ _ | Working _ => true
  | _ => false
  end.

(** The buffers in an agent's hands. *)
Definition owned (a : agent) : list Z :=
  match a with
  | Freeing b _ => [b]
  | Growing _ _ pending | GrowLock _ pending | Installing _ pending | StoreReference _ _ pending | Dropping pending => snd <$> pending
  | StoreBuffer _ b _ pending => b :: (snd <$> pending)
  | _ => []
  end.

Definition users (slot : nat) (ag : list agent) : list kind := omap (use slot) ag.
Definition phases (slot : nat) (ag : list agent) : list phase := omap (phase_of slot) ag.
End steps.
End HeapPool.
