(* ===== verification/HeapPoolSpec.v ===== *)
(** * What the growing packet pool promises

    Proofs about [HeapPool.v].  However resizes, acquisitions, commits, clones and
    drops interleave, the storage of a slot is not freed while a writer or a lease
    has the slot, a writer is alone, reference counts are exact, and every buffer
    the allocator gave is in one place until it is freed one_step. *)

From S2P Require Import Prelude Keyed Records HeapPool.
Import HeapPool.

Section pool.
Context (MAX_SLOTS : nat).
Implicit Types (p : HeapPacketPool) (a : agent) (ag : list agent) (c : config).

(** ** The state of a slot *)
Definition slot_ok (r : Z) (s : option Z) (us : list kind) (ps : list phase) : Prop :=
  match ps with
  | [] =>
      (r = 0 /\ us = [] /\ is_Some s) \/
      (1 <= r < WRITER /\ Forall (fun k => k = ForRaw) us /\ zlen us = r /\ is_Some s) \/
      (r = WRITER /\ us = [ForWriter] /\ is_Some s) \/
      (r = WRITER /\ us = [] /\ s = None)
  | [FoundFree] => r = 0 /\ us = [] /\ is_Some s
  | [Retiring] | [Filled] => r = WRITER /\ us = [] /\ is_Some s
  | [FoundEmpty] => r = WRITER /\ us = [] /\ s = None
  | _ => False
  end.

Definition job_ok (j : job) : Prop :=
  match j with JobShrink _ current target => (current <= MAX_SLOTS /\ target <= MAX_SLOTS)%nat | _ => True end.

Definition agent_ok a : Prop :=
  match a with
  | Counting _ _ capacity _ _ | Finding _ capacity _ => (capacity <= MAX_SLOTS)%nat
  | Marking _ i | Leaving _ i | Writing i | Leased i | Releasing i | TryFinal i | FinalCapacity i | FinalReferences i => (i < MAX_SLOTS)%nat
  | RetireMark i j | RetireSwap i j => (i < MAX_SLOTS)%nat /\ job_ok j
  | Freeing _ j | Working j => job_ok j
  | Growing _ target pending | GrowLock target pending | Installing target pending =>
      (target <= MAX_SLOTS)%nat /\ Forall (fun sb => (sb.1 < MAX_SLOTS)%nat) pending
  | StoreBuffer i _ target pending | StoreReference i target pending =>
      (i < MAX_SLOTS)%nat /\ (target <= MAX_SLOTS)%nat /\ Forall (fun sb => (sb.1 < MAX_SLOTS)%nat) pending
  | ShrinkLock current target | SetCapacity current target => (current <= MAX_SLOTS /\ target <= MAX_SLOTS)%nat
  | Trying _ _ | Entered _ _ | Dropping _ => True
  end.

Definition holding a : Z := if holds_lock a then 1 else 0.
Definition locked p : Z := if hp_lock p then 1 else 0.

Record pool_ok c : Prop := mkPoolOk {
  po_buffers : length (hp_buffers (cf_pool c)) = MAX_SLOTS;
  po_references : length (hp_references (cf_pool c)) = MAX_SLOTS;
  po_capacity : (hp_capacity (cf_pool c) <= MAX_SLOTS)%nat;
  po_lock : zsum holding (cf_agents c) = locked (cf_pool c);
  po_slots : forall b, (b < MAX_SLOTS)%nat ->
    slot_ok (references (cf_pool c) b) (buffer (cf_pool c) b) (users b (cf_agents c)) (phases b (cf_agents c));
  po_agents : Forall agent_ok (cf_agents c);
  po_conserved : cf_allocated c ≡ₚ omap id (hp_buffers (cf_pool c)) ++ (cf_agents c ≫= owned) ++ cf_freed c;
  po_fresh : NoDup (cf_allocated c);
}.

(** ** Who has the lock is the only one in the middle of a slot *)
Lemma phase_holds b a ph : phase_of b a = Some ph -> holds_lock a = true.
Proof. destruct a; cbn; (discriminate || by intros). Qed.

Lemma holding_nonneg ag : 0 <= zsum holding ag.
Proof. apply zsum_nonneg, Forall_true. intros a. unfold holding. case_match; lia. Qed.

Lemma no_holder ag : zsum holding ag = 0 -> forall b, phases b ag = [].
Proof.
  intros Hz b. induction ag as [|a ag IH]; [done|]. cbn [zsum] in Hz. pose proof (holding_nonneg ag).
  unfold holding in Hz at 1. unfold phases. cbn. destruct (phase_of b a) as [ph|] eqn:Hp.
  - apply phase_holds in Hp. rewrite Hp in Hz. lia.
  - apply IH. case_match; lia.
Qed.

Lemma lock_alone p l1 a l2 : zsum holding (l1 ++ a :: l2) = locked p -> holds_lock a = true -> forall b, phases b l1 = [] /\ phases b l2 = [].
Proof.
  rewrite zsum_mid. unfold holding at 2, locked. intros Hz Ha b. rewrite Ha in Hz.
  pose proof (holding_nonneg l1). pose proof (holding_nonneg l2). split; apply no_holder; case_match; lia.
Qed.
Lemma lock_free p l1 a l2 : zsum holding (l1 ++ a :: l2) = locked p -> hp_lock p = false -> forall b, phases b l1 = [] /\ phases b l2 = [].
Proof.
  rewrite zsum_mid. unfold locked. intros Hz Ha b. rewrite Ha in Hz. unfold holding at 2 in Hz.
  pose proof (holding_nonneg l1). pose proof (holding_nonneg l2). split; apply no_holder; destruct (holds_lock a); lia.
Qed.

Lemma users_mid b l1 a l2 : users b (l1 ++ a :: l2) = users b l1 ++ option_list (use b a) ++ users b l2.
Proof. unfold users. rewrite omap_app. f_equal. cbn. by destruct (use b a). Qed.
Lemma phases_mid b l1 a l2 : phases b (l1 ++ a :: l2) = phases b l1 ++ option_list (phase_of b a) ++ phases b l2.
Proof. unfold phases. rewrite omap_app. f_equal. cbn. by destruct (phase_of b a). Qed.
Lemma users_out b l1 out l2 : users b (l1 ++ out ++ l2) = users b l1 ++ users b out ++ users b l2.
Proof. unfold users. by rewrite !omap_app. Qed.
Lemma phases_out b l1 out l2 : phases b (l1 ++ out ++ l2) = phases b l1 ++ phases b out ++ phases b l2.
Proof. unfold phases. by rewrite !omap_app. Qed.

(** ** What is enough for a step *)
Lemma step_preserves c l1 a l2 p out e :
  pool_ok c -> cf_agents c = l1 ++ a :: l2 ->
  length (hp_buffers p) = MAX_SLOTS -> length (hp_references p) = MAX_SLOTS -> (hp_capacity p <= MAX_SLOTS)%nat ->
  zsum holding out + locked (cf_pool c) = holding a + locked p ->
  (forall b, (b < MAX_SLOTS)%nat ->
     slot_ok (references (cf_pool c) b) (buffer (cf_pool c) b)
       (users b l1 ++ option_list (use b a) ++ users b l2) (phases b l1 ++ option_list (phase_of b a) ++ phases b l2) ->
     slot_ok (references p b) (buffer p b) (users b l1 ++ users b out ++ users b l2) (phases b l1 ++ phases b out ++ phases b l2)) ->
  Forall agent_ok out ->
  omap id (hp_buffers p) ++ (out ≫= owned) ++ frees e ≡ₚ omap id (hp_buffers (cf_pool c)) ++ owned a ++ allocations e ->
  (forall b, b ∈ allocations e -> b ∉ cf_allocated c) -> NoDup (allocations e) ->
  pool_ok (mkConfig p (l1 ++ out ++ l2) (cf_allocated c ++ allocations e) (cf_freed c ++ frees e)).
Proof.
  intros [Hb Hr Hc Hl Hs Ha Hv Hn] Hag Hb' Hr' Hc' Hl' Hs' Hok Hmem Hfresh Hnd. rewrite Hag in *.
  constructor; cbn [cf_pool cf_agents cf_allocated cf_freed]; try done.
  - rewrite zsum_mid in Hl. rewrite !zsum_app. lia.
  - intros b Hlt. rewrite users_out, phases_out. apply Hs'; [done|]. specialize (Hs b Hlt). by rewrite users_mid, phases_mid in Hs.
  - apply Forall_app in Ha as [Ha1 [_ Ha2]%Forall_cons]. by rewrite !Forall_app.
  - rewrite Hv. rewrite !bind_app. change ((a :: l2) ≫= owned) with (owned a ++ (l2 ≫= owned)).
    set (B := omap id (hp_buffers (cf_pool c))) in *. set (B' := omap id (hp_buffers p)) in *.
    set (O1 := l1 ≫= owned). set (O2 := l2 ≫= owned). set (O := out ≫= owned) in *. set (F := cf_freed c).
    transitivity ((B ++ owned a ++ allocations e) ++ O1 ++ O2 ++ F).
    { rewrite <- !app_assoc. f_equiv. rewrite (Permutation_app_comm (allocations e)), <- !app_assoc. by rewrite (Permutation_app_swap_app O1). }
    rewrite <- Hmem, <- !app_assoc. f_equiv. rewrite (Permutation_app_swap_app O1 O). f_equiv.
    rewrite (Permutation_app_comm (frees e)), <- !app_assoc. done.
  - apply NoDup_app. split; [done|]. split; [|done]. intros b Hin Hin'. by apply (Hfresh b).
Qed.

Lemma references_set p i n b : (i < length (hp_references p))%nat ->
  references (set_reference i n p) b = if decide (i = b) then n else references p b.
Proof.
  intros Hi. unfold references, set_reference. get_set. case_decide as He; [subst b; by rewrite list_lookup_insert_eq|].
  by rewrite list_lookup_insert_ne.
Qed.
Lemma buffer_set p i s b : (i < length (hp_buffers p))%nat ->
  buffer (set_buffer i s p) b = if decide (i = b) then s else buffer p b.
Proof.
  intros Hi. unfold buffer, set_buffer. get_set. case_decide as He; [subst b; by rewrite list_lookup_insert_eq|].
  by rewrite list_lookup_insert_ne.
Qed.
Lemma buffer_lookup p i : (i < length (hp_buffers p))%nat -> hp_buffers p !! i = Some (buffer p i).
Proof. intros Hi. unfold buffer. destruct (lookup_lt_is_Some_2 _ _ Hi) as [s ->]. done. Qed.

(** A step that changes no slot and nobody's part in one. *)
Lemma quiet_step c l1 a l2 p out e :
  pool_ok c -> cf_agents c = l1 ++ a :: l2 ->
  hp_buffers p = hp_buffers (cf_pool c) -> hp_references p = hp_references (cf_pool c) -> (hp_capacity p <= MAX_SLOTS)%nat ->
  zsum holding out + locked (cf_pool c) = holding a + locked p ->
  (forall b, users b out = option_list (use b a)) -> (forall b, phases b out = option_list (phase_of b a)) ->
  Forall agent_ok out -> (out ≫= owned) ++ frees e ≡ₚ owned a ++ allocations e ->
  (forall b, b ∈ allocations e -> b ∉ cf_allocated c) -> NoDup (allocations e) ->
  pool_ok (mkConfig p (l1 ++ out ++ l2) (cf_allocated c ++ allocations e) (cf_freed c ++ frees e)).
Proof.
  intros Hok Hag Hb Hr Hc Hl Hu Hp Ha Hm Hf Hn. eapply step_preserves; try done.
  - rewrite Hb. apply Hok.
  - rewrite Hr. apply Hok.
  - intros b _ Hs. rewrite Hu, Hp. unfold references, buffer in *. by rewrite Hb, Hr.
  - rewrite Hb. by f_equiv.
Qed.

(** A step of the lock's holder that finds slot [i] free, or without a buffer. *)
Lemma find_step c l1 a l2 i a' ph :
  pool_ok c -> cf_agents c = l1 ++ a :: l2 -> (i < MAX_SLOTS)%nat ->
  holds_lock a = true -> (forall b, use b a = None /\ phase_of b a = None) ->
  holds_lock a' = true -> (forall b, use b a' = None /\ phase_of b a' = if decide (i = b) then Some ph else None) ->
  (ph = FoundFree /\ references (cf_pool c) i = 0) \/ (ph = FoundEmpty /\ buffer (cf_pool c) i = None) ->
  agent_ok a' -> owned a' = owned a ->
  pool_ok (mkConfig (cf_pool c) (l1 ++ [a'] ++ l2) (cf_allocated c ++ []) (cf_freed c ++ [])).
Proof.
  intros Hok Hag Hi Hh Hpa Hh' Hpa' Hph Ha Ho.
  assert (forall b, phases b l1 = [] /\ phases b l2 = []) as Halone
    by (apply (lock_alone (cf_pool c) l1 a l2); [rewrite <- Hag; apply Hok|done]).
  apply (step_preserves c l1 a l2 (cf_pool c) [a'] Silent Hok Hag); try apply Hok; try done.
  - unfold holding. cbn. by rewrite Hh, Hh'.
  - intros b _ Hs. destruct (Halone b) as [H1 H2]. destruct (Hpa b) as [Hu Hp]. destruct (Hpa' b) as [Hu' Hp'].
    rewrite H1, H2, Hu, Hp in Hs. unfold users, phases at 2. cbn [omap list_omap]. rewrite Hu', Hp', H1, H2. cbn [app] in *.
    case_decide as He; [subst b|done]. cbn [option_list option_rect app] in Hs |- *. unfold slot_ok in Hs.
    destruct Hph as [[-> Hz]|[-> Hn]].
    + destruct Hs as [?|[(? & _)|[(? & _)|(? & _)]]]; [done|rewrite Hz in *; unfold WRITER, U8_MAX in *; lia..].
    + destruct Hs as [(_ & _ & [? Hs])|[(_ & _ & _ & [? Hs])|[(_ & _ & [? Hs])|?]]]; [congruence..|done].
  - by apply Forall_singleton.
  - cbn. by rewrite Ho, !app_nil_r.
  - intros b Hb. by apply not_elem_of_nil in Hb.
  - constructor.
Qed.

(** A step that changes slot [i] only. *)
Lemma slot_step c l1 a l2 i p out e :
  pool_ok c -> cf_agents c = l1 ++ a :: l2 ->
  length (hp_buffers p) = MAX_SLOTS -> length (hp_references p) = MAX_SLOTS -> hp_capacity p = hp_capacity (cf_pool c) ->
  zsum holding out + locked (cf_pool c) = holding a + locked p ->
  (forall b, b <> i -> references p b = references (cf_pool c) b /\ buffer p b = buffer (cf_pool c) b) ->
  (forall b, b <> i -> use b a = None /\ phase_of b a = None /\ users b out = [] /\ phases b out = []) ->
  (slot_ok (references (cf_pool c) i) (buffer (cf_pool c) i)
     (users i l1 ++ option_list (use i a) ++ users i l2) (phases i l1 ++ option_list (phase_of i a) ++ phases i l2) ->
   slot_ok (references p i) (buffer p i) (users i l1 ++ users i out ++ users i l2) (phases i l1 ++ phases i out ++ phases i l2)) ->
  Forall agent_ok out ->
  omap id (hp_buffers p) ++ (out ≫= owned) ++ frees e ≡ₚ omap id (hp_buffers (cf_pool c)) ++ owned a ++ allocations e ->
  allocations e = [] ->
  pool_ok (mkConfig p (l1 ++ out ++ l2) (cf_allocated c ++ allocations e) (cf_freed c ++ frees e)).
Proof.
  intros Hok Hag Hb Hr Hc Hl Hother Hnone Hi Ha Hm Hal. eapply step_preserves; try done.
  - rewrite Hc. apply Hok.
  - intros b _ Hs. destruct (decide (b = i)) as [->|Hne]; [by apply Hi|].
    destruct (Hother b Hne) as [-> ->]. destruct (Hnone b Hne) as (H1 & H2 & -> & ->). by rewrite H1, H2 in Hs.
  - rewrite Hal. set_solver.
  - rewrite Hal. constructor.
Qed.

(** With the holder of slot [i]'s phase known, nobody uses it. *)
Lemma phase_alone r s us l1 ph l2 : slot_ok r s us (l1 ++ [ph] ++ l2) -> l1 = [] /\ l2 = [] /\ us = [].
Proof.
  unfold slot_ok. destruct l1 as [|x l1].
  - destruct l2 as [|y l2]; cbn [app]; [|by destruct ph]. intros Hs. split; [done|]. split; [done|]. destruct ph; apply Hs.
  - destruct l1; cbn [app]; by destruct x.
Qed.

Lemma out_none b a : use b a = None -> phase_of b a = None -> users b [a] = [] /\ phases b [a] = [].
Proof. intros Hu Hp. unfold users, phases. cbn. by rewrite Hu, Hp. Qed.

Local Ltac in_slot := cbn; repeat case_decide; done.
Local Ltac no_alloc := intros ? ?%not_elem_of_nil; done.
(** A quiet step whose result keeps the holdings, parts and buffers as they are. *)
Local Ltac quiet Hok Hag :=
  apply (quiet_step _ _ _ _ _ _ _ Hok Hag);
  [reflexivity|reflexivity|apply (po_capacity _ Hok)|try reflexivity|intros ?; try in_slot|intros ?; try in_slot
  |try (apply Forall_singleton; assumption); try (constructor; fail)|cbn; rewrite ?app_nil_r; try reflexivity|try no_alloc|try constructor].

Lemma pool_agent_ok c l1 a l2 : pool_ok c -> cf_agents c = l1 ++ a :: l2 -> agent_ok a.
Proof. intros Hok Hag. pose proof (po_agents _ Hok) as Ha. rewrite Hag in Ha. by apply Forall_app in Ha as [_ [? _]%Forall_cons]. Qed.

(** *** Acquisition *)
Lemma acquire_step c l1 a l2 p out e :
  pool_ok c -> cf_agents c = l1 ++ a :: l2 ->
  match a with Trying _ _ | Entered _ _ | Counting _ _ _ _ _ | Finding _ _ _ | Marking _ _ | Leaving _ _ => True | _ => False end ->
  agent_step MAX_SLOTS (cf_pool c) None Commit a = Ok (p, out, e) ->
  pool_ok (mkConfig p (l1 ++ out ++ l2) (cf_allocated c ++ allocations e) (cf_freed c ++ frees e)).
Proof.
  intros Hok Hag Hkind. pose proof (pool_agent_ok _ _ _ _ Hok Hag) as Hin.
  destruct a as [k reserved|k reserved|k reserved cap i free|k cap i|k i|k i| | | | | | | | | | | | | | | | | |]; try done;
    cbn [agent_step]; unfold goes, ends.
  - destruct (hp_lock (cf_pool c)) eqn:Hl; intros [= <- <- <-]; quiet Hok Hag.
    unfold locked, lock. get_set. by rewrite Hl.
  - intros [= <- <- <-]. quiet Hok Hag. apply Forall_singleton. apply Hok.
  - destruct (_ <? _)%nat; [|destruct (_ <=? _)%nat]; intros [= <- <- <-]; quiet Hok Hag; by apply Forall_singleton.
  - destruct (Nat.ltb_spec i cap); [destruct (Z.eqb_spec (references (cf_pool c) i) 0)|]; intros [= <- <- <-]; cbn in Hin.
    + eapply (find_step c l1 _ l2 i _ FoundFree Hok Hag); try done; [lia|by left|cbn; lia].
    + quiet Hok Hag.
    + quiet Hok Hag.
  - intros [= <- <- <-]. cbn in Hin.
    apply (slot_step c l1 _ l2 i _ _ _ Hok Hag); try done.
    + apply Hok.
    + unfold set_reference. get_set. rewrite length_insert. apply Hok.
    + intros b Hb. rewrite references_set by (by rewrite (po_references _ Hok)). by rewrite decide_False.
    + intros b Hb. cbn. by rewrite !decide_False.
    + rewrite references_set, decide_True by (rewrite ?(po_references _ Hok); done). cbn. rewrite !decide_True by done. cbn.
      intros Hs. destruct (phase_alone _ _ _ _ _ _ Hs) as (H1 & H2 & [H3 H4]%app_eq_nil). rewrite H1, H2, H3, H4 in *. cbn in *.
      destruct Hs as (_ & _ & Hb). destruct k; cbn; [right; right; left; done|right; left; split; [by vm_compute|split; [by repeat constructor|split; done]]].
    + by apply Forall_singleton.
  - intros [= <- <- <-]. apply (quiet_step _ _ _ _ _ _ _ Hok Hag); try done; try (apply Hok).
    + assert (hp_lock (cf_pool c) = true) as Hl.
      { pose proof (po_lock _ Hok) as Hz. rewrite Hag, zsum_mid in Hz. pose proof (holding_nonneg l1). pose proof (holding_nonneg l2).
        unfold holding at 2 in Hz. cbn in Hz. unfold locked in Hz. destruct (hp_lock (cf_pool c)); [done|lia]. }
      unfold locked, unlock. get_set. rewrite Hl. by destruct k.
    + intros b. unfold users. destruct k; in_slot.
    + intros b. by destruct k.
    + apply Forall_singleton. by destruct k.
    + by destruct k.
    + no_alloc.
    + constructor.
Qed.

(** *** Writers and leases *)
Lemma used_inv r s u1 k u2 ps :
  slot_ok r s (u1 ++ [k] ++ u2) ps ->
  ps = [] /\ is_Some s /\
  match k with
  | ForWriter => r = WRITER /\ u1 = [] /\ u2 = []
  | ForRaw => 1 <= r < WRITER /\ Forall (fun k => k = ForRaw) (u1 ++ u2) /\ zlen (u1 ++ u2) = r - 1
  end.
Proof.
  assert (u1 ++ [k] ++ u2 <> []) as Hne by (intros H; by apply app_eq_nil in H as [_ ?]).
  unfold slot_ok. destruct ps as [|ph ps].
  - intros [(_ & He & _)|[(Hr & Hall & Hlen & Hs)|[(Hr & Hw & Hs)|(_ & He & _)]]]; try done; split; try done; split; try done.
    + apply Forall_app in Hall as [H1 H2]. apply Forall_cons in H2 as [-> H2].
      split; [done|]. rewrite Forall_app. split; [done|]. rewrite !zlen_app, zlen_cons in Hlen. rewrite zlen_app. change (zlen (@nil kind)) with 0 in *.
      unfold zlen in *. cbn [length] in *. lia.
    + destruct u1 as [|x u1]; [|by destruct u1]. injection Hw as -> ->. done.
  - intros Hs. exfalso. apply Hne. destruct ph, ps; try done; apply Hs.
Qed.

Lemma holder_step c l1 a l2 ch p out e :
  pool_ok c -> cf_agents c = l1 ++ a :: l2 ->
  match a with Writing _ | Leased _ => True | _ => False end ->
  agent_step MAX_SLOTS (cf_pool c) None ch a = Ok (p, out, e) ->
  pool_ok (mkConfig p (l1 ++ out ++ l2) (cf_allocated c ++ allocations e) (cf_freed c ++ frees e)).
Proof.
  intros Hok Hag Hkind. pose proof (pool_agent_ok _ _ _ _ Hok Hag) as Hin.
  assert (forall i n, length (hp_references (set_reference i n (cf_pool c))) = MAX_SLOTS) as Hlen
    by (intros i n; unfold set_reference; get_set; rewrite length_insert; apply Hok).
  assert (forall i n b, (i < MAX_SLOTS)%nat -> references (set_reference i n (cf_pool c)) b = if decide (i = b) then n else references (cf_pool c) b) as Href
    by (intros i n b Hi; apply references_set; by rewrite (po_references _ Hok)).
  assert (forall i n out', (i < MAX_SLOTS)%nat -> zsum holding out' = holding a ->
    (forall b, b <> i -> use b a = None /\ phase_of b a = None /\ users b out' = [] /\ phases b out' = []) ->
    (slot_ok (references (cf_pool c) i) (buffer (cf_pool c) i)
       (users i l1 ++ option_list (use i a) ++ users i l2) (phases i l1 ++ option_list (phase_of i a) ++ phases i l2) ->
     slot_ok n (buffer (cf_pool c) i) (users i l1 ++ users i out' ++ users i l2) (phases i l1 ++ phases i out' ++ phases i l2)) ->
    Forall agent_ok out' -> out' ≫= owned = owned a ->
    pool_ok (mkConfig (set_reference i n (cf_pool c)) (l1 ++ out' ++ l2) (cf_allocated c ++ []) (cf_freed c ++ []))) as Hstep.
  { intros i n out' Hi Hh Hnone Hslot Hout Hown. apply (slot_step c l1 a l2 i _ out' Silent Hok Hag); try done.
    - apply Hok.
    - rewrite Hh. done.
    - intros b Hb. rewrite (Href i n b Hi). by rewrite decide_False.
    - rewrite (Href i n i Hi), decide_True by done. exact Hslot.
    - cbn [frees allocations]. rewrite !app_nil_r. by rewrite Hown. }
  destruct a as [| | | | | |i|i| | | | | | | | | | | | | | | |]; try done; cbn [agent_step agent_ok] in *; unfold goes, ends.
  - destruct ch; intros [= <- <- <-]; (apply Hstep; [done|done|intros b Hb; cbn; by rewrite !decide_False| |by apply Forall_singleton|done]);
      cbn; rewrite ?decide_True by done; intros Hs; destruct (used_inv _ _ _ _ _ _ Hs) as (Hps & Hb & _ & H1 & H2); cbn in Hps |- *; rewrite Hps, H1, H2.
    + right. left. split; [by vm_compute|]. split; [by repeat constructor|done].
    + left. done.
    + left. done.
  - assert (forall n, 1 <= references (cf_pool c) i < WRITER ->
      slot_ok (references (cf_pool c) i) (buffer (cf_pool c) i) (users i l1 ++ [ForRaw] ++ users i l2) (phases i l1 ++ [] ++ phases i l2) ->
      n = references (cf_pool c) i - 1 -> slot_ok n (buffer (cf_pool c) i) (users i l1 ++ users i l2) (phases i l1 ++ phases i l2)) as Hdrop.
    { intros n _ Hs ->. destruct (used_inv _ _ _ _ _ _ Hs) as (Hps & Hb & Hr & Hall & Hl). cbn in Hps. rewrite Hps.
      destruct (decide (references (cf_pool c) i = 1)) as [He|He].
      - left. rewrite He in *. split; [done|]. split; [|done]. apply zlen_0_nil. lia.
      - right. left. split; [lia|]. done. }
    assert (slot_ok (references (cf_pool c) i) (buffer (cf_pool c) i) (users i l1 ++ [ForRaw] ++ users i l2) (phases i l1 ++ [] ++ phases i l2)) as Hs0.
    { pose proof (po_slots _ Hok i Hin) as Hs. rewrite Hag, users_mid, phases_mid in Hs. cbn in Hs. by rewrite decide_True in Hs. }
    assert (1 <= references (cf_pool c) i < WRITER) as Hr by (by destruct (used_inv _ _ _ _ _ _ Hs0) as (_ & _ & ? & _)).
    assert (as_u8 (references (cf_pool c) i - 1) = references (cf_pool c) i - 1) as Hd by (apply as_u8_small; unfold WRITER in Hr; lia).
    assert ((if references (cf_pool c) i =? 1 then goes (set_reference i (as_u8 (references (cf_pool c) i - 1)) (cf_pool c)) (Releasing i)
       else ends (set_reference i (as_u8 (references (cf_pool c) i - 1)) (cf_pool c))) = Ok (p, out, e) ->
       pool_ok (mkConfig p (l1 ++ out ++ l2) (cf_allocated c ++ allocations e) (cf_freed c ++ frees e))) as Hdrops.
    { intros Heq. rewrite Hd in Heq.
      destruct (references (cf_pool c) i =? 1); injection Heq as <- <- <-; (apply Hstep; [done|done|intros b Hb; cbn; by rewrite !decide_False| | |done]);
        try (by apply Forall_singleton); try constructor; cbn; rewrite ?decide_True by done; intros Hs; by eapply Hdrop. }
    destruct ch; [exact Hdrops|exact Hdrops|].
    destruct ((references (cf_pool c) i =? 0) || (WRITER - 1 <=? references (cf_pool c) i)) eqn:Hov; [done|].
    apply orb_false_iff in Hov as [_ Hov%Z.leb_gt]. intros [= <- <- <-].
    rewrite as_u8_small by (unfold WRITER in *; lia).
    apply Hstep; [done|done|intros b Hb; cbn; by rewrite !decide_False| |by repeat constructor|done].
    cbn. rewrite !decide_True by done. cbn. intros Hs. destruct (used_inv _ _ _ _ _ _ Hs) as (Hps & Hb & _ & Hall & Hl). rewrite Hps.
    apply Forall_app in Hall as [Hall1 Hall2]. right. left. split; [unfold WRITER in *; lia|].
    split; [apply Forall_app; split; [done|]; by repeat constructor|]. split; [|done].
    rewrite !zlen_app, !zlen_cons in *. lia.
Qed.

(** *** Retirement *)
Lemma lock_is_held c l1 a l2 : pool_ok c -> cf_agents c = l1 ++ a :: l2 -> holds_lock a = true -> hp_lock (cf_pool c) = true.
Proof.
  intros Hok Hag Ha. pose proof (po_lock _ Hok) as Hz. rewrite Hag, zsum_mid in Hz.
  pose proof (holding_nonneg l1). pose proof (holding_nonneg l2). unfold holding at 2, locked in Hz. rewrite Ha in Hz.
  destruct (hp_lock (cf_pool c)); [done|lia].
Qed.

Lemma release_step c l1 a l2 p out e :
  pool_ok c -> cf_agents c = l1 ++ a :: l2 ->
  match a with Releasing _ | TryFinal _ | FinalCapacity _ | FinalReferences _ | Freeing _ _ => True | _ => False end ->
  agent_step MAX_SLOTS (cf_pool c) None Commit a = Ok (p, out, e) ->
  pool_ok (mkConfig p (l1 ++ out ++ l2) (cf_allocated c ++ allocations e) (cf_freed c ++ frees e)).
Proof.
  intros Hok Hag Hkind. pose proof (pool_agent_ok _ _ _ _ Hok Hag) as Hin.
  destruct a as [| | | | | | | |i|i|i|i| | |b j| | | | | | | | |]; try done; cbn [agent_step agent_ok] in *; unfold goes, ends.
  - destruct (_ <? _)%nat; intros [= <- <- <-]; quiet Hok Hag; by apply Forall_singleton.
  - destruct (hp_lock (cf_pool c)) eqn:Hl; intros [= <- <- <-]; quiet Hok Hag; try (by apply Forall_singleton).
    unfold locked, lock. get_set. by rewrite Hl.
  - destruct (_ <? _)%nat; intros [= <- <- <-]; quiet Hok Hag; by apply Forall_singleton.
  - destruct (Z.eqb_spec (references (cf_pool c) i) 0); intros [= <- <- <-]; [|quiet Hok Hag; by apply Forall_singleton].
    eapply (find_step c l1 _ l2 i _ FoundFree Hok Hag); try done; by left.
  - intros [= <- <- <-]. quiet Hok Hag; by apply Forall_singleton.
Qed.

Lemma retire_step c l1 a l2 p out e :
  pool_ok c -> cf_agents c = l1 ++ a :: l2 ->
  match a with RetireMark _ _ | RetireSwap _ _ => True | _ => False end ->
  agent_step MAX_SLOTS (cf_pool c) None Commit a = Ok (p, out, e) ->
  pool_ok (mkConfig p (l1 ++ out ++ l2) (cf_allocated c ++ allocations e) (cf_freed c ++ frees e)).
Proof.
  intros Hok Hag Hkind. pose proof (pool_agent_ok _ _ _ _ Hok Hag) as Hin.
  destruct a as [| | | | | | | | | | | |i j|i j| | | | | | | | | |]; try done; cbn [agent_step agent_ok] in *; unfold goes; destruct Hin as [Hi Hj].
  - intros [= <- <- <-]. apply (slot_step c l1 _ l2 i _ _ _ Hok Hag); try done.
    + apply Hok.
    + unfold set_reference. get_set. rewrite length_insert. apply Hok.
    + intros b Hb. rewrite references_set by (by rewrite (po_references _ Hok)). by rewrite decide_False.
    + intros b Hb. cbn. by rewrite !decide_False.
    + rewrite references_set, decide_True by (rewrite ?(po_references _ Hok); done). cbn. rewrite !decide_True by done. cbn.
      intros Hs. destruct (phase_alone _ _ _ _ _ _ Hs) as (H1 & H2 & H3). rewrite H1, H2, H3 in *. cbn in *. by destruct Hs as (_ & _ & Hb).
    + by apply Forall_singleton.
  - assert (slot_ok (references (cf_pool c) i) (buffer (cf_pool c) i) (users i l1 ++ users i l2) (phases i l1 ++ [Retiring] ++ phases i l2)) as Hs.
    { pose proof (po_slots _ Hok i Hi) as Hs. rewrite Hag, users_mid, phases_mid in Hs. cbn in Hs. by rewrite decide_True in Hs. }
    destruct (phase_alone _ _ _ _ _ _ Hs) as (H1 & H2 & [H3 H4]%app_eq_nil). rewrite H1, H2, H3, H4 in Hs. cbn in Hs. destruct Hs as (Hr & _ & [b0 Hb0]).
    rewrite Hb0. intros [= <- <- <-]. apply (slot_step c l1 _ l2 i _ _ _ Hok Hag); try done.
    + unfold set_buffer. get_set. rewrite length_insert. apply Hok.
    + apply Hok.
    + intros b Hb. rewrite buffer_set by (by rewrite (po_buffers _ Hok)). by rewrite decide_False.
    + intros b Hb. cbn. by rewrite !decide_False.
    + intros _. rewrite buffer_set, decide_True by (rewrite ?(po_buffers _ Hok); done). rewrite H1, H2, H3, H4. cbn. right. right. right. done.
    + by apply Forall_singleton.
    + pose proof (buffer_lookup (cf_pool c) i) as Hl. rewrite (po_buffers _ Hok), Hb0 in Hl. specialize (Hl Hi).
      destruct (omap_insert id _ _ _ Hl) as (R & Hm1 & Hm2). unfold set_buffer. get_set. rewrite Hm1, (Hm2 None). cbn.
      by rewrite !app_nil_r, <- Permutation_cons_append.
Qed.

Lemma job_ok_step c l1 j l2 p out e :
  pool_ok c -> cf_agents c = l1 ++ Working j :: l2 -> job_step MAX_SLOTS (cf_pool c) j = Ok (p, out, e) ->
  pool_ok (mkConfig p (l1 ++ out ++ l2) (cf_allocated c ++ allocations e) (cf_freed c ++ frees e)).
Proof.
  intros Hok Hag. pose proof (pool_agent_ok _ _ _ _ Hok Hag) as Hin. cbn in Hin. destruct j as [|i current target|i]; cbn [job_step job_ok] in *; unfold goes, ends.
  - intros [= <- <- <-]. quiet Hok Hag. unfold locked, unlock. get_set. by rewrite (lock_is_held _ _ _ _ Hok Hag).
  - destruct (Nat.ltb_spec i current); [destruct (Z.eqb_spec (references (cf_pool c) i) 0)|]; intros [= <- <- <-].
    + eapply (find_step c l1 _ l2 i _ FoundFree Hok Hag); try done; [lia|by left|by split; [cbn; lia|]].
    + quiet Hok Hag; by apply Forall_singleton.
    + quiet Hok Hag; by apply Forall_singleton.
  - destruct (Nat.ltb_spec i MAX_SLOTS); [destruct (Z.eqb_spec (references (cf_pool c) i) 0); [destruct (bool_decide _)|]|]; cbn [andb]; intros [= <- <- <-];
      try (quiet Hok Hag; by apply Forall_singleton).
    eapply (find_step c l1 _ l2 i _ FoundFree Hok Hag); try done; by left.
Qed.

(** *** Resizing *)
Lemma resize_step c l1 a l2 alloc p out e :
  pool_ok c -> cf_agents c = l1 ++ a :: l2 -> (forall b, alloc = Some b -> b ∉ cf_allocated c) ->
  match a with Growing _ _ _ | GrowLock _ _ | Installing _ _ | ShrinkLock _ _ | SetCapacity _ _ | Dropping _ => True | _ => False end ->
  agent_step MAX_SLOTS (cf_pool c) alloc Commit a = Ok (p, out, e) ->
  pool_ok (mkConfig p (l1 ++ out ++ l2) (cf_allocated c ++ allocations e) (cf_freed c ++ frees e)).
Proof.
  intros Hok Hag Hfresh Hkind. pose proof (pool_agent_ok _ _ _ _ Hok Hag) as Hin.
  destruct a as [| | | | | | | | | | | | | | |i target pending|target pending|target pending| | |current target|current target| |pending];
    try done; cbn [agent_step agent_ok] in *; unfold goes, ends.
  - destruct Hin as [Ht Hp]. destruct (Nat.ltb_spec i target); [destruct (buffer (cf_pool c) i); [|destruct alloc as [b|]]|]; intros [= <- <- <-].
    + quiet Hok Hag; by apply Forall_singleton.
    + apply (quiet_step _ _ _ _ _ _ _ Hok Hag); try done; try apply Hok.
      * apply Forall_singleton. cbn. split; [done|]. apply Forall_app. split; [done|]. apply Forall_singleton. cbn. lia.
      * cbn. rewrite fmap_app, !app_nil_r. done.
      * intros b' ->%list_elem_of_singleton. by apply Hfresh.
      * apply NoDup_singleton.
    + quiet Hok Hag.
    + quiet Hok Hag; by apply Forall_singleton.
  - destruct (hp_lock (cf_pool c)) eqn:Hl; intros [= <- <- <-]; quiet Hok Hag; try (by apply Forall_singleton).
    unfold locked, lock. get_set. by rewrite Hl.
  - destruct Hin as [Ht Hp]. destruct pending as [|[i b] pending]; [|apply Forall_cons in Hp as [Hi Hp]; destruct (buffer (cf_pool c) i) as [b0|] eqn:Hb];
      intros [= <- <- <-].
    + quiet Hok Hag. apply Forall_singleton. cbn. lia.
    + apply (quiet_step _ _ _ _ _ _ _ Hok Hag); try done; try apply Hok; [by apply Forall_singleton| |no_alloc|constructor].
      cbn. by rewrite !app_nil_r, Permutation_app_comm.
    + eapply (find_step c l1 _ l2 i _ FoundEmpty Hok Hag); try done; by right.
  - destruct (hp_lock (cf_pool c)) eqn:Hl; intros [= <- <- <-]; quiet Hok Hag; try (by apply Forall_singleton).
    unfold locked, lock. get_set. by rewrite Hl.
  - intros [= <- <- <-]. apply (quiet_step _ _ _ _ _ _ _ Hok Hag); try done; try (apply Hin); [|no_alloc|constructor].
    apply Forall_singleton. cbn. lia.
  - destruct pending as [|[i b] pending]; intros [= <- <- <-].
    + quiet Hok Hag.
    + apply (quiet_step _ _ _ _ _ _ _ Hok Hag); try done; try apply Hok; [by apply Forall_singleton| |no_alloc|constructor].
      cbn. by rewrite !app_nil_r, Permutation_app_comm.
Qed.

Lemma install_step c l1 a l2 p out e :
  pool_ok c -> cf_agents c = l1 ++ a :: l2 ->
  match a with StoreBuffer _ _ _ _ | StoreReference _ _ _ => True | _ => False end ->
  agent_step MAX_SLOTS (cf_pool c) None Commit a = Ok (p, out, e) ->
  pool_ok (mkConfig p (l1 ++ out ++ l2) (cf_allocated c ++ allocations e) (cf_freed c ++ frees e)).
Proof.
  intros Hok Hag Hkind. pose proof (pool_agent_ok _ _ _ _ Hok Hag) as Hin.
  destruct a as [| | | | | | | | | | | | | | | | | |i b target pending|i target pending| | | |];
    try done; cbn [agent_step agent_ok] in *; unfold goes; destruct Hin as (Hi & Ht & Hp); intros [= <- <- <-].
  - assert (slot_ok (references (cf_pool c) i) (buffer (cf_pool c) i) (users i l1 ++ users i l2) (phases i l1 ++ [FoundEmpty] ++ phases i l2)) as Hs.
    { pose proof (po_slots _ Hok i Hi) as Hs. rewrite Hag, users_mid, phases_mid in Hs. cbn in Hs. by rewrite decide_True in Hs. }
    destruct (phase_alone _ _ _ _ _ _ Hs) as (H1 & H2 & [H3 H4]%app_eq_nil). rewrite H1, H2, H3, H4 in Hs. cbn in Hs. destruct Hs as (Hr & _ & Hb0).
    apply (slot_step c l1 _ l2 i _ _ _ Hok Hag); try done.
    + unfold set_buffer. get_set. rewrite length_insert. apply Hok.
    + apply Hok.
    + intros b' Hb. rewrite buffer_set by (by rewrite (po_buffers _ Hok)). by rewrite decide_False.
    + intros b' Hb. cbn. by rewrite !decide_False.
    + intros _. rewrite buffer_set, decide_True by (rewrite ?(po_buffers _ Hok); done). rewrite H1, H2, H3, H4. cbn. rewrite decide_True by done. cbn. done.
    + by apply Forall_singleton.
    + pose proof (buffer_lookup (cf_pool c) i) as Hl. rewrite (po_buffers _ Hok), Hb0 in Hl. specialize (Hl Hi).
      destruct (omap_insert id _ _ _ Hl) as (R & Hm1 & Hm2). unfold set_buffer. get_set. rewrite Hm1, (Hm2 (Some b)). cbn.
      rewrite !app_nil_r. by rewrite <- (Permutation_middle R).
  - apply (slot_step c l1 _ l2 i _ _ _ Hok Hag); try done.
    + apply Hok.
    + unfold set_reference. get_set. rewrite length_insert. apply Hok.
    + intros b Hb. rewrite references_set by (by rewrite (po_references _ Hok)). by rewrite decide_False.
    + intros b Hb. cbn. by rewrite !decide_False.
    + rewrite references_set, decide_True by (rewrite ?(po_references _ Hok); done). cbn. rewrite !decide_True by done. cbn.
      intros Hs. destruct (phase_alone _ _ _ _ _ _ Hs) as (H1 & H2 & H3). rewrite H1, H2, H3 in *. cbn in *. left. by destruct Hs as (_ & _ & Hb).
    + by apply Forall_singleton.
    + cbn. by rewrite !app_nil_r.
Qed.

(** *** Every step *)
Lemma alloc_unused p alloc ch a :
  match a with Growing _ _ _ => False | _ => True end -> agent_step MAX_SLOTS p alloc ch a = agent_step MAX_SLOTS p None ch a.
Proof. by destruct a. Qed.
Lemma choice_unused p alloc ch a :
  match a with Writing _ | Leased _ => False | _ => True end -> agent_step MAX_SLOTS p alloc ch a = agent_step MAX_SLOTS p alloc Commit a.
Proof. by destruct a. Qed.

Lemma act_ok c l1 a l2 alloc ch p out e :
  pool_ok c -> cf_agents c = l1 ++ a :: l2 -> (forall b, alloc = Some b -> b ∉ cf_allocated c) ->
  agent_step MAX_SLOTS (cf_pool c) alloc ch a = Ok (p, out, e) ->
  pool_ok (mkConfig p (l1 ++ out ++ l2) (cf_allocated c ++ allocations e) (cf_freed c ++ frees e)).
Proof.
  intros Hok Hag Hfresh Hstep. destruct a;
    first [rewrite alloc_unused in Hstep by done; by eapply holder_step
          |rewrite choice_unused in Hstep by done; first [by eapply resize_step; try exact Hfresh|by eapply job_ok_step
          |rewrite alloc_unused in Hstep by done; first [by eapply acquire_step|by eapply release_step|by eapply retire_step|by eapply install_step]]].
Qed.

Lemma start_ok c a :
  pool_ok c -> agent_ok a -> (forall b, use b a = None /\ phase_of b a = None) -> owned a = [] -> holds_lock a = false ->
  pool_ok (mkConfig (cf_pool c) (cf_agents c ++ [a]) (cf_allocated c) (cf_freed c)).
Proof.
  intros [Hb Hr Hc Hl Hs Ha Hv Hn] Hao Hnone Hown Hh. constructor; cbn [cf_pool cf_agents cf_allocated cf_freed]; try done.
  - rewrite zsum_app. cbn. unfold holding at 2. rewrite Hh. lia.
  - intros b Hlt. destruct (Hnone b) as [Hu Hp]. specialize (Hs b Hlt). unfold users, phases in *. rewrite !omap_app. cbn. by rewrite Hu, Hp, !app_nil_r.
  - apply Forall_app. by rewrite Forall_singleton.
  - rewrite Hv, bind_app. cbn. by rewrite Hown, !app_nil_r.
Qed.

Lemma pool_step_ok c c' : pool_ok c -> pool_step MAX_SLOTS c c' -> pool_ok c'.
Proof.
  intros Hok [k reserved|target Ht|l1 a l2 alloc ch p out e Hag Hfresh Hstep].
  - by apply start_ok.
  - pose proof (po_capacity _ Hok). unfold start_resize. destruct (_ <? _)%nat; by apply start_ok.
  - by eapply act_ok.
Qed.

Lemma empty_ok p : new MAX_SLOTS = Ok p -> pool_ok (mkConfig p [] [] []).
Proof.
  unfold new. destruct (_ <=? _); [|done]. intros [= <-].
  constructor; cbn; [by rewrite length_replicate|by rewrite length_replicate|lia|done| |by constructor| |by constructor].
  - intros b Hb. unfold references, buffer. cbn. rewrite !lookup_replicate_2 by done. cbn. right. right. right. done.
  - rewrite app_nil_r. clear. induction MAX_SLOTS as [|n IH]; [done|]. exact IH.
Qed.

Lemma reachable_ok c : reachable MAX_SLOTS c -> pool_ok c.
Proof.
  intros (p & Hnew & Hrun). apply empty_ok in Hnew. revert Hnew.
  induction Hrun as [c|c c1 c2 Hstep _ IH]; intros Hok; [done|]. apply IH. by eapply pool_step_ok.
Qed.

(** ** What a user of a slot has *)
Lemma use_in_range b a k : agent_ok a -> use b a = Some k -> (b < MAX_SLOTS)%nat.
Proof. destruct a; cbn; try done; case_decide; by subst. Qed.

(** C22: writers, leases, raw references, their drops and any number of resizes
    interleave one atomic access at a time; then: the slot an acquisition, a writer
    or a lease has is one with storage, the storage is the allocator's and is not
    freed; a writer (or who has just claimed a slot for one) is the only user; and
    the reference count of a slot with leases is their number. *)
Theorem storage_outlives_users c b a k :
  reachable MAX_SLOTS c -> a ∈ cf_agents c -> use b a = Some k ->
  (exists s, buffer (cf_pool c) b = Some s /\ s ∈ cf_allocated c /\ s ∉ cf_freed c) /\
  match k with
  | ForWriter => users b (cf_agents c) = [ForWriter] /\ references (cf_pool c) b = WRITER
  | ForRaw => Forall (fun k => k = ForRaw) (users b (cf_agents c)) /\ references (cf_pool c) b = zlen (users b (cf_agents c)) /\
      references (cf_pool c) b < WRITER
  end.
Proof.
  intros Hok%reachable_ok [l1 [l2 Hag]]%list_elem_of_split Hu. pose proof (pool_agent_ok _ _ _ _ Hok Hag) as Hin.
  pose proof (use_in_range _ _ _ Hin Hu) as Hlt. pose proof (po_slots _ Hok b Hlt) as Hs.
  pose proof Hs as Hs'. rewrite Hag, users_mid, phases_mid, Hu in Hs'. cbn [option_list option_rect] in Hs'.
  assert (phase_of b a = None) as Hp by (destruct a; cbn in Hu |- *; done). rewrite Hp in Hs'. cbn [option_list option_rect app] in Hs'.
  destruct (used_inv _ _ _ _ _ _ Hs') as (Hps & [s Hb] & Hk). split.
  - exists s. split; [done|]. pose proof (po_conserved _ Hok) as Hv. pose proof (po_fresh _ Hok) as Hn. rewrite Hv in Hn.
    assert (s ∈ omap id (hp_buffers (cf_pool c))) as Hs1.
    { apply list_elem_of_omap. exists (Some s). split; [|done]. apply list_elem_of_lookup. exists b.
      rewrite buffer_lookup by (by rewrite (po_buffers _ Hok)). by rewrite Hb. }
    split; [rewrite Hv; set_solver|]. apply NoDup_app in Hn as (_ & Hn & _). specialize (Hn s Hs1). set_solver.
  - rewrite Hag, users_mid, Hu. cbn [option_list option_rect].
    destruct k; [|].
    + destruct Hk as (Hr & H1 & H2). by rewrite H1, H2.
    + destruct Hk as (Hr & [Hall1 Hall2]%Forall_app & Hl). rewrite !zlen_app in *. change (zlen [ForRaw]) with 1.
      split; [|lia]. apply Forall_app. split; [done|]. by apply Forall_cons.
Qed.

(** C23: whatever the interleaving, each buffer the allocator gave is in one place:
    installed in a slot, in the hands of one resize or one retirement, or freed; none
    is freed twice or lost. *)
Theorem heap_buffers_conserved c :
  reachable MAX_SLOTS c ->
  cf_allocated c ≡ₚ omap id (hp_buffers (cf_pool c)) ++ (cf_agents c ≫= owned) ++ cf_freed c /\ NoDup (cf_allocated c).
Proof. intros [? ? ? ? ? ? ? ?]%reachable_ok. done. Qed.

(** Nothing panics except a clone of a lease when the slot has 254 of them. *)
Theorem clone_panics_exactly c a alloc ch :
  reachable MAX_SLOTS c -> a ∈ cf_agents c ->
  agent_step MAX_SLOTS (cf_pool c) alloc ch a = Panic <->
  exists slot, a = Leased slot /\ ch = Clone /\ zlen (users slot (cf_agents c)) = WRITER - 1.
Proof.
  intros Hr Ha. assert (forall slot, a = Leased slot -> 1 <= references (cf_pool c) slot < WRITER /\
      references (cf_pool c) slot = zlen (users slot (cf_agents c))) as Hrefs.
  { intros slot ->. pose proof (reachable_ok _ Hr) as Hok. apply list_elem_of_split in Ha as (l1 & l2 & Hag).
    pose proof (pool_agent_ok _ _ _ _ Hok Hag) as Hin. pose proof (po_slots _ Hok slot Hin) as Hs. rewrite Hag, users_mid in Hs |- *. rewrite phases_mid in Hs.
    cbn in Hs |- *. rewrite decide_True in * by done. destruct (used_inv _ _ _ _ _ _ Hs) as (_ & _ & ? & _ & Hl).
    rewrite !zlen_app in *. change (zlen (option_list (Some ForRaw))) with 1. lia. }
  split.
  - intros Hp. destruct a; try (cbn in Hp; unfold job_step, goes, ends in Hp; repeat case_match; done).
    destruct (Hrefs slot eq_refl) as [H1 H2]. exists slot. split; [done|]. cbn in Hp. unfold goes, ends in Hp. destruct ch; [by case_match..|].
    split; [done|]. case_match eqn:Hc; [|done]. apply orb_true_iff in Hc as [Hc%Z.eqb_eq|Hc%Z.leb_le]; lia.
  - intros (slot & -> & -> & Hn). destruct (Hrefs slot eq_refl) as [H1 H2]. cbn. rewrite (proj2 (Z.leb_le _ _)) by lia.
    by rewrite orb_true_r.
Qed.

(** ** Who may run in a callback never spins *)

(** Acquiring, and releasing at the end of a lease. *)
Definition callback a : bool :=
  match a with
  | Trying _ _ | Entered _ _ | Counting _ _ _ _ _ | Finding _ _ _ | Marking _ _ | Leaving _ _
  | Releasing _ | TryFinal _ | FinalCapacity _ | FinalReferences _
  | RetireMark _ JobUnlock | RetireSwap _ JobUnlock | Freeing _ JobUnlock | Working JobUnlock => true
  | _ => false
  end.
Definition held a : bool := match a with Writing _ | Leased _ => true | _ => false end.

(** The own steps a callback has left at most. *)
Definition rank a : nat :=
  match a with
  | Trying _ _ => 2 * MAX_SLOTS + 11
  | Entered _ _ => 2 * MAX_SLOTS + 10
  | Counting _ _ capacity i _ => MAX_SLOTS + 9 + (capacity - i)
  | Finding _ capacity i => 8 + (capacity - i)
  | Releasing _ => 8 | TryFinal _ => 7 | FinalCapacity _ => 6 | FinalReferences _ => 5
  | RetireMark _ _ => 4 | RetireSwap _ _ => 3
  | Marking _ _ | Freeing _ _ => 2
  | Leaving _ _ | Working _ => 1
  | _ => 0
  end.

(** An acquisition or the release at the end of a lease ends after at most
    [2 * MAX_SLOTS + 11] steps of its own, whatever the others do between them and
    whoever has the lock: every step is possible, comes nearer to the end, and never
    turns into the owner's waiting for the lock. *)
Theorem callbacks_never_spin c a alloc ch :
  reachable MAX_SLOTS c -> a ∈ cf_agents c -> callback a = true ->
  exists p out e, agent_step MAX_SLOTS (cf_pool c) alloc ch a = Ok (p, out, e) /\ (length out <= 1)%nat /\
    Forall (fun a' => held a' = true \/ (callback a' = true /\ (rank a' < rank a)%nat)) out.
Proof.
  intros Hok%reachable_ok Ha Hc. pose proof (po_agents _ Hok) as Hin. rewrite Forall_forall in Hin. specialize (Hin a Ha).
  pose proof (po_capacity _ Hok) as Hcap. destruct a; try done; try (destruct next; try done); try (destruct j; try done);
    unfold agent_step, job_step, goes, ends; cbn [agent_ok] in *; repeat case_match;
    eexists _, _, _; (split; [reflexivity|]); (split; [cbn; lia|]); first [by apply Forall_nil|apply Forall_singleton]; unfold held, callback, rank;
    repeat match goal with H : (_ <? _)%nat = true |- _ => apply Nat.ltb_lt in H | H : (_ <? _)%nat = false |- _ => apply Nat.ltb_ge in H end;
    (by left) || (right; split; [done|lia]).
Qed.
End pool.

(** ** The owner's calls: growth within the memory budget *)
Section budget.
Context (MAX_SLOTS : nat) {A : Type} (allocate : A -> option Z * A) (deallocate : Z -> A -> A) (MTU : Z).
(** The buffers given out and not yet taken back. *)
Context (live : A -> Z).
Hypothesis live_given : forall h b h', allocate h = (Some b, h') -> live h' = live h + 1.
Hypothesis live_refused : forall h h', allocate h = (None, h') -> live h' = live h.
Hypothesis live_back : forall b h, live (deallocate b h) = live h - 1.

Abbreviation state := (HeapPacketPool * A)%type.
Definition kept (s s' : state) : Prop := hp_capacity s'.1 = hp_capacity s.1 /\ live s'.2 <= live s.2.

Lemma kept_trans (s1 s2 s3 : state) : kept s1 s2 -> kept s2 s3 -> kept s1 s3.
Proof. unfold kept. intros [-> ?] [-> ?]. split; [done|lia]. Qed.
Lemma kept_refl s : kept s s.
Proof. split; [done|lia]. Qed.
Lemma kept_fold {B} (f : state -> B -> state) (l : list B) s : (forall s x, kept s (f s x)) -> kept s (fold_left f l s).
Proof. intros Hf. revert s. induction l as [|x l IH]; intros s; [apply kept_refl|]. eapply kept_trans; [apply Hf|apply IH]. Qed.

Lemma retire_kept slot s : kept s (retire_locked deallocate slot s).
Proof. destruct s as [p h]. unfold retire_locked, kept, set_buffer, set_reference. cbn. get_set. split; [done|]. destruct (buffer p slot); rewrite ?live_back; lia. Qed.
Lemma reclaim_kept capacity s : kept s (reclaim_retired_locked MAX_SLOTS deallocate capacity s).
Proof. apply kept_fold. intros s' slot. case_match; [apply retire_kept|apply kept_refl]. Qed.
Lemma install_kept s sb : kept s (install deallocate s sb).
Proof. destruct s as [p h]. unfold install, kept, set_buffer, set_reference. destruct (buffer p sb.1); cbn; get_set; rewrite ?live_back; (split; [done|lia]). Qed.

Lemma give_back (l : list (nat * Z)) h : live (fold_left (fun h sb => deallocate sb.2 h) l h) = live h - zlen l.
Proof. revert h. induction l as [|sb l IH]; intros h; cbn [fold_left]; [unfold zlen; cbn; lia|]. rewrite IH, live_back, zlen_cons. lia. Qed.

Lemma allocate_pending_live p slots pending h r h' :
  allocate_pending allocate deallocate p slots pending h = (r, h') ->
  match r with
  | Some _ => live h' <= live h + Z.of_nat (length slots)
  | None => live h' = live h - zlen pending
  end.
Proof.
  revert pending h. induction slots as [|slot slots IH]; intros pending h; cbn [allocate_pending].
  - intros [= <- <-]. cbn. lia.
  - destruct (buffer p slot).
    + intros Hr%IH. destruct r; cbn [length] in *; lia.
    + destruct (allocate h) as [[b|] h1] eqn:Ha.
      * apply live_given in Ha. intros Hr%IH. destruct r; [cbn [length]; lia|]. rewrite zlen_cons in Hr. lia.
      * intros [= <- <-]. rewrite give_back, (live_refused _ _ Ha). unfold zlen. by rewrite length_rev.
Qed.

(** A resize sets the capacity and frees; growth allocates at most the new slots;
    a growth that fails changes nothing and gives back what it had taken. *)
Lemma resize_live target p h r s' :
  (target <= MAX_SLOTS)%nat -> resize MAX_SLOTS allocate deallocate target (p, h) = (r, s') ->
  (r = Ok tt /\ hp_capacity s'.1 = target /\ live s'.2 <= live h + Z.of_nat (target - hp_capacity p)) \/
  (r = Err HeapPacketPoolError.AllocationFailed /\ (hp_capacity p < target)%nat /\ s'.1 = p /\ live s'.2 = live h).
Proof.
  intros Ht. unfold resize. rewrite (proj2 (Nat.ltb_ge _ _)) by lia. destruct (Nat.ltb_spec (hp_capacity p) target) as [Hlt|Hge].
  - destruct (allocate_pending _ _ _ _ _ _) as [[pending|] h1] eqn:Ha; apply allocate_pending_live in Ha.
    + rewrite length_seq in Ha. pose proof (kept_fold (install deallocate) pending (p, h1) install_kept) as [_ Hk].
      destruct (fold_left (install deallocate) pending (p, h1)) as [p2 h2]. intros [= <- <-]. left. split; [done|].
      destruct (reclaim_kept target (p2 <| hp_capacity := target |>, h2)) as [-> Hk2]. cbn [fst snd] in *. get_set. split; [done|lia].
    + change (zlen (@nil (nat * Z))) with 0 in Ha. intros [= <- <-]. right. repeat split; try done. cbn [snd]. lia.
  - intros [= <- <-]. left. split; [done|]. set (s1 := fold_left _ _ _).
    assert (kept (p <| hp_capacity := target |>, h) s1) as [Hk1 Hk2] by (apply kept_fold; intros s slot; case_match; [apply retire_kept|apply kept_refl]).
    destruct (reclaim_kept target s1) as [-> Hk3]. rewrite Hk1. cbn [fst snd] in *. get_set. split; [done|lia].
Qed.

Lemma grow_by_live n s s' :
  (hp_capacity s.1 + n <= MAX_SLOTS)%nat -> grow_by MAX_SLOTS allocate deallocate n (S (hp_capacity s.1)) s = s' ->
  (hp_capacity s.1 <= hp_capacity s'.1 <= hp_capacity s.1 + n)%nat /\ live s'.2 <= live s.2 + Z.of_nat n.
Proof.
  revert s. induction n as [|n IH]; intros [p h]; cbn [grow_by fst snd]; [intros ? <-; cbn; lia|]. intros Hn.
  destruct (resize _ _ _ _ _) as [r s1] eqn:Hr. apply resize_live in Hr; [|lia].
  destruct Hr as [(-> & Hc & Hl)|(-> & _ & Hc & Hl)].
  - rewrite <- Hc. intros Hg. apply IH in Hg; [|lia]. lia.
  - intros <-. rewrite Hc. lia.
Qed.

Lemma slot_bytes_pos : 1 <= slot_bytes MTU.
Proof. unfold slot_bytes. lia. Qed.

Lemma growth_admitted target available_bytes reserve_bytes s r s' :
  (hp_capacity s.1 < target <= MAX_SLOTS)%nat ->
  resize_with_budget MAX_SLOTS allocate deallocate MTU target available_bytes reserve_bytes s = (r, s') ->
  r = Ok (hp_capacity s'.1) /\ (hp_capacity s.1 <= hp_capacity s'.1 <= target)%nat /\
  (live s'.2 - live s.2) * slot_bytes MTU <= Z.max (available_bytes - reserve_bytes) 0.
Proof.
  intros Ht. unfold resize_with_budget. rewrite (proj2 (Nat.ltb_ge _ _)), (proj2 (Nat.leb_gt _ _)) by lia.
  set (growth := sat_sub available_bytes reserve_bytes / slot_bytes MTU). set (admitted := Nat.min _ _).
  pose proof slot_bytes_pos as Hs. assert (0 <= growth) as Hg by (apply Z.div_pos; unfold sat_sub; lia).
  assert (growth * slot_bytes MTU <= Z.max (available_bytes - reserve_bytes) 0) as Hb
    by (rewrite Z.mul_comm; apply Z.mul_div_le; lia).
  assert (Z.of_nat (admitted - hp_capacity s.1) <= growth) as Ha by (unfold admitted, sat_add; lia).
  destruct (grow_by _ _ _ _ _ _) as [p' h'] eqn:Hgrow. intros [= <- <-]. apply grow_by_live in Hgrow; [|lia].
  split; [done|]. split; [lia|]. nia.
Qed.

(** C24: maintenance: within the device limit it returns the capacity reached, which
    is at most the slots in use plus the free target and at most the limit; it lowers
    the capacity only to that; and the storage it allocates beyond what it frees,
    each slot with its overhead, fits in what is available above the reserve.  A
    largest free block below one slot allocates nothing. *)
Theorem maintenance_within_budget target_free device_limit available_bytes largest_free_block reserve_bytes s r s' :
  (device_limit <= MAX_SLOTS)%nat ->
  maintain_free MAX_SLOTS allocate deallocate MTU target_free device_limit available_bytes largest_free_block reserve_bytes s = (r, s') ->
  let desired := Nat.min (Z.to_nat (sat_add (in_use s.1) (Z.of_nat target_free))) device_limit in
  r = Ok (hp_capacity s'.1) /\ (Nat.min (hp_capacity s.1) desired <= hp_capacity s'.1 <= desired)%nat /\
  (live s'.2 - live s.2) * slot_bytes MTU <= Z.max (available_bytes - reserve_bytes) 0 /\
  (largest_free_block < slot_bytes MTU -> live s'.2 <= live s.2).
Proof.
  intros Hd. unfold maintain_free. rewrite (proj2 (Nat.ltb_ge _ _)) by lia. set (desired := Nat.min _ _). cbn zeta.
  assert (desired <= MAX_SLOTS)%nat as Hle by (unfold desired; lia). pose proof slot_bytes_pos as Hs.
  destruct (Nat.leb_spec desired (hp_capacity s.1)) as [Hge|Hlt].
  - destruct s as [p h]. destruct (resize _ _ _ _ _) as [r1 s1] eqn:Hr. cbn [fst snd] in *. apply resize_live in Hr; [|done].
    destruct Hr as [(-> & Hc & Hl)|(_ & ? & _)]; [|lia]. intros [= <- <-]. rewrite Hc. split; [done|]. split; [lia|]. split; [nia|lia].
  - destruct (Z.ltb_spec largest_free_block (slot_bytes MTU)).
    + intros [= <- <-]. split; [done|]. split; [lia|]. lia.
    + intros Hr%growth_admitted; [|lia]. destruct Hr as (-> & ? & ?). split; [done|]. split; [lia|]. split; [done|lia].
Qed.
End budget.

(** ** The two descriptions agree

    A resize that nobody interrupts, taken one atomic access at a time, does to the
    pool and the allocator what [resize] says. *)
Section alone.
Context (MAX_SLOTS : nat) {A : Type} (allocate : A -> option Z * A) (deallocate : Z -> A -> A).

(** The allocator after a step of the only agent [a]. *)
Definition allocator_after (p : HeapPacketPool) (h : A) (a : agent) (e : effect) : A :=
  match e with
  | Freed b => deallocate b h
  | _ => match a with
         | Growing slot target _ => if (slot <? target)%nat && bool_decide (buffer p slot = None) then (allocate h).2 else h
         | _ => h
         end
  end.

Inductive alone_step : HeapPacketPool * A * list agent -> HeapPacketPool * A * list agent -> Prop :=
  | Alone p h a p' out e :
      agent_step MAX_SLOTS p (allocate h).1 Commit a = Ok (p', out, e) ->
      alone_step (p, h, [a]) (p', allocator_after p h a e, out).

Abbreviation runs := (rtc alone_step).

Lemma alone_once p h a p' out e h' :
  agent_step MAX_SLOTS p (allocate h).1 Commit a = Ok (p', out, e) -> h' = allocator_after p h a e ->
  alone_step (p, h, [a]) (p', h', out).
Proof. intros Hs ->. by apply Alone. Qed.
Local Ltac one_step := eapply rtc_l; [apply alone_once with (e := Silent); [reflexivity|reflexivity]|].

Lemma dropping_runs (l : list (nat * Z)) p h :
  runs (p, h, [Dropping l]) (p, fold_left (fun h sb => deallocate sb.2 h) l h, []).
Proof.
  revert h. induction l as [|[i b] l IH]; intros h; [by one_step|].
  eapply rtc_l; [by apply alone_once with (e := Freed b)|]. cbn [fold_left allocator_after snd]. apply IH.
Qed.

Lemma growing_runs n slot pending p h r h' :
  allocate_pending allocate deallocate p (seq slot n) pending h = (r, h') ->
  runs (p, h, [Growing slot (slot + n) (rev pending)]) (p, h', match r with Some l => [GrowLock (slot + n) l] | None => [] end).
Proof.
  revert slot pending h. induction n as [|n IH]; intros slot pending h; cbn [seq allocate_pending].
  - intros [= <- <-]. eapply rtc_l; [|reflexivity]. eapply alone_once with (e := Silent); cbn [agent_step allocator_after];
      rewrite (proj2 (Nat.ltb_ge slot (slot + 0))) by lia; done.
  - replace (slot + S n)%nat with (S slot + n)%nat by lia. assert ((slot <? S slot + n) = true)%nat as Hlt by (apply Nat.ltb_lt; lia).
    destruct (buffer p slot) as [b0|] eqn:Hb.
    + intros Hr%IH. eapply rtc_l; [|exact Hr]. apply alone_once with (e := Silent); cbn [agent_step allocator_after]; by rewrite Hlt, Hb.
    + destruct (allocate h) as [[b|] h1] eqn:Ha.
      * intros Hr%IH. eapply rtc_l; [|exact Hr]. apply alone_once with (e := Allocated b); cbn [agent_step allocator_after];
          rewrite Hlt, ?Hb, Ha; done.
      * intros [= <- <-]. eapply rtc_l; [|apply dropping_runs]. apply alone_once with (e := Silent); cbn [agent_step allocator_after];
          rewrite Hlt, ?Hb, Ha; done.
Qed.

Lemma install_runs i b l target p h :
  runs (lock p, h, [Installing target ((i, b) :: l)])
    (lock (install deallocate (p, h) (i, b)).1, (install deallocate (p, h) (i, b)).2, [Installing target l]).
Proof.
  unfold install. cbn [fst snd]. destruct (buffer p i) as [b0|] eqn:Hb.
  - eapply rtc_l; [|reflexivity]. apply alone_once with (e := Freed b); [|reflexivity]. cbn [agent_step]. change (buffer (lock p) i) with (buffer p i). by rewrite Hb.
  - eapply rtc_l; [apply alone_once with (e := Silent); [|reflexivity]; cbn [agent_step]; change (buffer (lock p) i) with (buffer p i); by rewrite Hb|].
    one_step. one_step. reflexivity.
Qed.

Lemma installing_runs (l : list (nat * Z)) target s :
  runs (lock s.1, s.2, [Installing target l])
    (lock (fold_left (install deallocate) l s).1, (fold_left (install deallocate) l s).2, [SetCapacity target target]).
Proof.
  revert s. induction l as [|[i b] l IH]; intros [p h]; [by one_step|]. cbn [fold_left]. etransitivity; [apply install_runs|apply IH].
Qed.

Lemma retire_runs slot next p h :
  runs (lock p, h, [RetireMark slot next])
    (lock (retire_locked deallocate slot (p, h)).1, (retire_locked deallocate slot (p, h)).2, [Working next]).
Proof.
  unfold retire_locked. cbn [fst snd]. one_step. eapply rtc_l; [by apply alone_once with (e := Silent)|].
  change (buffer (set_reference slot WRITER (lock p)) slot) with (buffer p slot). destruct (buffer p slot) as [b|]; [|reflexivity].
  eapply rtc_l; [by apply alone_once with (e := Freed b)|]. reflexivity.
Qed.

Lemma shrinking_runs n slot target s :
  runs (lock s.1, s.2, [Working (JobShrink slot (slot + n) target)])
    (let s' := fold_left (fun s slot => if references s.1 slot =? 0 then retire_locked deallocate slot s else s) (seq slot n) s in
     (lock s'.1, s'.2, [Working (JobReclaim target)])).
Proof.
  revert slot s. induction n as [|n IH]; intros slot [p h]; cbn [seq fold_left].
  - eapply rtc_l; [|reflexivity]. apply alone_once with (e := Silent); cbn [agent_step job_step];
      [by rewrite (proj2 (Nat.ltb_ge slot (slot + 0))) by lia|done].
  - replace (slot + S n)%nat with (S slot + n)%nat by lia. assert ((slot <? S slot + n) = true)%nat as Hlt by (apply Nat.ltb_lt; lia).
    cbn [fst snd]. destruct (references p slot =? 0) eqn:Hz.
    + eapply rtc_l; [apply alone_once with (e := Silent); [|reflexivity]; cbn [agent_step job_step]; rewrite Hlt;
        change (references (lock p) slot) with (references p slot); by rewrite Hz|].
      etransitivity; [apply retire_runs|]. apply IH.
    + eapply rtc_l; [apply alone_once with (e := Silent); [|reflexivity]; cbn [agent_step job_step]; rewrite Hlt;
        change (references (lock p) slot) with (references p slot); by rewrite Hz|].
      apply (IH (S slot) (p, h)).
Qed.

Lemma reclaiming_runs n slot s :
  (slot + n = MAX_SLOTS \/ n = 0 /\ MAX_SLOTS <= slot)%nat ->
  runs (lock s.1, s.2, [Working (JobReclaim slot)])
    (let s' := fold_left (fun s slot =>
       if (references s.1 slot =? 0) && bool_decide (is_Some (buffer s.1 slot)) then retire_locked deallocate slot s else s) (seq slot n) s in
     (lock s'.1, s'.2, [Working JobUnlock])).
Proof.
  revert slot s. induction n as [|n IH]; intros slot [p h] Hn; cbn [seq fold_left].
  - eapply rtc_l; [|reflexivity]. apply alone_once with (e := Silent); cbn [agent_step job_step];
      [by rewrite (proj2 (Nat.ltb_ge slot MAX_SLOTS)) by lia|done].
  - assert ((slot <? MAX_SLOTS) = true)%nat as Hlt by (apply Nat.ltb_lt; lia).
    cbn [fst snd]. destruct ((references p slot =? 0) && bool_decide (is_Some (buffer p slot))) eqn:Hz.
    + eapply rtc_l; [apply alone_once with (e := Silent); [|reflexivity]; cbn [agent_step job_step]; rewrite Hlt;
        change (references (lock p) slot) with (references p slot); change (buffer (lock p) slot) with (buffer p slot); by rewrite Hz|].
      etransitivity; [apply retire_runs|]. apply IH. lia.
    + eapply rtc_l; [apply alone_once with (e := Silent); [|reflexivity]; cbn [agent_step job_step]; rewrite Hlt;
        change (references (lock p) slot) with (references p slot); change (buffer (lock p) slot) with (buffer p slot); by rewrite Hz|].
      apply (IH (S slot) (p, h)). lia.
Qed.

(** Nothing of a resize but its lock and its unlock touches the lock. *)
Lemma fold_lock {B} (f : HeapPacketPool * A -> B -> HeapPacketPool * A) (l : list B) s :
  (forall s x, hp_lock (f s x).1 = hp_lock s.1) -> hp_lock (fold_left f l s).1 = hp_lock s.1.
Proof. intros Hf. revert s. induction l as [|x l IH]; intros s; [done|]. cbn [fold_left]. by rewrite IH, Hf. Qed.
Lemma retire_lock slot (s : HeapPacketPool * A) : hp_lock (retire_locked deallocate slot s).1 = hp_lock s.1.
Proof. by destruct s. Qed.
Lemma install_lock (s : HeapPacketPool * A) sb : hp_lock (install deallocate s sb).1 = hp_lock s.1.
Proof. destruct s as [p h]. unfold install. by destruct (buffer p sb.1). Qed.
Lemma shrink_lock (l : list nat) (s : HeapPacketPool * A) :
  hp_lock (fold_left (fun s slot => if references s.1 slot =? 0 then retire_locked deallocate slot s else s) l s).1 = hp_lock s.1.
Proof. apply fold_lock. intros s' x. case_match; [apply retire_lock|done]. Qed.
Lemma reclaim_lock capacity (s : HeapPacketPool * A) : hp_lock (reclaim_retired_locked MAX_SLOTS deallocate capacity s).1 = hp_lock s.1.
Proof. apply fold_lock. intros s' x. case_match; [apply retire_lock|done]. Qed.
Lemma unlock_lock p : hp_lock p = false -> unlock (lock p) = p.
Proof. destruct p as [l c b r]. cbn. by intros ->. Qed.

(** From the store of the capacity on, growth and shrinking are one. *)
Lemma settling_runs current target s :
  (target <= MAX_SLOTS)%nat -> hp_lock s.1 = false ->
  runs (lock s.1, s.2, [SetCapacity current target])
    (let s' := fold_left (fun s slot => if references s.1 slot =? 0 then retire_locked deallocate slot s else s)
                 (seq target (current - target)) (s.1 <| hp_capacity := target |>, s.2) in
     let s' := reclaim_retired_locked MAX_SLOTS deallocate target s' in (s'.1, s'.2, [])).
Proof.
  intros Ht Hl. cbn zeta. set (s1 := fold_left _ _ _). one_step.
  transitivity (lock s1.1, s1.2, [Working (JobReclaim target)]).
  - destruct (le_gt_dec target current) as [Hle|Hgt].
    + pose proof (shrinking_runs (current - target) target target (s.1 <| hp_capacity := target |>, s.2)) as Hrun.
      replace (target + (current - target))%nat with current in Hrun by lia. exact Hrun.
    + unfold s1. replace (current - target)%nat with 0%nat by lia. cbn [seq fold_left fst snd]. eapply rtc_l; [|reflexivity].
      apply alone_once with (e := Silent); cbn [agent_step job_step]; [by rewrite (proj2 (Nat.ltb_ge target current)) by lia|done].
  - etransitivity; [apply (reclaiming_runs (MAX_SLOTS - target)); lia|]. cbn zeta.
    set (s2 := fold_left _ _ s1). change (reclaim_retired_locked MAX_SLOTS deallocate target s1) with s2.
    eapply rtc_l; [by apply alone_once with (e := Silent)|]. cbn [allocator_after].
    rewrite unlock_lock; [reflexivity|]. transitivity (hp_lock s1.1); [exact (reclaim_lock target s1)|]. unfold s1. by rewrite shrink_lock.
Qed.

(** C25: a resize within the table that nobody interrupts, taken one atomic access at
    a time from its first load to the release of the lock, comes to its end, and
    leaves the pool and the allocator as the sequential [resize] does: on growth,
    on shrinking, and when an allocation fails. *)
Theorem resize_alone target p h r p' h' :
  (target <= MAX_SLOTS)%nat -> hp_lock p = false ->
  resize MAX_SLOTS allocate deallocate target (p, h) = (r, (p', h')) ->
  runs (p, h, [start_resize target p]) (p', h', []).
Proof.
  intros Ht Hl. unfold resize, start_resize. rewrite (proj2 (Nat.ltb_ge _ _)) by lia.
  destruct (Nat.ltb_spec (hp_capacity p) target) as [Hlt|Hge].
  - destruct (allocate_pending _ _ _ _ _ _) as [[pending|] h1] eqn:Ha; apply growing_runs in Ha;
      replace (hp_capacity p + (target - hp_capacity p))%nat with target in Ha by lia; cbn [rev] in Ha.
    + set (s1 := fold_left (install deallocate) pending (p, h1)). assert (hp_lock s1.1 = false) as Hl1
        by (unfold s1; rewrite fold_lock; [done|apply install_lock]).
      pose proof (settling_runs target target s1 Ht Hl1) as Hset. replace (target - target)%nat with 0%nat in Hset by lia.
      cbn [seq fold_left] in Hset. destruct s1 as [p1 h2] eqn:Hs1. cbn [fst snd] in *. intros [= _ Heq]. rewrite Heq in Hset. cbn [fst snd] in Hset.
      etransitivity; [exact Ha|]. eapply rtc_l; [apply alone_once with (e := Silent); [cbn [agent_step]; by rewrite Hl|reflexivity]|].
      etransitivity; [apply (installing_runs pending target (p, h1))|]. fold s1. unfold s1 in *. rewrite Hs1. exact Hset.
    + intros [= _ <- <-]. exact Ha.
  - pose proof (settling_runs (hp_capacity p) target (p, h) Ht Hl) as Hset. intros [= _ Heq]. cbn [fst snd] in Hset. rewrite Heq in Hset.
    eapply rtc_l; [apply alone_once with (e := Silent); [cbn [agent_step]; by rewrite Hl|reflexivity]|]. exact Hset.
Qed.
End alone.

(** ** Runs on concrete pools *)
Module Demo.

(** A schedule: who comes, and which agent (by its place) steps with which buffer and choice. *)
Inductive act : Type :=
  | Acquire (k : kind) (reserved : nat)
  | Resize (target : nat)
  | Step (i : nat) (alloc : option Z) (ch : choice).

Definition do_act (MAX_SLOTS : nat) (c : config) (x : act) : option config :=
  match x with
  | Acquire k reserved => Some (mkConfig (cf_pool c) (cf_agents c ++ [Trying k reserved]) (cf_allocated c) (cf_freed c))
  | Resize target =>
      if decide (target <= MAX_SLOTS)%nat
      then Some (mkConfig (cf_pool c) (cf_agents c ++ [start_resize target (cf_pool c)]) (cf_allocated c) (cf_freed c)) else None
  | Step i alloc ch =>
      a ← cf_agents c !! i;
      if decide (Forall (fun b => b ∉ cf_allocated c) (option_list alloc)) then
        match agent_step MAX_SLOTS (cf_pool c) alloc ch a with
        | Ok (p, out, e) =>
            Some (mkConfig p (take i (cf_agents c) ++ out ++ drop (S i) (cf_agents c)) (cf_allocated c ++ allocations e) (cf_freed c ++ frees e))
        | _ => None
        end
      else None
  end.
Definition do_acts (MAX_SLOTS : nat) (xs : list act) (c : config) : option config :=
  fold_left (fun c x => c ← c; do_act MAX_SLOTS c x) xs (Some c).

Lemma do_act_step MAX_SLOTS c x c' : do_act MAX_SLOTS c x = Some c' -> pool_step MAX_SLOTS c c'.
Proof.
  destruct x as [k reserved|target|i alloc ch]; cbn [do_act].
  - intros [= <-]. apply StartAcquire.
  - case_decide; [|done]. intros [= <-]. by apply StartResize.
  - destruct (cf_agents c !! i) as [a|] eqn:Hi; [|done]. cbn [mbind option_bind]. case_decide as Hf; [|done].
    destruct (agent_step _ _ _ _ _) as [[[p out] e]|?|] eqn:Hs; [|done|done]. intros [= <-].
    apply (Act _ _ _ a _ alloc ch); [by rewrite take_drop_middle| |done]. intros b ->. unfold option_list, option_rect in Hf. by rewrite Forall_singleton in Hf.
Qed.
Lemma do_acts_none MAX_SLOTS xs : fold_left (fun c x => c ← c; do_act MAX_SLOTS c x) xs None = None.
Proof. by induction xs. Qed.
Lemma do_acts_runs MAX_SLOTS xs c c' : do_acts MAX_SLOTS xs c = Some c' -> rtc (pool_step MAX_SLOTS) c c'.
Proof.
  unfold do_acts. revert c. induction xs as [|x xs IH]; intros c; cbn [fold_left]; [by intros [= ->]|]. cbn [mbind option_bind].
  destruct (do_act MAX_SLOTS c x) as [c1|] eqn:Hx; [|by rewrite do_acts_none]. intros Hr%IH. eapply rtc_l; [by eapply do_act_step|exact Hr].
Qed.

Definition empty (MAX_SLOTS : nat) : config := mkConfig (mkHeapPacketPool false 0 (replicate MAX_SLOTS None) (replicate MAX_SLOTS WRITER)) [] [] [].
Definition played (MAX_SLOTS : nat) (xs : list act) : config := default (empty MAX_SLOTS) (do_acts MAX_SLOTS xs (empty MAX_SLOTS)).

Lemma played_reachable MAX_SLOTS xs : Z.of_nat MAX_SLOTS <= U8_MAX -> reachable MAX_SLOTS (played MAX_SLOTS xs).
Proof.
  intros Hm. exists (cf_pool (empty MAX_SLOTS)). unfold new. rewrite (proj2 (Z.leb_le _ _)) by done. split; [done|].
  unfold played. destruct (do_acts _ _ _) as [c|] eqn:Hc; [by eapply do_acts_runs|reflexivity].
Qed.

(** The next [n] steps of agent [i]. *)
Definition steps (i n : nat) : list act := replicate n (Step i None Commit).
(** A growth by one slot of an idle pool, with buffer [b]; then a lease of that slot. *)
Definition grow_to_one (MAX_SLOTS : nat) (b : Z) : list act := [Resize 1; Step 0 (Some b) Commit] ++ steps 0 (9 + MAX_SLOTS).
Definition lease_one : list act := [Acquire ForWriter 0] ++ steps 0 8.

(** A lease of a slot above the capacity ends between a growth's look at the slot's
    storage and its taking of the lock. *)
Definition shrink_under_lease : list act := [Resize 0] ++ steps 1 7.
Definition late_release : list act := [Resize 1] ++ steps 1 1 ++ [Step 0 None Drop] ++ steps 0 8 ++ steps 0 7.
Definition losing : list act := grow_to_one 1 100 ++ lease_one ++ shrink_under_lease ++ late_release.
Definition lost_pool : HeapPacketPool := mkHeapPacketPool false 1 [None] [WRITER].

(** [capacity] says "active slots which may currently be acquired" and growth
    allocates the slots that have no storage; but a growth that overlaps the end of a
    lease leaves an active slot without storage and marked as written: nothing is in
    use, nothing is available, and maintenance, which compares capacities, keeps
    answering that one slot is there. *)
Lemma active_slot_lost :
  played 1 losing = mkConfig lost_pool [] [100] [100] /\ reachable 1 (played 1 losing) /\
  available lost_pool = 0 /\ in_use lost_pool = 0 /\ allocated lost_pool = 0 /\
  forall (A : Type) (allocate : A -> option Z * A) (deallocate : Z -> A -> A) (h : A) (available_bytes largest reserve : Z),
    maintain_free 1 allocate deallocate 100 1 1 available_bytes largest reserve (lost_pool, h) = (Ok 1%nat, (lost_pool, h)).
Proof.
  split; [by vm_compute|]. split; [by apply played_reachable|]. split; [by vm_compute|]. split; [by vm_compute|]. split; [by vm_compute|]. reflexivity.
Qed.
End Demo.

(** ** Witnesses *)
Import Demo.

Definition in_lease : config := played 2 (grow_to_one 2 100 ++ lease_one ++ [Step 0 None Clone; Resize 2; Step 2 (Some 101) Commit]).

Lemma storage_outlives_users_witness :
  cf_agents in_lease = [Leased 0; Leased 0; Growing 2 2 [(1%nat, 101)]] /\
  (exists s, buffer (cf_pool in_lease) 0 = Some s /\ s ∈ cf_allocated in_lease /\ s ∉ cf_freed in_lease) /\
  (Forall (fun k => k = ForRaw) (users 0 (cf_agents in_lease)) /\
   references (cf_pool in_lease) 0 = zlen (users 0 (cf_agents in_lease)) /\ references (cf_pool in_lease) 0 < WRITER).
Proof.
  split; [by vm_compute|]. apply (storage_outlives_users 2 in_lease 0 (Leased 0) ForRaw);
    [by apply played_reachable|apply list_elem_of_lookup; exists 0%nat; by vm_compute|done].
Defined.

Lemma heap_buffers_conserved_witness :
  cf_allocated in_lease = [100; 101] /\
  cf_allocated in_lease ≡ₚ omap id (hp_buffers (cf_pool in_lease)) ++ (cf_agents in_lease ≫= owned) ++ cf_freed in_lease /\
  NoDup (cf_allocated in_lease).
Proof. split; [by vm_compute|]. apply (heap_buffers_conserved 2). by apply played_reachable. Defined.

Lemma clone_panics_exactly_witness :
  ~ agent_step 2 (cf_pool in_lease) None Clone (Leased 0) = Panic.
Proof.
  intros Hp. apply (clone_panics_exactly 2 in_lease (Leased 0) None Clone) in Hp;
    [|by apply played_reachable|apply list_elem_of_lookup; exists 0%nat; by vm_compute].
  destruct Hp as (slot & [= <-] & _ & Hn). vm_compute in Hn. discriminate Hn.
Defined.

(** A release waits for nobody while a resize has the lock. *)
Definition contended : config := played 1 (grow_to_one 1 100 ++ lease_one ++ shrink_under_lease ++ [Resize 0] ++ steps 1 1 ++ [Step 0 None Drop; Step 0 None Drop]).

Lemma callbacks_never_spin_witness :
  cf_agents contended = [TryFinal 0; SetCapacity 0 0] /\ hp_lock (cf_pool contended) = true /\
  exists p out e, agent_step 1 (cf_pool contended) None Drop (TryFinal 0) = Ok (p, out, e) /\ (length out <= 1)%nat /\
    Forall (fun a' => held a' = true \/ (callback a' = true /\ (rank 1 a' < rank 1 (TryFinal 0))%nat)) out.
Proof.
  split; [by vm_compute|]. split; [by vm_compute|].
  apply (callbacks_never_spin 1 contended); [by apply played_reachable|apply list_elem_of_lookup; exists 0%nat; by vm_compute|done].
Defined.

(** An allocator that numbers its buffers and has room for [snd] more; [given] counts. *)
Definition counting_allocate (h : Z * Z) : option Z * (Z * Z) := if 0 <? h.2 then (Some h.1, (h.1 + 1, h.2 - 1)) else (None, h).
Definition counting_deallocate (_ : Z) (h : Z * Z) : Z * Z := (h.1, h.2 + 1).
Definition counting_live (h : Z * Z) : Z := 10 - h.2.

Definition empty_pool : HeapPacketPool := cf_pool (empty 8).
Definition maintained : outcome HeapPacketPoolError.t nat * (HeapPacketPool * (Z * Z)) :=
  maintain_free 8 counting_allocate counting_deallocate 100 8 8 1396 2048 1000 (empty_pool, (0, 10)).

Lemma maintenance_within_budget_witness :
  hp_capacity maintained.2.1 = 3%nat /\ counting_live maintained.2.2 = 3 /\
  maintained.1 = Ok (hp_capacity maintained.2.1) /\ (0 <= hp_capacity maintained.2.1 <= 8)%nat /\
  (counting_live maintained.2.2 - 0) * 132 <= 396.
Proof.
  split; [by vm_compute|]. split; [by vm_compute|].
  destruct (maintenance_within_budget 8 counting_allocate counting_deallocate 100 counting_live) with
    (target_free := 8%nat) (device_limit := 8%nat) (available_bytes := 1396) (largest_free_block := 2048) (reserve_bytes := 1000)
    (s := (empty_pool, (0, 10))) (r := maintained.1) (s' := maintained.2) as (Hr & Hc & Hb & _).
  - intros [n r] b h'. unfold counting_allocate, counting_live. cbn. case_match; [|done]. intros [= _ <-]. cbn. lia.
  - intros [n r] h'. unfold counting_allocate. case_match; [done|]. by intros [= <-].
  - intros b [n r]. unfold counting_deallocate, counting_live. cbn. lia.
  - lia.
  - by vm_compute.
  - split; [exact Hr|]. split; [exact Hc|exact Hb].
Defined.

Definition resized : outcome HeapPacketPoolError.t unit * (HeapPacketPool * (Z * Z)) :=
  resize 8 counting_allocate counting_deallocate 3 (empty_pool, (0, 10)).

Lemma resize_alone_witness :
  hp_buffers resized.2.1 = [Some 0; Some 1; Some 2; None; None; None; None; None] /\
  rtc (alone_step 8 counting_allocate counting_deallocate) (empty_pool, (0, 10), [start_resize 3 empty_pool]) (resized.2.1, resized.2.2, []).
Proof.
  split; [by vm_compute|].
  apply (resize_alone 8 counting_allocate counting_deallocate 3 empty_pool (0, 10) resized.1 resized.2.1 resized.2.2); [lia|done|by vm_compute].
Defined.
